(* ===== verification/_CoqProject ===== *)
-Q . S2P
Prelude.v
Types.v
Text.v
Paths.v
RecvBuffer.v
PacketSession.v
SendBuffer.v
SendQueue.v
MpscQueue.v
JobQueue.v
Session.v
SessionProofs.v
HttpRequest.v
RadixTree.v
HttpResponse.v
HttpParser.v
Router.v
HttpSession.v
HttpSessionProofs.v
Rooms.v
RingBuffer.v
Ring.v
Wakeup.v
Listener.v
Worker.v
Hls.v
CpuAffinity.v
Logging.v
WebServer.v
WebSocket.v
DropMeta.v
DropStore.v
DropStoreProofs.v
ActivityText.v
ActivityHub.v
ActivityServer.v
ActivityProofs.v
ProxyBridge.v
ProxyConnector.v
ProxyServer.v
ProxyTls.v
Acme.v
Dungeon.v
DungeonRegions.v
DungeonProofs.v
AStar.v
Float32.v
Outbox.v
DungeonRoom.v
DungeonBots.v
DungeonRoomProofs.v
DungeonServer.v
DungeonServerProofs.v
ProxyConfig.v
Inbox.v
ProxyMetrics.v
AcmeServer.v
StatusJson.v
StatusServer.v
