(* ===== verification/Prelude.v ===== *)
(** * Verification of the io_uring runtime

    A C++ server runtime on Linux io_uring, with modules for game servers, HTTP
    servers and a TCP proxy.  A worker thread owns a ring and the connections
    (sessions) accepted on it.  Completions are dispatched to the session they
    belong to; the session hands received bytes to the protocol on top of it
    (length-prefixed game packets or HTTP) and sends buffers from a pooled
    allocator through a bounded queue, one batch in flight at a time.
    Application work that must not race runs through serializing job queues,
    which worker threads take from a global queue.

    Programs built on it, and modelled here: a file drop application, the server of
    a video activity (HTTP, WebSocket and downloads), a dungeon game server, a
    webhook inbox, a status server and the configuration of a reverse proxy.

    ** Which file models what

    - Prelude: machine integers as [Z] with their wrap-around written out,
      bytes, bounds-checked memory, the closure of a step relation, tactics and
      hint databases.
    - Types: the error enumerations (core/Error.h) and [std::expected].
    - Text: the parts of [std::string_view] and [<charconv>] the code uses.
    - RecvBuffer: core/RecvBuffer.h over explicit memory, and the class
      [ReassemblyBuffer] its clients rely on.
    - PacketSession: modules/game/PacketSession.cpp and game/PacketBuilder.h,
      proved against [ReassemblyBuffer].
    - SendBuffer: core/SendBuffer.h, the pool with its chunks, over memory.
    - SendQueue: core/SendQueue.h, a function per method.
    - MpscQueue: core/MpscQueue.h, a step per atomic access, any number of
      producers and one consumer.
    - JobQueue: runtime/job/*.cpp, a step per access to the count and the queue;
      modules [GlobalQueue] and [JobTimer].
    - Session and SessionProofs: runtime/io/Session.cpp, SessionSend.cpp and
      their headers, one function per method on the owner thread, driven by the
      completions of the ring and by calls of an arbitrary application.
    - HttpRequest: web/HttpRequest.h and web/HttpMethod.h.
    - RadixTree: modules/web/RadixTree.cpp.
    - HttpResponse: modules/web/HttpResponse.cpp and web/HttpStatus.h, over the
      pool of SendBuffer.
    - HttpParser: modules/web/HttpParser.cpp; llhttp is a parameter.
    - Router: modules/web/Router.cpp over RadixTree and HttpResponse.
    - HttpSession and HttpSessionProofs: modules/web/HttpSession*.cpp and
      RouterDeferred.cpp over all of these and the class [BaseSession], the
      contract of the base class.
    - RingBuffer, Ring and Wakeup: runtime/ring/*.cpp.  RingBuffer is the ring of
      provided buffers over the class [BufRing]; Ring has the preparation of
      requests, submission and dispatch over the class [Uring], and the contract
      [handlers_ok] of event handlers; Wakeup interleaves the thread of a ring with
      threads that post tasks to it.
    - Listener: runtime/io/Listener.cpp, as event handlers on Ring.
    - Worker: runtime/io/Worker.cpp, WorkerPool.cpp and SessionManager.cpp.
    - Rooms: modules/game/PlayerRegistry.cpp, Room.cpp (jobs on JobQueue) and
      RoomManager.cpp.
    - Hls: modules/media/Hls.cpp.
    - ProxyBridge: modules/proxy/ProxyBridge.cpp and the plain peers of
      ProxySessions.cpp; the nested callbacks are a stack of frames.
    - ProxyConnector: modules/proxy/ProxyConnector.cpp and
      TcpProxyServer::StartConnector.
    - ProxyServer: routing, start, stop, reload and metrics text of
      modules/proxy/TcpProxyServer.cpp.
    - ProxyTls: the TLS peers of ProxySessions.cpp over the class [OpenSSL].
    - ProxyMetrics: the metrics text of TcpProxyServer.cpp, the thread that puts it
      into a file, and the draining of connections (TcpProxyServerWorker.cpp).
    - Acme and AcmeServer: modules/proxy/AcmeChallengeSession.cpp over
      [ReassemblyBuffer], and AcmeHttpChallengeServer.cpp over Worker.
    - WebServer: modules/web/WebServer.cpp and WebServerWorker.cpp over Worker.
    - CpuAffinity and Logging: runtime/common/CpuAffinity.cpp and
      modules/observability/Logging.cpp.

    The programs, under app/:

    - Paths: the parts of [std::filesystem::path] they use.
    - DropMeta, DropStore and DropStoreProofs: examples/web/dropapp, the texts and
      names, then the uploads with their asynchronous writes over a file system.
    - WebSocket: the frames of activity-server/src/ActivitySession.cpp.
    - ActivityText, ActivityHub, ActivityServer and ActivityProofs:
      activity-server/src, the texts, the shared state, and the sessions and
      download threads as steps.
    - Dungeon, DungeonRegions and DungeonProofs: dungeon_generator.cpp of
      examples/game/dungeon_full_server/src/game, and why its maps are connected.
    - Float32: the [float] of the game code.
    - AStar: the path search of bot_manager.cpp.  DungeonBots: the rest of that file
      and the tick of a room.
    - DungeonRoom: room.cpp with the combat, party and chat systems, the projectiles
      and the handlers of packets in a room.  DungeonRoomProofs: what holds in it.
    - Outbox: net/outbound_mailbox.cpp.
    - DungeonServer and DungeonServerProofs: accounts, session states, players and the
      room manager, with the sessions, rooms and workers of a server as steps.
    - ProxyConfig: examples/proxy/tcp_reverse_proxy/src/TcpReverseProxyConfig.cpp.
    - Inbox: examples/web/webhook_inbox/src/main.cpp.
    - StatusJson and StatusServer: examples/web/status_server/src/main.cpp, its JSON
      checker with a grammar, and the rest.

    A comment "Source: file:lines, symbol" before a definition names the code it
    translates.  Source names are kept; a leading [None] of an [option] result is
    undefined behaviour (an access outside an allocation, a null or dangling
    pointer, pointer arithmetic across objects) or, where a definition says so,
    exhausted fuel.

    ** What the theorems show

    - Bytes are neither lost, duplicated nor reordered: by a session in either
      direction ([session_send_order], [session_recv_order]), by the send queue
      ([send_queue_fifo]), after a partial send ([AdvanceSendState_exact]), by
      packet framing however the stream is cut ([feed_parse],
      [stream_roundtrip], [Build_feed]), by the queues between threads
      ([mpsc_linearizable], [job_queue_serialized], [posted_tasks_fifo]), by
      chunked and streamed responses ([BuildBuffers_wire], [body_stream_exact]), by
      the proxy in either direction ([bridge_fifo]); over TLS they stay in order, and
      none is lost unless OpenSSL asked for a write to be retried ([tls_streams]).
    - Resources are safe: a session is released once and only when the kernel
      owes it no completion ([session_release_safe]);
      pool buffers are private while sizes do not wrap and releases are not interleaved
      with allocations ([run_ops_refines], [Allocate_available]); the
      parser never holds more than its limits ([parser_limits]).
    - The ring: every completion is handled once and in order ([Dispatch_stream]);
      an event lives until its last completion and not longer, for handlers that
      keep the contract ([event_lifetime]); every receive buffer is the kernel's or
      the program's ([ring_buffer_partition]); user data names an event, a task or
      the wake-up without confusion ([user_data_roundtrip]).
    - The listener keeps that contract, its events are those of the requests the kernel
      holds, it has at most one accept request, loses no accepted descriptor and keeps the session limit ([listener_sound]); workers
      and pools start and stop as wholes ([worker_lifecycle], [pool_start]) and run
      what was posted ([worker_runs_posted]).
    - Upstream connection attempts are finished, closed and counted once
      ([connectors_sound]); a running proxy can route every connection
      ([running_server_routes], [HostnameMatches_spec]); its metrics file is a whole
      JSON document at every moment ([metrics_whole]), and stopping it returns
      ([stop_returns], [drain_returns]).
    - Rooms and players: the registry's two indexes are one table
      ([registry_refines]), a room is changed by one job at a time ([room_serial]),
      identifiers are fresh ([CreateRoom_fresh]).
    - Nothing stalls: [no_lost_wakeup], [session_no_stall], [send_queue_registration],
      [job_queue_one_token], [Execute_runs_all], [mpsc_drain_complete].
    - Routing refines a table of patterns searched in priority order
      ([Match_refines_table], [Match_params], [Dispatch_selects]); every request
      is handed an answer or deferred ([request_answered], [Send_once]), a challenge
      once and from below the web root ([acme_one_answer], [acme_confined]) by a server that starts
      and stops cleanly ([acme_server_lifecycle]).
    - Encodings round-trip: response heads against a reference parser
      ([Build_framing]), requests against their events ([message_delivered]),
      queries, cookies and lengths ([query_roundtrip], [Cookie_first],
      [ContentLength_decimal]), playlist URLs ([ProxyHlsUrl_roundtrip],
      [RewriteHlsManifest_proxies]), JSON strings ([JsonEscape_roundtrip]).
    - A web server starts as a whole or not at all ([web_server_lifecycle]) and
      answers a connection it refuses ([rejected_answered]); workers are placed on
      distinct cores while there are any ([workers_spread]).
    - With a submission batch of 1, the drop application stores under a final name
      exactly what was uploaded ([uploads_exact]), answers each request once and with
      what happened ([uploads_answered]) and leaves nothing behind
      ([uploads_resources]); it reads its records back ([meta_roundtrip]).  With larger
      batches it need not ([stale_descriptor_write]).
    - The activity server plays what a simple player would ([playback_refines]),
      settles every download ([downloads_settle]), takes frames however they are cut
      ([ws_frames_delivered]), serves files and ranges of them ([file_served]) and
      gives the shell the words it means ([shell_commands]).
    - The dungeon: a map is one region ([dungeon_connected], [regions_are_components])
      in which the search finds shortest ways ([bots_find_their_way]); messages leave
      in order and in turns ([outbox_fifo_fair]); a room stays in order
      ([room_in_order]); a client shows the players and items of its room
      ([clients_see_their_rooms]); nobody plays as a player whose password he has not
      given ([only_owners_play]).
    - The inbox has after a start what it had before ([inbox_reopens]); the proxy
      reads the routes that were written ([routes_read_back]) and gives its queues
      limits that are in order ([watermarks_ordered]).
    - The status server's checker accepts exactly the JSON texts ([validator_exact]),
      what it answers is one ([status_json_valid]), and it reads the snapshots of a
      proxy as they were written and nothing less ([status_reads_proxy]).
    - Loops end: [session_total], [Feed_total], [bridge_calls_return],
      [tls_calls_return], [WaitForZeroSessions_returns] and the fuel bounds below.
    - Some theorems exhibit behaviour the code does not intend:
      [release_race_overlap], [Open_overflow], [oversize_request_leaks],
      [flush_loses_drained_batch], [wildcard_trailing_slash],
      [trailing_slash_route_lost], [allow_header_incomplete],
      [pipelined_response_interleaves], [send_file_double_close],
      [Feed_after_stop], [Available_counts_returns],
      [RunOnRing_failed_submit_dangles], [failed_Start_leaves_socket],
      [GetWorker_shifted], [resume_after_nested_high], [payload_overtakes],
      [want_drops_payload], [too_large_repeats], [dot_tokens_valid],
      [stale_descriptor_write], [expires_at_lost], [negative_length_spins],
      [curl_config_line], [ytdlp_option], [sibling_served], [early_frame_lost],
      [sync_ignored], [stale_state], [removal_unheard], [stream_replaced],
      [header_deletes_event], [removal_forgotten], [type_hides_source],
      [truncated_snapshot], [name_hides_count], [form_feed_valid].

    ** Fuel

    Loops that are not structural take fuel.  PacketSession.OnRecv, Feed, the
    field loops of HttpRequest, split_loop, BuildBuffers and the stream pumps
    consume at least one byte per iteration, so their fuel is the input length
    (plus one); the theorems that state their results show it is enough.  The
    session's callbacks nest to the depth the application chooses: its theorems
    hold for every fuel and [session_total] gives one that is enough for an
    application that makes finitely many calls.  For the calls nested in a proxy
    pair and for those of a TLS session, [bridge_calls_return] and
    [tls_calls_return] show that enough fuel exists; in the latter the result does
    not depend on it.

    In the programs: the loops over queries, cookies, playlists, replacements and
    WebSocket frames consume input at each round and take its length; the JSON checker
    takes two rounds per character ([validator_exact]); the flood
    fill, the number of cells; marking and connecting rooms, and the next free number
    of a room, the number of rooms; the path search, five rounds per cell and two more
    ([bots_find_their_way] shows that it returns), and the way back, its cost.

    ** What is not modelled

    In the library: the creation of OpenSSL contexts, signal handlers and thread names,
    profiling, the remote address of a session and the posting of calls between
    threads, floating-point parameters, log output, and the allocation hint
    EstimateSegmentCount.  Memory accesses of the lock-free queues are sequentially
    consistent.

    In the programs: their main functions and the reading of the environment (but for
    ProxyConfig), routes that only list or serve static files in dropapp and
    webhook_inbox, and in the dungeon server the SQLite database, the loops of the
    workers, when empty rooms are removed, the colours and ranges of lights, and the
    protocol buffers, whose messages are values; in the status server, its HTML.  Not
    at all: file_store_server and the small examples and benchmarks, which are handlers
    over the modules above, vendored code, tools and tests. *)

(** * Shared vocabulary

    Machine integers as [Z] with explicit wrap-around, byte strings, raw
    memory with bounds-checked access, the closure of a step relation, and
    the tactics and hint databases the component files use. *)

From Stdlib Require Export ZArith Lia Ascii String.
From stdpp Require Export base option list gmap strings.

#[export] Set Default Goal Selector "!".
#[local] Open Scope Z_scope.

(** ** Bytes *)

(** A C++ [std::byte] or [char] is an 8-bit value; [ascii] has exactly those. *)
Abbreviation byte := Ascii.ascii.
Abbreviation bytes := (list Ascii.ascii).

Definition byte_val (b : byte) : Z := Z.of_N (N_of_ascii b).
Definition byte_of (z : Z) : byte := ascii_of_N (Z.to_N (z mod 256)).

(** Text literals as byte strings. *)
Definition txt (s : string) : bytes := list_ascii_of_string s.

(** ** Machine integers *)

Definition u16 (z : Z) : Z := z mod 2 ^ 16.
Definition u32 (z : Z) : Z := z mod 2 ^ 32.
Definition u64 (z : Z) : Z := z mod 2 ^ 64.

Declare Scope cxx_scope.
Delimit Scope cxx_scope with cxx.
Notation "a +₃₂ b" := (u32 (a + b)) (at level 50, left associativity) : cxx_scope.
Notation "a -₃₂ b" := (u32 (a - b)) (at level 50, left associativity) : cxx_scope.
Notation "a +₆₄ b" := (u64 (a + b)) (at level 50, left associativity) : cxx_scope.
Notation "a -₆₄ b" := (u64 (a - b)) (at level 50, left associativity) : cxx_scope.

(** ** Lengths and slices indexed by [Z] *)

Definition zlen {A} (l : list A) : Z := Z.of_nat (length l).
Definition ztake {A} (n : Z) (l : list A) : list A := take (Z.to_nat n) l.
Definition zdrop {A} (n : Z) (l : list A) : list A := drop (Z.to_nat n) l.

(** ** Memory

    [None] is undefined behaviour: an access outside the allocation. *)

Definition mem_read (m : bytes) (pos len : Z) : option bytes :=
  if decide (0 ≤ pos ∧ 0 ≤ len ∧ pos + len ≤ zlen m)
  then Some (ztake len (zdrop pos m)) else None.

Definition mem_write (m : bytes) (pos : Z) (d : bytes) : option bytes :=
  if decide (0 ≤ pos ∧ pos + zlen d ≤ zlen m)
  then Some (ztake pos m ++ d ++ zdrop (pos + zlen d) m) else None.

(** ** Lists updated in place *)

(** [find_if] for an element followed by [erase]: the list without its first
    occurrence, [None] when it has none. *)
Fixpoint erase_first {A} `{EqDecision A} (x : A) (l : list A) : option (list A) :=
  match l with
  | [] => None
  | y :: l => if decide (x = y) then Some l else l' ← erase_first x l; Some (y :: l')
  end.

(** ** Reflexive transitive closure of a step relation *)

Section Closure.
Context {S : Type} (step : S → S → Prop).

Inductive steps : S → S → Prop :=
| steps_refl s : steps s s
| steps_cons s1 s2 s3 : step s1 s2 → steps s2 s3 → steps s1 s3.

Lemma steps_trans s1 s2 s3 : steps s1 s2 → steps s2 s3 → steps s1 s3.
Proof. induction 1; eauto using steps. Qed.

Lemma steps_one s1 s2 : step s1 s2 → steps s1 s2.
Proof. eauto using steps. Qed.

(** An inductive property of the steps holds of everything reachable. *)
Lemma steps_invariant (P : S → Prop) s1 s2 :
  (∀ a b, P a → step a b → P b) → P s1 → steps s1 s2 → P s2.
Proof. intros Hstep HP Hs. induction Hs; eauto. Qed.
End Closure.

(** ** Tactics *)

(** Turn boolean tests of the code into the propositions they decide. *)
Ltac propify :=
  repeat match goal with
  | H : (_ && _) = true |- _ => apply andb_true_iff in H as [? ?]
  | H : (_ || _) = false |- _ => apply orb_false_iff in H as [? ?]
  | H : negb _ = true |- _ => apply negb_true_iff in H
  | H : negb _ = false |- _ => apply negb_false_iff in H
  | H : Z.eqb _ _ = true |- _ => apply Z.eqb_eq in H
  | H : Z.eqb _ _ = false |- _ => apply Z.eqb_neq in H
  | H : Z.ltb _ _ = true |- _ => apply Z.ltb_lt in H
  | H : Z.ltb _ _ = false |- _ => apply Z.ltb_ge in H
  | H : Z.leb _ _ = true |- _ => apply Z.leb_le in H
  | H : Z.leb _ _ = false |- _ => apply Z.leb_gt in H
  | H : bool_decide _ = true |- _ => apply bool_decide_eq_true in H
  | H : bool_decide _ = false |- _ => apply bool_decide_eq_false in H
  end.

(** Case split on every test of the goal or of a hypothesis, keeping the
    equations as propositions. *)
Ltac case_tests :=
  repeat (case_match || case_decide); propify; simplify_eq/=.

(** Proof-irrelevant arithmetic over lengths. *)
Ltac len_tac :=
  unfold zlen, ztake, zdrop in *;
  rewrite ?length_app, ?length_take, ?length_drop, ?length_cons, ?length_nil in *;
  lia.

Create HintDb cxx discriminated.

(** ** Machine-integer lemmas *)

Lemma u32_small z : 0 ≤ z < 2 ^ 32 → u32 z = z.
Proof. apply Z.mod_small. Qed.

Lemma u64_small z : 0 ≤ z < 2 ^ 64 → u64 z = z.
Proof. apply Z.mod_small. Qed.

Lemma u16_small z : 0 ≤ z < 2 ^ 16 → u16 z = z.
Proof. apply Z.mod_small. Qed.

Lemma u32_range z : 0 ≤ u32 z < 2 ^ 32.
Proof. unfold u32. apply Z.mod_pos_bound. lia. Qed.

Lemma u64_range z : 0 ≤ u64 z < 2 ^ 64.
Proof. unfold u64. apply Z.mod_pos_bound. lia. Qed.

Lemma u16_range z : 0 ≤ u16 z < 2 ^ 16.
Proof. unfold u16. apply Z.mod_pos_bound. lia. Qed.

Lemma byte_val_range b : 0 ≤ byte_val b < 256.
Proof.
  unfold byte_val. split; [lia|].
  pose proof (N_ascii_bounded b). lia.
Qed.

Lemma byte_of_val b : byte_of (byte_val b) = b.
Proof.
  unfold byte_of. rewrite Z.mod_small by apply byte_val_range.
  unfold byte_val. rewrite N2Z.id. apply ascii_N_embedding.
Qed.

Lemma byte_val_of z : byte_val (byte_of z) = z mod 256.
Proof.
  unfold byte_val, byte_of.
  pose proof (Z.mod_pos_bound z 256 ltac:(lia)).
  rewrite N_ascii_embedding; lia.
Qed.

(** ** Slice lemmas *)

Section Slices.
Context {A : Type}.
Implicit Types (l : list A) (n m : Z).

Lemma zlen_nonneg l : 0 ≤ zlen l.
Proof. unfold zlen. lia. Qed.

Lemma zlen_nil : zlen (@nil A) = 0.
Proof. done. Qed.

Lemma zlen_zero l : zlen l = 0 → l = [].
Proof. destruct l; unfold zlen; simpl; [done|lia]. Qed.

Lemma zlen_cons x l : zlen (x :: l) = 1 + zlen l.
Proof. unfold zlen. simpl. lia. Qed.

Lemma zlen_app l k : zlen (l ++ k) = zlen l + zlen k.
Proof. unfold zlen. rewrite length_app. lia. Qed.

Lemma zlen_ztake n l : 0 ≤ n ≤ zlen l → zlen (ztake n l) = n.
Proof. len_tac. Qed.

Lemma zlen_zdrop n l : 0 ≤ n ≤ zlen l → zlen (zdrop n l) = zlen l - n.
Proof. len_tac. Qed.

Lemma ztake_zdrop n l : ztake n l ++ zdrop n l = l.
Proof. apply take_drop. Qed.

Lemma ztake_all n l : zlen l ≤ n → ztake n l = l.
Proof. intros. unfold ztake. apply take_ge. len_tac. Qed.

Lemma zdrop_all n l : zlen l ≤ n → zdrop n l = [].
Proof. intros. unfold zdrop. apply drop_ge. len_tac. Qed.

Lemma zdrop_0 l : zdrop 0 l = l.
Proof. done. Qed.

Lemma ztake_0 l : ztake 0 l = [].
Proof. done. Qed.

Lemma zdrop_zdrop n m l : 0 ≤ n → 0 ≤ m → zdrop n (zdrop m l) = zdrop (m + n) l.
Proof. intros. unfold zdrop. rewrite drop_drop. f_equal. lia. Qed.

Lemma zdrop_app_ge n l k : zlen l ≤ n → zdrop n (l ++ k) = zdrop (n - zlen l) k.
Proof. intros. unfold zdrop, zlen in *. rewrite drop_app_ge by lia. f_equal. lia. Qed.

Lemma zdrop_app_le n l k : n ≤ zlen l → zdrop n (l ++ k) = zdrop n l ++ k.
Proof. intros. unfold zdrop, zlen in *. apply drop_app_le. lia. Qed.

Lemma ztake_app_le n l k : n ≤ zlen l → ztake n (l ++ k) = ztake n l.
Proof. intros. unfold ztake, zlen in *. apply take_app_le. lia. Qed.

Lemma ztake_app_ge n l k : zlen l ≤ n → ztake n (l ++ k) = l ++ ztake (n - zlen l) k.
Proof.
  intros. unfold ztake, zlen in *. rewrite take_app_ge by lia. do 2 f_equal. lia.
Qed.

Lemma ztake_ztake n m l : 0 ≤ n ≤ m → ztake n (ztake m l) = ztake n l.
Proof. intros. unfold ztake. rewrite take_take. f_equal. lia. Qed.

Lemma zdrop_ztake n m l : 0 ≤ n ≤ m → zdrop n (ztake m l) = ztake (m - n) (zdrop n l).
Proof.
  intros. unfold zdrop, ztake. rewrite skipn_firstn_comm. f_equal. lia.
Qed.

Lemma ztake_zdrop_split n m l : 0 ≤ n ≤ m →
  ztake m l = ztake n l ++ ztake (m - n) (zdrop n l).
Proof.
  intros. rewrite <-(ztake_zdrop n (ztake m l)).
  rewrite ztake_ztake by lia. by rewrite zdrop_ztake by lia.
Qed.
End Slices.

Lemma erase_first_Some {A} `{EqDecision A} (x : A) l l' :
  erase_first x l = Some l' → l ≡ₚ x :: l'.
Proof.
  revert l'. induction l as [|y l IH]; simpl; intros l' He; [done|].
  case_decide; simplify_eq; [done|].
  destruct (erase_first x l) as [l1|]; simplify_eq/=. rewrite (IH l1) by done.
  apply Permutation_swap.
Qed.

Lemma erase_first_None {A} `{EqDecision A} (x : A) l : erase_first x l = None → x ∉ l.
Proof.
  induction l as [|y l IH]; simpl; intros He; [apply not_elem_of_nil|].
  case_decide; [done|]. destruct (erase_first x l); simplify_eq/=.
  apply not_elem_of_cons; auto.
Qed.

#[export] Hint Resolve zlen_nonneg u32_range u64_range byte_val_range : cxx.
Create Rewrite HintDb zlens.
#[export] Hint Rewrite @zlen_app @zlen_cons @zlen_nil : zlens.

(** ** Memory lemmas *)

Lemma mem_read_Some m pos len :
  0 ≤ pos → 0 ≤ len → pos + len ≤ zlen m →
  mem_read m pos len = Some (ztake len (zdrop pos m)).
Proof. intros. unfold mem_read. by rewrite decide_True by lia. Qed.

Lemma mem_write_Some m pos d :
  0 ≤ pos → pos + zlen d ≤ zlen m →
  mem_write m pos d = Some (ztake pos m ++ d ++ zdrop (pos + zlen d) m).
Proof. intros. unfold mem_write. by rewrite decide_True by lia. Qed.

Lemma mem_write_zlen m pos d m' : mem_write m pos d = Some m' → zlen m' = zlen m.
Proof.
  unfold mem_write. case_decide; [|done]. intros [= <-].
  pose proof (zlen_nonneg d).
  rewrite !zlen_app, zlen_ztake, zlen_zdrop by lia. lia.
Qed.

Lemma mem_read_zlen m pos len d : mem_read m pos len = Some d → zlen d = len.
Proof.
  unfold mem_read. case_decide; [|done]. intros [= <-].
  apply zlen_ztake. rewrite zlen_zdrop; lia.
Qed.

(** Overwriting one of three consecutive pieces. *)
Lemma mem_write_mid a b c d pos :
  pos = zlen a → zlen b = zlen d → mem_write (a ++ b ++ c) pos d = Some (a ++ d ++ c).
Proof.
  intros -> Hbd. pose proof (zlen_nonneg a). pose proof (zlen_nonneg c).
  rewrite mem_write_Some by (rewrite ?zlen_app; lia).
  rewrite ztake_app_le, ztake_all by lia.
  rewrite zdrop_app_ge by (pose proof (zlen_nonneg d); lia).
  rewrite zdrop_app_ge by lia.
  replace (zlen a + zlen d - zlen a - zlen b) with 0 by lia. done.
Qed.

(** What a write covers reads back as written. *)
Lemma mem_read_write_same m pos d m' :
  mem_write m pos d = Some m' → mem_read m' pos (zlen d) = Some d.
Proof.
  intros Hw. pose proof (mem_write_zlen _ _ _ _ Hw) as Hl.
  unfold mem_write in Hw. case_decide; [|done]. simplify_eq.
  pose proof (zlen_nonneg d).
  rewrite mem_read_Some by lia. f_equal.
  rewrite zdrop_app_ge by (rewrite zlen_ztake; lia).
  rewrite zlen_ztake, Z.sub_diag, zdrop_0 by lia.
  rewrite ztake_app_le by lia. by apply ztake_all.
Qed.

(** A read disjoint from a write is unaffected by it. *)
Lemma mem_read_write_disjoint m pos d m' p n :
  mem_write m pos d = Some m' →
  p + n ≤ pos ∨ pos + zlen d ≤ p →
  mem_read m' p n = mem_read m p n.
Proof.
  intros Hw Hdis. pose proof (mem_write_zlen _ _ _ _ Hw) as Hl.
  unfold mem_write in Hw. case_decide as Hb; [|done]. injection Hw as Hm.
  unfold mem_read. rewrite Hl. case_decide as Hr; [|done]. f_equal.
  pose proof (zlen_nonneg d). destruct Hdis as [Hlt|Hge].
  - rewrite <-Hm, zdrop_app_le by (rewrite zlen_ztake; lia).
    rewrite ztake_app_le by (rewrite zlen_zdrop; rewrite ?zlen_ztake; lia).
    rewrite zdrop_ztake by lia. by apply ztake_ztake; lia.
  - rewrite <-Hm, app_assoc, zdrop_app_ge
      by (rewrite zlen_app, zlen_ztake; lia).
    rewrite zlen_app, zlen_ztake by lia.
    rewrite zdrop_zdrop by lia. do 2 f_equal. lia.
Qed.
