(* ===== verification/Types.v ===== *)
(** * Error enumerations of the runtime

    The [enum class] types of [include/iouring_runtime/core/Error.h], and the
    two-sided result [std::expected<T, E>] they travel in. *)

From S2P Require Import Prelude.

(** Source: include/iouring_runtime/core/Error.h:7-12, CoreError. *)
Inductive CoreError :=
| kInvalidArgument
| kResourceExhausted
| kAlreadyExists
| kNotFound.

(** Source: include/iouring_runtime/core/Error.h:15-19, RingError. *)
Inductive RingError :=
| kSetupFailed
| kSubmissionFailed
| kBufferRegistrationFailed.

(** Source: include/iouring_runtime/core/Error.h:23-31, IoError. *)
Inductive IoError :=
| kConnectionRefused
| kDisconnected
| kTimeout
| kSendFailed
| kMalformedPacket
| kBindFailed
| kListenFailed.

#[export] Instance CoreError_eq_dec : EqDecision CoreError.
Proof. solve_decision. Defined.
#[export] Instance RingError_eq_dec : EqDecision RingError.
Proof. solve_decision. Defined.
#[export] Instance IoError_eq_dec : EqDecision IoError.
Proof. solve_decision. Defined.

(** [std::expected<T, E>]. *)
Inductive expected (T E : Type) :=
| Value (v : T)
| Unexpected (e : E).
Arguments Value {T E} _.
Arguments Unexpected {T E} _.

Definition has_value {T E} (r : expected T E) : bool :=
  match r with Value _ => true | Unexpected _ => false end.
