(* ===== verification/Text.v ===== *)
(** * Text handling of the standard library

    The parts of [std::string_view] and [<charconv>] the web module uses:
    searching for a character, decimal [std::to_string] and
    [std::from_chars]. *)

From S2P Require Import Prelude.

#[local] Open Scope Z_scope.
#[local] Set Warnings "-clear-no-such-hyp".

(** ** Searching *)

(** [s.find(c)]: what precedes the first [c] and what follows it; [None] is
    [npos]. *)
Fixpoint split_at (c : byte) (s : bytes) : option (bytes * bytes) :=
  match s with
  | [] => None
  | b :: s =>
    if decide (b = c) then Some ([], s)
    else '(p, r) ← split_at c s; Some (b :: p, r)
  end.

Lemma split_at_app c p r : c ∉ p → split_at c (p ++ c :: r) = Some (p, r).
Proof.
  induction p as [|b p IH]; simpl; intros Hp; [by rewrite decide_True|].
  apply not_elem_of_cons in Hp as [Hne Hp].
  rewrite decide_False by done. by rewrite IH.
Qed.

Lemma split_at_None c s : split_at c s = None ↔ c ∉ s.
Proof.
  induction s as [|b s IH]; simpl.
  - split; [intros _; apply not_elem_of_nil|done].
  - rewrite not_elem_of_cons. destruct (decide (b = c)) as [->|Hne]; [naive_solver|].
    destruct (split_at c s) as [[p r]|]; simpl; naive_solver.
Qed.

Lemma split_at_Some c s p r : split_at c s = Some (p, r) → s = p ++ c :: r ∧ c ∉ p.
Proof.
  revert p r. induction s as [|b s IH]; simpl; intros p r Hs; [done|].
  case_decide; simplify_eq; [split; [done|apply not_elem_of_nil]|].
  destruct (split_at c s) as [[p1 r1]|] eqn:E; simpl in Hs; [|done].
  injection Hs as <- <-. destruct (IH p1 r1 eq_refl) as [-> ?].
  split; [done|]. by apply not_elem_of_cons.
Qed.

(** [s.starts_with(p)], with what follows the prefix. *)
Fixpoint strip_prefix (p s : bytes) : option bytes :=
  match p, s with
  | [], _ => Some s
  | a :: p, b :: s => if decide (a = b) then strip_prefix p s else None
  | _ :: _, [] => None
  end.

Definition starts_with (p s : bytes) : bool := bool_decide (is_Some (strip_prefix p s)).

(** [s.ends_with(p)]. *)
Definition ends_with (p s : bytes) : bool := starts_with (reverse p) (reverse s).

(** [s.find(p)] for a string [p]: what precedes its first occurrence and what
    follows it. *)
Fixpoint split_sub (p s : bytes) : option (bytes * bytes) :=
  match strip_prefix p s with
  | Some r => Some ([], r)
  | None =>
    match s with
    | [] => None
    | b :: s => '(q, r) ← split_sub p s; Some (b :: q, r)
    end
  end.

(** [s.rfind(c)]: what precedes the last [c] and what follows it. *)
Definition rsplit_at (c : byte) (s : bytes) : option (bytes * bytes) :=
  '(r, p) ← split_at c (reverse s); Some (reverse p, reverse r).

(** [std::getline] until the stream ends: the pieces between line feeds; a last
    piece without one counts unless it is empty. *)
Fixpoint getlines (line s : bytes) : list bytes :=
  match s with
  | [] => match line with [] => [] | _ => [line] end
  | b :: s => if decide (b = "010"%char) then line :: getlines [] s else getlines (line ++ [b]) s
  end.

Lemma strip_prefix_Some p s r : strip_prefix p s = Some r ↔ s = p ++ r.
Proof.
  revert s. induction p as [|a p IH]; intros s; simpl; [naive_solver|].
  destruct s as [|b s]; [naive_solver|]. case_decide as E; [|naive_solver].
  subst. rewrite IH. naive_solver.
Qed.

Lemma starts_with_true p s : starts_with p s = true ↔ p `prefix_of` s.
Proof.
  unfold starts_with. rewrite bool_decide_eq_true. split.
  - intros [r Hr%strip_prefix_Some]. by exists r.
  - intros [r Hr]. exists r. by apply strip_prefix_Some.
Qed.

Lemma split_sub_Some p s q r : split_sub p s = Some (q, r) → s = q ++ p ++ r.
Proof.
  revert q r. induction s as [|b s IH]; intros q r; simpl.
  - destruct (strip_prefix p []) as [r'|] eqn:E; [|done]. intros [= <- <-].
    by apply strip_prefix_Some in E.
  - destruct (strip_prefix p (b :: s)) as [r'|] eqn:E.
    + intros [= <- <-]. by apply strip_prefix_Some in E.
    + destruct (split_sub p s) as [[q' r']|] eqn:E2; simpl; [|done]. intros [= <- <-].
      simpl. by rewrite (IH q' r').
Qed.

(** The first occurrence does not depend on the text after it. *)
Lemma split_sub_ext p s q r r' : split_sub p s = Some (q, r) →
  split_sub p (q ++ p ++ r') = Some (q, r').
Proof.
  revert q r. induction s as [|b s IH]; intros q r; simpl.
  - destruct (strip_prefix p []) as [r0|] eqn:E; [|done]. intros [= <- <-].
    apply strip_prefix_Some in E. symmetry in E. apply app_eq_nil in E as [-> _]. simpl.
    by destruct r'.
  - destruct (strip_prefix p (b :: s)) as [r0|] eqn:E.
    + intros [= <- <-]. simpl. destruct (p ++ r') as [|c t] eqn:E3; simpl;
        rewrite (proj2 (strip_prefix_Some p _ r')) by done; done.
    + destruct (split_sub p s) as [[q' r0]|] eqn:E2; simpl; [|done]. intros [= <- <-].
      simpl. rewrite (IH q' r0) by done.
      destruct (strip_prefix p (b :: q' ++ p ++ r')) as [x|] eqn:E3; [|done].
      exfalso. apply strip_prefix_Some in E3.
      assert (b :: s = p ++ drop (length p) (b :: s)) as Hs.
      { apply split_sub_Some in E2. rewrite E2.
        assert (length p ≤ length (b :: q' ++ p))%nat as Hl by (simpl; rewrite length_app; lia).
        rewrite <-(take_drop (length p) (b :: q' ++ p ++ r0)) at 1. f_equal.
        change (b :: q' ++ p ++ r0) with ((b :: q') ++ p ++ r0).
        change (b :: q' ++ p ++ r') with ((b :: q') ++ p ++ r') in E3.
        rewrite app_assoc in *. rewrite take_app_le by (simpl in *; lia).
        rewrite <-(take_app_le _ r') by (simpl in *; lia).
        rewrite E3. by rewrite take_app_length. }
      rewrite (proj2 (strip_prefix_Some p (b :: s) _) Hs) in E. done.
Qed.

Lemma getlines_app line s rest :
  "010"%char ∉ s → getlines line (s ++ "010"%char :: rest) = (line ++ s) :: getlines [] rest.
Proof.
  revert line. induction s as [|b s IH]; intros line Hs; simpl; [by rewrite app_nil_r|].
  apply not_elem_of_cons in Hs as [Hb Hs]. rewrite decide_False by done.
  rewrite IH by done. by rewrite <-app_assoc.
Qed.

(** Lines written one after another are read back. *)
Lemma getlines_lines ls :
  Forall (λ l, "010"%char ∉ l) ls →
  getlines [] (concat (map (λ l, l ++ ["010"%char]) ls)) = ls.
Proof.
  induction 1 as [|l ls Hl _ IH]; simpl; [done|].
  rewrite <-app_assoc. simpl. rewrite getlines_app by done. by rewrite IH.
Qed.

Lemma getlines_no_lf line s :
  "010"%char ∉ line → Forall (λ l, "010"%char ∉ l) (getlines line s).
Proof.
  revert line. induction s as [|b s IH]; intros line Hl; simpl.
  - destruct line; [constructor|]. by constructor.
  - case_decide as E.
    + constructor; [done|]. apply IH, not_elem_of_nil.
    + apply IH. rewrite elem_of_app, list_elem_of_singleton. naive_solver.
Qed.

(** [std::getline] with a separator, until the stream ends. *)
Fixpoint getline_by (c : byte) (token s : bytes) : list bytes :=
  match s with
  | [] => if bool_decide (token = []) then [] else [token]
  | b :: s => if decide (b = c) then token :: getline_by c [] s else getline_by c (token ++ [b]) s
  end.

Lemma getline_by_app c token t rest : c ∉ t →
  getline_by c token (t ++ c :: rest) = (token ++ t) :: getline_by c [] rest.
Proof.
  revert token. induction t as [|b t IH]; intros token Ht; simpl.
  - by rewrite decide_True, app_nil_r.
  - rewrite decide_False by set_solver. rewrite IH by set_solver. by rewrite <-app_assoc.
Qed.

Lemma getline_by_last c token t : c ∉ t → token ++ t ≠ [] → getline_by c token t = [token ++ t].
Proof.
  revert token. induction t as [|b t IH]; intros token Ht Hne; simpl.
  - rewrite app_nil_r in *. by rewrite bool_decide_false.
  - rewrite decide_False by set_solver. rewrite IH; [by rewrite <-app_assoc|set_solver|].
    by rewrite <-app_assoc.
Qed.

(** ** Decimal numbers *)

(** [std::isspace] of the C locale. *)
Definition isspace (c : byte) : bool :=
  bool_decide (c = " "%char) || ((9 <=? byte_val c) && (byte_val c <=? 13)).

Fixpoint skip_spaces (s : bytes) : bytes :=
  match s with b :: s' => if isspace b then skip_spaces s' else s | [] => [] end.

Definition digit (n : Z) : byte := byte_of (48 + n).
Definition is_digit (b : byte) : bool := (48 <=? byte_val b) && (byte_val b <=? 57).

(** [std::to_string] of a non-negative number; a number below [2^k] has at most
    [k] digits. *)
Fixpoint to_digits (fuel : nat) (n : Z) (acc : bytes) : bytes :=
  match fuel with
  | O => acc
  | S fuel =>
    let acc := digit (n mod 10) :: acc in
    if n <? 10 then acc else to_digits fuel (n / 10) acc
  end.

Definition to_string (n : Z) : bytes := to_digits (S (Z.to_nat (Z.log2 n))) n [].

Definition digits_value (ds : bytes) : Z :=
  foldl (λ n b, 10 * n + (byte_val b - 48)) 0 ds.

Fixpoint digits_prefix (s : bytes) : bytes * bytes :=
  match s with
  | b :: s' => if is_digit b then let '(d, r) := digits_prefix s' in (b :: d, r) else ([], s)
  | [] => ([], [])
  end.

(** [std::from_chars] into an integer type with values [lo .. hi]: the value and
    the unread rest, or which error. *)
Inductive from_chars_result :=
| Parsed (v : Z) (rest : bytes)
| InvalidArgument
| OutOfRange.

Definition from_chars (lo hi : Z) (s : bytes) : from_chars_result :=
  let '(neg, t) := match s with
                   | b :: t => if decide (b = "-"%char) then
                                 if lo <? 0 then (true, t) else (false, s)
                               else (false, s)
                   | [] => (false, [])
                   end in
  match digits_prefix t with
  | ([], _) => InvalidArgument
  | (ds, rest) =>
    let v := (if neg : bool then -1 else 1) * digits_value ds in
    if (lo <=? v) && (v <=? hi) then Parsed v rest else OutOfRange
  end.

Lemma byte_val_digit n : 0 ≤ n < 10 → byte_val (digit n) = 48 + n.
Proof. intros. unfold digit. rewrite byte_val_of. apply Z.mod_small. lia. Qed.

Lemma is_digit_digit n : 0 ≤ n < 10 → is_digit (digit n) = true.
Proof.
  intros. unfold is_digit. rewrite byte_val_digit by done.
  apply andb_true_intro. split; apply Z.leb_le; lia.
Qed.

Lemma to_digits_app fuel n acc : to_digits fuel n acc = to_digits fuel n [] ++ acc.
Proof.
  revert n acc. induction fuel as [|fuel IH]; intros n acc; simpl; [done|].
  case_match; [done|]. rewrite IH, (IH _ [_]), <-app_assoc. done.
Qed.

Lemma to_digits_value fuel n :
  0 ≤ n < 2 ^ Z.of_nat fuel → 0 < Z.of_nat fuel →
  digits_value (to_digits fuel n []) = n ∧ Forall (λ b, is_digit b = true) (to_digits fuel n []) ∧
  to_digits fuel n [] ≠ [].
Proof.
  revert n. induction fuel as [|fuel IH]; intros n Hn Hf; [lia|]. simpl.
  pose proof (Z.mod_pos_bound n 10 ltac:(lia)). pose proof (Z.div_mod n 10 ltac:(lia)) as Hdm.
  destruct (Z.ltb_spec n 10) as [|Hge].
  - rewrite Z.mod_small by lia. unfold digits_value. cbn [foldl].
    rewrite byte_val_digit by lia. split; [lia|]. split; [|done].
    apply Forall_singleton, is_digit_digit. lia.
  - assert (0 < Z.of_nat fuel) as Hfp.
    { destruct fuel; [simpl in Hn; lia|lia]. }
    assert (0 ≤ n / 10 < 2 ^ Z.of_nat fuel) as Hn'.
    { split; [apply Z.div_pos; lia|]. apply Z.div_lt_upper_bound; [lia|].
      rewrite Nat2Z.inj_succ, Z.pow_succ_r in Hn by lia. lia. }
    destruct (IH (n / 10) Hn' Hfp) as (Hv&Hd&Hne). rewrite to_digits_app.
    split; [|split].
    + unfold digits_value in *. rewrite foldl_app, Hv. cbn [foldl].
      rewrite byte_val_digit by lia. lia.
    + apply Forall_app. split; [done|]. by apply Forall_singleton, is_digit_digit.
    + intros E. by apply app_eq_nil in E as [_ ?].
Qed.

Lemma to_string_value n : 0 ≤ n →
  digits_value (to_string n) = n ∧ Forall (λ b, is_digit b = true) (to_string n) ∧
  to_string n ≠ [].
Proof.
  intros Hn. unfold to_string. apply to_digits_value; [|lia]. split; [done|].
  destruct (Z.eq_dec n 0) as [->|]; [done|].
  rewrite Nat2Z.inj_succ, Z2Nat.id by apply Z.log2_nonneg.
  apply Z.log2_spec. lia.
Qed.

Lemma digits_prefix_app ds r :
  Forall (λ b, is_digit b = true) ds →
  match r with b :: _ => is_digit b = false | [] => True end →
  digits_prefix (ds ++ r) = (ds, r).
Proof.
  induction 1 as [|b ds Hb _ IH]; simpl; intros Hr.
  - destruct r as [|b r]; [done|]. simpl. by rewrite Hr.
  - rewrite Hb, IH by done. done.
Qed.

(** [from_chars] reads back what [to_string] wrote, up to its range. *)
Lemma from_chars_to_string lo hi n r :
  lo ≤ 0 → 0 ≤ n → match r with b :: _ => is_digit b = false | [] => True end →
  from_chars lo hi (to_string n ++ r) = if n <=? hi then Parsed n r else OutOfRange.
Proof.
  intros Hlo Hn Hr. destruct (to_string_value n Hn) as (Hv&Hd&Hne).
  unfold from_chars. destruct (to_string n) as [|b ds] eqn:E; [done|].
  assert (b ≠ "-"%char) as Hb by (intros ->; by inversion Hd).
  simpl. rewrite decide_False by done.
  change (b :: ds ++ r) with ((b :: ds) ++ r). rewrite digits_prefix_app by done.
  rewrite Hv, Z.mul_1_l. rewrite (proj2 (Z.leb_le lo n)) by lia. done.
Qed.
