(* ===== verification/Paths.v ===== *)
(** * Paths

    The parts of [std::filesystem::path] (POSIX) the applications use: iterating
    over the elements of a path, appending, the last element and its extension;
    and what a path names once it is walked from a directory, in a tree without
    symbolic links. *)

From S2P Require Import Prelude Text.

#[local] Open Scope Z_scope.
#[local] Set Warnings "-clear-no-such-hyp".

Abbreviation slash := ("/"%char : byte).
Abbreviation fspath := bytes.

(** The pieces of a text between the occurrences of [c]. *)
Fixpoint pieces (c : byte) (s : bytes) : list bytes :=
  match s with
  | [] => [[]]
  | b :: s =>
    if decide (b = c) then [] :: pieces c s else
    match pieces c s with p :: ps => (b :: p) :: ps | [] => [[b]] end
  end.

Definition is_absolute (p : fspath) : bool := starts_with [slash] p.

(** The names in a path. *)
Definition names (p : fspath) : list bytes := filter (λ n, n ≠ []) (pieces slash p).

(** Iteration over a path: its root directory, its names, and an empty element
    when a slash follows the last name. *)
Definition elements_of (p : fspath) : list bytes :=
  (if is_absolute p then [[slash]] else []) ++ names p ++
  (if bool_decide (names p ≠ []) && ends_with [slash] p then [[]] else []).

(** [p / q]. *)
Definition path_append (p q : fspath) : fspath :=
  if is_absolute q then q
  else if bool_decide (p = []) || ends_with [slash] p then p ++ q
  else p ++ [slash] ++ q.

(** [p.filename()]. *)
Definition filename_of (p : fspath) : bytes :=
  match rsplit_at slash p with Some (_, n) => n | None => p end.

(** [p.extension()]: from the last dot of the file name on, unless that is its
    first character or the name is two dots. *)
Definition extension (p : fspath) : bytes :=
  let n := filename_of p in
  if bool_decide (n = txt "..") then [] else
  match rsplit_at "."%char n with
  | Some (b :: before, ext) => "."%char :: ext
  | _ => []
  end.

(** ** What a path names *)

Definition walk (dir : list bytes) (name : bytes) : list bytes :=
  if bool_decide (name = []) || bool_decide (name = txt ".") then dir
  else if bool_decide (name = txt "..") then take (pred (length dir)) dir
  else dir ++ [name].

(** The directories from the root to the file [p] names, seen from [cwd]. *)
Definition resolve (cwd : list bytes) (p : fspath) : list bytes :=
  foldl walk (if is_absolute p then [] else cwd) (names p).

(** A plain name: one that [walk] goes into. *)
Definition plain (n : bytes) : Prop :=
  n ≠ [] ∧ n ≠ txt "." ∧ n ≠ txt ".." ∧ slash ∉ n.

(** ** Lemmas *)

Lemma pieces_cons c s : ∃ p ps, pieces c s = p :: ps.
Proof.
  induction s as [|b s (p&ps&IH)]; simpl; [eauto|]. rewrite IH. case_decide; eauto.
Qed.

Lemma pieces_app c s t : c ∉ s → pieces c (s ++ c :: t) = s :: pieces c t.
Proof.
  induction s as [|b s IH]; intros Hs; simpl; [by rewrite decide_True|].
  apply not_elem_of_cons in Hs as [? Hs]. rewrite decide_False, IH by done. done.
Qed.

Lemma pieces_none c s : c ∉ s → pieces c s = [s].
Proof.
  induction s as [|b s IH]; intros Hs; simpl; [done|].
  apply not_elem_of_cons in Hs as [? Hs]. rewrite decide_False, IH by done. done.
Qed.

Lemma pieces_app_sep c s t : pieces c (s ++ c :: t) = pieces c s ++ pieces c t.
Proof.
  induction s as [|b s IH]; simpl; [by rewrite decide_True|].
  case_decide; [by rewrite IH|]. rewrite IH.
  destruct (pieces_cons c s) as (p&ps&->). done.
Qed.

Lemma pieces_free c s p : p ∈ pieces c s → c ∉ p.
Proof.
  revert p. induction s as [|b s IH]; intros p; simpl.
  { intros ->%list_elem_of_singleton. apply not_elem_of_nil. }
  case_decide as E.
  - intros [->|?]%elem_of_cons; [apply not_elem_of_nil|auto].
  - destruct (pieces_cons c s) as (q&ps&Hq). rewrite Hq in *.
    intros [->|?]%elem_of_cons; [|apply IH; set_solver].
    apply not_elem_of_cons. split; [done|]. apply IH. set_solver.
Qed.

(** The names of a path contain no slash and are not empty. *)
Lemma names_free p n : n ∈ names p → (slash ∉ n) ∧ n ≠ [].
Proof.
  intros [? ?]%list_elem_of_filter. split; [|done]. by eapply pieces_free.
Qed.

Lemma ends_with_slash p : ends_with [slash] p = true ↔ ∃ q, p = q ++ [slash].
Proof.
  unfold ends_with. rewrite starts_with_true. split.
  - intros [r Hr]. exists (reverse r). rewrite <-(reverse_involutive p), Hr.
    by rewrite reverse_app.
  - intros [q ->]. exists (reverse q). by rewrite reverse_app.
Qed.

Lemma names_sep p q : names (p ++ slash :: q) = names p ++ names q.
Proof. unfold names. by rewrite pieces_app_sep, filter_app. Qed.

Lemma is_absolute_app p q : p ≠ [] → is_absolute (p ++ q) = is_absolute p.
Proof. destruct p as [|b p]; [done|]. intros _. unfold is_absolute, starts_with. simpl.
  case_decide; [|done]. by rewrite !bool_decide_true by eauto. Qed.

(** The names of an appended relative path are those of both. *)
Lemma names_append p q : is_absolute q = false → names (path_append p q) = names p ++ names q.
Proof.
  intros Hq. unfold path_append. rewrite Hq. case_bool_decide as Ep; [by subst|].
  destruct (ends_with [slash] p) eqn:E; simpl; [|apply names_sep].
  apply ends_with_slash in E as [r ->]. rewrite <-app_assoc. simpl.
  rewrite !names_sep. change (names []) with (@nil bytes). by rewrite app_nil_r.
Qed.

Lemma absolute_append p q : is_absolute q = false → p ≠ [] →
  is_absolute (path_append p q) = is_absolute p.
Proof.
  intros Hq Hp. unfold path_append. rewrite Hq, bool_decide_false by done. simpl.
  destruct (ends_with _ p); by rewrite is_absolute_app.
Qed.

Lemma foldl_walk_plain dir ns : Forall plain ns → foldl walk dir ns = dir ++ ns.
Proof.
  intros Hns. revert dir. induction Hns as [|n ns (H1&H2&H3&_) _ IH]; intros dir; simpl.
  { by rewrite app_nil_r. }
  unfold walk at 2. rewrite !bool_decide_false by done. simpl. by rewrite IH, <-app_assoc.
Qed.

(** A relative path of plain names leads strictly downwards: appended to [root] it
    names what is below [root] at exactly those names. *)
Lemma resolve_below cwd root rel :
  root ≠ [] → is_absolute rel = false → Forall plain (names rel) →
  resolve cwd (path_append root rel) = resolve cwd root ++ names rel.
Proof.
  intros Hr Ha Hp. unfold resolve. rewrite names_append, absolute_append, foldl_app by done.
  by rewrite foldl_walk_plain.
Qed.

Lemma plain_names n : plain n → names n = [n] ∧ is_absolute n = false.
Proof.
  intros (?&?&?&Hs). unfold names. rewrite pieces_none by done. split.
  - by rewrite filter_cons, decide_True.
  - destruct n as [|b n]; [done|]. apply not_elem_of_cons in Hs as [? _].
    unfold is_absolute, starts_with. simpl. rewrite decide_False by done.
    apply bool_decide_eq_false. by intros [].
Qed.
