(* ===== verification/RecvBuffer.v ===== *)
(** * The receive reassembly buffer

    Models [include/iouring_runtime/core/RecvBuffer.h]: a fixed allocation with
    a read and a write position, 32-bit arithmetic and [memcpy]/[memmove] into
    the allocation ([None] when a copy would leave it).  Its contract towards
    the packet and HTTP sessions is the class [ReassemblyBuffer]: a bounded
    byte FIFO. *)

From S2P Require Import Prelude Types.

#[local] Open Scope Z_scope.
#[local] Open Scope cxx_scope.

(** ** Data and operations *)

(** Source: include/iouring_runtime/core/RecvBuffer.h:71-76, RecvBuffer. *)
Record recv_buffer := mkRecvBuffer {
  buffer_ : bytes;
  capacity_ : Z;
  read_pos_ : Z;
  write_pos_ : Z;
}.

(** Source: include/iouring_runtime/core/RecvBuffer.h:21-23, RecvBuffer::RecvBuffer.
    [make_unique<std::byte[]>] value-initialises the array. *)
Definition RecvBuffer_new (size : Z) : recv_buffer :=
  mkRecvBuffer (replicate (Z.to_nat size) zero) size 0 0.

(** Source: include/iouring_runtime/core/RecvBuffer.h:68-68, RecvBuffer::ReadableSize. *)
Definition ReadableSize (b : recv_buffer) : Z := write_pos_ b -₃₂ read_pos_ b.

(** Source: include/iouring_runtime/core/RecvBuffer.h:69-69, RecvBuffer::WritableSize. *)
Definition WritableSize (b : recv_buffer) : Z := capacity_ b -₃₂ write_pos_ b.

(** Source: include/iouring_runtime/core/RecvBuffer.h:66-66, RecvBuffer::IsEmpty. *)
Definition IsEmpty (b : recv_buffer) : bool := read_pos_ b =? write_pos_ b.

(** Source: include/iouring_runtime/core/RecvBuffer.h:67-67, RecvBuffer::ShouldCompact. *)
Definition ShouldCompact (b : recv_buffer) : bool := capacity_ b / 2 <? read_pos_ b.

(** Source: include/iouring_runtime/core/RecvBuffer.h:37-39, RecvBuffer::WriteRegion.
    The span as (offset into the allocation, length). *)
Definition WriteRegion (b : recv_buffer) : Z * Z :=
  (write_pos_ b, capacity_ b -₃₂ write_pos_ b).

(** Source: include/iouring_runtime/core/RecvBuffer.h:41-43, RecvBuffer::ReadRegion.
    The bytes the span shows. *)
Definition ReadRegion (b : recv_buffer) : option bytes :=
  mem_read (buffer_ b) (read_pos_ b) (write_pos_ b -₃₂ read_pos_ b).

(** Source: include/iouring_runtime/core/RecvBuffer.h:45-47, RecvBuffer::OnWrite. *)
Definition OnWrite (b : recv_buffer) (n : Z) : recv_buffer :=
  mkRecvBuffer (buffer_ b) (capacity_ b) (read_pos_ b) (write_pos_ b +₃₂ n).

(** Source: include/iouring_runtime/core/RecvBuffer.h:49-55, RecvBuffer::OnRead. *)
Definition OnRead (b : recv_buffer) (n : Z) : recv_buffer :=
  let rp := read_pos_ b +₃₂ n in
  if rp =? write_pos_ b
  then mkRecvBuffer (buffer_ b) (capacity_ b) 0 0
  else mkRecvBuffer (buffer_ b) (capacity_ b) rp (write_pos_ b).

(** Source: include/iouring_runtime/core/RecvBuffer.h:57-64, RecvBuffer::Compact. *)
Definition Compact (b : recv_buffer) : option recv_buffer :=
  if read_pos_ b =? 0 then Some b else
  let remaining := write_pos_ b -₃₂ read_pos_ b in
  buf ← (if 0 <? remaining
         then d ← mem_read (buffer_ b) (read_pos_ b) remaining;
              mem_write (buffer_ b) 0 d
         else Some (buffer_ b));
  Some (mkRecvBuffer buf (capacity_ b) 0 remaining).

(** Source: include/iouring_runtime/core/RecvBuffer.h:27-35, RecvBuffer::Append. *)
Definition Append (b : recv_buffer) (data : bytes)
    : option (recv_buffer * expected unit CoreError) :=
  b ← (if WritableSize b <? u32 (zlen data) then Compact b else Some b);
  if WritableSize b <? u32 (zlen data)
  then Some (b, Unexpected kResourceExhausted)
  else
    buf ← mem_write (buffer_ b) (write_pos_ b) data;
    Some (mkRecvBuffer buf (capacity_ b) (read_pos_ b)
            (write_pos_ b +₃₂ u32 (zlen data)), Value tt).

(** ** Invariant and abstraction *)

Definition recv_wf (b : recv_buffer) : Prop :=
  0 ≤ read_pos_ b ≤ write_pos_ b ∧ write_pos_ b ≤ capacity_ b ∧
  capacity_ b < 2 ^ 32 ∧ zlen (buffer_ b) = capacity_ b.

Definition recv_contents (b : recv_buffer) : bytes :=
  ztake (write_pos_ b - read_pos_ b) (zdrop (read_pos_ b) (buffer_ b)).

(** ** The contract clients rely on: a bounded byte FIFO *)

Class ReassemblyBuffer (B : Type) := {
  rb_wf : B → Prop;
  rb_capacity : B → Z;
  rb_contents : B → bytes;
  rb_is_empty : B → bool;
  rb_readable : B → Z;
  rb_read : B → option bytes;
  rb_append : B → bytes → option (B * expected unit CoreError);
  rb_consume : B → Z → B;
  rb_should_compact : B → bool;
  rb_compact : B → option B;
  rb_capacity_bound b : rb_wf b → zlen (rb_contents b) ≤ rb_capacity b < 2 ^ 32;
  rb_is_empty_spec b : rb_wf b → rb_is_empty b = bool_decide (rb_contents b = []);
  rb_readable_spec b : rb_wf b → rb_readable b = zlen (rb_contents b);
  rb_read_spec b : rb_wf b → rb_read b = Some (rb_contents b);
  rb_append_fits b d :
    rb_wf b → zlen (rb_contents b) + zlen d ≤ rb_capacity b →
    ∃ b', rb_append b d = Some (b', Value tt) ∧ rb_wf b' ∧
      rb_capacity b' = rb_capacity b ∧ rb_contents b' = rb_contents b ++ d;
  rb_append_full b d :
    rb_wf b → zlen d < 2 ^ 32 → rb_capacity b < zlen (rb_contents b) + zlen d →
    ∃ b', rb_append b d = Some (b', Unexpected kResourceExhausted) ∧ rb_wf b' ∧
      rb_capacity b' = rb_capacity b ∧ rb_contents b' = rb_contents b;
  rb_consume_spec b n :
    rb_wf b → 0 ≤ n ≤ zlen (rb_contents b) →
    rb_wf (rb_consume b n) ∧ rb_capacity (rb_consume b n) = rb_capacity b ∧
    rb_contents (rb_consume b n) = zdrop n (rb_contents b);
  rb_compact_spec b :
    rb_wf b → ∃ b', rb_compact b = Some b' ∧ rb_wf b' ∧
      rb_capacity b' = rb_capacity b ∧ rb_contents b' = rb_contents b;
}.

(** ** The implementation meets the contract *)

Section Laws.
Implicit Types (b : recv_buffer).

Lemma recv_new_wf size : 0 ≤ size < 2 ^ 32 → recv_wf (RecvBuffer_new size).
Proof.
  intros. unfold recv_wf, RecvBuffer_new, zlen. simpl.
  rewrite length_replicate. lia.
Qed.

Lemma recv_readable_zlen b : recv_wf b → ReadableSize b = zlen (recv_contents b).
Proof.
  intros (?&?&?&Hl). unfold ReadableSize, recv_contents.
  rewrite u32_small by lia. symmetry. apply zlen_ztake.
  rewrite zlen_zdrop; lia.
Qed.

Lemma recv_contents_zlen b : recv_wf b →
  zlen (recv_contents b) = write_pos_ b - read_pos_ b.
Proof.
  intros (?&?&?&Hl). unfold recv_contents. apply zlen_ztake.
  rewrite zlen_zdrop; lia.
Qed.

Lemma recv_writable b : recv_wf b → WritableSize b = capacity_ b - write_pos_ b.
Proof. intros (?&?&?&?). unfold WritableSize. apply u32_small. lia. Qed.

Lemma recv_capacity_bound b :
  recv_wf b → zlen (recv_contents b) ≤ capacity_ b < 2 ^ 32.
Proof. intros Hwf. rewrite recv_contents_zlen by done. destruct Hwf. lia. Qed.

Lemma recv_is_empty b : recv_wf b → IsEmpty b = bool_decide (recv_contents b = []).
Proof.
  intros Hwf. pose proof (recv_contents_zlen b Hwf) as Hz.
  unfold IsEmpty. destruct (Z.eqb_spec (read_pos_ b) (write_pos_ b)) as [E|E].
  - rewrite bool_decide_eq_true_2; [done|]. apply zlen_zero. lia.
  - rewrite bool_decide_eq_false_2; [done|]. intros Hn. rewrite Hn in Hz.
    unfold zlen in Hz. simpl in Hz. lia.
Qed.

Lemma recv_read b : recv_wf b → ReadRegion b = Some (recv_contents b).
Proof.
  intros (?&?&?&Hl). unfold ReadRegion. rewrite u32_small by lia.
  by apply mem_read_Some; lia.
Qed.

Lemma recv_compact b : recv_wf b →
  ∃ b', Compact b = Some b' ∧ recv_wf b' ∧ capacity_ b' = capacity_ b ∧
    recv_contents b' = recv_contents b ∧ read_pos_ b' = 0.
Proof.
  intros Hwf. pose proof (recv_contents_zlen b Hwf) as Hz.
  destruct Hwf as (Hrw&Hwc&Hc&Hl). unfold Compact.
  destruct (Z.eqb_spec (read_pos_ b) 0) as [E|E].
  { exists b. repeat split; auto with lia. }
  rewrite u32_small by lia. case_match; propify.
  - rewrite mem_read_Some by lia. simpl. fold (recv_contents b).
    rewrite mem_write_Some by lia. simpl.
    eexists. split; [done|]. split; [|split; [done|split; [|done]]].
    + repeat split; simpl; try lia.
      rewrite zlen_app, zlen_zdrop by lia. lia.
    + unfold recv_contents at 1. simpl. rewrite zdrop_0, ztake_app_le by lia.
      apply ztake_all. lia.
  - simpl. eexists. split; [done|]. split; [|split; [done|split; [|done]]].
    + repeat split; simpl; lia.
    + assert (recv_contents b = []) as -> by (apply zlen_zero; lia).
      apply zlen_zero. unfold recv_contents. simpl.
      rewrite zlen_ztake; rewrite ?zdrop_0; lia.
Qed.

(** The write of [Append] when the tail of the allocation has room. *)
Lemma recv_append_room b d :
  recv_wf b → write_pos_ b + zlen d ≤ capacity_ b →
  ∃ b', (buf ← mem_write (buffer_ b) (write_pos_ b) d;
         Some (mkRecvBuffer buf (capacity_ b) (read_pos_ b)
                 (write_pos_ b +₃₂ u32 (zlen d)), @Value unit CoreError tt))
        = Some (b', Value tt) ∧ recv_wf b' ∧ capacity_ b' = capacity_ b ∧
    recv_contents b' = recv_contents b ++ d.
Proof.
  intros Hwf Hroom. pose proof (recv_contents_zlen b Hwf) as Hz.
  destruct Hwf as (Hrw&Hwc&Hc&Hl). pose proof (zlen_nonneg d).
  destruct (mem_write (buffer_ b) (write_pos_ b) d) as [m|] eqn:Hw.
  2: { rewrite mem_write_Some in Hw by lia. done. }
  simpl. eexists. split; [done|].
  rewrite !u32_small by (rewrite ?u32_small; lia).
  pose proof (mem_write_zlen _ _ _ _ Hw).
  split; [repeat split; simpl; lia|]. split; [done|].
  unfold recv_contents. simpl.
  rewrite (ztake_zdrop_split (write_pos_ b - read_pos_ b)) by lia.
  rewrite zdrop_zdrop by lia. f_equal.
  - pose proof (mem_read_write_disjoint _ _ _ _ (read_pos_ b)
      (write_pos_ b - read_pos_ b) Hw ltac:(lia)) as Hd.
    rewrite !mem_read_Some in Hd by lia. congruence.
  - pose proof (mem_read_write_same _ _ _ _ Hw) as Hs.
    rewrite mem_read_Some in Hs by lia. injection Hs as Hs.
    rewrite <-Hs at 2. f_equal; [lia|f_equal; lia].
Qed.

Lemma recv_append_fits b d :
  recv_wf b → zlen (recv_contents b) + zlen d ≤ capacity_ b →
  ∃ b', Append b d = Some (b', Value tt) ∧ recv_wf b' ∧
    capacity_ b' = capacity_ b ∧ recv_contents b' = recv_contents b ++ d.
Proof.
  intros Hwf Hfit. pose proof (zlen_nonneg d).
  pose proof (recv_contents_zlen b Hwf) as Hz.
  pose proof (recv_capacity_bound b Hwf) as Hcap.
  assert (u32 (zlen d) = zlen d) as Hu by (apply u32_small; destruct Hwf; lia).
  unfold Append. rewrite Hu, recv_writable by done. case_match eqn:E; propify.
  - destruct (recv_compact b Hwf) as (b1&->&Hwf1&Hc1&Hb1&Hr1). simpl.
    rewrite recv_writable by done.
    pose proof (recv_contents_zlen b1 Hwf1) as Hz1. rewrite Hb1 in Hz1.
    case_match; propify; [lia|].
    destruct (recv_append_room b1 d Hwf1 ltac:(lia)) as (b'&HA&?&?&Hc).
    rewrite Hu in HA. exists b'. rewrite Hc, Hb1. split; [exact HA|].
    split; [done|]. split; [congruence|done].
  - simpl. rewrite recv_writable by done.
    rewrite (proj2 (Z.ltb_ge _ _)) by lia.
    destruct (recv_append_room b d Hwf ltac:(lia)) as (b'&HA&?&?&Hc).
    rewrite Hu in HA. eauto.
Qed.

Lemma recv_append_full b d :
  recv_wf b → zlen d < 2 ^ 32 → capacity_ b < zlen (recv_contents b) + zlen d →
  ∃ b', Append b d = Some (b', Unexpected kResourceExhausted) ∧ recv_wf b' ∧
    capacity_ b' = capacity_ b ∧ recv_contents b' = recv_contents b.
Proof.
  intros Hwf Hd Hfull. pose proof (recv_contents_zlen b Hwf) as Hz.
  pose proof (zlen_nonneg d).
  unfold Append. rewrite (u32_small (zlen d)) by lia.
  rewrite recv_writable by done. case_match; propify.
  2: { destruct Hwf as (?&?&?&?). lia. }
  destruct (recv_compact b Hwf) as (b1&->&Hwf1&Hc1&Hb1&Hr1). simpl.
  rewrite recv_writable by done.
  pose proof (recv_contents_zlen b1 Hwf1) as Hz1. rewrite Hb1 in Hz1.
  case_match; propify; [|lia]. eauto.
Qed.

Lemma recv_consume b n :
  recv_wf b → 0 ≤ n ≤ zlen (recv_contents b) →
  recv_wf (OnRead b n) ∧ capacity_ (OnRead b n) = capacity_ b ∧
  recv_contents (OnRead b n) = zdrop n (recv_contents b).
Proof.
  intros Hwf Hn. pose proof (recv_contents_zlen b Hwf) as Hz.
  destruct Hwf as (?&?&?&Hl). unfold OnRead. rewrite u32_small by lia.
  destruct (Z.eqb_spec (read_pos_ b + n) (write_pos_ b)) as [E|E].
  - split; [repeat split; simpl; lia|]. split; [done|].
    unfold recv_contents at 1. simpl. rewrite Z.sub_diag, ztake_0.
    symmetry. apply zdrop_all. lia.
  - split; [repeat split; simpl; lia|]. split; [done|].
    unfold recv_contents. simpl. rewrite zdrop_ztake by lia.
    rewrite zdrop_zdrop by lia. f_equal. lia.
Qed.
End Laws.

#[export] Program Instance RecvBuffer_reassembly : ReassemblyBuffer recv_buffer := {|
  rb_wf := recv_wf;
  rb_capacity := capacity_;
  rb_contents := recv_contents;
  rb_is_empty := IsEmpty;
  rb_readable := ReadableSize;
  rb_read := ReadRegion;
  rb_append := Append;
  rb_consume := OnRead;
  rb_should_compact := ShouldCompact;
  rb_compact := Compact;
  rb_capacity_bound := recv_capacity_bound;
  rb_is_empty_spec := recv_is_empty;
  rb_readable_spec := recv_readable_zlen;
  rb_read_spec := recv_read;
  rb_append_fits := recv_append_fits;
  rb_append_full := recv_append_full;
  rb_consume_spec := recv_consume;
|}.
Next Obligation.
  intros b Hwf. destruct (recv_compact b Hwf) as (b'&?&?&?&?&?). eauto.
Qed.
