(* ===== verification/PacketSession.v ===== *)
(** * Length-prefixed game packets

    Models [src/modules/game/PacketSession.cpp] and
    [include/iouring_runtime/game/PacketBuilder.h]: framing of a byte stream
    into packets [size:16 | id:16 | payload], with reassembly across receive
    completions.  The session is proved against the [ReassemblyBuffer] contract
    of RecvBuffer.v, so every theorem holds for the concrete buffer.

    [OnPacket] is the application's virtual method; the model records its calls
    in order.  [memcpy] into a [uint16_t] is modelled on a little-endian host,
    as the name [ReadLe16] says. *)

From S2P Require Import Prelude Types RecvBuffer.

#[local] Open Scope Z_scope.
#[local] Open Scope cxx_scope.

(** Source: include/iouring_runtime/game/PacketBuilder.h:14-14, PacketBuilder::kHeaderSize. *)
Definition kHeaderSize : Z := 4.

(** Source: include/iouring_runtime/game/PacketBuilder.h:15-16, PacketBuilder::kMaxPacketSize. *)
Definition kMaxPacketSize : Z := 65535.

Definition le16_of (d : bytes) : option Z :=
  match d with
  | b0 :: b1 :: _ => Some (byte_val b0 + 256 * byte_val b1)
  | _ => None
  end.

(** Source: src/modules/game/PacketSession.cpp:15-19, PacketSession::ReadLe16. *)
Definition ReadLe16 (d : bytes) (off : Z) : option Z := mem_read d off 2 ≫= le16_of.

(** The bytes [memcpy] copies out of a [uint16_t]. *)
Definition le16_bytes (z : Z) : bytes := [byte_of z; byte_of (z / 256)].

(** ** The receiving side *)

Section Receive.
Context {B : Type} `{RB : ReassemblyBuffer B}.

(** Source: include/iouring_runtime/game/PacketSession.h:30-38, PacketSession.
    The reassembly buffer, the [OnPacket] calls made so far and whether the
    session asked to disconnect. *)
Record packet_session := mkPacketSession {
  recv_buffer_ : B;
  on_packets : list (Z * bytes);
  disconnected : bool;
}.

Definition set_buffer (s : packet_session) (b : B) : packet_session :=
  mkPacketSession b (on_packets s) (disconnected s).
Definition Disconnect (s : packet_session) : packet_session :=
  mkPacketSession (recv_buffer_ s) (on_packets s) true.
Definition OnPacket (s : packet_session) (id : Z) (payload : bytes) : packet_session :=
  mkPacketSession (recv_buffer_ s) (on_packets s ++ [(id, payload)]) (disconnected s).

(** Source: src/modules/game/PacketSession.cpp:21-35, PacketSession::AppendToRecvBuffer. *)
Definition AppendToRecvBuffer (s : packet_session) (data : bytes)
    : option (packet_session * bool) :=
  if bool_decide (data = []) then Some (s, true) else
  '(b, r) ← rb_append (recv_buffer_ s) data;
  if has_value r then Some (set_buffer s b, true)
  else Some (Disconnect (set_buffer s b), false).

(** Source: src/modules/game/PacketSession.cpp:37-48, PacketSession::ValidatePacketSize. *)
Definition ValidatePacketSize (s : packet_session) (packet_size : Z)
    : packet_session * bool :=
  if (kHeaderSize <=? packet_size) && (packet_size <=? kMaxPacketSize)
  then (s, true) else (Disconnect s, false).

(** The part of [CompleteBufferedPacket] after the header is complete: *)
(** Source: src/modules/game/PacketSession.cpp:65-87, PacketSession::CompleteBufferedPacket. *)
Definition CompleteBufferedBody (s : packet_session) (data : bytes) (offset : Z)
    : option (packet_session * Z * bool) :=
  region ← rb_read (recv_buffer_ s);
  packet_size ← ReadLe16 region 0;
  let '(s, ok) := ValidatePacketSize s packet_size in
  if negb ok then Some (s, offset, false) else
  let needed := packet_size -₃₂ rb_readable (recv_buffer_ s) in
  let copied := needed `min` (zlen data -₆₄ offset) in
  '(s, ok) ← AppendToRecvBuffer s (ztake copied (zdrop offset data));
  if negb ok then Some (s, offset, false) else
  let offset := offset +₆₄ copied in
  if rb_readable (recv_buffer_ s) <? packet_size then Some (s, offset, true) else
  packet ← rb_read (recv_buffer_ s);
  packet_id ← ReadLe16 packet 2;
  payload ← mem_read packet kHeaderSize (packet_size - kHeaderSize);
  let s := OnPacket s packet_id payload in
  Some (set_buffer s (rb_consume (recv_buffer_ s) packet_size), offset, true).

(** Source: src/modules/game/PacketSession.cpp:50-88, PacketSession::CompleteBufferedPacket.
    Returns the advanced offset and the C++ return value. *)
Definition CompleteBufferedPacket (s : packet_session) (data : bytes) (offset : Z)
    : option (packet_session * Z * bool) :=
  if rb_readable (recv_buffer_ s) <? kHeaderSize then
    let needed := kHeaderSize -₃₂ rb_readable (recv_buffer_ s) in
    let copied := needed `min` (zlen data -₆₄ offset) in
    '(s, ok) ← AppendToRecvBuffer s (ztake copied (zdrop offset data));
    if negb ok then Some (s, offset, false) else
    let offset := offset +₆₄ copied in
    if rb_readable (recv_buffer_ s) <? kHeaderSize then Some (s, offset, true)
    else CompleteBufferedBody s data offset
  else CompleteBufferedBody s data offset.

(** Source: src/modules/game/PacketSession.cpp:93-129, PacketSession::OnRecv.
    The loop; the boolean tells whether it was left by [return].  Every
    iteration that does not leave the loop advances [offset], so [fuel] beyond
    the number of bytes left is never used up (theorem [OnRecv_spec]). *)
Fixpoint OnRecv_loop (fuel : nat) (s : packet_session) (data : bytes) (offset : Z)
    : option (packet_session * bool) :=
  match fuel with
  | O => None
  | S fuel =>
    if negb (offset <? zlen data) then Some (s, false) else
    if negb (rb_is_empty (recv_buffer_ s)) then
      '(s, offset, ok) ← CompleteBufferedPacket s data offset;
      if negb ok then Some (s, true) else
      if negb (rb_is_empty (recv_buffer_ s)) then Some (s, false)
      else OnRecv_loop fuel s data offset
    else
      let remaining := zlen data -₆₄ offset in
      if remaining <? kHeaderSize then
        '(s, ok) ← AppendToRecvBuffer s (zdrop offset data);
        Some (s, negb ok)
      else
        packet_size ← ReadLe16 data offset;
        let '(s, ok) := ValidatePacketSize s packet_size in
        if negb ok then Some (s, true) else
        if remaining <? packet_size then
          '(s, ok) ← AppendToRecvBuffer s (zdrop offset data);
          Some (s, negb ok)
        else
          packet_id ← ReadLe16 data (offset + 2);
          payload ← mem_read data (offset + kHeaderSize) (packet_size - kHeaderSize);
          OnRecv_loop fuel (OnPacket s packet_id payload) data (offset +₆₄ packet_size)
  end.

(** Source: src/modules/game/PacketSession.cpp:90-134, PacketSession::OnRecv. *)
Definition OnRecv (s : packet_session) (data : bytes) : option packet_session :=
  '(s, returned) ← OnRecv_loop (S (length data)) s data 0;
  if returned : bool then Some s else
  if rb_should_compact (recv_buffer_ s)
  then b ← rb_compact (recv_buffer_ s); Some (set_buffer s b)
  else Some s.

(** Successive receive completions; a disconnecting session gets no more data
    (Session.cpp delivers only while the session is open). *)
Fixpoint feed (s : packet_session) (chunks : list bytes) : option packet_session :=
  match chunks with
  | [] => Some s
  | c :: chunks =>
      if disconnected s then Some s else
      s ← OnRecv s c; feed s chunks
  end.
End Receive.

Arguments packet_session : clear implicits.
Arguments mkPacketSession {B} _ _ _.

(** ** The sending side *)

(** The [ProtobufMessage] concept: generated code, a parameter here. *)
Class ProtobufMessage (T : Type) := {
  ByteSizeLong : T → Z;
  SerializeToArray : T → Z → option bytes;
}.

(** Source: include/iouring_runtime/game/PacketBuilder.h:18-51, PacketBuilder::Build.
    [alloc] is the pool: the writable bytes of a fresh send buffer, or [None]
    when the pool is exhausted.  The result is the committed bytes, [None] for
    a null reference; the outer [option] is undefined behaviour. *)
Definition Build {T} `{ProtobufMessage T} (alloc : Z → option bytes)
    (msg_id : Z) (proto : T) : option (option bytes) :=
  let payload_size := u32 (ByteSizeLong proto) in
  let total_size := kHeaderSize +₃₂ payload_size in
  if kMaxPacketSize <? total_size then Some None else
  match alloc total_size with
  | None => Some None
  | Some out =>
    out ← mem_write out 0 (le16_bytes (u16 total_size));
    out ← mem_write out 2 (le16_bytes (u16 msg_id));
    if negb (payload_size =? 0) then
      match SerializeToArray proto payload_size with
      | None => Some None
      | Some d => out ← mem_write out kHeaderSize d; Some (Some (ztake total_size out))
      end
    else Some (Some (ztake total_size out))
  end.

(** ** Reference framing of a whole stream *)

Inductive stream_end := Partial (rest : bytes) | Malformed.

Fixpoint frames (fuel : nat) (s : bytes) : list (Z * bytes) * stream_end :=
  match fuel with
  | O => ([], Partial s)
  | S fuel =>
    match s with
    | s0 :: s1 :: i0 :: i1 :: body =>
      let size := byte_val s0 + 256 * byte_val s1 in
      if size <? 4 then ([], Malformed)
      else if zlen s <? size then ([], Partial s)
      else let '(ps, e) := frames fuel (zdrop size s) in
           ((byte_val i0 + 256 * byte_val i1, ztake (size - 4) body) :: ps, e)
    | _ => ([], Partial s)
    end
  end.

(** The packets of a stream, and what is left of it. *)
Definition parse (s : bytes) : list (Z * bytes) * stream_end := frames (S (length s)) s.
Arguments parse : simpl never.

(** The bytes of one well-formed packet. *)
Definition encode (p : Z * bytes) : bytes :=
  le16_bytes (4 + zlen p.2) ++ le16_bytes p.1 ++ p.2.

(** ** Lemmas on the reference framing *)

Definition partial (c : bytes) : Prop :=
  zlen c < 4 ∨ ∃ size, le16_of c = Some size ∧ 4 ≤ size ∧ zlen c < size.

Lemma le16_of_range c size : le16_of c = Some size → 0 ≤ size ≤ kMaxPacketSize.
Proof.
  destruct c as [|b0 [|b1 c]]; simpl; intros; simplify_eq.
  pose proof (byte_val_range b0). pose proof (byte_val_range b1).
  unfold kMaxPacketSize. lia.
Qed.

Lemma le16_of_Some c : 2 ≤ zlen c → ∃ size, le16_of c = Some size.
Proof. destruct c as [|b0 [|b1 c]]; unfold zlen; simpl; intros; [lia..|eauto]. Qed.

Lemma le16_of_app c d : 2 ≤ zlen c → le16_of (c ++ d) = le16_of c.
Proof. destruct c as [|b0 [|b1 c]]; unfold zlen; simpl; intros; [lia..|done]. Qed.

Lemma le16_of_ztake c : le16_of (ztake 2 c) = le16_of c.
Proof. by destruct c as [|b0 [|b1 c]]. Qed.

Lemma ReadLe16_spec d off :
  0 ≤ off → off + 2 ≤ zlen d → ReadLe16 d off = le16_of (zdrop off d).
Proof.
  intros. unfold ReadLe16. rewrite mem_read_Some by lia. simpl. apply le16_of_ztake.
Qed.

Lemma le16_of_bytes z d : 0 ≤ z < 2 ^ 16 → le16_of (le16_bytes z ++ d) = Some z.
Proof.
  intros. simpl. rewrite !byte_val_of. f_equal.
  rewrite (Z.mod_small (z / 256)).
  - pose proof (Z.div_mod z 256). lia.
  - split; [apply Z.div_pos; lia|apply Z.div_lt_upper_bound; lia].
Qed.

Lemma frames_fuel n m s : (length s < n)%nat → (length s < m)%nat → frames n s = frames m s.
Proof.
  revert m s. induction n as [|n IH]; intros [|m] s; [lia..|]. intros Hn Hm. simpl.
  destruct s as [|s0 [|s1 [|i0 [|i1 body]]]]; try done.
  case_match; propify; [done|]. case_match; propify; [done|].
  rewrite (IH m); [done| |]; unfold zdrop; rewrite length_drop; simpl in *; lia.
Qed.

Lemma parse_partial c : partial c → parse c = ([], Partial c).
Proof.
  intros Hp. unfold parse. simpl.
  destruct c as [|s0 [|s1 [|i0 [|i1 body]]]]; try done.
  destruct Hp as [Hp|(size&Hs&?&?)]; [unfold zlen in Hp; simpl in Hp; lia|].
  simpl in Hs. simplify_eq. case_match; propify; [lia|].
  case_match; propify; [done|lia].
Qed.

Lemma parse_bad c size :
  4 ≤ zlen c → le16_of c = Some size → size < 4 → parse c = ([], Malformed).
Proof.
  intros Hl Hs Hlt. unfold parse. simpl.
  destruct c as [|s0 [|s1 [|i0 [|i1 body]]]]; try (unfold zlen in Hl; simpl in Hl; lia).
  simpl in Hs. simplify_eq. case_match; propify; [done|lia].
Qed.

Lemma parse_packet c size id :
  le16_of c = Some size → le16_of (zdrop 2 c) = Some id →
  4 ≤ size ≤ zlen c →
  parse c = ((id, ztake (size - 4) (zdrop 4 c)) :: (parse (zdrop size c)).1,
             (parse (zdrop size c)).2).
Proof.
  intros Hs Hid Hsz. unfold parse at 1.
  destruct c as [|s0 [|s1 [|i0 [|i1 body]]]]; try (unfold zlen in Hsz; simpl in Hsz; lia).
  simpl in Hs, Hid. simplify_eq. cbn [frames].
  case_match; propify; [lia|]. case_match; propify; [lia|].
  set (rest := zdrop _ _). rewrite (frames_fuel _ (S (length rest))).
  - fold (parse rest). by destruct (parse rest).
  - unfold rest, zdrop. rewrite length_drop. simpl. lia.
  - lia.
Qed.

(** ** The implementation follows the reference *)

Section ReceiveSpec.
Context {B : Type} `{RB : ReassemblyBuffer B}.
Implicit Types (s : packet_session B) (c data : bytes).

Abbreviation contents s := (rb_contents (recv_buffer_ s)).

(** A session whose buffer can hold any packet. *)
Definition session_ok (s : packet_session B) : Prop :=
  rb_wf (recv_buffer_ s) ∧ kMaxPacketSize ≤ rb_capacity (recv_buffer_ s).

(** [s'] is [s] after delivering what [r] lists. *)
Definition delivers (s s' : packet_session B) (r : list (Z * bytes) * stream_end) : Prop :=
  session_ok s' ∧ on_packets s' = on_packets s ++ r.1 ∧
  match r.2 with
  | Partial rest => disconnected s' = false ∧ contents s' = rest
  | Malformed => disconnected s' = true
  end.

Lemma AppendToRecvBuffer_spec s d :
  session_ok s → zlen (contents s) + zlen d ≤ kMaxPacketSize →
  ∃ b, AppendToRecvBuffer s d = Some (set_buffer s b, true) ∧
    session_ok (set_buffer s b) ∧ rb_contents b = contents s ++ d.
Proof.
  intros [Hwf Hcap] Hfit. unfold AppendToRecvBuffer. case_bool_decide as E.
  - subst. exists (recv_buffer_ s). rewrite app_nil_r.
    by destruct s.
  - destruct (rb_append_fits _ d Hwf) as (b&->&?&Hc&?); [lia|]. simpl.
    exists b. split; [done|]. split; [|done]. split; [done|]. simpl. lia.
Qed.

(** What [CompleteBufferedBody] does with [c] buffered and [d] left to read. *)
Lemma CompleteBufferedBody_spec s data o size :
  session_ok s → zlen data < 2 ^ 64 → 0 ≤ o ≤ zlen data →
  4 ≤ zlen (contents s) → le16_of (contents s) = Some size →
  size < 4 ∨ zlen (contents s) ≤ size →
  let d := zdrop o data in
  if size <? 4 then
    CompleteBufferedBody s data o = Some (Disconnect s, o, false)
  else if zlen (contents s) + zlen d <? size then
    ∃ b, CompleteBufferedBody s data o = Some (set_buffer s b, zlen data, true) ∧
      session_ok (set_buffer s b) ∧ rb_contents b = contents s ++ d
  else ∃ b id,
    CompleteBufferedBody s data o =
      Some (set_buffer (OnPacket s id (ztake (size - 4) (zdrop 4 (contents s ++ d)))) b,
            o + (size - zlen (contents s)), true) ∧
    session_ok (set_buffer s b) ∧ rb_contents b = [] ∧
    le16_of (zdrop 2 (contents s ++ d)) = Some id.
Proof.
  intros Hok Hdata Ho Hc4 Hsz Hrange d.
  pose proof (le16_of_range _ _ Hsz) as Hszr.
  assert (zlen d = zlen data - o) as Hd by (apply zlen_zdrop; lia).
  unfold CompleteBufferedBody, ValidatePacketSize, kHeaderSize.
  rewrite rb_read_spec by apply Hok. simpl.
  rewrite ReadLe16_spec by lia. rewrite zdrop_0, Hsz. simpl.
  case_match eqn:E4; propify.
  { by rewrite (proj2 (Z.leb_gt _ _)) by lia. }
  rewrite (proj2 (Z.leb_le 4 size)), (proj2 (Z.leb_le size _)) by lia. simpl.
  rewrite rb_readable_spec by apply Hok.
  rewrite (u32_small (size - _)), (u64_small (zlen data - o))
    by (unfold kMaxPacketSize in *; lia).
  destruct (AppendToRecvBuffer_spec s
    (ztake ((size - zlen (contents s)) `min` (zlen data - o)) d) Hok)
    as (b&HA&Hok'&Hb).
  { rewrite zlen_ztake; lia. }
  unfold d in HA. rewrite HA. simpl. fold d in HA. fold d.
  rewrite u64_small by lia.
  rewrite rb_readable_spec, Hb by apply Hok'. rewrite zlen_app, zlen_ztake by lia.
  destruct (Z.ltb_spec (zlen (contents s) + zlen d) size).
  - rewrite (proj2 (Z.ltb_lt _ _)) by lia. exists b.
    split; [do 2 f_equal; f_equal; lia|].
    split; [done|]. rewrite Hb. f_equal. apply ztake_all. lia.
  - rewrite (proj2 (Z.ltb_ge _ _)) by lia.
    rewrite rb_read_spec by apply Hok'. simpl.
    set (pkt := rb_contents b) in *.
    assert (pkt = ztake size (contents s ++ d)) as Hp.
    { rewrite Hb. rewrite ztake_app_ge by lia. do 2 f_equal. lia. }
    assert (zlen pkt = size) as Hpl by (rewrite Hp, zlen_ztake; rewrite ?zlen_app; lia).
    destruct (le16_of_Some (zdrop 2 pkt)) as [id Hid]; [rewrite zlen_zdrop; lia|].
    rewrite ReadLe16_spec, Hid by lia. simpl. rewrite mem_read_Some by lia. simpl.
    destruct (rb_consume_spec b size) as (?&?&Hc); [apply Hok'|fold pkt; lia|].
    exists (rb_consume b size), id.
    assert (ztake (size - 4) (zdrop 4 pkt) = ztake (size - 4) (zdrop 4 (contents s ++ d)))
      as ->.
    { rewrite Hp, zdrop_ztake by lia. apply ztake_ztake. lia. }
    split; [do 2 f_equal; f_equal; lia|].
    split; [split; [done|destruct Hok'; simpl in *; lia]|].
    split; [rewrite Hc; apply zdrop_all; fold pkt; lia|].
    rewrite <-Hid, Hp, zdrop_ztake by lia.
    rewrite <-(le16_of_ztake (ztake _ _)), ztake_ztake by lia.
    by rewrite le16_of_ztake.
Qed.

(** What completing the packet in the buffer does, the stream from there being
    [stream]: the packet is delivered and the buffer is empty, all of [data] is
    in the buffer, or the session is disconnected. *)
Definition completes (s s' : packet_session B) (data : bytes) (o o' : Z) (ok : bool)
    (stream : bytes) : Prop :=
  if ok then
    o < o' ≤ zlen data ∧ session_ok s' ∧ disconnected s' = false ∧
    ((contents s' ≠ [] ∧ delivers s s' (parse stream)) ∨
     (contents s' = [] ∧ ∃ p, on_packets s' = on_packets s ++ [p] ∧
        parse stream = (p :: (parse (zdrop o' data)).1, (parse (zdrop o' data)).2)))
  else disconnected s' = true ∧ delivers s s' (parse stream).

(** With a complete header in the buffer of [s1], at [o1]. *)
Lemma body_completes s s1 data o o1 size :
  session_ok s1 → disconnected s1 = false → on_packets s1 = on_packets s →
  zlen data < 2 ^ 64 → 0 ≤ o ≤ o1 → o1 ≤ zlen data → o < zlen data → 4 ≤ zlen (contents s1) →
  le16_of (contents s1) = Some size → size < 4 ∨ zlen (contents s1) ≤ size →
  o < o1 ∨ zlen (contents s1) < size →
  ∃ s' o' ok, CompleteBufferedBody s1 data o1 = Some (s', o', ok) ∧
    completes s s' data o o' ok (contents s1 ++ zdrop o1 data).
Proof.
  intros Hok1 Hdis1 Hp1 Hdata Ho Ho1 Hlt H4 Hsz Hr Hadv.
  pose proof (CompleteBufferedBody_spec s1 data o1 size Hok1 Hdata ltac:(lia) H4 Hsz Hr)
    as Hb. cbn zeta in Hb.
  assert (zlen (zdrop o1 data) = zlen data - o1) as Hd1 by (apply zlen_zdrop; lia).
  assert (le16_of (contents s1 ++ zdrop o1 data) = Some size) as Hsz'
    by (rewrite le16_of_app; [done|lia]).
  destruct (Z.ltb_spec size 4).
  { do 3 eexists. split; [exact Hb|]. unfold completes.
    rewrite (parse_bad _ size); [|rewrite zlen_app; lia|done|lia].
    split; [done|]. split; [done|]. simpl. by rewrite app_nil_r, Hp1. }
  destruct (Z.ltb_spec (zlen (contents s1) + zlen (zdrop o1 data)) size).
  - destruct Hb as (b&->&Hokb&Hcb). do 3 eexists. split; [done|].
    split; [lia|]. split; [done|]. split; [done|]. left. simpl. rewrite Hcb. split.
    { destruct (contents s1); [unfold zlen in H4; simpl in H4; lia|done]. }
    rewrite parse_partial.
    + split; [done|]. simpl. by rewrite app_nil_r, Hp1.
    + right. exists size. rewrite zlen_app. split_and!; auto; lia.
  - destruct Hb as (b&id&->&Hokb&Hcb&Hid). do 3 eexists. split; [done|].
    split; [lia|]. split; [done|]. split; [done|]. right. split; [done|].
    eexists. split; [simpl; by rewrite Hp1|].
    rewrite (parse_packet _ size id); [|done..|rewrite zlen_app; lia].
    by rewrite (zdrop_app_ge size), zdrop_zdrop by lia.
Qed.

(** The same with a possibly incomplete header in the buffer. *)
Lemma CompleteBufferedPacket_spec s data o :
  session_ok s → disconnected s = false → zlen data < 2 ^ 64 → 0 ≤ o < zlen data →
  contents s ≠ [] → partial (contents s) →
  ∃ s' o' ok, CompleteBufferedPacket s data o = Some (s', o', ok) ∧
    completes s s' data o o' ok (contents s ++ zdrop o data).
Proof.
  intros Hok Hdis Hdata Ho Hne Hpart.
  assert (zlen (zdrop o data) = zlen data - o) as Hd by (apply zlen_zdrop; lia).
  assert (0 < zlen (contents s)) as Hpos.
  { destruct (contents s); [done|]. unfold zlen. simpl. lia. }
  unfold CompleteBufferedPacket. rewrite rb_readable_spec by apply Hok.
  unfold kHeaderSize. destruct (Z.ltb_spec (zlen (contents s)) 4) as [Hlt|Hge].
  2: { destruct Hpart as [?|(size&Hsz&?&?)]; [lia|]. apply (body_completes s s data o o size); done || lia. }
  rewrite u32_small, (u64_small (zlen data - o)) by lia.
  remember ((4 - zlen (contents s)) `min` (zlen data - o)) as copied eqn:Hcop.
  destruct (AppendToRecvBuffer_spec s (ztake copied (zdrop o data)) Hok) as (b&HA&Hokb&Hcb).
  { unfold kMaxPacketSize. rewrite zlen_ztake by lia. lia. }
  assert (zlen (rb_contents b) = zlen (contents s) + copied) as Hlen
    by (rewrite Hcb, zlen_app, zlen_ztake; lia).
  rewrite HA. simpl. rewrite u64_small, rb_readable_spec, Hlen by (lia || apply Hokb).
  destruct (Z.ltb_spec (zlen (contents s) + copied) 4).
  - do 3 eexists. split; [done|]. split; [lia|]. split; [done|].
    split; [done|]. left. simpl. rewrite Hcb. split; [by destruct (contents s)|].
    rewrite (ztake_all copied) in Hcb by lia.
    rewrite parse_partial by (left; rewrite zlen_app; lia).
    split; [done|]. simpl. by rewrite app_nil_r.
  - destruct (le16_of_Some (rb_contents b)) as [size Hsz]; [lia|].
    replace (contents s ++ zdrop o data)
      with (contents (set_buffer s b) ++ zdrop (o + copied) data).
    + apply (body_completes s (set_buffer s b) data o (o + copied) size); simpl; done || lia.
    + simpl. rewrite Hcb, <-app_assoc, <-zdrop_zdrop by lia. f_equal. apply ztake_zdrop.
Qed.

Lemma delivers_nil s c : session_ok s → disconnected s = false → contents s = c →
  partial c → delivers s s (parse c).
Proof.
  intros. rewrite parse_partial by done. split; [done|]. simpl.
  rewrite app_nil_r. done.
Qed.

(** Moving on after one delivered packet. *)
Lemma delivers_cons s s1 s' p r :
  on_packets s1 = on_packets s ++ [p] → delivers s1 s' r → delivers s s' (p :: r.1, r.2).
Proof.
  intros Hp (?&Hps&?). split; [done|]. split; [|done].
  simpl. rewrite Hps, Hp, <-app_assoc. done.
Qed.

(** The rest of [data] is an incomplete packet: it goes to the empty buffer. *)
Lemma OnRecv_tail_spec s d :
  session_ok s → disconnected s = false → contents s = [] → partial d →
  ∃ s' ret, ('(s, ok) ← AppendToRecvBuffer s d; Some (s, negb ok)) = Some (s', ret) ∧
    delivers s s' (parse d) ∧ ret = disconnected s'.
Proof.
  intros Hok Hdis Hempty Hpart.
  destruct (AppendToRecvBuffer_spec s d Hok) as (b&->&Hokb&Hcb).
  { rewrite Hempty, zlen_nil. unfold kMaxPacketSize.
    destruct Hpart as [?|(size&Hs&?&?)]; [lia|].
    apply le16_of_range in Hs. unfold kMaxPacketSize in Hs. lia. }
  simpl. do 2 eexists. split; [done|]. split; [|done].
  rewrite parse_partial by done. split; [done|]. simpl. by rewrite app_nil_r, Hcb, Hempty.
Qed.

Lemma OnRecv_loop_spec n s data o :
  session_ok s → disconnected s = false → zlen data < 2 ^ 64 → 0 ≤ o ≤ zlen data →
  partial (contents s) → zlen data - o < Z.of_nat n →
  ∃ s' ret, OnRecv_loop n s data o = Some (s', ret) ∧
    delivers s s' (parse (contents s ++ zdrop o data)) ∧ ret = disconnected s'.
Proof.
  revert s o. induction n as [|n IH]; intros s o Hok Hdis Hdata Ho Hpart Hn; [lia|].
  assert (zlen (zdrop o data) = zlen data - o) as Hd by (apply zlen_zdrop; lia).
  cbn [OnRecv_loop]. destruct (Z.ltb_spec o (zlen data)) as [Hlt|Hge]; simpl.
  2: { exists s, false. split; [done|]. rewrite (zlen_zero (zdrop o data)) by lia.
       rewrite app_nil_r. split; [by apply delivers_nil|done]. }
  rewrite rb_is_empty_spec by apply Hok. case_bool_decide as Hempty; simpl.
  - rewrite Hempty in *. simpl. rewrite u64_small by lia. unfold kHeaderSize.
    destruct (Z.ltb_spec (zlen data - o) 4); [apply OnRecv_tail_spec; try done; left; lia|].
    destruct (le16_of_Some (zdrop o data)) as [size Hsz]; [lia|].
    rewrite (ReadLe16_spec data o), Hsz by lia. simpl.
    pose proof (le16_of_range _ _ Hsz). unfold ValidatePacketSize, kHeaderSize.
    destruct (Z.leb_spec 4 size); simpl.
    2: { do 2 eexists. split; [done|]. rewrite (parse_bad _ size) by (done || lia).
         split; [|done]. split; [done|]. simpl. by rewrite app_nil_r. }
    rewrite (proj2 (Z.leb_le size _)) by lia. simpl.
    destruct (Z.ltb_spec (zlen data - o) size); [apply OnRecv_tail_spec; try done; right; exists size; split_and!; done || lia|].
    rewrite ReadLe16_spec by lia.
    destruct (le16_of_Some (zdrop (o + 2) data)) as [id Hid]; [rewrite zlen_zdrop; lia|].
    rewrite Hid. simpl. rewrite mem_read_Some by lia. simpl. rewrite u64_small by lia.
    destruct (IH (OnPacket s id (ztake (size - 4) (zdrop (o + 4) data))) (o + size))
      as (s'&ret&->&Hdel&Hret); simpl; try (done || lia).
    { rewrite Hempty. left. unfold zlen. simpl. lia. }
    do 2 eexists. split; [done|]. split; [|done].
    simpl in Hdel. rewrite Hempty in Hdel. simpl in Hdel.
    rewrite (parse_packet _ size id); [|done|by rewrite zdrop_zdrop by lia|lia].
    rewrite !zdrop_zdrop by lia. eapply delivers_cons; [|exact Hdel]. done.
  - destruct (CompleteBufferedPacket_spec s data o) as (s1&o1&ok&->&Hs1); try (done || lia).
    simpl. destruct ok; simpl.
    2: { do 2 eexists. split; [done|]. destruct Hs1 as [-> ?]. done. }
    destruct Hs1 as (Ho1&Hok1&Hdis1&[(Hne&Hdel)|(He&p&Hp&Hpar)]).
    + rewrite rb_is_empty_spec, bool_decide_eq_false_2 by (done || apply Hok1). simpl.
      do 2 eexists. split; [done|]. done.
    + rewrite rb_is_empty_spec, bool_decide_eq_true_2 by (done || apply Hok1). simpl.
      destruct (IH s1 o1) as (s'&ret&->&Hdel&Hret); try (done || lia).
      { rewrite He. left. unfold zlen. simpl. lia. }
      do 2 eexists. split; [done|]. split; [|done]. rewrite Hpar.
      rewrite He in Hdel. simpl in Hdel. by eapply delivers_cons.
Qed.

(** One receive completion. *)
Lemma OnRecv_delivers s data :
  session_ok s → disconnected s = false → zlen data < 2 ^ 64 → partial (contents s) →
  ∃ s', OnRecv s data = Some s' ∧ delivers s s' (parse (contents s ++ data)).
Proof.
  intros Hok Hdis Hdata Hpart. unfold OnRecv.
  destruct (OnRecv_loop_spec (S (length data)) s data 0) as (s'&ret&->&Hdel&->);
    try done; [split; [done|apply zlen_nonneg]|unfold zlen; lia|].
  rewrite zdrop_0 in Hdel. simpl.
  destruct (disconnected s') eqn:Hd; [eauto|].
  destruct (rb_should_compact _); [|eauto].
  destruct Hdel as ((Hwf&Hcap)&Hps&He).
  destruct (rb_compact_spec _ Hwf) as (b&->&Hwfb&Hcb&Hbb). simpl.
  eexists. split; [done|]. split; [split; [done|simpl; lia]|]. split; [done|].
  simpl. rewrite Hbb. exact He.
Qed.
End ReceiveSpec.

(** ** Splitting a stream *)

Lemma parse_app a b :
  parse (a ++ b) =
  match (parse a).2 with
  | Malformed => parse a
  | Partial r => ((parse a).1 ++ (parse (r ++ b)).1, (parse (r ++ b)).2)
  end.
Proof.
  remember (length a) as n eqn:Hn. revert a Hn.
  induction n as [n IH] using lt_wf_ind. intros a ->.
  destruct (Z.lt_ge_cases (zlen a) 4) as [Hl|Hl].
  { rewrite (parse_partial a) by (by left). simpl. by destruct (parse (a ++ b)). }
  destruct (le16_of_Some a) as [size Hsz]; [lia|].
  destruct (Z.lt_ge_cases size 4).
  { rewrite (parse_bad a size) by done.
    by rewrite (parse_bad (a ++ b) size);
      [|rewrite zlen_app; pose proof (zlen_nonneg b); lia|rewrite le16_of_app; [done|lia]|]. }
  destruct (Z.lt_ge_cases (zlen a) size).
  { rewrite (parse_partial a); [by simpl; destruct (parse (a ++ b))|].
    right. eauto. }
  pose proof (zlen_nonneg b).
  destruct (le16_of_Some (zdrop 2 a)) as [id Hid]; [rewrite zlen_zdrop; lia|].
  rewrite (parse_packet a size id) by (done || lia).
  rewrite (parse_packet (a ++ b) size id).
  - rewrite (zdrop_app_le size) by lia.
    rewrite (IH (length (zdrop size a))); [|unfold zdrop; rewrite length_drop; len_tac|done].
    rewrite (zdrop_app_le 4), (ztake_app_le (size - 4)) by (rewrite ?zlen_zdrop; lia).
    simpl. by destruct (parse (zdrop size a)) as [ps [r|]].
  - by rewrite le16_of_app by lia.
  - rewrite zdrop_app_le, le16_of_app; [done|rewrite zlen_zdrop; lia|lia].
  - rewrite zlen_app. lia.
Qed.

Lemma parse_rest_partial s r : (parse s).2 = Partial r → partial r.
Proof.
  remember (length s) as n eqn:Hn. revert s Hn.
  induction n as [n IH] using lt_wf_ind. intros s ->.
  destruct (Z.lt_ge_cases (zlen s) 4) as [Hl|Hl].
  { rewrite parse_partial by (by left). simpl. intros [= <-]. by left. }
  destruct (le16_of_Some s) as [size Hsz]; [lia|].
  destruct (Z.lt_ge_cases size 4); [by rewrite (parse_bad s size)|].
  destruct (Z.lt_ge_cases (zlen s) size) as [|Hge].
  { rewrite parse_partial by (right; eauto). simpl. intros [= <-]. right. eauto. }
  destruct (le16_of_Some (zdrop 2 s)) as [id Hid]; [rewrite zlen_zdrop; lia|].
  rewrite (parse_packet s size id) by (done || lia). simpl.
  apply (IH (length (zdrop size s))); [unfold zdrop; rewrite length_drop; len_tac|done].
Qed.

Lemma feed_delivers {B} `{RB : ReassemblyBuffer B} (s : packet_session B) chunks :
  session_ok s → disconnected s = false → partial (rb_contents (recv_buffer_ s)) →
  Forall (λ c, zlen c < 2 ^ 64) chunks →
  ∃ s', feed s chunks = Some s' ∧
    delivers s s' (parse (rb_contents (recv_buffer_ s) ++ concat chunks)).
Proof.
  revert s. induction chunks as [|c chunks IH]; intros s Hok Hdis Hpart Hlen.
  { exists s. split; [done|]. rewrite app_nil_r. by apply delivers_nil. }
  apply Forall_cons in Hlen as [Hc Hlen]. simpl. rewrite Hdis.
  destruct (OnRecv_delivers s c Hok Hdis Hc Hpart) as (s1&->&Hok1&Hp1&He1). simpl.
  rewrite app_assoc, parse_app.
  destruct (parse (rb_contents (recv_buffer_ s) ++ c)) as [ps e] eqn:Hparse.
  simpl in *. destruct e as [r|].
  - destruct He1 as [Hd1 Hc1].
    destruct (IH s1) as (s'&->&Hok'&Hp'&He'); try done.
    { rewrite Hc1. apply (parse_rest_partial (rb_contents (recv_buffer_ s) ++ c)).
      by rewrite Hparse. }
    exists s'. split; [done|]. rewrite Hc1 in *. split; [done|]. simpl.
    rewrite Hp', Hp1, app_assoc. done.
  - exists s1. split; [by destruct chunks; simpl; rewrite ?He1|]. done.
Qed.

Lemma parse_encode p s :
  0 ≤ p.1 < 2 ^ 16 → zlen p.2 ≤ kMaxPacketSize - 4 →
  parse (encode p ++ s) = (p :: (parse s).1, (parse s).2).
Proof.
  destruct p as [id d]. intros Hid Hd. simpl in Hid, Hd. unfold kMaxPacketSize in *.
  pose proof (zlen_nonneg d). unfold encode. simpl fst. simpl snd.
  assert (zlen (le16_bytes (4 + zlen d)) = 2) by done.
  assert (zlen (le16_bytes id) = 2) by done.
  rewrite (parse_packet _ (4 + zlen d) id).
  - rewrite <-(zdrop_zdrop (zlen d) 4) by lia.
    change (zdrop 4 _) with (d ++ s).
    rewrite zdrop_app_ge, Z.sub_diag, zdrop_0 by lia.
    rewrite ztake_app_le, ztake_all by lia. done.
  - rewrite <-!app_assoc, le16_of_bytes by lia. done.
  - rewrite <-!app_assoc, zdrop_app_ge by lia.
    replace (2 - zlen (le16_bytes (4 + zlen d))) with 0 by lia.
    rewrite zdrop_0, le16_of_bytes by lia. done.
  - rewrite !zlen_app. pose proof (zlen_nonneg s). lia.
Qed.

(** A packet the wire format can carry. *)
Definition packet_ok (p : Z * bytes) : Prop :=
  0 ≤ p.1 < 2 ^ 16 ∧ zlen p.2 ≤ kMaxPacketSize - 4.

Lemma parse_encodes ps : Forall packet_ok ps → parse (concat (map encode ps)) = (ps, Partial []).
Proof.
  induction 1 as [|p ps [? ?] _ IH]; [done|]. rewrite map_cons, concat_cons.
  by rewrite parse_encode, IH.
Qed.

(** ** End to end *)

(** A connected session: [RecvBuffer]'s default capacity is 64 KiB. *)
Definition PacketSession_new : packet_session recv_buffer :=
  mkPacketSession (RecvBuffer_new 65536) [] false.

Lemma PacketSession_new_ok : session_ok PacketSession_new.
Proof. split; [apply (recv_new_wf 65536)|vm_compute]; done. Qed.

Lemma new_feed_delivers chunks :
  Forall (λ c, zlen c < 2 ^ 64) chunks →
  ∃ s', feed PacketSession_new chunks = Some s' ∧
    delivers PacketSession_new s' (parse (concat chunks)).
Proof.
  intros Hl. destruct (feed_delivers PacketSession_new chunks) as (s'&?&?); eauto.
  - apply PacketSession_new_ok.
  - by left.
Qed.

(** C5: Whatever way the network splits a byte stream into receive
    completions, the session never leaves a buffer's bounds and delivers
    exactly the packets of the whole stream, in order; it disconnects exactly
    when the stream has a malformed header, and otherwise holds back precisely
    the incomplete tail. *)
Theorem feed_parse chunks :
  Forall (λ c, zlen c < 2 ^ 64) chunks →
  ∃ s', feed PacketSession_new chunks = Some s' ∧
    on_packets s' = (parse (concat chunks)).1 ∧
    match (parse (concat chunks)).2 with
    | Partial rest => disconnected s' = false ∧ ReadRegion (recv_buffer_ s') = Some rest
    | Malformed => disconnected s' = true
    end.
Proof.
  intros Hl. destruct (new_feed_delivers chunks Hl) as (s'&?&[Hwf _]&?&He).
  exists s'. split; [done|]. split; [done|].
  destruct (parse (concat chunks)).2; [|done].
  destruct He as [? <-]. split; [done|]. by apply recv_read.
Qed.

Lemma feed_parse_witness :
  ∃ s', feed PacketSession_new
      [[byte_of 6]; [byte_of 0; byte_of 7; byte_of 0; "a"%char]; ["b"%char; byte_of 9]] = Some s' ∧
    on_packets s' = [(7, ["a"; "b"]%char)] ∧ disconnected s' = false ∧
    ReadRegion (recv_buffer_ s') = Some [byte_of 9].
Proof.
  destruct (feed_parse
    [[byte_of 6]; [byte_of 0; byte_of 7; byte_of 0; "a"%char]; ["b"%char; byte_of 9]])
    as (s'&?&?&Hend); [by repeat constructor|].
  exists s'. split; [done|]. split; [done|]. exact Hend.
Defined.

(** Packets encoded one after the other and cut up arbitrarily come out
    as they went in, and nothing is left in the reassembly buffer. *)
Theorem stream_roundtrip ps chunks :
  Forall packet_ok ps → concat chunks = concat (map encode ps) →
  Forall (λ c, zlen c < 2 ^ 64) chunks →
  ∃ s', feed PacketSession_new chunks = Some s' ∧
    on_packets s' = ps ∧ disconnected s' = false ∧ IsEmpty (recv_buffer_ s') = true.
Proof.
  intros Hps Hc Hl. destruct (new_feed_delivers chunks Hl) as (s'&?&[Hwf _]&Hp&He).
  rewrite Hc, parse_encodes in * by done. destruct He as [? Hcont]. simpl in *.
  exists s'. split_and!; try done. rewrite recv_is_empty by done.
  by apply bool_decide_eq_true.
Qed.

Lemma stream_roundtrip_witness :
  ∃ s', feed PacketSession_new
      (map (λ b, [b]) (concat (map encode [(1, txt "hi"); (2, []); (65535, txt "x")]))) = Some s' ∧
    on_packets s' = [(1, txt "hi"); (2, []); (65535, txt "x")] ∧
    disconnected s' = false ∧ IsEmpty (recv_buffer_ s') = true.
Proof.
  apply stream_roundtrip; [|reflexivity|by repeat constructor].
  repeat constructor; simpl; (lia || done).
Defined.

(** *** Building and receiving messages *)

Section Messages.
Context {T : Type} `{ProtobufMessage T}.
Variable alloc : Z → option bytes.
(** Serialisation writes exactly the announced number of bytes. *)
Hypothesis Serialize_size : ∀ m d,
  SerializeToArray m (ByteSizeLong m) = Some d → zlen d = ByteSizeLong m.
(** A message is smaller than 2 GiB. *)
Hypothesis ByteSize_range : ∀ m, 0 ≤ ByteSizeLong m < 2 ^ 31.
(** A pool buffer has the requested size. *)
Hypothesis alloc_size : ∀ n out, 0 ≤ n → alloc n = Some out → zlen out = n.

(** [d] is the serialised form of [m]. *)
Definition payload_of (m : T) (d : bytes) : Prop :=
  if ByteSizeLong m =? 0 then d = [] else SerializeToArray m (ByteSizeLong m) = Some d.

Lemma payload_of_zlen m d : payload_of m d → zlen d = ByteSizeLong m.
Proof.
  unfold payload_of. destruct (Z.eqb_spec (ByteSizeLong m) 0) as [->|]; [by intros ->|].
  apply Serialize_size.
Qed.

(** All outcomes of [Build]. *)
Lemma Build_cases id m :
  Build alloc id m =
  if kMaxPacketSize <? 4 + ByteSizeLong m then Some None else
  match alloc (4 + ByteSizeLong m) with
  | None => Some None
  | Some _ =>
    if ByteSizeLong m =? 0 then Some (Some (encode (u16 id, [])))
    else match SerializeToArray m (ByteSizeLong m) with
         | None => Some None
         | Some d => Some (Some (encode (u16 id, d)))
         end
  end.
Proof.
  pose proof (ByteSize_range m). unfold Build at 1, kHeaderSize.
  rewrite (u32_small (ByteSizeLong m)), (u32_small (4 + _)) by lia.
  destruct (Z.ltb_spec kMaxPacketSize (4 + ByteSizeLong m)) as [|Hle]; [done|].
  destruct (alloc _) as [out|] eqn:Ha; [|done].
  apply alloc_size in Ha as Hout; [|lia].
  set (sz := ByteSizeLong m) in *. unfold kMaxPacketSize in Hle.
  rewrite (u16_small (4 + _)) by lia.
  set (h1 := le16_bytes (4 + sz)). set (h2 := le16_bytes (u16 id)).
  assert (zlen h1 = 2) as Hh1 by done. assert (zlen h2 = 2) as Hh2 by done.
  assert (∃ o1 o2 o3, out = [] ++ o1 ++ o2 ++ o3 ∧ zlen o1 = 2 ∧ zlen o2 = 2 ∧ zlen o3 = sz)
    as (o1&o2&o3&->&?&?&?).
  { exists (ztake 2 out), (ztake 2 (zdrop 2 out)), (zdrop 4 out).
    rewrite !zlen_ztake, zlen_zdrop by (rewrite ?zlen_zdrop; lia).
    split_and!; try lia. by rewrite <-(zdrop_zdrop 2 2), !ztake_zdrop by lia. }
  rewrite (mem_write_mid [] o1) by (done || lia). cbn [mbind option_bind app].
  rewrite (mem_write_mid h1 o2) by (done || lia). cbn [mbind option_bind].
  unfold encode. cbn [fst snd].
  destruct (Z.eqb_spec sz 0) as [Hz|Hz]; cbn [negb].
  - rewrite (zlen_zero o3) by lia. rewrite ztake_all by (rewrite !zlen_app, zlen_nil; lia).
    unfold h1. by rewrite Hz.
  - destruct (SerializeToArray m sz) as [d|] eqn:Hser; [|done].
    pose proof (Serialize_size m d Hser) as Hd. fold sz in Hd.
    rewrite <-(app_nil_r (h1 ++ h2 ++ o3)), <-!app_assoc.
    rewrite app_assoc, mem_write_mid by (rewrite ?zlen_app; lia). cbn [mbind option_bind].
    rewrite app_nil_r, <-app_assoc, ztake_all by (rewrite !zlen_app; lia).
    unfold h1. by rewrite Hd.
Qed.

Lemma Build_Some id m out :
  Build alloc id m = Some (Some out) →
  ∃ d, payload_of m d ∧ out = encode (u16 id, d) ∧ packet_ok (u16 id, d).
Proof.
  pose proof (ByteSize_range m). rewrite Build_cases. unfold payload_of. intros HB.
  case_tests; eexists; (split; [done|]; split; [done|]); (split; [apply u16_range|]); simpl.
  - rewrite zlen_nil. unfold kMaxPacketSize. lia.
  - match goal with Hs : SerializeToArray _ _ = Some _ |- _ => apply Serialize_size in Hs end.
    unfold kMaxPacketSize in *. lia.
Qed.

(** Messages built by [PacketBuilder::Build] and sent over a stream that
    the network splits arbitrarily arrive as exactly those messages, in order,
    with their ids truncated to 16 bits and their serialised payloads. *)
Theorem Build_feed msgs outs chunks :
  Forall2 (λ im out, Build alloc im.1 im.2 = Some (Some out)) msgs outs →
  concat chunks = concat outs → Forall (λ c, zlen c < 2 ^ 64) chunks →
  ∃ s', feed PacketSession_new chunks = Some s' ∧ disconnected s' = false ∧
    Forall2 (λ im p, p.1 = u16 im.1 ∧ payload_of im.2 p.2) msgs (on_packets s').
Proof.
  intros HB Hc Hl.
  assert (∃ ps, Forall packet_ok ps ∧ outs = map encode ps ∧
    Forall2 (λ im p, p.1 = u16 im.1 ∧ payload_of im.2 p.2) msgs ps) as (ps&Hps&->&Hm).
  { clear Hc. induction HB as [|[id m] out msgs outs Hb _ (ps&?&->&?)]; [by exists []|].
    destruct (Build_Some _ _ _ Hb) as (d&?&->&?).
    exists ((u16 id, d) :: ps). split; [by constructor|]. split; [done|by constructor]. }
  destruct (new_feed_delivers chunks Hl) as (s'&?&_&Hp&He).
  rewrite Hc, parse_encodes in * by done. exists s'. simpl in *.
  split; [done|]. split; [apply He|]. by rewrite Hp.
Qed.
End Messages.

(** A message type whose serialised form is the message itself. *)
#[local] Instance bytes_message : ProtobufMessage (list Ascii.ascii) := {|
  ByteSizeLong m := zlen m mod 2 ^ 31;
  SerializeToArray m n := if zlen m =? n then Some m else None;
|}.

Lemma Build_feed_witness :
  ∃ s', feed PacketSession_new
      [encode (3, txt "abc") ++ take 2 (encode (65537 - 65536, [])); drop 2 (encode (1, []))]
        = Some s' ∧ disconnected s' = false ∧
    Forall2 (λ im p, p.1 = u16 im.1 ∧ payload_of im.2 p.2)
      [(3, txt "abc"); (65537, [])] (on_packets s').
Proof.
  apply (Build_feed (λ n, Some (replicate (Z.to_nat n) zero)))
    with (outs := [encode (3, txt "abc"); encode (1, [])]).
  - intros m d. simpl. case_match; intros; simplify_eq. by propify.
  - intros m. simpl. apply Z.mod_pos_bound. lia.
  - intros n out ? [= <-]. unfold zlen. rewrite length_replicate. lia.
  - by repeat constructor.
  - reflexivity.
  - by repeat constructor.
Defined.
