(* ===== verification/SendBuffer.v ===== *)
(** * Pooled send buffers

    Models [include/iouring_runtime/core/SendBuffer.h]: a [BufferPool] carves
    [SendBuffer]s out of large chunks, counts the live buffers of each chunk,
    and recycles a chunk when the last of them is released.

    Chunks and buffers are heap objects with an address ([nat]); a
    [shared_ptr<SendBuffer>] is its address, and releasing it stands for the
    destruction of the last reference.  [None] is undefined behaviour (a
    dangling chunk, a copy outside an allocation).

    The pool refines an abstract store of private byte strings
    ([run_ops_refines]) as long as sizes do not wrap ([Open_overflow]) and releases
    are not interleaved with allocations; [release_race_overlap] exhibits an interleaving of
    [OnRelease] with [Allocate] after which two live buffers share bytes. *)

From stdpp Require Import fin_maps.
From S2P Require Import Prelude Types.

#[local] Set Warnings "-clear-no-such-hyp".
#[local] Open Scope Z_scope.
#[local] Open Scope cxx_scope.

(** ** Data *)

(** Source: include/iouring_runtime/core/SendBuffer.h:47-50, SendBuffer.
    [buffer_] is the offset of the first byte in the owner's allocation. *)
Record send_buffer := mkSendBuffer {
  owner_ : nat;
  sb_buffer_ : Z;
  alloc_size_ : Z;
  write_size_ : Z;
}.

(** Source: include/iouring_runtime/core/SendBuffer.h:92-95, SendBufferChunk. *)
Record chunk := mkChunk {
  ck_buffer_ : bytes;
  offset_ : Z;
  ref_count_ : Z;
}.

(** Source: include/iouring_runtime/core/SendBuffer.h:172-176, BufferPool.
    Next to the members: the chunk and buffer objects alive on the heap, and
    the next fresh address of each kind. *)
Record pool := mkPool {
  chunks : gmap nat chunk;
  buffers : gmap nat send_buffer;
  pending_gc_ : list nat;
  active_chunks_ : list nat;
  free_chunks_ : list nat;
  chunk_size_ : Z;
  max_chunks_ : Z;
  next_chunk : nat;
  next_buffer : nat;
}.

Definition set_chunks (p : pool) m :=
  mkPool m (buffers p) (pending_gc_ p) (active_chunks_ p) (free_chunks_ p)
    (chunk_size_ p) (max_chunks_ p) (next_chunk p) (next_buffer p).
Definition set_buffers (p : pool) m :=
  mkPool (chunks p) m (pending_gc_ p) (active_chunks_ p) (free_chunks_ p)
    (chunk_size_ p) (max_chunks_ p) (next_chunk p) (next_buffer p).
Definition set_pending (p : pool) l :=
  mkPool (chunks p) (buffers p) l (active_chunks_ p) (free_chunks_ p)
    (chunk_size_ p) (max_chunks_ p) (next_chunk p) (next_buffer p).
Definition set_active (p : pool) l :=
  mkPool (chunks p) (buffers p) (pending_gc_ p) l (free_chunks_ p)
    (chunk_size_ p) (max_chunks_ p) (next_chunk p) (next_buffer p).
Definition set_free (p : pool) l :=
  mkPool (chunks p) (buffers p) (pending_gc_ p) (active_chunks_ p) l
    (chunk_size_ p) (max_chunks_ p) (next_chunk p) (next_buffer p).

(** Source: include/iouring_runtime/core/SendBuffer.h:55-55, SendBufferChunk::kDefaultChunkSize. *)
Definition kDefaultChunkSize : Z := 4 * 1024 * 1024.

(** Source: include/iouring_runtime/core/SendBuffer.h:100-100, BufferPool::kMaxFreeChunks. *)
Definition kMaxFreeChunks : Z := 8.

(** Source: include/iouring_runtime/core/SendBuffer.h:102-104, BufferPool::BufferPool. *)
Definition BufferPool_new (chunk_size max_chunks : Z) : pool :=
  mkPool ∅ ∅ [] [] [] chunk_size max_chunks 0 0.

(** ** A buffer *)

(** Source: include/iouring_runtime/core/SendBuffer.h:27-29, SendBuffer::Writable.
    The span as (offset in the chunk, length). *)
Definition Writable (sb : send_buffer) : Z * Z :=
  (sb_buffer_ sb + write_size_ sb, alloc_size_ sb -₃₂ write_size_ sb).

(** Source: include/iouring_runtime/core/SendBuffer.h:31-33, SendBuffer::Commit. *)
Definition Commit (sb : send_buffer) (size : Z) : send_buffer :=
  mkSendBuffer (owner_ sb) (sb_buffer_ sb) (alloc_size_ sb) (write_size_ sb +₃₂ size).

(** Source: include/iouring_runtime/core/SendBuffer.h:35-37, SendBuffer::Data. *)
Definition Data (p : pool) (h : nat) : option bytes :=
  sb ← buffers p !! h;
  ck ← chunks p !! owner_ sb;
  mem_read (ck_buffer_ ck) (sb_buffer_ sb) (write_size_ sb).

(** Source: include/iouring_runtime/core/SendBuffer.h:39-39, SendBuffer::Size. *)
Definition Size (sb : send_buffer) : Z := write_size_ sb.

(** ** A chunk *)

(** Source: include/iouring_runtime/core/SendBuffer.h:57-58, SendBufferChunk::SendBufferChunk. *)
Definition SendBufferChunk_new (chunk_size : Z) : chunk :=
  mkChunk (replicate (Z.to_nat chunk_size) zero) 0 0.

(** Source: include/iouring_runtime/core/SendBuffer.h:60-75, SendBufferChunk::Open. *)
Definition Open (p : pool) (c : nat) (size : Z) : option (pool * option nat) :=
  ck ← chunks p !! c;
  if u32 (zlen (ck_buffer_ ck)) <? offset_ ck +₃₂ size then Some (p, None) else
  let sb := mkSendBuffer c (offset_ ck) size 0 in
  let ck := mkChunk (ck_buffer_ ck) (offset_ ck +₃₂ size) (ref_count_ ck +₃₂ 1) in
  let h := next_buffer p in
  Some (mkPool (<[c := ck]> (chunks p)) (<[h := sb]> (buffers p)) (pending_gc_ p)
          (active_chunks_ p) (free_chunks_ p) (chunk_size_ p) (max_chunks_ p)
          (next_chunk p) (S h), Some h).

(** Source: include/iouring_runtime/core/SendBuffer.h:77-79, SendBufferChunk::Reset. *)
Definition Reset (ck : chunk) : chunk := mkChunk (ck_buffer_ ck) 0 (ref_count_ ck).

(** Source: include/iouring_runtime/core/SendBuffer.h:81-83, SendBufferChunk::Full. *)
Definition Full (ck : chunk) : bool := u32 (zlen (ck_buffer_ ck)) <=? offset_ ck.

(** Source: include/iouring_runtime/core/SendBuffer.h:85-87, SendBufferChunk::Unused. *)
Definition Unused (ck : chunk) : bool := ref_count_ ck =? 0.

(** ** The pool *)

(** Source: include/iouring_runtime/core/SendBuffer.h:148-158, BufferPool::MoveToFree.
    When the free list is full, [erase] destroys the chunk. *)
Definition MoveToFree (p : pool) (c : nat) : option pool :=
  match erase_first c (active_chunks_ p) with
  | None => Some p
  | Some active =>
    ck ← chunks p !! c;
    let p := set_chunks p (<[c := Reset ck]> (chunks p)) in
    if zlen (free_chunks_ p) <? kMaxFreeChunks
    then Some (set_active (set_free p (free_chunks_ p ++ [c])) active)
    else Some (set_active (set_chunks p (delete c (chunks p))) active)
  end.

Fixpoint MoveAllToFree (p : pool) (l : list nat) : option pool :=
  match l with
  | [] => Some p
  | c :: l => p ← MoveToFree p c; MoveAllToFree p l
  end.

(** Source: include/iouring_runtime/core/SendBuffer.h:142-146, BufferPool::FlushPendingGc. *)
Definition FlushPendingGc (p : pool) : option pool :=
  MoveAllToFree (set_pending p []) (pending_gc_ p).

(** Source: include/iouring_runtime/core/SendBuffer.h:160-169, BufferPool::AcquireChunk. *)
Definition AcquireChunk (p : pool) : pool * option nat :=
  match last (free_chunks_ p) with
  | Some c => (set_free p (removelast (free_chunks_ p)), Some c)
  | None =>
    if max_chunks_ p <=? zlen (active_chunks_ p) then (p, None) else
    let c := next_chunk p in
    (mkPool (<[c := SendBufferChunk_new (chunk_size_ p)]> (chunks p)) (buffers p)
       (pending_gc_ p) (active_chunks_ p) (free_chunks_ p) (chunk_size_ p)
       (max_chunks_ p) (S c) (next_buffer p), Some c)
  end.

(** Source: include/iouring_runtime/core/SendBuffer.h:117-127, BufferPool::Allocate.
    The slow path: open a recycled or fresh chunk. *)
Definition AllocateFresh (p : pool) (size : Z) : option (pool * expected nat CoreError) :=
  match AcquireChunk p with
  | (p, None) => Some (p, Unexpected kResourceExhausted)
  | (p, Some c) =>
    '(p, buf) ← Open (set_active p (active_chunks_ p ++ [c])) c size;
    match buf with
    | None => Some (p, Unexpected kResourceExhausted)
    | Some h => Some (p, Value h)
    end
  end.

(** Source: include/iouring_runtime/core/SendBuffer.h:106-127, BufferPool::Allocate. *)
Definition Allocate (p : pool) (size : Z) : option (pool * expected nat CoreError) :=
  p ← FlushPendingGc p;
  match last (active_chunks_ p) with
  | Some c =>
    '(p, buf) ← Open p c size;
    match buf with
    | Some h => Some (p, Value h)
    | None => AllocateFresh p size
    end
  | None => AllocateFresh p size
  end.

(** Source: include/iouring_runtime/core/SendBuffer.h:132-140, BufferPool::OnChunkUnused.
    [owns_lock] is the outcome of the [try_to_lock]. *)
Definition OnChunkUnused (p : pool) (c : nat) (owns_lock : bool) : option pool :=
  if negb owns_lock then Some (set_pending p (pending_gc_ p ++ [c]))
  else MoveToFree p c.

(** Source: include/iouring_runtime/core/SendBuffer.h:70-74, SendBufferChunk::Open.
    The deleter up to and including the atomic [fetch_sub] of [OnRelease]: the
    chunk, and whether this was its last buffer. *)
Definition release_begin (p : pool) (h : nat) : option (pool * nat * bool) :=
  sb ← buffers p !! h;
  let c := owner_ sb in
  ck ← chunks p !! c;
  let p := set_buffers p (delete h (buffers p)) in
  let p := set_chunks p
    (<[c := mkChunk (ck_buffer_ ck) (offset_ ck) (ref_count_ ck -₃₂ 1)]> (chunks p)) in
  Some (p, c, ref_count_ ck =? 1).

(** Source: include/iouring_runtime/core/SendBuffer.h:180-184, SendBufferChunk::OnRelease.
    The whole release when no other thread intervenes. *)
Definition OnRelease (p : pool) (h : nat) : option pool :=
  '(p, c, last_one) ← release_begin p h;
  if last_one : bool then OnChunkUnused p c true else Some p.

(** Copying [d] to the start of [Writable()] and committing it, as every
    producer does. *)
Definition append_data (p : pool) (h : nat) (d : bytes) : option pool :=
  sb ← buffers p !! h;
  ck ← chunks p !! owner_ sb;
  let '(pos, len) := Writable sb in
  if len <? zlen d then None else
  m ← mem_write (ck_buffer_ ck) pos d;
  Some (set_buffers
    (set_chunks p (<[owner_ sb := mkChunk m (offset_ ck) (ref_count_ ck)]> (chunks p)))
    (<[h := Commit sb (zlen d)]> (buffers p))).

(** ** Invariant *)

(** The live buffers of a chunk. *)
Definition refs (m : gmap nat send_buffer) (c : nat) : nat :=
  size (filter (λ kv, owner_ kv.2 = c) m).

Definition chunk_ok (p : pool) (c : nat) (ck : chunk) : Prop :=
  zlen (ck_buffer_ ck) = chunk_size_ p ∧ 0 ≤ offset_ ck ≤ chunk_size_ p ∧
  ref_count_ ck = Z.of_nat (refs (buffers p) c).

Definition buffer_in (sb : send_buffer) (ck : chunk) : Prop :=
  0 ≤ sb_buffer_ sb ∧ 0 ≤ write_size_ sb ≤ alloc_size_ sb ∧
  sb_buffer_ sb + alloc_size_ sb ≤ offset_ ck.

(** The byte ranges of two buffers have no byte in common. *)
Definition disjoint_bufs (a b : send_buffer) : Prop :=
  owner_ a = owner_ b →
  sb_buffer_ a + alloc_size_ a ≤ sb_buffer_ b ∨ sb_buffer_ b + alloc_size_ b ≤ sb_buffer_ a.

(** The invariant of a pool between operations. *)
Record pool_ok (p : pool) : Prop := {
  po_nodup : NoDup (active_chunks_ p ++ free_chunks_ p);
  po_chunk c : c ∈ active_chunks_ p ++ free_chunks_ p →
    ∃ ck, chunks p !! c = Some ck ∧ chunk_ok p c ck;
  po_free c ck : c ∈ free_chunks_ p → chunks p !! c = Some ck → offset_ ck = 0;
  po_buf h sb : buffers p !! h = Some sb → owner_ sb ∈ active_chunks_ p ∧
    ∃ ck, chunks p !! owner_ sb = Some ck ∧ buffer_in sb ck;
  po_disj h1 h2 a b : buffers p !! h1 = Some a → buffers p !! h2 = Some b → h1 ≠ h2 →
    disjoint_bufs a b;
  po_pending : pending_gc_ p = [];
  po_next c : c ∈ active_chunks_ p ++ free_chunks_ p → (c < next_chunk p)%nat;
  po_nextb h : (next_buffer p ≤ h)%nat → buffers p !! h = None;
  po_size : 0 ≤ chunk_size_ p < 2 ^ 32;
}.

(** What a client sees behind a reference: its capacity and its bytes. *)
Definition view (p : pool) (h : nat) : option (Z * bytes) :=
  sb ← buffers p !! h; d ← Data p h; Some (alloc_size_ sb, d).

Lemma refs_insert m h sb c :
  m !! h = None →
  refs (<[h := sb]> m) c = if decide (owner_ sb = c) then S (refs m c) else refs m c.
Proof.
  intros Hh. unfold refs. case_decide as E.
  - rewrite map_filter_insert_True by done. rewrite map_size_insert_None; [done|].
    rewrite map_lookup_filter, Hh. done.
  - rewrite map_filter_insert_False by done. by rewrite delete_id.
Qed.

Lemma refs_delete m h sb c :
  m !! h = Some sb →
  refs m c = if decide (owner_ sb = c) then S (refs (delete h m) c) else refs (delete h m) c.
Proof.
  intros Hh. rewrite <-(insert_delete_id m h sb Hh) at 1.
  by rewrite refs_insert by apply lookup_delete_eq.
Qed.

Lemma refs_update m h sb sb' c :
  m !! h = Some sb → owner_ sb' = owner_ sb → refs (<[h := sb']> m) c = refs m c.
Proof.
  intros Hh Ho. rewrite (refs_delete m h sb c Hh), <-insert_delete_eq.
  rewrite refs_insert by apply lookup_delete_eq. by rewrite Ho.
Qed.

Lemma refs_zero m c h sb : refs m c = 0%nat → m !! h = Some sb → owner_ sb ≠ c.
Proof.
  intros Hz Hh Ho. rewrite (refs_delete m h sb c Hh), decide_True in Hz by done. done.
Qed.

Lemma refs_le_size m c : (refs m c ≤ size m)%nat.
Proof. unfold refs. apply map_subseteq_size, map_filter_subseteq. Qed.

(** A pool whose buffers and chunk bytes are unchanged shows the same. *)
Lemma view_ext p q :
  buffers p = buffers q →
  (∀ h sb, buffers q !! h = Some sb →
     ck_buffer_ <$> chunks p !! owner_ sb = ck_buffer_ <$> chunks q !! owner_ sb) →
  ∀ h, view p h = view q h.
Proof.
  intros Hb Hc h. unfold view, Data. rewrite Hb.
  destruct (buffers q !! h) as [sb|] eqn:Hh; [|done]. simpl.
  specialize (Hc h sb Hh).
  destruct (chunks p !! _) as [x|], (chunks q !! _) as [y|]; simplify_eq/=; [|done].
  congruence.
Qed.

(** ** The operations keep the invariant *)

Section Operations.
Implicit Types (p q : pool) (c h : nat).

(** Operations that only move chunks between the lists. *)
Lemma pool_ok_rebuild p q :
  pool_ok p → buffers q = buffers p → pending_gc_ q = [] →
  chunk_size_ q = chunk_size_ p → next_buffer q = next_buffer p →
  NoDup (active_chunks_ q ++ free_chunks_ q) →
  (∀ c, c ∈ active_chunks_ q ++ free_chunks_ q →
     (c < next_chunk q)%nat ∧ ∃ ck, chunks q !! c = Some ck ∧ chunk_ok q c ck) →
  (∀ c ck, c ∈ free_chunks_ q → chunks q !! c = Some ck → offset_ ck = 0) →
  (∀ h sb, buffers p !! h = Some sb →
     owner_ sb ∈ active_chunks_ q ∧ chunks q !! owner_ sb = chunks p !! owner_ sb) →
  pool_ok q ∧ ∀ h, view q h = view p h.
Proof.
  intros Hok Hb Hp Hs Hn Hnd Hc Hf Ho. split.
  - constructor; try done.
    + intros c Hin. by apply Hc.
    + intros h sb. rewrite Hb. intros Hh. destruct (Ho h sb Hh) as [? ->].
      split; [done|]. by apply (po_buf p Hok h).
    + rewrite Hb. apply (po_disj p Hok).
    + intros c Hin. by apply Hc.
    + rewrite Hb, Hn. apply (po_nextb p Hok).
    + rewrite Hs. apply (po_size p Hok).
  - apply view_ext; [done|]. intros h sb Hh. by destruct (Ho h sb Hh) as [_ ->].
Qed.

(** Recycling a chunk without live buffers is invisible to clients. *)
Lemma MoveToFree_spec p c :
  pool_ok p → refs (buffers p) c = 0%nat →
  ∃ q, MoveToFree p c = Some q ∧ pool_ok q ∧ buffers q = buffers p ∧
    chunk_size_ q = chunk_size_ p ∧ ∀ h, view q h = view p h.
Proof.
  intros Hok Hz. unfold MoveToFree.
  destruct (erase_first c (active_chunks_ p)) as [act|] eqn:He; [|eauto 10].
  apply erase_first_Some in He as Hact.
  pose proof (po_nodup p Hok) as Hnd. rewrite Hact in Hnd.
  apply NoDup_cons in Hnd as [Hnotin Hnd].
  destruct (po_chunk p Hok c) as (ck&Hck&Hckok); [rewrite Hact; set_solver|].
  rewrite Hck. simpl.
  assert (∀ h sb, buffers p !! h = Some sb → owner_ sb ∈ act ∧ owner_ sb ≠ c) as Hown.
  { intros h sb Hh. pose proof (refs_zero _ _ _ _ Hz Hh).
    destruct (po_buf p Hok h sb Hh) as [Hin _]. rewrite Hact in Hin. set_solver. }
  assert (∀ x, x ∈ act ++ free_chunks_ p → x ≠ c ∧ x ∈ active_chunks_ p ++ free_chunks_ p)
    as Hold.
  { intros x Hx. rewrite Hact. split; [by intros ->|set_solver]. }
  assert (∀ x y, chunk_ok p x y → chunk_ok p x (Reset y)) as Hreset.
  { intros x y (?&?&?). pose proof (po_size p Hok). split; [done|]. simpl. split; [lia|done]. }
  case_match eqn:Hlen; eexists; (split; [done|]).
  - edestruct (pool_ok_rebuild p) as [Hq Hv]; [exact Hok|..|split_and!; [exact Hq|done..|exact Hv]];
      try done; simpl.
    + apply (po_pending p Hok).
    + rewrite app_assoc, NoDup_app. split; [done|].
      split; [|apply NoDup_singleton]. intros x Hx ->%list_elem_of_singleton. done.
    + intros x. rewrite app_assoc, elem_of_app, list_elem_of_singleton. intros [Hx| ->].
      * destruct (Hold x Hx) as [Hne Hx']. split; [by apply (po_next p Hok)|].
        rewrite lookup_insert_ne by done. by apply (po_chunk p Hok).
      * split; [apply (po_next p Hok); rewrite Hact; set_solver|].
        rewrite lookup_insert_eq. eauto.
    + intros x y. rewrite elem_of_app, list_elem_of_singleton. intros [Hx| ->].
      * rewrite lookup_insert_ne by (intros ->; set_solver).
        by apply (po_free p Hok).
      * rewrite lookup_insert_eq. by intros [= <-].
    + intros h sb Hh. destruct (Hown h sb Hh). by rewrite lookup_insert_ne.
  - edestruct (pool_ok_rebuild p) as [Hq Hv]; [exact Hok|..|split_and!; [exact Hq|done..|exact Hv]];
      try done; simpl.
    + apply (po_pending p Hok).
    + intros x Hx. destruct (Hold x Hx) as [Hne Hx']. split; [by apply (po_next p Hok)|].
      rewrite lookup_delete_ne, lookup_insert_ne by done. by apply (po_chunk p Hok).
    + intros x y Hx. rewrite lookup_delete_ne, lookup_insert_ne by (intros ->; set_solver).
      by apply (po_free p Hok).
    + intros h sb Hh. destruct (Hown h sb Hh).
      by rewrite lookup_delete_ne, lookup_insert_ne.
Qed.

Lemma last_removelast {A} (l : list A) x : last l = Some x → l = removelast l ++ [x].
Proof.
  intros [k ->]%last_Some. by rewrite removelast_last.
Qed.

(** A chunk to open: a recycled one or a fresh one, empty either way. *)
Lemma AcquireChunk_spec p :
  pool_ok p →
  match AcquireChunk p with
  | (q, None) => q = p ∧ free_chunks_ p = [] ∧ max_chunks_ p ≤ zlen (active_chunks_ p)
  | (q, Some c) =>
    let r := set_active q (active_chunks_ q ++ [c]) in
    pool_ok r ∧ buffers r = buffers p ∧ chunk_size_ r = chunk_size_ p ∧
    (∀ h, view r h = view p h) ∧
    ∃ ck, chunks r !! c = Some ck ∧ offset_ ck = 0
  end.
Proof.
  intros Hok. unfold AcquireChunk. destruct (last (free_chunks_ p)) as [c|] eqn:Hl.
  - apply last_removelast in Hl as Hfree. set (f := removelast (free_chunks_ p)) in *.
    assert (active_chunks_ p ++ free_chunks_ p ≡ₚ (active_chunks_ p ++ [c]) ++ f) as Hperm.
    { rewrite Hfree, <-app_assoc. f_equiv. apply Permutation_app_comm. }
    destruct (po_chunk p Hok c) as (ck&Hck&?); [rewrite Hperm; set_solver|].
    cbn zeta. edestruct (pool_ok_rebuild p) as [Hq Hv];
      [exact Hok|..|split_and!; [exact Hq|done..|exact Hv|]]; try done; simpl.
    + apply (po_pending p Hok).
    + rewrite <-Hperm. apply (po_nodup p Hok).
    + intros x. rewrite <-Hperm. intros Hx. split; [by apply (po_next p Hok)|].
      by apply (po_chunk p Hok).
    + intros x y Hx. apply (po_free p Hok). rewrite Hfree. set_solver.
    + intros h sb Hh. split; [|done]. apply elem_of_app. left. by apply (po_buf p Hok h).
    + exists ck. split; [done|]. apply (po_free p Hok c); [rewrite Hfree; set_solver|done].
  - apply last_None in Hl.
    destruct (Z.leb_spec (max_chunks_ p) (zlen (active_chunks_ p))) as [Hmax|Hmax]; [done|].
    assert (next_chunk p ∉ active_chunks_ p ++ free_chunks_ p) as Hfresh.
    { intros Hin%(po_next p Hok). lia. }
    assert (∀ h sb, buffers p !! h = Some sb → owner_ sb ≠ next_chunk p) as Hown.
    { intros h sb Hh E. apply Hfresh. rewrite <-E. apply elem_of_app. left.
      by apply (po_buf p Hok h). }
    cbn zeta. edestruct (pool_ok_rebuild p) as [Hq Hv];
      [exact Hok|..|split_and!; [exact Hq|done..|exact Hv|]]; try done; simpl.
    + apply (po_pending p Hok).
    + rewrite Hl in *. rewrite app_nil_r in *. apply NoDup_app.
      split; [by pose proof (po_nodup p Hok) as Hn; rewrite Hl, app_nil_r in Hn|].
      split; [|apply NoDup_singleton]. by intros x Hx ->%list_elem_of_singleton.
    + intros x. rewrite Hl in *. rewrite app_nil_r in *.
      rewrite elem_of_app, list_elem_of_singleton. intros [Hx| ->].
      * destruct (decide (x = next_chunk p)) as [->|]; [done|].
        rewrite lookup_insert_ne by done.
        assert (x ∈ active_chunks_ p ++ free_chunks_ p) as Hx' by set_solver.
        split; [pose proof (po_next p Hok x Hx'); lia|]. by apply (po_chunk p Hok).
      * split; [lia|]. rewrite lookup_insert_eq. eexists. split; [done|].
        pose proof (po_size p Hok). split; [|split; [simpl; lia|]].
        { unfold zlen, SendBufferChunk_new. simpl. rewrite length_replicate. lia. }
        simpl. assert (refs (buffers p) (next_chunk p) = 0%nat) as ->; [|done].
        unfold refs. apply map_size_empty_iff, map_empty_filter.
        intros h sb Hh. simpl. by eapply Hown.
    + rewrite Hl. intros x y Hx. by apply not_elem_of_nil in Hx.
    + intros h sb Hh. split; [apply elem_of_app; left; by apply (po_buf p Hok h)|].
      rewrite lookup_insert_ne; [done|]. intros E. by apply (Hown h sb Hh).
    + rewrite lookup_insert_eq. eauto.
Qed.

(** Members other than the heap are as before. *)
Definition same_lists p q : Prop :=
  active_chunks_ q = active_chunks_ p ∧ free_chunks_ q = free_chunks_ p ∧
  pending_gc_ q = pending_gc_ p ∧ chunk_size_ q = chunk_size_ p ∧
  next_chunk q = next_chunk p.

(** Changing one chunk's counters and bytes together with one buffer. *)
Lemma pool_ok_update p q c ck ck' :
  pool_ok p → same_lists p q → chunks p !! c = Some ck → c ∈ active_chunks_ p →
  chunks q = <[c := ck']> (chunks p) →
  zlen (ck_buffer_ ck') = zlen (ck_buffer_ ck) → offset_ ck ≤ offset_ ck' ≤ chunk_size_ p →
  ref_count_ ck' = Z.of_nat (refs (buffers q) c) →
  (∀ x, x ≠ c → refs (buffers q) x = refs (buffers p) x) →
  (∀ h sb, buffers q !! h = Some sb → owner_ sb ∈ active_chunks_ p ∧
     (buffers p !! h = Some sb ∨ owner_ sb = c ∧ buffer_in sb ck')) →
  (∀ h1 h2 a b, buffers q !! h1 = Some a → buffers q !! h2 = Some b → h1 ≠ h2 →
     disjoint_bufs a b) →
  (∀ h, (next_buffer q ≤ h)%nat → buffers q !! h = None) →
  pool_ok q.
Proof.
  intros Hok (Ha&Hf&Hp&Hs&Hn) Hck Hc Hq Hlen Hoff Hrc Href Hbuf Hdisj Hnb.
  destruct (po_chunk p Hok c) as (ck1&Hck1&Hz&Ho&_); [set_solver|].
  assert (ck1 = ck) as -> by congruence.
  pose proof (po_nodup p Hok) as Hnd.
  constructor; rewrite ?Ha, ?Hf, ?Hp, ?Hs, ?Hn, ?Hq; try apply Hok; try done.
  - intros x Hx. destruct (decide (x = c)) as [->|Hne].
    + rewrite lookup_insert_eq. eexists. split; [done|].
      unfold chunk_ok. rewrite Hs. split; [lia|]. split; [lia|done].
    + rewrite lookup_insert_ne by done.
      destruct (po_chunk p Hok x Hx) as (y&?&?&?&?). exists y. split; [done|].
      unfold chunk_ok. by rewrite Hs, Href.
  - intros x y Hx. rewrite lookup_insert_ne; [by apply (po_free p Hok)|].
    intros ->. apply NoDup_app in Hnd. set_solver.
  - intros h sb Hh. destruct (Hbuf h sb Hh) as (Hin&Hcase). split; [done|].
    destruct (decide (owner_ sb = c)) as [E|Hne].
    + rewrite E, lookup_insert_eq. eexists. split; [done|].
      destruct Hcase as [Hold|[_ ?]]; [|done].
      destruct (po_buf p Hok h sb Hold) as (_&y&Hy&?&?&?). rewrite E in Hy.
      assert (y = ck) as -> by congruence. split_and!; try done; lia.
    + rewrite lookup_insert_ne by done. destruct Hcase as [Hold|[]]; [|done].
      by apply (po_buf p Hok h).
Qed.

(** Views when one chunk keeps the bytes of all other buffers. *)
Lemma view_update p q c ck ck' h :
  chunks q = <[c := ck']> (chunks p) → chunks p !! c = Some ck →
  buffers q !! h = buffers p !! h →
  (∀ sb, buffers p !! h = Some sb → owner_ sb = c →
     mem_read (ck_buffer_ ck') (sb_buffer_ sb) (write_size_ sb)
     = mem_read (ck_buffer_ ck) (sb_buffer_ sb) (write_size_ sb)) →
  view q h = view p h.
Proof.
  intros Hq Hck Hb Hm. unfold view, Data. rewrite Hb.
  destruct (buffers p !! h) as [sb|] eqn:Hh; [|done]. simpl. rewrite Hq.
  destruct (decide (owner_ sb = c)) as [E|Hne].
  - rewrite E, lookup_insert_eq, Hck. simpl. by rewrite (Hm sb).
  - by rewrite lookup_insert_ne.
Qed.

Lemma Open_spec p c ck size :
  pool_ok p → c ∈ active_chunks_ p → chunks p !! c = Some ck →
  0 ≤ size → chunk_size_ p + size < 2 ^ 32 → Z.of_nat (base.size (buffers p)) < 2 ^ 32 - 1 →
  if chunk_size_ p <? offset_ ck + size then Open p c size = Some (p, None)
  else ∃ q, Open p c size = Some (q, Some (next_buffer p)) ∧ pool_ok q ∧
    chunk_size_ q = chunk_size_ p ∧ view q (next_buffer p) = Some (size, []) ∧
    ∀ h, h ≠ next_buffer p → view q h = view p h.
Proof.
  intros Hok Hc Hck Hs Hcs Hsz. unfold Open. rewrite Hck. simpl.
  destruct (po_chunk p Hok c) as (ck1&Hck1&Hz&Ho&Hrc); [set_solver|].
  assert (ck1 = ck) as -> by congruence. pose proof (po_size p Hok).
  pose proof (refs_le_size (buffers p) c).
  pose proof (po_nextb p Hok (next_buffer p) ltac:(lia)) as Hfresh.
  rewrite Hz, (u32_small (chunk_size_ p)), (u32_small (offset_ ck + size)),
    (u32_small (ref_count_ ck + 1)) by lia.
  destruct (Z.ltb_spec (chunk_size_ p) (offset_ ck + size)) as [|Hfit]; [done|].
  eexists. split; [done|]. split; [|split; [done|split]].
  - eapply (pool_ok_update p _ c ck _ Hok); try done; simpl; try lia.
    + rewrite refs_insert, decide_True by done. lia.
    + intros x Hx. rewrite refs_insert, decide_False by done. done.
    + intros h sb Hh. apply lookup_insert_Some in Hh as [[<- <-]|[Hne Hh]]; simpl.
      * split; [done|]. right. split; [done|]. unfold buffer_in; simpl. lia.
      * split; [by apply (po_buf p Hok h)|by left].
    + assert (∀ h sb, buffers p !! h = Some sb → owner_ sb = c →
        sb_buffer_ sb + alloc_size_ sb ≤ offset_ ck) as Hbelow.
      { intros h sb Hh E. destruct (po_buf p Hok h sb Hh) as (_&y&Hy&?&?&?).
        rewrite E in Hy. assert (y = ck) as -> by congruence. done. }
      intros h1 h2 a b H1 H2 Hne.
      apply lookup_insert_Some in H1 as [[<- <-]|[? H1]];
        apply lookup_insert_Some in H2 as [[<- <-]|[? H2]]; try done.
      * intros E. right. simpl in *. by eapply Hbelow.
      * intros E. left. simpl in *. by eapply Hbelow.
      * by eapply (po_disj p Hok h1 h2).
    + intros h Hh. rewrite lookup_insert_ne by lia. apply (po_nextb p Hok). lia.
  - unfold view, Data. simpl. rewrite lookup_insert_eq. simpl. rewrite lookup_insert_eq. simpl.
    rewrite mem_read_Some by lia. done.
  - intros h Hh. eapply view_update; try done; simpl.
    by rewrite lookup_insert_ne.
Qed.

Lemma release_begin_spec p h sb :
  pool_ok p → buffers p !! h = Some sb → Z.of_nat (base.size (buffers p)) < 2 ^ 32 →
  ∃ q last_one, release_begin p h = Some (q, owner_ sb, last_one) ∧ pool_ok q ∧
    (last_one = true ↔ refs (buffers q) (owner_ sb) = 0%nat) ∧
    chunk_size_ q = chunk_size_ p ∧ buffers q = delete h (buffers p) ∧
    ∀ h', h' ≠ h → view q h' = view p h'.
Proof.
  intros Hok Hh Hsz. unfold release_begin. rewrite Hh. simpl.
  destruct (po_buf p Hok h sb Hh) as (Hin&ck&Hck&Hbin). rewrite Hck. simpl.
  destruct (po_chunk p Hok (owner_ sb)) as (ck1&Hck1&Hz&Ho&Hrc); [set_solver|].
  assert (ck1 = ck) as -> by congruence.
  pose proof (refs_delete _ _ _ (owner_ sb) Hh) as Hd. rewrite decide_True in Hd by done.
  pose proof (refs_le_size (buffers p) (owner_ sb)).
  rewrite u32_small by lia.
  do 2 eexists. split; [done|]. split; [|split; [|split; [done|split; [done|]]]].
  - eapply (pool_ok_update p _ (owner_ sb) ck _ Hok); try done; simpl; try lia.
    + intros x Hx. rewrite (refs_delete _ _ _ x Hh), decide_False by done. done.
    + intros h' sb' [? Hh']%lookup_delete_Some. split; [by apply (po_buf p Hok h')|by left].
    + intros h1 h2 a b [? H1]%lookup_delete_Some [? H2]%lookup_delete_Some.
      by apply (po_disj p Hok).
    + intros h' Hh'. rewrite lookup_delete_ne; [by apply (po_nextb p Hok)|].
      intros ->. by rewrite (po_nextb p Hok) in Hh.
  - simpl. rewrite Z.eqb_eq. lia.
  - intros h' Hne. eapply view_update; try done; simpl. by rewrite lookup_delete_ne.
Qed.

(** Releasing the last reference to a buffer. *)
Lemma OnRelease_spec p h sb :
  pool_ok p → buffers p !! h = Some sb → Z.of_nat (base.size (buffers p)) < 2 ^ 32 →
  ∃ q, OnRelease p h = Some q ∧ pool_ok q ∧ chunk_size_ q = chunk_size_ p ∧
    view q h = None ∧ buffers q = delete h (buffers p) ∧
    ∀ h', h' ≠ h → view q h' = view p h'.
Proof.
  intros Hok Hh Hsz. unfold OnRelease.
  destruct (release_begin_spec p h sb Hok Hh Hsz) as (q&l&->&Hq&Hl&Hcs&Hb&Hv). simpl.
  assert (view q h = None) as Hnone.
  { unfold view. by rewrite Hb, lookup_delete_eq. }
  destruct l; [|by exists q]. unfold OnChunkUnused. simpl.
  destruct (MoveToFree_spec q (owner_ sb) Hq) as (r&->&?&Hbr&?&Hvr); [by apply Hl|].
  exists r. split_and!; try done; [congruence|congruence|congruence|].
  intros h' Hne. by rewrite Hvr, Hv.
Qed.

Lemma append_data_spec p h sb d old :
  pool_ok p → buffers p !! h = Some sb → view p h = Some (alloc_size_ sb, old) →
  zlen old + zlen d ≤ alloc_size_ sb →
  ∃ q, append_data p h d = Some q ∧ pool_ok q ∧ chunk_size_ q = chunk_size_ p ∧
    base.size (buffers q) = base.size (buffers p) ∧
    view q h = Some (alloc_size_ sb, old ++ d) ∧ ∀ h', h' ≠ h → view q h' = view p h'.
Proof.
  intros Hok Hh Hview Hfit. pose proof (po_size p Hok). pose proof (zlen_nonneg d).
  destruct (po_buf p Hok h sb Hh) as (Hin&ck&Hck&Hb1&Hb2&Hb3).
  destruct (po_chunk p Hok (owner_ sb)) as (ck1&Hck1&Hz&Ho&Hrc); [set_solver|].
  assert (ck1 = ck) as -> by congruence.
  unfold view, Data in Hview. rewrite Hh in Hview. simpl in Hview. rewrite Hck in Hview.
  simpl in Hview. rewrite mem_read_Some in Hview by lia. simpl in Hview. simplify_eq.
  rewrite zlen_ztake in Hfit by (rewrite zlen_zdrop; lia).
  unfold append_data, Writable, Commit. rewrite Hh. simpl. rewrite Hck. simpl.
  rewrite (u32_small (alloc_size_ sb - _)), (u32_small (write_size_ sb + _)) by lia.
  rewrite (proj2 (Z.ltb_ge _ _)) by lia.
  destruct (mem_write _ _ d) as [m|] eqn:Hw; [|by rewrite mem_write_Some in Hw by lia].
  pose proof (mem_write_zlen _ _ _ _ Hw) as Hmz. simpl.
  eexists. split; [done|]. split; [|split; [done|split; [|split]]].
  - eapply (pool_ok_update p _ (owner_ sb) ck _ Hok); try done; simpl; try lia.
    + by rewrite (refs_update _ _ sb).
    + intros x Hx. by rewrite (refs_update _ _ sb).
    + intros h' sb' Hh'. apply lookup_insert_Some in Hh' as [[<- <-]|[? Hh']]; simpl.
      * split; [done|]. right. split; [done|]. unfold buffer_in. simpl. lia.
      * split; [by apply (po_buf p Hok h')|by left].
    + intros h1 h2 a b H1 H2 Hne.
      apply lookup_insert_Some in H1 as [[<- <-]|[? H1]];
        apply lookup_insert_Some in H2 as [[<- <-]|[? H2]]; try done.
      * by apply (po_disj p Hok h h2 sb b).
      * by apply (po_disj p Hok h1 h a sb).
      * by eapply (po_disj p Hok h1 h2).
    + intros h' Hh'. rewrite lookup_insert_ne; [by apply (po_nextb p Hok)|].
      intros <-. by rewrite (po_nextb p Hok) in Hh.
  - simpl. by rewrite map_size_insert_Some by (by rewrite Hh).
  - unfold view, Data. simpl. rewrite lookup_insert_eq. simpl. rewrite lookup_insert_eq. simpl.
    rewrite mem_read_Some by lia. simpl. do 2 f_equal.
    rewrite (ztake_zdrop_split (write_size_ sb)) by lia. rewrite zdrop_zdrop by lia.
    pose proof (mem_read_write_same _ _ _ _ Hw) as Hsame.
    pose proof (mem_read_write_disjoint _ _ _ _ (sb_buffer_ sb) (write_size_ sb) Hw
      ltac:(lia)) as Hdis.
    rewrite !mem_read_Some in Hdis by lia. rewrite mem_read_Some in Hsame by lia.
    simplify_eq. rewrite Hdis. f_equal. rewrite <-Hsame at 2. f_equal; lia.
  - intros h' Hne. eapply view_update; try done; simpl; [by rewrite lookup_insert_ne|].
    intros sb' Hh' E. eapply mem_read_write_disjoint; [exact Hw|].
    destruct (po_buf p Hok h' sb' Hh') as (_&y&Hy&?&?&?).
    pose proof (po_disj p Hok h' h sb' sb Hh' Hh Hne E). lia.
Qed.
End Operations.

(** ** Allocation *)

(** The arguments for which 32-bit sizes and counters do not wrap. *)
Definition alloc_legal (p : pool) (size : Z) : Prop :=
  0 ≤ size ∧ chunk_size_ p + size < 2 ^ 32 ∧ Z.of_nat (base.size (buffers p)) < 2 ^ 32 - 1.

Definition allocated (p q : pool) (size : Z) (r : expected nat CoreError) : Prop :=
  match r with
  | Value h => buffers p !! h = None ∧ view q h = Some (size, []) ∧
      ∀ h', h' ≠ h → view q h' = view p h'
  | Unexpected e => e = kResourceExhausted ∧ ∀ h', view q h' = view p h'
  end.

Lemma AllocateFresh_spec p size :
  pool_ok p → alloc_legal p size →
  ∃ q r, AllocateFresh p size = Some (q, r) ∧ pool_ok q ∧
    chunk_size_ q = chunk_size_ p ∧ allocated p q size r ∧
    (has_value r = false → chunk_size_ p < size ∨ max_chunks_ p ≤ zlen (active_chunks_ p)).
Proof.
  intros Hok (Hs&Hcs&Hsz). unfold AllocateFresh.
  pose proof (AcquireChunk_spec p Hok) as Hacq.
  destruct (AcquireChunk p) as [q [c|]].
  2: { destruct Hacq as (->&_&Hmax). do 2 eexists. split; [done|].
       split_and!; try done. by right. }
  cbn zeta in Hacq. destruct Hacq as (Hr&Hb&Hc&Hv&ck&Hck&Hoff).
  pose proof (Open_spec _ c ck size Hr) as HO.
  rewrite Hb, Hc, Hoff, Z.add_0_l in HO. specialize (HO ltac:(set_solver) Hck Hs Hcs Hsz).
  destruct (Z.ltb_spec (chunk_size_ p) size).
  - rewrite HO. simpl. do 2 eexists. split; [done|]. split_and!; try done.
    intros _. by left.
  - destruct HO as (q'&->&?&?&Hnew&Hrest). simpl. do 2 eexists. split; [done|].
    split; [done|]. split; [done|]. split; [|done]. simpl. split; [|split; [exact Hnew|]].
    + rewrite <-Hb. by apply (po_nextb _ Hr).
    + intros h' Hh'. rewrite Hrest by done. apply Hv.
Qed.

(** Every outcome of [Allocate]: a fresh private buffer of the requested size,
    or exhaustion, which needs an oversize request or a full pool. *)
Lemma Allocate_spec p size :
  pool_ok p → alloc_legal p size →
  ∃ q r, Allocate p size = Some (q, r) ∧ pool_ok q ∧
    chunk_size_ q = chunk_size_ p ∧ allocated p q size r ∧
    (has_value r = false → chunk_size_ p < size ∨ max_chunks_ p ≤ zlen (active_chunks_ p)).
Proof.
  intros Hok Hl. unfold Allocate, FlushPendingGc. rewrite (po_pending p Hok). simpl.
  assert (set_pending p [] = p) as ->.
  { pose proof (po_pending p Hok). destruct p; simpl in *; by subst. }
  destruct (last (active_chunks_ p)) as [c|] eqn:Hlast; [|by apply AllocateFresh_spec].
  apply last_removelast in Hlast.
  assert (c ∈ active_chunks_ p) as Hin by (rewrite Hlast; set_solver).
  destruct (po_chunk p Hok c) as (ck&Hck&_); [set_solver|].
  pose proof Hl as (Hs&Hcs&Hsz).
  pose proof (Open_spec p c ck size Hok Hin Hck Hs Hcs Hsz) as HO.
  destruct (Z.ltb_spec (chunk_size_ p) (offset_ ck + size)).
  - rewrite HO. simpl. by apply AllocateFresh_spec.
  - destruct HO as (q&->&?&?&?&?). simpl. do 2 eexists. split; [done|].
    split; [done|]. split; [done|]. split; [|done]. simpl.
    split; [by apply (po_nextb p Hok)|done].
Qed.

(** ** The pool as a store of private byte strings *)

(** What a client of the pool relies on: each live reference has a capacity
    and its own bytes. *)
Abbreviation store := (gmap nat (Z * bytes)).

Inductive pool_op :=
| OpAllocate (size : Z)
| OpAppend (h : nat) (d : bytes)
| OpRelease (h : nat).

(** One client operation on the pool. *)
Definition run_op (p : pool) (op : pool_op) : option (pool * option (expected nat CoreError)) :=
  match op with
  | OpAllocate size => '(p, r) ← Allocate p size; Some (p, Some r)
  | OpAppend h d => p ← append_data p h d; Some (p, None)
  | OpRelease h => p ← OnRelease p h; Some (p, None)
  end.

(** The same on the store; [None] when the result is not one it allows. *)
Definition store_op (m : store) (op : pool_op) (r : option (expected nat CoreError))
    : option store :=
  match op, r with
  | OpAllocate size, Some (Value h) =>
      if m !! h is Some _ then None else Some (<[h := (size, [])]> m)
  | OpAllocate size, Some (Unexpected kResourceExhausted) => Some m
  | OpAppend h d, None => '(n, old) ← m !! h; Some (<[h := (n, old ++ d)]> m)
  | OpRelease h, None => Some (delete h m)
  | _, _ => None
  end.

(** What a client may do: ask for a size that does not overflow the 32-bit test of
    [Open], and release and fill what it holds, within capacity. *)
Definition op_legal (chunk_size : Z) (m : store) (op : pool_op) : bool :=
  match op with
  | OpAllocate size =>
      (0 <=? size) && (chunk_size + size <? 2 ^ 32) && (Z.of_nat (base.size m) <? 2 ^ 32 - 1)
  | OpAppend h d => if m !! h is Some (n, old) then zlen old + zlen d <=? n else false
  | OpRelease h => if m !! h is Some _ then true else false
  end.

(** Pool and store after the operations of clients, one at a time, from a new pool. *)
Inductive pool_run (chunk_size max_chunks : Z) : pool → store → Prop :=
| run_new : pool_run chunk_size max_chunks (BufferPool_new chunk_size max_chunks) ∅
| run_client p m op q r m' :
    pool_run chunk_size max_chunks p m → op_legal chunk_size m op = true →
    run_op p op = Some (q, r) → store_op m op r = Some m' →
    pool_run chunk_size max_chunks q m'.

(** A run that can be evaluated. *)
Fixpoint run_ops (p : pool) (m : store) (ops : list pool_op) : option (pool * store) :=
  match ops with
  | [] => Some (p, m)
  | op :: ops =>
    if negb (op_legal (chunk_size_ p) m op) then None else
    '(p, r) ← run_op p op;
    m ← store_op m op r;
    run_ops p m ops
  end.

Definition represents (p : pool) (m : store) : Prop :=
  pool_ok p ∧ Z.of_nat (size m) < 2 ^ 32 ∧ ∀ h, view p h = m !! h.

Lemma view_live p h sb : pool_ok p → buffers p !! h = Some sb →
  ∃ d, view p h = Some (alloc_size_ sb, d).
Proof.
  intros Hok Hh. destruct (po_buf p Hok h sb Hh) as (Hin&ck&Hck&?&?&?).
  destruct (po_chunk p Hok (owner_ sb)) as (ck1&Hck1&Hz&Ho&_); [set_solver|].
  assert (ck1 = ck) as -> by congruence.
  unfold view, Data. rewrite Hh. simpl. rewrite Hck. simpl.
  rewrite mem_read_Some by lia. simpl. eauto.
Qed.

Lemma view_dead p h : view p h = None → pool_ok p → buffers p !! h = None.
Proof.
  intros Hv Hok. destruct (buffers p !! h) as [sb|] eqn:Hh; [|done].
  destruct (view_live p h sb Hok Hh). congruence.
Qed.

Lemma represents_size p m : represents p m → size (buffers p) = size m.
Proof.
  intros (Hok&_&Hv). 
  rewrite <-(size_dom (buffers p)), <-(size_dom m). f_equal. apply set_eq. intros h. rewrite !elem_of_dom, <-Hv.
  split.
  - intros [sb Hh]. destruct (view_live p h sb Hok Hh) as [d ->]. eauto.
  - unfold view. destruct (buffers p !! h); simpl; [eauto|by intros []].
Qed.

Lemma run_op_refines p m op :
  represents p m → op_legal (chunk_size_ p) m op = true →
  ∃ q r m', run_op p op = Some (q, r) ∧ store_op m op r = Some m' ∧
    chunk_size_ q = chunk_size_ p ∧ represents q m' ∧
    (r = Some (Unexpected kResourceExhausted) → ∃ size, op = OpAllocate size ∧
       (chunk_size_ p < size ∨ max_chunks_ p ≤ zlen (active_chunks_ p))).
Proof.
  intros HR Hl. pose proof (represents_size p m HR) as Hsize. destruct HR as (Hok&Hm&Hv).
  destruct op as [sz|h d|h]; simpl in *.
  - propify. destruct (Allocate_spec p sz Hok) as (q&r&->&Hq&Hcs&Hr&Hfail).
    { split_and!; lia. }
    simpl. destruct r as [h|e]; simpl in Hr.
    + destruct Hr as (Hh&Hnew&Hrest).
      assert (m !! h = None) as Hmh by (rewrite <-Hv; unfold view; by rewrite Hh).
      do 3 eexists. split; [done|]. simpl. rewrite Hmh. split; [done|]. split; [done|].
      split; [|done]. split; [done|]. split; [rewrite map_size_insert_None by done; lia|].
      intros h'. destruct (decide (h' = h)) as [->|]; [by rewrite lookup_insert_eq|].
      rewrite lookup_insert_ne, Hrest by done. apply Hv.
    + destruct Hr as (->&Hrest). do 3 eexists. split; [done|]. split; [done|].
      split; [done|]. split; [|intros _; eexists; split; [done|]; by apply Hfail].
      split; [done|]. split; [done|]. intros h'. rewrite Hrest. apply Hv.
  - destruct (m !! h) as [[n old]|] eqn:Hmh; [|done]. propify. rewrite <-Hv in Hmh.
    destruct (buffers p !! h) as [sb|] eqn:Hh; [|by unfold view in Hmh; rewrite Hh in Hmh].
    destruct (view_live p h sb Hok Hh) as [d' Hd']. rewrite Hmh in Hd'. simplify_eq.
    destruct (append_data_spec p h sb d d' Hok Hh Hmh Hl) as (q&->&?&?&?&Hnew&Hrest).
    simpl. rewrite Hv in Hmh. do 3 eexists. split; [done|]. split; [done|].
    split; [done|]. split; [|done]. split; [done|].
    split; [rewrite map_size_insert_Some by (by rewrite Hmh); lia|].
    intros h'. destruct (decide (h' = h)) as [->|]; [by rewrite lookup_insert_eq|].
    rewrite lookup_insert_ne, Hrest by done. apply Hv.
  - destruct (m !! h) as [x|] eqn:Hmh; [|done]. rewrite <-Hv in Hmh.
    destruct (buffers p !! h) as [sb|] eqn:Hh; [|by unfold view in Hmh; rewrite Hh in Hmh].
    destruct (OnRelease_spec p h sb Hok Hh) as (q&->&?&?&Hnone&?&Hrest); [lia|].
    simpl. do 3 eexists. split; [done|]. split; [done|]. split; [done|]. split; [|done]. split; [done|].
    split; [rewrite Hv in Hmh; rewrite (map_size_delete_Some h m) by eauto; lia|].
    intros h'. destruct (decide (h' = h)) as [->|]; [by rewrite lookup_delete_eq|].
    rewrite lookup_delete_ne, Hrest by done. apply Hv.
Qed.

Lemma AcquireChunk_limits p : chunk_size_ (AcquireChunk p).1 = chunk_size_ p ∧ max_chunks_ (AcquireChunk p).1 = max_chunks_ p.
Proof. unfold AcquireChunk. repeat case_match; done. Qed.

Lemma Open_limits p c size q r : Open p c size = Some (q, r) → max_chunks_ q = max_chunks_ p.
Proof. unfold Open. destruct (chunks p !! c); [|done]. simpl. case_match; by intros [= <- <-]. Qed.

Lemma MoveToFree_limits p c q : MoveToFree p c = Some q → max_chunks_ q = max_chunks_ p.
Proof.
  unfold MoveToFree. destruct (erase_first _ _); [|by intros [= <-]]. destruct (chunks p !! c); [|done]. simpl.
  case_match; by intros [= <-].
Qed.

Lemma AllocateFresh_limits p size q r : AllocateFresh p size = Some (q, r) → max_chunks_ q = max_chunks_ p.
Proof.
  unfold AllocateFresh. destruct (AcquireChunk_limits p) as [_ Hm]. destruct (AcquireChunk p) as [p1 [c|]]; [|by intros [= <- _]].
  destruct (Open _ c size) as [[p2 b]|] eqn:E; [|done]. apply Open_limits in E. simpl in E, Hm.
  simpl. destruct b; intros [= <- _]; congruence.
Qed.

Lemma Allocate_limits p size q r : pending_gc_ p = [] → Allocate p size = Some (q, r) → max_chunks_ q = max_chunks_ p.
Proof.
  intros Hp. unfold Allocate, FlushPendingGc. rewrite Hp. simpl.
  destruct (last (active_chunks_ p)) as [c|]; [|by intros E%AllocateFresh_limits].
  destruct (Open _ c size) as [[p1 [h|]]|] eqn:E; [| |done]; apply Open_limits in E; simpl.
  - by intros [= <- _].
  - intros Hf%AllocateFresh_limits. by rewrite Hf.
Qed.

(** A call of [Allocate] takes at most one chunk more into use. *)
Lemma Open_active p c size q r : Open p c size = Some (q, r) → active_chunks_ q = active_chunks_ p.
Proof. unfold Open. destruct (chunks p !! c); [|done]. simpl. case_match; by intros [= <- <-]. Qed.

Lemma AllocateFresh_active p size q r : AllocateFresh p size = Some (q, r) →
  zlen (active_chunks_ q) ≤ zlen (active_chunks_ p) + 1.
Proof.
  unfold AllocateFresh. assert (active_chunks_ (AcquireChunk p).1 = active_chunks_ p) as Ha
    by (unfold AcquireChunk; repeat case_match; done).
  destruct (AcquireChunk p) as [p1 [c|]]; simpl in Ha; [|intros [= <- _]; rewrite Ha; lia].
  destruct (Open _ c size) as [[p2 b]|] eqn:E; [|done]. apply Open_active in E. simpl in E.
  rewrite Ha in E. simpl. intros Hq. assert (q = p2) as -> by (by destruct b; injection Hq).
  rewrite E, zlen_app. change (zlen [c]) with 1. lia.
Qed.

Lemma Allocate_active p size q r : pending_gc_ p = [] → Allocate p size = Some (q, r) →
  zlen (active_chunks_ q) ≤ zlen (active_chunks_ p) + 1.
Proof.
  intros Hp. unfold Allocate, FlushPendingGc. rewrite Hp. simpl.
  destruct (last (active_chunks_ p)) as [c|]; [|by intros E%AllocateFresh_active].
  destruct (Open _ c size) as [[p1 [h|]]|] eqn:E; [| |done]; apply Open_active in E; simpl in *.
  - intros [= <- _]. rewrite E. lia.
  - intros Hf%AllocateFresh_active. by rewrite <- E.
Qed.

Lemma run_op_limits p op q r : pending_gc_ p = [] → run_op p op = Some (q, r) → max_chunks_ q = max_chunks_ p.
Proof.
  intros Hp. destruct op as [sz|h d|h]; simpl.
  - destruct (Allocate p sz) as [[q' r']|] eqn:E; [|done]. intros [= <- _]. by eapply Allocate_limits.
  - unfold append_data. destruct (buffers p !! h); [|done]. simpl. destruct (chunks p !! _); [|done]. simpl.
    case_match; [done|]. destruct (mem_write _ _ _); [|done]. by intros [= <- _].
  - unfold OnRelease, release_begin. destruct (buffers p !! h); [|done]. simpl. destruct (chunks p !! _); [|done]. simpl.
    unfold OnChunkUnused. simpl. case_match; [|by intros [= <- _]].
    destruct (MoveToFree _ _) as [q'|] eqn:E; [|done]. apply MoveToFree_limits in E. by intros [= <- _].
Qed.

Lemma BufferPool_new_represents cs mc :
  0 ≤ cs < 2 ^ 32 → represents (BufferPool_new cs mc) ∅.
Proof.
  intros Hcs. split; [|split; [done|by intros h]].
  constructor; simpl; try done.
  1: constructor.
  all: by intros * Hc; apply not_elem_of_nil in Hc.
Qed.

Lemma pool_run_represents cs mc p m : 0 ≤ cs < 2 ^ 32 → pool_run cs mc p m →
  represents p m ∧ chunk_size_ p = cs ∧ max_chunks_ p = mc.
Proof.
  intros Hcs. induction 1 as [|p m op q r m' _ (HR&Hc&Hm) Hl Hop Hs]; [by split; [apply BufferPool_new_represents|]|].
  rewrite <- Hc in Hl. destruct (run_op_refines p m op HR Hl) as (q'&r'&m''&Hop'&Hs'&Hc'&HR'&_).
  rewrite Hop in Hop'. injection Hop' as <- <-. rewrite Hs in Hs'. injection Hs' as <-.
  split_and!; [done|congruence|]. rewrite (run_op_limits p op q r) by (done || apply HR). done.
Qed.

Lemma run_ops_run cs mc p m ops q m' : 0 ≤ cs < 2 ^ 32 → pool_run cs mc p m →
  run_ops p m ops = Some (q, m') → pool_run cs mc q m'.
Proof.
  intros Hcs. revert p m. induction ops as [|op ops IH]; intros p m Hr; simpl; [by intros [= <- <-]|].
  destruct (pool_run_represents cs mc p m Hcs Hr) as (_&Hc&_). rewrite Hc.
  destruct (op_legal cs m op) eqn:Hl; [|done]. simpl. destruct (run_op p op) as [[p1 r]|] eqn:E; [|done]. simpl.
  destruct (store_op m op r) as [m1|] eqn:Es; [|done]. apply IH. by eapply run_client.
Qed.

(** C4: the pool behaves as a store of private byte strings.  After any operations of
    clients on a new pool, every operation they may do next is carried out without
    touching memory outside a live chunk, its result is one the store allows, and an
    allocation fails only when the size exceeds a chunk or [max_chunks] chunks are in
    use; each live reference shows exactly the bytes its holder wrote, whatever was
    allocated, written, released and recycled in between, and no two share a byte.
    Conditions, which the code does not check: operations run one after the other, a
    release as a whole (a release interleaved with an allocation breaks it, finding
    SendBuffer.h:148); chunk size plus requested size is below 2^32 ([Open] adds in 32 bits,
    finding SendBuffer.h:61); fewer than 2^32 - 1 buffers are live; clients write within
    the capacity they asked for and release a buffer once. *)
Theorem run_ops_refines chunk_size max_chunks p m :
  0 ≤ chunk_size < 2 ^ 32 → pool_run chunk_size max_chunks p m →
  (∀ h, Data p h = snd <$> m !! h) ∧
  (∀ h1 h2 a b, buffers p !! h1 = Some a → buffers p !! h2 = Some b → h1 ≠ h2 →
     disjoint_bufs a b) ∧
  (∀ op, op_legal chunk_size m op = true →
     ∃ q r m', run_op p op = Some (q, r) ∧ store_op m op r = Some m' ∧
       (r = Some (Unexpected kResourceExhausted) → ∃ size, op = OpAllocate size ∧
          (chunk_size < size ∨ max_chunks ≤ zlen (active_chunks_ p)))).
Proof.
  intros Hcs Hrun. destruct (pool_run_represents chunk_size max_chunks p m Hcs Hrun) as (HR&Hc&Hm).
  pose proof HR as (Hok&_&Hv). split; [|split; [apply (po_disj p Hok)|]].
  - intros h. rewrite <-Hv. unfold view. destruct (buffers p !! h) as [sb|] eqn:Hh.
    + simpl. by destruct (Data p h).
    + unfold Data. by rewrite Hh.
  - intros op Hl. rewrite <- Hc in Hl. destruct (run_op_refines p m op HR Hl) as (q&r&m'&Hop&Hs&_&_&Hf).
    exists q, r, m'. rewrite Hc, Hm in Hf. done.
Qed.

Lemma run_ops_refines_witness :
  ∃ p m, run_ops (BufferPool_new 8 4) ∅
      [OpAllocate 4; OpAllocate 4; OpAppend 1 (txt "ab"); OpAppend 0 (txt "wxyz");
       OpAppend 1 (txt "cd"); OpRelease 0; OpAllocate 3; OpRelease 1; OpAllocate 8] = Some (p, m) ∧
    (∀ h, Data p h = snd <$> m !! h) ∧
    (∃ q r m', run_op p (OpAllocate 9) = Some (q, r) ∧ store_op m (OpAllocate 9) r = Some m').
Proof.
  set (ops := [OpAllocate 4; _; _; _; _; _; _; _; _]).
  assert (Hn : (λ x, base.size x.2) <$> run_ops (BufferPool_new 8 4) ∅ ops = Some 2%nat) by (vm_compute; reflexivity).
  destruct (run_ops (BufferPool_new 8 4) ∅ ops) as [[p m]|] eqn:E; [|done].
  exists p, m. split; [done|]. injection Hn as Hn.
  apply (run_ops_run 8 4 _ _ _ p m) in E; [|lia|apply run_new].
  destruct (run_ops_refines 8 4 p m ltac:(lia) E) as (Hd&_&Hop). split; [exact Hd|].
  destruct (Hop (OpAllocate 9)) as (q&r&m'&H1&H2&_); [|by exists q, r, m'].
  simpl. by rewrite Hn.
Defined.

(** [Allocate] never fails on a request that fits a chunk while fewer than
    [max_chunks] chunks are in use; a success is a fresh, empty buffer of
    exactly the requested capacity and no other buffer changes. *)
Theorem Allocate_available p size :
  pool_ok p → alloc_legal p size → size ≤ chunk_size_ p →
  zlen (active_chunks_ p) < max_chunks_ p →
  ∃ q h, Allocate p size = Some (q, Value h) ∧ pool_ok q ∧
    buffers p !! h = None ∧ view q h = Some (size, []) ∧
    ∀ h', h' ≠ h → view q h' = view p h'.
Proof.
  intros Hok Hl Hfit Hmax. destruct (Allocate_spec p size Hok Hl) as (q&r&->&Hq&_&Hr&Hf).
  destruct r as [h|e]; [|by destruct (Hf eq_refl); lia].
  exists q, h. by destruct Hr as (?&?&?).
Qed.

Lemma Allocate_available_witness :
  ∃ q h, Allocate (BufferPool_new kDefaultChunkSize 256) 1500 = Some (q, Value h) ∧
    pool_ok q ∧ buffers (BufferPool_new kDefaultChunkSize 256) !! h = None ∧
    view q h = Some (1500, []) ∧
    ∀ h', h' ≠ h → view q h' = view (BufferPool_new kDefaultChunkSize 256) h'.
Proof.
  apply Allocate_available.
  - by apply BufferPool_new_represents.
  - by split_and!.
  - done.
  - done.
Defined.

(** ** Releases interleaved with other threads

    [OnRelease] is not atomic: between the [fetch_sub] that reaches zero and
    [OnChunkUnused] taking the lock, another thread may allocate.  A state is
    the pool and the chunks whose releasing thread is in between. *)

Inductive pool_step : pool * list nat → pool * list nat → Prop :=
| step_allocate p p' size r unused :
    Allocate p size = Some (p', r) → pool_step (p, unused) (p', unused)
| step_fetch_sub p p' h c unused :
    release_begin p h = Some (p', c, true) → pool_step (p, unused) (p', unused ++ [c])
| step_fetch_sub_more p p' h c unused :
    release_begin p h = Some (p', c, false) → pool_step (p, unused) (p', unused)
| step_on_chunk_unused p p' c owns_lock before after :
    OnChunkUnused p c owns_lock = Some p' →
    pool_step (p, before ++ c :: after) (p', before ++ after).

(** [MoveToFree] recycles a chunk without checking again that it is
    unused: when [Allocate] runs between the [fetch_sub] and [OnChunkUnused] of
    a release, the chunk is reset under a live buffer and a later allocation
    hands out a buffer that shares bytes with it. *)
Theorem release_race_overlap :
  ∃ p h1 h2 a b, steps pool_step (BufferPool_new 64 4, []) (p, []) ∧
    buffers p !! h1 = Some a ∧ buffers p !! h2 = Some b ∧ h1 ≠ h2 ∧ ¬ disjoint_bufs a b.
Proof.
  do 5 eexists. split.
  - eapply steps_cons; [eapply (step_allocate _ _ 8); vm_compute; reflexivity|].
    eapply steps_cons; [eapply (step_fetch_sub _ _ 0); vm_compute; reflexivity|].
    eapply steps_cons; [eapply (step_allocate _ _ 16); vm_compute; reflexivity|].
    eapply steps_cons;
      [eapply (step_on_chunk_unused _ _ 0%nat true [] []); vm_compute; reflexivity|].
    eapply steps_cons; [eapply (step_allocate _ _ 32); vm_compute; reflexivity|].
    apply steps_refl.
  - split; [instantiate (2 := 1%nat); vm_compute; reflexivity|].
    split; [instantiate (2 := 2%nat); vm_compute; reflexivity|].
    split; [done|]. intros Hd. destruct (Hd eq_refl) as [H|H]; vm_compute in H; done.
Qed.

(** The bounds test of [SendBufferChunk::Open] adds in 32 bits: on a chunk
    that already holds a buffer, a request close to [2^32] wraps around and is
    granted although it is larger than the chunk. *)
Theorem Open_overflow :
  ∃ p q h sb ck,
    run_ops (BufferPool_new 64 4) ∅ [OpAllocate 16] = Some (p, {[0%nat := (16, [])]}) ∧
    Open p 0 (2 ^ 32 - 8) = Some (q, Some h) ∧ buffers q !! h = Some sb ∧
    chunks q !! owner_ sb = Some ck ∧
    zlen (ck_buffer_ ck) < sb_buffer_ sb + alloc_size_ sb.
Proof.
  do 5 eexists. split; [vm_compute; reflexivity|].
  split; [vm_compute; reflexivity|]. split; [vm_compute; reflexivity|].
  split; [vm_compute; reflexivity|]. vm_compute. done.
Qed.

(** A request larger than a chunk still acquires one before it fails, and
    only the most recent chunk is ever tried again: after two such requests a
    pool of two chunks is exhausted although one of them holds no buffer. *)
Theorem oversize_request_leaks :
  ∃ p1 p2 p3 p4 h c ck,
    Allocate (BufferPool_new 16 2) 17 = Some (p1, Unexpected kResourceExhausted) ∧
    Allocate p1 17 = Some (p2, Unexpected kResourceExhausted) ∧
    Allocate p2 16 = Some (p3, Value h) ∧
    Allocate p3 1 = Some (p4, Unexpected kResourceExhausted) ∧
    c ∈ active_chunks_ p4 ∧ chunks p4 !! c = Some ck ∧ Unused ck = true.
Proof.
  do 7 eexists. do 4 (split; [vm_compute; reflexivity|]).
  split; [apply list_elem_of_here|]. split; vm_compute; reflexivity.
Qed.
