(* ===== verification/SendQueue.v ===== *)
(** * The per-session send queue

    Models [include/iouring_runtime/core/SendQueue.h]: a bounded FIFO of send
    buffers with byte accounting and peaks, and the flag that tells the
    pushing thread whether it must register the session with the I/O thread.
    Every operation runs under one mutex, so a run is a sequence of
    operations in lock order.

    A [SendBufferRef] is an [option A] ([None] is a null reference) for any
    type of buffers with a 32-bit [Size()]. *)

From S2P Require Import Prelude Types.

#[local] Open Scope Z_scope.
#[local] Open Scope cxx_scope.

(** What the queue asks of a buffer: a size that does not change while the
    buffer is queued. *)
Class Sized (A : Type) := {
  size_of : A → Z;
  size_of_range a : 0 ≤ size_of a < 2 ^ 32;
}.

Section SendQueue.
Context {A : Type} `{Sized A}.

(** The [buf ? buf->Size() : 0] of the code. *)
Definition ref_size (b : option A) : Z :=
  match b with Some a => size_of a | None => 0 end.

(** Source: include/iouring_runtime/core/SendQueue.h:14-19, PushResult. *)
Record PushResult := mkPushResult {
  needs_register : bool;
  overflowed : bool;
  current_depth : Z;
  current_bytes : Z;
}.

(** Source: include/iouring_runtime/core/SendQueue.h:124-131, SendQueue. *)
Record send_queue := mkSendQueue {
  pending_ : list (option A);
  registered_ : bool;
  max_pending_ : Z;
  pending_bytes_ : Z;
  peak_depth_ : Z;
  peak_pending_bytes_ : Z;
  overflow_count_ : Z;
}.

(** Source: include/iouring_runtime/core/SendQueue.h:31-34, SendQueue::SendQueue. *)
Definition SendQueue_new (max_pending : Z) : send_queue :=
  mkSendQueue [] false max_pending 0 0 0 0.

(** Source: include/iouring_runtime/core/SendQueue.h:37-56, SendQueue::Push. *)
Definition Push (q : send_queue) (buf : option A) : send_queue * PushResult :=
  if max_pending_ q <=? zlen (pending_ q) then
    (mkSendQueue (pending_ q) (registered_ q) (max_pending_ q) (pending_bytes_ q)
       (peak_depth_ q) (peak_pending_bytes_ q) (overflow_count_ q +₆₄ 1),
     mkPushResult false true (zlen (pending_ q)) (pending_bytes_ q))
  else
    let first := negb (registered_ q) in
    let pending_bytes := pending_bytes_ q +₆₄ ref_size buf in
    let pending := pending_ q ++ [buf] in
    let peak_depth :=
      if peak_depth_ q <? zlen pending then zlen pending else peak_depth_ q in
    let peak_pending_bytes :=
      if peak_pending_bytes_ q <? pending_bytes then pending_bytes
      else peak_pending_bytes_ q in
    (mkSendQueue pending true (max_pending_ q) pending_bytes peak_depth
       peak_pending_bytes (overflow_count_ q),
     mkPushResult first false (zlen pending) pending_bytes).

Definition set_pending (q : send_queue) (l : list (option A)) (n : Z) : send_queue :=
  mkSendQueue l (registered_ q) (max_pending_ q) n (peak_depth_ q)
    (peak_pending_bytes_ q) (overflow_count_ q).

(** The loop that takes the drained buffers out of [pending_bytes_]. *)
Definition subtract_sizes (n : Z) (l : list (option A)) : Z :=
  foldl (λ n b, n -₆₄ ref_size b) n l.

(** Source: include/iouring_runtime/core/SendQueue.h:60-77, SendQueue::Drain. *)
Definition Drain (q : send_queue) (max_count : Z) : send_queue * list (option A) :=
  if (max_count =? 0) || (zlen (pending_ q) <=? max_count) then
    (set_pending q [] 0, pending_ q)
  else
    let split := ztake max_count (pending_ q) in
    (set_pending q (zdrop max_count (pending_ q))
       (subtract_sizes (pending_bytes_ q) split), split).

(** Source: include/iouring_runtime/core/SendQueue.h:81-103, SendQueue::DrainInto.
    [out] is the caller's vector, cleared first; the result is the queue, the
    vector and the returned count. *)
Definition DrainInto (q : send_queue) (out : list (option A)) (max_count : Z)
    : send_queue * list (option A) * Z :=
  if bool_decide (pending_ q = []) then (q, [], 0) else
  if (max_count =? 0) || (zlen (pending_ q) <=? max_count) then
    (set_pending q [] 0, pending_ q, zlen (pending_ q))
  else
    let split := ztake max_count (pending_ q) in
    (set_pending q (zdrop max_count (pending_ q))
       (subtract_sizes (pending_bytes_ q) split), split, zlen split).

(** Source: include/iouring_runtime/core/SendQueue.h:106-110, SendQueue::MarkSent. *)
Definition MarkSent (q : send_queue) : send_queue :=
  if bool_decide (pending_ q = []) then
    mkSendQueue (pending_ q) false (max_pending_ q) (pending_bytes_ q)
      (peak_depth_ q) (peak_pending_bytes_ q) (overflow_count_ q)
  else q.

(** Source: include/iouring_runtime/core/SendQueue.h:23-29, SendQueue::Stats. *)
Record Stats := mkStats {
  st_current_depth : Z;
  st_pending_bytes : Z;
  st_peak_depth : Z;
  st_peak_pending_bytes : Z;
  st_overflow_count : Z;
}.

(** Source: include/iouring_runtime/core/SendQueue.h:112-121, SendQueue::Snapshot. *)
Definition Snapshot (q : send_queue) : Stats :=
  mkStats (zlen (pending_ q)) (pending_bytes_ q) (peak_depth_ q)
    (peak_pending_bytes_ q) (overflow_count_ q).

(** ** Runs *)

Inductive queue_op :=
| OpPush (b : option A)
| OpDrain (max_count : Z)
| OpDrainInto (out : list (option A)) (max_count : Z)
| OpMarkSent.

(** What a run shows: pushes with their results, drained buffers, and
    [MarkSent] calls with whether they cleared the registration. *)
Inductive event :=
| EvPush (b : option A) (r : PushResult)
| EvDrain (out : list (option A))
| EvMark (cleared : bool).

Definition run_op (q : send_queue) (op : queue_op) : send_queue * event :=
  match op with
  | OpPush b => let '(q, r) := Push q b in (q, EvPush b r)
  | OpDrain n => let '(q, out) := Drain q n in (q, EvDrain out)
  | OpDrainInto out n => let '(q, out, _) := DrainInto q out n in (q, EvDrain out)
  | OpMarkSent => (MarkSent q, EvMark (bool_decide (pending_ q = [])))
  end.

Fixpoint run (q : send_queue) (ops : list queue_op) : send_queue * list event :=
  match ops with
  | [] => (q, [])
  | op :: ops =>
    let '(q, e) := run_op q op in let '(q, es) := run q ops in (q, e :: es)
  end.

Definition accepted (e : event) : list (option A) :=
  match e with EvPush b r => if overflowed r then [] else [b] | _ => [] end.
Definition drained (e : event) : list (option A) :=
  match e with EvDrain out => out | _ => [] end.
Definition rejected (e : event) : Z :=
  match e with EvPush _ r => if overflowed r then 1 else 0 | _ => 0 end.

Definition total (l : list (option A)) : Z := foldr (λ b n, ref_size b + n) 0 l.
Definition sum (l : list Z) : Z := foldr Z.add 0 l.

(** The registration protocol as an automaton over events: a push asks for
    registration exactly when none is outstanding, and only a [MarkSent] that
    found the queue empty ends one.  [None] is a violation. *)
Definition protocol_step (reg : bool) (e : event) : option bool :=
  match e with
  | EvPush _ r =>
      if overflowed r then (if needs_register r then None else Some reg)
      else if Bool.eqb (needs_register r) (negb reg) then Some true else None
  | EvDrain _ => Some reg
  | EvMark cleared => Some (if cleared then false else reg)
  end.

Fixpoint protocol (reg : bool) (es : list event) : option bool :=
  match es with
  | [] => Some reg
  | e :: es => reg ← protocol_step reg e; protocol reg es
  end.

(** ** Invariant *)

Definition queue_ok (q : send_queue) : Prop :=
  zlen (pending_ q) ≤ max_pending_ q ∧ max_pending_ q < 2 ^ 32 ∧
  pending_bytes_ q = total (pending_ q) ∧
  zlen (pending_ q) ≤ peak_depth_ q ≤ max_pending_ q ∧
  pending_bytes_ q ≤ peak_pending_bytes_ q ∧
  (pending_ q ≠ [] → registered_ q = true) ∧ 0 ≤ overflow_count_ q < 2 ^ 64.
End SendQueue.

Arguments send_queue : clear implicits.
Arguments event : clear implicits.
Arguments queue_op : clear implicits.

Section Facts.
Context {A : Type} `{Sized A}.
Implicit Types (q : send_queue A) (l : list (option A)).

Lemma ref_size_range (b : option A) : 0 ≤ ref_size b < 2 ^ 32.
Proof. destruct b; simpl; [apply size_of_range|lia]. Qed.

Lemma total_app l k : total (l ++ k) = total l + total k.
Proof. induction l; simpl; lia. Qed.

Lemma total_bound l : 0 ≤ total l ≤ zlen l * (2 ^ 32 - 1).
Proof.
  induction l as [|b l IH]; simpl; [unfold zlen; simpl; lia|].
  rewrite zlen_cons. pose proof (ref_size_range b). lia.
Qed.

Lemma total_u64 l : zlen l ≤ 2 ^ 32 → 0 ≤ total l < 2 ^ 64.
Proof. pose proof (total_bound l). lia. Qed.

Lemma subtract_sizes_total l k :
  zlen (l ++ k) ≤ 2 ^ 32 → subtract_sizes (total (l ++ k)) l = total k.
Proof.
  induction l as [|b l IH]; [done|]. intros Hl. unfold subtract_sizes in *. simpl.
  simpl in Hl. rewrite zlen_cons in Hl. rewrite u64_small; [rewrite <-IH; f_equal; lia|].
  pose proof (total_u64 (l ++ k) ltac:(lia)). lia.
Qed.

(** [DrainInto] is [Drain] into the caller's storage, whatever that held. *)
Lemma DrainInto_Drain q out n :
  queue_ok q → 0 ≤ n →
  DrainInto q out n = (let '(q', l) := Drain q n in (q', l, zlen l)).
Proof.
  intros (_&_&Hb&_) Hn. unfold DrainInto, Drain. case_bool_decide as E; [|by case_match].
  rewrite E in *. rewrite (proj2 (Z.leb_le (zlen []) n)) by (unfold zlen; simpl; lia).
  rewrite orb_true_r. unfold set_pending. destruct q; simpl in *. by subst.
Qed.

Lemma Drain_spec q n :
  queue_ok q → 0 ≤ n →
  queue_ok (Drain q n).1 ∧ (Drain q n).2 ++ pending_ (Drain q n).1 = pending_ q ∧
  registered_ (Drain q n).1 = registered_ q ∧ overflow_count_ (Drain q n).1 = overflow_count_ q ∧
  max_pending_ (Drain q n).1 = max_pending_ q ∧
  ((Drain q n).2 = [] ↔ pending_ q = []).
Proof.
  intros (Hlen&Hmax&Hb&Hpd&Hpb&Hreg&Hov) Hn. unfold Drain.
  pose proof (zlen_nonneg (pending_ q)). pose proof (total_u64 (pending_ q) ltac:(lia)).
  destruct (Z.eqb_spec n 0) as [->|Hnz]; simpl.
  { rewrite app_nil_r. unfold queue_ok. simpl. rewrite zlen_nil. split_and!; done || lia. }
  destruct (Z.leb_spec (zlen (pending_ q)) n); simpl.
  { rewrite app_nil_r. unfold queue_ok. simpl. rewrite zlen_nil. split_and!; done || lia. }
  pose proof (ztake_zdrop n (pending_ q)) as Hsplit.
  assert (subtract_sizes (total (pending_ q)) (ztake n (pending_ q))
          = total (zdrop n (pending_ q))) as Hsub.
  { rewrite <-Hsplit at 1. apply subtract_sizes_total. rewrite Hsplit. lia. }
  unfold queue_ok. simpl. rewrite zlen_zdrop, Hb, Hsub by lia.
  pose proof (total_bound (ztake n (pending_ q))).
  pose proof (total_app (ztake n (pending_ q)) (zdrop n (pending_ q))) as Ht.
  rewrite Hsplit in Ht.
  split_and!; try done; try lia.
  - intros _. apply Hreg. intros E. rewrite E, zlen_nil in *. lia.
  - split; intros E; [|rewrite E, zlen_nil in *; lia].
    apply (f_equal zlen) in E. rewrite zlen_ztake, zlen_nil in E by lia. lia.
Qed.

(** Counts are of an unsigned type. *)
Definition op_legal (op : queue_op A) : Prop :=
  match op with OpDrain n | OpDrainInto _ n => 0 ≤ n | _ => True end.

Lemma Push_spec q b :
  queue_ok q →
  queue_ok (Push q b).1 ∧ max_pending_ (Push q b).1 = max_pending_ q ∧
  overflowed (Push q b).2 = (max_pending_ q <=? zlen (pending_ q)) ∧
  if overflowed (Push q b).2 then
    needs_register (Push q b).2 = false ∧ pending_ (Push q b).1 = pending_ q ∧
    registered_ (Push q b).1 = registered_ q ∧
    overflow_count_ (Push q b).1 = u64 (overflow_count_ q + 1)
  else
    needs_register (Push q b).2 = negb (registered_ q) ∧
    pending_ (Push q b).1 = pending_ q ++ [b] ∧
    registered_ (Push q b).1 = true ∧ overflow_count_ (Push q b).1 = overflow_count_ q.
Proof.
  intros (Hlen&Hmax&Hb&Hpd&Hpb&Hreg&Hov). unfold Push, queue_ok.
  pose proof (u64_range (overflow_count_ q + 1)). pose proof (zlen_nonneg (pending_ q)).
  destruct (Z.leb_spec (max_pending_ q) (zlen (pending_ q))); simpl.
  { split_and!; done || lia. }
  pose proof (total_u64 (pending_ q ++ [b])
    ltac:(rewrite zlen_app, zlen_cons, zlen_nil; lia)) as Ht.
  rewrite total_app in *. simpl in *. rewrite Z.add_0_r in *.
  rewrite Hb, u64_small by done. rewrite zlen_app, zlen_cons, zlen_nil.
  pose proof (total_bound (pending_ q)).
  split_and!; try done; repeat case_match; propify; lia.
Qed.

Lemma MarkSent_spec q :
  queue_ok q →
  queue_ok (MarkSent q) ∧ pending_ (MarkSent q) = pending_ q ∧
  max_pending_ (MarkSent q) = max_pending_ q ∧
  overflow_count_ (MarkSent q) = overflow_count_ q ∧
  registered_ (MarkSent q) = (if bool_decide (pending_ q = []) then false else registered_ q).
Proof.
  intros Hok. unfold MarkSent. case_bool_decide as E; [|done].
  destruct Hok as (?&?&?&?&?&?&?). unfold queue_ok. simpl. split_and!; done || lia.
Qed.

Lemma run_op_spec q op :
  queue_ok q → op_legal op →
  let '(q', e) := run_op q op in
  queue_ok q' ∧ max_pending_ q' = max_pending_ q ∧
  drained e ++ pending_ q' = pending_ q ++ accepted e ∧
  overflow_count_ q' = u64 (overflow_count_ q + rejected e) ∧
  protocol_step (registered_ q) e = Some (registered_ q').
Proof.
  intros Hok Hl. assert (overflow_count_ q = u64 (overflow_count_ q + 0)) as Hov.
  { rewrite Z.add_0_r. symmetry. apply u64_small. apply Hok. }
  destruct op as [b|n|out n|]; simpl.
  - pose proof (Push_spec q b Hok) as HP. destruct (Push q b) as [q' r]. simpl in *.
    destruct HP as (?&?&_&HP). destruct (overflowed r); destruct HP as (->&->&->&->); simpl.
    + rewrite app_nil_r. done.
    + rewrite Bool.eqb_reflx. done.
  - pose proof (Drain_spec q n Hok Hl) as HD. destruct (Drain q n) as [q' l]. simpl in *.
    destruct HD as (?&->&->&->&?&_). by rewrite app_nil_r.
  - rewrite DrainInto_Drain by done.
    pose proof (Drain_spec q n Hok Hl) as HD. destruct (Drain q n) as [q' l]. simpl in *.
    destruct HD as (?&->&->&->&?&_). by rewrite app_nil_r.
  - destruct (MarkSent_spec q Hok) as (?&->&->&->&->). rewrite app_nil_r. done.
Qed.

Lemma run_spec q ops :
  queue_ok q → Forall op_legal ops →
  let '(q', es) := run q ops in
  queue_ok q' ∧ max_pending_ q' = max_pending_ q ∧
  concat (map drained es) ++ pending_ q' = pending_ q ++ concat (map accepted es) ∧
  overflow_count_ q' = u64 (overflow_count_ q + sum (map rejected es)) ∧
  protocol (registered_ q) es = Some (registered_ q').
Proof.
  intros Hok Hl. revert q Hok. induction Hl as [|op ops Hop _ IH]; intros q Hok; simpl.
  { rewrite app_nil_r, Z.add_0_r, u64_small by apply Hok. done. }
  pose proof (run_op_spec q op Hok Hop) as H1. destruct (run_op q op) as [q1 e].
  destruct H1 as (Hok1&Hm&Hfifo&Hov&Hp). specialize (IH q1 Hok1).
  destruct (run q1 ops) as [q2 es]. destruct IH as (?&?&Hfifo2&Hov2&?). simpl.
  split; [done|]. split; [congruence|]. split; [|split].
  - rewrite <-app_assoc, Hfifo2, app_assoc, Hfifo, app_assoc. done.
  - rewrite Hov2, Hov. unfold u64. rewrite Z.add_mod_idemp_l by done. f_equal. lia.
  - by rewrite Hp.
Qed.

Lemma SendQueue_new_ok n : 0 ≤ n < 2 ^ 32 → queue_ok (SendQueue_new n).
Proof. intros. unfold queue_ok. simpl. rewrite zlen_nil. split_and!; done || lia. Qed.
End Facts.

(** ** Correctness *)

Section Theorems.
Context {A : Type} `{Sized A}.

(** In every sequence of operations on a send queue, the buffers drained
    so far followed by those pending are exactly the accepted pushes in order
    (a FIFO that loses and duplicates nothing), the depth stays within
    [max_pending], [pending_bytes_] is exactly the bytes pending (the 64-bit
    sums never wrap), the peaks bound them, and [overflow_count_] counts the
    rejected pushes. *)
Theorem send_queue_fifo max_pending (ops : list (queue_op A)) q es :
  0 ≤ max_pending < 2 ^ 32 → Forall op_legal ops →
  run (SendQueue_new max_pending) ops = (q, es) →
  concat (map drained es) ++ pending_ q = concat (map accepted es) ∧
  st_current_depth (Snapshot q) ≤ max_pending ∧
  st_pending_bytes (Snapshot q) = total (pending_ q) ∧
  st_current_depth (Snapshot q) ≤ st_peak_depth (Snapshot q) ≤ max_pending ∧
  st_pending_bytes (Snapshot q) ≤ st_peak_pending_bytes (Snapshot q) ∧
  st_overflow_count (Snapshot q) = u64 (sum (map rejected es)).
Proof.
  intros Hmax Hl Hrun.
  pose proof (run_spec (SendQueue_new max_pending) ops (SendQueue_new_ok _ Hmax) Hl) as HR.
  rewrite Hrun in HR. destruct HR as ((?&?&?&?&?&_)&Hm&?&?&_). simpl in *.
  rewrite Hm in *. done.
Qed.

(** The registration handshake has no lost or duplicate wake-up: in every
    run, a push that is accepted asks its thread to register the session
    exactly when no registration is outstanding, a registration ends only at a
    [MarkSent] that finds the queue empty, and while buffers are pending a
    registration is outstanding. *)
Theorem send_queue_registration max_pending (ops : list (queue_op A)) q es :
  0 ≤ max_pending < 2 ^ 32 → Forall op_legal ops →
  run (SendQueue_new max_pending) ops = (q, es) →
  protocol false es = Some (registered_ q) ∧ (pending_ q ≠ [] → registered_ q = true).
Proof.
  intros Hmax Hl Hrun.
  pose proof (run_spec (SendQueue_new max_pending) ops (SendQueue_new_ok _ Hmax) Hl) as HR.
  rewrite Hrun in HR. destruct HR as ((?&?&?&?&?&?&_)&_&_&_&?). done.
Qed.

(** [DrainInto] and [Drain] are the same operation: on every queue a run
    can reach they take the same buffers, leave the same queue, and
    [DrainInto] returns the number of buffers taken, whatever the caller's
    vector held before. *)
Theorem DrainInto_is_Drain max_pending (ops : list (queue_op A)) q es out n :
  0 ≤ max_pending < 2 ^ 32 → Forall op_legal ops →
  run (SendQueue_new max_pending) ops = (q, es) → 0 ≤ n →
  DrainInto q out n = (let '(q', l) := Drain q n in (q', l, zlen l)) ∧
  (Drain q n).2 = (if n =? 0 then pending_ q else ztake n (pending_ q)).
Proof.
  intros Hmax Hl Hrun Hn.
  pose proof (run_spec (SendQueue_new max_pending) ops (SendQueue_new_ok _ Hmax) Hl) as HR.
  rewrite Hrun in HR. destruct HR as (Hok&_). split; [by apply DrainInto_Drain|].
  unfold Drain. destruct (Z.eqb_spec n 0); [done|]. simpl.
  destruct (Z.leb_spec (zlen (pending_ q)) n); simpl; [by rewrite ztake_all|done].
Qed.
End Theorems.

#[local] Program Instance bytes_sized : Sized (list Ascii.ascii) := {|
  size_of b := u32 (zlen b);
|}.
Next Obligation. intros a. apply u32_range. Qed.

Definition sample_ops : list (queue_op bytes) :=
  [OpPush (Some (txt "ab")); OpPush (Some (txt "cde")); OpPush (Some (txt "f"));
   OpDrain 1; OpMarkSent; OpPush None; OpDrainInto [None] 0; OpMarkSent;
   OpPush (Some (txt "gh"))].

Lemma send_queue_fifo_witness :
  let r := run (SendQueue_new 2) sample_ops in
  concat (map drained r.2) ++ pending_ r.1 = concat (map accepted r.2) ∧
  st_overflow_count (Snapshot r.1) = 1.
Proof.
  destruct (send_queue_fifo 2 sample_ops (run (SendQueue_new 2) sample_ops).1
    (run (SendQueue_new 2) sample_ops).2) as (Hf&_&_&_&_&Ho);
    [lia|repeat constructor; simpl; lia|reflexivity|].
  split; [exact Hf|]. rewrite Ho. reflexivity.
Defined.

Lemma send_queue_registration_witness :
  let r := run (SendQueue_new 2) sample_ops in
  protocol false r.2 = Some (registered_ r.1) ∧ (pending_ r.1 ≠ [] → registered_ r.1 = true).
Proof.
  apply (send_queue_registration 2 sample_ops);
    [lia|repeat constructor; simpl; lia|reflexivity].
Defined.

Lemma DrainInto_is_Drain_witness :
  let q := (run (SendQueue_new 4) [OpPush (Some (txt "ab")); OpPush (Some (txt "c"))]).1 in
  DrainInto q [None] 1 = (let '(q', l) := Drain q 1 in (q', l, zlen l)) ∧
  (Drain q 1).2 = [Some (txt "ab")].
Proof.
  destruct (DrainInto_is_Drain 4 [OpPush (Some (txt "ab")); OpPush (Some (txt "c"))]
    (run (SendQueue_new 4) [OpPush (Some (txt "ab")); OpPush (Some (txt "c"))]).1
    (run (SendQueue_new 4) [OpPush (Some (txt "ab")); OpPush (Some (txt "c"))]).2 [None] 1)
    as [H1 H2]; [lia|repeat constructor|reflexivity|lia|].
  split; [exact H1|exact H2].
Defined.
