(* ===== verification/MpscQueue.v ===== *)
(** * The lock-free multi-producer single-consumer queue

    Models [include/iouring_runtime/core/MpscQueue.h] at the granularity of its
    atomic operations: a producer's [Push] is the exchange of [produce_end_]
    followed, later, by the store that links the node; the consumer's [TryPop]
    is a program counter over its loads and stores, any producer running in
    between.  Atomics are sequentially consistent here.

    Nodes are heap objects; [None] from a step is undefined behaviour (a node
    that was deleted, or the stub's value delivered as an item). *)

From stdpp Require Import gmap.
From S2P Require Import Prelude Types.

#[local] Set Warnings "-clear-no-such-hyp".

(** ** State *)

Section Queue.
Context {T : Type}.

(** Source: include/iouring_runtime/core/MpscQueue.h:22-28, MpscQueue::Node.
    The stub's default-constructed value is [None]. *)
Record node := mkNode {
  nd_value : option T;
  nd_next : option nat;
}.

(** The address of [stub_]. *)
Definition stub_ : nat := 0.

(** The consumer between two atomic operations of [TryPop]. *)
Inductive consumer_pc :=
| Idle
| LoadNext (n : nat)
| Check (n : nat) (next : option nat)
| ResetStub (n : nat)
| ExchangeStub (n : nat)
| LinkStub (n prev : nat)
| Reload (n : nat).

(** Source: include/iouring_runtime/core/MpscQueue.h:111-113, MpscQueue.
    The members; the producers between their exchange and their link store as
    pairs (prev, node); and two history variables: the items in exchange
    order and the results of [TryPop] ([None] for false). *)
Record mpsc := mkMpsc {
  nodes : gmap nat node;
  consume_end_ : nat;
  produce_end_ : nat;
  links : gset (nat * nat);
  pc : consumer_pc;
  fresh : nat;
  pushed : list T;
  results : list (option T);
}.

(** Source: include/iouring_runtime/core/MpscQueue.h:31-34, MpscQueue::MpscQueue. *)
Definition MpscQueue_new : mpsc :=
  mkMpsc {[stub_ := mkNode None None]} stub_ stub_ ∅ Idle 1 [] [].

(** ** Producers *)

(** Source: include/iouring_runtime/core/MpscQueue.h:106-107, MpscQueue::PushNode.
    [Push(item)] allocates the node and exchanges it into [produce_end_]. *)
Definition push_exchange (s : mpsc) (v : T) : mpsc :=
  let n := fresh s in
  mkMpsc (<[n := mkNode (Some v) None]> (nodes s)) (consume_end_ s) n
    ({[(produce_end_ s, n)]} ∪ links s) (pc s) (S n) (pushed s ++ [v]) (results s).

(** Source: include/iouring_runtime/core/MpscQueue.h:108-109, MpscQueue::PushNode.
    The later [prev->next.store(node)]. *)
Definition push_link (s : mpsc) (prev n : nat) : option mpsc :=
  nd ← nodes s !! prev;
  Some (mkMpsc (<[prev := mkNode (nd_value nd) (Some n)]> (nodes s)) (consume_end_ s)
    (produce_end_ s) (links s ∖ {[(prev, n)]}) (pc s) (fresh s) (pushed s) (results s)).

(** ** The consumer *)

Definition set_pc (s : mpsc) (c : consumer_pc) : mpsc :=
  mkMpsc (nodes s) (consume_end_ s) (produce_end_ s) (links s) c (fresh s) (pushed s)
    (results s).

Definition return_false (s : mpsc) : mpsc :=
  mkMpsc (nodes s) (consume_end_ s) (produce_end_ s) (links s) Idle (fresh s) (pushed s)
    (results s ++ [None]).

(** [consume_end_.store(next); out = std::move(node->value); delete node;
    return true;] *)
Definition deliver (s : mpsc) (n next : nat) : option mpsc :=
  nd ← nodes s !! n;
  v ← nd_value nd;
  Some (mkMpsc (delete n (nodes s)) next (produce_end_ s) (links s) Idle (fresh s)
    (pushed s) (results s ++ [Some v])).

(** Source: include/iouring_runtime/core/MpscQueue.h:65-104, MpscQueue::TryPop.
    One atomic operation of the consumer and the local code after it. *)
Definition consumer (s : mpsc) : option mpsc :=
  match pc s with
  | Idle =>
    let n := consume_end_ s in
    nd ← nodes s !! n;
    if decide (n = stub_) then
      match nd_next nd with
      | None => Some (return_false s)
      | Some next =>
        Some (mkMpsc (nodes s) next (produce_end_ s) (links s) (LoadNext next)
                (fresh s) (pushed s) (results s))
      end
    else Some (set_pc s (Check n (nd_next nd)))
  | LoadNext n => nd ← nodes s !! n; Some (set_pc s (Check n (nd_next nd)))
  | Check n (Some next) => deliver s n next
  | Check n None =>
    if decide (n = produce_end_ s) then Some (set_pc s (ResetStub n))
    else Some (return_false s)
  | ResetStub n =>
    nd ← nodes s !! stub_;
    Some (mkMpsc (<[stub_ := mkNode (nd_value nd) None]> (nodes s)) (consume_end_ s)
            (produce_end_ s) (links s) (ExchangeStub n) (fresh s) (pushed s) (results s))
  | ExchangeStub n =>
    Some (mkMpsc (nodes s) (consume_end_ s) stub_ (links s)
            (LinkStub n (produce_end_ s)) (fresh s) (pushed s) (results s))
  | LinkStub n prev =>
    nd ← nodes s !! prev;
    Some (mkMpsc (<[prev := mkNode (nd_value nd) (Some stub_)]> (nodes s)) (consume_end_ s)
            (produce_end_ s) (links s) (Reload n) (fresh s) (pushed s) (results s))
  | Reload n =>
    nd ← nodes s !! n;
    match nd_next nd with
    | Some next => deliver s n next
    | None => Some (return_false s)
    end
  end.

(** Any interleaving of producers and the consumer. *)
Inductive mpsc_step : mpsc → mpsc → Prop :=
| step_exchange s v : mpsc_step s (push_exchange s v)
| step_link s s' prev n :
    (prev, n) ∈ links s → push_link s prev n = Some s' → mpsc_step s s'
| step_consumer s s' : consumer s = Some s' → mpsc_step s s'.

(** The consumer running on its own until [TryPop] returns; nine operations
    are enough ([TryPop_quiescent]). *)
Fixpoint consumer_run (fuel : nat) (s : mpsc) : option mpsc :=
  match fuel with
  | O => None
  | S fuel =>
    s ← consumer s;
    match pc s with Idle => Some s | _ => consumer_run fuel s end
  end.

(** Source: include/iouring_runtime/core/MpscQueue.h:65-104, MpscQueue::TryPop.
    A whole call that no producer interrupts, with its result. *)
Definition TryPop (s : mpsc) : option (mpsc * option T) :=
  s ← consumer_run 9 s; r ← last (results s); Some (s, r).

(** Source: include/iouring_runtime/core/MpscQueue.h:53-62, MpscQueue::Drain.
    The items handed to the handler. *)
Fixpoint Drain (fuel : nat) (s : mpsc) : option (mpsc * list T) :=
  match fuel with
  | O => None
  | S fuel =>
    '(s, r) ← TryPop s;
    match r with
    | None => Some (s, [])
    | Some v => '(s, l) ← Drain fuel s; Some (s, v :: l)
    end
  end.

(** The items the consumer has received. *)
Definition delivered (s : mpsc) : list T := omap id (results s).
End Queue.

Arguments node : clear implicits.
Arguments mpsc : clear implicits.

(** ** Invariant *)

Section Invariant.
Context {T : Type}.
Implicit Types (s : mpsc T) (chain : list nat) (m : gmap nat (node T)).

(** All exchanges whose link store is still to come. *)
Definition all_links s : gset (nat * nat) :=
  match pc s with LinkStub _ prev => {[(prev, stub_)]} ∪ links s | _ => links s end.

(** The item of a chain node. *)
Definition item m (a : nat) : option T :=
  if decide (a = stub_) then None else m !! a ≫= nd_value.

(** [chain] lists the nodes from [consume_end_] to [produce_end_] in exchange
    order; each points to its successor unless that link is still pending. *)
Record chain_ok m (lk : gset (nat * nat)) (ce pe : nat) chain : Prop := {
  ch_head : head chain = Some ce;
  ch_last : last chain = Some pe;
  ch_nodup : NoDup chain;
  ch_next i a : chain !! i = Some a → ∃ nd, m !! a = Some nd ∧
    nd_next nd = (chain !! S i ≫= λ b, if decide ((a, b) ∈ lk) then None else Some b);
  ch_value a : a ∈ chain → a ≠ stub_ → is_Some (item m a);
  ch_links a b : (a, b) ∈ lk → ∃ i, chain !! i = Some a ∧ chain !! S i = Some b;
}.

(** What each point of [TryPop] knows. *)
Definition pc_ok s chain : Prop :=
  match pc s with
  | Idle => True
  | LoadNext n => n = consume_end_ s ∧ n ≠ stub_
  | Check n next => n = consume_end_ s ∧ n ≠ stub_ ∧
      (∀ x, next = Some x → ∃ nd, nodes s !! n = Some nd ∧ nd_next nd = Some x)
  | ResetStub n => n = consume_end_ s ∧ n ≠ stub_ ∧ stub_ ∉ chain
  | ExchangeStub n => n = consume_end_ s ∧ n ≠ stub_ ∧ (stub_ ∉ chain) ∧
      (∃ nd, nodes s !! stub_ = Some nd ∧ nd_next nd = None)
  | LinkStub n _ | Reload n => n = consume_end_ s ∧ n ≠ stub_
  end.

Definition mpsc_inv s : Prop := ∃ chain,
  chain_ok (nodes s) (all_links s) (consume_end_ s) (produce_end_ s) chain ∧
  pc_ok s chain ∧
  delivered s ++ omap (item (nodes s)) chain = pushed s ∧
  (∀ a, is_Some (nodes s !! a) → (a < fresh s)%nat) ∧
  is_Some (nodes s !! stub_) ∧
  (∀ a b, (a, b) ∈ links s → b ≠ stub_).

(** ** The chain under each atomic operation *)

Lemma last_lookup_length {A} (l : list A) x :
  last l = Some x → l !! pred (length l) = Some x.
Proof. by rewrite last_lookup. Qed.

Lemma item_agree m m' a : m' !! a = m !! a → item m' a = item m a.
Proof. intros E. unfold item. by rewrite E. Qed.

Lemma omap_item_agree m m' chain :
  (∀ a, a ∈ chain → item m' a = item m a) → omap (item m') chain = omap (item m) chain.
Proof.
  induction chain as [|a chain IH]; intros Ha; [done|]. csimpl.
  rewrite (Ha a) by set_solver. rewrite IH; [done|]. intros. apply Ha. set_solver.
Qed.

Lemma omap_item_cons m a chain :
  omap (item m) (a :: chain) = option_list (item m a) ++ omap (item m) chain.
Proof. csimpl. by destruct (item m a). Qed.

(** An exchange appends a node that nobody points to yet. *)
Lemma chain_push m m' lk ce pe chain n nd :
  chain_ok m lk ce pe chain → n ∉ chain →
  m' !! n = Some nd → nd_next nd = None → (n ≠ stub_ → is_Some (nd_value nd)) →
  (∀ a, a ≠ n → m' !! a = m !! a) →
  chain_ok m' ({[(pe, n)]} ∪ lk) ce n (chain ++ [n]).
Proof.
  intros [Hh Hl Hnd Hnext Hv Hlk] Hn Hm' Hnone Hval Hag.
  apply last_lookup_length in Hl as Hlast.
  assert (length chain ≠ 0)%nat as Hlen by (destruct chain; simpl in *; [done|lia]).
  constructor.
  - by destruct chain.
  - apply last_snoc.
  - apply NoDup_app. split; [done|]. split; [|apply NoDup_singleton].
    by intros x Hx ->%list_elem_of_singleton.
  - intros i a Hi. apply lookup_app_Some in Hi as [Hi|[Hge Hi]].
    + assert (a ≠ n) as Hne by (intros ->; apply Hn; by eapply list_elem_of_lookup_2).
      destruct (Hnext i a Hi) as (x&Hx&Hxn). rewrite Hag by done. exists x.
      split; [done|]. rewrite Hxn. pose proof (lookup_lt_Some _ _ _ Hi).
      destruct (decide (S i < length chain)%nat) as [Hlt|Hge].
      * rewrite lookup_app_l by done. destruct (chain !! S i) as [b|] eqn:Hb; [|done]. simpl.
        assert (b ≠ n) by (intros ->; apply Hn; by eapply list_elem_of_lookup_2).
        destruct (decide ((a, b) ∈ lk)); destruct (decide ((a, b) ∈ {[(pe, n)]} ∪ lk));
          set_solver.
      * assert (i = pred (length chain)) as -> by lia.
        rewrite (lookup_ge_None_2 chain) by lia.
        replace (S (pred (length chain))) with (length chain) by lia.
        rewrite lookup_app_r, Nat.sub_diag by lia. simpl.
        rewrite decide_True; [done|]. assert (a = pe) as -> by congruence. set_solver.
    + assert (i = length chain) as ->.
      { apply lookup_lt_Some in Hi. simpl in Hi. lia. }
      rewrite Nat.sub_diag in Hi. simplify_eq/=. exists nd. split; [done|].
      rewrite lookup_ge_None_2 by (rewrite length_app; simpl; lia). done.
  - intros a Ha Hns. destruct (decide (a = n)) as [->|Hne].
    + unfold item. rewrite decide_False by done. rewrite Hm'. simpl. by apply Hval.
    + rewrite (item_agree m) by by apply Hag. apply Hv; [|done]. set_solver.
  - intros a b Hab. apply elem_of_union in Hab as [Hab|Hab].
    + apply elem_of_singleton in Hab. simplify_eq. exists (pred (length chain)).
      rewrite lookup_app_l by lia. split; [done|].
      rewrite lookup_app_r by lia. by replace (S _ - _)%nat with 0%nat by lia.
    + destruct (Hlk a b Hab) as (i&Hi&Hi'). exists i.
      by rewrite !lookup_app_l by by eapply lookup_lt_Some.
Qed.

(** A link store completes one pending link. *)
Lemma chain_link m lk ce pe chain a b nd :
  chain_ok m lk ce pe chain → (a, b) ∈ lk → m !! a = Some nd →
  chain_ok (<[a := mkNode (nd_value nd) (Some b)]> m) (lk ∖ {[(a, b)]}) ce pe chain.
Proof.
  intros [Hh Hl Hnd Hnext Hv Hlk] Hab Hm.
  destruct (Hlk a b Hab) as (k&Hk&Hk'). constructor; try done.
  - intros i x Hi. destruct (decide (x = a)) as [->|Hne].
    + assert (i = k) as -> by by eapply NoDup_lookup.
      rewrite lookup_insert_eq. eexists. split; [done|]. simpl. rewrite Hk'. simpl.
      rewrite decide_False by set_solver. done.
    + rewrite lookup_insert_ne by done. destruct (Hnext i x Hi) as (y&?&Hy).
      exists y. split; [done|]. rewrite Hy. destruct (chain !! S i) as [c|]; [|done]. simpl.
      destruct (decide ((x, c) ∈ lk)); destruct (decide ((x, c) ∈ lk ∖ {[(a, b)]}));
        set_solver.
  - intros x Hx Hns. destruct (Hv x Hx Hns) as [v Hv']. exists v. rewrite <-Hv'.
    unfold item. rewrite !decide_False by done.
    destruct (decide (x = a)) as [->|]; [|by rewrite lookup_insert_ne].
    rewrite lookup_insert_eq, Hm. done.
  - intros x y Hxy. apply Hlk. set_solver.
Qed.

(** Moving [consume_end_] past a linked node. *)
Lemma chain_pop m m' lk ce pe chain nd x :
  chain_ok m lk ce pe chain → m !! ce = Some nd → nd_next nd = Some x →
  (∀ a, a ≠ ce → m' !! a = m !! a) →
  ∃ rest, chain = ce :: x :: rest ∧ chain_ok m' lk x pe (x :: rest).
Proof.
  intros [Hh Hl Hnd Hnext Hv Hlk] Hce Hx Hag.
  destruct chain as [|c [|y rest]]; simplify_eq/=.
  { destruct (Hnext 0%nat ce eq_refl) as (z&Hz&Hz'). simpl in Hz'. congruence. }
  destruct (Hnext 0%nat ce eq_refl) as (z&Hz&Hz'). simpl in Hz'.
  case_decide as Hin; [congruence|]. assert (y = x) as -> by congruence.
  apply NoDup_cons in Hnd as [Hnotin Hnd].
  exists rest. split; [done|]. constructor; try done.
  - intros i a Hi. assert (a ≠ ce) by (intros ->; by apply Hnotin, list_elem_of_lookup; eauto).
    rewrite Hag by done. apply (Hnext (S i) a Hi).
  - intros a Ha Hns. rewrite (item_agree m); [by apply Hv; set_solver|].
    apply Hag. intros ->. done.
  - intros a b Hab. destruct (Hlk a b Hab) as ([|i]&Hi&Hi'); [by simplify_eq/=|].
    by exists i.
Qed.

(** Nodes outside the chain do not matter. *)
Lemma chain_agree m m' lk ce pe chain :
  chain_ok m lk ce pe chain → (∀ a, a ∈ chain → m' !! a = m !! a) →
  chain_ok m' lk ce pe chain.
Proof.
  intros [Hh Hl Hnd Hnext Hv Hlk] Hag. constructor; try done.
  - intros i a Hi. rewrite Hag by by eapply list_elem_of_lookup_2. by apply Hnext.
  - intros a Ha Hns. rewrite (item_agree m) by by apply Hag. by apply Hv.
Qed.

Lemma chain_ce_in m lk ce pe chain :
  chain_ok m lk ce pe chain → ce ∈ chain ∧ is_Some (m !! ce).
Proof.
  intros [Hh Hl Hnd Hnext Hv Hlk]. destruct chain as [|c chain]; simplify_eq/=.
  split; [set_solver|]. destruct (Hnext 0%nat ce eq_refl) as (?&?&_). eauto.
Qed.

Lemma chain_pe_in m lk ce pe chain :
  chain_ok m lk ce pe chain → pe ∈ chain ∧ is_Some (m !! pe).
Proof.
  intros [Hh Hl Hnd Hnext Hv Hlk]. apply last_lookup_length in Hl.
  split; [by eapply list_elem_of_lookup_2|].
  destruct (Hnext _ _ Hl) as (?&?&_). eauto.
Qed.

(** ** Preservation *)

Lemma exchange_inv s v : mpsc_inv s → mpsc_inv (push_exchange s v).
Proof.
  intros (chain&Hch&Hpc&Hfifo&Hfresh&Hstub&Hlk).
  assert (nodes s !! fresh s = None) as Hnew.
  { apply eq_None_not_Some. intros Hs%Hfresh. lia. }
  assert (fresh s ≠ stub_) as Hns by (intros E; rewrite E in Hnew; destruct Hstub; congruence).
  assert (fresh s ∉ chain) as Hnc.
  { intros [i Hi]%list_elem_of_lookup. destruct (ch_next _ _ _ _ _ Hch i _ Hi) as (?&?&_).
    congruence. }
  assert (∀ a, a ≠ fresh s → nodes (push_exchange s v) !! a = nodes s !! a) as Hag.
  { intros. simpl. by rewrite lookup_insert_ne. }
  exists (chain ++ [fresh s]). split_and!.
  - replace (all_links (push_exchange s v)) with ({[(produce_end_ s, fresh s)]} ∪ all_links s)
      by (unfold all_links; simpl; destruct (pc s); set_solver).
    eapply chain_push; try done; simpl; by rewrite ?lookup_insert_eq.
  - unfold pc_ok in *. simpl. destruct (pc s); try done.
    + destruct Hpc as (->&?&Hx). split_and!; try done. intros x Hx'.
      rewrite lookup_insert_ne; [by apply Hx|].
      intros E. apply Hnc. rewrite E. by apply (chain_ce_in _ _ _ _ _ Hch).
    + destruct Hpc as (?&?&?). split_and!; try done. set_solver.
    + destruct Hpc as (?&?&?&?). rewrite lookup_insert_ne by done. split_and!; try done. set_solver.
  - rewrite omap_app, app_assoc. simpl.
    rewrite (omap_item_agree (nodes s)).
    + change (delivered (push_exchange s v)) with (delivered s). rewrite Hfifo. f_equal.
      unfold item. rewrite decide_False, lookup_insert_eq by done. done.
    + intros a Ha. apply item_agree. rewrite lookup_insert_ne; [done|]. intros <-. done.
  - intros a. simpl. intros Ha. destruct (decide (a = fresh s)) as [->|]; [lia|].
    rewrite lookup_insert_ne in Ha by done. specialize (Hfresh a Ha). lia.
  - simpl. by rewrite lookup_insert_ne.
  - simpl. intros a b Hab. apply elem_of_union in Hab as [Hab|Hab]; [set_solver|].
    by apply (Hlk a).
Qed.

(** Both link stores, the producer's and the consumer's. *)
Lemma link_items m a b nd x :
  m !! a = Some nd → item (<[a := mkNode (nd_value nd) (Some b)]> m) x = item m x.
Proof.
  intros Ha. unfold item. case_decide; [done|].
  destruct (decide (x = a)) as [->|]; [|by rewrite lookup_insert_ne].
  by rewrite lookup_insert_eq, Ha.
Qed.

Lemma link_safe s a b : mpsc_inv s → (a, b) ∈ all_links s → is_Some (nodes s !! a).
Proof.
  intros (chain&Hch&_) Hab. destruct (ch_links _ _ _ _ _ Hch a b Hab) as (i&Hi&_).
  destruct (ch_next _ _ _ _ _ Hch i a Hi) as (?&?&_). eauto.
Qed.

Lemma link_inv s s' a b :
  mpsc_inv s → (a, b) ∈ links s → push_link s a b = Some s' → mpsc_inv s'.
Proof.
  intros (chain&Hch&Hpc&Hfifo&Hfresh&Hstub&Hlk) Hab Hp. unfold push_link in Hp.
  destruct (nodes s !! a) as [nd|] eqn:Ha; simplify_eq/=.
  assert (b ≠ stub_) by by eapply Hlk.
  exists chain. simpl. split_and!.
  - match goal with |- chain_ok _ (all_links ?t) _ _ _ =>
      replace (all_links t) with (all_links s ∖ {[(a, b)]})
        by (unfold all_links; simpl; destruct (pc s); set_solver) end.
    apply chain_link; try done. unfold all_links. destruct (pc s); set_solver.
  - unfold pc_ok in *. simpl. destruct (pc s); try done.
    + destruct Hpc as (->&?&Hx). split_and!; try done. intros x Hx'.
      destruct (Hx x Hx') as (y&Hy&Hy').
      destruct (decide (a = consume_end_ s)) as [->|]; [|rewrite lookup_insert_ne; eauto].
      rewrite lookup_insert_eq. eexists. split; [done|]. simpl.
      destruct (ch_links _ _ _ _ _ Hch (consume_end_ s) b) as (i&Hi&Hi').
      { unfold all_links. destruct (pc s); set_solver. }
      destruct (ch_next _ _ _ _ _ Hch i _ Hi) as (z&Hz&Hz'). rewrite Hi' in Hz'. simpl in Hz'.
      case_decide; congruence.
    + destruct Hpc as (?&?&?&z&Hz&Hz'). split_and!; try done.
      rewrite lookup_insert_ne; [eauto|]. intros ->.
      destruct (ch_links _ _ _ _ _ Hch stub_ b) as (i&Hi&_).
      { unfold all_links. destruct (pc s); set_solver. }
      apply list_elem_of_lookup_2 in Hi. done.
  - rewrite (omap_item_agree (nodes s)); [done|]. intros. by apply link_items.
  - intros x. rewrite lookup_insert_is_Some'. intros [->|?]; apply Hfresh; eauto.
  - apply lookup_insert_is_Some'. by right.
  - intros x y Hxy. apply (Hlk x). set_solver.
Qed.

Lemma return_false_inv s :
  all_links s = links s → mpsc_inv s → mpsc_inv (return_false s).
Proof.
  intros Hal (chain&Hch&Hpc&Hfifo&Hfresh&Hstub&Hlk). exists chain. simpl.
  split_and!; try done.
  - unfold all_links at 1. simpl. by rewrite <-Hal.
  - unfold delivered. simpl. by rewrite omap_app, app_nil_r.
Qed.

(** Delivering the node at [consume_end_] once it has a successor. *)
Lemma deliver_inv s n x nd :
  all_links s = links s → mpsc_inv s → n = consume_end_ s → n ≠ stub_ →
  nodes s !! n = Some nd → nd_next nd = Some x →
  ∃ s', deliver s n x = Some s' ∧ mpsc_inv s'.
Proof.
  intros Hal (chain&Hch&Hpc&Hfifo&Hfresh&Hstub&Hlk) -> Hns Hnd Hx. unfold deliver.
  rewrite Hnd. simpl.
  destruct (chain_pop _ (delete (consume_end_ s) (nodes s)) _ _ _ _ nd x Hch Hnd Hx)
    as (rest&->&Hch').
  { intros. by rewrite lookup_delete_ne. }
  destruct (ch_value _ _ _ _ _ Hch (consume_end_ s)) as [v Hv]; [set_solver|done|].
  assert (nd_value nd = Some v) as Hval.
  { unfold item in Hv. rewrite decide_False, Hnd in Hv by done. done. }
  rewrite Hval. simpl. eexists. split; [done|].
  pose proof (ch_nodup _ _ _ _ _ Hch) as Hnodup. apply NoDup_cons in Hnodup as [Hnot _].
  exists (x :: rest). cbn [nodes consume_end_ produce_end_ fresh pushed links].
  split_and!; try done.
  - unfold all_links at 1. simpl. by rewrite <-Hal.
  - rewrite <-Hfifo. unfold delivered. cbn [results]. rewrite omap_app, <-app_assoc. f_equal.
    rewrite (omap_item_agree (nodes s)).
    + by rewrite (omap_item_cons _ (consume_end_ s)), Hv.
    + intros a Ha. apply item_agree. rewrite lookup_delete_ne; [done|]. intros <-. done.
  - intros a Ha. apply Hfresh. destruct Ha as [y [_ Hy]%lookup_delete_Some]. eauto.
  - by rewrite lookup_delete_ne.
Qed.

Lemma chain_single m lk n chain : chain_ok m lk n n chain → chain = [n].
Proof.
  intros [Hh Hl Hnd _ _ _]. destruct chain as [|a [|b chain]]; simplify_eq/=; [done|].
  exfalso. apply NoDup_cons in Hnd as [Hnot _]. apply Hnot.
  apply last_Some_elem_of in Hl. done.
Qed.

(** Only the consumer's program counter moves. *)
Lemma set_pc_inv s c chain :
  chain_ok (nodes s) (all_links s) (consume_end_ s) (produce_end_ s) chain →
  all_links s = links s → all_links (set_pc s c) = links s → pc_ok (set_pc s c) chain →
  delivered s ++ omap (item (nodes s)) chain = pushed s →
  (∀ a, is_Some (nodes s !! a) → (a < fresh s)%nat) →
  is_Some (nodes s !! stub_) → (∀ a b, (a, b) ∈ links s → b ≠ stub_) →
  mpsc_inv (set_pc s c).
Proof. intros Hch Hal Hal'. exists chain. rewrite Hal', <-Hal. done. Qed.

(** ** The consumer, from each program point *)

Ltac consumer_at Hinv Hpceq :=
  let chain := fresh "chain" in
  pose proof Hinv as (chain&Hch&Hpc&Hfifo&Hfresh&Hstub&Hlk);
  destruct (chain_ce_in _ _ _ _ _ Hch) as [Hcein [nd Hnd]];
  unfold consumer; rewrite Hpceq;
  unfold pc_ok in Hpc; rewrite Hpceq in Hpc; simpl in Hpc;
  try assert (all_links _ = links _) as Hal by (unfold all_links; by rewrite Hpceq).

Lemma consumer_idle s : pc s = Idle → mpsc_inv s → ∃ s', consumer s = Some s' ∧ mpsc_inv s'.
Proof.
  intros Hpceq Hinv. consumer_at Hinv Hpceq.
  rewrite Hnd. simpl. case_decide as Hst.
  - destruct (nd_next nd) as [x|] eqn:Hx; [|eexists; split; [done|by apply return_false_inv]].
    eexists. split; [done|].
    destruct (chain_pop _ (nodes s) _ _ _ _ nd x Hch Hnd Hx) as (rest&->&Hch'); [done|].
    pose proof (ch_nodup _ _ _ _ _ Hch) as Hn. apply NoDup_cons in Hn as [Hn _].
    exists (x :: rest). simpl. split_and!; try done.
    + unfold all_links at 1. simpl. by rewrite <-Hal.
    + split; [done|]. intros ->. rewrite Hst in Hn. set_solver.
    + rewrite <-Hfifo. f_equal. by rewrite (omap_item_cons _ (consume_end_ s)), Hst.
  - eexists. split; [done|]. eapply set_pc_inv; try done.
    unfold pc_ok. simpl. split_and!; try done. intros x Hx. eauto.
Qed.

Lemma consumer_reset_stub s n :
  pc s = ResetStub n → mpsc_inv s → ∃ s', consumer s = Some s' ∧ mpsc_inv s'.
Proof.
  intros Hpceq Hinv. consumer_at Hinv Hpceq.
  destruct Hpc as (->&Hns&Hstc). destruct Hstub as [st Hst]. rewrite Hst. simpl.
  eexists. split; [done|]. exists chain. simpl. split_and!; try done.
  - unfold all_links at 1. simpl. rewrite <-Hal. eapply chain_agree; [exact Hch|].
    intros a Ha. rewrite lookup_insert_ne; [done|]. by intros <-.
  - split_and!; try done. simpl. rewrite lookup_insert_eq. eauto.
  - rewrite (omap_item_agree (nodes s)); [done|]. intros a Ha. apply item_agree.
    rewrite lookup_insert_ne; [done|]. by intros <-.
  - intros a. rewrite lookup_insert_is_Some'. intros [<-|?]; apply Hfresh; eauto.
  - rewrite lookup_insert_eq. eauto.
Qed.

Lemma consumer_link_stub s n prev :
  pc s = LinkStub n prev → mpsc_inv s → ∃ s', consumer s = Some s' ∧ mpsc_inv s'.
Proof.
  intros Hpceq Hinv. consumer_at Hinv Hpceq. destruct Hpc as (->&Hns).
  assert ((prev, stub_) ∈ all_links s) as Hin by (unfold all_links; rewrite Hpceq; set_solver).
  destruct (link_safe s prev stub_ Hinv Hin) as [y Hy]. rewrite Hy. simpl.
  eexists. split; [done|]. exists chain. simpl. split_and!; try done.
  - unfold all_links at 1. simpl.
    replace (links s) with (all_links s ∖ {[(prev, stub_)]}); [by apply chain_link|].
    unfold all_links. rewrite Hpceq. apply set_eq. intros [a b].
    destruct (decide ((a, b) = (prev, stub_))) as [[= -> ->]|]; [|set_solver].
    split; [set_solver|]. intros Hx. by destruct (Hlk _ _ Hx).
  - rewrite (omap_item_agree (nodes s)); [done|]. intros. by apply link_items.
  - intros a. rewrite lookup_insert_is_Some'. intros [<-|?]; apply Hfresh; eauto.
  - apply lookup_insert_is_Some'. by right.
Qed.

Lemma consumer_inv s : mpsc_inv s → ∃ s', consumer s = Some s' ∧ mpsc_inv s'.
Proof.
  intros Hinv. destruct (pc s) as [|n|n [x|]|n|n|n prev|n] eqn:Hpceq;
    [by apply consumer_idle| | | |by eapply consumer_reset_stub| |by eapply consumer_link_stub|];
    consumer_at Hinv Hpceq.
  - destruct Hpc as [-> Hns]. rewrite Hnd. simpl. eexists. split; [done|].
    eapply set_pc_inv; try done. unfold pc_ok. simpl. split_and!; try done. intros x Hx. eauto.
  - destruct Hpc as (->&Hns&Hx). destruct (Hx x eq_refl) as (y&Hy&Hy').
    by eapply deliver_inv.
  - destruct Hpc as (->&Hns&_). case_decide as Hpe.
    + eexists. split; [done|]. eapply set_pc_inv; try done.
      unfold pc_ok. simpl. split_and!; try done.
      rewrite <-Hpe in Hch. rewrite (chain_single _ _ _ _ Hch). set_solver.
    + eexists. split; [done|]. by apply return_false_inv.
  - destruct Hpc as (->&Hns&Hstc&st&Hst&Hst'). eexists. split; [done|].
    exists (chain ++ [stub_]). simpl. split_and!; try done.
    + unfold all_links at 1. simpl. rewrite <-Hal. eapply chain_push; done.
    + rewrite omap_app. simpl. by rewrite app_nil_r.
  - destruct Hpc as (->&Hns). rewrite Hnd. simpl.
    destruct (nd_next nd) as [x|] eqn:Hx; [by eapply deliver_inv|].
    eexists. split; [done|]. by apply return_false_inv.
Qed.

Lemma mpsc_new_inv : mpsc_inv (@MpscQueue_new T).
Proof.
  exists [stub_]. split; [|split; [done|]].
  - constructor; simpl; try done.
    + apply NoDup_singleton.
    + intros [|i] a Hi; simplify_eq/=. eexists. split; [by rewrite lookup_singleton_eq|done].
    + intros a ->%list_elem_of_singleton Hns. done.
  - split; [done|]. simpl. split_and!; try done.
    + intros a [x [<- _]%lookup_singleton_Some]. unfold stub_. lia.
Qed.

Lemma mpsc_reachable s : steps mpsc_step MpscQueue_new s → mpsc_inv s.
Proof.
  apply steps_invariant; [|apply mpsc_new_inv].
  clear s. intros a b Ha Hstep. destruct Hstep as [s v|s s' prev n Hin Hp|s s' Hc].
  - by apply exchange_inv.
  - by eapply link_inv.
  - destruct (consumer_inv _ Ha) as (s1&Hs1&?). congruence.
Qed.

(** ** The consumer on its own *)

Lemma consumer_run_inv k s s' : mpsc_inv s → consumer_run k s = Some s' → mpsc_inv s'.
Proof.
  revert s. induction k as [|k IH]; intros s Hinv Hr; simpl in Hr; [done|].
  destruct (consumer_inv s Hinv) as (s1&E&Hinv1). rewrite E in Hr. simpl in Hr.
  destruct (pc s1); simplify_eq; eauto.
Qed.

Lemma consumer_run_steps k s s' : consumer_run k s = Some s' → steps mpsc_step s s'.
Proof.
  revert s. induction k as [|k IH]; intros s Hr; simpl in Hr; [done|].
  destruct (consumer s) as [s1|] eqn:E; [|done]. simpl in Hr.
  eapply steps_cons; [by constructor 3|].
  destruct (pc s1); simplify_eq; eauto using steps_refl.
Qed.

(** No producer is between its exchange and its link store, and no [TryPop] is
    running. *)
Definition quiescent s : Prop := links s = ∅ ∧ pc s = Idle.

(** [s'] is [s] after a [TryPop] that returned [r]. *)
Definition popped s s' (r : option T) : Prop :=
  quiescent s' ∧ results s' = results s ++ [r] ∧ pushed s' = pushed s.

Lemma consumer_run_S k s s1 :
  consumer s = Some s1 →
  consumer_run (S k) s = match pc s1 with Idle => Some s1 | _ => consumer_run k s1 end.
Proof. intros E. cbn [consumer_run]. by rewrite E. Qed.

(** From the check on, a node's item is delivered. *)
Lemma run_check s n nd :
  mpsc_inv s → links s = ∅ → nodes s !! n = Some nd → pc s = Check n (nd_next nd) →
  ∃ s' v, consumer_run 6 s = Some s' ∧ popped s s' (Some v).
Proof.
  intros (chain&Hch&Hpc&_&_&[st Hst]&_) Hlk Hnd Hpceq.
  unfold pc_ok in Hpc. rewrite Hpceq in Hpc. destruct Hpc as (->&Hns&_).
  destruct (ch_value _ _ _ _ _ Hch (consume_end_ s)) as [v Hv];
    [by apply (chain_ce_in _ _ _ _ _ Hch)|done|].
  unfold item in Hv. rewrite decide_False, Hnd in Hv by done. simpl in Hv.
  destruct (nd_next nd) as [x|] eqn:Hx.
  - do 2 eexists. erewrite consumer_run_S.
    2: { unfold consumer. rewrite Hpceq. unfold deliver. rewrite Hnd. simpl.
         rewrite Hv. done. }
    split; [done|]. done.
  - assert (chain = [consume_end_ s]) as ->.
    { pose proof (ch_head _ _ _ _ _ Hch) as Hh.
      destruct chain as [|c [|b chain]]; simplify_eq/=; [done|].
      destruct (ch_next _ _ _ _ _ Hch 0%nat _ eq_refl) as (z&Hz&Hz').
      rewrite Hz in Hnd. simplify_eq. rewrite Hx in Hz'. simpl in Hz'.
      rewrite decide_False in Hz'; [done|]. unfold all_links. rewrite Hpceq, Hlk. set_solver. }
    pose proof (ch_last _ _ _ _ _ Hch) as Hl. simpl in Hl. injection Hl as Hpe.
    do 2 eexists. rewrite (consumer_run_S _ _ (set_pc s (ResetStub (consume_end_ s)))).
    2: { unfold consumer. rewrite Hpceq, <-Hpe. by rewrite decide_True. }
    cbn [pc set_pc].
    erewrite consumer_run_S by (unfold consumer; simpl; rewrite Hst; reflexivity). cbn [pc].
    erewrite consumer_run_S by reflexivity. cbn [pc produce_end_]. rewrite <-Hpe.
    erewrite consumer_run_S
      by (unfold consumer; simpl; rewrite lookup_insert_ne, Hnd by done; reflexivity).
    cbn [pc]. erewrite consumer_run_S.
    2: { unfold consumer, deliver. simpl. rewrite lookup_insert_eq. simpl.
         rewrite Hv. reflexivity. }
    split; [done|]. done.
Qed.

Lemma consumer_run_mono k k' s s' :
  (k ≤ k')%nat → consumer_run k s = Some s' → consumer_run k' s = Some s'.
Proof.
  revert k' s. induction k as [|k IH]; intros [|k'] s Hk Hr; simpl in *; try (done || lia).
  destruct (consumer s) as [s1|]; [|done]. simpl in *.
  destruct (pc s1); try done; apply IH; (lia || done).
Qed.

(** One step followed by [run_check]. *)
Lemma run_then_check k s s1 n nd :
  mpsc_inv s → consumer s = Some s1 → links s1 = ∅ → nodes s1 !! n = Some nd →
  pc s1 = Check n (nd_next nd) → results s1 = results s → pushed s1 = pushed s →
  (7 ≤ k)%nat → ∃ s' v, consumer_run k s = Some s' ∧ popped s s' (Some v).
Proof.
  intros Hinv Hc Hlk Hnd Hpc Hres Hpu Hk. destruct k as [|k]; [lia|].
  rewrite (consumer_run_S _ _ _ Hc).
  destruct (consumer_inv s Hinv) as (s2&E&Hinv1). rewrite Hc in *. simplify_eq/=.
  destruct (run_check s2 n nd Hinv1 Hlk Hnd Hpc) as (s'&v&Hr&Hq&Hr1&Hp1).
  rewrite Hpc. exists s', v. split; [by apply (consumer_run_mono 6); [lia|]|].
  split; [done|]. split; congruence.
Qed.

Lemma TryPop_run s :
  mpsc_inv s → quiescent s →
  ∃ s' r, consumer_run 9 s = Some s' ∧ popped s s' r ∧
    (r = None → delivered s = pushed s).
Proof.
  intros Hinv [Hlk Hpc]. pose proof Hinv as (chain&Hch&_&Hfifo&_&Hstub&_).
  destruct (chain_ce_in _ _ _ _ _ Hch) as [Hcein [nd Hnd]].
  destruct (decide (consume_end_ s = stub_)) as [Hst|Hns].
  - destruct (nd_next nd) as [x|] eqn:Hx.
    + assert (∃ s1, consumer s = Some s1 ∧ pc s1 = LoadNext x ∧ nodes s1 = nodes s ∧
        links s1 = links s ∧ results s1 = results s ∧ pushed s1 = pushed s) as
        (s1&Hs1&Hpc1&Hn1&Hl1&Hr1&Hp1).
      { unfold consumer. rewrite Hpc, Hnd. simpl. rewrite decide_True, Hx by done. eauto 10. }
      destruct (consumer_inv s Hinv) as (s1'&E&Hinv1). assert (s1' = s1) as -> by congruence.
      assert (is_Some (nodes s1 !! x)) as [y Hy].
      { destruct (chain_pop _ (nodes s) _ _ _ _ nd x Hch Hnd Hx) as (rest&_&Hch'); [done|].
        rewrite Hn1. by apply (chain_ce_in _ _ _ _ _ Hch'). }
      assert (consumer s1 = Some (set_pc s1 (Check x (nd_next y)))) as Hc1.
      { unfold consumer. by rewrite Hpc1, Hy. }
      destruct (run_then_check 8 s1 _ x y Hinv1 Hc1) as (s'&v&Hr&?&?&?);
        [simpl; congruence|exact Hy|reflexivity..|lia|].
      exists s', (Some v). split; [|split; [split; [done|split; congruence]|done]].
      rewrite (consumer_run_S _ _ _ Hs1), Hpc1. exact Hr.
    + exists (return_false s), None. rewrite (consumer_run_S _ _ (return_false s)).
      2: { unfold consumer. rewrite Hpc, Hnd. simpl. by rewrite decide_True, Hx. }
      split; [done|]. split; [done|]. intros _. rewrite <-Hfifo.
      assert (chain = [stub_]) as ->; [|by rewrite app_nil_r].
      pose proof (ch_head _ _ _ _ _ Hch) as Hh.
      destruct chain as [|c [|b chain]]; simplify_eq/=; [by rewrite Hst|].
      destruct (ch_next _ _ _ _ _ Hch 0%nat _ eq_refl) as (z&Hz&Hz').
      rewrite Hz in Hnd. simplify_eq. rewrite Hx in Hz'. simpl in Hz'.
      rewrite decide_False in Hz'; [done|]. unfold all_links. rewrite Hpc, Hlk. set_solver.
  - assert (consumer s = Some (set_pc s (Check (consume_end_ s) (nd_next nd)))) as Hc1.
    { unfold consumer. rewrite Hpc, Hnd. simpl. by rewrite decide_False. }
    destruct (run_then_check 9 s _ (consume_end_ s) nd Hinv Hc1) as (s'&v&Hr&?);
      [exact Hlk|exact Hnd|reflexivity..|lia|].
    exists s', (Some v). done.
Qed.

Lemma TryPop_next s :
  mpsc_inv s → quiescent s →
  ∃ s', TryPop s = Some (s', pushed s !! length (delivered s)) ∧ quiescent s' ∧ mpsc_inv s' ∧
    pushed s' = pushed s ∧
    delivered s' = delivered s ++ option_list (pushed s !! length (delivered s)).
Proof.
  intros Hinv Hq. destruct (TryPop_run s Hinv Hq) as (s'&r&Hr&(Hq'&Hres&Hp)&Hnone).
  pose proof (consumer_run_inv _ _ _ Hinv Hr) as Hinv'.
  assert (delivered s' = delivered s ++ option_list r) as Hd.
  { unfold delivered. rewrite Hres, omap_app. by destruct r. }
  assert (r = pushed s !! length (delivered s)) as ->.
  { destruct r as [v|].
    - destruct Hinv' as (chain&_&_&Hfifo&_). rewrite <-Hp, <-Hfifo, Hd, <-app_assoc.
      rewrite lookup_app_r, Nat.sub_diag by lia. done.
    - rewrite Hnone by done. symmetry. apply lookup_ge_None. lia. }
  exists s'. split; [|done]. unfold TryPop. rewrite Hr. simpl.
  rewrite Hres, last_snoc. done.
Qed.

Lemma Drain_all k s :
  mpsc_inv s → quiescent s → (length (pushed s) - length (delivered s) < k)%nat →
  ∃ s' l, Drain k s = Some (s', l) ∧ quiescent s' ∧ mpsc_inv s' ∧
    delivered s ++ l = pushed s ∧ pushed s' = pushed s ∧ delivered s' = pushed s.
Proof.
  revert s. induction k as [|k IH]; intros s Hinv Hq Hk; [lia|]. simpl.
  destruct (TryPop_next s Hinv Hq) as (s1&->&Hq1&Hinv1&Hp1&Hd1). simpl.
  destruct (pushed s !! length (delivered s)) as [v|] eqn:Hv; simpl in Hd1.
  - destruct (IH s1 Hinv1 Hq1) as (s'&l&->&?&?&Hl&?&?).
    { rewrite Hp1, Hd1, length_app. simpl. apply lookup_lt_Some in Hv. lia. }
    simpl. exists s', (v :: l). rewrite Hd1, <-app_assoc in Hl. simpl in Hl.
    split_and!; try done; congruence.
  - rewrite app_nil_r in Hd1. exists s1, []. simpl. rewrite app_nil_r.
    assert (delivered s = pushed s) as E.
    { destruct Hinv as (chain&_&_&Hfifo&_). rewrite <-Hfifo in Hv |- *.
      destruct (omap _ chain); [by rewrite app_nil_r|].
      rewrite lookup_app_r, Nat.sub_diag in Hv by lia. done. }
    split_and!; try done; congruence.
Qed.
End Invariant.

(** ** Correctness *)

Section Theorems.
Context {T : Type}.

(** C7: Under every interleaving of any number of producers with the
    consumer, no atomic operation touches a deleted node, and what the consumer
    has received is at all times a prefix of the items in the order of the
    producers' exchanges: nothing is lost, duplicated, reordered or invented. *)
Theorem mpsc_linearizable (s : mpsc T) :
  steps mpsc_step MpscQueue_new s →
  delivered s `prefix_of` pushed s ∧ is_Some (consumer s) ∧
  (∀ prev n, (prev, n) ∈ links s → is_Some (push_link s prev n)).
Proof.
  intros Hr. pose proof (mpsc_reachable s Hr) as Hinv. split; [|split].
  - destruct Hinv as (chain&_&_&<-&_). by eexists.
  - destruct (consumer_inv s Hinv) as (s'&->&_). eauto.
  - intros prev n Hin. destruct (link_safe s prev n Hinv) as [nd Hnd].
    { unfold all_links. destruct (pc s); set_solver. }
    unfold push_link. rewrite Hnd. eauto.
Qed.

(** Once no producer is in the middle of a push, [Drain] terminates and
    hands its callback exactly the items not yet delivered, in order, leaving
    the queue empty; each [TryPop] returns the oldest of them. *)
Theorem mpsc_drain_complete (s : mpsc T) k :
  steps mpsc_step MpscQueue_new s → links s = ∅ → pc s = Idle →
  (length (pushed s) - length (delivered s) < k)%nat →
  (∃ s1, TryPop s = Some (s1, pushed s !! length (delivered s))) ∧
  ∃ s' l, Drain k s = Some (s', l) ∧ delivered s ++ l = pushed s ∧
    delivered s' = pushed s'.
Proof.
  intros Hr Hlk Hpc Hk. pose proof (mpsc_reachable s Hr) as Hinv. split.
  - destruct (TryPop_next s Hinv) as (s1&?&_); [done|]. eauto.
  - destruct (Drain_all k s Hinv) as (s'&l&?&?&?&?&?&?); try done.
    exists s', l. split_and!; congruence.
Qed.
End Theorems.

(** Two producers: the second one links first. *)
Definition sample_state : option (mpsc nat) :=
  let s := push_exchange (push_exchange MpscQueue_new 10%nat) 20%nat in
  s ← push_link s 1 2; s ← consumer s; push_link s 0 1.

Lemma sample_steps s : sample_state = Some s → steps mpsc_step MpscQueue_new s.
Proof.
  unfold sample_state. intros Hs.
  destruct (push_link _ 1 2) as [s1|] eqn:E1; [|done]. simpl in Hs.
  destruct (consumer s1) as [s2|] eqn:E2; [|done]. simpl in Hs.
  eapply steps_cons; [apply (step_exchange _ 10%nat)|].
  eapply steps_cons; [apply (step_exchange _ 20%nat)|].
  eapply steps_cons; [eapply step_link; [|exact E1]; vm_compute; done|].
  eapply steps_cons; [by apply step_consumer|].
  eapply steps_cons; [eapply step_link; [|exact Hs]|apply steps_refl].
  vm_compute in E1. simplify_eq. vm_compute in E2. simplify_eq. vm_compute. done.
Qed.

Lemma mpsc_linearizable_witness :
  ∃ s, sample_state = Some s ∧ delivered s `prefix_of` pushed s ∧ is_Some (consumer s) ∧
    (∀ prev n, (prev, n) ∈ links s → is_Some (push_link s prev n)).
Proof.
  destruct sample_state as [s|] eqn:E; [|by vm_compute in E].
  exists s. split; [done|]. apply mpsc_linearizable. by apply sample_steps.
Defined.

Lemma mpsc_drain_complete_witness :
  ∃ s, sample_state = Some s ∧
  (∃ s1, TryPop s = Some (s1, pushed s !! length (delivered s))) ∧
  ∃ s' l, Drain 3 s = Some (s', l) ∧ delivered s ++ l = pushed s ∧
    delivered s' = pushed s'.
Proof.
  destruct sample_state as [s|] eqn:E; [|by vm_compute in E].
  exists s. split; [done|]. pose proof (sample_steps s E) as Hs.
  vm_compute in E. injection E as <-.
  apply mpsc_drain_complete; [exact Hs|reflexivity|reflexivity|vm_compute; lia].
Defined.
