(* ===== verification/JobQueue.v ===== *)
(** * Serialised job queues, the global run queue and the job timer

    Models [src/runtime/job/JobQueue.cpp], [GlobalQueue.cpp] and
    [JobTimer.cpp].  Any number of threads push jobs into a [JobQueue]; the
    thread whose push takes [job_count_] from 0 to 1 hands the queue to the
    [GlobalQueue], from which worker threads take it and run [Execute].

    The model is one job queue with a global queue it shares with others.  A
    step is one atomic operation or one critical section; threads in the middle
    of [Push] or [Execute] are part of the state, so a run is any interleaving.
    The outcome of a deadline test is free in each step.  [job_count_] is an
    [int32_t]; pushes are modelled while fewer than [2^31 - 1] jobs are
    outstanding, so it never wraps. *)

From stdpp Require Import sorting.
From S2P Require Import Prelude Types.

#[local] Open Scope Z_scope.

(** ** The global queue *)

Module GlobalQueue.
(** Source: src/runtime/job/GlobalQueue.cpp:5-8, GlobalQueue::Push. *)
Definition Push (queue_ : list nat) (jq : nat) : list nat := queue_ ++ [jq].

(** Source: src/runtime/job/GlobalQueue.cpp:10-17, GlobalQueue::TryPop. *)
Definition TryPop (queue_ : list nat) : list nat * option nat :=
  match queue_ with
  | [] => ([], None)
  | jq :: queue_ => (queue_, Some jq)
  end.
End GlobalQueue.

(** ** One job queue *)

Section JobQueue.
Context {J : Type}.

(** The identity of the modelled queue among those in the global queue. *)
Definition this : nat := 0.

(** A thread inside [JobQueue::Push]: after the [fetch_add], and after the
    [push_back] when it still has to register the queue. *)
Inductive pusher :=
| Counted (job : J) (prev : Z)
| Registering.

(** A thread inside [JobQueue::Execute]: about to take a batch, running it
    (with the jobs not yet run and the number run), about to return the rest,
    about to subtract, and after the subtraction left jobs. *)
Inductive executor :=
| Top
| Running (todo : list J) (executed_count : Z)
| Returning (rest : list J) (executed_count : Z)
| Subtracting (executed_count : Z)
| AfterSub (executed_count : Z).

(** Source: include/iouring_runtime/core/JobQueue.h:37-40, JobQueue.
    The members, the global queue, the threads inside [Push] and [Execute], and
    the history of [push_back]s and of jobs run. *)
Record jq_state := mkJq {
  job_count_ : Z;
  jobs_ : list J;
  global_queue : list nat;
  pushers : list pusher;
  executors : list executor;
  appended : list J;
  executed : list J;
}.

(** Source: src/runtime/job/JobQueue.cpp:8-8, JobQueue::JobQueue. *)
Definition JobQueue_new : jq_state := mkJq 0 [] [] [] [] [] [].

(** Source: src/runtime/job/JobQueue.cpp:10-11, JobQueue::Push. *)
Definition push_count (s : jq_state) (job : J) : jq_state :=
  mkJq (job_count_ s + 1) (jobs_ s) (global_queue s)
    (pushers s ++ [Counted job (job_count_ s)]) (executors s) (appended s) (executed s).

(** Source: src/runtime/job/JobQueue.cpp:12-16, JobQueue::Push.
    The critical section of the pusher between [before] and [after]. *)
Definition push_append (s : jq_state) (job : J) (prev : Z) (before after : list pusher)
    : jq_state :=
  mkJq (job_count_ s) (jobs_ s ++ [job]) (global_queue s)
    (before ++ (if prev =? 0 then [Registering] else []) ++ after)
    (executors s) (appended s ++ [job]) (executed s).

(** Source: src/runtime/job/JobQueue.cpp:16-18, JobQueue::Push. *)
Definition push_register (s : jq_state) (before after : list pusher) : jq_state :=
  mkJq (job_count_ s) (jobs_ s) (GlobalQueue.Push (global_queue s) this)
    (before ++ after) (executors s) (appended s) (executed s).

(** Leaving the loop over the batch with [todo] not run. *)
Definition batch_done (todo : list J) (n : Z) : executor :=
  match todo with [] => Subtracting n | _ => Returning todo n end.

(** Source: src/runtime/job/JobQueue.cpp:24-66, JobQueue::Execute.
    One step of an executing thread: the new shared members (count, jobs,
    global queue, jobs run) and where the thread is, [None] when it returned.
    [late] is the outcome of the deadline test, if the step makes one. *)
Definition exec_step (s : jq_state) (e : executor) (late : bool)
    : Z * list J * list nat * list J * option executor :=
  let '(cnt, jobs, gq, ran) := (job_count_ s, jobs_ s, global_queue s, executed s) in
  match e with
  | Top =>
    match jobs with
    | [] => (cnt, [], gq, ran, Some (Subtracting 0))
    | _ => (cnt, [], gq, ran, Some (Running jobs 0))
    end
  | Running [] n => (cnt, jobs, gq, ran, Some (Subtracting n))
  | Running (job :: todo) n =>
    (cnt, jobs, gq, ran ++ [job],
     Some (if late then batch_done todo (n + 1) else
           match todo with [] => Subtracting (n + 1) | _ => Running todo (n + 1) end))
  | Returning rest n => (cnt, rest ++ jobs, gq, ran, Some (Subtracting n))
  | Subtracting n =>
    let remaining := cnt - n in
    (remaining, jobs, gq, ran, if remaining <=? 0 then None else Some (AfterSub n))
  | AfterSub n =>
    if late then (cnt, jobs, GlobalQueue.Push gq this, ran, None)
    else (cnt, jobs, gq, ran, Some Top)
  end.

(** The thread between [before] and [after] takes a step. *)
Definition exec_apply (s : jq_state) (e : executor) (late : bool)
    (before after : list executor) : jq_state :=
  let '(cnt, jobs, gq, ran, e') := exec_step s e late in
  mkJq cnt jobs gq (pushers s) (before ++ option_list e' ++ after) (appended s) ran.

Inductive jq_step : jq_state → jq_state → Prop :=
| step_count s job :
    job_count_ s < 2 ^ 31 - 1 → jq_step s (push_count s job)
| step_append s job prev before after :
    pushers s = before ++ Counted job prev :: after →
    jq_step s (push_append s job prev before after)
| step_register s before after :
    pushers s = before ++ Registering :: after → jq_step s (push_register s before after)
| step_other_push s jq :
    jq ≠ this →
    jq_step s (mkJq (job_count_ s) (jobs_ s) (GlobalQueue.Push (global_queue s) jq)
                 (pushers s) (executors s) (appended s) (executed s))
| step_pop s gq jq :
    GlobalQueue.TryPop (global_queue s) = (gq, Some jq) →
    jq_step s (mkJq (job_count_ s) (jobs_ s) gq (pushers s)
                 (executors s ++ if decide (jq = this) then [Top] else [])
                 (appended s) (executed s))
| step_exec s e late before after :
    executors s = before ++ e :: after → jq_step s (exec_apply s e late before after).

(** Source: src/runtime/job/JobQueue.cpp:20-22, JobQueue::Execute.
    A whole [Execute()] without a deadline that no other thread interleaves,
    after the global queue handed out this queue.  A batch of [n] jobs takes
    [n + 2] steps, so [fuel] three more than the jobs queued suffices
    ([Execute_runs_all]). *)
Fixpoint Execute_run (fuel : nat) (s : jq_state) : option jq_state :=
  match fuel with
  | O => None
  | S fuel =>
    match executors s with
    | [] => Some s
    | e :: after => Execute_run fuel (exec_apply s e false [] after)
    end
  end.

(** ** Invariant *)

Definition registers (p : pusher) : bool :=
  match p with Counted _ prev => prev =? 0 | Registering => true end.
Definition is_counted (p : pusher) : bool :=
  match p with Counted _ _ => true | Registering => false end.

(** How many threads hold, or will hand over, the right to execute. *)
Definition tokens (s : jq_state) : Z :=
  zlen (filter (λ jq, jq = this) (global_queue s)) + zlen (executors s) +
  zlen (filter (λ p, registers p = true) (pushers s)).

(** Jobs of a batch not yet run, and jobs taken but not yet subtracted. *)
Definition exec_todo (e : executor) : list J :=
  match e with Running todo _ | Returning todo _ => todo | _ => [] end.
Definition exec_taken (e : executor) : Z :=
  match e with
  | Running todo n | Returning todo n => n + zlen todo
  | Subtracting n => n
  | _ => 0
  end.

Definition exec_count (e : executor) : Z :=
  match e with
  | Running _ n | Returning _ n | Subtracting n | AfterSub n => n
  | Top => 0
  end.

Definition taken (es : list executor) : Z := foldr (λ e n, exec_taken e + n) 0 es.
Definition todo (es : list executor) : list J := concat (map exec_todo es).

Record jq_inv (s : jq_state) : Prop := {
  inv_tokens : tokens s = if 0 <? job_count_ s then 1 else 0;
  inv_count : job_count_ s =
    zlen (filter (λ p, is_counted p = true) (pushers s)) + zlen (jobs_ s)
    + taken (executors s);
  inv_fifo : executed s ++ todo (executors s) ++ jobs_ s = appended s;
  inv_nonneg : Forall (λ e, 0 ≤ exec_count e) (executors s);
}.
End JobQueue.

Arguments pusher : clear implicits.
Arguments executor : clear implicits.
Arguments jq_state : clear implicits.

Section Facts.
Context {J : Type}.
Implicit Types (s : jq_state J) (e : executor J).

Lemma exec_taken_nonneg e : 0 ≤ exec_count e → 0 ≤ exec_taken e.
Proof. destruct e as [|l n|l n|n|n]; simpl; try pose proof (zlen_nonneg l); lia. Qed.

(** At most one thread executes. *)
Lemma inv_one_executor s : jq_inv s →
  (executors s = [] ∨ ∃ e, executors s = [e]) ∧ (executors s ≠ [] → 0 < job_count_ s).
Proof.
  intros [Ht _ _ _]. unfold tokens in Ht.
  pose proof (zlen_nonneg (filter (λ jq, jq = this) (global_queue s))).
  pose proof (zlen_nonneg (filter (λ p, registers p = true) (pushers s))).
  destruct (executors s) as [|e [|e' es]]; rewrite ?zlen_cons, ?zlen_nil in Ht.
  - split; [by left|done].
  - split; [by right; eauto|]. intros _. case_match eqn:E; propify; [done|lia].
  - pose proof (zlen_nonneg es). case_match; lia.
Qed.

Lemma tokens_new : jq_inv (@JobQueue_new J).
Proof. constructor; simpl; done. Qed.

Lemma push_count_inv s job : jq_inv s → jq_inv (push_count s job).
Proof.
  intros Hinv. pose proof (inv_one_executor s Hinv) as [_ Hpos].
  destruct Hinv as [Ht Hc Hf Hn].
  assert (0 ≤ taken (executors s)) as Htk.
  { clear -Hn. induction Hn as [|e es He _ IH]; simpl; [done|].
    apply exec_taken_nonneg in He. lia. }
  pose proof (zlen_nonneg (jobs_ s)).
  pose proof (zlen_nonneg (filter (λ p, is_counted p = true) (pushers s))).
  constructor; simpl; try done.
  - unfold tokens in *. simpl. rewrite filter_app, zlen_app. simpl.
    rewrite filter_cons. simpl. rewrite filter_nil.
    destruct (Z.ltb_spec 0 (job_count_ s)).
    + rewrite decide_False by (rewrite Z.eqb_eq; lia). rewrite (proj2 (Z.ltb_lt _ _)) by lia.
      rewrite zlen_nil. lia.
    + rewrite decide_True by (rewrite Z.eqb_eq; lia). rewrite (proj2 (Z.ltb_lt _ _)) by lia.
      rewrite zlen_cons, zlen_nil. lia.
  - rewrite filter_app, zlen_app, filter_cons_True, filter_nil, zlen_cons, zlen_nil by done. lia.
Qed.

Lemma push_append_inv s job prev before after :
  jq_inv s → pushers s = before ++ Counted job prev :: after →
  jq_inv (push_append s job prev before after).
Proof.
  intros [Ht Hc Hf Hn] Hp. constructor; simpl; try done.
  - rewrite <-Ht. unfold tokens. simpl. rewrite Hp, !filter_app, !zlen_app.
    rewrite filter_cons. simpl. destruct (prev =? 0); simpl;
      rewrite ?filter_cons; simpl; repeat case_decide; try done;
      rewrite ?filter_nil, ?zlen_cons, ?zlen_nil; lia.
  - rewrite Hc, Hp, !filter_app, !zlen_app, filter_cons_True, zlen_cons by done.
    change (zlen [job]) with 1.
    assert (filter (λ p : pusher J, is_counted p = true)
      (if prev =? 0 then [Registering] else []) = []) as -> by by destruct (prev =? 0).
    change (zlen (@nil (pusher J))) with 0. lia.
  - by rewrite <-Hf, !app_assoc.
Qed.

Lemma push_register_inv s before after :
  jq_inv s → pushers s = before ++ Registering :: after →
  jq_inv (push_register s before after).
Proof.
  intros [Ht Hc Hf Hn] Hp. constructor; simpl; try done.
  - rewrite <-Ht. unfold tokens, push_register, GlobalQueue.Push. simpl.
    rewrite Hp, !filter_app, !zlen_app.
    rewrite !filter_cons_True, filter_nil, !zlen_cons, zlen_nil by done. lia.
  - rewrite Hc, Hp, !filter_app, !zlen_app, filter_cons_False by done. lia.
Qed.

(** A step of the only executing thread. *)
Lemma exec_inv s e late before after :
  jq_inv s → executors s = before ++ e :: after → jq_inv (exec_apply s e late before after).
Proof.
  intros Hinv He. pose proof (inv_one_executor s Hinv) as [[Hex|[e' Hex]] Hpos].
  { rewrite Hex in He. by destruct before. }
  rewrite Hex in He. destruct before as [|b [|? ?]]; [|done..].
  simplify_eq/=. specialize (Hpos ltac:(by rewrite Hex)).
  destruct Hinv as [Ht Hc Hf Hn]. rewrite Hex in *. simpl in Hc.
  rewrite (proj2 (Z.ltb_lt _ _)) in Ht by lia. unfold tokens in Ht. rewrite Hex in Ht.
  apply Forall_cons in Hn as [Hn _]. unfold todo in Hf. simpl in Hf. rewrite app_nil_r in Hf.
  pose proof (zlen_nonneg (jobs_ s)).
  pose proof (zlen_nonneg (filter (λ p, is_counted p = true) (pushers s))).
  unfold exec_apply, exec_step. destruct e as [|[|j l] n|l n|n|n]; simpl in *.
  - destruct (jobs_ s) as [|j l] eqn:Hj; constructor; simpl;
      unfold tokens, todo; simpl; rewrite ?zlen_cons, ?zlen_nil in *; rewrite ?app_nil_r in *;
      rewrite ?(proj2 (Z.ltb_lt _ _)) by lia; try done; try lia.
    all: by apply Forall_singleton.
  - constructor; simpl; unfold tokens, todo; simpl; rewrite ?zlen_nil in *;
      rewrite ?(proj2 (Z.ltb_lt _ _)) by lia; try done; try lia.
    by apply Forall_singleton.
  - assert (todo [if late then batch_done l (n + 1)
                  else match l with [] => Subtracting (n + 1) | _ => Running l (n + 1) end] = l ∧
      exec_taken (if late then batch_done l (n + 1)
                  else match l with [] => Subtracting (n + 1) | _ => Running l (n + 1) end)
        = n + zlen (j :: l) ∧
      exec_count (if late then batch_done l (n + 1)
                  else match l with [] => Subtracting (n + 1) | _ => Running l (n + 1) end)
        = n + 1) as (Htodo&Htk&Hct).
    { unfold todo. rewrite zlen_cons. destruct late, l; simpl;
        rewrite ?app_nil_r, ?zlen_cons, ?zlen_nil; split_and!; done || lia. }
    constructor; simpl.
    + unfold tokens. simpl. rewrite (proj2 (Z.ltb_lt _ _)) by lia. done.
    + rewrite Htk. lia.
    + rewrite Htodo, <-app_assoc. done.
    + apply Forall_singleton. rewrite Hct. lia.
  - constructor; simpl; unfold tokens, todo; simpl; rewrite ?zlen_app;
      rewrite ?(proj2 (Z.ltb_lt _ _)) by lia; try done; try lia.
    by apply Forall_singleton.
  - destruct (Z.leb_spec (job_count_ s - n) 0); constructor; simpl; unfold tokens, todo; simpl;
      rewrite ?zlen_cons, ?zlen_nil in *; try done; try lia.
    + rewrite (proj2 (Z.ltb_ge _ _)) by lia. lia.
    + rewrite (proj2 (Z.ltb_lt _ _)) by lia. lia.
    + by apply Forall_singleton.
  - destruct late; constructor; simpl; unfold tokens, todo, GlobalQueue.Push; simpl;
      rewrite ?(proj2 (Z.ltb_lt _ _)) by lia; try done; try lia.
    + change (zlen [AfterSub n]) with 1 in Ht. change (zlen (@nil (executor J))) with 0.
      rewrite filter_app, zlen_app. change (zlen (filter (λ jq, jq = this) [this])) with 1. lia.
    + by apply Forall_singleton.
Qed.

Lemma jq_step_inv s s' : jq_inv s → jq_step s s' → jq_inv s'.
Proof.
  intros Hinv Hstep.
  destruct Hstep as [s job Hb|s job prev b a Hp|s b a Hp|s jq Hne|s gq jq Hpop|s e late b a He].
  - by apply push_count_inv.
  - by apply push_append_inv.
  - by apply push_register_inv.
  - destruct Hinv as [Ht Hc Hf Hn]. constructor; simpl; try done.
    rewrite <-Ht. unfold tokens, GlobalQueue.Push. simpl.
    by rewrite filter_app, filter_cons_False, filter_nil, app_nil_r by done.
  - destruct Hinv as [Ht Hc Hf Hn]. unfold GlobalQueue.TryPop in Hpop.
    destruct (global_queue s) as [|jq' q] eqn:Hq; simplify_eq/=.
    unfold tokens in Ht. rewrite Hq in Ht. rewrite filter_cons in Ht.
    case_decide; [|by constructor; simpl; rewrite ?app_nil_r].
    constructor; simpl.
    + rewrite <-Ht. unfold tokens. simpl. rewrite zlen_app, !zlen_cons, zlen_nil. lia.
    + rewrite Hc. f_equal. clear. induction (executors s); simpl; lia.
    + unfold todo. rewrite map_app, concat_app. simpl. by rewrite app_nil_r.
    + apply Forall_app. split; [done|]. by apply Forall_singleton.
  - by apply exec_inv.
Qed.

Lemma jq_reachable s : steps jq_step JobQueue_new s → jq_inv s.
Proof. apply steps_invariant; [apply jq_step_inv|apply tokens_new]. Qed.

(** Running a batch to its end without a deadline. *)
Lemma Execute_run_batch l n s k :
  executors s = [Running l n] → l ≠ [] → job_count_ s = n + zlen l →
  (length l + 2 ≤ k)%nat →
  Execute_run k s =
    Some (mkJq 0 (jobs_ s) (global_queue s) (pushers s) [] (appended s) (executed s ++ l)).
Proof.
  revert n s k. induction l as [|j l IH]; intros n s k He Hne Hc Hk; [done|].
  destruct k as [|k]; simpl in *; [lia|]. rewrite He. rewrite zlen_cons in Hc.
  destruct l as [|j' l].
  - destruct k as [|[|k]]; simpl in *; try lia. unfold exec_apply. simpl.
    rewrite Hc, zlen_nil, (proj2 (Z.leb_le _ 0)) by lia. simpl. do 2 f_equal. lia.
  - unfold exec_apply, exec_step. rewrite (IH (n + 1)).
    + simpl. by rewrite <-app_assoc.
    + done.
    + done.
    + simpl. rewrite Hc. lia.
    + simpl in *. lia.
Qed.

Lemma Execute_run_all s k :
  jq_inv s → pushers s = [] → executors s = [Top] → (length (jobs_ s) + 3 ≤ k)%nat →
  Execute_run k s =
    Some (mkJq 0 [] (global_queue s) [] [] (appended s) (appended s)).
Proof.
  intros Hinv Hp He Hk. pose proof (inv_one_executor s Hinv) as [_ Hpos].
  specialize (Hpos ltac:(by rewrite He)). destruct Hinv as [_ Hc Hf _].
  rewrite Hp, He in *. unfold todo in Hf. simpl in Hf, Hc.
  change (zlen (filter (λ p : pusher J, is_counted p = true) [])) with 0 in Hc.
  destruct k as [|k]; [lia|]. simpl. rewrite He. unfold exec_apply, exec_step.
  destruct (jobs_ s) as [|j l] eqn:Hj; [unfold zlen in Hc; simpl in Hc; lia|].
  rewrite (Execute_run_batch (j :: l) 0); simpl; try done.
  - by rewrite Hf, Hp.
  - simpl in Hk. lia.
Qed.
End Facts.

(** ** Correctness *)

Section Theorems.
Context {J : Type}.
Implicit Types (s : jq_state J).

(** Under every interleaving of pushing and executing threads, at most one
    thread is inside [Execute] for a given job queue at any time, and the jobs
    run so far are a prefix of the jobs in the order they entered the queue,
    also across batches cut short by the deadline. *)
Theorem job_queue_serialized s :
  steps jq_step JobQueue_new s →
  (length (executors s) ≤ 1)%nat ∧ executed s `prefix_of` appended s.
Proof.
  intros Hr. pose proof (jq_reachable s Hr) as Hinv. split.
  - destruct (inv_one_executor s Hinv) as [[-> | [e ->]] _]; simpl; lia.
  - destruct Hinv as [_ _ Hf _]. by eexists.
Qed.

(** C8: A job queue is never lost and never scheduled twice: while jobs are
    outstanding there is exactly one of an entry in the global queue, a thread
    executing it, and a pusher about to register it; otherwise there is none. *)
Theorem job_queue_one_token s :
  steps jq_step JobQueue_new s →
  zlen (filter (λ jq, jq = this) (global_queue s)) + zlen (executors s)
    + zlen (filter (λ p, registers p = true) (pushers s))
  = (if 0 <? job_count_ s then 1 else 0) ∧
  (jobs_ s ≠ [] ∨ pushers s = [] ∧ executed s ≠ appended s → 0 < job_count_ s).
Proof.
  intros Hr. pose proof (jq_reachable s Hr) as Hinv. split; [apply Hinv|].
  pose proof (inv_one_executor s Hinv) as [Hone Hpos].
  destruct (decide (executors s = [])) as [He|He]; [|auto].
  destruct Hinv as [_ Hc Hf _]. rewrite He in *. unfold todo in Hf. simpl in *.
  pose proof (zlen_nonneg (filter (λ p, is_counted p = true) (pushers s))).
  assert (jobs_ s ≠ [] → 0 < zlen (jobs_ s)) as Hj.
  { destruct (jobs_ s); [done|]. rewrite zlen_cons. pose proof (zlen_nonneg l). lia. }
  intros [?|[Hp Hne]]; [specialize (Hj ltac:(done)); lia|].
  destruct (jobs_ s) eqn:E; [by rewrite app_nil_r in Hf|]. specialize (Hj ltac:(done)). lia.
Qed.

(** When no thread is inside [Push], a worker that takes the queue from
    the global queue and calls [Execute()] terminates having run every job
    pushed so far, in order, with the count back at 0. *)
Theorem Execute_runs_all s gq k :
  steps jq_step JobQueue_new s → pushers s = [] → executors s = [] →
  GlobalQueue.TryPop (global_queue s) = (gq, Some this) →
  (length (jobs_ s) + 3 ≤ k)%nat →
  ∃ s', Execute_run k (mkJq (job_count_ s) (jobs_ s) gq [] [Top] (appended s) (executed s))
      = Some s' ∧
    executed s' = appended s ∧ jobs_ s' = [] ∧ job_count_ s' = 0 ∧ executors s' = [].
Proof.
  intros Hr Hp He Hpop Hk. set (s1 := mkJq _ _ _ _ _ _ _).
  assert (jq_inv s1) as Hinv.
  { eapply jq_step_inv; [by apply jq_reachable|]. pose proof (step_pop s gq this Hpop) as Hs.
    rewrite Hp, He in Hs. exact Hs. }
  rewrite (Execute_run_all s1 k) by done. eexists. split; [done|]. done.
Qed.
End Theorems.

(** Two pushes, the second inside the window of the first. *)
Definition sample_run : jq_state nat :=
  let s := push_count (push_count JobQueue_new 1%nat) 2%nat in
  let s := push_append s 2%nat 1 [Counted 1%nat 0] [] in
  let s := push_append s 1%nat 0 [] [] in
  push_register s [] [].

Lemma sample_run_steps : steps jq_step JobQueue_new sample_run.
Proof.
  eapply steps_cons; [apply (step_count _ 1%nat); done|].
  eapply steps_cons; [apply (step_count _ 2%nat); done|].
  eapply steps_cons; [by apply (step_append _ 2%nat 1 [Counted 1%nat 0] [])|].
  eapply steps_cons; [by apply (step_append _ 1%nat 0 [] [])|].
  eapply steps_cons; [by apply (step_register _ [] [])|]. apply steps_refl.
Qed.

Lemma job_queue_serialized_witness :
  (length (executors sample_run) ≤ 1)%nat ∧ executed sample_run `prefix_of` appended sample_run.
Proof. apply job_queue_serialized. apply sample_run_steps. Defined.

Lemma job_queue_one_token_witness :
  zlen (filter (λ jq, jq = this) (global_queue sample_run)) + zlen (executors sample_run)
    + zlen (filter (λ p, registers p = true) (pushers sample_run)) = 1.
Proof. exact (proj1 (job_queue_one_token sample_run sample_run_steps)). Defined.

Lemma Execute_runs_all_witness :
  ∃ s', Execute_run 5 (mkJq 2 [2%nat; 1%nat] [] [] [Top] [2%nat; 1%nat] []) = Some s' ∧
    executed s' = [2%nat; 1%nat] ∧ jobs_ s' = [] ∧ job_count_ s' = 0 ∧ executors s' = [].
Proof.
  apply (Execute_runs_all sample_run [] 5 sample_run_steps); (reflexivity || simpl; lia).
Defined.

(** ** The job timer *)

Module JobTimer.
Section Timer.
Context {J : Type}.

(** Source: include/iouring_runtime/core/JobTimer.h:14-22, ReservedJob.
    The target is the identity its [weak_ptr] refers to. *)
Record ReservedJob := mkReserved {
  execute_at : Z;
  target : nat;
  job : J;
}.

(** Source: src/runtime/job/JobTimer.cpp:5-14, JobTimer::Reserve. *)
Definition Reserve (queue_ : list ReservedJob) (now delay : Z) (target : nat) (job : J)
    : list ReservedJob :=
  mkReserved (now + delay) target job :: queue_.

(** [top()] and [pop()] of the [priority_queue]: an entry with the least time,
    and the others. *)
Fixpoint pop_top (queue_ : list ReservedJob) : option (ReservedJob * list ReservedJob) :=
  match queue_ with
  | [] => None
  | r :: q =>
    match pop_top q with
    | Some (m, q') => if execute_at m <? execute_at r then Some (m, r :: q') else Some (r, q)
    | None => Some (r, [])
    end
  end.

(** Source: src/runtime/job/JobTimer.cpp:16-26, JobTimer::DistributeExpired.
    The entries left and the pushes made, in order; [alive] tells whether a
    target's [lock()] succeeds.  Each round removes an entry, so the number of
    entries bounds the rounds. *)
Fixpoint DistributeExpired (fuel : nat) (queue_ : list ReservedJob) (now : Z)
    (alive : nat → bool) : list ReservedJob * list (nat * J) :=
  match fuel with
  | O => (queue_, [])
  | S fuel =>
    match pop_top queue_ with
    | None => (queue_, [])
    | Some (rj, rest) =>
      if execute_at rj <=? now then
        let '(q, pushes) := DistributeExpired fuel rest now alive in
        (q, (if alive (target rj) then [(target rj, job rj)] else []) ++ pushes)
      else (queue_, [])
    end
  end.

(** The pushes for a list of expired entries. *)
Definition pushes_of (alive : nat → bool) (l : list ReservedJob) : list (nat * J) :=
  concat (map (λ r, if alive (target r) then [(target r, job r)] else []) l).

Lemma pop_top_spec q :
  match pop_top q with
  | None => q = []
  | Some (m, q') => q ≡ₚ m :: q' ∧ Forall (λ r, execute_at m ≤ execute_at r) q'
  end.
Proof.
  induction q as [|r q IH]; simpl; [done|].
  destruct (pop_top q) as [[m q']|]; [|by subst].
  destruct IH as [Hp Hmin]. destruct (Z.ltb_spec (execute_at m) (execute_at r)).
  - split; [rewrite Hp; apply Permutation_swap|]. constructor; [lia|done].
  - split; [done|]. rewrite Hp. constructor; [lia|].
    eapply Forall_impl; [exact Hmin|]. intros x. simpl. lia.
Qed.

(** [DistributeExpired] moves exactly the entries whose time has come, in
    order of their times, to the targets that still exist, drops the expired
    entries of dead targets, and keeps all others. *)
Theorem DistributeExpired_spec queue_ now alive :
  ∃ expired rest,
    DistributeExpired (length queue_) queue_ now alive = (rest, pushes_of alive expired) ∧
    queue_ ≡ₚ expired ++ rest ∧
    Forall (λ r, execute_at r ≤ now) expired ∧ Forall (λ r, now < execute_at r) rest ∧
    StronglySorted (λ a b, execute_at a ≤ execute_at b) expired.
Proof.
  remember (length queue_) as n eqn:Hn. revert queue_ Hn.
  induction n as [|n IH]; intros q Hn; simpl.
  { destruct q; [|done]. exists [], []. split_and!; constructor. }
  pose proof (pop_top_spec q) as Hspec. destruct (pop_top q) as [[m q']|]; [|by subst].
  destruct Hspec as [Hp Hmin]. destruct (Z.leb_spec (execute_at m) now).
  - apply Permutation_length in Hp as Hl. simpl in Hl.
    destruct (IH q') as (ex&rest&->&Hq'&He&Hr&Hs); [lia|].
    exists (m :: ex), rest. split; [done|]. split; [by rewrite Hp, Hq'|].
    split; [by constructor|]. split; [done|]. constructor; [done|].
    rewrite Hq' in Hmin. by apply Forall_app in Hmin as [? _].
  - exists [], q. split; [done|]. split; [done|]. split; [constructor|].
    split; [|constructor]. rewrite Hp. constructor; [done|].
    eapply Forall_impl; [exact Hmin|]. intros x. simpl. lia.
Qed.
End Timer.
Arguments ReservedJob : clear implicits.
End JobTimer.
