(* ===== verification/Session.v ===== *)
(** * Connections: the session state machine

    Models [src/runtime/io/Session.cpp], [SessionSend.cpp] and the headers
    [Session.h], [SessionDetail.h] and [SessionControl.h]: the life of one TCP
    connection on its owner thread.  Receives are multishot, sends are batched
    from the send queue, and a session is released only when the kernel owes it
    no completion.

    The state is the session object together with its side of the ring: the
    operations in flight, the bytes the peer's socket has taken ([wire]) and
    delivered to us ([received]), the provided buffers handed back
    ([returned]), and histories of what the application was told.

    The application is arbitrary: inside a callback it may call the session's
    interface any number of times, depending on everything it has seen so far
    ([app], a function of the event log).  Each operation takes the runner of
    callbacks as an argument ([cb]), and [run_cb] ties the knot with fuel for
    the nesting and number of such calls; the theorems of SessionProofs.v hold
    for all fuel, and [session_total] there shows that finitely active
    applications never exhaust it.

    What the environment decides is a function of the number of questions asked
    so far ([consults]): whether an allocation or a submission entry is
    available, the clock, and the results of [HasPendingAppWork] and
    [OnTimeoutTick].  All calls are on the owner thread; a call from another
    thread is posted to it and is a separate step there. *)

From S2P Require Import Prelude Types SendQueue.

#[local] Open Scope Z_scope.
#[local] Open Scope cxx_scope.

(** ** Helpers of SessionDetail.h *)

Module detail.
(** The loop counting whole iovecs: how many are consumed, what is left. *)
Fixpoint count_consumed (iovs : list bytes) (advanced : Z) : nat * Z :=
  match iovs with
  | [] => (0%nat, advanced)
  | iov :: iovs =>
    if zlen iov <=? advanced
    then let '(n, r) := count_consumed iovs (advanced - zlen iov) in (S n, r)
    else (0%nat, advanced)
  end.

(** Source: include/iouring_runtime/core/SessionDetail.h:15-32, AdvanceSendState.
    An iovec is the bytes it still covers. *)
Definition AdvanceSendState {A} (iovs : list bytes) (bufs : list A) (advanced : Z)
    : list bytes * list A :=
  let '(consumed, advanced) := count_consumed iovs advanced in
  let iovs := drop consumed iovs in
  let bufs := drop consumed bufs in
  match iovs with
  | front :: rest =>
    if 0 <? advanced then (zdrop advanced front :: rest, bufs) else (iovs, bufs)
  | [] => (iovs, bufs)
  end.

Definition ECONNRESET : Z := 104.
Definition EPIPE : Z := 32.
Definition ENOTCONN : Z := 107.
Definition ESHUTDOWN : Z := 108.
Definition ENOBUFS : Z := 105.

(** Source: include/iouring_runtime/core/SessionDetail.h:34-51, IsExpectedDisconnectResult. *)
Definition IsExpectedDisconnectResult (result : Z) : bool :=
  if result =? 0 then true
  else if 0 <? result then false
  else (- result =? ECONNRESET) || (- result =? EPIPE) || (- result =? ENOTCONN)
       || (- result =? ESHUTDOWN).

(** Source: include/iouring_runtime/core/SessionDetail.h:53-73, DisconnectReasonForResult. *)
Definition DisconnectReasonForResult (result : Z) : string :=
  if result =? 0 then "PEER_CLOSE"
  else if 0 <? result then "OK"
  else if - result =? ECONNRESET then "CONNECTION_RESET"
  else if - result =? EPIPE then "BROKEN_PIPE"
  else if - result =? ENOTCONN then "NOT_CONNECTED"
  else if - result =? ESHUTDOWN then "SOCKET_SHUTDOWN"
  else "TRANSPORT_ERROR".
End detail.

(** ** Data *)

(** A send buffer with its bytes. *)
Class SendData (A : Type) `{Sized A} := {
  data_of : A → bytes;
  data_of_size a : zlen (data_of a) = size_of a;
}.

(** Source: include/iouring_runtime/core/Session.h:76-81, Session::SessionState. *)
Inductive SessionState := kOpen | kClosing | kDraining | kClosed.

#[export] Instance SessionState_eq_dec : EqDecision SessionState.
Proof. solve_decision. Defined.

(** Source: src/runtime/io/SessionSend.cpp:18-18, kMaxSendIovecs. *)
Definition kMaxSendIovecs : Z := 1024.

(** What [Dispatch] tells the ring: keep the operation or delete it. *)
Inductive DispatchResult := kPending | kComplete.

#[export] Instance DispatchResult_eq_dec : EqDecision DispatchResult.
Proof. solve_decision. Defined.

(** Source: include/iouring_runtime/core/Session.h:128-140, Session.
    The limits [SessionControl] sets before the session starts. *)
Record config := mkConfig {
  send_queue_high_watermark_ : Z;
  send_queue_low_watermark_ : Z;
  send_queue_high_bytes_ : Z;
  send_queue_low_bytes_ : Z;
  backpressure_disconnect_delay_ : Z;
  paused_recv_byte_limit_ : Z;
  pause_recv_on_backpressure_ : bool;
  disconnect_on_high_watermark_ : bool;
}.

Section Session.
Context {A : Type} `{SendData A}.

(** Source: include/iouring_runtime/core/Session.h:145-195, Session::RecvOp.
    An operation the kernel still has to complete. *)
Inductive op :=
| RecvOp
| SendOp (iovecs : list bytes) (bufs : list (option A))
| DisconnectOp
| CancelOp (target : nat).

(** Source: include/iouring_runtime/core/Session.h:52-58, Session::OnRecv.
    The virtual methods of the application. *)
Inductive callback :=
| OnRecv (data : bytes)
| OnConnected
| OnDisconnected
| OnTimeoutTick (now : Z)
| OnSocketDrained
| OnBackpressure (active : bool).

(** What the application may call on its session. *)
Inductive api :=
| Send (buf : A)
| Disconnect
| DisconnectAfterFlush
| BeginAppIo
| EndAppIo
| PauseRecv
| ResumeRecv
| SetTimeoutCheckInterval (interval : Z)
| SetInactivityTimeout (timeout : Z).

Inductive event :=
| EvCallback (c : callback)
| EvCall (a : api) (r : expected unit IoError).

(** Source: include/iouring_runtime/core/Session.h:114-140, Session.
    The members of the session, then the ring's and the peer's side.  The counters
    [pending_io_] and [pending_app_io_] ([int] there) and the times are unbounded. *)
Record world := mkWorld {
  state_ : SessionState;
  pending_io_ : Z;
  pending_app_io_ : Z;
  send_queue_ : send_queue A;
  active_recv_ev_ : option nat;
  active_send_ev_ : option nat;
  last_activity_ : Z;
  last_backpressure_high_ : Z;
  next_timeout_check_ : Z;
  inactivity_timeout_ : Z;
  timeout_check_interval_ : Z;
  paused_recv_bytes_ : Z;
  paused_recv_queue_ : list bytes;
  disconnect_after_flush_ : bool;
  recv_paused_ : bool;
  backpressure_active_ : bool;
  inflight : gmap nat op;
  next_op : nat;
  wire : bytes;
  accepted_bufs : list A;
  received : bytes;
  delivered : bytes;
  returned : list Z;
  on_disconnected : nat;
  released : nat;
  consults : nat;
  log : list event;
}.

Definition set_state (v : SessionState) (w : world) : world :=
  mkWorld v (pending_io_ w) (pending_app_io_ w) (send_queue_ w) (active_recv_ev_ w)
    (active_send_ev_ w) (last_activity_ w) (last_backpressure_high_ w)
    (next_timeout_check_ w) (inactivity_timeout_ w) (timeout_check_interval_ w)
    (paused_recv_bytes_ w) (paused_recv_queue_ w) (disconnect_after_flush_ w)
    (recv_paused_ w) (backpressure_active_ w) (inflight w) (next_op w) (wire w)
    (accepted_bufs w) (received w) (delivered w) (returned w) (on_disconnected w)
    (released w) (consults w) (log w).

Definition set_pending_io (v : Z) (w : world) : world :=
  mkWorld (state_ w) v (pending_app_io_ w) (send_queue_ w) (active_recv_ev_ w)
    (active_send_ev_ w) (last_activity_ w) (last_backpressure_high_ w)
    (next_timeout_check_ w) (inactivity_timeout_ w) (timeout_check_interval_ w)
    (paused_recv_bytes_ w) (paused_recv_queue_ w) (disconnect_after_flush_ w)
    (recv_paused_ w) (backpressure_active_ w) (inflight w) (next_op w) (wire w)
    (accepted_bufs w) (received w) (delivered w) (returned w) (on_disconnected w)
    (released w) (consults w) (log w).

Definition set_pending_app_io (v : Z) (w : world) : world :=
  mkWorld (state_ w) (pending_io_ w) v (send_queue_ w) (active_recv_ev_ w)
    (active_send_ev_ w) (last_activity_ w) (last_backpressure_high_ w)
    (next_timeout_check_ w) (inactivity_timeout_ w) (timeout_check_interval_ w)
    (paused_recv_bytes_ w) (paused_recv_queue_ w) (disconnect_after_flush_ w)
    (recv_paused_ w) (backpressure_active_ w) (inflight w) (next_op w) (wire w)
    (accepted_bufs w) (received w) (delivered w) (returned w) (on_disconnected w)
    (released w) (consults w) (log w).

Definition set_send_queue (v : send_queue A) (w : world) : world :=
  mkWorld (state_ w) (pending_io_ w) (pending_app_io_ w) v (active_recv_ev_ w)
    (active_send_ev_ w) (last_activity_ w) (last_backpressure_high_ w)
    (next_timeout_check_ w) (inactivity_timeout_ w) (timeout_check_interval_ w)
    (paused_recv_bytes_ w) (paused_recv_queue_ w) (disconnect_after_flush_ w)
    (recv_paused_ w) (backpressure_active_ w) (inflight w) (next_op w) (wire w)
    (accepted_bufs w) (received w) (delivered w) (returned w) (on_disconnected w)
    (released w) (consults w) (log w).

Definition set_active_recv_ev (v : option nat) (w : world) : world :=
  mkWorld (state_ w) (pending_io_ w) (pending_app_io_ w) (send_queue_ w) v
    (active_send_ev_ w) (last_activity_ w) (last_backpressure_high_ w)
    (next_timeout_check_ w) (inactivity_timeout_ w) (timeout_check_interval_ w)
    (paused_recv_bytes_ w) (paused_recv_queue_ w) (disconnect_after_flush_ w)
    (recv_paused_ w) (backpressure_active_ w) (inflight w) (next_op w) (wire w)
    (accepted_bufs w) (received w) (delivered w) (returned w) (on_disconnected w)
    (released w) (consults w) (log w).

Definition set_active_send_ev (v : option nat) (w : world) : world :=
  mkWorld (state_ w) (pending_io_ w) (pending_app_io_ w) (send_queue_ w)
    (active_recv_ev_ w) v (last_activity_ w) (last_backpressure_high_ w)
    (next_timeout_check_ w) (inactivity_timeout_ w) (timeout_check_interval_ w)
    (paused_recv_bytes_ w) (paused_recv_queue_ w) (disconnect_after_flush_ w)
    (recv_paused_ w) (backpressure_active_ w) (inflight w) (next_op w) (wire w)
    (accepted_bufs w) (received w) (delivered w) (returned w) (on_disconnected w)
    (released w) (consults w) (log w).

Definition set_last_activity (v : Z) (w : world) : world :=
  mkWorld (state_ w) (pending_io_ w) (pending_app_io_ w) (send_queue_ w)
    (active_recv_ev_ w) (active_send_ev_ w) v (last_backpressure_high_ w)
    (next_timeout_check_ w) (inactivity_timeout_ w) (timeout_check_interval_ w)
    (paused_recv_bytes_ w) (paused_recv_queue_ w) (disconnect_after_flush_ w)
    (recv_paused_ w) (backpressure_active_ w) (inflight w) (next_op w) (wire w)
    (accepted_bufs w) (received w) (delivered w) (returned w) (on_disconnected w)
    (released w) (consults w) (log w).

Definition set_last_backpressure_high (v : Z) (w : world) : world :=
  mkWorld (state_ w) (pending_io_ w) (pending_app_io_ w) (send_queue_ w)
    (active_recv_ev_ w) (active_send_ev_ w) (last_activity_ w) v (next_timeout_check_ w)
    (inactivity_timeout_ w) (timeout_check_interval_ w) (paused_recv_bytes_ w)
    (paused_recv_queue_ w) (disconnect_after_flush_ w) (recv_paused_ w)
    (backpressure_active_ w) (inflight w) (next_op w) (wire w) (accepted_bufs w)
    (received w) (delivered w) (returned w) (on_disconnected w) (released w)
    (consults w) (log w).

Definition set_next_timeout_check (v : Z) (w : world) : world :=
  mkWorld (state_ w) (pending_io_ w) (pending_app_io_ w) (send_queue_ w)
    (active_recv_ev_ w) (active_send_ev_ w) (last_activity_ w)
    (last_backpressure_high_ w) v (inactivity_timeout_ w) (timeout_check_interval_ w)
    (paused_recv_bytes_ w) (paused_recv_queue_ w) (disconnect_after_flush_ w)
    (recv_paused_ w) (backpressure_active_ w) (inflight w) (next_op w) (wire w)
    (accepted_bufs w) (received w) (delivered w) (returned w) (on_disconnected w)
    (released w) (consults w) (log w).

Definition set_inactivity_timeout (v : Z) (w : world) : world :=
  mkWorld (state_ w) (pending_io_ w) (pending_app_io_ w) (send_queue_ w)
    (active_recv_ev_ w) (active_send_ev_ w) (last_activity_ w)
    (last_backpressure_high_ w) (next_timeout_check_ w) v (timeout_check_interval_ w)
    (paused_recv_bytes_ w) (paused_recv_queue_ w) (disconnect_after_flush_ w)
    (recv_paused_ w) (backpressure_active_ w) (inflight w) (next_op w) (wire w)
    (accepted_bufs w) (received w) (delivered w) (returned w) (on_disconnected w)
    (released w) (consults w) (log w).

Definition set_timeout_check_interval (v : Z) (w : world) : world :=
  mkWorld (state_ w) (pending_io_ w) (pending_app_io_ w) (send_queue_ w)
    (active_recv_ev_ w) (active_send_ev_ w) (last_activity_ w)
    (last_backpressure_high_ w) (next_timeout_check_ w) (inactivity_timeout_ w) v
    (paused_recv_bytes_ w) (paused_recv_queue_ w) (disconnect_after_flush_ w)
    (recv_paused_ w) (backpressure_active_ w) (inflight w) (next_op w) (wire w)
    (accepted_bufs w) (received w) (delivered w) (returned w) (on_disconnected w)
    (released w) (consults w) (log w).

Definition set_paused_recv_bytes (v : Z) (w : world) : world :=
  mkWorld (state_ w) (pending_io_ w) (pending_app_io_ w) (send_queue_ w)
    (active_recv_ev_ w) (active_send_ev_ w) (last_activity_ w)
    (last_backpressure_high_ w) (next_timeout_check_ w) (inactivity_timeout_ w)
    (timeout_check_interval_ w) v (paused_recv_queue_ w) (disconnect_after_flush_ w)
    (recv_paused_ w) (backpressure_active_ w) (inflight w) (next_op w) (wire w)
    (accepted_bufs w) (received w) (delivered w) (returned w) (on_disconnected w)
    (released w) (consults w) (log w).

Definition set_paused_recv_queue (v : list bytes) (w : world) : world :=
  mkWorld (state_ w) (pending_io_ w) (pending_app_io_ w) (send_queue_ w)
    (active_recv_ev_ w) (active_send_ev_ w) (last_activity_ w)
    (last_backpressure_high_ w) (next_timeout_check_ w) (inactivity_timeout_ w)
    (timeout_check_interval_ w) (paused_recv_bytes_ w) v (disconnect_after_flush_ w)
    (recv_paused_ w) (backpressure_active_ w) (inflight w) (next_op w) (wire w)
    (accepted_bufs w) (received w) (delivered w) (returned w) (on_disconnected w)
    (released w) (consults w) (log w).

Definition set_disconnect_after_flush (v : bool) (w : world) : world :=
  mkWorld (state_ w) (pending_io_ w) (pending_app_io_ w) (send_queue_ w)
    (active_recv_ev_ w) (active_send_ev_ w) (last_activity_ w)
    (last_backpressure_high_ w) (next_timeout_check_ w) (inactivity_timeout_ w)
    (timeout_check_interval_ w) (paused_recv_bytes_ w) (paused_recv_queue_ w) v
    (recv_paused_ w) (backpressure_active_ w) (inflight w) (next_op w) (wire w)
    (accepted_bufs w) (received w) (delivered w) (returned w) (on_disconnected w)
    (released w) (consults w) (log w).

Definition set_recv_paused (v : bool) (w : world) : world :=
  mkWorld (state_ w) (pending_io_ w) (pending_app_io_ w) (send_queue_ w)
    (active_recv_ev_ w) (active_send_ev_ w) (last_activity_ w)
    (last_backpressure_high_ w) (next_timeout_check_ w) (inactivity_timeout_ w)
    (timeout_check_interval_ w) (paused_recv_bytes_ w) (paused_recv_queue_ w)
    (disconnect_after_flush_ w) v (backpressure_active_ w) (inflight w) (next_op w)
    (wire w) (accepted_bufs w) (received w) (delivered w) (returned w)
    (on_disconnected w) (released w) (consults w) (log w).

Definition set_backpressure_active (v : bool) (w : world) : world :=
  mkWorld (state_ w) (pending_io_ w) (pending_app_io_ w) (send_queue_ w)
    (active_recv_ev_ w) (active_send_ev_ w) (last_activity_ w)
    (last_backpressure_high_ w) (next_timeout_check_ w) (inactivity_timeout_ w)
    (timeout_check_interval_ w) (paused_recv_bytes_ w) (paused_recv_queue_ w)
    (disconnect_after_flush_ w) (recv_paused_ w) v (inflight w) (next_op w) (wire w)
    (accepted_bufs w) (received w) (delivered w) (returned w) (on_disconnected w)
    (released w) (consults w) (log w).

Definition set_inflight (v : gmap nat op) (w : world) : world :=
  mkWorld (state_ w) (pending_io_ w) (pending_app_io_ w) (send_queue_ w)
    (active_recv_ev_ w) (active_send_ev_ w) (last_activity_ w)
    (last_backpressure_high_ w) (next_timeout_check_ w) (inactivity_timeout_ w)
    (timeout_check_interval_ w) (paused_recv_bytes_ w) (paused_recv_queue_ w)
    (disconnect_after_flush_ w) (recv_paused_ w) (backpressure_active_ w) v (next_op w)
    (wire w) (accepted_bufs w) (received w) (delivered w) (returned w)
    (on_disconnected w) (released w) (consults w) (log w).

Definition set_next_op (v : nat) (w : world) : world :=
  mkWorld (state_ w) (pending_io_ w) (pending_app_io_ w) (send_queue_ w)
    (active_recv_ev_ w) (active_send_ev_ w) (last_activity_ w)
    (last_backpressure_high_ w) (next_timeout_check_ w) (inactivity_timeout_ w)
    (timeout_check_interval_ w) (paused_recv_bytes_ w) (paused_recv_queue_ w)
    (disconnect_after_flush_ w) (recv_paused_ w) (backpressure_active_ w) (inflight w) v
    (wire w) (accepted_bufs w) (received w) (delivered w) (returned w)
    (on_disconnected w) (released w) (consults w) (log w).

Definition set_wire (v : bytes) (w : world) : world :=
  mkWorld (state_ w) (pending_io_ w) (pending_app_io_ w) (send_queue_ w)
    (active_recv_ev_ w) (active_send_ev_ w) (last_activity_ w)
    (last_backpressure_high_ w) (next_timeout_check_ w) (inactivity_timeout_ w)
    (timeout_check_interval_ w) (paused_recv_bytes_ w) (paused_recv_queue_ w)
    (disconnect_after_flush_ w) (recv_paused_ w) (backpressure_active_ w) (inflight w)
    (next_op w) v (accepted_bufs w) (received w) (delivered w) (returned w)
    (on_disconnected w) (released w) (consults w) (log w).

Definition set_accepted_bufs (v : list A) (w : world) : world :=
  mkWorld (state_ w) (pending_io_ w) (pending_app_io_ w) (send_queue_ w)
    (active_recv_ev_ w) (active_send_ev_ w) (last_activity_ w)
    (last_backpressure_high_ w) (next_timeout_check_ w) (inactivity_timeout_ w)
    (timeout_check_interval_ w) (paused_recv_bytes_ w) (paused_recv_queue_ w)
    (disconnect_after_flush_ w) (recv_paused_ w) (backpressure_active_ w) (inflight w)
    (next_op w) (wire w) v (received w) (delivered w) (returned w) (on_disconnected w)
    (released w) (consults w) (log w).

Definition set_received (v : bytes) (w : world) : world :=
  mkWorld (state_ w) (pending_io_ w) (pending_app_io_ w) (send_queue_ w)
    (active_recv_ev_ w) (active_send_ev_ w) (last_activity_ w)
    (last_backpressure_high_ w) (next_timeout_check_ w) (inactivity_timeout_ w)
    (timeout_check_interval_ w) (paused_recv_bytes_ w) (paused_recv_queue_ w)
    (disconnect_after_flush_ w) (recv_paused_ w) (backpressure_active_ w) (inflight w)
    (next_op w) (wire w) (accepted_bufs w) v (delivered w) (returned w)
    (on_disconnected w) (released w) (consults w) (log w).

Definition set_delivered (v : bytes) (w : world) : world :=
  mkWorld (state_ w) (pending_io_ w) (pending_app_io_ w) (send_queue_ w)
    (active_recv_ev_ w) (active_send_ev_ w) (last_activity_ w)
    (last_backpressure_high_ w) (next_timeout_check_ w) (inactivity_timeout_ w)
    (timeout_check_interval_ w) (paused_recv_bytes_ w) (paused_recv_queue_ w)
    (disconnect_after_flush_ w) (recv_paused_ w) (backpressure_active_ w) (inflight w)
    (next_op w) (wire w) (accepted_bufs w) (received w) v (returned w)
    (on_disconnected w) (released w) (consults w) (log w).

Definition set_returned (v : list Z) (w : world) : world :=
  mkWorld (state_ w) (pending_io_ w) (pending_app_io_ w) (send_queue_ w)
    (active_recv_ev_ w) (active_send_ev_ w) (last_activity_ w)
    (last_backpressure_high_ w) (next_timeout_check_ w) (inactivity_timeout_ w)
    (timeout_check_interval_ w) (paused_recv_bytes_ w) (paused_recv_queue_ w)
    (disconnect_after_flush_ w) (recv_paused_ w) (backpressure_active_ w) (inflight w)
    (next_op w) (wire w) (accepted_bufs w) (received w) (delivered w) v
    (on_disconnected w) (released w) (consults w) (log w).

Definition set_on_disconnected (v : nat) (w : world) : world :=
  mkWorld (state_ w) (pending_io_ w) (pending_app_io_ w) (send_queue_ w)
    (active_recv_ev_ w) (active_send_ev_ w) (last_activity_ w)
    (last_backpressure_high_ w) (next_timeout_check_ w) (inactivity_timeout_ w)
    (timeout_check_interval_ w) (paused_recv_bytes_ w) (paused_recv_queue_ w)
    (disconnect_after_flush_ w) (recv_paused_ w) (backpressure_active_ w) (inflight w)
    (next_op w) (wire w) (accepted_bufs w) (received w) (delivered w) (returned w) v
    (released w) (consults w) (log w).

Definition set_released (v : nat) (w : world) : world :=
  mkWorld (state_ w) (pending_io_ w) (pending_app_io_ w) (send_queue_ w)
    (active_recv_ev_ w) (active_send_ev_ w) (last_activity_ w)
    (last_backpressure_high_ w) (next_timeout_check_ w) (inactivity_timeout_ w)
    (timeout_check_interval_ w) (paused_recv_bytes_ w) (paused_recv_queue_ w)
    (disconnect_after_flush_ w) (recv_paused_ w) (backpressure_active_ w) (inflight w)
    (next_op w) (wire w) (accepted_bufs w) (received w) (delivered w) (returned w)
    (on_disconnected w) v (consults w) (log w).

Definition set_consults (v : nat) (w : world) : world :=
  mkWorld (state_ w) (pending_io_ w) (pending_app_io_ w) (send_queue_ w)
    (active_recv_ev_ w) (active_send_ev_ w) (last_activity_ w)
    (last_backpressure_high_ w) (next_timeout_check_ w) (inactivity_timeout_ w)
    (timeout_check_interval_ w) (paused_recv_bytes_ w) (paused_recv_queue_ w)
    (disconnect_after_flush_ w) (recv_paused_ w) (backpressure_active_ w) (inflight w)
    (next_op w) (wire w) (accepted_bufs w) (received w) (delivered w) (returned w)
    (on_disconnected w) (released w) v (log w).

Definition set_log (v : list event) (w : world) : world :=
  mkWorld (state_ w) (pending_io_ w) (pending_app_io_ w) (send_queue_ w)
    (active_recv_ev_ w) (active_send_ev_ w) (last_activity_ w)
    (last_backpressure_high_ w) (next_timeout_check_ w) (inactivity_timeout_ w)
    (timeout_check_interval_ w) (paused_recv_bytes_ w) (paused_recv_queue_ w)
    (disconnect_after_flush_ w) (recv_paused_ w) (backpressure_active_ w) (inflight w)
    (next_op w) (wire w) (accepted_bufs w) (received w) (delivered w) (returned w)
    (on_disconnected w) (released w) (consults w) v.

(** ** The environment *)

Record env := mkEnv {
  alloc_ok : nat → bool;
  sqe_ok : nat → bool;
  clock : nat → Z;
  app_pending : nat → bool;
  tick_handled : nat → bool;
  app : list event → option api;
}.

Context (cfg : config) (e : env).

Definition consult {B} (f : nat → B) (w : world) : B * world :=
  (f (consults w), set_consults (S (consults w)) w).

Definition inflight_add (o : op) (w : world) : nat * world :=
  (next_op w, set_next_op (S (next_op w)) (set_inflight (<[next_op w := o]> (inflight w)) w)).

(** ** State changes on the owner thread *)

(** Source: src/runtime/io/Session.cpp:23-25, Session::ClosingStarted. *)
Definition ClosingStarted (w : world) : bool := bool_decide (state_ w ≠ kOpen).

(** Source: src/runtime/io/Session.cpp:27-29, Session::CanUseOnOwner. *)
Definition CanUseOnOwner (w : world) : bool := bool_decide (state_ w = kOpen).

(** Source: src/runtime/io/Session.cpp:31-36, Session::TryBeginDisconnectOnOwner. *)
Definition TryBeginDisconnectOnOwner (w : world) : world * bool :=
  if decide (state_ w = kOpen) then (set_state kClosing w, true) else (w, false).

(** Source: src/runtime/io/Session.cpp:38-42, Session::MarkDrainingOnOwner. *)
Definition MarkDrainingOnOwner (w : world) : world :=
  if decide (state_ w = kClosing) then set_state kDraining w else w.

(** Source: src/runtime/io/Session.cpp:44-54, Session::TryMarkClosedOnOwner. *)
Definition TryMarkClosedOnOwner (w : world) : world * bool :=
  if decide (state_ w ≠ kOpen ∧ state_ w ≠ kClosed)
  then (set_state kClosed w, true) else (w, false).

(** Source: src/runtime/io/Session.cpp:83-85, Session::BeginPendingIo. *)
Definition BeginPendingIo (w : world) : world := set_pending_io (pending_io_ w + 1) w.

(** Source: src/runtime/io/Session.cpp:87-91, Session::CompletePendingIo. *)
Definition CompletePendingIo (w : world) : world :=
  if 0 <? pending_io_ w then set_pending_io (pending_io_ w - 1) w else w.

(** Source: src/runtime/io/Session.cpp:436-438, Session::TouchActivity. *)
Definition TouchActivity (w : world) : world :=
  let '(t, w) := consult (clock e) w in set_last_activity t w.

(** Source: src/runtime/io/Session.cpp:451-468, Session::QueuePausedRecv. *)
Definition QueuePausedRecv (data : bytes) (w : world) : world * bool :=
  if bool_decide (data = []) then (w, true) else
  let next_bytes := paused_recv_bytes_ w +₆₄ zlen data in
  if negb (paused_recv_byte_limit_ cfg =? 0) && (paused_recv_byte_limit_ cfg <? next_bytes)
  then (w, false)
  else (set_paused_recv_queue (paused_recv_queue_ w ++ [data])
          (set_paused_recv_bytes next_bytes w), true).

(** Source: src/runtime/io/SessionSend.cpp:173-179, Session::HighWatermarkReached. *)
Definition HighWatermarkReached (stats : Stats) : bool :=
  (negb (send_queue_high_watermark_ cfg =? 0) &&
   (send_queue_high_watermark_ cfg <=? st_current_depth stats)) ||
  (negb (send_queue_high_bytes_ cfg =? 0) &&
   (send_queue_high_bytes_ cfg <=? st_pending_bytes stats)).

(** Source: src/runtime/io/SessionSend.cpp:181-190, Session::LowWatermarkReached. *)
Definition LowWatermarkReached (stats : Stats) : bool :=
  let depth_low := (send_queue_high_watermark_ cfg =? 0) ||
    (st_current_depth stats <=? send_queue_low_watermark_ cfg) in
  let bytes_low := (send_queue_high_bytes_ cfg =? 0) ||
    (st_pending_bytes stats <=? send_queue_low_bytes_ cfg) in
  depth_low && bytes_low.

(** Source: src/runtime/io/Session.cpp:356-364, Session::SetTimeoutCheckInterval. *)
Definition do_SetTimeoutCheckInterval (interval : Z) (w : world) : world :=
  if interval <=? 0 then set_next_timeout_check 0 (set_timeout_check_interval 0 w) else
  let '(t, w) := consult (clock e) (set_timeout_check_interval interval w) in
  set_next_timeout_check (t + interval) w.

(** Source: src/runtime/io/Session.cpp:366-373, Session::SetInactivityTimeout. *)
Definition do_SetInactivityTimeout (timeout : Z) (w : world) : world :=
  let w := set_inactivity_timeout timeout w in
  if (0 <? timeout) && ((timeout_check_interval_ w =? 0) ||
                        (timeout <? timeout_check_interval_ w))
  then do_SetTimeoutCheckInterval (timeout `min` 1000) w else w.

(** ** Operations that call the application *)

Section Callbacks.
Variable cb : callback → world → option world.

(** Source: src/runtime/io/Session.cpp:276-289, Session::TryRelease. *)
Definition TryRelease (w : world) : option world :=
  if negb (ClosingStarted w) || negb (pending_io_ w =? 0) || negb (pending_app_io_ w =? 0)
  then Some w else
  let '(w, marked) := TryMarkClosedOnOwner w in
  if negb marked then Some w else
  w ← cb OnDisconnected (set_on_disconnected (S (on_disconnected w)) w);
  Some (set_released (S (released w)) w).

(** Source: src/runtime/io/Session.cpp:145-157, Session::DisconnectOnOwner.
    The best-effort cancellation of the multishot receive. *)
Definition CancelRecv (w : world) : world :=
  match active_recv_ev_ w with
  | None => w
  | Some target =>
    let '(allocated, w) := consult (alloc_ok e) w in
    if negb allocated then w else
    let w := BeginPendingIo w in
    let '(prepared, w) := consult (sqe_ok e) w in
    if prepared : bool then (inflight_add (CancelOp target) w).2 else CompletePendingIo w
  end.

(** Source: src/runtime/io/Session.cpp:122-162, Session::DisconnectOnOwner. *)
Definition DisconnectOnOwner (w : world) : option world :=
  let '(w, began) := TryBeginDisconnectOnOwner w in
  if negb began then Some w else
  let '(allocated, w) := consult (alloc_ok e) w in
  if negb allocated then TryRelease w else
  let w := BeginPendingIo w in
  let '(prepared, w) := consult (sqe_ok e) w in
  if negb prepared then TryRelease (CompletePendingIo w) else
  let w := (inflight_add DisconnectOp w).2 in
  let w := CancelRecv w in
  TryRelease (MarkDrainingOnOwner w).

(** Source: src/runtime/io/Session.cpp:440-449, Session::TryDisconnectAfterFlush. *)
Definition TryDisconnectAfterFlush (w : world) : option world :=
  if negb (disconnect_after_flush_ w) || negb (CanUseOnOwner w) then Some w else
  if bool_decide (active_send_ev_ w ≠ None) ||
     negb (st_current_depth (Snapshot (send_queue_ w)) =? 0) then Some w else
  let '(busy, w) := consult (app_pending e) w in
  if busy : bool then Some w else DisconnectOnOwner w.

(** Source: src/runtime/io/Session.cpp:114-120, Session::DisconnectAfterFlushOnOwner. *)
Definition DisconnectAfterFlushOnOwner (w : world) : option world :=
  if negb (CanUseOnOwner w) then Some w
  else TryDisconnectAfterFlush (set_disconnect_after_flush true w).

(** Source: src/runtime/io/Session.cpp:293-314, Session::RegisterRecv. *)
Definition RegisterRecv (w : world) : option world :=
  if negb (CanUseOnOwner w) || recv_paused_ w then Some w else
  if bool_decide (active_recv_ev_ w ≠ None) then Some w else
  let '(allocated, w) := consult (alloc_ok e) w in
  if negb allocated then DisconnectOnOwner w else
  let w := BeginPendingIo w in
  let '(prepared, w) := consult (sqe_ok e) w in
  if negb prepared then DisconnectOnOwner (CompletePendingIo w) else
  let '(i, w) := inflight_add RecvOp w in
  Some (set_active_recv_ev (Some i) w).

(** A call of the virtual [OnRecv(span)]. *)
Definition call_OnRecv (data : bytes) (w : world) : option world :=
  cb (OnRecv data) (set_delivered (delivered w ++ data) w).

(** Source: src/runtime/io/Session.cpp:470-477, Session::DrainPausedRecv.
    The queue only shrinks while the loop runs, so its length bounds it. *)
Fixpoint DrainPausedRecv_loop (fuel : nat) (w : world) : option world :=
  if CanUseOnOwner w && negb (recv_paused_ w) then
    match paused_recv_queue_ w, fuel with
    | [], _ => Some w
    | _, O => None
    | chunk :: rest, S fuel =>
      let w := set_paused_recv_queue rest w in
      let w := set_paused_recv_bytes (paused_recv_bytes_ w -₆₄ zlen chunk) w in
      w ← call_OnRecv chunk w;
      DrainPausedRecv_loop fuel w
    end
  else Some w.

Definition DrainPausedRecv (w : world) : option world :=
  DrainPausedRecv_loop (length (paused_recv_queue_ w)) w.

(** Source: src/runtime/io/SessionSend.cpp:192-226, Session::UpdateBackpressure. *)
Definition UpdateBackpressure (stats : Stats) (w : world) : option world :=
  if negb (backpressure_active_ w) then
    if negb (HighWatermarkReached stats) then Some w else
    let w := set_backpressure_active true w in
    let '(t, w) := consult (clock e) w in
    let w := set_last_backpressure_high t w in
    w ← cb (OnBackpressure true) w;
    let w := if pause_recv_on_backpressure_ cfg then set_recv_paused true w else w in
    if disconnect_on_high_watermark_ cfg && (backpressure_disconnect_delay_ cfg =? 0)
    then DisconnectOnOwner w else Some w
  else
    if negb (LowWatermarkReached stats) then Some w else
    let w := set_last_backpressure_high 0 (set_backpressure_active false w) in
    w ← cb (OnBackpressure false) w;
    if pause_recv_on_backpressure_ cfg then
      w ← DrainPausedRecv (set_recv_paused false w);
      RegisterRecv w
    else Some w.

(** Source: src/runtime/io/SessionSend.cpp:146-171, Session::SendInFlightBatch.
    [None] when a buffer is null. *)
Definition SendInFlightBatch (bufs : list (option A)) (w : world) : option world :=
  if negb (CanUseOnOwner w) || bool_decide (bufs = []) then Some w else
  iovecs ← mapM (fmap data_of) bufs;
  let w := BeginPendingIo w in
  let '(prepared, w) := consult (sqe_ok e) w in
  if negb prepared then DisconnectOnOwner (CompletePendingIo w) else
  let '(i, w) := inflight_add (SendOp iovecs bufs) w in
  Some (set_active_send_ev (Some i) w).

(** Source: src/runtime/io/SessionSend.cpp:129-144, Session::SendBatch. *)
Definition SendBatch (bufs : list (option A)) (w : world) : option world :=
  if negb (CanUseOnOwner w) || bool_decide (bufs = []) then Some w else
  if bool_decide (active_send_ev_ w ≠ None) then Some w else
  let '(allocated, w) := consult (alloc_ok e) w in
  if negb allocated then DisconnectOnOwner w else
  SendInFlightBatch bufs w.

(** Source: src/runtime/io/SessionSend.cpp:117-127, Session::RegisterSend. *)
Definition RegisterSend (w : world) : option world :=
  if negb (CanUseOnOwner w) then Some w else
  if bool_decide (active_send_ev_ w ≠ None) then Some w else
  let '(q, bufs, n) := DrainInto (send_queue_ w) [] kMaxSendIovecs in
  let w := set_send_queue q w in
  if n =? 0 then Some w else
  w ← UpdateBackpressure (Snapshot (send_queue_ w)) w;
  SendBatch bufs w.

(** Source: src/runtime/io/SessionSend.cpp:35-49, Session::SendOnOwner. *)
Definition SendOnOwner (buf : A) (w : world) : option (world * expected unit IoError) :=
  if negb (CanUseOnOwner w) then Some (w, Unexpected kDisconnected) else
  let '(q, result) := Push (send_queue_ w) (Some buf) in
  let w := set_send_queue q w in
  if overflowed result then
    w ← DisconnectOnOwner w; Some (w, Unexpected kSendFailed)
  else
    let w := set_accepted_bufs (accepted_bufs w ++ [buf]) w in
    w ← UpdateBackpressure (Snapshot (send_queue_ w)) w;
    if needs_register result then w ← RegisterSend w; Some (w, Value tt)
    else Some (w, Value tt).

(** Source: src/runtime/io/Session.cpp:379-385, Session::EndAppIo. *)
Definition do_EndAppIo (w : world) : option world :=
  let w := if 0 <? pending_app_io_ w then set_pending_app_io (pending_app_io_ w - 1) w else w in
  w ← TryDisconnectAfterFlush w;
  TryRelease w.

(** Source: src/runtime/io/Session.cpp:387-394, Session::PauseRecv. *)
Definition do_PauseRecv (w : world) : world :=
  if negb (CanUseOnOwner w) then w else set_recv_paused true w.

(** Source: src/runtime/io/Session.cpp:396-405, Session::ResumeRecv. *)
Definition do_ResumeRecv (w : world) : option world :=
  if negb (CanUseOnOwner w) then Some w else
  w ← DrainPausedRecv (set_recv_paused false w);
  RegisterRecv w.

(** Source: include/iouring_runtime/core/Session.h:41-69, Session.
    A call of the interface on the owner thread; [BeginAppIo] is
    Session.cpp:375-377. *)
Definition run_api (a : api) (w : world) : option (world * expected unit IoError) :=
  match a with
  | Send buf => SendOnOwner buf w
  | Disconnect => w ← DisconnectOnOwner w; Some (w, Value tt)
  | DisconnectAfterFlush => w ← DisconnectAfterFlushOnOwner w; Some (w, Value tt)
  | BeginAppIo => Some (set_pending_app_io (pending_app_io_ w + 1) w, Value tt)
  | EndAppIo => w ← do_EndAppIo w; Some (w, Value tt)
  | PauseRecv => Some (do_PauseRecv w, Value tt)
  | ResumeRecv => w ← do_ResumeRecv w; Some (w, Value tt)
  | SetTimeoutCheckInterval i => Some (do_SetTimeoutCheckInterval i w, Value tt)
  | SetInactivityTimeout t => Some (do_SetInactivityTimeout t w, Value tt)
  end.

Definition logged_api (a : api) (w : world) : option world :=
  '(w, r) ← run_api a w; Some (set_log (log w ++ [EvCall a r]) w).

(** The application's code inside one callback. *)
Fixpoint app_calls (fuel : nat) (w : world) : option world :=
  match app e (log w), fuel with
  | None, _ => Some w
  | Some _, O => None
  | Some a, S fuel => w ← logged_api a w; app_calls fuel w
  end.

(** ** Completions *)

(** The delivery of received data in either branch of [OnRecv]. *)
Definition deliver_recv (data : bytes) (w : world) : option world :=
  let w := TouchActivity w in
  if recv_paused_ w then
    let '(w, queued) := QueuePausedRecv data w in
    if queued : bool then Some w else DisconnectOnOwner w
  else call_OnRecv data w.

(** Source: src/runtime/io/Session.cpp:210-260, Session::OnRecv.
    What follows the delivery. *)
Definition OnRecv_finish (res : Z) (more : bool) (w : world) : option world :=
  let w := if negb more then CompletePendingIo w else w in
  if negb (CanUseOnOwner w) then TryRelease w else
  if res =? 0 then DisconnectOnOwner w else
  if res =? - detail.ENOBUFS then
    if negb (recv_paused_ w) then RegisterRecv w else Some w
  else if res <? 0 then DisconnectOnOwner w else
  if negb more then if negb (recv_paused_ w) then RegisterRecv w else Some w
  else Some w.

(** Source: src/runtime/io/Session.cpp:166-260, Session::OnRecv.
    [buf_id] is present when the completion carries a provided buffer; [data]
    are the [res] bytes of the view. *)
Definition OnRecv_cqe (res : Z) (more : bool) (buf_id : option Z) (data : bytes) (w : world)
    : option (world * DispatchResult) :=
  let dispatch_result := if more then kPending else kComplete in
  let w := if negb more then set_active_recv_ev None w else w in
  w ← (if (0 <? res) && CanUseOnOwner w then deliver_recv data w else Some w);
  let w := match buf_id with
           | Some id => set_returned (returned w ++ [id]) w
           | None => w
           end in
  w ← OnRecv_finish res more w;
  Some (w, dispatch_result).

(** Source: src/runtime/io/SessionSend.cpp:98-115, Session::OnSend.
    After the whole batch was sent. *)
Definition OnSend_complete (w : world) : option world :=
  let w := CompletePendingIo (set_send_queue (MarkSent (send_queue_ w)) w) in
  w ← UpdateBackpressure (Snapshot (send_queue_ w)) w;
  w ← cb OnSocketDrained w;
  w ← TryDisconnectAfterFlush w;
  if bool_decide (active_send_ev_ w ≠ None) then Some w else
  let '(q, next_bufs, n) := DrainInto (send_queue_ w) [] kMaxSendIovecs in
  let w := set_send_queue q w in
  if negb (n =? 0) then
    w ← UpdateBackpressure (Snapshot (send_queue_ w)) w;
    SendBatch next_bufs w
  else TryDisconnectAfterFlush w.

(** Source: src/runtime/io/SessionSend.cpp:51-115, Session::OnSend.
    [i], [iovecs] and [bufs] are the completed operation. *)
Definition OnSend_cqe (i : nat) (iovecs : list bytes) (bufs : list (option A)) (res : Z)
    (w : world) : option (world * DispatchResult) :=
  let w := if decide (active_send_ev_ w = Some i) then set_active_send_ev None w else w in
  if negb (CanUseOnOwner w) then
    w ← TryRelease (CompletePendingIo w); Some (w, kComplete)
  else if res <? 0 then
    w ← DisconnectOnOwner (CompletePendingIo w); Some (w, kComplete)
  else
    let requested := foldr (λ iov n, zlen iov + n) 0 iovecs in
    if res <? requested then
      let '(iovecs, bufs) := detail.AdvanceSendState iovecs bufs res in
      let '(prepared, w) := consult (sqe_ok e) w in
      if negb prepared then
        w ← DisconnectOnOwner (CompletePendingIo w); Some (w, kComplete)
      else
        let w := set_inflight (<[i := SendOp iovecs bufs]> (inflight w)) w in
        Some (set_active_send_ev (Some i) w, kPending)
    else w ← OnSend_complete w; Some (w, kComplete).

(** Source: src/runtime/io/Session.cpp:262-266, Session::OnDisconnect. *)
Definition OnDisconnect_cqe (w : world) : option (world * DispatchResult) :=
  w ← TryRelease (CompletePendingIo w); Some (w, kComplete).

(** Source: src/runtime/io/Session.cpp:268-272, Session::OnCancel. *)
Definition OnCancel_cqe (w : world) : option (world * DispatchResult) :=
  w ← TryRelease (CompletePendingIo w); Some (w, kComplete).

(** Source: src/runtime/io/Session.cpp:93-100, Session::Start. *)
Definition Start (w : world) : option world :=
  w ← cb OnConnected (TouchActivity w);
  RegisterRecv w.

(** Source: src/runtime/io/Session.cpp:333-354, Session::Tick.
    The inactivity and backpressure deadlines. *)
Definition Tick_deadlines (now : Z) (w : world) : option world :=
  let '(busy, w) :=
    if (0 <? inactivity_timeout_ w) && negb (last_activity_ w =? 0) &&
       (inactivity_timeout_ w <=? now - last_activity_ w)
    then consult (app_pending e) w else (true, w) in
  if negb busy then DisconnectOnOwner w else
  if backpressure_active_ w && disconnect_on_high_watermark_ cfg &&
     (0 <? backpressure_disconnect_delay_ cfg) && negb (last_backpressure_high_ w =? 0) &&
     (backpressure_disconnect_delay_ cfg <=? now - last_backpressure_high_ w)
  then DisconnectOnOwner w else Some w.

(** Source: src/runtime/io/Session.cpp:316-354, Session::Tick. *)
Definition Tick (now : Z) (w : world) : option world :=
  if negb (CanUseOnOwner w) then TryRelease w else
  if (0 <? timeout_check_interval_ w) &&
     ((next_timeout_check_ w =? 0) || (next_timeout_check_ w <=? now)) then
    let w := set_next_timeout_check (now + timeout_check_interval_ w) w in
    w ← cb (OnTimeoutTick now) w;
    let '(handled, w) := consult (tick_handled e) w in
    if handled : bool then Some w else Tick_deadlines now w
  else Tick_deadlines now w.
End Callbacks.

(** ** The application's callbacks *)

(** A callback is logged, then the application makes its calls; [fuel] bounds
    the nesting of callbacks and the calls within each. *)
Fixpoint run_cb (fuel : nat) (c : callback) (w : world) : option world :=
  let w := set_log (log w ++ [EvCallback c]) w in
  match fuel with
  | O => app_calls (λ _ _, None) 0 w
  | S fuel => app_calls (run_cb fuel) fuel w
  end.

(** ** The session driven by the ring *)

(** What the ring's thread does to a session: dispatch one completion, run a
    call posted to it, or tick. *)
Inductive input :=
| CqeRecv (i : nat) (res : Z) (more : bool) (buf_id : option Z) (data : bytes)
| CqeSend (i : nat) (res : Z)
| CqeOther (i : nat)
| Posted (a : api)
| Ticked (now : Z).

(** The completions the kernel may produce: a result that fits the operation,
    and the last completion of an operation retires it. *)
Definition input_ok (x : input) (w : world) : Prop :=
  match x with
  | CqeRecv i res more _ data =>
      inflight w !! i = Some RecvOp ∧ zlen data = Z.max 0 res ∧ res < 2 ^ 31
  | CqeSend i res =>
      ∃ iovecs bufs, inflight w !! i = Some (SendOp iovecs bufs) ∧
        res ≤ foldr (λ iov n, zlen iov + n) 0 iovecs
  | CqeOther i => ∃ o, inflight w !! i = Some o ∧
      match o with DisconnectOp | CancelOp _ => True | _ => False end
  | Posted _ | Ticked _ => True
  end.

(** The handler of an input with [fuel] for callbacks; for a completion also
    whether its operation is deleted.  [wire] grows by what a send
    transferred and [received] by what a receive brought. *)
Definition handle (fuel : nat) (x : input) (w : world) : option (world * option DispatchResult) :=
  let cb := run_cb fuel in
  match x with
  | CqeRecv i res more buf_id data =>
    let w := if more : bool then w else set_inflight (delete i (inflight w)) w in
    let w := set_received (received w ++ data) w in
    '(w, r) ← OnRecv_cqe cb res more buf_id data w; Some (w, Some r)
  | CqeSend i res =>
    o ← inflight w !! i;
    match o with
    | SendOp iovecs bufs =>
      let w := set_inflight (delete i (inflight w)) w in
      let w := set_wire (wire w ++ ztake res (concat iovecs)) w in
      '(w, r) ← OnSend_cqe cb i iovecs bufs res w; Some (w, Some r)
    | _ => None
    end
  | CqeOther i =>
    o ← inflight w !! i;
    let w := set_inflight (delete i (inflight w)) w in
    '(w, r) ← match o with CancelOp _ => OnCancel_cqe cb w | _ => OnDisconnect_cqe cb w end;
    Some (w, Some r)
  | Posted a => w ← logged_api cb a w; Some (w, None)
  | Ticked now => w ← Tick cb now w; Some (w, None)
  end.

Inductive session_step : world → world → Prop :=
| step_input fuel x w w' r :
    input_ok x w → handle fuel x w = Some (w', r) → session_step w w'.

(** Source: src/runtime/io/Session.cpp:56-61, Session::Session. *)
Definition Session_new (max_pending : Z) : world :=
  mkWorld kOpen 0 0 (SendQueue_new max_pending) None None 0 0 0 0 0 0 [] false false false
    ∅ 0 [] [] [] [] [] 0 0 0 [].
End Session.

Arguments op : clear implicits.
Arguments world : clear implicits.
Arguments env : clear implicits.
Arguments api : clear implicits.
Arguments event : clear implicits.
Arguments input : clear implicits.
