(* ===== verification/SessionProofs.v ===== *)
(** * Correctness of the session state machine

    Proves Session.v correct for every application and every environment.  The
    invariant [Inv] is indexed by what the code further up the call stack still
    owes ([ctx]): completions not yet counted, buffers drained but not yet in
    flight, a receive still to be registered, and so on, because the
    application may re-enter the session from any callback. *)

From S2P Require Import Prelude Types SendQueue Session.

#[local] Set Warnings "-clear-no-such-hyp".
#[local] Open Scope Z_scope.
#[local] Open Scope cxx_scope.

(** ** Partial and total correctness at once

    [wp F o Q]: a result satisfies [Q]; running out of fuel needs [F].  With
    [F := True] this is partial, with [F := False] total correctness. *)

Definition wp {A} (F : Prop) (o : option A) (Q : A → Prop) : Prop :=
  match o with Some a => Q a | None => F end.

Section Wp.
Context {F : Prop}.

Lemma wp_bind {A B} (o : option A) (f : A → option B) Q :
  wp F o (λ a, wp F (f a) Q) → wp F (o ≫= f) Q.
Proof. by destruct o. Qed.

Lemma wp_mono {A} (o : option A) (P Q : A → Prop) :
  wp F o P → (∀ a, P a → Q a) → wp F o Q.
Proof. destruct o; simpl; eauto. Qed.

Lemma wp_seq {A B} (o : option A) (f : A → option B) P Q :
  wp F o P → (∀ a, P a → wp F (f a) Q) → wp F (o ≫= f) Q.
Proof. intros Ho Hf. apply wp_bind. by eapply wp_mono. Qed.
End Wp.

(** ** Invariant *)

Section Invariant.
Context {A : Type} `{SendData A}.
Implicit Types (w : world A) (infl : gmap nat (op A)) (q : send_queue A).

(** The order in which a session's states follow each other. *)
Definition rank (st : SessionState) : nat :=
  match st with kOpen => 0 | kClosing => 1 | kDraining => 2 | kClosed => 3 end.

(** What the call stack still owes: completions handled but not subtracted
    from [pending_io_]; releases announced but not made; buffers drained but
    not in flight; whether it will drain the send queue, is draining the
    paused receives, and will register the receive. *)
Record ctx := mkCtx {
  cx_k : Z;
  cx_p : nat;
  cx_held : list (option A);
  cx_resp : bool;
  cx_drn : bool;
  cx_rcv : bool;
}.

(** Nothing owed. *)
Definition rest : ctx := mkCtx 0 0 [] false false false.

(** *** Operations in flight and release *)

Definition io_weak (k : Z) (p : nat) (st : SessionState) (pio : Z) infl (nop disc rel : nat)
    : Prop :=
  pio = k + Z.of_nat (size infl) ∧ 0 ≤ k ∧
  (∀ i, (nop ≤ i)%nat → infl !! i = None) ∧
  (st = kClosed → infl = ∅ ∧ k = 0) ∧
  disc = (if decide (st = kClosed) then 1%nat else 0%nat) ∧ (rel + p = disc)%nat.

(** *** The send side *)

Definition ref_bytes (l : list (option A)) : bytes :=
  concat (map (λ r, match r with Some a => data_of a | None => [] end) l).

(** The unsent bytes of the send in flight. *)
Definition flying infl (act : option nat) : bytes :=
  match act with
  | Some i => match infl !! i with Some (SendOp iovecs _) => concat iovecs | _ => [] end
  | None => []
  end.

Arguments flying : simpl never.

Definition send_weak q (act : option nat) infl (wire : bytes) (acc : list A) : Prop :=
  queue_ok q ∧ Forall is_Some (pending_ q) ∧
  (∀ i iovs bufs, infl !! i = Some (SendOp iovs bufs) → act = Some i) ∧
  (∀ i, act = Some i → ∃ iovs bufs, infl !! i = Some (SendOp iovs bufs)) ∧
  wire ++ flying infl act `prefix_of` concat (map data_of acc).

Definition send_open (held : list (option A)) (resp : bool) q (act : option nat) infl
    (wire : bytes) (acc : list A) : Prop :=
  Forall is_Some held ∧
  wire ++ flying infl act ++ ref_bytes held ++ ref_bytes (pending_ q)
    = concat (map data_of acc) ∧
  (held ≠ [] → act = None) ∧
  (registered_ q = true ↔ act ≠ None ∨ held ≠ [] ∨ resp = true ∧ pending_ q ≠ []).

(** *** The receive side *)

Definition recv_weak (limit : Z) (act : option nat) infl (pq : list bytes) (pb : Z)
    (received delivered : bytes) : Prop :=
  (∀ i, infl !! i = Some RecvOp ↔ act = Some i) ∧
  delivered `prefix_of` received ∧
  pb = u64 (zlen (concat pq)) ∧
  (limit ≠ 0 → zlen (concat pq) ≤ limit).

Definition recv_open (drn rcv paused : bool) (act : option nat) (pq : list bytes)
    (received delivered : bytes) : Prop :=
  delivered ++ concat pq = received ∧
  (drn = false → paused = false → pq = []) ∧
  (rcv = false → paused = false → act ≠ None).

Context (cfg : config) (e : env A).

(** What holds in every state of a session's life. *)
Definition Weak (k : Z) (p : nat) w : Prop :=
  io_weak k p (state_ w) (pending_io_ w) (inflight w) (next_op w) (on_disconnected w)
    (released w) ∧
  send_weak (send_queue_ w) (active_send_ev_ w) (inflight w) (wire w) (accepted_bufs w) ∧
  recv_weak (paused_recv_byte_limit_ cfg) (active_recv_ev_ w) (inflight w)
    (paused_recv_queue_ w) (paused_recv_bytes_ w) (received w) (delivered w).

(** What holds in addition while the session is open. *)
Definition Open (x : ctx) w : Prop :=
  send_open (cx_held x) (cx_resp x) (send_queue_ w) (active_send_ev_ w) (inflight w)
    (wire w) (accepted_bufs w) ∧
  recv_open (cx_drn x) (cx_rcv x) (recv_paused_ w) (active_recv_ev_ w)
    (paused_recv_queue_ w) (received w) (delivered w).

Definition Inv (x : ctx) w : Prop :=
  Weak (cx_k x) (cx_p x) w ∧ (state_ w = kOpen → Open x w).

(** Operations already in the ring stay there unchanged, and no provided
    buffer is handed back. *)
Definition ops_kept w w' : Prop :=
  ((next_op w ≤ next_op w')%nat ∧ returned w' = returned w) ∧
  ∀ i, (i < next_op w)%nat → inflight w' !! i = inflight w !! i.

(** How an operation of the session's interface may move it. *)
Definition mono w w' : Prop :=
  (rank (state_ w) ≤ rank (state_ w'))%nat ∧
  ((length (paused_recv_queue_ w') ≤ length (paused_recv_queue_ w))%nat ∧ ops_kept w w') ∧
  (length (log w) ≤ length (log w'))%nat.

Lemma ops_kept_refl w : ops_kept w w.
Proof. by split. Qed.

Lemma ops_kept_trans w1 w2 w3 : ops_kept w1 w2 → ops_kept w2 w3 → ops_kept w1 w3.
Proof.
  intros [[? E1] Ha] [[? E2] Hb]. split; [split; [lia|congruence]|].
  intros i Hi. rewrite Hb by lia. by apply Ha.
Qed.

Lemma ops_kept_add w o : ops_kept w (inflight_add o w).2.
Proof. split; simpl; [split; [lia|done]|]. intros i Hi. by rewrite lookup_insert_ne by lia. Qed.

Lemma mono_refl w : mono w w.
Proof. by split_and!. Qed.

Lemma mono_trans w1 w2 w3 : mono w1 w2 → mono w2 w3 → mono w1 w3.
Proof.
  intros (?&[? Ha]&?) (?&[? Hb]&?). pose proof (ops_kept_trans _ _ _ Ha Hb).
  split_and!; lia || done.
Qed.

Lemma mono_add w o : mono w (inflight_add o w).2.
Proof. split; [done|]. split; [|done]. split; [done|apply ops_kept_add]. Qed.

#[local] Hint Resolve mono_refl mono_trans mono_add : core.

Lemma rank_open st st' : (rank st ≤ rank st')%nat → st ≠ kOpen → st' ≠ kOpen.
Proof. destruct st, st'; simpl; (done || lia). Qed.

Lemma mono_closed w w' : mono w w' → state_ w ≠ kOpen → state_ w' ≠ kOpen.
Proof. intros (?&_). by apply rank_open. Qed.

(** A session that is closing keeps the invariant under any debts. *)
Lemma Weak_Inv x w : Weak (cx_k x) (cx_p x) w → state_ w ≠ kOpen → Inv x w.
Proof. by intros. Qed.

(** *** Primitive updates *)

Definition is_side_op (o : op A) : Prop :=
  match o with DisconnectOp | CancelOp _ => True | _ => False end.

Lemma Weak_closing k p w : Weak k p w → state_ w = kOpen → Weak k p (set_state kClosing w).
Proof.
  intros ((?&?&?&?&Hd&?)&?&?) E. split; [|done]. rewrite E in Hd. by split_and!.
Qed.

Lemma Weak_draining k p w : Weak k p w → Weak k p (MarkDrainingOnOwner w).
Proof.
  intros Hw. unfold MarkDrainingOnOwner. case_decide as E; [|done].
  destruct Hw as ((?&?&?&?&Hd&?)&?&?). split; [|done]. rewrite E in Hd. by split_and!.
Qed.

Lemma Weak_begin k p w :
  Weak k p w → state_ w ≠ kClosed → Weak (k + 1) p (BeginPendingIo w).
Proof.
  intros ((Hp&?&?&?&?&?)&?&?) Hst. split; [|done].
  split_and!; simpl; try done; try lia.
Qed.

Lemma Weak_complete k p w : 0 ≤ k → Weak (k + 1) p w → Weak k p (CompletePendingIo w).
Proof.
  intros Hk ((Hp&?&?&Hc&?&?)&?&?). unfold CompletePendingIo.
  destruct (Z.ltb_spec 0 (pending_io_ w)); [|lia].
  split; [|done]. split_and!; simpl; try done; try lia.
  intros E. destruct (Hc E). lia.
Qed.

Lemma flying_insert infl act i o :
  infl !! i = None → (∀ j, act = Some j → is_Some (infl !! j)) →
  flying (<[i := o]> infl) act = flying infl act.
Proof.
  intros Hi Hact. unfold flying. destruct act as [j|]; [|done].
  destruct (decide (i = j)) as [->|]; [|by rewrite lookup_insert_ne].
  destruct (Hact j eq_refl). congruence.
Qed.

Lemma send_weak_live q act infl wr acc j :
  send_weak q act infl wr acc → act = Some j → is_Some (infl !! j).
Proof. intros (_&_&_&Hl&_) Hj. destruct (Hl j Hj) as (?&?&?). eauto. Qed.

Lemma Weak_fresh k p w : Weak k p w → inflight w !! next_op w = None.
Proof. intros ((_&_&Hf&_)&_). by apply Hf. Qed.

Lemma io_weak_add k p st pio infl nop disc rel o :
  io_weak (k + 1) p st pio infl nop disc rel → 0 ≤ k →
  io_weak k p st pio (<[nop := o]> infl) (S nop) disc rel.
Proof.
  intros (Hp&?&Hf&Hc&?&?) Hk. split_and!; try done.
  - rewrite map_size_insert_None by by apply Hf. lia.
  - intros i Hi. rewrite lookup_insert_ne by lia. apply Hf. lia.
  - intros E. destruct (Hc E). lia.
Qed.

(** A shutdown or cancellation enters the ring. *)
Lemma Weak_add_side k p w o :
  0 ≤ k → Weak (k + 1) p w → is_side_op o → Weak k p (inflight_add o w).2.
Proof.
  intros Hk Hw Ho. pose proof (Weak_fresh _ _ _ Hw) as Hfresh. destruct Hw as (Hio&Hs&Hr).
  split; [by apply io_weak_add|]. simpl. split.
  - pose proof Hs as (?&?&H1&H2&H3). split; [done|]. split; [done|]. split; [|split].
    + intros i iovs bufs Hi. apply lookup_insert_Some in Hi as [[<- ->]|[? Hi]]; [done|eauto].
    + intros i Hi. destruct (H2 i Hi) as (iovs&bufs&Hb). exists iovs, bufs.
      rewrite lookup_insert_ne; [done|]. intros E. congruence.
    + rewrite flying_insert; [done|done|]. intros j Hj. by eapply send_weak_live.
  - destruct Hr as (H1&?). split; [|done]. intros i. rewrite <-H1.
    destruct (decide (i = next_op w)) as [->|]; [|by rewrite lookup_insert_ne].
    rewrite lookup_insert_eq, Hfresh. split; [by intros [= ->]|done].
Qed.

(** ** Operations, for a runner of callbacks that keeps the invariant *)

Section Operations.
Context (F : Prop) (L : nat) (cb : callback → world A → option (world A)).

(** Callbacks keep the invariant under every debt, once the log is long
    enough for the fuel. *)
Hypothesis cb_ok : ∀ c w x, Inv x w → (L ≤ length (log w))%nat →
  wp F (cb c w) (λ w', Inv x w' ∧ mono w w').

Lemma TryRelease_weak k p w :
  Weak k p w → (L ≤ length (log w))%nat →
  wp F (TryRelease cb w) (λ w', Weak k p w' ∧ mono w w').
Proof.
  intros Hw HL. unfold TryRelease, ClosingStarted. case_bool_decide as Hop; simpl.
  2: by split; [|apply mono_refl].
  destruct (Z.eqb_spec (pending_io_ w) 0) as [Hz|]; simpl; [|by split; [|apply mono_refl]].
  destruct (pending_app_io_ w =? 0); simpl; [|by split; [|apply mono_refl]].
  unfold TryMarkClosedOnOwner. case_decide as Hst; simpl; [|by split; [|apply mono_refl]].
  destruct Hw as ((Hp&Hk&Hf&Hc&Hd&Hr)&Hs&Hrv).
  rewrite decide_False in Hd by tauto.
  assert (k = 0 ∧ inflight w = ∅) as [-> He].
  { assert (size (inflight w) = 0%nat) as Hsz by lia. split; [lia|].
    by apply map_size_empty_iff in Hsz. }
  eapply wp_seq.
  - apply (cb_ok _ _ (mkCtx 0 (S p) [] false false false)); [|done].
    apply Weak_Inv; [|done]. split; [|by split].
    split_and!; simpl; try done; lia.
  - intros w1 [[Hw1 _] Hm]. destruct Hw1 as ((?&?&?&?&?&Hrel)&?&?). split.
    + split; [|done]. split_and!; simpl in *; try done; lia.
    + eapply mono_trans; [|exact Hm]. split; [destruct (state_ w); simpl; lia|by split_and!].
Qed.

Lemma TryRelease_inv x w :
  Inv x w → (L ≤ length (log w))%nat →
  wp F (TryRelease cb w) (λ w', Inv x w' ∧ mono w w').
Proof.
  intros [Hw Ho] HL. destruct (decide (state_ w = kOpen)) as [E|E].
  - unfold TryRelease, ClosingStarted. rewrite bool_decide_eq_false_2 by tauto. simpl.
    split; [done|apply mono_refl].
  - eapply wp_mono; [by apply TryRelease_weak|]. intros w' [Hw' Hm]. split; [|done].
    apply Weak_Inv; [done|]. by eapply mono_closed.
Qed.

Lemma CancelRecv_weak k p w :
  Weak k p w → state_ w = kClosing →
  Weak k p (CancelRecv e w) ∧ state_ (CancelRecv e w) = kClosing ∧ mono w (CancelRecv e w).
Proof.
  intros Hw Hst. unfold CancelRecv. destruct (active_recv_ev_ w) as [t|] eqn:Ha.
  2: { split; [done|]. split; [done|apply mono_refl]. }
  simpl. destruct (alloc_ok e _); simpl; [|by split_and!].
  assert (0 ≤ k) by (destruct Hw as ((_&?&_)&_); lia).
  assert (Weak (k + 1) p (set_consults (S (S (consults w)))
    (BeginPendingIo (set_consults (S (consults w)) w)))) as Hb.
  { apply (Weak_begin k p w Hw). congruence. }
  destruct (sqe_ok e _); simpl.
  - split; [by apply (Weak_add_side k p _ (CancelOp t) ltac:(done) Hb)|].
    split; [done|]. exact (mono_add w (CancelOp t)).
  - split; [by apply Weak_complete|]. unfold CompletePendingIo. case_match; by split_and!.
Qed.

(** Disconnecting always leaves the session closing, whatever was owed. *)
Lemma DisconnectOnOwner_weak k p w :
  Weak k p w → (L ≤ length (log w))%nat →
  wp F (DisconnectOnOwner e cb w) (λ w', Weak k p w' ∧ state_ w' ≠ kOpen ∧ mono w w').
Proof.
  intros Hw HL. unfold DisconnectOnOwner, TryBeginDisconnectOnOwner.
  case_decide as Hop; simpl; [|by split_and!].
  pose proof (Weak_closing k p w Hw Hop) as Hc.
  assert (0 ≤ k) by (destruct Hw as ((_&?&_)&_); lia).
  set (w1 := set_consults (S (consults w)) (set_state kClosing w)).
  assert (∀ w2, Weak k p w2 → mono w w2 → state_ w2 ≠ kOpen →
    wp F (TryRelease cb w2) (λ w', Weak k p w' ∧ state_ w' ≠ kOpen ∧ mono w w')) as Hrel.
  { intros w2 Hw2 Hm Hne. eapply wp_mono.
    - apply TryRelease_weak; [exact Hw2|]. destruct Hm as (_&_&?). lia.
    - intros w' [? Hm']. split; [done|]. split; [by eapply mono_closed|by eapply mono_trans]. }
  assert (mono w w1) as Hm1 by (split; [rewrite Hop; simpl; lia|by split_and!]).
  destruct (alloc_ok e _); simpl; [|by apply Hrel].
  assert (Weak (k + 1) p (set_consults (S (S (consults w))) (BeginPendingIo w1))) as Hb.
  { by apply (Weak_begin k p w1). }
  destruct (sqe_ok e _); simpl.
  - destruct (CancelRecv_weak k p (inflight_add DisconnectOp
      (set_consults (S (S (consults w))) (BeginPendingIo w1))).2) as (Hw2&Hst2&Hm2);
      [by apply (Weak_add_side k p _ DisconnectOp ltac:(done) Hb)|done|].
    apply Hrel.
    + by apply Weak_draining.
    + eapply mono_trans; [exact Hm1|]. unfold MarkDrainingOnOwner. rewrite decide_True by done.
      eapply mono_trans; [eapply mono_trans; [|exact Hm2]|].
      * exact (mono_add w1 DisconnectOp).
      * split; [rewrite Hst2; simpl; lia|by split_and!].
    + unfold MarkDrainingOnOwner. by rewrite decide_True.
  - apply Hrel; [by apply Weak_complete| |];
      unfold CompletePendingIo; case_match; simpl; done.
Qed.

Lemma DisconnectOnOwner_inv x x' w :
  Weak (cx_k x') (cx_p x') w → cx_k x = cx_k x' → cx_p x = cx_p x' →
  (L ≤ length (log w))%nat →
  wp F (DisconnectOnOwner e cb w) (λ w', Inv x w' ∧ mono w w').
Proof.
  intros Hw Hk Hp HL. eapply wp_mono; [by apply DisconnectOnOwner_weak|].
  intros w' (?&?&?). split; [|done]. apply Weak_Inv; [by rewrite Hk, Hp|done].
Qed.

Lemma TryDisconnectAfterFlush_inv x w :
  Inv x w → (L ≤ length (log w))%nat →
  wp F (TryDisconnectAfterFlush e cb w) (λ w', Inv x w' ∧ mono w w').
Proof.
  intros Hi HL. unfold TryDisconnectAfterFlush.
  destruct (negb _ || negb _); simpl; [by split; [|apply mono_refl]|].
  destruct (bool_decide _ || _); simpl; [by split; [|apply mono_refl]|].
  destruct (app_pending e _); [by split_and!|].
  eapply wp_mono; [eapply (DisconnectOnOwner_inv x x); [apply Hi|done..]|].
  intros w' [? Hm]. split; [done|]. eapply mono_trans; [|exact Hm]. by split_and!.
Qed.

(** *** Receiving *)

Definition with_recv (d r : bool) (x : ctx) : ctx :=
  mkCtx (cx_k x) (cx_p x) (cx_held x) (cx_resp x) d r.

Lemma with_recv_id x : with_recv (cx_drn x) (cx_rcv x) x = x.
Proof. by destruct x. Qed.

Lemma Inv_weaken_recv x d r w :
  Inv (with_recv false false x) w → Inv (with_recv d r x) w.
Proof.
  intros [Hw Ho]. split; [done|]. intros E. destruct (Ho E) as (?&?&Hd&Hr).
  split; [done|]. split; [done|]. simpl in *. split; auto.
Qed.

(** A receive enters the ring. *)
Lemma Weak_add_recv k p w :
  0 ≤ k → Weak (k + 1) p w → active_recv_ev_ w = None →
  Weak k p (set_active_recv_ev (Some (next_op w)) (inflight_add RecvOp w).2).
Proof.
  intros Hk Hw Ha. pose proof (Weak_fresh _ _ _ Hw) as Hfresh. destruct Hw as (Hio&Hs&Hr).
  split; [by apply io_weak_add|]. simpl. split.
  - pose proof Hs as (?&?&H1&H2&H3). split; [done|]. split; [done|]. split; [|split].
    + intros i iovs bufs Hi. apply lookup_insert_Some in Hi as [[<- Hi]|[? Hi]]; [done|eauto].
    + intros i Hi. destruct (H2 i Hi) as (iovs&bufs&Hb). exists iovs, bufs.
      rewrite lookup_insert_ne; [done|]. intros E. congruence.
    + rewrite flying_insert; [done|done|]. intros j Hj. by eapply send_weak_live.
  - destruct Hr as (H1&?). split; [|done]. intros i.
    destruct (decide (i = next_op w)) as [->|].
    + rewrite lookup_insert_eq. done.
    + rewrite lookup_insert_ne, H1, Ha by done. split; [done|congruence].
Qed.

Lemma flying_add_recv k p w :
  Weak k p w →
  flying (<[next_op w := RecvOp]> (inflight w)) (active_send_ev_ w)
  = flying (inflight w) (active_send_ev_ w).
Proof.
  intros Hw. apply flying_insert; [by eapply Weak_fresh|].
  destruct Hw as (_&Hs&_). intros j Hj. by eapply send_weak_live.
Qed.

(** After [RegisterRecv] nobody owes a registration any more. *)
Lemma RegisterRecv_inv x w r :
  Inv x w → (L ≤ length (log w))%nat →
  wp F (RegisterRecv e cb w) (λ w', Inv (with_recv (cx_drn x) r x) w' ∧ mono w w').
Proof.
  intros [Hw Ho] HL. unfold RegisterRecv, CanUseOnOwner.
  assert (0 ≤ cx_k x) as Hk by (destruct Hw as ((_&?&_)&_); lia).
  case_bool_decide as Hop; simpl.
  2: { split; [|apply mono_refl]. by apply Weak_Inv. }
  destruct (Ho Hop) as (Hso&Hdr&Hdn&Hrc).
  destruct (recv_paused_ w) eqn:Hpa; simpl.
  { split; [|apply mono_refl]. split; [done|]. intros _. split; [done|].
    unfold recv_open. rewrite Hpa. by split_and!. }
  case_bool_decide as Hact; simpl.
  { split; [|apply mono_refl]. split; [done|]. intros _. split; [done|].
    unfold recv_open. split_and!; auto. }
  set (w1 := set_consults (S (consults w)) w).
  assert (∀ w2, Weak (cx_k x) (cx_p x) w2 → mono w w2 →
    wp F (DisconnectOnOwner e cb w2)
      (λ w', Inv (with_recv (cx_drn x) r x) w' ∧ mono w w')) as Hdis.
  { intros w2 Hw2 Hm. eapply wp_mono.
    - apply (DisconnectOnOwner_inv (with_recv (cx_drn x) r x) x); [done..|]. destruct Hm as (_&_&?). lia.
    - intros w' [? ?]. split; [done|]. by eapply mono_trans. }
  destruct (alloc_ok e _); simpl; [|by apply Hdis].
  assert (Weak (cx_k x + 1) (cx_p x) (set_consults (S (S (consults w))) (BeginPendingIo w1))) as Hb.
  { apply (Weak_begin _ _ w1); [done|]. simpl. congruence. }
  destruct (sqe_ok e _); simpl.
  - split; [|exact (mono_add w RecvOp)]. split; [by apply (Weak_add_recv _ _ _ Hk Hb)|].
    intros _. split.
    + unfold send_open. simpl. rewrite (flying_add_recv _ _ _ Hw). done.
    + unfold recv_open; split_and!; auto.
  - apply Hdis; [by apply Weak_complete|]. unfold CompletePendingIo. case_match; by split_and!.
Qed.

Lemma u64_sub_add a b : 0 ≤ b → u64 (u64 (a + b) - a) = u64 b.
Proof.
  intros. unfold u64. rewrite Zminus_mod_idemp_l. f_equal. lia.
Qed.

(** Delivering the paused data in order. *)
Lemma DrainPausedRecv_loop_inv n x w :
  Inv (with_recv true true x) w → (L ≤ length (log w))%nat →
  (length (paused_recv_queue_ w) ≤ n)%nat →
  wp F (DrainPausedRecv_loop cb n w)
    (λ w', (∀ d, Inv (with_recv d true x) w') ∧ mono w w').
Proof.
  revert w. induction n as [|n IH]; intros w [Hw Ho] HL Hn; simpl;
    unfold CanUseOnOwner; (case_bool_decide as Hop; simpl;
      [|by split; [intros d; apply Weak_Inv|apply mono_refl]]);
    destruct (Ho Hop) as (Hso&Hdr&_&_);
    (destruct (recv_paused_ w) eqn:Hpa; simpl;
      [by split; [intros d; split; [done|]; intros _; split; [done|];
                  unfold recv_open; rewrite Hpa; split_and!|apply mono_refl]|]);
    (destruct (paused_recv_queue_ w) as [|chunk rest] eqn:Hq;
      [by split; [intros d; split; [done|]; intros _; split; [done|];
                  unfold recv_open; rewrite Hq; split_and!|apply mono_refl]|]).
  { simpl in Hn. lia. }
  destruct Hw as (Hio&Hsw&Hact&Hpre&Hpb&Hlim). rewrite Hq in *. simpl in *.
  eapply wp_seq.
  - unfold call_OnRecv. apply (cb_ok _ _ (with_recv true true x)); [|done]. split.
    + split; [done|]. split; [done|]. unfold recv_weak. simpl. split; [done|].
      rewrite <-Hdr, app_assoc. split; [by eexists|]. rewrite zlen_app in Hpb, Hlim. split.
      * rewrite Hpb. apply u64_sub_add, zlen_nonneg.
      * intros Hl. specialize (Hlim Hl). pose proof (zlen_nonneg chunk). lia.
    + intros _. split; [done|]. unfold recv_open. simpl. rewrite <-app_assoc. by split_and!.
  - intros w1 [Hi1 Hm1]. pose proof Hm1 as (Hr1&[Hl1 Hk1]&Hlog1). simpl in *.
    eapply wp_mono; [apply (IH w1 Hi1); lia|].
    intros w' [? Hm']. split; [done|]. eapply mono_trans; [|exact Hm'].
    split; [done|]. split; [|done]. split; [rewrite Hq; simpl; lia|exact Hk1].
Qed.

Lemma DrainPausedRecv_inv x w :
  Inv (with_recv true true x) w → (L ≤ length (log w))%nat →
  wp F (DrainPausedRecv cb w) (λ w', (∀ d, Inv (with_recv d true x) w') ∧ mono w w').
Proof. intros. unfold DrainPausedRecv. by apply DrainPausedRecv_loop_inv. Qed.

(** Unpausing: what [ResumeRecv] and the end of backpressure do. *)
Lemma resume_inv x w :
  Inv x w → (L ≤ length (log w))%nat →
  wp F (w ← DrainPausedRecv cb (set_recv_paused false w); RegisterRecv e cb w)
    (λ w', Inv x w' ∧ mono w w').
Proof.
  intros [Hw Ho] HL. eapply wp_seq.
  - apply (DrainPausedRecv_inv x); [|done]. split; [done|]. intros E.
    destruct (Ho E) as (?&?&_&_). split; [done|]. unfold recv_open. by split_and!.
  - intros w1 [Hi Hm]. eapply wp_mono.
    + eapply (RegisterRecv_inv _ _ (cx_rcv x)); [apply (Hi (cx_drn x))|].
      destruct Hm as (_&_&?). simpl in *. lia.
    + intros w' [Hi' Hm']. split; [by destruct x|].
      eapply mono_trans; [|exact Hm']. exact Hm.
Qed.

Lemma UpdateBackpressure_inv x w stats :
  Inv x w → (L ≤ length (log w))%nat →
  wp F (UpdateBackpressure cfg e cb stats w) (λ w', Inv x w' ∧ mono w w').
Proof.
  intros Hi HL. unfold UpdateBackpressure. destruct (backpressure_active_ w); simpl.
  - destruct (LowWatermarkReached cfg stats); simpl; [|by split; [|apply mono_refl]].
    eapply wp_seq; [by apply cb_ok|]. intros w1 [Hi1 Hm1].
    destruct (pause_recv_on_backpressure_ cfg); [|by split].
    eapply wp_mono; [apply (resume_inv x w1 Hi1); destruct Hm1 as (_&_&?); simpl in *; lia|].
    intros w' [? ?]. split; [done|]. by eapply mono_trans.
  - destruct (HighWatermarkReached cfg stats); simpl; [|by split; [|apply mono_refl]].
    eapply wp_seq; [by apply cb_ok|]. intros w1 [[Hw1 Ho1] Hm1].
    set (w2 := if pause_recv_on_backpressure_ cfg then set_recv_paused true w1 else w1).
    assert (Inv x w2 ∧ mono w w2) as [Hi2 Hm2].
    { unfold w2. case_match; [|by split]. split; [|done]. split; [done|].
      intros E. destruct (Ho1 E) as (?&?&_&_). split; [done|]. unfold recv_open. by split_and!. }
    case_match; [|by split].
    eapply wp_mono; [eapply (DisconnectOnOwner_inv x x); [apply Hi2|done..|]|].
    { destruct Hm2 as (_&_&?). lia. }
    intros w' [? ?]. split; [done|]. by eapply mono_trans.
Qed.

(** *** Sending *)

Definition with_send (h : list (option A)) (r : bool) (x : ctx) : ctx :=
  mkCtx (cx_k x) (cx_p x) h r (cx_drn x) (cx_rcv x).

Lemma ref_bytes_app l k : ref_bytes (l ++ k) = ref_bytes l ++ ref_bytes k.
Proof. unfold ref_bytes. by rewrite map_app, concat_app. Qed.

(** Reading the buffers of a batch. *)
Lemma mapM_data bufs : Forall is_Some bufs →
  ∃ iovecs, mapM (fmap data_of) bufs = Some iovecs ∧ concat iovecs = ref_bytes bufs.
Proof.
  induction 1 as [|b bufs [a ->] _ (iov&Hm&Hc)]; [by exists []|].
  exists (data_of a :: iov). simpl. rewrite Hm. simpl. split; [done|].
  unfold ref_bytes in *. simpl. by rewrite Hc.
Qed.

(** A send enters the ring. *)
Lemma Weak_add_send k p w i iovecs bufs :
  0 ≤ k → Weak (k + 1) p w → active_send_ev_ w = None → i = next_op w →
  wire w ++ concat iovecs `prefix_of` concat (map data_of (accepted_bufs w)) →
  Weak k p (set_active_send_ev (Some i) (inflight_add (SendOp iovecs bufs) w).2).
Proof.
  intros Hk Hw Ha -> Hpre. pose proof (Weak_fresh _ _ _ Hw) as Hfresh. destruct Hw as (Hio&Hs&Hr).
  split; [by apply io_weak_add|]. simpl. split.
  - pose proof Hs as (?&?&H1&H2&H3). split; [done|]. split; [done|]. split; [|split].
    + intros i iovs bs Hi. apply lookup_insert_Some in Hi as [[<- Hi]|[? Hi]]; [done|].
      rewrite (H1 i iovs bs Hi) in Ha. done.
    + intros i [= <-]. rewrite lookup_insert_eq. eauto.
    + unfold flying. by rewrite lookup_insert_eq.
  - destruct Hr as (H1&?). split; [|done]. intros i. rewrite <-H1.
    destruct (decide (i = next_op w)) as [->|]; [|by rewrite lookup_insert_ne].
    rewrite lookup_insert_eq, Hfresh. done.
Qed.

(** The batch held by the caller goes out, or the session closes. *)
Lemma SendBatch_inv x w bufs r r' :
  Inv (with_send bufs r x) w → bufs ≠ [] → (L ≤ length (log w))%nat →
  wp F (SendBatch e cb bufs w) (λ w', Inv (with_send [] r' x) w' ∧ mono w w').
Proof.
  intros [Hw Ho] Hne HL. unfold SendBatch, SendInFlightBatch, CanUseOnOwner.
  assert (0 ≤ cx_k x) as Hk by (destruct Hw as ((_&?&_)&_); simpl in *; lia).
  case_bool_decide as Hop; simpl.
  2: { split; [|apply mono_refl]. by apply Weak_Inv. }
  rewrite bool_decide_eq_false_2 by done.
  destruct (Ho Hop) as ((Hsome&Heq&Hh&Hreg)&Hro). simpl in *. specialize (Hh Hne).
  rewrite Hh. simpl.
  assert (∀ w2, Weak (cx_k x) (cx_p x) w2 → mono w w2 →
    wp F (DisconnectOnOwner e cb w2)
      (λ w', Inv (with_send [] r' x) w' ∧ mono w w')) as Hdis.
  { intros w2 Hw2 Hm. eapply wp_mono.
    - apply (DisconnectOnOwner_inv (with_send [] r' x) x); [done..|]. destruct Hm as (_&_&?). lia.
    - intros w' [? ?]. split; [done|]. by eapply mono_trans. }
  destruct (alloc_ok e _); simpl; [|by apply Hdis].
  rewrite bool_decide_eq_true_2 by done. simpl.
  destruct (mapM_data bufs Hsome) as (iov&->&Hiov). simpl.
  set (w1 := set_consults (S (S (consults w))) (BeginPendingIo (set_consults (S (consults w)) w))).
  assert (Weak (cx_k x + 1) (cx_p x) w1) as Hb.
  { apply (Weak_begin _ _ w); [done|]. congruence. }
  destruct (sqe_ok e _); simpl.
  - assert (wire w ++ concat iov ++ ref_bytes (pending_ (send_queue_ w))
      = concat (map data_of (accepted_bufs w))) as Heq'.
    { rewrite <-Heq. unfold flying. rewrite Hh. by rewrite Hiov. }
    split; [|exact (mono_add w (SendOp iov bufs))]. split.
    + apply (Weak_add_send _ _ w1 _ iov bufs Hk Hb); [done|done|]. simpl.
      rewrite <-Heq', app_assoc. by eexists.
    + intros _. split; [|done]. unfold send_open. simpl. unfold flying.
      rewrite lookup_insert_eq. split_and!; try done.
      rewrite Hreg. split; [intros _; by left|intros _; right; by left].
  - apply Hdis; [by apply Weak_complete|]. unfold CompletePendingIo. case_match; by split_and!.
Qed.

(** Taking a batch out of the queue moves it from the queue to the caller. *)
Lemma DrainInto_inv x w r :
  Inv (with_send [] true x) w → active_send_ev_ w = None →
  let '(q, bufs, n) := DrainInto (send_queue_ w) [] kMaxSendIovecs in
  Inv (with_send bufs r x) (set_send_queue q w) ∧ (n = 0 ↔ bufs = []) ∧
  (bufs = [] → pending_ q = []).
Proof.
  intros [Hw Ho] Ha. destruct Hw as (Hio&Hsw&Hrw). pose proof Hsw as (Hqok&Hsm&H1&H2&H3).
  rewrite DrainInto_Drain by done.
  pose proof (Drain_spec (send_queue_ w) kMaxSendIovecs Hqok ltac:(done)) as HD.
  destruct (Drain (send_queue_ w) kMaxSendIovecs) as [q bufs]. simpl in HD.
  destruct HD as (Hqok'&Hsplit&Hr&_&_&Hemp). rewrite <-Hsplit in Hsm.
  apply Forall_app in Hsm as [Hsb Hsq].
  split; [split|split].
  - split; [done|]. split; [|done]. by split_and!.
  - intros E. destruct (Ho E) as ((_&Heq&_&Hreg)&Hro). split; [|done].
    unfold send_open. simpl. split; [done|]. split; [|split; [done|]].
    + rewrite <-Heq, <-Hsplit, ref_bytes_app. simpl. done.
    + rewrite Hr, Hreg, Ha. simpl. split.
      * intros [?|[?|[_ Hp]]]; [done|done|]. right. left. by rewrite Hemp.
      * intros [?|[Hb|[_ Hp]]]; [done|right; right..]; (split; [done|]).
        -- by rewrite <-Hemp.
        -- rewrite <-Hsplit. by destruct bufs.
  - split; [apply zlen_zero|by intros ->].
  - intros ->. by rewrite (proj1 Hemp eq_refl) in Hsplit.
Qed.

(** With a send in flight nobody owes a drain of the queue. *)
Lemma Inv_active x w r r' :
  Inv (with_send [] r x) w → active_send_ev_ w ≠ None → Inv (with_send [] r' x) w.
Proof.
  intros [Hw Ho] Ha. split; [done|]. intros E. destruct (Ho E) as ((?&?&?&Hreg)&?).
  split; [|done]. split_and!; try done. simpl in *. rewrite Hreg.
  split; intros _; by left.
Qed.

(** With an empty queue nobody owes one either. *)
Lemma Inv_empty x w r r' :
  Inv (with_send [] r x) w → pending_ (send_queue_ w) = [] → Inv (with_send [] r' x) w.
Proof.
  intros [Hw Ho] Ha. split; [done|]. intros E. destruct (Ho E) as ((?&?&?&Hreg)&?).
  split; [|done]. split_and!; try done. simpl in *. rewrite Hreg, Ha. tauto.
Qed.

(** Update the backpressure state, then send: the end of both senders. *)
Lemma update_and_send_inv x w bufs r r' :
  Inv (with_send bufs r x) w → bufs ≠ [] → (L ≤ length (log w))%nat →
  wp F (w ← UpdateBackpressure cfg e cb (Snapshot (send_queue_ w)) w; SendBatch e cb bufs w)
    (λ w', Inv (with_send [] r' x) w' ∧ mono w w').
Proof.
  intros Hi Hne HL. eapply wp_seq; [by apply UpdateBackpressure_inv|].
  intros w1 [Hi1 Hm1]. eapply wp_mono.
  - eapply SendBatch_inv; [exact Hi1|done|]. destruct Hm1 as (_&_&?). lia.
  - intros w' [? ?]. split; [done|]. by eapply mono_trans.
Qed.

Lemma RegisterSend_inv x w r :
  Inv (with_send [] true x) w → (L ≤ length (log w))%nat →
  wp F (RegisterSend cfg e cb w) (λ w', Inv (with_send [] r x) w' ∧ mono w w').
Proof.
  intros Hi HL. unfold RegisterSend, CanUseOnOwner. case_bool_decide as Hop; simpl.
  2: { split; [|apply mono_refl]. apply Weak_Inv; [apply Hi|done]. }
  case_bool_decide as Hact; [by split; [eapply Inv_active|apply mono_refl]|].
  pose proof (DrainInto_inv x w false Hi Hact) as HD.
  destruct (DrainInto _ _ _) as [[q bufs] n]. destruct HD as (HiD&Hn&Hemp).
  destruct (Z.eqb_spec n 0) as [Hz|Hz].
  - apply Hn in Hz as ->. split; [|by split_and!]. eapply Inv_empty; [exact HiD|]. by apply Hemp.
  - eapply wp_mono; [apply (update_and_send_inv x (set_send_queue q w) bufs false r HiD); [by rewrite <-Hn|done]|].
    intros w' [? Hm]. split; [done|]. exact Hm.
Qed.

Lemma with_send_id x h r : cx_held x = h → cx_resp x = r → with_send h r x = x.
Proof. intros <- <-. by destruct x. Qed.

(** Accepting a buffer. *)
Lemma push_inv x w buf :
  Inv x w → state_ w = kOpen →
  let '(q, res) := Push (send_queue_ w) (Some buf) in
  if overflowed res then Weak (cx_k x) (cx_p x) (set_send_queue q w)
  else
    let w' := set_accepted_bufs (accepted_bufs w ++ [buf]) (set_send_queue q w) in
    if needs_register res then cx_held x = [] ∧ Inv (with_send [] true x) w'
    else Inv x w'.
Proof.
  intros [Hw Ho] Hop. destruct (Ho Hop) as ((Hsh&Heq&Hh&Hreg)&Hro).
  destruct Hw as (Hio&(Hqok&Hsm&H1&H2&H3)&Hrw).
  pose proof (Push_spec (send_queue_ w) (Some buf) Hqok) as HP.
  destruct (Push (send_queue_ w) (Some buf)) as [q res]. simpl in HP.
  destruct HP as (Hqok'&_&_&HP). destruct (overflowed res).
  { destruct HP as (_&Hp&_). split; [done|]. split; [|done]. split_and!; try done.
    simpl. by rewrite Hp. }
  destruct HP as (Hnr&Hp&Hr&_). cbn zeta.
  assert (Weak (cx_k x) (cx_p x)
    (set_accepted_bufs (accepted_bufs w ++ [buf]) (set_send_queue q w))) as Hw'.
  { split; [done|]. split; [|done]. split_and!; try done; simpl.
    - rewrite Hp. apply Forall_app. split; [done|]. apply Forall_singleton. eauto.
    - rewrite map_app, concat_app. by apply prefix_app_r. }
  assert (wire w ++ flying (inflight w) (active_send_ev_ w) ++ ref_bytes (cx_held x) ++
    ref_bytes (pending_ q) = concat (map data_of (accepted_bufs w ++ [buf]))) as Heq'.
  { rewrite Hp, ref_bytes_app, map_app, concat_app, <-Heq, <-!app_assoc.
    unfold ref_bytes at 3. simpl. done. }
  assert (pending_ q ≠ []) as Hpq by (rewrite Hp; by destruct (pending_ (send_queue_ w))).
  destruct (registered_ (send_queue_ w)) eqn:Hrg; rewrite Hnr; simpl.
  - split; [done|]. intros _. split; [|done]. split_and!; try done. simpl.
    rewrite Hr. split; [|done]. intros _. destruct (proj1 Hreg eq_refl) as [?|[?|[? _]]]; [by left|right; by left|right; by right].
  - assert (cx_held x = []) as Hhe.
    { destruct (cx_held x); [done|]. exfalso.
      assert (false = true) as ?; [|done]. apply Hreg. right. by left. }
    split; [done|]. split; [done|]. intros _. split; [|done].
    rewrite Hhe in Heq'. split_and!; try done. simpl. rewrite Hr. split; [|done].
    intros _. right. by right.
Qed.

Lemma SendOnOwner_inv x w buf :
  Inv x w → (L ≤ length (log w))%nat →
  wp F (SendOnOwner cfg e cb buf w) (λ wr, Inv x wr.1 ∧ mono w wr.1).
Proof.
  intros Hi HL. unfold SendOnOwner, CanUseOnOwner. case_bool_decide as Hop; simpl.
  2: { split; [done|apply mono_refl]. }
  pose proof (push_inv x w buf Hi Hop) as HP.
  destruct (Push (send_queue_ w) (Some buf)) as [q res]. destruct (overflowed res).
  { eapply wp_seq; [by apply (DisconnectOnOwner_inv x x)|]. intros w1 [? ?]. done. }
  cbn zeta in HP. destruct (needs_register res).
  - destruct HP as [Hhe HP]. eapply wp_seq; [by apply (UpdateBackpressure_inv _ _ _ HP)|].
    intros w1 [Hi1 Hm1]. eapply wp_seq.
    + apply (RegisterSend_inv x w1 (cx_resp x) Hi1). destruct Hm1 as (_&_&?). simpl in *. lia.
    + intros w2 [Hi2 Hm2]. rewrite with_send_id in Hi2 by done. split; [done|].
      by eapply mono_trans.
  - eapply wp_seq; [by apply (UpdateBackpressure_inv _ _ _ HP)|]. intros w1 [? ?]. done.
Qed.

(** *** The interface and the application *)

Lemma do_EndAppIo_inv x w :
  Inv x w → (L ≤ length (log w))%nat →
  wp F (do_EndAppIo e cb w) (λ w', Inv x w' ∧ mono w w').
Proof.
  intros Hi HL. unfold do_EndAppIo.
  set (w1 := if 0 <? pending_app_io_ w then set_pending_app_io (pending_app_io_ w - 1) w else w).
  assert (Inv x w1 ∧ mono w w1 ∧ log w1 = log w) as (Hi1&Hm1&Hl1).
  { unfold w1. case_match; [|split; [done|split; [apply mono_refl|done]]]. by split_and!. }
  eapply wp_seq; [apply (TryDisconnectAfterFlush_inv x w1 Hi1); by rewrite Hl1|].
  intros w2 [Hi2 Hm2]. eapply wp_mono.
  - apply (TryRelease_inv x w2 Hi2). destruct Hm2 as (_&_&?). rewrite Hl1 in *. lia.
  - intros w' [? ?]. split; [done|]. by do 2 (eapply mono_trans; [eassumption|]).
Qed.

Lemma run_api_inv x w a :
  Inv x w → (L ≤ length (log w))%nat →
  wp F (run_api cfg e cb a w) (λ wr, Inv x wr.1 ∧ mono w wr.1).
Proof.
  intros Hi HL. destruct a as [buf| | | | | | |i|t]; simpl.
  - by apply SendOnOwner_inv.
  - eapply wp_seq; [eapply (DisconnectOnOwner_inv x x); [apply Hi|done..]|]. done.
  - eapply wp_seq; [|intros w' HQ; exact HQ]. unfold DisconnectAfterFlushOnOwner.
    destruct (negb _); [by split; [|apply mono_refl]|].
    eapply wp_mono; [by apply (TryDisconnectAfterFlush_inv x)|]. intros w' [? ?]. done.
  - by split_and!.
  - eapply wp_seq; [by apply do_EndAppIo_inv|]. done.
  - unfold do_PauseRecv. destruct (CanUseOnOwner w); simpl; [|by split; [|apply mono_refl]].
    split; [|by split_and!]. destruct Hi as [Hw Ho]. split; [done|]. intros E.
    destruct (Ho E) as (?&?&_&_). split; [done|]. unfold recv_open. by split_and!.
  - eapply wp_seq; [|intros w' HQ; exact HQ]. unfold do_ResumeRecv.
    destruct (negb _); [by split; [|apply mono_refl]|]. by apply resume_inv.
  - unfold do_SetTimeoutCheckInterval. case_match; by split_and!.
  - unfold do_SetInactivityTimeout. case_match; [|by split_and!].
    unfold do_SetTimeoutCheckInterval. case_match; by split_and!.
Qed.

Lemma logged_api_inv x w a :
  Inv x w → (L ≤ length (log w))%nat →
  wp F (logged_api cfg e cb a w)
    (λ w', Inv x w' ∧ mono w w' ∧ (length (log w) < length (log w'))%nat).
Proof.
  intros Hi HL. unfold logged_api. eapply wp_seq; [by apply run_api_inv|].
  intros [w1 r] [Hi1 (?&[? ?]&?)]. simpl in *. split; [done|].
  unfold mono. simpl. rewrite length_app. simpl. split_and!; lia || done.
Qed.

(** The calls of a callback, with [N] a length of the log after which the
    application stays silent (needed only when fuel must suffice). *)
Lemma app_calls_inv N n x w :
  F ∨ (∀ l, (N ≤ length l)%nat → app e l = None) →
  Inv x w → (L ≤ length (log w))%nat → F ∨ (N ≤ length (log w) + n)%nat →
  wp F (app_calls cfg e cb n w) (λ w', Inv x w' ∧ mono w w').
Proof.
  intros HN. revert w. induction n as [|n IH]; intros w Hi HL Hlen; simpl;
    (destruct (app e (log w)) as [a|] eqn:Ha; [|by split; [|apply mono_refl]]).
  - simpl. destruct HN as [?|HN]; [done|]. destruct Hlen as [?|Hlen]; [done|].
    rewrite HN in Ha by lia. done.
  - eapply wp_seq; [by apply logged_api_inv|]. intros w1 (Hi1&Hm1&Hlt).
    eapply wp_mono; [apply IH; [done|lia|destruct Hlen; [by left|right; lia]]|].
    intros w' [? ?]. split; [done|]. by eapply mono_trans.
Qed.

(** *** Completions *)

(** How handling a completion may move a session. *)
Definition advance w w' : Prop :=
  (rank (state_ w) ≤ rank (state_ w'))%nat ∧ ops_kept w w' ∧
  (length (log w) ≤ length (log w'))%nat.

Lemma mono_advance w w' : mono w w' → advance w w'.
Proof. intros (?&[? ?]&?). by split_and!. Qed.

Lemma advance_trans w1 w2 w3 : advance w1 w2 → advance w2 w3 → advance w1 w3.
Proof.
  intros (?&Ha&?) (?&Hb&?). pose proof (ops_kept_trans _ _ _ Ha Hb). split_and!; lia || done.
Qed.

Hypothesis limit_ok : 0 ≤ paused_recv_byte_limit_ cfg < 2 ^ 63.

(** Between the arrival of [data] and its delivery. *)
Definition Arriving (x : ctx) (data : bytes) w : Prop :=
  Weak (cx_k x) (cx_p x) w ∧
  (state_ w = kOpen →
    send_open (cx_held x) (cx_resp x) (send_queue_ w) (active_send_ev_ w) (inflight w)
      (wire w) (accepted_bufs w) ∧
    delivered w ++ concat (paused_recv_queue_ w) ++ data = received w ∧
    (recv_paused_ w = false → paused_recv_queue_ w = []) ∧
    (cx_rcv x = false → recv_paused_ w = false → active_recv_ev_ w ≠ None)).

Lemma Arriving_nil x w : cx_drn x = false → Arriving x [] w → Inv x w.
Proof.
  intros Hd [Hw Ho]. split; [done|]. intros E. destruct (Ho E) as (?&Hr&?&?).
  rewrite app_nil_r in Hr. split; [done|]. split_and!; auto.
Qed.

Lemma queue_paused_weak k p w data :
  Weak k p w → zlen data < 2 ^ 31 → (QueuePausedRecv cfg data w).2 = true →
  Weak k p (QueuePausedRecv cfg data w).1 ∧ advance w (QueuePausedRecv cfg data w).1 ∧
  paused_recv_queue_ (QueuePausedRecv cfg data w).1 =
    paused_recv_queue_ w ++ (if bool_decide (data = []) then [] else [data]).
Proof.
  intros Hw Hd. unfold QueuePausedRecv. case_bool_decide as Hnil; simpl.
  { intros _. rewrite app_nil_r. by split_and!. }
  case_match eqn:Hlim; simpl; [done|]. intros _. split; [|by split_and!].
  destruct Hw as (?&?&?&?&Hpb&Hl). split; [done|]. split; [done|]. split_and!; try done; simpl.
  - rewrite concat_app, zlen_app. simpl. rewrite app_nil_r, Hpb.
    unfold u64. by rewrite Z.add_mod_idemp_l.
  - intros Hz. specialize (Hl Hz). rewrite concat_app, zlen_app. simpl. rewrite app_nil_r.
    rewrite (proj2 (Z.eqb_neq _ _)) in Hlim by done. simpl in Hlim. propify.
    pose proof (zlen_nonneg (concat (paused_recv_queue_ w))). pose proof (zlen_nonneg data).
    rewrite Hpb, (u64_small (zlen _)), u64_small in Hlim by lia. done.
Qed.

Lemma deliver_recv_inv x w data :
  cx_drn x = false → Arriving x data w → state_ w = kOpen → zlen data < 2 ^ 31 →
  (L ≤ length (log w))%nat →
  wp F (deliver_recv cfg e cb data w) (λ w', Inv x w' ∧ advance w w').
Proof.
  intros Hdrn [Hw Ho] Hop Hd HL. destruct (Ho Hop) as (Hso&Hr&Hpq&Hact).
  unfold deliver_recv, TouchActivity. simpl.
  set (w1 := set_last_activity _ _). assert (Weak (cx_k x) (cx_p x) w1) as Hw1 by done.
  destruct (recv_paused_ w) eqn:Hpa.
  - pose proof (queue_paused_weak _ _ _ _ Hw1 Hd) as HQ.
    assert (∀ d, (QueuePausedRecv cfg d w1).2 = false → (QueuePausedRecv cfg d w1).1 = w1) as Hsame.
    { intros d. unfold QueuePausedRecv. by repeat case_match. }
    assert (∀ w', w' = (QueuePausedRecv cfg data w1).1 → recv_paused_ w' = true ∧
      delivered w' = delivered w ∧ received w' = received w ∧ send_queue_ w' = send_queue_ w ∧
      active_send_ev_ w' = active_send_ev_ w ∧ inflight w' = inflight w ∧ wire w' = wire w ∧
      accepted_bufs w' = accepted_bufs w) as Hfr.
    { intros w' ->. unfold QueuePausedRecv. repeat case_match; simpl; by split_and!. }
    specialize (Hsame data).
    destruct (QueuePausedRecv cfg data w1) as [w2 ok]. simpl in HQ, Hfr, Hsame.
    specialize (Hfr w2 eq_refl) as (Hf1&Hf2&Hf3&Hf4&Hf5&Hf6&Hf7&Hf8).
    destruct ok.
    + specialize (HQ eq_refl) as (Hw2&Hadv&Hq2). split; [|done]. split; [done|].
      intros _. unfold Open, recv_open. rewrite Hf1, Hf2, Hf3, Hf4, Hf5, Hf6, Hf7, Hf8.
      split; [done|]. split; [|by split].
      rewrite Hq2, <-Hr, concat_app. simpl. f_equal. f_equal.
      case_bool_decide as Hn; simpl; [by rewrite Hn|by rewrite app_nil_r].
    + rewrite Hsame by done.
      eapply wp_mono; [apply (DisconnectOnOwner_inv x x); done|].
      intros w' [? Hm]. split; [done|]. by apply mono_advance.
  - rewrite (Hpq eq_refl) in Hr. simpl in Hr. unfold call_OnRecv.
    eapply wp_mono; [apply (cb_ok _ _ x); [|done]|].
    + split.
      * destruct Hw as (?&?&?&_&?&?). split; [done|]. split; [done|].
        split_and!; try done. simpl. by rewrite Hr.
      * intros _. split; [done|]. unfold recv_open. simpl. rewrite Hpa, (Hpq eq_refl). simpl.
        rewrite app_nil_r. split_and!; auto.
    + intros w' [? Hm]. split; [done|]. by apply mono_advance.
Qed.

Definition recv_ctx (more : bool) : ctx :=
  mkCtx (if more then 0 else 1) 0 [] false false (negb more).

Lemma OnRecv_finish_inv res more w :
  Inv (recv_ctx more) w → (L ≤ length (log w))%nat →
  wp F (OnRecv_finish e cb res more w) (λ w', Inv rest w' ∧ advance w w').
Proof.
  intros Hi HL. unfold OnRecv_finish.
  set (w1 := if negb more then CompletePendingIo w else w).
  assert (Inv (mkCtx 0 0 [] false false (negb more)) w1 ∧ mono w w1 ∧
          log w1 = log w ∧ recv_paused_ w1 = recv_paused_ w) as (Hi1&Hm1&Hl1&Hp1).
  { unfold w1. destruct more; simpl; [by split_and!|]. destruct Hi as [Hw Ho].
    assert (Weak 0 0 (CompletePendingIo w)) as Hc by by apply (Weak_complete 0).
    unfold CompletePendingIo in *. case_match; [|by split_and!].
    split; [split; [done|exact Ho]|]. by split_and!. }
  assert (∀ w', (Inv rest w' ∧ mono w1 w') → Inv rest w' ∧ advance w w') as Hend.
  { intros w' [? Hm]. split; [done|]. apply mono_advance. by eapply mono_trans. }
  assert (wp F (if negb (recv_paused_ w1) then RegisterRecv e cb w1 else Some w1)
    (λ w', Inv rest w' ∧ advance w w')) as Hreg.
  { destruct (recv_paused_ w1) eqn:Hpa; simpl.
    - split; [|by apply mono_advance]. destruct Hi1 as [Hw1 Ho1]. split; [done|].
      intros E. destruct (Ho1 E) as (?&?&?&_). split; [done|]. unfold recv_open.
      rewrite Hpa. by split_and!.
    - eapply wp_mono; [apply (RegisterRecv_inv _ w1 false Hi1); by rewrite Hl1|]. exact Hend. }
  assert (wp F (DisconnectOnOwner e cb w1) (λ w', Inv rest w' ∧ advance w w')) as Hdis.
  { eapply wp_mono; [eapply (DisconnectOnOwner_inv rest); [apply Hi1|done..|by rewrite Hl1]|].
    exact Hend. }
  unfold CanUseOnOwner. case_bool_decide as Hop; simpl.
  2: { eapply wp_mono; [apply (TryRelease_inv rest); [apply Weak_Inv; [apply Hi1|done]|by rewrite Hl1]|].
       exact Hend. }
  destruct (res =? 0); [done|]. destruct (res =? - detail.ENOBUFS); [done|].
  destruct (res <? 0); [done|]. destruct more; simpl; [|done].
  split; [done|]. by apply mono_advance.
Qed.

Lemma OnRecv_cqe_inv res more buf_id data w :
  let w0 := if negb more then set_active_recv_ev None w else w in
  Arriving (recv_ctx more) data w0 → zlen data = Z.max 0 res → res < 2 ^ 31 →
  (L ≤ length (log w))%nat →
  wp F (OnRecv_cqe cfg e cb res more buf_id data w)
    (λ wr, Inv rest wr.1 ∧ (rank (state_ w) ≤ rank (state_ wr.1))%nat ∧
       (∀ i, (i < next_op w)%nat → inflight wr.1 !! i = inflight w !! i) ∧
       returned wr.1 = returned w ++ option_list buf_id ∧
       wr.2 = (if more then kPending else kComplete)).
Proof.
  intros w0 Ha Hd Hres HL. unfold OnRecv_cqe. fold w0.
  assert (advance w w0) as Hadv0 by (unfold w0; case_match; by split_and!).
  assert (wp F (if (0 <? res) && CanUseOnOwner w0 then deliver_recv cfg e cb data w0 else Some w0)
    (λ w', Inv (recv_ctx more) w' ∧ advance w w')) as Hdel.
  { destruct (Z.ltb_spec 0 res); simpl.
    - unfold CanUseOnOwner. case_bool_decide as Hop.
      + eapply wp_mono; [apply (deliver_recv_inv (recv_ctx more)); try done; [lia|]|].
        { destruct Hadv0 as (_&_&?). lia. }
        intros w' [? ?]. split; [done|]. by eapply advance_trans.
      + split; [|done]. apply Weak_Inv; [apply Ha|done].
    - split; [|done]. apply Arriving_nil; [done|].
      rewrite (zlen_zero data) in Ha by lia. done. }
  eapply wp_seq; [exact Hdel|]. intros w1 [Hi1 Hadv1].
  set (w2 := match buf_id with Some id => set_returned (returned w1 ++ [id]) w1 | None => w1 end).
  assert (Inv (recv_ctx more) w2) as Hi2 by (unfold w2; by destruct buf_id).
  destruct Hadv1 as (Hr1&[[Hn1 Hret1] Hk1]&Hl1).
  assert (state_ w2 = state_ w1 ∧ inflight w2 = inflight w1 ∧ next_op w2 = next_op w1 ∧
    log w2 = log w1 ∧ returned w2 = returned w1 ++ option_list buf_id) as (E1&E2&E3&E4&E5).
  { unfold w2. destruct buf_id; simpl; rewrite ?app_nil_r; done. }
  eapply wp_seq; [apply OnRecv_finish_inv; [exact Hi2|rewrite E4; lia]|].
  intros w3 [? (Hr3&[[Hn3 Hret3] Hk3]&Hl3)]. rewrite E1 in Hr3. split; [done|].
  split; [simpl; lia|]. split; [|split; [simpl; congruence|done]].
  intros i Hi. simpl. rewrite Hk3 by lia. rewrite E2. by apply Hk1.
Qed.

(** Retiring an operation: the completion is owed to [pending_io_]. *)
Lemma io_weak_retire p st pio infl nop disc rel i o :
  io_weak 0 p st pio infl nop disc rel → infl !! i = Some o →
  io_weak 1 p st pio (delete i infl) nop disc rel.
Proof.
  intros (Hp&?&Hf&Hc&?&?) Hi. split_and!; try done.
  - rewrite (map_size_delete_Some i infl) by eauto.
    assert (size infl ≠ 0%nat); [|lia]. intros Hz%map_size_empty_iff. by rewrite Hz in Hi.
  - intros j Hj. rewrite lookup_delete_None. right. by apply Hf.
  - intros E. destruct (Hc E) as [He _]. by rewrite He in Hi.
Qed.

Lemma lookup_delete_other infl i j o o' :
  infl !! i = Some o → o ≠ o' → delete i infl !! j = Some o' ↔ infl !! j = Some o'.
Proof.
  intros Hi Hne. rewrite lookup_delete_Some. split; [tauto|]. intros Hj. split; [|done].
  intros ->. congruence.
Qed.

(** Retiring anything but a send leaves the send side alone. *)
Lemma send_weak_retire q act infl wr acc i o :
  send_weak q act infl wr acc → infl !! i = Some o → (∀ io bs, o ≠ SendOp io bs) →
  send_weak q act (delete i infl) wr acc ∧ flying (delete i infl) act = flying infl act.
Proof.
  intros (Hq&Hsm&H1&H2&H3) Hi Ho.
  assert (flying (delete i infl) act = flying infl act) as Hfl.
  { unfold flying. destruct act as [j|] eqn:Ha; [|done].
    destruct (decide (i = j)) as [->|]; [|by rewrite lookup_delete_ne].
    destruct (H2 j eq_refl) as (?&?&Hj). rewrite Hi in Hj. simplify_eq. by destruct (Ho _ _ eq_refl). }
  split; [|done]. split_and!; try done.
  - intros j io bs [_ Hj]%lookup_delete_Some. by eapply H1.
  - intros j Hj. destruct (H2 j Hj) as (io&bs&Hb). exists io, bs.
    rewrite lookup_delete_ne; [done|]. intros ->. rewrite Hi in Hb. simplify_eq.
    by destruct (Ho _ _ eq_refl).
  - by rewrite Hfl.
Qed.

(** The completion of the send in flight, before its handler runs. *)
Lemma send_retired w i iovs bufs res :
  Inv rest w → inflight w !! i = Some (SendOp iovs bufs) → 0 ≤ res →
  let w1 := set_active_send_ev None (set_wire (wire w ++ ztake res (concat iovs))
              (set_inflight (delete i (inflight w)) w)) in
  active_send_ev_ w = Some i ∧ Weak 1 0 w1 ∧
  (state_ w = kOpen →
    wire w1 ++ zdrop res (concat iovs) ++ ref_bytes (pending_ (send_queue_ w))
      = concat (map data_of (accepted_bufs w)) ∧
    registered_ (send_queue_ w) = true ∧
    recv_open false false (recv_paused_ w) (active_recv_ev_ w) (paused_recv_queue_ w)
      (received w) (delivered w)).
Proof.
  intros [(Hio&(Hq&Hsm&H1&H2&H3)&Hrw) Ho] Hi Hres w1.
  pose proof (H1 i iovs bufs Hi) as Ha.
  assert (flying (inflight w) (active_send_ev_ w) = concat iovs) as Hfl.
  { unfold flying. by rewrite Ha, Hi. }
  split; [done|]. split.
  - split; [by eapply io_weak_retire|]. split.
    + split_and!; try done; simpl.
      * intros j io bs [Hne Hj]%lookup_delete_Some. rewrite (H1 j io bs Hj) in Ha. congruence.
      * rewrite app_nil_r. etrans; [|exact H3]. rewrite Hfl.
        apply prefix_app. eexists. symmetry. apply ztake_zdrop.
    + destruct Hrw as (Hact&?). split; [|done]. intros j. simpl. rewrite <-Hact.
      by apply (lookup_delete_other _ i j (SendOp iovs bufs)).
  - intros E. destruct (Ho E) as ((_&Heq&_&Hreg)&Hro). split; [|split; [|done]].
    + rewrite <-Heq, Hfl. simpl. by rewrite <-app_assoc, (app_assoc (ztake _ _)), ztake_zdrop.
    + apply Hreg. left. congruence.
Qed.

Lemma foldr_zlen_concat (iovs : list bytes) :
  foldr (λ iov n, zlen iov + n) 0 iovs = zlen (concat iovs).
Proof. induction iovs; simpl; [done|]. rewrite zlen_app. lia. Qed.

(** [AdvanceSendState] drops exactly the bytes that were sent. *)
Lemma AdvanceSendState_concat {B} (iovs : list bytes) (bufs : list B) n :
  0 ≤ n ≤ zlen (concat iovs) →
  concat (detail.AdvanceSendState iovs bufs n).1 = zdrop n (concat iovs).
Proof.
  unfold detail.AdvanceSendState. revert bufs n.
  induction iovs as [|iov iovs IH]; intros bufs n Hn.
  { simpl. unfold zdrop. by rewrite drop_nil. }
  simpl in *. rewrite zlen_app in Hn. pose proof (zlen_nonneg iov).
  destruct (Z.leb_spec (zlen iov) n).
  - specialize (IH (tail bufs) (n - zlen iov) ltac:(lia)).
    destruct (detail.count_consumed iovs (n - zlen iov)) as [c r]. simpl.
    rewrite (zdrop_app_ge n iov), <-IH by lia.
    destruct (drop c iovs) as [|f rest]; [done|]. by destruct (0 <? r).
  - simpl. destruct (Z.ltb_spec 0 n); simpl.
    + by rewrite (zdrop_app_le n iov) by lia.
    + assert (n = 0) as -> by lia. by rewrite zdrop_0.
Qed.

Lemma AdvanceSendState_bufs (iovs : list bytes) (bufs : list (option A)) n :
  (detail.AdvanceSendState iovs bufs n).2 = drop (detail.count_consumed iovs n).1 bufs.
Proof.
  unfold detail.AdvanceSendState. destruct (detail.count_consumed iovs n) as [c r]. simpl.
  destruct (drop c iovs); [done|]. by destruct (0 <? r).
Qed.

Lemma OnSend_complete_inv w :
  Weak 1 0 w → active_send_ev_ w = None → (L ≤ length (log w))%nat →
  (state_ w = kOpen →
    wire w ++ ref_bytes (pending_ (send_queue_ w)) = concat (map data_of (accepted_bufs w)) ∧
    registered_ (send_queue_ w) = true ∧
    recv_open false false (recv_paused_ w) (active_recv_ev_ w) (paused_recv_queue_ w)
      (received w) (delivered w)) →
  wp F (OnSend_complete cfg e cb w) (λ w', Inv rest w' ∧ mono w w').
Proof.
  intros Hw Ha HL Ho. unfold OnSend_complete.
  destruct Hw as (Hio&(Hq&Hsm&H1&H2&H3)&Hrw).
  destruct (MarkSent_spec _ Hq) as (Hq'&Hp'&_&_&Hr').
  set (w1 := CompletePendingIo (set_send_queue (MarkSent (send_queue_ w)) w)).
  assert (Inv (with_send [] true rest) w1 ∧ mono w w1 ∧ log w1 = log w) as (Hi1&Hm1&Hl1).
  { assert (Weak 0 0 w1) as Hw1.
    { apply (Weak_complete 0); [lia|]. split; [done|]. split; [|done].
      split_and!; try done. simpl. by rewrite Hp'. }
    unfold w1, CompletePendingIo in *. case_match; (split; [|by split_and!]); (split; [done|]).
    all: intros E; destruct (Ho E) as (Heq&Hreg&Hro); split; [|done]; split_and!; try done; simpl.
    all: rewrite ?Hp', ?Ha; try done; rewrite Hr'; case_bool_decide; naive_solver. }
  eapply wp_seq; [apply (UpdateBackpressure_inv _ _ _ Hi1); by rewrite Hl1|].
  intros w2 [Hi2 Hm2]. rewrite <-Hl1 in HL. pose proof Hm2 as (_&_&?).
  eapply wp_seq; [apply (cb_ok _ _ _ Hi2); lia|]. intros w3 [Hi3 Hm3].
  pose proof Hm3 as (_&_&?).
  eapply wp_seq; [apply (TryDisconnectAfterFlush_inv _ _ Hi3); lia|]. intros w4 [Hi4 Hm4].
  pose proof Hm4 as (_&_&?).
  assert (mono w w4) as Hm14 by eauto using mono_trans.
  clear Hr'. case_bool_decide as Hact; [by split; [eapply Inv_active|]|].
  pose proof (DrainInto_inv rest w4 false Hi4 Hact) as HD.
  destruct (DrainInto _ _ _) as [[q bufs] n]. destruct HD as (HiD&Hn&Hemp).
  destruct (Z.eqb_spec n 0) as [Hz|Hz]; simpl.
  - apply Hn in Hz as ->.
    eapply wp_mono; [apply (TryDisconnectAfterFlush_inv _ _ (Inv_empty _ _ _ false HiD (Hemp eq_refl))); simpl; lia|].
    intros w' [? Hm]. split; [done|]. eapply mono_trans; [exact Hm14|]. exact Hm.
  - eapply wp_mono; [apply (update_and_send_inv rest (set_send_queue q w4) bufs false false HiD);
      [by rewrite <-Hn|simpl; lia]|].
    intros w' [? Hm]. split; [done|]. eapply mono_trans; [exact Hm14|]. exact Hm.
Qed.

(** The end of a handler: the session at rest, and the operation deleted
    exactly when it left the ring. *)
Definition handled w (i : nat) (wr : world A * DispatchResult) : Prop :=
  Inv rest wr.1 ∧ (rank (state_ w) ≤ rank (state_ wr.1))%nat ∧
  (length (log w) ≤ length (log wr.1))%nat ∧
  (wr.2 = kPending ↔ is_Some (inflight wr.1 !! i)).

Lemma handled_complete w w1 w' i :
  Inv rest w' → advance w1 w' → state_ w1 = state_ w → log w1 = log w →
  inflight w1 !! i = None → (i < next_op w1)%nat → handled w i (w', kComplete).
Proof.
  intros Hi (Hr&Hk&Hl) Hst Hlog Hn Hlt. rewrite Hst in Hr. rewrite Hlog in Hl.
  split_and!; try done. simpl. destruct Hk as [_ Hk]. rewrite Hk, Hn by done.
  split; [done|by intros []].
Qed.

Lemma Inv_op_lt x w i o : Inv x w → inflight w !! i = Some o → (i < next_op w)%nat.
Proof.
  intros [((_&_&Hf&_)&_) _] Hi. destruct (decide (i < next_op w)%nat); [done|].
  rewrite Hf in Hi by lia. done.
Qed.

(** The rest of a partly sent batch goes back to the kernel under the same event. *)
Lemma resubmit_Inv w i iovs bufs :
  Weak 1 0 w → active_send_ev_ w = None → inflight w !! i = None → (i < next_op w)%nat →
  state_ w = kOpen →
  wire w ++ concat iovs ++ ref_bytes (pending_ (send_queue_ w))
    = concat (map data_of (accepted_bufs w)) →
  registered_ (send_queue_ w) = true →
  recv_open false false (recv_paused_ w) (active_recv_ev_ w) (paused_recv_queue_ w)
    (received w) (delivered w) →
  Inv rest (set_active_send_ev (Some i)
    (set_inflight (<[i := SendOp iovs bufs]> (inflight w)) w)).
Proof.
  intros ((Hp&?&Hf&Hcl&?&?)&(Hq&Hsm&Hs1&_&_)&(Hact&?)) Ha Hgone Hlt Hop Heq Hreg Hro.
  assert (flying (<[i:=SendOp iovs bufs]> (inflight w)) (Some i) = concat iovs) as Hfl
    by (unfold flying; by rewrite lookup_insert_eq).
  split; [split; [|split]|]; simpl.
  - split_and!; try done; simpl.
    + rewrite map_size_insert_None by done. lia.
    + intros j Hj. rewrite lookup_insert_ne by lia. by apply Hf.
    + intros E. simpl in E. congruence.
  - split_and!; try done; simpl.
    + intros j io bs Hj. apply lookup_insert_Some in Hj as [[<- _]|[_ Hj]]; [done|].
      apply (Hs1 j io bs) in Hj. congruence.
    + intros j [= <-]. rewrite lookup_insert_eq. eauto.
    + rewrite Hfl, <-Heq, app_assoc. by eexists.
  - split; [|done]. intros j. rewrite <-Hact.
    destruct (decide (j = i)) as [->|]; [|by rewrite lookup_insert_ne].
    by rewrite lookup_insert_eq, Hgone.
  - intros _. split; [|done]. unfold send_open. simpl. rewrite Hfl. split_and!; try done.
    rewrite Hreg. split; [|done]. intros _. by left.
Qed.

Lemma OnSend_cqe_inv w i iovs bufs res :
  Inv rest w → inflight w !! i = Some (SendOp iovs bufs) → res ≤ zlen (concat iovs) →
  (L ≤ length (log w))%nat →
  wp F (OnSend_cqe cfg e cb i iovs bufs res
          (set_wire (wire w ++ ztake res (concat iovs))
             (set_inflight (delete i (inflight w)) w)))
    (handled w i).
Proof.
  intros Hi Hlk Hres HL. pose proof (Inv_op_lt _ _ _ _ Hi Hlk) as Hlt.
  assert (ztake res (concat iovs) = ztake (Z.max 0 res) (concat iovs)) as Htk.
  { destruct (Z.le_ge_cases 0 res); [by rewrite Z.max_r|]. rewrite Z.max_l by lia.
    unfold ztake. by replace (Z.to_nat res) with 0%nat by lia. }
  destruct (send_retired w i iovs bufs (Z.max 0 res) Hi Hlk ltac:(lia)) as (Ha&Hw1&Ho1).
  rewrite <-Htk in *. unfold OnSend_cqe. simpl. rewrite decide_True by done.
  set (w1 := set_active_send_ev None _) in *.
  assert (inflight w1 !! i = None) as Hgone by (simpl; apply lookup_delete_eq).
  assert (∀ w2, Weak 0 0 w2 → mono w1 w2 →
    wp F (w ← DisconnectOnOwner e cb w2; Some (w, kComplete)) (handled w i)) as Hdis.
  { intros w2 Hw2 Hm2. eapply wp_seq.
    - apply (DisconnectOnOwner_inv rest rest); [done..|]. destruct Hm2 as (_&_&?). simpl in *. lia.
    - intros w' [? ?]. eapply (handled_complete w w1); try done.
      apply mono_advance. by eapply mono_trans. }
  assert (Weak 0 0 (CompletePendingIo w1) ∧ mono w1 (CompletePendingIo w1)) as [Hc Hmc].
  { split; [by apply (Weak_complete 0)|]. unfold CompletePendingIo. case_match; by split_and!. }
  unfold CanUseOnOwner. case_bool_decide as Hop; simpl.
  2: { eapply wp_seq.
       - apply (TryRelease_inv rest); [|destruct Hmc as (_&_&?); simpl in *; lia].
         apply Weak_Inv; [done|]. by eapply mono_closed.
       - intros w' [? ?]. eapply (handled_complete w w1); try done.
         apply mono_advance. by eapply mono_trans. }
  destruct (Z.ltb_spec res 0); [by apply Hdis|].
  rewrite foldr_zlen_concat. rewrite Z.max_r in Ho1 by lia.
  destruct (Ho1 Hop) as (Heq&Hreg&Hro).
  destruct (Z.ltb_spec res (zlen (concat iovs))) as [Hpart|Hfull].
  - pose proof (AdvanceSendState_concat iovs bufs res ltac:(lia)) as Hadv.
    destruct (detail.AdvanceSendState iovs bufs res) as [iovs' bufs']. simpl in Hadv.
    destruct (sqe_ok e _); simpl.
    2: { apply Hdis; [by apply (Weak_complete 0)|].
         unfold CompletePendingIo. case_match; by split_and!. }
    split; [|split_and!; simpl; try done]; [|rewrite lookup_insert_eq; split; [eauto|done]].
    apply resubmit_Inv; try done. by rewrite Hadv.
  - assert (res = zlen (concat iovs)) as -> by lia.
    rewrite (zdrop_all (zlen (concat iovs))) in Heq by lia.
    eapply wp_seq; [apply (OnSend_complete_inv w1); try done|].
    intros w' [? ?]. eapply (handled_complete w w1); try done. by apply mono_advance.
Qed.

(** Shutdown and cancellation completions. *)
Lemma side_cqe_inv w i o :
  Inv rest w → inflight w !! i = Some o → is_side_op o → (L ≤ length (log w))%nat →
  wp F (w ← TryRelease cb (CompletePendingIo (set_inflight (delete i (inflight w)) w));
        Some (w, kComplete)) (handled w i).
Proof.
  intros Hi Hlk Ho HL. pose proof (Inv_op_lt _ _ _ _ Hi Hlk) as Hlt.
  set (w1 := set_inflight (delete i (inflight w)) w).
  assert (Inv (mkCtx 1 0 [] false false false) w1) as Hi1.
  { destruct Hi as [(Hio&Hs&(Hact&?)) Hop].
    destruct (send_weak_retire _ _ _ _ _ i o Hs Hlk) as [Hs' Hfl]; [by destruct o|].
    split; [split; [by eapply io_weak_retire|split; [done|]]|]; simpl.
    - split; [|done]. intros j. rewrite <-Hact. apply (lookup_delete_other _ i j o); [done|].
      intros ->. done.
    - intros E. destruct (Hop E) as ((?&?&?&?)&?). split; [|done].
      unfold send_open. simpl. rewrite Hfl. done. }
  assert (Inv rest (CompletePendingIo w1) ∧ mono w1 (CompletePendingIo w1)) as [Hc Hm].
  { destruct Hi1 as [Hw1 Ho1]. pose proof (Weak_complete 0 0 w1 ltac:(lia) Hw1) as Hc.
    unfold CompletePendingIo in *. case_match; split; try done; split; done. }
  eapply wp_seq.
  - apply (TryRelease_inv rest _ Hc). destruct Hm as (_&_&?). simpl in *. lia.
  - intros w' [? ?]. eapply (handled_complete w w1); try done.
    + apply mono_advance. by eapply mono_trans.
    + apply lookup_delete_eq.
Qed.

(** *** Ticks and the start *)

Lemma Tick_inv now w :
  Inv rest w → (L ≤ length (log w))%nat →
  wp F (Tick cfg e cb now w) (λ w', Inv rest w' ∧ mono w w').
Proof.
  intros Hi HL. unfold Tick.
  assert (∀ w1, Inv rest w1 → mono w w1 →
    wp F (Tick_deadlines cfg e cb now w1) (λ w', Inv rest w' ∧ mono w w')) as Hdl.
  { intros w1 Hi1 Hm1. unfold Tick_deadlines.
    assert (∀ w2, Inv rest w2 → mono w w2 →
      wp F (DisconnectOnOwner e cb w2) (λ w', Inv rest w' ∧ mono w w')) as Hdis.
    { intros w2 Hi2 Hm2. eapply wp_mono.
      - apply (DisconnectOnOwner_inv rest rest); [apply Hi2|done..|]. destruct Hm2 as (_&_&?). lia.
      - intros w' [? ?]. split; [done|]. by eapply mono_trans. }
    destruct (_ && _ && _); simpl.
    - assert (Inv rest (set_consults (S (consults w1)) w1) ∧
        mono w (set_consults (S (consults w1)) w1)) as [Hi2 Hm2] by done.
      destruct (app_pending e _); simpl; [|by apply Hdis]. case_match; [by apply Hdis|done].
    - case_match; [by apply Hdis|done]. }
  destruct (CanUseOnOwner w); simpl; [|by apply TryRelease_inv].
  case_match; [|by apply Hdl; [|apply mono_refl]].
  eapply wp_seq; [by apply (cb_ok _ _ rest)|]. intros w1 [Hi1 Hm1]. simpl.
  destruct (tick_handled e _); [done|]. by apply Hdl.
Qed.

Lemma Start_inv w :
  Inv (with_recv false true rest) w → (L ≤ length (log w))%nat →
  wp F (Start e cb w) (λ w', Inv rest w' ∧ mono w w').
Proof.
  intros Hi HL. unfold Start.
  eapply wp_seq; [by apply (cb_ok _ _ (with_recv false true rest))|].
  intros w1 [Hi1 Hm1]. eapply wp_mono.
  - apply (RegisterRecv_inv _ w1 false Hi1). destruct Hm1 as (_&_&?). simpl in *. lia.
  - intros w' [? ?]. split; [done|]. by eapply mono_trans.
Qed.

Lemma recv_arrives w i (more : bool) data :
  Inv rest w → inflight w !! i = Some RecvOp →
  let w1 := set_received (received w ++ data)
              (if more then w else set_inflight (delete i (inflight w)) w) in
  Arriving (recv_ctx more) data (if negb more then set_active_recv_ev None w1 else w1).
Proof.
  intros [(Hio&Hs&(Hact&Hpre&?&?)) Ho] Hi w1. unfold w1. destruct more; simpl.
  - split.
    + split; [done|]. split; [done|]. split_and!; try done. simpl. by apply prefix_app_r.
    + intros E. destruct (Ho E) as (?&Hd&?&?). split; [done|]. simpl.
      rewrite <-Hd, <-app_assoc. split_and!; auto.
  - destruct (send_weak_retire _ _ _ _ _ i RecvOp Hs Hi) as [Hs' Hfl]; [done|]. split.
    + split; [by eapply io_weak_retire|]. split; [done|]. split_and!; try done; simpl.
      * intros j. split; [|done]. intros [Hne Hj]%lookup_delete_Some.
        apply Hact in Hj. apply Hact in Hi. congruence.
      * by apply prefix_app_r.
    + intros E. destruct (Ho E) as ((?&?&?&?)&Hd&?&?). simpl.
      split; [unfold send_open; by rewrite Hfl|].
      rewrite <-Hd, <-app_assoc. split_and!; auto.
Qed.
End Operations.

(** ** The knot *)

(** [N] is a length of the log after which the application makes no calls;
    it matters only when fuel must suffice. *)
Lemma run_cb_inv (F : Prop) N n :
  F ∨ (∀ l, (N ≤ length l)%nat → app e l = None) →
  ∀ c w x, Inv x w → (N - n ≤ length (log w))%nat →
  wp F (run_cb cfg e n c w) (λ w', Inv x w' ∧ mono w w').
Proof.
  intros HN. induction n as [|n IH]; intros c w x Hi HL; simpl;
    set (w1 := set_log (log w ++ [EvCallback c]) w);
    assert (Inv x w1) as Hi1 by done;
    assert (mono w w1) as Hm1
      by (split_and!; try done; simpl; rewrite length_app; lia);
    assert (length (log w1) = S (length (log w))) as Hl1
      by (simpl; rewrite length_app; simpl; lia).
  - destruct (app e (log w ++ [EvCallback c])) eqn:Ha; [|done].
    destruct HN as [?|HN]; [done|]. rewrite HN in Ha; [done|].
    rewrite length_app. simpl. lia.
  - eapply wp_mono.
    + apply (app_calls_inv F (N - n) (run_cb cfg e n) IH N n x w1 HN Hi1); [lia|].
      right. lia.
    + intros w' [? ?]. split; [done|]. by eapply mono_trans.
Qed.

Hypothesis limit_ok : 0 ≤ paused_recv_byte_limit_ cfg < 2 ^ 63.

(** What one input does to a session at rest. *)
Definition step_post (x : input A) w (wr : world A * option DispatchResult) : Prop :=
  Inv rest wr.1 ∧ (rank (state_ w) ≤ rank (state_ wr.1))%nat ∧
  match x with
  | CqeRecv i _ _ _ _ | CqeSend i _ | CqeOther i =>
      wr.2 = Some kPending ∧ is_Some (inflight wr.1 !! i) ∨
      wr.2 = Some kComplete ∧ inflight wr.1 !! i = None
  | _ => wr.2 = None
  end ∧
  match x with
  | CqeRecv _ _ _ buf_id _ => returned wr.1 = returned w ++ option_list buf_id
  | _ => True
  end.

Lemma handled_post w i wr :
  handled w i wr → Inv rest wr.1 ∧ (rank (state_ w) ≤ rank (state_ wr.1))%nat ∧
  (Some wr.2 = Some kPending ∧ is_Some (inflight wr.1 !! i) ∨
   Some wr.2 = Some kComplete ∧ inflight wr.1 !! i = None).
Proof.
  intros (?&?&_&Hi). split; [done|]. split; [done|]. destruct wr.2.
  - left. split; [done|]. by apply Hi.
  - right. split; [done|]. apply eq_None_not_Some. intros Hs. by apply Hi in Hs.
Qed.

Lemma handle_inv (F : Prop) N n x w :
  F ∨ (∀ l, (N ≤ length l)%nat → app e l = None) → (N - n ≤ length (log w))%nat →
  Inv rest w → input_ok x w → wp F (handle cfg e n x w) (step_post x w).
Proof.
  intros HN HL Hi Hx. pose proof (run_cb_inv F N n HN) as Hcb.
  destruct x as [i res more buf_id data|i res|i|a|now]; simpl in *.
  - destruct Hx as (Hlk&Hd&Hres). pose proof (Inv_op_lt _ _ _ _ Hi Hlk) as Hlt.
    eapply wp_seq.
    + apply (OnRecv_cqe_inv F (N - n) _ Hcb limit_ok res more buf_id data);
        [pose proof (recv_arrives w i more data Hi Hlk); by destruct more|done|done|].
      by destruct more.
    + intros [w' r] (Hi'&Hr&Hk&Hret&Hres'). simpl in *. split; [done|]. simpl.
      split; [by destruct more|]. split; [|by destruct more].
      specialize (Hk i). destruct more; simpl in *; subst.
      * left. split; [done|]. rewrite Hk by done. eauto.
      * right. split; [done|]. rewrite Hk by done. apply lookup_delete_eq.
  - destruct Hx as (iovs&bufs&Hlk&Hres). rewrite Hlk. simpl. rewrite foldr_zlen_concat in Hres.
    eapply wp_seq; [by apply (OnSend_cqe_inv F (N - n) _ Hcb)|].
    intros [w' r] Hh. apply handled_post in Hh as (?&?&?). by split_and!.
  - destruct Hx as (o&Hlk&Ho). rewrite Hlk. simpl.
    assert (wp F (match o with CancelOp _ => OnCancel_cqe (run_cb cfg e n)
        (set_inflight (delete i (inflight w)) w) | _ => OnDisconnect_cqe (run_cb cfg e n)
        (set_inflight (delete i (inflight w)) w) end) (handled w i)) as Hs.
    { destruct o; try done; by eapply (side_cqe_inv F (N - n) _ Hcb); eauto. }
    eapply wp_seq; [exact Hs|]. intros [w' r] Hh. apply handled_post in Hh as (?&?&?). by split_and!.
  - eapply wp_seq; [by apply (logged_api_inv F (N - n) _ Hcb rest)|].
    intros w' (?&(?&_)&_). done.
  - eapply wp_seq; [by apply (Tick_inv F (N - n) _ Hcb)|]. intros w' (?&(?&_)). done.
Qed.

Lemma Session_new_inv max_pending :
  0 ≤ max_pending < 2 ^ 32 → Inv (with_recv false true rest) (Session_new max_pending).
Proof.
  intros Hm. split.
  - split; [|split].
    + by split_and!.
    + split; [by apply SendQueue_new_ok|]. by split_and!.
    + split; [done|]. split_and!; try done. intros _. simpl. rewrite zlen_nil. lia.
  - intros _. split; [|by split_and!]. split_and!; try done. simpl. naive_solver.
Qed.

(** ** Reachable sessions *)

(** A session that was started and then driven by any sequence of
    completions, posted calls and ticks. *)
Inductive reachable (max_pending : Z) : world A → Prop :=
| reach fuel w0 w :
    Start e (run_cb cfg e fuel) (Session_new max_pending) = Some w0 →
    steps (session_step cfg e) w0 w → reachable max_pending w.

Lemma reachable_inv max_pending w :
  0 ≤ max_pending < 2 ^ 32 → reachable max_pending w → Inv rest w.
Proof.
  intros Hm [fuel w0 w1 Hstart Hs]. revert Hs.
  apply (steps_invariant (session_step cfg e) (Inv rest)).
  - intros a b Ha Hstep. destruct Hstep as [n x w2 w' r Hx Hh].
    pose proof (handle_inv True 0 n x w2 (or_introl I) ltac:(lia) Ha Hx) as Hp.
    rewrite Hh in Hp. apply Hp.
  - pose proof (Start_inv True 0 (run_cb cfg e fuel)) as HS.
    specialize (HS (λ c w x Hi _, run_cb_inv True 0 fuel (or_introl I) c w x Hi ltac:(lia))).
    specialize (HS _ (Session_new_inv max_pending Hm) ltac:(lia)).
    rewrite Hstart in HS. apply HS.
Qed.
End Invariant.

Arguments ctx : clear implicits.

(** ** Correctness *)

Section Theorems.
Context {A : Type} `{SendData A} (cfg : config) (e : env A) (max_pending : Z).
Hypothesis limit_ok : 0 ≤ paused_recv_byte_limit_ cfg < 2 ^ 63.
Hypothesis max_ok : 0 ≤ max_pending < 2 ^ 32.

Abbreviation bytes_accepted w := (concat (map data_of (accepted_bufs w))).

(** C1: Whatever the application, the peer and the kernel do, the bytes a
    session has put on the wire are a prefix of the buffers its sends accepted,
    in order; and while it is open nothing is lost: wire, send in flight and
    send queue together are exactly the accepted bytes. *)
Theorem session_send_order w :
  reachable cfg e max_pending w →
  wire w `prefix_of` bytes_accepted w ∧
  (state_ w = kOpen →
   wire w ++ flying (inflight w) (active_send_ev_ w) ++ ref_bytes (pending_ (send_queue_ w))
   = bytes_accepted w).
Proof.
  intros Hr. destruct (reachable_inv cfg e limit_ok max_pending w max_ok Hr)
    as [(_&(_&_&_&_&Hpre)&_) Ho].
  split; [etrans; [|exact Hpre]; by eexists|]. intros E.
  destruct (Ho E) as ((_&Heq&_)&_). done.
Qed.

(** C2: The data handed to the application's [OnRecv] is a prefix of what the
    peer sent, in order, across pauses and backpressure; while the session is
    open the rest is exactly the paused queue, which respects its limit. *)
Theorem session_recv_order w :
  reachable cfg e max_pending w →
  delivered w `prefix_of` received w ∧
  (state_ w = kOpen → delivered w ++ concat (paused_recv_queue_ w) = received w) ∧
  (paused_recv_byte_limit_ cfg ≠ 0 →
   zlen (concat (paused_recv_queue_ w)) ≤ paused_recv_byte_limit_ cfg).
Proof.
  intros Hr. destruct (reachable_inv cfg e limit_ok max_pending w max_ok Hr)
    as [(_&_&(_&?&_&?)) Ho].
  split; [done|]. split; [|done]. intros E. by destruct (Ho E) as (_&?&_).
Qed.

(** C29: An open session never stalls: if buffers are queued a send is in
    flight, and unless receiving is paused a receive is armed and nothing is
    held back. *)
Theorem session_no_stall w :
  reachable cfg e max_pending w → state_ w = kOpen →
  (pending_ (send_queue_ w) ≠ [] → ∃ i iovecs bufs, active_send_ev_ w = Some i ∧
     inflight w !! i = Some (SendOp iovecs bufs)) ∧
  (recv_paused_ w = false → paused_recv_queue_ w = [] ∧
     ∃ i, active_recv_ev_ w = Some i ∧ inflight w !! i = Some RecvOp).
Proof.
  intros Hr E. destruct (reachable_inv cfg e limit_ok max_pending w max_ok Hr)
    as [(_&(Hq&_&_&Hs&_)&(Hact&_)) Ho].
  destruct (Ho E) as ((_&_&_&Hreg)&(_&Hpq&Hrc)). split.
  - intros Hp. destruct Hq as (_&_&_&_&_&Hq&_). specialize (Hq Hp).
    apply Hreg in Hq as [Ha|[?|[? _]]]; [|done..].
    destruct (active_send_ev_ w) as [i|]; [|done].
    destruct (Hs i eq_refl) as (io&bs&?). eauto 10.
  - intros Hpa. split; [by apply Hpq|]. specialize (Hrc eq_refl Hpa).
    destruct (active_recv_ev_ w) as [i|] eqn:Ea; [|done]. exists i. split; [done|].
    by apply Hact.
Qed.

(** C3: A session is released exactly once, and only when the kernel owes it
    nothing: [pending_io_] is the number of operations in flight, the closed
    state has none, and [OnDisconnected] and the release from the manager have
    each happened once if the session is closed and not at all before. *)
Theorem session_release_safe w :
  reachable cfg e max_pending w →
  pending_io_ w = Z.of_nat (size (inflight w)) ∧
  (state_ w = kClosed → inflight w = ∅) ∧
  on_disconnected w = (if decide (state_ w = kClosed) then 1%nat else 0%nat) ∧
  released w = on_disconnected w.
Proof.
  intros Hr. destruct (reachable_inv cfg e limit_ok max_pending w max_ok Hr)
    as [((Hp&_&_&Hc&Hd&Hrel)&_&_) _]. simpl in *.
  split_and!; [lia| |done|lia]. intros E. by destruct (Hc E).
Qed.

(** C37: For an application that makes no call once it has seen [N] events, on
    a session given any limits, [Start] returns, and so does the handling of
    every completion, posted call and timer tick in every reachable state:
    nested callbacks and the loops over queues end.  It then moves the state
    only forwards, gives the provided buffer of a receive back exactly once on
    every path, and reports the operation complete, so that the ring deletes
    it, exactly if it is no longer in flight.  Conditions: the kernel completes
    only operations it was given and transfers no more than they ask for, and
    the application sends no null buffer (SendQueue.h dereferences it).  The
    counters [pending_io_] and [pending_app_io_] and the times are unbounded
    integers here: that they stay within their C++ types is not shown. *)
Theorem session_total N w x :
  (∀ l, (N ≤ length l)%nat → app e l = None) →
  reachable cfg e max_pending w → input_ok x w →
  (∃ w0, Start e (run_cb cfg e N) (Session_new max_pending) = Some w0) ∧
  ∃ w' r, handle cfg e N x w = Some (w', r) ∧ reachable cfg e max_pending w' ∧
    (rank (state_ w) ≤ rank (state_ w'))%nat ∧
    match x with
    | CqeRecv i _ _ _ _ | CqeSend i _ | CqeOther i =>
        r = Some kPending ∧ is_Some (inflight w' !! i) ∨
        r = Some kComplete ∧ inflight w' !! i = None
    | _ => r = None
    end ∧
    match x with
    | CqeRecv _ _ _ buf_id _ => returned w' = returned w ++ option_list buf_id
    | _ => True
    end.
Proof.
  intros HN Hr Hx. split.
  - pose proof (Start_inv cfg e False 0 (run_cb cfg e N)) as HS.
    specialize (HS (λ c w x Hi _,
      run_cb_inv cfg e False N N (or_intror HN) c w x Hi ltac:(lia))).
    specialize (HS _ (Session_new_inv cfg limit_ok max_pending max_ok) ltac:(lia)).
    destruct (Start _ _ _); [eauto|done].
  - pose proof (handle_inv cfg e limit_ok False N N x w (or_intror HN) ltac:(lia)
      (reachable_inv cfg e limit_ok max_pending w max_ok Hr) Hx) as Hp.
    destruct (handle cfg e N x w) as [[w' r]|] eqn:Hh; [|done].
    exists w', r. split; [done|]. split; [|by destruct Hp as (_&?&?&?)].
    destruct Hr as [fuel w0 w1 Hs Hst].
    eapply reach; [exact Hs|]. eapply steps_trans; [exact Hst|].
    eapply steps_one. by econstructor.
Qed.

(** [DisconnectAfterFlush] called while no send is being set up closes the
    session only once every accepted byte is on the wire. *)
Theorem flush_before_disconnect w n w' r :
  reachable cfg e max_pending w → state_ w = kOpen →
  handle cfg e n (Posted DisconnectAfterFlush) w = Some (w', r) → state_ w' ≠ kOpen →
  wire w = bytes_accepted w.
Proof.
  intros Hr E Hh Hne. destruct (reachable_inv cfg e limit_ok max_pending w max_ok Hr)
    as [(_&_&_) Ho]. destruct (Ho E) as ((_&Heq&_)&_).
  revert Hh. simpl. unfold logged_api. simpl.
  unfold DisconnectAfterFlushOnOwner, CanUseOnOwner. rewrite bool_decide_eq_true_2 by done. simpl.
  unfold TryDisconnectAfterFlush, CanUseOnOwner. simpl. rewrite bool_decide_eq_true_2 by done. simpl.
  case_bool_decide as Ha; simpl; [intros; by simplify_eq/=|].
  destruct (Z.eqb_spec (zlen (pending_ (send_queue_ w))) 0) as [Hz|]; simpl;
    [|intros; by simplify_eq/=].
  intros _. apply zlen_zero in Hz. rewrite Hz, Ha in Heq. simpl in Heq.
  unfold flying in Heq. simpl in Heq. by rewrite app_nil_r in Heq.
Qed.
End Theorems.

(** [AdvanceSendState] after a partial send of [n] bytes leaves iovecs
    that cover exactly the unsent bytes, one per remaining buffer, each a
    suffix of its buffer's data and only the first one shortened. *)
Theorem AdvanceSendState_exact {A} `{SendData A} (bufs : list A) n :
  0 ≤ n ≤ zlen (concat (map data_of bufs)) →
  let '(iovs', bufs') := detail.AdvanceSendState (map data_of bufs) bufs n in
  concat iovs' = zdrop n (concat (map data_of bufs)) ∧ length iovs' = length bufs' ∧
  bufs' `suffix_of` bufs ∧ tail iovs' = map data_of (tail bufs').
Proof.
  intros Hn. pose proof (AdvanceSendState_concat (map data_of bufs) bufs n Hn) as Hc.
  unfold detail.AdvanceSendState in *.
  destruct (detail.count_consumed (map data_of bufs) n) as [c r].
  assert (length (drop c (map data_of bufs)) = length (drop c bufs)) as Hl
    by by rewrite !length_drop, length_map.
  assert (drop c bufs `suffix_of` bufs) as Hsuf.
  { exists (take c bufs). by rewrite take_drop. }
  assert (drop c (map data_of bufs) = map data_of (drop c bufs)) as Hd by apply skipn_map.
  rewrite Hd in *. destruct (drop c bufs) as [|b bufs']; simpl in *; [done|].
  destruct (0 <? r); simpl in *; split_and!; try done.
  all: by rewrite length_map.
Qed.

(** ** Runs *)

(** One-byte buffers. *)
#[local] Program Instance ascii_sized : Sized Ascii.ascii := {| size_of _ := 1 |}.
Next Obligation. done. Qed.
#[local] Program Instance ascii_data : SendData Ascii.ascii := {| data_of a := [a] |}.
Next Obligation. done. Qed.

Definition sample_cfg : config := mkConfig 0 0 0 0 0 1048576 false false.

(** Sends two bytes when connected. *)
Definition sample_app (l : list (event Ascii.ascii)) : option (api Ascii.ascii) :=
  match l with
  | [EvCallback OnConnected] => Some (Send "h"%char)
  | [EvCallback OnConnected; EvCall _ _] => Some (Send "i"%char)
  | _ => None
  end.

Definition sample_env : env Ascii.ascii :=
  mkEnv (λ _, true) (λ _, true) Z.of_nat (λ _, false) (λ _, false) sample_app.

Lemma sample_limit_ok : 0 ≤ paused_recv_byte_limit_ sample_cfg < 2 ^ 63.
Proof. simpl. lia. Qed.
Lemma sample_max_ok : 0 ≤ 16 < 2 ^ 32.
Proof. lia. Qed.

(** Connect, complete the first send, receive two bytes. *)
Definition sample_world : option (world Ascii.ascii) :=
  w ← Start sample_env (run_cb sample_cfg sample_env 3) (Session_new 16);
  '(w, _) ← handle sample_cfg sample_env 3 (CqeSend 0 1) w;
  '(w, _) ← handle sample_cfg sample_env 3 (CqeRecv 1 2 true (Some 7) (txt "yo")) w;
  Some w.

Lemma sample_reachable w : sample_world = Some w → reachable sample_cfg sample_env 16 w.
Proof.
  unfold sample_world. intros (w0&E0&Hs)%bind_Some.
  apply bind_Some in Hs as ([w1 r1]&E1&Hs). apply bind_Some in Hs as ([w2 r2]&E2&Hs).
  injection Hs as <-. eapply reach; [exact E0|].
  vm_compute in E0. injection E0 as <-.
  eapply steps_cons; [eapply (step_input _ _ 3 (CqeSend 0 1)); [|exact E1]|].
  { do 2 eexists. split; [vm_compute; reflexivity|]. vm_compute. done. }
  vm_compute in E1. injection E1 as <- <-.
  eapply steps_cons; [eapply (step_input _ _ 3 (CqeRecv 1 2 true (Some 7) (txt "yo"))); [|exact E2]|].
  { split; [vm_compute; reflexivity|]. split; [reflexivity|done]. }
  apply steps_refl.
Qed.

(** The sample run as a concrete session. *)
Lemma sample_defined : ∃ w, sample_world = Some w ∧ reachable sample_cfg sample_env 16 w ∧
  state_ w = kOpen ∧ wire w = txt "h" ∧ delivered w = txt "yo".
Proof.
  destruct sample_world as [w|] eqn:E; [|by vm_compute in E]. exists w.
  split; [done|]. split; [by apply sample_reachable|].
  vm_compute in E. injection E as <-. done.
Qed.

Lemma session_send_order_witness : ∃ w, sample_world = Some w ∧
  wire w `prefix_of` concat (map data_of (accepted_bufs w)) ∧
  (state_ w = kOpen →
   wire w ++ flying (inflight w) (active_send_ev_ w) ++ ref_bytes (pending_ (send_queue_ w))
   = concat (map data_of (accepted_bufs w))).
Proof.
  destruct sample_defined as (w&Hw&Hr&_). exists w. split; [done|].
  exact (session_send_order sample_cfg sample_env 16 sample_limit_ok sample_max_ok w Hr).
Defined.

Lemma session_recv_order_witness : ∃ w, sample_world = Some w ∧
  delivered w `prefix_of` received w ∧
  (state_ w = kOpen → delivered w ++ concat (paused_recv_queue_ w) = received w) ∧
  (paused_recv_byte_limit_ sample_cfg ≠ 0 →
   zlen (concat (paused_recv_queue_ w)) ≤ paused_recv_byte_limit_ sample_cfg).
Proof.
  destruct sample_defined as (w&Hw&Hr&_). exists w. split; [done|].
  exact (session_recv_order sample_cfg sample_env 16 sample_limit_ok sample_max_ok w Hr).
Defined.

Lemma session_no_stall_witness : ∃ w, sample_world = Some w ∧
  (pending_ (send_queue_ w) ≠ [] → ∃ i iovecs bufs, active_send_ev_ w = Some i ∧
     inflight w !! i = Some (SendOp iovecs bufs)) ∧
  (recv_paused_ w = false → paused_recv_queue_ w = [] ∧
     ∃ i, active_recv_ev_ w = Some i ∧ inflight w !! i = Some RecvOp).
Proof.
  destruct sample_defined as (w&Hw&Hr&Ho&_). exists w. split; [done|].
  exact (session_no_stall sample_cfg sample_env 16 sample_limit_ok sample_max_ok w Hr Ho).
Defined.

Lemma session_release_safe_witness : ∃ w, sample_world = Some w ∧
  pending_io_ w = Z.of_nat (size (inflight w)) ∧
  (state_ w = kClosed → inflight w = ∅) ∧
  on_disconnected w = (if decide (state_ w = kClosed) then 1%nat else 0%nat) ∧
  released w = on_disconnected w.
Proof.
  destruct sample_defined as (w&Hw&Hr&_). exists w. split; [done|].
  exact (session_release_safe sample_cfg sample_env 16 sample_limit_ok sample_max_ok w Hr).
Defined.

Lemma session_total_witness : ∃ w, sample_world = Some w ∧
  (∃ w0, Start sample_env (run_cb sample_cfg sample_env 3) (Session_new 16) = Some w0) ∧
  ∃ w' r, handle sample_cfg sample_env 3 (CqeRecv 1 0 false (Some 8) []) w = Some (w', r) ∧
    reachable sample_cfg sample_env 16 w' ∧
    (rank (state_ w) ≤ rank (state_ w'))%nat ∧
    (r = Some kPending ∧ is_Some (inflight w' !! 1%nat) ∨
     r = Some kComplete ∧ inflight w' !! 1%nat = None) ∧
    returned w' = returned w ++ [8].
Proof.
  destruct sample_defined as (w&Hw&Hr&_). exists w. split; [done|].
  apply (session_total sample_cfg sample_env 16 sample_limit_ok sample_max_ok 3 w
    (CqeRecv 1 0 false (Some 8) [])); [|exact Hr|].
  - clear. intros l Hl. destruct l as [|a [|b [|c l]]]; simpl in Hl; [lia..|].
    destruct a as [[]|]; try reflexivity. by destruct b.
  - vm_compute in Hw. injection Hw as <-. split; [vm_compute; reflexivity|]. done.
Defined.

Lemma AdvanceSendState_exact_witness :
  let '(iovs', bufs') := detail.AdvanceSendState (map data_of (txt "abc")) (txt "abc") 2 in
  concat iovs' = zdrop 2 (concat (map data_of (txt "abc"))) ∧ length iovs' = length bufs' ∧
  bufs' `suffix_of` txt "abc" ∧ tail iovs' = map data_of (tail bufs').
Proof. apply AdvanceSendState_exact. vm_compute. done. Defined.

(** An application that sends one byte and, when told that backpressure is
    over, asks for a disconnect after the flush. *)
Definition closing_app (l : list (event Ascii.ascii)) : option (api Ascii.ascii) :=
  match l with
  | [EvCallback OnConnected] => Some (Send "x"%char)
  | [EvCallback OnConnected; EvCallback (OnBackpressure true);
     EvCallback (OnBackpressure false)] => Some DisconnectAfterFlush
  | _ => None
  end.

Definition closing_env : env Ascii.ascii :=
  mkEnv (λ _, true) (λ _, true) Z.of_nat (λ _, false) (λ _, false) closing_app.

(** [RegisterSend] drains the queue before it reports the end of
    backpressure, and [TryDisconnectAfterFlush] looks only at the queue and the
    send in flight: an application that calls [DisconnectAfterFlush] from
    [OnBackpressure(false)] is disconnected at once, and the buffer whose send
    was reported successful never reaches the wire. *)
Theorem flush_loses_drained_batch :
  ∃ w, Start closing_env (run_cb (mkConfig 1 0 0 0 0 0 false false) closing_env 8)
         (Session_new 16) = Some w ∧
    EvCall (Send "x"%char) (Value tt) ∈ log w ∧
    EvCall DisconnectAfterFlush (Value tt) ∈ log w ∧
    accepted_bufs w = ["x"%char] ∧ wire w = [] ∧ state_ w ≠ kOpen ∧
    active_send_ev_ w = None ∧ pending_ (send_queue_ w) = [].
Proof.
  destruct (Start _ _ _) as [w|] eqn:E; vm_compute in E; [|done].
  injection E as <-. eexists. split; [done|]. cbn [log accepted_bufs wire state_].
  split; [|split; [|done]]; set_solver.
Qed.

(** The first sample after its sends have completed. *)
Lemma flush_before_disconnect_witness : ∃ w w' r,
  reachable sample_cfg sample_env 16 w ∧
  handle sample_cfg sample_env 3 (Posted DisconnectAfterFlush) w = Some (w', r) ∧
  wire w = concat (map data_of (accepted_bufs w)) ∧ wire w = txt "hi".
Proof.
  destruct sample_defined as (w1&Hw1&Hr1&_).
  destruct (handle sample_cfg sample_env 3 (CqeSend 2 1) w1) as [[w r0]|] eqn:E1.
  2: { vm_compute in Hw1. injection Hw1 as <-. by vm_compute in E1. }
  assert (reachable sample_cfg sample_env 16 w) as Hr.
  { destruct Hr1 as [fuel w0 w1 Hs Hst]. eapply reach; [exact Hs|].
    eapply steps_trans; [exact Hst|]. eapply steps_one, step_input; [|exact E1].
    vm_compute in Hw1. injection Hw1 as <-.
    do 2 eexists. split; [vm_compute; reflexivity|]. vm_compute. done. }
  destruct (handle sample_cfg sample_env 3 (Posted DisconnectAfterFlush) w) as [[w' r]|] eqn:E2.
  - exists w, w', r. split; [done|]. split; [done|].
    vm_compute in Hw1. injection Hw1 as <-. vm_compute in E1. injection E1 as <- <-.
    vm_compute in E2. injection E2 as <- <-. split; [|done].
    eapply (flush_before_disconnect sample_cfg sample_env 16 sample_limit_ok sample_max_ok _ 3 _ _ Hr);
      [done|vm_compute; reflexivity|done].
  - vm_compute in Hw1. injection Hw1 as <-. vm_compute in E1. injection E1 as <- <-.
    by vm_compute in E2.
Defined.
