(* ===== verification/HttpRequest.v ===== *)
(** * HTTP requests

    [include/iouring_runtime/web/HttpMethod.h] and
    [include/iouring_runtime/web/HttpRequest.h]: the parsed request a handler
    sees, with its lookups over headers, query string, route parameters and
    cookies.  A [std::string_view] result is modelled by the text it shows; the
    empty view that stands for "not found" is []. *)

From S2P Require Import Prelude Text.

#[local] Open Scope Z_scope.
#[local] Set Warnings "-clear-no-such-hyp".

(** ** Data *)

(** Source: include/iouring_runtime/web/HttpMethod.h:8-17, HttpMethod. *)
Inductive HttpMethod :=
| kGet | kHead | kPost | kPut | kDelete | kOptions | kPatch | kUnknown.

#[export] Instance HttpMethod_eq_dec : EqDecision HttpMethod.
Proof. solve_decision. Defined.

(** Source: include/iouring_runtime/web/HttpMethod.h:19-30, HttpMethodFromLlhttp. *)
Definition HttpMethodFromLlhttp (method : Z) : HttpMethod :=
  match method with
  | 0 => kDelete
  | 1 => kGet
  | 2 => kHead
  | 3 => kPost
  | 4 => kPut
  | 6 => kOptions
  | 28 => kPatch
  | _ => kUnknown
  end.

(** Source: include/iouring_runtime/web/HttpMethod.h:32-44, HttpMethodToString. *)
Definition HttpMethodToString (method : HttpMethod) : bytes :=
  match method with
  | kGet => txt "GET"
  | kHead => txt "HEAD"
  | kPost => txt "POST"
  | kPut => txt "PUT"
  | kDelete => txt "DELETE"
  | kOptions => txt "OPTIONS"
  | kPatch => txt "PATCH"
  | kUnknown => txt "UNKNOWN"
  end.

(** Source: include/iouring_runtime/web/HttpRequest.h:19-22, HttpRequest::Header. *)
Record Header := MkHeader { header_name : bytes; header_value : bytes }.

(** Source: include/iouring_runtime/web/HttpRequest.h:24-29, HttpRequest. *)
Record HttpRequest := MkRequest {
  method : HttpMethod;
  path : bytes;
  query : bytes;
  body : bytes;
  keep_alive : bool;
  request_id : bytes;
  headers_ : list Header;
  params_ : list (bytes * bytes)
}.

(** The state a default-constructed request is in. *)
Definition empty_request : HttpRequest := MkRequest kUnknown [] [] [] true [] [] [].

(** ** Character classes *)

(** [value >= lo && value <= hi] on characters of the ASCII range. *)
Definition char_in (lo hi : ascii) (c : byte) : bool :=
  (byte_val lo <=? byte_val c) && (byte_val c <=? byte_val hi).

(** Source: include/iouring_runtime/web/HttpRequest.h:294-298, HttpRequest::ToLower. *)
Definition ToLower (value : byte) : byte :=
  if char_in "A" "Z" value then byte_of (byte_val value + (byte_val "a" - byte_val "A"))
  else value.

(** Source: include/iouring_runtime/web/HttpRequest.h:282-292, HttpRequest::CaseInsensitiveEqual. *)
Definition CaseInsensitiveEqual (lhs rhs : bytes) : bool :=
  if bool_decide (length lhs ≠ length rhs) then false
  else forallb (λ '(l, r), bool_decide (ToLower l = ToLower r)) (zip lhs rhs).

(** Source: include/iouring_runtime/web/HttpRequest.h:300-311, HttpRequest::HexValue. *)
Definition HexValue (value : byte) : Z :=
  if char_in "0" "9" value then byte_val value - byte_val "0"
  else if char_in "a" "f" value then byte_val value - byte_val "a" + 10
  else if char_in "A" "F" value then byte_val value - byte_val "A" + 10
  else -1.

(** Source: include/iouring_runtime/web/HttpRequest.h:313-336, HttpRequest::PercentDecode.
    The index loop, which skips the two digits of an escape it decodes. *)
Fixpoint PercentDecode (value : bytes) (plus_as_space : bool) : bytes :=
  match value with
  | [] => []
  | ch :: rest =>
    if plus_as_space && bool_decide (ch = "+"%char) then
      " "%char :: PercentDecode rest plus_as_space
    else
      match rest with
      | c1 :: c2 :: rest' =>
        if bool_decide (ch = "%"%char) && (0 <=? HexValue c1) && (0 <=? HexValue c2) then
          byte_of (Z.lor (Z.shiftl (HexValue c1) 4) (HexValue c2))
          :: PercentDecode rest' plus_as_space
        else ch :: PercentDecode rest plus_as_space
      | _ => ch :: PercentDecode rest plus_as_space
      end
  end.

Definition is_blank (c : byte) : bool :=
  bool_decide (c = " "%char) || bool_decide (c = ascii_of_nat 9).

Fixpoint trim_front (value : bytes) : bytes :=
  match value with
  | c :: rest => if is_blank c then trim_front rest else value
  | [] => []
  end.

(** Source: include/iouring_runtime/web/HttpRequest.h:338-348, HttpRequest::TrimAsciiWhitespace. *)
Definition TrimAsciiWhitespace (value : bytes) : bytes :=
  reverse (trim_front (reverse (trim_front value))).

(** ** Headers *)

(** Source: include/iouring_runtime/web/HttpRequest.h:31-38, HttpRequest::GetHeader. *)
Definition GetHeader (r : HttpRequest) (name : bytes) : bytes :=
  match find (λ h, CaseInsensitiveEqual (header_name h) name) (headers_ r) with
  | Some h => header_value h
  | None => []
  end.

(** Source: include/iouring_runtime/web/HttpRequest.h:40-47, HttpRequest::HasHeader. *)
Definition HasHeader (r : HttpRequest) (name : bytes) : bool :=
  existsb (λ h, CaseInsensitiveEqual (header_name h) name) (headers_ r).

(** Source: include/iouring_runtime/web/HttpRequest.h:49-51, HttpRequest::ContentType. *)
Definition ContentType (r : HttpRequest) : bytes := GetHeader r (txt "Content-Type").

(** Source: include/iouring_runtime/web/HttpRequest.h:53-61, HttpRequest::ContentLength.
    [from_chars] leaves the result as it was, zero, on either error. *)
Definition ContentLength (r : HttpRequest) : Z :=
  match GetHeader r (txt "Content-Length") with
  | [] => 0
  | value =>
    match from_chars 0 (2 ^ 64 - 1) value with
    | Parsed v _ => v
    | InvalidArgument | OutOfRange => 0
    end
  end.

(** ** Query string *)

(** Key and value of one [&]-separated part of the query string. *)
Definition split_part (part : bytes) : bytes * bytes :=
  match split_at "="%char part with
  | None => (part, [])
  | Some (key, value) => (key, value)
  end.

(** The loop over the [sep]-separated parts of [remaining] that looks for a key:
    each part is split into key and value by [split].  [fuel] bounds the
    iterations: each one but the last consumes a separator. *)
Fixpoint find_field (sep : byte) (split : bytes → bytes * bytes) (fuel : nat)
    (remaining name : bytes) : option bytes :=
  match fuel, remaining with
  | O, _ | _, [] => None
  | S fuel, _ =>
    match split_at sep remaining with
    | Some (part, rest) =>
      let '(key, value) := split part in
      if decide (key = name) then Some value else find_field sep split fuel rest name
    | None =>
      let '(key, value) := split remaining in
      if decide (key = name) then Some value else None
    end
  end.

(** Source: include/iouring_runtime/web/HttpRequest.h:207-238, HttpRequest::FindQueryParam. *)
Definition FindQueryParam (r : HttpRequest) (name : bytes) : option bytes :=
  match query r with
  | [] => None
  | q => find_field "&"%char split_part (length q) q name
  end.

(** Source: include/iouring_runtime/web/HttpRequest.h:63-66, HttpRequest::QueryParam. *)
Definition QueryParam (r : HttpRequest) (name : bytes) : bytes :=
  default [] (FindQueryParam r name).

(** Source: include/iouring_runtime/web/HttpRequest.h:68-70, HttpRequest::HasQueryParam. *)
Definition HasQueryParam (r : HttpRequest) (name : bytes) : bool :=
  bool_decide (is_Some (FindQueryParam r name)).

(** Source: include/iouring_runtime/web/HttpRequest.h:72-78, HttpRequest::QueryParamDecoded. *)
Definition QueryParamDecoded (r : HttpRequest) (name : bytes) : bytes :=
  match FindQueryParam r name with
  | None => []
  | Some found => PercentDecode found true
  end.

(** ** Route parameters *)

(** Source: include/iouring_runtime/web/HttpRequest.h:240-247, HttpRequest::FindParam. *)
Definition FindParam (r : HttpRequest) (name : bytes) : option bytes :=
  snd <$> find (λ kv, bool_decide (fst kv = name)) (params_ r).

(** Source: include/iouring_runtime/web/HttpRequest.h:95-98, HttpRequest::Param. *)
Definition Param (r : HttpRequest) (name : bytes) : bytes := default [] (FindParam r name).

(** Source: include/iouring_runtime/web/HttpRequest.h:100-102, HttpRequest::HasParam. *)
Definition HasParam (r : HttpRequest) (name : bytes) : bool :=
  bool_decide (is_Some (FindParam r name)).

(** Source: include/iouring_runtime/web/HttpRequest.h:104-110, HttpRequest::ParamDecoded. *)
Definition ParamDecoded (r : HttpRequest) (name : bytes) : bytes :=
  match FindParam r name with
  | None => []
  | Some found => PercentDecode found false
  end.

(** ** Typed conversion *)

(** What a template instance of [ConvertValue] converts to; an integer type is
    given by its range.  Floating-point instances are left out. *)
Inductive convert_type := TyString | TyBool | TyInt (lo hi : Z).
Inductive converted := CString (s : bytes) | CBool (b : bool) | CInt (n : Z).

(** Source: include/iouring_runtime/web/HttpRequest.h:249-280, HttpRequest::ConvertValue. *)
Definition ConvertValue (T : convert_type) (value : bytes) : option converted :=
  match T with
  | TyString => Some (CString value)
  | TyBool =>
    if decide (value = txt "true") then Some (CBool true)
    else if decide (value = txt "1") then Some (CBool true)
    else if decide (value = txt "false") then Some (CBool false)
    else if decide (value = txt "0") then Some (CBool false)
    else None
  | TyInt lo hi =>
    match value with
    | [] => None
    | _ =>
      match from_chars lo hi value with
      | Parsed v [] => Some (CInt v)
      | Parsed _ (_ :: _) | InvalidArgument | OutOfRange => None
      end
    end
  end.

(** Source: include/iouring_runtime/web/HttpRequest.h:80-87, HttpRequest::QueryParamAs. *)
Definition QueryParamAs (T : convert_type) (r : HttpRequest) (name : bytes) : option converted :=
  found ← FindQueryParam r name; ConvertValue T found.

(** Source: include/iouring_runtime/web/HttpRequest.h:89-93, HttpRequest::QueryParam.
    The overload with a default. *)
Definition QueryParamOr (T : convert_type) (r : HttpRequest) (name : bytes)
    (default_value : converted) : converted :=
  default default_value (QueryParamAs T r name).

(** Source: include/iouring_runtime/web/HttpRequest.h:153-160, HttpRequest::ParamAs. *)
Definition ParamAs (T : convert_type) (r : HttpRequest) (name : bytes) : option converted :=
  found ← FindParam r name; ConvertValue T found.

(** Source: include/iouring_runtime/web/HttpRequest.h:162-166, HttpRequest::Param.
    The overload with a default. *)
Definition ParamOr (T : convert_type) (r : HttpRequest) (name : bytes)
    (default_value : converted) : converted :=
  default default_value (ParamAs T r name).

(** ** Cookies *)

(** Key and value of one [;]-separated part of the cookie header. *)
Definition split_cookie (part : bytes) : bytes * bytes :=
  let part := TrimAsciiWhitespace part in
  match split_at "="%char part with
  | None => (TrimAsciiWhitespace part, [])
  | Some (key, value) => (TrimAsciiWhitespace key, TrimAsciiWhitespace value)
  end.

(** Source: include/iouring_runtime/web/HttpRequest.h:112-139, HttpRequest::Cookie. *)
Definition Cookie (r : HttpRequest) (name : bytes) : bytes :=
  match GetHeader r (txt "Cookie") with
  | [] => []
  | cookie_header =>
    default [] (find_field ";"%char split_cookie (length cookie_header) cookie_header name)
  end.

(** Source: include/iouring_runtime/web/HttpRequest.h:141-143, HttpRequest::HasCookie. *)
Definition HasCookie (r : HttpRequest) (name : bytes) : bool :=
  bool_decide (Cookie r name ≠ []).

(** Source: include/iouring_runtime/web/HttpRequest.h:145-151, HttpRequest::CookieDecoded. *)
Definition CookieDecoded (r : HttpRequest) (name : bytes) : bytes :=
  match Cookie r name with
  | [] => []
  | value => PercentDecode value false
  end.

(** ** Updates *)

(** Source: include/iouring_runtime/web/HttpRequest.h:168-170, HttpRequest::AddHeader. *)
Definition AddHeader (r : HttpRequest) (name value : bytes) : HttpRequest :=
  MkRequest (method r) (path r) (query r) (body r) (keep_alive r) (request_id r)
    (headers_ r ++ [MkHeader name value]) (params_ r).

(** Source: include/iouring_runtime/web/HttpRequest.h:184-186, HttpRequest::SetParams. *)
Definition SetParams (r : HttpRequest) (params : list (bytes * bytes)) : HttpRequest :=
  MkRequest (method r) (path r) (query r) (body r) (keep_alive r) (request_id r)
    (headers_ r) params.

(** Source: include/iouring_runtime/web/HttpRequest.h:188-190, HttpRequest::ClearParams. *)
Definition ClearParams (r : HttpRequest) : HttpRequest := SetParams r [].

(** Source: include/iouring_runtime/web/HttpRequest.h:192-201, HttpRequest::Clear. *)
Definition Clear (r : HttpRequest) : HttpRequest :=
  MkRequest kUnknown [] [] [] true [] [] [].

(** ** Lookup of header names *)

Lemma CaseInsensitiveEqual_spec lhs rhs :
  CaseInsensitiveEqual lhs rhs = bool_decide (ToLower <$> lhs = ToLower <$> rhs).
Proof.
  unfold CaseInsensitiveEqual. case_bool_decide as Hl.
  - symmetry. apply bool_decide_eq_false. intros E. apply Hl.
    apply (f_equal length) in E. by rewrite !length_fmap in E.
  - revert rhs Hl.
    induction lhs as [|l lhs IH]; intros [|r rhs] Hl; try done.
    simpl. rewrite IH by (simpl in Hl; lia). rewrite <-bool_decide_and.
    apply bool_decide_ext. split; [intros [? ?]; by f_equal|by injection 1].
Qed.

(** A lookup sees names up to letter case. *)
Lemma CaseInsensitiveEqual_same lhs n1 n2 :
  ToLower <$> n1 = ToLower <$> n2 → CaseInsensitiveEqual lhs n1 = CaseInsensitiveEqual lhs n2.
Proof. intros E. by rewrite !CaseInsensitiveEqual_spec, E. Qed.

Lemma GetHeader_HasHeader r name :
  HasHeader r name = false → GetHeader r name = [].
Proof.
  unfold HasHeader, GetHeader. induction (headers_ r) as [|h hs IH]; simpl; [done|].
  destruct (CaseInsensitiveEqual (header_name h) name); [done|]. apply IH.
Qed.

(** The first header of a name is the one a lookup returns. *)
Lemma GetHeader_AddHeader r name value n :
  GetHeader (AddHeader r name value) n =
    if HasHeader r n then GetHeader r n
    else if CaseInsensitiveEqual name n then value else [].
Proof.
  unfold GetHeader, HasHeader, AddHeader. simpl.
  induction (headers_ r) as [|h hs IH]; simpl.
  - by destruct (CaseInsensitiveEqual name n).
  - destruct (CaseInsensitiveEqual (header_name h) n); [done|]. apply IH.
Qed.

(** A decimal Content-Length header is read back exactly: adding a header
    whose name is "Content-Length" in any letter case, with the decimal text of
    [n] as value, to a request that has none makes [ContentLength] return [n]
    when [n] fits 64 bits, and 0 (the result [from_chars] leaves untouched) when
    it does not. *)
Theorem ContentLength_decimal r name n :
  ToLower <$> name = ToLower <$> txt "Content-Length" →
  HasHeader r (txt "Content-Length") = false → 0 ≤ n →
  ContentLength (AddHeader r name (to_string n)) = if n <? 2 ^ 64 then n else 0.
Proof.
  intros Hname Hno Hn. unfold ContentLength.
  rewrite GetHeader_AddHeader, Hno, CaseInsensitiveEqual_spec, bool_decide_true by done.
  pose proof (from_chars_to_string 0 (2 ^ 64 - 1) n [] ltac:(lia) Hn I) as Hfc.
  rewrite app_nil_r in Hfc.
  destruct (to_string n) as [|b ds] eqn:E; [by destruct (to_string_value n Hn) as (_&_&?)|].
  rewrite Hfc. destruct (Z.leb_spec n (2 ^ 64 - 1)), (Z.ltb_spec n (2 ^ 64)); lia.
Qed.

Lemma ContentLength_decimal_witness :
  ContentLength (AddHeader empty_request (txt "content-LENGTH") (to_string 1048576)) = 1048576.
Proof.
  exact (ContentLength_decimal empty_request (txt "content-LENGTH") 1048576
           eq_refl eq_refl ltac:(done)).
Defined.

(** ** Percent encoding *)

(** The reference encoder of RFC 3986: unreserved characters stand for
    themselves, any other byte is [%] and two hexadecimal digits. *)
Definition hex_digit (n : Z) : byte :=
  if n <? 10 then byte_of (48 + n) else byte_of (55 + n).

Definition unreserved (c : byte) : bool :=
  char_in "A" "Z" c || char_in "a" "z" c || char_in "0" "9" c ||
  existsb (λ d, bool_decide (c = d)) (txt "-._~").

Definition encode_byte (c : byte) : bytes :=
  if unreserved c then [c]
  else ["%"%char; hex_digit (byte_val c / 16); hex_digit (byte_val c mod 16)].

Definition percent_encode (s : bytes) : bytes := s ≫= encode_byte.

Lemma PercentDecode_plain c rest p :
  c ≠ "%"%char → (p = true → c ≠ "+"%char) →
  PercentDecode (c :: rest) p = c :: PercentDecode rest p.
Proof.
  intros Hc Hp. simpl. rewrite (bool_decide_false (c = "%"%char)) by done.
  replace (p && bool_decide (c = "+"%char)) with false
    by (destruct p; [rewrite bool_decide_false; auto|done]).
  by destruct rest as [|? [|? ?]].
Qed.

(** What the encoder emits for one byte: a plain character, or an escape whose
    digits give the byte back; none of it is a separator. *)
Lemma encode_byte_cases c :
  (encode_byte c = [c] ∧ c ≠ "%"%char ∧ c ≠ "+"%char ∧ c ≠ "&"%char) ∨
  (∃ h l, encode_byte c = ["%"%char; h; l] ∧ 0 ≤ HexValue h ∧ 0 ≤ HexValue l ∧
     byte_of (Z.lor (Z.shiftl (HexValue h) 4) (HexValue l)) = c ∧
     h ≠ "&"%char ∧ l ≠ "&"%char).
Proof.
  destruct c as [[] [] [] [] [] [] [] []];
    (left; repeat split; (reflexivity || discriminate)) ||
    (right; do 2 eexists; split; [vm_compute; reflexivity|];
     repeat split; first [reflexivity | discriminate]).
Qed.

Lemma PercentDecode_encode_byte c rest p :
  PercentDecode (encode_byte c ++ rest) p = c :: PercentDecode rest p.
Proof.
  destruct (encode_byte_cases c) as [(->&?&?&_)|(h&l&->&Hh&Hl&Hc&_)].
  - by apply PercentDecode_plain.
  - simpl. rewrite andb_false_r, !(proj2 (Z.leb_le _ _)), Hc by done. done.
Qed.

Lemma PercentDecode_encode s p : PercentDecode (percent_encode s) p = s.
Proof.
  induction s as [|c s IH]; [done|].
  unfold percent_encode. cbn [mbind list_bind]. fold (percent_encode s).
  by rewrite PercentDecode_encode_byte, IH.
Qed.

Lemma percent_encode_no_amp s : "&"%char ∉ percent_encode s.
Proof.
  unfold percent_encode. rewrite list_elem_of_bind. intros (c&Hin&_). revert Hin.
  destruct (encode_byte_cases c) as [(->&?&?&?)|(h&l&->&_&_&_&?&?)];
    rewrite !elem_of_cons, elem_of_nil; naive_solver.
Qed.

(** ** Separated fields *)

(** The parts joined with [sep] between them. *)
Fixpoint join (sep : byte) (parts : list bytes) : bytes :=
  match parts with
  | [] => []
  | [part] => part
  | part :: parts => part ++ sep :: join sep parts
  end.

(** First binding of a key in an association list. *)
Fixpoint assoc (name : bytes) (fields : list (bytes * bytes)) : option bytes :=
  match fields with
  | [] => None
  | (key, value) :: fields => if decide (key = name) then Some value else assoc name fields
  end.

Lemma assoc_is_Some name fields : is_Some (assoc name fields) ↔ name ∈ fields.*1.
Proof.
  induction fields as [|[k v] fields IH]; simpl.
  - rewrite elem_of_nil. split; [by intros [? ?]|done].
  - rewrite elem_of_cons. case_decide as Hk; naive_solver.
Qed.

Lemma assoc_fmap f name fields :
  assoc name (prod_map id f <$> fields) = f <$> assoc name fields.
Proof. induction fields as [|[k v] fields IH]; simpl; [done|]. by case_decide. Qed.

(** On the join of non-empty separator-free parts the loop is the association
    list lookup over the split parts; one unit of fuel per part is enough. *)
Lemma find_field_join sep split fuel parts name :
  Forall (λ part, part ≠ [] ∧ sep ∉ part) parts → (length parts ≤ fuel)%nat →
  find_field sep split fuel (join sep parts) name = assoc name (split <$> parts).
Proof.
  intros Hparts. revert fuel.
  induction Hparts as [|part parts [Hne Hsep] Hparts IH]; intros fuel Hf.
  - by destruct fuel.
  - destruct fuel as [|fuel]; [simpl in Hf; lia|]. rewrite fmap_cons. cbn [assoc].
    destruct parts as [|part' parts].
    + cbn [join find_field]. rewrite (proj2 (split_at_None sep part)) by done.
      destruct (split part) as [k v]. by destruct part.
    + change (join sep (part :: part' :: parts)) with
        (part ++ sep :: join sep (part' :: parts)).
      cbn [find_field]. rewrite split_at_app by done.
      destruct (split part) as [k v].
      rewrite IH by (simpl in *; lia). destruct part; [done|]. done.
Qed.

Lemma join_length sep parts :
  Forall (λ part, part ≠ [] ∧ sep ∉ part) parts → (length parts ≤ length (join sep parts))%nat.
Proof.
  induction 1 as [|part parts [Hne _] _ IH]; [done|].
  assert (1 ≤ length part)%nat by (destruct part; simpl; [done|lia]).
  destruct parts as [|part' parts]; [done|].
  change (join sep (part :: part' :: parts)) with (part ++ sep :: join sep (part' :: parts)).
  rewrite length_app, !length_cons in *. lia.
Qed.

(** A query string with raw keys and percent-encoded values. *)
Definition render_query (ps : list (bytes * bytes)) : bytes :=
  join "&"%char ((λ '(k, v), k ++ "="%char :: percent_encode v) <$> ps).

Definition plain_key (k : bytes) : Prop := ("&"%char ∉ k) ∧ ("="%char ∉ k).

Lemma FindQueryParam_render r ps name :
  Forall (λ kv, plain_key kv.1) ps → query r = render_query ps →
  FindQueryParam r name = percent_encode <$> assoc name ps.
Proof.
  intros Hps Hq. unfold FindQueryParam. rewrite Hq. unfold render_query.
  set (parts := (λ '(k, v), k ++ "="%char :: percent_encode v) <$> ps).
  assert (Forall (λ part, part ≠ [] ∧ "&"%char ∉ part) parts) as Hparts.
  { apply Forall_fmap. eapply Forall_impl; [exact Hps|]. intros [k v] [Hamp Heq]. simpl. split.
    - intros E. by apply app_eq_nil in E as [_ ?].
    - rewrite elem_of_app, elem_of_cons. pose proof (percent_encode_no_amp v). naive_solver. }
  assert (split_part <$> parts = prod_map id percent_encode <$> ps) as Hsp.
  { unfold parts. rewrite <-list_fmap_compose. apply list_fmap_ext. intros i [k v] Hi.
    apply (Forall_lookup_1 _ _ _ _ Hps) in Hi as [_ Heq]. unfold split_part. simpl.
    by rewrite split_at_app. }
  pose proof (find_field_join "&"%char split_part (length (join "&"%char parts)) parts name
                Hparts (join_length _ _ Hparts)) as Hff.
  rewrite Hsp, assoc_fmap in Hff. rewrite <-Hff.
  by destruct (join "&"%char parts).
Qed.

(** A query string written from name/value pairs, with every value
    percent-encoded, is read back: [QueryParamDecoded] returns the value of the
    first pair with the name asked for (the empty string when there is none) and
    [HasQueryParam] tells whether there is one, for arbitrary bytes in the
    values and keys without separators. *)
Theorem query_roundtrip r ps name :
  Forall (λ kv, plain_key kv.1) ps → query r = render_query ps →
  QueryParamDecoded r name = default [] (assoc name ps) ∧
  HasQueryParam r name = bool_decide (name ∈ ps.*1).
Proof.
  intros Hps Hq. pose proof (FindQueryParam_render r ps name Hps Hq) as Hf.
  unfold QueryParamDecoded, HasQueryParam. rewrite Hf. split.
  - destruct (assoc name ps) as [v|]; simpl; [apply PercentDecode_encode|done].
  - apply bool_decide_ext. by rewrite fmap_is_Some, assoc_is_Some.
Qed.

Definition sample_pairs : list (bytes * bytes) :=
  [(txt "q", txt "a b&c=d"); (txt "page", txt "2"); (txt "q", txt "later")].

Lemma query_roundtrip_witness :
  let r := MkRequest kGet [] (render_query sample_pairs) [] true [] [] [] in
  QueryParamDecoded r (txt "q") = txt "a b&c=d" ∧ HasQueryParam r (txt "q") = true.
Proof.
  refine (query_roundtrip (MkRequest kGet [] (render_query sample_pairs) [] true [] [] [])
            sample_pairs (txt "q") _ eq_refl).
  repeat constructor; vm_compute; intros Hin; inversion Hin; subst;
    repeat match goal with H : _ ∈ _ |- _ => inversion H; clear H; subst end.
Defined.

(** ** Cookies *)

(** A text TrimAsciiWhitespace leaves alone. *)
Definition trimmed (s : bytes) : Prop :=
  (∀ c, head s = Some c → is_blank c = false) ∧ (∀ c, last s = Some c → is_blank c = false).

Lemma trim_front_id s : (∀ c, head s = Some c → is_blank c = false) → trim_front s = s.
Proof. destruct s as [|c s]; simpl; intros Hs; [done|]. by rewrite Hs. Qed.

Lemma TrimAsciiWhitespace_id s : trimmed s → TrimAsciiWhitespace s = s.
Proof.
  intros [Hf Hl]. unfold TrimAsciiWhitespace. rewrite (trim_front_id s) by done.
  rewrite trim_front_id, reverse_involutive; [done|]. intros c. rewrite head_reverse. apply Hl.
Qed.

Lemma TrimAsciiWhitespace_blank s : TrimAsciiWhitespace (" "%char :: s) = TrimAsciiWhitespace s.
Proof. done. Qed.

(** The Cookie header a client sends: pairs joined by a semicolon and a space. *)
Definition render_cookies (cs : list (bytes * bytes)) : bytes :=
  match (λ '(k, v), k ++ "="%char :: v) <$> cs with
  | [] => []
  | c :: cs => join ";"%char (c :: ((λ c, " "%char :: c) <$> cs))
  end.

(** Cookie names and values of RFC 6265: no separator, blank or equals sign in
    the name, no semicolon in the value, no blank around either. *)
Definition cookie_ok (kv : bytes * bytes) : Prop :=
  kv.1 ≠ [] ∧ trimmed kv.1 ∧ trimmed kv.2 ∧
  ("="%char ∉ kv.1) ∧ (";"%char ∉ kv.1) ∧ (";"%char ∉ kv.2).

Lemma split_cookie_render k v :
  cookie_ok (k, v) → split_cookie (k ++ "="%char :: v) = (k, v).
Proof.
  intros (Hne&Hk&Hv&Heq&_&_). unfold split_cookie.
  rewrite (TrimAsciiWhitespace_id (k ++ _)).
  - rewrite split_at_app by done. by rewrite !TrimAsciiWhitespace_id.
  - destruct Hk as [Hk _], Hv as [_ Hv]. simpl in *. split.
    + destruct k; [done|]. exact Hk.
    + intros c. destruct v as [|v0 v] using rev_ind; [rewrite last_snoc; by intros [= <-]|].
      intros Hc. apply Hv. rewrite last_snoc in *.
      rewrite app_comm_cons, app_assoc, last_snoc in Hc. done.
Qed.

(** Cookie lookup: in a request whose Cookie header lists well-formed pairs,
    [Cookie] returns the value of the first cookie of that name and the empty
    text when there is none; [HasCookie] holds exactly for a cookie whose value
    is not empty. *)
Theorem Cookie_first r cs name :
  Forall cookie_ok cs → GetHeader r (txt "Cookie") = render_cookies cs →
  Cookie r name = default [] (assoc name cs) ∧
  HasCookie r name = bool_decide (default [] (assoc name cs) ≠ []).
Proof.
  intros Hcs Hh. assert (Cookie r name = default [] (assoc name cs)) as HC;
    [|by unfold HasCookie; rewrite HC].
  unfold Cookie. rewrite Hh. unfold render_cookies. destruct cs as [|[k v] cs]; [done|].
  apply Forall_cons in Hcs as [Hc Hcs]. rewrite fmap_cons.
  set (parts := (k ++ "="%char :: v) ::
                ((λ c, " "%char :: c) <$> ((λ '(k, v), k ++ "="%char :: v) <$> cs))).
  assert (Forall (λ part, part ≠ [] ∧ ";"%char ∉ part) parts) as Hparts.
  { constructor.
    - destruct Hc as (?&_&_&_&?&?). simpl in *. rewrite elem_of_app, elem_of_cons.
      split; [by destruct k|naive_solver].
    - rewrite !Forall_fmap. eapply Forall_impl; [exact Hcs|].
      intros [k' v'] (?&_&_&_&?&?). simpl in *. split; [done|].
      rewrite elem_of_cons, elem_of_app, elem_of_cons. naive_solver. }
  assert (split_cookie <$> parts = (k, v) :: cs) as Hsp.
  { unfold parts. rewrite fmap_cons, split_cookie_render by done. f_equal.
    rewrite <-!list_fmap_compose. trans (id <$> cs); [|apply list_fmap_id].
    apply list_fmap_ext. intros i [k' v'] Hi. apply (Forall_lookup_1 _ _ _ _ Hcs) in Hi.
    exact (split_cookie_render k' v' Hi). }
  pose proof (find_field_join ";"%char split_cookie (length (join ";"%char parts)) parts name
                Hparts (join_length _ _ Hparts)) as Hff.
  rewrite Hsp in Hff. rewrite <-Hff. by destruct (join ";"%char parts).
Qed.

Definition sample_cookies : list (bytes * bytes) :=
  [(txt "sid", txt "abc"); (txt "theme", txt "dark=1"); (txt "empty", [])].

Lemma sample_cookies_ok : Forall cookie_ok sample_cookies.
Proof.
  unfold sample_cookies, cookie_ok, trimmed.
  repeat constructor; simpl;
    try (intros ? [= <-]; reflexivity); try done;
    rewrite ?elem_of_cons, ?elem_of_nil; intuition discriminate.
Defined.

Lemma Cookie_first_witness :
  let r := AddHeader empty_request (txt "cookie") (render_cookies sample_cookies) in
  Cookie r (txt "theme") = txt "dark=1" ∧ HasCookie r (txt "theme") = true.
Proof.
  exact (Cookie_first
           (AddHeader empty_request (txt "cookie") (render_cookies sample_cookies))
           sample_cookies (txt "theme") sample_cookies_ok eq_refl).
Defined.
