(* ===== verification/RadixTree.v ===== *)
(** * The route tree

    [include/iouring_runtime/web/RadixTree.h] and
    [src/modules/web/RadixTree.cpp]: a tree with one level per path segment;
    below a node there are literal children, at most one parameter child
    ([:name], any one segment) and at most one wildcard child ([*name], the
    rest of the path).  The specification is a table from patterns and methods
    to entries; a lookup returns the first of the patterns a path matches, in
    the order literal, parameter, wildcard at each segment.

    The views a lookup hands out point into the request path; a view is kept
    as offset and length, with the null pointer of a default-constructed view
    told apart, and arithmetic between a null and a non-null pointer is
    undefined behaviour ([None]). *)

From S2P Require Import Prelude Text HttpRequest.

#[local] Open Scope Z_scope.
#[local] Set Warnings "-clear-no-such-hyp,-register-all".

(** ** Views into the request path *)

(** [std::string_view] over a text: [data] is the offset of its first
    character, [None] the null pointer. *)
Record string_view := MkView { data : option Z; size : Z }.

Definition view_text (text : bytes) (v : string_view) : bytes :=
  match data v with
  | None => []
  | Some off => ztake (size v) (zdrop off text)
  end.

(** [text.find(c, start)]. *)
Definition find_from (c : byte) (text : bytes) (start : Z) : option Z :=
  match split_at c (zdrop start text) with
  | None => None
  | Some (p, _) => Some (start + zlen p)
  end.

(** ** Splitting a path *)

(** The loop of both splitters; [fuel] bounds the iterations, each of which
    moves [start] forward. *)
Fixpoint split_loop (fuel : nat) (path : bytes) (start : Z) : list string_view :=
  match fuel with
  | O => []
  | S fuel =>
    if start <? zlen path then
      match find_from "/"%char path start with
      | None => [MkView (Some start) (zlen path - start)]
      | Some pos =>
        (if start <? pos then [MkView (Some start) (pos - start)] else []) ++
        split_loop fuel path (pos + 1)
      end
    else []
  end.

Definition split_start (path : bytes) : Z :=
  match path with c :: _ => if decide (c = "/"%char) then 1 else 0 | [] => 0 end.

(** Source: src/modules/web/RadixTree.cpp:100-122, RadixTree::SplitPath. *)
Definition SplitPath (path : bytes) : list bytes :=
  view_text path <$> split_loop (length path) path (split_start path).

(** [path.size() > 1 && path.back() == '/']. *)
Definition trailing_slash (path : bytes) : bool :=
  (1 <? zlen path) && bool_decide (last path = Some "/"%char).

(** Source: src/modules/web/RadixTree.cpp:124-150, RadixTree::SplitPathView.
    A trailing slash adds a default-constructed view. *)
Definition SplitPathView (path : bytes) : list string_view :=
  split_loop (length path) path (split_start path) ++
  (if trailing_slash path then [MkView None 0] else []).

(** The view from the first character of [first] to the last one of [last]. *)
Definition wildcard_view (first last : string_view) : option string_view :=
  match data first, data last with
  | Some f, Some l => Some (MkView (Some f) (l + size last - f))
  | None, None => Some (MkView None (size last))
  | _, _ => None
  end.

Section Tree.
(** The callables a route holds: [void(RequestContext&)],
    [bool(RequestContext&)] and [bool(RequestContext&, span)]; an empty
    [std::function] is [None]. *)
Context {FVoid FHeaders FBody : Type}.

(** ** Entries and nodes *)

(** Source: include/iouring_runtime/web/Router.h:24-29, HttpStreamHandler. *)
Record HttpStreamHandler := MkStreamHandler {
  on_headers : option FHeaders;
  on_body : option FBody;
  on_complete : option FVoid;
  on_abort : option FVoid
}.

(** Source: include/iouring_runtime/web/RadixTree.h:16-23, RouteEntry. *)
Record RouteEntry := MkEntry {
  handler : option FVoid;
  stream_handler : HttpStreamHandler
}.

Definition empty_entry : RouteEntry := MkEntry None (MkStreamHandler None None None None).

Definition is_set {A} (f : option A) : bool := match f with Some _ => true | None => false end.

(** Source: src/modules/web/RadixTree.cpp:32-34, RouteEntry::HasHandler. *)
Definition HasHandler (e : RouteEntry) : bool := is_set (handler e).

(** Source: src/modules/web/RadixTree.cpp:36-39, RouteEntry::HasStreamHandler. *)
Definition HasStreamHandler (e : RouteEntry) : bool :=
  let s := stream_handler e in
  is_set (on_headers s) || is_set (on_body s) || is_set (on_complete s) || is_set (on_abort s).

(** Source: src/modules/web/RadixTree.cpp:41-43, RouteEntry::HasAnyHandler. *)
Definition HasAnyHandler (e : RouteEntry) : bool := HasHandler e || HasStreamHandler e.

(** Source: include/iouring_runtime/web/RadixTree.h:49-60, RadixTree::Node.
    The array of entries is indexed by method. *)
Inductive Node := MkNode {
  prefix : bytes;
  children : list Node;
  param_child : option Node;
  param_name : bytes;
  wildcard_child : option Node;
  wildcard_name : bytes;
  routes : HttpMethod → RouteEntry
}.

Definition new_node (prefix : bytes) : Node :=
  MkNode prefix [] None [] None [] (λ _, empty_entry).

Definition methods : list HttpMethod :=
  [kGet; kHead; kPost; kPut; kDelete; kOptions; kPatch; kUnknown].

(** Source: src/modules/web/RadixTree.cpp:45-52, RadixTree::Node::HasAnyHandler. *)
Definition node_HasAnyHandler (n : Node) : bool :=
  existsb (λ m, HasAnyHandler (routes n m)) methods.

(** Source: src/modules/web/RadixTree.cpp:54-91, RadixTree::Node::AllowHeaderValue. *)
Definition AllowHeaderValue (n : Node) : bytes :=
  let append_method (allow method : bytes) :=
    match allow with [] => method | _ => allow ++ txt ", " ++ method end in
  let append_if (b : bool) (method : bytes) (allow : bytes) :=
    if b then append_method allow method else allow in
  let allow_get := HasAnyHandler (routes n kGet) in
  let allow_head := HasAnyHandler (routes n kHead) in
  let allow := append_if allow_get (txt "GET") [] in
  let allow := append_if (allow_head || allow_get) (txt "HEAD") allow in
  let allow := append_if (HasAnyHandler (routes n kPost)) (txt "POST") allow in
  let allow := append_if (HasAnyHandler (routes n kPut)) (txt "PUT") allow in
  let allow := append_if (HasAnyHandler (routes n kDelete)) (txt "DELETE") allow in
  let allow := append_if (HasAnyHandler (routes n kOptions)) (txt "OPTIONS") allow in
  append_if (HasAnyHandler (routes n kPatch)) (txt "PATCH") allow.

Definition set_route (n : Node) (m : HttpMethod) (e : RouteEntry) : Node :=
  MkNode (prefix n) (children n) (param_child n) (param_name n)
    (wildcard_child n) (wildcard_name n)
    (λ m', if decide (m' = m) then e else routes n m').

Definition set_children (n : Node) (cs : list Node) : Node :=
  MkNode (prefix n) cs (param_child n) (param_name n)
    (wildcard_child n) (wildcard_name n) (routes n).

Definition set_param (n : Node) (c : Node) (name : bytes) : Node :=
  MkNode (prefix n) (children n) (Some c) name
    (wildcard_child n) (wildcard_name n) (routes n).

Definition set_wildcard (n : Node) (c : Node) (name : bytes) : Node :=
  MkNode (prefix n) (children n) (param_child n) (param_name n)
    (Some c) name (routes n).

(** ** Insertion *)

(** [segment.size() > 1 && segment[0] == mark]: the name after the mark. *)
Definition marked (mark : byte) (segment : bytes) : option bytes :=
  match segment with
  | c :: c1 :: name => if decide (c = mark) then Some (c1 :: name) else None
  | _ => None
  end.

(** The first child with that prefix is updated; a new one is appended when
    there is none. *)
Fixpoint update_child (segment : bytes) (f : Node → Node) (cs : list Node) : list Node :=
  match cs with
  | [] => [f (new_node segment)]
  | c :: cs =>
    if decide (prefix c = segment) then f c :: cs else c :: update_child segment f cs
  end.

(** Source: src/modules/web/RadixTree.cpp:163-206, RadixTree::InsertSegments. *)
Fixpoint InsertSegments (node : Node) (segments : list bytes)
    (method : HttpMethod) (entry : RouteEntry) : Node :=
  match segments with
  | [] => set_route node method entry
  | segment :: rest =>
    match marked "*"%char segment with
    | Some name =>
      match wildcard_child node with
      | None => set_wildcard node (set_route (new_node []) method entry) name
      | Some c => set_wildcard node (set_route c method entry) (wildcard_name node)
      end
    | None =>
      match marked ":"%char segment with
      | Some name =>
        match param_child node with
        | None => set_param node (InsertSegments (new_node []) rest method entry) name
        | Some c => set_param node (InsertSegments c rest method entry) (param_name node)
        end
      | None =>
        set_children node
          (update_child segment (λ c, InsertSegments c rest method entry) (children node))
      end
    end
  end.

(** Source: src/modules/web/RadixTree.cpp:152-161, RadixTree::Insert. *)
Definition Insert (root : Node) (method : HttpMethod) (path : bytes) (entry : RouteEntry) : Node :=
  if decide (path = txt "/") then set_route root method entry
  else InsertSegments root (SplitPath path) method entry.

(** ** Matching *)

(** Source: include/iouring_runtime/web/RadixTree.h:25-30, MatchResult. *)
Record MatchResult := MkResult {
  entry : option RouteEntry;
  params : list (bytes * string_view);
  path_exists : bool;
  allow_header : bytes
}.

Definition no_match : MatchResult := MkResult None [] false [].

(** The outcome at the node a path ends in: the entry of the method, or the
    405 information when only other methods have one. *)
Definition match_leaf (n : Node) (method : HttpMethod) (result : MatchResult)
    (ps : list (bytes * string_view)) : MatchResult :=
  if HasAnyHandler (routes n method) then
    MkResult (Some (routes n method)) ps true (AllowHeaderValue n)
  else if node_HasAnyHandler n then
    MkResult (entry result) (params result) true (AllowHeaderValue n)
  else result.

(** Source: src/modules/web/RadixTree.cpp:229-293, RadixTree::MatchNode.
    The result and the parameter stack are threaded through the calls. *)
Fixpoint MatchNode (path : bytes) (node : Node) (segments : list string_view)
    (method : HttpMethod) (result : MatchResult) (ps : list (bytes * string_view))
    : option (MatchResult * list (bytes * string_view)) :=
  match segments with
  | [] => Some (match_leaf node method result ps, ps)
  | segment :: rest =>
    if is_set (entry result) then Some (result, ps) else
    '(result, ps) ←
      match find (λ c, bool_decide (prefix c = view_text path segment)) (children node) with
      | Some child => MatchNode path child rest method result ps
      | None => Some (result, ps)
      end;
    if is_set (entry result) then Some (result, ps) else
    '(result, ps) ←
      match param_child node with
      | Some child =>
        '(result, ps) ←
          MatchNode path child rest method result (ps ++ [(param_name node, segment)]);
        if is_set (entry result) then Some (result, ps) else Some (result, removelast ps)
      | None => Some (result, ps)
      end;
    if is_set (entry result) then Some (result, ps) else
    match wildcard_child node with
    | Some child =>
      value ← wildcard_view segment (List.last segments segment);
      if HasAnyHandler (routes child method) then
        let ps := ps ++ [(wildcard_name node, value)] in
        Some (MkResult (Some (routes child method)) ps true (AllowHeaderValue child), ps)
      else if node_HasAnyHandler child then
        Some (MkResult (entry result) (params result) true (AllowHeaderValue child), ps)
      else Some (result, ps)
    | None => Some (result, ps)
    end
  end.

(** Source: src/modules/web/RadixTree.cpp:208-227, RadixTree::Match. *)
Definition Match (root : Node) (method : HttpMethod) (path : bytes) : option MatchResult :=
  if decide (path = txt "/") then
    Some (if HasAnyHandler (routes root method) then
            MkResult (Some (routes root method)) [] true []
          else if node_HasAnyHandler root then
            MkResult None [] true (AllowHeaderValue root)
          else no_match)
  else fst <$> MatchNode path root (SplitPathView path) method no_match [].

(** ** The route table the tree stands for *)

(** One step of a pattern. *)
Inductive token := Lit (s : bytes) | Par | Wild.

#[local] Instance token_eq_dec : EqDecision token.
Proof. solve_decision. Defined.

(** The pattern of a registered path: what follows a wildcard is ignored. *)
Fixpoint tokens_of (segments : list bytes) : list token :=
  match segments with
  | [] => []
  | segment :: rest =>
    match marked "*"%char segment with
    | Some _ => [Wild]
    | None =>
      match marked ":"%char segment with
      | Some _ => Par :: tokens_of rest
      | None => Lit segment :: tokens_of rest
      end
    end
  end.

Definition child_at (n : Node) (t : token) : option Node :=
  match t with
  | Lit s => find (λ c, bool_decide (prefix c = s)) (children n)
  | Par => param_child n
  | Wild => wildcard_child n
  end.

Fixpoint node_at (n : Node) (p : list token) : option Node :=
  match p with
  | [] => Some n
  | t :: p => c ← child_at n t; node_at c p
  end.

(** The entry the tree holds for a pattern and a method. *)
Definition entry_at (n : Node) (p : list token) (m : HttpMethod) : RouteEntry :=
  match node_at n p with
  | Some n' => routes n' m
  | None => empty_entry
  end.

Lemma entry_at_cons n t p m :
  entry_at n (t :: p) m =
    match child_at n t with Some c => entry_at c p m | None => empty_entry end.
Proof. unfold entry_at. simpl. by destruct (child_at n t). Qed.

Lemma entry_at_new s p m : entry_at (new_node s) p m = empty_entry.
Proof. destruct p as [|[] p]; done. Qed.

Lemma InsertSegments_prefix n segs m e : prefix (InsertSegments n segs m e) = prefix n.
Proof. destruct segs; simpl; [done|]. repeat case_match; done. Qed.

Lemma find_update_child seg f cs s :
  (∀ c, prefix (f c) = prefix c) →
  find (λ c, bool_decide (prefix c = s)) (update_child seg f cs) =
    if decide (s = seg)
    then Some (f (default (new_node seg) (find (λ c, bool_decide (prefix c = seg)) cs)))
    else find (λ c, bool_decide (prefix c = s)) cs.
Proof.
  intros Hf. induction cs as [|c cs IH]; simpl.
  - rewrite Hf. simpl. repeat (case_decide || case_bool_decide); naive_solver.
  - destruct (decide (prefix c = seg)) as [Hc|Hc]; simpl.
    + rewrite Hf, Hc, (bool_decide_true (seg = seg)) by done.
      repeat (case_decide || case_bool_decide); simplify_eq; done.
    + rewrite (bool_decide_false (prefix c = seg)) by done. rewrite IH.
      repeat (case_decide || case_bool_decide); simplify_eq; done.
Qed.

(** Insertion updates the table at one pattern and one method. *)
Lemma entry_at_InsertSegments n segs m e p m' :
  entry_at (InsertSegments n segs m e) p m' =
    if decide (p = tokens_of segs ∧ m' = m) then e else entry_at n p m'.
Proof.
  revert n p. induction segs as [|seg segs IH]; intros n p.
  - destruct p as [|t p]; cbn [InsertSegments tokens_of].
    + unfold entry_at. simpl. repeat case_decide; naive_solver.
    + rewrite decide_False by naive_solver. by destruct t.
  - cbn [InsertSegments tokens_of]. destruct (marked "*"%char seg); [|destruct (marked ":"%char seg)].
    + assert (∀ c nm,
        (∀ p, entry_at c p m' = match wildcard_child n with
                                | Some c => entry_at c p m' | None => empty_entry end) →
        entry_at (set_wildcard n (set_route c m e) nm) p m' =
          if decide (p = [Wild] ∧ m' = m) then e else entry_at n p m') as Hc.
      { intros c nm Hcn. destruct p as [|[s| |] p];
          try (rewrite decide_False by naive_solver; done).
        rewrite !entry_at_cons. cbn [child_at set_wildcard wildcard_child].
        rewrite <-Hcn. destruct p as [|t p].
        - unfold entry_at. simpl. repeat case_decide; naive_solver.
        - rewrite decide_False by naive_solver. by destruct t. }
      destruct (wildcard_child n) as [c|]; apply Hc; [done|intros; apply entry_at_new].
    + assert (∀ c nm,
        (∀ p, entry_at c p m' = match param_child n with
                                | Some c => entry_at c p m' | None => empty_entry end) →
        entry_at (set_param n (InsertSegments c segs m e) nm) p m' =
          if decide (p = Par :: tokens_of segs ∧ m' = m) then e else entry_at n p m') as Hc.
      { intros c nm Hcn. destruct p as [|[s| |] p];
          try (rewrite decide_False by naive_solver; done).
        rewrite !entry_at_cons. cbn [child_at set_param param_child].
        rewrite IH, <-Hcn. repeat case_decide; naive_solver. }
      destruct (param_child n) as [c|]; apply Hc; [done|intros; apply entry_at_new].
    + destruct p as [|[s| |] p]; try (rewrite decide_False by naive_solver; done).
      rewrite !entry_at_cons. cbn [child_at set_children children].
      rewrite find_update_child by (intros; apply InsertSegments_prefix).
      destruct (decide (s = seg)) as [->|Hs]; [|rewrite decide_False by naive_solver; done].
      rewrite IH. destruct (find _ _) as [c|]; simpl; rewrite ?entry_at_new;
        repeat case_decide; naive_solver.
Qed.

(** ** Matching searches the table in priority order *)

(** The patterns a list of segments matches, most specific first. *)
Fixpoint candidates (segs : list bytes) : list (list token) :=
  match segs with
  | [] => [[]]
  | s :: segs =>
    (cons (Lit s) <$> candidates segs) ++ (cons Par <$> candidates segs) ++ [[Wild]]
  end.

(** The parameters a pattern binds, with the names the tree holds. *)
Fixpoint bind_params (n : Node) (p : list token) (segs : list string_view)
    : list (bytes * string_view) :=
  match p, segs with
  | t :: p, seg :: rest =>
    match t, child_at n t with
    | Lit _, Some c => bind_params c p rest
    | Par, Some c => (param_name n, seg) :: bind_params c p rest
    | Wild, _ =>
      match wildcard_view seg (List.last segs seg) with
      | Some v => [(wildcard_name n, v)]
      | None => []
      end
    | _, None => []
    end
  | _, _ => []
  end.

(** What a candidate that has no entry for the method leaves in the result. *)
Definition record_miss (n : Node) (r : MatchResult) (p : list token) : MatchResult :=
  match node_at n p with
  | Some n' =>
    if node_HasAnyHandler n' then MkResult (entry r) (params r) true (AllowHeaderValue n') else r
  | None => r
  end.

Definition serves (n : Node) (m : HttpMethod) (p : list token) : bool :=
  HasAnyHandler (entry_at n p m).

Lemma find_app {A} (f : A → bool) l k :
  find f (l ++ k) = match find f l with Some x => Some x | None => find f k end.
Proof. induction l as [|x l IH]; simpl; [done|]. by destruct (f x). Qed.

Lemma find_serves_cons n m t C :
  find (serves n m) (cons t <$> C) =
    match child_at n t with Some c => cons t <$> find (serves c m) C | None => None end.
Proof.
  induction C as [|p C IH]; [simpl; by destruct (child_at n t)|].
  rewrite fmap_cons. cbn [find]. unfold serves at 1. rewrite entry_at_cons, IH.
  destruct (child_at n t) as [c|]; [|done]. fold (serves c m p). by destruct (serves c m p).
Qed.

Lemma foldl_miss_cons n r t C :
  foldl (record_miss n) r (cons t <$> C) =
    match child_at n t with Some c => foldl (record_miss c) r C | None => r end.
Proof.
  revert r. induction C as [|p C IH]; intros r; [simpl; by destruct (child_at n t)|].
  rewrite fmap_cons. cbn [foldl]. rewrite IH.
  assert (record_miss n r (t :: p) =
          match child_at n t with Some c => record_miss c r p | None => r end) as ->.
  { unfold record_miss. simpl. by destruct (child_at n t). }
  by destruct (child_at n t).
Qed.

Lemma record_miss_entry n r p :
  entry (record_miss n r p) = entry r ∧ params (record_miss n r p) = params r.
Proof. unfold record_miss. by repeat case_match. Qed.

Lemma foldl_miss_entry n r C :
  entry (foldl (record_miss n) r C) = entry r ∧ params (foldl (record_miss n) r C) = params r.
Proof.
  revert r. induction C as [|p C IH]; intros r; simpl; [done|].
  destruct (IH (record_miss n r p)) as [-> ->]. apply record_miss_entry.
Qed.

(** What MatchNode computes: the first serving candidate with its bindings, or
    the record of the misses. *)
Definition match_outcome (n : Node) (m : HttpMethod) (segs : list string_view)
    (C : list (list token)) (r r' : MatchResult) (ps ps' : list (bytes * string_view)) : Prop :=
  match find (serves n m) C with
  | Some p => ∃ n', node_at n p = Some n' ∧
      r' = MkResult (Some (routes n' m)) (ps ++ bind_params n p segs) true (AllowHeaderValue n')
  | None => ps' = ps ∧ r' = foldl (record_miss n) r C
  end.

Lemma match_leaf_outcome n m r ps :
  entry r = None → match_outcome n m [] [[]] r (match_leaf n m r ps) ps ps.
Proof.
  intros Hr. unfold match_outcome, match_leaf. cbn [find].
  change (serves n m []) with (HasAnyHandler (routes n m)).
  destruct (HasAnyHandler (routes n m)).
  - exists n. by rewrite app_nil_r.
  - split; [done|]. unfold record_miss. simpl. by destruct (node_HasAnyHandler n).
Qed.

(** The outcome of the search below one literal or parameter child. *)
Definition branch_outcome (n : Node) (m : HttpMethod) (t : token) (seg : string_view)
    (segs : list string_view) (C : list (list token))
    (r r' : MatchResult) (ps ps' : list (bytes * string_view)) : Prop :=
  match find (serves n m) (cons t <$> C) with
  | Some p => is_set (entry r') = true ∧ ∃ n', node_at n p = Some n' ∧
      r' = MkResult (Some (routes n' m)) (ps ++ bind_params n p (seg :: segs)) true
             (AllowHeaderValue n')
  | None => is_set (entry r') = false ∧ ps' = ps ∧ r' = foldl (record_miss n) r (cons t <$> C)
  end.

Lemma branch_none n m t seg segs C r ps :
  child_at n t = None → entry r = None → branch_outcome n m t seg segs C r r ps ps.
Proof.
  intros Hc Hr. unfold branch_outcome. rewrite find_serves_cons, foldl_miss_cons, Hc, Hr. done.
Qed.

Lemma branch_some n c m t seg segs C r r' ps add ps' ps'' :
  child_at n t = Some c → entry r = None →
  match_outcome c m segs C r r' (ps ++ add) ps' →
  (∀ p, bind_params n (t :: p) (seg :: segs) = add ++ bind_params c p segs) →
  (is_set (entry r') = false → ps' = ps ++ add → ps'' = ps) →
  branch_outcome n m t seg segs C r r' ps ps''.
Proof.
  intros Hc Hr Ho Hb Hps. unfold branch_outcome, match_outcome in *.
  rewrite find_serves_cons, foldl_miss_cons, Hc.
  destruct (find (serves c m) C) as [p|]; cbn [fmap option_fmap option_map].
  - destruct Ho as (n'&Hn'&->). split; [done|]. exists n'. split; [simpl; by rewrite Hc|].
    by rewrite Hb, app_assoc.
  - destruct Ho as [? ->]. assert (is_set (entry (foldl (record_miss c) r C)) = false)
      by (by rewrite (proj1 (foldl_miss_entry _ _ _)), Hr). auto.
Qed.

Lemma wildcard_view_last seg segs :
  is_Some (data seg) → Forall (λ v, is_Some (data v)) segs →
  is_Some (wildcard_view seg (List.last (seg :: segs) seg)).
Proof.
  intros [f Hf] Hsegs. assert (is_Some (data (List.last (seg :: segs) seg))) as [l Hl].
  { assert (Forall (λ v, is_Some (data v)) (seg :: segs)) as Hall by (constructor; eauto).
    clear Hsegs. revert Hall. generalize (seg :: segs) as vs. induction vs as [|v vs IHl];
      intros Hall; [simpl; rewrite Hf; eauto|].
    apply Forall_cons in Hall as [Hv Hall]. destruct vs; [done|]. by apply IHl. }
  unfold wildcard_view. rewrite Hf, Hl. eauto.
Qed.

Lemma MatchNode_spec path n segs m r ps :
  Forall (λ v, is_Some (data v)) segs → entry r = None →
  ∃ r' ps', MatchNode path n segs m r ps = Some (r', ps') ∧
    match_outcome n m segs (candidates (view_text path <$> segs)) r r' ps ps'.
Proof.
  intros Hsegs. revert n r ps. induction Hsegs as [|seg segs Hseg Hsegs IH]; intros n r ps Hr.
  { do 2 eexists. split; [done|]. by apply match_leaf_outcome. }
  cbn [MatchNode]. rewrite Hr. cbn [is_set]. rewrite fmap_cons. cbn [candidates].
  set (C := candidates (view_text path <$> segs)) in *.
  set (s := view_text path seg). set (step1 := match find _ _ with Some _ => _ | None => _ end).
  assert (∃ r1 ps1, step1 = Some (r1, ps1) ∧
            branch_outcome n m (Lit s) seg segs C r r1 ps ps1) as (r1&ps1&->&Ho1).
  { unfold step1. destruct (find _ (children n)) as [c|] eqn:Hc.
    - destruct (IH c r ps Hr) as (r'&ps'&Hm&Ho). exists r', ps'. split; [done|].
      apply (branch_some n c m (Lit s) seg segs C r r' ps [] ps' ps');
        [done|done|by rewrite app_nil_r| |by rewrite app_nil_r].
      intros p. cbn [bind_params child_at]. by rewrite Hc.
    - exists r, ps. split; [done|]. by apply branch_none. }
  unfold match_outcome. rewrite !find_app. unfold branch_outcome in Ho1. cbn [mbind option_bind].
  destruct (find (serves n m) (cons (Lit s) <$> C)) as [p|].
  { destruct Ho1 as (-> & Ho1). by do 2 eexists. }
  destruct Ho1 as (-> & -> & Hr1).
  set (step2 := match param_child n with Some _ => _ | None => _ end).
  assert (entry r1 = None) as Hr1n by (rewrite Hr1, (proj1 (foldl_miss_entry _ _ _)); done).
  assert (∃ r2 ps2, step2 = Some (r2, ps2) ∧
            branch_outcome n m Par seg segs C r1 r2 ps ps2) as (r2&ps2&->&Ho2).
  { unfold step2. destruct (param_child n) as [c|] eqn:Hc.
    - destruct (IH c r1 (ps ++ [(param_name n, seg)]) Hr1n) as (r'&ps'&->&Ho).
      cbn [mbind option_bind].
      assert (∀ p, bind_params n (Par :: p) (seg :: segs) =
                   [(param_name n, seg)] ++ bind_params c p segs) as Hb.
      { intros p. cbn [bind_params child_at]. by rewrite Hc. }
      destruct (is_set (entry r')) eqn:Hset; do 2 eexists; (split; [done|]).
      + eapply branch_some; [exact Hc|done|exact Ho|exact Hb|]. by rewrite Hset.
      + eapply branch_some; [exact Hc|done|exact Ho|exact Hb|]. intros _ ->. apply removelast_last.
    - exists r1, ps. split; [done|]. by apply branch_none. }
  rewrite !foldl_app, <-Hr1. unfold branch_outcome in Ho2. cbn [mbind option_bind].
  destruct (find (serves n m) (cons Par <$> C)) as [p|].
  { destruct Ho2 as (-> & Ho2). by do 2 eexists. }
  destruct Ho2 as (Hr2s & -> & Hr2). rewrite Hr2s, <-Hr2.
  destruct (wildcard_view_last seg segs Hseg Hsegs) as [v Hv].
  cbn [find foldl]. unfold serves, entry_at, record_miss. cbn [node_at child_at].
  destruct (wildcard_child n) as [c|] eqn:Hw; cbn [mbind option_bind node_at].
  - rewrite Hv. cbn [mbind option_bind].
    destruct (HasAnyHandler (routes c m)) eqn:Hh; [|by destruct (node_HasAnyHandler c); do 2 eexists].
    do 2 eexists. split; [done|]. exists c. split; [cbn; by rewrite Hw|].
    cbn [bind_params]. by rewrite Hv.
  - by do 2 eexists.
Qed.

(** ** The tree refines the table *)

(** The routes in the order they were registered. *)
Definition route : Type := HttpMethod * bytes * RouteEntry.

Definition build (rs : list route) : Node :=
  foldl (λ t '(m, path, e), Insert t m path e) (new_node []) rs.

(** The entry of a pattern and a method: the last one registered. *)
Definition table (rs : list route) (p : list token) (m : HttpMethod) : RouteEntry :=
  foldl (λ e0 '(m', path, e),
           if decide (p = tokens_of (SplitPath path) ∧ m = m') then e else e0) empty_entry rs.

Definition table_serves (rs : list route) (m : HttpMethod) (p : list token) : bool :=
  HasAnyHandler (table rs p m).

Lemma Insert_entry_at n m path e p m' :
  entry_at (Insert n m path e) p m' =
    if decide (p = tokens_of (SplitPath path) ∧ m' = m) then e else entry_at n p m'.
Proof.
  unfold Insert. destruct (decide (path = txt "/")) as [->|_]; [|apply entry_at_InsertSegments].
  exact (entry_at_InsertSegments n [] m e p m').
Qed.

Lemma entry_at_build rs p m : entry_at (build rs) p m = table rs p m.
Proof.
  unfold build, table. rewrite <-(entry_at_new [] p m).
  generalize (new_node (@nil byte)) as n. induction rs as [|[[m' path] e] rs IH]; intros n; [done|].
  cbn [foldl]. rewrite IH, Insert_entry_at. done.
Qed.

Definition any_serves (n : Node) (p : list token) : bool :=
  existsb (λ m, serves n m p) methods.

Lemma elem_of_methods m : In m methods.
Proof. destruct m; simpl; tauto. Qed.

Lemma record_miss_path_exists n r p :
  path_exists (record_miss n r p) = path_exists r || any_serves n p.
Proof.
  unfold record_miss, any_serves, serves, entry_at.
  destruct (node_at n p) as [n'|]; [|simpl; by rewrite orb_false_r].
  change (existsb _ methods) with (node_HasAnyHandler n').
  destruct (node_HasAnyHandler n'); simpl; [by rewrite orb_true_r|by rewrite orb_false_r].
Qed.

Lemma foldl_miss_path_exists n r C :
  path_exists (foldl (record_miss n) r C) = path_exists r || existsb (any_serves n) C.
Proof.
  revert r. induction C as [|p C IH]; intros r; simpl; [by rewrite orb_false_r|].
  by rewrite IH, record_miss_path_exists, orb_assoc.
Qed.

Lemma find_serves_any n m C p :
  find (serves n m) C = Some p → existsb (any_serves n) C = true.
Proof.
  intros Hf. apply find_some in Hf as [Hin Hs]. apply existsb_exists. exists p. split; [done|].
  apply existsb_exists. exists m. split; [apply elem_of_methods|done].
Qed.

Lemma split_loop_data fuel path start :
  Forall (λ v, is_Some (data v)) (split_loop fuel path start).
Proof.
  revert start. induction fuel as [|fuel IH]; intros start; simpl; [constructor|].
  destruct (start <? zlen path); [|constructor].
  destruct (find_from _ _ _) as [pos|]; [|by repeat constructor].
  apply Forall_app. split; [|apply IH]. by case_match; repeat constructor.
Qed.

Lemma SplitPathView_plain path :
  trailing_slash path = false →
  Forall (λ v, is_Some (data v)) (SplitPathView path) ∧
  view_text path <$> SplitPathView path = SplitPath path.
Proof.
  intros Ht. unfold SplitPathView. rewrite Ht, app_nil_r. split; [apply split_loop_data|done].
Qed.

(** A lookup that is not for the root path, on the tree. *)
Lemma Match_outcome n m path :
  trailing_slash path = false →
  ∃ r, Match n m path = Some r ∧
    match find (serves n m) (candidates (SplitPath path)) with
    | Some p => entry r = Some (entry_at n p m) ∧ path_exists r = true ∧
                params r = bind_params n p (SplitPathView path)
    | None => entry r = None ∧ path_exists r = existsb (any_serves n) (candidates (SplitPath path))
    end.
Proof.
  intros Ht. unfold Match. destruct (decide (path = txt "/")) as [->|_].
  - eexists. split; [done|]. change (candidates (SplitPath (txt "/"))) with [@nil token].
    cbn [find existsb]. unfold any_serves, serves. cbn.
    destruct (HasAnyHandler (routes n m)); [done|]. unfold node_HasAnyHandler, entry_at. cbn.
    destruct (_ || _); done.
  - destruct (SplitPathView_plain path Ht) as [Hd Htx].
    destruct (MatchNode_spec path n (SplitPathView path) m no_match [] Hd eq_refl)
      as (r&ps&->&Ho). exists r. split; [done|].
    unfold match_outcome in Ho. rewrite Htx in Ho.
    destruct (find (serves n m) _) as [p|].
    + destruct Ho as (n'&Hn'&->). unfold entry_at. rewrite Hn'. done.
    + destruct Ho as [_ ->]. split; [apply foldl_miss_entry|apply foldl_miss_path_exists].
Qed.

(** C6: routing refines the route table: for every list of registrations and
    every request path without a trailing slash, [Match] on the tree they build
    is defined and returns the entry of the first pattern the path matches, in
    the order literal before parameter before wildcard at each segment, that has
    a handler for the method, where a later registration of the same pattern and
    method replaces an earlier one; and [path_exists], which separates 405 from
    404, holds exactly when some matching pattern has a handler for some
    method. *)
Theorem Match_refines_table rs m path :
  trailing_slash path = false →
  ∃ r, Match (build rs) m path = Some r ∧
    entry r = (λ p, table rs p m) <$> find (table_serves rs m) (candidates (SplitPath path)) ∧
    path_exists r =
      existsb (λ p, existsb (λ m', table_serves rs m' p) methods) (candidates (SplitPath path)).
Proof.
  intros Ht. destruct (Match_outcome (build rs) m path Ht) as (r&Hr&Ho).
  exists r. split; [done|].
  assert (∀ m p, serves (build rs) m p = table_serves rs m p) as Hs.
  { intros. unfold serves, table_serves. by rewrite entry_at_build. }
  assert (∀ C, find (table_serves rs m) C = find (serves (build rs) m) C) as ->.
  { induction C as [|p C IH]; simpl; [done|]. by rewrite Hs, IH. }
  assert (∀ C, existsb (λ p, existsb (λ m', table_serves rs m' p) methods) C =
               existsb (any_serves (build rs)) C) as ->.
  { induction C as [|p C IH]; cbn [existsb]; [done|]. rewrite IH. f_equal.
    unfold any_serves. simpl. by rewrite !Hs. }
  destruct (find (serves (build rs) m) _) as [p|] eqn:Hf.
  - destruct Ho as (->&->&_). rewrite entry_at_build. split; [done|].
    by rewrite (find_serves_any _ _ _ _ Hf).
  - by destruct Ho as [-> ->].
Qed.

(** ** What the parameters show *)

(** The views of consecutive segments of a path, from the offset of the first. *)
Fixpoint views_from (start : Z) (ss : list bytes) : list string_view :=
  match ss with
  | [] => []
  | s :: ss => MkView (Some start) (zlen s) :: views_from (start + zlen s + 1) ss
  end.

Definition segment_ok (s : bytes) : Prop := s ≠ [] ∧ "/"%char ∉ s.

(** The values a pattern binds: a segment per parameter, the rest of the path
    for a wildcard. *)
Fixpoint bind_values (p : list token) (ss : list bytes) : list bytes :=
  match p, ss with
  | Lit _ :: p, _ :: ss => bind_values p ss
  | Par :: p, s :: ss => s :: bind_values p ss
  | Wild :: _, _ :: _ => [join "/"%char ss]
  | _, _ => []
  end.

Lemma join_cons2 c s s' ss : join c (s :: s' :: ss) = s ++ c :: join c (s' :: ss).
Proof. done. Qed.

Lemma zlen_of_zdrop {A} (l k : list A) start :
  0 ≤ start ≤ zlen l → zdrop start l = k → zlen l = start + zlen k.
Proof. intros Hs <-. rewrite zlen_zdrop by lia. lia. Qed.

Lemma zdrop_step {A} (l : list A) a x b start :
  0 ≤ start → zdrop start l = a ++ x :: b → zdrop (start + zlen a + 1) l = b.
Proof.
  intros Hs Hd. pose proof (zlen_nonneg a).
  rewrite <-Z.add_assoc, <-zdrop_zdrop, Hd, zdrop_app_ge by lia.
  by replace (zlen a + 1 - zlen a) with 1 by lia.
Qed.

Lemma split_loop_join fuel path start ss :
  Forall segment_ok ss → 0 ≤ start ≤ zlen path → zdrop start path = join "/"%char ss →
  (length ss ≤ fuel)%nat → split_loop fuel path start = views_from start ss.
Proof.
  intros Hss. revert fuel start.
  induction Hss as [|s ss [Hne Hs] Hss IH]; intros fuel start Hst Hd Hf.
  - pose proof (zlen_of_zdrop _ _ _ Hst Hd) as Hl. destruct fuel; [done|]. simpl in *.
    unfold zlen in Hl at 2. simpl in Hl. destruct (Z.ltb_spec start (zlen path)); [lia|done].
  - destruct fuel as [|fuel]; [simpl in Hf; lia|]. cbn [split_loop].
    pose proof (zlen_of_zdrop _ _ _ Hst Hd) as Hl.
    assert (0 < zlen s) as Hsl by (destruct s; [done|rewrite zlen_cons; pose proof (zlen_nonneg s); lia]).
    destruct ss as [|s' ss].
    + cbn [join] in *. rewrite (proj2 (Z.ltb_lt _ _)) by lia. unfold find_from.
      rewrite Hd, (proj2 (split_at_None _ s)) by done. simpl. do 2 f_equal. lia.
    + rewrite join_cons2 in *. rewrite zlen_app, zlen_cons in Hl.
      pose proof (zlen_nonneg (join "/"%char (s' :: ss))).
      rewrite (proj2 (Z.ltb_lt _ _)) by lia. unfold find_from.
      rewrite Hd, split_at_app by done. rewrite (proj2 (Z.ltb_lt _ _)) by lia.
      rewrite (IH fuel); [|lia|by eapply zdrop_step; [lia|]|simpl in *; lia].
      cbn [views_from app]. do 2 f_equal; lia.
Qed.

Lemma views_from_text path start ss :
  0 ≤ start ≤ zlen path → zdrop start path = join "/"%char ss →
  view_text path <$> views_from start ss = ss.
Proof.
  revert start. induction ss as [|s ss IH]; intros start Hst Hd; [done|].
  cbn [views_from]. rewrite fmap_cons. pose proof (zlen_of_zdrop _ _ _ Hst Hd) as Hl.
  pose proof (zlen_nonneg s). destruct ss as [|s' ss].
  - cbn [views_from fmap list_fmap join] in *. unfold view_text. simpl. rewrite Hd.
    by rewrite ztake_all by lia.
  - rewrite join_cons2 in *. rewrite zlen_app, zlen_cons in Hl.
    pose proof (zlen_nonneg (join "/"%char (s' :: ss))).
    rewrite IH; [|lia|by eapply zdrop_step; [lia|]]. f_equal.
    unfold view_text. simpl. rewrite Hd, ztake_app_le by lia. by rewrite ztake_all by lia.
Qed.

Lemma views_from_last start s ss d :
  ∃ l, data (List.last (views_from start (s :: ss)) d) = Some l ∧
       l + size (List.last (views_from start (s :: ss)) d) = start + zlen (join "/"%char (s :: ss)).
Proof.
  revert start s. induction ss as [|s' ss IH]; intros start s.
  - simpl. eauto.
  - destruct (IH (start + zlen s + 1) s') as (l&Hl1&Hl2). exists l.
    rewrite join_cons2, zlen_app, zlen_cons.
    change (List.last (views_from start (s :: s' :: ss)) d) with
      (List.last (views_from (start + zlen s + 1) (s' :: ss)) d). split; [done|lia].
Qed.

Lemma bind_params_values n p path start ss :
  is_Some (node_at n p) → 0 ≤ start ≤ zlen path → zdrop start path = join "/"%char ss →
  view_text path <$> (bind_params n p (views_from start ss)).*2 = bind_values p ss.
Proof.
  revert n start ss. induction p as [|t p IH]; intros n start ss Hn Hst Hd; [by destruct ss|].
  destruct ss as [|s ss]; [by destruct t|].
  pose proof (views_from_text path start (s :: ss) Hst Hd) as Htx.
  cbn [views_from] in *. rewrite fmap_cons in Htx. injection Htx as Htx _.
  assert (ss ≠ [] → 0 ≤ start + zlen s + 1 ≤ zlen path ∧
          zdrop (start + zlen s + 1) path = join "/"%char ss) as Hrest.
  { intros. destruct ss as [|s' ss]; [done|]. rewrite join_cons2 in Hd.
    pose proof (zlen_of_zdrop _ _ _ Hst Hd) as Hl. rewrite zlen_app, zlen_cons in Hl.
    pose proof (zlen_nonneg s). pose proof (zlen_nonneg (join "/"%char (s' :: ss))).
    split; [lia|]. by eapply zdrop_step; [lia|]. }
  cbn [node_at] in Hn. destruct (child_at n t) as [c|] eqn:Hc; [|by destruct Hn].
  simpl in Hn. cbn [bind_params bind_values].
  assert (view_text path <$> (bind_params c p (views_from (start + zlen s + 1) ss)).*2 =
          bind_values p ss) as Hrec.
  { destruct ss as [|s' ss]; [by destruct p as [|[] ?]|]. apply IH; [done|by apply Hrest..]. }
  destruct t; rewrite ?Hc; [exact Hrec| |].
  - rewrite !fmap_cons. simpl. by f_equal.
  - destruct (views_from_last start s ss (MkView (Some start) (zlen s))) as (l&Hl1&Hl2).
    change (MkView (Some start) (zlen s) :: views_from (start + zlen s + 1) ss)
      with (views_from start (s :: ss)).
    unfold wildcard_view. rewrite Hl1. cbn [data fmap list_fmap snd]. f_equal.
    unfold view_text. cbn [data size]. rewrite Hl2, Hd.
    apply ztake_all. pose proof (zlen_of_zdrop _ _ _ Hst Hd). lia.
Qed.

Lemma join_last_ok ss d :
  Forall segment_ok ss → last (d :: join "/"%char ss) = Some "/"%char → ss = [].
Proof.
  destruct 1 as [|s ss Hs Hss]; [done|]. intros Hl. exfalso. revert Hl.
  assert (∃ l x, x ≠ "/"%char ∧ join "/"%char (s :: ss) = l ++ [x]) as (l&x&Hx&->).
  { revert s Hs. induction Hss as [|s' ss Hs' Hss IH]; intros s [Hne Hs].
    - simpl. destruct s as [|x l _] using rev_ind; [done|]. exists l, x. split; [|done].
      intros ->. apply Hs. apply elem_of_app. right. by left.
    - destruct (IH s' Hs') as (l&x&Hx&E). rewrite join_cons2, E.
      exists (s ++ "/"%char :: l), x. split; [done|]. by rewrite <-app_assoc. }
  rewrite app_comm_cons, last_snoc. naive_solver.
Qed.

Lemma SplitPathView_join ss :
  ss ≠ [] → Forall segment_ok ss →
  trailing_slash ("/"%char :: join "/"%char ss) = false ∧
  SplitPathView ("/"%char :: join "/"%char ss) = views_from 1 ss ∧
  SplitPath ("/"%char :: join "/"%char ss) = ss.
Proof.
  intros Hne Hss. set (path := "/"%char :: join "/"%char ss).
  assert (trailing_slash path = false) as Ht.
  { unfold trailing_slash. apply andb_false_iff. right. apply bool_decide_eq_false.
    intros Hl. by apply join_last_ok in Hl. }
  assert (0 ≤ 1 ≤ zlen path) as H1.
  { unfold path. rewrite zlen_cons. pose proof (zlen_nonneg (join "/"%char ss)). lia. }
  assert (split_loop (length path) path (split_start path) = views_from 1 ss) as Hv.
  { apply split_loop_join; [done|done|done|].
    assert (length ss ≤ length (join "/"%char ss))%nat; [by apply join_length|].
    unfold path. simpl. lia. }
  split; [done|]. unfold SplitPathView, SplitPath. rewrite Ht, Hv, app_nil_r. split; [done|].
  by apply views_from_text.
Qed.

(** The parameters of a match are the right pieces of the path: for a path
    [/s1/.../sn] and the pattern the lookup selects, the values bound are, in
    order, the segment under each parameter and, for a wildcard, the whole rest
    of the path with its slashes. *)
Theorem Match_params rs m ss p :
  ss ≠ [] → Forall segment_ok ss → find (table_serves rs m) (candidates ss) = Some p →
  let path := "/"%char :: join "/"%char ss in
  ∃ r, Match (build rs) m path = Some r ∧ entry r = Some (table rs p m) ∧
    view_text path <$> (params r).*2 = bind_values p ss.
Proof.
  intros Hne Hss Hf path. destruct (SplitPathView_join ss Hne Hss) as (Ht&Hv&Hsp).
  destruct (Match_outcome (build rs) m path Ht) as (r&Hr&Ho). exists r. split; [done|].
  unfold path in Ho. rewrite Hsp, Hv in Ho.
  assert (find (serves (build rs) m) (candidates ss) = Some p) as Hf'.
  { rewrite <-Hf. clear. induction (candidates ss) as [|q C IH]; simpl; [done|].
    unfold serves at 1, table_serves at 1. by rewrite entry_at_build, IH. }
  rewrite Hf' in Ho. destruct Ho as (He&_&Hp). rewrite He, entry_at_build, Hp. split; [done|].
  apply bind_params_values; [|unfold path; rewrite zlen_cons;
    pose proof (zlen_nonneg (join "/"%char ss)); lia|done].
  apply find_some in Hf' as [_ Hs]. unfold serves, entry_at in Hs.
  destruct (node_at (build rs) p); [eauto|done].
Qed.
(** ** The names of the parameters

    A node keeps the name its parameter or wildcard was first registered with. *)

Definition next_token (segment : bytes) : token :=
  match marked "*"%char segment with
  | Some _ => Wild
  | None => match marked ":"%char segment with Some _ => Par | None => Lit segment end
  end.

Definition segment_name (segment : bytes) : option bytes :=
  match marked "*"%char segment with Some name => Some name | None => marked ":"%char segment end.

(** The name a registered path gives to the token [t] after the tokens [q]. *)
Fixpoint given_name (segs : list bytes) (q : list token) (t : token) : option bytes :=
  match segs, q with
  | [], _ => None
  | s :: _, [] => if decide (next_token s = t) then segment_name s else None
  | s :: segs, t' :: q => if decide (next_token s = t' ∧ t' ≠ Wild) then given_name segs q t else None
  end.

Definition first_name (rs : list route) (q : list token) (t : token) : option bytes :=
  head (omap (λ r, given_name (SplitPath r.1.2) q t) rs).

(** The names a pattern binds. *)
Fixpoint bound_names (name : list token → token → option bytes) (q p : list token) : list bytes :=
  match p with
  | [] => []
  | Lit s :: p => bound_names name (q ++ [Lit s]) p
  | Par :: p => default [] (name q Par) :: bound_names name (q ++ [Par]) p
  | Wild :: _ => [default [] (name q Wild)]
  end.

Definition tree_name (n : Node) (q : list token) (t : token) : option bytes :=
  n' ← node_at n q;
  match t with
  | Lit _ => None
  | Par => if is_set (param_child n') then Some (param_name n') else None
  | Wild => if is_set (wildcard_child n') then Some (wildcard_name n') else None
  end.

Lemma tree_name_cons n t' q t :
  tree_name n (t' :: q) t = match child_at n t' with Some c => tree_name c q t | None => None end.
Proof. unfold tree_name. simpl. by destruct (child_at n t'). Qed.

Lemma tree_name_new s q t : tree_name (new_node s) q t = None.
Proof. destruct q as [|[] q], t; done. Qed.

Lemma tree_name_set_route n m e q t : tree_name (set_route n m e) q t = tree_name n q t.
Proof. destruct q as [|[] q]; [done|..]; by rewrite !tree_name_cons. Qed.

Definition either (x y : option bytes) : option bytes := match x with Some _ => x | None => y end.

Lemma either_none x : either x None = x.
Proof. by destruct x. Qed.

Lemma tree_name_insert n segs m e q t :
  tree_name (InsertSegments n segs m e) q t = either (tree_name n q t) (given_name segs q t).
Proof.
  revert n q. induction segs as [|seg segs IH]; intros n q.
  { cbn. by rewrite either_none, tree_name_set_route. }
  cbn [InsertSegments given_name]. unfold next_token, segment_name.
  destruct (marked "*"%char seg) as [nm|]; [|destruct (marked ":"%char seg) as [nm|]].
  - destruct q as [|t' q].
    + destruct t, (wildcard_child n) eqn:E; unfold tree_name; simpl; rewrite ?E; simpl; by rewrite ?either_none.
    + rewrite decide_False by naive_solver. rewrite either_none, !tree_name_cons.
      destruct t', (wildcard_child n) eqn:E; simpl; rewrite ?E; try done;
        by rewrite tree_name_set_route, ?tree_name_new.
  - destruct q as [|t' q].
    + destruct t, (param_child n) eqn:E; unfold tree_name; simpl; rewrite ?E; simpl; by rewrite ?either_none.
    + rewrite !tree_name_cons. destruct (decide (Par = t' ∧ t' ≠ Wild)) as [[<- _]|Hn].
      * destruct (param_child n) eqn:E; simpl; rewrite ?E, IH; [done|]. by rewrite tree_name_new.
      * rewrite either_none. destruct t'; try done; [by destruct (param_child n)|naive_solver|by destruct (param_child n)].
  - destruct q as [|t' q].
    + destruct t; unfold tree_name; simpl; rewrite ?either_none; try done. by destruct (decide _).
    + rewrite !tree_name_cons. destruct t' as [s| |]; [|by rewrite decide_False, either_none by naive_solver..].
      cbn [child_at set_children children]. rewrite find_update_child by (intros; apply InsertSegments_prefix).
      destruct (decide (s = seg)) as [->|Hs]; [rewrite decide_True by done|rewrite decide_False by naive_solver; by rewrite either_none].
      rewrite IH. destruct (find _ _); simpl; by rewrite ?tree_name_new.
Qed.

Lemma tree_name_build rs q t : tree_name (build rs) q t = first_name rs q t.
Proof.
  unfold build, first_name.
  assert (∀ n, tree_name (foldl (λ t '(m, path, e), Insert t m path e) n rs) q t =
    either (tree_name n q t) (head (omap (λ r : route, given_name (SplitPath r.1.2) q t) rs))) as Hg.
  { induction rs as [|[[m path] e] rs IH]; intros n; [by rewrite either_none|]. cbn [foldl]. rewrite IH.
    assert (tree_name (Insert n m path e) q t = either (tree_name n q t) (given_name (SplitPath path) q t)) as ->.
    { unfold Insert. destruct (decide (path = txt "/")) as [->|_]; [|apply tree_name_insert].
      rewrite tree_name_set_route. change (SplitPath (txt "/")) with (@nil bytes). cbn. by rewrite either_none. }
    simpl. destruct (tree_name n q t); [done|]. simpl. by destruct (given_name (SplitPath path) q t). }
  rewrite Hg, tree_name_new. done.
Qed.

Lemma candidates_cons p s ss : p ∈ candidates (s :: ss) →
  (∃ p', p = Lit s :: p' ∧ p' ∈ candidates ss) ∨ (∃ p', p = Par :: p' ∧ p' ∈ candidates ss) ∨ p = [Wild].
Proof.
  cbn [candidates]. rewrite !elem_of_app, !list_elem_of_fmap, list_elem_of_singleton. naive_solver.
Qed.

Lemma node_at_snoc root q n t c : node_at root q = Some n → child_at n t = Some c → node_at root (q ++ [t]) = Some c.
Proof.
  revert root. induction q as [|x q IH]; intros root Hq Hc; simpl in *.
  - injection Hq as ->. by rewrite Hc.
  - destruct (child_at root x); [|done]. by apply IH.
Qed.

Lemma bind_params_names root q n p path views :
  node_at root q = Some n → is_Some (node_at n p) → Forall (λ v, is_Some (data v)) views →
  p ∈ candidates (view_text path <$> views) →
  (bind_params n p views).*1 = bound_names (tree_name root) q p.
Proof.
  revert q n views. induction p as [|t p IH]; intros q n views Hq Hn Hv Hp; [by destruct views|].
  destruct views as [|v views]; [cbn in Hp; set_solver|].
  apply Forall_cons in Hv as [Hv Hvs]. rewrite fmap_cons in Hp.
  cbn [node_at] in Hn. destruct (child_at n t) as [c|] eqn:Hc; [|by destruct Hn]. simpl in Hn.
  pose proof (node_at_snoc root q n t c Hq Hc) as Hq'.
  apply candidates_cons in Hp as [(p'&[= -> ->]&Hp)|[(p'&[= -> ->]&Hp)|[= -> ->]]]; cbn [bind_params bound_names]; rewrite ?Hc.
  - apply IH; [exact Hq'|done..].
  - rewrite fmap_cons. f_equal; [|apply IH; [exact Hq'|done..]].
    unfold tree_name. rewrite Hq. cbn. cbn in Hc. by rewrite Hc.
  - destruct (wildcard_view_last v views Hv Hvs) as [x ->]. cbn. f_equal.
    unfold tree_name. rewrite Hq. cbn. cbn in Hc. by rewrite Hc.
Qed.

(** ** The Allow header *)

Definition allow_names (f : HttpMethod → bool) : list bytes :=
  (if f kGet then [txt "GET"] else []) ++ (if f kHead || f kGet then [txt "HEAD"] else []) ++
  (if f kPost then [txt "POST"] else []) ++ (if f kPut then [txt "PUT"] else []) ++
  (if f kDelete then [txt "DELETE"] else []) ++ (if f kOptions then [txt "OPTIONS"] else []) ++
  (if f kPatch then [txt "PATCH"] else []).

Definition allow_text (f : HttpMethod → bool) : bytes :=
  match allow_names f with [] => [] | name :: names => name ++ (names ≫= λ x, txt ", " ++ x) end.

(** The methods of the last pattern, in the order of priority, that the path matches
    and that has any handler. *)
Definition allowed (rs : list route) (path : bytes) : bytes :=
  match last (filter (λ p, existsb (λ m, table_serves rs m p) methods = true) (candidates (SplitPath path))) with
  | Some p => allow_text (λ m, table_serves rs m p)
  | None => []
  end.

Lemma AllowHeaderValue_text n : AllowHeaderValue n = allow_text (λ m, HasAnyHandler (routes n m)).
Proof.
  unfold AllowHeaderValue, allow_text, allow_names.
  destruct (HasAnyHandler (routes n kGet)), (HasAnyHandler (routes n kHead)), (HasAnyHandler (routes n kPost)),
    (HasAnyHandler (routes n kPut)), (HasAnyHandler (routes n kDelete)), (HasAnyHandler (routes n kOptions)),
    (HasAnyHandler (routes n kPatch)); reflexivity.
Qed.

Lemma allow_text_ext f g : (∀ m, f m = g m) → allow_text f = allow_text g.
Proof. intros E. unfold allow_text, allow_names. by rewrite !E. Qed.

Lemma miss_allow rs r C : allow_header (foldl (record_miss (build rs)) r C) =
  match last (filter (λ p, existsb (λ m, table_serves rs m p) methods = true) C) with
  | Some p => allow_text (λ m, table_serves rs m p)
  | None => allow_header r
  end.
Proof.
  induction C as [|p C IH] using rev_ind; [done|]. rewrite foldl_app, filter_app. cbn [foldl].
  assert (existsb (λ m, table_serves rs m p) methods = any_serves (build rs) p) as Hs.
  { unfold any_serves, serves, table_serves. simpl. by rewrite !entry_at_build. }
  unfold record_miss at 1. unfold any_serves, serves, entry_at in Hs.
  destruct (node_at (build rs) p) as [n|] eqn:Hn.
  - fold (node_HasAnyHandler n) in Hs.
    destruct (node_HasAnyHandler n).
    + rewrite filter_cons_True by done. cbn [filter list_filter]. rewrite last_snoc. cbn.
      rewrite AllowHeaderValue_text. apply allow_text_ext. intros m.
      unfold table_serves. rewrite <- entry_at_build. unfold entry_at. by rewrite Hn.
    + rewrite filter_cons_False by congruence. cbn [filter list_filter]. by rewrite app_nil_r.
  - rewrite filter_cons_False by (rewrite Hs; done). cbn [filter list_filter]. by rewrite app_nil_r.
Qed.

(** What a match shows, on the table: the entry and the parameters of the selected
    pattern, or the methods allowed. *)
Lemma Match_shows rs m path : trailing_slash path = false →
  ∃ r, Match (build rs) m path = Some r ∧
    path_exists r = existsb (λ p, existsb (λ m', table_serves rs m' p) methods) (candidates (SplitPath path)) ∧
    match find (table_serves rs m) (candidates (SplitPath path)) with
    | Some p => entry r = Some (table rs p m) ∧
        ∀ ss, path = "/"%char :: join "/"%char ss → Forall segment_ok ss →
          prod_map id (view_text path) <$> params r = zip (bound_names (first_name rs) [] p) (bind_values p ss)
    | None => entry r = None ∧ allow_header r = allowed rs path
    end.
Proof.
  intros Ht.
  assert (∀ m p, serves (build rs) m p = table_serves rs m p) as Hs.
  { intros. unfold serves, table_serves. by rewrite entry_at_build. }
  assert (∀ C, find (table_serves rs m) C = find (serves (build rs) m) C) as Hfe.
  { induction C as [|p C IH]; simpl; [done|]. by rewrite Hs, IH. }
  assert (∀ C, existsb (λ p, existsb (λ m', table_serves rs m' p) methods) C =
               existsb (any_serves (build rs)) C) as Hex.
  { induction C as [|p C IH]; cbn [existsb]; [done|]. rewrite IH. f_equal.
    unfold any_serves. simpl. by rewrite !Hs. }
  destruct (Match_outcome (build rs) m path Ht) as (r&Hr&Ho). exists r. split; [done|].
  rewrite Hfe, Hex. destruct (find (serves (build rs) m) _) as [p|] eqn:Hf.
  - destruct Ho as (He&Hpe&Hps). rewrite He, Hpe, entry_at_build, (find_serves_any _ _ _ _ Hf).
    split; [done|]. split; [done|]. intros ss Hpath Hss.
    assert (is_Some (node_at (build rs) p)) as Hn.
    { apply find_some in Hf as [_ Hsv]. unfold serves, entry_at in Hsv. destruct (node_at (build rs) p); [eauto|done]. }
    destruct (SplitPathView_plain path Ht) as [Hd Htx].
    assert (SplitPathView path = views_from 1 ss ∧ zdrop 1 path = join "/"%char ss) as [Hv Hz].
    { split; [|by rewrite Hpath]. destruct ss as [|s0 ss]; [by rewrite Hpath|].
      rewrite Hpath. by apply SplitPathView_join. }
    assert (∀ (l : list (bytes * string_view)) (f : string_view → bytes), prod_map id f <$> l = zip l.*1 (f <$> l.*2)) as Hzip.
    { clear. intros l f. induction l as [|[a b] l IH]; [done|]. cbn. by f_equal. }
    rewrite Hps, Hzip. f_equal.
    + rewrite (bind_params_names (build rs) [] (build rs) p path); [|done|done|done|].
      * clear. generalize (@nil token) as q. induction p as [|[] p IH]; intros q; cbn; [done|by rewrite ?IH, ?tree_name_build..].
      * rewrite Htx. apply list_elem_of_In. apply find_some in Hf as [Hin _]. exact Hin.
    + rewrite Hv. apply bind_params_values; [done| |done].
      rewrite Hpath, zlen_cons. pose proof (zlen_nonneg (join "/"%char ss)). lia.
  - destruct Ho as [He Hpe]. rewrite He, Hpe. split; [done|]. split; [done|].
    revert Hr. unfold Match. destruct (decide (path = txt "/")) as [->|_].
    + intros [= <-]. change (candidates (SplitPath (txt "/"))) with [@nil token] in Hf. unfold allowed.
      change (candidates (SplitPath (txt "/"))) with [@nil token].
      cbn [find] in Hf. unfold serves, entry_at in Hf. cbn in Hf.
      destruct (HasAnyHandler (routes (build rs) m)); [done|].
      pose proof (miss_allow rs no_match [[]]) as Hm. cbn [foldl] in Hm.
      etrans; [|exact Hm]. unfold record_miss. cbn. by destruct (node_HasAnyHandler (build rs)).
    + destruct (SplitPathView_plain path Ht) as [Hd Htx].
      destruct (MatchNode_spec path (build rs) (SplitPathView path) m no_match [] Hd eq_refl) as (r'&ps&->&Ho).
      intros [= <-]. unfold match_outcome in Ho. rewrite Htx, Hf in Ho. destruct Ho as [_ ->].
      by rewrite miss_allow.
Qed.
End Tree.

(** ** Concrete trees *)

Module Sample.
(** Handlers by number. *)
Definition on (k : nat) : RouteEntry (FVoid := nat) (FHeaders := nat) (FBody := nat) :=
  MkEntry (Some k) (MkStreamHandler None None None None).

Definition routes : list (route (FVoid := nat) (FHeaders := nat) (FBody := nat)) :=
  [(kGet, txt "/", on 0);
   (kGet, txt "/users/:id", on 1);
   (kGet, txt "/users/me", on 2);
   (kPut, txt "/users/:id/mail/:box", on 3);
   (kGet, txt "/static/*path", on 4)].
End Sample.

Lemma Match_refines_table_witness :
  ∃ r, Match (build Sample.routes) kGet (txt "/users/me") = Some r ∧
    entry r = Some (Sample.on 2) ∧ path_exists r = true.
Proof. exact (Match_refines_table Sample.routes kGet (txt "/users/me") eq_refl). Defined.

Lemma Match_params_witness :
  ∃ r, Match (build Sample.routes) kGet (txt "/static/css/site.css") = Some r ∧
    entry r = Some (Sample.on 4) ∧
    view_text (txt "/static/css/site.css") <$> (params r).*2 = [txt "css/site.css"].
Proof.
  refine (Match_params Sample.routes kGet [txt "static"; txt "css"; txt "site.css"]
            [Lit (txt "static"); Wild] _ _ eq_refl); [discriminate|].
  repeat constructor; try discriminate; simpl;
    rewrite !elem_of_cons, elem_of_nil; intuition discriminate.
Defined.

(** A wildcard lookup of a path with a trailing slash subtracts a pointer
    into the path from the null pointer of the default-constructed last segment:
    [GET /static/css/] against the route [/static/*path] has undefined behaviour,
    while the same request without the slash, and the directory itself with one,
    are served. *)
Theorem wildcard_trailing_slash :
  Match (build Sample.routes) kGet (txt "/static/css/") = None ∧
  entry <$> Match (build Sample.routes) kGet (txt "/static/css") = Some (Some (Sample.on 4)) ∧
  entry <$> Match (build Sample.routes) kGet (txt "/static/") = Some (Some (Sample.on 4)).
Proof. vm_compute. auto. Qed.

(** A route registered with a trailing slash is stored without it, and is then
    not found under the path it was registered with. *)
Example trailing_slash_route_lost :
  let rs := [(kGet, txt "/docs/", Sample.on 7)] in
  entry <$> Match (build rs) kGet (txt "/docs/") = Some None ∧
  entry <$> Match (build rs) kGet (txt "/docs") = Some (Some (Sample.on 7)).
Proof. vm_compute. auto. Qed.

(** The Allow text of a 405 comes from the last candidate that has a handler,
    not from all of them: [POST] is missing here although it would be served. *)
Example allow_header_incomplete :
  let rs := [(kPost, txt "/users/me", Sample.on 1); (kPut, txt "/users/:id", Sample.on 2)] in
  allow_header <$> Match (build rs) kGet (txt "/users/me") = Some (txt "PUT") ∧
  entry <$> Match (build rs) kPost (txt "/users/me") = Some (Some (Sample.on 1)).
Proof. vm_compute. auto. Qed.
