(* ===== verification/HttpResponse.v ===== *)
(** * HTTP responses

    [include/iouring_runtime/web/HttpStatus.h],
    [include/iouring_runtime/web/HttpResponse.h] and
    [src/modules/web/HttpResponse.cpp]: the response a handler fills in, its
    serialization and the way it is handed to the session, over the buffer pool
    of SendBuffer.v.

    What the response asks of its session and of the kernel is recorded as a
    list of [effect]s; the outcome of [open], [fstat] and of the session's
    StartFileStream, and the text of the Date header, are arguments. *)

From stdpp Require Import fin_maps.
From S2P Require Import Prelude Types Text SendBuffer.

#[local] Open Scope Z_scope.
#[local] Set Warnings "-clear-no-such-hyp".

(** ** Status codes *)

Module HttpStatus.
(** Source: include/iouring_runtime/web/HttpStatus.h:8-28, HttpStatus. *)
Inductive t :=
| kOk | kCreated | kNoContent | kMovedPermanently | kFound | kNotModified
| kBadRequest | kUnauthorized | kForbidden | kNotFound | kMethodNotAllowed
| kRequestTimeout | kPayloadTooLarge | kUriTooLong | kRequestHeaderFieldsTooLarge
| kInternalServerError | kNotImplemented | kBadGateway | kServiceUnavailable.

#[global] Instance eq_dec : EqDecision t.
Proof. solve_decision. Defined.

(** Source: include/iouring_runtime/web/HttpStatus.h:9-27, HttpStatus.
    The numeric values. *)
Definition code (s : t) : Z :=
  match s with
  | kOk => 200
  | kCreated => 201
  | kNoContent => 204
  | kMovedPermanently => 301
  | kFound => 302
  | kNotModified => 304
  | kBadRequest => 400
  | kUnauthorized => 401
  | kForbidden => 403
  | kNotFound => 404
  | kMethodNotAllowed => 405
  | kRequestTimeout => 408
  | kPayloadTooLarge => 413
  | kUriTooLong => 414
  | kRequestHeaderFieldsTooLarge => 431
  | kInternalServerError => 500
  | kNotImplemented => 501
  | kBadGateway => 502
  | kServiceUnavailable => 503
  end.

(** Source: include/iouring_runtime/web/HttpStatus.h:30-54, HttpStatusToString. *)
Definition to_text (s : t) : bytes :=
  match s with
  | kOk => txt "OK"
  | kCreated => txt "Created"
  | kNoContent => txt "No Content"
  | kMovedPermanently => txt "Moved Permanently"
  | kFound => txt "Found"
  | kNotModified => txt "Not Modified"
  | kBadRequest => txt "Bad Request"
  | kUnauthorized => txt "Unauthorized"
  | kForbidden => txt "Forbidden"
  | kNotFound => txt "Not Found"
  | kMethodNotAllowed => txt "Method Not Allowed"
  | kRequestTimeout => txt "Request Timeout"
  | kPayloadTooLarge => txt "Payload Too Large"
  | kUriTooLong => txt "URI Too Long"
  | kRequestHeaderFieldsTooLarge => txt "Request Header Fields Too Large"
  | kInternalServerError => txt "Internal Server Error"
  | kNotImplemented => txt "Not Implemented"
  | kBadGateway => txt "Bad Gateway"
  | kServiceUnavailable => txt "Service Unavailable"
  end.
End HttpStatus.

(** ** Data *)

(** Source: include/iouring_runtime/web/HttpResponse.h:117-121, HttpResponse::State. *)
Inductive State := kOpen | kSent | kDeferred.

#[export] Instance State_eq_dec : EqDecision State.
Proof. solve_decision. Defined.

(** Source: include/iouring_runtime/web/HttpResponse.h:131-145, HttpResponse.
    [bound] tells whether [session_] and [pool_] are set; both are, or
    neither. *)
Record HttpResponse := MkResponse {
  status_ : HttpStatus.t;
  headers_ : list (bytes * bytes);
  content_type_ : bytes;
  body_ : bytes;
  keep_alive_ : bool;
  state_ : State;
  suppress_body_ : bool;
  last_built_bytes_ : Z;
  bound : bool
}.

(** Source: src/modules/web/HttpResponse.cpp:85-87, HttpResponse::HttpResponse. *)
Definition HttpResponse_new (bound : bool) : HttpResponse :=
  MkResponse HttpStatus.kOk [] [] [] true kOpen false 0 bound.

Definition set_last_built (r : HttpResponse) (n : Z) : HttpResponse :=
  MkResponse (status_ r) (headers_ r) (content_type_ r) (body_ r) (keep_alive_ r)
    (state_ r) (suppress_body_ r) n (bound r).

Definition set_state (r : HttpResponse) (s : State) : HttpResponse :=
  MkResponse (status_ r) (headers_ r) (content_type_ r) (body_ r) (keep_alive_ r)
    s (suppress_body_ r) (last_built_bytes_ r) (bound r).

(** ** Setters *)

(** Source: include/iouring_runtime/web/HttpResponse.h:22-25, HttpResponse::Status. *)
Definition Status (r : HttpResponse) (status : HttpStatus.t) : HttpResponse :=
  MkResponse status (headers_ r) (content_type_ r) (body_ r) (keep_alive_ r)
    (state_ r) (suppress_body_ r) (last_built_bytes_ r) (bound r).

Definition set_headers (r : HttpResponse) (hs : list (bytes * bytes)) : HttpResponse :=
  MkResponse (status_ r) hs (content_type_ r) (body_ r) (keep_alive_ r)
    (state_ r) (suppress_body_ r) (last_built_bytes_ r) (bound r).

(** Source: include/iouring_runtime/web/HttpResponse.h:27-30, HttpResponse::Header. *)
Definition Header (r : HttpResponse) (name value : bytes) : HttpResponse :=
  set_headers r (headers_ r ++ [(name, value)]).

(** Source: include/iouring_runtime/web/HttpResponse.h:35-38, HttpResponse::ContentType. *)
Definition ContentType (r : HttpResponse) (type : bytes) : HttpResponse :=
  MkResponse (status_ r) (headers_ r) type (body_ r) (keep_alive_ r)
    (state_ r) (suppress_body_ r) (last_built_bytes_ r) (bound r).

(** Source: include/iouring_runtime/web/HttpResponse.h:40-43, HttpResponse::Body. *)
Definition Body (r : HttpResponse) (body : bytes) : HttpResponse :=
  MkResponse (status_ r) (headers_ r) (content_type_ r) body (keep_alive_ r)
    (state_ r) (suppress_body_ r) (last_built_bytes_ r) (bound r).

(** Source: include/iouring_runtime/web/HttpResponse.h:45-49, HttpResponse::Text. *)
Definition Text (r : HttpResponse) (text : bytes) : HttpResponse :=
  Body (ContentType r (txt "text/plain")) text.

(** Source: include/iouring_runtime/web/HttpResponse.h:51-55, HttpResponse::Json. *)
Definition Json (r : HttpResponse) (json_body : bytes) : HttpResponse :=
  Body (ContentType r (txt "application/json")) json_body.

(** Source: include/iouring_runtime/web/HttpResponse.h:57-62, HttpResponse::Error. *)
Definition Error (r : HttpResponse) (status : HttpStatus.t) (message : bytes) : HttpResponse :=
  Body (ContentType (Status r status) (txt "text/plain")) message.

(** Source: include/iouring_runtime/web/HttpResponse.h:64-67, HttpResponse::KeepAlive. *)
Definition KeepAlive (r : HttpResponse) (keep_alive : bool) : HttpResponse :=
  MkResponse (status_ r) (headers_ r) (content_type_ r) (body_ r) keep_alive
    (state_ r) (suppress_body_ r) (last_built_bytes_ r) (bound r).

(** Source: include/iouring_runtime/web/HttpResponse.h:69-72, HttpResponse::SuppressBody. *)
Definition SuppressBody (r : HttpResponse) (suppress : bool) : HttpResponse :=
  MkResponse (status_ r) (headers_ r) (content_type_ r) (body_ r) (keep_alive_ r)
    (state_ r) suppress (last_built_bytes_ r) (bound r).

(** Source: include/iouring_runtime/web/HttpResponse.h:98-100, HttpResponse::IsSent. *)
Definition IsSent (r : HttpResponse) : bool := bool_decide (state_ r = kSent).

(** Source: include/iouring_runtime/web/HttpResponse.h:102-104, HttpResponse::IsDeferred. *)
Definition IsDeferred (r : HttpResponse) : bool := bool_decide (state_ r = kDeferred).

(** Source: include/iouring_runtime/web/HttpResponse.h:123-127, HttpResponse::MarkDeferred. *)
Definition MarkDeferred (r : HttpResponse) : HttpResponse :=
  if decide (state_ r = kOpen) then set_state r kDeferred else r.

(** Lower case of an ASCII letter, as the loop of HeaderNameEquals computes it. *)
Definition lower (c : byte) : byte :=
  if (byte_val "A" <=? byte_val c) && (byte_val c <=? byte_val "Z")
  then byte_of (byte_val c - byte_val "A" + byte_val "a") else c.

(** Source: src/modules/web/HttpResponse.cpp:45-63, HeaderNameEquals. *)
Definition HeaderNameEquals (lhs rhs : bytes) : bool :=
  if bool_decide (length lhs ≠ length rhs) then false
  else forallb (λ '(a, b), bool_decide (lower a = lower b)) (zip lhs rhs).

(** Source: src/modules/web/HttpResponse.cpp:89-99, HttpResponse::HasHeader. *)
Definition HasHeader (r : HttpResponse) (name : bytes) : bool :=
  if HeaderNameEquals name (txt "Content-Type") && bool_decide (content_type_ r ≠ []) then true
  else existsb (λ h, HeaderNameEquals (fst h) name) (headers_ r).

(** Source: src/modules/web/HttpResponse.cpp:101-113, HttpResponse::RemoveHeader. *)
Definition RemoveHeader (r : HttpResponse) (name : bytes) : HttpResponse :=
  let r := if HeaderNameEquals name (txt "Content-Type") then ContentType r [] else r in
  set_headers r (List.filter (λ h, negb (HeaderNameEquals (fst h) name)) (headers_ r)).

(** Source: src/modules/web/HttpResponse.cpp:115-121, HttpResponse::Redirect. *)
Definition Redirect (r : HttpResponse) (url : bytes) (status : HttpStatus.t) : HttpResponse :=
  Header (RemoveHeader (Body (Status r status) []) (txt "Location")) (txt "Location") url.

(** ** Serialization *)

Definition crlf : bytes := [ascii_of_nat 13; ascii_of_nat 10].

(** Source: src/modules/web/HttpResponse.cpp:65-68, StatusMustNotHaveBody. *)
Definition StatusMustNotHaveBody (status : HttpStatus.t) : bool :=
  bool_decide (status = HttpStatus.kNoContent) || bool_decide (status = HttpStatus.kNotModified).

(** A flag of the scan over the caller's headers.  The five names of the
    [else if] chain differ, so each header sets at most the flag of its name. *)
Definition caller_has (r : HttpResponse) (name : string) : bool :=
  existsb (λ h, HeaderNameEquals (fst h) (txt name)) (headers_ r).

(** Source: src/modules/web/HttpResponse.cpp:123-187, HttpResponse::SerializeHeaders.
    [date] is the text of CurrentHttpDate. *)
Definition SerializeHeaders (date : bytes) (r : HttpResponse) (body_size : Z) : bytes :=
  let status_no_body := StatusMustNotHaveBody (status_ r) in
  txt "HTTP/1.1 " ++ to_string (HttpStatus.code (status_ r)) ++ txt " " ++
  HttpStatus.to_text (status_ r) ++ crlf ++
  (if negb (caller_has r "Server") then txt "Server: iouring_runtime_web" ++ crlf else []) ++
  (if negb (caller_has r "Date") then txt "Date: " ++ date ++ crlf else []) ++
  (if negb (caller_has r "Content-Type") && bool_decide (content_type_ r ≠ [])
   then txt "Content-Type: " ++ content_type_ r ++ crlf else []) ++
  (if negb (caller_has r "Content-Length") && negb status_no_body
   then txt "Content-Length: " ++ to_string body_size ++ crlf else []) ++
  (if negb (caller_has r "Connection")
   then txt "Connection: " ++ (if keep_alive_ r then txt "keep-alive" else txt "close") ++ crlf
   else []) ++
  foldl (λ out '(name, value),
           if status_no_body && HeaderNameEquals name (txt "Content-Length") then out
           else out ++ name ++ txt ": " ++ value ++ crlf) [] (headers_ r) ++
  crlf.

(** No body bytes follow the head: the status has none, or it is suppressed. *)
Definition no_body (r : HttpResponse) : bool :=
  StatusMustNotHaveBody (status_ r) || suppress_body_ r.

(** The payload bytes that follow the head. *)
Definition payload (r : HttpResponse) : bytes := if no_body r then [] else body_ r.

(** Source: src/modules/web/HttpResponse.cpp:70-81, BufferFromBytes. *)
Definition BufferFromBytes (p : pool) (d : bytes) : option (pool * option nat) :=
  '(p, result) ← Allocate p (u32 (zlen d));
  match result with
  | Unexpected _ => Some (p, None)
  | Value h => p ← append_data p h d; Some (p, Some h)
  end.

(** Source: src/modules/web/HttpResponse.cpp:189-210, HttpResponse::Build.
    The two copies into the fresh buffer, one after the other, and the commit of
    both. *)
Definition Build (date : bytes) (r : HttpResponse) (p : pool)
    : option (HttpResponse * pool * option nat) :=
  let headers := SerializeHeaders date r (zlen (body_ r)) in
  let total_size := zlen headers + (if no_body r then 0 else zlen (body_ r)) in
  '(p, result) ← Allocate p (u32 total_size);
  match result with
  | Unexpected _ => Some (r, p, None)
  | Value h =>
    p ← append_data p h (headers ++ payload r);
    Some (set_last_built r total_size, p, Some h)
  end.

(** Source: src/modules/web/HttpResponse.cpp:231-243, HttpResponse::BuildBuffers.
    The loop over the body.  [None] inside is the early [return {}]. *)
Fixpoint BuildBuffers_loop (fuel : nat) (chunk_size : Z) (p : pool) (body : bytes) (offset : Z)
    (buffers : list nat) : option (pool * option (list nat)) :=
  match fuel with
  | O => None
  | S fuel =>
    if offset <? zlen body then
      let next_size := chunk_size `min` (zlen body - offset) in
      '(p, buf) ← BufferFromBytes p (ztake next_size (zdrop offset body));
      match buf with
      | None => Some (p, None)
      | Some h => BuildBuffers_loop fuel chunk_size p body (offset + next_size) (buffers ++ [h])
      end
    else Some (p, Some buffers)
  end.

(** Source: src/modules/web/HttpResponse.cpp:212-248, HttpResponse::BuildBuffers.
    The empty vector stands for failure.  The loop runs at most once per byte. *)
Definition BuildBuffers (date : bytes) (r : HttpResponse) (p : pool) (body_chunk_size : Z)
    : option (HttpResponse * pool * list nat) :=
  let headers := SerializeHeaders date r (zlen (body_ r)) in
  let chunk_size := body_chunk_size `max` 1 in
  '(p, header) ← BufferFromBytes p headers;
  match header with
  | None => Some (r, p, [])
  | Some h =>
    '(p, buffers) ← (if no_body r then Some (p, Some [h])
                     else BuildBuffers_loop (S (length (body_ r))) chunk_size p (body_ r) 0 [h]);
    match buffers with
    | None => Some (r, p, [])
    | Some buffers =>
      Some (set_last_built r (zlen headers + (if no_body r then 0 else zlen (body_ r))),
            p, buffers)
    end
  end.

(** ** Sending *)

(** Source: src/modules/web/HttpResponse.cpp:21-23, kInlineResponseMaxBytes. *)
Definition kInlineResponseMaxBytes : Z := 256 * 1024.
Definition kBodyStreamChunkSize : Z := 256 * 1024.
Definition kBodyStreamMaxChunksPerWrite : Z := 4.

(** Calls a response makes. *)
Inductive effect :=
| CallSendResponse (buf : nat)
| CallStartBodyStream (header : nat) (body : bytes) (chunk_size max_chunks_per_write : Z)
| CallStartFileStream (header : nat) (fd file_size chunk_size max_chunks_per_write : Z)
| CallClose (fd : Z).

(** Source: src/modules/web/HttpResponse.cpp:250-286, HttpResponse::Send. *)
Definition Send (date : bytes) (r : HttpResponse) (p : pool)
    : option (HttpResponse * pool * list effect) :=
  if decide (state_ r = kSent) then Some (r, p, []) else
  let r := set_state r kSent in
  if negb (bound r) then Some (r, p, []) else
  let headers := SerializeHeaders date r (zlen (body_ r)) in
  let total_size := zlen headers + (if no_body r then 0 else zlen (body_ r)) in
  let r := set_last_built r total_size in
  '(r, p, buffer) ← (if total_size <=? kInlineResponseMaxBytes then Build date r p
                     else Some (r, p, None));
  match buffer with
  | Some h => Some (r, p, [CallSendResponse h])
  | None =>
    '(p, header) ← BufferFromBytes p headers;
    match header with
    | None => Some (r, p, [])
    | Some h =>
      if no_body r || bool_decide (body_ r = []) then Some (r, p, [CallSendResponse h])
      else Some (Body r [], p,
                 [CallStartBodyStream h (body_ r) kBodyStreamChunkSize
                    kBodyStreamMaxChunksPerWrite])
    end
  end.

(** Outcome of [open] and of [fstat] on the descriptor: whether it is a regular
    file and [st_size]. *)
Inductive open_outcome :=
| OpenFailed (enoent : bool)
| Opened (fd : Z) (stat : option (bool * Z)).

(** Source: src/modules/web/HttpResponse.cpp:288-353, HttpResponse::SendFile.
    [started] is what the session's StartFileStream returns. *)
Definition SendFile (date : bytes) (r : HttpResponse) (p : pool) (file : open_outcome)
    (content_type : bytes) (chunk_size max_chunks_per_write : Z) (started : bool)
    : option (HttpResponse * pool * list effect * bool) :=
  if decide (state_ r = kSent) then Some (r, p, [], false) else
  if negb (bound r) then Some (set_state r kSent, p, [], false) else
  let r := KeepAlive r false in
  let r := if bool_decide (content_type_ r = []) && bool_decide (content_type ≠ [])
           then ContentType r content_type else r in
  match file with
  | OpenFailed enoent =>
    let r := if enoent then Error r HttpStatus.kNotFound (txt "Not Found")
             else Error r HttpStatus.kInternalServerError (txt "Internal Server Error") in
    '(r, p, es) ← Send date r p; Some (r, p, es, false)
  | Opened fd stat =>
    match stat with
    | Some (true, st_size) =>
      let file_size := if st_size <? 0 then 0 else st_size in
      let headers := SerializeHeaders date r file_size in
      '(p, result) ← Allocate p (u32 (zlen headers));
      match result with
      | Unexpected _ => Some (r, p, [CallClose fd], false)
      | Value h =>
        p ← append_data p h headers;
        let r := set_state (set_last_built r (zlen headers)) kSent in
        if no_body r then Some (r, p, [CallClose fd; CallSendResponse h], true) else
        let start := CallStartFileStream h fd file_size chunk_size max_chunks_per_write in
        if negb started then Some (r, p, [start; CallClose fd], false)
        else Some (r, p, [start], true)
      end
    | _ =>
      let r := Error r HttpStatus.kInternalServerError (txt "Internal Server Error") in
      '(r, p, es) ← Send date r p; Some (r, p, CallClose fd :: es, false)
    end
  end.

(** Source: src/modules/web/HttpResponse.cpp:355-361, HttpResponse::NoContent. *)
Definition NoContent (date : bytes) (p : pool) (keep_alive : bool)
    : option (pool * option nat) :=
  '(_, p, buf) ← Build date
     (KeepAlive (Status (HttpResponse_new false) HttpStatus.kNoContent) keep_alive) p;
  Some (p, buf).

(** ** The head as a list of fields *)

Abbreviation CR := (ascii_of_nat 13).
Abbreviation LF := (ascii_of_nat 10).

Definition status_line (r : HttpResponse) : bytes :=
  txt "HTTP/1.1 " ++ to_string (HttpStatus.code (status_ r)) ++ txt " " ++
  HttpStatus.to_text (status_ r).

Definition render_field (f : bytes * bytes) : bytes := f.1 ++ txt ": " ++ f.2 ++ crlf.

Definition opt_field (b : bool) (name : string) (value : bytes) : list (bytes * bytes) :=
  if b then [(txt name, value)] else [].

(** The fields of the head, in order. *)
Definition fields (date : bytes) (r : HttpResponse) (body_size : Z) : list (bytes * bytes) :=
  let status_no_body := StatusMustNotHaveBody (status_ r) in
  opt_field (negb (caller_has r "Server")) "Server" (txt "iouring_runtime_web") ++
  opt_field (negb (caller_has r "Date")) "Date" date ++
  opt_field (negb (caller_has r "Content-Type") && bool_decide (content_type_ r ≠ []))
    "Content-Type" (content_type_ r) ++
  opt_field (negb (caller_has r "Content-Length") && negb status_no_body)
    "Content-Length" (to_string body_size) ++
  opt_field (negb (caller_has r "Connection")) "Connection"
    (if keep_alive_ r then txt "keep-alive" else txt "close") ++
  List.filter (λ f, negb (status_no_body && HeaderNameEquals f.1 (txt "Content-Length"))) (headers_ r).

Definition render_fields (fs : list (bytes * bytes)) : bytes := fs ≫= render_field.

Lemma render_fields_app fs gs :
  render_fields (fs ++ gs) = render_fields fs ++ render_fields gs.
Proof. apply bind_app. Qed.

Lemma render_fields_cons f fs : render_fields (f :: fs) = render_field f ++ render_fields fs.
Proof. done. Qed.

Lemma render_opt_field b name value :
  render_fields (opt_field b name value) =
    if b then txt name ++ txt ": " ++ value ++ crlf else [].
Proof. destruct b; [|done]. unfold render_fields, opt_field. simpl. by rewrite app_nil_r. Qed.

Lemma render_caller (skip : bytes → bool) hs out :
  foldl (λ out '(name, value),
           if skip name then out else out ++ name ++ txt ": " ++ value ++ crlf) out hs =
  out ++ render_fields (List.filter (λ f, negb (skip f.1)) hs).
Proof.
  revert out. induction hs as [|[n v] hs IH]; intros out; [by rewrite app_nil_r|].
  cbn [foldl List.filter fst]. rewrite IH. destruct (skip n); cbn [negb]; [done|].
  rewrite render_fields_cons. unfold render_field. cbn [fst snd]. by rewrite <-!app_assoc.
Qed.

Lemma SerializeHeaders_render date r n :
  SerializeHeaders date r n = status_line r ++ crlf ++ render_fields (fields date r n) ++ crlf.
Proof.
  unfold SerializeHeaders, fields, status_line. rewrite !render_fields_app, !render_opt_field.
  rewrite (render_caller (λ name, StatusMustNotHaveBody (status_ r) &&
                                  HeaderNameEquals name (txt "Content-Length"))).
  cbn [app]. rewrite <-!app_assoc. done.
Qed.

(** ** A reference parser of a response head *)

(** The text up to the first CR LF, and what follows it. *)
Fixpoint take_line (s : bytes) : option (bytes * bytes) :=
  match s with
  | [] => None
  | b :: rest =>
    match rest with
    | c :: rest' =>
      if decide (b = CR ∧ c = LF) then Some ([], rest')
      else '(l, r) ← take_line rest; Some (b :: l, r)
    | [] => None
    end
  end.

Definition parse_field (line : bytes) : option (bytes * bytes) :=
  '(name, value) ← split_at ":"%char line;
  match value with
  | c :: value => if decide (c = " "%char) then Some (name, value) else None
  | [] => None
  end.

(** Fields up to the empty line; one unit of fuel per line. *)
Fixpoint parse_fields (fuel : nat) (s : bytes) : option (list (bytes * bytes) * bytes) :=
  match fuel with
  | O => None
  | S fuel =>
    '(line, s) ← take_line s;
    match line with
    | [] => Some ([], s)
    | _ =>
      f ← parse_field line;
      '(fs, s) ← parse_fields fuel s;
      Some (f :: fs, s)
    end
  end.

(** Status line, fields and the bytes after the head. *)
Definition parse_response (s : bytes) : option (bytes * list (bytes * bytes) * bytes) :=
  '(line, rest) ← take_line s;
  '(fs, rest) ← parse_fields (length s) rest;
  Some (line, fs, rest).

Lemma take_line_app l r : CR ∉ l → take_line (l ++ crlf ++ r) = Some (l, r).
Proof.
  induction l as [|b l IH]; intros Hl; [done|]. apply not_elem_of_cons in Hl as [Hb Hl].
  specialize (IH Hl). cbn [app take_line].
  destruct (l ++ crlf ++ r) as [|c s] eqn:E; [by apply app_eq_nil in E as [_ ?]|].
  rewrite decide_False by naive_solver. by rewrite IH.
Qed.

(** A field a recipient reads back: no line break, no colon in the name. *)
Definition field_ok (f : bytes * bytes) : Prop :=
  (CR ∉ f.1) ∧ (":"%char ∉ f.1) ∧ (CR ∉ f.2).

Lemma parse_field_render f :
  field_ok f → parse_field (f.1 ++ txt ": " ++ f.2) = Some f.
Proof.
  intros (_&Hc&_). unfold parse_field. cbn [txt list_ascii_of_string app].
  rewrite split_at_app by done. by destruct f.
Qed.

Lemma parse_fields_render fs fuel rest :
  Forall field_ok fs → (length fs < fuel)%nat →
  parse_fields fuel (render_fields fs ++ crlf ++ rest) = Some (fs, rest).
Proof.
  intros Hfs. revert fuel. induction Hfs as [|f fs Hf _ IH]; intros [|fuel] Hlt; try (simpl in Hlt; lia).
  - done.
  - rewrite render_fields_cons. unfold render_field. rewrite <-!app_assoc.
    cbn [parse_fields].
    assert (f.1 ++ txt ": " ++ f.2 ++ crlf ++ render_fields fs ++ crlf ++ rest =
            (f.1 ++ txt ": " ++ f.2) ++ crlf ++ render_fields fs ++ crlf ++ rest) as ->
      by (by rewrite <-!app_assoc).
    rewrite take_line_app; [|].
    + cbn [mbind option_bind].
      destruct (f.1 ++ txt ": " ++ f.2) as [|b l] eqn:E.
      { by apply app_eq_nil in E as [_ ?]. }
      rewrite <-E, parse_field_render by done. cbn [mbind option_bind].
      rewrite IH by (simpl in Hlt; lia). done.
    + destruct Hf as (?&_&?). rewrite !elem_of_app. intros [?|[Hin|?]]; [done| |done].
      vm_compute in Hin. repeat (apply elem_of_cons in Hin as [Hin|Hin]; [done|]).
      by apply elem_of_nil in Hin.
Qed.

(** ** What a recipient reads *)

(** No line breaks in what the caller supplied. *)
Definition response_ok (date : bytes) (r : HttpResponse) : Prop :=
  Forall field_ok (headers_ r) ∧ (CR ∉ content_type_ r) ∧ (CR ∉ date).

Lemma digits_no_cr ds : Forall (λ b, is_digit b = true) ds → CR ∉ ds.
Proof. intros Hd Hin. by apply (proj1 (Forall_forall _ _) Hd) in Hin. Qed.

Lemma to_string_no_cr n : 0 ≤ n → CR ∉ to_string n.
Proof. intros Hn. apply digits_no_cr, to_string_value, Hn. Qed.

Lemma code_nonneg s : 0 ≤ HttpStatus.code s.
Proof. by destruct s. Qed.

(** A text without the character, by evaluation. *)
Definition lacks (c : byte) (s : bytes) : bool := negb (existsb (λ d, bool_decide (c = d)) s).

Lemma lacks_spec c s : lacks c s = true → c ∉ s.
Proof.
  unfold lacks. intros Hl%negb_true_iff Hin.
  assert (existsb (λ d, bool_decide (c = d)) s = true); [|congruence].
  apply existsb_exists. exists c. split; [by apply list_elem_of_In|by apply bool_decide_eq_true].
Qed.

Lemma status_line_no_cr r : CR ∉ status_line r.
Proof. unfold status_line. destruct (status_ r); by apply lacks_spec. Qed.

Lemma opt_field_ok b name value :
  lacks CR (txt name) && lacks ":" (txt name) = true → CR ∉ value →
  Forall field_ok (opt_field b name value).
Proof.
  intros [? ?]%andb_true_iff ?. destruct b; constructor; [|constructor].
  split_and!; first [done | by apply lacks_spec].
Qed.

Lemma fields_ok date r n : response_ok date r → 0 ≤ n → Forall field_ok (fields date r n).
Proof.
  intros (Hh&Hc&Hd) Hn. unfold fields. rewrite !Forall_app. split_and!.
  1-5: apply opt_field_ok; try done.
  - by apply lacks_spec.
  - by apply to_string_no_cr.
  - destruct (keep_alive_ r); by apply lacks_spec.
  - apply Forall_forall. intros f. rewrite list_elem_of_In, filter_In, <-list_elem_of_In.
    intros [? _]. by eapply Forall_forall.
Qed.

Lemma render_fields_length fs : (length fs ≤ length (render_fields fs))%nat.
Proof.
  induction fs as [|f fs IH]; [done|]. rewrite render_fields_cons. unfold render_field.
  rewrite !length_app. simpl. lia.
Qed.

Lemma parse_SerializeHeaders date r n rest :
  response_ok date r → 0 ≤ n →
  parse_response (SerializeHeaders date r n ++ rest) =
    Some (status_line r, fields date r n, rest).
Proof.
  intros Hr Hn. unfold parse_response. rewrite SerializeHeaders_render, <-!app_assoc.
  rewrite take_line_app by apply status_line_no_cr. cbn [mbind option_bind].
  rewrite parse_fields_render; [done|by apply fields_ok|].
  pose proof (render_fields_length (fields date r n)).
  rewrite !length_app. unfold crlf. simpl. lia.
Qed.

(** ** Buffers taken from the pool *)

(** A pool that can still hand out [k] buffers of at most [n] bytes without its
    32-bit sizes and counters wrapping. *)
Definition pool_room (p : pool) (k : nat) (n : Z) : Prop :=
  pool_ok p ∧ chunk_size_ p + n < 2 ^ 32 ∧ 0 ≤ n ∧
  Z.of_nat (base.size (buffers p)) + Z.of_nat k < 2 ^ 32.

Lemma pool_room_le p j k n : (j ≤ k)%nat → pool_room p k n → pool_room p j n.
Proof. intros Hjk (?&?&?&?). split_and!; try done. lia. Qed.

Lemma view_buffers p h : pool_ok p → is_Some (view p h) ↔ is_Some (buffers p !! h).
Proof.
  intros Hok. split.
  - unfold view. destruct (buffers p !! h); simpl; [eauto|by intros []].
  - intros [sb Hh]. destruct (view_live p h sb Hok Hh) as [d ->]. eauto.
Qed.

Lemma allocated_count p q size r :
  pool_ok p → pool_ok q → allocated p q size r →
  (base.size (buffers q) ≤ S (base.size (buffers p)))%nat ∧
  (has_value r = false → base.size (buffers q) = base.size (buffers p)).
Proof.
  intros Hp Hq Ha. rewrite <-!size_dom. destruct r as [h|e]; simpl in *.
  - destruct Ha as (Hh&Hv&Hrest). split; [|done].
    trans (base.size ({[h]} ∪ dom (buffers p))).
    + apply subseteq_size. intros h'. rewrite elem_of_union, elem_of_singleton, !elem_of_dom.
      intros Hq'%(view_buffers q h' Hq). destruct (decide (h' = h)) as [->|Hne]; [by left|right].
      apply (view_buffers p h' Hp). by rewrite <-Hrest.
    + rewrite size_union_alt, size_singleton.
      assert (base.size (dom (buffers p) ∖ {[h]}) ≤ base.size (dom (buffers p)))%nat; [|lia].
      apply subseteq_size. set_solver.
  - destruct Ha as [_ Hv]. assert (dom (buffers q) = dom (buffers p)) as ->; [|split; [lia|done]].
    apply set_eq. intros h. rewrite !elem_of_dom, <-(view_buffers q h Hq), <-(view_buffers p h Hp).
    by rewrite Hv.
Qed.

(** The buffers of [p] show the same in [q]. *)
Definition keeps (p q : pool) : Prop := ∀ h, is_Some (view p h) → view q h = view p h.

Lemma keeps_trans p q r : keeps p q → keeps q r → keeps p r.
Proof. intros H1 H2 h Hh. rewrite H2; [by apply H1|]. by rewrite H1. Qed.

Lemma view_Data p h cap d : view p h = Some (cap, d) → Data p h = Some d.
Proof.
  unfold view. intros Hv. apply bind_Some in Hv as (sb&_&Hv).
  apply bind_Some in Hv as (d'&->&Hv). by simplify_eq.
Qed.

(** Allocating for [d] and copying it: the buffer shows [d] and nothing else
    changes, or the pool is exhausted and nothing changes at all. *)
Lemma fill_spec p k n d :
  pool_room p (S k) n → zlen d ≤ n →
  ∃ q result, Allocate p (u32 (zlen d)) = Some (q, result) ∧
    match result with
    | Value h => ∃ q', append_data q h d = Some q' ∧ pool_room q' k n ∧
        view q' h = Some (zlen d, d) ∧ buffers p !! h = None ∧ keeps p q'
    | Unexpected _ => pool_room q (S k) n ∧ keeps p q ∧
        (chunk_size_ p < zlen d ∨ max_chunks_ p ≤ zlen (active_chunks_ p))
    end.
Proof.
  intros (Hok&Hcs&Hn&Hcnt) Hd. pose proof (zlen_nonneg d). pose proof (po_size p Hok).
  rewrite u32_small by lia.
  destruct (Allocate_spec p (zlen d) Hok) as (q&r&->&Hq&Hqc&Ha&Hfail); [split_and!; lia|].
  destruct (allocated_count p q _ r Hok Hq Ha) as [Hc1 Hc2].
  exists q, r. split; [done|]. destruct r as [h|e]; simpl in Ha.
  - destruct Ha as (Hh&Hv&Hrest).
    assert (is_Some (buffers q !! h)) as [sb Hsb] by (apply view_buffers; [done|rewrite Hv; eauto]).
    assert (alloc_size_ sb = zlen d) as Has.
    { destruct (view_live q h sb Hq Hsb) as [d' Hv']. congruence. }
    destruct (append_data_spec q h sb d [] Hq Hsb) as (q'&Hq'&Hok'&Hcs'&Hsz'&Hv'&Hrest').
    { by rewrite Has. }
    { rewrite Has, zlen_nil. lia. }
    exists q'. split; [done|]. split; [split_and!; [done|lia|lia|rewrite Hsz'; lia]|].
    rewrite Has in Hv'. split; [done|]. split; [done|]. intros h' [x Hx].
    assert (h' ≠ h) as Hne.
    { intros ->. unfold view in Hx. by rewrite Hh in Hx. }
    by rewrite Hrest', Hrest.
  - destruct Ha as [_ Hv]. split; [split_and!; [done|lia|lia|]|].
    + by rewrite Hc2.
    + split; [intros h' _; apply Hv|]. by apply Hfail.
Qed.

Lemma BufferFromBytes_spec p k n d :
  pool_room p (S k) n → zlen d ≤ n →
  ∃ q buf, BufferFromBytes p d = Some (q, buf) ∧ keeps p q ∧
    match buf with
    | Some h => pool_room q k n ∧ Data q h = Some d ∧ is_Some (view q h)
    | None => pool_room q (S k) n ∧ (chunk_size_ p < zlen d ∨ max_chunks_ p ≤ zlen (active_chunks_ p))
    end.
Proof.
  intros Hp Hd. destruct (fill_spec p k n d Hp Hd) as (q&r&Ha&Hr).
  unfold BufferFromBytes. rewrite Ha. cbn [mbind option_bind]. destruct r as [h|e].
  - destruct Hr as (q'&->&?&Hv&_&?). cbn [mbind option_bind]. exists q', (Some h).
    split; [done|]. split; [done|]. split; [done|].
    split; [by eapply view_Data|]. rewrite Hv. eauto.
  - destruct Hr as (?&?&?). by exists q, None.
Qed.

Lemma payload_zlen r : zlen (payload r) = if no_body r then 0 else zlen (body_ r).
Proof. unfold payload. by destruct (no_body r). Qed.

(** The bytes on the wire: the head, then the payload. *)
Definition wire (date : bytes) (r : HttpResponse) : bytes :=
  SerializeHeaders date r (zlen (body_ r)) ++ payload r.

Lemma Build_spec date r p k n :
  pool_room p (S k) n → zlen (wire date r) ≤ n →
  ∃ q buf r', Build date r p = Some (r', q, buf) ∧ keeps p q ∧
    (r' = r ∨ r' = set_last_built r (zlen (wire date r))) ∧
    match buf with
    | Some h => pool_room q k n ∧ Data q h = Some (wire date r)
    | None => r' = r ∧ pool_room q (S k) n ∧
              (chunk_size_ p < zlen (wire date r) ∨ max_chunks_ p ≤ zlen (active_chunks_ p))
    end.
Proof.
  intros Hp Hw. unfold Build. rewrite <-payload_zlen, <-zlen_app.
  change (SerializeHeaders date r (zlen (body_ r)) ++ payload r) with (wire date r).
  destruct (fill_spec p k n (wire date r) Hp Hw) as (q&res&->&Hr). cbn [mbind option_bind].
  destruct res as [h|e].
  - destruct Hr as (q'&->&?&Hv&_&?). cbn [mbind option_bind].
    exists q', (Some h). eexists. split; [done|]. split; [done|]. split; [by right|].
    split; [done|by eapply view_Data].
  - destruct Hr as (?&?&?). exists q, None, r. auto 10.
Qed.

(** *** The head that is expected

    Names of header fields are compared without regard to the case of letters. *)

Fixpoint translate (from to : bytes) (c : byte) : byte :=
  match from, to with
  | a :: from, b :: to => if decide (c = a) then b else translate from to c
  | _, _ => c
  end.

Definition same_name (a b : bytes) : bool :=
  let fold := translate (txt "ABCDEFGHIJKLMNOPQRSTUVWXYZ") (txt "abcdefghijklmnopqrstuvwxyz") in
  bool_decide (fold <$> a = fold <$> b).

(** 204 and 304 have no body. *)
Definition bodyless (r : HttpResponse) : bool :=
  (HttpStatus.code (status_ r) =? 204) || (HttpStatus.code (status_ r) =? 304).

(** Five fields unless the caller has one of that name, and the caller's own. *)
Definition head_fields (date : bytes) (r : HttpResponse) : list (bytes * bytes) :=
  List.filter (λ f, negb (existsb (λ h, same_name h.1 f.1) (headers_ r)))
    ([(txt "Server", txt "iouring_runtime_web"); (txt "Date", date)] ++
     (if bool_decide (content_type_ r = []) then [] else [(txt "Content-Type", content_type_ r)]) ++
     (if bodyless r then [] else [(txt "Content-Length", to_string (zlen (body_ r)))]) ++
     [(txt "Connection", if keep_alive_ r then txt "keep-alive" else txt "close")]) ++
  List.filter (λ f, negb (bodyless r && same_name f.1 (txt "Content-Length"))) (headers_ r).

Lemma lower_translate c :
  translate (txt "ABCDEFGHIJKLMNOPQRSTUVWXYZ") (txt "abcdefghijklmnopqrstuvwxyz") c = lower c.
Proof. destruct c as [[] [] [] [] [] [] [] []]; vm_compute; reflexivity. Qed.

Lemma HeaderNameEquals_same a b : HeaderNameEquals a b = same_name a b.
Proof.
  unfold HeaderNameEquals, same_name.
  assert (∀ l : bytes, translate (txt "ABCDEFGHIJKLMNOPQRSTUVWXYZ") (txt "abcdefghijklmnopqrstuvwxyz") <$> l = lower <$> l) as E.
  { intros l. apply list_fmap_ext. intros i x _. apply lower_translate. }
  rewrite !E. clear E. revert b. induction a as [|x a IH]; intros [|y b]; try done.
  cbn [length zip zip_with forallb]. specialize (IH b). rewrite !fmap_cons.
  destruct (bool_decide_reflect (S (length a) ≠ S (length b))) as [Hl|Hl].
  - rewrite bool_decide_false; [done|]. intros [= _ Hab]. apply Hl. f_equal.
    apply (f_equal length) in Hab. by rewrite !length_fmap in Hab.
  - rewrite bool_decide_false in IH by lia. cbn [app]. rewrite IH.
    destruct (bool_decide_reflect (lower x = lower y)) as [->|Hne]; cbn [andb].
    + apply bool_decide_ext. split; [by intros ->|intros E; by injection E].
    + rewrite bool_decide_false; [done|]. intros E. by injection E.
Qed.

Lemma bodyless_status r : StatusMustNotHaveBody (status_ r) = bodyless r.
Proof. unfold bodyless. by destruct (status_ r). Qed.

Lemma fields_expected date r : fields date r (zlen (body_ r)) = head_fields date r.
Proof.
  assert (∀ name, caller_has r name = existsb (λ h, same_name h.1 (txt name)) (headers_ r)) as Hc.
  { intros name. unfold caller_has. induction (headers_ r) as [|h hs IH]; [done|]. cbn. by rewrite HeaderNameEquals_same, IH. }
  unfold fields, head_fields. rewrite bodyless_status, !List.filter_app. cbn [List.filter fst].
  rewrite <- (Hc "Server"%string), <- (Hc "Date"%string), <- (Hc "Connection"%string).
  rewrite !app_assoc. f_equal.
  - unfold opt_field.
    destruct (bool_decide_reflect (content_type_ r = [])) as [Et|Et];
      [rewrite (bool_decide_false (content_type_ r ≠ [])) by (intros H; by apply H)|rewrite (bool_decide_true (content_type_ r ≠ [])) by done];
      destruct (bodyless r); cbn [List.filter fst negb]; rewrite ?andb_true_r, ?andb_false_r, <- ?Hc;
      destruct (caller_has r "Server"), (caller_has r "Date"), (caller_has r "Content-Type"),
        (caller_has r "Content-Length"), (caller_has r "Connection"); reflexivity.
  - clear Hc. induction (headers_ r) as [|h hs IH]; [done|]. cbn [List.filter]. by rewrite HeaderNameEquals_same, IH.
Qed.

(** C31: what Build produces is one self-delimiting HTTP message.  When the pool has a
    buffer, a reader that splits at CR LF and at the first colon gets the status line, then
    exactly these fields: Server, Date, Content-Type if one is set, the exact length of the
    body in Content-Length (not for 204 and 304) and Connection by [keep_alive_], each
    unless the caller set a field of that name in any case of letters, followed by the
    caller's fields in order (for 204 and 304 without Content-Length); and after the empty
    line the body, or nothing for 204, 304 and a suppressed body (HEAD).  When the pool is
    exhausted nothing is built; no other buffer changes either way.  Conditions: the
    caller's names and values, the content type and the date hold no CR and the names
    no colon (the code does not check them), and the pool's 32-bit counts have room. *)
Theorem Build_framing date r p k n :
  response_ok date r → pool_room p (S k) n → zlen (wire date r) ≤ n →
  ∃ q buf r', Build date r p = Some (r', q, buf) ∧ keeps p q ∧
    match buf with
    | Some h => ∃ d, Data q h = Some d ∧
        parse_response d =
          Some (txt "HTTP/1.1 " ++ to_string (HttpStatus.code (status_ r)) ++ txt " " ++ HttpStatus.to_text (status_ r),
                head_fields date r, if bodyless r || suppress_body_ r then [] else body_ r)
    | None => chunk_size_ p < zlen (wire date r) ∨ max_chunks_ p ≤ zlen (active_chunks_ p)
    end.
Proof.
  intros Hr Hp Hw. destruct (Build_spec date r p k n Hp Hw) as (q&buf&r'&Hb&Hk&_&Hres).
  exists q, buf, r'. split; [done|]. split; [done|]. destruct buf as [h|]; [|tauto].
  destruct Hres as [_ Hd]. exists (wire date r). split; [done|].
  unfold wire. rewrite parse_SerializeHeaders, fields_expected by (done || apply zlen_nonneg).
  unfold payload, no_body. by rewrite bodyless_status.
Qed.

(** ** Splitting into buffers *)

(** The buffers, in order, hold these texts. *)
Definition holds (p : pool) (bs : list nat) (ds : list bytes) : Prop :=
  Forall2 (λ h d, ∃ cap, view p h = Some (cap, d)) bs ds.

Lemma holds_keeps p q bs ds : keeps p q → holds p bs ds → holds q bs ds.
Proof.
  intros Hk Hh. eapply Forall2_impl; [exact Hh|]. intros h d [cap Hv]. exists cap. rewrite Hk; [done|]. rewrite Hv. eauto.
Qed.

Lemma BufferFromBytes_holds p k n d :
  pool_room p (S k) n → zlen d ≤ n →
  ∃ q buf, BufferFromBytes p d = Some (q, buf) ∧ keeps p q ∧
    match buf with Some h => pool_room q k n ∧ holds q [h] [d] | None => True end.
Proof.
  intros Hp Hd. destruct (BufferFromBytes_spec p k n d Hp Hd) as (q&buf&Hb&Hk&Hr).
  exists q, buf. split; [done|]. split; [done|]. destruct buf as [h|]; [|done].
  destruct Hr as (?&HD&[[cap d'] Hv]). split; [done|]. repeat constructor. exists cap.
  apply view_Data in Hv as HD'. congruence.
Qed.

Lemma BuildBuffers_loop_spec fuel cs n p body offset bs ds :
  1 ≤ cs ≤ n → 0 ≤ offset ≤ zlen body → zlen body - offset < Z.of_nat fuel →
  pool_room p fuel n → holds p bs ds →
  ∃ q res, BuildBuffers_loop fuel cs p body offset bs = Some (q, res) ∧ keeps p q ∧
    match res with
    | Some bs' => ∃ ds', holds q bs' ds' ∧ List.concat ds' = List.concat ds ++ zdrop offset body
    | None => True
    end.
Proof.
  revert p offset bs ds. induction fuel as [|fuel IH]; intros p offset bs ds Hcs Ho Hf Hp Hh; [lia|].
  cbn [BuildBuffers_loop]. destruct (Z.ltb_spec offset (zlen body)).
  - set (next := cs `min` (zlen body - offset)).
    assert (0 < next ≤ cs ∧ next ≤ zlen body - offset) as Hnext by lia.
    set (piece := ztake next (zdrop offset body)).
    assert (zlen piece = next) as Hpl.
    { unfold piece. apply zlen_ztake. rewrite zlen_zdrop; lia. }
    destruct (BufferFromBytes_holds p fuel n piece Hp) as (q&buf&->&Hk&Hb); [lia|].
    cbn [mbind option_bind]. destruct buf as [h|]; [|by exists q, None].
    destruct Hb as [Hq Hhd].
    destruct (IH q (offset + next) (bs ++ [h]) (ds ++ [piece])) as (q'&res&->&Hk'&Hres);
      [done|lia|lia|done| |].
    + apply Forall2_app; [|done]. by eapply holds_keeps.
    + exists q', res. split; [done|]. split; [by eapply keeps_trans|].
      destruct res as [bs'|]; [|done]. destruct Hres as (ds'&Hds'&Hc). exists ds'. split; [done|].
      rewrite Hc, List.concat_app, <-app_assoc. f_equal. simpl. rewrite app_nil_r.
      rewrite <-zdrop_zdrop by lia. apply ztake_zdrop.
  - exists p, (Some bs). split; [done|]. split; [by intros ? ?|]. exists ds. split; [done|].
    by rewrite zdrop_all, app_nil_r by lia.
Qed.

(** The chunked serialization agrees with the one-shot one: whenever
    BuildBuffers succeeds, for any chunk size, the texts of its buffers
    concatenate to exactly the bytes Build puts into one buffer, and no buffer
    that existed before changes. *)
Theorem BuildBuffers_wire date r p n chunk :
  pool_room p (S (S (length (body_ r)))) n → chunk `max` 1 ≤ n →
  zlen (SerializeHeaders date r (zlen (body_ r))) ≤ n →
  ∃ q bs r', BuildBuffers date r p chunk = Some (r', q, bs) ∧ keeps p q ∧
    (bs ≠ [] → ∃ ds, holds q bs ds ∧ List.concat ds = wire date r).
Proof.
  intros Hp Hc Hh. unfold BuildBuffers.
  destruct (BufferFromBytes_holds p _ n _ Hp Hh) as (q&buf&->&Hk&Hb). cbn [mbind option_bind].
  destruct buf as [h|]; [|by exists q, [], r]. destruct Hb as [Hq Hhd].
  destruct (no_body r) eqn:Hnb.
  - cbn [mbind option_bind]. do 3 eexists. split; [done|]. split; [done|]. intros _.
    eexists. split; [exact Hhd|]. unfold wire, payload. rewrite Hnb. done.
  - destruct (BuildBuffers_loop_spec (S (length (body_ r))) (chunk `max` 1) n q (body_ r) 0 [h]
                [SerializeHeaders date r (zlen (body_ r))]) as (q'&res&->&Hk'&Hres);
      [lia|pose proof (zlen_nonneg (body_ r)); lia|unfold zlen; lia|done|done|].
    cbn [mbind option_bind]. pose proof (keeps_trans _ _ _ Hk Hk').
    destruct res as [bs|]; [|by exists q', [], r].
    destruct Hres as (ds&Hds&Hcat). do 3 eexists. split; [done|]. split; [done|]. intros _.
    exists ds. split; [done|]. rewrite Hcat. unfold wire, payload. rewrite Hnb. simpl.
    by rewrite app_nil_r.
Qed.

(** ** Sending once *)

(** The bytes a call puts on the wire. *)
Definition effect_wire (p : pool) (e : effect) : option bytes :=
  match e with
  | CallSendResponse h => Data p h
  | CallStartBodyStream h body _ _ => d ← Data p h; Some (d ++ body)
  | CallStartFileStream _ _ _ _ _ | CallClose _ => None
  end.

(** What the call is: one buffer, or the head and the body as a stream. *)
Definition effect_of (r : HttpResponse) (e : effect) : Prop :=
  match e with
  | CallSendResponse _ => True
  | CallStartBodyStream _ body cs mc =>
      no_body r = false ∧ body = body_ r ∧ body_ r ≠ [] ∧ cs = kBodyStreamChunkSize ∧ mc = kBodyStreamMaxChunksPerWrite
  | _ => False
  end.

Lemma Build_exhausted date r p r' q k n : pool_room p k n → Build date r p = Some (r', q, None) →
  chunk_size_ q = chunk_size_ p ∧ max_chunks_ q = max_chunks_ p ∧
  zlen (active_chunks_ q) ≤ zlen (active_chunks_ p) + 1.
Proof.
  intros (Hok&_) Hb. pose proof (po_pending p Hok) as Hg. unfold Build in Hb.
  apply bind_Some in Hb as ([q1 res]&Ha&Hb). destruct res as [h|e].
  { by apply bind_Some in Hb as (?&_&[= ]). }
  injection Hb as _ <-. pose proof (Allocate_limits _ _ _ _ Hg Ha). pose proof (Allocate_active _ _ _ _ Hg Ha).
  split_and!; [|done|done]. revert Ha. unfold Allocate, FlushPendingGc. rewrite Hg. simpl.
  assert (∀ x c sz y b, Open x c sz = Some (y, b) → chunk_size_ y = chunk_size_ x) as HO.
  { intros x c sz y b. unfold Open. destruct (chunks x !! c); [|done]. simpl. case_match; by intros [= <- <-]. }
  assert (∀ x sz y b, AllocateFresh x sz = Some (y, b) → chunk_size_ y = chunk_size_ x) as HF.
  { intros x sz y b. unfold AllocateFresh. destruct (AcquireChunk_limits x) as [Hc _].
    destruct (AcquireChunk x) as [x1 [c|]]; [|by intros [= <- _]].
    destruct (Open _ c sz) as [[x2 b2]|] eqn:E; [|done]. apply HO in E. simpl in *.
    intros Hy. assert (y = x2) as -> by (by destruct b2; injection Hy). congruence. }
  destruct (last _) as [c|]; [|by intros E%HF].
  destruct (Open _ c _) as [[p1 [h|]]|] eqn:E; [| |done]; apply HO in E; simpl in *.
  - done.
  - intros Hf%HF. congruence.
Qed.

(** A response bound to a session is sent exactly once: the first Send makes
    at most one call, that call carries exactly the head and payload (in one
    buffer, or as head and streamed body when they exceed the inline limit or the
    pool has no buffer of that size), and it makes none only when the head is larger than
    a chunk or all chunks but at most one are in use; the response is then in
    state kSent, and every later Send does nothing. *)
Theorem Send_once date r p k n :
  bound r = true → state_ r ≠ kSent →
  pool_room p (S (S k)) n → kInlineResponseMaxBytes ≤ n →
  zlen (SerializeHeaders date r (zlen (body_ r))) ≤ n →
  ∃ r' q es, Send date r p = Some (r', q, es) ∧ state_ r' = kSent ∧ keeps p q ∧ pool_room q k n ∧
    Send date r' q = Some (r', q, []) ∧
    match es with
    | [] => chunk_size_ p < zlen (SerializeHeaders date r (zlen (body_ r))) ∨
            max_chunks_ p ≤ zlen (active_chunks_ p) + 1
    | [e] => effect_wire q e = Some (wire date r) ∧ effect_of r e
    | _ => False
    end.
Proof.
  intros Hb Hs Hp Hn Hh. unfold Send at 1. rewrite decide_False by done.
  set (r0 := set_state r kSent). change (bound r0) with (bound r). rewrite Hb. cbn [negb].
  change (body_ r0) with (body_ r).
  change (SerializeHeaders date r0 ?n) with (SerializeHeaders date r n).
  change (no_body r0) with (no_body r).
  set (headers := SerializeHeaders date r (zlen (body_ r))) in *.
  rewrite <-payload_zlen, <-zlen_app. change (headers ++ payload r) with (wire date r).
  set (r1 := set_last_built r0 (zlen (wire date r))).
  assert (∀ q (r2 : HttpResponse), state_ r2 = kSent → Send date r2 q = Some (r2, q, [])) as Hagain.
  { intros q r2 Hr2. unfold Send. by rewrite decide_True. }
  assert (∃ r2 q1 buf, (if zlen (wire date r) <=? kInlineResponseMaxBytes then Build date r1 p
                     else Some (r1, p, None)) = Some (r2, q1, buf) ∧
            (r2 = r1) ∧ keeps p q1 ∧
            match buf with
            | Some h => Data q1 h = Some (wire date r) ∧ pool_room q1 k n
            | None => pool_room q1 (S (S k)) n ∧ chunk_size_ q1 = chunk_size_ p ∧ max_chunks_ q1 = max_chunks_ p ∧
                zlen (active_chunks_ q1) ≤ zlen (active_chunks_ p) + 1
            end) as (r2&q1&buf&->&->&Hk1&Hbuf).
  { destruct (Z.leb_spec (zlen (wire date r)) kInlineResponseMaxBytes) as [Hle|].
    - destruct (Build_spec date r1 p (S k) n Hp) as (q&buf&r2&Hbd&Hk&Hr2&Hbuf).
      { change (wire date r1) with (wire date r). lia. }
      exists r2, q, buf. split; [done|]. split; [destruct Hr2 as [->| ->]; reflexivity|].
      split; [done|]. destruct buf as [h|].
      + destruct Hbuf as [? ?]. split; [done|]. by eapply pool_room_le; [|done]; lia.
      + split; [tauto|]. by eapply Build_exhausted.
    - exists r1, p, None. split; [done|]. split; [done|]. split; [by intros ? ?|].
      split; [done|]. split; [done|]. split; [done|lia]. }
  cbn [mbind option_bind]. destruct buf as [h|].
  { exists r1, q1, [CallSendResponse h]. destruct Hbuf. split_and!; auto; simpl; auto. }
  destruct Hbuf as (Hroom&Hcs1&Hmc1&Hac1).
  destruct (BufferFromBytes_spec q1 (S k) n headers Hroom Hh) as (q2&buf&->&Hk2&Hr).
  cbn [mbind option_bind]. pose proof (keeps_trans _ _ _ Hk1 Hk2) as Hk.
  destruct buf as [h|].
  2: { exists r1, q2, []. destruct Hr as [Hr Hex]. split_and!; auto; [by eapply pool_room_le; [|done]; lia|]. lia. }
  destruct Hr as (Hr2&HD&_). change (no_body r1) with (no_body r). change (body_ r1) with (body_ r).
  assert (pool_room q2 k n) by (by eapply pool_room_le; [|done]; lia).
  destruct (no_body r) eqn:Hnb; cbn [orb].
  - exists r1, q2, [CallSendResponse h]. split_and!; auto; [simpl|done]. rewrite HD.
    unfold wire, payload. by rewrite Hnb, app_nil_r.
  - destruct (bool_decide_reflect (body_ r = [])) as [He|He].
    + exists r1, q2, [CallSendResponse h]. split_and!; auto; [simpl|done]. rewrite HD.
      assert (payload r = []) as Hpl by (unfold payload; by rewrite Hnb, He).
      unfold wire. by rewrite Hpl, app_nil_r.
    + eexists _, q2, [CallStartBodyStream _ _ _ _]. split_and!; auto; [simpl|done].
      rewrite HD. unfold wire, payload. by rewrite Hnb.
Qed.

(** ** Concrete responses *)

Module Sample.
Definition date : bytes := txt "Thu, 01 Jan 1970 00:00:00 GMT".
Definition pool0 : pool := BufferPool_new 512 4.
Definition hello : HttpResponse :=
  Header (Text (HttpResponse_new true) (txt "hello")) (txt "X-Id") (txt "7").

Lemma hello_ok : response_ok date hello.
Proof. split_and!; [repeat constructor|..]; by apply lacks_spec. Defined.

Lemma pool0_room : pool_room pool0 7 262144.
Proof.
  destruct (BufferPool_new_represents 512 4) as (Hok&_); [lia|].
  split_and!; [exact Hok|done..].
Defined.
End Sample.

Lemma Build_framing_witness :
  ∃ q buf r', Build Sample.date Sample.hello Sample.pool0 = Some (r', q, buf) ∧
    keeps Sample.pool0 q ∧
    match buf with
    | Some h => ∃ d, Data q h = Some d ∧
        parse_response d =
          Some (txt "HTTP/1.1 200 OK",
                [(txt "Server", txt "iouring_runtime_web"); (txt "Date", Sample.date);
                 (txt "Content-Type", txt "text/plain"); (txt "Content-Length", txt "5");
                 (txt "Connection", txt "keep-alive"); (txt "X-Id", txt "7")], txt "hello")
    | None => chunk_size_ Sample.pool0 < zlen (wire Sample.date Sample.hello) ∨
              max_chunks_ Sample.pool0 ≤ zlen (active_chunks_ Sample.pool0)
    end.
Proof.
  refine (Build_framing Sample.date Sample.hello Sample.pool0 6 262144 Sample.hello_ok
            Sample.pool0_room _).
  by apply Z.leb_le.
Defined.

Lemma BuildBuffers_wire_witness :
  ∃ q bs r', BuildBuffers Sample.date Sample.hello Sample.pool0 2 = Some (r', q, bs) ∧
    keeps Sample.pool0 q ∧
    (bs ≠ [] → ∃ ds, holds q bs ds ∧ List.concat ds = wire Sample.date Sample.hello).
Proof.
  refine (BuildBuffers_wire Sample.date Sample.hello Sample.pool0 262144 2 Sample.pool0_room _ _);
    by apply Z.leb_le.
Defined.

(** The chunked form of the sample: the head and three body buffers. *)
Example BuildBuffers_sample :
  (λ '(_, _, bs), length bs) <$> BuildBuffers Sample.date Sample.hello Sample.pool0 2 = Some 4%nat.
Proof. vm_compute. reflexivity. Qed.

(** The sample goes out in one buffer. *)
Example Send_sample :
  (λ '(_, _, es), es) <$> Send Sample.date Sample.hello Sample.pool0 = Some [CallSendResponse 0].
Proof. vm_compute. reflexivity. Qed.
