(* ===== verification/HttpParser.v ===== *)
(** * The HTTP request parser

    [include/iouring_runtime/web/HttpParser.h] and
    [src/modules/web/HttpParser.cpp]: the callbacks that assemble an
    HttpRequest from the events of the llhttp library, with the size limits, and
    the Feed loop over pipelined requests.

    llhttp is outside the repository.  It is a parameter: from its state and an
    input it determines the callbacks it would make, each with the position it
    would stop at if the callback returned an error code, and how the call ends
    if none does.  The callbacks of the parser's owner are functions on a world
    of type [W]. *)

From S2P Require Import Prelude Text HttpRequest.

#[local] Open Scope Z_scope.
#[local] Set Warnings "-clear-no-such-hyp".

(** ** Data *)

(** Source: include/iouring_runtime/web/HttpParser.h:21-25, HttpBodyMode. *)
Inductive HttpBodyMode := kBuffer | kDiscard | kStream.

#[export] Instance HttpBodyMode_eq_dec : EqDecision HttpBodyMode.
Proof. solve_decision. Defined.

(** Source: include/iouring_runtime/web/HttpParser.h:31-37, HttpParseStatus. *)
Inductive HttpParseStatus := kOk | kBadRequest | kUrlTooLong | kHeadersTooLarge | kBodyTooLarge.

#[export] Instance HttpParseStatus_eq_dec : EqDecision HttpParseStatus.
Proof. solve_decision. Defined.

(** Source: include/iouring_runtime/web/HttpParser.h:39-43, HttpParserOptions. *)
Record HttpParserOptions := MkOptions {
  max_url_bytes : Z;
  max_header_bytes : Z;
  max_body_bytes : Z
}.

Definition default_options : HttpParserOptions :=
  MkOptions (8 * 1024) (32 * 1024) (10 * 1024 * 1024).

(** Source: include/iouring_runtime/web/HttpParser.h:88-102, HttpParser. *)
Record HttpParser := MkParser {
  request_ : HttpRequest;
  options_ : HttpParserOptions;
  status_ : HttpParseStatus;
  stop_requested_ : bool;
  body_mode_ : HttpBodyMode;
  header_bytes_used_ : Z;
  body_bytes_seen_ : Z;
  current_header_field_ : bytes;
  current_header_value_ : bytes;
  raw_url_ : bytes
}.

(** Source: src/modules/web/HttpParser.cpp:7-29, HttpParser::HttpParser. *)
Definition HttpParser_new (options : HttpParserOptions) : HttpParser :=
  MkParser empty_request options kOk false kBuffer 0 0 [] [] [].

Definition set_status (s : HttpParser) (st : HttpParseStatus) : HttpParser :=
  MkParser (request_ s) (options_ s) st (stop_requested_ s) (body_mode_ s)
    (header_bytes_used_ s) (body_bytes_seen_ s) (current_header_field_ s)
    (current_header_value_ s) (raw_url_ s).

Definition set_request (s : HttpParser) (r : HttpRequest) : HttpParser :=
  MkParser r (options_ s) (status_ s) (stop_requested_ s) (body_mode_ s)
    (header_bytes_used_ s) (body_bytes_seen_ s) (current_header_field_ s)
    (current_header_value_ s) (raw_url_ s).

Definition set_stop (s : HttpParser) (b : bool) : HttpParser :=
  MkParser (request_ s) (options_ s) (status_ s) b (body_mode_ s)
    (header_bytes_used_ s) (body_bytes_seen_ s) (current_header_field_ s)
    (current_header_value_ s) (raw_url_ s).

Definition set_body_mode (s : HttpParser) (m : HttpBodyMode) : HttpParser :=
  MkParser (request_ s) (options_ s) (status_ s) (stop_requested_ s) m
    (header_bytes_used_ s) (body_bytes_seen_ s) (current_header_field_ s)
    (current_header_value_ s) (raw_url_ s).

Definition set_body_seen (s : HttpParser) (n : Z) : HttpParser :=
  MkParser (request_ s) (options_ s) (status_ s) (stop_requested_ s) (body_mode_ s)
    (header_bytes_used_ s) n (current_header_field_ s)
    (current_header_value_ s) (raw_url_ s).

Definition set_header (s : HttpParser) (used : Z) (field value : bytes) : HttpParser :=
  MkParser (request_ s) (options_ s) (status_ s) (stop_requested_ s) (body_mode_ s)
    used (body_bytes_seen_ s) field value (raw_url_ s).

Definition set_url (s : HttpParser) (url : bytes) : HttpParser :=
  MkParser (request_ s) (options_ s) (status_ s) (stop_requested_ s) (body_mode_ s)
    (header_bytes_used_ s) (body_bytes_seen_ s) (current_header_field_ s)
    (current_header_value_ s) url.

Definition with_target (r : HttpRequest) (p q : bytes) : HttpRequest :=
  MkRequest (method r) p q (body r) (keep_alive r) (request_id r) (headers_ r) (params_ r).

Definition with_method (r : HttpRequest) (m : HttpMethod) (ka : bool) : HttpRequest :=
  MkRequest m (path r) (query r) (body r) ka (request_id r) (headers_ r) (params_ r).

Definition with_body (r : HttpRequest) (b : bytes) : HttpRequest :=
  MkRequest (method r) (path r) (query r) b (keep_alive r) (request_id r) (headers_ r) (params_ r).

(** The return codes of callbacks. *)
Inductive callback_result := rc_ok | HPE_USER | HPE_PAUSED.

(** ** Callbacks *)

(** Source: src/modules/web/HttpParser.cpp:69-71, HttpParser::HasError. *)
Definition HasError (s : HttpParser) : bool := bool_decide (status_ s ≠ kOk).

(** Source: src/modules/web/HttpParser.cpp:73-85, HttpParser::Reset. *)
Definition Reset (s : HttpParser) : HttpParser :=
  MkParser (Clear (request_ s)) (options_ s) kOk false kBuffer 0 0 [] [] [].

(** Source: src/modules/web/HttpParser.cpp:87-101, HttpParser::OnMessageBegin. *)
Definition OnMessageBegin (s : HttpParser) : HttpParser :=
  MkParser (Clear (request_ s)) (options_ s) (status_ s) false kBuffer 0 0 [] [] [].

(** Source: src/modules/web/HttpParser.cpp:103-111, HttpParser::OnUrl. *)
Definition OnUrl (s : HttpParser) (at_ : bytes) : HttpParser * callback_result :=
  if max_url_bytes (options_ s) <? zlen (raw_url_ s) + zlen at_ then
    (set_status s kUrlTooLong, HPE_USER)
  else (set_url s (raw_url_ s ++ at_), rc_ok).

(** Source: src/modules/web/HttpParser.cpp:204-213, HttpParser::ParseUrl. *)
Definition ParseUrl (r : HttpRequest) (url : bytes) : HttpRequest :=
  match split_at "?"%char url with
  | None => with_target r url []
  | Some (p, q) => with_target r p q
  end.

(** Source: src/modules/web/HttpParser.cpp:113-117, HttpParser::OnUrlComplete. *)
Definition OnUrlComplete (s : HttpParser) : HttpParser :=
  set_request s (ParseUrl (request_ s) (raw_url_ s)).

(** Source: src/modules/web/HttpParser.cpp:119-128, HttpParser::OnHeaderField. *)
Definition OnHeaderField (s : HttpParser) (at_ : bytes) : HttpParser * callback_result :=
  if max_header_bytes (options_ s) <? header_bytes_used_ s + zlen at_ then
    (set_status s kHeadersTooLarge, HPE_USER)
  else
    (set_header s (u32 (header_bytes_used_ s + u32 (zlen at_)))
       (current_header_field_ s ++ at_) (current_header_value_ s), rc_ok).

(** Source: src/modules/web/HttpParser.cpp:134-143, HttpParser::OnHeaderValue. *)
Definition OnHeaderValue (s : HttpParser) (at_ : bytes) : HttpParser * callback_result :=
  if max_header_bytes (options_ s) <? header_bytes_used_ s + zlen at_ then
    (set_status s kHeadersTooLarge, HPE_USER)
  else
    (set_header s (u32 (header_bytes_used_ s + u32 (zlen at_)))
       (current_header_field_ s) (current_header_value_ s ++ at_), rc_ok).

(** Source: src/modules/web/HttpParser.cpp:145-152, HttpParser::OnHeaderValueComplete. *)
Definition OnHeaderValueComplete (s : HttpParser) : HttpParser :=
  let s := set_request s
    (AddHeader (request_ s) (current_header_field_ s) (current_header_value_ s)) in
  set_header s (header_bytes_used_ s) [] [].

(** llhttp's callbacks with their arguments; OnHeadersComplete also reads the
    method and the keep-alive verdict off the llhttp state. *)
Inductive event :=
| EvMessageBegin
| EvUrl (at_ : bytes)
| EvUrlComplete
| EvHeaderField (at_ : bytes)
| EvHeaderFieldComplete
| EvHeaderValue (at_ : bytes)
| EvHeaderValueComplete
| EvHeadersComplete (llhttp_method : Z) (should_keep_alive : bool)
| EvBody (at_ : bytes)
| EvMessageComplete.

Section Callbacks.
Context {W : Type}.
(** The callbacks of the owner; [None] is an empty [std::function]. *)
Context (on_request_ : option (W → HttpRequest → W * HttpRequest * bool)).
Context (on_headers_ : option (W → HttpRequest → W * HttpRequest * HttpBodyMode)).
Context (on_body_chunk_ : option (W → HttpRequest → bytes → W * HttpRequest * bool)).

(** Source: src/modules/web/HttpParser.cpp:154-172, HttpParser::OnHeadersComplete. *)
Definition OnHeadersComplete (w : W) (s : HttpParser) (llhttp_method : Z)
    (should_keep_alive : bool) : W * HttpParser * callback_result :=
  let r := with_method (request_ s) (HttpMethodFromLlhttp llhttp_method) should_keep_alive in
  let '(w, s) :=
    match on_headers_ with
    | Some cb => let '(w, r, m) := cb w r in (w, set_body_mode (set_request s r) m)
    | None => (w, set_body_mode (set_request s r) kBuffer)
    end in
  if max_body_bytes (options_ s) <? ContentLength (request_ s) then
    (w, set_status s kBodyTooLarge, HPE_USER)
  else (w, s, rc_ok).

(** Source: src/modules/web/HttpParser.cpp:174-191, HttpParser::OnBody. *)
Definition OnBody (w : W) (s : HttpParser) (at_ : bytes) : W * HttpParser * callback_result :=
  if max_body_bytes (options_ s) <? u64 (body_bytes_seen_ s + zlen at_) then
    (w, set_status s kBodyTooLarge, HPE_USER)
  else
    let s := set_body_seen s (u64 (body_bytes_seen_ s + u32 (zlen at_))) in
    match body_mode_ s, on_body_chunk_ with
    | kBuffer, _ => (w, set_request s (with_body (request_ s) (body (request_ s) ++ at_)), rc_ok)
    | kStream, Some cb =>
      let '(w, r, ok) := cb w (request_ s) at_ in
      let s := set_request s r in
      if negb ok then (w, set_status s kBadRequest, HPE_USER) else (w, s, rc_ok)
    | _, _ => (w, s, rc_ok)
    end.

(** Source: src/modules/web/HttpParser.cpp:193-202, HttpParser::OnMessageComplete. *)
Definition OnMessageComplete (w : W) (s : HttpParser) : W * HttpParser * callback_result :=
  match on_request_ with
  | Some cb =>
    let '(w, r, should_continue) := cb w (request_ s) in
    let s := set_request s r in
    (w, if negb should_continue then set_stop s true else s, HPE_PAUSED)
  | None => (w, s, HPE_PAUSED)
  end.

(** Source: src/modules/web/HttpParser.cpp:16-25, HttpParser::HttpParser.
    The callback table. *)
Definition on_event (w : W) (s : HttpParser) (ev : event) : W * HttpParser * callback_result :=
  match ev with
  | EvMessageBegin => (w, OnMessageBegin s, rc_ok)
  | EvUrl at_ => let '(s, rc) := OnUrl s at_ in (w, s, rc)
  | EvUrlComplete => (w, OnUrlComplete s, rc_ok)
  | EvHeaderField at_ => let '(s, rc) := OnHeaderField s at_ in (w, s, rc)
  | EvHeaderFieldComplete => (w, s, rc_ok)
  | EvHeaderValue at_ => let '(s, rc) := OnHeaderValue s at_ in (w, s, rc)
  | EvHeaderValueComplete => (w, OnHeaderValueComplete s, rc_ok)
  | EvHeadersComplete m ka => OnHeadersComplete w s m ka
  | EvBody at_ => OnBody w s at_
  | EvMessageComplete => OnMessageComplete w s
  end.

(** ** Running llhttp *)

(** The state of llhttp, the callbacks an execution makes (with the position and
    the state it is left in when that callback asks to stop), and its end when
    no callback does: the state after the whole input, a parse error at a
    position, or, when an earlier pause was not resumed, that pause again, with
    an error position inside the input of that earlier call. *)
Context {L : Type}.
Inductive run_end := RunDone (l : L) | RunError (pos : Z) (l : L) | RunPaused (l : L).
Context (llhttp_execute : L → bytes → list (event * Z * L) * run_end).
Context (llhttp_resume : L → L).

Inductive exec_result :=
| ExecOk (l : L)
| ExecPaused (pos : Z) (l : L)
| ExecError (pos : Z) (l : L)
| ExecStillPaused (l : L).

Fixpoint run_calls (w : W) (s : HttpParser) (calls : list (event * Z * L)) (e : run_end)
    : W * HttpParser * exec_result :=
  match calls with
  | [] => (w, s, match e with
                 | RunDone l => ExecOk l
                 | RunError pos l => ExecError pos l
                 | RunPaused l => ExecStillPaused l
                 end)
  | (ev, pos, l) :: calls =>
    match on_event w s ev with
    | (w, s, rc_ok) => run_calls w s calls e
    | (w, s, HPE_PAUSED) => (w, s, ExecPaused pos l)
    | (w, s, HPE_USER) => (w, s, ExecError pos l)
    end
  end.

(** Source: src/modules/web/HttpParser.cpp:37-66, HttpParser::Feed.
    The loop.  [data] is what is left of the input and [done] what was consumed.  [None] is
    running out of fuel, or undefined behaviour: after a pause left over from an
    earlier call the code subtracts pointers into two different inputs. *)
Fixpoint Feed_loop (fuel : nat) (w : W) (s : HttpParser) (l : L) (data : bytes) (done : Z)
    : option (W * HttpParser * L * Z) :=
  match fuel with
  | O => None
  | S fuel =>
    if (0 <? zlen data) && bool_decide (status_ s = kOk) then
      let '(calls, e) := llhttp_execute l data in
      match run_calls w s calls e with
      | (w, s, ExecOk l) => Some (w, s, l, done + zlen data)
      | (w, s, ExecPaused pos l) =>
        if stop_requested_ s then Some (w, s, l, done + pos)
        else Feed_loop fuel w s (llhttp_resume l) (zdrop pos data) (done + pos)
      | (w, s, ExecError pos l) =>
        let s := if decide (status_ s = kOk) then set_status s kBadRequest else s in
        Some (w, s, l, done + pos)
      | (_, _, ExecStillPaused _) => None
      end
    else Some (w, s, l, done)
  end.

(** Source: src/modules/web/HttpParser.cpp:33-67, HttpParser::Feed. *)
Definition Feed (w : W) (s : HttpParser) (l : L) (data : bytes)
    : option (W * HttpParser * L * Z) :=
  Feed_loop (S (length data)) w s l data 0.

(** ** The Feed loop ends *)

(** What llhttp documents, for the states [live] that are not paused: the
    positions it reports lie in the input, a message that is complete has
    consumed some of it, and a state is live again after a resume. *)
Definition llhttp_ok (live : L → Prop) : Prop :=
  ∀ l d, live l →
    (∀ ev pos l', (ev, pos, l') ∈ fst (llhttp_execute l d) →
       0 ≤ pos ≤ zlen d ∧ (ev = EvMessageComplete → 0 < pos) ∧ live (llhttp_resume l')) ∧
    match snd (llhttp_execute l d) with
    | RunDone l' => live l'
    | RunError pos _ => 0 ≤ pos ≤ zlen d
    | RunPaused _ => False
    end.

Lemma on_event_paused w s ev w' s' :
  on_event w s ev = (w', s', HPE_PAUSED) → ev = EvMessageComplete.
Proof.
  destruct ev; simpl; unfold OnUrl, OnHeaderField, OnHeaderValue, OnHeadersComplete, OnBody;
    intros Hev; repeat case_match; simplify_eq; done.
Qed.

Lemma run_calls_pos (live : L → Prop) w s calls e (d : bytes) w' s' res :
  (∀ ev pos l', (ev, pos, l') ∈ calls →
     0 ≤ pos ≤ zlen d ∧ (ev = EvMessageComplete → 0 < pos) ∧ live (llhttp_resume l')) →
  match e with RunDone _ => True | RunError pos _ => 0 ≤ pos ≤ zlen d | RunPaused _ => False end →
  run_calls w s calls e = (w', s', res) →
  match res with
  | ExecOk _ => True
  | ExecPaused pos l => 0 < pos ≤ zlen d ∧ live (llhttp_resume l)
  | ExecError pos _ => 0 ≤ pos ≤ zlen d
  | ExecStillPaused _ => False
  end.
Proof.
  intros Hcalls He. revert w s. induction calls as [|[[ev pos] l] calls IH]; intros w s.
  - simpl. destruct e; intros [= <- <- <-]; done.
  - destruct (Hcalls ev pos l (list_elem_of_here _ _)) as (Hp&Hmc&Hl). simpl.
    destruct (on_event w s ev) as [[w1 s1] rc] eqn:Hev. destruct rc.
    + apply IH. intros. apply (Hcalls _ _ l'). by apply list_elem_of_further.
    + intros [= <- <- <-]. done.
    + intros [= <- <- <-]. apply on_event_paused in Hev. specialize (Hmc Hev). split; [lia|done].
Qed.

Lemma Feed_loop_total live fuel w s l data done :
  llhttp_ok live → live l → (length data < fuel)%nat →
  ∃ w' s' l' n, Feed_loop fuel w s l data done = Some (w', s', l', done + n) ∧
    0 ≤ n ≤ zlen data ∧ (n = zlen data ∨ HasError s' = true ∨ stop_requested_ s' = true).
Proof.
  intros Hok. revert w s l data done.
  induction fuel as [|fuel IH]; intros w s l data done Hlive Hf; [lia|].
  cbn [Feed_loop]. pose proof (zlen_nonneg data).
  destruct (Z.ltb_spec 0 (zlen data)); cbn [andb].
  2: { exists w, s, l, 0. rewrite Z.add_0_r. split; [done|]. split; [lia|]. left. lia. }
  case_bool_decide as Hst.
  2: { exists w, s, l, 0. rewrite Z.add_0_r. split; [done|]. split; [lia|]. right. left.
       by apply bool_decide_eq_true. }
  destruct (Hok l data Hlive) as [Hc He].
  destruct (llhttp_execute l data) as [calls e]. cbn [fst snd] in Hc, He.
  destruct (run_calls w s calls e) as [[w1 s1] res] eqn:Hrun.
  assert (match e with RunDone _ => True | RunError pos _ => 0 ≤ pos ≤ zlen data
          | RunPaused _ => False end) as He' by (destruct e; done).
  pose proof (run_calls_pos live w s calls e data w1 s1 res Hc He' Hrun) as Hres.
  destruct res as [l1|pos l1|pos l1|l1]; [| | |done].
  - do 4 eexists. split; [done|]. split; [lia|]. by left.
  - destruct Hres as [Hpos Hl1]. destruct (stop_requested_ s1) eqn:Hstop.
    + do 4 eexists. split; [done|]. split; [lia|]. auto.
    + destruct (IH w1 s1 (llhttp_resume l1) (zdrop pos data) (done + pos) Hl1)
        as (w2&s2&l2&n&->&Hn&Hend).
      { unfold zdrop, zlen in *. rewrite length_drop. lia. }
      rewrite zlen_zdrop in Hn, Hend by lia. exists w2, s2, l2, (pos + n).
      rewrite Z.add_assoc. split; [done|]. split; [lia|].
      destruct Hend as [->|?]; [left; lia|auto].
  - do 4 eexists. split; [done|]. split; [lia|]. right. left. unfold HasError.
    apply bool_decide_eq_true. by case_decide.
Qed.

(** Feeding input to the parser always ends, within one execution per byte:
    for any llhttp that reports positions inside its input and completes a
    message only after consuming some of it, Feed from a state that is not
    paused returns, the count it returns is within the input, and it leaves
    input unread only when the parser is in an error state or the request
    handler asked to stop. *)
Theorem Feed_total live w s l data :
  llhttp_ok live → live l →
  ∃ w' s' l' n, Feed w s l data = Some (w', s', l', n) ∧
    0 ≤ n ≤ zlen data ∧ (n = zlen data ∨ HasError s' = true ∨ stop_requested_ s' = true).
Proof. intros Hok Hl. apply (Feed_loop_total live _ w s l data 0 Hok Hl). lia. Qed.

(** After a stop the pause is never resumed; feeding more input then computes
    with the error position of the earlier input. *)
Lemma Feed_after_stop w s l l' data :
  llhttp_execute l data = ([], RunPaused l') → status_ s = kOk → data ≠ [] →
  Feed w s l data = None.
Proof.
  intros Hex Hs Hd. unfold Feed. cbn [Feed_loop].
  destruct data as [|b data]; [done|]. pose proof (zlen_nonneg data).
  rewrite (proj2 (Z.ltb_lt 0 _)) by (rewrite zlen_cons; lia).
  rewrite bool_decide_true by done. cbn [andb]. by rewrite Hex.
Qed.

(** ** A message is assembled from its events *)

(** Events none of which asks to stop. *)
Fixpoint run_ok (w : W) (s : HttpParser) (evs : list event) : option (W * HttpParser) :=
  match evs with
  | [] => Some (w, s)
  | ev :: evs =>
    match on_event w s ev with
    | (w, s, rc_ok) => run_ok w s evs
    | _ => None
    end
  end.

Lemma run_ok_app w s evs evs' :
  run_ok w s (evs ++ evs') = '(w, s) ← run_ok w s evs; run_ok w s evs'.
Proof.
  revert w s. induction evs as [|ev evs IH]; intros w s; simpl; [done|].
  destruct (on_event w s ev) as [[w1 s1] []]; [apply IH|done..].
Qed.

Lemma run_calls_ok w s calls rest e w' s' :
  run_ok w s (calls.*1.*1) = Some (w', s') →
  run_calls w s (calls ++ rest) e = run_calls w' s' rest e.
Proof.
  revert w s. induction calls as [|[[ev pos] l] calls IH]; intros w s; simpl.
  - by intros [= -> ->].
  - destruct (on_event w s ev) as [[w1 s1] []]; [apply IH|done..].
Qed.

Lemma zlen_concat_cons (p : bytes) ps :
  zlen (List.concat (p :: ps)) = zlen p + zlen (List.concat ps).
Proof. simpl. apply zlen_app. Qed.

Lemma run_url w s ps :
  zlen (raw_url_ s) + zlen (List.concat ps) ≤ max_url_bytes (options_ s) →
  run_ok w s (EvUrl <$> ps) = Some (w, set_url s (raw_url_ s ++ List.concat ps)).
Proof.
  revert s. induction ps as [|p ps IH]; intros s Hl.
  - simpl. rewrite app_nil_r. by destruct s.
  - rewrite zlen_concat_cons in Hl. pose proof (zlen_nonneg (List.concat ps)).
    rewrite fmap_cons. cbn [run_ok on_event]. unfold OnUrl.
    rewrite (proj2 (Z.ltb_ge _ _)) by lia.
    rewrite IH by (cbn; rewrite zlen_app; lia). cbn. by rewrite <-app_assoc.
Qed.

(** 32-bit limits, and what was counted so far. *)
Definition header_room (s : HttpParser) (n : Z) : Prop :=
  0 ≤ header_bytes_used_ s ∧ header_bytes_used_ s + n ≤ max_header_bytes (options_ s) < 2 ^ 32.

Lemma header_used_add s (p : bytes) :
  header_room s (zlen p) →
  (max_header_bytes (options_ s) <? header_bytes_used_ s + zlen p) = false ∧
  u32 (header_bytes_used_ s + u32 (zlen p)) = header_bytes_used_ s + zlen p.
Proof.
  intros [? ?]. pose proof (zlen_nonneg p). split; [apply Z.ltb_ge; lia|].
  rewrite (u32_small (zlen p)), u32_small by lia. done.
Qed.

Lemma run_field w s ps :
  header_room s (zlen (List.concat ps)) →
  run_ok w s (EvHeaderField <$> ps) =
    Some (w, set_header s (header_bytes_used_ s + zlen (List.concat ps))
               (current_header_field_ s ++ List.concat ps) (current_header_value_ s)).
Proof.
  revert s. induction ps as [|p ps IH]; intros s Hr.
  - simpl. rewrite app_nil_r, Z.add_0_r. by destruct s.
  - unfold header_room in Hr. rewrite zlen_concat_cons in *.
    pose proof (zlen_nonneg (List.concat ps)). pose proof (zlen_nonneg p).
    destruct (header_used_add s p) as [H1 H2]; [unfold header_room; lia|].
    rewrite fmap_cons. cbn [run_ok on_event]. unfold OnHeaderField. rewrite H1, H2.
    rewrite IH by (unfold header_room; cbn; lia). cbn. by rewrite <-app_assoc, Z.add_assoc.
Qed.

Lemma run_value w s ps :
  header_room s (zlen (List.concat ps)) →
  run_ok w s (EvHeaderValue <$> ps) =
    Some (w, set_header s (header_bytes_used_ s + zlen (List.concat ps))
               (current_header_field_ s) (current_header_value_ s ++ List.concat ps)).
Proof.
  revert s. induction ps as [|p ps IH]; intros s Hr.
  - simpl. rewrite app_nil_r, Z.add_0_r. by destruct s.
  - unfold header_room in Hr. rewrite zlen_concat_cons in *.
    pose proof (zlen_nonneg (List.concat ps)). pose proof (zlen_nonneg p).
    destruct (header_used_add s p) as [H1 H2]; [unfold header_room; lia|].
    rewrite fmap_cons. cbn [run_ok on_event]. unfold OnHeaderValue. rewrite H1, H2.
    rewrite IH by (unfold header_room; cbn; lia). cbn. by rewrite <-app_assoc, Z.add_assoc.
Qed.

(** A header as llhttp spells it: the pieces of the name and of the value. *)
Definition header_events (h : list bytes * list bytes) : list event :=
  (EvHeaderField <$> h.1) ++ [EvHeaderFieldComplete] ++
  (EvHeaderValue <$> h.2) ++ [EvHeaderValueComplete].

Definition header_of (h : list bytes * list bytes) : Header :=
  MkHeader (List.concat h.1) (List.concat h.2).

Definition header_size (h : list bytes * list bytes) : Z :=
  zlen (List.concat h.1) + zlen (List.concat h.2).

Definition headers_size (hs : list (list bytes * list bytes)) : Z :=
  foldr (λ h n, header_size h + n) 0 hs.

Definition with_headers (r : HttpRequest) (hs : list Header) : HttpRequest :=
  MkRequest (method r) (path r) (query r) (body r) (keep_alive r) (request_id r) hs (params_ r).

Lemma run_headers w s hs :
  header_room s (headers_size hs) → current_header_field_ s = [] → current_header_value_ s = [] →
  run_ok w s (hs ≫= header_events) =
    Some (w, set_request (set_header s (header_bytes_used_ s + headers_size hs) [] [])
               (with_headers (request_ s) (headers_ (request_ s) ++ (header_of <$> hs)))).
Proof.
  revert s. induction hs as [|h hs IH]; intros s Hr Hf Hv.
  - simpl. rewrite app_nil_r, Z.add_0_r. destruct s as [r ? ? ? ? ? ? ? ? ?]; cbn in *; subst.
    by destruct r.
  - cbn [mbind list_bind headers_size foldr] in *. fold (headers_size hs) in *.
    unfold header_size, header_room in *.
    assert (0 ≤ headers_size hs) as Hh.
    { clear. induction hs as [|h hs IH]; [done|]. cbn [headers_size foldr]. fold (headers_size hs).
      unfold header_size. pose proof (zlen_nonneg (List.concat h.1)).
      pose proof (zlen_nonneg (List.concat h.2)). lia. }
    pose proof (zlen_nonneg (List.concat h.1)). pose proof (zlen_nonneg (List.concat h.2)).
    unfold header_events at 1. rewrite <-!app_assoc, run_ok_app, run_field by (unfold header_room; lia).
    cbn [mbind option_bind app run_ok on_event].
    rewrite run_ok_app, run_value by (unfold header_room; cbn; lia).
    cbn [mbind option_bind app run_ok on_event]. unfold OnHeaderValueComplete. cbn.
    rewrite Hf, Hv. change (list_bind _ _ header_events hs) with (hs ≫= header_events).
    rewrite IH by (try done; unfold header_room; cbn; lia).
    cbn. do 2 f_equal. unfold set_request, set_header, with_headers. cbn.
    rewrite <-app_assoc. f_equal. lia.
Qed.

(** What the owner makes of the head of a message, and of its body piece by piece:
    buffered, left out, or handed to the stream callback as long as that accepts it. *)
Definition take_head (w : W) (r : HttpRequest) : W * HttpRequest * HttpBodyMode :=
  match on_headers_ with Some cb => cb w r | None => (w, r, kBuffer) end.

Fixpoint stream_body (cb : W → HttpRequest → bytes → W * HttpRequest * bool) (w : W) (r : HttpRequest)
    (ps : list bytes) : option (W * HttpRequest) :=
  match ps with
  | [] => Some (w, r)
  | p :: ps => let '(w, r, ok) := cb w r p in if ok : bool then stream_body cb w r ps else None
  end.

Definition take_body (mode : HttpBodyMode) (w : W) (r : HttpRequest) (ps : list bytes) : option (W * HttpRequest) :=
  match mode, on_body_chunk_ with
  | kBuffer, _ => Some (w, with_body r (body r ++ List.concat ps))
  | kStream, Some cb => stream_body cb w r ps
  | _, _ => Some (w, r)
  end.

Lemma take_body_cons mode w r p ps w' r' : take_body mode w r (p :: ps) = Some (w', r') →
  ∃ w1 r1, take_body mode w r [p] = Some (w1, r1) ∧ take_body mode w1 r1 ps = Some (w', r').
Proof.
  unfold take_body. destruct mode; cbn.
  - intros [= <- <-]. eexists _, _. split; [done|]. cbn. by rewrite app_nil_r, <- app_assoc.
  - intros [= <- <-]. by eexists _, _.
  - destruct on_body_chunk_ as [cb|]; cbn; [|intros [= <- <-]; by eexists _, _].
    destruct (cb w r p) as [[w1 r1] []]; [|done]. intros Hs. by exists w1, r1.
Qed.

Lemma run_piece w s p w' r' :
  0 ≤ body_bytes_seen_ s → max_body_bytes (options_ s) < 2 ^ 32 →
  body_bytes_seen_ s + zlen p ≤ max_body_bytes (options_ s) →
  take_body (body_mode_ s) w (request_ s) [p] = Some (w', r') →
  on_event w s (EvBody p) = (w', set_request (set_body_seen s (body_bytes_seen_ s + zlen p)) r', rc_ok).
Proof.
  intros H0 Hmax Hl Ht. pose proof (zlen_nonneg p). cbn [on_event]. unfold OnBody.
  rewrite (u32_small (zlen p)), !u64_small by lia. rewrite (proj2 (Z.ltb_ge _ _)) by lia.
  cbn [body_mode_ set_body_seen]. unfold take_body in Ht. cbn in Ht.
  destruct (body_mode_ s).
  - rewrite app_nil_r in Ht. by injection Ht as <- <-.
  - by injection Ht as <- <-.
  - destruct on_body_chunk_ as [cb|]; [|by injection Ht as <- <-].
    cbn [request_ set_body_seen]. destruct (cb w (request_ s) p) as [[w1 r1] []]; [|done]. by injection Ht as <- <-.
Qed.

Lemma run_body w s ps w' r' :
  0 ≤ body_bytes_seen_ s → max_body_bytes (options_ s) < 2 ^ 32 →
  body_bytes_seen_ s + zlen (List.concat ps) ≤ max_body_bytes (options_ s) →
  take_body (body_mode_ s) w (request_ s) ps = Some (w', r') →
  run_ok w s (EvBody <$> ps) =
    Some (w', set_request (set_body_seen s (body_bytes_seen_ s + zlen (List.concat ps))) r').
Proof.
  revert w s. induction ps as [|p ps IH]; intros w s H0 Hmax Hl Ht.
  - assert (w' = w ∧ r' = request_ s) as [-> ->].
    { revert Ht. unfold take_body. cbn. rewrite app_nil_r.
      destruct (body_mode_ s); [|by intros [= -> ->]|destruct on_body_chunk_; by intros [= -> ->]].
      intros [= -> <-]. by destruct (request_ s). }
    cbn. rewrite Z.add_0_r. by destruct s.
  - rewrite zlen_concat_cons in *. pose proof (zlen_nonneg (List.concat ps)). pose proof (zlen_nonneg p).
    destruct (take_body_cons _ _ _ _ _ _ _ Ht) as (w1&r1&Hp&Hps).
    rewrite fmap_cons. cbn [run_ok]. rewrite (run_piece w s p w1 r1) by (done || lia).
    rewrite IH by (cbn; done || lia). cbn. by rewrite Z.add_assoc.
Qed.

(** The events of one message before its completion, with every text cut into
    pieces as the input happened to arrive. *)
Definition message_events (up : list bytes) (hs : list (list bytes * list bytes))
    (m : Z) (ka : bool) (bp : list bytes) : list event :=
  [EvMessageBegin] ++ (EvUrl <$> up) ++ [EvUrlComplete] ++ (hs ≫= header_events) ++
  [EvHeadersComplete m ka] ++ (EvBody <$> bp).

(** The request those pieces spell. *)
Definition message_head (up : list bytes) (hs : list (list bytes * list bytes))
    (m : Z) (ka : bool) : HttpRequest :=
  with_method (with_headers (ParseUrl empty_request (List.concat up)) (header_of <$> hs))
    (HttpMethodFromLlhttp m) ka.

(** The message is within the limits of the options. *)
Definition message_fits (o : HttpParserOptions) (up : list bytes)
    (hs : list (list bytes * list bytes)) (bp : list bytes) : Prop :=
  zlen (List.concat up) ≤ max_url_bytes o ∧
  headers_size hs ≤ max_header_bytes o < 2 ^ 32 ∧
  zlen (List.concat bp) ≤ max_body_bytes o < 2 ^ 32.

Lemma ParseUrl_shape r url :
  headers_ (ParseUrl r url) = headers_ r ∧ body (ParseUrl r url) = body r ∧
  method (ParseUrl r url) = method r ∧ keep_alive (ParseUrl r url) = keep_alive r.
Proof. unfold ParseUrl. by destruct (split_at _ url) as [[? ?]|]. Qed.

Lemma run_head w s m ka w1 r1 mode :
  take_head w (with_method (request_ s) (HttpMethodFromLlhttp m) ka) = (w1, r1, mode) →
  ContentLength r1 ≤ max_body_bytes (options_ s) →
  OnHeadersComplete w s m ka = (w1, set_body_mode (set_request s r1) mode, rc_ok).
Proof.
  intros Ht Hc. unfold OnHeadersComplete. unfold take_head in Ht.
  destruct on_headers_ as [cb|]; [rewrite Ht|injection Ht as <- <- <-]; cbn [request_ set_body_mode set_request options_];
    by rewrite (proj2 (Z.ltb_ge _ _)).
Qed.

Lemma run_message w s up hs m ka bp w1 r1 mode w2 r2 :
  message_fits (options_ s) up hs bp →
  take_head w (message_head up hs m ka) = (w1, r1, mode) → ContentLength r1 ≤ max_body_bytes (options_ s) →
  take_body mode w1 r1 bp = Some (w2, r2) →
  ∃ s', run_ok w s (message_events up hs m ka bp) = Some (w2, s') ∧ request_ s' = r2 ∧
    stop_requested_ s' = false ∧ status_ s' = status_ s ∧ options_ s' = options_ s.
Proof.
  intros (Hu&Hh&Hb) Hhd Hc Hbd. unfold message_events.
  rewrite run_ok_app. cbn [run_ok on_event mbind option_bind].
  rewrite run_ok_app, run_url by done. cbn [mbind option_bind].
  rewrite run_ok_app. cbn [run_ok on_event mbind option_bind].
  rewrite run_ok_app, run_headers; [|split; cbn; lia|done|done].
  cbn [mbind option_bind]. rewrite run_ok_app. cbn [run_ok on_event].
  destruct (ParseUrl_shape empty_request (List.concat up)) as (HPh&_).
  set (s1 := set_request (set_header _ _ _ _) _).
  assert (with_method (request_ s1) (HttpMethodFromLlhttp m) ka = message_head up hs m ka) as Hhead.
  { unfold s1, message_head, with_method, with_headers. cbn -[ParseUrl].
    change (Clear (request_ s)) with empty_request. by rewrite HPh. }
  rewrite (run_head w s1 m ka w1 r1 mode); [|by rewrite Hhead|done]. cbn [mbind option_bind].
  rewrite (run_body w1 _ bp w2 r2); [by eexists|done|cbn; lia|cbn; lia|done].
Qed.

(** llhttp over several inputs, each read to its end. *)
Inductive arrives : L → list bytes → list event → L → Prop :=
| arrives_nil l : arrives l [] [] l
| arrives_cons l d calls l1 ds evs l2 :
    d ≠ [] → llhttp_execute l d = (calls, RunDone l1) → arrives l1 ds evs l2 →
    arrives l (d :: ds) (calls.*1.*1 ++ evs) l2.

(** The calls of [Feed] with them; [None] if one does not take all of its input. *)
Fixpoint feed_all (w : W) (s : HttpParser) (l : L) (ds : list bytes) : option (W * HttpParser * L) :=
  match ds with
  | [] => Some (w, s, l)
  | d :: ds => '(w, s, l, n) ← Feed w s l d; if n =? zlen d then feed_all w s l ds else None
  end.

Lemma zlen_pos_ne (d : bytes) : d ≠ [] → 0 < zlen d.
Proof. intros Hd. destruct d as [|b d]; [done|]. rewrite zlen_cons. pose proof (zlen_nonneg d). lia. Qed.

Lemma run_ok_status w s evs w' s' : run_ok w s evs = Some (w', s') → status_ s = kOk → status_ s' = kOk.
Proof.
  revert w s. induction evs as [|ev evs IH]; intros w s; cbn [run_ok]; [by intros [= <- <-]|].
  destruct (on_event w s ev) as [[w1 s1] rc] eqn:E. destruct rc; [|done..]. intros Hr Hs. apply (IH w1 s1 Hr).
  revert E. destruct ev; cbn; unfold OnUrl, OnHeaderField, OnHeaderValue, OnHeadersComplete, OnBody, OnMessageComplete;
    repeat case_match; intros; simplify_eq; cbn; done.
Qed.

Lemma feed_arrived w s l ds evs l1 w1 s1 : arrives l ds evs l1 → status_ s = kOk →
  run_ok w s evs = Some (w1, s1) → feed_all w s l ds = Some (w1, s1, l1).
Proof.
  intros Ha. revert w s. induction Ha as [l|l d calls l1 ds evs l2 Hd Hex Ha IH]; intros w s Hs Hr.
  { by injection Hr as <- <-. }
  rewrite run_ok_app in Hr. destruct (run_ok w s (calls.*1.*1)) as [[w2 s2]|] eqn:E; [|done]. cbn in Hr.
  cbn [feed_all]. unfold Feed. cbn [Feed_loop]. rewrite (proj2 (Z.ltb_lt _ _)) by (by apply zlen_pos_ne).
  rewrite bool_decide_true by done. cbn [andb]. rewrite Hex.
  rewrite <- (app_nil_r calls), (run_calls_ok _ _ _ _ _ _ _ E). cbn [run_calls mbind option_bind].
  rewrite Z.add_0_l, Z.eqb_refl. apply IH; [by eapply run_ok_status|done].
Qed.


(** ** The limits hold whatever arrives *)

Definition headers_total (hs : list Header) : Z :=
  foldr (λ h n, zlen (header_name h) + zlen (header_value h) + n) 0 hs.

Definition parser_bounded (s : HttpParser) : Prop :=
  zlen (raw_url_ s) ≤ max_url_bytes (options_ s) ∧
  headers_total (headers_ (request_ s)) + zlen (current_header_field_ s) +
    zlen (current_header_value_ s) ≤ header_bytes_used_ s ≤ max_header_bytes (options_ s) ∧
  zlen (body (request_ s)) ≤ body_bytes_seen_ s ≤ max_body_bytes (options_ s).

Definition options_ok (o : HttpParserOptions) : Prop :=
  0 ≤ max_url_bytes o < 2 ^ 32 ∧ 0 ≤ max_header_bytes o < 2 ^ 32 ∧ 0 ≤ max_body_bytes o < 2 ^ 32.

(** Every piece comes from one input buffer, of 32-bit length. *)
Definition event_ok (ev : event) : Prop :=
  match ev with
  | EvUrl a | EvHeaderField a | EvHeaderValue a | EvBody a => zlen a < 2 ^ 32
  | _ => True
  end.

(** The owner's callbacks change neither the headers nor the body. *)
Definition owner_keeps : Prop :=
  (∀ cb w r, on_request_ = Some cb →
     headers_ (cb w r).1.2 = headers_ r ∧ body (cb w r).1.2 = body r) ∧
  (∀ cb w r, on_headers_ = Some cb →
     headers_ (cb w r).1.2 = headers_ r ∧ body (cb w r).1.2 = body r) ∧
  (∀ cb w r a, on_body_chunk_ = Some cb →
     headers_ (cb w r a).1.2 = headers_ r ∧ body (cb w r a).1.2 = body r).

Lemma headers_total_app hs ks : headers_total (hs ++ ks) = headers_total hs + headers_total ks.
Proof. induction hs as [|h hs IH]; simpl; [done|]. rewrite IH. lia. Qed.

Lemma headers_total_nonneg hs : 0 ≤ headers_total hs.
Proof.
  induction hs as [|h hs IH]; simpl; [done|].
  pose proof (zlen_nonneg (header_name h)). pose proof (zlen_nonneg (header_value h)). lia.
Qed.

(** All events of a list, the parser going on regardless of the return codes. *)
Fixpoint run_all (w : W) (s : HttpParser) (evs : list event) : W * HttpParser :=
  match evs with
  | [] => (w, s)
  | ev :: evs => let '(w, s, _) := on_event w s ev in run_all w s evs
  end.

#[local] Arguments headers_total : simpl never.

Lemma on_event_bounded w s ev :
  owner_keeps → options_ok (options_ s) → event_ok ev → parser_bounded s →
  parser_bounded (on_event w s ev).1.2 ∧ options_ (on_event w s ev).1.2 = options_ s.
Proof.
  intros (Kr&Kh&Kb) (Ou&Oh&Ob) Hev (Hu&Hh&Hb).
  pose proof (zlen_nonneg (body (request_ s))).
  pose proof (headers_total_nonneg (headers_ (request_ s))).
  pose proof (zlen_nonneg (current_header_field_ s)).
  pose proof (zlen_nonneg (current_header_value_ s)).
  destruct ev as [|a| |a| |a| |m ka|a|]; cbn [event_ok] in Hev; try pose proof (zlen_nonneg a);
    unfold parser_bounded; cbn.
  - change (headers_total []) with 0. rewrite !zlen_nil. split; [|done]. lia.
  - unfold OnUrl. destruct (Z.ltb_spec (max_url_bytes (options_ s)) (zlen (raw_url_ s) + zlen a));
      cbn; rewrite ?zlen_app; (split; [lia|done]).
  - destruct (ParseUrl_shape (request_ s) (raw_url_ s)) as (->&->&_). split; [lia|done].
  - unfold OnHeaderField.
    destruct (Z.ltb_spec (max_header_bytes (options_ s)) (header_bytes_used_ s + zlen a));
      cbn; [split; [lia|done]|].
    rewrite (u32_small (zlen a)), u32_small, zlen_app by lia. split; [lia|done].
  - split; [lia|done].
  - unfold OnHeaderValue.
    destruct (Z.ltb_spec (max_header_bytes (options_ s)) (header_bytes_used_ s + zlen a));
      cbn; [split; [lia|done]|].
    rewrite (u32_small (zlen a)), u32_small, zlen_app by lia. split; [lia|done].
  - rewrite headers_total_app, !zlen_nil. unfold headers_total at 2. cbn [foldr header_name header_value].
    split; [lia|done].
  - unfold OnHeadersComplete. destruct on_headers_ as [cb|].
    + specialize (Kh cb w (with_method (request_ s) (HttpMethodFromLlhttp m) ka) eq_refl).
      destruct (cb _ _) as [[w1 r1] mo]. cbn in Kh. destruct Kh as [Kh1 Kh2].
      destruct (_ <? _); cbn; rewrite Kh1, Kh2; (split; [lia|done]).
    + destruct (_ <? _); cbn; (split; [lia|done]).
  - unfold OnBody. rewrite (u32_small (zlen a)), u64_small by lia.
    destruct (Z.ltb_spec (max_body_bytes (options_ s)) (body_bytes_seen_ s + zlen a));
      cbn; [split; [lia|done]|].
    destruct (body_mode_ s); cbn; rewrite ?zlen_app; [split; [lia|done]..|].
    destruct on_body_chunk_ as [cb|]; cbn; [|split; [lia|done]].
    specialize (Kb cb w (request_ s) a eq_refl). destruct (cb w (request_ s) a) as [[w1 r1] ok].
    cbn in Kb. destruct Kb as [Kb1 Kb2]. destruct ok; cbn; rewrite Kb1, Kb2; (split; [lia|done]).
  - unfold OnMessageComplete. destruct on_request_ as [cb|]; cbn; [|split; [lia|done]].
    specialize (Kr cb w (request_ s) eq_refl). destruct (cb w (request_ s)) as [[w1 r1] go].
    cbn in Kr. destruct Kr as [Kr1 Kr2]. destruct go; cbn; rewrite Kr1, Kr2; (split; [lia|done]).
Qed.

(** C36: no input can make the parser hold more than its limits: after any
    sequence of llhttp events whatever, in any order and even past an error, the
    buffered URL is at most max_url_bytes long, all header names and values of
    the message together at most max_header_bytes, and its body at most
    max_body_bytes. *)
Theorem parser_limits w o evs :
  owner_keeps → options_ok o → Forall event_ok evs →
  parser_bounded (run_all w (HttpParser_new o) evs).2 ∧
  options_ (run_all w (HttpParser_new o) evs).2 = o.
Proof.
  intros Hk Ho Hevs.
  assert (∀ w s, options_ s = o → parser_bounded s →
            parser_bounded (run_all w s evs).2 ∧ options_ (run_all w s evs).2 = o) as Hgen.
  { induction Hevs as [|ev evs Hev _ IH]; intros w0 s Hs Hb; [done|].
    cbn [run_all]. destruct (on_event_bounded w0 s ev Hk) as [Hb' Hs']; [by rewrite Hs|done|done|].
    destruct (on_event w0 s ev) as [[w1 s1] rc]. cbn in Hb', Hs'. apply IH; [congruence|done]. }
  apply Hgen; [done|]. destruct Ho as (?&?&?). unfold parser_bounded. cbn.
  change (headers_total []) with 0. rewrite !zlen_nil. lia.
Qed.
End Callbacks.

(** ** A concrete parser *)

Module Sample.
(** An llhttp for one fixed message spread over the input: each non-empty input
    is one message. *)
Definition message : list event :=
  message_events [txt "/search?q="; txt "x"] [([txt "Ho"; txt "st"], [txt "localhost"])] 3 true
    [txt "pay"; txt "load"].

Definition execute (paused : bool) (d : bytes) : list (event * Z * bool) * run_end (L := bool) :=
  if paused then ([], RunPaused true) else
  match d with
  | [] => ([], RunDone false)
  | _ => (((λ ev, (ev, 0, true)) <$> message) ++ [(EvMessageComplete, zlen d, true)], RunDone false)
  end.

Definition resume (paused : bool) : bool := false.

(** The same message over two inputs; a state is the number of inputs read. *)
Definition execute_two (l : nat) (d : bytes) : list (event * Z * nat) * run_end (L := nat) :=
  match l with
  | O => ((λ ev, (ev, 0, 0%nat)) <$> take 5 message, RunDone 1%nat)
  | _ => (((λ ev, (ev, 0, 1%nat)) <$> drop 5 message) ++ [(EvMessageComplete, zlen d, 1%nat)], RunDone 0%nat)
  end.

(** An owner that streams the body and collects the requests. *)
Definition streamed : Type := list HttpRequest * list bytes.
Definition stream_request (w : streamed) (r : HttpRequest) : streamed * HttpRequest * bool :=
  ((w.1 ++ [r], w.2), r, false).
Definition stream_headers (w : streamed) (r : HttpRequest) : streamed * HttpRequest * HttpBodyMode := (w, r, kStream).
Definition stream_chunk (w : streamed) (r : HttpRequest) (p : bytes) : streamed * HttpRequest * bool :=
  ((w.1, w.2 ++ [p]), r, true).

(** The owner collects the requests. *)
Definition on_request (w : list HttpRequest) (r : HttpRequest) : list HttpRequest * HttpRequest * bool :=
  (w ++ [r], r, true).

Lemma execute_ok : llhttp_ok execute resume (λ paused, paused = false).
Proof.
  intros l d ->. destruct d as [|b d]; [split; [intros ??? Hin; inversion Hin|done]|].
  split; [|done]. intros ev pos l' Hin. cbn [fst execute] in Hin.
  apply elem_of_app in Hin as [Hin|Hin].
  - assert (ev ≠ EvMessageComplete ∧ pos = 0) as [? ->].
    { vm_compute in Hin. repeat (apply elem_of_cons in Hin as [Hin|Hin]; [by simplify_eq|]).
      by apply elem_of_nil in Hin. }
    split; [split; [done|apply zlen_nonneg]|done].
  - apply list_elem_of_singleton in Hin. simplify_eq. pose proof (zlen_nonneg d).
    rewrite zlen_cons. split; [lia|]. split; [lia|done].
Defined.
End Sample.

Lemma Feed_total_witness :
  ∃ w' s' l' n,
    Feed (Some Sample.on_request) None None Sample.execute Sample.resume [] (HttpParser_new default_options)
      false (txt "POST ...") = Some (w', s', l', n) ∧
    0 ≤ n ≤ 8 ∧ (n = 8 ∨ HasError s' = true ∨ stop_requested_ s' = true).
Proof.
  exact (Feed_total (Some Sample.on_request) None None Sample.execute Sample.resume _ []
           (HttpParser_new default_options) false (txt "POST ...") Sample.execute_ok eq_refl).
Defined.


Lemma parser_limits_witness :
  let s := (run_all (Some Sample.on_request) None None []
              (HttpParser_new (MkOptions 4 8 16)) (Sample.message ++ [EvMessageComplete])).2 in
  parser_bounded s ∧ options_ s = MkOptions 4 8 16.
Proof.
  refine (parser_limits (Some Sample.on_request) None None [] (MkOptions 4 8 16)
            (Sample.message ++ [EvMessageComplete]) _ _ _).
  - split_and!; intros cb w r; [intros [= <-]; done|done|done].
  - split_and!; done.
  - repeat constructor.
Defined.
