(* ===== verification/Router.v ===== *)
(** * Routing a request to its handler

    [include/iouring_runtime/web/Router.h] and [src/modules/web/Router.cpp]: the
    middleware chain, the lookup in the route tree with the HEAD-to-GET
    fallback, and the 404, 405 and 500 answers.

    The callables are application code: a route holds their numbers, and
    running one is a function on the request context that either returns or
    throws.  What Send does to the session is a parameter, given its meaning in
    HttpSession.v. *)

From S2P Require Import Prelude Text HttpRequest RadixTree HttpResponse.

#[local] Open Scope Z_scope.
#[local] Set Warnings "-clear-no-such-hyp".

(** ** Data *)

Abbreviation callable := nat.
Abbreviation route_entry := (RouteEntry (FVoid := callable) (FHeaders := callable) (FBody := callable)).
Abbreviation route_node := (Node (FVoid := callable) (FHeaders := callable) (FBody := callable)).
Abbreviation route_list :=
  (list (route (FVoid := callable) (FHeaders := callable) (FBody := callable))).
Abbreviation stream_handler_t :=
  (HttpStreamHandler (FVoid := callable) (FHeaders := callable) (FBody := callable)).

(** Source: include/iouring_runtime/web/Router.h:97-98, Router. *)
Record Router := MkRouter { middlewares_ : list callable; tree_ : route_node }.

(** Source: src/modules/web/Router.cpp:17-18, Router::Router. *)
Definition Router_new : Router := MkRouter [] (new_node []).

(** Source: src/modules/web/Router.cpp:24-28, Router::Route. *)
Definition Route (rt : Router) (method : HttpMethod) (path : bytes) (handler : option callable) : Router :=
  MkRouter (middlewares_ rt)
    (Insert (tree_ rt) method path (MkEntry handler (MkStreamHandler None None None None))).

(** Source: src/modules/web/Router.cpp:30-35, Router::RouteStream. *)
Definition RouteStream (rt : Router) (method : HttpMethod) (path : bytes)
    (handler : stream_handler_t) : Router :=
  MkRouter (middlewares_ rt) (Insert (tree_ rt) method path (MkEntry None handler)).

(** Source: src/modules/web/Router.cpp:54-56, Router::Use. *)
Definition Use (rt : Router) (middleware : callable) : Router :=
  MkRouter (middlewares_ rt ++ [middleware]) (tree_ rt).

(** Source: include/iouring_runtime/web/Router.h:87-93, Router::MatchResult.
    The parameters show the text their views refer to. *)
Record RouterMatch := MkRouterMatch {
  rm_handler : option callable;
  rm_stream_handler : option stream_handler_t;
  rm_params : list (bytes * bytes);
  rm_path_exists : bool;
  rm_allow_header : bytes
}.

(** Source: src/modules/web/Router.cpp:37-52, Router::Match. *)
Definition Router_Match (rt : Router) (method : HttpMethod) (path : bytes) : option RouterMatch :=
  m ← Match (tree_ rt) method path;
  Some (match entry m with
        | Some e =>
          MkRouterMatch (handler e)
            (if HasStreamHandler e then Some (stream_handler e) else None)
            (prod_map id (view_text path) <$> params m)
            (path_exists m) (allow_header m)
        | None => MkRouterMatch None None [] (path_exists m) (allow_header m)
        end).

(** ** Dispatch *)

Section Dispatch.
(** The session and what [response.Send()] does to it. *)
Context {S : Type}.
Context (send : S → HttpResponse → option (S * HttpResponse)).

(** Source: include/iouring_runtime/web/Router.h:58-67, RequestContext. *)
Record RequestContext := MkContext {
  session : S;
  request : HttpRequest;
  response : HttpResponse
}.

Definition set_response (ctx : RequestContext) (r : HttpResponse) : RequestContext :=
  MkContext (session ctx) (request ctx) r.
Definition set_request (ctx : RequestContext) (r : HttpRequest) : RequestContext :=
  MkContext (session ctx) r (response ctx).

(** How a callable ends. *)
Inductive outcome := Returned | Threw.

(** Running a callable of the application. *)
Context (call : callable → RequestContext → RequestContext * outcome).

(** [ctx.response.Send()]. *)
Definition Send_on (ctx : RequestContext) : option RequestContext :=
  '(s, r) ← send (session ctx) (response ctx);
  Some (MkContext s (request ctx) r).

(** [Status(st).ContentType("text/plain").Body(text)] followed by [Send()]. *)
Definition answer (ctx : RequestContext) (st : HttpStatus.t) (text : string) : option RequestContext :=
  Send_on (set_response ctx
    (Body (ContentType (Status (response ctx) st) (txt "text/plain")) (txt text))).

(** The middleware loop: [true] when the chain stopped it, by an answer or by an
    exception, which Dispatch does not catch. *)
Fixpoint run_middlewares (ms : list callable) (ctx : RequestContext)
    : RequestContext * outcome * bool :=
  match ms with
  | [] => (ctx, Returned, false)
  | m :: ms =>
    match call m ctx with
    | (ctx, Threw) => (ctx, Threw, true)
    | (ctx, Returned) =>
      if IsSent (response ctx) then (ctx, Returned, true) else run_middlewares ms ctx
    end
  end.

(** The lookup with the fallback of HEAD to GET. *)
Definition match_request (rt : Router) (ctx : RequestContext) : option (RequestContext * RouterMatch) :=
  result ← Router_Match rt (method (request ctx)) (path (request ctx));
  if decide (method (request ctx) = kHead) then
    let ctx := set_response ctx (SuppressBody (response ctx) true) in
    match rm_handler result with
    | Some _ => Some (ctx, result)
    | None =>
      get_result ← Router_Match rt kGet (path (request ctx));
      Some (ctx, if bool_decide (rm_handler get_result = None) then result else get_result)
    end
  else Some (ctx, result).

(** Source: src/modules/web/Router.cpp:77-106, Router::Dispatch.
    The branch that runs the handler. *)
Definition run_handler (h : callable) (ps : list (bytes * bytes)) (ctx : RequestContext)
    : option (RequestContext * outcome) :=
  let ctx := set_request ctx (SetParams (request ctx) ps) in
  let '(ctx, o) := call h ctx in
  ctx ← (match o with
         | Returned => Some ctx
         | Threw => if IsSent (response ctx) then Some ctx
                    else answer ctx HttpStatus.kInternalServerError "Internal Server Error"
         end);
  Some (set_request ctx (ClearParams (request ctx)), Returned).

(** Source: src/modules/web/Router.cpp:108-118, Router::Dispatch.
    The 405 branch. *)
Definition not_allowed (allow : bytes) (ctx : RequestContext) : option (RequestContext * outcome) :=
  let r := Body (ContentType (Status (response ctx) HttpStatus.kMethodNotAllowed)
                   (txt "text/plain")) (txt "Method Not Allowed") in
  let r := if bool_decide (allow = []) then r else Header r (txt "Allow") allow in
  ctx ← Send_on (set_response ctx r); Some (ctx, Returned).

(** Source: src/modules/web/Router.cpp:120-124, Router::Dispatch.
    The 404 branch. *)
Definition not_found (ctx : RequestContext) : option (RequestContext * outcome) :=
  ctx ← answer ctx HttpStatus.kNotFound "Not Found"; Some (ctx, Returned).

(** Source: src/modules/web/Router.cpp:58-125, Router::Dispatch. *)
Definition Dispatch (rt : Router) (ctx : RequestContext) : option (RequestContext * outcome) :=
  let '(ctx, o, stopped) := run_middlewares (middlewares_ rt) ctx in
  if stopped : bool then Some (ctx, o) else
  '(ctx, result) ← match_request rt ctx;
  match rm_handler result with
  | Some h => run_handler h (rm_params result) ctx
  | None =>
    if rm_path_exists result then not_allowed (rm_allow_header result) ctx else not_found ctx
  end.

(** ** Which branch a request takes *)

(** The handler the route table has for a method and a path, with its pattern. *)
Definition selected (rs : route_list) (m : HttpMethod) (path : bytes) : option (callable * list token) :=
  p ← find (table_serves rs m) (candidates (SplitPath path)); h ← handler (table rs p m); Some (h, p).

Definition path_known (rs : route_list) (path : bytes) : bool :=
  existsb (λ p, existsb (λ m, table_serves rs m p) methods) (candidates (SplitPath path)).

(** With HEAD served by the GET handler when it has none of its own. *)
Definition target (rs : route_list) (m : HttpMethod) (path : bytes) : option (callable * list token) :=
  match selected rs m path with
  | Some h => Some h
  | None => if decide (m = kHead) then selected rs kGet path else None
  end.

(** The parameters of a path [/s1/.../sn] under a pattern: the names the pattern was
    registered with and the segments at their places, the rest of the path for a wildcard. *)
Definition params_of (rs : route_list) (path : bytes) (p : list token) (ps : list (bytes * bytes)) : Prop :=
  ∀ ss, path = "/"%char :: join "/"%char ss → Forall segment_ok ss →
    ps = zip (bound_names (first_name rs) [] p) (bind_values p ss).

(** The answers: to run a handler with parameters, and to send a short text. *)
Definition runs_handler (h : callable) (ps : list (bytes * bytes)) (ctx : RequestContext)
    (result : option (RequestContext * outcome)) : Prop :=
  let '(ctx', o) := call h (MkContext (session ctx) (SetParams (request ctx) ps) (response ctx)) in
  let cleared (c : RequestContext) := MkContext (session c) (ClearParams (request c)) (response c) in
  match o with
  | Threw => if IsSent (response ctx') then result = Some (cleared ctx', Returned) else
      result = '(s, r) ← send (session ctx')
                 (Body (ContentType (Status (response ctx') HttpStatus.kInternalServerError) (txt "text/plain"))
                    (txt "Internal Server Error"));
               Some (cleared (MkContext s (request ctx') r), Returned)
  | Returned => result = Some (cleared ctx', Returned)
  end.

Definition sends (r : HttpResponse) (ctx : RequestContext) : option (RequestContext * outcome) :=
  '(s, r) ← send (session ctx) r; Some (MkContext s (request ctx) r, Returned).

Lemma run_handler_runs h ps ctx : runs_handler h ps ctx (run_handler h ps ctx).
Proof.
  unfold runs_handler, run_handler, set_request. destruct (call _ _) as [ctx' []]; [done|].
  destruct (IsSent _); [done|]. unfold answer, Send_on, set_response. cbn.
  by destruct (send _ _) as [[s r]|].
Qed.

Lemma Router_Match_table ms rs m path :
  trailing_slash path = false →
  ∃ result, Router_Match (MkRouter ms (build rs)) m path = Some result ∧
    rm_handler result = fst <$> selected rs m path ∧ rm_path_exists result = path_known rs path ∧
    (∀ h p, selected rs m path = Some (h, p) → params_of rs path p (rm_params result)) ∧
    (find (table_serves rs m) (candidates (SplitPath path)) = None → rm_allow_header result = allowed rs path).
Proof.
  intros Ht. destruct (Match_shows rs m path Ht) as (r&Hr&Hk&Ho).
  unfold Router_Match. cbn [tree_]. rewrite Hr. cbn [mbind option_bind].
  unfold selected. eexists. split; [done|].
  destruct (find (table_serves rs m) _) as [p|] eqn:Hf.
  - destruct Ho as [-> Hps]. cbn. split; [by destruct (handler _)|]. split; [done|]. split; [|done].
    intros h p'. destruct (handler _); [|done]. intros [= <- <-]. exact Hps.
  - destruct Ho as [-> Ha]. cbn. split_and!; done.
Qed.

(** C35: dispatch.  When no middleware answers or throws, a request whose path has no
    trailing slash is handled by exactly the handler the route table selects for its
    method and path, a HEAD request by the GET handler, with the body suppressed, when no
    HEAD handler exists; the handler sees the parameters of its pattern, by the names of
    its first registration and with the segments of the path as values, and if it throws
    before a response is sent the answer is a 500.  A path that only other methods have
    routes for is answered 405, with the methods of the last matching pattern in Allow
    (if the method has no route of its own there), and a path without routes 404.
    Conditions: no trailing slash (findings RadixTree.cpp:100 and :275); the parameters are told
    for paths without empty segments; stream routes count as routes without a handler
    here, and HttpSession serves them before it dispatches. *)
Theorem Dispatch_selects ms rs ctx ctx1 :
  run_middlewares ms ctx = (ctx1, Returned, false) →
  trailing_slash (path (request ctx1)) = false →
  let m := method (request ctx1) in
  let path := path (request ctx1) in
  let ctx2 := if decide (m = kHead) then set_response ctx1 (SuppressBody (response ctx1) true)
              else ctx1 in
  let result := Dispatch (MkRouter ms (build rs)) ctx in
  let text st body := Body (ContentType (Status (response ctx2) st) (txt "text/plain")) (txt body) in
  match target rs m path with
  | Some (h, p) => ∃ ps, params_of rs path p ps ∧ runs_handler h ps ctx2 result
  | None =>
    if path_known rs path then
      ∃ allow, (find (table_serves rs m) (candidates (SplitPath path)) = None → allow = allowed rs path) ∧
        let r := text HttpStatus.kMethodNotAllowed "Method Not Allowed" in
        result = sends (if bool_decide (allow = []) then r else Header r (txt "Allow") allow) ctx2
    else result = sends (text HttpStatus.kNotFound "Not Found") ctx2
  end.
Proof.
  intros Hm Ht m pth ctx2 result text. unfold result, Dispatch. cbn [middlewares_]. rewrite Hm. unfold match_request.
  assert (∀ allow, not_allowed allow ctx2 =
    sends (if bool_decide (allow = []) then text HttpStatus.kMethodNotAllowed "Method Not Allowed"
           else Header (text HttpStatus.kMethodNotAllowed "Method Not Allowed") (txt "Allow") allow) ctx2) as Hna.
  { intros allow. unfold not_allowed, sends, Send_on, text. cbn. by destruct (send _ _) as [[]|]. }
  assert (not_found ctx2 = sends (text HttpStatus.kNotFound "Not Found") ctx2) as Hnf.
  { unfold not_found, sends, answer, Send_on, text. cbn. by destruct (send _ _) as [[]|]. }
  destruct (Router_Match_table ms rs m pth Ht) as (res&Hres&Hh&Hk&Hp&Ha).
  fold m pth. rewrite Hres. cbn [mbind option_bind]. unfold target, ctx2 in *.
  destruct (decide (m = kHead)) as [Em|Em].
  - cbn [set_response request]. destruct (selected rs m pth) as [[h p]|] eqn:Hs; cbn in Hh; rewrite Hh.
    + cbn [mbind option_bind]. rewrite Hh. eexists. split; [by eapply Hp|apply run_handler_runs].
    + fold pth. destruct (Router_Match_table ms rs kGet pth Ht) as (gres&->&Hgh&Hgk&Hgp&_).
      cbn [mbind option_bind]. destruct (selected rs kGet pth) as [[h p]|] eqn:Hg; cbn in Hgh; rewrite Hgh.
      * rewrite bool_decide_false by done. rewrite Hgh. eexists. split; [by eapply Hgp|apply run_handler_runs].
      * rewrite bool_decide_true by done. rewrite Hh, Hk.
        destruct (path_known rs pth); [|done]. eexists. split; [exact Ha|apply Hna].
  - cbn [mbind option_bind]. rewrite Hh, Hk.
    destruct (selected rs m pth) as [[h p]|] eqn:Hs; cbn.
    + eexists. split; [by eapply Hp|apply run_handler_runs].
    + destruct (path_known rs pth); [|done]. eexists. split; [exact Ha|apply Hna].
Qed.

(** Dispatch leaves a response that is not sent only when a handler returned
    without sending it. *)
Definition send_marks : Prop :=
  ∀ s r s' r', send s r = Some (s', r') → state_ r' = kSent.

Lemma answer_sent ctx st text ctx' :
  send_marks → answer ctx st text = Some ctx' → IsSent (response ctx') = true.
Proof.
  intros Hs Ha. unfold answer, Send_on in Ha. apply bind_Some in Ha as ([s r]&Hr&Ha).
  injection Ha as <-. apply bool_decide_eq_true. by eapply Hs.
Qed.
End Dispatch.
Arguments RequestContext : clear implicits.

(** ** A concrete router *)

Module Sample.
(** Sessions that collect the responses sent on them. *)
Definition send (s : list HttpResponse) (r : HttpResponse) : option (list HttpResponse * HttpResponse) :=
  let r := set_state r kSent in Some (s ++ [r], r).

(** Callable [k] writes its number of exclamation marks into the body. *)
Definition call (k : callable) (ctx : RequestContext (list HttpResponse)) :=
  (set_response ctx (Body (response ctx) (replicate k "!"%char)), Returned).

Definition entry (k : callable) : route_entry := MkEntry (Some k) (MkStreamHandler None None None None).

Definition routes : route_list :=
  [(kGet, txt "/users/:id", entry 1); (kPost, txt "/users", entry 2)].

Definition ctx (m : HttpMethod) (path : string) : RequestContext (list HttpResponse) :=
  MkContext [] (MkRequest m (txt path) [] [] true [] [] []) (HttpResponse_new true).
End Sample.

Lemma Dispatch_selects_witness :
  runs_handler Sample.send Sample.call 1 [(txt "id", txt "7")]
    (let ctx := (Sample.call 5 (Sample.ctx kHead "/users/7")).1 in
     set_response ctx (SuppressBody (response ctx) true))
    (Dispatch Sample.send Sample.call (MkRouter [5%nat] (build Sample.routes)) (Sample.ctx kHead "/users/7")).
Proof.
  destruct (Dispatch_selects Sample.send Sample.call [5%nat] Sample.routes
           (Sample.ctx kHead "/users/7") (Sample.call 5 (Sample.ctx kHead "/users/7")).1
           eq_refl eq_refl) as (ps & Hps & Hr).
  rewrite (Hps [txt "users"; txt "7"] eq_refl) in Hr; [exact Hr|].
  repeat constructor; try discriminate; simpl; rewrite !elem_of_cons, elem_of_nil; intuition discriminate.
Defined.

(** The three kinds of answer. *)
Example Dispatch_sample :
  let run m p := (λ '(c, _), (HttpResponse.status_ (response c), IsSent (response c))) <$>
                 Dispatch Sample.send Sample.call (MkRouter [] (build Sample.routes))
                   (Sample.ctx m p) in
  run kGet "/users/7"%string = Some (HttpStatus.kOk, false) ∧
  run kPut "/users"%string = Some (HttpStatus.kMethodNotAllowed, true) ∧
  run kGet "/nobody"%string = Some (HttpStatus.kNotFound, true).
Proof. vm_compute. auto. Qed.
