(* ===== verification/HttpSession.v ===== *)
(** * HTTP connections

    [include/iouring_runtime/web/HttpSession.h] and
    [src/modules/web/HttpSession*.cpp]: the session that feeds the parser,
    dispatches complete requests, streams large bodies and files, runs stream
    handlers, and enforces the request deadline.

    The base class is used through the contract [BaseSession]: which buffers
    [Send] has accepted, in order.  The calls it makes back into the HTTP session
    (OnRecv, OnSocketDrained, OnTimeoutTick, OnDisconnected) are the entry points
    modelled here; a base operation does not run one of them before it returns.

    The callables of the application are arbitrary functions on the request
    context, as in Router.v.  [None] is undefined behaviour. *)

From S2P Require Import Prelude Types Text RecvBuffer SendBuffer HttpRequest RadixTree.
From S2P Require Import HttpResponse HttpParser Router.

#[local] Open Scope Z_scope.
#[local] Set Warnings "-clear-no-such-hyp".

(** ** The base class *)

Class BaseSession (B : Type) := {
  (** The buffers accepted for sending so far, in order. *)
  b_sent : B → list nat;
  (** [Send]; the boolean is [has_value]. *)
  b_Send : B → nat → B * bool;
  b_Disconnect : B → B;
  b_DisconnectAfterFlush : B → B;
  b_BeginAppIo : B → B;
  b_EndAppIo : B → B;
  b_Send_spec b h : b_sent (b_Send b h).1 = if (b_Send b h).2 then b_sent b ++ [h] else b_sent b;
  b_Disconnect_spec b : b_sent (b_Disconnect b) = b_sent b;
  b_DisconnectAfterFlush_spec b : b_sent (b_DisconnectAfterFlush b) = b_sent b;
  b_BeginAppIo_spec b : b_sent (b_BeginAppIo b) = b_sent b;
  b_EndAppIo_spec b : b_sent (b_EndAppIo b) = b_sent b
}.

(** ** Data *)

(** Source: include/iouring_runtime/web/HttpSession.h:58-64, HttpSession::FileStreamState. *)
Record FileStreamState := MkFileStream {
  fs_fd : option Z;
  fs_remaining_bytes : Z;
  fs_chunk_size : Z;
  fs_max_chunks_per_write : Z;
  fs_active : bool
}.

(** Source: include/iouring_runtime/web/HttpSession.h:66-72, HttpSession::BodyStreamState. *)
Record BodyStreamState := MkBodyStream {
  bs_body : option bytes;
  bs_offset : Z;
  bs_chunk_size : Z;
  bs_max_chunks_per_write : Z;
  bs_active : bool
}.

(** Source: include/iouring_runtime/web/HttpSession.h:51-56, HttpSession::StreamingRequestState.
    [request] always points to the request of the parser, which the operations
    get as an argument. *)
Record StreamingRequestState := MkStreaming {
  as_handler : option stream_handler_t;
  as_request_set : bool;
  as_response : option HttpResponse;
  as_rejected : bool
}.

Definition no_stream : StreamingRequestState := MkStreaming None false None false.

(** A kernel answer to [read]. *)
Inductive read_result := ReadBytes (d : bytes) | ReadEof | ReadEintr | ReadError.

Section HttpSession.
Context {B : Type} `{BaseSession B}.

(** Source: include/iouring_runtime/web/HttpSession.h:91-101, HttpSession.
    The members except the parser and the receive buffer; the buffer pool, from
    which this model releases only what Send refuses (what it accepts is released
    by the base class once it is on the wire); the
    answers [read] will give on the streamed file, the descriptors closed so far
    and the request id counter. *)
Record http_session := MkSession {
  base : B;
  hpool : pool;
  file_stream_ : FileStreamState;
  body_stream_ : BodyStreamState;
  request_started_at_ : Z;
  active_stream_ : StreamingRequestState;
  async_work_count_ : Z;
  request_in_progress_ : bool;
  reads : list read_result;
  closed_fds : list Z;
  request_id_counter : Z
}.

Definition set_base (s : http_session) v := MkSession v (hpool s) (file_stream_ s) (body_stream_ s)
  (request_started_at_ s) (active_stream_ s) (async_work_count_ s) (request_in_progress_ s)
  (reads s) (closed_fds s) (request_id_counter s).
Definition set_pool (s : http_session) v := MkSession (base s) v (file_stream_ s) (body_stream_ s)
  (request_started_at_ s) (active_stream_ s) (async_work_count_ s) (request_in_progress_ s)
  (reads s) (closed_fds s) (request_id_counter s).
Definition set_file (s : http_session) v := MkSession (base s) (hpool s) v (body_stream_ s)
  (request_started_at_ s) (active_stream_ s) (async_work_count_ s) (request_in_progress_ s)
  (reads s) (closed_fds s) (request_id_counter s).
Definition set_body_stream (s : http_session) v := MkSession (base s) (hpool s) (file_stream_ s) v
  (request_started_at_ s) (active_stream_ s) (async_work_count_ s) (request_in_progress_ s)
  (reads s) (closed_fds s) (request_id_counter s).
Definition set_started (s : http_session) v := MkSession (base s) (hpool s) (file_stream_ s)
  (body_stream_ s) v (active_stream_ s) (async_work_count_ s) (request_in_progress_ s)
  (reads s) (closed_fds s) (request_id_counter s).
Definition set_active_stream (s : http_session) v := MkSession (base s) (hpool s) (file_stream_ s)
  (body_stream_ s) (request_started_at_ s) v (async_work_count_ s) (request_in_progress_ s)
  (reads s) (closed_fds s) (request_id_counter s).
Definition set_async (s : http_session) v := MkSession (base s) (hpool s) (file_stream_ s)
  (body_stream_ s) (request_started_at_ s) (active_stream_ s) v (request_in_progress_ s)
  (reads s) (closed_fds s) (request_id_counter s).
Definition set_in_progress (s : http_session) v := MkSession (base s) (hpool s) (file_stream_ s)
  (body_stream_ s) (request_started_at_ s) (active_stream_ s) (async_work_count_ s) v
  (reads s) (closed_fds s) (request_id_counter s).
Definition set_reads (s : http_session) v := MkSession (base s) (hpool s) (file_stream_ s)
  (body_stream_ s) (request_started_at_ s) (active_stream_ s) (async_work_count_ s)
  (request_in_progress_ s) v (closed_fds s) (request_id_counter s).
Definition set_closed (s : http_session) v := MkSession (base s) (hpool s) (file_stream_ s)
  (body_stream_ s) (request_started_at_ s) (active_stream_ s) (async_work_count_ s)
  (request_in_progress_ s) (reads s) v (request_id_counter s).
Definition set_counter (s : http_session) v := MkSession (base s) (hpool s) (file_stream_ s)
  (body_stream_ s) (request_started_at_ s) (active_stream_ s) (async_work_count_ s)
  (request_in_progress_ s) (reads s) (closed_fds s) v.

(** The last reference to a buffer goes away. *)
Definition release (s : http_session) (h : nat) : option http_session :=
  p ← OnRelease (hpool s) h; Some (set_pool s p).

(** [Send(std::move(buf))] of the base class; a buffer it does not accept is
    destroyed. *)
Definition base_Send (s : http_session) (h : nat) : option (http_session * bool) :=
  let '(b, ok) := b_Send (base s) h in
  let s := set_base s b in
  if ok then Some (s, true) else s ← release s h; Some (s, false).

Definition Disconnect (s : http_session) : http_session := set_base s (b_Disconnect (base s)).
Definition DisconnectAfterFlush (s : http_session) : http_session :=
  set_base s (b_DisconnectAfterFlush (base s)).

Definition close_fd (s : http_session) (fd : Z) : http_session := set_closed s (closed_fds s ++ [fd]).

(** ** Large bodies *)

(** Source: src/modules/web/HttpSessionFile.cpp:144-148, HttpSession::ResetBodyStream. *)
Definition ResetBodyStream (s : http_session) : http_session :=
  let b := body_stream_ s in
  set_body_stream s (MkBodyStream None 0 (bs_chunk_size b) (bs_max_chunks_per_write b) false).

Definition set_offset (s : http_session) (offset : Z) : http_session :=
  let b := body_stream_ s in
  set_body_stream s (MkBodyStream (bs_body b) offset (bs_chunk_size b)
                       (bs_max_chunks_per_write b) (bs_active b)).

(** Source: src/modules/web/HttpSessionFile.cpp:107-141, HttpSession::PumpBodyStream.
    The loop.  Every iteration sends at least one byte, so [fuel] beyond the body length is
    never used up. *)
Fixpoint PumpBodyStream_loop (fuel : nat) (i : Z) (s : http_session)
    : option (http_session * bool) :=
  match fuel with
  | O => None
  | S fuel =>
    let st := body_stream_ s in
    body ← bs_body st;
    if (i <? bs_max_chunks_per_write st) && (bs_offset st <? zlen body) then
      let remaining := zlen body - bs_offset st in
      let next_size := u32 (remaining `min` bs_chunk_size st) in
      '(p, buffer_result) ← Allocate (hpool s) next_size;
      let s := set_pool s p in
      match buffer_result with
      | Unexpected _ => Some (Disconnect (ResetBodyStream s), false)
      | Value h =>
        p ← append_data (hpool s) h (ztake next_size (zdrop (bs_offset st) body));
        let s := set_offset (set_pool s p) (bs_offset st + next_size) in
        '(s, sent) ← base_Send s h;
        if negb sent then Some (ResetBodyStream s, false)
        else PumpBodyStream_loop fuel (i + 1) s
      end
    else
      Some (if zlen body <=? bs_offset st then ResetBodyStream s else s, true)
  end.

(** Source: src/modules/web/HttpSessionFile.cpp:98-142, HttpSession::PumpBodyStream. *)
Definition PumpBodyStream (s : http_session) : option (http_session * bool) :=
  let st := body_stream_ s in
  if negb (bs_active st) then Some (s, true) else
  match bs_body st with
  | None => Some (ResetBodyStream s, true)
  | Some body =>
    if zlen body <=? bs_offset st then Some (ResetBodyStream s, true)
    else PumpBodyStream_loop (S (length body)) 0 s
  end.

(** Source: src/modules/web/HttpSession.cpp:80-101, HttpSession::StartBodyStream. *)
Definition StartBodyStream (s : http_session) (header : option nat) (body : option bytes)
    (chunk_size max_chunks_per_write : Z) : option (http_session * bool) :=
  match header, body with
  | Some h, Some body =>
    if fs_active (file_stream_ s) || bs_active (body_stream_ s) then Some (s, false) else
    let s := set_body_stream s (MkBodyStream (Some body) 0 (chunk_size `max` (4 * 1024))
                                  (max_chunks_per_write `max` 1) true) in
    '(s, sent) ← base_Send s h;
    if negb sent then Some (ResetBodyStream s, false) else PumpBodyStream s
  | _, _ => Some (s, false)
  end.

(** ** Files *)

(** Source: src/modules/web/HttpSessionFile.cpp:92-96, HttpSession::ResetFileStream.
    Resetting the handle closes its descriptor. *)
Definition ResetFileStream (s : http_session) : http_session :=
  let f := file_stream_ s in
  let s := match fs_fd f with Some fd => close_fd s fd | None => s end in
  set_file s (MkFileStream None 0 (fs_chunk_size f) (fs_max_chunks_per_write f) false).

(** The outcome of the inner read loop. *)
Inductive read_outcome := ReadDone (d : bytes) | ReadFailed.

(** Source: src/modules/web/HttpSessionFile.cpp:44-66, HttpSession::PumpFileStream.
    The loop around [read].  [None] when the answers of the kernel run out; a positive answer is at most
    what was asked for. *)
Fixpoint read_loop (rs : list read_result) (acc : bytes) (next_size : Z)
    : option (list read_result * read_outcome) :=
  if zlen acc <? next_size then
    match rs with
    | [] => None
    | ReadBytes d :: rs => read_loop rs (acc ++ ztake (next_size - zlen acc) d) next_size
    | ReadEof :: rs => Some (rs, ReadDone acc)
    | ReadEintr :: rs => read_loop rs acc next_size
    | ReadError :: rs => Some (rs, ReadFailed)
    end
  else Some (rs, ReadDone acc).

Definition set_remaining (s : http_session) (n : Z) : http_session :=
  let f := file_stream_ s in
  set_file s (MkFileStream (fs_fd f) n (fs_chunk_size f) (fs_max_chunks_per_write f) (fs_active f)).

(** Source: src/modules/web/HttpSessionFile.cpp:27-90, HttpSession::PumpFileStream.
    The loop over the chunks. *)
Fixpoint PumpFileStream_loop (fuel : nat) (i : Z) (s : http_session)
    : option (http_session * bool) :=
  match fuel with
  | O => None
  | S fuel =>
    let f := file_stream_ s in
    if (i <? fs_max_chunks_per_write f) && (0 <? fs_remaining_bytes f) then
      let next_size := u32 (fs_remaining_bytes f `min` fs_chunk_size f) in
      '(p, buffer_result) ← Allocate (hpool s) next_size;
      let s := set_pool s p in
      match buffer_result with
      | Unexpected _ => Some (Disconnect (ResetFileStream s), false)
      | Value h =>
        '(rs, r) ← read_loop (reads s) [] next_size;
        let s := set_reads s rs in
        match r with
        | ReadFailed => s ← release s h; Some (Disconnect (ResetFileStream s), false)
        | ReadDone [] => s ← release s h; Some (ResetFileStream s, true)
        | ReadDone d =>
          p ← append_data (hpool s) h d;
          let s := set_remaining (set_pool s p) (fs_remaining_bytes f - zlen d) in
          '(s, sent) ← base_Send s h;
          if negb sent then Some (ResetFileStream s, false)
          else if zlen d <? next_size then Some (ResetFileStream s, true)
          else PumpFileStream_loop fuel (i + 1) s
        end
      end
    else Some (if fs_remaining_bytes f =? 0 then ResetFileStream s else s, true)
  end.

(** Source: src/modules/web/HttpSessionFile.cpp:17-90, HttpSession::PumpFileStream. *)
Definition PumpFileStream (s : http_session) : option (http_session * bool) :=
  let f := file_stream_ s in
  if negb (fs_active f) then Some (s, true) else
  if fs_remaining_bytes f =? 0 then Some (ResetFileStream s, true)
  else PumpFileStream_loop (S (Z.to_nat (fs_remaining_bytes f))) 0 s.

(** Source: src/modules/web/HttpSession.cpp:56-78, HttpSession::StartFileStream. *)
Definition StartFileStream (s : http_session) (header : option nat) (file_fd file_size : Z)
    (chunk_size max_chunks_per_write : Z) : option (http_session * bool) :=
  match header with
  | None => Some (s, false)
  | Some h =>
    if (file_fd <? 0) || fs_active (file_stream_ s) || bs_active (body_stream_ s)
    then Some (s, false) else
    let s := match fs_fd (file_stream_ s) with Some fd => close_fd s fd | None => s end in
    let s := set_file s (MkFileStream (Some file_fd) file_size (chunk_size `max` (4 * 1024))
                           (max_chunks_per_write `max` 1) true) in
    '(s, sent) ← base_Send s h;
    if negb sent then Some (ResetFileStream s, false) else PumpFileStream s
  end.

(** Source: src/modules/web/HttpSession.cpp:113-120, HttpSession::OnSocketDrained. *)
Definition OnSocketDrained (s : http_session) : option http_session :=
  s ← (if fs_active (file_stream_ s) then '(s, _) ← PumpFileStream s; Some s else Some s);
  if bs_active (body_stream_ s) then '(s, _) ← PumpBodyStream s; Some s else Some s.

(** ** Responses on this session *)

(** Source: src/modules/web/HttpSession.cpp:52-54, HttpSession::SendResponse. *)
Definition SendResponse (s : http_session) (h : nat) : option http_session :=
  '(s, _) ← base_Send s h; Some s.

(** The calls of a response, in order. *)
Fixpoint perform (s : http_session) (es : list effect) : option http_session :=
  match es with
  | [] => Some s
  | CallSendResponse h :: es => s ← SendResponse s h; perform s es
  | CallStartBodyStream h body cs mc :: es =>
    '(s, _) ← StartBodyStream s (Some h) (Some body) cs mc; perform s es
  | CallStartFileStream h fd size cs mc :: es =>
    '(s, _) ← StartFileStream s (Some h) fd size cs mc; perform s es
  | CallClose fd :: es => perform (close_fd s fd) es
  end.

(** The text of the Date header while a callback runs. *)
Context (date : bytes).

(** [response.Send()] of a response bound to this session. *)
Definition send_response (s : http_session) (r : HttpResponse)
    : option (http_session * HttpResponse) :=
  '(r, p, es) ← Send date r (hpool s);
  s ← perform (set_pool s p) es;
  Some (s, r).

(** [response.SendFile(...)]: its result is that of StartFileStream when the
    stream is started. *)
Definition send_file (s : http_session) (r : HttpResponse) (file : open_outcome)
    (content_type : bytes) (chunk_size max_chunks_per_write : Z)
    : option (http_session * HttpResponse * bool) :=
  '(r, p, es, ok) ← SendFile date r (hpool s) file content_type chunk_size max_chunks_per_write true;
  let s := set_pool s p in
  match es with
  | [CallStartFileStream h fd size cs mc] =>
    '(s, started) ← StartFileStream s (Some h) fd size cs mc;
    if started : bool then Some (s, r, true) else Some (close_fd s fd, r, false)
  | _ => s ← perform s es; Some (s, r, ok)
  end.

Definition close_response (st : HttpStatus.t) (text : bytes) : HttpResponse :=
  KeepAlive (Body (ContentType (Status (HttpResponse_new false) st) (txt "text/plain")) text) false.

(** An unbound response built and sent by the session itself. *)
Definition send_plain (s : http_session) (st : HttpStatus.t) (text : bytes) : option http_session :=
  '(_, p, buffer) ← Build date (close_response st text) (hpool s);
  let s := set_pool s p in
  match buffer with Some h => SendResponse s h | None => Some s end.
End HttpSession.
Arguments http_session : clear implicits.

(** ** Requests *)

(** Lower-case hexadecimal, at least [width] digits; a number below [2^64] has at
    most 16. *)
Fixpoint hex_digits (fuel : nat) (n : Z) (acc : bytes) : bytes :=
  match fuel with
  | O => acc
  | S fuel =>
    let d := n mod 16 in
    let acc := byte_of (if d <? 10 then 48 + d else 87 + d) :: acc in
    if n <? 16 then acc else hex_digits fuel (n / 16) acc
  end.

(** Source: src/modules/web/HttpSession.cpp:16-23, HttpSession::GenerateRequestId.
    The counter before the [fetch_add] gives the id. *)
Definition GenerateRequestId {B} (s : http_session B) : http_session B * bytes :=
  let n := request_id_counter s in
  let digits := hex_digits 16 n [] in
  (set_counter s (u64 (n + 1)),
   txt "req-" ++ replicate (13 - length digits) "0"%char ++ digits).

Section Requests.
Context {B : Type} `{BaseSession B}.
Context (date : bytes) (rt : Router).
Abbreviation HS := (http_session B).
Abbreviation context := (RequestContext HS).

(** The application's callables; a callback with a boolean result gives [None]
    when it throws. *)
Context (call : callable → context → context * outcome).
Context (call_headers : callable → context → context * option bool).
Context (call_body : callable → context → bytes → context * option bool).

(** Whether requests and slow requests are logged. *)
Context (log_request log_slow_request : bool).

Definition with_request_id (r : HttpRequest) (id : bytes) : HttpRequest :=
  MkRequest (method r) (path r) (query r) (body r) (keep_alive r) id
    (HttpRequest.headers_ r) (params_ r).

Definition not_keep_alive (r : HttpRequest) : HttpRequest :=
  MkRequest (method r) (path r) (query r) (body r) false (request_id r)
    (HttpRequest.headers_ r) (params_ r).

(** *** Deferred responses *)

(** Source: src/modules/web/HttpSessionTimeout.cpp:14-17, HttpSession::BeginDeferredResponse. *)
Definition BeginDeferredResponse (s : HS) : HS :=
  let s := set_async s (u32 (async_work_count_ s + 1)) in
  set_base s (b_BeginAppIo (base s)).

(** Source: src/modules/web/HttpSessionTimeout.cpp:19-24, HttpSession::EndDeferredResponse. *)
Definition EndDeferredResponse (s : HS) : HS :=
  let s := if 0 <? async_work_count_ s then set_async s (async_work_count_ s - 1) else s in
  set_base s (b_EndAppIo (base s)).

(** Source: src/modules/web/HttpSessionTimeout.cpp:26-28, HttpSession::HasPendingAppWork. *)
Definition HasPendingAppWork (s : HS) : bool :=
  negb (async_work_count_ s =? 0) || fs_active (file_stream_ s) || bs_active (body_stream_ s).

(** Source: include/iouring_runtime/web/Router.h:53-56, DeferredResponse. *)
Record DeferredResponse := MkDeferred { d_session : bool; d_response : option HttpResponse }.

(** Source: src/modules/web/RouterDeferred.cpp:9-15, DeferredResponse::DeferredResponse. *)
Definition DeferredResponse_new (s : HS) : HS * DeferredResponse :=
  (BeginDeferredResponse s, MkDeferred true (Some (KeepAlive (HttpResponse_new true) false))).

(** Source: src/modules/web/RouterDeferred.cpp:46-58, DeferredResponse::Reset. *)
Definition Deferred_Reset (s : HS) (d : DeferredResponse) (send_if_open : bool)
    : option (HS * DeferredResponse) :=
  if negb (d_session d) then Some (s, MkDeferred false None) else
  s ← (match d_response d with
       | Some r => if send_if_open && negb (IsSent r) then '(s, _) ← send_response date s r; Some s
                   else Some s
       | None => Some s
       end);
  Some (EndDeferredResponse s, MkDeferred false None).

(** Source: src/modules/web/RouterDeferred.cpp:38-40, DeferredResponse::Complete. *)
Definition Deferred_Complete (s : HS) (d : DeferredResponse) := Deferred_Reset s d true.

(** Source: src/modules/web/RouterDeferred.cpp:42-44, DeferredResponse::Abort. *)
Definition Deferred_Abort (s : HS) (d : DeferredResponse) := Deferred_Reset s d false.

(** Source: src/modules/web/RouterDeferred.cpp:21-23, DeferredResponse::DeferredResponse.
    Move construction: the new object and what is left of the old one. *)
Definition Deferred_move (d : DeferredResponse) : DeferredResponse * DeferredResponse :=
  (d, MkDeferred false None).

(** Source: src/modules/web/RouterDeferred.cpp:60-65, RequestContext::DeferResponse. *)
Definition DeferResponse (ctx : context) : context * DeferredResponse :=
  let r := MarkDeferred (KeepAlive (response ctx) false) in
  let '(s, d) := DeferredResponse_new (session ctx) in
  (MkContext s (not_keep_alive (request ctx)) r, d).

(** *** Stream handlers *)

(** Source: src/modules/web/HttpSessionStream.cpp:15-17, HttpSession::ActiveStreamResponseSent. *)
Definition ActiveStreamResponseSent (s : HS) : bool :=
  match as_response (active_stream_ s) with Some r => IsSent r | None => false end.

(** The response and the rejection flag of the active stream after a callback. *)
Definition put_stream (ctx : context) (rejected : bool) : HS :=
  set_active_stream (session ctx)
    (MkStreaming (as_handler (active_stream_ (session ctx))) true (Some (response ctx)) rejected).

(** Source: src/modules/web/HttpSessionStream.cpp:19-75, HttpSession::PrepareRequestBody. *)
Definition PrepareRequestBody (s : HS) (req : HttpRequest) : option (HS * HttpRequest * HttpBodyMode) :=
  result ← Router_Match rt (method req) (path req);
  match rm_stream_handler result with
  | None => Some (s, req, kBuffer)
  | Some handler =>
    let '(s, id) := GenerateRequestId s in
    let req := SetParams (with_request_id req id) (rm_params result) in
    let r := KeepAlive (HttpResponse_new true) (keep_alive req) in
    let s := set_active_stream s (MkStreaming (Some handler) true (Some r) false) in
    let ctx := MkContext s req r in
    match on_headers handler with
    | None => Some (put_stream ctx false, request ctx, kStream)
    | Some f =>
      match call_headers f ctx with
      | (ctx, Some true) => Some (put_stream ctx false, request ctx, kStream)
      | (ctx, Some false) =>
        ctx ← (if IsSent (response ctx) then Some ctx
               else answer (send_response date) ctx HttpStatus.kBadRequest "Bad Request");
        Some (put_stream ctx true, request ctx, kDiscard)
      | (ctx, None) =>
        ctx ← answer (send_response date) ctx HttpStatus.kInternalServerError "Internal Server Error";
        Some (put_stream ctx true, request ctx, kDiscard)
      end
    end
  end.

(** Source: src/modules/web/HttpSessionStream.cpp:77-120, HttpSession::HandleBodyChunk. *)
Definition HandleBodyChunk (s : HS) (req : HttpRequest) (chunk : bytes)
    : option (HS * HttpRequest * bool) :=
  let st := active_stream_ s in
  match as_handler st with
  | None => Some (s, req, true)
  | Some handler =>
    r ← as_response st;
    let ctx := MkContext s req r in
    match on_body handler with
    | None => Some (s, req, true)
    | Some f =>
      match call_body f ctx chunk with
      | (ctx, Some true) => Some (put_stream ctx (as_rejected st), request ctx, true)
      | (ctx, Some false) =>
        ctx ← (if IsSent (response ctx) then Some ctx
               else answer (send_response date) ctx HttpStatus.kBadRequest "Bad Request");
        Some (put_stream ctx (as_rejected st), request ctx, false)
      | (ctx, None) =>
        ctx ← (if IsSent (response ctx) then Some ctx
               else answer (send_response date) ctx HttpStatus.kInternalServerError
                      "Internal Server Error");
        Some (put_stream ctx (as_rejected st), request ctx, false)
      end
    end
  end.

(** Source: src/modules/web/HttpSessionStream.cpp:122-192, HttpSession::CompleteStreamingRequest.
    The final response is returned next to the C++ result. *)
Definition CompleteStreamingRequest (s : HS) (req : HttpRequest)
    : option (HS * HttpRequest * HttpResponse * bool) :=
  let s := set_in_progress s false in
  let st := active_stream_ s in
  handler ← as_handler st;
  r ← as_response st;
  let ctx := MkContext s req r in
  ctx ← (match on_complete handler with
         | Some f =>
           if as_rejected st then Some ctx else
           match call f ctx with
           | (ctx, Returned) => Some ctx
           | (ctx, Threw) =>
             if negb (IsSent (response ctx)) && negb (IsDeferred (response ctx))
             then answer (send_response date) ctx HttpStatus.kInternalServerError
                    "Internal Server Error"
             else Some ctx
           end
         | None => Some ctx
         end);
  let deferred := IsDeferred (response ctx) in
  ctx ← (if negb (IsSent (response ctx)) && negb deferred
         then Send_on (send_response date) ctx else Some ctx);
  let req := ClearParams (request ctx) in
  let s := set_active_stream (session ctx) no_stream in
  if deferred then Some (s, req, response ctx, false) else
  if negb (keep_alive req) then Some (DisconnectAfterFlush s, req, response ctx, false)
  else Some (s, req, response ctx, true).

(** Source: src/modules/web/HttpSessionStream.cpp:194-225, HttpSession::AbortStreamingRequest. *)
Definition AbortStreamingRequest (s : HS) (req : HttpRequest) : HS * HttpRequest :=
  let st := active_stream_ s in
  match as_handler st, as_request_set st, as_response st with
  | Some handler, true, Some r =>
    let ctx := MkContext s req r in
    let ctx := match on_abort handler with Some f => (call f ctx).1 | None => ctx end in
    (set_active_stream (session ctx) no_stream, ClearParams (request ctx))
  | _, _, _ => (s, req)
  end.

(** *** Complete requests *)

(** Source: src/modules/web/HttpSessionRequest.cpp:20-82, HttpSession::HandleRequest.
    The part for requests without a stream handler; the response is returned next
    to the C++ result, and an exception that escapes Dispatch escapes it. *)
Definition HandleBufferedRequest (s : HS) (req : HttpRequest)
    : option (HS * HttpRequest * HttpResponse * outcome * bool) :=
  let s := set_in_progress s false in
  let measure_request := log_request || log_slow_request in
  let '(s, req) := if measure_request
                   then let '(s, id) := GenerateRequestId s in (s, with_request_id req id)
                   else (s, with_request_id req []) in
  let r := KeepAlive (HttpResponse_new true) (keep_alive req) in
  '(ctx, o) ← Dispatch (send_response date) call rt (MkContext s req r);
  match o with
  | Threw => Some (session ctx, request ctx, response ctx, Threw, false)
  | Returned =>
    ctx ← (if negb (IsSent (response ctx)) && negb (IsDeferred (response ctx))
           then Send_on (send_response date) ctx else Some ctx);
    if negb (keep_alive (request ctx))
    then Some (DisconnectAfterFlush (session ctx), request ctx, response ctx, Returned, false)
    else Some (session ctx, request ctx, response ctx, Returned, true)
  end.

(** Source: src/modules/web/HttpSessionRequest.cpp:15-83, HttpSession::HandleRequest. *)
Definition HandleRequest (s : HS) (req : HttpRequest)
    : option (HS * HttpRequest * HttpResponse * outcome * bool) :=
  if bool_decide (as_handler (active_stream_ s) = None) then HandleBufferedRequest s req
  else '(s, req, r, go_on) ← CompleteStreamingRequest s req; Some (s, req, r, Returned, go_on).

(** *** Deadlines and input *)

Context (request_timeout_ : Z).

(** Source: src/modules/web/HttpSessionTimeout.cpp:66-76, HttpSession::SendRequestTimeoutResponse. *)
Definition SendRequestTimeoutResponse (s : HS) : option HS :=
  send_plain date s HttpStatus.kRequestTimeout (txt "Request Timeout").

(** Source: src/modules/web/HttpSessionTimeout.cpp:45-64, HttpSession::FailRequestDeadlineIfExpired.
    Times are in milliseconds; [req] is the parser's request. *)
Definition FailRequestDeadlineIfExpired (s : HS) (req : HttpRequest) (now : Z)
    : option (HS * HttpRequest * bool) :=
  if (request_timeout_ =? 0) || negb (request_in_progress_ s) then Some (s, req, false) else
  let elapsed := now - request_started_at_ s in
  if elapsed <? request_timeout_ then Some (s, req, false) else
  let '(s, req) := AbortStreamingRequest s req in
  s ← SendRequestTimeoutResponse s;
  Some (Disconnect s, req, true).

(** Source: src/modules/web/HttpSessionTimeout.cpp:30-43, HttpSession::StartOrFailRequestDeadline. *)
Definition StartOrFailRequestDeadline (s : HS) (req : HttpRequest) (now : Z)
    : option (HS * HttpRequest * bool) :=
  if request_timeout_ =? 0 then Some (s, req, false) else
  if request_in_progress_ s then FailRequestDeadlineIfExpired s req now
  else Some (set_started (set_in_progress s true) now, req, false).

(** llhttp, as in HttpParser.v. *)
Context {L : Type}.
Context (llhttp_execute : L → bytes → list (event * Z * L) * run_end (L := L)).
Context (llhttp_resume : L → L).

(** The whole connection object. *)
Record connection := MkConnection {
  c_session : HS;
  c_parser : HttpParser;
  c_llhttp : L;
  c_recv_buffer : recv_buffer
}.

(** The three callbacks the constructor registers with the parser; [None] in the
    world is undefined behaviour in one of them. *)
Definition lift {X} (f : HS → option (HS * HttpRequest * X)) (dflt : X)
    (w : option HS) (req : HttpRequest) : option HS * HttpRequest * X :=
  match w ≫= f with
  | Some (s, req, x) => (Some s, req, x)
  | None => (None, req, dflt)
  end.

(** Source: src/modules/web/HttpSession.cpp:40-49, HttpSession::HttpSession.
    The callbacks it registers.  An exception that escapes a handler ends the connection's processing. *)
Definition cb_request (w : option HS) (req : HttpRequest) : option HS * HttpRequest * bool :=
  lift (λ s, '(s, req, _, o, go_on) ← HandleRequest s req;
             match o with Returned => Some (s, req, go_on) | Threw => None end) false w req.
Definition cb_headers (w : option HS) (req : HttpRequest) : option HS * HttpRequest * HttpBodyMode :=
  lift (λ s, PrepareRequestBody s req) kDiscard w req.
Definition cb_body (w : option HS) (req : HttpRequest) (chunk : bytes)
    : option HS * HttpRequest * bool :=
  lift (λ s, HandleBodyChunk s req chunk) false w req.

(** [parser_.Feed(chars, len)]. *)
Definition feed (s : HS) (p : HttpParser) (l : L) (data : bytes) : option (HS * HttpParser * L * Z) :=
  '(w, p, l, consumed) ← Feed (Some cb_request) (Some cb_headers) (Some cb_body)
                             llhttp_execute llhttp_resume (Some s) p l data;
  s ← w;
  Some (s, p, l, consumed).

(** Source: src/modules/web/HttpSessionRecv.cpp:21-35, MapParseError. *)
Definition MapParseError (status : HttpParseStatus) : HttpStatus.t * bytes :=
  match status with
  | kUrlTooLong => (HttpStatus.kUriTooLong, txt "URI Too Long")
  | kHeadersTooLarge =>
    (HttpStatus.kRequestHeaderFieldsTooLarge, txt "Request Header Fields Too Large")
  | kBodyTooLarge => (HttpStatus.kPayloadTooLarge, txt "Payload Too Large")
  | kBadRequest | kOk => (HttpStatus.kBadRequest, txt "Bad Request")
  end.

(** Source: src/modules/web/HttpSessionRecv.cpp:48-67, HttpSession::HandleHttpRecv.
    The parse error branch, the same in both paths. *)
Definition parse_failed (s : HS) (p : HttpParser) : option (HS * HttpParser) :=
  if ActiveStreamResponseSent s then
    let '(s, req) := AbortStreamingRequest s (request_ p) in
    Some (Disconnect s, HttpParser.set_request p req)
  else
    let '(s, req) := AbortStreamingRequest s (request_ p) in
    let '(st, text) := MapParseError (HttpParser.status_ p) in
    s ← send_plain date s st text;
    Some (Disconnect s, HttpParser.set_request p req).

(** Source: src/modules/web/HttpSessionRecv.cpp:39-118, HttpSession::HandleHttpRecv. *)
Definition HandleHttpRecv (c : connection) (data : bytes) (now : Z) : option connection :=
  let '(MkConnection s p l rb) := c in
  '(s, req, failed) ← StartOrFailRequestDeadline s (request_ p) now;
  let p := HttpParser.set_request p req in
  if failed : bool then Some (MkConnection s p l rb) else
  if IsEmpty rb then
    '(s, p, l, consumed) ← feed s p l data;
    if HasError p then '(s, p) ← parse_failed s p; Some (MkConnection s p l rb) else
    if consumed <? zlen data then
      '(rb, append) ← Append rb (zdrop consumed data);
      if has_value append then Some (MkConnection s p l rb)
      else Some (MkConnection (Disconnect s) p l rb)
    else Some (MkConnection s p l rb)
  else
    '(rb, append) ← Append rb data;
    if negb (has_value append) then Some (MkConnection (Disconnect s) p l rb) else
    region ← ReadRegion rb;
    '(s, p, l, consumed) ← feed s p l region;
    if HasError p then '(s, p) ← parse_failed s p; Some (MkConnection s p l rb) else
    let rb := OnRead rb consumed in
    rb ← (if ShouldCompact rb then Compact rb else Some rb);
    Some (MkConnection s p l rb).

(** Source: src/modules/web/HttpSession.cpp:103-105, HttpSession::OnRecv. *)
Definition OnRecv (c : connection) (data : bytes) (now : Z) : option connection :=
  HandleHttpRecv c data now.

(** Source: src/modules/web/HttpSession.cpp:107-111, HttpSession::OnDisconnected. *)
Definition OnDisconnected (c : connection) : connection :=
  let s := ResetBodyStream (ResetFileStream (c_session c)) in
  let '(s, req) := AbortStreamingRequest s (request_ (c_parser c)) in
  MkConnection s (HttpParser.set_request (c_parser c) req) (c_llhttp c) (c_recv_buffer c).

(** Source: src/modules/web/HttpSession.cpp:122-124, HttpSession::OnTimeoutTick. *)
Definition OnTimeoutTick (c : connection) (now : Z) : option (connection * bool) :=
  '(s, req, failed) ← FailRequestDeadlineIfExpired (c_session c) (request_ (c_parser c)) now;
  Some (MkConnection s (HttpParser.set_request (c_parser c) req) (c_llhttp c) (c_recv_buffer c),
        failed).
End Requests.
