(* ===== verification/HttpSessionProofs.v ===== *)
(** * Properties of HTTP connections

    Theorems about HttpSession.v: a large body is streamed completely and in
    order, every request is answered, and what goes wrong with pipelined
    requests behind a streamed body and with a file that cannot be started. *)

From stdpp Require Import fin_maps.
From S2P Require Import Prelude Types Text RecvBuffer SendBuffer HttpRequest RadixTree.
From S2P Require Import HttpResponse HttpParser Router HttpSession.

#[local] Open Scope Z_scope.
#[local] Set Warnings "-clear-no-such-hyp".

(** ** Releasing a refused buffer *)

Lemma keeps_refl p : keeps p p.
Proof. by intros h _. Qed.

Lemma release_room p k n h cap d :
  pool_room p k n → view p h = Some (cap, d) →
  ∃ q, OnRelease p h = Some q ∧ pool_room q k n ∧ ∀ h', h' ≠ h → view q h' = view p h'.
Proof.
  intros (Hok&Hcs&Hn&Hc) Hv.
  assert (is_Some (buffers p !! h)) as [sb Hsb] by (apply view_buffers; [done|rewrite Hv; eauto]).
  destruct (OnRelease_spec p h sb Hok Hsb) as (q&Hq&Hqok&Hqc&_&Hqb&Hqv);
    [lia|]. exists q. split; [done|]. split; [|done]. split_and!; [done|lia|done|].
  rewrite Hqb, (map_size_delete_Some h (buffers p)) by eauto. lia.
Qed.

(** ** Streaming a body *)

Section Streaming.
Context {B : Type} `{BaseSession B}.
Abbreviation HS := (http_session B).
Implicit Types s : HS.

(** The outcome of handing a filled buffer to the base class. *)
Lemma base_Send_spec s h k n cap d :
  pool_room (hpool s) k n → view (hpool s) h = Some (cap, d) →
  ∃ s' ok, base_Send s h = Some (s', ok) ∧ pool_room (hpool s') k n ∧
    b_sent (base s') = (if ok then b_sent (base s) ++ [h] else b_sent (base s)) ∧
    body_stream_ s' = body_stream_ s ∧ file_stream_ s' = file_stream_ s ∧
    closed_fds s' = closed_fds s ∧ ok = (b_Send (base s) h).2 ∧
    if ok then hpool s' = hpool s else ∀ h', h' ≠ h → view (hpool s') h' = view (hpool s) h'.
Proof.
  intros Hp Hv. unfold base_Send. pose proof (b_Send_spec (base s) h) as Hb.
  destruct (b_Send (base s) h) as [b ok]. cbn [fst snd] in Hb. destruct ok.
  - exists (set_base s b), true. split; [done|]. split; [exact Hp|]. split; [exact Hb|]. done.
  - unfold release. cbn [hpool set_base].
    destruct (release_room _ k n h cap d Hp Hv) as (q&->&Hq&Hrest). cbn [mbind option_bind].
    exists (set_pool (set_base s b) q), false. split; [done|]. split; [exact Hq|].
    split; [exact Hb|]. done.
Qed.

(** The stream of [body] with [off] bytes already handed over. *)
Definition streaming (body : bytes) (off cs mc : Z) : BodyStreamState :=
  MkBodyStream (Some body) off cs mc true.

(** The buffers sent between two states hold the bytes [off .. off') of the
    body, and nothing else changed for the holders of buffers. *)
Definition delivered (body : bytes) (off : Z) (s s' : HS) (off' : Z) : Prop :=
  file_stream_ s' = file_stream_ s ∧ off ≤ off' ≤ zlen body ∧ keeps (hpool s) (hpool s') ∧
  ∃ hs ds, b_sent (base s') = b_sent (base s) ++ hs ∧ holds (hpool s') hs ds ∧
    List.concat ds = ztake (off' - off) (zdrop off body).

Lemma delivered_none body off s s' :
  0 ≤ off ≤ zlen body → file_stream_ s' = file_stream_ s → b_sent (base s') = b_sent (base s) →
  keeps (hpool s) (hpool s') → delivered body off s s' off.
Proof.
  intros Ho Hf Hb Hk. split; [done|]. split; [lia|]. split; [done|]. exists [], [].
  rewrite Hb, app_nil_r. split; [done|]. split; [constructor|]. by rewrite Z.sub_diag, ztake_0.
Qed.

Lemma delivered_trans body off mid off' s s1 s2 :
  0 ≤ off → delivered body off s s1 mid → delivered body mid s1 s2 off' →
  delivered body off s s2 off'.
Proof.
  intros H0 (Hf1&Ho1&Hk1&hs1&ds1&Hs1&Hh1&Hc1) (Hf2&Ho2&Hk2&hs2&ds2&Hs2&Hh2&Hc2).
  split; [congruence|]. split; [lia|]. split; [by eapply keeps_trans|].
  exists (hs1 ++ hs2), (ds1 ++ ds2).
  split; [by rewrite Hs2, Hs1, app_assoc|].
  split; [apply Forall2_app; [by eapply holds_keeps|done]|].
  rewrite List.concat_app, Hc1, Hc2, (ztake_zdrop_split (mid - off) (off' - off)) by lia.
  rewrite zdrop_zdrop by lia. f_equal. f_equal; [lia|]. f_equal. lia.
Qed.

Lemma delivered_eq body off off' s s1 s2 :
  delivered body off s s1 off' → file_stream_ s2 = file_stream_ s1 → base s2 = base s1 →
  hpool s2 = hpool s1 → delivered body off s s2 off'.
Proof. intros (Hf&?&?&?) Hf2 Hb Hp. unfold delivered. rewrite Hf2, Hb, Hp. auto. Qed.

Definition room (body : bytes) (off n : Z) (s : HS) : Prop :=
  pool_room (hpool s) (S (Z.to_nat (zlen body - off))) n.

(** One iteration: allocate, copy, send. *)
Lemma pump_piece body off cs mc n s :
  body_stream_ s = streaming body off cs mc → 1 ≤ cs ≤ n → 0 ≤ off < zlen body →
  room body off n s →
  let next := (zlen body - off) `min` cs in
  u32 next = next ∧ 0 < next ∧
  ∃ p r, Allocate (hpool s) next = Some (p, r) ∧ 
    match r with
    | Unexpected _ => keeps (hpool s) p
    | Value h => ∃ q, append_data p h (ztake next (zdrop off body)) = Some q ∧
        ∃ s2 ok, base_Send (set_offset (set_pool (set_pool s p) q) (off + next)) h = Some (s2, ok) ∧
          body_stream_ s2 = streaming body (off + next) cs mc ∧
          if ok then delivered body off s s2 (off + next) ∧ room body (off + next) n s2
          else delivered body off s s2 off
    end.
Proof.
  intros Hst Hcs Ho Hr next. pose proof Hr as (Hok&Hlt&_&_). pose proof (po_size _ Hok).
  assert (0 < next ≤ n ∧ next ≤ zlen body - off) as Hnext by lia.
  split; [apply u32_small; lia|]. split; [lia|]. set (d := ztake next (zdrop off body)).
  assert (zlen d = next) as Hd by (unfold d; apply zlen_ztake; rewrite zlen_zdrop; lia).
  destruct (fill_spec (hpool s) (Z.to_nat (zlen body - off)) n d Hr) as (p&r&Ha&Hres); [lia|].
  rewrite Hd, u32_small in Ha by lia. exists p, r. split; [done|]. destruct r as [h|e].
  2: { by destruct Hres as (_&?&_). }
  destruct Hres as (q&Hq&Hqr&Hv&Hnone&Hk). exists q. split; [done|].
  set (s1 := set_offset _ _).
  destruct (base_Send_spec s1 h _ n _ _ Hqr Hv) as (s2&ok&->&Hr2&Hs2&Hb2&Hf2&_&_&Hp2).
  exists s2, ok. split; [done|]. split; [rewrite Hb2; cbn; by rewrite Hst|]. destruct ok.
  - change (hpool s1) with q in Hp2. split; [|eapply pool_room_le; [|exact Hr2]; lia].
    split; [done|]. split; [lia|]. rewrite Hp2. split; [exact Hk|]. exists [h], [d].
    split; [exact Hs2|]. split; [repeat constructor; eauto|].
    cbn [List.concat]. rewrite app_nil_r. unfold d. f_equal. lia.
  - apply delivered_none; [lia|done|exact Hs2|]. intros h' Hh'. rewrite Hp2; [by apply Hk|].
    intros ->. destruct Hh' as [x Hx]. unfold view in Hx. by rewrite Hnone in Hx.
Qed.

Lemma PumpBodyStream_loop_spec fuel i s body off cs mc n :
  body_stream_ s = streaming body off cs mc → 1 ≤ cs ≤ n → 0 ≤ off ≤ zlen body →
  zlen body - off < Z.of_nat fuel → room body off n s →
  ∃ s' ok off', PumpBodyStream_loop fuel i s = Some (s', ok) ∧ delivered body off s s' off' ∧
    if ok then (off' = zlen body ∧ bs_active (body_stream_ s') = false ∨
                off' < zlen body ∧ body_stream_ s' = streaming body off' cs mc ∧ room body off' n s') ∧
               (i < mc → off < zlen body → off < off')
    else bs_active (body_stream_ s') = false.
Proof.
  revert i s off. induction fuel as [|fuel IH]; intros i s off Hst Hcs Ho Hf Hr; [lia|].
  cbn [PumpBodyStream_loop]. rewrite Hst. cbn [streaming bs_body bs_offset bs_chunk_size
    bs_max_chunks_per_write mbind option_bind].
  destruct (Z.ltb_spec i mc) as [Hi|Hi], (Z.ltb_spec off (zlen body)) as [Hlt|Hge]; cbn [andb].
  2-4: eexists _, true, off; (split; [done|]); (split; [apply delivered_none; try done;
         [by destruct (_ <=? _)|by destruct (_ <=? _)|destruct (_ <=? _); apply keeps_refl]|]);
       (split; [|lia]); destruct (Z.leb_spec (zlen body) off); (left; split; [lia|done]) ||
       (right; split; [lia|done]).
  destruct (pump_piece body off cs mc n s Hst Hcs ltac:(lia) Hr) as (Hu&Hpos&p&r&Ha&Hres).
  rewrite Hu, Ha. cbn [mbind option_bind]. destruct r as [h|e].
  2: { eexists _, false, off. split; [done|]. split; [|done].
       apply delivered_none; [lia|done|apply b_Disconnect_spec|exact Hres]. }
  destruct Hres as (q&Hq&s2&ok&Hs&Hst2&Hd). cbn [hpool set_pool]. rewrite Hq.
  cbn [mbind option_bind]. rewrite Hs. cbn [mbind option_bind]. destruct ok; cbn [negb].
  2: { eexists _, false, off. split; [done|]. split; [|done]. by eapply delivered_eq. }
  destruct Hd as [Hd Hr2]. pose proof Hd as (_&?&_).
  destruct (IH (i + 1) s2 (off + (zlen body - off) `min` cs) Hst2 Hcs) as (s'&ok&off'&->&Hd'&Hend);
    [lia|lia|done|].
  exists s', ok, off'. split; [done|]. pose proof Hd' as (_&?&_).
  split; [by eapply delivered_trans; [lia|..]|]. destruct ok; [|done].
  destruct Hend as [Hend _]. split; [done|]. lia.
Qed.

(** One call of PumpBodyStream on an active stream. *)
Lemma PumpBodyStream_spec s body off cs mc n :
  body_stream_ s = streaming body off cs mc → 1 ≤ cs ≤ n → 1 ≤ mc → 0 ≤ off < zlen body →
  room body off n s →
  ∃ s' ok off', PumpBodyStream s = Some (s', ok) ∧ delivered body off s s' off' ∧
    if ok then off < off' ∧
               (off' = zlen body ∧ bs_active (body_stream_ s') = false ∨
                off' < zlen body ∧ body_stream_ s' = streaming body off' cs mc ∧ room body off' n s')
    else bs_active (body_stream_ s') = false.
Proof.
  intros Hst Hcs Hmc Ho Hr. unfold PumpBodyStream. rewrite Hst.
  cbn [streaming bs_active bs_body bs_offset negb].
  rewrite (proj2 (Z.leb_gt _ _)) by lia.
  destruct (PumpBodyStream_loop_spec (S (length body)) 0 s body off cs mc n Hst Hcs)
    as (s'&ok&off'&->&Hd&Hend); [lia|unfold zlen; lia|done|].
  exists s', ok, off'. split; [done|]. split; [done|]. destruct ok; [|done].
  destruct Hend as [Hend Hprog]. split; [apply Hprog; lia|done].
Qed.

(** [k] times the socket drains while no pump has failed; the boolean tells
    whether one did. *)
Fixpoint drains (k : nat) (s : HS) : option (HS * bool) :=
  match k with
  | O => Some (s, true)
  | S k =>
    '(s, ok) ← PumpBodyStream s;
    if ok : bool then drains k s else Some (s, false)
  end.

(** That is what OnSocketDrained runs when no file is streamed. *)
Lemma OnSocketDrained_pump s :
  fs_active (file_stream_ s) = false → bs_active (body_stream_ s) = true →
  OnSocketDrained s = fst <$> PumpBodyStream s.
Proof.
  intros Hf Hb. unfold OnSocketDrained. rewrite Hf. cbn [mbind option_bind]. rewrite Hb.
  by destruct (PumpBodyStream s) as [[? ?]|].
Qed.

Lemma drains_inactive k s : bs_active (body_stream_ s) = false → drains k s = Some (s, true).
Proof.
  intros Hs. induction k as [|k IH]; cbn [drains]; [done|].
  unfold PumpBodyStream. rewrite Hs. cbn. apply IH.
Qed.

Lemma drains_spec k s body off cs mc n :
  body_stream_ s = streaming body off cs mc → 1 ≤ cs ≤ n → 1 ≤ mc → 0 ≤ off < zlen body →
  room body off n s →
  ∃ s' ok off', drains k s = Some (s', ok) ∧ delivered body off s s' off' ∧
    (ok = true → (bs_active (body_stream_ s') = true ∧ off + Z.of_nat k ≤ off' < zlen body) ∨
                 (bs_active (body_stream_ s') = false ∧ off' = zlen body)).
Proof.
  intros Hst Hcs Hmc. revert s off Hst. induction k as [|k IH]; intros s off Hst Ho Hr.
  - exists s, true, off. split; [done|]. split; [apply delivered_none; [lia|done|done|apply keeps_refl]|].
    intros _. left. rewrite Hst. split; [done|lia].
  - cbn [drains].
    destruct (PumpBodyStream_spec s body off cs mc n Hst Hcs Hmc Ho Hr) as (s1&ok&off1&->&Hd&Hend).
    cbn [mbind option_bind]. destruct ok; [|by exists s1, false, off1].
    destruct Hend as [Hlt [(->&Hin)|(Hlt1&Hst1&Hr1)]].
    + rewrite drains_inactive by done. exists s1, true, (zlen body). auto.
    + destruct (IH s1 off1 Hst1) as (s2&ok&off2&->&Hd2&Hend2); [lia|done|].
      exists s2, ok, off2. split; [done|]. split; [by eapply delivered_trans; [lia|..]|].
      intros Hok. destruct (Hend2 Hok) as [[? ?]|?]; [left; split; [done|lia]|auto].
Qed.

(** C12: a large body is streamed completely and in order: starting the stream and
    letting the socket drain any number of times, the buffers handed to the
    session after the header always hold a prefix of the body, no byte lost,
    repeated or reordered; and unless a pump fails (the pool is exhausted or the
    session refuses a buffer, either of which ends the stream) each drain makes
    progress, so that after at most one drain per byte the whole body has been
    sent and the stream is inactive. *)
Theorem body_stream_exact s h cap hdr body chunk max_chunks n k :
  fs_active (file_stream_ s) = false → bs_active (body_stream_ s) = false → body ≠ [] →
  view (hpool s) h = Some (cap, hdr) → (b_Send (base s) h).2 = true →
  chunk `max` 4096 ≤ n → pool_room (hpool s) (S (length body)) n →
  ∃ s1 ok1 s2 ok2 hs ds off,
    StartBodyStream s (Some h) (Some body) chunk max_chunks = Some (s1, ok1) ∧
    (if ok1 then drains k s1 else Some (s1, false)) = Some (s2, ok2) ∧
    b_sent (base s2) = b_sent (base s) ++ h :: hs ∧
    holds (hpool s2) (h :: hs) (hdr :: ds) ∧ List.concat ds = ztake off body ∧
    (ok2 = true → bs_active (body_stream_ s2) = true ∧ Z.of_nat k < off < zlen body ∨
                  bs_active (body_stream_ s2) = false ∧ off = zlen body).
Proof.
  intros Hfs Hbs Hne Hv Hsend Hn Hr. unfold StartBodyStream. rewrite Hfs, Hbs. cbn [orb].
  set (st := MkBodyStream _ _ _ _ _).
  destruct (base_Send_spec (set_body_stream s st) h _ n _ _ Hr Hv)
    as (s0&ok&->&Hr0&Hs0&Hb0&Hf0&_&Hok&Hp0).
  cbn [base set_body_stream] in Hok, Hs0. rewrite Hsend in Hok. subst ok.
  cbn [mbind option_bind negb hpool set_body_stream] in *.
  assert (0 < zlen body) as Hlen.
  { destruct body; [done|]. rewrite zlen_cons. pose proof (zlen_nonneg body). lia. }
  assert (room body 0 n s0) as Hroom.
  { unfold room. eapply pool_room_le; [|exact Hr0]. unfold zlen. lia. }
  assert (holds (hpool s0) [h] [hdr]) as Hh0.
  { rewrite Hp0. repeat constructor. eauto. }
  destruct (PumpBodyStream_spec s0 body 0 (chunk `max` 4096) (max_chunks `max` 1) n Hb0)
    as (s1&ok1&off1&->&Hd1&Hend1); [lia|lia|lia|done|].
  assert (∀ s2 off, delivered body 0 s0 s2 off → ∃ hs ds,
            b_sent (base s2) = b_sent (base s) ++ h :: hs ∧
            holds (hpool s2) (h :: hs) (hdr :: ds) ∧ List.concat ds = ztake off body) as Hout.
  { intros s2 off (_&_&Hk&hs&ds&Hs2&Hh2&Hc). exists hs, ds.
    split; [by rewrite Hs2, Hs0, <-app_assoc|].
    split; [|by rewrite Hc, Z.sub_0_r]. change (holds (hpool s2) ([h] ++ hs) ([hdr] ++ ds)).
    apply Forall2_app; [|done].
    by eapply holds_keeps. }
  destruct ok1.
  2: { destruct (Hout s1 off1 Hd1) as (hs&ds&?&?&?).
       exists s1, false, s1, false, hs, ds, off1. by split_and!. }
  destruct Hend1 as [Hpos [(->&Hin)|(Hlt&Hst1&Hr1)]].
  - destruct (Hout s1 _ Hd1) as (hs&ds&?&?&?).
    exists s1, true, s1, true, hs, ds, (zlen body). rewrite drains_inactive by done.
    split_and!; try done. auto.
  - destruct (drains_spec k s1 body off1 (chunk `max` 4096) (max_chunks `max` 1) n Hst1)
      as (s2&ok2&off2&Hdr&Hd2&Hend2); [lia|lia|lia|done|].
    destruct (Hout s2 off2) as (hs&ds&?&?&?); [by eapply delivered_trans; [lia|..]|].
    exists s1, true, s2, ok2, hs, ds, off2. split_and!; try done.
    intros Hok2. destruct (Hend2 Hok2) as [[? ?]|?]; [left; split; [done|lia]|auto].
Qed.

(** Pipelining behind a streamed body breaks the response framing: while a
    body is being streamed, the response to the next pipelined request is queued
    at once, so its buffer precedes the rest of the body, which the next drain
    sends on (at least one more byte of it unless the pump fails); and a
    second response that needs streaming itself is dropped: StartBodyStream
    refuses it without sending anything. *)
Theorem pipelined_response_interleaves s h2 cap resp2 body off cs mc n h3 body3 :
  fs_active (file_stream_ s) = false → body_stream_ s = streaming body off cs mc →
  1 ≤ cs ≤ n → 1 ≤ mc → 0 ≤ off < zlen body → room body off n s →
  view (hpool s) h2 = Some (cap, resp2) → (b_Send (base s) h2).2 = true →
  StartBodyStream s (Some h3) (Some body3) cs mc = Some (s, false) ∧
  ∃ s1 s2 hs ds off', SendResponse s h2 = Some s1 ∧ OnSocketDrained s1 = Some s2 ∧
    b_sent (base s2) = b_sent (base s) ++ h2 :: hs ∧
    holds (hpool s2) (h2 :: hs) (resp2 :: ds) ∧
    List.concat ds = ztake (off' - off) (zdrop off body) ∧
    ∃ ok, PumpBodyStream s1 = Some (s2, ok) ∧ (ok = true → off < off').
Proof.
  intros Hfs Hst Hcs Hmc Ho Hr Hv Hsend. split.
  { unfold StartBodyStream. by rewrite Hst, orb_true_r. }
  destruct (base_Send_spec s h2 _ n _ _ Hr Hv) as (s1&ok&Hs&Hr1&Hs1&Hb1&Hf1&_&Hok&Hp1).
  rewrite Hsend in Hok. subst ok.
  destruct (PumpBodyStream_spec s1 body off cs mc n) as (s2&ok&off'&Hp&Hd&Hend);
    [by rewrite Hb1|done|done|done|done|].
  pose proof Hd as (_&_&Hk&hs&ds&Hs2&Hh2&Hc). exists s1, s2, hs, ds, off'.
  split; [unfold SendResponse; by rewrite Hs|].
  split; [rewrite OnSocketDrained_pump, Hp; [done|by rewrite Hf1|by rewrite Hb1, Hst]|].
  split; [by rewrite Hs2, Hs1, <-app_assoc|].
  split; [|split; [done|]].
  - change (holds (hpool s2) ([h2] ++ hs) ([resp2] ++ ds)).
    apply Forall2_app; [|done]. eapply holds_keeps; [exact Hk|].
    rewrite Hp1. repeat constructor. eauto.
  - exists ok. split; [done|]. intros ->. tauto.
Qed.
End Streaming.

(** ** Every request is answered *)

Lemma Build_state date r p r' q buf : Build date r p = Some (r', q, buf) → state_ r' = state_ r.
Proof.
  unfold Build. intros Hb. apply bind_Some in Hb as ([p1 res]&_&Hb).
  destruct res as [h|e]; [|by simplify_eq]. apply bind_Some in Hb as (p2&_&Hb). by simplify_eq.
Qed.

Lemma Send_state date r p r' q es : Send date r p = Some (r', q, es) → state_ r' = kSent.
Proof.
  unfold Send. intros Hs. case_decide; [by simplify_eq|].
  destruct (bound (set_state r kSent)); cbn [negb] in Hs; [|by simplify_eq].
  apply bind_Some in Hs as ([[r1 p1] buf]&Hb&Hs).
  assert (state_ r1 = kSent) as Hr1.
  { destruct (_ <=? _); [|by simplify_eq]. by apply Build_state in Hb. }
  destruct buf as [h|]; [by simplify_eq|]. apply bind_Some in Hs as ([p2 hd]&_&Hs).
  destruct hd as [h|]; [|by simplify_eq]. case_match; by simplify_eq.
Qed.

Section Answers.
Context {B : Type} `{BaseSession B}.
Context (date : bytes) (rt : Router).
Abbreviation HS := (http_session B).
Abbreviation context := (RequestContext HS).
Context (call : callable → context → context * outcome).
Context (log_request log_slow_request : bool).
Implicit Types s : HS.

Lemma send_response_marks : send_marks (send_response date : HS → _).
Proof.
  intros s r s' r' Hs. unfold send_response in Hs.
  apply bind_Some in Hs as ([[r1 p] es]&Hsend&Hs). apply bind_Some in Hs as (s1&_&Hs).
  simplify_eq. by apply Send_state in Hsend.
Qed.

(** *** What the application can do

    A callable uses the request, the response and the session through their public
    operations: it changes the request and the response but not the private state of
    the response, sends it, defers it, and uses the session in any way that does not
    take back what was sent ([SendFile] is left out here). *)
Inductive app_step : context → context → Prop :=
| app_edit s req req' r r' : state_ r' = state_ r → bound r' = bound r →
    app_step (MkContext s req r) (MkContext s req' r')
| app_send ctx ctx' : Send_on (send_response date) ctx = Some ctx' → app_step ctx ctx'
| app_defer ctx : app_step ctx (DeferResponse ctx).1
| app_session s s' req r : b_sent (base s) `prefix_of` b_sent (base s') →
    app_step (MkContext s req r) (MkContext s' req r).

Definition api_only : Prop := ∀ k ctx, rtc app_step ctx (call k ctx).1.

(** *** What an answer is *)

Definition head_of (r : HttpResponse) : bytes := SerializeHeaders date r (zlen (body_ r)).

(** Between [s] and [s'] the response [r] was handed over: the buffers accepted since hold the
    bytes of the response from the first on, and what is left of it is the rest of the
    body stream; or else the pool has no chunk for it, another stream is going on,
    the session refuses its first buffer, or the first pump of its body fails. *)
Definition handed (s : HS) (r : HttpResponse) (s' : HS) : Prop :=
  pool_room (hpool s) (S (S (S (length (body_ r))))) (kInlineResponseMaxBytes `max` zlen (head_of r)) →
  (∃ hs ds rest, b_sent (base s') = b_sent (base s) ++ hs ∧ holds (hpool s') hs ds ∧
     List.concat ds ++ rest = wire date r ∧
     (rest = [] ∨ hs ≠ [] ∧ bs_active (body_stream_ s') = true ∧
        ∃ body, bs_body (body_stream_ s') = Some body ∧ rest = zdrop (bs_offset (body_stream_ s')) body)) ∨
  (chunk_size_ (hpool s) < zlen (head_of r) ∨ max_chunks_ (hpool s) ≤ zlen (active_chunks_ (hpool s)) + 1) ∨
  fs_active (file_stream_ s) || bs_active (body_stream_ s) = true ∨
  (∃ h, (b_Send (base s) h).2 = false) ∨
  (∃ h s1, b_sent (base s1) = b_sent (base s) ++ [h] ∧ Data (hpool s1) h = Some (head_of r) ∧
     PumpBodyStream s1 = Some (s', false)).

Definition answered_since (s : HS) (ctx : context) : Prop :=
  ∃ s0 r0 s1, b_sent (base s) `prefix_of` b_sent (base s0) ∧ state_ r0 ≠ kSent ∧ handed s0 r0 s1 ∧
    b_sent (base s1) `prefix_of` b_sent (base (session ctx)).

(** Or its completion is announced to the session, which stays open for it. *)
Definition deferred_since (s : HS) (ctx : context) : Prop :=
  ∃ s0, b_sent (base s) `prefix_of` b_sent (base s0) ∧
    b_sent (base (BeginDeferredResponse s0)) `prefix_of` b_sent (base (session ctx)).

(** *** Nothing sent is taken back *)

Lemma base_Send_prefix s h s' ok : base_Send s h = Some (s', ok) → b_sent (base s) `prefix_of` b_sent (base s').
Proof.
  unfold base_Send. pose proof (b_Send_spec (base s) h) as Hb. destruct (b_Send (base s) h) as [b []]; cbn in Hb.
  - intros [= <- _]. cbn. rewrite Hb. by eexists.
  - unfold release. destruct (OnRelease _ h); [|done]. intros [= <- _]. cbn. by rewrite Hb.
Qed.

Lemma pump_prefix fuel i s s' ok : PumpBodyStream_loop fuel i s = Some (s', ok) →
  b_sent (base s) `prefix_of` b_sent (base s').
Proof.
  revert i s. induction fuel as [|fuel IH]; intros i s; [done|]. cbn [PumpBodyStream_loop].
  destruct (bs_body _) as [body|]; [|done]. cbn [mbind option_bind].
  destruct (_ && _); [|intros [= <- _]; by destruct (_ <=? _)].
  intros Hb. apply bind_Some in Hb as ([p r]&_&Hb). destruct r as [h|e].
  - apply bind_Some in Hb as (q&_&Hb). apply bind_Some in Hb as ([s1 sent]&Hs&Hb).
    apply base_Send_prefix in Hs. cbn in Hs. destruct sent; cbn [negb] in Hb.
    + etrans; [exact Hs|]. by eapply IH.
    + by injection Hb as <- _.
  - injection Hb as <- _. cbn. by rewrite b_Disconnect_spec.
Qed.

Lemma StartBodyStream_prefix s h body cs mc s' ok :
  StartBodyStream s (Some h) (Some body) cs mc = Some (s', ok) → b_sent (base s) `prefix_of` b_sent (base s').
Proof.
  unfold StartBodyStream. destruct (_ || _); [by intros [= <- _]|].
  intros Hb. apply bind_Some in Hb as ([s1 sent]&Hs&Hb). apply base_Send_prefix in Hs. cbn in Hs.
  etrans; [exact Hs|]. destruct sent; cbn [negb] in Hb; [|by injection Hb as <- _].
  revert Hb. unfold PumpBodyStream. destruct (negb _); [by intros [= <- _]|].
  destruct (bs_body _); [|by intros [= <- _]]. destruct (_ <=? _); [by intros [= <- _]|]. apply pump_prefix.
Qed.

Lemma Send_effects r p r' q es : Send date r p = Some (r', q, es) →
  es = [] ∨ (∃ h, es = [CallSendResponse h]) ∨ ∃ h b cs mc, es = [CallStartBodyStream h b cs mc].
Proof.
  unfold Send. intros Hs. case_decide; [by simplify_eq; left|].
  destruct (negb _); [by simplify_eq; left|].
  apply bind_Some in Hs as ([[r1 p1] buf]&_&Hs). destruct buf as [h|]; [simplify_eq; eauto|].
  apply bind_Some in Hs as ([p2 hd]&_&Hs). destruct hd as [h|]; [|by simplify_eq; left].
  case_match; simplify_eq; eauto 10.
Qed.

Lemma send_response_prefix s r s' r' : send_response date s r = Some (s', r') →
  b_sent (base s) `prefix_of` b_sent (base s').
Proof.
  unfold send_response. intros Hs. apply bind_Some in Hs as ([[r1 p] es]&He&Hs).
  apply bind_Some in Hs as (s1&Hp&[= <- <-]).
  destruct (Send_effects _ _ _ _ _ He) as [->|[[h ->]|(h&b&cs&mc&->)]]; cbn [perform] in Hp.
  - by injection Hp as <-.
  - apply bind_Some in Hp as (s2&Hs&[= <-]). unfold SendResponse in Hs.
    apply bind_Some in Hs as ([s3 ok]&Hs&[= <-]). by apply base_Send_prefix in Hs.
  - apply bind_Some in Hp as ([s2 ok]&Hs&[= <-]). by apply StartBodyStream_prefix in Hs.
Qed.

(** *** A response that is sent is handed over *)

Lemma Data_view p h d : Data p h = Some d → ∃ cap, view p h = Some (cap, d).
Proof.
  intros Hd. unfold view. destruct (buffers p !! h) as [sb|] eqn:E.
  - exists (alloc_size_ sb). cbn. by rewrite Hd.
  - unfold Data in Hd. by rewrite E in Hd.
Qed.

Lemma stream_handed s0 p h d r cs mc s' ok n :
  pool_room p (S (length (body_ r))) n → cs `max` 4096 ≤ n → keeps (hpool s0) p →
  Data p h = Some d → d ++ body_ r = wire date r → body_ r ≠ [] → d = head_of r →
  StartBodyStream (set_pool s0 p) (Some h) (Some (body_ r)) cs mc = Some (s', ok) → handed s0 r s'.
Proof.
  intros Hp Hn Hk Hd Hw Hb Hhd Hs _. destruct (Data_view _ _ _ Hd) as [cap Hv].
  unfold StartBodyStream in Hs. cbn [file_stream_ body_stream_ set_pool] in Hs.
  destruct (fs_active (file_stream_ s0) || bs_active (body_stream_ s0)) eqn:Hbusy; [by right; right; left|].
  set (s1 := set_body_stream _ _) in Hs.
  destruct (base_Send_spec s1 h _ n _ _ Hp Hv) as (s2&sent&Hsd&Hr2&Hs2&Hb2&_&_&Hok&Hp2).
  rewrite Hsd in Hs. cbn [mbind option_bind] in Hs. change (base s1) with (base s0) in Hs2, Hok.
  destruct sent; cbn [negb] in Hs; [|right; right; right; left; by exists h].
  change (hpool s1) with p in Hp2.
  assert (0 < zlen (body_ r)) as Hlen.
  { destruct (body_ r); [done|]. rewrite zlen_cons. pose proof (zlen_nonneg l). lia. }
  destruct (PumpBodyStream_spec s2 (body_ r) 0 (cs `max` 4096) (mc `max` 1) n) as (s3&ok3&off&Hpump&Hdel&Hend);
    [by rewrite Hb2|lia|lia|lia|unfold room; eapply pool_room_le; [|exact Hr2]; unfold zlen; lia|].
  rewrite Hpump in Hs. injection Hs as -> ->.
  destruct ok; [|right; right; right; right; exists h, s2; rewrite Hp2, Hd, Hhd; done].
  destruct Hdel as (_&Hoff&Hk3&hs&ds&Hs3&Hh3&Hc3). left. exists (h :: hs), (d :: ds), (zdrop off (body_ r)).
  split; [by rewrite Hs3, Hs2, <- app_assoc|]. split.
  { constructor; [|done]. exists cap. rewrite Hk3; rewrite Hp2; [done|by eexists]. }
  split.
  { rewrite <- Hw. cbn. rewrite Hc3, Z.sub_0_r, zdrop_0, <- app_assoc. f_equal. apply ztake_zdrop. }
  destruct Hend as [_ [[-> _]|(_&Hst&_)]]; [left; by apply zdrop_all|right].
  rewrite Hst. cbn. split; [done|]. split; [done|]. by exists (body_ r).
Qed.

Lemma send_response_hands s r s' r' : bound r = true → state_ r ≠ kSent →
  send_response date s r = Some (s', r') → handed s r s'.
Proof.
  intros Hb Hst Hs Hroom. set (n := kInlineResponseMaxBytes `max` zlen (head_of r)) in *.
  destruct (Send_once date r (hpool s) (S (length (body_ r))) n Hb Hst Hroom) as (r1&q&es&He&_&Hk&Hq&_&Hes);
    [unfold n; lia|unfold n, head_of; lia|].
  unfold send_response in Hs. rewrite He in Hs. cbn [mbind option_bind] in Hs.
  apply bind_Some in Hs as (s1&Hp&[= <- <-]). destruct es as [|e [|]]; [|clear He|by destruct Hes].
  { right. left. exact Hes. }
  destruct Hes as [Hw Hof]. destruct e as [h|h body cs mc|? ? ? ? ?|?]; cbn in Hof; try done; cbn [perform] in Hp.
  - cbn in Hw. destruct (Data_view _ _ _ Hw) as [cap Hv]. unfold SendResponse in Hp.
    destruct (base_Send_spec (set_pool s q) h _ n _ _ Hq Hv) as (s2&sent&Hsd&_&Hs2&_&_&_&Hok&Hp2).
    rewrite Hsd in Hp. cbn in Hp. injection Hp as <-. destruct sent; [|right; right; right; left; by exists h].
    left. exists [h], [wire date r], []. cbn in Hs2, Hp2. rewrite Hp2. split; [done|]. split; [repeat constructor; by exists cap|].
    cbn. rewrite !app_nil_r. auto.
  - destruct Hof as (Hnb&->&Hne&->&->). cbn [effect_wire] in Hw. apply bind_Some in Hw as (d&Hd&Hw).
    injection Hw as Hw. apply bind_Some in Hp as ([s2 ok]&Hstart&Hp). injection Hp as <-.
    assert (d = head_of r) as Hhd by (unfold wire, payload in Hw; rewrite Hnb in Hw; by apply app_inv_tail in Hw).
    assert (kBodyStreamChunkSize `max` 4096 ≤ n) by (unfold n, kInlineResponseMaxBytes, kBodyStreamChunkSize; lia).
    eapply (stream_handed s q h d r); [exact Hq|done|done|done|done|done|done|exact Hstart|exact Hroom].
Qed.

(** *** Every step of the application keeps the account *)

Definition account (s : HS) (ctx : context) : Prop :=
  bound (response ctx) = true ∧ b_sent (base s) `prefix_of` b_sent (base (session ctx)) ∧
  match state_ (response ctx) with
  | kOpen => True
  | kSent => answered_since s ctx
  | kDeferred => deferred_since s ctx
  end.

Lemma since_mono s ctx ctx' : b_sent (base (session ctx)) `prefix_of` b_sent (base (session ctx')) →
  (answered_since s ctx → answered_since s ctx') ∧ (deferred_since s ctx → deferred_since s ctx').
Proof.
  intros Hp. split.
  - intros (s0&r0&s1&?&?&?&?). exists s0, r0, s1. split_and!; try done. by etrans.
  - intros (s0&?&?). exists s0. split; [done|]. by etrans.
Qed.

Lemma account_mono s ctx ctx' : b_sent (base (session ctx)) `prefix_of` b_sent (base (session ctx')) →
  state_ (response ctx') = state_ (response ctx) → bound (response ctx') = bound (response ctx) →
  account s ctx → account s ctx'.
Proof.
  intros Hp Hst Hb (Hbd&Hpre&Hm). destruct (since_mono s ctx ctx' Hp) as [H1 H2].
  split; [congruence|]. split; [by etrans|]. rewrite Hst. destruct (state_ (response ctx)); auto.
Qed.

Lemma Send_bound r p r' q es : Send date r p = Some (r', q, es) → bound r' = bound r.
Proof.
  unfold Send. intros Hs. case_decide; [by simplify_eq|].
  destruct (negb _); [by simplify_eq|].
  apply bind_Some in Hs as ([[r1 p1] buf]&Hb&Hs).
  assert (bound r1 = bound r) as Hr1.
  { destruct (_ <=? _); [|by simplify_eq]. unfold Build in Hb. apply bind_Some in Hb as ([p2 res]&_&Hb).
    destruct res; [|by simplify_eq]. apply bind_Some in Hb as (p3&_&Hb). by simplify_eq. }
  destruct buf as [h|]; [by simplify_eq|]. apply bind_Some in Hs as ([p2 hd]&_&Hs).
  destruct hd as [h|]; [|by simplify_eq]. case_match; by simplify_eq.
Qed.

Lemma account_send s ctx ctx' : Send_on (send_response date) ctx = Some ctx' → account s ctx → account s ctx'.
Proof.
  intros Hs (Hb&Hp&Hm). unfold Send_on in Hs. apply bind_Some in Hs as ([s1 r1]&Hs&[= <-]).
  pose proof (send_response_prefix _ _ _ _ Hs) as Hp1. pose proof (send_response_marks _ _ _ _ Hs) as Hst.
  assert (bound r1 = true) as Hb1.
  { unfold send_response in Hs. apply bind_Some in Hs as ([[r2 p2] es]&He&Hs). apply bind_Some in Hs as (s2&_&[= _ <-]).
    by rewrite (Send_bound _ _ _ _ _ He). }
  split; [done|]. split; [by etrans|]. cbn [response session]. rewrite Hst.
  destruct (decide (state_ (response ctx) = kSent)) as [E|E].
  - rewrite E in Hm. by apply (since_mono s ctx (MkContext s1 (request ctx) r1)).
  - exists (session ctx), (response ctx), s1. split_and!; [done|done|by eapply send_response_hands|done].
Qed.

Lemma account_step s ctx ctx' : app_step ctx ctx' → account s ctx → account s ctx'.
Proof.
  destruct 1 as [s1 req req' r r' Hst Hb|ctx ctx' Hs|ctx|s1 s2 req r Hp].
  - by apply account_mono.
  - by apply account_send.
  - intros (Hb&Hp&Hm). unfold DeferResponse, DeferredResponse_new, MarkDeferred. cbn.
    assert (b_sent (base (session ctx)) `prefix_of` b_sent (base (BeginDeferredResponse (session ctx)))) as Hpre.
    { cbn. by rewrite b_BeginAppIo_spec. }
    unfold account, deferred_since. cbn [session response request].
    case_decide as E; cbn in E; cbn; rewrite ?E; (split; [done|]); (split; [by etrans|]).
    + by exists (session ctx).
    + destruct (since_mono s ctx (MkContext (BeginDeferredResponse (session ctx)) (request ctx) (response ctx)) Hpre) as [H1 H2].
      destruct (state_ (response ctx)); first [done|exact (H1 Hm)|exact (H2 Hm)].
  - by apply account_mono.
Qed.

Lemma account_steps s ctx ctx' : rtc app_step ctx ctx' → account s ctx → account s ctx'.
Proof. induction 1; [done|]. intros Ha. by eapply IHrtc, account_step. Qed.

(** *** Dispatch is made of such steps *)

Lemma step_response ctx r : state_ r = state_ (response ctx) → bound r = bound (response ctx) →
  rtc app_step ctx (set_response ctx r).
Proof. intros ? ?. apply rtc_once. destruct ctx. by apply app_edit. Qed.

Lemma step_request ctx req : rtc app_step ctx (set_request ctx req).
Proof. apply rtc_once. destruct ctx. by apply app_edit. Qed.

Lemma step_answer ctx st text ctx' : answer (send_response date) ctx st text = Some ctx' → rtc app_step ctx ctx'.
Proof.
  unfold answer. intros Ha. etrans; [|apply rtc_once, app_send, Ha]. by apply step_response.
Qed.

Hypothesis Happ : api_only.

Lemma run_middlewares_steps ms ctx : rtc app_step ctx (run_middlewares call ms ctx).1.1.
Proof.
  revert ctx. induction ms as [|m ms IH]; intros ctx; cbn; [done|].
  pose proof (Happ m ctx) as Hm. destruct (call m ctx) as [ctx1 []]; cbn in Hm; [|done].
  destruct (IsSent _); [done|]. by etrans.
Qed.

Lemma Dispatch_steps ctx ctx' o : Dispatch (send_response date) call rt ctx = Some (ctx', o) → rtc app_step ctx ctx'.
Proof.
  unfold Dispatch. pose proof (run_middlewares_steps (middlewares_ rt) ctx) as Hm.
  destruct (run_middlewares _ _ _) as [[ctx1 o1] stopped]. cbn in Hm. destruct stopped; [by intros [= <- _]|].
  intros Hd. apply bind_Some in Hd as ([ctx2 res]&Hr&Hd). etrans; [exact Hm|].
  assert (rtc app_step ctx1 ctx2) as H2.
  { unfold match_request in Hr. apply bind_Some in Hr as (r1&_&Hr). case_decide; [|by simplify_eq].
    destruct (rm_handler r1); [injection Hr as <- _|apply bind_Some in Hr as (g&_&[= <- _])]; by apply step_response. }
  etrans; [exact H2|]. destruct (rm_handler res) as [h|]; [|destruct (rm_path_exists res)].
  - unfold run_handler in Hd. set (ctx3 := set_request ctx2 _) in Hd. pose proof (Happ h ctx3) as H3.
    assert (rtc app_step ctx2 ctx3) as H23 by apply step_request.
    destruct (call h ctx3) as [ctx4 o4]. cbn in H3. apply bind_Some in Hd as (ctx5&H5&[= <- _]).
    etrans; [exact H23|]. etrans; [exact H3|].
    etrans; [|apply step_request]. destruct o4; [by injection H5 as <-|].
    destruct (IsSent _); [by injection H5 as <-|by eapply step_answer].
  - unfold not_allowed in Hd. apply bind_Some in Hd as (ctx3&H3&[= <- _]).
    etrans; [|apply rtc_once, app_send, H3]. apply step_response; by case_match.
  - unfold not_found in Hd. apply bind_Some in Hd as (ctx3&H3&[= <- _]). by eapply step_answer.
Qed.

(** Sending unless it was sent or deferred. *)
Lemma ensure_answered s (ctx ctx' : context) : account s ctx →
  (if negb (IsSent (response ctx)) && negb (IsDeferred (response ctx))
   then Send_on (send_response date) ctx else Some ctx) = Some ctx' →
  answered_since s ctx' ∧ IsSent (response ctx') = true ∨ deferred_since s ctx' ∧ IsDeferred (response ctx') = true.
Proof.
  intros Ha. unfold IsSent, IsDeferred. pose proof Ha as (_&_&Hm).
  destruct (state_ (response ctx)) eqn:E; cbn.
  - intros Hs. left. assert (account s ctx') as (_&_&Hm') by (eapply account_send; [exact Hs|exact Ha]).
    unfold Send_on in Hs. apply bind_Some in Hs as ([s1 r1]&Hs&[= <-]).
    pose proof (send_response_marks _ _ _ _ Hs) as Hst. cbn [response] in *. rewrite Hst in *. done.
  - intros [= <-]. rewrite E. left. done.
  - intros [= <-]. rewrite E. right. done.
Qed.

Lemma closed_since s (ctx : context) req r (b : bool) :
  let s' := if b then DisconnectAfterFlush (session ctx) else session ctx in
  (answered_since s ctx → answered_since s (MkContext s' req r)) ∧
  (deferred_since s ctx → deferred_since s (MkContext s' req r)).
Proof.
  apply since_mono. cbn. destruct b; [|done]. cbn. by rewrite b_DisconnectAfterFlush_spec.
Qed.

End Answers.

(** ** A concrete session *)

Module Sample.
(** A base class that records what it accepts until it is closed. *)
Record base := MkBase { accepted : list nat; is_open : bool }.

Definition send (b : base) (h : nat) : base * bool :=
  if is_open b then (MkBase (accepted b ++ [h]) true, true) else (b, false).

Lemma send_spec b h :
  accepted (send b h).1 = if (send b h).2 then accepted b ++ [h] else accepted b.
Proof. unfold send. by destruct (is_open b). Qed.

#[global] Instance base_session : BaseSession base := {|
  b_sent := accepted;
  b_Send := send;
  b_Disconnect b := MkBase (accepted b) false;
  b_DisconnectAfterFlush b := b;
  b_BeginAppIo b := b;
  b_EndAppIo b := b;
  b_Send_spec := send_spec;
  b_Disconnect_spec b := eq_refl;
  b_DisconnectAfterFlush_spec b := eq_refl;
  b_BeginAppIo_spec b := eq_refl;
  b_EndAppIo_spec b := eq_refl
|}.

Definition session (b : base) (p : pool) : http_session base :=
  MkSession b p (MkFileStream None 0 0 0 false) (MkBodyStream None 0 0 0 false) 0 no_stream 0
    false [] [] 1.

Definition body : bytes := replicate (Z.to_nat 9000) "x"%char.

(** A pool with a filled buffer and room for the body. *)
Lemma pool_with_header :
  ∃ p h, pool_room p (S (length body)) 65536 ∧ view p h = Some (3, txt "HDR").
Proof.
  destruct (BufferPool_new_represents 65536 4) as (Hok&_); [lia|].
  destruct (fill_spec (BufferPool_new 65536 4) (S (length body)) 65536 (txt "HDR"))
    as (q&r&_&Hr); [|done|].
  { split_and!; [exact Hok|done|done|]. unfold body. rewrite length_replicate.
    change (base.size (buffers (BufferPool_new 65536 4))) with 0%nat. lia. }
  destruct r as [h|e].
  - destruct Hr as (q'&_&?&?&_). eauto.
  - destruct Hr as (_&_&[Hc|Hc]); vm_compute in Hc; [discriminate|by destruct Hc].
Qed.
End Sample.

(** ** A file whose stream cannot start *)

(** When the session refuses the header of a file response, the descriptor
    is closed twice: StartFileStream has already closed it through its handle
    when SendFile closes it again (by then the number may belong to another
    connection). *)
Theorem send_file_double_close :
  let s := Sample.session (Sample.MkBase [] false) (BufferPool_new 4096 4) in
  (λ '(s', _, started), (closed_fds s', started)) <$>
    send_file [] s (HttpResponse_new true) (Opened 9 (Some (true, 100))) (txt "text/plain") 4096 4
  = Some ([9; 9], false).
Proof. vm_compute. reflexivity. Qed.

(** ** The theorems at concrete sessions *)

Lemma body_stream_exact_witness :
  ∃ p h s1 ok1 s2 ok2 hs ds off,
    StartBodyStream (Sample.session (Sample.MkBase [] true) p) (Some h) (Some Sample.body) 4096 1 =
      Some (s1, ok1) ∧
    (if ok1 then drains 2 s1 else Some (s1, false)) = Some (s2, ok2) ∧
    b_sent (base s2) = h :: hs ∧
    holds (hpool s2) (h :: hs) (txt "HDR" :: ds) ∧ List.concat ds = ztake off Sample.body ∧
    (ok2 = true → bs_active (body_stream_ s2) = true ∧ 2 < off < zlen Sample.body ∨
                  bs_active (body_stream_ s2) = false ∧ off = zlen Sample.body).
Proof.
  destruct Sample.pool_with_header as (p&h&Hr&Hv). exists p, h.
  exact (body_stream_exact (Sample.session (Sample.MkBase [] true) p) h 3 (txt "HDR") Sample.body
           4096 1 65536 2 eq_refl eq_refl ltac:(discriminate) Hv eq_refl ltac:(lia) Hr).
Defined.

Lemma pipelined_response_interleaves_witness :
  ∃ p h2 (s := set_body_stream (Sample.session (Sample.MkBase [] true) p)
                 (streaming Sample.body 4096 4096 1)),
    StartBodyStream s (Some 7%nat) (Some (txt "other")) 4096 1 = Some (s, false) ∧
    ∃ s1 s2 hs ds off', SendResponse s h2 = Some s1 ∧ OnSocketDrained s1 = Some s2 ∧
      b_sent (base s2) = h2 :: hs ∧ holds (hpool s2) (h2 :: hs) (txt "HDR" :: ds) ∧
      List.concat ds = ztake (off' - 4096) (zdrop 4096 Sample.body) ∧
      ∃ ok, PumpBodyStream s1 = Some (s2, ok) ∧ (ok = true → 4096 < off').
Proof.
  destruct Sample.pool_with_header as (p&h&Hr&Hv). exists p, h.
  refine (pipelined_response_interleaves
           (set_body_stream (Sample.session (Sample.MkBase [] true) p)
              (streaming Sample.body 4096 4096 1)) h 3 (txt "HDR") Sample.body 4096 4096 1 65536
           7 (txt "other") eq_refl eq_refl _ _ _ _ Hv eq_refl); [lia|lia| |].
  - split; [lia|]. by apply Z.ltb_lt.
  - eapply pool_room_le; [|exact Hr]. unfold zlen. lia.
Defined.

Module Handler.
Definition rt : Router := Route Router_new kGet (txt "/hi") (Some 1%nat).
Definition call (h : callable) (ctx : RequestContext (http_session Sample.base)) :=
  (set_response ctx (Body (response ctx) (txt "hi")), Returned).
Definition s0 : http_session Sample.base :=
  Sample.session (Sample.MkBase [] true) (BufferPool_new 4096 4).
Definition req : HttpRequest := MkRequest kGet (txt "/hi") [] [] true [] [] [].
End Handler.

Lemma Handler_api : api_only [] Handler.call.
Proof. intros k ctx. apply rtc_once. destruct ctx. by apply app_edit. Qed.

