(* ===== verification/Rooms.v ===== *)
(** * Players and rooms

    [src/modules/game/PlayerRegistry.cpp], [Room.cpp] and [RoomManager.cpp]
    with their headers.  The registry keeps two maps under one mutex, from
    sessions to records and from players to sessions; it is shown to implement
    a plain set of records searched by either key.  The manager hands out
    32-bit room ids.  A room is a job queue: packets are queued as jobs and
    looked up in the room's players when their job runs.  Each method holds its
    lock throughout and is one function here. *)

From S2P Require Import Prelude JobQueue.
From stdpp Require Import fin_maps.

#[local] Open Scope Z_scope.
#[local] Open Scope cxx_scope.
#[local] Set Warnings "-clear-no-such-hyp".

(** ** The registry *)

Module PlayerRegistry.

(** Source: include/iouring_runtime/game/PlayerRegistry.h:15-20, PlayerRecord.
    [room] is the address of a [RoomLike], [None] the null pointer. *)
Record PlayerRecord := mkRecord {
  session_id : Z;
  player_id : Z;
  room_id : Z;
  room : option nat;
}.

#[export] Instance PlayerRecord_eq_dec : EqDecision PlayerRecord.
Proof. solve_decision. Defined.

(** Source: include/iouring_runtime/game/PlayerRegistry.h:45-47, PlayerRegistry. *)
Record registry := mkRegistry {
  by_session_ : gmap Z PlayerRecord;
  by_player_ : gmap Z Z;
}.

Definition PlayerRegistry_new : registry := mkRegistry ∅ ∅.

(** Source: src/modules/game/PlayerRegistry.cpp:7-23, PlayerRegistry::Register. *)
Definition Register (g : registry) (sid pid : Z) : registry * bool :=
  if (sid =? 0) || (pid =? 0) then (g, false) else
  if bool_decide (is_Some (by_session_ g !! sid)) || bool_decide (is_Some (by_player_ g !! pid))
  then (g, false)
  else (mkRegistry (<[sid := mkRecord sid pid 0 None]> (by_session_ g))
          (<[pid := sid]> (by_player_ g)), true).

(** Source: src/modules/game/PlayerRegistry.cpp:25-38, PlayerRegistry::UnregisterBySession. *)
Definition UnregisterBySession (g : registry) (sid : Z) : registry * option PlayerRecord :=
  match by_session_ g !! sid with
  | None => (g, None)
  | Some record =>
    (mkRegistry (delete sid (by_session_ g)) (delete (player_id record) (by_player_ g)),
     Some record)
  end.

(** Source: src/modules/game/PlayerRegistry.cpp:40-59, PlayerRegistry::UnregisterByPlayer. *)
Definition UnregisterByPlayer (g : registry) (pid : Z) : registry * option PlayerRecord :=
  match by_player_ g !! pid with
  | None => (g, None)
  | Some sid =>
    match by_session_ g !! sid with
    | None => (mkRegistry (by_session_ g) (delete pid (by_player_ g)), None)
    | Some record =>
      (mkRegistry (delete sid (by_session_ g)) (delete pid (by_player_ g)), Some record)
    end
  end.

(** Source: src/modules/game/PlayerRegistry.cpp:153-161, PlayerRegistry::BindRoomLocked.
    The record after the call, and the result. *)
Definition BindRoomLocked (record : PlayerRecord) (rid : Z) (r : option nat)
    : PlayerRecord * bool :=
  if (rid =? 0) || bool_decide (r = None) then (record, false)
  else (mkRecord (session_id record) (player_id record) rid r, true).

(** Source: src/modules/game/PlayerRegistry.cpp:163-167, PlayerRegistry::ClearRoomLocked. *)
Definition ClearRoomLocked (record : PlayerRecord) : PlayerRecord * bool :=
  (mkRecord (session_id record) (player_id record) 0 None, true).

(** The record of [sid] is changed in place by [f]. *)
Definition update_record (g : registry) (sid : Z)
    (f : PlayerRecord → PlayerRecord * bool) : registry * bool :=
  match by_session_ g !! sid with
  | None => (g, false)
  | Some record =>
    let '(record, result) := f record in
    (mkRegistry (<[sid := record]> (by_session_ g)) (by_player_ g), result)
  end.

(** Source: src/modules/game/PlayerRegistry.cpp:61-70, PlayerRegistry::BindRoomBySession. *)
Definition BindRoomBySession (g : registry) (sid rid : Z) (r : option nat) : registry * bool :=
  update_record g sid (λ record, BindRoomLocked record rid r).

(** Source: src/modules/game/PlayerRegistry.cpp:72-85, PlayerRegistry::BindRoomByPlayer. *)
Definition BindRoomByPlayer (g : registry) (pid rid : Z) (r : option nat) : registry * bool :=
  match by_player_ g !! pid with
  | None => (g, false)
  | Some sid => update_record g sid (λ record, BindRoomLocked record rid r)
  end.

(** Source: src/modules/game/PlayerRegistry.cpp:87-95, PlayerRegistry::ClearRoomBySession. *)
Definition ClearRoomBySession (g : registry) (sid : Z) : registry * bool :=
  update_record g sid ClearRoomLocked.

(** Source: src/modules/game/PlayerRegistry.cpp:97-109, PlayerRegistry::ClearRoomByPlayer. *)
Definition ClearRoomByPlayer (g : registry) (pid : Z) : registry * bool :=
  match by_player_ g !! pid with
  | None => (g, false)
  | Some sid => update_record g sid ClearRoomLocked
  end.

(** Source: src/modules/game/PlayerRegistry.cpp:111-120, PlayerRegistry::FindBySession. *)
Definition FindBySession (g : registry) (sid : Z) : option PlayerRecord :=
  by_session_ g !! sid.

(** Source: src/modules/game/PlayerRegistry.cpp:122-135, PlayerRegistry::FindByPlayer. *)
Definition FindByPlayer (g : registry) (pid : Z) : option PlayerRecord :=
  sid ← by_player_ g !! pid; by_session_ g !! sid.

(** Source: src/modules/game/PlayerRegistry.cpp:137-146, PlayerRegistry::Records.
    In the order of the hash table, here that of the map's elements. *)
Definition Records (g : registry) : list PlayerRecord := (map_to_list (by_session_ g)).*2.

(** Source: src/modules/game/PlayerRegistry.cpp:148-151, PlayerRegistry::PlayerCount. *)
Definition PlayerCount (g : registry) : Z := u32 (Z.of_nat (size (by_session_ g))).

(** ** Calls *)

Inductive call :=
| CRegister (sid pid : Z)
| CUnregisterBySession (sid : Z)
| CUnregisterByPlayer (pid : Z)
| CBindRoomBySession (sid rid : Z) (r : option nat)
| CBindRoomByPlayer (pid rid : Z) (r : option nat)
| CClearRoomBySession (sid : Z)
| CClearRoomByPlayer (pid : Z)
| CFindBySession (sid : Z)
| CFindByPlayer (pid : Z).

Inductive reply :=
| RBool (b : bool)
| RRecord (r : option PlayerRecord).

Definition run_call (g : registry) (c : call) : registry * reply :=
  match c with
  | CRegister sid pid => let '(g, b) := Register g sid pid in (g, RBool b)
  | CUnregisterBySession sid => let '(g, r) := UnregisterBySession g sid in (g, RRecord r)
  | CUnregisterByPlayer pid => let '(g, r) := UnregisterByPlayer g pid in (g, RRecord r)
  | CBindRoomBySession sid rid r =>
    let '(g, b) := BindRoomBySession g sid rid r in (g, RBool b)
  | CBindRoomByPlayer pid rid r =>
    let '(g, b) := BindRoomByPlayer g pid rid r in (g, RBool b)
  | CClearRoomBySession sid => let '(g, b) := ClearRoomBySession g sid in (g, RBool b)
  | CClearRoomByPlayer pid => let '(g, b) := ClearRoomByPlayer g pid in (g, RBool b)
  | CFindBySession sid => (g, RRecord (FindBySession g sid))
  | CFindByPlayer pid => (g, RRecord (FindByPlayer g pid))
  end.

(** ** Specification: a list of records searched by a key *)

Definition with_session (sid : Z) (r : PlayerRecord) : Prop := session_id r = sid.
Definition with_player (pid : Z) (r : PlayerRecord) : Prop := player_id r = pid.
#[export] Instance with_session_dec sid r : Decision (with_session sid r).
Proof. unfold with_session. apply _. Defined.
#[export] Instance with_player_dec pid r : Decision (with_player pid r).
Proof. unfold with_player. apply _. Defined.

Section Spec.
Context (key : PlayerRecord → Prop) `{∀ r, Decision (key r)}.

Definition spec_find (l : list PlayerRecord) : option PlayerRecord := snd <$> list_find key l.
Definition spec_remove (l : list PlayerRecord) : list PlayerRecord * reply :=
  (filter (λ r, ¬ key r) l, RRecord (spec_find l)).
Definition spec_update (f : PlayerRecord → PlayerRecord * bool) (l : list PlayerRecord)
    : list PlayerRecord * reply :=
  (map (λ r, if decide (key r) then (f r).1 else r) l,
   RBool match spec_find l with Some r => (f r).2 | None => false end).
End Spec.

(** A record in a room, and in none; entering needs a room and its number. *)
Definition enters (rid : Z) (r : option nat) (p : PlayerRecord) : PlayerRecord * bool :=
  match r with
  | Some a => if decide (rid = 0) then (p, false)
              else (mkRecord (session_id p) (player_id p) rid (Some a), true)
  | None => (p, false)
  end.
Definition leaves (p : PlayerRecord) : PlayerRecord * bool :=
  (mkRecord (session_id p) (player_id p) 0 None, true).

Definition spec_call (l : list PlayerRecord) (c : call) : list PlayerRecord * reply :=
  match c with
  | CRegister sid pid =>
    if decide (sid = 0 ∨ pid = 0 ∨ Exists (λ r, session_id r = sid ∨ player_id r = pid) l)
    then (l, RBool false) else (mkRecord sid pid 0 None :: l, RBool true)
  | CUnregisterBySession sid => spec_remove (with_session sid) l
  | CUnregisterByPlayer pid => spec_remove (with_player pid) l
  | CBindRoomBySession sid rid r =>
    spec_update (with_session sid) (enters rid r) l
  | CBindRoomByPlayer pid rid r =>
    spec_update (with_player pid) (enters rid r) l
  | CClearRoomBySession sid => spec_update (with_session sid) leaves l
  | CClearRoomByPlayer pid => spec_update (with_player pid) leaves l
  | CFindBySession sid => (l, RRecord (spec_find (with_session sid) l))
  | CFindByPlayer pid => (l, RRecord (spec_find (with_player pid) l))
  end.

Fixpoint runs {S} (f : S → call → S * reply) (s : S) (cs : list call) : S * list reply :=
  match cs with
  | [] => (s, [])
  | c :: cs => let '(s, r) := f s c in let '(s, rs) := runs f s cs in (s, r :: rs)
  end.

(** The maps are exactly the records, by their two keys. *)
Record represents (g : registry) (l : list PlayerRecord) : Prop := mkRep {
  rep_session : ∀ sid r, by_session_ g !! sid = Some r ↔ r ∈ l ∧ session_id r = sid;
  rep_player : ∀ pid sid, by_player_ g !! pid = Some sid ↔
    ∃ r, r ∈ l ∧ player_id r = pid ∧ session_id r = sid;
  rep_nodup : NoDup l;
}.

Section Refinement.
Implicit Types (g : registry) (l : list PlayerRecord).

Lemma rep_session_inj g l r1 r2 : represents g l → r1 ∈ l → r2 ∈ l →
  session_id r1 = session_id r2 → r1 = r2.
Proof.
  intros [Hs _ _] H1 H2 He.
  pose proof (proj2 (Hs (session_id r1) r1) (conj H1 eq_refl)) as E1.
  pose proof (proj2 (Hs (session_id r1) r2) (conj H2 (eq_sym He))) as E2. congruence.
Qed.

Lemma rep_player_inj g l r1 r2 : represents g l → r1 ∈ l → r2 ∈ l →
  player_id r1 = player_id r2 → r1 = r2.
Proof.
  intros Hr H1 H2 He. apply (rep_session_inj g l); try done.
  pose proof (proj2 (rep_player g l Hr (player_id r1) (session_id r1))) as E1.
  pose proof (proj2 (rep_player g l Hr (player_id r1) (session_id r2))) as E2.
  enough (Some (session_id r1) = Some (session_id r2)) by congruence.
  rewrite <-E1, <-E2; eauto.
Qed.

Lemma spec_find_Some key `{∀ r, Decision (key r)} l r :
  spec_find key l = Some r → r ∈ l ∧ key r.
Proof.
  unfold spec_find. destruct (list_find key l) as [[i x]|] eqn:E; simpl; [|done].
  intros [= ->]. apply list_find_Some in E as (Hi&Hk&_). eauto using list_elem_of_lookup_2.
Qed.

Lemma spec_find_None key `{∀ r, Decision (key r)} l r :
  spec_find key l = None → r ∈ l → ¬ key r.
Proof.
  unfold spec_find. destruct (list_find key l) as [[i x]|] eqn:E; simpl; [done|].
  intros _ Hr. apply list_find_None in E. rewrite Forall_forall in E. by apply E.
Qed.

Lemma find_session g l sid : represents g l →
  by_session_ g !! sid = spec_find (with_session sid) l.
Proof.
  intros Hr. destruct (spec_find _ l) as [r|] eqn:E.
  - apply spec_find_Some in E. by apply (rep_session g l Hr).
  - destruct (by_session_ g !! sid) as [r|] eqn:E2; [|done].
    apply (rep_session g l Hr) in E2 as [Hin Hk].
    by destruct (spec_find_None _ _ _ E Hin).
Qed.

Lemma find_player g l pid : represents g l →
  by_player_ g !! pid = session_id <$> spec_find (with_player pid) l.
Proof.
  intros Hr. destruct (spec_find _ l) as [r|] eqn:E; simpl.
  - apply spec_find_Some in E as [Hin Hk]. apply (rep_player g l Hr). eauto.
  - destruct (by_player_ g !! pid) as [sid|] eqn:E2; [|done].
    apply (rep_player g l Hr) in E2 as (r&Hin&Hk&_).
    by destruct (spec_find_None _ _ _ E Hin).
Qed.

(** The record found by either key is the only one with it. *)
Lemma session_key_unique g l sid r0 : represents g l →
  spec_find (with_session sid) l = Some r0 → r0 ∈ l ∧
  ∀ r, r ∈ l → with_session sid r ↔ r = r0.
Proof.
  intros Hr Hf. apply spec_find_Some in Hf as [Hin Hk]. split; [done|]. intros r Hin'.
  split; [|by intros ->]. intros Hk'. apply (rep_session_inj g l); congruence.
Qed.

Lemma player_key_unique g l pid r0 : represents g l →
  spec_find (with_player pid) l = Some r0 → r0 ∈ l ∧
  ∀ r, r ∈ l → with_player pid r ↔ r = r0.
Proof.
  intros Hr Hf. apply spec_find_Some in Hf as [Hin Hk]. split; [done|]. intros r Hin'.
  split; [|by intros ->]. intros Hk'. apply (rep_player_inj g l); congruence.
Qed.

Lemma remove_represents key `{∀ r, Decision (key r)} g l r0 : represents g l →
  r0 ∈ l → (∀ r, r ∈ l → key r ↔ r = r0) →
  represents (mkRegistry (delete (session_id r0) (by_session_ g))
                (delete (player_id r0) (by_player_ g))) (filter (λ r, ¬ key r) l).
Proof.
  intros Hr Hin Hk. split; simpl.
  - intros sid r. rewrite lookup_delete_Some, (rep_session g l Hr), list_elem_of_filter.
    split; [intros (Hne&Hr'&<-)|intros ((Hnk&Hr')&<-)].
    + split; [|done]. split; [|done]. rewrite Hk by done. congruence.
    + split; [|done]. intros He. apply Hnk, Hk; [done|].
      by apply (rep_session_inj g l).
  - intros pid sid. rewrite lookup_delete_Some, (rep_player g l Hr).
    split; [intros (Hne&r&Hr'&<-&<-)|intros (r&[Hnk Hr']%list_elem_of_filter&<-&<-)].
    + exists r. split; [|done]. apply list_elem_of_filter. split; [|done].
      rewrite Hk by done. congruence.
    + split; [|eauto]. intros He. apply Hnk, Hk; [done|]. by apply (rep_player_inj g l).
  - apply NoDup_filter, Hr.
Qed.

Lemma filter_none key `{∀ r, Decision (key r)} l :
  spec_find key l = None → filter (λ r, ¬ key r) l = l.
Proof.
  intros Hf. assert (∀ r, r ∈ l → ¬ key r) as Hn by eauto using spec_find_None.
  clear Hf. induction l as [|r l IH]; [done|].
  rewrite filter_cons_True by (apply Hn; left). f_equal. apply IH. intros. apply Hn. by right.
Qed.

Lemma map_none key `{∀ r, Decision (key r)} (f : PlayerRecord → PlayerRecord) l :
  spec_find key l = None → map (λ r, if decide (key r) then f r else r) l = l.
Proof.
  intros Hf. assert (∀ r, r ∈ l → ¬ key r) as Hn by eauto using spec_find_None.
  clear Hf. induction l as [|r l IH]; simpl; [done|].
  rewrite decide_False by (apply Hn; left). f_equal. apply IH. intros. apply Hn. by right.
Qed.

Lemma update_represents key `{∀ r, Decision (key r)} g l r0 r0' : represents g l →
  r0 ∈ l → (∀ r, r ∈ l → key r ↔ r = r0) →
  session_id r0' = session_id r0 → player_id r0' = player_id r0 →
  represents (mkRegistry (<[session_id r0 := r0']> (by_session_ g)) (by_player_ g))
    (map (λ r, if decide (key r) then r0' else r) l).
Proof.
  intros Hr Hin Hk Hsid Hpid.
  assert (∀ r, r ∈ map (λ r, if decide (key r) then r0' else r) l ↔
               r = r0' ∨ (r ∈ l ∧ r ≠ r0)) as Hmem.
  { intros r. rewrite list_elem_of_fmap. split.
    - intros (r1&->&H1). case_decide as E; [by left|]. right.
      split; [done|]. intros ->. by apply E, Hk.
    - intros [->|[H1 H2]]; [exists r0|exists r]; (split; [|done]).
      + by rewrite decide_True by (apply Hk; done).
      + rewrite decide_False; [done|]. by rewrite Hk. }
  split; simpl.
  - intros sid r. rewrite Hmem, lookup_insert_Some, (rep_session g l Hr). split.
    + intros [[<- <-]|(Hne&H1&<-)]; [by auto|]. split; [right|done].
      split; [done|]. congruence.
    + intros [[->|[H1 H2]] <-]; [left; by rewrite Hsid|]. right. split; [|done].
      intros He. apply H2. by apply (rep_session_inj g l).
  - intros pid sid. rewrite (rep_player g l Hr). split.
    + intros (r&H1&<-&<-). destruct (decide (r = r0)) as [->|Hne]; [exists r0'|exists r];
        rewrite Hmem; auto.
    + intros (r&[->|[H1 H2]]%Hmem&<-&<-); eauto.
  - apply (NoDup_fmap_2_strong (λ r, if decide (key r) then r0' else r)); [|apply Hr].
    assert (∀ x, x ∈ l → x = r0' → x = r0) as Hsame.
    { intros x Hx ->. by apply (rep_session_inj g l). }
    intros x y Hx Hy. pose proof (Hk x Hx). pose proof (Hk y Hy).
    repeat case_decide; naive_solver.
Qed.

Lemma spec_update_represents key `{∀ r, Decision (key r)} g l r0 f :
  represents g l → spec_find key l = Some r0 →
  r0 ∈ l → (∀ r, r ∈ l → key r ↔ r = r0) →
  (∀ r, session_id (f r).1 = session_id r ∧ player_id (f r).1 = player_id r) →
  represents (update_record g (session_id r0) f).1 (spec_update key f l).1 ∧
  RBool (update_record g (session_id r0) f).2 = (spec_update key f l).2.
Proof.
  intros Hr Hf Hin Hk Hid. unfold update_record, spec_update. rewrite Hf.
  rewrite (proj2 (rep_session g l Hr _ _) (conj Hin eq_refl)).
  destruct (Hid r0) as [Hs Hp]. destruct (f r0) as [r0' b] eqn:E; simpl in *.
  split; [|done].
  assert (map (λ r, if decide (key r) then (f r).1 else r) l =
          map (λ r, if decide (key r) then r0' else r) l) as ->.
  { apply map_ext_in. intros r Hr'%list_elem_of_In. case_decide as Ek; [|done].
    apply Hk in Ek as ->; [|done]. by rewrite E. }
  by apply update_represents.
Qed.

Lemma enters_ids rid x r :
  session_id (enters rid x r).1 = session_id r ∧ player_id (enters rid x r).1 = player_id r.
Proof. unfold enters. repeat case_match; done. Qed.

Lemma leaves_ids r : session_id (leaves r).1 = session_id r ∧ player_id (leaves r).1 = player_id r.
Proof. done. Qed.

Lemma update_record_ext g sid f f' : (∀ r, f r = f' r) → update_record g sid f = update_record g sid f'.
Proof. intros Hf. unfold update_record. case_match; [by rewrite Hf|done]. Qed.

Lemma BindRoomLocked_enters rid x r : BindRoomLocked r rid x = enters rid x r.
Proof.
  unfold BindRoomLocked, enters. destruct x; [|by rewrite orb_true_r].
  rewrite bool_decide_false, orb_false_r by done. destruct (Z.eqb_spec rid 0); by case_decide.
Qed.

Lemma by_session_update g l sid f : represents g l →
  (∀ r, session_id (f r).1 = session_id r ∧ player_id (f r).1 = player_id r) →
  let '(g', b) := update_record g sid f in
  represents g' (spec_update (with_session sid) f l).1 ∧
  RBool b = (spec_update (with_session sid) f l).2.
Proof.
  intros Hr Hid. destruct (spec_find (with_session sid) l) as [r0|] eqn:E.
  - destruct (session_key_unique g l sid r0 Hr E) as [Hin Hk].
    assert (sid = session_id r0) as Hs by (symmetry; by apply Hk).
    pose proof (spec_update_represents _ g l r0 f Hr E Hin Hk Hid) as Hu.
    rewrite <-Hs in Hu. by destruct (update_record g sid f).
  - unfold update_record, spec_update. rewrite (find_session g l) by done.
    rewrite E, map_none by done. done.
Qed.

Lemma by_player_update g l pid f : represents g l →
  (∀ r, session_id (f r).1 = session_id r ∧ player_id (f r).1 = player_id r) →
  let '(g', b) := match by_player_ g !! pid with
                  | None => (g, false) | Some sid => update_record g sid f end in
  represents g' (spec_update (with_player pid) f l).1 ∧
  RBool b = (spec_update (with_player pid) f l).2.
Proof.
  intros Hr Hid. rewrite (find_player g l) by done.
  destruct (spec_find (with_player pid) l) as [r0|] eqn:E; simpl.
  - destruct (player_key_unique g l pid r0 Hr E) as [Hin Hk].
    pose proof (spec_update_represents _ g l r0 f Hr E Hin Hk Hid) as Hu.
    by destruct (update_record g (session_id r0) f).
  - unfold spec_update. by rewrite E, map_none by done.
Qed.

Lemma Register_represents g l sid pid : represents g l →
  let '(g', b) := Register g sid pid in
  represents g' (spec_call l (CRegister sid pid)).1 ∧
  RBool b = (spec_call l (CRegister sid pid)).2.
Proof.
  intros Hr. unfold Register, spec_call.
  assert ((is_Some (by_session_ g !! sid) ∨ is_Some (by_player_ g !! pid)) ↔
    Exists (λ r, session_id r = sid ∨ player_id r = pid) l) as Hex.
  { rewrite Exists_exists. split.
    - intros [[r Hs]|[s Hs]]; [apply (rep_session g l Hr) in Hs as [? ?]; eauto|].
      apply (rep_player g l Hr) in Hs as (r&?&?&?). eauto.
    - intros (r&Hin&[Hs|Hp]); [left; exists r; by apply (rep_session g l Hr)|].
      right. exists (session_id r). apply (rep_player g l Hr). eauto. }
  destruct (decide (sid = 0 ∨ pid = 0)) as [H0|H0].
  { rewrite decide_True by tauto. destruct H0 as [-> | ->]; [done|].
    rewrite Z.eqb_refl, orb_true_r. done. }
  rewrite !(proj2 (Z.eqb_neq _ _)) by tauto. cbn [orb].
  rewrite <-bool_decide_or. case_bool_decide as Hd.
  { rewrite decide_True by (rewrite <-Hex; tauto). done. }
  rewrite decide_False by (rewrite <-Hex; tauto). split; [|done].
  assert (by_session_ g !! sid = None) as Hs by (apply eq_None_not_Some; tauto).
  assert (by_player_ g !! pid = None) as Hp by (apply eq_None_not_Some; tauto).
  split; simpl.
  - intros s r. rewrite lookup_insert_Some, elem_of_cons, (rep_session g l Hr). split.
    + intros [[<- <-]|(Hne&?&?)]; auto.
    + intros [[->|Hin] <-]; [by left|]. right. split; [|done]. intros ->.
      by rewrite (proj2 (rep_session g l Hr _ _) (conj Hin eq_refl)) in Hs.
  - intros p s. rewrite lookup_insert_Some, (rep_player g l Hr). split.
    + intros [[<- <-]|(Hne&r&?&?&?)];
        [eexists; split; [left|]; done|exists r; split; [by right|done]].
    + intros (r&[->|Hin]%elem_of_cons&<-&<-); [by left|]. right. split; [|eauto]. intros ->.
      by rewrite (proj2 (rep_player g l Hr _ _) (ex_intro _ r (conj Hin (conj eq_refl eq_refl)))) in Hp.
  - apply NoDup_cons. split; [|apply Hr]. intros Hin.
    pose proof (proj2 (rep_session g l Hr _ _) (conj Hin eq_refl)) as E. simpl in E. congruence.
Qed.

Lemma run_call_represents g l c : represents g l →
  represents (run_call g c).1 (spec_call l c).1 ∧ (run_call g c).2 = (spec_call l c).2.
Proof.
  intros Hr. destruct c as [sid pid|sid|pid|sid rid r|pid rid r|sid|pid|sid|pid]; simpl.
  - pose proof (Register_represents g l sid pid Hr) as H. by destruct (Register g sid pid).
  - unfold UnregisterBySession. rewrite (find_session g l) by done.
    destruct (spec_find (with_session sid) l) as [r0|] eqn:E; simpl; (split; [|done]).
    + destruct (session_key_unique g l sid r0 Hr E) as [Hin Hk].
      assert (sid = session_id r0) as -> by (symmetry; by apply Hk).
      by apply remove_represents.
    + by rewrite filter_none.
  - unfold UnregisterByPlayer. rewrite (find_player g l) by done.
    destruct (spec_find (with_player pid) l) as [r0|] eqn:E; simpl.
    + destruct (player_key_unique g l pid r0 Hr E) as [Hin Hk].
      rewrite (proj2 (rep_session g l Hr _ _) (conj Hin eq_refl)). simpl.
      split; [|done]. assert (pid = player_id r0) as -> by (symmetry; by apply Hk).
      by apply remove_represents.
    + by rewrite filter_none.
  - pose proof (by_session_update g l sid (enters rid r) Hr (enters_ids rid r)) as H.
    unfold BindRoomBySession. rewrite (update_record_ext _ _ _ _ (BindRoomLocked_enters rid r)).
    by destruct (update_record _ _ _).
  - pose proof (by_player_update g l pid (enters rid r) Hr (enters_ids rid r)) as H.
    unfold BindRoomByPlayer. destruct (by_player_ g !! pid) as [sid|]; [|done].
    rewrite (update_record_ext _ _ _ _ (BindRoomLocked_enters rid r)). by destruct (update_record _ _ _).
  - pose proof (by_session_update g l sid leaves Hr leaves_ids) as H.
    unfold ClearRoomBySession. change ClearRoomLocked with leaves. by destruct (update_record _ _ _).
  - pose proof (by_player_update g l pid leaves Hr leaves_ids) as H.
    unfold ClearRoomByPlayer. change ClearRoomLocked with leaves.
    by destruct (match _ with Some _ => _ | None => _ end).
  - split; [done|]. unfold FindBySession. by rewrite (find_session g l).
  - split; [done|]. unfold FindByPlayer. rewrite (find_player g l) by done.
    destruct (spec_find (with_player pid) l) as [r0|] eqn:E; simpl; [|done].
    apply spec_find_Some in E as [Hin _].
    by rewrite (proj2 (rep_session g l Hr _ _) (conj Hin eq_refl)).
Qed.

Lemma runs_represents g l cs : represents g l →
  represents (runs run_call g cs).1 (runs spec_call l cs).1 ∧
  (runs run_call g cs).2 = (runs spec_call l cs).2.
Proof.
  revert g l. induction cs as [|c cs IH]; intros g l Hr; simpl; [done|].
  destruct (run_call_represents g l c Hr) as [Hr' He].
  destruct (run_call g c) as [g' r], (spec_call l c) as [l' r']; simpl in *.
  destruct (IH g' l' Hr') as [Hrs Hes].
  destruct (runs run_call g' cs), (runs spec_call l' cs); simpl in *. split; congruence.
Qed.

Lemma represents_records g l : represents g l → Records g ≡ₚ l.
Proof.
  intros Hr. unfold Records. apply NoDup_Permutation; [|apply Hr|].
  - apply NoDup_fmap_2_strong; [|apply NoDup_map_to_list].
    intros [s1 r1] [s2 r2] H1%elem_of_map_to_list H2%elem_of_map_to_list E; simpl in E.
    apply (rep_session g l Hr) in H1 as [_ <-]. apply (rep_session g l Hr) in H2 as [_ <-].
    by rewrite E.
  - intros r. rewrite list_elem_of_fmap. split.
    + intros ([s r']&->&H%elem_of_map_to_list). by apply (rep_session g l Hr) in H as [? _].
    + intros Hin. exists (session_id r, r). split; [done|].
      apply elem_of_map_to_list. by apply (rep_session g l Hr).
Qed.

(** C28: The registry refines a plain list of records: for every sequence of
    calls from the empty registry, each reply is the one obtained by searching,
    extending, filtering or updating that list by the given session or player
    id, and the two hash maps together hold exactly its records, so that no
    session and no player has two records and neither map has a stale entry. *)
Theorem registry_refines cs :
  let '(g, replies) := runs run_call PlayerRegistry_new cs in
  let '(l, spec_replies) := runs spec_call [] cs in
  replies = spec_replies ∧ Records g ≡ₚ l ∧
  (∀ sid, FindBySession g sid = spec_find (with_session sid) l) ∧
  (∀ pid, by_player_ g !! pid = session_id <$> spec_find (with_player pid) l) ∧
  NoDup (map session_id l) ∧ NoDup (map player_id l).
Proof.
  assert (represents PlayerRegistry_new []) as H0.
  { split; simpl; [| |constructor].
    - intros sid r. rewrite lookup_empty. split; [done|by intros [?%not_elem_of_nil _]].
    - intros pid sid. rewrite lookup_empty. split; [done|by intros (r&?%not_elem_of_nil&_)]. }
  destruct (runs_represents _ _ cs H0) as [Hr He].
  destruct (runs run_call _ cs) as [g rs], (runs spec_call _ cs) as [l rs']; simpl in *.
  split; [done|]. split; [by apply represents_records|].
  split; [intros; by apply find_session|]. split; [intros; by apply find_player|].
  split; apply NoDup_fmap_2_strong; try apply Hr; intros.
  - by apply (rep_session_inj g l).
  - by apply (rep_player_inj g l).
Qed.
End Refinement.
End PlayerRegistry.

(** ** Rooms *)

Module Room.
Section Room.
(** [OnPacket] is virtual and gets the player by reference: what an override
    makes of the player. *)
Variable PlayerData : Type.
Variable OnPacket : Z * PlayerData → Z → bytes → PlayerData.

Definition kMaxPlayers : Z := 500.

(** Source: include/iouring_runtime/game/Room.h:66-68, Room.
    The members beside those of the base class [JobQueue], and the calls of
    [OnPacket] so far. *)
Record room := mkRoom {
  id_ : Z;
  name_ : bytes;
  players_ : gmap Z PlayerData;
  on_packet_calls : list (Z * Z * bytes);
}.

(** Source: src/modules/game/Room.cpp:12-15, Room::Room. *)
Definition Room_new (id : Z) (name : bytes) : room := mkRoom id name ∅ [].

(** Source: include/iouring_runtime/game/Room.h:39-41, Room::PlayerCount. *)
Definition PlayerCount (r : room) : Z := u32 (Z.of_nat (size (players_ r))).

(** Source: include/iouring_runtime/game/Room.h:43-45, Room::IsEmpty. *)
Definition IsEmpty (r : room) : bool := bool_decide (size (players_ r) = 0%nat).

(** Source: include/iouring_runtime/game/Room.h:47-49, Room::IsFull. *)
Definition IsFull (r : room) : bool := kMaxPlayers <=? Z.of_nat (size (players_ r)).

(** Source: src/modules/game/Room.cpp:17-19, Room::HasPlayer. *)
Definition HasPlayer (r : room) (pid : Z) : bool := bool_decide (is_Some (players_ r !! pid)).

Definition set_players (r : room) (ps : gmap Z PlayerData) : room :=
  mkRoom (id_ r) (name_ r) ps (on_packet_calls r).

(** Source: src/modules/game/Room.cpp:21-23, Room::AddPlayer. *)
Definition AddPlayer (r : room) (pid : Z) (player : PlayerData) : room :=
  set_players r (<[pid := player]> (players_ r)).

(** Source: src/modules/game/Room.cpp:25-27, Room::RemovePlayer. *)
Definition RemovePlayer (r : room) (pid : Z) : room :=
  set_players r (delete pid (players_ r)).

(** Source: src/modules/game/Room.cpp:37-45, Room::DispatchPacket. *)
Definition DispatchPacket (r : room) (pid msg_id : Z) (payload : bytes) : room :=
  match players_ r !! pid with
  | None => r
  | Some player =>
    mkRoom (id_ r) (name_ r) (<[pid := OnPacket (pid, player) msg_id payload]> (players_ r))
      (on_packet_calls r ++ [(pid, msg_id, payload)])
  end.

(** The jobs of a room's queue. *)
Inductive room_job :=
| PacketJob (pid msg_id : Z) (payload : bytes)
| AddJob (pid : Z) (player : PlayerData)
| RemoveJob (pid : Z).

Definition run_job (r : room) (j : room_job) : room :=
  match j with
  | PacketJob pid msg_id payload => DispatchPacket r pid msg_id payload
  | AddJob pid player => AddPlayer r pid player
  | RemoveJob pid => RemovePlayer r pid
  end.

Definition run_jobs : room → list room_job → room := foldl run_job.

(** Source: src/modules/game/Room.cpp:29-35, Room::HandlePacket.
    The first step of [Push] with the job that owns a copy of the payload. *)
Definition HandlePacket (q : jq_state room_job) (pid msg_id : Z) (payload : bytes)
    : jq_state room_job :=
  push_count q (PacketJob pid msg_id payload).

(** The calls of [OnPacket] the packets of [js] give, jobs run one after another
    with [present] the players in the room before them. *)
Fixpoint deliveries (present : gset Z) (js : list room_job) : list (Z * Z * bytes) :=
  match js with
  | [] => []
  | PacketJob pid msg_id payload :: js =>
    (if decide (pid ∈ present) then [(pid, msg_id, payload)] else []) ++ deliveries present js
  | AddJob pid _ :: js => deliveries ({[pid]} ∪ present) js
  | RemoveJob pid :: js => deliveries (present ∖ {[pid]}) js
  end.

Lemma run_jobs_calls js r :
  on_packet_calls (run_jobs r js) = on_packet_calls r ++ deliveries (dom (players_ r)) js.
Proof.
  revert r. induction js as [|j js IH]; intros r; simpl; [by rewrite app_nil_r|].
  rewrite IH. destruct j as [pid msg p|pid pl|pid]; simpl.
  - unfold DispatchPacket. destruct (players_ r !! pid) as [pl|] eqn:E; simpl.
    + rewrite decide_True by (apply elem_of_dom; eauto).
      rewrite <-app_assoc. do 2 f_equal. simpl. f_equal. rewrite dom_insert_L.
      apply elem_of_dom_2 in E. f_equal. set_solver.
    + rewrite decide_False by (by apply not_elem_of_dom). done.
  - by rewrite dom_insert_L.
  - by rewrite dom_delete_L.
Qed.

(** A room handles its packets one at a time and in order: whatever threads
    push jobs to the room and execute its queue, the calls of [OnPacket] made so
    far are a prefix of those made when the jobs run one after another in the
    order they entered the queue, a packet being handled exactly when its player
    is in the room at its turn. *)
Theorem room_serial r q :
  steps jq_step JobQueue_new q → on_packet_calls r = [] →
  (length (executors q) ≤ 1)%nat ∧
  on_packet_calls (run_jobs r (executed q)) `prefix_of`
    deliveries (dom (players_ r)) (appended q).
Proof.
  intros Hq H0. pose proof (jq_reachable q Hq) as Hinv. split.
  { destruct (inv_one_executor q Hinv) as [[-> | [e ->]] _]; simpl; lia. }
  destruct Hinv as [_ _ Hf _]. rewrite run_jobs_calls, H0, <-Hf. simpl.
  generalize (dom (players_ r)). clear.
  induction (executed q) as [|[pid msg p|pid pl|pid] js IH]; intros S; simpl.
  - apply prefix_nil.
  - by apply prefix_app.
  - apply IH.
  - apply IH.
Qed.
End Room.
Arguments room_job : clear implicits.
Arguments PacketJob {_}.
Arguments AddJob {_}.
Arguments RemoveJob {_}.
Arguments HandlePacket {_}.
Arguments Room_new {_}.
Arguments PlayerCount {_}.
Arguments name_ {_}.

(** A player joins, sends a packet, and both jobs run. *)
Definition sample_queued : jq_state (room_job unit) :=
  let q := push_append (push_count JobQueue_new (AddJob 7 tt)) (AddJob 7 tt) 0 [] [] in
  let q := push_append (HandlePacket q 7 1 []) (PacketJob 7 1 []) 1 [Registering] [] in
  push_register q [] [].

Definition sample_queue : jq_state (room_job unit) :=
  let q := sample_queued in
  let q := mkJq (job_count_ q) (jobs_ q) [] (pushers q) [JobQueue.Top] (appended q) (executed q) in
  let q := exec_apply q JobQueue.Top false [] [] in
  let q := exec_apply q (Running [AddJob 7 tt; PacketJob 7 1 []] 0) false [] [] in
  exec_apply q (Running [PacketJob 7 1 []] 1) false [] [].

Lemma sample_queue_steps : steps jq_step JobQueue_new sample_queue.
Proof.
  eapply steps_cons; [apply (step_count _ (AddJob 7 tt)); done|].
  eapply steps_cons; [apply (step_append _ (AddJob 7 tt) 0 [] []); reflexivity|].
  eapply steps_cons; [apply (step_count _ (PacketJob 7 1 [])); done|].
  eapply steps_cons;
    [apply (step_append _ (PacketJob 7 1 []) 1 [Registering] []); reflexivity|].
  eapply steps_cons; [apply (step_register _ [] []); reflexivity|].
  eapply steps_cons; [apply (step_pop _ [] this); reflexivity|].
  eapply steps_cons; [apply (step_exec _ JobQueue.Top false [] []); reflexivity|].
  eapply steps_cons;
    [apply (step_exec _ (Running [AddJob 7 tt; PacketJob 7 1 []] 0) false [] []); reflexivity|].
  eapply steps_cons;
    [apply (step_exec _ (Running [PacketJob 7 1 []] 1) false [] []); reflexivity|].
  apply steps_refl.
Qed.

Lemma room_serial_witness :
  on_packet_calls unit (run_jobs unit (λ _ _ _, tt) (Room_new 1 []) (executed sample_queue))
    = [(7, 1, [])] ∧
  (length (executors sample_queue) ≤ 1)%nat ∧
  on_packet_calls unit (run_jobs unit (λ _ _ _, tt) (Room_new 1 []) (executed sample_queue))
    `prefix_of` deliveries unit (dom (players_ unit (Room_new 1 []))) (appended sample_queue).
Proof.
  split; [reflexivity|].
  apply (room_serial unit (λ _ _ _, tt) (@Room_new unit 1 []) sample_queue
           sample_queue_steps eq_refl).
Defined.
End Room.

(** ** The room manager *)

Module RoomManager.
Section RoomManager.
Context {PlayerData : Type}.
Abbreviation room := (Room.room PlayerData).

(** Source: include/iouring_runtime/game/RoomManager.h:55-58, RoomManager.
    [rooms_] holds shared pointers: addresses into [heap], where the rooms
    themselves live and are changed by their jobs. *)
Record manager := mkManager {
  next_room_id_ : Z;
  rooms_ : gmap Z nat;
  heap : gmap nat room;
  next_ptr : nat;
}.

(** Source: src/modules/game/RoomManager.cpp:7-8, RoomManager::RoomManager. *)
Definition RoomManager_new : manager := mkManager 1 ∅ ∅ 0.

(** Source: src/modules/game/RoomManager.cpp:75-80, RoomManager::NextRoomIdLocked.
    The id and the new [next_room_id_]; [None] when the fuel does not suffice. *)
Fixpoint NextRoomIdLocked (fuel : nat) (rooms : gmap Z nat) (next : Z) : option (Z * Z) :=
  match fuel with
  | O => None
  | S fuel =>
    if (next =? 0) || bool_decide (is_Some (rooms !! next))
    then NextRoomIdLocked fuel rooms (next +₃₂ 1)
    else Some (next, next +₃₂ 1)
  end.

(** At most every room and the zero are skipped. *)
Definition id_fuel (rooms : gmap Z nat) : nat := S (S (size rooms)).

(** Source: include/iouring_runtime/game/RoomManager.h:30-42, RoomManager::CreateRoomAs. *)
Definition CreateRoom (m : manager) (name : bytes) : option (manager * nat) :=
  '(room_id, next) ← NextRoomIdLocked (id_fuel (rooms_ m)) (rooms_ m) (next_room_id_ m);
  let p := next_ptr m in
  let rooms := match rooms_ m !! room_id with
               | Some _ => rooms_ m | None => <[room_id := p]> (rooms_ m) end in
  Some (mkManager next rooms (<[p := Room.Room_new room_id name]> (heap m)) (S p), p).

(** Source: src/modules/game/RoomManager.cpp:14-22, RoomManager::AddRoom.
    [None] of the result is a dangling pointer. *)
Definition AddRoom (m : manager) (r : option nat) : option (manager * bool) :=
  match r with
  | None => Some (m, false)
  | Some p =>
    r ← heap m !! p;
    match rooms_ m !! Room.id_ _ r with
    | Some _ => Some (m, false)
    | None => Some (mkManager (next_room_id_ m) (<[Room.id_ _ r := p]> (rooms_ m)) (heap m)
                      (next_ptr m), true)
    end
  end.

(** Source: src/modules/game/RoomManager.cpp:24-31, RoomManager::FindRoom. *)
Definition FindRoom (m : manager) (room_id : Z) : option nat := rooms_ m !! room_id.

(** Source: src/modules/game/RoomManager.cpp:33-36, RoomManager::RemoveRoom. *)
Definition RemoveRoom (m : manager) (room_id : Z) : manager * bool :=
  (mkManager (next_room_id_ m) (delete room_id (rooms_ m)) (heap m) (next_ptr m),
   bool_decide (is_Some (rooms_ m !! room_id))).

(** Source: src/modules/game/RoomManager.cpp:38-47, RoomManager::Rooms. *)
Definition Rooms (m : manager) : list nat := (map_to_list (rooms_ m)).*2.

(** Source: include/iouring_runtime/game/RoomManager.h:19-24, RoomInfo. *)
Record RoomInfo := mkInfo { info_id : Z; info_name : bytes; player_count : Z; max_players : Z }.

(** Source: src/modules/game/RoomManager.cpp:49-63, RoomManager::GetRoomList. *)
Definition GetRoomList (m : manager) : option (list RoomInfo) :=
  mapM (λ '(id, p), r ← heap m !! p;
          Some (mkInfo id (Room.name_ r) (Room.PlayerCount r) Room.kMaxPlayers))
    (map_to_list (rooms_ m)).

(** Source: src/modules/game/RoomManager.cpp:65-68, RoomManager::RoomCount. *)
Definition RoomCount (m : manager) : Z := u32 (Z.of_nat (size (rooms_ m))).

(** The ids the loop tries. *)
Definition candidate (next : Z) (k : nat) : Z := u32 (next + Z.of_nat k).

Lemma candidate_inj next (i j n : nat) : Z.of_nat n ≤ 2 ^ 32 → (i < n)%nat → (j < n)%nat →
  candidate next i = candidate next j → i = j.
Proof.
  unfold candidate, u32. intros Hn Hi Hj He.
  assert ((next + Z.of_nat i - (next + Z.of_nat j)) mod 2 ^ 32 = 0) as Hm.
  { rewrite Zminus_mod, He, Z.sub_diag. done. }
  apply Z.mod_divide in Hm; [|lia]. destruct Hm as [k Hk]. nia.
Qed.

(** Among as many consecutive ids as there are rooms, plus two, one is free. *)
Lemma free_candidate (rooms : gmap Z nat) next :
  Z.of_nat (size rooms) < 2 ^ 32 - 1 →
  ∃ k, (k < id_fuel rooms)%nat ∧ candidate next k ≠ 0 ∧ rooms !! candidate next k = None.
Proof.
  intros Hsz.
  destruct (decide (Exists (λ k, candidate next k ≠ 0 ∧ rooms !! candidate next k = None)
                      (seq 0 (id_fuel rooms)))) as [Hex|Hno].
  { apply Exists_exists in Hex as (k&Hk%elem_of_seq&?&?). exists k. split; [lia|done]. }
  exfalso. set (n := id_fuel rooms) in *.
  assert (NoDup (candidate next <$> seq 0 n)) as Hnd.
  { apply NoDup_fmap_2_strong; [|apply NoDup_seq]. intros i j Hi%elem_of_seq Hj%elem_of_seq.
    apply (candidate_inj next i j n); unfold n, id_fuel in *; lia. }
  assert (list_to_set (candidate next <$> seq 0 n) ⊆@{gset Z} {[0]} ∪ dom rooms) as Hsub.
  { intros z Hz. apply elem_of_list_to_set, list_elem_of_fmap in Hz as (k&->&Hk).
    destruct (decide (candidate next k = 0)) as [->|H0]; [set_solver|].
    destruct (rooms !! candidate next k) eqn:E; [apply elem_of_dom_2 in E; set_solver|].
    destruct Hno. apply Exists_exists. eauto. }
  apply subseteq_size in Hsub. rewrite size_list_to_set in Hsub by done.
  rewrite length_fmap, length_seq in Hsub. unfold n, id_fuel in Hsub.
  pose proof (size_union_alt {[0]} (dom rooms)) as Hu. rewrite Hu, size_singleton in Hsub.
  pose proof (subseteq_size (dom rooms ∖ {[0]}) (dom rooms) ltac:(set_solver)) as Hd.
  rewrite size_dom in Hd. lia.
Qed.

Lemma NextRoomIdLocked_finds fuel rooms next k :
  0 ≤ next < 2 ^ 32 → (k < fuel)%nat →
  candidate next k ≠ 0 → rooms !! candidate next k = None →
  ∃ id, NextRoomIdLocked fuel rooms next = Some (id, id +₃₂ 1) ∧
        id ≠ 0 ∧ 0 ≤ id < 2 ^ 32 ∧ rooms !! id = None.
Proof.
  revert next k. induction fuel as [|fuel IH]; intros next k Hn Hk H0 Hf; [lia|]. simpl.
  destruct ((next =? 0) || bool_decide (is_Some (rooms !! next))) eqn:E.
  - destruct k as [|k].
    + unfold candidate in *. rewrite Z.add_0_r, u32_small in * by done.
      apply orb_true_iff in E as [E|E]; propify; [done|]. rewrite Hf in E. by destruct E.
    + apply (IH _ k); try done; [apply u32_range|lia| |].
      all: unfold candidate, u32 in *; rewrite Zplus_mod_idemp_l.
      all: by replace (next + 1 + Z.of_nat k) with (next + Z.of_nat (S k)) by lia.
  - apply orb_false_iff in E as [E1 E2]. propify. exists next.
    split; [done|]. split; [done|]. split; [done|]. by apply eq_None_not_Some.
Qed.

(** Creating a room succeeds as long as an id is left: the search for one
    ends after at most as many attempts as there are rooms, plus two, also when
    the 32-bit counter wraps around; the id is not zero and was not in use, the
    new room is found under it, and every other room keeps its id. *)
Theorem CreateRoom_fresh m name :
  0 ≤ next_room_id_ m < 2 ^ 32 → Z.of_nat (size (rooms_ m)) < 2 ^ 32 - 1 →
  ∃ m' p r, CreateRoom m name = Some (m', p) ∧
    heap m' !! p = Some r ∧ Room.id_ _ r ≠ 0 ∧ Room.name_ r = name ∧
    FindRoom m (Room.id_ _ r) = None ∧ FindRoom m' (Room.id_ _ r) = Some p ∧
    (∀ id, id ≠ Room.id_ _ r → FindRoom m' id = FindRoom m id) ∧
    0 ≤ next_room_id_ m' < 2 ^ 32.
Proof.
  intros Hn Hsz. destruct (free_candidate (rooms_ m) (next_room_id_ m) Hsz) as (k&Hk&H0&Hf).
  destruct (NextRoomIdLocked_finds _ _ _ _ Hn Hk H0 Hf) as (id&E&Hid&_&Hnew).
  unfold CreateRoom. rewrite E. cbn [mbind option_bind]. rewrite Hnew. do 3 eexists.
  split; [done|]. split; [apply lookup_insert_eq|].
  split; [done|]. split; [done|]. split; [done|].
  split; [apply lookup_insert_eq|]. split; [|apply u32_range].
  intros id' Hne. by apply lookup_insert_ne.
Qed.
End RoomManager.
Arguments manager : clear implicits.

Lemma CreateRoom_fresh_witness :
  let m := mkManager (PlayerData:=unit) (2 ^ 32 - 1) {[ 2 ^ 32 - 1 := 0%nat; 1 := 1%nat ]} ∅ 2 in
  ∃ m' p r, CreateRoom m (txt "lobby") = Some (m', p) ∧
    heap m' !! p = Some r ∧ Room.id_ _ r ≠ 0 ∧ Room.name_ r = txt "lobby" ∧
    FindRoom m (Room.id_ _ r) = None ∧ FindRoom m' (Room.id_ _ r) = Some p ∧
    (∀ id, id ≠ Room.id_ _ r → FindRoom m' id = FindRoom m id) ∧
    0 ≤ next_room_id_ m' < 2 ^ 32.
Proof. apply CreateRoom_fresh; vm_compute; [split; [discriminate|done]|done]. Defined.
End RoomManager.
