(* ===== verification/RingBuffer.v ===== *)
(** * The provided-buffer ring

    [src/runtime/ring/RingBuffer.cpp] and its header: one mapping holds the
    shared ring of buffer descriptors and the buffers themselves; the kernel
    takes descriptors from the ring when data arrives, the runtime views the
    buffer and puts its descriptor back.

    liburing's ring of descriptors is the class [BufRing]: [br_add] writes a
    descriptor at an offset from the tail, [br_advance] commits the next ones,
    and the kernel consumes the committed ones in order.  Addresses are
    integers; the mapping starts at [base]. *)

From S2P Require Import Prelude Types.

#[local] Open Scope Z_scope.
#[local] Open Scope cxx_scope.

(** ** liburing's buffer ring *)

Record buf := mkBuf { buf_addr_of : Z; buf_len : Z; buf_bid : Z }.

Class BufRing (B : Type) := {
  br_init : B;
  br_add : B → buf → Z → Z → B;
  br_advance : B → Z → B;
  br_consume : B → B;
  (** Descriptors the kernel can take, the oldest first, and the ones written
      but not committed, by their offset from the tail. *)
  br_provided : B → list buf;
  br_staged : B → Z → option buf;
  br_init_provided : br_provided br_init = [];
  br_add_provided b e mask o : br_provided (br_add b e mask o) = br_provided b;
  br_add_staged b e mask o o' :
    0 ≤ o → 0 ≤ o' → zlen (br_provided b) + o ≤ mask → zlen (br_provided b) + o' ≤ mask →
    br_staged (br_add b e mask o) o' = if decide (o = o') then Some e else br_staged b o';
  br_advance_provided b es :
    (∀ i : nat, (i < length es)%nat → br_staged b (Z.of_nat i) = es !! i) →
    br_provided (br_advance b (zlen es)) = br_provided b ++ es;
  br_consume_provided b e es : br_provided b = e :: es → br_provided (br_consume b) = es;
}.

(** ** The code *)

Section RingBuffer.
Context {B : Type} `{BufRing B}.

(** Source: src/runtime/ring/RingBuffer.cpp:19-21, is_power_of_two. *)
Definition is_power_of_two (v : Z) : bool := (0 <? v) && (Z.land v (v - 1) =? 0).

(** Source: src/runtime/ring/RingBuffer.cpp:23-25, log2u.
    [std::bit_width(v) - 1]. *)
Definition log2u (v : Z) : Z := Z.log2 v.

(** Source: include/iouring_runtime/core/RingBuffer.h:20-24, RingBufferConfig. *)
Record RingBufferConfig := mkBufConfig { buf_count : Z; buf_size : Z; group_id : Z }.

(** Source: include/iouring_runtime/core/RingBuffer.h:56-64, RingBuffer. *)
Record ring_buffer := mkRingBuffer {
  cfg_ : RingBufferConfig;
  ring_ptr_ : B;
  buf_size_shift_ : Z;
  data_base_ : Z;
  available_ : Z;
}.

Definition sizeof_io_uring_buf : Z := 16.

(** The loop that writes a descriptor for every buffer; [n] iterations are left
    and [i] is the 16-bit counter. *)
Fixpoint add_all (n : nat) (br : B) (data_base size shift mask i : Z) : B :=
  match n with
  | O => br
  | S n =>
    let addr := data_base + Z.shiftl i shift in
    add_all n (br_add br (mkBuf addr size i) mask i) data_base size shift mask (u16 (i + 1))
  end.

(** Source: src/runtime/ring/RingBuffer.cpp:29-75, RingBuffer::Create.
    [ring] tells a null pointer; [mapped] is the address [mmap] returned, if it
    did not fail, and [registered] the result of registering the ring. *)
Definition Create (ring : bool) (cfg : RingBufferConfig) (mapped : option Z) (registered : Z)
    : expected ring_buffer RingError :=
  if negb ring then Unexpected kBufferRegistrationFailed else
  if negb (is_power_of_two (buf_count cfg)) || negb (is_power_of_two (buf_size cfg))
  then Unexpected kBufferRegistrationFailed else
  let meta_size := sizeof_io_uring_buf * buf_count cfg in
  match mapped with
  | None => Unexpected kBufferRegistrationFailed
  | Some base =>
    if registered <? 0 then Unexpected kBufferRegistrationFailed else
    let shift := log2u (buf_size cfg) in
    let mask := buf_count cfg - 1 in
    let data_base := base + meta_size in
    let br := add_all (Z.to_nat (u16 (buf_count cfg))) br_init data_base (buf_size cfg) shift
                mask 0 in
    let br := br_advance br (buf_count cfg) in
    Value (mkRingBuffer cfg br shift data_base (buf_count cfg))
  end.

(** Source: src/runtime/ring/RingBuffer.cpp:95-97, RingBuffer::buf_addr. *)
Definition buf_addr (r : ring_buffer) (buf_id : Z) : Z :=
  data_base_ r + Z.shiftl buf_id (buf_size_shift_ r).

(** Source: src/runtime/ring/RingBuffer.cpp:99-107, RingBuffer::View.
    Address and length of the span, [None] the empty one. *)
Definition View (r : ring_buffer) (buf_id len : Z) : option (Z * Z) :=
  if buf_count (cfg_ r) <=? buf_id then None
  else Some (buf_addr r buf_id, len `min` buf_size (cfg_ r)).

(** Source: src/runtime/ring/RingBuffer.cpp:109-123, RingBuffer::Return. *)
Definition Return (r : ring_buffer) (buf_id : Z) : ring_buffer :=
  if buf_count (cfg_ r) <=? buf_id then r else
  let addr := buf_addr r buf_id in
  let mask := buf_count (cfg_ r) - 1 in
  let br := br_add (ring_ptr_ r) (mkBuf addr (buf_size (cfg_ r)) buf_id) mask 0 in
  let br := br_advance br 1 in
  mkRingBuffer (cfg_ r) br (buf_size_shift_ r) (data_base_ r) (available_ r +₃₂ 1).

(** Source: include/iouring_runtime/core/RingBuffer.h:46-48, RingBuffer::Available. *)
Definition Available (r : ring_buffer) : Z := available_ r.

(** ** Runs *)

(** The ring with the ids the runtime holds: the kernel hands out the oldest
    descriptor with a completion, the runtime returns one it holds. *)
Record state := mkState { rb : ring_buffer; held : list Z; returns : nat }.

Inductive rb_step : state → state → Prop :=
| step_take s e es :
    br_provided (ring_ptr_ (rb s)) = e :: es →
    rb_step s (mkState (mkRingBuffer (cfg_ (rb s)) (br_consume (ring_ptr_ (rb s)))
                          (buf_size_shift_ (rb s)) (data_base_ (rb s)) (available_ (rb s)))
                 (buf_bid e :: held s) (returns s))
| step_return s l1 id l2 :
    held s = l1 ++ id :: l2 →
    rb_step s (mkState (Return (rb s) id) (l1 ++ l2) (S (returns s))).

(** ** Proofs *)

Lemma power_of_two_log2 v : is_power_of_two v = true → 0 < v ∧ v = 2 ^ log2u v.
Proof.
  unfold is_power_of_two, log2u. intros E. propify. split; [done|].
  destruct (Z.log2_spec v ltac:(done)) as [Hlo Hhi].
  destruct (Z.eq_dec v (2 ^ Z.log2 v)) as [|Hne]; [done|]. exfalso.
  assert (Z.log2 (v - 1) = Z.log2 v) as Hl.
  { apply Z.log2_unique; [apply Z.log2_nonneg|]. lia. }
  assert (Z.testbit (Z.land v (v - 1)) (Z.log2 v) = true) as Hb.
  { rewrite Z.land_spec, Z.bit_log2 by done. rewrite <-Hl, Z.bit_log2; [done|].
    assert (2 ^ 0 ≤ 2 ^ Z.log2 v) by (apply Z.pow_le_mono_r; [lia|apply Z.log2_nonneg]).
    simpl in *. lia. }
  replace (Z.land v (v - 1)) with 0 in Hb by done. by rewrite Z.bits_0 in Hb.
Qed.

Section Config.
Context (cfg : RingBufferConfig) (base : Z).
Hypothesis count_ok : is_power_of_two (buf_count cfg) = true.
Hypothesis size_ok : is_power_of_two (buf_size cfg) = true.
Hypothesis count_u16 : buf_count cfg < 2 ^ 16.

Definition slot (i : Z) : buf :=
  mkBuf (base + sizeof_io_uring_buf * buf_count cfg + i * buf_size cfg) (buf_size cfg) i.

Lemma slot_addr i :
  base + sizeof_io_uring_buf * buf_count cfg + Z.shiftl i (log2u (buf_size cfg)) =
  buf_addr_of (slot i).
Proof.
  destruct (power_of_two_log2 _ size_ok) as [Hp Hs]. simpl.
  rewrite Z.shiftl_mul_pow2 by apply Z.log2_nonneg. by rewrite <-Hs.
Qed.

Lemma add_all_spec n br i :
  i + Z.of_nat n ≤ buf_count cfg → 0 ≤ i → br_provided br = [] →
  (∀ j, 0 ≤ j < i → br_staged br j = Some (slot j)) →
  let br' := add_all n br (base + sizeof_io_uring_buf * buf_count cfg) (buf_size cfg)
               (log2u (buf_size cfg)) (buf_count cfg - 1) i in
  br_provided br' = [] ∧ ∀ j, 0 ≤ j < i + Z.of_nat n → br_staged br' j = Some (slot j).
Proof.
  revert br i. induction n as [|n IH]; intros br i Hn Hi Hp Hs; simpl.
  { split; [done|]. intros. apply Hs. lia. }
  rewrite slot_addr. change (mkBuf (buf_addr_of (slot i)) (buf_size cfg) i) with (slot i).
  rewrite u16_small by lia.
  destruct (IH (br_add br (slot i) (buf_count cfg - 1) i) (i + 1)) as [H1 H2].
  - lia.
  - lia.
  - by rewrite br_add_provided.
  - intros j Hj. rewrite br_add_staged by (rewrite ?Hp, ?zlen_nil; lia).
    case_decide; [by subst|]. apply Hs. lia.
  - split; [done|]. intros j Hj. apply H2. lia.
Qed.

Definition all_ids : list Z := map Z.of_nat (seq 0 (Z.to_nat (buf_count cfg))).

(** Every buffer is either with the kernel, described correctly, or held. *)
Record rb_inv (s : state) : Prop := mkInv {
  inv_cfg : cfg_ (rb s) = cfg;
  inv_shift : buf_size_shift_ (rb s) = log2u (buf_size cfg);
  inv_base : data_base_ (rb s) = base + sizeof_io_uring_buf * buf_count cfg;
  inv_provided : Forall (λ e, e = slot (buf_bid e)) (br_provided (ring_ptr_ (rb s)));
  inv_ids : map buf_bid (br_provided (ring_ptr_ (rb s))) ++ held s ≡ₚ all_ids;
  inv_available : available_ (rb s) = u32 (buf_count cfg + Z.of_nat (returns s));
}.

Lemma Create_inv ring registered r :
  Create ring cfg (Some base) registered = Value r → rb_inv (mkState r [] 0).
Proof.
  destruct (power_of_two_log2 _ count_ok) as [Hc _].
  unfold Create. rewrite count_ok, size_ok. cbn [negb orb].
  destruct ring; cbn [negb]; [|done]. case_match; [done|]. intros [= <-].
  rewrite u16_small by lia.
  destruct (add_all_spec (Z.to_nat (buf_count cfg)) br_init 0) as [Hp Hs];
    [lia|lia|apply br_init_provided|lia|].
  set (br := add_all _ _ _ _ _ _ _) in *.
  assert (zlen (map slot all_ids) = buf_count cfg) as Hlen.
  { unfold all_ids, zlen. rewrite !length_map, length_seq. lia. }
  assert (br_provided (br_advance br (buf_count cfg)) = map slot all_ids) as Hprov.
  { rewrite <-Hlen at 1. rewrite br_advance_provided, Hp; [done|]. intros i Hi.
    unfold zlen in Hlen. rewrite Hs by lia. unfold all_ids. rewrite map_map.
    rewrite (list_lookup_fmap (λ x, slot (Z.of_nat x))), lookup_seq_lt by lia. done. }
  split; simpl; try done.
  - rewrite Hprov. apply Forall_forall. intros e (i&->&_)%list_elem_of_fmap. done.
  - rewrite Hprov, map_map, app_nil_r. simpl. by rewrite map_id.
  - rewrite Z.add_0_r, u32_small by lia. done.
Qed.

Lemma rb_inv_ids s id : rb_inv s → id ∈ held s → 0 ≤ id < buf_count cfg.
Proof.
  intros Hi Hin. assert (id ∈ all_ids) as Ha.
  { rewrite <-(inv_ids s Hi). apply elem_of_app. by right. }
  unfold all_ids in Ha. apply list_elem_of_fmap in Ha as (n&->&Hn%elem_of_seq). lia.
Qed.

Lemma rb_step_inv s s' : rb_inv s → rb_step s s' → rb_inv s'.
Proof.
  intros Hi Hstep. pose proof Hi as [Hcfg Hsh Hb Hp Hids Ha].
  destruct Hstep as [s e es E|s l1 id l2 E].
  - rewrite E in Hp, Hids. inversion Hp; subst.
    split; simpl; rewrite ?(br_consume_provided _ _ _ E); try done.
    rewrite <-Hids. simpl. by rewrite <-Permutation_middle.
  - assert (0 ≤ id < buf_count cfg) as Hid.
    { apply (rb_inv_ids s); [done|]. rewrite E. set_solver. }
    unfold Return. rewrite Hcfg, (proj2 (Z.leb_gt _ _)) by lia.
    assert (zlen (br_provided (ring_ptr_ (rb s))) < buf_count cfg) as Hroom.
    { apply Permutation_length in Hids. rewrite E, !length_app, length_map in Hids.
      unfold all_ids in Hids. rewrite length_map, length_seq in Hids.
      simpl in Hids. unfold zlen. lia. }
    unfold buf_addr. rewrite Hb, Hsh, slot_addr.
    change (mkBuf (buf_addr_of (slot id)) (buf_size cfg) id) with (slot id).
    pose proof (br_advance_provided
      (br_add (ring_ptr_ (rb s)) (slot id) (buf_count cfg - 1) 0) [slot id]) as Hadv.
    rewrite br_add_provided in Hadv. change (zlen [slot id]) with 1 in Hadv.
    split; simpl; try done; try (rewrite Hadv; [|intros [|i] Hlt; [|simpl in Hlt; lia];
      simpl; rewrite br_add_staged by lia; by rewrite decide_True]).
    + apply Forall_app. split; [done|]. by constructor.
    + rewrite map_app, <-app_assoc. simpl. rewrite <-Hids, E. f_equiv.
      by rewrite Permutation_middle.
    + rewrite Ha. unfold u32. rewrite Zplus_mod_idemp_l. f_equal. lia.
Qed.

(** Buffers of different ids do not overlap and lie inside the mapping. *)
Lemma slots_apart i j : 0 < buf_size cfg → i ≠ j →
  buf_addr_of (slot i) + buf_size cfg ≤ buf_addr_of (slot j) ∨
  buf_addr_of (slot j) + buf_size cfg ≤ buf_addr_of (slot i).
Proof. intros. simpl. nia. Qed.

Lemma View_slot s id len : rb_inv s → 0 ≤ id < buf_count cfg →
  View (rb s) id len = Some (buf_addr_of (slot id), len `min` buf_size cfg).
Proof.
  intros [Hcfg Hsh Hb _ _ _] Hid. unfold View, buf_addr. rewrite Hcfg, Hb, Hsh, slot_addr.
  by rewrite (proj2 (Z.leb_gt _ _)) by lia.
Qed.
End Config.

Lemma Create_Value ring cfg mapped registered r :
  Create ring cfg mapped registered = Value r →
  ∃ base, mapped = Some base ∧ is_power_of_two (buf_count cfg) = true ∧
          is_power_of_two (buf_size cfg) = true.
Proof.
  unfold Create. destruct ring; [|done]. destruct (is_power_of_two (buf_count cfg)); [|done].
  destruct (is_power_of_two (buf_size cfg)); [|done]. simpl.
  destruct mapped as [base|]; [|done]. eauto.
Qed.

(** A receive buffer is never shared: from [Create] on, whatever the kernel
    takes and the runtime returns, every buffer id is either offered to the
    kernel exactly once or held by the runtime, and what [View] shows of a held
    buffer lies inside the mapping and overlaps neither a buffer the kernel may
    write to nor another held one. *)
Theorem ring_buffer_partition ring cfg mapped registered r s :
  Create ring cfg mapped registered = Value r → buf_count cfg < 2 ^ 16 →
  steps rb_step (mkState r [] 0) s →
  map buf_bid (br_provided (ring_ptr_ (rb s))) ++ held s ≡ₚ all_ids cfg ∧
  ∀ base id len, mapped = Some base → id ∈ held s → 0 ≤ len →
  ∃ a n, View (rb s) id len = Some (a, n) ∧ n ≤ len ∧
    base + sizeof_io_uring_buf * buf_count cfg ≤ a ∧
    a + n ≤ base + (sizeof_io_uring_buf + buf_size cfg) * buf_count cfg ∧
    (∀ e, e ∈ br_provided (ring_ptr_ (rb s)) →
       a + n ≤ buf_addr_of e ∨ buf_addr_of e + buf_len e ≤ a) ∧
    (∀ id' len' a' n', id' ∈ held s → id' ≠ id → View (rb s) id' len' = Some (a', n') →
       a + n ≤ a' ∨ a' + n' ≤ a).
Proof.
  intros HC H16 Hs. destruct (Create_Value _ _ _ _ _ HC) as (base&->&Hc&Hz).
  assert (rb_inv cfg base s) as Hi.
  { eapply (steps_invariant rb_step (rb_inv cfg base)); [|by eapply Create_inv|exact Hs].
    intros a b. by apply rb_step_inv. }
  split; [apply (inv_ids cfg base s Hi)|]. intros base' id len [= <-] Hid Hlen.
  pose proof (rb_inv_ids cfg base s id Hi Hid) as Hrange.
  destruct (power_of_two_log2 _ Hz) as [Hsz _].
  eexists _, _. split; [by apply (View_slot cfg base)|]. split; [lia|].
  split; [simpl; nia|]. split; [simpl; nia|]. split.
  - intros e He. pose proof (inv_provided cfg base s Hi) as Hp. rewrite Forall_forall in Hp.
    specialize (Hp e He). remember (buf_bid e) as j eqn:Hj. rewrite Hp.
    change (buf_len (slot cfg base j)) with (buf_size cfg).
    destruct (decide (id = j)) as [->|Hne];
      [|pose proof (slots_apart cfg base id j Hsz Hne); lia].
    exfalso. pose proof (inv_ids cfg base s Hi) as Hids.
    assert (NoDup (all_ids cfg)) as Hnd.
    { apply NoDup_fmap_2; [intros ??; lia|apply NoDup_seq]. }
    rewrite <-Hids in Hnd. apply NoDup_app in Hnd as (_&Hd&_).
    apply (Hd j); [|done]. apply list_elem_of_fmap. by exists e.
  - intros id' len' a' n' Hid' Hne. rewrite (View_slot cfg base) by
      (try done; by apply (rb_inv_ids cfg base s)). intros [= <- <-].
    pose proof (slots_apart cfg base id id' Hsz ltac:(done)) as Hap.
    change (buf_addr_of (slot cfg base id')) with
      (base + sizeof_io_uring_buf * buf_count cfg + id' * buf_size cfg) in Hap. lia.
Qed.

(** The counter behind [Available] only ever grows. *)
Theorem Available_counts_returns ring cfg mapped registered r s :
  Create ring cfg mapped registered = Value r → buf_count cfg < 2 ^ 16 →
  steps rb_step (mkState r [] 0) s →
  Available (rb s) = u32 (buf_count cfg + Z.of_nat (returns s)).
Proof.
  intros HC H16 Hs. destruct (Create_Value _ _ _ _ _ HC) as (base&->&Hc&Hz).
  apply (inv_available cfg base).
  eapply (steps_invariant rb_step (rb_inv cfg base)); [|by eapply Create_inv|exact Hs].
  intros a b. by apply rb_step_inv.
Qed.
End RingBuffer.

(** ** A buffer ring: committed descriptors and staged ones by offset *)

Lemma omap_seq {A} (f : nat → option A) (l : list A) k :
  (∀ i, (i < length l)%nat → f (k + i)%nat = l !! i) → omap f (seq k (length l)) = l.
Proof.
  revert k. induction l as [|x l IH]; intros k Hf; simpl; [done|].
  pose proof (Hf 0%nat ltac:(simpl; lia)) as E. rewrite Nat.add_0_r in E. rewrite E. simpl.
  f_equal. apply IH. intros i Hi. rewrite Nat.add_succ_comm. apply (Hf (S i)). simpl. lia.
Qed.

Definition list_ring : Type := list buf * gmap Z buf.

#[export, program] Instance list_ring_ops : BufRing list_ring := {
  br_init := ([], ∅);
  br_add b e _ o := (b.1, <[o := e]> b.2);
  br_advance b n := (b.1 ++ omap (λ i, b.2 !! Z.of_nat i) (seq 0 (Z.to_nat n)), ∅);
  br_consume b := (tail b.1, b.2);
  br_provided b := b.1;
  br_staged b o := b.2 !! o;
}.
Next Obligation. done. Qed.
Next Obligation. done. Qed.
Next Obligation. intros. simpl. rewrite lookup_insert. repeat case_decide; done. Qed.
Next Obligation.
  intros [p st] es Hs. simpl in *. f_equal. unfold zlen. rewrite Nat2Z.id.
  apply (omap_seq (λ i, st !! Z.of_nat i)). intros i Hi. by apply Hs.
Qed.
Next Obligation. intros [p st] e es Hp. simpl in *. by rewrite Hp. Qed.

Definition sample_cfg : RingBufferConfig := mkBufConfig 4 2048 1.
Definition sample_ring : ring_buffer (B:=list_ring) :=
  mkRingBuffer sample_cfg (map (slot sample_cfg 4096) [0; 1; 2; 3], ∅) 11 (4096 + 16 * 4) 4.

Lemma sample_create : Create true sample_cfg (Some 4096) 0 = Value sample_ring.
Proof. reflexivity. Qed.

(** The kernel has filled buffers 0 and 1; buffer 0 was returned. *)
Definition sample_state : state (B:=list_ring) :=
  mkState (mkRingBuffer sample_cfg
             (map (slot sample_cfg 4096) [2; 3; 0], ∅) 11 (4096 + 16 * 4) 5) [1] 1.

Lemma ring_sample_steps : steps rb_step (mkState sample_ring [] 0) sample_state.
Proof.
  eapply steps_cons; [by eapply step_take|]. eapply steps_cons; [by eapply step_take|].
  eapply steps_cons; [by eapply (step_return _ [1] 0 [])|]. apply steps_refl.
Qed.

Lemma ring_buffer_partition_witness :
  map buf_bid (br_provided (ring_ptr_ (rb sample_state))) ++ held sample_state
    ≡ₚ all_ids sample_cfg ∧
  View (rb sample_state) 1 100 = Some (4096 + 64 + 2048, 100) ∧
  ∃ a n, View (rb sample_state) 1 100 = Some (a, n) ∧ n ≤ 100 ∧
    ∀ e, e ∈ br_provided (ring_ptr_ (rb sample_state)) →
      a + n ≤ buf_addr_of e ∨ buf_addr_of e + buf_len e ≤ a.
Proof.
  pose proof (ring_buffer_partition true sample_cfg (Some 4096) 0 sample_ring sample_state
    sample_create ltac:(done) ring_sample_steps) as [Hp Hv].
  split; [exact Hp|]. split; [reflexivity|].
  destruct (Hv 4096 1 100 eq_refl ltac:(left) ltac:(lia)) as (a&n&E&Hn&_&_&He&_).
  exists a, n. done.
Defined.

Lemma Available_counts_returns_witness :
  Available (rb sample_state) = 5 ∧
  Available (rb sample_state) = u32 (buf_count sample_cfg + Z.of_nat (returns sample_state)).
Proof.
  split; [reflexivity|].
  exact (Available_counts_returns true sample_cfg (Some 4096) 0 sample_ring sample_state
    sample_create ltac:(done) ring_sample_steps).
Defined.
