(* ===== verification/Ring.v ===== *)
(** * The ring

    [src/runtime/ring/IoRing.cpp] with [core/IoRing.h] and [core/RingEvent.h]:
    preparing and submitting requests, dispatching completions to events, and
    handing tasks to the ring's thread, by a message from another ring's thread
    or through a mutex-protected list and an eventfd that wakes the thread.

    liburing's submission queue is the class [Uring]: an entry is queued until a
    submit call hands it to the kernel.  Completions are inputs.  What an event's
    virtual [Dispatch] and a task do are parameters acting on the whole world;
    event and task objects are addresses with the set of the live ones, and
    touching a dead one is undefined behaviour ([None]). *)

From S2P Require Import Prelude Types.

#[local] Open Scope Z_scope.
#[local] Open Scope cxx_scope.
#[local] Set Warnings "-clear-no-such-hyp".

(** ** Events *)

(** Source: include/iouring_runtime/core/RingEvent.h:17-20, DispatchResult. *)
Inductive DispatchResult := kComplete | kPending.

(** Source: include/iouring_runtime/core/RingEvent.h:30-41, EventType. *)
Inductive EventType :=
| kAccept | kRecv | kRead | kWrite | kSend | kConnect | kDisconnectEv | kCancel | kPoll
| kTimeoutEv.

#[export] Instance DispatchResult_eq_dec : EqDecision DispatchResult.
Proof. solve_decision. Defined.
#[export] Instance EventType_eq_dec : EqDecision EventType.
Proof. solve_decision. Defined.

Definition IORING_CQE_F_MORE : Z := 2.

(** Source: include/iouring_runtime/core/RingEvent.h:22-26, MultishotDispatchResult. *)
Definition MultishotDispatchResult (flags : Z) : DispatchResult :=
  if negb (Z.land flags IORING_CQE_F_MORE =? 0) then kPending else kComplete.

(** Source: include/iouring_runtime/core/RingEvent.h:62-70, IoEvent::DefaultDispatchResult. *)
Definition DefaultDispatchResult (type_ : EventType) (flags : Z) : DispatchResult :=
  match type_ with
  | kAccept | kRecv => MultishotDispatchResult flags
  | _ => kComplete
  end.

(** Source: include/iouring_runtime/core/RingEvent.h:86-88, IoEvent::ShouldDeleteAfterDispatch. *)
Definition ShouldDeleteAfterDispatch (auto_delete_ : bool) (result : DispatchResult) : bool :=
  auto_delete_ && bool_decide (result = kComplete).

(** Source: include/iouring_runtime/core/RingEvent.h:144-148, RecvEvent::EnsureBuffer.
    The size of the buffer. *)
Definition EnsureBuffer (buffer_size size : Z) : Z :=
  if buffer_size <? size then size else buffer_size.

(** ** Submission *)

(** What a submission queue entry asks for; file descriptors and buffers as
    integers, [cancel_of] and [remove_of] are the user data of another entry. *)
Inductive opcode :=
| OpRecvSelect (fd group : Z)
| OpRecvInto (fd addr len : Z)
| OpRecvMultishot (fd group : Z)
| OpRead (fd addr nbytes offset : Z)
| OpWrite (fd addr nbytes offset : Z)
| OpSendMsg (fd : Z) (iov_lens : list Z) (flags : Z)
| OpMultishotAccept (fd : Z)
| OpAccept (fd : Z)
| OpShutdown (fd : Z)
| OpTimeout (tv_sec tv_nsec : Z)
| OpCancel (cancel_of : Z)
| OpConnect (fd addr len : Z)
| OpPollAdd (fd mask : Z)
| OpPollRemove (remove_of : Z)
| OpMsgRing (fd data : Z).

Record sqe := mkSqe { op : opcode; user_data : Z }.

Class Uring (U : Type) := {
  (** [io_uring_get_sqe] and filling the entry; [None] when the queue is full. *)
  u_push : U → sqe → option U;
  (** [io_uring_submit] and its result. *)
  u_submit : U → U * Z;
  (** Entries not yet handed to the kernel. *)
  u_queued : U → list sqe;
  u_push_queued u s u' : u_push u s = Some u' → u_queued u' = u_queued u ++ [s];
  u_submit_queued u u' n : u_submit u = (u', n) →
    u_queued u' = if n <? 0 then u_queued u else zdrop n (u_queued u);
}.

(** The entries filled so far, the oldest first: a history that only filling an entry
    extends. *)
Class UringHistory (U : Type) `{Uring U} := {
  u_pushed : U → list sqe;
  u_push_pushed u s u' : u_push u s = Some u' → u_pushed u' = u_pushed u ++ [s];
  u_submit_pushed u u' n : u_submit u = (u', n) → u_pushed u' = u_pushed u;
}.

(** Every queue can be given one. *)
Record logged (U : Type) := mkLogged { bare : U; pushed : list sqe }.
Arguments mkLogged {_}.
Arguments bare {_}.
Arguments pushed {_}.

#[export, refine] Instance logged_uring `{Uring U} : Uring (logged U) := {
  u_push l s := u ← u_push (bare l) s; Some (mkLogged u (pushed l ++ [s]));
  u_submit l := let '(u, n) := u_submit (bare l) in (mkLogged u (pushed l), n);
  u_queued l := u_queued (bare l);
}.
Proof.
  - intros l s l'. destruct (u_push (bare l) s) as [u|] eqn:E; [|done]. intros [= <-]. by apply u_push_queued.
  - intros l l' n. destruct (u_submit (bare l)) as [u k] eqn:E. intros [= <- <-]. by apply u_submit_queued.
Defined.

#[export, refine] Instance logged_history `{Uring U} : UringHistory (logged U) := { u_pushed := pushed }.
Proof.
  - intros l s l'. cbn. destruct (u_push (bare l) s) as [u|]; [|done]. by intros [= <-].
  - intros l l' n. cbn. destruct (u_submit (bare l)) as [u k]. by intros [= <- _].
Defined.

Section Ring.
Context {U : Type} `{Uring U} {Task : Type}.

(** Source: src/runtime/ring/IoRing.cpp:16-16, kWakeUserData. *)
Definition kWakeUserData : Z := 2.
Definition POLLIN : Z := 1.

(** The members shared with posting threads and the state of the eventfd. *)
Record wake_state := mkWake {
  posted_ : list Task;
  wake_fd_ : Z;
  wake_poll_armed_ : bool;
  efd : Z;
}.

(** Source: include/iouring_runtime/core/IoRing.h:107-117, IoRing.
    [buf_ring_] is its group id, if there is one. *)
Record io_ring := mkIoRing {
  ring_ : U;
  buf_ring_ : option Z;
  submit_batch_size_ : Z;
  cqe_batch_budget_ : Z;
  pending_submissions_ : Z;
  wk : wake_state;
}.

Definition set_ring (r : io_ring) (u : U) : io_ring :=
  mkIoRing u (buf_ring_ r) (submit_batch_size_ r) (cqe_batch_budget_ r)
    (pending_submissions_ r) (wk r).
Definition set_pending (r : io_ring) (n : Z) : io_ring :=
  mkIoRing (ring_ r) (buf_ring_ r) (submit_batch_size_ r) (cqe_batch_budget_ r) n (wk r).
Definition set_wk (r : io_ring) (w : wake_state) : io_ring :=
  mkIoRing (ring_ r) (buf_ring_ r) (submit_batch_size_ r) (cqe_batch_budget_ r)
    (pending_submissions_ r) w.
Definition wake_armed (w : wake_state) (b : bool) : wake_state :=
  mkWake (posted_ w) (wake_fd_ w) b (efd w).
Definition set_armed (r : io_ring) (b : bool) : io_ring := set_wk r (wake_armed (wk r) b).

(** Source: src/runtime/ring/IoRing.cpp:204-211, IoRing::FlushSubmissions. *)
Definition FlushSubmissions (r : io_ring) : io_ring * Z :=
  if pending_submissions_ r =? 0 then (r, 0) else
  let r := set_pending r 0 in
  let '(u, n) := u_submit (ring_ r) in (set_ring r u, n).

(** Source: src/runtime/ring/IoRing.cpp:196-202, IoRing::Submit. *)
Definition Submit (r : io_ring) : io_ring * Z :=
  let r := set_pending r (pending_submissions_ r +₃₂ 1) in
  if pending_submissions_ r <? submit_batch_size_ r then (r, 0) else FlushSubmissions r.

(** Source: src/runtime/ring/IoRing.cpp:213-231, IoRing::ArmWakePoll. *)
Definition ArmWakePoll (r : io_ring) : io_ring :=
  if (wake_fd_ (wk r) <? 0) || wake_poll_armed_ (wk r) then r else
  match u_push (ring_ r) (mkSqe (OpPollAdd (wake_fd_ (wk r)) POLLIN) kWakeUserData) with
  | None => r
  | Some u =>
    let '(u, n) := u_submit u in
    let r := set_ring r u in
    if n <? 0 then r else set_armed r true
  end.

(** Source: src/runtime/ring/IoRing.cpp:93-106, IoRing::IoRing.
    [fd] is the result of [eventfd]. *)
Definition IoRing_new (u : U) (br : option Z) (batch budget fd : Z) : io_ring :=
  let r := mkIoRing u br batch budget 0 (mkWake [] fd false 0) in
  if fd <? 0 then r else ArmWakePoll r.

(** Source: src/runtime/ring/IoRing.cpp:233-243, IoRing::DrainWakeFd.
    Reading an eventfd until it would block leaves it at zero. *)
Definition DrainWakeFd (w : wake_state) : wake_state :=
  if wake_fd_ w <? 0 then w else
  mkWake (posted_ w) (wake_fd_ w) (wake_poll_armed_ w) 0.

Definition EFD_MAX : Z := 2 ^ 64 - 2.

(** Source: src/runtime/ring/IoRing.cpp:245-255, IoRing::Wake.
    A write that would overflow the counter fails and leaves it as it is. *)
Definition Wake (w : wake_state) : wake_state :=
  if wake_fd_ w <? 0 then w else
  mkWake (posted_ w) (wake_fd_ w) (wake_poll_armed_ w)
    (if efd w + 1 <=? EFD_MAX then efd w + 1 else efd w).

(** The critical section of [Post]. *)
Definition post_push (w : wake_state) (t : Task) : wake_state :=
  mkWake (posted_ w ++ [t]) (wake_fd_ w) (wake_poll_armed_ w) (efd w).

(** Source: src/runtime/ring/IoRing.cpp:465-474, IoRing::Post.
    [own] tells whether the caller runs on this ring's thread. *)
Definition Post (w : wake_state) (own : bool) (t : Task) : wake_state :=
  let w := post_push w t in if own then w else Wake w.

(** The critical section of [ProcessPostedTasks]. *)
Definition take_posted (w : wake_state) : wake_state * list Task :=
  (mkWake [] (wake_fd_ w) (wake_poll_armed_ w) (efd w), posted_ w).

(** *** Preparing requests *)

(** Getting an entry, filling it and setting its user data. *)
Definition prep (r : io_ring) (o : opcode) (data : Z) : io_ring * bool :=
  match u_push (ring_ r) (mkSqe o data) with
  | None => (r, false)
  | Some u => (set_ring r u, true)
  end.

(** Source: src/runtime/ring/IoRing.cpp:257-273, IoRing::PrepRecv.
    [ev] is the event's address, [buf] the address and size of the buffer inside
    it; the size may grow. *)
Definition PrepRecv (r : io_ring) (ev fd : Z) (buf : Z * Z) : io_ring * Z * bool :=
  match buf_ring_ r with
  | Some group => let '(r, ok) := prep r (OpRecvSelect fd group) ev in (r, buf.2, ok)
  | None =>
    let size := EnsureBuffer buf.2 8192 in
    let '(r, ok) := prep r (OpRecvInto fd buf.1 size) ev in
    (r, if ok : bool then size else buf.2, ok)
  end.

(** Source: src/runtime/ring/IoRing.cpp:275-289, IoRing::PrepRecvMultishot. *)
Definition PrepRecvMultishot (r : io_ring) (ev fd : Z) (buf : Z * Z) : io_ring * Z * bool :=
  match buf_ring_ r with
  | None => PrepRecv r ev fd buf
  | Some group => let '(r, ok) := prep r (OpRecvMultishot fd group) ev in (r, buf.2, ok)
  end.

(** Source: src/runtime/ring/IoRing.cpp:291-301, IoRing::PrepRead. *)
Definition PrepRead (r : io_ring) (ev fd addr nbytes offset : Z) : io_ring * bool :=
  prep r (OpRead fd addr nbytes offset) ev.

(** Source: src/runtime/ring/IoRing.cpp:303-313, IoRing::PrepWrite. *)
Definition PrepWrite (r : io_ring) (ev fd addr nbytes offset : Z) : io_ring * bool :=
  prep r (OpWrite fd addr nbytes offset) ev.

(** Source: src/runtime/ring/IoRing.cpp:315-330, IoRing::PrepSendMsg.
    The result carries the bytes requested of the event, when they are set. *)
Definition PrepSendMsg (r : io_ring) (ev fd : Z) (iov_lens : list Z) (flags : Z)
    : io_ring * option Z :=
  let total := foldl (λ n len, n +₆₄ len) 0 iov_lens in
  let '(r, ok) := prep r (OpSendMsg fd iov_lens flags) ev in
  (r, if ok : bool then Some total else None).

(** Source: src/runtime/ring/IoRing.cpp:332-345, IoRing::PrepAcceptMultishot. *)
Definition PrepAcceptMultishot (r : io_ring) (ev listen_fd : Z) : io_ring * bool :=
  prep r (if bool_decide (is_Some (buf_ring_ r)) then OpMultishotAccept listen_fd
          else OpAccept listen_fd) ev.

(** Source: src/runtime/ring/IoRing.cpp:347-356, IoRing::PrepDisconnect. *)
Definition PrepDisconnect (r : io_ring) (ev fd : Z) : io_ring * bool :=
  prep r (OpShutdown fd) ev.

(** Source: src/runtime/ring/IoRing.cpp:358-371, IoRing::PrepTimeout.
    [duration] in nanoseconds; the casts of [<chrono>] truncate. *)
Definition PrepTimeout (r : io_ring) (ev duration : Z) : io_ring * bool :=
  let secs := Z.quot duration 1000000000 in
  let rest := duration - secs * 1000000000 in
  prep r (OpTimeout secs rest) ev.

(** Source: src/runtime/ring/IoRing.cpp:373-388, IoRing::PrepCancel. *)
Definition PrepCancel (r : io_ring) (target : Z) (cancel_ev : option Z) : io_ring * bool :=
  prep r (OpCancel target) (default 0 cancel_ev).

(** Source: src/runtime/ring/IoRing.cpp:390-400, IoRing::PrepConnect. *)
Definition PrepConnect (r : io_ring) (ev fd addr len : Z) : io_ring * bool :=
  prep r (OpConnect fd addr len) ev.

(** Source: src/runtime/ring/IoRing.cpp:402-411, IoRing::PrepPollAdd. *)
Definition PrepPollAdd (r : io_ring) (ev fd poll_mask : Z) : io_ring * bool :=
  prep r (OpPollAdd fd poll_mask) ev.

(** Source: src/runtime/ring/IoRing.cpp:413-422, IoRing::PrepPollRemove. *)
Definition PrepPollRemove (r : io_ring) (ev : Z) : io_ring * bool :=
  prep r (OpPollRemove ev) 0.
End Ring.
Arguments wake_state : clear implicits.
Arguments io_ring : clear implicits.

(** ** Set-up *)

Module Setup.
Definition IORING_SETUP_SQPOLL : Z := 2.
Definition IORING_SETUP_SQ_AFF : Z := 4.
Definition IORING_SETUP_SINGLE_ISSUER : Z := 4096.
Definition EPERM : Z := 1.

(** Source: include/iouring_runtime/core/IoRing.h:26-36, IoRingConfig. *)
Record IoRingConfig := mkRingConfig {
  queue_depth : Z;
  submit_batch_size : Z;
  cqe_batch_budget : Z;
  single_issuer : bool;
  sqpoll : bool;
  sq_thread_idle : Z;
  sq_thread_cpu : Z;
}.

(** The parameters of [io_uring_queue_init_params]. *)
Record params := mkParams { flags : Z; thread_idle : Z; thread_cpu : Z }.

(** What the code asked of the kernel, in order. *)
Inductive request := Init (p : params) | RegisterRingFd | CreateBufRing.

(** Source: src/runtime/ring/IoRing.cpp:37-91, IoRing::Create.
    [alloc] is the outcome of the allocation, [init] the result of setting up a
    ring with given parameters, [buf_ring] whether the buffer ring could be
    created.  The result of a success is the parameters of the ring, whether it
    has a buffer ring, and its batch size and budget. *)
Definition Create (alloc : bool) (init : params → Z) (buf_ring : bool) (cfg : IoRingConfig)
    : expected (params * bool * Z * Z) RingError * list request :=
  if negb alloc then (Unexpected kSetupFailed, []) else
  let p := mkParams (if single_issuer cfg then IORING_SETUP_SINGLE_ISSUER else 0) 0 0 in
  let p :=
    if sqpoll cfg then
      let p := mkParams (Z.lor (flags p) IORING_SETUP_SQPOLL) (sq_thread_idle cfg) 0 in
      if 0 <=? sq_thread_cpu cfg
      then mkParams (Z.lor (flags p) IORING_SETUP_SQ_AFF) (thread_idle p) (sq_thread_cpu cfg)
      else p
    else p in
  let finish p reqs :=
    let reqs := if sqpoll cfg && negb (Z.land (flags p) IORING_SETUP_SQPOLL =? 0)
                then reqs ++ [RegisterRingFd] else reqs in
    (Value (p, buf_ring, 1 `max` submit_batch_size cfg, cqe_batch_budget cfg),
     reqs ++ [CreateBufRing]) in
  let ret := init p in
  if ret <? 0 then
    if sqpoll cfg && (ret =? - EPERM) then
      let q := mkParams (Z.ldiff (flags p) (Z.lor IORING_SETUP_SQPOLL IORING_SETUP_SQ_AFF)) 0 0 in
      if init q <? 0 then (Unexpected kSetupFailed, [Init p; Init q])
      else finish q [Init p; Init q]
    else (Unexpected kSetupFailed, [Init p])
  else finish p [Init p].

Lemma sqpoll_cleared (f : Z) :
  Z.land (Z.ldiff f (Z.lor IORING_SETUP_SQPOLL IORING_SETUP_SQ_AFF)) IORING_SETUP_SQPOLL = 0.
Proof.
  apply Z.bits_inj'. intros n Hn. rewrite Z.land_spec, Z.ldiff_spec, Z.lor_spec, Z.bits_0.
  destruct (Z.testbit f n), (Z.testbit IORING_SETUP_SQPOLL n),
    (Z.testbit IORING_SETUP_SQ_AFF n); done.
Qed.

(** Without the privilege for a kernel submission thread the ring is set up
    without it, and the ring's descriptor is then not registered either. *)
Lemma Create_fallback init buf_ring cfg q b n m reqs :
  sqpoll cfg = true → (∀ p, negb (Z.land (flags p) IORING_SETUP_SQPOLL =? 0) = true →
                            init p = - EPERM) →
  Create true init buf_ring cfg = (Value (q, b, n, m), reqs) →
  Z.land (flags q) IORING_SETUP_SQPOLL = 0 ∧ thread_idle q = 0 ∧ 1 ≤ n ∧ (RegisterRingFd ∉ reqs).
Proof.
  intros Hs Hinit HC. revert HC. unfold Create. rewrite Hs. cbn [negb].
  set (p0 := if 0 <=? sq_thread_cpu cfg then _ else _).
  assert (init p0 = - EPERM) as ->.
  { apply Hinit. unfold p0. by destruct (0 <=? _), (single_issuer cfg). }
  cbn [andb]. rewrite Z.eqb_refl. cbn -[Z.ldiff Z.lor Z.land Z.max].
  set (q0 := mkParams _ 0 0). rewrite (sqpoll_cleared (flags p0)). cbn [negb Z.eqb].
  destruct (init q0 <? 0); [done|]. intros [= <- <- <- <- <-].
  split; [apply sqpoll_cleared|]. split; [done|]. split; [lia|].
  rewrite !elem_of_cons, elem_of_nil. naive_solver.
Qed.
End Setup.

(** ** Dispatch *)

(** A completion. *)
Record cqe := mkCqe { cqe_data : Z; cqe_res : Z; cqe_flags : Z }.

(** What a completion's user data names. *)
Inductive target := TaskOf (p : Z) | WakeUp | EventOf (p : Z) | Nobody.

(** The tests of the dispatch loop on the user data. *)
Definition classify (data : Z) : target :=
  if negb (Z.land data 1 =? 0) then TaskOf (Z.land data (Z.lnot 1))
  else if data =? kWakeUserData then WakeUp
  else if negb (data =? 0) then EventOf data
  else Nobody.

(** The tagged address of a task ([RunOnRing]). *)
Definition tag_task (p : Z) : Z := Z.lor p 1.

(** The address of an object with at least the alignment of a pointer. *)
Definition aligned (p : Z) : Prop := 0 < p ∧ p mod 8 = 0.

Lemma aligned_land p : aligned p → Z.land p 1 = 0.
Proof.
  intros [Hp Ha]. change 1 with (Z.ones 1). rewrite Z.land_ones by lia. change (2 ^ 1) with 2.
  apply Z.mod_divide in Ha as [k ->]; [|lia]. replace (k * 8) with (k * 4 * 2) by lia.
  apply Z.mod_mul. lia.
Qed.

Lemma classify_event p : aligned p → classify p = EventOf p.
Proof.
  intros Ha. unfold classify. rewrite aligned_land by done. destruct Ha as [Hp Ha].
  cbn [Z.eqb negb]. rewrite (proj2 (Z.eqb_neq p kWakeUserData)).
  - by rewrite (proj2 (Z.eqb_neq p 0)) by lia.
  - intros ->. by vm_compute in Ha.
Qed.

Lemma classify_task p : aligned p → classify (tag_task p) = TaskOf p.
Proof.
  intros Ha. apply aligned_land in Ha as H1. unfold classify, tag_task.
  rewrite Z.land_lor_distr_l, H1. change (Z.land 1 1) with 1. cbn [Z.lor Z.eqb negb]. f_equal.
  apply Z.bits_inj'. intros n Hn. rewrite Z.land_spec, Z.lor_spec, Z.lnot_spec by done.
  destruct (Z.eq_dec n 0) as [->|].
  - replace (Z.testbit p 0) with (Z.testbit (Z.land p 1) 0)
      by (rewrite Z.land_spec; by rewrite andb_true_r).
    by rewrite H1.
  - replace (Z.testbit 1 n) with false; [by rewrite orb_false_r, andb_true_r|].
    change 1 with (2 ^ 0). by rewrite Z.pow2_bits_false by lia.
Qed.

(** The user data of a completion identifies what it belongs to: tagged task
    addresses, the wake-up mark, event addresses and null are told apart and
    give back the address they were made from, for every address of an object
    with at least the alignment of a pointer. *)
Theorem user_data_roundtrip p :
  aligned p →
  classify (tag_task p) = TaskOf p ∧ classify p = EventOf p ∧
  classify kWakeUserData = WakeUp ∧ classify 0 = Nobody.
Proof. intros Ha. by rewrite classify_task, classify_event. Qed.

Lemma user_data_roundtrip_witness :
  classify (tag_task 4096) = TaskOf 4096 ∧ classify 4096 = EventOf 4096 ∧
  classify kWakeUserData = WakeUp ∧ classify 0 = Nobody.
Proof. apply (user_data_roundtrip 4096). split; [lia|reflexivity]. Defined.

Section Dispatch.
Context {U : Type} `{Uring U} {Task : Type} {App : Type}.

(** The ring, the live event objects with their [auto_delete_] flag, the tasks on
    the heap that were sent by message, the rest of the program, and the
    completions handled so far. *)
Record world := mkWorld {
  io : io_ring U Task;
  live_events : gmap Z bool;
  live_tasks : gset Z;
  app : App;
  handled : list cqe;
}.

Definition set_io (w : world) (r : io_ring U Task) : world :=
  mkWorld r (live_events w) (live_tasks w) (app w) (handled w).
Definition set_live (w : world) (evs : gmap Z bool) : world :=
  mkWorld (io w) evs (live_tasks w) (app w) (handled w).
Definition set_tasks (w : world) (ts : gset Z) : world :=
  mkWorld (io w) (live_events w) ts (app w) (handled w).
Definition log_cqe (w : world) (c : cqe) : world :=
  mkWorld (io w) (live_events w) (live_tasks w) (app w) (handled w ++ [c]).

(** The virtual [Dispatch] of the event at an address, and calling a task. *)
Variable on_event : Z → Z → Z → world → option (world * DispatchResult).
Variable run_task : Z → world → option world.

(** Source: src/runtime/ring/IoRing.cpp:153-173, IoRing::Dispatch.
    The body of the loop for one completion. *)
Definition dispatch_one (w : world) (c : cqe) : option world :=
  match classify (cqe_data c) with
  | TaskOf p =>
    if decide (p ∈ live_tasks w) then
      w ← run_task p w; Some (set_tasks w (live_tasks w ∖ {[p]}))
    else None
  | WakeUp =>
    let r := set_armed (io w) false in
    Some (set_io w (if 0 <=? cqe_res c then set_wk r (DrainWakeFd (wk r)) else r))
  | EventOf p =>
    if decide (is_Some (live_events w !! p)) then
      '(w, result) ← on_event p (cqe_res c) (cqe_flags c) w;
      auto_delete ← live_events w !! p;
      Some (if ShouldDeleteAfterDispatch auto_delete result
            then set_live w (delete p (live_events w)) else w)
    else None
  | Nobody => Some w
  end.

(** Source: src/runtime/ring/IoRing.cpp:152-180, IoRing::Dispatch.
    The loop over the completions it sees, those included that arrive while it
    runs; the result is how far the queue is advanced. *)
Fixpoint dispatch_loop (w : world) (count : Z) (cqes : list cqe) : option (world * Z) :=
  match cqes with
  | [] => Some (w, count)
  | c :: cqes =>
    w ← dispatch_one (log_cqe w c) c;
    let count := count +₃₂ 1 in
    if negb (cqe_batch_budget_ (io w) =? 0) && (cqe_batch_budget_ (io w) <=? count)
    then Some (w, count) else dispatch_loop w count cqes
  end.

Definition ETIME : Z := 62.
Definition EINTR : Z := 4.

Definition arm_if_needed (w : world) : world :=
  if wake_poll_armed_ (wk (io w)) then w else set_io w (ArmWakePoll (io w)).

(** Source: src/runtime/ring/IoRing.cpp:124-188, IoRing::Dispatch.
    [ret] is the result of waiting, [cqes] what the loop then sees; the results
    are the number of completions consumed and the value returned. *)
Definition Dispatch (w : world) (ret : Z) (cqes : list cqe) : option (world * Z * bool) :=
  let w := set_io w (FlushSubmissions (io w)).1 in
  let w := arm_if_needed w in
  if ret <? 0 then Some (w, 0, (ret =? - ETIME) || (ret =? - EINTR)) else
  '(w, count) ← dispatch_loop w 0 cqes;
  Some (arm_if_needed w, count, true).

(** ** Every completion is handled once, in order *)

(** Application code neither changes the budget nor handles completions. *)
Definition keeps (w w' : world) : Prop :=
  handled w' = handled w ∧ cqe_batch_budget_ (io w') = cqe_batch_budget_ (io w).

Definition callbacks_keep : Prop :=
  (∀ p res flags w w' r, on_event p res flags w = Some (w', r) → keeps w w') ∧
  (∀ p w w', run_task p w = Some w' → keeps w w').

Lemma dispatch_one_keeps w c w' : callbacks_keep → dispatch_one w c = Some w' → keeps w w'.
Proof.
  intros [He Ht] Hd. unfold dispatch_one in Hd. destruct (classify (cqe_data c)) as [p| |p|].
  - case_decide; [|done]. destruct (run_task p w) as [w1|] eqn:E; [|done].
    apply Ht in E as [E1 E2]. by simplify_eq/=.
  - simplify_eq/=. unfold keeps, DrainWakeFd. simpl. by repeat case_match.
  - case_decide; [|done]. destruct (on_event p _ _ w) as [[w1 r]|] eqn:E; [|done].
    apply He in E as [E1 E2]. simpl in Hd. destruct (live_events w1 !! p); [|done].
    simplify_eq/=. by case_match.
  - by simplify_eq.
Qed.

(** How many completions a round consumes. *)
Definition round_size (budget : Z) (cqes : list cqe) : Z :=
  if budget =? 0 then zlen cqes else budget `min` zlen cqes.

Lemma dispatch_loop_order w k cqes w' n :
  callbacks_keep → 0 ≤ k → k + zlen cqes < 2 ^ 32 → 0 ≤ cqe_batch_budget_ (io w) →
  (cqe_batch_budget_ (io w) ≠ 0 → k < cqe_batch_budget_ (io w)) →
  dispatch_loop w k cqes = Some (w', n) →
  handled w' = handled w ++ ztake (n - k) cqes ∧
  cqe_batch_budget_ (io w') = cqe_batch_budget_ (io w) ∧
  n - k = if cqe_batch_budget_ (io w) =? 0 then zlen cqes
          else (cqe_batch_budget_ (io w) - k) `min` zlen cqes.
Proof.
  intros Hk. revert w k. induction cqes as [|c cqes IH]; intros w k H0 Hlen Hb Hlt Hd; simpl in Hd.
  { injection Hd as <- <-. rewrite Z.sub_diag, app_nil_r. change (zlen (@nil cqe)) with 0.
    repeat split. case_match; propify; lia. }
  rewrite zlen_cons in *. pose proof (zlen_nonneg cqes).
  destruct (dispatch_one (log_cqe w c) c) as [w1|] eqn:E1; [|done]. simpl in Hd.
  apply dispatch_one_keeps in E1 as [Hh Hbud]; [|done]. simpl in Hh, Hbud.
  rewrite u32_small in Hd by lia. rewrite Hbud in Hd.
  assert (∀ m, 0 ≤ m → ztake (1 + m) (c :: cqes) = c :: ztake m cqes) as Htake.
  { intros m Hm. unfold ztake. by replace (Z.to_nat (1 + m)) with (S (Z.to_nat m)) by lia. }
  destruct (negb _ && _) eqn:Eb; propify.
  - simplify_eq. replace (k + 1 - k) with (1 + 0) by lia. rewrite Htake, ztake_0 by lia.
    rewrite Hh, Hbud, (proj2 (Z.eqb_neq _ _)) by done. repeat split. lia.
  - rewrite <-Hbud in *. apply IH in Hd as (Hh'&Hb'&Hn); [|lia|lia|done|].
    + rewrite Hh', Hh, Hb', <-app_assoc. replace (n - k) with (1 + (n - (k + 1))) by lia.
      assert (0 ≤ n - (k + 1)) as Hpos.
      { rewrite Hn. case_match; propify; [lia|].
        apply andb_false_iff in Eb as [Eb|Eb]; propify; lia. }
      rewrite Htake by done. repeat split.
      rewrite Hn. case_match; propify; [lia|].
      apply andb_false_iff in Eb as [Eb|Eb]; propify; lia.
    + intros Hne. apply andb_false_iff in Eb as [Eb|Eb]; propify; [done|lia].
Qed.

Lemma arm_if_needed_keeps w : keeps w (arm_if_needed w).
Proof.
  unfold arm_if_needed, keeps, ArmWakePoll. case_match; [done|]. simpl.
  repeat case_match; done.
Qed.

Lemma Dispatch_order w ret cqes w' n ok :
  callbacks_keep → zlen cqes < 2 ^ 32 → 0 ≤ cqe_batch_budget_ (io w) →
  Dispatch w ret cqes = Some (w', n, ok) →
  handled w' = handled w ++ ztake n cqes ∧
  cqe_batch_budget_ (io w') = cqe_batch_budget_ (io w) ∧
  n = if ret <? 0 then 0 else round_size (cqe_batch_budget_ (io w)) cqes.
Proof.
  intros Hk Hlen Hb Hd. unfold Dispatch in Hd.
  set (w0 := set_io w (FlushSubmissions (io w)).1) in *.
  assert (keeps w w0) as [Hh0 Hb0].
  { unfold w0, FlushSubmissions. split; simpl; [done|].
    destruct (_ =? 0); [done|]. by destruct (u_submit _). }
  destruct (arm_if_needed_keeps w0) as [Hh1 Hb1].
  destruct (ret <? 0).
  { simplify_eq. rewrite ztake_0, app_nil_r. by rewrite Hh1, Hb1, Hh0, Hb0. }
  destruct (dispatch_loop _ _ _) as [[w2 k]|] eqn:E; [|done]. simpl in Hd. simplify_eq.
  apply dispatch_loop_order in E as (Hh2&Hb2&Hn); rewrite ?Hb1, ?Hb0 in *; try done; try lia.
  destruct (arm_if_needed_keeps w2) as [-> ->]. rewrite Hh2, Hh1, Hh0, Hb2, Z.sub_0_r in *.
  repeat split. unfold round_size. rewrite Hn. by rewrite Z.sub_0_r.
Qed.

(** The completion queue over several calls of [Dispatch]: what arrives before
    each, and the result of its wait. *)
Fixpoint rounds (w : world) (cq : list cqe) (ins : list (Z * list cqe))
    : option (world * list cqe) :=
  match ins with
  | [] => Some (w, cq)
  | (ret, arrived) :: ins =>
    '(w, n, _) ← Dispatch w ret (cq ++ arrived);
    rounds w (zdrop n (cq ++ arrived)) ins
  end.

(** no completion is lost, repeated or reordered: over any number of calls
    of [Dispatch], with any budget and any failed waits in between, the
    completions handled followed by those still in the queue are exactly those
    that arrived, in order. *)
Theorem Dispatch_stream w ins w' cq :
  callbacks_keep → 0 ≤ cqe_batch_budget_ (io w) →
  zlen (concat (map snd ins)) < 2 ^ 32 → handled w = [] →
  rounds w [] ins = Some (w', cq) →
  handled w' ++ cq = concat (map snd ins).
Proof.
  intros Hk Hb Hlen H0 Hr.
  enough (∀ cq0, zlen (cq0 ++ concat (map snd ins)) < 2 ^ 32 → rounds w cq0 ins = Some (w', cq) →
    handled w' ++ cq = handled w ++ cq0 ++ concat (map snd ins)) as He.
  { rewrite (He []); [by rewrite H0|done|done]. }
  clear Hr Hlen H0. revert w Hb. induction ins as [|[ret arr] ins IH]; intros w Hb cq0 Hlen Hr;
    cbn [rounds map concat snd] in *.
  { simplify_eq. by rewrite app_nil_r. }
  destruct (Dispatch w ret (cq0 ++ arr)) as [[[w1 n] ok]|] eqn:E; [|done]. simpl in Hr.
  rewrite app_assoc, zlen_app in Hlen.
  pose proof (zlen_nonneg (concat (map snd ins))) as Hnn.
  assert (zlen (cq0 ++ arr) < 2 ^ 32) as Hlt by lia.
  destruct (Dispatch_order _ _ _ _ _ _ Hk Hlt Hb E) as (Hh&Hbud&_).
  apply IH in Hr; [|lia|].
  - rewrite Hr, Hh, <-app_assoc, (app_assoc (ztake _ _)), ztake_zdrop, <-app_assoc. done.
  - rewrite zlen_app. assert (zlen (zdrop n (cq0 ++ arr)) ≤ zlen (cq0 ++ arr)); [|lia].
    unfold zdrop, zlen. rewrite length_drop. lia.
Qed.

(** ** Events live until their last completion *)

(** The events a handler prepares requests for. *)
Variable requests : Z → Z → Z → world → gset Z.

(** Requests that complete more than once. *)
Variable multi : Z → world → bool.

Definition final (flags : Z) : bool := Z.land flags IORING_CQE_F_MORE =? 0.

(** The kernel marks more completions to come only for the requests that have
    them. *)
Definition kernel_flags (p flags : Z) (w : world) : Prop :=
  final flags = false → multi p w = true.

(** What the ring relies on: a handler is defined on a live event, frees no
    event that existed before, prepares requests only for live ones, and reports
    its event complete exactly with the last completion, after which it does not
    use the event again. *)
Record handlers_ok : Prop := mkHandlersOk {
  ho_defined p res flags w : is_Some (live_events w !! p) → is_Some (on_event p res flags w);
  ho_live p res flags w w' r : on_event p res flags w = Some (w', r) →
    live_events w ⊆ live_events w';
  ho_result p res flags w w' r : kernel_flags p flags w →
    on_event p res flags w = Some (w', r) → r = if final flags then kComplete else kPending;
  ho_requests p res flags w w' r q : is_Some (live_events w !! p) →
    on_event p res flags w = Some (w', r) → q ∈ requests p res flags w → aligned q ∧ is_Some (live_events w' !! q) ∧
      (final flags = true → q ≠ p);
}.

(** The kernel completes requests it has ([K]), or code outside the handlers
    allocates events and prepares requests for them. *)
Inductive kstep : world * gset Z → world * gset Z → Prop :=
| k_complete w K p res flags w' :
    p ∈ K → kernel_flags p flags w → dispatch_one w (mkCqe p res flags) = Some w' →
    kstep (w, K) (w', (if final flags then K ∖ {[p]} else K) ∪ requests p res flags w)
| k_submit w K w' new :
    live_events w ⊆ live_events w' →
    (∀ q, q ∈ new → aligned q ∧ is_Some (live_events w' !! q)) →
    kstep (w, K) (w', K ∪ new).

Definition outstanding_live (s : world * gset Z) : Prop :=
  ∀ q, q ∈ s.2 → aligned q ∧ is_Some (live_events s.1 !! q).

(** Handling a completion of an outstanding event. *)
Lemma dispatch_event_spec w p b res flags :
  handlers_ok → aligned p → kernel_flags p flags w → live_events w !! p = Some b →
  ∃ w1 r w', on_event p res flags w = Some (w1, r) ∧
    dispatch_one w (mkCqe p res flags) = Some w' ∧
    live_events w' = if b && final flags then delete p (live_events w1) else live_events w1.
Proof.
  intros Hok Ha Hfl Hl.
  destruct (ho_defined Hok p res flags w ltac:(eauto)) as [[w1 r] E].
  pose proof (ho_live Hok _ _ _ _ _ _ E) as Hsub.
  pose proof (ho_result Hok _ _ _ _ _ _ Hfl E) as Hr.
  assert (live_events w1 !! p = Some b) as Hl1 by (by eapply lookup_weaken).
  unfold dispatch_one. cbn [cqe_data cqe_res cqe_flags]. rewrite classify_event by done.
  rewrite decide_True by eauto. rewrite E. cbn [mbind option_bind]. rewrite Hl1.
  cbn [mbind option_bind]. eexists w1, r, _. split; [done|]. split; [done|].
  unfold ShouldDeleteAfterDispatch. rewrite Hr. by destruct b, (final flags).
Qed.

Lemma kstep_live s s' : handlers_ok → outstanding_live s → kstep s s' → outstanding_live s'.
Proof.
  intros Hok Hi Hs. destruct Hs as [w K p res flags w' Hp Hfl Hd|w K w' new Hsub Hnew];
    intros q; cbn [fst snd] in *.
  - destruct (Hi p Hp) as [Ha [b Hb]]. cbn [fst snd] in *.
    destruct (dispatch_event_spec w p b res flags Hok Ha Hfl Hb) as (w1&r&w2&E&Hd'&Hl).
    rewrite Hd in Hd'. injection Hd' as <-. rewrite Hl.
    pose proof (ho_live Hok _ _ _ _ _ _ E) as Hsub.
    assert (∀ q, q ∈ K → is_Some (live_events w1 !! q)) as HK.
    { intros x Hx. destruct (Hi x Hx) as [_ [bx Hbx]]. exists bx. by eapply lookup_weaken. }
    intros [HqK|Hreq]%elem_of_union.
    + assert (q ∈ K) as Hq by (destruct (final flags); set_solver).
      split; [apply (Hi q Hq)|]. destruct (b && final flags) eqn:Eb; [|auto].
      rewrite lookup_delete_ne; [auto|]. apply andb_true_iff in Eb as [_ Ef].
      rewrite Ef in HqK. set_solver.
    + destruct (ho_requests Hok _ _ _ _ _ _ q ltac:(eauto) E Hreq) as (Haq&Hlq&Hne). split; [done|].
      destruct (b && final flags) eqn:Eb; [|done].
      apply andb_true_iff in Eb as [_ Ef]. rewrite lookup_delete_ne; [done|].
      intros ->. by apply (Hne Ef).
  - intros [Hq|Hq]%elem_of_union; [|auto]. destruct (Hi q Hq) as [Ha [b Hb]].
    split; [done|]. exists b. by eapply lookup_weaken.
Qed.

(** For handlers that free nothing, prepare requests for live events only and report
    completion exactly at the last one ([handlers_ok], which Listener.v shows of the
    listener's): dispatching any completion of an outstanding request reaches a live
    event, an event with [auto_delete_] is freed with its last completion and not
    before, and every other outstanding event stays live. *)
Theorem event_lifetime w0 w K p res flags :
  handlers_ok → steps kstep (w0, ∅) (w, K) → p ∈ K → kernel_flags p flags w →
  ∃ b w', live_events w !! p = Some b ∧ dispatch_one w (mkCqe p res flags) = Some w' ∧
    live_events w' !! p = (if b && final flags then None else Some b) ∧
    ∀ q, q ∈ K → q ≠ p → is_Some (live_events w' !! q).
Proof.
  intros Hok Hs Hp Hfl.
  assert (outstanding_live (w, K)) as Hi.
  { apply (steps_invariant kstep outstanding_live (w0, ∅)); [|by intros q ?%elem_of_empty|exact Hs].
    intros a b. by apply kstep_live. }
  destruct (Hi p Hp) as [Ha [b Hb]]. cbn [fst snd] in *. exists b.
  destruct (dispatch_event_spec w p b res flags Hok Ha Hfl Hb) as (w1&r&w'&E&Hd&Hl).
  pose proof (ho_live Hok _ _ _ _ _ _ E) as Hsub. exists w'. split; [done|]. split; [done|].
  rewrite Hl. split.
  - destruct (b && final flags); [by rewrite lookup_delete_eq|]. by eapply lookup_weaken.
  - intros q Hq Hne. destruct (Hi q Hq) as [_ [bq Hbq]]. cbn [fst] in Hbq.
    destruct (b && final flags); [rewrite lookup_delete_ne by done|];
      exists bq; by eapply lookup_weaken.
Qed.
End Dispatch.

(** ** A submission queue with a capacity and scripted submit results *)

Record list_uring := mkListUring { lu_cap : nat; lu_queue : list sqe; lu_fail : list bool }.

Definition lu_push (u : list_uring) (s : sqe) : option list_uring :=
  if decide (length (lu_queue u) < lu_cap u)%nat
  then Some (mkListUring (lu_cap u) (lu_queue u ++ [s]) (lu_fail u)) else None.

Definition lu_submit (u : list_uring) : list_uring * Z :=
  if default false (head (lu_fail u))
  then (mkListUring (lu_cap u) (lu_queue u) (tail (lu_fail u)), -11)
  else (mkListUring (lu_cap u) [] (tail (lu_fail u)), zlen (lu_queue u)).

#[export, refine] Instance list_uring_ops : Uring list_uring := {
  u_push := lu_push; u_submit := lu_submit; u_queued := lu_queue;
}.
Proof.
  - intros u s u'. unfold lu_push. case_decide; intros; by simplify_eq/=.
  - intros u u' n. unfold lu_submit. case_match; intros; simplify_eq/=; [done|].
    rewrite (proj2 (Z.ltb_ge _ _)) by apply zlen_nonneg. by rewrite zdrop_all.
Defined.

(** A handler that follows the flags, and two live events. *)
Definition sample_on_event (p res flags : Z) (w : world (U:=list_uring) (Task:=nat) (App:=unit))
    : option (world * DispatchResult) := Some (w, MultishotDispatchResult flags).
Definition sample_run_task (p : Z) (w : world (U:=list_uring) (Task:=nat) (App:=unit))
    : option world := Some w.
Definition sample_world : world (U:=list_uring) (Task:=nat) (App:=unit) :=
  mkWorld (IoRing_new (mkListUring 8 [] []) None 1 2 5) {[ 64 := true; 128 := false ]} ∅ tt [].

Lemma sample_callbacks_keep : callbacks_keep sample_on_event sample_run_task.
Proof. split; intros; unfold sample_on_event, sample_run_task in *; by simplify_eq. Qed.

Lemma Dispatch_stream_witness :
  let c p := mkCqe p 1 0 in
  ∃ w' cq,
    rounds sample_on_event sample_run_task sample_world []
      [(0, [c 64; mkCqe 2 1 0; c 128]); (-62, [c 128]); (0, [])] = Some (w', cq) ∧
    cq = [] ∧ handled w' ++ cq = [c 64; mkCqe 2 1 0; c 128; c 128].
Proof.
  simpl. destruct (rounds sample_on_event sample_run_task sample_world []
      [(0, [mkCqe 64 1 0; mkCqe 2 1 0; mkCqe 128 1 0]); (-62, [mkCqe 128 1 0]); (0, [])])
    as [[w' cq]|] eqn:E; [|by vm_compute in E].
  exists w', cq. split; [done|]. split; [by vm_compute in E; simplify_eq|].
  apply (Dispatch_stream sample_on_event sample_run_task sample_world _ w' cq
           sample_callbacks_keep) in E; [exact E|vm_compute; discriminate|reflexivity|reflexivity].
Defined.

Lemma sample_handlers_ok : handlers_ok sample_on_event (λ _ _ _ _, ∅) (λ _ _, true).
Proof.
  split; unfold sample_on_event.
  - eauto.
  - intros. by simplify_eq.
  - intros p res flags w w' r _ E. simplify_eq. unfold MultishotDispatchResult, final. by destruct (_ =? 0).
  - intros p res flags w w' r q _ _ Hq. by apply elem_of_empty in Hq.
Qed.

Lemma event_lifetime_witness :
  ∃ b w', live_events sample_world !! 64 = Some b ∧
    dispatch_one sample_on_event sample_run_task sample_world (mkCqe 64 1 0) = Some w' ∧
    live_events w' !! 64 = (if b && final 0 then None else Some b) ∧
    ∀ q, q ∈ ({[64; 128]} : gset Z) → q ≠ 64 → is_Some (live_events w' !! q).
Proof.
  apply (event_lifetime sample_on_event sample_run_task (λ _ _ _ _, ∅) (λ _ _, true)
           sample_world sample_world {[64; 128]} 64 1 0 sample_handlers_ok);
    [|set_solver|done].
  eapply steps_cons; [|apply steps_refl].
  replace ({[64; 128]} : gset Z) with (∅ ∪ {[64; 128]} : gset Z) by set_solver.
  apply k_submit; [done|]. intros q [->%elem_of_singleton| ->%elem_of_singleton]%elem_of_union;
    (split; [split; [lia|reflexivity]|vm_compute; eauto]).
Defined.

(** ** Tasks from other threads *)

Section RunOnRing.
Context {U : Type} `{Uring U} {Task : Type}.

(** [t_current_] of the calling thread. *)
Inductive current := NoRing | ThisRing | OtherRing (source : U).

(** After a call: its result, the caller's own ring, the members shared between
    threads, the tasks on the heap, and the tasks it has run. *)
Record call_state := mkCall {
  ok : bool;
  caller : current;
  shared : wake_state Task;
  heap_tasks : gmap Z Task;
  ran : list Task;
}.

(** Source: src/runtime/ring/IoRing.cpp:426-463, IoRing::RunOnRing.
    [fd] is the ring's descriptor, [alloc] the address [new] returns, if any.
    The message's entry keeps the user data its slot held before ([stale]). *)
Definition RunOnRing (fd : Z) (alloc : option Z) (stale : Z) (task : Task)
    (cur : current) (w : wake_state Task) (heap : gmap Z Task) : call_state :=
  match cur with
  | ThisRing => mkCall true cur w heap [task]
  | OtherRing src =>
    match alloc with
    | None => mkCall false cur w heap []
    | Some p =>
      let heap := <[p := task]> heap in
      match u_push src (mkSqe (OpMsgRing fd (tag_task p)) stale) with
      | None => mkCall false cur w (delete p heap) []
      | Some src =>
        let '(src, n) := u_submit src in
        if n <? 0 then mkCall false (OtherRing src) w (delete p heap) []
        else mkCall true (OtherRing src) w heap []
      end
    end
  | NoRing => mkCall true cur (Post w false task) heap []
  end.

(** Source: src/runtime/ring/IoRing.cpp:476-486, IoRing::ProcessPostedTasks.
    Without interference: the tasks taken are run in order; what a task does to
    the shared members is [run]. *)
Definition ProcessPostedTasks (run : Task → wake_state Task → wake_state Task)
    (w : wake_state Task) : wake_state Task * list Task :=
  let '(w, tasks) := take_posted w in (foldl (λ w t, run t w) w tasks, tasks).

(** When submitting fails, the entry stays in the submission queue of the
    caller's ring while the task it names has been freed: the next submit sends
    the dangling address. *)
Theorem RunOnRing_failed_submit_dangles fd p stale task src src' src'' n w heap :
  heap !! p = None →
  u_push src (mkSqe (OpMsgRing fd (tag_task p)) stale) = Some src' →
  u_submit src' = (src'', n) → n < 0 →
  let c := RunOnRing fd (Some p) stale task (OtherRing src) w heap in
  ok c = false ∧ caller c = OtherRing src'' ∧ heap_tasks c !! p = None ∧
  mkSqe (OpMsgRing fd (tag_task p)) stale ∈ u_queued src''.
Proof.
  intros Hf Hp Hs Hn. unfold RunOnRing. rewrite Hp, Hs, (proj2 (Z.ltb_lt n 0)) by done.
  cbn [ok caller heap_tasks]. split; [done|]. split; [done|].
  split; [by rewrite lookup_delete_eq|].
  rewrite (u_submit_queued _ _ _ Hs), (proj2 (Z.ltb_lt n 0)) by done.
  rewrite (u_push_queued _ _ _ Hp). set_solver.
Qed.
End RunOnRing.

Lemma RunOnRing_failed_submit_dangles_witness :
  let u := mkListUring 8 [] [true] in
  let c := RunOnRing 3 (Some 64) 0 7%nat (OtherRing u) (mkWake [] 5 true 0) ∅ in
  ok c = false ∧ caller c = OtherRing (mkListUring 8 [mkSqe (OpMsgRing 3 65) 0] []) ∧
  heap_tasks c !! 64 = None ∧
  mkSqe (OpMsgRing 3 (tag_task 64)) 0 ∈
    u_queued (mkListUring 8 [mkSqe (OpMsgRing 3 65) 0] []).
Proof.
  apply (RunOnRing_failed_submit_dangles 3 64 0 7%nat (mkListUring 8 [] [true])
    (mkListUring 8 [mkSqe (OpMsgRing 3 65) 0] [true]) _ (-11)); reflexivity || lia.
Defined.
