(* ===== verification/Wakeup.v ===== *)
(** * Waking the ring's thread

    Tasks posted to a ring from other threads: [IoRing::Post], [Wake] and the
    handling of the wake-up completion, interleaved with the loop of
    [Worker::Run] that processes posted tasks, waits for completions and
    dispatches them.  A step is one critical section, one operation on the
    eventfd or one position of the loop.

    A poll request on the eventfd completes once the eventfd is positive.  An
    entry whose submission failed stays queued and may reach the kernel with a
    later submit. *)

From S2P Require Import Prelude Ring.

#[local] Open Scope Z_scope.
#[local] Set Warnings "-clear-no-such-hyp".

Section Wakeup.
Context {T : Type}.

(** A task and whether another thread posted it. *)
Abbreviation task := (T * bool)%type.

(** Source: src/runtime/io/Worker.cpp:191-205, Worker::Run.
    Where the loop is: the calls of [ProcessPostedTasks] with the tasks they took,
    the parts of [Dispatch], and the ticks. *)
Inductive loop_pc :=
| Process1 | Running1 (tasks : list task)
| Arm1 | Wait | Draining | Arm2
| Process2 | Running2 (tasks : list task)
| Ticking.

Record state := mkState {
  w : wake_state task;
  pc : loop_pc;
  polls : nat;        (* poll requests the kernel has *)
  queued : nat;       (* poll requests whose submission failed *)
  wake_cqes : list Z; (* results of wake-up completions not yet handled *)
  writers : nat;      (* threads between the two halves of [Post] *)
  ran : list task;
  history : list task;
}.

(** The thread owning the ring runs application code here. *)
Definition runs_app (p : loop_pc) : bool :=
  match p with Running1 _ | Running2 _ | Draining | Ticking => true | _ => false end.

Definition push (s : state) (t : task) (writers' : nat) : state :=
  mkState (post_push (w s) t) (pc s) (polls s) (queued s) (wake_cqes s) writers' (ran s)
    (history s ++ [t]).
Definition at_pc (s : state) (p : loop_pc) : state :=
  mkState (w s) p (polls s) (queued s) (wake_cqes s) (writers s) (ran s) (history s).
Definition with_w (s : state) (w' : wake_state task) : state :=
  mkState w' (pc s) (polls s) (queued s) (wake_cqes s) (writers s) (ran s) (history s).

(** [ProcessPostedTasks] takes the tasks; [next] holds them. *)
Definition process (s : state) (next : list task → loop_pc) : state :=
  let '(w', ts) := take_posted (w s) in at_pc (with_w s w') (next ts).

Definition run_one (s : state) (t : task) (p : loop_pc) : state :=
  mkState (w s) p (polls s) (queued s) (wake_cqes s) (writers s) (ran s ++ [t]) (history s).

(** What [ArmWakePoll] can do: nothing when armed or when the queue is full; leave
    an entry behind when submitting fails; arm, submitting earlier entries too. *)
Inductive arm : state → state → Prop :=
| arm_none s : arm s s
| arm_failed s :
    wake_poll_armed_ (w s) = false →
    arm s (mkState (w s) (pc s) (polls s) (S (queued s)) (wake_cqes s) (writers s) (ran s)
             (history s))
| arm_done s :
    wake_poll_armed_ (w s) = false →
    arm s (mkState (wake_armed (w s) true) (pc s) (S (polls s + queued s)) 0 (wake_cqes s)
             (writers s) (ran s) (history s)).

(** Whatever [Ring.ArmWakePoll] does to the members shared with other threads is such a
    step, and [Ring.Post] from another thread is the two halves below. *)
Lemma arm_is_ArmWakePoll {U} `{Uring U} (r : io_ring U task) s :
  wk r = w s → ∃ s', arm s s' ∧ wk (ArmWakePoll r) = w s'.
Proof.
  intros Hw. unfold ArmWakePoll. rewrite Hw.
  destruct (_ || _) eqn:E; [exists s; split; [constructor|done]|].
  apply orb_false_iff in E as [_ E].
  destruct (u_push _ _) as [u|]; [|exists s; split; [constructor|done]].
  destruct (u_submit u) as [u' n]. destruct (n <? 0).
  - eexists. split; [by apply arm_failed|done].
  - eexists. split; [by apply arm_done|]. simpl. by rewrite Hw.
Qed.

Lemma Post_halves (x : wake_state task) t : Post x true t = post_push x t ∧ Post x false t = Wake (post_push x t).
Proof. done. Qed.

(** Handling a wake-up completion in the dispatch loop. *)
Definition handle_wake (s : state) (res : Z) (rest : list Z) : state :=
  let w' := wake_armed (w s) false in
  mkState (if 0 <=? res then DrainWakeFd w' else w') (pc s) (polls s) (queued s) rest
    (writers s) (ran s) (history s).

(** Steps of the kernel and of the ring's thread, as long as it does not wait for
    its time-out. *)
Inductive ring_step : state → state → Prop :=
| r_process1 s : pc s = Process1 → ring_step s (process s Running1)
| r_process2 s : pc s = Process2 → ring_step s (process s Running2)
| r_run1 s t ts : pc s = Running1 (t :: ts) → ring_step s (run_one s t (Running1 ts))
| r_run2 s t ts : pc s = Running2 (t :: ts) → ring_step s (run_one s t (Running2 ts))
| r_ran1 s : pc s = Running1 [] → ring_step s (at_pc s Arm1)
| r_ran2 s : pc s = Running2 [] → ring_step s (at_pc s Ticking)
| r_arm1 s s' : pc s = Arm1 → arm s s' → ring_step s (at_pc s' Wait)
| r_arm2 s s' : pc s = Arm2 → arm s s' → ring_step s (at_pc s' Process2)
| r_wait_cqe s : pc s = Wait → wake_cqes s ≠ [] → ring_step s (at_pc s Draining)
| r_handle s res rest :
    pc s = Draining → wake_cqes s = res :: rest → ring_step s (handle_wake s res rest)
| r_drained s : pc s = Draining → ring_step s (at_pc s Arm2)
| r_tick s : pc s = Ticking → ring_step s (at_pc s Process1)
| r_poll s n res :
    polls s = S n → (0 ≤ res → 0 < efd (w s)) →
    ring_step s (mkState (w s) (pc s) n (queued s) (wake_cqes s ++ [res]) (writers s) (ran s)
                   (history s)).

Inductive step : state → state → Prop :=
| st_ring s s' : ring_step s s' → step s s'
(** Another completion arrives, or the wait times out. *)
| st_other_cqe s : pc s = Wait → step s (at_pc s Draining)
| st_timeout s : pc s = Wait → step s (at_pc s Process2)
(** Another submit takes the queued entries along. *)
| st_submit s :
    step s (mkState (w s) (pc s) (polls s + queued s) 0 (wake_cqes s) (writers s) (ran s)
              (history s))
(** [Post] from another thread, in two halves, and from the ring's own. *)
| st_push s t : step s (push s (t, true) (S (writers s)))
| st_wake s n :
    writers s = S n →
    step s (mkState (Wake (w s)) (pc s) (polls s) (queued s) (wake_cqes s) n (ran s) (history s))
| st_own s t : runs_app (pc s) = true → step s (push s (t, false) (writers s)).

Definition init (fd : Z) (armed : bool) : state :=
  mkState (mkWake [] fd armed 0) Process1 (if armed then 1 else 0) 0 [] 0 [] [].

(** ** Invariant *)

(** From here the loop takes the posted tasks before it waits. *)
Definition attends (p : loop_pc) : bool :=
  match p with Running1 _ | Arm1 | Wait => false | _ => true end.

Definition running (p : loop_pc) : list task :=
  match p with Running1 ts | Running2 ts => ts | _ => [] end.

Record wake_inv (s : state) : Prop := mkInv {
  i_fd : 0 ≤ wake_fd_ (w s);
  i_efd : 0 ≤ efd (w s);
  i_armed : wake_poll_armed_ (w s) = true → polls s ≠ 0%nat ∨ wake_cqes s ≠ [];
  i_signal : Exists (λ t, t.2 = true) (posted_ (w s)) →
    writers s ≠ 0%nat ∨ 0 < efd (w s) ∨ attends (pc s) = true;
  i_fifo : history s = ran s ++ running (pc s) ++ posted_ (w s);
}.

Lemma init_inv fd armed : 0 ≤ fd → wake_inv (init fd armed).
Proof.
  intros. split; simpl; try done.
  - intros ->. by left.
  - intros He. by apply Exists_nil in He.
Qed.

Lemma arm_inv s s' : wake_inv s → arm s s' → wake_inv s'.
Proof.
  intros [Hfd He Ha Hs Hf] Harm. destruct Harm; split; simpl; try done. by left.
Qed.

Lemma arm_pc s s' : arm s s' → pc s' = pc s ∧ w s' = wake_armed (w s) (wake_poll_armed_ (w s'))
  ∧ ran s' = ran s ∧ writers s' = writers s.
Proof. intros Ha. destruct Ha as [s|s|s]; split_and!; try done; by destruct (w s). Qed.

(** Moving the loop to a position that runs no tasks and attends as much. *)
Lemma at_pc_inv s p : wake_inv s → running (pc s) = [] → running p = [] →
  (attends (pc s) = true → attends p = true) → wake_inv (at_pc s p).
Proof.
  intros [Hfd He Ha Hs Hf] Hr Hp Hat. split; simpl; try done.
  - intros Hex. destruct (Hs Hex) as [|[]]; auto.
  - by rewrite Hp, Hf, Hr.
Qed.

Lemma process_inv s next : wake_inv s → running (pc s) = [] → (∀ ts, running (next ts) = ts) →
  wake_inv (process s next).
Proof.
  intros [Hfd He Ha Hs Hf] Hr Hn. split; simpl; try done.
  - intros Hex. by apply Exists_nil in Hex.
  - by rewrite Hn, Hf, Hr, app_nil_r.
Qed.

Lemma run_one_inv s t ts p : wake_inv s → running (pc s) = t :: ts → running p = ts →
  (attends (pc s) = true → attends p = true) → wake_inv (run_one s t p).
Proof.
  intros [Hfd He Ha Hs Hf] Hr Hp Hat. split; simpl; try done.
  - intros Hex. destruct (Hs Hex) as [|[]]; auto.
  - by rewrite Hp, Hf, Hr, <-app_assoc.
Qed.

Lemma ring_step_inv s s' : wake_inv s → ring_step s s' → wake_inv s'.
Proof.
  intros Hi Hstep. destruct Hstep as [s E|s E|s t ts E|s t ts E|s E|s E|s s' E Ha|s s' E Ha|
    s E Hc|s res rest E Hc|s E|s E|s n res Hp Hres].
  - apply process_inv; [done|by rewrite E|done].
  - apply process_inv; [done|by rewrite E|done].
  - eapply run_one_inv; [done|by rewrite E|done|by rewrite E].
  - eapply run_one_inv; [done|by rewrite E|done|by rewrite E].
  - apply at_pc_inv; [done|by rewrite ?E..].
  - apply at_pc_inv; [done|by rewrite ?E..].
  - destruct (arm_pc s s' Ha) as (Hpc&_).
    apply at_pc_inv; [by eapply arm_inv|by rewrite ?Hpc, ?E..].
  - destruct (arm_pc s s' Ha) as (Hpc&_).
    apply at_pc_inv; [by eapply arm_inv|by rewrite ?Hpc, ?E..].
  - apply at_pc_inv; [done|by rewrite ?E..].
  - destruct Hi as [Hfd He Ha Hs Hf]. unfold handle_wake, DrainWakeFd.
    split; simpl; rewrite ?(proj2 (Z.ltb_ge (wake_fd_ (w s)) 0)) by done.
    all: destruct (0 <=? res); simpl; try done; auto.
    all: rewrite E; auto.
  - apply at_pc_inv; [done|by rewrite ?E..].
  - apply at_pc_inv; [done|by rewrite ?E..].
  - destruct Hi as [Hfd He Ha Hs Hf]. split; simpl; try done.
    intros _. right. by destruct (wake_cqes s).
Qed.

Lemma step_inv s s' : wake_inv s → step s s' → wake_inv s'.
Proof.
  intros Hi Hstep. destruct Hstep as [s s' Hr|s E|s E|s|s t|s n E|s t E].
  - by eapply ring_step_inv.
  - apply at_pc_inv; [done|by rewrite ?E..].
  - apply at_pc_inv; [done|by rewrite ?E..].
  - destruct Hi as [Hfd He Ha Hs Hf]. split; simpl; try done.
    intros Hx. destruct (Ha Hx); [left; lia|by right].
  - destruct Hi as [Hfd He Ha Hs Hf]. split; simpl; try done; [by left|].
    by rewrite Hf, <-!app_assoc.
  - destruct Hi as [Hfd He Ha Hs Hf].
    assert (0 < efd (Wake (w s)) ∧ wake_fd_ (Wake (w s)) = wake_fd_ (w s) ∧
      posted_ (Wake (w s)) = posted_ (w s) ∧
      wake_poll_armed_ (Wake (w s)) = wake_poll_armed_ (w s)) as (H1&H2&H3&H4).
    { unfold Wake. rewrite (proj2 (Z.ltb_ge _ _)) by done. simpl. split; [|done].
      destruct (Z.leb_spec (efd (w s) + 1) EFD_MAX); unfold EFD_MAX in *; lia. }
    split; simpl; rewrite ?H2, ?H3, ?H4; try done; [lia|]. intros _. right. by left.
  - destruct Hi as [Hfd He Ha Hs Hf]. split; simpl; try done.
    + rewrite Exists_app. intros [Hex|Hex]; [auto|].
      apply Exists_cons in Hex as [|Hex]; [done|by apply Exists_nil in Hex].
    + by rewrite Hf, <-!app_assoc.
Qed.

Lemma wakeup_reachable_inv fd armed s : 0 ≤ fd → steps step (init fd armed) s → wake_inv s.
Proof.
  intros Hfd Hs. eapply (steps_invariant step wake_inv); [|by apply init_inv|exact Hs].
  apply step_inv.
Qed.

(** ** Theorems *)

(** tasks posted to a ring run exactly once and in the order they were
    posted: under every interleaving of posting threads, kernel and loop, the
    tasks run so far, those the loop has taken and those still in the list are
    together all tasks ever posted, in order. *)
Theorem posted_tasks_fifo fd armed s :
  0 ≤ fd → steps step (init fd armed) s →
  history s = ran s ++ running (pc s) ++ posted_ (w s).
Proof. intros Hfd Hs. by destruct (wakeup_reachable_inv fd armed s Hfd Hs). Qed.

(** A completed poll gets the tasks run without any further help. *)
Lemma run_all s ts : pc s = Running2 ts →
  ∃ s', steps ring_step s s' ∧ ran s' = ran s ++ ts ∧ pc s' = Ticking.
Proof.
  revert s. induction ts as [|t ts IH]; intros s E.
  - exists (at_pc s Ticking). split; [by apply steps_one, r_ran2|].
    simpl. by rewrite app_nil_r.
  - destruct (IH (run_one s t (Running2 ts)) eq_refl) as (s'&Hs&Hr&Hp).
    exists s'. split; [eapply steps_cons; [by apply r_run2|done]|]. split; [|done].
    rewrite Hr. simpl. by rewrite <-app_assoc.
Qed.

Lemma attended_runs s : pc s = Draining →
  ∃ s', steps ring_step s s' ∧ ran s' = ran s ++ posted_ (w s) ∧ pc s' = Ticking.
Proof.
  intros E.
  destruct (run_all (process (at_pc (at_pc s Arm2) Process2) Running2)
              (posted_ (w s)) eq_refl) as (s'&Hs&Hr&Hp).
  exists s'. split; [|done]. eapply steps_cons; [by apply r_drained|].
  eapply steps_cons; [by apply (r_arm2 _ (at_pc s Arm2)); [|constructor]|].
  eapply steps_cons; [by apply r_process2|]. done.
Qed.

(** C27: no wake-up is lost: whenever the ring's thread is about to wait with
    its poll armed, a task of another thread is in the list and no posting
    thread is between its two halves, then the wait does not block: a wake-up
    completion is there or the kernel can deliver one because the eventfd is
    positive; and the thread goes on to run every posted task within the same
    pass of its loop, without its time-out. *)
Theorem no_lost_wakeup fd armed s :
  0 ≤ fd → steps step (init fd armed) s →
  pc s = Wait → wake_poll_armed_ (w s) = true → writers s = 0%nat →
  Exists (λ t, t.2 = true) (posted_ (w s)) →
  (wake_cqes s ≠ [] ∨ (polls s ≠ 0%nat ∧ 0 < efd (w s))) ∧
  ∃ s', steps ring_step s s' ∧ ran s' = ran s ++ posted_ (w s) ∧ pc s' = Ticking.
Proof.
  intros Hfd Hs Hpc Harm Hw Hex. destruct (wakeup_reachable_inv fd armed s Hfd Hs) as [_ _ Ha Hsig _].
  assert (0 < efd (w s)) as He.
  { destruct (Hsig Hex) as [?|[?|Hat]]; [done|done|by rewrite Hpc in Hat]. }
  assert (wake_cqes s ≠ [] ∨ (polls s ≠ 0%nat ∧ 0 < efd (w s))) as Hgo.
  { destruct (Ha Harm); auto. }
  split; [done|].
  destruct (decide (wake_cqes s = [])) as [Hnil|Hne].
  - destruct Hgo as [|[Hp _]]; [done|]. destruct (polls s) as [|n] eqn:En; [done|].
    set (s1 := mkState (w s) (pc s) n (queued s) (wake_cqes s ++ [1]) (writers s) (ran s)
                 (history s)).
    destruct (attended_runs (at_pc s1 Draining) eq_refl) as (s'&Hs'&Hr&Hp').
    exists s'. split; [|done]. eapply steps_cons; [by apply (r_poll s n 1)|].
    eapply steps_cons; [apply r_wait_cqe; [done|]|done]. simpl. by destruct (wake_cqes s).
  - destruct (attended_runs (at_pc s Draining) eq_refl) as (s'&Hs'&Hr&Hp').
    exists s'. split; [|done]. eapply steps_cons; [by apply r_wait_cqe|done].
Qed.

(** A task the ring's own thread posts from a posted task before [Dispatch] is
    not signalled: the loop goes to wait with the task in its list, the eventfd
    at zero and no completion. *)
Theorem own_post_waits fd (u : T) :
  ∃ s, steps step (init fd true) s ∧ pc s = Wait ∧ (u, false) ∈ posted_ (w s) ∧
       efd (w s) = 0 ∧ wake_cqes s = [] ∧ writers s = 0%nat.
Proof.
  exists (mkState (mkWake [(u, false)] fd true 0) Wait 1 0 [] 0 [] [(u, false)]).
  split; [|simpl; split_and!; [done|by apply list_elem_of_singleton|done..]].
  eapply steps_cons; [apply st_ring, r_process1; reflexivity|].
  eapply steps_cons; [apply (st_own _ u); reflexivity|].
  eapply steps_cons; [apply st_ring, r_ran1; reflexivity|].
  eapply steps_cons; [apply st_ring; eapply r_arm1; [reflexivity|constructor]|].
  apply steps_refl.
Qed.
End Wakeup.

(** One thread posts a task while the loop is about to wait. *)
Definition sample_state : state (T:=nat) :=
  mkState (mkWake [(7%nat, true)] 5 true 1) Wait 1 0 [] 0 [] [(7%nat, true)].

Lemma wakeup_sample_steps : steps step (init 5 true) sample_state.
Proof.
  eapply steps_cons; [apply st_ring, r_process1; reflexivity|].
  eapply steps_cons; [apply st_ring, r_ran1; reflexivity|].
  eapply steps_cons; [apply (st_push _ 7%nat)|].
  eapply steps_cons; [apply st_ring; eapply r_arm1; [reflexivity|constructor]|].
  eapply steps_cons; [eapply (st_wake _ 0); reflexivity|]. apply steps_refl.
Qed.

Lemma posted_tasks_fifo_witness :
  history sample_state = ran sample_state ++ running (pc sample_state) ++ posted_ (w sample_state).
Proof. apply (posted_tasks_fifo 5 true); [lia|apply wakeup_sample_steps]. Defined.

Lemma no_lost_wakeup_witness :
  (wake_cqes sample_state ≠ [] ∨ (polls sample_state ≠ 0%nat ∧ 0 < efd (w sample_state))) ∧
  ∃ s', steps ring_step sample_state s' ∧ ran s' = [(7%nat, true)] ∧ pc s' = Ticking.
Proof.
  apply (no_lost_wakeup 5 true sample_state); [lia|apply wakeup_sample_steps|reflexivity..|].
  constructor. reflexivity.
Defined.
