(* ===== verification/Listener.v ===== *)
(** * The listener

    [src/runtime/io/Listener.cpp] and its header, over the ring of Ring.v: the
    listening socket, the multishot accept request and what becomes of every
    accepted descriptor.  The listener's event handlers are shown to meet the
    contract the ring has for handlers ([handlers_ok]).

    The world is that of Ring.v with the listener as its application part.  The
    events in it are the listener's; [new] returns an address no live event has.
    Outcomes of system calls, allocations, the session factory and the other
    sessions are answers of the environment, numbered by the questions asked. *)

From S2P Require Import Prelude Types Ring.

#[local] Open Scope Z_scope.
#[local] Open Scope cxx_scope.
#[local] Set Warnings "-clear-no-such-hyp".

(** Source: include/iouring_runtime/core/SocketHandle.h:36-40, SocketHandle::Reset.
    The new descriptor and the one closed, if any. *)
Definition SocketHandle_Reset (fd_ new_fd : Z) : Z * list Z :=
  (new_fd, if 0 <=? fd_ then [fd_] else []).

(** Source: src/runtime/io/Listener.cpp:24-51, CreateListenSocket.
    Results of [socket], [bind] and [listen]; the descriptors it closes. *)
Definition CreateListenSocket (socket bind listen : Z) : Z * list Z :=
  if socket <? 0 then (-1, []) else
  if bind <? 0 then (-1, [socket]) else
  if listen <? 0 then (-1, [socket]) else (socket, []).

Definition O_NONBLOCK : Z := 2048.

(** Source: src/runtime/io/Listener.cpp:53-58, SetNonBlocking.
    [flags] is the result of reading the flags, [set] that of writing them. *)
Definition SetNonBlocking (flags set : Z) : bool :=
  if flags <? 0 then false else
  if negb (Z.land flags O_NONBLOCK =? 0) then true else set =? 0.

(** What happens to descriptors. *)
Inductive effect :=
| CloseFd (fd : Z)        (* closed without a session *)
| RejectFd (fd : Z)       (* given to the reject handler *)
| StartSession (fd : Z)   (* owned by a started session *)
| CloseListen (fd : Z).

Inductive event_kind := AcceptOp | CancelOp.
#[export] Instance event_kind_eq_dec : EqDecision event_kind.
Proof. solve_decision. Defined.

(** Source: include/iouring_runtime/core/Listener.h:73-83, Listener.
    Whether a session count function and a reject handler are set; beside the
    members, the kinds of the events, the number of live sessions, what happened
    so far and the number of questions asked. *)
Record listener := mkListener {
  listen_fd_ : Z;
  active_accept_ev_ : option Z;
  accept_cancel_requested_ : bool;
  max_sessions_ : Z;
  session_count_fn_ : bool;
  reject_handler_ : bool;
  kinds : gmap Z event_kind;
  sessions : Z;
  log : list effect;
  asked : nat;
}.

Record env := mkEnv {
  alloc_ok : nat → bool;
  nonblock_ok : nat → bool;
  factory_ok : nat → bool;
  extra_sessions : nat → Z;  (* counted beside the sessions of this listener *)
}.

Section Listener.
Context {U : Type} {uring : Uring U} {history : UringHistory U} {Task : Type} (e : env).
Abbreviation world := (@world U Task listener).
Implicit Types (w : world).

Definition set_app w (l : listener) : world :=
  mkWorld (io w) (live_events w) (live_tasks w) l (handled w).
Definition set_accept w (ev : option Z) (cancel : bool) : world :=
  let l := app w in
  set_app w (mkListener (listen_fd_ l) ev cancel (max_sessions_ l) (session_count_fn_ l)
    (reject_handler_ l) (kinds l) (sessions l) (log l) (asked l)).
Definition set_listen w (fd : Z) (closed : list Z) : world :=
  let l := app w in
  set_app w (mkListener fd (active_accept_ev_ l) (accept_cancel_requested_ l) (max_sessions_ l)
    (session_count_fn_ l) (reject_handler_ l) (kinds l) (sessions l)
    (log l ++ map CloseListen closed) (asked l)).
Definition note w (x : effect) : world :=
  let l := app w in
  set_app w (mkListener (listen_fd_ l) (active_accept_ev_ l) (accept_cancel_requested_ l)
    (max_sessions_ l) (session_count_fn_ l) (reject_handler_ l) (kinds l) (sessions l)
    (log l ++ [x]) (asked l)).
Definition add_sessions w (n : Z) : world :=
  let l := app w in
  set_app w (mkListener (listen_fd_ l) (active_accept_ev_ l) (accept_cancel_requested_ l)
    (max_sessions_ l) (session_count_fn_ l) (reject_handler_ l) (kinds l) (sessions l + n)
    (log l) (asked l)).
Definition ask {A} w (f : nat → A) : A * world :=
  let l := app w in
  (f (asked l), set_app w (mkListener (listen_fd_ l) (active_accept_ev_ l)
    (accept_cancel_requested_ l) (max_sessions_ l) (session_count_fn_ l) (reject_handler_ l)
    (kinds l) (sessions l) (log l) (S (asked l)))).

(** An address no live event has, aligned like a pointer. *)
Definition fresh_addr (m : gmap Z bool) : Z :=
  8 * (1 + map_fold (λ k _ acc, Z.max (Z.abs k) acc) 0 m).

(** [new] of an event with [SetAutoDelete(true)]. *)
Definition new_event w (k : event_kind) : Z * world :=
  let p := fresh_addr (live_events w) in
  let l := app w in
  (p, mkWorld (io w) (<[p := true]> (live_events w)) (live_tasks w)
        (mkListener (listen_fd_ l) (active_accept_ev_ l) (accept_cancel_requested_ l)
           (max_sessions_ l) (session_count_fn_ l) (reject_handler_ l) (<[p := k]> (kinds l))
           (sessions l) (log l) (asked l)) (handled w)).
Definition delete_event w (p : Z) : world := set_live w (delete p (live_events w)).

(** Source: src/runtime/io/Listener.cpp:106-124, Listener::RegisterAccept. *)
Definition RegisterAccept w : world * bool :=
  if (listen_fd_ (app w) <? 0) || bool_decide (active_accept_ev_ (app w) ≠ None)
  then (w, false) else
  let '(allocated, w) := ask w (alloc_ok e) in
  if negb allocated then (w, false) else
  let '(accept_ev, w) := new_event w AcceptOp in
  let '(r, prepared) := PrepAcceptMultishot (io w) accept_ev (listen_fd_ (app w)) in
  let w := set_io w r in
  if negb prepared then (delete_event w accept_ev, false) else
  let w := set_accept w (Some accept_ev) (accept_cancel_requested_ (app w)) in
  (set_io w (Submit (io w)).1, true).

(** Source: src/runtime/io/Listener.cpp:72-87, Listener::Start. *)
Definition Start w (socket bind listen : Z) : world * expected unit IoError :=
  let '(fd, closed) := CreateListenSocket socket bind listen in
  let w := foldl (λ w fd, note w (CloseListen fd)) w closed in
  if fd <? 0 then (w, Unexpected kBindFailed) else
  let '(new_fd, closed) := SocketHandle_Reset (listen_fd_ (app w)) fd in
  let w := set_listen w new_fd closed in
  let '(w, registered) := RegisterAccept w in
  if negb registered then (w, Unexpected kListenFailed) else (w, Value tt).

(** Source: src/runtime/io/Listener.cpp:90-101, Listener::Stop.
    The request to cancel the pending accept. *)
Definition Stop_cancel w : world :=
  match active_accept_ev_ (app w) with
  | Some target =>
    if accept_cancel_requested_ (app w) then w else
    let '(allocated, w) := ask w (alloc_ok e) in
    if negb allocated then w else
    let '(cancel_ev, w) := new_event w CancelOp in
    let '(r, prepared) := PrepCancel (io w) target (Some cancel_ev) in
    let w := set_io w r in
    if prepared : bool then
      let w := set_accept w (Some target) true in
      set_io w (Submit (io w)).1
    else delete_event w cancel_ev
  | None => w
  end.

(** Source: src/runtime/io/Listener.cpp:89-104, Listener::Stop. *)
Definition Stop w : world :=
  let w := Stop_cancel w in
  let '(new_fd, closed) := SocketHandle_Reset (listen_fd_ (app w)) (-1) in
  set_listen w new_fd closed.

(** Source: src/runtime/io/Listener.cpp:164-193, Listener::OnAccept.
    [sess->Start()] makes the session one of the live ones. *)
Definition OnAccept_fd w (client_fd : Z) : world :=
  let '(full, w) :=
    if (0 <? max_sessions_ (app w)) && session_count_fn_ (app w) then
      let '(extra, w) := ask w (extra_sessions e) in
      (max_sessions_ (app w) <=? sessions (app w) + extra, w)
    else (false, w) in
  if full : bool then
    if reject_handler_ (app w) then note w (RejectFd client_fd) else note w (CloseFd client_fd)
  else
  let '(nonblocking, w) := ask w (nonblock_ok e) in
  if negb nonblocking then note w (CloseFd client_fd) else
  let '(made, w) := ask w (factory_ok e) in
  if made : bool then add_sessions (note w (StartSession client_fd)) 1
  else note w (CloseFd client_fd).

Definition register_if_listening w : world :=
  if 0 <=? listen_fd_ (app w) then (RegisterAccept w).1 else w.

(** Source: src/runtime/io/Listener.cpp:126-158, Listener::OnAccept. *)
Definition OnAccept w (result flags : Z) : world * DispatchResult :=
  let more := negb (Z.land flags IORING_CQE_F_MORE =? 0) in
  let dispatch_result := if more then kPending else kComplete in
  let w := if negb more then set_accept w None false else w in
  if result <? 0 then (register_if_listening w, dispatch_result) else
  let w := OnAccept_fd w result in
  let w := if negb more then register_if_listening w else w in
  (w, dispatch_result).

(** Source: src/runtime/io/Listener.cpp:160-162, Listener::OnCancel. *)
Definition OnCancel w : world * DispatchResult := (w, kComplete).

(** Source: include/iouring_runtime/core/Listener.h:48-71, Listener::AcceptOp.
    The virtual [Dispatch] of the listener's two kinds of events. *)
Definition on_event (p res flags : Z) w : option (world * DispatchResult) :=
  match kinds (app w) !! p with
  | Some AcceptOp => Some (OnAccept w res flags)
  | Some CancelOp => Some (OnCancel w)
  | None => Some (w, DefaultDispatchResult kPoll flags)
  end.

Definition run_task (p : Z) w : option world := Some w.

(** A multishot accept is the only request with several completions. *)
Definition multi (p : Z) w : bool := bool_decide (kinds (app w) !! p = Some AcceptOp).

(** ** Runs *)

(** The entries filled between two worlds, by their user data. *)
Definition pushes (w : world) : list sqe := u_pushed (ring_ (io w)).
Definition new_requests (w w' : world) : gmap Z opcode :=
  list_to_map ((λ s, (user_data s, op s)) <$> drop (length (pushes w)) (pushes w')).

Definition is_accept (o : opcode) : bool :=
  match o with OpMultishotAccept _ | OpAccept _ => true | _ => false end.

(** The world, the requests the kernel owes a completion, and the descriptors it
    accepted.  A request is owed from the moment its entry is filled to its last
    completion; only a multishot accept has several. *)
Definition lstate : Type := world * gmap Z opcode * list Z.

Inductive lstep : lstate → lstate → Prop :=
| l_complete w R acc p o res flags w' :
    R !! p = Some o → (final flags = false → ∃ fd, o = OpMultishotAccept fd) →
    dispatch_one on_event run_task w (mkCqe p res flags) = Some w' →
    lstep (w, R, acc) (w', new_requests w w' ∪ (if final flags then delete p R else R),
                       acc ++ if is_accept o && (0 <=? res) then [res] else [])
| l_start w R acc socket bind listen w' r :
    Start w socket bind listen = (w', r) →
    lstep (w, R, acc) (w', new_requests w w' ∪ R, acc)
| l_stop w R acc : lstep (w, R, acc) (Stop w, new_requests w (Stop w) ∪ R, acc)
| l_release w R acc :
    0 < sessions (app w) → lstep (w, R, acc) (add_sessions w (-1), R, acc).

(** *** The events that are created *)

(** The events created by a handler. *)
Definition requests (p res flags : Z) w : gset Z :=
  match on_event p res flags w with
  | Some (w', _) => dom (live_events w') ∖ dom (live_events w)
  | None => ∅
  end.

(** The world, the events that wait, and the descriptors accepted. *)
Definition estate : Type := world * gset Z * list Z.

Definition new_live (w w' : world) : gset Z := dom (live_events w') ∖ dom (live_events w).

Definition accepted_by (w : world) (p res : Z) : list Z :=
  if decide (kinds (app w) !! p = Some AcceptOp ∧ 0 ≤ res) then [res] else [].

(** The descriptors of clients something was done with. *)
Definition client_fd (x : effect) : option Z :=
  match x with CloseFd fd | RejectFd fd | StartSession fd => Some fd | CloseListen _ => None end.

(** ** Lemmas on the operations *)

Lemma fresh_addr_spec (m : gmap Z bool) : m !! fresh_addr m = None ∧ aligned (fresh_addr m).
Proof.
  assert (∀ m : gmap Z bool, 0 ≤ map_fold (λ k _ acc, Z.max (Z.abs k) acc) 0 m ∧
    ∀ k, is_Some (m !! k) → Z.abs k ≤ map_fold (λ k _ acc, Z.max (Z.abs k) acc) 0 m) as Hm.
  { clear m. apply (map_fold_weak_ind (λ acc m, 0 ≤ acc ∧ ∀ k, is_Some (m !! k) → Z.abs k ≤ acc)).
    - split; [lia|]. intros k [x Hx]. by rewrite lookup_empty in Hx.
    - intros i x m r Hi [Hr IH]. split; [lia|]. intros k [y Hy].
      apply lookup_insert_Some in Hy as [[-> _]|[_ Hy]]; [lia|].
      specialize (IH k ltac:(eauto)). lia. }
  destruct (Hm m) as [H0 Hk]. unfold fresh_addr. split.
  - apply eq_None_not_Some. intros Hs%Hk. lia.
  - split; [lia|]. rewrite Z.mul_comm. by apply Z.mod_mul.
Qed.

(** What [RegisterAccept] can do: nothing that matters, or create the accept
    event and prepare its request. *)
Lemma RegisterAccept_cases w :
  let '(w', ok) := RegisterAccept w in
  let p := fresh_addr (live_events w) in
  listen_fd_ (app w') = listen_fd_ (app w) ∧ max_sessions_ (app w') = max_sessions_ (app w) ∧
  session_count_fn_ (app w') = session_count_fn_ (app w) ∧
  sessions (app w') = sessions (app w) ∧ log (app w') = log (app w) ∧
  (∀ q, q ≠ p → kinds (app w') !! q = kinds (app w) !! q) ∧
  if ok : bool then
    active_accept_ev_ (app w) = None ∧ active_accept_ev_ (app w') = Some p ∧
    live_events w' = <[p := true]> (live_events w) ∧ kinds (app w') !! p = Some AcceptOp
  else active_accept_ev_ (app w') = active_accept_ev_ (app w) ∧
       live_events w' = live_events w.
Proof.
  destruct (fresh_addr_spec (live_events w)) as [Hfresh _].
  unfold RegisterAccept. destruct ((_ <? _) || _) eqn:E; [by split_and!|].
  apply orb_false_iff in E as [_ E]. propify. apply dec_stable in E.
  cbn [ask fst snd]. destruct (alloc_ok e _); cbn [negb]; [|by split_and!].
  cbn [new_event]. unfold PrepAcceptMultishot, prep.
  destruct (u_push _ _) as [u|]; cbn [negb].
  - simpl. split_and!; try done; [|by rewrite lookup_insert_eq].
    intros q Hq. by rewrite lookup_insert_ne.
  - simpl. split_and!; try done; [|by rewrite delete_insert_id].
    intros q Hq. by rewrite lookup_insert_ne.
Qed.

Definition clients (w : world) : list Z := omap client_fd (log (app w)).

(** The limit on sessions, as far as one is set and can be checked. *)
Definition within_limit (w : world) : Prop :=
  0 < max_sessions_ (app w) → session_count_fn_ (app w) = true →
  sessions (app w) ≤ max_sessions_ (app w).

(** Parts of the world that accepting a descriptor leaves alone. *)
Definition same_requests (w w' : world) : Prop :=
  live_events w' = live_events w ∧ kinds (app w') = kinds (app w) ∧
  active_accept_ev_ (app w') = active_accept_ev_ (app w) ∧
  listen_fd_ (app w') = listen_fd_ (app w).

Section Accepting.
Hypothesis extra_nonneg : ∀ n, 0 ≤ extra_sessions e n.

(** Exactly one thing is done with an accepted descriptor. *)
Lemma OnAccept_fd_spec w fd :
  let w' := OnAccept_fd w fd in
  same_requests w w' ∧ clients w' = clients w ++ [fd] ∧ (within_limit w → within_limit w').
Proof.
  unfold OnAccept_fd, clients.
  assert (∀ l x, client_fd x = Some fd → omap client_fd (l ++ [x]) = omap client_fd l ++ [fd]) as Ho.
  { intros l x Hx. rewrite omap_app. simpl. by rewrite Hx. }
  destruct ((0 <? max_sessions_ (app w)) && session_count_fn_ (app w)) eqn:E; cbn [ask].
  - set (full := max_sessions_ _ <=? _). destruct full eqn:Ef.
    { destruct (reject_handler_ _); simpl; rewrite Ho by done; by split_and!. }
    unfold full in Ef. propify. cbn [app set_app sessions max_sessions_] in Ef.
    pose proof (extra_nonneg (asked (app w))).
    destruct (nonblock_ok e _); cbn [negb]; [|simpl; rewrite Ho by done; by split_and!].
    destruct (factory_ok e _); [|simpl; rewrite Ho by done; by split_and!]. simpl. rewrite Ho by done.
    split; [done|]. split; [done|]. intros _ _ _. simpl. lia.
  - apply andb_false_iff in E.
    destruct (nonblock_ok e _); cbn [negb]; [|simpl; rewrite Ho by done; by split_and!].
    destruct (factory_ok e _); [|simpl; rewrite Ho by done; by split_and!]. simpl. rewrite Ho by done.
    split; [done|]. split; [done|]. intros _ Hm Hc. simpl in *.
    destruct E as [E|E]; propify; [lia|congruence].
Qed.

Lemma register_if_listening_cases w :
  let w' := register_if_listening w in
  let q := fresh_addr (live_events w) in
  clients w' = clients w ∧ (within_limit w → within_limit w') ∧
  (∀ p, p ≠ q → kinds (app w') !! p = kinds (app w) !! p) ∧
  (live_events w' = live_events w ∧ active_accept_ev_ (app w') = active_accept_ev_ (app w) ∨
   active_accept_ev_ (app w) = None ∧ live_events w' = <[q := true]> (live_events w) ∧
   kinds (app w') !! q = Some AcceptOp ∧ active_accept_ev_ (app w') = Some q).
Proof.
  unfold register_if_listening. case_match; [|by auto 10].
  pose proof (RegisterAccept_cases w) as Hc. destruct (RegisterAccept w) as [w' ok].
  destruct Hc as (_&Hm&Hf&Hs&Hl&Hk&Hok). simpl. unfold clients, within_limit.
  rewrite Hm, Hf, Hs, Hl. split_and!; [done|done|done|]. destruct ok; naive_solver.
Qed.

Lemma OnAccept_cases w res flags :
  active_accept_ev_ (app w) ≠ None →
  let '(w', r) := OnAccept w res flags in
  let q := fresh_addr (live_events w) in
  r = (if final flags then kComplete else kPending) ∧
  clients w' = clients w ++ (if 0 <=? res then [res] else []) ∧
  (within_limit w → within_limit w') ∧
  (∀ p, p ≠ q → kinds (app w') !! p = kinds (app w) !! p) ∧
  (live_events w' = live_events w ∧
   active_accept_ev_ (app w') = (if final flags then None else active_accept_ev_ (app w)) ∨
   final flags = true ∧ live_events w' = <[q := true]> (live_events w) ∧
   kinds (app w') !! q = Some AcceptOp ∧ active_accept_ev_ (app w') = Some q).
Proof.
  intros Hact. unfold OnAccept, final.
  set (w1 := if negb (negb _) then set_accept w None false else w).
  assert (live_events w1 = live_events w ∧ kinds (app w1) = kinds (app w) ∧
    clients w1 = clients w ∧ (within_limit w → within_limit w1) ∧
    active_accept_ev_ (app w1) = if Z.land flags IORING_CQE_F_MORE =? 0 then None
                                 else active_accept_ev_ (app w)) as (Hl&Hk&Hc&Hw&Ha).
  { unfold w1. by destruct (Z.land flags _ =? 0). }
  destruct (Z.ltb_spec res 0).
  - rewrite (proj2 (Z.leb_gt 0 res)), app_nil_r by done.
    destruct (register_if_listening_cases w1) as (Hc'&Hw'&Hk'&Hr). rewrite Hl in *.
    rewrite Hc', Hc. split_and!; [by destruct (_ =? 0)|done|auto|by rewrite <-Hk|].
    destruct Hr as [[-> ->]|(Hn&?&?&?)]; [by left|right].
    destruct (Z.land flags _ =? 0); [done|]. by rewrite Ha in Hn.
  - rewrite (proj2 (Z.leb_le 0 res)) by done.
    destruct (OnAccept_fd_spec w1 res) as ((Hl2&Hk2&Ha2&_)&Hc2&Hw2).
    destruct (Z.land flags _ =? 0) eqn:Ef; cbn [negb].
    + destruct (register_if_listening_cases (OnAccept_fd w1 res)) as (Hc'&Hw'&Hk'&Hr).
      rewrite Hl2, Hl in *. rewrite Hc', Hc2, Hc.
      split_and!; [done|done|auto|intros; rewrite Hk', Hk2, Hk; done|].
      destruct Hr as [[-> ->]|?]; [left; by rewrite Ha2, Ha|naive_solver].
    + rewrite Hc2, Hc. split_and!; [done|done|auto|by rewrite Hk2, Hk|].
      left. by rewrite Hl2, Hl, Ha2, Ha.
Qed.

(** ** Invariant *)

Record lis_inv (s : estate) : Prop := mkLisInv {
  li_live : dom (live_events s.1.1) = s.1.2;
  li_events p b : live_events s.1.1 !! p = Some b →
    b = true ∧ aligned p ∧ is_Some (kinds (app s.1.1) !! p);
  li_active p : p ∈ s.1.2 ∧ kinds (app s.1.1) !! p = Some AcceptOp ↔
    active_accept_ev_ (app s.1.1) = Some p;
  li_clients : clients s.1.1 = s.2;
  li_limit : within_limit s.1.1;
}.

(** ** The contract of the ring *)

Lemma register_live w :
  live_events (register_if_listening w) = live_events w ∨
  live_events (register_if_listening w) = <[fresh_addr (live_events w) := true]> (live_events w).
Proof.
  destruct (register_if_listening_cases w) as (_&_&_&[[-> _]|(_&->&_)]); auto.
Qed.

Lemma OnAccept_live w res flags :
  let '(w', r) := OnAccept w res flags in
  r = (if final flags then kComplete else kPending) ∧
  (live_events w' = live_events w ∨
   live_events w' = <[fresh_addr (live_events w) := true]> (live_events w)).
Proof.
  unfold OnAccept, final.
  set (w1 := if negb (negb _) then set_accept w None false else w).
  assert (live_events w1 = live_events w) as Hl by (unfold w1; by case_match).
  destruct (res <? 0); [split; [by destruct (_ =? 0)|]; rewrite <-Hl; apply register_live|].
  destruct (OnAccept_fd_spec w1 res) as ((Hl2&_)&_). rewrite Hl in Hl2.
  split; [by destruct (_ =? 0)|]. case_match; [rewrite <-Hl2; apply register_live|by left].
Qed.

Lemma on_event_live p res flags w w' r : on_event p res flags w = Some (w', r) →
  live_events w' = live_events w ∨
  live_events w' = <[fresh_addr (live_events w) := true]> (live_events w).
Proof.
  unfold on_event. destruct (kinds (app w) !! p) as [[]|]; unfold OnCancel; intros He;
    injection He as He; [|by subst; auto..].
  pose proof (OnAccept_live w res flags) as Ho. rewrite He in Ho. apply Ho.
Qed.

(** The listener's handlers meet the ring's contract. *)
Lemma listener_handlers_ok : handlers_ok on_event requests multi.
Proof.
  split.
  - intros p res flags w _. unfold on_event. by destruct (kinds (app w) !! p) as [[]|].
  - intros p res flags w w' r He. destruct (on_event_live _ _ _ _ _ _ He) as [-> | ->]; [done|].
    apply insert_subseteq, fresh_addr_spec.
  - intros p res flags w w' r Hfl He. unfold on_event in He. unfold kernel_flags, multi in Hfl.
    destruct (kinds (app w) !! p) as [[]|] eqn:E.
    + pose proof (OnAccept_live w res flags) as Ho. injection He as He. rewrite He in Ho. apply Ho.
    + injection He as <- <-. destruct (final flags); [done|]. by specialize (Hfl eq_refl).
    + injection He as <- <-. destruct (final flags); [done|]. by specialize (Hfl eq_refl).
  - intros p res flags w w' r q [b Hp] He Hq. unfold requests in Hq. rewrite He in Hq.
    destruct (fresh_addr_spec (live_events w)) as [Hf Ha].
    destruct (on_event_live _ _ _ _ _ _ He) as [E|E]; rewrite E in *; [set_solver|].
    assert (q = fresh_addr (live_events w)) as -> by (rewrite dom_insert_L in Hq; set_solver).
    split; [done|]. rewrite lookup_insert_eq. split; [eauto|]. intros _ Hqp. rewrite Hqp in Hf. congruence.
Qed.

(** ** A completed accept request

    [w1] is the state its handler leaves: no request is new, or the completion was
    the last one and a fresh accept request has taken the place of [p]. *)
Section Accepted.
Context (w w1 : world) (p : Z) (fin : bool).
Let q := fresh_addr (live_events w).
Context (events : ∀ x b, live_events w !! x = Some b →
  b = true ∧ aligned x ∧ is_Some (kinds (app w) !! x)).
Context (active : ∀ x, x ∈ dom (live_events w) ∧ kinds (app w) !! x = Some AcceptOp ↔
  active_accept_ev_ (app w) = Some x).
Context (is_active : active_accept_ev_ (app w) = Some p).
Context (same_kinds : ∀ x, x ≠ q → kinds (app w1) !! x = kinds (app w) !! x).

Definition rearmed : Prop :=
  fin = true ∧ live_events w1 = <[q := true]> (live_events w) ∧
  kinds (app w1) !! q = Some AcceptOp ∧ active_accept_ev_ (app w1) = Some q.

Definition not_rearmed : Prop :=
  live_events w1 = live_events w ∧
  active_accept_ev_ (app w1) = if fin then None else active_accept_ev_ (app w).

Lemma accepted_events x b : not_rearmed ∨ rearmed →
  live_events w1 !! x = Some b → b = true ∧ aligned x ∧ is_Some (kinds (app w1) !! x).
Proof.
  destruct (fresh_addr_spec (live_events w)) as [Hfr Hfa]. fold q in Hfr, Hfa.
  intros Hr Hx. destruct (decide (x = q)) as [->|Hne].
  - destruct Hr as [[Hl _]|(_&Hl&Hkq&_)]; rewrite Hl in Hx; [congruence|].
    rewrite lookup_insert_eq in Hx. injection Hx as <-. eauto.
  - rewrite same_kinds by done. apply events.
    destruct Hr as [[Hl _]|(_&Hl&_)]; rewrite Hl in Hx; [done|].
    by rewrite lookup_insert_ne in Hx.
Qed.

(** Among the requests of [w] that are left, the only accept request is [p]. *)
Lemma accept_only_p x : x ∈ dom (live_events w) → kinds (app w1) !! x = Some AcceptOp ↔ x = p.
Proof.
  destruct (fresh_addr_spec (live_events w)) as [Hfr _]. intros Hx.
  rewrite same_kinds by (intros ->; by apply not_elem_of_dom in Hfr).
  split; [|intros ->; by apply active].
  intros Hk. pose proof (proj1 (active x) (conj Hx Hk)). congruence.
Qed.

Lemma accepted_active x : not_rearmed ∨ rearmed →
  x ∈ (if fin then dom (live_events w) ∖ {[p]} else dom (live_events w)) ∪
      (dom (live_events w1) ∖ dom (live_events w)) ∧
  kinds (app w1) !! x = Some AcceptOp ↔ active_accept_ev_ (app w1) = Some x.
Proof.
  destruct (fresh_addr_spec (live_events w)) as [Hfr%not_elem_of_dom _]. fold q in Hfr.
  assert (p ∈ dom (live_events w)) as Hp by (by apply active).
  intros [[Hl ->]|(->&Hl&Hkq&->)]; rewrite Hl.
  - rewrite difference_diag_L, union_empty_r_L, is_active. destruct fin.
    + split; [|done]. intros [[Hx Hne]%elem_of_difference Hk].
      apply accept_only_p in Hk; set_solver.
    + split; [intros [Hx Hk]|intros [= <-]]; [|by rewrite accept_only_p].
      by apply accept_only_p in Hk; subst.
  - rewrite dom_insert_L. split; [intros [Hx Hk]|intros [= <-]; set_solver].
    destruct (decide (x = q)) as [->|Hne]; [done|]. exfalso.
    assert (x ∈ dom (live_events w)) by set_solver. apply accept_only_p in Hk; set_solver.
Qed.
End Accepted.

(** What the ring leaves of a completion: the world of the handler, less the event
    of a request that is final. *)
Lemma dispatch_handled w p res flags w' :
  aligned p → kernel_flags multi p flags w → live_events w !! p = Some true →
  dispatch_one on_event run_task w (mkCqe p res flags) = Some w' →
  ∃ w1 r, on_event p res flags w = Some (w1, r) ∧ app w' = app w1 ∧ io w' = io w1 ∧
    live_events w' = if final flags then delete p (live_events w1) else live_events w1.
Proof.
  intros Hal Hfl Hb Hd.
  destruct (dispatch_event_spec on_event run_task requests multi w p true res flags
    listener_handlers_ok Hal Hfl Hb) as (w1&r&w2&He&Hd2&Hl2).
  rewrite Hd in Hd2. injection Hd2 as <-. cbn [andb] in Hl2.
  exists w1, r. enough (app w' = app w1 ∧ io w' = io w1) as [? ?] by done.
  unfold dispatch_one in Hd. cbn [cqe_data cqe_res cqe_flags] in Hd.
  rewrite classify_event, decide_True in Hd by eauto. rewrite He in Hd. simpl in Hd.
  destruct (live_events w1 !! p); [|done]. simpl in Hd. injection Hd as <-. by case_match.
Qed.

Lemma l_accept_inv w K acc p res flags w' w1 r :
  lis_inv (w, K, acc) → active_accept_ev_ (app w) = Some p →
  OnAccept w res flags = (w1, r) → app w' = app w1 →
  live_events w' = (if final flags then delete p (live_events w1) else live_events w1) →
  lis_inv (w', (if final flags then K ∖ {[p]} else K) ∪ (dom (live_events w1) ∖ dom (live_events w)),
           acc ++ if decide (0 ≤ res) then [res] else []).
Proof.
  intros [HK Hev Hact Hcl Hlim] Ha Hon Happ Hl2. cbn [fst snd] in *. subst K acc.
  pose proof (OnAccept_cases w res flags ltac:(congruence)) as Hc. rewrite Hon in Hc.
  destruct Hc as (_&Hcl'&Hlim'&Hk'&Hr).
  pose proof (λ x b, accepted_events w w1 (final flags) Hev Hk' x b Hr) as Hev1.
  pose proof (λ x, accepted_active w w1 p (final flags) Hev Hact Ha Hk' x Hr) as Hact1.
  destruct (fresh_addr_spec (live_events w)) as [Hfr%not_elem_of_dom _].
  assert (p ∈ dom (live_events w)) as Hp by (by apply Hact).
  split; cbn [fst snd]; rewrite ?Happ; try done.
  - rewrite Hl2. assert (dom (live_events w) ⊆ dom (live_events w1)).
    { destruct Hr as [[-> _]|(_&->&_)]; set_solver. }
    assert (p ∉ dom (live_events w1) ∖ dom (live_events w)) by set_solver.
    destruct (final flags); rewrite ?dom_delete_L; [|by rewrite <-union_difference_L].
    apply set_eq. intros x. rewrite !elem_of_difference, elem_of_union, !elem_of_difference.
    destruct (decide (x ∈ dom (live_events w))); set_solver.
  - intros x b. rewrite Hl2. destruct (final flags); [|apply Hev1].
    rewrite lookup_delete_Some. intros [_ Hx]. by apply Hev1.
  - unfold clients in *. rewrite Happ, Hcl'. f_equal.
    by destruct (Z.leb_spec 0 res); [rewrite decide_True|rewrite decide_False by lia].
  - unfold within_limit in *. rewrite Happ. auto.
Qed.

Lemma l_cancel_inv w K acc p w' :
  lis_inv (w, K, acc) → kinds (app w) !! p = Some CancelOp → app w' = app w →
  live_events w' = delete p (live_events w) → lis_inv (w', K ∖ {[p]}, acc).
Proof.
  intros [HK Hev Hact Hcl Hlim] Hk Happ Hl2. cbn [fst snd] in *. subst K acc.
  split; cbn [fst snd]; unfold clients, within_limit in *; rewrite ?Happ; try done.
  - by rewrite Hl2, dom_delete_L.
  - intros x bx. rewrite Hl2, lookup_delete_Some. intros [_ Hx]. by apply Hev.
  - intros x. rewrite <-Hact, elem_of_difference, elem_of_singleton. naive_solver.
Qed.

(** Handling a completion keeps the invariant. *)
Lemma l_complete_inv w K acc p res flags w' :
  lis_inv (w, K, acc) → p ∈ K → kernel_flags multi p flags w →
  dispatch_one on_event run_task w (mkCqe p res flags) = Some w' →
  lis_inv (w', (if final flags then K ∖ {[p]} else K) ∪ requests p res flags w,
           acc ++ accepted_by w p res).
Proof.
  intros Hi Hp Hfl Hd. pose proof Hi as [HK Hev Hact _ _]. cbn [fst snd] in *. subst K.
  pose proof Hp as [b Hb]%elem_of_dom. destruct (Hev p b Hb) as (->&Hal&[k Hk]).
  destruct (dispatch_handled w p res flags w' Hal Hfl Hb Hd) as (w1&r&He&Happ&_&Hl2).
  unfold requests, accepted_by. rewrite He, Hk.
  pose proof He as Hon. unfold on_event in Hon. rewrite Hk in Hon. destruct k.
  - assert (active_accept_ev_ (app w) = Some p) as Ha by (by apply Hact).
    injection Hon as Hon.
    pose proof (l_accept_inv w _ _ p res flags w' w1 r Hi Ha Hon Happ Hl2) as Hres.
    by destruct (decide (0 ≤ res)); [rewrite decide_True|rewrite decide_False by naive_solver].
  - unfold kernel_flags, multi in Hfl. rewrite Hk in Hfl.
    destruct (final flags); [|by specialize (Hfl eq_refl)].
    injection Hon as <- <-. rewrite difference_diag_L, union_empty_r_L.
    rewrite decide_False, app_nil_r by naive_solver. by apply (l_cancel_inv w).
Qed.

(** A step outside the handlers that creates at most one event. *)
Lemma listener_quiet_inv w w' K acc :
  lis_inv (w, K, acc) → live_events w' = live_events w →
  (∀ q, q ≠ fresh_addr (live_events w) → kinds (app w') !! q = kinds (app w) !! q) →
  active_accept_ev_ (app w') = active_accept_ev_ (app w) →
  clients w' = clients w → within_limit w' → lis_inv (w', K ∪ new_live w w', acc).
Proof.
  intros [HK Hev Hact Hcl Hlim] Hl Hk Ha Hc Hw. cbn [fst snd] in *. subst.
  destruct (fresh_addr_spec (live_events w)) as [Hf _].
  assert (∀ q, q ∈ dom (live_events w) → kinds (app w') !! q = kinds (app w) !! q) as Hk'.
  { intros q Hq. apply Hk. intros ->. by apply not_elem_of_dom in Hf. }
  assert (dom (live_events w) ∪ new_live w w' = dom (live_events w)) as HK.
  { unfold new_live. rewrite Hl. set_solver. }
  rewrite HK. split; cbn [fst snd]; try done.
  - by rewrite Hl.
  - intros q b. rewrite Hl. intros Hq. rewrite Hk' by (apply elem_of_dom; eauto). by apply Hev.
  - intros q. rewrite Ha, <-Hact. split; intros [Hq Hkq]; (split; [done|]).
    + by rewrite <-Hk'.
    + by rewrite Hk'.
Qed.

Lemma created_inv w w' K acc k :
  lis_inv (w, K, acc) →
  let p := fresh_addr (live_events w) in
  live_events w' = <[p := true]> (live_events w) →
  (∀ q, q ≠ p → kinds (app w') !! q = kinds (app w) !! q) → kinds (app w') !! p = Some k →
  match k with
  | AcceptOp => active_accept_ev_ (app w) = None ∧ active_accept_ev_ (app w') = Some p
  | CancelOp => active_accept_ev_ (app w') = active_accept_ev_ (app w)
  end →
  clients w' = clients w → within_limit w' → lis_inv (w', K ∪ new_live w w', acc).
Proof.
  intros [HK Hev Hact Hcl Hlim] p Hl Hk Hkp Ha Hc Hw. cbn [fst snd] in *. subst.
  destruct (fresh_addr_spec (live_events w)) as [Hf Hal]. fold p in Hf, Hal.
  apply not_elem_of_dom in Hf as Hfd.
  assert (dom (live_events w) ∪ new_live w w' = {[p]} ∪ dom (live_events w)) as HK.
  { unfold new_live. rewrite Hl, dom_insert_L. set_solver. }
  rewrite HK. split; cbn [fst snd]; try done.
  - by rewrite Hl, dom_insert_L.
  - intros q b. rewrite Hl. destruct (decide (q = p)) as [->|Hne].
    + rewrite lookup_insert_eq, Hkp. intros [= <-]. eauto.
    + rewrite lookup_insert_ne, Hk by done. apply Hev.
  - intros q. rewrite elem_of_union, elem_of_singleton. destruct (decide (q = p)) as [->|Hne].
    + rewrite Hkp. destruct k; [destruct Ha as [_ ->]; naive_solver|]. rewrite Ha.
      split; [by intros [_ ?]|]. intros Hpa. apply Hact in Hpa as [? _]. done.
    + rewrite Hk by done. destruct k.
      * destruct Ha as [Hn ->]. split; [|congruence]. intros [[?|Hq] Hkq]; [done|].
        pose proof (proj1 (Hact q) (conj Hq Hkq)). congruence.
      * rewrite Ha, <-Hact. naive_solver.
Qed.

Lemma RegisterAccept_inv w K acc : lis_inv (w, K, acc) →
  lis_inv ((RegisterAccept w).1, K ∪ new_live w (RegisterAccept w).1, acc).
Proof.
  intros Hi. pose proof (RegisterAccept_cases w) as Hc.
  destruct (RegisterAccept w) as [w' ok]. destruct Hc as (_&Hm&Hf&Hs&Hl&Hk&Hok). simpl.
  assert (clients w' = clients w) as Hcl by (unfold clients; by rewrite Hl).
  assert (within_limit w') as Hw.
  { pose proof (li_limit _ Hi) as Hw. cbn in Hw. unfold within_limit in *. by rewrite Hm, Hf, Hs. }
  destruct ok.
  - destruct Hok as (Hn&Ha&Hlv&Hkp). by apply (created_inv w w' K acc AcceptOp).
  - destruct Hok as (Ha&Hlv). by apply (listener_quiet_inv w w' K acc).
Qed.

(** What [Stop] does to the requests: nothing, or a cancel event is created. *)
Lemma Stop_cancel_cases w :
  let w1 := Stop_cancel w in
  let p := fresh_addr (live_events w) in
  clients w1 = clients w ∧ (within_limit w → within_limit w1) ∧
  (∀ q, q ≠ p → kinds (app w1) !! q = kinds (app w) !! q) ∧
  active_accept_ev_ (app w1) = active_accept_ev_ (app w) ∧
  (live_events w1 = live_events w ∨
   live_events w1 = <[p := true]> (live_events w) ∧ kinds (app w1) !! p = Some CancelOp).
Proof.
  destruct (fresh_addr_spec (live_events w)) as [Hf _].
  unfold Stop_cancel. destruct (active_accept_ev_ (app w)) as [t|] eqn:Et; [|split_and!; auto].
  destruct (accept_cancel_requested_ _); [split_and!; auto|]. cbn [ask].
  destruct (alloc_ok e _); cbn [negb]; [|split_and!; auto]. cbn [new_event].
  destruct (PrepCancel _ _ _) as [r []]; simpl.
  - split_and!; try done; [intros q Hq; by rewrite lookup_insert_ne|].
    right. by rewrite lookup_insert_eq.
  - split_and!; try done; [intros q Hq; by rewrite lookup_insert_ne|].
    left. by rewrite delete_insert_id.
Qed.

Lemma listener_Stop_inv w K acc : lis_inv (w, K, acc) → lis_inv (Stop w, K ∪ new_live w (Stop w), acc).
Proof.
  intros Hi. pose proof (li_limit _ Hi) as Hw. cbn in Hw.
  destruct (Stop_cancel_cases w) as (Hc&Hw1&Hk&Ha&Hl).
  unfold Stop. set (w1 := Stop_cancel w) in *. cbn [SocketHandle_Reset].
  set (w2 := set_listen w1 _ _).
  assert (clients w2 = clients w) as Hc2.
  { unfold w2, clients in *. simpl. rewrite omap_app, Hc.
    destruct (0 <=? listen_fd_ (app w1)); simpl; by rewrite app_nil_r. }
  destruct Hl as [Hl|[Hl Hkp]].
  - by apply listener_quiet_inv; auto.
  - by apply (created_inv w w2 K acc CancelOp); auto.
Qed.

Lemma listener_Start_inv w K acc socket bind listen w' r : lis_inv (w, K, acc) →
  Start w socket bind listen = (w', r) → lis_inv (w', K ∪ new_live w w', acc).
Proof.
  intros Hi. unfold Start. destruct (CreateListenSocket _ _ _) as [fd closed].
  set (w1 := foldl _ w closed).
  assert (live_events w1 = live_events w ∧ kinds (app w1) = kinds (app w) ∧
    active_accept_ev_ (app w1) = active_accept_ev_ (app w) ∧ clients w1 = clients w ∧
    within_limit w1) as (Hl1&Hk1&Ha1&Hc1&Hw1).
  { pose proof (li_limit _ Hi) as Hw. cbn in Hw. unfold w1. clear w1 Hi.
    revert w Hw. induction closed as [|c cs IH]; intros w Hw; [done|]. simpl.
    destruct (IH (note w (CloseListen c)) Hw) as (->&->&->&->&?). split_and!; try done.
    unfold clients. simpl. by rewrite omap_app, app_nil_r. }
  assert (lis_inv (w1, K ∪ new_live w w1, acc)) as Hi1
    by (apply (listener_quiet_inv w); rewrite ?Hk1; auto).
  destruct (fd <? 0); [by intros [= <- _]|].
  cbn [SocketHandle_Reset]. set (w2 := set_listen w1 _ _).
  assert (lis_inv (w2, (K ∪ new_live w w1) ∪ new_live w1 w2, acc)) as Hi2.
  { apply (listener_quiet_inv w1); try done. unfold w2, clients. simpl. rewrite omap_app.
    destruct (0 <=? _); simpl; by rewrite app_nil_r. }
  pose proof (RegisterAccept_inv w2 _ _ Hi2) as Hi3.
  assert (live_events w2 = live_events w) as Hl2 by (by rewrite <-Hl1).
  destruct (RegisterAccept w2) as [w3 ok]. cbn [fst] in Hi3.
  assert (K ∪ new_live w w1 ∪ new_live w1 w2 ∪ new_live w2 w3 = K ∪ new_live w w3) as HK.
  { unfold new_live. rewrite Hl2, Hl1. set_solver. }
  rewrite HK in Hi3. by destruct ok; intros [= <- _].
Qed.

(** ** The requests are those of the events *)

Definition kind_of (o : opcode) : option event_kind :=
  match o with
  | OpMultishotAccept _ | OpAccept _ => Some AcceptOp
  | OpCancel _ => Some CancelOp
  | _ => None
  end.

(** The entries filled on the way from [w] to [w'] are one for each event created. *)
Definition asks (w w' : world) : Prop :=
  live_events w ⊆ live_events w' ∧
  (∀ p, p ∈ dom (live_events w) → kinds (app w') !! p = kinds (app w) !! p) ∧
  ∃ news, pushes w' = pushes w ++ news ∧ new_live w w' = list_to_set (user_data <$> news) ∧
    ∀ s, s ∈ news → is_Some (kind_of (op s)) ∧ kinds (app w') !! user_data s = kind_of (op s).

Lemma asks_none w w' : live_events w' = live_events w →
  (∀ p, p ≠ fresh_addr (live_events w) → kinds (app w') !! p = kinds (app w) !! p) →
  pushes w' = pushes w → asks w w'.
Proof.
  intros Hl Hk Hp. destruct (fresh_addr_spec (live_events w)) as [Hf%not_elem_of_dom _].
  split; [by rewrite Hl|]. split; [intros p Hin; apply Hk; by intros ->|].
  exists []. rewrite Hp, app_nil_r. unfold new_live. rewrite Hl. set_solver.
Qed.

Lemma asks_one w w' o k : let p := fresh_addr (live_events w) in
  live_events w' = <[p := true]> (live_events w) →
  (∀ q, q ≠ p → kinds (app w') !! q = kinds (app w) !! q) →
  pushes w' = pushes w ++ [mkSqe o p] → kind_of o = Some k → kinds (app w') !! p = Some k → asks w w'.
Proof.
  intros p Hl Hk Hp Ho Hkp. destruct (fresh_addr_spec (live_events w)) as [Hf _]. fold p in Hf.
  apply not_elem_of_dom in Hf as Hfd.
  split; [rewrite Hl; by apply insert_subseteq|]. split; [intros q Hq; apply Hk; by intros ->|].
  exists [mkSqe o p]. split; [done|]. split; [unfold new_live; rewrite Hl, dom_insert_L; set_solver|].
  intros s ->%list_elem_of_singleton. cbn. by rewrite Hkp, Ho.
Qed.

Lemma asks_trans w1 w2 w3 : asks w1 w2 → asks w2 w3 → asks w1 w3.
Proof.
  intros (Hl&Hk&n1&Hp&Hn&Hs) (Hl'&Hk'&n2&Hp'&Hn'&Hs').
  apply subseteq_dom in Hl as Hd. apply subseteq_dom in Hl' as Hd'.
  split; [by etrans|]. split; [intros p Hin; rewrite Hk', Hk; set_solver|].
  exists (n1 ++ n2). split; [by rewrite Hp', Hp, app_assoc|].
  split.
  - rewrite fmap_app, list_to_set_app_L, <- Hn, <- Hn'. unfold new_live.
    apply set_eq. intros x. destruct (decide (x ∈ dom (live_events w2))); set_solver.
  - intros s [Hin|Hin]%elem_of_app; [|by apply Hs']. destruct (Hs s Hin) as [? E]. split; [done|].
    rewrite <- E. apply Hk'. assert (user_data s ∈ new_live w1 w2) by (rewrite Hn; apply elem_of_list_to_set; by apply list_elem_of_fmap_2).
    unfold new_live in *. set_solver.
Qed.

Lemma Submit_pushed (r : io_ring U Task) : u_pushed (ring_ (Submit r).1) = u_pushed (ring_ r).
Proof.
  unfold Submit, FlushSubmissions. simpl. repeat case_match; simplify_eq; try done.
  cbn. by eapply u_submit_pushed.
Qed.

Lemma RegisterAccept_asks w : asks w (RegisterAccept w).1.
Proof.
  unfold RegisterAccept. destruct ((_ <? _) || _); [by apply asks_none|].
  cbn [ask]. destruct (alloc_ok e _); cbn [negb]; [|by apply asks_none].
  cbn [new_event]. unfold PrepAcceptMultishot, prep.
  destruct (fresh_addr_spec (live_events w)) as [Hf _].
  destruct (u_push _ _) as [u|] eqn:Eu; cbn [negb fst].
  - eapply (asks_one _ _ _ AcceptOp); simpl; [done|intros; by rewrite lookup_insert_ne| | |by rewrite lookup_insert_eq].
    + unfold pushes. simpl. rewrite Submit_pushed. simpl. by apply u_push_pushed in Eu.
    + by destruct (bool_decide _).
  - apply asks_none; simpl; [by rewrite delete_insert_id|intros; by rewrite lookup_insert_ne|done].
Qed.

Lemma register_asks w : asks w (register_if_listening w).
Proof. unfold register_if_listening. case_match; [apply RegisterAccept_asks|by apply asks_none]. Qed.

Lemma OnAccept_fd_asks w fd : asks w (OnAccept_fd w fd).
Proof.
  destruct (OnAccept_fd_spec w fd) as ((Hl&Hk&_)&_). apply asks_none; [done|by rewrite Hk|].
  unfold OnAccept_fd, pushes. simpl. by repeat (case_match; simplify_eq/=).
Qed.

Lemma on_event_asks p res flags w w' r : on_event p res flags w = Some (w', r) → asks w w'.
Proof.
  unfold on_event. destruct (kinds (app w) !! p) as [[]|]; unfold OnCancel; intros [= E]; subst;
    try (by apply asks_none).
  unfold OnAccept in E. set (w1 := if negb (negb _) then set_accept w None false else w) in *.
  assert (asks w w1) as H1 by (apply asks_none; unfold w1; by destruct (Z.land flags _ =? 0)).
  destruct (res <? 0); injection E as <- _.
  - eapply asks_trans; [done|apply register_asks].
  - eapply asks_trans; [done|]. eapply asks_trans; [apply OnAccept_fd_asks|].
    case_match; [apply register_asks|by apply asks_none].
Qed.

Lemma Stop_asks w : asks w (Stop w).
Proof.
  assert (asks w (Stop_cancel w)) as H1; [|eapply asks_trans; [done|by apply asks_none]].
  destruct (fresh_addr_spec (live_events w)) as [Hf _].
  unfold Stop_cancel. destruct (active_accept_ev_ (app w)) as [t|]; [|by apply asks_none].
  destruct (accept_cancel_requested_ _); [by apply asks_none|]. cbn [ask].
  destruct (alloc_ok e _); cbn [negb]; [|by apply asks_none]. cbn [new_event].
  unfold PrepCancel, prep. destruct (u_push _ _) as [u|] eqn:Eu.
  - apply (asks_one _ _ (OpCancel t) CancelOp); simpl;
      [done|intros; by rewrite lookup_insert_ne| |done|by rewrite lookup_insert_eq].
    unfold pushes. simpl. rewrite Submit_pushed. simpl. by apply u_push_pushed in Eu.
  - apply asks_none; simpl; [by rewrite delete_insert_id|intros; by rewrite lookup_insert_ne|done].
Qed.

Lemma Start_asks w socket bind listen w' r : Start w socket bind listen = (w', r) → asks w w'.
Proof.
  unfold Start. destruct (CreateListenSocket _ _ _) as [fd closed]. set (w1 := foldl _ w closed).
  assert (asks w w1) as H1.
  { unfold w1. clear w1. revert w. induction closed as [|c cs IH]; intros w; cbn; [by apply asks_none|].
    eapply asks_trans; [|apply IH]. by apply asks_none. }
  destruct (fd <? 0); [by intros [= <- _]|]. cbn [SocketHandle_Reset]. set (w2 := set_listen w1 _ _).
  assert (asks w w2) as H2 by (eapply asks_trans; [done|by apply asks_none]).
  pose proof (RegisterAccept_asks w2) as H3. destruct (RegisterAccept w2) as [w3 ok].
  assert (asks w w3) by (by eapply asks_trans). by destruct ok; intros [= <- _].
Qed.

(** The invariant of runs: that of the events, with the requests the kernel has. *)
Definition req_inv (s : lstate) : Prop :=
  lis_inv (s.1.1, dom s.1.2, s.2) ∧
  ∀ p o, s.1.2 !! p = Some o → is_Some (kind_of o) ∧ kinds (app s.1.1) !! p = kind_of o.

(** The requests after a step. *)
Lemma asks_requests w w' R acc : lis_inv (w, dom R, acc) → asks w w' →
  (∀ p o, R !! p = Some o → is_Some (kind_of o) ∧ kinds (app w) !! p = kind_of o) →
  dom (new_requests w w') = new_live w w' ∧
  ∀ p o, (new_requests w w' ∪ R) !! p = Some o → is_Some (kind_of o) ∧ kinds (app w') !! p = kind_of o.
Proof.
  intros [HK _ _ _ _] (_&Hk&news&Hp&Hn&Hs) HR. cbn [fst snd] in *. unfold new_requests.
  rewrite Hp, drop_app_length. split.
  { rewrite dom_list_to_map_L, <- list_fmap_compose. by rewrite Hn. }
  intros p o [Hin|[_ Hin]]%lookup_union_Some_raw.
  - apply elem_of_list_to_map_2 in Hin. apply list_elem_of_fmap in Hin as (s&[= -> ->]&Hin). by apply Hs.
  - rewrite Hk; [by apply HR|]. rewrite HK. by apply elem_of_dom_2 in Hin.
Qed.

Lemma same_pushes w w1 w' : io w' = io w1 → new_requests w w' = new_requests w w1.
Proof. intros E. unfold new_requests, pushes. by rewrite E. Qed.

Lemma kind_is_accept o : kind_of o = Some AcceptOp ↔ is_accept o = true.
Proof. by destruct o. Qed.

(** A request the kernel has can be completed. *)
Lemma owed w R acc p o flags : req_inv (w, R, acc) → R !! p = Some o →
  (final flags = false → ∃ fd, o = OpMultishotAccept fd) →
  aligned p ∧ live_events w !! p = Some true ∧ kernel_flags multi p flags w.
Proof.
  intros [[HK Hev _ _ _] HR] Hp Hfl. cbn [fst snd] in *. apply HR in Hp as Hk.
  apply elem_of_dom_2 in Hp as Hd. rewrite <- HK in Hd. apply elem_of_dom in Hd as [b Hb].
  destruct (Hev p b Hb) as (->&Hal&_). split_and!; [done|done|].
  intros Hf. destruct (Hfl Hf) as [fd ->]. unfold multi. by rewrite bool_decide_true by apply Hk.
Qed.

Lemma complete_keeps w R acc p o res flags w' : req_inv (w, R, acc) → R !! p = Some o →
  (final flags = false → ∃ fd, o = OpMultishotAccept fd) →
  dispatch_one on_event run_task w (mkCqe p res flags) = Some w' →
  req_inv (w', new_requests w w' ∪ (if final flags then delete p R else R),
           acc ++ if is_accept o && (0 <=? res) then [res] else []).
Proof.
  intros Hi Hp Hfl Hd. destruct (owed w R acc p o flags Hi Hp Hfl) as (Hal&Hb&Hkf).
  pose proof Hi as [Hl HR]. cbn [fst snd] in *. destruct (HR p o Hp) as [[k Ho] Hk]. rewrite Ho in Hk.
  destruct (dispatch_handled w p res flags w' Hal Hkf Hb Hd) as (w1&r&He&Happ&Hio&_).
  apply on_event_asks in He as Ha. rewrite (same_pushes w w1) by done.
  destruct (asks_requests w w1 R acc Hl Ha HR) as [Hn HR'].
  pose proof (l_complete_inv w (dom R) acc p res flags w' Hl ltac:(by eapply elem_of_dom_2) Hkf Hd) as Hinv.
  split; cbn [fst snd].
  - rewrite dom_union_L, Hn. unfold requests in Hinv. rewrite He in Hinv. fold (new_live w w1) in Hinv.
    replace (dom (if final flags then delete p R else R)) with (if final flags then dom R ∖ {[p]} else dom R)
      by (destruct (final flags); by rewrite ?dom_delete_L).
    rewrite (union_comm_L (new_live _ _)). unfold accepted_by in Hinv. rewrite Hk in Hinv.
    replace (if is_accept o && (0 <=? res) then [res] else []) with
      (if decide (Some k = Some AcceptOp ∧ 0 ≤ res) then [res] else []); [done|].
    case_decide as Hc; [destruct Hc as [[= ->] Hc]|]; (destruct (is_accept o) eqn:Ea; [apply kind_is_accept in Ea|]); cbn [andb]; try done.
    + by rewrite (proj2 (Z.leb_le _ _)).
    + apply kind_is_accept in Ho. congruence.
    + destruct (Z.leb_spec 0 res); [|done]. destruct Hc. split; [congruence|done].
  - rewrite Happ. intros q o' Hq. apply HR'. destruct (final flags); [|done].
    apply lookup_union_Some_raw in Hq as [Hq|[Hq0 Hq]]; apply lookup_union_Some_raw; [by left|right].
    apply lookup_delete_Some in Hq as [_ Hq]. done.
Qed.

(** A step outside the handlers. *)
Lemma outside_inv w w' R acc : req_inv (w, R, acc) → asks w w' →
  lis_inv (w', dom R ∪ new_live w w', acc) → req_inv (w', new_requests w w' ∪ R, acc).
Proof.
  intros [Hl HR] Ha Hi. destruct (asks_requests w w' R acc Hl Ha HR) as [Hn HR'].
  split; cbn [fst snd]; [|done]. by rewrite dom_union_L, Hn, union_comm_L.
Qed.

Lemma lstep_inv s s' : req_inv s → lstep s s' → req_inv s'.
Proof.
  intros Hi Hs. destruct Hs as [w R acc p o res flags w' Hp Hfl Hd|w R acc so b l w' r Hst|w R acc|
    w R acc Hpos].
  - by apply complete_keeps.
  - apply outside_inv; [done|by eapply Start_asks|]. eapply listener_Start_inv; [apply Hi|done].
  - apply outside_inv; [done|apply Stop_asks|]. apply listener_Stop_inv, Hi.
  - destruct Hi as [[H1 H2 H3 H4 H5] HR]. split; [|done]. split; try done. cbn in *. unfold within_limit in *.
    simpl. intros. specialize (H5 ltac:(done) ltac:(done)). lia.
Qed.

(** A listener before [Start]. *)
Definition fresh_listener (w : world) : Prop :=
  live_events w = ∅ ∧ active_accept_ev_ (app w) = None ∧ log (app w) = [] ∧ within_limit w.

Lemma fresh_listener_inv w : fresh_listener w → req_inv (w, ∅, []).
Proof.
  intros (Hl&Ha&Hg&Hw). split; cbn [fst snd]; [|done].
  rewrite dom_empty_L. split; cbn [fst snd]; rewrite ?Hl; try done.
  - intros p. rewrite Ha. split; [|done]. by intros [?%elem_of_empty _].
  - unfold clients. by rewrite Hg.
Qed.

(** C13: the listener loses no connection and leaks no request.  Under any order of
    completions, [Start], [Stop] and closing sessions, whichever allocations, system calls
    and preparations fail: the events it has allocated are exactly those whose submission
    entries were filled and that the kernel still owes a completion, and each further
    completion can be handled; among these requests there is at most one accept, the one
    [active_accept_ev_] points to, and none when it is null, and all others are
    cancellations; exactly one thing has happened to every descriptor the kernel accepted
    (a session started, rejected or closed), in order; and the number of live sessions does
    not exceed [max_sessions_], if the number that [session_count_fn_] tells counts at
    least the sessions of this listener. *)
Theorem listener_sound w0 w R acc :
  fresh_listener w0 → steps lstep (w0, ∅, []) (w, R, acc) →
  dom (live_events w) = dom R ∧
  (∀ p o res flags, R !! p = Some o → (final flags = false → ∃ fd, o = OpMultishotAccept fd) →
     is_Some (dispatch_one on_event run_task w (mkCqe p res flags))) ∧
  (∀ p, (∃ o, R !! p = Some o ∧ is_accept o = true) ↔ active_accept_ev_ (app w) = Some p) ∧
  (∀ p o, R !! p = Some o → is_accept o = true ∨ ∃ target, o = OpCancel target) ∧
  omap client_fd (log (app w)) = acc ∧
  (0 < max_sessions_ (app w) → session_count_fn_ (app w) = true →
   sessions (app w) ≤ max_sessions_ (app w)).
Proof.
  intros H0 Hs.
  pose proof (steps_invariant lstep req_inv _ _ lstep_inv (fresh_listener_inv w0 H0) Hs) as Hi.
  pose proof Hi as [[H1 H2 H3 H4 H5] HR]. cbn [fst snd] in *. split_and!; [done| | | |done|done].
  - intros p o res flags Hp Hfl. destruct (owed w R acc p o flags Hi Hp Hfl) as (Hal&Hb&Hkf).
    destruct (dispatch_event_spec on_event run_task requests multi w p true res flags
      listener_handlers_ok Hal Hkf Hb) as (w1&r&w2&_&Hd&_). by rewrite Hd.
  - intros p. rewrite <- H3, elem_of_dom. split.
    + intros (o&Hp&Ho). destruct (HR p o Hp) as [_ ->]. split; [by eexists|by apply kind_is_accept].
    + intros [[o Hp] Hk]. exists o. split; [done|]. apply kind_is_accept. destruct (HR p o Hp) as [_ <-]. done.
  - intros p o Hp. destruct (HR p o Hp) as [[k Hk] _]. destruct o; try done; [by left..|right; by eexists].
Qed.

(** When the accept request ends while the socket is open, a new one is made,
    given memory and a free submission entry. *)
Lemma OnAccept_rearms w res flags u :
  final flags = true → 0 ≤ listen_fd_ (app w) → (∀ n, alloc_ok e n = true) →
  (∀ s, u_push (ring_ (io w)) s = Some u) →
  active_accept_ev_ (app (OnAccept w res flags).1) = Some (fresh_addr (live_events w)).
Proof.
  intros Hf Hl Hal Hpush. unfold OnAccept, final in *. rewrite Hf. cbn [negb].
  set (w1 := set_accept w None false).
  assert (∀ x : world, io x = io w → listen_fd_ (app x) = listen_fd_ (app w) →
    active_accept_ev_ (app x) = None → live_events x = live_events w →
    active_accept_ev_ (app (register_if_listening x)) = Some (fresh_addr (live_events w))) as Hr.
  { intros x Hio Hlx Hax Hlv. unfold register_if_listening, RegisterAccept.
    rewrite Hlx, (proj2 (Z.leb_le _ _)), (proj2 (Z.ltb_ge _ _)) by done.
    rewrite Hax. cbn [orb ask]. rewrite bool_decide_false by naive_solver.
    rewrite Hal. cbn [negb new_event]. unfold PrepAcceptMultishot, prep. simpl.
    rewrite Hio, Hpush. simpl. by rewrite Hlv. }
  case_match; [by apply Hr|]. simpl. destruct (OnAccept_fd_spec w1 res) as ((?&?&?&?)&_&_).
  apply Hr; try done. unfold OnAccept_fd. simpl. repeat case_match; simplify_eq; done.
Qed.
End Accepting.
End Listener.

(** A listener with room for one session: started, then two accepted sockets, then
    stopped on a full submission queue, so that no cancellation can be prepared. *)
Definition sample_env : env := mkEnv (λ _, true) (λ _, true) (λ _, true) (λ _, 0).
Abbreviation sample_type := (world (U:=logged list_uring) (Task:=nat) (App:=listener)).
Definition sample_listener : sample_type :=
  mkWorld (IoRing_new (mkLogged (mkListUring 1 [] [false; true]) []) (Some 1) 1 2 5) ∅ ∅
    (mkListener (-1) None false 1 true true ∅ 0 [] 0) [].
Definition after_start : sample_type := (Start sample_env sample_listener 4 0 0).1.
Definition after_accept (fd : Z) (w : sample_type) :=
  default w (dispatch_one (on_event sample_env) run_task w (mkCqe 8 fd IORING_CQE_F_MORE)).

Lemma accept_step (w : sample_type) acc fd : 0 ≤ fd →
  is_Some (dispatch_one (on_event sample_env) run_task w (mkCqe 8 fd IORING_CQE_F_MORE)) →
  new_requests w (after_accept fd w) = ∅ →
  lstep sample_env (w, {[8 := OpMultishotAccept 4]}, acc) (after_accept fd w, {[8 := OpMultishotAccept 4]}, acc ++ [fd]).
Proof.
  intros Hfd [w' Hw] Hn.
  pose proof (l_complete sample_env w {[8 := OpMultishotAccept 4]} acc 8 (OpMultishotAccept 4) fd IORING_CQE_F_MORE
    (after_accept fd w)) as Hs.
  rewrite Hn, map_empty_union in Hs. cbn [is_accept final] in Hs. rewrite (proj2 (Z.leb_le _ _)) in Hs by done.
  apply Hs; [by rewrite lookup_singleton_eq|by eexists|]. unfold after_accept. by rewrite Hw.
Qed.

Lemma listener_sound_witness :
  let w := Stop sample_env (after_accept 9 (after_accept 7 after_start)) in
  log (app w) = [StartSession 7; RejectFd 9; CloseListen 4] ∧
  dom (live_events w) = dom ({[8 := OpMultishotAccept 4]} : gmap Z opcode) ∧
  omap client_fd (log (app w)) = [7; 9].
Proof.
  intros w. split; [reflexivity|].
  enough (steps (lstep sample_env) (sample_listener, ∅, []) (w, {[8 := OpMultishotAccept 4]}, [7; 9])) as Hs.
  { assert (fresh_listener sample_listener) as Hf by (split_and!; try reflexivity; intros _ _; by vm_compute).
    destruct (listener_sound sample_env ltac:(done) sample_listener w {[8 := OpMultishotAccept 4]} [7; 9] Hf Hs)
      as (Hd&_&_&_&Hc&_). exact (conj Hd Hc). }
  eapply steps_cons; [|eapply steps_cons; [|eapply steps_cons; [|eapply steps_cons; [|apply steps_refl]]]].
  - apply (l_start _ _ _ _ 4 0 0 after_start (Start sample_env sample_listener 4 0 0).2).
    by destruct (Start sample_env sample_listener 4 0 0) eqn:E; unfold after_start; rewrite E.
  - replace (new_requests sample_listener after_start ∪ ∅) with ({[8 := OpMultishotAccept 4]} : gmap Z opcode)
      by (vm_compute; reflexivity).
    apply (accept_step after_start [] 7); [done|vm_compute; eauto|vm_compute; reflexivity].
  - apply (accept_step (after_accept 7 after_start) [7] 9); [done|vm_compute; eauto|vm_compute; reflexivity].
  - pose proof (l_stop sample_env (after_accept 9 (after_accept 7 after_start)) {[8 := OpMultishotAccept 4]} [7; 9]) as Hs.
    replace (new_requests _ _ ∪ _) with ({[8 := OpMultishotAccept 4]} : gmap Z opcode) in Hs by (vm_compute; reflexivity).
    exact Hs.
Defined.
