(* ===== verification/Worker.v ===== *)
(** * Workers

    [src/runtime/io/SessionManager.cpp], [Worker.cpp] and [WorkerPool.cpp]: the
    sessions of a ring, the life cycle of a worker with its listeners and its
    thread, the loop of that thread, and the pool of workers.

    A listener is the number it was created with.  [open_listeners] holds those
    whose socket is open: a listener that was started is owned by its pending
    accept request too (Listener.v), so letting go of the worker's reference does
    not close the socket; only [Listener::Stop] or the end of a listener that did
    not start does.  Whether [IoRing::Create] and [Listener::Start] succeed are
    answers of the environment. *)

From S2P Require Import Prelude.

#[local] Open Scope Z_scope.
#[local] Set Warnings "-clear-no-such-hyp".

(** ** Session manager *)

Module SessionManager.

(** [sessions_]: sessions by address; a reference is the address of its session, 0
    if null. *)
Abbreviation sessions := (gmap Z Z).

(** Source: src/runtime/io/SessionManager.cpp:7-15, SessionManager::Add. *)
Definition Add (session : Z) (sessions_ : sessions) : sessions * bool :=
  if decide (session = 0) then (sessions_, false) else
  match sessions_ !! session with
  | Some _ => (sessions_, false)
  | None => (<[session := session]> sessions_, true)
  end.

(** Source: src/runtime/io/SessionManager.cpp:17-24, SessionManager::Release. *)
Definition Release (session : Z) (sessions_ : sessions) : sessions :=
  if decide (session = 0) then sessions_ else delete session sessions_.

(** Source: src/runtime/io/SessionManager.cpp:30-38, SessionManager::Snapshot. *)
Definition Snapshot (sessions_ : sessions) : list Z := (map_to_list sessions_).*2.

(** Source: src/runtime/io/SessionManager.cpp:40-43, SessionManager::Count. *)
Definition Count (sessions_ : sessions) : Z := Z.of_nat (size sessions_).

(** Source: src/runtime/io/SessionManager.cpp:45-48, SessionManager::Clear. *)
Definition Clear (sessions_ : sessions) : sessions := ∅.

Inductive op := OpAdd (s : Z) | OpRelease (s : Z) | OpClear.

Definition run (o : op) (m : sessions) : sessions :=
  match o with OpAdd s => (Add s m).1 | OpRelease s => Release s m | OpClear => Clear m end.

(** The sessions owned, as a set. *)
Definition spec (o : op) (X : gset Z) : gset Z :=
  match o with
  | OpAdd s => if decide (s = 0) then X else {[s]} ∪ X
  | OpRelease s => X ∖ {[s]}
  | OpClear => ∅
  end.

Definition owns (m : sessions) (X : gset Z) : Prop :=
  dom m = X ∧ (0 ∉ X) ∧ ∀ k v, m !! k = Some v → v = k.

Lemma run_owns o m X : owns m X → owns (run o m) (spec o X).
Proof.
  intros (<-&H0&Hk). destruct o as [s|s|]; simpl.
  - unfold Add. case_decide as Es; [by split_and!|]. destruct (m !! s) eqn:E; simpl.
    + apply elem_of_dom_2 in E. split_and!; [set_solver|set_solver|done].
    + split_and!; [by rewrite dom_insert_L|set_solver|].
      intros k v [[<- <-]|[_ ?]]%lookup_insert_Some; auto.
  - unfold Release. case_decide as Es.
    + subst. split_and!; [set_solver|set_solver|done].
    + split_and!; [by rewrite dom_delete_L|set_solver|].
      intros k v [_ ?]%lookup_delete_Some; auto.
  - by split_and!; [|set_solver|].
Qed.

Lemma Snapshot_spec m X : owns m X →
  NoDup (Snapshot m) ∧ (∀ s, s ∈ Snapshot m ↔ s ∈ X) ∧ Count m = zlen (Snapshot m).
Proof.
  intros (<-&_&Hk). assert (Snapshot m = (map_to_list m).*1) as Hs.
  { unfold Snapshot. apply list_fmap_ext. intros i [k v] Hi. simpl.
    apply Hk. apply elem_of_map_to_list, list_elem_of_lookup. eauto. }
  rewrite Hs. split_and!.
  - apply NoDup_fst_map_to_list.
  - intros s. rewrite list_elem_of_fmap, elem_of_dom. split.
    + intros ([k v]&->&Hin%elem_of_map_to_list). simpl. eauto.
    + intros [v Hv]. exists (s, v). by rewrite elem_of_map_to_list.
  - unfold Count, zlen. by rewrite length_fmap, length_map_to_list.
Qed.

(** The session manager is the set of the sessions added and not released, with
    a snapshot that lists each once. *)
Theorem session_manager_refines (ops : list op) :
  let m := foldr run ∅ ops in
  let X := foldr spec ∅ ops in
  NoDup (Snapshot m) ∧ (∀ s, s ∈ Snapshot m ↔ s ∈ X) ∧ Count m = zlen (Snapshot m) ∧
  ∀ s, s ≠ 0 → (Add s m).2 = bool_decide (s ∉ X).
Proof.
  intros m X. assert (owns m X) as Hm.
  { subst m X. induction ops as [|o ops IH]; simpl; [|by apply run_owns].
    by split_and!; [|set_solver|]. }
  destruct (Snapshot_spec m X Hm) as (?&?&?). split_and!; try done.
  intros s Hs. destruct Hm as (Hd&_&_). unfold Add. rewrite decide_False by done.
  rewrite <-Hd. destruct (m !! s) eqn:E; simpl; symmetry.
  - apply bool_decide_eq_false. rewrite elem_of_dom, E. naive_solver.
  - by apply bool_decide_eq_true, not_elem_of_dom.
Qed.
End SessionManager.

(** ** Worker *)

(** Source: include/iouring_runtime/core/Worker.h:73-88, Worker.
    [ring_] and [thread_] are there or not; a factory is there until it is moved
    out of its member.  Beside the members, the number of the next listener and
    the listeners whose sockets are open. *)
Record worker := mkWorker {
  running_ : bool;
  ring_ : bool;
  thread_ : bool;
  factory_ : bool;
  listener_ : option nat;
  pending_listeners_ : list bool;
  extra_listeners_ : list nat;
  next_listener : nat;
  open_listeners : gset nat;
}.

Record worker_env := mkWorkerEnv { ring_ok : bool; listen_ok : nat → bool }.

(** Source: src/runtime/io/Worker.cpp:17-23, Worker::Worker. *)
Definition Worker_new : worker := mkWorker false false false true None [] [] 0 ∅.

(** Source: src/runtime/io/Worker.cpp:106-113, Worker::AddListener. *)
Definition AddListener (w : worker) : worker :=
  mkWorker (running_ w) (ring_ w) (thread_ w) (factory_ w) (listener_ w)
    (pending_listeners_ w ++ [true]) (extra_listeners_ w) (next_listener w) (open_listeners w).

(** Source: src/runtime/io/Worker.cpp:49-68, Worker::Start.
    The listeners added; [extra] have been started.  The factory of each is moved
    into its listener.  The result: success, what is left in
    [pending_listeners_], the listeners started, the next number and the open
    sockets. *)
Fixpoint start_extra (env : worker_env) (pending : list bool) (extra : list nat) (next : nat)
    (opened : gset nat) : bool * list bool * list nat * nat * gset nat :=
  match pending with
  | [] => (true, [], extra, next, opened)
  | _ :: rest =>
    if listen_ok env next then
      let '(ok, rest_, extra, next, opened) :=
        start_extra env rest (extra ++ [next]) (S next) ({[next]} ∪ opened) in
      (ok, false :: rest_, extra, next, opened)
    else (false, false :: rest, extra, S next, opened)
  end.

(** Source: src/runtime/io/Worker.cpp:29-74, Worker::Start. *)
Definition Worker_Start (env : worker_env) (w : worker) : worker * bool :=
  if running_ w then (w, true) else
  if negb (ring_ok env) then (w, false) else
  let l := next_listener w in
  if negb (listen_ok env l) then
    (mkWorker false false (thread_ w) false None (pending_listeners_ w) (extra_listeners_ w)
       (S l) (open_listeners w), false)
  else
    let '(ok, rest_, extra, next, opened) :=
      start_extra env (pending_listeners_ w) (extra_listeners_ w) (S l)
        ({[l]} ∪ open_listeners w) in
    if negb ok then
      (mkWorker false false (thread_ w) false None rest_ [] next (opened ∖ {[l]}), false)
    else (mkWorker true true true false (Some l) [] extra next opened, true).

(** Source: src/runtime/io/Worker.cpp:115-129, Worker::StopAccepting.
    Once the ring has run the task.  The result of [RunOnRing] is ignored there: when
    it cannot hand the task over (see Ring.v), nothing is stopped, which is not
    covered here. *)
Definition StopAccepting (w : worker) : worker :=
  if negb (ring_ w) then w else
  mkWorker (running_ w) (ring_ w) (thread_ w) (factory_ w) (listener_ w) (pending_listeners_ w)
    (extra_listeners_ w) (next_listener w)
    (open_listeners w ∖ list_to_set (from_option (λ l, [l]) [] (listener_ w) ++
       extra_listeners_ w)).

(** Source: src/runtime/io/Worker.cpp:76-104, Worker::Stop.
    From another thread; waiting for the sessions is [WaitForZeroSessions] below. *)
Definition Worker_Stop (w : worker) : worker :=
  if negb (ring_ w) then w else
  let w := if running_ w then
    let w := StopAccepting w in
    mkWorker false (ring_ w) (thread_ w) (factory_ w) (listener_ w) (pending_listeners_ w)
      (extra_listeners_ w) (next_listener w) (open_listeners w) else w in
  mkWorker (running_ w) false false (factory_ w) None (pending_listeners_ w) [] (next_listener w)
    (open_listeners w).

Lemma start_extra_spec env pending extra next opened :
  let '(ok, rest_, extra', next', opened') := start_extra env pending extra next opened in
  ∃ n, extra' = extra ++ seq next n ∧ opened' = list_to_set (seq next n) ∪ opened ∧
    (n ≤ length pending)%nat ∧ (next + n ≤ next')%nat ∧
    (ok = true → n = length pending ∧ next' = (next + n)%nat) ∧
    (ok = false → (n < length pending)%nat ∧ listen_ok env (next + n) = false) ∧
    length rest_ = length pending.
Proof.
  revert extra next opened. induction pending as [|p pending IH]; intros extra next opened; simpl.
  { exists 0%nat. rewrite app_nil_r. split_and!; try done; [set_solver|lia]. }
  destruct (listen_ok env next) eqn:E.
  - specialize (IH (extra ++ [next]) (S next) ({[next]} ∪ opened)).
    destruct (start_extra _ _ _ _ _) as [[[[ok rest_] extra'] next'] opened'].
    destruct IH as (n&->&->&Hn&Hx&Ht&Hf&Hlen). exists (S n). simpl. rewrite <-app_assoc.
    split_and!; [done|set_solver|lia|lia| | |by rewrite Hlen].
    + intros [? ?]%Ht. lia.
    + intros [? ?]%Hf. split; [lia|]. by rewrite Nat.add_succ_r.
  - exists 0%nat. rewrite app_nil_r, Nat.add_0_r. split_and!; try done; [set_solver|simpl; lia|lia|].
    intros _. split; [lia|done].
Qed.

(** The listeners a worker refers to. *)
Definition current (w : worker) : list nat :=
  from_option (λ l, [l]) [] (listener_ w) ++ extra_listeners_ w.

(** What [Start] does on each branch: on success exactly the sockets of the main
    listener and of the listeners added are opened; a failure leaves those of added
    listeners that were started before another one failed. *)
Lemma Worker_Start_cases env w :
  running_ w = false → ring_ w = false → listener_ w = None → extra_listeners_ w = [] →
  (∀ x, x ∈ open_listeners w → (x < next_listener w)%nat) →
  let l := next_listener w in
  let k := length (pending_listeners_ w) in
  let '(w', ok) := Worker_Start env w in
  if ok : bool then
    running_ w' = true ∧ ring_ w' = true ∧ thread_ w' = true ∧ listener_ w' = Some l ∧
    extra_listeners_ w' = seq (S l) k ∧ pending_listeners_ w' = [] ∧
    next_listener w' = (S l + k)%nat ∧
    open_listeners w' = list_to_set (seq l (S k)) ∪ open_listeners w
  else
    running_ w' = false ∧ ring_ w' = false ∧ thread_ w' = thread_ w ∧ listener_ w' = None ∧
    extra_listeners_ w' = [] ∧ length (pending_listeners_ w') = k ∧
    ∃ n, (n ≤ pred k)%nat ∧ open_listeners w' = list_to_set (seq (S l) n) ∪ open_listeners w ∧
      (l ≤ next_listener w')%nat ∧ (0 < n → S l + n ≤ next_listener w')%nat.
Proof.
  intros Hr Hring Hl Hx Hopen l k. unfold Worker_Start. rewrite Hr. fold l.
  assert (l ∉ open_listeners w) as Hno by (intros ?%Hopen; lia).
  destruct (ring_ok env); cbn [negb].
  2:{ split_and!; try done. exists 0%nat. split_and!; [lia|set_solver|lia|lia]. }
  destruct (listen_ok env l) eqn:El; cbn [negb].
  2:{ simpl. split_and!; try done. exists 0%nat. split_and!; [lia|set_solver|lia|lia]. }
  pose proof (start_extra_spec env (pending_listeners_ w) (extra_listeners_ w) (S l)
    ({[l]} ∪ open_listeners w)) as Hs.
  destruct (start_extra _ _ _ _ _) as [[[[ok rest_] extra] next] opened].
  destruct Hs as (n&->&->&Hn&Hnext&Ht&Hf&Hlen). rewrite Hx. destruct ok; cbn [negb].
  - destruct (Ht eq_refl) as [-> ->]. simpl. split_and!; try done. set_solver.
  - destruct (Hf eq_refl) as [Hlt _]. simpl. split_and!; try done.
    exists n. split_and!; [lia| |lia|lia].
    assert (l ∉ (list_to_set (seq (S l) n) : gset nat))
      by (rewrite elem_of_list_to_set, elem_of_seq; lia). set_solver.
Qed.

(** [Stop] closes the sockets of the worker's listeners. *)
Lemma Worker_Stop_cases w : running_ w = ring_ w →
  let w' := Worker_Stop w in
  if ring_ w then
    running_ w' = false ∧ ring_ w' = false ∧ thread_ w' = false ∧ listener_ w' = None ∧
    extra_listeners_ w' = [] ∧ open_listeners w' = open_listeners w ∖ list_to_set (current w)
  else w' = w.
Proof.
  intros Hr. unfold Worker_Stop. destruct (ring_ w) eqn:E; cbn [negb]; [|done].
  rewrite Hr. unfold StopAccepting. by rewrite E.
Qed.

Record worker_inv (added : bool) (w : worker) : Prop := {
  wi_ring : ring_ w = running_ w;
  wi_thread : thread_ w = running_ w;
  wi_listener : running_ w = bool_decide (is_Some (listener_ w));
  wi_extra : running_ w = false → extra_listeners_ w = [];
  wi_fresh : ∀ l, l ∈ open_listeners w → (l < next_listener w)%nat;
  wi_current : list_to_set (current w) ⊆ open_listeners w;
  wi_pending : added = false → pending_listeners_ w = [];
  wi_exact : added = false → open_listeners w = list_to_set (current w);
}.

Lemma Worker_Stop_inv added w : worker_inv added w → worker_inv added (Worker_Stop w).
Proof.
  intros Hi. pose proof Hi as [H1 H2 H3 H4 H5 H6 H7 H8].
  pose proof (Worker_Stop_cases w (eq_sym H1)) as Hs.
  destruct (ring_ w) eqn:E; [|by rewrite Hs].
  destruct Hs as (Hr&Hring&Ht&Hl&Hx&Ho).
  assert (next_listener (Worker_Stop w) = next_listener w ∧
    pending_listeners_ (Worker_Stop w) = pending_listeners_ w) as [Hn Hp].
  { unfold Worker_Stop. rewrite E. cbn [negb]. rewrite <-H1. unfold StopAccepting. by rewrite E. }
  split; unfold current; rewrite ?Hr, ?Hring, ?Ht, ?Hl, ?Hx, ?Ho, ?Hn, ?Hp; try done;
    [intros x Hx'; apply H5; set_solver|]. intros Ha. rewrite H8 by done. set_solver.
Qed.

Lemma Worker_Start_inv added env w : worker_inv added w → worker_inv added (Worker_Start env w).1.
Proof.
  intros Hi. pose proof Hi as [H1 H2 H3 H4 H5 H6 H7 H8].
  destruct (running_ w) eqn:E; [unfold Worker_Start; by rewrite E|].
  assert (listener_ w = None) as Hl by (by destruct (listener_ w)).
  pose proof (Worker_Start_cases env w E H1 Hl (H4 eq_refl) H5) as Hs.
  destruct (Worker_Start env w) as [w' []]; cbn [fst].
  - destruct Hs as (Hr'&Hring'&Ht'&Hl'&Hx'&Hp'&Hn'&Ho').
    split; unfold current; rewrite ?Hr', ?Hring', ?Ht', ?Hl', ?Hx', ?Hn', ?Ho'; try done.
    + intros x. rewrite elem_of_union, elem_of_list_to_set, elem_of_seq.
      intros [?|?%H5]; lia.
    + exact (union_subseteq_l _ _).
    + intros Ha. rewrite H8 by done. unfold current. rewrite Hl, H4 by done.
      exact (union_empty_r_L _).
  - destruct Hs as (Hr'&Hring'&Ht'&Hl'&Hx'&Hp'&n&Hn&Ho'&Hnx&Hnx').
    split; unfold current; rewrite ?Hr', ?Hring', ?Ht', ?Hl', ?Hx', ?Ho'; try done.
    + intros x. rewrite elem_of_union, elem_of_list_to_set, elem_of_seq. intros [?|?%H5]; lia.
    + intros Ha. apply length_zero_iff_nil. by rewrite Hp', H7.
    + intros Ha. rewrite H8 by done. unfold current. rewrite Hl, H4 by done.
      rewrite H7 in Hn by done. simpl in Hn. assert (n = 0%nat) as -> by lia. exact (union_empty_l_L _).
Qed.

Inductive worker_op := DoAdd | DoStart (env : worker_env) | DoStop.

Definition run_op (o : worker_op) (w : worker) : worker :=
  match o with
  | DoAdd => AddListener w
  | DoStart env => (Worker_Start env w).1
  | DoStop => Worker_Stop w
  end.

Definition adds (o : worker_op) : bool := match o with DoAdd => true | _ => false end.

Lemma run_op_inv o added w :
  worker_inv added w → worker_inv (adds o || added) (run_op o w).
Proof.
  intros Hi. destruct o; simpl.
  - by destruct Hi as [H1 H2 H3 H4 H5 H6 H7 H8]; split.
  - by apply Worker_Start_inv.
  - by apply Worker_Stop_inv.
Qed.

(** C39: the life cycle of a worker: after any calls of [AddListener], [Start] (with
    any outcome of the ring and the listeners) and [Stop], the worker has a ring,
    a thread and a listener exactly while it runs, and no listener at all
    otherwise; the sockets of its listeners are open; and, unless listeners were
    added, no other socket is, so a failed [Start] and a [Stop] leave none (given that
    the ring runs the task in which [Stop] stops the listeners). *)
Theorem worker_lifecycle (ops : list worker_op) :
  let w := foldr run_op Worker_new ops in
  ring_ w = running_ w ∧ thread_ w = running_ w ∧
  (running_ w = true ↔ is_Some (listener_ w)) ∧
  (running_ w = false → current w = []) ∧
  list_to_set (current w) ⊆ open_listeners w ∧
  (Forall (λ o, adds o = false) ops → open_listeners w = list_to_set (current w)).
Proof.
  intros w. assert (worker_inv (existsb adds ops) w) as [H1 H2 H3 H4 H5 H6 H7 H8].
  { subst w. induction ops as [|o ops IH]; simpl; [by split|by apply run_op_inv]. }
  split_and!; try done.
  - rewrite H3. apply bool_decide_eq_true.
  - intros Hr. unfold current. rewrite H4 by done. rewrite Hr in H3. by destruct (listener_ w).
  - intros Hf. apply H8. rewrite <-not_true_iff_false, existsb_exists.
    intros (o&Ho&Ha). rewrite Forall_forall in Hf. apply list_elem_of_In, Hf in Ho. congruence.
Qed.

(** When a listener that was added fails to start, those added before it are
    dropped without [Listener::Stop]: their sockets stay open, and accept. *)
Example failed_Start_leaves_socket :
  let env := mkWorkerEnv true (λ l, negb (l =? 2)%nat) in
  let '(w, ok) := Worker_Start env (AddListener (AddListener Worker_new)) in
  ok = false ∧ current w = [] ∧ open_listeners w = {[1%nat]} ∧ factory_ w = false.
Proof. vm_compute. done. Qed.

(** ** Waiting for sessions to end *)

(** Source: src/runtime/io/Worker.cpp:149-160, Worker::WaitForZeroSessions.
    [live k] is the number of sessions at the [k]-th poll and [now k] the clock at
    its [k]-th reading, in milliseconds. *)
Fixpoint wait_loop (fuel : nat) (k : nat) (live now : nat → Z) (deadline : Z) : option bool :=
  match fuel with
  | O => None
  | S fuel =>
    if live k =? 0 then Some true else
    if deadline <=? now (S k) then Some false else wait_loop fuel (S k) live now deadline
  end.

Definition WaitForZeroSessions (fuel : nat) (live now : nat → Z) (timeout : Z) : option bool :=
  wait_loop fuel 0 live now (now 0%nat + timeout).

Lemma wait_loop_spec fuel k live now deadline :
  (∀ j, now j + 10 ≤ now (S j)) → deadline - now (S k) < 10 * Z.of_nat fuel - 10 →
  (0 < fuel)%nat →
  ∃ r, wait_loop fuel k live now deadline = Some r ∧
    (r = true ↔ ∃ j, (k ≤ j)%nat ∧ live j = 0 ∧ ∀ i, (k ≤ i < j)%nat → now (S i) < deadline).
Proof.
  intros Hnow. revert k. induction fuel as [|fuel IH]; intros k Hd Hf; [lia|]. simpl.
  destruct (Z.eqb_spec (live k) 0) as [E|E].
  { exists true. split; [done|]. split; [|done]. intros _. exists k. split_and!; [done|done|lia]. }
  destruct (Z.leb_spec deadline (now (S k))) as [Ed|Ed].
  { exists false. split; [done|]. split; [done|]. intros (j&Hj&Hz&Hi).
    destruct (decide (j = k)) as [->|Hne]; [done|]. specialize (Hi k ltac:(lia)). lia. }
  specialize (Hnow (S k)) as Hk. destruct (IH (S k)) as (r&Hr&Hiff); [lia|lia|].
  exists r. split; [done|]. rewrite Hiff. split; intros (j&Hj&Hz&Hi).
  - exists j. split_and!; [lia|done|]. intros i Hik. destruct (decide (i = k)) as [->|]; [done|].
    apply Hi. lia.
  - exists j. destruct (decide (j = k)) as [->|Hne]; [done|]. split_and!; [lia|done|].
    intros i Hik. apply Hi. lia.
Qed.

(** [WaitForZeroSessions] returns: the clock is monotonic and each round
    sleeps ten milliseconds, so with a time-out of [timeout] it polls at most
    [timeout / 10 + 2] times; and it returns true exactly when some poll finds no
    session, no earlier poll having passed the deadline. *)
Theorem WaitForZeroSessions_returns live now timeout :
  0 ≤ timeout → (∀ j, now j + 10 ≤ now (S j)) →
  ∃ r, WaitForZeroSessions (Z.to_nat (timeout / 10) + 2) live now timeout = Some r ∧
    (r = true ↔ ∃ j, live j = 0 ∧ ∀ i, (i < j)%nat → now (S i) < now 0%nat + timeout).
Proof.
  intros Ht Hnow. destruct (wait_loop_spec (Z.to_nat (timeout / 10) + 2) 0 live now
    (now 0%nat + timeout) Hnow) as (r&Hr&Hiff).
  - specialize (Hnow 0%nat). pose proof (Z.div_mod timeout 10 ltac:(lia)).
    pose proof (Z.mod_pos_bound timeout 10 ltac:(lia)).
    assert (0 ≤ timeout / 10) by (apply Z.div_pos; lia). lia.
  - lia.
  - exists r. split; [done|]. rewrite Hiff.
    split; intros (j&Hj); exists j; [destruct Hj as (_&?&Hi)|destruct Hj as (?&Hi)];
      split_and!; try done; try lia; intros i Hij; apply Hi; lia.
Qed.

Lemma WaitForZeroSessions_returns_witness :
  ∃ r, WaitForZeroSessions 5 (λ k, if (k <? 2)%nat then 1 else 0) (λ k, 10 * Z.of_nat k) 30 = Some r ∧
    (r = true ↔ ∃ j, (if (j <? 2)%nat then 1 else 0) = 0 ∧
       ∀ i, (i < j)%nat → 10 * Z.of_nat (S i) < 10 * Z.of_nat 0 + 30).
Proof. apply (WaitForZeroSessions_returns _ (λ k, 10 * Z.of_nat k) 30); [lia|intros; lia]. Defined.

(** ** The loop of a worker *)

Inductive action :=
| SetCurrent (set : bool) | OnStart | ProcessPosted | DispatchRing (timeout : Z)
| TickSessions | TickHook.

Section Run.
Context (io_timeout : Z) (has_on_start has_tick : bool).

(** Source: src/runtime/io/Worker.cpp:191-205, Worker::Run.
    One round; [reads] are the values of [running_] it finds. *)
Definition round : list action :=
  [ProcessPosted; DispatchRing io_timeout; ProcessPosted; TickSessions] ++
  (if has_tick then [TickHook] else []).

Fixpoint run_loop (reads : list bool) : list action :=
  match reads with true :: reads => round ++ run_loop reads | _ => [] end.

(** Source: src/runtime/io/Worker.cpp:184-213, Worker::Run. *)
Definition Run (reads : list bool) : list action :=
  [SetCurrent true] ++ (if has_on_start then [OnStart] else []) ++ run_loop reads ++
  [ProcessPosted] ++ concat (replicate 8 [DispatchRing 0; ProcessPosted]) ++ [SetCurrent false].

(** The posted tasks and those that ran; [posts i] are posted before the [i]-th
    action, after the one before it took what was posted. *)
Context {T : Type} (posts : nat → list T).

Fixpoint exec (i : nat) (acts : list action) (posted ran : list T) : list T * list T :=
  match acts with
  | [] => (posted, ran)
  | a :: acts =>
    let posted := posted ++ posts i in
    match a with
    | ProcessPosted => exec (S i) acts [] (ran ++ posted)
    | _ => exec (S i) acts posted ran
    end
  end.

Lemma exec_app i acts acts' posted ran :
  exec i (acts ++ acts') posted ran =
  let '(p, r) := exec i acts posted ran in exec (i + length acts) acts' p r.
Proof.
  revert i posted ran. induction acts as [|a acts IH]; intros i posted ran; simpl.
  { by rewrite Nat.add_0_r. }
  rewrite Nat.add_succ_r. by destruct a; rewrite IH.
Qed.

Lemma exec_conserves i acts posted ran p r :
  exec i acts posted ran = (p, r) →
  r ++ p = ran ++ posted ++ concat (posts <$> seq i (length acts)).
Proof.
  revert i posted ran. induction acts as [|a acts IH]; intros i posted ran; simpl.
  { intros [= <- <-]. by rewrite app_nil_r. }
  destruct a; intros E%IH; rewrite E; rewrite <-?app_assoc; done.
Qed.

(** The thread of a worker runs every task posted before its last call of
    [ProcessPostedTasks], in the order of posting and once, so in particular every
    task posted before it saw [running_] false: only tasks posted after that call
    are left when the thread ends. *)
Theorem worker_runs_posted (reads : list bool) :
  let acts := Run reads in
  (exec 0 acts [] []).2 = concat (posts <$> seq 0 (length acts - 1)).
Proof.
  cbv zeta. assert (∃ front, Run reads = front ++ [ProcessPosted; SetCurrent false]) as [front Hf].
  { eexists. unfold Run. change (concat (replicate 8 [DispatchRing 0; ProcessPosted])) with
      (concat (replicate 7 [DispatchRing 0; ProcessPosted]) ++ [DispatchRing 0; ProcessPosted]).
    rewrite !app_assoc. rewrite <-(app_assoc _ [DispatchRing 0; ProcessPosted] [SetCurrent false]).
    change ([DispatchRing 0; ProcessPosted] ++ [SetCurrent false]) with
      ([DispatchRing 0] ++ [ProcessPosted; SetCurrent false]). by rewrite app_assoc. }
  rewrite Hf, exec_app. destruct (exec 0 front [] []) as [p r] eqn:E.
  apply exec_conserves in E. simpl in E. simpl.
  rewrite app_assoc, E, length_app. simpl.
  replace (length front + 2 - 1)%nat with (length front + 1)%nat by lia.
  rewrite seq_app, fmap_app, concat_app. simpl. by rewrite app_nil_r.
Qed.
End Run.

(** ** Worker pool *)

(** The part of a worker's configuration that depends on its number. *)
Record worker_config := mkWorkerConfig { cfg_id : Z; group_id : Z }.

(** Source: src/runtime/io/WorkerPool.cpp:34-44, WorkerPool::Start. *)
Definition make_config (i : nat) : worker_config :=
  mkWorkerConfig (Z.of_nat i) (u16 (Z.of_nat i + 1)).

Abbreviation pool := (list (worker_config * worker)).

(** Source: src/runtime/io/WorkerPool.cpp:33-54, WorkerPool::Start. *)
Definition start_workers (envs : nat → worker_env) (count : nat) : pool :=
  foldl (λ workers_ i,
    let '(worker, ok) := Worker_Start (envs i) Worker_new in
    if negb ok then workers_ else workers_ ++ [(make_config i, worker)]) [] (seq 0 count).

(** Source: src/runtime/io/WorkerPool.cpp:26-60, WorkerPool::Start. *)
Definition Pool_Start (envs : nat → worker_env) (worker_count : Z) (workers_ : pool)
    : pool * bool :=
  if negb (bool_decide (workers_ = [])) then (workers_, true) else
  let workers_ := start_workers envs (Z.to_nat (Z.max 1 worker_count)) in
  if bool_decide (workers_ = []) then (workers_, false) else (workers_, true).

(** Source: src/runtime/io/WorkerPool.cpp:62-67, WorkerPool::Stop.
    The workers stopped, and the pool. *)
Definition Pool_Stop (workers_ : pool) : list worker * pool := (Worker_Stop <$> workers_.*2, []).

(** Source: src/runtime/io/WorkerPool.cpp:69-74, WorkerPool::GetWorker. *)
Definition GetWorker (workers_ : pool) (id : Z) : option (worker_config * worker) :=
  if zlen workers_ <=? id then None else workers_ !! Z.to_nat id.

Definition start_ok (envs : nat → worker_env) (i : nat) : bool :=
  (Worker_Start (envs i) Worker_new).2.

(** The loop keeps the workers that start, in order. *)
Lemma start_workers_spec envs count :
  start_workers envs count =
  (λ i, (make_config i, (Worker_Start (envs i) Worker_new).1)) <$>
    filter (λ i, start_ok envs i = true) (seq 0 count).
Proof.
  induction count as [|count IH]; [done|]. unfold start_workers in *.
  rewrite seq_S, foldl_app, IH. cbn [foldl]. rewrite filter_app, fmap_app.
  cbn [Nat.add]. rewrite filter_cons, filter_nil.
  unfold start_ok. destruct (Worker_Start (envs count) Worker_new) as [w ok] eqn:E. cbn [snd].
  destruct ok; cbn [negb]; [|by rewrite app_nil_r].
  rewrite decide_True, list_fmap_singleton, E by done. done.
Qed.

Lemma filter_seq_sorted (P : nat → Prop) `{∀ i, Decision (P i)} s n i j x y :
  filter P (seq s n) !! i = Some x → filter P (seq s n) !! j = Some y →
  (i < j)%nat → (s + i ≤ x)%nat ∧ (x < y)%nat.
Proof.
  revert s i j. induction n as [|n IH]; intros s i j; simpl; [done|].
  rewrite filter_cons. case_decide as HP.
  - destruct j as [|j]; [lia|]. destruct i as [|i]; simpl.
    + intros [= <-] Hy _. apply list_elem_of_lookup_2, list_elem_of_filter in Hy as [_ Hy].
      apply elem_of_seq in Hy. lia.
    + intros Hx Hy Hij. destruct (IH (S s) i j Hx Hy); lia.
  - intros Hx Hy Hij. destruct (IH (S s) i j Hx Hy Hij); lia.
Qed.

Lemma filter_all (P : nat → Prop) `{∀ i, Decision (P i)} l : Forall P l → filter P l = l.
Proof. induction 1; [done|]. rewrite filter_cons, decide_True by done. by f_equal. Qed.

(** a pool starts when one of its workers does, all its workers run, with
    ascending identifiers and buffer groups of their own, none of them group 0;
    and when every worker starts, [GetWorker] finds each by its identifier. *)
Theorem pool_start envs worker_count :
  0 ≤ worker_count < 2 ^ 16 →
  let '(workers_, ok) := Pool_Start envs worker_count [] in
  let count := Z.max 1 worker_count in
  (ok = true ↔ ∃ i, Z.of_nat i < count ∧ start_ok envs i = true) ∧
  (∀ c w, (c, w) ∈ workers_ → running_ w = true ∧ 0 ≤ cfg_id c < count ∧
     group_id c = cfg_id c + 1 ∧ 0 < group_id c < 2 ^ 16) ∧
  (∀ i j c w c' w', workers_ !! i = Some (c, w) → workers_ !! j = Some (c', w') → (i < j)%nat →
     cfg_id c < cfg_id c') ∧
  ((∀ i, start_ok envs i = true) → ∀ id, 0 ≤ id < count →
     ∃ w, GetWorker workers_ id = Some (mkWorkerConfig id (id + 1), w)).
Proof.
  intros Hc. unfold Pool_Start. cbn [negb]. rewrite bool_decide_true by done. cbn [negb].
  set (n := Z.to_nat (Z.max 1 worker_count)).
  pose proof (start_workers_spec envs n) as Hws. set (ws := start_workers envs n) in *.
  assert (Z.of_nat n = Z.max 1 worker_count) as Hn by lia.
  assert ((if bool_decide (ws = []) then (ws, false) else (ws, true)) =
          (ws, negb (bool_decide (ws = [])))) as -> by (by case_bool_decide).
  rewrite <-Hn. clear Hn. assert (Z.of_nat n < 2 ^ 16) as Hmax by lia.
  assert (∀ i, i ∈ filter (λ i, start_ok envs i = true) (seq 0 n) ↔
    (i < n)%nat ∧ start_ok envs i = true) as Hin.
  { intros i. rewrite list_elem_of_filter, elem_of_seq. naive_solver lia. }
  split_and!.
  - rewrite negb_true_iff, bool_decide_eq_false. split.
    + intros Hne. destruct (filter (λ i, start_ok envs i = true) (seq 0 n)) as [|i l] eqn:E; [by rewrite Hws in Hne|].
      exists i. destruct (proj1 (Hin i) (list_elem_of_here _ _)). split; [lia|done].
    + intros (i&Hi&Hok) Hnil. rewrite Hws in Hnil. apply fmap_nil_inv in Hnil.
      assert (i ∈ filter (λ i, start_ok envs i = true) (seq 0 n)) as Hbad by (apply Hin; split; [lia|done]).
      rewrite Hnil in Hbad. by apply not_elem_of_nil in Hbad.
  - intros c w Hcw. rewrite Hws in Hcw. apply list_elem_of_fmap in Hcw as (i&[= -> ->]&Hi).
    apply Hin in Hi as [Hi Hok]. simpl. rewrite u16_small by lia. split_and!; try lia.
    unfold start_ok in Hok. pose proof (Worker_Start_cases (envs i) Worker_new eq_refl eq_refl
      eq_refl eq_refl) as Hs. destruct (Worker_Start (envs i) Worker_new) as [w' ok].
    simpl in Hok. subst. apply Hs. intros x Hx. by apply elem_of_empty in Hx.
  - intros i j c w c' w'. rewrite Hws, !list_lookup_fmap.
    destruct (filter _ _ !! i) as [x|] eqn:Ei; [|done].
    destruct (filter _ _ !! j) as [y|] eqn:Ej; [|done]. simpl. intros [= <- <-] [= <- <-] Hij.
    simpl. destruct (filter_seq_sorted _ _ _ _ _ _ _ Ei Ej Hij). lia.
  - intros Hall id Hid. unfold GetWorker. rewrite Hws, filter_all
      by (apply Forall_forall; intros; apply Hall).
    assert (zlen ((λ i, (make_config i, (Worker_Start (envs i) Worker_new).1)) <$> seq 0 n) =
      Z.of_nat n) as Hlen by (unfold zlen; by rewrite length_fmap, length_seq).
    rewrite Hlen, (proj2 (Z.leb_gt _ _)) by lia. rewrite list_lookup_fmap, lookup_seq_lt by lia.
    cbn [fmap option_fmap option_map Nat.add]. unfold make_config.
    rewrite Z2Nat.id, u16_small by lia. eauto.
Qed.

Definition good_env : worker_env := mkWorkerEnv true (λ _, true).
Definition bad_env : worker_env := mkWorkerEnv false (λ _, true).

Lemma pool_start_witness :
  let envs i := if (i =? 1)%nat then bad_env else good_env in
  let workers_ := (Pool_Start envs 3 []).1 in
  (cfg_id <$> workers_.*1) = [0; 2] ∧
  ∀ c w, (c, w) ∈ workers_ → running_ w = true ∧ 0 ≤ cfg_id c < 3 ∧
     group_id c = cfg_id c + 1 ∧ 0 < group_id c < 2 ^ 16.
Proof.
  intros envs workers_. split; [reflexivity|].
  pose proof (pool_start envs 3 ltac:(lia)) as Hp.
  change (Pool_Start envs 3 []) with (workers_, true) in Hp. apply Hp.
Defined.

(** Once a worker has failed to start, [GetWorker] finds a later worker under its
    identifier, and the last worker not at all under its own. *)
Example GetWorker_shifted :
  let envs i := if (i =? 0)%nat then bad_env else good_env in
  let workers_ := (Pool_Start envs 2 []).1 in
  (cfg_id ∘ fst <$> GetWorker workers_ 0) = Some 1 ∧ GetWorker workers_ 1 = None.
Proof. split; reflexivity. Qed.
