(* ===== verification/Hls.v ===== *)
(** * HLS playlists

    [src/modules/media/Hls.cpp]: percent-encoding of URLs, resolving a URI
    against the playlist's own URL, and rewriting a playlist so that every URI
    in it goes through this server's [/proxy/hls] route.  The theorems compose
    it with the request side: the route's handler reads back the URL that was
    written into the playlist. *)

From S2P Require Import Prelude Text HttpRequest HttpParser.

#[local] Open Scope Z_scope.
#[local] Set Warnings "-clear-no-such-hyp".

Abbreviation LF := ("010"%char : byte).
Abbreviation CR := ("013"%char : byte).
Abbreviation quote := ("034"%char : byte).

(** ** URLs *)

(** Source: src/modules/media/Hls.cpp:11-16, HexValue. *)
Definition Hls_HexValue (ch : byte) : Z :=
  if char_in "0" "9" ch then byte_val ch - byte_val "0"
  else if char_in "a" "f" ch then byte_val ch - byte_val "a" + 10
  else if char_in "A" "F" ch then byte_val ch - byte_val "A" + 10
  else -1.

(** Source: src/modules/media/Hls.cpp:18-25, Lower.
    [std::tolower] of the C locale. *)
Definition Lower (text : bytes) : bytes := map ToLower text.

(** Source: src/modules/media/Hls.cpp:27-29, IsHttpUrl. *)
Definition IsHttpUrl (url : bytes) : bool :=
  starts_with (txt "http://") url || starts_with (txt "https://") url.

(** Source: src/modules/media/Hls.cpp:31-39, OriginOf. *)
Definition OriginOf (url : bytes) : bytes :=
  match split_sub (txt "://") url with
  | None => []
  | Some (scheme, after) =>
    match split_at "/"%char after with
    | None => url
    | Some (host, _) => scheme ++ txt "://" ++ host
    end
  end.

(** Source: src/modules/media/Hls.cpp:41-43, ShouldProxyManifestUri. *)
Definition ShouldProxyManifestUri (uri : bytes) : bool :=
  bool_decide (uri ≠ []) && negb (starts_with (txt "data:") uri).

(** Source: src/modules/media/Hls.cpp:47-67, UrlDecode.
    The index loop; an escape it decodes advances the index past its digits. *)
Fixpoint UrlDecode (text : bytes) : bytes :=
  match text with
  | [] => []
  | ch :: rest =>
    if decide (ch = "+"%char) then " "%char :: UrlDecode rest else
    match rest with
    | c1 :: c2 :: rest' =>
      if bool_decide (ch = "%"%char) then
        let hi := Hls_HexValue c1 in
        let lo := Hls_HexValue c2 in
        if (0 <=? hi) && (0 <=? lo)
        then byte_of (Z.lor (Z.shiftl hi 4) lo) :: UrlDecode rest'
        else ch :: UrlDecode rest
      else ch :: UrlDecode rest
    | _ => ch :: UrlDecode rest
    end
  end.

Definition kHex : bytes := txt "0123456789ABCDEF".

(** [std::isalnum] of the C locale. *)
Definition isalnum (c : byte) : bool :=
  char_in "0" "9" c || char_in "A" "Z" c || char_in "a" "z" c.

(** Source: src/modules/media/Hls.cpp:69-83, UrlEncode. *)
Definition UrlEncode (text : bytes) : bytes :=
  text ≫= λ ch,
    if isalnum ch || bool_decide (ch = "-"%char) || bool_decide (ch = "_"%char) ||
       bool_decide (ch = "."%char) || bool_decide (ch = "~"%char)
    then [ch]
    else ["%"%char; nth (Z.to_nat (Z.shiftr (byte_val ch) 4)) kHex "000"%char;
          nth (Z.to_nat (Z.land (byte_val ch) 15)) kHex "000"%char].

(** Source: src/modules/media/Hls.cpp:85-104, ResolveUrl. *)
Definition ResolveUrl (base value : bytes) : bytes :=
  if IsHttpUrl value then value else
  let origin := OriginOf base in
  if starts_with (txt "//") value then
    let scheme := match split_at ":"%char base with None => base | Some (s, _) => s end in
    scheme ++ txt ":" ++ value
  else if starts_with (txt "/") value then origin ++ value
  else
    match rsplit_at "/"%char base with
    | None => origin ++ txt "/" ++ value
    | Some (before, _) =>
      match split_sub (txt "://") before with
      | None => origin ++ txt "/" ++ value
      | Some _ => before ++ txt "/" ++ value
      end
    end.

(** Source: src/modules/media/Hls.cpp:106-108, ProxyHlsUrl. *)
Definition ProxyHlsUrl (remote_url : bytes) : bytes :=
  txt "/proxy/hls?url=" ++ UrlEncode remote_url.

(** ** Playlists *)

Definition uri_attr : bytes := txt "URI=" ++ [quote].

(** Source: src/modules/media/Hls.cpp:125-140, RewriteHlsManifest.
    The loop over the [URI] attributes of a tag line: [rest] is the line from
    [pos] on, the result what it becomes.  Each round moves [pos] past an
    attribute, so the length of the line bounds the rounds. *)
Fixpoint rewrite_tag (proxy : bytes → bytes) (fuel : nat) (base_url rest : bytes) : option bytes :=
  match fuel with
  | O => None
  | S fuel =>
    match split_sub uri_attr rest with
    | None => Some rest
    | Some (before, after) =>
      match split_at quote after with
      | None => Some rest
      | Some (uri, tail) =>
        if ShouldProxyManifestUri uri then
          let proxied := proxy (ResolveUrl base_url uri) in
          rest ← rewrite_tag proxy fuel base_url (quote :: tail);
          Some (before ++ uri_attr ++ proxied ++ rest)
        else
          rest ← rewrite_tag proxy fuel base_url tail;
          Some (before ++ uri_attr ++ uri ++ [quote] ++ rest)
      end
    end
  end.

(** [line.back() == CR] and [pop_back]. *)
Definition strip_cr (line : bytes) : bytes :=
  match reverse line with
  | c :: rest => if decide (c = CR) then reverse rest else line
  | [] => line
  end.

(** Source: src/modules/media/Hls.cpp:115-145, RewriteHlsManifest.
    What is written for one line, without its line feed; [proxy] makes the URL of the
    proxy. *)
Definition rewrite_line (proxy : bytes → bytes) (base_url line : bytes) : option bytes :=
  let line := strip_cr line in
  if bool_decide (line = []) then Some []
  else if starts_with (txt "#") line then rewrite_tag proxy (S (length line)) base_url line
  else Some (proxy (ResolveUrl base_url line)).

(** Source: src/modules/media/Hls.cpp:110-148, RewriteHlsManifest. *)
Definition rewrite_manifest (proxy : bytes → bytes) (text base_url : bytes) : option bytes :=
  lines ← mapM (rewrite_line proxy base_url) (getlines [] text);
  Some (concat (map (λ line, line ++ [LF]) lines)).

(** Source: src/modules/media/Hls.cpp:110-148, RewriteHlsManifest. *)
Definition RewriteHlsManifest : bytes → bytes → option bytes := rewrite_manifest ProxyHlsUrl.

(** Source: src/modules/media/Hls.cpp:150-162, ContentTypeForUrl. *)
Definition ContentTypeForUrl (url : bytes) : bytes :=
  let lower := Lower url in
  if ends_with (txt ".m3u8") lower then txt "application/vnd.apple.mpegurl" else
  if ends_with (txt ".mpd") lower then txt "application/dash+xml" else
  if ends_with (txt ".ts") lower then txt "video/mp2t" else
  if ends_with (txt ".m4s") lower then txt "video/iso.segment" else
  if ends_with (txt ".mp4") lower then txt "video/mp4" else
  if ends_with (txt ".jpg") lower || ends_with (txt ".jpeg") lower then txt "image/jpeg" else
  if ends_with (txt ".png") lower then txt "image/png" else
  if ends_with (txt ".webp") lower then txt "image/webp" else
  if ends_with (txt ".gif") lower then txt "image/gif" else
  txt "application/octet-stream".

(** ** Encoding *)

(** Both decoders of the code base agree, and the encoder is the reference one. *)
Lemma UrlDecode_PercentDecode text : UrlDecode text = PercentDecode text true.
Proof.
  induction text as [text IH] using (induction_ltof1 _ (@length byte)). unfold ltof in IH.
  destruct text as [|ch rest]; [done|]. simpl.
  case_decide as Ep; [subst; by rewrite IH by (simpl; lia)|].
  rewrite (bool_decide_false (ch = "+"%char)) by done.
  destruct rest as [|c1 [|c2 rest']]; [by rewrite IH by (simpl; lia)..|].
  rewrite !(IH (c1 :: c2 :: rest')), !(IH rest') by (simpl; lia).
  change Hls_HexValue with HexValue.
  by destruct (bool_decide (ch = "%"%char)), (0 <=? HexValue c1), (0 <=? HexValue c2).
Qed.

Lemma UrlEncode_percent_encode text : UrlEncode text = percent_encode text.
Proof.
  unfold UrlEncode, percent_encode. apply list_bind_ext; [|done]. intros c.
  destruct c as [[] [] [] [] [] [] [] []]; reflexivity.
Qed.

(** A character is not in a given text. *)
Ltac not_in := rewrite list_elem_of_In; vm_compute; intuition discriminate.

(** What the encoder emits has no quote and no line feed. *)
Lemma UrlEncode_clean text : (quote ∉ UrlEncode text) ∧ (LF ∉ UrlEncode text).
Proof.
  rewrite UrlEncode_percent_encode. unfold percent_encode.
  split; rewrite list_elem_of_bind; intros (c&Hin&_); revert Hin;
    destruct c as [[] [] [] [] [] [] [] []]; not_in.
Qed.

Lemma ProxyHlsUrl_clean url : (quote ∉ ProxyHlsUrl url) ∧ (LF ∉ ProxyHlsUrl url).
Proof.
  destruct (UrlEncode_clean url). unfold ProxyHlsUrl.
  split; rewrite elem_of_app; intros [H'|H']; try done; revert H'; not_in.
Qed.

(** The proxied form of a URL is read back by this server's own request
    handling: parsing it as a request target gives the path of the proxy route,
    and the decoded [url] parameter is the URL itself, whatever bytes it has. *)
Theorem ProxyHlsUrl_roundtrip r url :
  path (ParseUrl r (ProxyHlsUrl url)) = txt "/proxy/hls" ∧
  QueryParamDecoded (ParseUrl r (ProxyHlsUrl url)) (txt "url") = url ∧
  UrlDecode (UrlEncode url) = url.
Proof.
  unfold ProxyHlsUrl, ParseUrl. rewrite UrlEncode_percent_encode.
  change (txt "/proxy/hls?url=") with (txt "/proxy/hls" ++ "?"%char :: txt "url=").
  rewrite <-app_assoc. rewrite <-app_comm_cons, split_at_app
    by not_in.
  split; [done|]. split; [|by rewrite UrlDecode_PercentDecode, PercentDecode_encode].
  unfold QueryParamDecoded. rewrite (FindQueryParam_render _ [(txt "url", url)]).
  - apply PercentDecode_encode.
  - constructor; [|constructor].
    split; not_in.
  - reflexivity.
Qed.

(** ** Rewriting *)

(** A tag line as the rewriter sees it: the texts before its [URI] attributes
    with the attributes' values, and the text after the last one. *)
Fixpoint scan (fuel : nat) (s : bytes) : list (bytes * bytes) * bytes :=
  match fuel with
  | O => ([], s)
  | S fuel =>
    match split_sub uri_attr s with
    | None => ([], s)
    | Some (before, after) =>
      match split_at quote after with
      | None => ([], s)
      | Some (uri, tail) => let '(segs, last) := scan fuel tail in ((before, uri) :: segs, last)
      end
    end
  end.

Definition tag_uris (line : bytes) : list (bytes * bytes) * bytes := scan (S (length line)) line.

Fixpoint render (segs : list (bytes * bytes)) (last : bytes) : bytes :=
  match segs with
  | [] => last
  | (before, uri) :: segs => before ++ uri_attr ++ uri ++ quote :: render segs last
  end.

(** What becomes of an attribute's value. *)
Definition proxied_uri (proxy : bytes → bytes) (base_url uri : bytes) : bytes :=
  if ShouldProxyManifestUri uri then proxy (ResolveUrl base_url uri) else uri.

Section Rewriting.
Context (proxy : bytes → bytes) (base_url : bytes).
Hypothesis proxy_clean : ∀ url, (quote ∉ proxy url) ∧ (LF ∉ proxy url).
Abbreviation proxy_seg := (λ seg : bytes * bytes, (seg.1, proxied_uri proxy base_url seg.2)).

Lemma split_parts s before after uri tail :
  split_sub uri_attr s = Some (before, after) → split_at quote after = Some (uri, tail) →
  s = before ++ uri_attr ++ uri ++ quote :: tail ∧ (quote ∉ uri).
Proof.
  intros H1%split_sub_Some H2%split_at_Some. destruct H2 as [-> ?]. by rewrite H1.
Qed.

Lemma rewrite_tag_quote fuel t :
  rewrite_tag proxy fuel base_url (quote :: t) = (quote ::.) <$> rewrite_tag proxy fuel base_url t.
Proof.
  destruct fuel as [|fuel]; [done|]. cbn [rewrite_tag].
  change (split_sub uri_attr (quote :: t))
    with ('(q, r) ← split_sub uri_attr t; Some (quote :: q, r)).
  destruct (split_sub uri_attr t) as [[q r]|]; cbn [mbind option_bind]; [|done].
  destruct (split_at quote r) as [[uri tail]|]; [|done].
  case_match; by destruct (rewrite_tag proxy fuel base_url _).
Qed.

Lemma rewrite_tag_render fuel s : (length s < fuel)%nat →
  rewrite_tag proxy fuel base_url s = Some (render (map proxy_seg (scan fuel s).1) (scan fuel s).2).
Proof.
  revert s. induction fuel as [|fuel IH]; intros s Hl; [lia|]. cbn [rewrite_tag scan].
  destruct (split_sub uri_attr s) as [[before after]|] eqn:E1; [|done].
  destruct (split_at quote after) as [[uri tail]|] eqn:E2; [|done].
  destruct (split_parts _ _ _ _ _ E1 E2) as [Hs _].
  assert (length tail < fuel)%nat as Ht.
  { apply (f_equal length) in Hs. rewrite !length_app in Hs. cbn [length] in Hs. lia. }
  rewrite rewrite_tag_quote, IH by done. destruct (scan fuel tail) as [segs last].
  cbn [map render fst snd fmap option_fmap option_map].
  change (proxied_uri proxy base_url uri) with
    (if ShouldProxyManifestUri uri then proxy (ResolveUrl base_url uri) else uri).
  by destruct (ShouldProxyManifestUri uri).
Qed.

Lemma scan_render fuel s (f : bytes → bytes) fuel' :
  (∀ u, quote ∉ u → quote ∉ f u) → (length s < fuel)%nat →
  let out := render (map (λ seg, (seg.1, f seg.2)) (scan fuel s).1) (scan fuel s).2 in
  (length out < fuel')%nat →
  scan fuel' out = (map (λ seg, (seg.1, f seg.2)) (scan fuel s).1, (scan fuel s).2).
Proof.
  intros Hf. revert s fuel'. induction fuel as [|fuel IH]; intros s fuel' Hl; [lia|].
  cbn [scan]. destruct fuel' as [|fuel']; [lia|].
  destruct (split_sub uri_attr s) as [[before after]|] eqn:E1;
    [|cbn [map render fst snd]; intros; cbn [scan]; by rewrite E1].
  destruct (split_at quote after) as [[uri tail]|] eqn:E2;
    [|cbn [map render fst snd]; intros; cbn [scan]; by rewrite E1, E2].
  destruct (split_parts _ _ _ _ _ E1 E2) as [Hs Hq].
  assert (length tail < fuel)%nat as Ht.
  { apply (f_equal length) in Hs. rewrite !length_app in Hs. cbn [length] in Hs. lia. }
  specialize (IH tail fuel' Ht). destruct (scan fuel tail) as [segs last].
  cbn [map render fst snd] in *. intros Hout. cbn [scan].
  rewrite (split_sub_ext _ _ _ _ _ E1), split_at_app by auto.
  rewrite IH; [done|]. rewrite !length_app in Hout. cbn [length] in Hout. lia.
Qed.

Lemma proxied_uri_no_quote u : quote ∉ u → quote ∉ proxied_uri proxy base_url u.
Proof. unfold proxied_uri. case_match; [|done]. intros _. apply proxy_clean. Qed.

Lemma render_no_lf fuel s : LF ∉ s →
  LF ∉ render (map proxy_seg (scan fuel s).1) (scan fuel s).2.
Proof.
  revert s. induction fuel as [|fuel IH]; intros s Hs; [done|]. cbn [scan].
  destruct (split_sub uri_attr s) as [[before after]|] eqn:E1; [|done].
  destruct (split_at quote after) as [[uri tail]|] eqn:E2; [|done].
  destruct (split_parts _ _ _ _ _ E1 E2) as [-> _].
  specialize (IH tail). destruct (scan fuel tail) as [segs last]. cbn [map render fst snd] in *.
  assert (LF ∉ proxied_uri proxy base_url uri) as Hp.
  { unfold proxied_uri. case_match; [apply proxy_clean|]. set_solver. }
  rewrite !elem_of_app, !elem_of_cons in *. naive_solver.
Qed.
End Rewriting.

(** What a line of a playlist must become: blank lines stay, in a tag line
    exactly the values of its [URI] attributes change, any other line is a URI. *)
Definition line_proxied (proxy : bytes → bytes) (base_url line out : bytes) : Prop :=
  let line := strip_cr line in
  if decide (line = []) then out = []
  else if starts_with (txt "#") line then
    tag_uris out = (map (λ seg, (seg.1, proxied_uri proxy base_url seg.2)) (tag_uris line).1,
                    (tag_uris line).2)
  else out = proxy (ResolveUrl base_url line).

Lemma rewrite_line_proxied proxy base_url line :
  (∀ url, (quote ∉ proxy url) ∧ (LF ∉ proxy url)) → LF ∉ line →
  ∃ out, rewrite_line proxy base_url line = Some out ∧ (LF ∉ out) ∧ line_proxied proxy base_url line out.
Proof.
  intros Hclean Hlf. unfold rewrite_line, line_proxied.
  assert (LF ∉ strip_cr line) as Hs.
  { unfold strip_cr. destruct (reverse line) as [|c rest] eqn:E; [done|]. case_decide; [|done].
    intros Hin. apply Hlf. rewrite <-(reverse_involutive line), E.
    rewrite elem_of_reverse in *. by right. }
  generalize dependent (strip_cr line). clear Hlf line. intros line Hlf.
  destruct (decide (line = [])) as [->|Hne].
  { exists []. split; [done|]. split; [apply not_elem_of_nil|done]. }
  rewrite bool_decide_false by done. destruct (starts_with (txt "#") line).
  - rewrite rewrite_tag_render by lia. eexists. split; [done|].
    split; [by apply render_no_lf|]. unfold tag_uris.
    apply (scan_render _ _ (proxied_uri proxy base_url)); [|lia|lia].
    intros u. by apply proxied_uri_no_quote.
  - eexists. split; [done|]. split; [apply Hclean|done].
Qed.

Lemma rewrite_manifest_proxies proxy text base_url :
  (∀ url, (quote ∉ proxy url) ∧ (LF ∉ proxy url)) →
  ∃ out, rewrite_manifest proxy text base_url = Some out ∧
    Forall2 (line_proxied proxy base_url) (getlines [] text) (getlines [] out).
Proof.
  intros Hclean. unfold rewrite_manifest.
  pose proof (getlines_no_lf [] text ltac:(apply not_elem_of_nil)) as Hlf.
  assert (∃ outs, mapM (rewrite_line proxy base_url) (getlines [] text) = Some outs ∧
    Forall (λ l, LF ∉ l) outs ∧ Forall2 (line_proxied proxy base_url) (getlines [] text) outs)
    as (outs&->&Hn&Hp).
  { induction Hlf as [|l ls Hl _ (outs&E&Hn&Hp)]; simpl.
    - by exists [].
    - destruct (rewrite_line_proxied proxy base_url l Hclean Hl) as (out&->&Ho&Hlp). simpl.
      rewrite E. eexists. split; [done|]. by split; constructor. }
  simpl. eexists. split; [done|]. by rewrite getlines_lines.
Qed.

(** Rewriting a playlist is total and touches nothing but URIs: the output
    has one line for each line of the input, in order, where blank lines stay
    blank, a tag line keeps all its text except the values of its [URI]
    attributes, and those values (unless empty or [data:]) and every line that
    is a URI become the proxied form of the URI resolved against the playlist's
    URL, however many attributes a line has. *)
Theorem RewriteHlsManifest_proxies text base_url :
  ∃ out, RewriteHlsManifest text base_url = Some out ∧
    Forall2 (line_proxied ProxyHlsUrl base_url) (getlines [] text) (getlines [] out).
Proof. apply rewrite_manifest_proxies, ProxyHlsUrl_clean. Qed.
