(* ===== verification/CpuAffinity.v ===== *)
(** * CPU lists

    [src/runtime/common/CpuAffinity.cpp]: the lists of processors the kernel
    publishes, their order for pinning threads, and the pinning of a worker
    ([WebServerWorker.cpp], [TcpProxyServerWorker.cpp]).  The contents of the files
    under [/sys] and the number of processors [sysconf] reports are arguments. *)

From S2P Require Import Prelude Text Paths HttpRequest.

#[local] Open Scope Z_scope.
#[local] Set Warnings "-clear-no-such-hyp".

(** ** Lists of processors *)

Definition INT_MAX : Z := 2 ^ 31 - 1.

(** [std::stoi]; [None]: it throws. *)
Definition stoi (s : bytes) : option Z :=
  let '(sign, s) :=
    match skip_spaces s with
    | c :: s => if decide (c = "-"%char) then (-1, s) else
                if decide (c = "+"%char) then (1, s) else (1, c :: s)
    | [] => (1, [])
    end in
  match (digits_prefix s).1 with
  | [] => None
  | ds => let v := sign * digits_value ds in
    if (- 2 ^ 31 <=? v) && (v <=? INT_MAX) then Some v else None
  end.

(** The integers from [first] to [last]. *)
Definition range (first last : Z) : list Z :=
  (λ k : nat, first + Z.of_nat k) <$> seq 0 (Z.to_nat (last - first + 1)).

(** Source: src/runtime/common/CpuAffinity.cpp:15-30, ExpandCpuToken.
    [None]: it throws ([stoi] does, or [reserve] for a descending range), or the
    computation of the length or the counter overflow. *)
Definition ExpandCpuToken (token : bytes) : option (list Z) :=
  match split_at "-"%char token with
  | None => v ← stoi token; Some [v]
  | Some (before, after) =>
    first ← stoi before;
    last ← stoi after;
    if (0 <=? last - first + 1) && (last - first + 1 <=? INT_MAX) && (last <? INT_MAX)
    then Some (range first last) else None
  end.

(** Source: src/runtime/common/CpuAffinity.cpp:32-44, ParseCpuList. *)
Definition ParseCpuList (text : bytes) : option (list Z) :=
  foldl (λ cpus token,
    cpus ← cpus;
    if bool_decide (token = []) then Some cpus else
    expanded ← ExpandCpuToken token; Some (cpus ++ expanded))
    (Some []) (getline_by ","%char [] text).

Section Cpus.
Context (read_file : bytes → bytes) (nprocessors : Z).

(** Source: src/runtime/common/CpuAffinity.cpp:58-70, OrderedOnlineCpus. *)
Definition OrderedOnlineCpus : option (list Z) :=
  cpus ← ParseCpuList (read_file (txt "/sys/devices/system/cpu/online"));
  if negb (bool_decide (cpus = [])) then Some cpus else
  Some (Z.of_nat <$> seq 0 (Z.to_nat nprocessors)).

Definition siblings_path (cpu : Z) : bytes :=
  txt "/sys/devices/system/cpu/cpu" ++ to_string cpu ++ txt "/topology/thread_siblings_list".

(** Source: src/runtime/common/CpuAffinity.cpp:76-83, OrderedPhysicalFirstCpus. *)
Definition primary_of (cpu : Z) : option Z :=
  siblings ← ParseCpuList (read_file (siblings_path cpu));
  Some (default cpu (head siblings)).

(** [if (seen.insert(x).second) ordered.push_back(x)]: [seen] is the set of what is
    in [ordered]. *)
Definition push_new (ordered : list Z) (x : Z) : list Z :=
  if decide (x ∈ ordered) then ordered else ordered ++ [x].

(** Source: src/runtime/common/CpuAffinity.cpp:72-94, OrderedPhysicalFirstCpus. *)
Definition OrderedPhysicalFirstCpus : option (list Z) :=
  online ← OrderedOnlineCpus;
  primaries ← mapM primary_of online;
  let ordered := foldl push_new [] primaries in
  Some (foldl push_new ordered online).
End Cpus.

(** Source: include/iouring_runtime/web/WebServer.h:21-25, WebServerConfig::WorkerAffinityMode. *)
Inductive WorkerAffinityMode := kOff | kPhysicalCores | kLogicalCpus.

#[global] Instance WorkerAffinityMode_eq : EqDecision WorkerAffinityMode.
Proof. solve_decision. Defined.

(** Source: src/modules/web/WebServerWorker.cpp:53-82, WebServer::ConfigureWorkerAffinity.
    The processor the worker is pinned to, [-1] if to none; [pin_ok] is the answer of
    [pthread_setaffinity_np].  [TcpProxyServer::ConfigureWorkerAffinity] is the same
    code. *)
Definition ConfigureWorkerAffinity (read_file : bytes → bytes) (nprocessors : Z) (pin_ok : Z → bool)
    (mode : WorkerAffinityMode) (index : Z) : option Z :=
  match mode with
  | kOff => Some (-1)
  | _ =>
    cpus ← (if decide (mode = kPhysicalCores) then OrderedPhysicalFirstCpus read_file nprocessors
            else OrderedOnlineCpus read_file nprocessors);
    if bool_decide (cpus = []) then Some (-1) else
    let cpu := default (-1) (cpus !! Z.to_nat (index mod zlen cpus)) in
    if pin_ok cpu then Some cpu else Some (-1)
  end.

(** ** The kernel's format *)

(** Ranges of processors, with a comma between and a line feed at the end. *)
Definition render_range (ab : Z * Z) : bytes :=
  if decide (ab.1 = ab.2) then to_string ab.1 else to_string ab.1 ++ "-"%char :: to_string ab.2.

Fixpoint render_ranges (ab : Z * Z) (l : list (Z * Z)) : bytes :=
  match l with
  | [] => render_range ab ++ ["010"%char]
  | ab' :: l => render_range ab ++ ","%char :: render_ranges ab' l
  end.

Definition range_ok (ab : Z * Z) : Prop := 0 ≤ ab.1 ≤ ab.2 ∧ ab.2 < INT_MAX.

Lemma digit_char c : is_digit c = true →
  isspace c = false ∧ c ≠ "-"%char ∧ c ≠ "+"%char ∧ c ≠ ","%char.
Proof. destruct c as [[] [] [] [] [] [] [] []]; intros Hc; try discriminate Hc; done. Qed.

Lemma digits_char n c : 0 ≤ n → c ∈ to_string n → c ≠ "-"%char ∧ c ≠ ","%char.
Proof.
  intros Hn Hc. destruct (to_string_value n Hn) as (_&Hd&_). rewrite Forall_forall in Hd.
  by destruct (digit_char c (Hd c Hc)) as (_&?&_&?).
Qed.

Lemma stoi_to_string n r : 0 ≤ n ≤ INT_MAX →
  match r with b :: _ => is_digit b = false | [] => True end →
  stoi (to_string n ++ r) = Some n.
Proof.
  intros Hn Hr. destruct (to_string_value n) as (Hv&Hd&Hne); [lia|].
  unfold stoi. destruct (to_string n) as [|c ds] eqn:E; [done|].
  pose proof Hd as [(Hs&H1&H2&_)%digit_char _]%Forall_cons.
  cbn [skip_spaces app]. rewrite Hs, !decide_False by done.
  change (c :: ds ++ r) with ((c :: ds) ++ r). rewrite digits_prefix_app by done. cbn [fst].
  rewrite Hv, Z.mul_1_l, (proj2 (Z.leb_le _ n)), (proj2 (Z.leb_le n _)); [done|lia|].
  assert (0 ≤ 2 ^ 31) by done. lia.
Qed.

Lemma ExpandCpuToken_render ab r : range_ok ab → r = [] ∨ r = ["010"%char] →
  ExpandCpuToken (render_range ab ++ r) = Some (range ab.1 ab.2).
Proof.
  destruct ab as [a b]. intros [Hab Hb] Hr. unfold render_range. cbn [fst snd] in *.
  assert (match r with b :: _ => is_digit b = false | [] => True end) as Hr' by (by destruct Hr as [->| ->]).
  assert (("-"%char : byte) ∉ r) as Hdash by (destruct Hr as [->| ->]; set_solver).
  unfold ExpandCpuToken. case_decide as E.
  - subst. rewrite (proj2 (split_at_None _ _)).
    2: { rewrite elem_of_app. intros [Hc|?]; [|done]. by apply digits_char in Hc as []; [|lia]. }
    rewrite stoi_to_string by (done || lia). simpl. unfold range.
    replace (b - b + 1) with 1 by lia. simpl. do 2 f_equal. lia.
  - rewrite <-app_assoc. change (("-"%char :: to_string b) ++ r) with ("-"%char :: to_string b ++ r).
    rewrite split_at_app by (intros Hc; by apply digits_char in Hc as []; [|lia]).
    rewrite <-(app_nil_r (to_string a)), stoi_to_string by (done || lia). simpl.
    rewrite stoi_to_string by (done || lia). simpl.
    rewrite (proj2 (Z.leb_le 0 _)), (proj2 (Z.leb_le _ INT_MAX)), (proj2 (Z.ltb_lt b _)) by lia. done.
Qed.

Lemma render_range_text ab : range_ok ab → ((","%char : byte) ∉ render_range ab) ∧ render_range ab ≠ [].
Proof.
  intros [Hab _]. destruct ab as [a b]. unfold render_range. cbn [fst snd] in *.
  destruct (to_string_value a) as (_&_&Hne); [lia|]. case_decide.
  - split; [|done]. intros Hc. by apply digits_char in Hc as []; [|lia].
  - split; [|by intros [? _]%app_eq_nil]. rewrite elem_of_app, elem_of_cons. intros [Hc|[Hc|Hc]].
    + by apply digits_char in Hc as []; [|lia].
    + done.
    + by apply digits_char in Hc as []; [|lia].
Qed.

(** What the kernel writes is read back: the processors of its ranges, in order. *)
Theorem cpu_list_roundtrip ab l : Forall range_ok (ab :: l) →
  ParseCpuList (render_ranges ab l) = Some (concat ((λ ab, range ab.1 ab.2) <$> ab :: l)).
Proof.
  unfold ParseCpuList. intros Hl. change (concat ((λ ab, range ab.1 ab.2) <$> ab :: l)) with
    ([] ++ concat ((λ ab, range ab.1 ab.2) <$> ab :: l)). generalize (@nil Z) as acc. revert ab Hl.
  induction l as [|ab' l IH]; intros ab [Hab Hl]%Forall_cons acc;
    destruct (render_range_text ab Hab) as [Hc Hne]; cbn [render_ranges].
  - rewrite getline_by_last; [|set_solver|by destruct (render_range ab)]. cbn [foldl mbind option_bind app].
    rewrite bool_decide_false by (by intros [_ ?]%app_eq_nil).
    rewrite ExpandCpuToken_render by auto. simpl. by rewrite app_nil_r.
  - rewrite getline_by_app by done. cbn [foldl mbind option_bind app].
    rewrite bool_decide_false by done. rewrite <-(app_nil_r (render_range ab)).
    rewrite ExpandCpuToken_render by auto. cbn [mbind option_bind].
    rewrite IH by done. f_equal. by rewrite <-app_assoc.
Qed.

(** ** Pinning *)

Lemma push_new_spec l x : NoDup l →
  NoDup (push_new l x) ∧ (∀ y, y ∈ push_new l x ↔ y ∈ l ∨ y = x) ∧ l `prefix_of` push_new l x.
Proof.
  intros Hl. unfold push_new. case_decide as Hx.
  - split_and!; [done| |done]. intros y. naive_solver.
  - split_and!.
    + apply NoDup_app. split_and!; [done|set_solver|apply NoDup_singleton].
    + intros y. rewrite elem_of_app, list_elem_of_singleton. done.
    + by exists [x].
Qed.

Lemma push_new_foldl xs l : NoDup l →
  NoDup (foldl push_new l xs) ∧ (∀ y, y ∈ foldl push_new l xs ↔ y ∈ l ∨ y ∈ xs) ∧
  l `prefix_of` foldl push_new l xs.
Proof.
  revert l. induction xs as [|x xs IH]; intros l Hl; simpl.
  { split_and!; [done| |done]. intros y. rewrite elem_of_nil. naive_solver. }
  destruct (push_new_spec l x Hl) as (H1&H2&H3). destruct (IH _ H1) as (H4&H5&H6).
  split_and!; [done| |by etrans]. intros y. rewrite H5, H2, elem_of_cons. naive_solver.
Qed.

Section Pinning.
Context (read_file : bytes → bytes) (nprocessors : Z).

(** The order for pinning to physical cores: every processor once; first the first
    processor of each core, then the others.  If the cores' first processors are
    online, the order is one of the processors online. *)
Theorem physical_first online primaries :
  OrderedOnlineCpus read_file nprocessors = Some online →
  mapM (primary_of read_file) online = Some primaries →
  ∃ cores rest, OrderedPhysicalFirstCpus read_file nprocessors = Some (cores ++ rest) ∧
    NoDup (cores ++ rest) ∧ (∀ c, c ∈ cores ↔ c ∈ primaries) ∧
    (∀ c, c ∈ rest ↔ c ∈ online ∧ c ∉ primaries) ∧
    (NoDup online → primaries ⊆ online → cores ++ rest ≡ₚ online).
Proof.
  intros Ho Hp. unfold OrderedPhysicalFirstCpus. rewrite Ho. simpl. rewrite Hp. simpl.
  destruct (push_new_foldl primaries [] ltac:(constructor)) as (H1&H2&_).
  destruct (push_new_foldl online _ H1) as (H3&H4&[rest Hrest]).
  exists (foldl push_new [] primaries), rest. rewrite Hrest in *.
  assert (∀ c, c ∈ foldl push_new [] primaries ↔ c ∈ primaries) as Hcores.
  { intros c. rewrite H2, elem_of_nil. naive_solver. }
  pose proof H3 as (_&Hdis&_)%NoDup_app.
  split_and!; try done.
  - intros c. specialize (H4 c). rewrite elem_of_app, Hcores in H4. specialize (Hdis c).
    rewrite Hcores in Hdis. naive_solver.
  - intros Hnd Hsub. apply NoDup_Permutation; [done|done|]. intros c. rewrite H4, Hcores.
    split; [|by right]. intros [?|?]; [by apply Hsub|done].
Qed.

(** Workers pinned to physical cores share none while there are cores left: the
    first workers are pinned to the first processors of different cores, and no two
    workers to one processor while there are processors left. *)
Theorem workers_spread online primaries i j :
  OrderedOnlineCpus read_file nprocessors = Some online →
  mapM (primary_of read_file) online = Some primaries →
  let pin := ConfigureWorkerAffinity read_file nprocessors (λ _, true) kPhysicalCores in
  let cores := size (list_to_set primaries : gset Z) in
  let cpus := size (list_to_set (online ++ primaries) : gset Z) in
  0 ≤ i < j → j < Z.of_nat cpus →
  ∃ a b, pin i = Some a ∧ pin j = Some b ∧ a ≠ b ∧
    (j < Z.of_nat cores → a ∈ primaries ∧ b ∈ primaries).
Proof.
  intros Ho Hp pin ncores ncpus Hij Hj.
  destruct (physical_first online primaries Ho Hp) as (cores&rest&Hord&Hnd&Hc&Hr&_).
  assert (ncpus = length (cores ++ rest)) as Hn.
  { unfold ncpus. rewrite <-(size_list_to_set (C := gset Z)) by done. apply set_size_proper. intros c.
    rewrite !elem_of_list_to_set, !elem_of_app, Hc, Hr. destruct (decide (c ∈ primaries)); naive_solver. }
  assert (ncores = length cores) as Hnc.
  { unfold ncores. rewrite <-(size_list_to_set (C := gset Z)) by (by apply NoDup_app in Hnd as []).
    apply set_size_proper. intros c. by rewrite !elem_of_list_to_set, Hc. }
  assert (∀ k, 0 ≤ k ≤ j → ∃ a, pin k = Some a ∧ (cores ++ rest) !! Z.to_nat k = Some a) as Hpin.
  { intros k Hk. destruct (lookup_lt_is_Some_2 (cores ++ rest) (Z.to_nat k)) as [a Ha]; [lia|].
    exists a. split; [|done]. unfold pin, ConfigureWorkerAffinity. rewrite decide_True, Hord by done. simpl.
    rewrite bool_decide_false by (intros E; by rewrite E in Ha).
    rewrite Z.mod_small by (unfold zlen; lia). by rewrite Ha. }
  destruct (Hpin i) as (a&Ha&Hla); [lia|]. destruct (Hpin j) as (b&Hb&Hlb); [lia|].
  exists a, b. split_and!; [done|done| |].
  - intros <-. pose proof (NoDup_lookup _ _ _ _ Hnd Hla Hlb). lia.
  - intros Hjc. rewrite lookup_app_l in Hla, Hlb by lia.
    split; apply Hc; by eapply list_elem_of_lookup_2.
Qed.
End Pinning.

(** Four processors on two cores, as the kernel shows them. *)
Definition two_cores (path : bytes) : bytes :=
  if decide (path = txt "/sys/devices/system/cpu/online") then txt "0-3" ++ ["010"%char] else
  if decide (path = siblings_path 0 ∨ path = siblings_path 2) then txt "0,2" ++ ["010"%char] else
  if decide (path = siblings_path 1 ∨ path = siblings_path 3) then txt "1,3" ++ ["010"%char] else [].

Lemma workers_spread_witness :
  OrderedPhysicalFirstCpus two_cores 4 = Some [0; 1; 2; 3] ∧
  ∃ a b, ConfigureWorkerAffinity two_cores 4 (λ _, true) kPhysicalCores 0 = Some a ∧
    ConfigureWorkerAffinity two_cores 4 (λ _, true) kPhysicalCores 1 = Some b ∧ a ≠ b.
Proof.
  split; [by vm_compute|].
  destruct (workers_spread two_cores 4 [0; 1; 2; 3] [0; 1; 0; 1] 0 1) as (a&b&H1&H2&H3&_);
    [by vm_compute|by vm_compute|lia|by vm_compute|]. by exists a, b.
Defined.
