(* ===== verification/Logging.v ===== *)
(** * Logging

    [src/modules/observability/Logging.cpp] and [Logging.h]: levels and their names,
    the configuration from a variable of the environment, and which messages reach
    spdlog.  spdlog itself is not part of the sources: the class [Spdlog] has the
    functions that are called, [SpdlogOk] what its documentation says of the level. *)

From S2P Require Import Prelude Text HttpRequest.

#[local] Open Scope Z_scope.

(** Source: include/iouring_runtime/observability/Logging.h:11-19, LogLevel. *)
Inductive LogLevel := kTrace | kDebug | kInfo | kWarn | kError | kCritical | kOff.

#[global] Instance LogLevel_eq : EqDecision LogLevel.
Proof. solve_decision. Defined.

(** Source: include/iouring_runtime/observability/Logging.h:21-31, LogCategory. *)
Inductive LogCategory :=
| kRuntime | kRing | kListener | kSession | kWeb | kHttp | kRouter | kProxy | kTls.

(** Source: include/iouring_runtime/observability/Logging.h:33-37, LoggingOptions. *)
Record LoggingOptions := mkLoggingOptions {
  level : LogLevel; include_timestamp : bool; include_thread_id : bool }.

(** Source: src/modules/observability/Logging.cpp:13-31, ToSpdlogLevel.
    The values of spdlog's enumeration. *)
Definition ToSpdlogLevel (l : LogLevel) : Z :=
  match l with
  | kTrace => 0 | kDebug => 1 | kInfo => 2 | kWarn => 3 | kError => 4 | kCritical => 5 | kOff => 6
  end.

(** Source: src/modules/observability/Logging.cpp:33-39, Lowercase. *)
Definition Lowercase (raw : bytes) : bytes := ToLower <$> raw.

(** Source: src/modules/observability/Logging.cpp:43-67, ParseLogLevel. *)
Definition ParseLogLevel (raw : bytes) : option LogLevel :=
  let value := Lowercase raw in
  let named s := bool_decide (value = txt s) in
  if named "trace"%string then Some kTrace else
  if named "debug"%string then Some kDebug else
  if named "info"%string then Some kInfo else
  if named "warn"%string || named "warning"%string then Some kWarn else
  if named "error"%string || named "err"%string then Some kError else
  if named "critical"%string || named "fatal"%string then Some kCritical else
  if named "off"%string || named "none"%string then Some kOff else None.

(** Source: src/modules/observability/Logging.cpp:112-133, CategoryName. *)
Definition CategoryName (c : LogCategory) : bytes :=
  match c with
  | kRuntime => txt "runtime" | kRing => txt "ring" | kListener => txt "listener"
  | kSession => txt "session" | kWeb => txt "web" | kHttp => txt "http"
  | kRouter => txt "router" | kProxy => txt "proxy" | kTls => txt "tls"
  end.

Class Spdlog (L : Type) := {
  set_level : Z → L → L;
  set_pattern : bytes → L → L;
  default_logger : L → bool;
  should_log : Z → L → bool;
  spdlog_log : Z → bytes → L → L;
}.

(** A message passes if its level is at least the one set. *)
Class SpdlogOk (L : Type) `{Spdlog L} := {
  default_set_level n s : default_logger (set_level n s) = default_logger s;
  default_set_pattern p s : default_logger (set_pattern p s) = default_logger s;
  should_log_set_level m n s : should_log m (set_level n s) = (n <=? m);
  should_log_set_pattern m p s : should_log m (set_pattern p s) = should_log m s;
}.

Section Logging.
Context {L : Type} `{Spdlog L}.

(** Source: src/modules/observability/Logging.cpp:69-81, ConfigureLogging. *)
Definition ConfigureLogging (options : LoggingOptions) (s : L) : L :=
  let s := set_level (ToSpdlogLevel (level options)) s in
  if include_timestamp options && include_thread_id options then
    set_pattern (txt "[%Y-%m-%d %H:%M:%S.%e] [%t] [%^%l%$] %v") s
  else if include_timestamp options then
    set_pattern (txt "[%Y-%m-%d %H:%M:%S.%e] [%^%l%$] %v") s
  else if include_thread_id options then set_pattern (txt "[%t] [%^%l%$] %v") s
  else set_pattern (txt "[%^%l%$] %v") s.

(** Source: src/modules/observability/Logging.cpp:83-97, ConfigureLoggingFromEnv.
    [raw] is the value of the variable. *)
Definition ConfigureLoggingFromEnv (raw : option bytes) (s : L) : L * bool :=
  match raw with
  | None => (s, false)
  | Some raw =>
    match ParseLogLevel raw with
    | None => (s, false)
    | Some l => (ConfigureLogging (mkLoggingOptions l true true) s, true)
    end
  end.

(** Source: src/modules/observability/Logging.cpp:99-105, ShouldLog. *)
Definition ShouldLog (l : LogLevel) (s : L) : bool :=
  if decide (l = kOff) then false else default_logger s && should_log (ToSpdlogLevel l) s.

(** Source: src/modules/observability/Logging.cpp:107-109, LogMessage. *)
Definition LogMessage (l : LogLevel) (c : LogCategory) (message : bytes) (s : L) : L :=
  spdlog_log (ToSpdlogLevel l) (txt "[" ++ CategoryName c ++ txt "] " ++ message) s.

(** Source: include/iouring_runtime/observability/Logging.h:46-55, Log.
    [message] is the formatted text. *)
Definition Log (l : LogLevel) (c : LogCategory) (message : bytes) (s : L) : L :=
  if negb (ShouldLog l s) then s else LogMessage l c message s.

Context `{!SpdlogOk L}.

Lemma ShouldLog_configured options l s :
  ShouldLog l (ConfigureLogging options s) =
  negb (bool_decide (l = kOff)) && default_logger s && (ToSpdlogLevel (level options) <=? ToSpdlogLevel l).
Proof.
  unfold ShouldLog, ConfigureLogging. case_decide as E.
  { by rewrite bool_decide_true. }
  rewrite bool_decide_false by done. simpl.
  destruct (include_timestamp options), (include_thread_id options); simpl;
    by rewrite default_set_pattern, default_set_level, should_log_set_pattern, should_log_set_level.
Qed.

(** A level named in the environment, in any case, takes effect: from then on exactly
    the messages of that level and above are written, with the name of their
    category; any other value changes nothing. *)
Theorem logging_from_env raw s l c message :
  default_logger s = true →
  match ParseLogLevel raw with
  | Some threshold =>
    let s' := (ConfigureLoggingFromEnv (Some raw) s).1 in
    Log l c message s' =
      if negb (bool_decide (l = kOff)) && (ToSpdlogLevel threshold <=? ToSpdlogLevel l)
      then LogMessage l c message s' else s'
  | None => ConfigureLoggingFromEnv (Some raw) s = (s, false)
  end.
Proof.
  intros Hd. unfold ConfigureLoggingFromEnv. destruct (ParseLogLevel raw) as [t|] eqn:E; [|done].
  cbn [fst]. unfold Log. rewrite ShouldLog_configured, Hd, andb_true_r. cbn [level].
  by destruct (negb (bool_decide (l = kOff)) && _).
Qed.
End Logging.

(** Names are read in any case. *)
Lemma ParseLogLevel_case raw raw' : Lowercase raw = Lowercase raw' → ParseLogLevel raw = ParseLogLevel raw'.
Proof. unfold ParseLogLevel. by intros ->. Qed.

(** A logger that keeps what it wrote. *)
#[global] Instance sample_spdlog : Spdlog (Z * list (Z * bytes)) := {
  set_level n s := (n, s.2);
  set_pattern _ s := s;
  default_logger _ := true;
  should_log m s := s.1 <=? m;
  spdlog_log m t s := (s.1, s.2 ++ [(m, t)]);
}.

#[global] Instance sample_spdlog_ok : SpdlogOk (Z * list (Z * bytes)).
Proof. by split. Qed.

Lemma logging_from_env_witness :
  let s := (ConfigureLoggingFromEnv (Some (txt "Warning")) (2, [])).1 in
  Log kInfo kRing (txt "quiet") s = s ∧ (Log kError kTls (txt "handshake") s).2 = [(4, txt "[tls] handshake")].
Proof.
  pose proof (λ l c m, logging_from_env (txt "Warning") (2, []) l c m eq_refl) as Hlog.
  vm_compute ParseLogLevel in Hlog. cbv zeta in *. split; by rewrite Hlog.
Defined.
