(* ===== verification/WebServer.v ===== *)
(** * The web server

    [src/modules/web/WebServer.cpp], [WebServerWorker.cpp] and [WebServer.h]: the
    configuration handed to workers and sessions, starting and stopping the workers
    of Worker.v, waiting for sessions to end, and the answer to a connection above
    the session limit.

    The operating system's answers ([worker_env] of Worker.v, [send]), the clock and
    the numbers of live sessions at each poll are arguments.  Beside the members,
    [gone] holds the workers that were destroyed. *)

From S2P Require Import Prelude Text HttpResponse Worker CpuAffinity.

#[local] Open Scope Z_scope.
#[local] Set Warnings "-clear-no-such-hyp".

(** ** Configuration *)

(** Source: include/iouring_runtime/web/WebServer.h:27-34, WebServerConfig::RingOptions. *)
Record RingOptions := mkRingOptions {
  queue_depth : Z; buf_count : Z; buf_size : Z; submit_batch_size : Z; cqe_batch_budget : Z;
  io_timeout : Z }.

(** Source: include/iouring_runtime/web/WebServer.h:46-55, WebServerConfig::BackpressureOptions. *)
Record BackpressureOptions := mkBackpressureOptions {
  send_queue_max_pending : Z; send_queue_high_watermark : Z; send_queue_low_watermark : Z;
  send_queue_high_bytes : Z; send_queue_low_bytes : Z; disconnect_on_high_watermark : bool;
  disconnect_after : Z; pause_recv_on_high_watermark : bool }.

(** Source: include/iouring_runtime/web/WebServer.h:20-72, WebServerConfig. *)
Record WebServerConfig := mkWebServerConfig {
  host : bytes; port : Z; worker_count : Z; worker_affinity : WorkerAffinityMode;
  max_sessions_per_worker : Z; ring : RingOptions;
  inactivity : Z; request : Z; drain_timeout : Z; force_close_timeout : Z;
  backpressure : BackpressureOptions; slow_request_threshold : Z }.

(** What the factory gives to [HttpSession] and sets on it. *)
Record session_options := mkSessionOptions {
  max_pending : Z; request_timeout : Z; slow_threshold : Z; session_id : Z;
  inactivity_timeout : Z; high_watermark : Z; low_watermark : Z; high_bytes : Z; low_bytes : Z;
  pause_recv : bool; disconnect_delay : Z; disconnect_on_high : bool }.

(** The configuration of a worker. *)
Record io_config := mkIoConfig {
  id : Z; address : bytes * Z; io_ring : RingOptions; group_id : Z; max_sessions : Z;
  io_drain_timeout : Z; io_force_close_timeout : Z }.

(** Source: include/iouring_runtime/web/WebServer.h:122-127, WebServer::Worker. *)
Record web_worker := mkWebWorker {
  index : Z; pinned_cpu : Z; next_session_id : Z; io_cfg : io_config; io_worker : worker }.

(** Source: include/iouring_runtime/web/WebServer.h:135-138, WebServer. *)
Record server := mkServer { running_ : bool; workers_ : list web_worker; gone : list worker }.

Section Server.
Context (config_ : WebServerConfig).

(** Source: src/modules/web/WebServer.cpp:97-127, WebServer::Start.
    The factory of a worker. *)
Definition make_session (w : web_worker) : web_worker * session_options :=
  let b := backpressure config_ in
  (mkWebWorker (index w) (pinned_cpu w) (u64 (next_session_id w + 1)) (io_cfg w) (io_worker w),
   mkSessionOptions (send_queue_max_pending b) (request config_) (slow_request_threshold config_)
     (next_session_id w) (inactivity config_) (send_queue_high_watermark b)
     (send_queue_low_watermark b) (send_queue_high_bytes b) (send_queue_low_bytes b)
     (pause_recv_on_high_watermark b) (disconnect_after b) (disconnect_on_high_watermark b)).

(** Source: src/modules/web/WebServer.cpp:130-143, WebServer::Start. *)
Definition make_io_config (i : Z) : io_config :=
  mkIoConfig i (host config_, port config_) (ring config_) (u16 (i + 1))
    (max_sessions_per_worker config_) (drain_timeout config_) (force_close_timeout config_).

(** Source: src/modules/web/WebServer.cpp:86-163, WebServer::Start.
    The body of the loop.  A worker that does not start is destroyed, which calls its
    [Stop]. *)
Definition start_one (env : worker_env) (i : Z) (s : server) : server :=
  let '(w, ok) := Worker_Start env Worker_new in
  if negb ok then mkServer (running_ s) (workers_ s) (gone s ++ [Worker_Stop w])
  else mkServer (running_ s) (workers_ s ++ [mkWebWorker i (-1) 1 (make_io_config i) w]) (gone s).

(** Source: src/modules/web/WebServer.cpp:80-173, WebServer::Start. *)
Definition Start (envs : nat → worker_env) (s : server) : server :=
  if running_ s then s else
  let s := mkServer true (workers_ s) (gone s) in
  let s := foldl (λ s i, start_one (envs i) (Z.of_nat i) s) s (seq 0 (Z.to_nat (worker_count config_))) in
  if bool_decide (workers_ s = []) then mkServer false (workers_ s) (gone s) else s.

(** Source: src/modules/web/WebServerWorker.cpp:21-25, WebServer::StopAccepting. *)
Definition Server_StopAccepting (ws : list web_worker) : list web_worker :=
  (λ w, mkWebWorker (index w) (pinned_cpu w) (next_session_id w) (io_cfg w)
          (StopAccepting (io_worker w))) <$> ws.

(** Source: src/modules/web/WebServerWorker.cpp:33-51, WebServer::WaitForZeroSessions.
    [live k] are the numbers of sessions of the workers at the [k]-th round. *)
Fixpoint wait_all (fuel : nat) (k : nat) (live : nat → list Z) (now : nat → Z) (deadline : Z) : option bool :=
  match fuel with
  | O => None
  | S fuel =>
    if forallb (λ n, n =? 0) (live k) then Some true else
    if deadline <=? now (S k) then Some false else wait_all fuel (S k) live now deadline
  end.

(** What a stop finds: the sessions and the clock during its two waits. *)
Record stop_view := mkStopView {
  live_drain : nat → list Z; now_drain : nat → Z; live_force : nat → list Z; now_force : nat → Z }.

(** Source: src/modules/web/WebServer.cpp:175-198, WebServer::Stop.
    Also returns the arguments of the calls of [DrainSessions].  [Worker::Stop] of
    each worker waits again as in Worker.v. *)
Definition Stop (fuel : nat) (v : stop_view) (s : server) : option (server * list bool) :=
  let ws := workers_ s in
  if bool_decide (ws = []) then Some (mkServer false ws (gone s), []) else
  let ws := Server_StopAccepting ws in
  zero ← wait_all fuel 0 (live_drain v) (now_drain v) (now_drain v 0%nat + drain_timeout config_);
  drains ← (if negb zero then
              _ ← wait_all fuel 0 (live_force v) (now_force v)
                    (now_force v 0%nat + force_close_timeout config_);
              Some [false; true]
            else Some [false]);
  Some (mkServer false [] (gone s ++ ((λ w, Worker_Stop (io_worker w)) <$> ws)), drains).

(** Source: src/modules/web/WebServerWorker.cpp:84-90, WebServer::ConfigureWorkerThread.
    The hook of the worker's thread. *)
Definition ConfigureWorkerThread (read_file : bytes → bytes) (nprocessors : Z) (pin_ok : Z → bool)
    (w : web_worker) : option web_worker :=
  cpu ← ConfigureWorkerAffinity read_file nprocessors pin_ok (worker_affinity config_) (index w);
  Some (mkWebWorker (index w) cpu (next_session_id w) (io_cfg w) (io_worker w)).

(** ** Life cycle *)

(** Polls that are enough for both waits. *)
Definition polls : nat :=
  (Z.to_nat (Z.max (drain_timeout config_) (force_close_timeout config_) / 10) + 2)%nat.

Lemma wait_all_loop fuel k live now deadline :
  wait_all fuel k live now deadline =
  wait_loop fuel k (λ j, if forallb (λ n, n =? 0) (live j) then 0 else 1) now deadline.
Proof.
  revert k. induction fuel as [|fuel IH]; intros k; simpl; [done|].
  destruct (forallb _ (live k)); simpl; [done|]. by rewrite IH.
Qed.

Definition view_ok (v : stop_view) : Prop :=
  (∀ j, now_drain v j + 10 ≤ now_drain v (S j)) ∧ (∀ j, now_force v j + 10 ≤ now_force v (S j)).

Lemma wait_all_returns fuel live now timeout :
  (∀ j, now j + 10 ≤ now (S j)) → timeout < 10 * Z.of_nat fuel → (0 < fuel)%nat →
  ∃ r, wait_all fuel 0 live now (now 0%nat + timeout) = Some r ∧
    (r = true ↔ ∃ j, Forall (λ n, n = 0) (live j) ∧ ∀ i, (i < j)%nat → now (S i) < now 0%nat + timeout).
Proof.
  intros Hnow Ht Hf. rewrite wait_all_loop.
  destruct (wait_loop_spec fuel 0 (λ j, if forallb (λ n, n =? 0) (live j) then 0 else 1) now
    (now 0%nat + timeout) Hnow) as (r&Hr&Hiff); [specialize (Hnow 0%nat); lia|done|].
  exists r. split; [done|]. rewrite Hiff.
  assert (∀ j, (if forallb (λ n, n =? 0) (live j) then 0 else 1) = 0 ↔ Forall (λ n, n = 0) (live j)) as Hz.
  { intros j. rewrite Forall_forall. destruct (forallb _ _) eqn:E.
    - rewrite forallb_forall in E. split; [|done]. intros _ n Hn%list_elem_of_In. by apply Z.eqb_eq, E.
    - split; [done|]. intros H. exfalso. rewrite <-not_true_iff_false, forallb_forall in E. apply E.
      intros n Hn%list_elem_of_In. by apply Z.eqb_eq, H. }
  split; intros (j&Hj); exists j.
  - destruct Hj as (_&H1%Hz&H2). split; [done|]. intros i Hi. apply H2. lia.
  - destruct Hj as (H1&H2). split_and!; [lia|by apply Hz|]. intros i Hi. apply H2. lia.
Qed.

Definition stopped (w : worker) : Prop :=
  ring_ w = false ∧ thread_ w = false ∧ current w = [] ∧ open_listeners w = ∅.

Definition started (i : Z) (w : web_worker) : Prop :=
  index w = i ∧ io_cfg w = make_io_config i ∧
  Worker.running_ (io_worker w) = true ∧ worker_inv false (io_worker w).

Record server_inv (s : server) : Prop := {
  si_running : running_ s = negb (bool_decide (workers_ s = []));
  si_workers : Forall (λ w, started (index w) w ∧ 0 ≤ index w < worker_count config_) (workers_ s);
  si_order i j w w' : workers_ s !! i = Some w → workers_ s !! j = Some w' → (i < j)%nat →
    index w < index w';
  si_gone : Forall stopped (gone s);
}.

Lemma Worker_new_inv : worker_inv false Worker_new.
Proof. by split. Qed.

Lemma idle_stopped w : worker_inv false w → Worker.running_ w = false → stopped w.
Proof.
  intros [H1 H2 H3 H4 H5 H6 H7 H8] Hr. assert (current w = []) as Hc.
  { unfold current. rewrite H4 by done. rewrite Hr in H3. by destruct (listener_ w). }
  split_and!; [congruence|congruence|done|]. by rewrite H8, Hc.
Qed.

(** [StopAccepting] and then [Stop] leave a worker without sockets. *)
Lemma stop_twice w : worker_inv false w → stopped (Worker_Stop (StopAccepting w)).
Proof.
  intros Hi. pose proof Hi as [H1 H2 H3 H4 H5 H6 H7 H8].
  destruct (Worker.running_ w) eqn:Hr.
  - destruct w as [a b t f l p x n o]. simpl in *. subst.
    unfold Worker_Stop, StopAccepting. simpl. split_and!; try done. simpl. rewrite (H8 eq_refl). unfold current. simpl. set_solver.
  - unfold StopAccepting. rewrite H1. cbn [negb]. unfold Worker_Stop. rewrite H1. cbn [negb].
    by apply idle_stopped.
Qed.

(** The loop adds workers with rising numbers and destroys those that did not start. *)
Record looping (n : nat) (s : server) : Prop := {
  lo_running : running_ s = true;
  lo_workers : Forall (λ w, started (index w) w ∧ 0 ≤ index w < Z.of_nat n) (workers_ s);
  lo_order i j w w' : workers_ s !! i = Some w → workers_ s !! j = Some w' → (i < j)%nat →
    index w < index w';
  lo_gone : Forall stopped (gone s);
}.

Lemma start_one_looping env n s : looping n s → looping (S n) (start_one env (Z.of_nat n) s).
Proof.
  intros [H1 H2 H3 H4]. unfold start_one.
  pose proof (Worker_Start_inv false env Worker_new Worker_new_inv) as Hinv.
  pose proof (Worker_Start_cases env Worker_new eq_refl eq_refl eq_refl eq_refl) as Hc.
  destruct (Worker_Start env Worker_new) as [w ok]. cbn [fst] in Hinv.
  assert (Forall (λ w, started (index w) w ∧ 0 ≤ index w < Z.of_nat (S n)) (workers_ s)) as H2'.
  { eapply Forall_impl; [exact H2|]. simpl. intros x [? ?]. split; [done|lia]. }
  specialize (Hc ltac:(simpl; set_solver)). destruct ok; cbn [negb].
  - destruct Hc as (Hr&_). split; simpl; try done.
    + apply Forall_app. split; [done|]. apply Forall_singleton. simpl. split; [by split_and!|lia].
    + intros i j x y. rewrite !lookup_app_Some, !list_lookup_singleton_Some.
      intros [Hx|(Hi&Hi'&<-)] [Hy|(Hj&Hj'&<-)] Hij.
      * by eapply H3.
      * simpl. rewrite Forall_forall in H2. apply list_elem_of_lookup_2, H2 in Hx as [_ ?]. lia.
      * apply lookup_lt_Some in Hy. lia.
      * lia.
  - destruct Hc as (Hr&_). split; simpl; try done. apply Forall_app. split; [done|].
    apply Forall_singleton, idle_stopped; [by apply Worker_Stop_inv|].
    unfold Worker_Stop. pose proof (wi_ring _ _ Hinv) as Hring. rewrite Hring, Hr. done.
Qed.

Lemma start_loop n envs s : looping 0 s →
  looping n (foldl (λ s i, start_one (envs i) (Z.of_nat i) s) s (seq 0 n)).
Proof.
  intros Hs. induction n as [|n IH]; [done|]. rewrite seq_S, foldl_app. simpl. by apply start_one_looping.
Qed.

Lemma web_Start_inv envs s : 0 ≤ worker_count config_ → server_inv s → server_inv (Start envs s).
Proof.
  intros Hn Hi. pose proof Hi as [H1 H2 H3 H4]. unfold Start. destruct (running_ s) eqn:Hr; [done|].
  symmetry in H1. apply negb_false_iff, bool_decide_eq_true in H1.
  destruct (start_loop (Z.to_nat (worker_count config_)) envs (mkServer true (workers_ s) (gone s)))
    as [L1 L2 L3 L4].
  { rewrite H1. by split. }
  rewrite Z2Nat.id in L2 by done. set (s' := foldl _ _ _) in *.
  case_bool_decide as E; split; simpl; try done.
  - by rewrite bool_decide_true.
  - by rewrite L1, bool_decide_false.
Qed.

Lemma polls_enough t : t = drain_timeout config_ ∨ t = force_close_timeout config_ →
  t < 10 * Z.of_nat polls ∧ (0 < polls)%nat.
Proof.
  intros Ht. unfold polls. set (m := Z.max _ _). assert (t ≤ m) by (unfold m; destruct Ht as [->| ->]; lia).
  pose proof (Z.div_mod m 10 ltac:(lia)). pose proof (Z.mod_pos_bound m 10 ltac:(lia)). lia.
Qed.

(** [Stop] returns, forcing the sessions to close exactly if the first wait found
    some of them to the end. *)
Lemma Stop_spec v s : server_inv s → view_ok v →
  ∃ s' drains, Stop polls v s = Some (s', drains) ∧ server_inv s' ∧ running_ s' = false ∧
    workers_ s' = [] ∧ length (gone s') = (length (gone s) + length (workers_ s))%nat ∧
    (workers_ s ≠ [] → drains = [false] ∨ drains = [false; true] ∧
       ¬ ∃ j, Forall (λ n, n = 0) (live_drain v j) ∧
           ∀ i, (i < j)%nat → now_drain v (S i) < now_drain v 0%nat + drain_timeout config_).
Proof.
  intros [H1 H2 H3 H4] [Hv1 Hv2]. unfold Stop. case_bool_decide as E.
  { exists (mkServer false (workers_ s) (gone s)), []. rewrite E in *. simpl.
    split_and!; done || lia. }
  destruct (polls_enough (drain_timeout config_)) as [Hp Hp0]; [by left|].
  destruct (wait_all_returns polls (live_drain v) (now_drain v) (drain_timeout config_) Hv1 Hp Hp0)
    as (r&->&Hr). simpl.
  assert (Forall stopped (gone s ++
    ((λ w, Worker_Stop (io_worker w)) <$> Server_StopAccepting (workers_ s)))) as Hg.
  { apply Forall_app. split; [done|]. unfold Server_StopAccepting. rewrite <-list_fmap_compose.
    apply Forall_fmap. eapply Forall_impl; [exact H2|]. intros w [(_&_&_&Hi) _]. by apply stop_twice. }
  assert (length (gone s ++ ((λ w, Worker_Stop (io_worker w)) <$> Server_StopAccepting (workers_ s))) =
    (length (gone s) + length (workers_ s))%nat) as Hlen.
  { unfold Server_StopAccepting. by rewrite length_app, !length_fmap. }
  destruct r; simpl.
  - eexists _, _. split_and!; [done|by split|done|done|done|by left].
  - destruct (wait_all_returns polls (live_force v) (now_force v) (force_close_timeout config_) Hv2)
      as (r&->&_); [apply polls_enough; by right|done|]. simpl.
    eexists _, _. split_and!; [done|by split|done|done|done|]. intros _. right.
    split; [done|]. by intros ?%Hr.
Qed.

Inductive server_op := DoStart (envs : nat → worker_env) | DoStop (v : stop_view).

Definition server_run (o : server_op) (s : server) : option server :=
  match o with DoStart envs => Some (Start envs s) | DoStop v => fst <$> Stop polls v s end.

Definition op_ok (o : server_op) : Prop := match o with DoStart _ => True | DoStop v => view_ok v end.

Lemma Server_new_inv : server_inv (mkServer false [] []).
Proof. by split. Qed.

(** After any calls of [Start] and [Stop], which all return: the server runs exactly
    if it has workers; they run, listen, have ascending numbers below the
    configured count, the configured address and limits, and buffer groups of
    their own; and every worker it has had before is without ring, thread and
    socket. *)
Theorem web_server_lifecycle ops : 0 ≤ worker_count config_ < 2 ^ 16 → Forall op_ok ops →
  ∃ s, foldl (λ s o, s ≫= server_run o) (Some (mkServer false [] [])) ops = Some s ∧
    (running_ s = true ↔ workers_ s ≠ []) ∧
    (∀ w, w ∈ workers_ s → Worker.running_ (io_worker w) = true ∧ 0 ≤ index w < worker_count config_ ∧
       io_cfg w = make_io_config (index w) ∧ group_id (io_cfg w) = index w + 1 ∧
       open_listeners (io_worker w) = list_to_set (current (io_worker w)) ∧
       current (io_worker w) ≠ []) ∧
    (∀ i j w w', workers_ s !! i = Some w → workers_ s !! j = Some w' → (i < j)%nat →
       index w < index w') ∧
    Forall stopped (gone s).
Proof.
  intros Hn Hops. assert (∃ s, foldl (λ s o, s ≫= server_run o) (Some (mkServer false [] [])) ops = Some s ∧
    server_inv s) as (s&->&[H1 H2 H3 H4]).
  { generalize (mkServer false [] []) Server_new_inv. induction Hops as [|o ops Ho _ IH]; intros s Hs; simpl.
    { by exists s. }
    destruct o as [envs|v]; simpl.
    - apply IH, web_Start_inv; [lia|done].
    - destruct (Stop_spec v s Hs Ho) as (s'&d&->&Hs'&_). simpl. by apply IH. }
  exists s. split_and!; try done.
  - rewrite H1, negb_true_iff, bool_decide_eq_false. done.
  - intros w Hw. rewrite Forall_forall in H2. destruct (H2 w Hw) as ((_&Hc&Hr&Hi)&Hx).
    assert (group_id (io_cfg w) = index w + 1) by (rewrite Hc; simpl; rewrite u16_small by lia; done).
    destruct Hi as [I1 I2 I3 I4 I5 I6 I7 I8]. split_and!; first [done|lia|by apply I8|idtac].
    rewrite Hr in I3. symmetry in I3. apply bool_decide_eq_true in I3 as [l Hl].
    unfold current. by rewrite Hl.
Qed.
End Server.

(** ** Rejecting a connection *)

(** Source: src/modules/web/WebServer.cpp:30-39, ServiceUnavailableResponse. *)
Definition ServiceUnavailableResponse : bytes :=
  txt "HTTP/1.1 503 Service Unavailable" ++ crlf ++
  txt "Content-Type: text/plain" ++ crlf ++
  txt "Content-Length: 19" ++ crlf ++
  txt "Connection: close" ++ crlf ++
  crlf ++
  txt "Service Unavailable".

(** What [send] answers: a number of bytes, [EINTR], or anything else. *)
Inductive send_answer := Sent (n : Z) | Interrupted | Failed.

(** Source: src/modules/web/WebServer.cpp:41-55, SendBestEffortAndClose.
    The loop: the bytes sent; [answers k] is the answer to the [k]-th call. *)
Fixpoint send_loop (fuel k : nat) (answers : nat → send_answer) (payload sent : bytes) : option bytes :=
  match fuel with
  | O => None
  | S fuel =>
    if bool_decide (payload = []) then Some sent else
    match answers k with
    | Sent n => send_loop fuel (S k) answers (zdrop n payload) (sent ++ ztake n payload)
    | Interrupted => send_loop fuel (S k) answers payload sent
    | Failed => Some sent
    end
  end.

(** Source: src/modules/web/WebServer.cpp:41-57, SendBestEffortAndClose.
    The bytes sent and the descriptors closed. *)
Definition SendBestEffortAndClose (fuel : nat) (answers : nat → send_answer) (fd : Z) (payload : bytes)
    : option (bytes * list Z) :=
  sent ← send_loop fuel 0 answers payload []; Some (sent, [fd]).

(** A count that [send] returns is positive: other values end the loop. *)
Definition answer_ok (a : send_answer) : Prop :=
  match a with Sent n => 0 < n | _ => True end.

Lemma send_loop_spec fuel k answers payload sent N :
  (∀ j, answer_ok (answers j)) → (∀ j, (N ≤ j)%nat → answers j ≠ Interrupted) →
  (N - k + length payload < fuel)%nat →
  ∃ out, send_loop fuel k answers payload sent = Some (sent ++ out) ∧ out `prefix_of` payload ∧
    ((∀ j, answers j ≠ Failed) → out = payload).
Proof.
  intros Ha Hint. revert k payload sent. induction fuel as [|fuel IH]; intros k payload sent Hf; [lia|].
  cbn [send_loop]. case_bool_decide as E.
  { exists []. rewrite app_nil_r. subst. by split_and!. }
  destruct (answers k) as [n| |] eqn:Ek.
  - pose proof (Ha k) as Hn. rewrite Ek in Hn. simpl in Hn.
    destruct (IH (S k) (zdrop n payload) (sent ++ ztake n payload)) as (out&->&Hp&Hall).
    { unfold zdrop. rewrite length_drop. destruct payload; [done|]. simpl. simpl in Hf. lia. }
    exists (ztake n payload ++ out). rewrite <-app_assoc. split_and!; [done|..].
    + rewrite <-(ztake_zdrop n payload) at 2. by apply prefix_app.
    + intros HF. by rewrite (Hall HF), ztake_zdrop.
  - assert (k < N)%nat by (apply Nat.lt_nge; intros Hle; by apply (Hint k)).
    apply IH. lia.
  - exists []. rewrite app_nil_r. split_and!; [done|apply prefix_nil|]. intros HF. by destruct (HF k).
Qed.

(** A connection above the limit is sent the 503 response, or the part of it the
    socket takes, and closed once; the call returns if [send] is not interrupted for
    ever. *)
Theorem rejected_answered answers fd N :
  (∀ j, answer_ok (answers j)) →
  (∀ j, (N ≤ j)%nat → answers j ≠ Interrupted) →
  ∃ out, SendBestEffortAndClose (N + length ServiceUnavailableResponse + 1) answers fd
      ServiceUnavailableResponse = Some (out, [fd]) ∧
    out `prefix_of` ServiceUnavailableResponse ∧
    ((∀ j, answers j ≠ Failed) → out = ServiceUnavailableResponse).
Proof.
  intros Ha Hi. unfold SendBestEffortAndClose.
  destruct (send_loop_spec (N + length ServiceUnavailableResponse + 1) 0 answers
    ServiceUnavailableResponse [] N Ha Hi) as (out&->&H1&H2); [lia|]. by exists out.
Qed.

(** ** Session identifiers *)

Fixpoint accepted (config_ : WebServerConfig) (n : nat) (w : web_worker) : list session_options :=
  match n with
  | O => []
  | S n => let '(w, o) := make_session config_ w in o :: accepted config_ n w
  end.

(** The sessions of a worker get identifiers of their own; those of another worker
    get the same ones. *)
Lemma session_ids config_ n w : next_session_id w = 1 → Z.of_nat n < 2 ^ 64 →
  session_id <$> accepted config_ n w = (λ k, 1 + Z.of_nat k) <$> seq 0 n.
Proof.
  intros Hw Hn. assert (∀ m, next_session_id w = Z.of_nat m → Z.of_nat (m + n) ≤ 2 ^ 64 →
    session_id <$> accepted config_ n w = Z.of_nat <$> seq m n) as H.
  { clear Hw Hn. revert w. induction n as [|n IH]; intros w m Hm Hb; [done|].
    cbn [accepted make_session fmap list_fmap seq session_id]. rewrite Hm.
    f_equal. destruct n as [|n]; [done|]. apply (IH _ (S m)); [|lia].
    cbn [next_session_id]. rewrite u64_small by lia. lia. }
  rewrite (H 1%nat) by lia. rewrite <-(fmap_S_seq 0 n), <-list_fmap_compose.
  apply list_fmap_ext. intros i x _. simpl. lia.
Qed.

(** The answer to a rejected connection names the length of its body. *)
Example ServiceUnavailable_length : to_string (zlen (txt "Service Unavailable")) = txt "19".
Proof. reflexivity. Qed.

Definition sample_config : WebServerConfig :=
  mkWebServerConfig (txt "0.0.0.0") 8080 2 kOff 0 (mkRingOptions 2048 4096 4096 1 0 1) 30000 0 1000 200
    (mkBackpressureOptions 4096 0 0 0 0 false 0 false) 0.

Definition sample_view : stop_view :=
  mkStopView (λ k, if (k <? 1)%nat then [0; 3] else [0; 0]) (λ k, 10 * Z.of_nat k)
    (λ _, [0; 0]) (λ k, 10 * Z.of_nat k).

(** One of two workers starts, the server is stopped and started again. *)
Lemma web_server_lifecycle_witness :
  let ops := [DoStart (λ i, if (i =? 0)%nat then bad_env else good_env); DoStop sample_view;
              DoStart (λ _, good_env)] in
  ∃ s, foldl (λ s o, s ≫= server_run sample_config o) (Some (mkServer false [] [])) ops = Some s ∧
    (running_ s = true ↔ workers_ s ≠ []) ∧ Forall stopped (gone s).
Proof.
  intros ops. destruct (web_server_lifecycle sample_config ops) as (s&H1&H2&_&_&H3).
  - simpl. lia.
  - repeat constructor; intros; simpl; lia.
  - exists s. split_and!; try done.
Defined.
