(* ===== verification/WebSocket.v ===== *)
(** * WebSocket frames of the activity server

    [app/activity-server/src/ActivitySession.cpp], [ProcessWsBuffer] and
    [SendWsFrame]: reading frames from the bytes that arrive in pieces, and writing
    them.  The calls a frame leads to are actions: [HandleWsText], the answer to a
    ping, [DisconnectAfterFlush] and [Disconnect]. *)

From S2P Require Import Prelude.

#[local] Open Scope Z_scope.
#[local] Set Warnings "-clear-no-such-hyp".

(** ** Reading *)

Inductive ws_result := Incomplete | TooLarge | Frame (opcode : Z) (payload rest : bytes).

(** The byte at a position that is there. *)
Definition at_ (s : bytes) (i : Z) : Z := byte_val (default "000"%char (s !! Z.to_nat i)).

(** Source: app/activity-server/src/ActivitySession.cpp:684-687, ActivitySession::ProcessWsBuffer.
    The length in eight bytes. *)
Definition read_length (s : bytes) (pos : Z) : Z :=
  foldl (λ len i, u64 (Z.lor (Z.shiftl len 8) (at_ s (pos + i)))) 0 [0; 1; 2; 3; 4; 5; 6; 7].

(** Source: app/activity-server/src/ActivitySession.cpp:703-708, ActivitySession::ProcessWsBuffer. *)
Definition unmask (mask payload : bytes) : bytes :=
  imap (λ i b, byte_of (Z.lxor (byte_val b) (at_ mask (Z.of_nat i mod 4)))) payload.

(** Source: app/activity-server/src/ActivitySession.cpp:670-709, ActivitySession::ProcessWsBuffer.
    The first frame of the buffer. *)
Definition read_frame (ws_buffer_ : bytes) : ws_result :=
  let size := zlen ws_buffer_ in
  if size <? 2 then Incomplete else
  let b0 := at_ ws_buffer_ 0 in
  let b1 := at_ ws_buffer_ 1 in
  let opcode := Z.land b0 15 in
  let masked := negb (Z.land b1 128 =? 0) in
  let len := Z.land b1 127 in
  let pos := 2 in
  let extended :=
    if len =? 126 then
      if size <? pos + 2 then None
      else Some (Z.lor (Z.shiftl (at_ ws_buffer_ pos) 8) (at_ ws_buffer_ (pos + 1)), pos + 2)
    else if len =? 127 then
      if size <? pos + 8 then None else Some (read_length ws_buffer_ pos, pos + 8)
    else Some (len, pos) in
  match extended with
  | None => Incomplete
  | Some (len, pos) =>
    if 1024 * 1024 <? len then TooLarge else
    if masked && (size <? pos + 4) then Incomplete else
    let mask := if masked then ztake 4 (zdrop pos ws_buffer_) else [] in
    let pos := if masked then pos + 4 else pos in
    if size <? pos + len then Incomplete else
    let payload := ztake len (zdrop pos ws_buffer_) in
    let payload := if masked then unmask mask payload else payload in
    Frame opcode payload (zdrop (pos + len) ws_buffer_)
  end.

Inductive ws_action := Text (payload : bytes) | Pong (payload : bytes) | FlushClose | Close.

(** What a frame leads to, a close frame apart. *)
Definition frame_action (opcode : Z) (payload : bytes) : list ws_action :=
  if opcode =? 9 then [Pong payload] else if opcode =? 1 then [Text payload] else [].

(** Source: app/activity-server/src/ActivitySession.cpp:668-722, ActivitySession::ProcessWsBuffer.
    The buffer that stays and the actions; the loop needs at most one round for each
    two bytes and one more. *)
Fixpoint ProcessWsBuffer (fuel : nat) (ws_buffer_ : bytes) : option (bytes * list ws_action) :=
  match fuel with
  | O => None
  | S fuel =>
    match read_frame ws_buffer_ with
    | Incomplete => Some (ws_buffer_, [])
    | TooLarge => Some (ws_buffer_, [Close])
    | Frame opcode payload rest =>
      if opcode =? 8 then Some (rest, [FlushClose]) else
      '(buffer, actions) ← ProcessWsBuffer fuel rest;
      Some (buffer, frame_action opcode payload ++ actions)
    end
  end.

(** Source: app/activity-server/src/ActivitySession.cpp:453-462, ActivitySession::OnRecv.
    After the upgrade: the calls for the chunks that arrive. *)
Fixpoint receive (chunks : list bytes) (ws_buffer_ : bytes) : option (bytes * list ws_action) :=
  match chunks with
  | [] => Some (ws_buffer_, [])
  | data :: chunks =>
    let ws_buffer_ := ws_buffer_ ++ data in
    '(buffer, actions) ← ProcessWsBuffer (S (length ws_buffer_)) ws_buffer_;
    '(buffer, more) ← receive chunks buffer;
    Some (buffer, actions ++ more)
  end.

(** ** Writing *)

(** Source: app/activity-server/src/ActivitySession.cpp:1404-1423, ActivitySession::SendWsFrame.
    The length of the payload after the first byte. *)
Definition length_bytes (flag size : Z) : bytes :=
  if size <? 126 then [byte_of (Z.lor flag size)] else
  if size <=? 65535 then
    [byte_of (Z.lor flag 126); byte_of (Z.land (Z.shiftr size 8) 255); byte_of (Z.land size 255)]
  else
    byte_of (Z.lor flag 127) ::
    ((λ i, byte_of (Z.land (Z.shiftr size (i * 8)) 255)) <$> [7; 6; 5; 4; 3; 2; 1; 0]).

(** Source: app/activity-server/src/ActivitySession.cpp:1404-1424, ActivitySession::SendWsFrame. *)
Definition SendWsFrame (opcode : Z) (payload : bytes) : bytes :=
  byte_of (Z.lor 128 opcode) :: length_bytes 0 (zlen payload) ++ payload.

(** A frame of a client as this reader sees it; [rfc_frame] below is what a client sends. *)
Definition client_frame (opcode : Z) (mask payload : bytes) : bytes :=
  byte_of (Z.lor 128 opcode) :: length_bytes 128 (zlen payload) ++ mask ++ unmask mask payload.

(** ** What a client sends

    RFC 6455, sections 5.2 and 5.3, without the operations of the code: the bits of a byte,
    the key rotated byte by byte, numbers in network order by division. *)

Definition xor_byte (x y : byte) : byte :=
  let '(Ascii a0 a1 a2 a3 a4 a5 a6 a7) := x in
  let '(Ascii b0 b1 b2 b3 b4 b5 b6 b7) := y in
  Ascii (xorb a0 b0) (xorb a1 b1) (xorb a2 b2) (xorb a3 b3) (xorb a4 b4) (xorb a5 b5) (xorb a6 b6) (xorb a7 b7).

(** The four bytes of a masking key. *)
Definition key : Type := byte * byte * byte * byte.

Fixpoint mask_with (k : key) (payload : bytes) : bytes :=
  match payload with
  | [] => []
  | x :: payload => let '(a, b, c, d) := k in xor_byte x a :: mask_with (b, c, d, a) payload
  end.

Fixpoint network_order (count : nat) (n : Z) : bytes :=
  match count with O => [] | S count => network_order count (n / 256) ++ [byte_of (n mod 256)] end.

(** A final frame with its mask bit set: the opcode, the length in 7, 16 or 64 bits, the key, and
    the masked payload. *)
Definition rfc_frame (opcode : Z) (k : key) (payload : bytes) : bytes :=
  let n := zlen payload in
  let '(a, b, c, d) := k in
  [byte_of (128 + opcode)] ++
  (if n <? 126 then [byte_of (128 + n)] else if n <? 65536 then byte_of 254 :: network_order 2 n else byte_of 255 :: network_order 8 n) ++
  [a; b; c; d] ++ mask_with k payload.

(** ** Reading is independent of what follows *)

Lemma at_app s t i : 0 ≤ i < zlen s → at_ (s ++ t) i = at_ s i.
Proof. intros Hi. unfold at_, zlen in *. by rewrite lookup_app_l by lia. Qed.

Lemma read_length_app s t pos : 0 ≤ pos → pos + 8 ≤ zlen s → read_length (s ++ t) pos = read_length s pos.
Proof. intros H1 H2. unfold read_length. cbn [foldl]. by rewrite !at_app by lia. Qed.

Lemma slice_app (s t : bytes) pos n : 0 ≤ pos → 0 ≤ n → pos + n ≤ zlen s →
  ztake n (zdrop pos (s ++ t)) = ztake n (zdrop pos s).
Proof.
  intros. rewrite zdrop_app_le by lia. rewrite ztake_app_le; [done|]. rewrite zlen_zdrop by lia. lia.
Qed.

(** The length field and the position after it; [None] if it is not there. *)
Definition extended (s : bytes) : option (Z * Z) :=
  let len := Z.land (at_ s 1) 127 in
  if len =? 126 then
    if zlen s <? 2 + 2 then None else Some (Z.lor (Z.shiftl (at_ s 2) 8) (at_ s (2 + 1)), 2 + 2)
  else if len =? 127 then
    if zlen s <? 2 + 8 then None else Some (read_length s 2, 2 + 8)
  else Some (len, 2).

Lemma land_nonneg a b : 0 ≤ b → 0 ≤ Z.land a b.
Proof. intros. apply Z.land_nonneg. by right. Qed.

Lemma at_range s i : 0 ≤ at_ s i < 256.
Proof. apply byte_val_range. Qed.

Lemma extended_range s len pos : 2 ≤ zlen s → extended s = Some (len, pos) → 0 ≤ len ∧ 2 ≤ pos ≤ zlen s.
Proof.
  intros Hs. unfold extended. destruct (_ =? 126).
  - destruct (Z.ltb_spec (zlen s) (2 + 2)); [done|]. intros [= <- <-]. split; [|lia].
    apply Z.lor_nonneg. split; [apply Z.shiftl_nonneg|]; apply at_range.
  - destruct (_ =? 127).
    + destruct (Z.ltb_spec (zlen s) (2 + 8)); [done|]. intros [= <- <-]. split; [|lia].
      unfold read_length. cbn [foldl]. apply u64_range.
    + intros [= <- <-]. split; [by apply land_nonneg|lia].
Qed.

Lemma extended_app s t x : 2 ≤ zlen s → extended s = Some x → extended (s ++ t) = Some x.
Proof.
  intros Hs. unfold extended. rewrite (at_app s t 1) by lia. destruct (_ =? 126).
  - destruct (Z.ltb_spec (zlen s) (2 + 2)); [done|]. rewrite zlen_app. pose proof (zlen_nonneg t).
    rewrite (proj2 (Z.ltb_ge _ _)), !at_app by lia. done.
  - destruct (_ =? 127); [|done].
    destruct (Z.ltb_spec (zlen s) (2 + 8)); [done|]. rewrite zlen_app. pose proof (zlen_nonneg t).
    rewrite (proj2 (Z.ltb_ge _ _)), read_length_app by lia. done.
Qed.

Lemma read_frame_extended s : 2 ≤ zlen s →
  read_frame s =
  match extended s with
  | None => Incomplete
  | Some (len, pos) =>
    if 1024 * 1024 <? len then TooLarge else
    let masked := negb (Z.land (at_ s 1) 128 =? 0) in
    if masked && (zlen s <? pos + 4) then Incomplete else
    let mask := if masked then ztake 4 (zdrop pos s) else [] in
    let pos := if masked then pos + 4 else pos in
    if zlen s <? pos + len then Incomplete else
    let payload := ztake len (zdrop pos s) in
    Frame (Z.land (at_ s 0) 15) (if masked then unmask mask payload else payload) (zdrop (pos + len) s)
  end.
Proof. intros Hs. unfold read_frame. by rewrite (proj2 (Z.ltb_ge _ _)) by lia. Qed.

Lemma read_frame_app s t o p rest : read_frame s = Frame o p rest → read_frame (s ++ t) = Frame o p (rest ++ t).
Proof.
  destruct (Z.lt_ge_cases (zlen s) 2) as [Hs|Hs].
  { unfold read_frame. by rewrite (proj2 (Z.ltb_lt _ _)) by done. }
  pose proof (zlen_nonneg t) as Ht.
  rewrite !read_frame_extended by (rewrite ?zlen_app; lia).
  destruct (extended s) as [[len pos]|] eqn:E; [|done].
  rewrite (extended_app s t _ Hs E). apply extended_range in E as [Hl Hp]; [|done].
  destruct (_ <? len); [done|]. rewrite !at_app by lia. rewrite zlen_app.
  set (masked := negb _). destruct masked; cbn [andb].
  - destruct (Z.ltb_spec (zlen s) (pos + 4)); [done|].
    destruct (Z.ltb_spec (zlen s) (pos + 4 + len)); [done|].
    rewrite !(proj2 (Z.ltb_ge _ _)) by lia. intros [= <- <- <-].
    by rewrite !slice_app, zdrop_app_le by lia.
  - destruct (Z.ltb_spec (zlen s) (pos + len)); [done|].
    rewrite !(proj2 (Z.ltb_ge _ _)) by lia. intros [= <- <- <-].
    by rewrite !slice_app, zdrop_app_le by lia.
Qed.

Lemma read_frame_shorter s o p rest : read_frame s = Frame o p rest → (length rest < length s)%nat.
Proof.
  destruct (Z.lt_ge_cases (zlen s) 2) as [Hs|Hs].
  { unfold read_frame. by rewrite (proj2 (Z.ltb_lt _ _)) by done. }
  rewrite !read_frame_extended by done.
  destruct (extended s) as [[len pos]|] eqn:E; [|done]. apply extended_range in E as [Hl Hp]; [|done].
  destruct (_ <? len); [done|]. cbv zeta. destruct (_ && _); [done|]. destruct (_ <? _); [done|].
  intros [= _ _ <-]. unfold zdrop, zlen in *. rewrite length_drop. case_match; lia.
Qed.

Lemma read_frame_large s t : read_frame s = TooLarge → read_frame (s ++ t) = TooLarge.
Proof.
  destruct (Z.lt_ge_cases (zlen s) 2) as [Hs|Hs].
  { unfold read_frame. by rewrite (proj2 (Z.ltb_lt _ _)) by done. }
  pose proof (zlen_nonneg t) as Ht. rewrite !read_frame_extended by (rewrite ?zlen_app; lia).
  destruct (extended s) as [[len pos]|] eqn:E; [|done]. rewrite (extended_app s t _ Hs E).
  destruct (_ <? len); [done|]. cbv zeta. destruct (_ && _); [done|]. by destruct (_ <? _).
Qed.

(** ** Streams of frames *)

(** [f] is the text of one frame. *)
Definition reads (f : bytes) (o : Z) (p : bytes) : Prop := ∀ t, read_frame (f ++ t) = Frame o p t.

Lemma reads_prefix f o p q r : reads f o p → f = q ++ r → r ≠ [] → read_frame q = Incomplete.
Proof.
  intros Hf -> Hr. specialize (Hf []). rewrite app_nil_r in Hf.
  destruct (read_frame q) as [| |o' p' rest] eqn:E; [done|..].
  - by rewrite (read_frame_large q r E) in Hf.
  - rewrite (read_frame_app q r _ _ _ E) in Hf. injection Hf as _ _ Hnil.
    by apply app_eq_nil in Hnil as [_ ?].
Qed.

Lemma reads_nonempty f o p : reads f o p → f ≠ [].
Proof. intros Hf ->. specialize (Hf []). done. Qed.

Definition stream (fs : list (bytes * (Z * bytes))) : bytes := concat fs.*1.
Definition actions (fs : list (bytes * (Z * bytes))) : list ws_action :=
  concat ((λ f, frame_action f.2.1 f.2.2) <$> fs).
Definition frames_ok (fs : list (bytes * (Z * bytes))) : Prop :=
  Forall (λ f, reads f.1 f.2.1 f.2.2 ∧ f.2.1 ≠ 8) fs.

Lemma Process_frames fuel fs q : frames_ok fs → read_frame q = Incomplete →
  (length (stream fs ++ q) < fuel)%nat →
  ProcessWsBuffer fuel (stream fs ++ q) = Some (q, actions fs).
Proof.
  intros Hfs Hq. revert fuel. induction Hfs as [|[f [o p]] fs [Hf Ho] _ IH]; intros fuel Hfuel;
    (destruct fuel as [|fuel]; [simpl in Hfuel; lia|]); cbn [ProcessWsBuffer].
  - unfold stream. simpl. by rewrite Hq.
  - simpl in Hf, Ho. unfold stream in *. cbn [fmap list_fmap concat fst] in *.
    rewrite <-app_assoc in *. rewrite Hf. rewrite (proj2 (Z.eqb_neq o 8)) by done.
    rewrite IH; [done|]. rewrite length_app in Hfuel. apply reads_nonempty in Hf.
    destruct f; [done|]. simpl in Hfuel. lia.
Qed.

(** A beginning of the stream ends in an incomplete frame. *)
Lemma stream_split fs s r : Forall (λ f, reads f.1 f.2.1 f.2.2) fs → stream fs = s ++ r →
  ∃ fs1 fs2 q, fs = fs1 ++ fs2 ∧ s = stream fs1 ++ q ∧ read_frame q = Incomplete ∧ q ++ r = stream fs2.
Proof.
  intros Hfs. revert s. induction Hfs as [|[f [o p]] fs Hf Hfs IH]; intros s E.
  - unfold stream in E. simpl in E. symmetry in E. apply app_eq_nil in E as [-> ->].
    by exists [], [], [].
  - simpl in Hf. change (stream ((f, (o, p)) :: fs)) with (f ++ stream fs) in E.
    apply app_eq_inv in E as [(k&Ek&->)|(k&->&Ek)].
    + destruct k as [|b k].
      * rewrite app_nil_r in Ek. subst f. exists [(s, (o, p))], fs, [].
        unfold stream. simpl. by rewrite !app_nil_r.
      * exists [], ((f, (o, p)) :: fs), s. split_and!; [done|done|by eapply reads_prefix|].
        change (stream ((f, (o, p)) :: fs)) with (f ++ stream fs). by rewrite Ek, <-app_assoc.
    + destruct (IH k Ek) as (fs1&fs2&q&->&->&Hq&Hr). exists ((f, (o, p)) :: fs1), fs2, q.
      split_and!; [done| |done|done]. change (stream ((f, (o, p)) :: fs1)) with (f ++ stream fs1).
      by rewrite app_assoc.
Qed.

Lemma actions_app fs1 fs2 : actions (fs1 ++ fs2) = actions fs1 ++ actions fs2.
Proof. unfold actions. by rewrite fmap_app, concat_app. Qed.

Lemma frames_ok_read fs : frames_ok fs → Forall (λ f, reads f.1 f.2.1 f.2.2) fs.
Proof. intros Hfs. eapply Forall_impl; [exact Hfs|]. by intros f [? _]. Qed.

Lemma receive_stream chunks fs buf : frames_ok fs → read_frame buf = Incomplete →
  buf ++ concat chunks = stream fs → receive chunks buf = Some ([], actions fs).
Proof.
  revert fs buf. induction chunks as [|data chunks IH]; intros fs buf Hfs Hbuf E.
  - simpl in E. rewrite app_nil_r in E. subst buf. destruct fs as [|[f [o p]] fs]; [done|].
    apply Forall_cons in Hfs as [[Hf _] _]. change (stream _) with (f ++ stream fs) in Hbuf.
    simpl in Hf. by rewrite Hf in Hbuf.
  - simpl in E. rewrite app_assoc in E. cbn [receive].
    destruct (stream_split fs (buf ++ data) (concat chunks) (frames_ok_read fs Hfs) (eq_sym E)) as (fs1&fs2&q&->&Hs&Hq&Hr).
    apply Forall_app in Hfs as [H1 H2]. rewrite Hs.
    rewrite Process_frames by (done || lia). simpl. rewrite (IH fs2 q) by done.
    by rewrite actions_app.
Qed.

(** A stream that ends with a close frame. *)
Lemma Process_closing fuel fs f p : frames_ok fs → reads f 8 p → (length (stream fs ++ f) < fuel)%nat →
  ProcessWsBuffer fuel (stream fs ++ f) = Some ([], actions fs ++ [FlushClose]).
Proof.
  intros Hfs Hc. revert fuel. induction Hfs as [|[f' [o q]] fs [Hf Ho] _ IH]; intros fuel Hfuel;
    (destruct fuel as [|fuel]; [lia|]); cbn [ProcessWsBuffer].
  - specialize (Hc []). rewrite app_nil_r in Hc. cbn [app stream fmap list_fmap concat]. by rewrite Hc.
  - simpl in Hf, Ho. unfold stream in *. cbn [fmap list_fmap concat fst] in *. rewrite <-app_assoc in *.
    rewrite Hf, (proj2 (Z.eqb_neq o 8)), IH; [|rewrite length_app in Hfuel; apply reads_nonempty in Hf; destruct f'; [done|]; simpl in Hfuel; lia|done].
    cbn [mbind option_bind]. unfold actions. cbn [fmap list_fmap concat fst snd]. by rewrite <-app_assoc.
Qed.

Lemma receive_closing chunks fs f p buf : frames_ok fs → reads f 8 p → read_frame buf = Incomplete →
  buf ++ concat chunks = stream fs ++ f → receive chunks buf = Some ([], actions fs ++ [FlushClose]).
Proof.
  intros Hfs Hc. revert fs buf Hfs. induction chunks as [|data chunks IH]; intros fs buf Hfs Hbuf E.
  - simpl in E. rewrite app_nil_r in E. subst buf. destruct Hfs as [|[f' [o q]] fs [Hf _] _].
    + specialize (Hc []). rewrite app_nil_r in Hc. unfold stream in Hbuf. simpl in Hbuf. congruence.
    + simpl in Hf. unfold stream in Hbuf. cbn [fmap list_fmap concat fst] in Hbuf. rewrite <-app_assoc, Hf in Hbuf. done.
  - simpl in E. rewrite app_assoc in E. cbn [receive].
    assert (stream (fs ++ [(f, (8, p))]) = (buf ++ data) ++ concat chunks) as E'.
    { rewrite E. unfold stream. rewrite fmap_app, concat_app. simpl. by rewrite app_nil_r. }
    assert (Forall (λ f, reads f.1 f.2.1 f.2.2) (fs ++ [(f, (8, p))])) as Hall
      by (apply Forall_app; split; [by apply frames_ok_read|by apply Forall_singleton]).
    destruct (stream_split _ _ _ Hall E') as (fs1&fs2&q&Efs&Hs&Hq&Hr). rewrite Hs.
    destruct fs2 as [|x fs2 _] using rev_ind.
    + rewrite app_nil_r in Efs. subst fs1. apply app_eq_nil in Hr as [-> Hr]. rewrite app_nil_r.
      assert (stream (fs ++ [(f, (8, p))]) = stream fs ++ f) as -> by (unfold stream; rewrite fmap_app, concat_app; simpl; by rewrite app_nil_r).
      rewrite (Process_closing _ fs f p) by (done || lia). cbn [mbind option_bind].
      rewrite (receive_stream chunks [] []); [|constructor|done|by cbn; rewrite Hr]. cbn [mbind option_bind]. unfold actions at 2. simpl. by rewrite app_nil_r.
    + rewrite app_assoc in Efs. apply app_inj_tail in Efs as [-> <-]. apply Forall_app in Hfs as [H1 H2].
      rewrite Process_frames by (done || lia). cbn [mbind option_bind]. rewrite (IH fs2 q); [|done|done|].
      * cbn [mbind option_bind]. by rewrite actions_app, <-app_assoc.
      * rewrite Hr. unfold stream. rewrite fmap_app, concat_app. simpl. by rewrite app_nil_r.
Qed.

(** ** The frames written are read *)

Lemma lor_flag flag n : flag = 0 ∨ flag = 128 → 0 ≤ n < 128 →
  let b := byte_val (byte_of (Z.lor flag n)) in
  Z.land b 127 = n ∧ (Z.land b 128 =? 0) = (flag =? 0).
Proof.
  intros Hf Hn. assert (forallb (λ n, forallb (λ flag,
      let b := byte_val (byte_of (Z.lor flag n)) in
      (Z.land b 127 =? n) && Bool.eqb (Z.land b 128 =? 0) (flag =? 0)) [0; 128]) (seqZ 0 128) = true) as H
    by (by vm_compute).
  rewrite forallb_forall in H. specialize (H n).
  rewrite <-list_elem_of_In, elem_of_seqZ, forallb_forall in H. specialize (H ltac:(lia) flag).
  assert (In flag [0; 128]) as Hin by (simpl; destruct Hf; auto).
  apply H, andb_true_iff in Hin as [H1%Z.eqb_eq H2%Bool.eqb_prop]. done.
Qed.

Lemma lor_opcode o : 0 ≤ o < 16 → Z.land (byte_val (byte_of (Z.lor 128 o))) 15 = o.
Proof.
  intros Ho. assert (forallb (λ o, Z.land (byte_val (byte_of (Z.lor 128 o))) 15 =? o) (seqZ 0 16) = true) as H
    by (by vm_compute).
  rewrite forallb_forall in H. apply Z.eqb_eq, H. rewrite <-list_elem_of_In, elem_of_seqZ. lia.
Qed.

(** One more byte of a number, the most significant first. *)
Lemma shift_in n i : 0 ≤ i →
  Z.lor (Z.shiftl (Z.shiftr n ((i + 1) * 8)) 8)
    (byte_val (byte_of (Z.land (Z.shiftr n (i * 8)) 255))) = Z.shiftr n (i * 8).
Proof.
  intros Hi. rewrite byte_val_of. change 255 with (Z.ones 8).
  rewrite (Z.mod_small (Z.land _ _)) by (rewrite Z.land_ones by done; apply Z.mod_pos_bound; done).
  apply Z.bits_inj'. intros k Hk.
  rewrite Z.lor_spec, Z.land_spec, Z.shiftl_spec, !(Z.shiftr_spec n (i * 8)) by lia.
  rewrite Z.testbit_ones_nonneg by lia. destruct (Z.ltb_spec k 8).
  - by rewrite Z.testbit_neg_r, andb_true_r by lia.
  - rewrite Z.shiftr_spec, andb_false_r, orb_false_r by lia. f_equal. lia.
Qed.

Lemma shiftr_u64 n k : 0 ≤ n < 2 ^ 64 → 0 ≤ k → u64 (Z.shiftr n k) = Z.shiftr n k.
Proof.
  intros Hn Hk. apply u64_small. rewrite Z.shiftr_div_pow2 by lia. split; [apply Z.div_pos; lia|].
  eapply Z.le_lt_trans; [|apply Hn]. apply Z.div_le_upper_bound; [lia|].
  pose proof (Z.pow_pos_nonneg 2 k). nia.
Qed.

Lemma read_length_bytes x y n t : 0 ≤ n < 2 ^ 64 →
  read_length (x :: y :: ((λ i, byte_of (Z.land (Z.shiftr n (i * 8)) 255)) <$> [7; 6; 5; 4; 3; 2; 1; 0]) ++ t) 2 = n.
Proof.
  intros Hn. set (c i := byte_of (Z.land (Z.shiftr n (i * 8)) 255)).
  set (step v i := u64 (Z.lor (Z.shiftl v 8) (byte_val (c i)))).
  change (step (step (step (step (step (step (step (step 0 7) 6) 5) 4) 3) 2) 1) 0 = n).
  assert (∀ i j, 0 ≤ i → j = i + 1 → step (Z.shiftr n (j * 8)) i = Z.shiftr n (i * 8)) as Hstep.
  { intros i j Hi ->. unfold step, c. rewrite shift_in by done. apply shiftr_u64; lia. }
  assert (Z.shiftr n (8 * 8) = 0) as Htop.
  { rewrite Z.shiftr_div_pow2 by done. apply Z.div_small. done. }
  rewrite <-Htop at 1.
  rewrite (Hstep 7 8), (Hstep 6 7), (Hstep 5 6), (Hstep 4 5), (Hstep 3 4), (Hstep 2 3), (Hstep 1 2),
    (Hstep 0 1) by done.
  apply Z.shiftr_0_r.
Qed.

Lemma at_cons_0 b s : at_ (b :: s) 0 = byte_val b.
Proof. done. Qed.

(** The length field of a frame, and where it ends. *)
Lemma extended_length b0 flag n t : flag = 0 ∨ flag = 128 → 0 ≤ n < 2 ^ 64 →
  let s := b0 :: length_bytes flag n ++ t in
  extended s = Some (n, 1 + zlen (length_bytes flag n)) ∧ (Z.land (at_ s 1) 128 =? 0) = (flag =? 0) ∧
  2 ≤ zlen s.
Proof.
  intros Hf Hn. unfold length_bytes, extended. pose proof (zlen_nonneg t).
  destruct (Z.ltb_spec n 126) as [H1|H1]; [|destruct (Z.leb_spec n 65535) as [H2|H2]].
  - destruct (lor_flag flag n Hf ltac:(lia)) as [E1 E2].
    change (at_ (b0 :: [byte_of (Z.lor flag n)] ++ t) 1) with (byte_val (byte_of (Z.lor flag n))).
    rewrite E1, E2, !(proj2 (Z.eqb_neq _ _)) by lia. split_and!; [done|done|].
    simpl. rewrite !zlen_cons. lia.
  - destruct (lor_flag flag 126 Hf ltac:(lia)) as [E1 E2].
    set (h := byte_of (Z.land (Z.shiftr n 8) 255)). set (l := byte_of (Z.land n 255)).
    change (at_ (b0 :: [byte_of (Z.lor flag 126); h; l] ++ t) 1) with (byte_val (byte_of (Z.lor flag 126))).
    rewrite E1, E2, Z.eqb_refl. change (_ ++ t) with (byte_of (Z.lor flag 126) :: h :: l :: t).
    rewrite !zlen_cons. rewrite (proj2 (Z.ltb_ge _ _)) by lia. split_and!; [|done|lia].
    do 2 f_equal. change (Z.lor (Z.shiftl (byte_val h) 8) (byte_val l) = n).
    pose proof (shift_in n 0 ltac:(lia)) as Hlast. change ((0 + 1) * 8) with 8 in Hlast.
    change (0 * 8) with 0 in Hlast. rewrite Z.shiftr_0_r in Hlast. fold l in Hlast.
    assert (byte_val h = Z.shiftr n 8) as ->.
    { unfold h. rewrite byte_val_of. change 255 with (Z.ones 8). rewrite Z.land_ones by done.
      rewrite Z.mod_mod by done. apply Z.mod_small. rewrite Z.shiftr_div_pow2 by done.
      split; [apply Z.div_pos; lia|]. apply Z.div_lt_upper_bound; lia. }
    exact Hlast.
  - destruct (lor_flag flag 127 Hf ltac:(lia)) as [E1 E2].
    set (cs := (λ i, byte_of (Z.land (Z.shiftr n (i * 8)) 255)) <$> [7; 6; 5; 4; 3; 2; 1; 0]).
    assert (zlen (cs ++ t) = 8 + zlen t) as Hcs by (by rewrite zlen_app).
    change (at_ (b0 :: (byte_of (Z.lor flag 127) :: cs) ++ t) 1) with (byte_val (byte_of (Z.lor flag 127))).
    rewrite E1, E2. change ((_ :: cs) ++ t) with (byte_of (Z.lor flag 127) :: cs ++ t).
    rewrite !zlen_cons, Hcs. change (127 =? 126) with false. change (127 =? 127) with true. cbv iota.
    rewrite (proj2 (Z.ltb_ge _ _)) by lia. split_and!; [|done|lia].
    unfold cs. by rewrite read_length_bytes.
Qed.

Lemma unmask_involutive mask payload : unmask mask (unmask mask payload) = payload.
Proof.
  unfold unmask. apply list_eq. intros i. rewrite !list_lookup_imap.
  destruct (payload !! i) as [b|]; [|done]. simpl. f_equal. rewrite byte_val_of.
  rewrite (Z.mod_small (Z.lxor _ _)).
  - rewrite Z.lxor_assoc, Z.lxor_nilpotent, Z.lxor_0_r. apply byte_of_val.
  - pose proof (byte_val_range b) as Hb. pose proof (at_range mask (Z.of_nat i mod 4)) as Hm.
    split; [apply Z.lxor_nonneg; lia|].
    destruct (Z.eq_dec (Z.lxor (byte_val b) (at_ mask (Z.of_nat i mod 4))) 0) as [->|Hne]; [done|].
    change 256 with (2 ^ 8). apply Z.log2_lt_pow2; [|].
    { assert (0 ≤ Z.lxor (byte_val b) (at_ mask (Z.of_nat i mod 4))) by (apply Z.lxor_nonneg; lia). lia. }
    eapply Z.le_lt_trans; [apply Z.log2_lxor; lia|].
    assert (∀ x, 0 ≤ x < 256 → Z.log2 x < 8) as Hlog.
    { intros x Hx. destruct (Z.eq_dec x 0) as [->|]; [done|]. apply Z.log2_lt_pow2; [lia|]. apply Hx. }
    apply Z.max_lub_lt; by apply Hlog.
Qed.

Lemma unmask_length mask payload : zlen (unmask mask payload) = zlen payload.
Proof. unfold unmask, zlen. by rewrite length_imap. Qed.

(** The frames of a client are read as what they carry. *)
Lemma client_frame_reads o mask payload : 0 ≤ o < 16 → zlen mask = 4 → zlen payload ≤ 1024 * 1024 →
  reads (client_frame o mask payload) o payload.
Proof.
  intros Ho Hmask Hlen t. pose proof (zlen_nonneg payload). unfold client_frame.
  cbn [app]. rewrite <-!app_assoc.
  destruct (extended_length (byte_of (Z.lor 128 o)) 128 (zlen payload) (mask ++ unmask mask payload ++ t))
    as (He&Hm&Hs); [by right|lia|]. set (s := _ :: _) in *.
  rewrite read_frame_extended, He by done. rewrite (proj2 (Z.ltb_ge _ _)) by lia. rewrite Hm.
  cbv zeta. cbn [Z.eqb negb andb].
  set (L := length_bytes 128 (zlen payload)) in *. pose proof (zlen_nonneg L).
  assert (zlen s = 1 + zlen L + 4 + zlen payload + zlen t) as Hz.
  { unfold s. rewrite zlen_cons, !zlen_app, unmask_length. lia. }
  pose proof (zlen_nonneg t). rewrite !(proj2 (Z.ltb_ge _ _)) by lia.
  assert (∀ k, 0 ≤ k → zdrop (1 + zlen L + k) s = zdrop k (mask ++ unmask mask payload ++ t)) as Hdrop.
  { intros k Hk. unfold s. change (_ :: L ++ ?x) with ((byte_of (Z.lor 128 o) :: L) ++ x).
    rewrite zdrop_app_ge by (rewrite zlen_cons; lia). f_equal. rewrite zlen_cons. lia. }
  pose proof (Hdrop 0 ltac:(lia)) as Hd0. rewrite Z.add_0_r, zdrop_0 in Hd0. rewrite Hd0.
  rewrite (Hdrop 4) by lia. rewrite zdrop_app_ge, Hmask, Z.sub_diag, zdrop_0 by lia.
  rewrite (ztake_app_le 4) by lia. rewrite (ztake_all 4 mask) by lia.
  rewrite ztake_app_le by (rewrite unmask_length; lia).
  rewrite ztake_all by (rewrite unmask_length; lia). rewrite unmask_involutive.
  replace (1 + zlen L + 4 + zlen payload) with (1 + zlen L + (4 + zlen payload)) by lia.
  rewrite Hdrop by lia. rewrite app_assoc, zdrop_app_ge by (rewrite zlen_app, unmask_length; lia).
  rewrite zlen_app, unmask_length, Hmask, Z.sub_diag, zdrop_0.
  unfold s. rewrite at_cons_0. by rewrite lor_opcode.
Qed.

(** So are the frames of the server, for a reader that follows the same rules. *)
Lemma SendWsFrame_reads o payload : 0 ≤ o < 16 → zlen payload ≤ 1024 * 1024 →
  reads (SendWsFrame o payload) o payload.
Proof.
  intros Ho Hlen t. pose proof (zlen_nonneg payload). unfold SendWsFrame. cbn [app]. rewrite <-!app_assoc.
  destruct (extended_length (byte_of (Z.lor 128 o)) 0 (zlen payload) (payload ++ t))
    as (He&Hm&Hs); [by left|lia|]. set (s := _ :: _) in *.
  rewrite read_frame_extended, He by done. rewrite (proj2 (Z.ltb_ge _ _)) by lia. rewrite Hm.
  cbv zeta. cbn [Z.eqb negb andb].
  set (L := length_bytes 0 (zlen payload)) in *. pose proof (zlen_nonneg L). pose proof (zlen_nonneg t).
  assert (zlen s = 1 + zlen L + zlen payload + zlen t) as Hz.
  { unfold s. rewrite zlen_cons, !zlen_app. lia. }
  rewrite !(proj2 (Z.ltb_ge _ _)) by lia.
  assert (∀ k, 0 ≤ k → zdrop (1 + zlen L + k) s = zdrop k (payload ++ t)) as Hdrop.
  { intros k Hk. unfold s. change (_ :: L ++ ?x) with ((byte_of (Z.lor 128 o) :: L) ++ x).
    rewrite zdrop_app_ge by (rewrite zlen_cons; lia). f_equal. rewrite zlen_cons. lia. }
  pose proof (Hdrop 0 ltac:(lia)) as Hd0. rewrite Z.add_0_r, zdrop_0 in Hd0. rewrite Hd0.
  rewrite ztake_app_le, ztake_all by lia. rewrite Hdrop by lia.
  rewrite zdrop_app_ge, Z.sub_diag, zdrop_0 by lia. unfold s. rewrite at_cons_0. by rewrite lor_opcode.
Qed.

(** ** Frames of clients *)

Lemma xor_byte_lxor x y : byte_of (Z.lxor (byte_val x) (byte_val y)) = xor_byte x y.
Proof.
  assert (forallb (λ i, forallb (λ j, bool_decide (byte_of (Z.lxor (byte_val (byte_of i)) (byte_val (byte_of j))) = xor_byte (byte_of i) (byte_of j)))
    (seqZ 0 256)) (seqZ 0 256) = true) as H by (by vm_compute).
  rewrite forallb_forall in H. specialize (H (byte_val x)). rewrite <-list_elem_of_In, elem_of_seqZ, forallb_forall in H.
  specialize (H ltac:(pose proof (byte_val_range x); lia) (byte_val y)). rewrite <-list_elem_of_In, elem_of_seqZ in H.
  specialize (H ltac:(pose proof (byte_val_range y); lia)). apply bool_decide_eq_true in H. by rewrite !byte_of_val in H.
Qed.

(** Byte [i] is combined with byte [i mod 4] of the key. *)
Lemma mask_with_unmask a b c d payload : mask_with (a, b, c, d) payload = unmask [a; b; c; d] payload.
Proof.
  assert (∀ k payload, mask_with (match (k mod 4)%nat with 0 => (a, b, c, d) | 1 => (b, c, d, a) | 2 => (c, d, a, b) | _ => (d, a, b, c) end)%nat payload =
    imap (λ i x, byte_of (Z.lxor (byte_val x) (at_ [a; b; c; d] (Z.of_nat (k + i) mod 4)))) payload) as H.
  { intros k p. revert k. induction p as [|x p IH]; intros k; [done|]. specialize (IH (S k)).
    assert (Hk : (k mod 4 < 4)%nat) by (apply Nat.mod_upper_bound; lia).
    assert (HS : (S k mod 4 = if decide (k mod 4 = 3) then 0 else S (k mod 4))%nat).
    { pose proof (Nat.div_mod_eq k 4) as Hd. case_decide as E; symmetry.
      - apply (Nat.mod_unique _ _ (S (k / 4))); lia.
      - apply (Nat.mod_unique _ _ (k / 4)); lia. }
    assert (Hz : Z.of_nat (k + 0) mod 4 = Z.of_nat (k mod 4)) by (rewrite Nat.add_0_r, Nat2Z.inj_mod; done).
    cbn [imap mask_with]. rewrite Hz.
    replace (imap _ p) with (imap (λ i x, byte_of (Z.lxor (byte_val x) (at_ [a; b; c; d] (Z.of_nat (S k + i) mod 4)))) p)
      by (apply imap_ext; intros i y _; unfold compose; do 5 f_equal; lia).
    rewrite <-IH, HS. destruct (k mod 4)%nat as [|[|[|[|]]]]; [..|lia]; case_decide; try lia; by rewrite <-xor_byte_lxor. }
  exact (H 0%nat payload).
Qed.
Lemma byte_of_mod n : byte_of (n mod 256) = byte_of n.
Proof. rewrite <-(byte_of_val (byte_of n)). by rewrite byte_val_of. Qed.

Lemma network_byte n i : 0 ≤ n → 0 ≤ i → byte_of (Z.land (Z.shiftr n (i * 8)) 255) = byte_of (n / 256 ^ i mod 256).
Proof.
  intros Hn Hi. change 255 with (Z.ones 8). rewrite Z.land_ones by done. do 2 f_equal. rewrite Z.shiftr_div_pow2 by lia. f_equal.
  replace (i * 8) with (8 * i) by lia. by rewrite Z.pow_mul_r by lia.
Qed.

Lemma rfc_length n : 0 ≤ n < 2 ^ 64 → length_bytes 128 n =
  if n <? 126 then [byte_of (128 + n)] else if n <? 65536 then byte_of 254 :: network_order 2 n else byte_of 255 :: network_order 8 n.
Proof.
  intros Hn. unfold length_bytes. destruct (Z.ltb_spec n 126) as [H1|H1].
  - do 2 f_equal. assert (forallb (λ n, Z.lor 128 n =? 128 + n) (seqZ 0 126) = true) as H by (by vm_compute).
    rewrite forallb_forall in H. apply Z.eqb_eq, H. rewrite <-list_elem_of_In, elem_of_seqZ. lia.
  - assert ((n <=? 65535) = (n <? 65536)) as -> by (destruct (Z.leb_spec n 65535), (Z.ltb_spec n 65536); lia).
    pose proof (network_byte n 0 ltac:(lia) ltac:(lia)) as H0. rewrite Z.shiftr_0_r, Z.pow_0_r, Z.div_1_r in H0.
    destruct (n <? 65536).
    + change (network_order 2 n) with [byte_of (n / 256 mod 256); byte_of (n mod 256)]. pose proof (network_byte n 1 ltac:(lia) ltac:(lia)) as H2. change (1 * 8) with 8 in H2. change (256 ^ 1) with 256 in H2. by rewrite H0, H2.
    + cbn [fmap list_fmap]. rewrite (network_byte n 7), (network_byte n 6), (network_byte n 5), (network_byte n 4), (network_byte n 3), (network_byte n 2),
        (network_byte n 1), (network_byte n 0) by lia.
      cbn [network_order app]. rewrite !Z.div_div by lia. change (256 ^ 0) with 1. by rewrite Z.div_1_r.
Qed.

Lemma rfc_client_frame o a b c d payload : 0 ≤ o < 16 → zlen payload ≤ 1024 * 1024 →
  rfc_frame o (a, b, c, d) payload = client_frame o [a; b; c; d] payload.
Proof.
  intros Ho Hp. pose proof (zlen_nonneg payload). unfold rfc_frame, client_frame. rewrite mask_with_unmask, rfc_length by lia.
  assert (byte_of (128 + o) = byte_of (Z.lor 128 o)) as ->; [|done]. f_equal.
  assert (forallb (λ n, 128 + n =? Z.lor 128 n) (seqZ 0 16) = true) as H1 by (by vm_compute).
  rewrite forallb_forall in H1. apply Z.eqb_eq, H1. rewrite <-list_elem_of_In, elem_of_seqZ. lia.
Qed.

Lemma rfc_frame_reads o k payload : 0 ≤ o < 16 → zlen payload ≤ 1024 * 1024 → reads (rfc_frame o k payload) o payload.
Proof. intros Ho Hp. destruct k as [[[a b] c] d]. rewrite rfc_client_frame by done. by apply client_frame_reads. Qed.

(** C17: The frames a client sends by RFC 6455 reach the server whole and in order however their
    bytes are cut into pieces: for any frames of at most a megabyte, masked with any keys, none
    of them a close frame but possibly the last, each text frame is handled once with the
    payload the client masked, each ping is answered with its payload, in the order of the
    frames, a close frame at the end closes the connection once what was sent is flushed, and
    nothing stays in the buffer. *)
Theorem ws_frames_delivered (msgs : list (Z * key * bytes)) (closing : option (key * bytes)) (chunks : list bytes) :
  Forall (λ '(o, _, payload), 0 ≤ o < 16 ∧ o ≠ 8 ∧ zlen payload ≤ 1024 * 1024) msgs →
  from_option (λ '(_, payload), zlen payload ≤ 1024 * 1024) True closing →
  concat chunks = concat ((λ '(o, k, payload), rfc_frame o k payload) <$> msgs) ++ from_option (λ '(k, payload), rfc_frame 8 k payload) [] closing →
  receive chunks [] =
    Some ([], concat ((λ '(o, _, payload), frame_action o payload) <$> msgs) ++ match closing with Some _ => [FlushClose] | None => [] end).
Proof.
  intros Hm Hclose Hc.
  set (fs := (λ '(o, k, payload), (rfc_frame o k payload, (o, payload))) <$> msgs).
  assert (frames_ok fs) as Hfs.
  { unfold fs, frames_ok. apply Forall_fmap. eapply Forall_impl; [exact Hm|].
    intros [[o k] payload] (?&?&?). simpl. split; [by apply rfc_frame_reads|done]. }
  assert (stream fs = concat ((λ '(o, k, payload), rfc_frame o k payload) <$> msgs)) as Es.
  { unfold stream, fs. rewrite <-list_fmap_compose. f_equal. apply list_fmap_ext. by intros i [[o k] payload] _. }
  assert (actions fs = concat ((λ '(o, _, payload), frame_action o payload) <$> msgs)) as Ea.
  { unfold fs, actions. rewrite <-list_fmap_compose. f_equal. apply list_fmap_ext. by intros i [[o k] payload] _. }
  rewrite <-Ea. destruct closing as [[k payload]|]; simpl in Hc.
  - apply (receive_closing chunks fs (rfc_frame 8 k payload) payload []); [done|by apply rfc_frame_reads|done|]. simpl. by rewrite Hc, Es.
  - rewrite app_nil_r in *. apply receive_stream; [done|done|]. simpl. by rewrite Hc, Es.
Qed.

Lemma ws_frames_delivered_witness :
  let k (s : string) : key := match txt s with [a; b; c; d] => (a, b, c, d) | _ => ("000"%char, "000"%char, "000"%char, "000"%char) end in
  let msgs := [(1, k "k3y!", txt "hello"); (9, k "abcd", txt "beat"); (1, k "0000", replicate 300 "x"%char)] in
  let wire := concat ((λ '(o, k, payload), rfc_frame o k payload) <$> msgs) ++ rfc_frame 8 (k "abcd") [] in
  receive [take 3 wire; take 9 (drop 3 wire); drop 12 wire] [] =
    Some ([], [Text (txt "hello"); Pong (txt "beat"); Text (replicate 300 "x"%char); FlushClose]).
Proof.
  intros k msgs wire. apply (ws_frames_delivered msgs (Some (k "abcd", []))).
  - repeat constructor; vm_compute; done.
  - by vm_compute.
  - by vm_compute.
Defined.
