(* ===== verification/DropMeta.v ===== *)
(** * Files of the drop application

    [app/examples/web/dropapp/src/main.cpp], the part without effects: the record
    kept of an uploaded file, its JSON text and how it is read back, the names
    under which a file may be stored and sent, identifiers and paths.

    [<<] writes an unsigned number in decimal and a negative one with a sign. *)

From S2P Require Import Prelude Text Paths HttpRequest Hls.

#[local] Open Scope Z_scope.
#[local] Set Warnings "-clear-no-such-hyp".

Abbreviation dq := ("034"%char : byte).
Abbreviation backslash := ("092"%char : byte).

(** Source: app/examples/web/dropapp/src/main.cpp:46-52, DropFile. *)
Record DropFile := mkDropFile {
  id : bytes;
  filename : bytes;
  size : Z;
  created_at : Z;
  expires_at : Z;
}.

#[export] Instance DropFile_eq_dec : EqDecision DropFile.
Proof. solve_decision. Defined.

Definition to_string_i (n : Z) : bytes :=
  if n <? 0 then "-"%char :: to_string (- n) else to_string n.

(** A number as [std::int64_t]. *)
Definition i64 (z : Z) : Z := (z + 2 ^ 63) mod 2 ^ 64 - 2 ^ 63.

(** ** JSON *)

(** Source: app/examples/web/dropapp/src/main.cpp:90-101, JsonEscape. *)
Definition escape (ch : byte) : bytes :=
  if decide (ch = dq) then [backslash; dq]
  else if decide (ch = backslash) then [backslash; backslash]
  else if decide (ch = "010"%char) then [backslash; "n"%char]
  else if decide (ch = "013"%char) then [backslash; "r"%char]
  else if decide (ch = "009"%char) then [backslash; "t"%char]
  else [if byte_val ch <? 32 then " "%char else ch].

(** Source: app/examples/web/dropapp/src/main.cpp:87-103, JsonEscape. *)
Definition JsonEscape (text : bytes) : bytes := text ≫= escape.

(** Source: app/examples/web/dropapp/src/main.cpp:182-200, ExtractJsonString.
    The loop over the characters of the value. *)
Fixpoint read_string (json out : bytes) : option bytes :=
  match json with
  | [] => None
  | ch :: json =>
    if decide (ch = dq) then Some out else
    match json with
    | escaped :: json' =>
      if decide (ch = backslash) then
        read_string json' (out ++
          [if decide (escaped = "n"%char) then "010"%char
           else if decide (escaped = "r"%char) then "013"%char
           else if decide (escaped = "t"%char) then "009"%char
           else escaped])
      else read_string json (out ++ [ch])
    | [] => read_string json (out ++ [ch])
    end
  end.

(** The key in quotes. *)
Definition needle (key : bytes) : bytes := [dq] ++ key ++ [dq].

(** Source: app/examples/web/dropapp/src/main.cpp:165-201, ExtractJsonString. *)
Definition ExtractJsonString (json key : bytes) : option bytes :=
  '(_, json) ← split_sub (needle key) json;
  '(_, json) ← split_at ":"%char json;
  '(_, json) ← split_at dq json;
  read_string json [].

(** Source: app/examples/web/dropapp/src/main.cpp:203-231, ExtractJsonUint.
    The value wraps around at 64 bits. *)
Definition ExtractJsonUint (json key : bytes) : option Z :=
  '(_, json) ← split_sub (needle key) json;
  '(_, json) ← split_at ":"%char json;
  match digits_prefix (skip_spaces json) with
  | ([], _) => None
  | (ds, _) => Some (foldl (λ value b, u64 (value * 10 + (byte_val b - 48))) 0 ds)
  end.

Definition field (key : bytes) : bytes := needle key ++ [":"%char].
Definition string_field (key value : bytes) : bytes := field key ++ [dq] ++ JsonEscape value ++ [dq].

(** Source: app/examples/web/dropapp/src/main.cpp:233-241, SerializeMeta. *)
Definition SerializeMeta (file : DropFile) : bytes :=
  txt "{" ++ string_field (txt "id") (id file) ++
  txt "," ++ string_field (txt "filename") (filename file) ++
  txt "," ++ field (txt "size") ++ to_string (size file) ++
  txt "," ++ field (txt "created_at") ++ to_string_i (created_at file) ++
  txt "," ++ field (txt "expires_at") ++ to_string_i (expires_at file) ++ txt "}" ++ ["010"%char].

(** Source: app/examples/web/dropapp/src/main.cpp:243-259, ParseMeta. *)
Definition ParseMeta (json : bytes) : option DropFile :=
  i ← ExtractJsonString json (txt "id");
  f ← ExtractJsonString json (txt "filename");
  s ← ExtractJsonUint json (txt "size");
  c ← ExtractJsonUint json (txt "created_at");
  e ← ExtractJsonUint json (txt "expires_at");
  Some (mkDropFile i f s (i64 c) (i64 e)).

(** ** Names *)

(** Source: app/examples/web/dropapp/src/main.cpp:271-277, SanitizeFilename. *)
Definition name_char (ch : byte) : bool :=
  isalnum ch || existsb (λ d, bool_decide (ch = d)) (txt ".-_ ") || (128 <=? byte_val ch).

(** Source: app/examples/web/dropapp/src/main.cpp:282-284, SanitizeFilename. *)
Fixpoint trim_front (out : bytes) : bytes :=
  match out with
  | b :: out' => if bool_decide (b = "."%char) || bool_decide (b = " "%char)
                 then trim_front out' else out
  | [] => []
  end.

(** Source: app/examples/web/dropapp/src/main.cpp:285-287, SanitizeFilename. *)
Fixpoint trim_back (out : bytes) : bytes :=
  match out with
  | [] => []
  | b :: out =>
    match trim_back out with
    | [] => if decide (b = " "%char) then [] else [b]
    | out => b :: out
    end
  end.

(** Source: app/examples/web/dropapp/src/main.cpp:261-292, SanitizeFilename.
    The loop over the characters stops once it has written 160. *)
Definition SanitizeFilename (raw : bytes) : bytes :=
  let value := (λ b, if decide (b = backslash) then slash else b) <$> raw in
  let value := match rsplit_at slash value with Some (_, v) => v | None => value end in
  let out := take 160 ((λ ch, if name_char ch then ch else "_"%char) <$> value) in
  let out := trim_back (trim_front out) in
  if bool_decide (out = []) || bool_decide (out = txt ".") || bool_decide (out = txt "..")
  then txt "file" else out.

(** Source: app/examples/web/dropapp/src/main.cpp:294-309, AsciiFilenameFallback. *)
Definition AsciiFilenameFallback (raw : bytes) : bytes :=
  let sanitized := SanitizeFilename raw in
  let out := (λ ch, if isalnum ch || existsb (λ d, bool_decide (ch = d)) (txt ".-_ ")
                    then ch else "_"%char) <$> sanitized in
  if bool_decide (out = []) || bool_decide (out = txt ".") || bool_decide (out = txt "..")
  then txt "file" else out.

(** Source: app/examples/web/dropapp/src/main.cpp:120-131, HexValue. *)
Definition HexValue (ch : byte) : Z :=
  if char_in "0" "9" ch then byte_val ch - byte_val "0"
  else if char_in "a" "f" ch then byte_val ch - byte_val "a" + 10
  else if char_in "A" "F" ch then byte_val ch - byte_val "A" + 10
  else -1.

(** Source: app/examples/web/dropapp/src/main.cpp:133-153, UrlDecode. *)
Fixpoint UrlDecode (text : bytes) : option bytes :=
  match text with
  | [] => Some []
  | ch :: rest =>
    if decide (ch = "%"%char) then
      match rest with
      | c1 :: c2 :: rest' =>
        let hi := HexValue c1 in
        let lo := HexValue c2 in
        if (hi <? 0) || (lo <? 0) then None else
        out ← UrlDecode rest'; Some (byte_of (Z.lor (Z.shiftl hi 4) lo) :: out)
      | _ => None
      end
    else out ← UrlDecode rest; Some (ch :: out)
  end.

(** Source: app/examples/web/dropapp/src/main.cpp:105-118, UrlEncode. *)
Definition UrlEncode (text : bytes) : bytes :=
  text ≫= λ ch,
    if char_in "a" "z" ch || char_in "A" "Z" ch || char_in "0" "9" ch ||
       existsb (λ d, bool_decide (ch = d)) (txt "-_.~")
    then [ch]
    else ["%"%char; hex_digit (byte_val ch / 16); hex_digit (byte_val ch mod 16)].

(** Source: app/examples/web/dropapp/src/main.cpp:311-320, FilenameFromHeaders. *)
Definition FilenameFromHeaders (get : bytes → bytes) : bytes :=
  let encoded := get (txt "X-Dropapp-Filename-Encoded") in
  if bool_decide (encoded ≠ []) then
    match UrlDecode encoded with Some decoded => SanitizeFilename decoded | None => txt "file" end
  else SanitizeFilename (get (txt "X-Dropapp-Filename")).

(** ** Identifiers *)

(** Source: app/examples/web/dropapp/src/main.cpp:322-329, SafeId. *)
Definition SafeId (i : bytes) : bool :=
  if (zlen i <? 8) || (64 <? zlen i) then false else
  forallb (λ ch, isalnum ch || bool_decide (ch = "-"%char) || bool_decide (ch = "_"%char)) i.

(** Lower-case hexadecimal; a number below [2^64] has at most 16 digits. *)
Fixpoint hex_of (fuel : nat) (n : Z) (acc : bytes) : bytes :=
  match fuel with
  | O => acc
  | S fuel =>
    let d := n mod 16 in
    let acc := byte_of (if d <? 10 then 48 + d else 87 + d) :: acc in
    if n <? 16 then acc else hex_of fuel (n / 16) acc
  end.

(** Source: app/examples/web/dropapp/src/main.cpp:331-340, GenerateId.
    From the clock in milliseconds, the counter and the random number. *)
Definition GenerateId (now seq random : Z) : bytes :=
  take 32 (hex_of 16 now [] ++ hex_of 16 seq [] ++ hex_of 16 random []).

(** Source: app/examples/web/dropapp/src/main.cpp:342-344, FileUrl. *)
Definition FileUrl (file : DropFile) : bytes :=
  txt "/d/" ++ UrlEncode (id file) ++ txt "/" ++ UrlEncode (filename file).

(** Source: app/examples/web/dropapp/src/main.cpp:346-352, MetaJsonForApi. *)
Definition MetaJsonForApi (file : DropFile) : bytes :=
  txt "{" ++ string_field (txt "id") (id file) ++
  txt "," ++ string_field (txt "filename") (filename file) ++
  txt "," ++ field (txt "size") ++ to_string (size file) ++
  txt "," ++ field (txt "created_at") ++ to_string_i (created_at file) ++
  txt "," ++ field (txt "expires_at") ++ to_string_i (expires_at file) ++
  txt "," ++ string_field (txt "url") (FileUrl file) ++ txt "}".

(** Source: app/examples/web/dropapp/src/main.cpp:354-367, MimeType. *)
Definition MimeType (name : bytes) : bytes :=
  let ext := extension name in
  let has s := bool_decide (ext = txt s) in
  if has ".html" || has ".htm" then txt "text/html; charset=utf-8"
  else if has ".css" then txt "text/css; charset=utf-8"
  else if has ".js" then txt "application/javascript; charset=utf-8"
  else if has ".txt" || has ".log" || has ".md" then txt "text/plain; charset=utf-8"
  else if has ".json" then txt "application/json"
  else if has ".png" then txt "image/png"
  else if has ".jpg" || has ".jpeg" then txt "image/jpeg"
  else if has ".gif" then txt "image/gif"
  else if has ".pdf" then txt "application/pdf"
  else if has ".zip" then txt "application/zip"
  else txt "application/octet-stream".

(** ** Paths below the static root *)

(** Source: app/examples/web/dropapp/src/main.cpp:809-819, SafeStaticPath. *)
Fixpoint relative_of (parts : list bytes) (relative : fspath) : option fspath :=
  match parts with
  | [] => Some relative
  | value :: parts =>
    if bool_decide (value = []) || bool_decide (value = txt ".") then relative_of parts relative
    else if bool_decide (value = txt "..") then None
    else relative_of parts (path_append relative value)
  end.

Fixpoint drop_slashes (s : bytes) : bytes :=
  match s with b :: s' => if decide (b = slash) then drop_slashes s' else s | [] => [] end.

(** Source: app/examples/web/dropapp/src/main.cpp:796-824, SafeStaticPath. *)
Definition SafeStaticPath (raw_path : bytes) : option fspath :=
  decoded ← UrlDecode raw_path;
  let decoded := drop_slashes ((λ b, if decide (b = backslash) then slash else b) <$> decoded) in
  let decoded := if bool_decide (decoded = []) then txt "index.html" else decoded in
  relative ← relative_of (elements_of decoded) [];
  Some (if bool_decide (relative = []) then txt "index.html" else relative).

(** * Properties *)

(** ** Reading strings back *)

(** What a character becomes on the way through JSON: a control character other
    than a line feed, a carriage return or a tab is replaced by a space. *)
Definition readable (c : byte) : byte :=
  if (byte_val c <? 32) && negb (existsb (λ d, bool_decide (c = d)) ["010"; "013"; "009"]%char)
  then " "%char else c.

Lemma read_string_escape c json out :
  read_string (escape c ++ json) out = read_string json (out ++ [readable c]).
Proof.
  unfold escape, readable. repeat case_decide; subst; try done.
  destruct (Z.ltb_spec (byte_val c) 32) as [Hc|Hc]; simpl; rewrite ?bool_decide_false by done.
  - simpl. by destruct json.
  - by destruct json; rewrite !decide_False by done.
Qed.

(** A text that went through [JsonEscape] is read back up to [readable]. *)
Lemma read_string_JsonEscape text rest out :
  read_string (JsonEscape text ++ dq :: rest) out = Some (out ++ (readable <$> text)).
Proof.
  revert out. induction text as [|c text IH]; intros out; csimpl.
  { by rewrite app_nil_r. }
  unfold JsonEscape in *. simpl. rewrite <-app_assoc, read_string_escape, IH.
  by rewrite <-app_assoc.
Qed.

(** ** Finding a key *)

(** A text cut at its quotes. *)
Fixpoint quoted (t : bytes) (ts : list bytes) : bytes :=
  t ++ match ts with [] => [] | u :: us => dq :: quoted u us end.

(** What follows the first piece between quotes that is [k]. *)
Fixpoint after_key (k : bytes) (ts : list bytes) : option bytes :=
  match ts with
  | t :: (u :: us) as rest => if decide (t = k) then Some (quoted u us) else after_key k rest
  | _ => None
  end.

Lemma quoted_cons c t ts : quoted (c :: t) ts = c :: quoted t ts.
Proof. by destruct ts. Qed.

Lemma strip_prefix_quoted k t ts : (dq ∉ k) → (dq ∉ t) →
  strip_prefix (k ++ [dq]) (quoted t ts) =
  match ts with
  | u :: us => if decide (t = k) then Some (quoted u us) else None
  | [] => None
  end.
Proof.
  revert t. induction k as [|b k IH]; intros t Hk Ht.
  - destruct t as [|c t]; [by destruct ts|].
    apply not_elem_of_cons in Ht as [? _]. rewrite quoted_cons. simpl.
    rewrite decide_False by done. by destruct ts.
  - apply not_elem_of_cons in Hk as [Hb Hk].
    destruct t as [|c t].
    + simpl. destruct ts as [|u us]; [done|]. simpl. rewrite decide_False by done. by rewrite ?decide_False.
    + apply not_elem_of_cons in Ht as [_ Ht]. specialize (IH t Hk Ht).
      rewrite quoted_cons. simpl.
      destruct (decide (b = c)) as [->|]; [|by destruct ts; rewrite ?decide_False by congruence].
      rewrite IH. destruct ts; [done|].
      destruct (decide (t = k)) as [->|]; [by rewrite decide_True|by rewrite decide_False by congruence].
Qed.

Lemma split_sub_quoted k t ts : (dq ∉ k) → Forall (λ t, dq ∉ t) (t :: ts) →
  snd <$> split_sub (needle k) (quoted t ts) = after_key k ts.
Proof.
  intros Hk. revert t. induction ts as [|u us IH]; intros t Ht.
  - apply Forall_cons in Ht as [Ht _]. simpl. rewrite app_nil_r.
    induction t as [|c t IHt]; [done|]. apply not_elem_of_cons in Ht as [? Ht].
    cbn [split_sub]. unfold needle. simpl. rewrite decide_False by done.
    specialize (IHt Ht). unfold needle in IHt. simpl in IHt.
    by destruct (split_sub _ t) as [[q r]|].
  - apply Forall_cons in Ht as [Ht Hus]. pose proof Hus as Hus'. apply Forall_cons in Hus' as [Hu _].
    induction t as [|c t IHt].
    + change (quoted [] (u :: us)) with (dq :: quoted u us).
      change (after_key k (u :: us)) with
        (match us with v :: vs => if decide (u = k) then Some (quoted v vs) else after_key k us
                     | [] => None end).
      cbn [split_sub]. unfold needle at 1. cbn [app strip_prefix]. rewrite ?decide_True by done.
      rewrite strip_prefix_quoted by done. specialize (IH u Hus).
      destruct us as [|v vs]; [by destruct (split_sub _ (quoted u [])) as [[]|]|].
      case_decide; [done|]. rewrite <-IH.
      by destruct (split_sub _ (quoted u (v :: vs))) as [[]|].
    + apply not_elem_of_cons in Ht as [? Ht].
      rewrite quoted_cons.
      cbn [split_sub]. unfold needle at 1. cbn [app strip_prefix]. rewrite decide_False by done.
      rewrite <-(IHt Ht). by destruct (split_sub _ (quoted t (u :: us))) as [[]|].
Qed.

Lemma ExtractJsonString_quoted k t ts : (dq ∉ k) → Forall (λ t, dq ∉ t) (t :: ts) →
  ExtractJsonString (quoted t ts) k =
  (j ← after_key k ts; '(_, j) ← split_at ":"%char j; '(_, j) ← split_at dq j; read_string j []).
Proof.
  intros Hk Ht. unfold ExtractJsonString. rewrite <-(split_sub_quoted k t ts) by done.
  by destruct (split_sub _ _) as [[]|].
Qed.

(** The number at the head of a text. *)
Definition read_uint (json : bytes) : option Z :=
  match digits_prefix (skip_spaces json) with
  | ([], _) => None
  | (ds, _) => Some (foldl (λ value b, u64 (value * 10 + (byte_val b - 48))) 0 ds)
  end.

Lemma ExtractJsonUint_quoted k t ts : (dq ∉ k) → Forall (λ t, dq ∉ t) (t :: ts) →
  ExtractJsonUint (quoted t ts) k = (j ← after_key k ts; '(_, j) ← split_at ":"%char j; read_uint j).
Proof.
  intros Hk Ht. unfold ExtractJsonUint. rewrite <-(split_sub_quoted k t ts) by done.
  by destruct (split_sub _ _) as [[]|].
Qed.

Lemma foldl_u64 ds v :
  foldl (λ value b, u64 (value * 10 + (byte_val b - 48))) (u64 v) ds =
  u64 (foldl (λ n b, 10 * n + (byte_val b - 48)) v ds).
Proof.
  revert v. induction ds as [|b ds IH]; intros v; [done|]. simpl. rewrite <-IH. f_equal.
  unfold u64. rewrite <-(Z.add_mod_idemp_l (_ * 10)), Z.mul_mod_idemp_l, Z.add_mod_idemp_l by done.
  f_equal. lia.
Qed.

Lemma read_uint_to_string n r : 0 ≤ n < 2 ^ 64 →
  match r with b :: _ => is_digit b = false | [] => True end →
  read_uint (to_string n ++ r) = Some n.
Proof.
  intros Hn Hr. destruct (to_string_value n ltac:(lia)) as (Hv&Hd&Hne). unfold read_uint.
  assert (skip_spaces (to_string n ++ r) = to_string n ++ r) as ->.
  { destruct (to_string n) as [|b ds]; [done|]. apply Forall_cons in Hd as [Hb _].
    simpl. replace (isspace b) with false; [done|]. symmetry.
    revert Hb. by destruct b as [[] [] [] [] [] [] [] []]. }
  rewrite digits_prefix_app by done. destruct (to_string n) as [|b ds]; [done|].
  change 0 with (u64 0) at 1. rewrite foldl_u64. unfold digits_value in Hv. rewrite Hv.
  by rewrite u64_small.
Qed.

(** ** Names are clean *)

Lemma name_char_clean c : name_char c = true →
  escape c = [c] ∧ readable c = c ∧ c ≠ dq ∧ c ≠ slash ∧ c ≠ backslash.
Proof. destruct c as [[] [] [] [] [] [] [] []]; intros Hc; try discriminate Hc; done. Qed.

Definition clean (s : bytes) : Prop := Forall (λ c, name_char c = true) s.

Lemma clean_spec s : clean s →
  JsonEscape s = s ∧ readable <$> s = s ∧ (dq ∉ s) ∧ (slash ∉ s) ∧ (backslash ∉ s).
Proof.
  induction 1 as [|c s Hc _ (IH1&IH2&IH3&IH4&IH5)]; [by split_and!; try apply not_elem_of_nil|].
  destruct (name_char_clean c Hc) as (H1&H2&?&?&?). rewrite !not_elem_of_cons.
  unfold JsonEscape in *. csimpl. rewrite H1, H2, IH1, IH2. by split_and!.
Qed.

Lemma trim_front_clean s : clean s → clean (trim_front s).
Proof. induction 1 as [|c s Hc Hs IH]; simpl; [by constructor|]. case_match; [done|by constructor]. Qed.

Lemma trim_back_clean s : clean s → clean (trim_back s).
Proof.
  induction 1 as [|c s Hc Hs IH]; simpl; [by constructor|].
  destruct (trim_back s); [case_decide; by repeat constructor|by constructor].
Qed.

Lemma trim_length s : (length (trim_front s) ≤ length s ∧ length (trim_back s) ≤ length s)%nat.
Proof.
  induction s as [|c s [IH1 IH2]]; simpl; [done|]. split; [case_match; simpl; lia|].
  destruct (trim_back s); simpl in *; [case_decide; simpl; lia|lia].
Qed.

(** A sanitised name is never empty, contains no slash, quote or control character,
    has at most 160 bytes and is not one of the two special names. *)
Lemma SanitizeFilename_spec raw :
  let out := SanitizeFilename raw in clean out ∧ plain out ∧ zlen out ≤ 160.
Proof.
  unfold SanitizeFilename. set (value := match rsplit_at _ _ with Some _ => _ | None => _ end).
  set (cut := take 160 _). set (out := trim_back _).
  assert (clean out) as Hc.
  { apply trim_back_clean, trim_front_clean, Forall_take, Forall_fmap, Forall_true.
    intros c. simpl. by destruct (name_char c) eqn:E. }
  assert (zlen out ≤ 160) as Hl.
  { unfold out, zlen. destruct (trim_length cut) as [? _].
    destruct (trim_length (trim_front cut)) as [_ ?].
    assert (length cut ≤ 160)%nat by (unfold cut; rewrite length_take; lia). lia. }
  destruct (bool_decide (out = []) || bool_decide (out = txt ".") || bool_decide (out = txt ".."))
    eqn:E.
  - split_and!; [by repeat constructor| |done]. by split_and!; try done; set_unfold; naive_solver.
  - apply orb_false_iff in E as [[E1 E2]%orb_false_iff E3].
    apply bool_decide_eq_false in E1, E2, E3. destruct (clean_spec out Hc) as (_&_&_&?&_).
    by split_and!.
Qed.

(** ** Metadata *)

(** Lower-case hexadecimal digits. *)
Definition hex_char (c : byte) : bool := char_in "0" "9" c || char_in "a" "f" c.

Lemma hex_clean s : Forall (λ c, hex_char c = true) s → clean s.
Proof.
  intros Hs. eapply Forall_impl; [exact Hs|]. intros c. by destruct c as [[] [] [] [] [] [] [] []].
Qed.

Lemma hex_ne s k c : Forall (λ c, hex_char c = true) s → c ∈ k → hex_char c = false → s ≠ k.
Proof. intros Hs Hc Hn ->. rewrite Forall_forall in Hs. by rewrite Hs in Hn. Qed.

(** The files the application keeps a record of. *)
Record storable (f : DropFile) : Prop := {
  st_id : Forall (λ c, hex_char c = true) (id f);
  st_name : clean (filename f);
  st_size : 0 ≤ size f < 2 ^ 64;
  st_created : 0 ≤ created_at f < 2 ^ 63;
  st_expires : 0 ≤ expires_at f < 2 ^ 63;
}.

Definition meta_tokens (f : DropFile) : list bytes :=
  [txt "id"; txt ":"; id f; txt ","; txt "filename"; txt ":"; filename f; txt ",";
   txt "size"; ":"%char :: to_string (size f) ++ txt ",";
   txt "created_at"; ":"%char :: to_string (created_at f) ++ txt ",";
   txt "expires_at"; ":"%char :: to_string (expires_at f) ++ txt "}" ++ ["010"%char]].

Lemma to_string_no_dq n : 0 ≤ n → dq ∉ to_string n.
Proof.
  intros Hn Hd. destruct (to_string_value n Hn) as (_&Hf&_). rewrite Forall_forall in Hf.
  by apply Hf in Hd.
Qed.

Lemma SerializeMeta_tokens f : storable f →
  SerializeMeta f = quoted (txt "{") (meta_tokens f) ∧
  Forall (λ t, dq ∉ t) (txt "{" :: meta_tokens f).
Proof.
  intros [Hi Hf Hs Hc He]. destruct (clean_spec _ (hex_clean _ Hi)) as (Ei&_&Qi&_).
  destruct (clean_spec _ Hf) as (Ef&_&Qf&_). split.
  - unfold SerializeMeta, string_field, field, needle, to_string_i, meta_tokens.
    rewrite Ei, Ef, !(proj2 (Z.ltb_ge _ _)) by lia. cbn [quoted].
    rewrite <-!app_assoc. simpl. rewrite <-!app_assoc. done.
  - pose proof (to_string_no_dq (size f)). pose proof (to_string_no_dq (created_at f)).
    pose proof (to_string_no_dq (expires_at f)).
    repeat (apply Forall_cons; split); try done; try (set_unfold; naive_solver lia).
Qed.

(** What follows a key in the record: for the keys of the two times, what follows
    the name of the file if that is the key. *)
Lemma meta_after f k : storable f →
  k ∈ [txt "id"; txt "filename"; txt "size"; txt "created_at"; txt "expires_at"] →
  after_key k (meta_tokens f) =
  Some (if decide (k = txt "id") then quoted (txt ":") (drop 2 (meta_tokens f))
        else if decide (k = txt "filename") then quoted (txt ":") (drop 6 (meta_tokens f))
        else if decide (k = filename f) then quoted (txt ",") (drop 8 (meta_tokens f))
        else if decide (k = txt "size") then
          quoted (":"%char :: to_string (size f) ++ txt ",") (drop 10 (meta_tokens f))
        else if decide (k = txt "created_at") then
          quoted (":"%char :: to_string (created_at f) ++ txt ",") (drop 12 (meta_tokens f))
        else quoted (":"%char :: to_string (expires_at f) ++ txt "}" ++ ["010"%char]) []).
Proof.
  intros Hf Hk. assert (id f ≠ k) as Hid.
  { intros Hk'. destruct Hf as [Hi _ _ _ _]. rewrite Hk' in Hi.
    set_unfold in Hk. destruct_or! Hk; subst k; repeat (apply Forall_cons in Hi as [? Hi]; try done). }
  set_unfold in Hk. destruct_or! Hk; subst k; unfold meta_tokens; cbn [after_key];
    repeat (first [rewrite (decide_True (P := txt _ = txt _)) by done
                  |rewrite (decide_False (P := txt _ = txt _)) by done
                  |rewrite (decide_False (P := id f = _)) by done]); try done.
  all: destruct (decide (filename f = _)) as [E|E].
  all: first [rewrite (decide_True (P := _ = filename f)) by done
             |rewrite (decide_False (P := _ = filename f)) by congruence]; try done.
Qed.

Lemma split_at_head c s : split_at c (c :: s) = Some ([], s).
Proof. simpl. by rewrite decide_True. Qed.

(** After the colon of a number, and after the name of the file. *)
Lemma number_after n r ts : 0 ≤ n < 2 ^ 64 →
  match r with b :: _ => is_digit b = false | [] => False end →
  ('(_, j) ← split_at ":"%char (quoted (":"%char :: to_string n ++ r) ts); read_uint j) = Some n.
Proof.
  intros Hn Hr. rewrite quoted_cons, split_at_head. simpl.
  assert (quoted (to_string n ++ r) ts = to_string n ++ quoted r ts) as ->
    by (destruct ts; simpl; by rewrite <-app_assoc).
  apply read_uint_to_string; [done|]. destruct r; [done|]. by rewrite quoted_cons.
Qed.

Lemma number_after_name n r ts : 0 ≤ n < 2 ^ 64 →
  match r with b :: _ => is_digit b = false | [] => False end →
  ('(_, j) ← split_at ":"%char (quoted (txt ",") (txt "size" :: (":"%char :: to_string n ++ r) :: ts));
   read_uint j) = Some n.
Proof.
  intros Hn Hr. rewrite <-(number_after n r ts Hn Hr).
  change (quoted (txt ",") (txt "size" :: (":"%char :: to_string n ++ r) :: ts)) with
    ((txt "," ++ needle (txt "size")) ++ quoted (":"%char :: to_string n ++ r) ts).
  rewrite quoted_cons, split_at_head, split_at_app; [done|]. set_unfold. naive_solver.
Qed.

Lemma string_after s u us : clean s →
  ('(_, j) ← split_at ":"%char (quoted (txt ":") (s :: u :: us)); '(_, j) ← split_at dq j;
   read_string j []) = Some s.
Proof.
  intros Hs. destruct (clean_spec s Hs) as (He&Hr&_). cbn [quoted]. simpl txt. cbn [app].
  rewrite split_at_head. cbn [mbind option_bind]. rewrite split_at_head. cbn [mbind option_bind].
  rewrite <-He at 1. rewrite read_string_JsonEscape. by rewrite Hr.
Qed.

Lemma i64_small z : 0 ≤ z < 2 ^ 63 → i64 z = z.
Proof. intros. unfold i64. rewrite Z.mod_small; lia. Qed.

Ltac key_facts := first [done | set_unfold; naive_solver].

Lemma meta_string f : storable f →
  ExtractJsonString (SerializeMeta f) (txt "id") = Some (id f) ∧
  ExtractJsonString (SerializeMeta f) (txt "filename") = Some (filename f).
Proof.
  intros Hf. destruct (SerializeMeta_tokens f Hf) as [-> Hq]. pose proof Hf as [Hi Hn _ _ _].
  rewrite !ExtractJsonString_quoted, !meta_after by key_facts.
  rewrite !(decide_True (P := txt _ = txt _)), (decide_False (P := txt _ = txt _)) by done.
  split; apply string_after; [by apply hex_clean|done].
Qed.

Lemma meta_uint f : storable f →
  let time k v := if decide (filename f = txt k) then size f else v in
  ExtractJsonUint (SerializeMeta f) (txt "size") = Some (size f) ∧
  ExtractJsonUint (SerializeMeta f) (txt "created_at") = Some (time "created_at"%string (created_at f)) ∧
  ExtractJsonUint (SerializeMeta f) (txt "expires_at") = Some (time "expires_at"%string (expires_at f)).
Proof.
  intros Hf time. destruct (SerializeMeta_tokens f Hf) as [-> Hq]. pose proof Hf as [_ _ Hs Hc He].
  rewrite !ExtractJsonUint_quoted, !meta_after by key_facts. unfold time.
  rewrite ?(decide_True (P := txt _ = txt _)), ?(decide_False (P := txt _ = txt _)) by done.
  cbn [mbind option_bind].
  split_and!; repeat (rewrite (decide_False (P := txt _ = txt _)) by done);
    repeat (rewrite (decide_True (P := txt _ = txt _)) by done);
    destruct (decide (_ = filename f)) as [E|E];
    try (rewrite (decide_True (P := filename f = _)) by done);
    try (rewrite (decide_False (P := filename f = _)) by done);
    first [apply number_after_name; simpl; done || lia | apply number_after; simpl; done || lia].
Qed.

(** Reading back the record of a file gives the file, with its name, size and
    times, except that the record of a file named [created_at] or [expires_at] is
    read with the size in place of that time: the reader takes the name for the
    key. *)
Theorem meta_roundtrip f : storable f →
  ParseMeta (SerializeMeta f) =
  Some (mkDropFile (id f) (filename f) (size f)
    (if decide (filename f = txt "created_at") then i64 (size f) else created_at f)
    (if decide (filename f = txt "expires_at") then i64 (size f) else expires_at f)).
Proof.
  intros Hf. destruct (meta_string f Hf) as [H1 H2]. destruct (meta_uint f Hf) as (H3&H4&H5).
  unfold ParseMeta. rewrite H1, H2, H3, H4, H5. simpl. destruct Hf.
  repeat case_decide; by rewrite ?(i64_small (created_at f)), ?(i64_small (expires_at f)).
Qed.

Definition sample_file : DropFile := mkDropFile (txt "18f00aa1b2") (txt "notes 1.txt") 12 1700 5300.

Lemma meta_roundtrip_witness :
  ParseMeta (SerializeMeta sample_file) = Some sample_file.
Proof.
  apply (meta_roundtrip sample_file). split; simpl; [by repeat constructor|by repeat constructor|lia..].
Defined.

(** A file named [expires_at] expires at the time its size gives: at once. *)
Example expires_at_lost :
  ParseMeta (SerializeMeta (mkDropFile (txt "18f00aa1b2") (txt "expires_at") 12 1700 5300)) =
  Some (mkDropFile (txt "18f00aa1b2") (txt "expires_at") 12 1700 12).
Proof. vm_compute. reflexivity. Qed.

(** ** Percent encoding *)

Lemma UrlEncode_byte c :
  UrlEncode [c] = [c] ∧ c ≠ "%"%char ∨
  ∃ h l, UrlEncode [c] = ["%"%char; h; l] ∧ (HexValue h <? 0) || (HexValue l <? 0) = false ∧
    byte_of (Z.lor (Z.shiftl (HexValue h) 4) (HexValue l)) = c.
Proof.
  destruct c as [[] [] [] [] [] [] [] []];
    first [left; split; [reflexivity|discriminate]
          |right; eexists _, _; split; [reflexivity|split; reflexivity]].
Qed.

Lemma UrlDecode_UrlEncode_byte c rest :
  UrlDecode (UrlEncode [c] ++ rest) = (λ out, c :: out) <$> UrlDecode rest.
Proof.
  destruct (UrlEncode_byte c) as [[-> Hc]|(h&l&->&Hh&Hb)]; simpl.
  - rewrite decide_False by done. by destruct (UrlDecode rest).
  - rewrite Hh, Hb. by destruct (UrlDecode rest).
Qed.

Lemma UrlDecode_UrlEncode s : UrlDecode (UrlEncode s) = Some s.
Proof.
  induction s as [|c s IH]; [done|].
  assert (UrlEncode (c :: s) = UrlEncode [c] ++ UrlEncode s) as ->
    by (unfold UrlEncode; csimpl; by rewrite app_nil_r).
  by rewrite UrlDecode_UrlEncode_byte, IH.
Qed.

(** ** Static files *)

Lemma relative_of_names parts rel rel' :
  relative_of parts rel = Some rel' → Forall (λ n, slash ∉ n) parts →
  is_absolute rel = false → Forall plain (names rel) → (rel = [] ∨ names rel ≠ []) →
  is_absolute rel' = false ∧ Forall plain (names rel') ∧ (rel' = [] ∨ names rel' ≠ []).
Proof.
  revert rel. induction parts as [|n parts IH]; intros rel; simpl; [by intros [= <-]|].
  case_bool_decide as E1; [intros ? [_ ?]%Forall_cons; by apply IH|].
  case_bool_decide as E2; [intros ? [_ ?]%Forall_cons; by apply IH|]. simpl.
  case_bool_decide as E3; [done|]. intros Hr [Hn Hp]%Forall_cons Ha Hrel _.
  assert (plain n) as Hpn by (by split_and!). destruct (plain_names n Hpn) as [Hnn Han].
  eapply IH; [exact Hr|done| | |].
  - destruct rel as [|b rel]; [|by rewrite absolute_append]. unfold path_append. by rewrite Han.
  - rewrite names_append, Hnn by done. apply Forall_app. split; [done|]. by apply Forall_singleton.
  - right. rewrite names_append, Hnn by done. by intros [_ ?]%app_eq_nil.
Qed.

Lemma elements_of_relative p : is_absolute p = false → Forall (λ n, slash ∉ n) (elements_of p).
Proof.
  intros Ha. unfold elements_of. rewrite Ha. cbn [app]. apply Forall_app. split.
  - apply Forall_forall. intros n Hn. by apply names_free in Hn as [].
  - case_match; [|done]. apply Forall_singleton, not_elem_of_nil.
Qed.

Lemma drop_slashes_relative s : is_absolute (drop_slashes s) = false.
Proof.
  induction s as [|b s IH]; simpl; [done|]. case_decide; [done|].
  unfold is_absolute, starts_with. simpl. rewrite decide_False by done.
  apply bool_decide_eq_false. by intros [].
Qed.

(** A request for a static file never leaves the static root: whatever path is
    asked for, with whatever escapes, backslashes, dots and slashes, the file that
    is opened lies below the root, at the names of the path that was accepted. *)
Theorem static_confined cwd root raw rel :
  root ≠ [] → SafeStaticPath raw = Some rel →
  resolve cwd (path_append root rel) = resolve cwd root ++ names rel ∧
  names rel ≠ [] ∧ Forall plain (names rel).
Proof.
  intros Hroot. unfold SafeStaticPath. destruct (UrlDecode raw) as [d|]; simpl; [|done].
  set (d1 := drop_slashes _).
  assert (is_absolute (if bool_decide (d1 = []) then txt "index.html" else d1) = false) as Hd
    by (case_bool_decide; [done|apply drop_slashes_relative]).
  destruct (relative_of _ []) as [r|] eqn:E; simpl; [|done]. intros [= <-].
  apply relative_of_names in E as (Ha&Hp&Hne);
    [|by apply elements_of_relative|done|by constructor|by left].
  assert (is_absolute (if bool_decide (r = []) then txt "index.html" else r) = false ∧
    Forall plain (names (if bool_decide (r = []) then txt "index.html" else r)) ∧
    names (if bool_decide (r = []) then txt "index.html" else r) ≠ []) as (?&?&?).
  { clear Hd. case_bool_decide as Er; [|destruct Hne; [done|by split_and!]].
    assert (names (txt "index.html") = [txt "index.html"]) as -> by reflexivity.
    split_and!; [reflexivity|apply Forall_singleton|done].
    split_and!; try done. set_unfold. naive_solver. }
  split_and!; try done. by apply resolve_below.
Qed.

Lemma static_confined_witness :
  SafeStaticPath (txt "/%2e/css//app.css") = Some (txt "css/app.css") ∧
  resolve [] (path_append (txt "/srv/static") (txt "css/app.css")) =
    [txt "srv"; txt "static"; txt "css"; txt "app.css"].
Proof.
  assert (SafeStaticPath (txt "/%2e/css//app.css") = Some (txt "css/app.css")) as E by reflexivity.
  split; [exact E|].
  exact (proj1 (static_confined [] (txt "/srv/static") _ (txt "css/app.css") ltac:(done) E)).
Defined.

(** ** Identifiers *)

Lemma hex_of_spec fuel n acc : Forall (λ c, hex_char c = true) acc →
  Forall (λ c, hex_char c = true) (hex_of fuel n acc) ∧ (length acc ≤ length (hex_of fuel n acc))%nat.
Proof.
  revert n acc. induction fuel as [|fuel IH]; intros n acc Hacc; simpl; [done|].
  assert (hex_char (byte_of (if n mod 16 <? 10 then 48 + n mod 16 else 87 + n mod 16)) = true) as Hd.
  { pose proof (Z.mod_pos_bound n 16 ltac:(lia)). unfold hex_char, char_in. rewrite byte_val_of.
    change (byte_val "0") with 48. change (byte_val "9") with 57.
    change (byte_val "a") with 97. change (byte_val "f") with 102.
    destruct (Z.ltb_spec (n mod 16) 10); rewrite (Z.mod_small (_ + _)) by lia;
      apply orb_true_iff; [left|right]; apply andb_true_iff; split; apply Z.leb_le; lia. }
  set (d := byte_of _) in *. destruct (n <? 16); simpl; [split; [by constructor|lia]|].
  destruct (IH (n / 16) (d :: acc)) as [? Hl]; [by constructor|]. simpl in Hl. split; [done|lia].
Qed.

Lemma hex_of_length fuel n acc k : (k < fuel)%nat → 16 ^ Z.of_nat k ≤ n →
  (length acc + S k ≤ length (hex_of fuel n acc))%nat.
Proof.
  revert n acc k. induction fuel as [|fuel IH]; intros n acc k Hk Hn; [lia|]. simpl.
  set (acc' := _ :: acc). assert (length acc' = S (length acc)) as Hl by done.
  destruct (Z.ltb_spec n 16) as [Hs|Hs].
  - destruct k; [lia|]. rewrite Nat2Z.inj_succ, Z.pow_succ_r in Hn by lia.
    assert (0 < 16 ^ Z.of_nat k) by (apply Z.pow_pos_nonneg; lia). lia.
  - destruct k as [|k].
    + pose proof (IH (n / 16) acc' 0%nat). destruct fuel as [|fuel]; [simpl; lia|].
      assert (16 ^ Z.of_nat 0 ≤ n / 16) by (apply Z.div_le_lower_bound; simpl; lia). lia.
    + rewrite Nat2Z.inj_succ, Z.pow_succ_r in Hn by lia.
      pose proof (IH (n / 16) acc' k ltac:(lia) ltac:(apply Z.div_le_lower_bound; lia)). lia.
Qed.

(** An identifier made after 1970-01-04 consists of hexadecimal digits and passes
    [SafeId]. *)
Lemma GenerateId_safe now seq random : 16 ^ 7 ≤ now →
  Forall (λ c, hex_char c = true) (GenerateId now seq random) ∧
  SafeId (GenerateId now seq random) = true.
Proof.
  intros Hnow. unfold GenerateId. set (s := hex_of 16 now [] ++ _).
  assert (Forall (λ c, hex_char c = true) s) as Hs.
  { unfold s. rewrite !Forall_app. split_and!; by apply hex_of_spec. }
  pose proof (hex_of_length 16 now [] 7 ltac:(lia) Hnow) as Hl.
  assert (Forall (λ c, hex_char c = true) (take 32 s)) as Ht by (by apply Forall_take).
  split; [done|]. unfold SafeId. assert (8 ≤ zlen (take 32 s) ≤ 32) as Hz.
  { unfold zlen. rewrite length_take. unfold s. rewrite length_app. cbn [length] in Hl. lia. }
  rewrite (proj2 (Z.ltb_ge _ _)), (proj2 (Z.ltb_ge _ _)) by lia. simpl.
  apply forallb_forall. intros c Hc%list_elem_of_In. rewrite Forall_forall in Ht. apply Ht in Hc.
  revert Hc. by destruct c as [[] [] [] [] [] [] [] []].
Qed.
