(* ===== verification/DropStore.v ===== *)
(** * The store of the drop application

    [app/examples/web/dropapp/src/main.cpp], the part with effects: the directory of
    objects and the directory of records, uploads written with asynchronous
    requests, and the handlers of the upload route.

    A file is an inode; a path leads to one.  A descriptor is open on an inode, and
    a request the kernel has taken holds the inode too: closing the descriptor or
    removing the path does not stop it.  A request that is only prepared holds the
    number of the descriptor; [IoRing::Submit] passes it on when
    [submit_batch_size] are prepared.

    An upload is identified by the request that carries it (request identifiers
    come from a counter), a write event by its upload and a number.  What the
    operating system answers to [open], [rename], to preparing a request, to
    writing a record and to removing expired or deleted files is an argument (an
    upload that ends removes its temporary file with success).  Beside the members,
    [received] holds what the handler was given for each file identifier. *)

From S2P Require Import Prelude Text Paths HttpRequest Ring DropMeta.

#[local] Open Scope Z_scope.
#[local] Set Warnings "-clear-no-such-hyp".

(** ** Files *)

Record files := mkFiles { paths : gmap fspath nat; inodes : gmap nat bytes }.

Definition read_path (p : fspath) (F : files) : option bytes :=
  ino ← paths F !! p; inodes F !! ino.

(** [open] with [O_CREAT | O_TRUNC]. *)
Definition open_trunc (p : fspath) (F : files) : files * nat :=
  match paths F !! p with
  | Some ino => (mkFiles (paths F) (<[ino := []]> (inodes F)), ino)
  | None =>
    let ino := fresh (dom (inodes F)) in
    (mkFiles (<[p := ino]> (paths F)) (<[ino := []]> (inodes F)), ino)
  end.

(** [pwrite]: a gap before [off] reads as zeroes. *)
Definition overwrite (off : Z) (data content : bytes) : bytes :=
  ztake off (content ++ replicate (Z.to_nat off - length content) "000"%char) ++ data ++
  zdrop (off + zlen data) content.

Definition pwrite (ino : nat) (off : Z) (data : bytes) (F : files) : files :=
  mkFiles (paths F) (alter (overwrite off data) ino (inodes F)).

(** [std::filesystem::remove]: whether there was something to remove. *)
Definition remove (p : fspath) (F : files) : files * bool :=
  (mkFiles (delete p (paths F)) (inodes F), bool_decide (is_Some (paths F !! p))).

(** The overload with an error code: [can] says which removals the operating system
    performs; the third component is the error. *)
Definition try_remove (can : fspath → bool) (p : fspath) (F : files) : files * bool * bool :=
  if can p then (remove p F, false) else (F, false, true).

Definition rename (a b : fspath) (F : files) : option files :=
  ino ← paths F !! a; Some (mkFiles (<[b := ino]> (delete a (paths F))) (inodes F)).

(** ** The directories *)

Section Store.
Context (root_ : fspath).

(** Source: app/examples/web/dropapp/src/main.cpp:371-374, DropStore::DropStore. *)
Definition objects_ : fspath := path_append root_ (txt "objects").
Definition meta_ : fspath := path_append root_ (txt "meta").

(** Source: app/examples/web/dropapp/src/main.cpp:386-390, DropStore::TempObjectPath. *)
Definition TempObjectPath (i : bytes) : fspath := path_append objects_ i ++ txt ".part".

(** Source: app/examples/web/dropapp/src/main.cpp:392-394, DropStore::ObjectPath. *)
Definition ObjectPath (i : bytes) : fspath := path_append objects_ i.

(** Source: app/examples/web/dropapp/src/main.cpp:396-400, DropStore::MetaPath. *)
Definition MetaPath (i : bytes) : fspath := path_append meta_ i ++ txt ".json".

(** Source: app/examples/web/dropapp/src/main.cpp:402-410, DropStore::WriteMeta.
    [None]: the file cannot be opened.  The record is shorter than the buffer of the
    stream, so [<<] does not fail; what reaches the disk when the stream is closed
    are its first [n] bytes, all of them unless the disk is full. *)
Definition WriteMeta (answer : option nat) (file : DropFile) (F : files) : files * bool :=
  match answer with
  | None => (F, false)
  | Some n =>
    let '(F, ino) := open_trunc (MetaPath (id file)) F in
    (pwrite ino 0 (take n (SerializeMeta file)) F, true)
  end.

(** Source: app/examples/web/dropapp/src/main.cpp:155-163, ReadFile. *)
Definition ReadFile (p : fspath) (F : files) : bytes := default [] (read_path p F).

(** Source: app/examples/web/dropapp/src/main.cpp:412-421, DropStore::ReadMeta. *)
Definition ReadMeta (i : bytes) (F : files) : option DropFile :=
  if negb (SafeId i) then None else
  parsed ← ParseMeta (ReadFile (MetaPath i) F);
  if bool_decide (id parsed ≠ i) then None else Some parsed.

(** Source: app/examples/web/dropapp/src/main.cpp:429-438, DropStore::List.
    The loop over the directory; [entries] are its regular files in the order of the
    iteration, [now] the clock at each of them. *)
Fixpoint list_loop (entries : list (fspath * Z)) (F : files) : list DropFile :=
  match entries with
  | [] => []
  | (entry, now) :: entries =>
    let out := list_loop entries F in
    if bool_decide (extension entry ≠ txt ".json") then out else
    match ParseMeta (ReadFile entry F) with
    | Some parsed =>
      if (now <? expires_at parsed) && bool_decide (is_Some (paths F !! ObjectPath (id parsed)))
      then parsed :: out else out
    | None => out
    end
  end.

(** Insertion of a file into a list that is sorted by [created_at], latest first. *)
Fixpoint insert_latest (f : DropFile) (fs : list DropFile) : list DropFile :=
  match fs with
  | [] => [f]
  | g :: fs => if created_at f <? created_at g then g :: insert_latest f fs else f :: g :: fs
  end.

(** Source: app/examples/web/dropapp/src/main.cpp:423-443, DropStore::List.
    The order of files created in the same second is not specified. *)
Definition List (entries : list (fspath * Z)) (F : files) : list DropFile :=
  foldr insert_latest [] (list_loop entries F).

(** Source: app/examples/web/dropapp/src/main.cpp:445-455, DropStore::Remove. *)
Definition Remove (can : fspath → bool) (i : bytes) (F : files) : files * bool :=
  if negb (SafeId i) then (F, false) else
  let '(F, removed_object, ec1) := try_remove can (ObjectPath i) F in
  let '(F, removed_meta, ec2) := try_remove can (MetaPath i) F in
  (F, (removed_object || removed_meta) && negb ec1 && negb ec2).

(** Source: app/examples/web/dropapp/src/main.cpp:457-476, DropStore::CleanupExpired.
    The loop over the directory; [entries] are its regular files. *)
Fixpoint CleanupExpired (can : fspath → bool) (now : Z) (entries : list fspath) (F : files) : files :=
  match entries with
  | [] => F
  | entry :: entries =>
    if bool_decide (extension entry ≠ txt ".json") then CleanupExpired can now entries F else
    match ParseMeta (ReadFile entry F) with
    | Some parsed =>
      if now <? expires_at parsed then CleanupExpired can now entries F else
      let '(F, _, _) := try_remove can (ObjectPath (id parsed)) F in
      let '(F, _, _) := try_remove can entry F in
      CleanupExpired can now entries F
    | None => CleanupExpired can now entries F
    end
  end.

(** ** Uploads *)

(** Source: app/examples/web/dropapp/src/main.cpp:55-59, UploadState::PendingWrite. *)
Record PendingWrite := mkPendingWrite { buffer : bytes; written : Z; offset : Z }.

(** Source: app/examples/web/dropapp/src/main.cpp:54-73, UploadState.
    With the members of [AsyncUploadState]: whether there is a deferred response and
    whether [cleanup_] has not been called; [ring_] and [commit_] are set by
    [Start]. *)
Record upload := mkUpload {
  fd : Z;
  temp_path : fspath;
  final_path : fspath;
  meta : DropFile;
  expected_bytes : Z;
  submitted_bytes : Z;
  written_bytes : Z;
  failed : bool;
  aborted : bool;
  request_complete : bool;
  finished : bool;
  error : bytes;
  deferred_ : bool;
  pending_ : gmap nat PendingWrite;
  cleanup_ : bool;
}.

Definition set_fd d u := mkUpload d (temp_path u) (final_path u) (meta u) (expected_bytes u)
  (submitted_bytes u) (written_bytes u) (failed u) (aborted u) (request_complete u) (finished u)
  (error u) (deferred_ u) (pending_ u) (cleanup_ u).
Definition set_meta m u := mkUpload (fd u) (temp_path u) (final_path u) m (expected_bytes u)
  (submitted_bytes u) (written_bytes u) (failed u) (aborted u) (request_complete u) (finished u)
  (error u) (deferred_ u) (pending_ u) (cleanup_ u).
Definition set_bytes s n u := mkUpload (fd u) (temp_path u) (final_path u) (meta u) (expected_bytes u)
  s n (failed u) (aborted u) (request_complete u) (finished u)
  (error u) (deferred_ u) (pending_ u) (cleanup_ u).
Definition set_failed e u := mkUpload (fd u) (temp_path u) (final_path u) (meta u) (expected_bytes u)
  (submitted_bytes u) (written_bytes u) true (aborted u) (request_complete u) (finished u)
  e (deferred_ u) (pending_ u) (cleanup_ u).
Definition set_aborted u := mkUpload (fd u) (temp_path u) (final_path u) (meta u) (expected_bytes u)
  (submitted_bytes u) (written_bytes u) (failed u) true (request_complete u) (finished u)
  (error u) (deferred_ u) (pending_ u) (cleanup_ u).
Definition set_complete u := mkUpload (fd u) (temp_path u) (final_path u) (meta u) (expected_bytes u)
  (submitted_bytes u) (written_bytes u) (failed u) (aborted u) true (finished u)
  (error u) true (pending_ u) (cleanup_ u).
Definition set_finished u := mkUpload (fd u) (temp_path u) (final_path u) (meta u) (expected_bytes u)
  (submitted_bytes u) (written_bytes u) (failed u) (aborted u) (request_complete u) true
  (error u) (deferred_ u) (pending_ u) (cleanup_ u).
Definition set_deferred b u := mkUpload (fd u) (temp_path u) (final_path u) (meta u) (expected_bytes u)
  (submitted_bytes u) (written_bytes u) (failed u) (aborted u) (request_complete u) (finished u)
  (error u) b (pending_ u) (cleanup_ u).
Definition set_pending m u := mkUpload (fd u) (temp_path u) (final_path u) (meta u) (expected_bytes u)
  (submitted_bytes u) (written_bytes u) (failed u) (aborted u) (request_complete u) (finished u)
  (error u) (deferred_ u) m (cleanup_ u).
Definition set_cleanup b u := mkUpload (fd u) (temp_path u) (final_path u) (meta u) (expected_bytes u)
  (submitted_bytes u) (written_bytes u) (failed u) (aborted u) (request_complete u) (finished u)
  (error u) (deferred_ u) (pending_ u) b.

Inductive output :=
| Reply (r : bytes) (status : Z) (body : bytes)
| CompleteDeferred (r : bytes)
| AbortDeferred (r : bytes).

Abbreviation event := (bytes * nat)%type.

(** The objects, [uploads_] of the registry (the requests in it), open descriptors,
    requests that are prepared and requests the kernel has taken (which fail if the
    descriptor was not open). *)
Record world := mkWorld {
  disk : files;
  fds : gmap Z nat;
  sq : list (event * (Z * Z * bytes));
  pending_submissions_ : Z;
  kernel : gmap event (option nat * Z * bytes);
  next_event : nat;
  objs : gmap bytes upload;
  uploads_ : gset bytes;
  log : list output;
  received : gmap bytes bytes;
}.

Definition set_disk F w := mkWorld F (fds w) (sq w) (pending_submissions_ w) (kernel w)
  (next_event w) (objs w) (uploads_ w) (log w) (received w).
Definition set_fds m w := mkWorld (disk w) m (sq w) (pending_submissions_ w) (kernel w)
  (next_event w) (objs w) (uploads_ w) (log w) (received w).
Definition set_ring q n k w := mkWorld (disk w) (fds w) q n k
  (next_event w) (objs w) (uploads_ w) (log w) (received w).
Definition set_next n w := mkWorld (disk w) (fds w) (sq w) (pending_submissions_ w) (kernel w)
  n (objs w) (uploads_ w) (log w) (received w).
Definition set_obj r u w := mkWorld (disk w) (fds w) (sq w) (pending_submissions_ w) (kernel w)
  (next_event w) (<[r := u]> (objs w)) (uploads_ w) (log w) (received w).
Definition set_uploads s w := mkWorld (disk w) (fds w) (sq w) (pending_submissions_ w) (kernel w)
  (next_event w) (objs w) s (log w) (received w).
Definition emit o w := mkWorld (disk w) (fds w) (sq w) (pending_submissions_ w) (kernel w)
  (next_event w) (objs w) (uploads_ w) (log w ++ [o]) (received w).
Definition set_received m w := mkWorld (disk w) (fds w) (sq w) (pending_submissions_ w) (kernel w)
  (next_event w) (objs w) (uploads_ w) (log w) m.

(** ** AsyncUploadState

    The methods of the object of request [r]; [u] is the object. *)

Context (submit_batch_size_ : Z).

(** The kernel takes a request: from now on it holds the file. *)
Definition take_request (m : gmap Z nat) (k : gmap event (option nat * Z * bytes))
    (x : event * (Z * Z * bytes)) : gmap event (option nat * Z * bytes) :=
  let '(ev, (d, off, data)) := x in <[ev := (m !! d, off, data)]> k.

Definition FlushSubmissions (w : world) : world :=
  if pending_submissions_ w =? 0 then w else
  set_ring [] 0 (foldl (take_request (fds w)) (kernel w) (sq w)) w.

Definition Submit (w : world) : world :=
  let n := u32 (pending_submissions_ w + 1) in
  let w := set_ring (sq w) n (kernel w) w in
  if n <? submit_batch_size_ then w else FlushSubmissions w.

Record answers := mkAnswers { prep_ok : bool; rename_ok : bool; meta_answer : option nat }.

(** Source: app/examples/web/dropapp/src/main.cpp:682-687, AsyncUploadState::Close. *)
Definition Close (u : upload) (w : world) : upload * world :=
  if 0 <=? fd u then (set_fd (-1) u, set_fds (delete (fd u) (fds w)) w) else (u, w).

(** Source: app/examples/web/dropapp/src/main.cpp:711-720, UploadRegistry::Take. *)
Definition Take (r : bytes) (w : world) : world := set_uploads (uploads_ w ∖ {[r]}) w.

(** Source: app/examples/web/dropapp/src/main.cpp:675-680, AsyncUploadState::Cleanup. *)
Definition Cleanup (r : bytes) (u : upload) (w : world) : upload * world :=
  if cleanup_ u then (set_cleanup false u, Take r w) else (u, w).

(** Source: app/examples/web/dropapp/src/main.cpp:655-665, AsyncUploadState::SendText. *)
Definition SendText (r : bytes) (status : Z) (body : bytes) (u : upload) (w : world) : world :=
  if deferred_ u then emit (Reply r status body) w else w.

(** Source: app/examples/web/dropapp/src/main.cpp:667-673, AsyncUploadState::FinishDeferredResponse. *)
Definition FinishDeferredResponse (r : bytes) (u : upload) (w : world) : upload * world :=
  let '(u, w) := Cleanup r u w in
  if deferred_ u then (set_deferred false u, emit (CompleteDeferred r) w) else (u, w).

(** Source: app/examples/web/dropapp/src/main.cpp:602-653, AsyncUploadState::TryFinish. *)
Definition TryFinish (a : answers) (r : bytes) (u : upload) (w : world) : upload * world :=
  if finished u then (u, w) else
  if aborted u then
    if bool_decide (pending_ u = ∅) then Cleanup r (set_finished u) w else (u, w)
  else if negb (request_complete u) || negb (deferred_ u) || bool_decide (pending_ u ≠ ∅)
  then (u, w)
  else
  let '(u, w) := Close (set_finished u) w in
  if failed u ||
     (negb (expected_bytes u =? 0) && negb (submitted_bytes u =? expected_bytes u)) ||
     negb (written_bytes u =? submitted_bytes u)
  then
    let w := set_disk (remove (temp_path u) (disk w)).1 w in
    let w := SendText r 500 (if failed u then error u else txt "short upload") u w in
    FinishDeferredResponse r u w
  else
  match (if rename_ok a then rename (temp_path u) (final_path u) (disk w) else None) with
  | None =>
    let w := set_disk (remove (temp_path u) (disk w)).1 w in
    FinishDeferredResponse r u (SendText r 500 (txt "rename failed") u w)
  | Some F =>
    let u := set_meta (mkDropFile (id (meta u)) (filename (meta u)) (written_bytes u)
                         (created_at (meta u)) (expires_at (meta u))) u in
    let '(F, ok) := WriteMeta (meta_answer a) (meta u) F in
    let w := set_disk F w in
    if negb ok then
      let w := set_disk (remove (final_path u) (disk w)).1 w in
      FinishDeferredResponse r u (SendText r 500 (txt "metadata write failed") u w)
    else FinishDeferredResponse r u (emit (Reply r 201 (MetaJsonForApi (meta u))) w)
  end.

(** Source: app/examples/web/dropapp/src/main.cpp:583-600, AsyncUploadState::SubmitPendingWrite.
    [PrepWrite] puts the request into the submission queue. *)
Definition SubmitPendingWrite (a : answers) (r : bytes) (n : nat) (op : PendingWrite)
    (u : upload) (w : world) : upload * world * bool :=
  if fd u <? 0 then (set_failed (txt "io_uring unavailable") u, w, false) else
  let remaining := zlen (buffer op) - written op in
  let data := ztake (u32 remaining) (zdrop (written op) (buffer op)) in
  if negb (prep_ok a) then (set_failed (txt "submit write failed") u, w, false) else
  let w := set_ring (sq w ++ [((r, n), (fd u, u64 (offset op + written op), data))])
             (pending_submissions_ w) (kernel w) w in
  (u, Submit w, true).

(** Source: app/examples/web/dropapp/src/main.cpp:502-522, AsyncUploadState::SubmitChunk. *)
Definition SubmitChunk (a : answers) (r : bytes) (chunk : bytes) (u : upload) (w : world)
    : upload * world :=
  if failed u || finished u then (u, w) else
  let op := mkPendingWrite chunk 0 (submitted_bytes u) in
  let n := next_event w in
  let u := set_bytes (u64 (submitted_bytes u + zlen chunk)) (written_bytes u) u in
  let u := set_pending (<[n := op]> (pending_ u)) u in
  let '(u, w, ok) := SubmitPendingWrite a r n op u (set_next (S n) w) in
  if negb ok then TryFinish a r (set_pending (delete n (pending_ u)) u) w else (u, w).

(** Source: app/examples/web/dropapp/src/main.cpp:524-528, AsyncUploadState::MarkRequestComplete. *)
Definition MarkRequestComplete (a : answers) (r : bytes) (u : upload) (w : world)
    : upload * world := TryFinish a r (set_complete u) w.

(** Source: app/examples/web/dropapp/src/main.cpp:530-544, AsyncUploadState::Abort. *)
Definition Abort (r : bytes) (u : upload) (w : world) : upload * world :=
  if finished u || aborted u then (u, w) else
  let '(u, w) := Close (set_aborted u) w in
  let w := set_disk (remove (temp_path u) (disk w)).1 w in
  let w := if deferred_ u then emit (AbortDeferred r) w else w in
  if bool_decide (pending_ u = ∅) then Cleanup r (set_finished u) w else (u, w).

(** Source: app/examples/web/dropapp/src/main.cpp:547-580, AsyncUploadState::OnWrite. *)
Definition OnWrite (a : answers) (r : bytes) (n : nat) (result : Z) (u : upload) (w : world)
    : upload * world * DispatchResult :=
  match pending_ u !! n with
  | None => (u, w, kComplete)
  | Some op =>
    let erase u := set_pending (delete n (pending_ u)) u in
    if aborted u then (TryFinish a r (erase u) w, kComplete) else
    if result <=? 0 then
      (TryFinish a r (erase (set_failed (txt "async write failed") u)) w, kComplete)
    else
    let op := mkPendingWrite (buffer op) (written op + result) (offset op) in
    let u := set_pending (<[n := op]> (pending_ u)) u in
    if written op <? zlen (buffer op) then
      let '(u, w, ok) := SubmitPendingWrite a r n op u w in
      if negb ok then (TryFinish a r (erase u) w, kComplete) else (u, w, kPending)
    else
      let u := set_bytes (submitted_bytes u) (u64 (written_bytes u + zlen (buffer op))) u in
      (TryFinish a r (erase u) w, kComplete)
  end.

(** ** The route *)

(** Source: app/examples/web/dropapp/src/main.cpp:771-778, Authorized. *)
Definition Authorized (header token : bytes) : bool :=
  if bool_decide (token = []) then true else bool_decide (header = txt "Bearer " ++ token).

(** What [on_headers] finds: the request, the clocks, the random number and the
    counter for the identifier, the directory, and the answer of [open]. *)
Record headers_in := mkHeaders {
  authorization : bytes;
  content_length : Z;
  get_header : bytes → bytes;
  can_remove : fspath → bool;
  entries : list fspath;
  now_cleanup : Z;
  now_ms : Z;
  seq_no : Z;
  random : Z;
  now : Z;
  open_answer : Z;
}.

Context (auth_token : bytes) (max_upload_bytes ttl_seconds : Z).

(** Source: app/examples/web/dropapp/src/main.cpp:1038-1082, main.
    [on_headers] of the upload route. *)
Definition on_headers (r : bytes) (h : headers_in) (w : world) : world * bool :=
  let w := set_disk (CleanupExpired (can_remove h) (now_cleanup h) (entries h) (disk w)) w in
  if negb (Authorized (authorization h) auth_token) then
    (emit (Reply r 401 (txt "Unauthorized")) w, false) else
  if max_upload_bytes <? content_length h then
    (emit (Reply r 413 (txt "Payload Too Large")) w, false) else
  let filename := FilenameFromHeaders (get_header h) in
  let i := GenerateId (now_ms h) (seq_no h) (random h) in
  if open_answer h <? 0 then (emit (Reply r 500 (txt "open failed")) w, false) else
  let '(F, ino) := open_trunc (TempObjectPath i) (disk w) in
  let m := mkDropFile i filename (content_length h) (now h)
    (i64 (now h + i64 ttl_seconds)) in
  let u := mkUpload (open_answer h) (TempObjectPath i) (ObjectPath i) m (content_length h) 0 0
             false false false false [] false ∅ true in
  let w := set_obj r u (set_fds (<[open_answer h := ino]> (fds w)) (set_disk F w)) in
  (set_uploads ({[r]} ∪ uploads_ w) w, true).

(** The object of a request in the registry: [UploadRegistry::Get]. *)
Definition with_state (r : bytes) (f : upload → world → upload * world) (w : world) : world :=
  if decide (r ∈ uploads_ w) then
    match objs w !! r with
    | Some u => let '(u, w) := f u w in set_obj r u w
    | None => w
    end
  else w.

(** Source: app/examples/web/dropapp/src/main.cpp:1083-1086, main.
    [on_body]. *)
Definition on_body (a : answers) (r chunk : bytes) : world → world :=
  with_state r (SubmitChunk a r chunk).

(** Source: app/examples/web/dropapp/src/main.cpp:1087-1093, main.
    [on_complete]. *)
Definition on_complete (a : answers) (r : bytes) : world → world :=
  with_state r (MarkRequestComplete a r).

(** Source: app/examples/web/dropapp/src/main.cpp:1094-1099, main.
    [on_abort]. *)
Definition on_abort (r : bytes) : world → world := with_state r (Abort r).

(** ** Runs

    [received] grows with what the handler is given for a request that has an
    upload. *)
Definition note_chunk (r chunk : bytes) (w : world) : world :=
  if decide (r ∈ uploads_ w) then
    match objs w !! r with
    | Some u => set_received (alter (λ body, body ++ chunk) (id (meta u)) (received w)) w
    | None => w
    end
  else w.

Definition note_begin (r : bytes) (w : world) : world :=
  match objs w !! r with
  | Some u => set_received (<[id (meta u) := []]> (received w)) w
  | None => w
  end.

(** The replies to a request. *)
Definition reply_to (r : bytes) (o : output) : option (Z * bytes) :=
  match o with Reply r' st b => if decide (r' = r) then Some (st, b) else None | _ => None end.

Definition replies (r : bytes) (l : list output) : list (Z * bytes) := omap (reply_to r) l.

(** The kernel ends a request: what it has written, and the completion. *)
Definition io_done (a : answers) (r : bytes) (n : nat) (result : Z) (w : world) : option world :=
  '(oi, off, data) ← kernel w !! (r, n);
  u ← objs w !! r;
  let F := match oi with
           | Some ino => if 0 <? result then pwrite ino off (ztake result data) (disk w) else disk w
           | None => disk w
           end in
  let w := set_ring (sq w) (pending_submissions_ w) (delete (r, n) (kernel w)) (set_disk F w) in
  let '(u, w, _) := OnWrite a r n result u w in Some (set_obj r u w).

(** An entry of the directory of records. *)
Definition meta_entry (e : fspath) : Prop := ∃ name, (slash ∉ name) ∧ e = path_append meta_ name.

(** The uploads of a process.  The parser bounds a body by a 32-bit limit, calls
    [on_body] before [on_complete] only and [on_complete] once; an identifier has not
    been used before. *)
Inductive step : world → world → Prop :=
| s_headers r h w :
    Forall meta_entry (entries h) →
    objs w !! r = None → replies r (log w) = [] → fds w !! open_answer h = None →
    16 ^ 7 ≤ now_ms h → received w !! GenerateId (now_ms h) (seq_no h) (random h) = None →
    step w (note_begin r (on_headers r h w).1)
| s_body a r chunk w :
    (∀ u body, objs w !! r = Some u → received w !! id (meta u) = Some body →
       request_complete u = false ∧ zlen (body ++ chunk) < 2 ^ 32) →
    step w (on_body a r chunk (note_chunk r chunk w))
| s_complete a r w :
    (∀ u, objs w !! r = Some u → request_complete u = false) → step w (on_complete a r w)
| s_abort r w : step w (on_abort r w)
| s_io a r n result oi off data w w' :
    kernel w !! (r, n) = Some (oi, off, data) → result ≤ zlen data → (oi = None → result ≤ 0) →
    io_done a r n result w = Some w' → step w w'
| s_flush w : step w (FlushSubmissions w)
| s_cleanup can t es w : Forall meta_entry es →
    step w (set_disk (CleanupExpired can t es (disk w)) w)
| s_remove can i w : step w (set_disk (Remove can i (disk w)).1 w).
End Store.

Definition empty_world : world := mkWorld (mkFiles ∅ ∅) ∅ [] 0 ∅ 0 ∅ ∅ [] ∅.
