(* ===== verification/DropStoreProofs.v ===== *)
(** * Uploads to the drop application are exact

    The invariant of DropStore.v and its consequences: when requests are handed to
    the kernel at once (a [submit_batch_size] of 1), a file appears under its final
    name only with exactly the bytes the request carried, each request is answered
    at most once and with what happened, and neither descriptors nor temporary files
    are left behind. *)

From S2P Require Import Prelude Text Paths HttpRequest Ring DropMeta DropStore.

#[local] Open Scope Z_scope.
#[local] Set Warnings "-clear-no-such-hyp".

(** ** Paths of the store *)

Definition base (p : fspath) : fspath :=
  if bool_decide (p = []) || ends_with [slash] p then p else p ++ [slash].

Lemma path_append_base p q : is_absolute q = false → path_append p q = base p ++ q.
Proof.
  intros Hq. unfold path_append, base. rewrite Hq.
  destruct (bool_decide (p = []) || ends_with [slash] p); [done|]. by rewrite <-app_assoc.
Qed.

Abbreviation hex i := (Forall (λ c, hex_char c = true) i).

Lemma hex_absolute i : hex i → is_absolute i = false.
Proof.
  destruct i as [|b i]; [done|]. intros [Hb _]%Forall_cons.
  unfold is_absolute, starts_with. simpl. rewrite decide_False by (by intros <-).
  apply bool_decide_eq_false. by intros [].
Qed.

Lemma hex_no_dot i : hex i → ("."%char : byte) ∉ i.
Proof. intros Hi Hd. rewrite Forall_forall in Hi. by apply Hi in Hd. Qed.

(** ** Records that are cut short *)

Lemma read_string_cut i rest m out x : hex i →
  read_string (take m (i ++ dq :: rest)) out = Some x → x = out ++ i.
Proof.
  intros Hi. revert m out. induction Hi as [|c i Hc Hi IH]; intros [|m] out; try done.
  - simpl. intros [= <-]. by rewrite app_nil_r.
  - simpl. rewrite (decide_False (P := c = dq)) by (by intros ->).
    destruct (take m (i ++ dq :: rest)) as [|e l] eqn:E; [by simpl|].
    rewrite (decide_False (P := c = backslash)) by (by intros ->).
    rewrite <-E. intros ->%IH. by rewrite <-app_assoc.
Qed.

Lemma ParseMeta_cut n file f : hex (id file) →
  ParseMeta (take n (SerializeMeta file)) = Some f → id f = id file.
Proof.
  intros Hh. assert (∃ rest, SerializeMeta file = [ "{"%char; dq ] ++ txt "id" ++ [dq; ":"%char; dq] ++
    id file ++ dq :: rest) as [rest ->].
  { eexists. unfold SerializeMeta, string_field, field, needle.
    rewrite (proj1 (clean_spec _ (hex_clean _ Hh))). rewrite <-!app_assoc. simpl. reflexivity. }
  unfold ParseMeta. destruct (ExtractJsonString _ (txt "id")) as [i|] eqn:E; [|done]. intros Hf.
  assert (id f = i) as ->. { apply bind_Some in Hf as (?&[= <-]&Hf). do 4 apply bind_Some in Hf as (?&_&Hf). by injection Hf as <-. }
  do 7 (destruct n as [|n]; [done|]). by apply read_string_cut in E.
Qed.

Section Proofs.
Context (root_ : fspath) (batch : Z) (auth_token : bytes) (max_upload_bytes ttl_seconds : Z).
Hypothesis batch_one : batch ≤ 1.

Abbreviation TempObjectPath := (TempObjectPath root_).
Abbreviation ObjectPath := (ObjectPath root_).
Abbreviation MetaPath := (MetaPath root_).

Lemma paths_shape' i : is_absolute i = false →
  TempObjectPath i = base root_ ++ txt "objects/" ++ i ++ txt ".part" ∧
  ObjectPath i = base root_ ++ txt "objects/" ++ i ∧
  MetaPath i = base root_ ++ txt "meta/" ++ i ++ txt ".json".
Proof.
  intros Hi. unfold DropStore.TempObjectPath, DropStore.ObjectPath, DropStore.MetaPath,
    objects_, meta_.
  assert (∀ d : bytes, is_absolute d = false → d ≠ [] → ends_with [slash] d = false →
    base (path_append root_ d) = base root_ ++ d ++ [slash]) as Hb.
  { intros d Ha Hd He. rewrite path_append_base by done. unfold base at 1.
    rewrite bool_decide_false by (by intros [_ ?]%app_eq_nil). simpl.
    replace (ends_with [slash] (base root_ ++ d)) with false; [by rewrite <-app_assoc|].
    destruct (ends_with [slash] (base root_ ++ d)) eqn:E; [|done].
    apply ends_with_slash in E as [q Hq]. exfalso.
    destruct d as [|c d _] using rev_ind; [done|]. rewrite app_assoc in Hq.
    apply app_inj_tail in Hq as [_ ->]. 
    assert (ends_with [slash] (d ++ [slash]) = true) by (apply ends_with_slash; eauto). congruence. }
  rewrite !(path_append_base _ i), !Hb by done. by rewrite <-!app_assoc.
Qed.

Lemma paths_shape i : hex i →
  TempObjectPath i = base root_ ++ txt "objects/" ++ i ++ txt ".part" ∧
  ObjectPath i = base root_ ++ txt "objects/" ++ i ∧
  MetaPath i = base root_ ++ txt "meta/" ++ i ++ txt ".json".
Proof. intros ?%hex_absolute. by apply paths_shape'. Qed.

Lemma Temp_inj i j : hex i → hex j → TempObjectPath i = TempObjectPath j → i = j.
Proof.
  intros Hi Hj. destruct (paths_shape i Hi) as (->&_). destruct (paths_shape j Hj) as (->&_).
  intros E%app_inv_head%app_inv_head. by apply app_inv_tail in E.
Qed.

Lemma Object_inj i j : hex i → hex j → ObjectPath i = ObjectPath j → i = j.
Proof.
  intros Hi Hj. destruct (paths_shape i Hi) as (_&->&_). destruct (paths_shape j Hj) as (_&->&_).
  by intros E%app_inv_head%app_inv_head.
Qed.

Lemma Temp_Object i j : hex i → hex j → TempObjectPath i ≠ ObjectPath j.
Proof.
  intros Hi Hj. destruct (paths_shape i Hi) as (->&_). destruct (paths_shape j Hj) as (_&->&_).
  intros E%app_inv_head%app_inv_head. apply (hex_no_dot j Hj). rewrite <-E. set_solver.
Qed.

Lemma Meta_other i j : hex i → hex j → MetaPath i ≠ TempObjectPath j ∧ MetaPath i ≠ ObjectPath j.
Proof.
  intros Hi Hj. destruct (paths_shape i Hi) as (_&_&->).
  destruct (paths_shape j Hj) as (->&->&_). split; by intros E%app_inv_head.
Qed.

(** ** The invariant *)

Definition live (u : upload) : bool := negb (aborted u) && negb (finished u).

Definition pending_sum (m : gmap nat PendingWrite) : Z :=
  map_fold (λ _ op n, zlen (buffer op) + n) 0 m.

(** The record of a write is within the body. *)
Definition op_ok (body : bytes) (op : PendingWrite) : Prop :=
  0 ≤ written op ≤ zlen (buffer op) ∧ 0 ≤ offset op ∧ offset op + zlen (buffer op) ≤ zlen body.

(** The file of an upload without an error: outside the parts that are still to be
    written it agrees with the body. *)
Record content_ok (body : bytes) (u : upload) (c : bytes) : Prop := {
  c_submitted : submitted_bytes u = zlen body;
  c_length : zlen c ≤ zlen body;
  c_ops n op : pending_ u !! n = Some op → op_ok body op ∧
    buffer op = ztake (zlen (buffer op)) (zdrop (offset op) body);
  c_cover k : (k < length body)%nat → c !! k = body !! k ∨
    ∃ n op, pending_ u !! n = Some op ∧
      offset op + written op ≤ Z.of_nat k < offset op + zlen (buffer op);
  c_sum : written_bytes u + pending_sum (pending_ u) = zlen body;
  c_written : 0 ≤ written_bytes u;
}.

Inductive outcome (body : bytes) (u : upload) : Z → bytes → Prop :=
| created :
    failed u = false → size (meta u) = zlen body →
    (expected_bytes u = 0 ∨ expected_bytes u = zlen body) →
    outcome body u 201 (MetaJsonForApi (meta u))
| write_failed : failed u = true → outcome body u 500 (error u)
| short_upload :
    failed u = false → expected_bytes u ≠ 0 → expected_bytes u ≠ zlen body →
    outcome body u 500 (txt "short upload")
| not_stored b :
    failed u = false → b = txt "rename failed" ∨ b = txt "metadata write failed" →
    outcome body u 500 b.

Record obj_ok (body : bytes) (F : files) (reps : list (Z * bytes)) (ino : nat) (u : upload) : Prop := {
  o_temp : temp_path u = TempObjectPath (id (meta u));
  o_final : final_path u = ObjectPath (id (meta u));
  o_hex : hex (id (meta u));
  o_live : live u = true → 0 ≤ fd u ∧ paths F !! temp_path u = Some ino;
  o_dead : live u = false → fd u = -1;
  o_finished : finished u = true → pending_ u = ∅;
  o_cleanup : cleanup_ u = negb (finished u);
  o_deferred : finished u = false → deferred_ u = request_complete u;
  o_inode : is_Some (inodes F !! ino);
  o_content c : live u = true → failed u = false → inodes F !! ino = Some c → content_ok body u c;
  o_silent : finished u = false ∨ aborted u = true → reps = [];
  o_done : finished u = true → aborted u = false → request_complete u = true ∧
    ∃ st b, reps = [(st, b)] ∧ outcome body u st b;
  o_small : zlen body < 2 ^ 32;
  o_ops n op : pending_ u !! n = Some op → op_ok body op;
}.

(** The file under the final path: exactly the body. *)
Definition published (body : bytes) (F : files) (reps : list (Z * bytes)) (ino : nat) (u : upload)
    : Prop :=
  finished u = true ∧ aborted u = false ∧ inodes F !! ino = Some body ∧
  reps = [(201, MetaJsonForApi (meta u))].

Definition owner (g : gmap bytes nat) (w : world) (p : fspath) (ino : nat) : Prop :=
  ∃ r u body, objs w !! r = Some u ∧ g !! r = Some ino ∧ received w !! id (meta u) = Some body ∧
    (p = temp_path u ∧ live u = true ∨
     p = final_path u ∧ published body (disk w) (replies r (log w)) ino u).

(** The text of a record, of which the end may be missing. *)
Definition meta_text (c : bytes) : Prop :=
  ∃ n file, hex (id file) ∧ c = take n (SerializeMeta file).

(** The request of an event, from the record of the write. *)
Definition request_of (ino : nat) (op : PendingWrite) : option nat * Z * bytes :=
  (Some ino, offset op + written op, zdrop (written op) (buffer op)).

Record Core (g : gmap bytes nat) (w : world) : Prop := {
  i_sq : sq w = [] ∧ pending_submissions_ w = 0;
  i_dom r : is_Some (g !! r) ↔ is_Some (objs w !! r);
  i_inj r r' ino : g !! r = Some ino → g !! r' = Some ino → r = r';
  i_ids r r' u u' : objs w !! r = Some u → objs w !! r' = Some u' →
    id (meta u) = id (meta u') → r = r';
  i_obj r u ino : objs w !! r = Some u → g !! r = Some ino →
    ∃ body, received w !! id (meta u) = Some body ∧
      obj_ok body (disk w) (replies r (log w)) ino u;
  i_kernel r n : kernel w !! (r, n) =
    (u ← objs w !! r; op ← pending_ u !! n; ino ← g !! r; Some (request_of ino op));
  i_reg r : r ∈ uploads_ w ↔ ∃ u, objs w !! r = Some u ∧ finished u = false;
  i_fds d ino : fds w !! d = Some ino ↔
    ∃ r u, objs w !! r = Some u ∧ fd u = d ∧ 0 ≤ d ∧ g !! r = Some ino;
  i_paths p ino : paths (disk w) !! p = Some ino → is_Some (inodes (disk w) !! ino) ∧
    (owner g w p ino ∨ (∃ i, hex i ∧ p = MetaPath i) ∧ ∀ r, g !! r ≠ Some ino);
  i_next r u n : objs w !! r = Some u → is_Some (pending_ u !! n) → (n < next_event w)%nat;
  i_received i : is_Some (received w !! i) → ∃ r u, objs w !! r = Some u ∧ id (meta u) = i;
  i_meta ino c : (∀ r, g !! r ≠ Some ino) → inodes (disk w) !! ino = Some c → meta_text c;
}.

(** An upload whose request is over waits for its writes only. *)
Definition idle_ok (u : upload) : Prop :=
  finished u = false → request_complete u = true ∨ aborted u = true → pending_ u ≠ ∅.

Definition Inv (g : gmap bytes nat) (w : world) : Prop :=
  Core g w ∧ ∀ r u, objs w !! r = Some u → idle_ok u.

(** ** Updates of one upload *)

Lemma owner_mono g w w' p ino :
  (∀ r u, objs w !! r = Some u → g !! r = Some ino →
     ∃ u', objs w' !! r = Some u' ∧ id (meta u') = id (meta u) ∧ temp_path u' = temp_path u ∧
       final_path u' = final_path u ∧
       (p = temp_path u → live u = true → live u' = true ∧ is_Some (received w' !! id (meta u))) ∧
       (∀ body, received w !! id (meta u) = Some body →
          p = final_path u → published body (disk w) (replies r (log w)) ino u →
          received w' !! id (meta u) = Some body ∧
          published body (disk w') (replies r (log w')) ino u')) →
  owner g w p ino → owner g w' p ino.
Proof.
  intros Hmono (r&u&body&Hu&Hg&Hb&Hp). destruct (Hmono r u Hu Hg) as (u'&Hu'&Hid&Ht&Hf&Hl&Hpub).
  destruct Hp as [[Hp Hlv]|[Hp Hpb]].
  - destruct (Hl Hp Hlv) as [? [body' ?]]. exists r, u', body'. rewrite Hid, Ht. split_and!; auto.
  - destruct (Hpub body Hb Hp Hpb). exists r, u', body. rewrite Hid, Hf. split_and!; auto.
Qed.

(** What stays of the world when one upload changes and goes on. *)
Record same_world (r : bytes) (ino : nat) (i : bytes) (w w' : world) : Prop := {
  s_ring : sq w' = [] ∧ pending_submissions_ w' = 0;
  s_objs : objs w' = objs w;
  s_uploads : uploads_ w' = uploads_ w;
  s_fds : fds w' = fds w;
  s_log : log w' = log w;
  s_paths : paths (disk w') = paths (disk w);
  s_inodes ino' : ino' ≠ ino → inodes (disk w') !! ino' = inodes (disk w) !! ino';
  s_received i' : i' ≠ i → received w' !! i' = received w !! i';
  s_kernel r' n : r' ≠ r → kernel w' !! (r', n) = kernel w !! (r', n);
  s_next : (next_event w ≤ next_event w')%nat;
}.

(** What stays of the upload. *)
Record same_upload (u u' : upload) : Prop := {
  su_id : id (meta u') = id (meta u);
  su_temp : temp_path u' = temp_path u;
  su_final : final_path u' = final_path u;
  su_fd : fd u' = fd u;
  su_aborted : aborted u' = aborted u;
  su_finished : finished u' = finished u;
}.

Lemma obj_ok_frame body F F' reps ino u :
  paths F' = paths F → inodes F' !! ino = inodes F !! ino →
  obj_ok body F reps ino u → obj_ok body F' reps ino u.
Proof. intros Hp Hi []. split; rewrite ?Hp, ?Hi; auto. Qed.

Section Update.
Context (g : gmap bytes nat) (w w' : world) (r : bytes) (u u' : upload) (ino : nat) (body : bytes).
Context (HC : Core g (set_obj r u w)) (Hg : g !! r = Some ino) (Hfin : finished u = false).
Context (HS : same_world r ino (id (meta u)) w w') (HU : same_upload u u').
Context (Hobj : obj_ok body (disk w') (replies r (log w')) ino u').

Lemma update_objs r' x : <[r:=u']> (objs w') !! r' = Some x →
  ∃ y, <[r:=u]> (objs w) !! r' = Some y ∧ same_upload y x ∧ (r' ≠ r → x = y).
Proof.
  rewrite (s_objs _ _ _ _ _ HS), lookup_insert_Some. intros [[<- <-]|[Hne Hx]].
  - exists u. by rewrite lookup_insert_eq.
  - exists x. by rewrite lookup_insert_ne.
Qed.

Lemma update_other r' x i : r' ≠ r → objs w !! r' = Some x → g !! r' = Some i →
  i ≠ ino ∧ id (meta x) ≠ id (meta u).
Proof.
  intros Hne Hx Hg'. split; [intros ->; by eapply Hne, (i_inj _ _ HC)|].
  intros E. apply Hne. eapply (i_ids _ _ HC r' r x u); simpl;
    [by rewrite lookup_insert_ne|by rewrite lookup_insert_eq|done].
Qed.

Lemma update_fds d i : fds w' !! d = Some i ↔
  ∃ r' x, <[r:=u']> (objs w') !! r' = Some x ∧ fd x = d ∧ 0 ≤ d ∧ g !! r' = Some i.
Proof.
  pose proof (i_fds _ _ HC d i) as Hi. simpl in Hi.
  rewrite (s_fds _ _ _ _ _ HS), Hi, (s_objs _ _ _ _ _ HS).
  pose proof (su_fd _ _ HU). split; intros (r'&x&Hx&Hd&Hp&Hg'); destruct (decide (r' = r)) as [->|Hne].
  - exists r, u'. rewrite lookup_insert_eq in *. injection Hx as <-. split_and!; try done. congruence.
  - exists r', x. rewrite lookup_insert_ne in * by done. done.
  - exists r, u. rewrite lookup_insert_eq in *. injection Hx as <-. split_and!; try done. congruence.
  - exists r', x. rewrite lookup_insert_ne in * by done. done.
Qed.

Lemma update_owner p i : owner g (set_obj r u w) p i → is_Some (received w' !! id (meta u)) →
  owner g (set_obj r u' w') p i.
Proof.
  intros Ho Hs. eapply owner_mono; [|exact Ho]. simpl. destruct HU as [U1 U2 U3 U4 U5 U6].
  intros r' x Hx Hg'. destruct (decide (r' = r)) as [->|Hne].
  - rewrite lookup_insert_eq in Hx. injection Hx as <-. exists u'. rewrite lookup_insert_eq.
    split_and!; try done.
    + intros _ Hl. unfold live in *. by rewrite U5, U6.
    + intros b0 _ _ [? _]. congruence.
  - exists x. pose proof Hx as Hx'. rewrite lookup_insert_ne in Hx by done.
    destruct (update_other r' x i Hne Hx Hg') as [Hi Hid].
    rewrite (s_objs _ _ _ _ _ HS), lookup_insert_ne, (s_received _ _ _ _ _ HS) by done.
    split_and!; try done.
    + intros _ Hl. split; [done|]. destruct (i_obj _ _ HC r' x i Hx' Hg') as (b&?&_). by eexists.
    + intros b0 Hb0 _ (?&?&Hin&?). split; [done|]. split_and!; try done.
      * by rewrite (s_inodes _ _ _ _ _ HS).
      * by rewrite (s_log _ _ _ _ _ HS).
Qed.

Lemma Core_update : received w' !! id (meta u) = Some body →
  (∀ n, kernel w' !! (r, n) = (op ← pending_ u' !! n; Some (request_of ino op))) →
  (∀ n, is_Some (pending_ u' !! n) → (n < next_event w')%nat) →
  Core g (set_obj r u' w').
Proof.
  intros Hb Hk Hn. pose proof HC as [I1 I2 I3 I4 I5 I6 I7 I8 I9 I10 I11 I12].
  pose proof HS as [S1 S2 S3 S4 S5 S6 S7 S8 S9 S10]. pose proof HU as [U1 U2 U3 U4 U5 U6].
  split; simpl in *.
  - done.
  - intros r'. rewrite I2, S2, !lookup_insert_is_Some'. done.
  - done.
  - intros r1 r2 u1 u2 (v1&H1&[E1 _ _ _ _ _]&_)%update_objs (v2&H2&[E2 _ _ _ _ _]&_)%update_objs.
    rewrite E1, E2. by apply I4.
  - intros r' x i Hx Hg'. destruct (decide (r' = r)) as [->|Hne].
    + rewrite lookup_insert_eq in Hx. injection Hx as <-. rewrite Hg in Hg'. injection Hg' as <-.
      exists body. by rewrite U1.
    + rewrite S2, lookup_insert_ne in Hx by done.
      destruct (update_other r' x i Hne Hx Hg') as [Hi Hid].
      destruct (I5 r' x i) as (b&Hb'&Hok); [by rewrite lookup_insert_ne|done|].
      exists b. rewrite S8 by done. split; [done|]. rewrite S5.
      eapply obj_ok_frame; [done|by apply S7|done].
  - intros r' n. destruct (decide (r' = r)) as [->|Hne].
    + by rewrite lookup_insert_eq, Hk, Hg.
    + rewrite S9, I6, S2, !lookup_insert_ne by done. done.
  - intros r'. rewrite S3, I7, S2. destruct (decide (r' = r)) as [->|Hne].
    + rewrite !lookup_insert_eq. split; intros (x&[= <-]&?); eexists; split; try done; congruence.
    + by rewrite !lookup_insert_ne.
  - exact update_fds.
  - intros p i. rewrite S6. intros Hp. destruct (I9 p i Hp) as [Hs Ho]. split.
    { destruct (decide (i = ino)) as [->|]; [apply Hobj|by rewrite S7]. }
    destruct Ho as [Ho|Hm]; [left|by right]. apply update_owner; eauto.
  - intros r' x n. destruct (decide (r' = r)) as [->|Hne].
    + rewrite lookup_insert_eq. intros [= <-]. apply Hn.
    + rewrite S2, lookup_insert_ne by done. intros Hx Hp.
      eapply Nat.lt_le_trans; [|exact S10]. eapply (I10 r' x); [by rewrite lookup_insert_ne|done].
  - intros i Hi. assert (is_Some (received w !! i)) as Hi'.
    { destruct (decide (i = id (meta u))) as [->|]; [|by rewrite <-S8].
      destruct (I5 r u ino) as (b&->&_); [by rewrite lookup_insert_eq|done|by eauto]. }
    destruct (I11 i Hi') as (r'&x&Hx&Hid). destruct (decide (r' = r)) as [->|Hne].
    + rewrite lookup_insert_eq in Hx. injection Hx as <-. exists r, u'. rewrite lookup_insert_eq.
      split; [done|congruence].
    + exists r', x. rewrite S2, !lookup_insert_ne in * by done. done.
  - intros i c Hi. rewrite S7; [by apply I12|]. intros ->. by apply (Hi r).
Qed.
End Update.

(** ** The end of an upload

    [w'] is the world after the upload [u] of [r] has become [u'], which is no longer
    live: its descriptor is closed and its temporary file gone. *)
Record ended (g : gmap bytes nat) (r : bytes) (ino : nat) (body : bytes) (u u' : upload)
    (w w' : world) : Prop := {
  e_ring : sq w' = [] ∧ pending_submissions_ w' = 0;
  e_objs : objs w' = objs w;
  e_uploads r' : r' ∈ uploads_ w' ↔ r' ∈ uploads_ w ∧ (r' = r → finished u' = false);
  e_fds d : fds w' !! d = if decide (d = fd u) then None else fds w !! d;
  e_kernel : kernel w' = kernel w;
  e_next : next_event w' = next_event w;
  e_received : received w' = received w;
  e_log r' : r' ≠ r → replies r' (log w') = replies r' (log w);
  e_inodes r' i : r' ≠ r → g !! r' = Some i → inodes (disk w') !! i = inodes (disk w) !! i;
  e_meta i c : (∀ r, g !! r ≠ Some i) → inodes (disk w') !! i = Some c →
    inodes (disk w) !! i = Some c ∨ meta_text c;
  e_exists i : is_Some (inodes (disk w) !! i) → is_Some (inodes (disk w') !! i);
  e_paths p i : paths (disk w') !! p = Some i →
    paths (disk w) !! p = Some i ∧ p ≠ temp_path u ∨
    p = final_path u ∧ i = ino ∧ published body (disk w') (replies r (log w')) ino u' ∨
    is_Some (inodes (disk w') !! i) ∧ (∃ j, hex j ∧ p = MetaPath j) ∧ ∀ r, g !! r ≠ Some i;
  e_others p : p ≠ temp_path u → p ≠ final_path u → (∀ j, hex j → p ≠ MetaPath j) →
    paths (disk w') !! p = paths (disk w) !! p;
  e_id : id (meta u') = id (meta u);
  e_temp : temp_path u' = temp_path u;
  e_final : final_path u' = final_path u;
  e_pending : pending_ u' = pending_ u;
  e_dead : live u' = false;
}.

Lemma ended_other g w r u r' x body0 i : Core g (set_obj r u w) → finished u = false →
  r' ≠ r → objs w !! r' = Some x → g !! r' = Some i →
  obj_ok body0 (disk w) (replies r' (log w)) i x →
  id (meta x) ≠ id (meta u) ∧ temp_path x ≠ temp_path u ∧ temp_path x ≠ final_path u ∧
  (∀ j, hex j → temp_path x ≠ MetaPath j).
Proof.
  intros HC Hfin Hne Hx Hg Ho.
  assert (id (meta x) ≠ id (meta u)) as Hid.
  { intros E. apply Hne. eapply (i_ids _ _ HC r' r x u); simpl;
      [by rewrite lookup_insert_ne|by rewrite lookup_insert_eq|done]. }
  assert (∃ iu, g !! r = Some iu) as [iu Hgu].
  { apply (i_dom _ _ HC). simpl. rewrite lookup_insert_eq. eauto. }
  destruct (i_obj _ _ HC r u iu) as (b&_&Hu); simpl; [by rewrite lookup_insert_eq|done|].
  destruct Ho as [T1 F1 H1 _ _ _ _ _ _ _ _ _ _ _]. destruct Hu as [T2 F2 H2 _ _ _ _ _ _ _ _ _ _ _].
  rewrite T1, T2, F2. split_and!; [done|..].
  - by intros E%Temp_inj.
  - by apply Temp_Object.
  - intros j Hj E. by destruct (Meta_other j (id (meta x)) Hj H1).
Qed.

Section EndUpload.
Context (g : gmap bytes nat) (w w' : world) (r : bytes) (u u' : upload) (ino : nat) (body : bytes).
Context (HC : Core g (set_obj r u w)) (Hg : g !! r = Some ino) (Hfin : finished u = false).
Context (Hb : received w !! id (meta u) = Some body) (HE : ended g r ino body u u' w w').
Context (Hobj : obj_ok body (disk w') (replies r (log w')) ino u').

Lemma end_keep r' x i b : r' ≠ r → objs w !! r' = Some x → g !! r' = Some i →
  obj_ok b (disk w) (replies r' (log w)) i x → obj_ok b (disk w') (replies r' (log w')) i x.
Proof.
  intros Hne Hx Hg' Ho.
  destruct (ended_other g w r u r' x b i HC Hfin Hne Hx Hg' Ho) as (_&H1&H2&H3).
  destruct Ho. rewrite (e_log _ _ _ _ _ _ _ _ HE) by done.
  split; rewrite ?(e_inodes _ _ _ _ _ _ _ _ HE r' i), ?(e_others _ _ _ _ _ _ _ _ HE) by done; done.
Qed.

Lemma end_objs r' x : r' ≠ r → <[r:=u]> (objs w) !! r' = Some x ↔ <[r:=u']> (objs w) !! r' = Some x.
Proof. intros Hne. by rewrite !lookup_insert_ne. Qed.

Lemma end_ids r1 r2 x y : <[r:=u']> (objs w) !! r1 = Some x → <[r:=u']> (objs w) !! r2 = Some y →
  id (meta x) = id (meta y) → r1 = r2.
Proof.
  pose proof (i_ids _ _ HC) as I4. simpl in I4. pose proof (e_id _ _ _ _ _ _ _ _ HE) as Hid.
  destruct (decide (r1 = r)) as [->|N1], (decide (r2 = r)) as [->|N2]; [done|..].
  - rewrite lookup_insert_eq. intros [= <-] H2%end_objs; [|done]. rewrite Hid.
    intros ?. eapply (I4 r r2 u); [by rewrite lookup_insert_eq|done|done].
  - rewrite lookup_insert_eq. intros H1%end_objs [= <-]; [|done]. rewrite Hid.
    intros ?. eapply (I4 r1 r _ u); [done|by rewrite lookup_insert_eq|done].
  - intros H1%end_objs H2%end_objs; [|done..]. by eapply I4.
Qed.

(** The descriptor of the upload is the only one that is closed. *)
Lemma end_fds d i : fds w' !! d = Some i ↔
  ∃ r' x, <[r:=u']> (objs w) !! r' = Some x ∧ fd x = d ∧ 0 ≤ d ∧ g !! r' = Some i.
Proof.
  pose proof (i_fds _ _ HC) as I8. simpl in I8. rewrite (e_fds _ _ _ _ _ _ _ _ HE).
  pose proof (o_dead _ _ _ _ _ Hobj (e_dead _ _ _ _ _ _ _ _ HE)) as Hdead. case_decide as Hd.
  - split; [done|]. intros (r'&x&Hx&Hdx&Hp&Hg'). destruct (decide (r' = r)) as [->|Hne].
    + rewrite lookup_insert_eq in Hx. injection Hx as <-. lia.
    + apply end_objs in Hx; [|done].
      assert (fds w !! d = Some i) as H1 by (apply I8; eauto 10).
      assert (fds w !! d = Some ino) as H2 by (apply I8; exists r, u; rewrite lookup_insert_eq; by subst).
      exfalso. apply Hne. eapply (i_inj _ _ HC); [exact Hg'|]. congruence.
  - rewrite I8. split; intros (r'&x&Hx&Hdx&Hp&Hg'); destruct (decide (r' = r)) as [->|Hne].
    + rewrite lookup_insert_eq in Hx. injection Hx as <-. done.
    + exists r', x. rewrite <-end_objs by done. done.
    + rewrite lookup_insert_eq in Hx. injection Hx as <-. lia.
    + exists r', x. rewrite end_objs by done. done.
Qed.

Lemma end_owner p i : p ≠ temp_path u → owner g (set_obj r u w) p i → owner g (set_obj r u' w') p i.
Proof.
  destruct HE as [_ E2 _ _ _ _ E7 E8 E9 _ _ _ _ E13 E14 E15 _ _].
  intros Hnt Ho. eapply owner_mono; [|exact Ho]. simpl. rewrite E2, E7. intros r' x Hx Hg'.
  destruct (decide (r' = r)) as [->|Hne].
  - rewrite lookup_insert_eq in Hx. injection Hx as <-. exists u'. rewrite lookup_insert_eq.
    split_and!; try done. intros ? _ _ [? _]. congruence.
  - exists x. destruct (i_obj _ _ HC r' x i Hx Hg') as (b0&Hb0&_). simpl in Hb0.
    rewrite lookup_insert_ne in * by done. split_and!; try done.
    intros b Hb' _ (?&?&?&?). split; [done|]. split_and!; try done; [by rewrite (E9 r')|by rewrite E8].
Qed.

Lemma end_paths p i : paths (disk w') !! p = Some i → is_Some (inodes (disk w') !! i) ∧
  (owner g (set_obj r u' w') p i ∨ (∃ j, hex j ∧ p = MetaPath j) ∧ ∀ r, g !! r ≠ Some i).
Proof.
  pose proof HE as [_ E2 _ _ _ _ E7 _ _ _ E10 E11 _ E13 _ E15 _ _]. intros Hp.
  destruct (E11 p i Hp) as [[Hp0 Hnt]|[(->&->&Hpub)|(?&?&?)]]; [|split|by eauto].
  - destruct (i_paths _ _ HC p i Hp0) as [Hi Ho]. split; [by apply E10|].
    destruct Ho as [Ho|?]; [left; by apply end_owner|by right].
  - apply Hobj.
  - left. exists r, u', body. simpl. rewrite E2, lookup_insert_eq, E13, E7, E15.
    split_and!; try done. by right.
Qed.

Lemma Core_end : Core g (set_obj r u' w').
Proof.
  pose proof HE as [E1 E2 E3 E4 E5 E6 E7 E8 E9 Em E10 E11 E12 E13 E14 E15 E16 E17].
  pose proof HC as [I1 I2 I3 I4 I5 I6 I7 I8 I9 I10 I11 I12].
  split; simpl in *; rewrite ?E2.
  - done.
  - intros r'. rewrite I2, !lookup_insert_is_Some'. done.
  - done.
  - exact end_ids.
  - intros r' x i Hx Hg'. rewrite E7. destruct (decide (r' = r)) as [->|Hne].
    + rewrite lookup_insert_eq in Hx. injection Hx as <-. rewrite E13.
      rewrite Hg in Hg'. injection Hg' as <-. eauto.
    + apply end_objs in Hx; [|done]. destruct (I5 r' x i Hx Hg') as (b&Hb'&Ho).
      rewrite lookup_insert_ne in Hx by done. exists b. split; [done|]. by apply end_keep.
  - intros r' n. rewrite E5, I6. destruct (decide (r' = r)) as [->|Hne].
    + rewrite !lookup_insert_eq. simpl. by rewrite E16.
    + by rewrite !lookup_insert_ne.
  - intros r'. rewrite E3, I7. destruct (decide (r' = r)) as [->|Hne].
    + rewrite !lookup_insert_eq. naive_solver.
    + rewrite !lookup_insert_ne by done. naive_solver.
  - exact end_fds.
  - exact end_paths.
  - intros r' x n Hx. rewrite E6. destruct (decide (r' = r)) as [->|Hne].
    + rewrite lookup_insert_eq in Hx. injection Hx as <-. rewrite E16. apply (I10 r u).
      by rewrite lookup_insert_eq.
    + apply end_objs in Hx; [|done]. by apply (I10 r' x).
  - intros i. rewrite E7. intros (r'&x&Hx&Hid)%I11. destruct (decide (r' = r)) as [->|Hne].
    + rewrite lookup_insert_eq in Hx. injection Hx as <-. exists r, u'. rewrite lookup_insert_eq.
      by rewrite E13.
    + exists r', x. rewrite <-end_objs by done. done.
  - intros i c Hi [Hc|?]%Em; [by eapply I12|done..].
Qed.
End EndUpload.

(** ** Finishing *)

(** With no write left the file is the body. *)
Lemma content_full body u c : content_ok body u c → pending_ u = ∅ →
  c = body ∧ written_bytes u = zlen body ∧ submitted_bytes u = zlen body.
Proof.
  intros [Hs Hl _ Hc Hsum _] Hp. rewrite Hp in *. split_and!; [|by change (pending_sum ∅) with 0 in Hsum; lia|done].
  apply list_eq. intros k. destruct (decide (k < length body)%nat) as [Hk|Hk].
  - destruct (Hc k Hk) as [?|(n&op&Hn&_)]; [done|]. by rewrite lookup_empty in Hn.
  - unfold zlen in Hl. rewrite !lookup_ge_None_2 by lia. done.
Qed.

Lemma meta_written n file (m : gmap nat bytes) i0 i c : hex (id file) →
  alter (overwrite 0 (take n (SerializeMeta file))) i0 (<[i0:=[]]> m) !! i = Some c →
  m !! i = Some c ∨ meta_text c.
Proof.
  intros Hh. destruct (decide (i = i0)) as [->|Hne].
  - rewrite lookup_alter_eq, lookup_insert_eq. simpl. intros [= <-]. right. exists n, file.
    split; [done|]. unfold overwrite. rewrite ztake_0, (zdrop_all _ []), app_nil_r; [done|].
    rewrite zlen_nil. pose proof (zlen_nonneg (take n (SerializeMeta file))). lia.
  - rewrite lookup_alter_ne, lookup_insert_ne by done. by left.
Qed.

Lemma WriteMeta_spec (g : gmap bytes nat) n file F F' ok :
  (∀ r i, g !! r = Some i → is_Some (inodes F !! i)) →
  (∀ i, paths F !! MetaPath (id file) = Some i →
     is_Some (inodes F !! i) ∧ ∀ r : bytes, g !! r ≠ Some i) →
  hex (id file) → WriteMeta root_ (Some n) file F = (F', ok) →
  ok = true ∧ (∀ r i, g !! r = Some i → inodes F' !! i = inodes F !! i) ∧
  (∀ i, is_Some (inodes F !! i) → is_Some (inodes F' !! i)) ∧
  (∀ p, p ≠ MetaPath (id file) → paths F' !! p = paths F !! p) ∧
  (∀ i, paths F' !! MetaPath (id file) = Some i →
     is_Some (inodes F' !! i) ∧ ∀ r : bytes, g !! r ≠ Some i) ∧
  (∀ i c, inodes F' !! i = Some c → inodes F !! i = Some c ∨ meta_text c).
Proof.
  intros HB HA Hhex. unfold WriteMeta, open_trunc, pwrite.
  destruct (paths F !! MetaPath (id file)) as [i0|] eqn:E; simpl; intros [= <- <-]; simpl.
  - destruct (HA i0 eq_refl) as [Hi0 Hg0].
    assert (∀ i, i ≠ i0 → alter (overwrite 0 (take n (SerializeMeta file))) i0 (<[i0:=[]]> (inodes F)) !! i
      = inodes F !! i) as Hi by (intros i Hne; by rewrite lookup_alter_ne, lookup_insert_ne).
    split_and!; try done.
    + intros r i Hr. apply Hi. intros ->. by apply (Hg0 r).
    + intros i Hs. destruct (decide (i = i0)) as [->|]; [|by rewrite Hi].
      rewrite lookup_alter_eq, lookup_insert_eq. by eauto.
    + intros i. rewrite E. intros [= <-]. rewrite lookup_alter_eq, lookup_insert_eq. split; [by eauto|done].
    + intros i c. by apply meta_written.
  - set (i0 := fresh (dom (inodes F))). assert (i0 ∉ dom (inodes F)) as Hf by apply is_fresh.
    assert (∀ i, is_Some (inodes F !! i) → i ≠ i0) as Hne.
    { intros i Hs ->. by apply Hf, elem_of_dom. }
    assert (∀ i, i ≠ i0 → alter (overwrite 0 (take n (SerializeMeta file))) i0 (<[i0:=[]]> (inodes F)) !! i
      = inodes F !! i) as Hi by (intros i Hn; by rewrite lookup_alter_ne, lookup_insert_ne).
    split_and!; try done.
    + intros r i Hr. apply Hi, Hne. by eapply HB.
    + intros i Hs. rewrite Hi by (by apply Hne). done.
    + intros p Hp. by rewrite lookup_insert_ne.
    + intros i. rewrite lookup_insert_eq. intros [= <-]. rewrite lookup_alter_eq, lookup_insert_eq.
      split; [by eauto|]. intros r Hr. by destruct (Hne i0 (HB r i0 Hr)).
    + intros i c. by apply meta_written.
Qed.

Lemma WriteMeta_record n file F F' ok : WriteMeta root_ (Some n) file F = (F', ok) →
  read_path (MetaPath (id file)) F' = Some (take n (SerializeMeta file)).
Proof.
  unfold WriteMeta, open_trunc, pwrite, read_path.
  destruct (paths F !! MetaPath (id file)) as [i0|] eqn:E; simpl; intros [= <- _]; simpl;
    rewrite ?E, ?lookup_insert_eq; simpl; rewrite lookup_alter_eq, lookup_insert_eq; simpl;
    unfold overwrite; (rewrite ztake_0, (zdrop_all _ []), app_nil_r; [done|]);
    rewrite zlen_nil; pose proof (zlen_nonneg (take n (SerializeMeta file))); lia.
Qed.

(** What a request is answered when its upload ends, from what happened to it: a
    write has failed; fewer or more bytes came than were announced; the operating
    system did not rename the file, or did not open the record's; or it is stored. *)
Definition answer_of (a : answers) (body : bytes) (u : upload) : Z * bytes :=
  if failed u then (500, error u) else
  if bool_decide (expected_bytes u ≠ 0 ∧ expected_bytes u ≠ zlen body)
  then (500, txt "short upload") else
  if negb (rename_ok a) then (500, txt "rename failed") else
  match meta_answer a with
  | None => (500, txt "metadata write failed")
  | Some _ => (201, MetaJsonForApi (meta u))
  end.

(** What the store then holds of it: the file with exactly the body and its record
    (as much of it as fitted on the disk) if the answer was 201, and no file
    otherwise. *)
Definition stored_as (a : answers) (body : bytes) (u : upload) (F : files) : Prop :=
  ((answer_of a body u).1 = 201 → size (meta u) = zlen body ∧
     read_path (ObjectPath (id (meta u))) F = Some body ∧
     ∃ n, meta_answer a = Some n ∧
       read_path (MetaPath (id (meta u))) F = Some (take n (SerializeMeta (meta u)))) ∧
  ((answer_of a body u).1 ≠ 201 → paths F !! ObjectPath (id (meta u)) = None) ∧
  paths F !! TempObjectPath (id (meta u)) = None.

(** The files after the end of an upload, whichever way it ended. *)
Record files_ended (g : gmap bytes nat) (r : bytes) (ino : nat) (u : upload) (pub : Prop)
    (F F' : files) : Prop := {
  fe_inodes r' i : g !! r' = Some i → inodes F' !! i = inodes F !! i;
  fe_meta i c : inodes F' !! i = Some c → inodes F !! i = Some c ∨ meta_text c;
  fe_exists i : is_Some (inodes F !! i) → is_Some (inodes F' !! i);
  fe_paths p i : paths F' !! p = Some i →
    paths F !! p = Some i ∧ p ≠ temp_path u ∨
    p = final_path u ∧ i = ino ∧ pub ∨
    is_Some (inodes F' !! i) ∧ (∃ j, hex j ∧ p = MetaPath j) ∧ ∀ r : bytes, g !! r ≠ Some i;
  fe_others p : p ≠ temp_path u → p ≠ final_path u → (∀ j, hex j → p ≠ MetaPath j) →
    paths F' !! p = paths F !! p;
}.

Lemma replies_emit_other r' l o : reply_to r' o = None → replies r' (l ++ [o]) = replies r' l.
Proof. intros Ho. unfold replies. rewrite omap_app. simpl. by rewrite Ho, app_nil_r. Qed.

Definition finished_upload (m : DropFile) (u : upload) : upload :=
  set_deferred false (set_cleanup false (set_meta m (set_fd (-1) (set_finished u)))).

Definition finished_world (r : bytes) (st : Z) (b : bytes) (F : files) (u : upload) (w : world) : world :=
  emit (CompleteDeferred r) (Take r (emit (Reply r st b)
    (set_disk F (set_fds (delete (fd u) (fds w)) w)))).

Lemma finish_inv g r u w ino body F m st b :
  Core g (set_obj r u w) → g !! r = Some ino → live u = true → request_complete u = true →
  pending_ u = ∅ → received w !! id (meta u) = Some body → id m = id (meta u) →
  outcome body (finished_upload m u) st b →
  files_ended g r ino u
    (inodes F !! ino = Some body ∧ st = 201 ∧ b = MetaJsonForApi m) (disk w) F →
  Core g (set_obj r (finished_upload m u) (finished_world r st b F u w)).
Proof.
  intros HC Hg Hl Hrc Hp Hb Hid Hout [F1 Fm F2 F3 F4].
  destruct (i_obj _ _ HC r u ino) as (b0&Hb0&Ho); simpl in *; [by rewrite lookup_insert_eq|done|].
  rewrite Hb in Hb0. injection Hb0 as <-.
  apply andb_true_iff in Hl as [Hna%negb_true_iff Hnf%negb_true_iff].
  assert (replies r (log w) = []) as Hr0 by (apply (o_silent _ _ _ _ _ Ho); by left).
  assert (replies r (log (finished_world r st b F u w)) = [(st, b)]) as Hrep.
  { simpl. rewrite replies_emit_other by done. unfold replies in *. rewrite omap_app, Hr0. simpl.
    by rewrite decide_True. }
  eapply (Core_end g w _ r u _ ino body); try done.
  - split; simpl; try done.
    + apply HC.
    + intros r'. set_solver.
    + intros d. case_decide; [subst; apply lookup_delete_eq|by rewrite lookup_delete_ne].
    + intros r' Hne. rewrite !replies_emit_other; [done|..]; [simpl; by rewrite decide_False|done].
    + intros r' i _. by apply F1.
    + intros i c _. apply Fm.
    + intros p i Hpi. destruct (F3 p i Hpi) as [?|[(->&->&Hi&->&->)|?]]; [by left|right; left|by right; right].
      by split_and!.
    + unfold live. simpl. by rewrite andb_false_r.
  - destruct Ho as [O1 O2 O3 O4 O5 O6 O7 O8 O9 O10 O11 O12 O13 O14].
    split; simpl; rewrite ?Hid; try done.
    + unfold live. simpl. by rewrite andb_false_r.
    + destruct O9 as [c Hc]. rewrite (F1 r ino Hg). eauto.
    + unfold live. simpl. by rewrite andb_false_r.
    + intros [?|?]; [done|congruence].
    + intros _ _. split; [done|]. exists st, b. split; [exact Hrep|done].
Qed.

Lemma FinishDeferredResponse_ready r u w : cleanup_ u = true → deferred_ u = true →
  FinishDeferredResponse r u w =
  (set_deferred false (set_cleanup false u), emit (CompleteDeferred r) (Take r w)).
Proof. intros Hc Hd. unfold FinishDeferredResponse, Cleanup. rewrite Hc. simpl. by rewrite Hd. Qed.

Section Ending.
Context (g : gmap bytes nat) (r : bytes) (u : upload) (w : world) (ino : nat) (body : bytes).
Context (HC : Core g (set_obj r u w)) (Hg : g !! r = Some ino) (Hl : live u = true).
Context (Hb : received w !! id (meta u) = Some body).

Lemma ending_obj : obj_ok body (disk w) (replies r (log w)) ino u.
Proof.
  destruct (i_obj _ _ HC r u ino) as (b0&Hb0&Ho); simpl in *; [by rewrite lookup_insert_eq|done|].
  rewrite Hb in Hb0. by injection Hb0 as <-.
Qed.

Lemma inodes_owned r' i : g !! r' = Some i → is_Some (inodes (disk w) !! i).
Proof.
  intros Hr'. assert (is_Some (g !! r')) as [x Hx]%(i_dom _ _ HC) by eauto.
  destruct (i_obj _ _ HC r' x i Hx Hr') as (b&_&Ho). apply Ho.
Qed.

Lemma files_removed pub : files_ended g r ino u pub (disk w) (remove (temp_path u) (disk w)).1.
Proof.
  split; simpl; try done; [by left|..].
  - intros p i [? ?]%lookup_delete_Some. by left.
  - intros p Hp _ _. by rewrite lookup_delete_ne.
Qed.

Lemma files_renamed :
  ∃ F, rename (temp_path u) (final_path u) (disk w) = Some F ∧
    inodes F = inodes (disk w) ∧
    paths F = <[final_path u := ino]> (delete (temp_path u) (paths (disk w))).
Proof.
  destruct (o_live _ _ _ _ _ ending_obj Hl) as [_ Ht]. unfold rename. rewrite Ht. by eexists.
Qed.

Lemma files_uncommitted pub F :
  rename (temp_path u) (final_path u) (disk w) = Some F →
  files_ended g r ino u pub (disk w) (remove (final_path u) F).1.
Proof.
  intros E. destruct files_renamed as (F0&E0&Hi&Hp). rewrite E in E0. injection E0 as <-.
  split; simpl; rewrite ?Hi, ?Hp; try done; [by left|..].
  - intros p i [? [[? _]|[_ Hp']]%lookup_insert_Some]%lookup_delete_Some; [done|].
    apply lookup_delete_Some in Hp' as [? ?]. by left.
  - intros p H1 H2 _. by rewrite lookup_delete_ne, lookup_insert_ne, lookup_delete_ne.
Qed.

Lemma files_stored F n file F' ok (pub : Prop) :
  rename (temp_path u) (final_path u) (disk w) = Some F → id file = id (meta u) → pub →
  WriteMeta root_ (Some n) file F = (F', ok) →
  ok = true ∧ files_ended g r ino u pub (disk w) F' ∧
  inodes F' !! ino = inodes (disk w) !! ino ∧ paths F' !! final_path u = Some ino.
Proof.
  intros E Hid Hpub HW. destruct files_renamed as (F0&E0&Hi&Hp). rewrite E in E0. injection E0 as <-.
  destruct ending_obj as [O1 O2 O3 _ _ _ _ _ _ _ _ _ _ _].
  destruct (Meta_other _ _ O3 O3) as [M1 M2].
  destruct (WriteMeta_spec g n file F F' ok) as (->&W1&W2&W3&W4&W5); [| |by rewrite Hid|done|].
  - intros r' i. rewrite Hi. apply inodes_owned.
  - intros i. rewrite Hid, Hp, Hi, lookup_insert_ne, lookup_delete_ne by congruence.
    intros [H1 [(r'&x&b&Hx&Hg'&_&Hpp)|[_ ?]]]%(i_paths _ _ HC); [exfalso|done]. simpl in Hx.
    destruct (i_obj _ _ HC r' x i Hx Hg') as (b'&_&[T1 T2 T3 _ _ _ _ _ _ _ _ _ _ _]).
    destruct (Meta_other _ _ O3 T3) as [M3 M4]. destruct Hpp as [[? _]|[? _]]; congruence.
  - rewrite Hid in *. split_and!; [done| |rewrite (W1 r ino Hg); by rewrite Hi|].
    2: { rewrite W3, Hp by congruence. apply lookup_insert_eq. }
    split; simpl.
    + intros r' i Hr'. by rewrite (W1 r' i Hr'), Hi.
    + intros i c Hc. rewrite <-Hi. by apply W5.
    + intros i Hs. apply W2. by rewrite Hi.
    + intros p i Hpi. destruct (decide (p = MetaPath (id (meta u)))) as [->|Hne].
      { right. right. destruct (W4 i Hpi). split_and!; eauto. }
      rewrite W3, Hp in Hpi by done. apply lookup_insert_Some in Hpi as [[<- <-]|[_ Hpi]].
      * right. left. done.
      * apply lookup_delete_Some in Hpi as [? ?]. by left.
    + intros p H1 H2 H3. rewrite W3, Hp, lookup_insert_ne, lookup_delete_ne by (by auto). done.
Qed.

(** An upload that goes on has nothing under its final name. *)
Lemma final_free : paths (disk w) !! final_path u = None.
Proof.
  destruct (paths (disk w) !! final_path u) as [i|] eqn:E; [exfalso|done].
  destruct ending_obj as [_ F2 H2 _ _ _ _ _ _ _ _ _ _ _].
  destruct (i_paths _ _ HC _ _ E) as [_ [(r'&x&b'&Hx&Hg'&_&Hp)|[(j&Hj&Ej) _]]].
  2: { destruct (Meta_other j (id (meta u)) Hj H2). congruence. }
  destruct (i_obj _ _ HC r' x i Hx Hg') as (b0&_&Ho). destruct Ho as [T1 F1 H1 _ _ _ _ _ _ _ _ _ _ _].
  destruct Hp as [[Hp _]|[Hp (Hfin&_)]].
  - rewrite T1, F2 in Hp. symmetry in Hp. by apply Temp_Object in Hp.
  - rewrite F1, F2 in Hp. apply Object_inj in Hp; [|done..].
    assert (r = r') as <- by (eapply (i_ids _ _ HC); simpl; [by rewrite lookup_insert_eq|done..]).
    simpl in Hx. rewrite lookup_insert_eq in Hx. injection Hx as <-.
    apply andb_true_iff in Hl as [_ ?%negb_true_iff]. congruence.
Qed.

(** An end of the upload: the reply, what the files are then, and the members. *)
Definition ends_with_reply (a : answers) (u' : upload) (w' : world) : Prop :=
  ∃ m st b F, (u', w') = (finished_upload m u, finished_world r st b F u w) ∧ id m = id (meta u) ∧
    outcome body (finished_upload m u) st b ∧
    files_ended g r ino u (inodes F !! ino = Some body ∧ st = 201 ∧ b = MetaJsonForApi m) (disk w) F ∧
    answer_of a body (finished_upload m u) = (st, b) ∧ stored_as a body (finished_upload m u) F.

Lemma ends_removed a b u' w' : outcome body (finished_upload (meta u) u) 500 b →
  answer_of a body (finished_upload (meta u) u) = (500, b) →
  (u', w') = (finished_upload (meta u) u, finished_world r 500 b (remove (temp_path u) (disk w)).1 u w) →
  ends_with_reply a u' w'.
Proof.
  intros Hout Ha E. eexists _, _, _, _. split_and!; [exact E|done|done|apply files_removed|done|].
  unfold stored_as. rewrite Ha. simpl. pose proof ending_obj as Ho.
  rewrite <-(o_temp _ _ _ _ _ Ho), <-(o_final _ _ _ _ _ Ho). split_and!; [done|intros _|apply lookup_delete_eq].
  apply lookup_delete_None. right. apply final_free.
Qed.

Lemma ends_stored a n F F' ok m u' w' : inodes (disk w) !! ino = Some body → failed u = false →
  (expected_bytes u = 0 ∨ expected_bytes u = zlen body) →
  rename (temp_path u) (final_path u) (disk w) = Some F → id m = id (meta u) → size m = zlen body →
  rename_ok a = true → meta_answer a = Some n →
  WriteMeta root_ (Some n) m F = (F', ok) →
  (u', w') = (finished_upload m u, finished_world r 201 (MetaJsonForApi m) F' u w) →
  ends_with_reply a u' w'.
Proof.
  intros Hc Hf Hexp EF Hid Hsz Hr Hn EW E.
  destruct (files_stored F n m F' ok True EF Hid I EW) as (->&HF&Hino&Hfp).
  assert (answer_of a body (finished_upload m u) = (201, MetaJsonForApi m)) as Ha.
  { unfold answer_of. simpl. rewrite Hf, bool_decide_false, Hr, Hn by (intros [? ?]; by destruct Hexp). done. }
  eexists m, 201, _, F'. split_and!; [exact E|done|by apply (created body (finished_upload m u))|..|done|].
  - destruct HF as [G1 Gm G2 G3 G4]. split; try done. intros p i Hpi.
    destruct (G3 p i Hpi) as [?|[(?&?&_)|?]]; [by left| |by right; right].
    right. left. split_and!; try done. congruence.
  - unfold stored_as. rewrite Ha. simpl. pose proof ending_obj as Ho. rewrite Hid.
    rewrite <-(o_temp _ _ _ _ _ Ho), <-(o_final _ _ _ _ _ Ho). split_and!; [intros _|done|].
    + split_and!; [done|by unfold read_path; rewrite Hfp; simpl; rewrite Hino|].
      exists n. split; [done|]. rewrite <-Hid. by eapply WriteMeta_record.
    + destruct (paths F' !! temp_path u) as [i|] eqn:Ei; [exfalso|done].
      destruct (Temp_Object (id (meta u)) (id (meta u)) (o_hex _ _ _ _ _ Ho) (o_hex _ _ _ _ _ Ho)).
      destruct (fe_paths _ _ _ _ _ _ _ HF _ _ Ei) as [[_ ?]|[(Hp&_)|(_&(j&Hj&Ej)&_)]]; [done|..].
      * by rewrite <-(o_temp _ _ _ _ _ Ho), Hp, (o_final _ _ _ _ _ Ho).
      * destruct (Meta_other j (id (meta u)) Hj (o_hex _ _ _ _ _ Ho)) as [[] _].
        by rewrite <-Ej, (o_temp _ _ _ _ _ Ho).
Qed.

Lemma ends_uncommitted a F m u' w' : failed u = false →
  (expected_bytes u = 0 ∨ expected_bytes u = zlen body) →
  rename (temp_path u) (final_path u) (disk w) = Some F → id m = id (meta u) →
  rename_ok a = true → meta_answer a = None →
  (u', w') = (finished_upload m u,
    finished_world r 500 (txt "metadata write failed") (remove (final_path u) F).1 u w) →
  ends_with_reply a u' w'.
Proof.
  intros Hf Hexp EF Hid Hr Hn E. pose proof ending_obj as Ho.
  assert (answer_of a body (finished_upload m u) = (500, txt "metadata write failed")) as Ha.
  { unfold answer_of. simpl. rewrite Hf, bool_decide_false, Hr, Hn by (intros [? ?]; by destruct Hexp). done. }
  eexists m, 500, _, _. split_and!; [exact E|done|apply not_stored; auto|by apply files_uncommitted|done|].
  unfold stored_as. rewrite Ha. simpl. rewrite Hid.
  rewrite <-(o_temp _ _ _ _ _ Ho), <-(o_final _ _ _ _ _ Ho). split_and!; [done|intros _; apply lookup_delete_eq|].
  destruct files_renamed as (F0&E0&_&Hp). rewrite EF in E0. injection E0 as <-. rewrite Hp.
  apply lookup_delete_None. right. rewrite lookup_insert_ne; [apply lookup_delete_eq|].
  rewrite (o_temp _ _ _ _ _ Ho), (o_final _ _ _ _ _ Ho). apply not_eq_sym, Temp_Object; apply Ho.
Qed.

Lemma TryFinish_ends a u' w' : request_complete u = true → pending_ u = ∅ →
  TryFinish root_ a r u w = (u', w') → ends_with_reply a u' w'.
Proof.
  intros Hrc Hp. pose proof ending_obj as Ho.
  pose proof Hl as [Hna%negb_true_iff Hnf%negb_true_iff]%andb_true_iff.
  destruct (o_live _ _ _ _ _ Ho Hl) as [Hfd Ht].
  assert (deferred_ u = true) as Hd by (by rewrite (o_deferred _ _ _ _ _ Ho)).
  assert (cleanup_ u = true) as Hcl by (by rewrite (o_cleanup _ _ _ _ _ Ho), Hnf).
  unfold TryFinish. rewrite Hnf, Hna, Hrc, Hd, (bool_decide_false (pending_ u ≠ ∅)) by (by intros ?).
  cbn [negb orb]. unfold Close. cbn [fd set_finished]. rewrite (proj2 (Z.leb_le 0 (fd u))) by done.
  cbn [failed expected_bytes submitted_bytes written_bytes temp_path final_path set_fd set_finished].
  unfold SendText. cbn [deferred_ set_fd set_finished set_meta]. rewrite !Hd.
  rewrite !FinishDeferredResponse_ready by done.
  destruct (failed u) eqn:Hf; cbn [orb].
  { intros E. eapply ends_removed; [..|by symmetry]; [by apply (write_failed body (finished_upload (meta u) u))|].
    unfold answer_of. simpl. by rewrite Hf. }
  destruct (o_inode _ _ _ _ _ Ho) as [c Hc].
  destruct (content_full body u c) as (->&Hw&Hs); [by apply (o_content _ _ _ _ _ Ho)|done|].
  rewrite Hw, Hs, Z.eqb_refl. cbn [negb]. rewrite orb_false_r.
  destruct (negb (expected_bytes u =? 0) && negb (zlen body =? expected_bytes u)) eqn:He.
  { apply andb_true_iff in He as [H1%negb_true_iff%Z.eqb_neq H2%negb_true_iff%Z.eqb_neq].
    intros E. eapply ends_removed; [..|by symmetry]; [apply short_upload; simpl; congruence|].
    unfold answer_of. simpl. by rewrite Hf, bool_decide_true by (split; congruence). }
  assert (expected_bytes u = 0 ∨ expected_bytes u = zlen body) as Hexp
    by (apply andb_false_iff in He as [He|He]; apply negb_false_iff, Z.eqb_eq in He; auto).
  destruct (rename_ok a) eqn:Hr.
  2: { intros E. eapply ends_removed; [..|by symmetry]; [apply not_stored; auto|].
       unfold answer_of. simpl. by rewrite Hf, bool_decide_false, Hr by (intros [? ?]; by destruct Hexp). }
  destruct files_renamed as (F&EF&_&_). change (disk (set_fds _ w)) with (disk w). rewrite EF.
  set (m := mkDropFile _ _ _ _ _). change (set_meta _ _) with (set_meta m (set_fd (-1) (set_finished u))).
  destruct (meta_answer a) as [n|] eqn:Hn.
  2: { cbn [WriteMeta negb]. rewrite FinishDeferredResponse_ready by done. intros E.
       by eapply (ends_uncommitted a F m). }
  destruct (WriteMeta root_ (Some n) _ F) as [F' ok] eqn:EW.
  destruct (files_stored F n m F' ok True EF eq_refl I EW) as (->&_).
  cbn [negb]. rewrite FinishDeferredResponse_ready by done. intros E.
  by eapply (ends_stored a n F F' true m).
Qed.

(** An upload that is ready finishes, with a reply that says what happened. *)
Lemma TryFinish_ready a u' w' :
  request_complete u = true → pending_ u = ∅ → TryFinish root_ a r u w = (u', w') →
  Core g (set_obj r u' w') ∧ finished u' = true ∧ objs w' = objs w ∧
  request_complete u' = true ∧ replies r (log w') = [answer_of a body u'] ∧
  stored_as a body u' (disk w').
Proof.
  intros Hrc Hp E. destruct (TryFinish_ends a u' w' Hrc Hp E) as (m&st&b&F&[= -> ->]&H1&H2&H3&H4&H5).
  split_and!; try done; [by eapply finish_inv|].
  assert (replies r (log w) = []) as Hr0.
  { apply (o_silent _ _ _ _ _ ending_obj). left. by apply andb_true_iff in Hl as [_ ?%negb_true_iff]. }
  simpl. rewrite replies_emit_other by done. unfold replies in *.
  rewrite omap_app, Hr0, H4. simpl. by rewrite decide_True.
Qed.
End Ending.

(** A path of the store belongs to one upload, or to a record. *)
Lemma temp_gone g r u w : Core g (set_obj r u w) → live u = false →
  paths (disk w) !! temp_path u = None.
Proof.
  intros HC Hl. destruct (paths (disk w) !! temp_path u) as [i|] eqn:E; [exfalso|done].
  assert (∃ iu, g !! r = Some iu) as [iu Hgu].
  { apply (i_dom _ _ HC). simpl. rewrite lookup_insert_eq. eauto. }
  destruct (i_obj _ _ HC r u iu) as (b&_&Hu); simpl; [by rewrite lookup_insert_eq|done|].
  destruct Hu as [T2 F2 H2 _ _ _ _ _ _ _ _ _ _ _].
  destruct (i_paths _ _ HC _ _ E) as [_ [(r'&x&b'&Hx&Hg'&_&Hp)|[(j&Hj&Ej) _]]].
  2: { destruct (Meta_other j (id (meta u)) Hj H2). congruence. }
  destruct (i_obj _ _ HC r' x i Hx Hg') as (b0&_&Ho). destruct Ho as [T1 F1 H1 _ _ _ _ _ _ _ _ _ _ _].
  destruct Hp as [[Hp Hlx]|[Hp _]].
  - rewrite T1, T2 in Hp. apply Temp_inj in Hp; [|done..].
    assert (r = r') as <- by (eapply (i_ids _ _ HC); simpl; [by rewrite lookup_insert_eq|done..]).
    simpl in Hx. rewrite lookup_insert_eq in Hx. congruence.
  - rewrite F1, T2 in Hp. by apply Temp_Object in Hp.
Qed.

Lemma negative_closed g w d : Core g w → d < 0 → fds w !! d = None.
Proof.
  intros HC Hd. destruct (fds w !! d) as [i|] eqn:E; [|done].
  apply (i_fds _ _ HC) in E as (?&?&?&?&?&_). lia.
Qed.

(** After an abort: the upload is finished when its last write has ended. *)
Lemma finish_aborted g r u w ino body : Core g (set_obj r u w) → g !! r = Some ino →
  received w !! id (meta u) = Some body → finished u = false → aborted u = true → pending_ u = ∅ →
  Core g (set_obj r (set_cleanup false (set_finished u)) (Take r w)).
Proof.
  intros HC Hg Hb Hf Ha Hp. assert (live u = false) as Hl by (unfold live; by rewrite Ha).
  pose proof (ending_obj g r u w ino body HC Hg Hb) as Ho.
  pose proof (o_dead _ _ _ _ _ Ho Hl) as Hfd.
  assert (live (set_cleanup false (set_finished u)) = false) as Hl' by (unfold live; apply andb_false_r).
  eapply (Core_end g w _ r u _ ino body); try done.
  - split; simpl; try done; [apply HC|set_solver|..].
    + intros d. case_decide; [|done]. eapply (negative_closed _ _ d HC). lia.
    + by left.
    + intros p i Hpi. left. split; [done|]. intros ->. by rewrite (temp_gone _ _ _ _ HC Hl) in Hpi.
  - destruct Ho. split; simpl; rewrite ?Hl'; auto; done || congruence.
Qed.

(** What a method of an upload that was going on has done when the upload is over:
    one answer, the right one, and the files as it says. *)
Definition settled (a : answers) (r body : bytes) (u u' : upload) (w' : world) : Prop :=
  live u = true → finished u' = true →
  request_complete u' = true ∧ replies r (log w') = [answer_of a body u'] ∧
  stored_as a body u' (disk w').

Lemma settled_not a r body u u' w' : finished u' = finished u → settled a r body u u' w'.
Proof. intros ? [_ ?%negb_true_iff]%andb_true_iff ?. congruence. Qed.

Lemma TryFinish_inv g a r u w u' w' body :
  Core g (set_obj r u w) → received w !! id (meta u) = Some body →
  TryFinish root_ a r u w = (u', w') →
  Core g (set_obj r u' w') ∧ idle_ok u' ∧ objs w' = objs w ∧ settled a r body u u' w'.
Proof.
  intros HC Hb E. assert (∃ ino, g !! r = Some ino) as [ino Hg].
  { apply (i_dom _ _ HC). simpl. rewrite lookup_insert_eq. eauto. }
  pose proof (ending_obj g r u w ino body HC Hg Hb) as Ho.
  destruct (finished u) eqn:Hf.
  { unfold TryFinish in E. rewrite Hf in E. injection E as <- <-. split_and!; try done.
    - intros ?. congruence.
    - intros [_ ?%negb_true_iff]%andb_true_iff. congruence. }
  destruct (aborted u) eqn:Ha.
  { unfold TryFinish, Cleanup in E. rewrite Hf, Ha in E.
    assert (settled a r body u u' w') as Hs
      by (intros [?%negb_true_iff _]%andb_true_iff; congruence).
    case_bool_decide as Hp.
    - simpl in E. rewrite (o_cleanup _ _ _ _ _ Ho), Hf in E. injection E as <- <-.
      split_and!; try done. by eapply finish_aborted.
    - injection E as <- <-. split_and!; try done. by intros _ _. }
  assert (live u = true) as Hl by (by unfold live; rewrite Ha, Hf).
  destruct (request_complete u && bool_decide (pending_ u = ∅)) eqn:Hr.
  - apply andb_true_iff in Hr as [Hr Hp%bool_decide_eq_true].
    destruct (TryFinish_ready g r u w ino body HC Hg) with (a := a) (u' := u') (w' := w')
      as (HC'&Hf'&Hobj&Hst); try done.
    split_and!; try done; [|by intros _ _]. intros ?. congruence.
  - unfold TryFinish in E. rewrite Hf, Ha, (o_deferred _ _ _ _ _ Ho Hf) in E.
    assert ((u, w) = (u', w')) as [= <- <-].
    { destruct (request_complete u); simpl in *; [|done]. apply bool_decide_eq_false in Hr.
      by rewrite bool_decide_true in E. }
    split_and!; try done; [|by apply settled_not]. intros _ [Hrc|?]; [|congruence].
    rewrite Hrc in Hr. simpl in Hr. by apply bool_decide_eq_false in Hr.
Qed.

(** ** Writes *)

Lemma overwrite_length off data c : 0 ≤ off →
  zlen (overwrite off data c) = Z.max (zlen c) (off + zlen data).
Proof.
  intros Hoff. unfold overwrite, zlen, ztake, zdrop.
  rewrite !length_app, length_take, length_app, length_replicate, length_drop. lia.
Qed.

Lemma overwrite_inside off data c k : 0 ≤ off → off ≤ Z.of_nat k < off + zlen data →
  overwrite off data c !! k = data !! (k - Z.to_nat off)%nat.
Proof.
  intros Hoff Hk. unfold overwrite, zlen, ztake in *.
  assert (length (take (Z.to_nat off) (c ++ replicate (Z.to_nat off - length c) "000"%char)) =
    Z.to_nat off) as Hl by (rewrite length_take, length_app, length_replicate; lia).
  rewrite lookup_app_r, lookup_app_l by lia. by rewrite Hl.
Qed.

Lemma overwrite_outside off data c k b : 0 ≤ off →
  ¬ (off ≤ Z.of_nat k < off + zlen data) → c !! k = Some b → overwrite off data c !! k = Some b.
Proof.
  intros Hoff Hk Hc. unfold overwrite, zlen, ztake, zdrop in *.
  assert (length (take (Z.to_nat off) (c ++ replicate (Z.to_nat off - length c) "000"%char)) =
    Z.to_nat off) as Hl by (rewrite length_take, length_app, length_replicate; lia).
  destruct (decide (k < Z.to_nat off)%nat).
  - rewrite lookup_app_l by lia. rewrite lookup_take_lt by lia. by rewrite lookup_app_l by (by eapply lookup_lt_Some).
  - rewrite lookup_app_r, lookup_app_r by lia. rewrite lookup_drop, Hl.
    rewrite <-Hc. f_equal. lia.
Qed.

Lemma pending_sum_insert n op m : m !! n = None →
  pending_sum (<[n := op]> m) = zlen (buffer op) + pending_sum m.
Proof. intros Hn. unfold pending_sum. rewrite map_fold_insert_L; [done|lia|done]. Qed.

Lemma pending_sum_delete n op m : m !! n = Some op →
  pending_sum m = zlen (buffer op) + pending_sum (delete n m).
Proof.
  intros Hn. rewrite <-(pending_sum_insert n) by apply lookup_delete_eq. by rewrite insert_delete_id.
Qed.

Lemma pending_sum_nonneg m : 0 ≤ pending_sum m.
Proof.
  induction m as [|n op m Hn IH] using map_ind; [done|].
  rewrite pending_sum_insert by done. pose proof (zlen_nonneg (buffer op)). lia.
Qed.

(** The body between two offsets, by position. *)
Lemma slice_lookup (l body : bytes) o k : 0 ≤ o → l = ztake (zlen l) (zdrop o body) →
  o ≤ Z.of_nat k < o + zlen l → l !! (k - Z.to_nat o)%nat = body !! k.
Proof.
  intros Ho -> Hk. unfold ztake, zdrop, zlen in *. revert Hk. rewrite length_take. intros Hk.
  rewrite lookup_take_lt by lia. rewrite lookup_drop. f_equal. lia.
Qed.

Lemma op_ok_app body chunk op : op_ok body op → op_ok (body ++ chunk) op.
Proof. intros (?&?&?). pose proof (zlen_nonneg chunk). split_and!; rewrite ?zlen_app; lia. Qed.

Lemma content_append body chunk u n c : content_ok body u c → pending_ u !! n = None →
  zlen (body ++ chunk) < 2 ^ 32 →
  content_ok (body ++ chunk)
    (set_pending (<[n := mkPendingWrite chunk 0 (submitted_bytes u)]> (pending_ u))
      (set_bytes (u64 (submitted_bytes u + zlen chunk)) (written_bytes u) u)) c.
Proof.
  intros [Hs Hl Ho Hc Hsum Hw] Hn Hsmall. rewrite zlen_app in Hsmall.
  pose proof (zlen_nonneg body). pose proof (zlen_nonneg chunk).
  split; simpl; rewrite ?zlen_app.
  - rewrite u64_small by lia. lia.
  - lia.
  - intros n' op [[<- <-]|[_ Hop]]%lookup_insert_Some; simpl.
    + split; [split_and!; simpl; rewrite ?zlen_app; lia|]. rewrite Hs, zdrop_app_ge, Z.sub_diag, zdrop_0 by lia.
      by rewrite ztake_all.
    + destruct (Ho n' op Hop) as ((?&?&?)&Hb). split; [by apply op_ok_app|].
      rewrite zdrop_app_le, ztake_app_le; [done|..]; [|lia]. rewrite zlen_zdrop by lia. lia.
  - intros k Hk. rewrite length_app in Hk. destruct (decide (k < length body)%nat) as [Hkb|Hkb].
    + rewrite lookup_app_l by done. destruct (Hc k Hkb) as [->|(n'&op&Hop&?)]; [by left|right].
      exists n', op. split; [|done]. rewrite lookup_insert_ne; [done|]. congruence.
    + right. eexists n, _. rewrite lookup_insert_eq. split; [done|]. simpl. unfold zlen in *. lia.
  - rewrite pending_sum_insert by done. simpl. lia.
  - done.
Qed.

(** The kernel writes a part of a buffer. *)
Lemma content_progress body u c n op result : content_ok body u c → pending_ u !! n = Some op →
  0 < result ≤ zlen (buffer op) - written op →
  content_ok body
    (set_pending (<[n := mkPendingWrite (buffer op) (written op + result) (offset op)]> (pending_ u)) u)
    (overwrite (offset op + written op) (ztake result (zdrop (written op) (buffer op))) c).
Proof.
  intros [Hs Hl Ho Hc Hsum Hw] Hn Hres. destruct (Ho n op Hn) as ((Hwr&Hoff&Hend)&Hb).
  set (data := ztake result (zdrop (written op) (buffer op))).
  assert (zlen data = result) as Hd.
  { unfold data. apply zlen_ztake. rewrite zlen_zdrop by lia. lia. }
  split; simpl.
  - done.
  - rewrite overwrite_length by lia. lia.
  - intros n' op' [[<- <-]|[_ Hop]]%lookup_insert_Some; simpl; [|by apply (Ho n')].
    split; [split_and!; simpl; lia|done].
  - intros k Hk. destruct (decide (offset op + written op ≤ Z.of_nat k < offset op + written op + zlen data))
      as [Hin|Hout].
    + left. rewrite overwrite_inside by lia. rewrite <-(slice_lookup (buffer op) body (offset op) k) by (done || lia).
      unfold data, ztake, zdrop. rewrite lookup_take_lt by lia. rewrite lookup_drop. f_equal. lia.
    + destruct (Hc k Hk) as [Hck|(n'&op'&Hop&?)].
      * left. destruct (lookup_lt_is_Some_2 body k Hk) as [b Hbk]. rewrite Hbk in *.
        apply overwrite_outside; [lia|done|done].
      * right. destruct (decide (n' = n)) as [->|Hne].
        -- rewrite Hn in Hop. injection Hop as <-. eexists n, _. rewrite lookup_insert_eq.
           split; [done|]. simpl. lia.
        -- exists n', op'. by rewrite lookup_insert_ne.
  - rewrite (pending_sum_delete n op) in Hsum by done.
    rewrite <-insert_delete_eq, pending_sum_insert by apply lookup_delete_eq. simpl. lia.
  - done.
Qed.

(** The last part of a buffer is written. *)
Lemma content_retire body u c n op : content_ok body u c → pending_ u !! n = Some op →
  written op = zlen (buffer op) → zlen body < 2 ^ 32 →
  content_ok body
    (set_pending (delete n (pending_ u))
      (set_bytes (submitted_bytes u) (u64 (written_bytes u + zlen (buffer op))) u)) c.
Proof.
  intros [Hs Hl Ho Hc Hsum Hw] Hn Hwr Hsmall.
  rewrite (pending_sum_delete n op) in Hsum by done.
  pose proof (pending_sum_nonneg (delete n (pending_ u))). pose proof (zlen_nonneg (buffer op)).
  split; simpl; rewrite ?u64_small by lia; try done; try lia.
  - intros n' op' [_ Hop]%lookup_delete_Some. by apply (Ho n').
  - intros k Hk. destruct (Hc k Hk) as [?|(n'&op'&Hop&?)]; [by left|right].
    exists n', op'. split; [|done]. rewrite lookup_delete_ne; [done|]. intros <-.
    rewrite Hn in Hop. injection Hop as <-. lia.
Qed.

Lemma Core_write g w w' r u u' ino body body' :
  Core g (set_obj r u w) → g !! r = Some ino → finished u = false →
  received w !! id (meta u) = Some body →
  same_world r ino (id (meta u)) w w' → is_Some (inodes (disk w') !! ino) → same_upload u u' →
  received w' !! id (meta u) = Some body' → zlen body' < 2 ^ 32 →
  cleanup_ u' = cleanup_ u → deferred_ u' = request_complete u' →
  (∀ c, live u = true → failed u' = false → inodes (disk w') !! ino = Some c → content_ok body' u' c) →
  (∀ n op, pending_ u' !! n = Some op → op_ok body' op) →
  (∀ n, kernel w' !! (r, n) = (op ← pending_ u' !! n; Some (request_of ino op))) →
  (∀ n, is_Some (pending_ u' !! n) → (n < next_event w')%nat) →
  Core g (set_obj r u' w').
Proof.
  intros HC Hg Hf Hb HS Hi HU Hb' Hsmall Hcl Hd Hc Hop Hk Hn.
  pose proof (ending_obj g r u w ino body HC Hg Hb) as Ho.
  apply (Core_update g w w' r u u' ino body'); try done.
  destruct HU as [U1 U2 U3 U4 U5 U6]. destruct HS as [S1 S2 S3 S4 S5 S6 S7 S8 S9 S10].
  assert (live u' = live u) as Hl by (unfold live; congruence).
  destruct Ho as [O1 O2 O3 O4 O5 O6 O7 O8 O9 O10 O11 O12 O13 O14].
  split; rewrite ?Hl, ?U1, ?U2, ?U3, ?U4, ?U5, ?U6, ?S6, ?S5, ?Hcl, ?Hf; auto; congruence.
Qed.

Lemma kernel_of g w r u ino n : Core g (set_obj r u w) → g !! r = Some ino →
  kernel w !! (r, n) = (op ← pending_ u !! n; Some (request_of ino op)).
Proof.
  intros HC Hg. pose proof (i_kernel _ _ HC r n) as Hk. simpl in Hk.
  by rewrite lookup_insert_eq, Hg in Hk.
Qed.

Lemma fds_of g w r u ino : Core g (set_obj r u w) → g !! r = Some ino → 0 ≤ fd u →
  fds w !! fd u = Some ino.
Proof.
  intros HC Hg Hfd. apply (i_fds _ _ HC). exists r, u. simpl. by rewrite lookup_insert_eq.
Qed.

Lemma next_of g w r u n : Core g (set_obj r u w) → is_Some (pending_ u !! n) → (n < next_event w)%nat.
Proof. intros HC. apply (i_next _ _ HC r u n). simpl. by rewrite lookup_insert_eq. Qed.

(** A request that is prepared goes to the kernel at once. *)
Lemma SubmitPendingWrite_spec a r n op u w ino :
  sq w = [] ∧ pending_submissions_ w = 0 → (0 ≤ fd u → fds w !! fd u = Some ino) →
  (0 ≤ fd u → 0 ≤ written op ≤ zlen (buffer op) ∧ 0 ≤ offset op ∧
     offset op + zlen (buffer op) < 2 ^ 32) →
  (∃ e, SubmitPendingWrite batch a r n op u w = (set_failed e u, w, false)) ∨
  0 ≤ fd u ∧ SubmitPendingWrite batch a r n op u w =
    (u, set_ring [] 0 (<[(r, n) := request_of ino op]> (kernel w)) w, true).
Proof.
  intros [Hq Hp] Hfd Hop. unfold SubmitPendingWrite.
  destruct (Z.ltb_spec (fd u) 0) as [|Hpos]; [by eauto|]. destruct (prep_ok a); [|by eauto].
  right. split; [done|]. destruct (Hop Hpos) as (?&?&?). simpl. unfold Submit. simpl. rewrite Hp.
  change (u32 (0 + 1)) with 1. rewrite (proj2 (Z.ltb_ge 1 batch)) by done.
  unfold FlushSubmissions. simpl. rewrite Hq. simpl. rewrite (Hfd Hpos). unfold request_of.
  rewrite u64_small by lia. rewrite u32_small by lia. rewrite ztake_all; [done|].
  rewrite zlen_zdrop; lia.
Qed.

Section Chunk.
Context (g : gmap bytes nat) (r : bytes) (u : upload) (w : world) (ino : nat) (body chunk : bytes).
Context (HC : Core g (set_obj r u w)) (Hg : g !! r = Some ino) (Hf : finished u = false).
Context (Hb : received w !! id (meta u) = Some body) (Hsmall : zlen (body ++ chunk) < 2 ^ 32).
Let w0 := set_received (alter (λ body, body ++ chunk) (id (meta u)) (received w)) w.
Let n := next_event w0.
Let op := mkPendingWrite chunk 0 (submitted_bytes u).

Lemma chunk_fresh : pending_ u !! n = None.
Proof.
  apply eq_None_not_Some. intros Hs%(next_of g w r u n HC). unfold n in Hs. simpl in Hs. lia.
Qed.

Lemma chunk_next n' : is_Some (pending_ u !! n') → (n' < S n)%nat.
Proof. intros Hs%(next_of g w r u n' HC). unfold n. simpl. lia. Qed.

Lemma chunk_received : received w0 !! id (meta u) = Some (body ++ chunk).
Proof. simpl. by rewrite lookup_alter_eq, Hb. Qed.

(** The file of an upload that goes on has as many bytes to come as were received. *)
Lemma chunk_offset : failed u = false → 0 ≤ fd u → submitted_bytes u = zlen body.
Proof.
  pose proof (ending_obj g r u w ino body HC Hg Hb) as Ho. intros Hfail Hfd.
  assert (live u = true) as Hl by (destruct (live u) eqn:Hl; [done|]; apply Ho in Hl; lia).
  destruct (o_inode _ _ _ _ _ Ho) as [c Hc]. by apply (o_content _ _ _ _ _ Ho c).
Qed.

(** A state of the upload in which the chunk is noted but no write is under way. *)
Lemma Core_unsent u' nx : same_upload u u' → cleanup_ u' = cleanup_ u →
  deferred_ u' = deferred_ u → request_complete u' = request_complete u → pending_ u' = pending_ u →
  failed u' = true → (next_event w ≤ nx)%nat → (∀ n', is_Some (pending_ u !! n') → (n' < nx)%nat) →
  Core g (set_obj r u' (set_next nx w0)).
Proof.
  pose proof (ending_obj g r u w ino body HC Hg Hb) as Ho. intros HU Hcl Hd Hrc Hpe Hfail Hnx Hlt.
  eapply (Core_write g w _ r u u' ino body (body ++ chunk)); try done.
  - split; simpl; try done; [apply HC|]. intros; by rewrite lookup_alter_ne.
  - apply Ho.
  - apply chunk_received.
  - rewrite Hd, Hrc. by apply Ho.
  - congruence.
  - intros n' op'. rewrite Hpe. intros Hop. exact (op_ok_app _ _ _ (o_ops _ _ _ _ _ Ho n' _ Hop)).
  - intros n'. rewrite Hpe. by apply (kernel_of g w r u ino n').
  - intros n'. rewrite Hpe. apply Hlt.
Qed.

(** The write of the chunk is under way. *)
Lemma Core_sent : failed u = false → 0 ≤ fd u →
  Core g (set_obj r
    (set_pending (<[n := op]> (pending_ u))
      (set_bytes (u64 (submitted_bytes u + zlen chunk)) (written_bytes u) u))
    (set_ring [] 0 (<[(r, n) := request_of ino op]> (kernel w)) (set_next (S n) w0))).
Proof.
  pose proof (ending_obj g r u w ino body HC Hg Hb) as Ho. intros Hfail Hfd.
  eapply (Core_write g w _ r u _ ino body (body ++ chunk)); try done.
  - split; simpl; try done; [intros; by rewrite lookup_alter_ne| |unfold n; simpl; lia].
    intros r' n' Hne. rewrite lookup_insert_ne by congruence. done.
  - apply Ho.
  - apply chunk_received.
  - simpl. by apply Ho.
  - intros c Hl _ Hc.
    exact (content_append body chunk u n c (o_content _ _ _ _ _ Ho c Hl Hfail Hc) chunk_fresh Hsmall).
  - intros n' op' Hop. simpl in Hop.
    apply lookup_insert_Some in Hop as [[<- <-]|[_ Hop]]; [|exact (op_ok_app _ _ _ (o_ops _ _ _ _ _ Ho n' _ Hop))].
    pose proof (zlen_nonneg chunk). pose proof (zlen_nonneg body). pose proof (chunk_offset Hfail Hfd).
    split_and!; simpl; rewrite ?zlen_app; lia.
  - intros n'. simpl. destruct (decide (n' = n)) as [->|Hne]; [by rewrite !lookup_insert_eq|].
    rewrite !lookup_insert_ne by congruence. by apply (kernel_of g w r u ino n').
  - intros n'. simpl. destruct (decide (n' = n)) as [->|Hne]; [lia|].
    rewrite lookup_insert_ne by congruence. apply chunk_next.
Qed.

Lemma SubmitChunk_inv a u' w' : request_complete u = false → idle_ok u →
  SubmitChunk root_ batch a r chunk u w0 = (u', w') →
  Core g (set_obj r u' w') ∧ idle_ok u' ∧ objs w' = objs w ∧
  settled a r (body ++ chunk) u u' w'.
Proof.
  intros Hrc Hidle. unfold SubmitChunk. rewrite Hf, orb_false_r. destruct (failed u) eqn:Hfail.
  { intros [= <- <-]. split_and!; try done; [|by apply settled_not].
    apply (Core_unsent u (next_event w)); try done. intros n'. by apply (next_of g w r u n'). }
  fold n op. set (u1 := set_pending _ _).
  destruct (SubmitPendingWrite_spec a r n op u1 (set_next (S n) w0) ino) as [[e ->]|[Hfd ->]].
  { apply HC. }
  { intros Hfd. exact (fds_of g w r u ino HC Hg Hfd). }
  { intros Hfd. rewrite zlen_app in Hsmall. pose proof (zlen_nonneg chunk).
    pose proof (zlen_nonneg body). pose proof (chunk_offset Hfail Hfd). simpl. lia. }
  - cbn [negb]. set (u2 := set_pending (delete n _) _). intros E.
    eapply (TryFinish_inv g) in E as (HC'&Hi'&Ho'&Hs'); [| |exact chunk_received]; [by split_and!|].
    apply Core_unsent; try done; [simpl; apply delete_insert_id, chunk_fresh|unfold n; simpl; lia|].
    apply chunk_next.
  - intros [= <- <-]. split_and!; try done; [by apply Core_sent|..|by apply settled_not].
    intros _ _. simpl. apply insert_non_empty.
Qed.
End Chunk.

(** The end of a write: what the kernel has put into the file, and the request gone. *)
Definition written_world (r : bytes) (n : nat) (ino : nat) (off result : Z) (data : bytes) (w : world)
    : world :=
  let F := if 0 <? result then pwrite ino off (ztake result data) (disk w) else disk w in
  set_ring (sq w) (pending_submissions_ w) (delete (r, n) (kernel w)) (set_disk F w).

Section Completion.
Context (g : gmap bytes nat) (r : bytes) (u : upload) (w : world) (ino : nat) (body : bytes).
Context (HC : Core g (set_obj r u w)) (Hg : g !! r = Some ino).
Context (Hb : received w !! id (meta u) = Some body).
Context (n : nat) (op : PendingWrite) (Hn : pending_ u !! n = Some op) (result : Z).

Let off := offset op + written op.
Let data := zdrop (written op) (buffer op).
Let w0 := written_world r n ino off result data w.

Lemma completion_unfinished : finished u = false.
Proof.
  destruct (finished u) eqn:Hf; [|done]. pose proof (ending_obj g r u w ino body HC Hg Hb) as Ho.
  apply Ho in Hf. rewrite Hf in Hn. by rewrite lookup_empty in Hn.
Qed.

(** Another state of the upload after the write: what has to be shown of it. *)
Lemma Core_completion u' k : same_upload u u' → cleanup_ u' = cleanup_ u →
  deferred_ u' = deferred_ u → request_complete u' = request_complete u →
  (∀ r' n', r' ≠ r → k !! (r', n') = kernel w !! (r', n')) →
  (∀ n', k !! (r, n') = (op ← pending_ u' !! n'; Some (request_of ino op))) →
  (∀ n', is_Some (pending_ u' !! n') → is_Some (pending_ u !! n')) →
  (∀ c, live u = true → failed u' = false → content_ok body u c →
     content_ok body u' (if 0 <? result then overwrite off (ztake result data) c else c)) →
  (∀ n' op', pending_ u' !! n' = Some op' → op_ok body op') →
  (failed u' = false → failed u = false) →
  Core g (set_obj r u' (set_ring [] 0 k w0)).
Proof.
  intros HU Hcl Hd Hrc Hk Hkr Hpe Hc Hop Hf.
  pose proof (ending_obj g r u w ino body HC Hg Hb) as Ho. pose proof completion_unfinished as Hfin.
  assert (∀ c, inodes (disk w0) !! ino = Some c → ∃ c0, inodes (disk w) !! ino = Some c0 ∧
    c = if 0 <? result then overwrite off (ztake result data) c0 else c0) as Hino.
  { intros c. unfold w0, written_world. simpl. destruct (0 <? result); simpl; [|by eauto].
    rewrite lookup_alter_eq. intros (c0&H1&->)%fmap_Some. by eauto. }
  eapply (Core_write g w _ r u u' ino body body); try done.
  - split; simpl; try done; [unfold w0, written_world; by destruct (0 <? result)|].
    intros i Hi. unfold w0, written_world. simpl. destruct (0 <? result); simpl; [|done].
    by rewrite lookup_alter_ne.
  - destruct (o_inode _ _ _ _ _ Ho) as [c Hc0]. simpl. unfold w0, written_world. simpl.
    destruct (0 <? result); simpl; [|by eauto]. rewrite lookup_alter_eq, Hc0. by eexists.
  - apply Ho.
  - rewrite Hd, Hrc. by apply Ho.
  - intros c Hl Hfl Hin. simpl in Hin. destruct (Hino c Hin) as (c0&Hc0&->).
    apply Hc; [done|done|]. apply Ho; auto.
  - intros n' Hs. simpl. apply (next_of g w r u n' HC). auto.
Qed.

Lemma kernel_erased n' : delete (r, n) (kernel w) !! (r, n') =
  (op ← delete n (pending_ u) !! n'; Some (request_of ino op)).
Proof.
  destruct (decide (n' = n)) as [->|Hne]; [by rewrite !lookup_delete_eq|].
  rewrite !lookup_delete_ne by congruence. by apply (kernel_of g w r u ino n').
Qed.

Lemma written_ring : set_ring [] 0 (delete (r, n) (kernel w)) w0 = w0.
Proof.
  unfold w0, written_world. destruct (i_sq _ _ HC) as [Hq Hp]. simpl in Hq, Hp.
  unfold set_ring. simpl. by rewrite Hq, Hp.
Qed.

(** The write is over, with or without an error. *)
Lemma Core_erased u' : same_upload u u' → cleanup_ u' = cleanup_ u →
  deferred_ u' = deferred_ u → request_complete u' = request_complete u →
  pending_ u' = delete n (pending_ u) →
  (∀ c, live u = true → failed u' = false → content_ok body u c →
     content_ok body u' (if 0 <? result then overwrite off (ztake result data) c else c)) →
  (failed u' = false → failed u = false) →
  Core g (set_obj r u' w0).
Proof.
  intros HU Hcl Hd Hrc Hpe Hc Hf. rewrite <-written_ring.
  apply Core_completion; try done.
  - intros r' n' Hne. by rewrite lookup_delete_ne by congruence.
  - intros n'. rewrite Hpe. apply kernel_erased.
  - intros n'. rewrite Hpe. intros [x [_ Hx]%lookup_delete_Some]. by eexists.
  - intros n' x. rewrite Hpe. intros [_ Hx]%lookup_delete_Some.
    exact (o_ops _ _ _ _ _ (ending_obj g r u w ino body HC Hg Hb) n' x Hx).
Qed.

(** A part of the buffer is written, and the rest is on its way. *)
Lemma Core_resubmitted : 0 < result ≤ zlen data →
  let op1 := mkPendingWrite (buffer op) (written op + result) (offset op) in
  Core g (set_obj r (set_pending (<[n := op1]> (pending_ u)) u)
    (set_ring [] 0 (<[(r, n) := request_of ino op1]> (kernel w0)) w0)).
Proof.
  pose proof (ending_obj g r u w ino body HC Hg Hb) as Ho. intros Hres op1.
  destruct (o_ops _ _ _ _ _ Ho n op Hn) as (Hw&Hoff&Hbound).
  assert (zlen data = zlen (buffer op) - written op) as Hdata by (apply zlen_zdrop; lia).
  apply Core_completion; try done.
  - intros r' n' Hne. rewrite lookup_insert_ne by congruence. simpl.
    by rewrite lookup_delete_ne by congruence.
  - intros n'. simpl. destruct (decide (n' = n)) as [->|Hne]; [by rewrite !lookup_insert_eq|].
    rewrite !lookup_insert_ne, lookup_delete_ne by congruence. by apply (kernel_of g w r u ino n').
  - intros n'. simpl. destruct (decide (n' = n)) as [->|Hne]; [by eauto|by rewrite lookup_insert_ne].
  - intros c _ _ Hc. rewrite (proj2 (Z.ltb_lt 0 result)) by lia. apply content_progress; [done|done|lia].
  - intros n' op' Hop. simpl in Hop. apply lookup_insert_Some in Hop as [[<- <-]|[_ Hop]].
    + split_and!; simpl; lia.
    + by apply (o_ops _ _ _ _ _ Ho n').
Qed.

(** The write is over, and the upload finishes if it was the last thing to wait for. *)
Lemma erased_inv a x u' w' : same_upload u x → cleanup_ x = cleanup_ u →
  deferred_ x = deferred_ u → request_complete x = request_complete u →
  pending_ x = delete n (pending_ u) →
  (∀ c, live u = true → failed x = false → content_ok body u c →
     content_ok body x (if 0 <? result then overwrite off (ztake result data) c else c)) →
  (failed x = false → failed u = false) →
  TryFinish root_ a r x w0 = (u', w') →
  Core g (set_obj r u' w') ∧ idle_ok u' ∧ objs w' = objs w ∧ settled a r body u u' w'.
Proof.
  intros HU H1 H2 H3 H4 H5 H6 E.
  eapply (TryFinish_inv g) in E as (?&?&?&Hs); [|by apply Core_erased|].
  - split_and!; try done. intros Hl. apply Hs. destruct HU as [_ _ _ _ Ua Uf].
    unfold live in *. by rewrite Ua, Uf.
  - destruct HU as [-> _ _ _ _ _]. exact Hb.
Qed.

Lemma OnWrite_inv a u' w' d : result ≤ zlen data → idle_ok u →
  OnWrite root_ batch a r n result u w0 = (u', w', d) →
  Core g (set_obj r u' w') ∧ idle_ok u' ∧ objs w' = objs w ∧ settled a r body u u' w'.
Proof.
  intros Hres Hidle. pose proof (ending_obj g r u w ino body HC Hg Hb) as Ho.
  unfold OnWrite. rewrite Hn. destruct (aborted u) eqn:Ha.
  { intros [= E _]. eapply erased_inv; [..|exact E]; try done.
    intros c Hl. unfold live in Hl. by rewrite Ha in Hl. }
  destruct (Z.leb_spec result 0) as [Hneg|Hpos].
  { intros [= E _]. eapply erased_inv; [..|exact E]; done. }
  destruct (o_ops _ _ _ _ _ Ho n op Hn) as (Hw&Hoff&Hbound).
  pose proof (o_small _ _ _ _ _ Ho) as Hsmall.
  assert (zlen data = zlen (buffer op) - written op) as Hdata by (apply zlen_zdrop; lia).
  set (op1 := mkPendingWrite (buffer op) (written op + result) (offset op)).
  set (u1 := set_pending (<[n := op1]> (pending_ u)) u).
  assert (delete n (pending_ u1) = delete n (pending_ u)) as Hdel by (simpl; by rewrite delete_insert_eq).
  cbn [written op1 buffer]. destruct (Z.ltb_spec (written op + result) (zlen (buffer op))) as [Hpart|Hfull].
  - destruct (SubmitPendingWrite_spec a r n op1 u1 w0 ino) as [[e ->]|[Hfd ->]].
    + apply HC.
    + intros Hfd. exact (fds_of g w r u ino HC Hg Hfd).
    + intros _. simpl. lia.
    + cbn [negb]. intros [= E _]. eapply erased_inv; [..|exact E]; done.
    + cbn [negb]. intros [= <- <- _]. split_and!; try done; [by apply Core_resubmitted|..|by apply settled_not].
      intros _ _. apply insert_non_empty.
  - intros [= E _]. eapply erased_inv; [..|exact E]; try done.
    intros c _ _ Hc. rewrite (proj2 (Z.ltb_lt 0 result)) by lia.
    apply (content_retire body u1 _ n op1); [apply content_progress; [done|done|lia]|apply lookup_insert_eq|simpl; lia|done].
Qed.
End Completion.

(** ** The end of the request *)

Lemma MarkRequestComplete_inv g a r u w ino body u' w' :
  Core g (set_obj r u w) → g !! r = Some ino → finished u = false →
  received w !! id (meta u) = Some body →
  MarkRequestComplete root_ a r u w = (u', w') →
  Core g (set_obj r u' w') ∧ idle_ok u' ∧ objs w' = objs w ∧ settled a r body u u' w'.
Proof.
  intros HC Hg Hf Hb E. pose proof (ending_obj g r u w ino body HC Hg Hb) as Ho.
  apply (TryFinish_inv g a r (set_complete u)); [|done|done].
  eapply (Core_write g w w r u (set_complete u) ino body body); try done.
  - split; try done. apply HC.
  - apply Ho.
  - apply Ho.
  - intros c Hl Hfl Hc. destruct (o_content _ _ _ _ _ Ho c Hl Hfl Hc). by split.
  - intros n op. apply (o_ops _ _ _ _ _ Ho).
  - intros n. by apply (kernel_of g w r u ino n).
  - intros n. by apply (next_of g w r u n).
Qed.

(** The world of an upload that is aborted: descriptor closed, temporary file removed. *)
Lemma Core_aborted g r u w ino body o :
  Core g (set_obj r u w) → g !! r = Some ino → live u = true →
  received w !! id (meta u) = Some body → (∀ r', reply_to r' o = None) →
  Core g (set_obj r (set_fd (-1) (set_aborted u))
    ((if deferred_ u then emit o else λ w, w)
       (set_disk (remove (temp_path u) (disk w)).1 (set_fds (delete (fd u) (fds w)) w)))).
Proof.
  intros HC Hg Hl Hb Hout. pose proof (ending_obj g r u w ino body HC Hg Hb) as Ho.
  pose proof Hl as [Hna%negb_true_iff Hnf%negb_true_iff]%andb_true_iff.
  set (w1 := set_disk _ _). set (w2 := (if deferred_ u then _ else _) w1).
  assert (∀ r', replies r' (log w2) = replies r' (log w)) as Hlog.
  { intros r'. unfold w2. destruct (deferred_ u); [|done]. simpl. by apply replies_emit_other. }
  assert (∃ l, w2 = mkWorld (disk w1) (fds w1) (sq w1) (pending_submissions_ w1) (kernel w1)
    (next_event w1) (objs w1) (uploads_ w1) l (received w1)) as [l Hw2]
    by (unfold w2; destruct (deferred_ u); by eexists).
  eapply (Core_end g w w2 r u _ ino body); try done.
  - split; rewrite ?Hw2; simpl; try done.
    + apply HC.
    + set_solver.
    + intros d. case_decide; [subst; apply lookup_delete_eq|by rewrite lookup_delete_ne].
    + intros r' _. rewrite <-Hlog, Hw2. done.
    + by left.
    + intros p i [? ?]%lookup_delete_Some. by left.
    + intros p Hp _ _. by rewrite lookup_delete_ne.
  - rewrite Hlog. destruct Ho. split; simpl; rewrite ?Hw2; auto; done || congruence.
Qed.

Lemma Abort_inv g r u w ino body u' w' :
  Core g (set_obj r u w) → g !! r = Some ino → received w !! id (meta u) = Some body →
  idle_ok u → Abort r u w = (u', w') →
  Core g (set_obj r u' w') ∧ idle_ok u' ∧ objs w' = objs w ∧
  (∀ r', replies r' (log w') = replies r' (log w)).
Proof.
  intros HC Hg Hb Hidle. unfold Abort. destruct (finished u || aborted u) eqn:Hfa; [by intros [= <- <-]|].
  apply orb_false_iff in Hfa as [Hf Ha].
  assert (live u = true) as Hl by (unfold live; by rewrite Hf, Ha).
  pose proof (ending_obj g r u w ino body HC Hg Hb) as Ho.
  pose proof (Core_aborted g r u w ino body (AbortDeferred r) HC Hg Hl Hb (λ _, eq_refl)) as HC1.
  destruct (o_live _ _ _ _ _ Ho Hl) as [Hfd _].
  unfold Close. simpl. rewrite (proj2 (Z.leb_le 0 (fd u))) by done.
  change (deferred_ (set_fd (-1) (set_aborted u))) with (deferred_ u).
  set (w1 := set_disk _ _) in *.
  change (temp_path (set_fd (-1) (set_aborted u))) with (temp_path u). fold w1.
  replace (if deferred_ u then emit (AbortDeferred r) w1 else w1) with
    ((if deferred_ u then emit (AbortDeferred r) else λ w, w) w1) by (by destruct (deferred_ u)).
  set (w2 := (if deferred_ u then _ else _) w1) in *.
  assert (∀ r', replies r' (log w2) = replies r' (log w)) as Hlog.
  { intros r'. unfold w2. destruct (deferred_ u); [|done]. simpl. by apply replies_emit_other. }
  assert (objs w2 = objs w) as Hobj by (unfold w2; by destruct (deferred_ u)).
  assert (received w2 = received w) as Hrec by (unfold w2; by destruct (deferred_ u)).
  case_bool_decide as Hp.
  - unfold Cleanup. simpl. rewrite (o_cleanup _ _ _ _ _ Ho), Hf. intros [= <- <-].
    split_and!; try done. eapply finish_aborted; try done. simpl. by rewrite Hrec.
  - intros [= <- <-]. split_and!; try done. by intros _ _.
Qed.

(** ** Removing stored files *)

Record shrinks (F F' : files) : Prop := {
  sh_inodes : inodes F' = inodes F;
  sh_paths p i : paths F' !! p = Some i → paths F !! p = Some i;
  sh_temp i : hex i → paths F' !! TempObjectPath i = paths F !! TempObjectPath i;
}.

Lemma Core_shrink g w F : Core g w → shrinks (disk w) F → Core g (set_disk F w).
Proof.
  intros [I1 I2 I3 I4 I5 I6 I7 I8 I9 I10 I11 I12] [S1 S2 S3]. split; simpl; try done.
  - intros r u ino Hu Hg. destruct (I5 r u ino Hu Hg) as (b&Hb&Ho). exists b. split; [done|].
    destruct Ho as [O1 O2 O3 O4 O5 O6 O7 O8 O9 O10 O11 O12 O13 O14]. split; rewrite ?S1; try done.
    rewrite O1 in *. by rewrite S3.
  - intros p i Hp. destruct (I9 p i (S2 p i Hp)) as [Hi Ho]. rewrite S1. split; [done|].
    destruct Ho as [Ho|?]; [left|by right]. eapply owner_mono; [|exact Ho]. simpl.
    intros r u Hu Hg. exists u. split_and!; try done.
    + intros _ ?. split; [done|]. destruct (I5 r u i Hu Hg) as (b&->&_). eauto.
    + intros b ? _ (?&?&?&?). split; [done|]. split_and!; try done. simpl. by rewrite S1.
  - intros i c. rewrite S1. apply I12.
Qed.

Lemma shrinks_refl F : shrinks F F.
Proof. done. Qed.

Lemma shrinks_trans F1 F2 F3 : shrinks F1 F2 → shrinks F2 F3 → shrinks F1 F3.
Proof. intros [A1 A2 A3] [B1 B2 B3]. split; [congruence|auto|]. intros i Hi. by rewrite B3, A3. Qed.

Lemma shrinks_remove p F : (∀ i, hex i → p ≠ TempObjectPath i) → shrinks F (remove p F).1.
Proof.
  intros Hp. split; simpl; [done| |].
  - by intros q i [_ ?]%lookup_delete_Some.
  - intros i Hi. by rewrite lookup_delete_ne by auto.
Qed.

Lemma SafeId_path i : SafeId i = true → is_absolute i = false ∧ ("."%char : byte) ∉ i.
Proof.
  unfold SafeId. destruct (_ || _); [done|]. rewrite forallb_forall. intros Hi. split.
  - destruct i as [|c i]; [done|]. unfold is_absolute, starts_with. simpl.
    case_decide as Hc; [|by apply bool_decide_eq_false; intros []].
    subst. by specialize (Hi slash (or_introl eq_refl)).
  - intros Hd%list_elem_of_In. by apply Hi in Hd.
Qed.

Lemma shrinks_try can p F F' b e : try_remove can p F = (F', b, e) →
  (∀ i, hex i → p ≠ TempObjectPath i) → shrinks F F'.
Proof.
  unfold try_remove. destruct (can p); intros [= <- _ _] Hp; [by apply (shrinks_remove p)|apply shrinks_refl].
Qed.

Lemma Remove_shrinks can i F : shrinks F (Remove root_ can i F).1.
Proof.
  unfold Remove. destruct (SafeId i) eqn:Hs; [simpl|apply shrinks_refl].
  apply SafeId_path in Hs as [Ha Hd]. destruct (paths_shape' i Ha) as (_&Eo&Em).
  destruct (try_remove can (ObjectPath i) F) as [[F1 b1] e1] eqn:E1.
  destruct (try_remove can (MetaPath i) F1) as [[F2 b2] e2] eqn:E2. simpl.
  eapply shrinks_trans; [eapply (shrinks_try _ _ _ _ _ _ E1)|eapply (shrinks_try _ _ _ _ _ _ E2)];
    intros j Hj; destruct (paths_shape j Hj) as (->&_).
  - rewrite Eo. intros E%app_inv_head%app_inv_head. apply Hd. rewrite E. set_solver.
  - rewrite Em. by intros E%app_inv_head.
Qed.

Lemma entry_shape e : meta_entry root_ e → ∃ name, e = base root_ ++ txt "meta/" ++ name.
Proof.
  intros (name&Hn&->). exists name. assert (is_absolute name = false) as Ha.
  { destruct name as [|c name]; [done|]. unfold is_absolute, starts_with. simpl.
    rewrite decide_False by (intros <-; set_solver). apply bool_decide_eq_false. by intros []. }
  pose proof (paths_shape' name Ha) as (_&_&Hm). unfold DropStore.MetaPath in Hm.
  rewrite !app_assoc in Hm. apply app_inv_tail in Hm. by rewrite Hm, <-!app_assoc.
Qed.

(** A file of the directory of records with something to parse in it is a record. *)
Lemma entry_record g w e f : Core g w → meta_entry root_ e →
  ParseMeta (ReadFile e (disk w)) = Some f → hex (id f).
Proof.
  intros HC (name&Hshape)%entry_shape Hf. unfold ReadFile, read_path in Hf.
  destruct (paths (disk w) !! e) as [i|] eqn:Hp; [|done]. simpl in Hf.
  destruct (i_paths _ _ HC _ _ Hp) as [[c Hc] [(r&u&b&Hu&Hg&_&Hpp)|[_ Hg]]].
  - exfalso. destruct (i_obj _ _ HC r u i Hu Hg) as (b'&_&[T1 F1 H1 _ _ _ _ _ _ _ _ _ _ _]).
    destruct (paths_shape _ H1) as (Et&Eo&_). rewrite T1, F1, Et, Eo, Hshape in Hpp.
    destruct Hpp as [[E _]|[E _]]; by apply app_inv_head in E.
  - destruct (i_meta _ _ HC i c Hg Hc) as (n&file&Hh&->). rewrite Hc in Hf. simpl in Hf.
    by rewrite (ParseMeta_cut n file f Hh Hf).
Qed.

Lemma CleanupExpired_inv g can t es w : Core g w → Forall (meta_entry root_) es →
  Core g (set_disk (CleanupExpired root_ can t es (disk w)) w) ∧
  shrinks (disk w) (CleanupExpired root_ can t es (disk w)).
Proof.
  intros HC Hes. revert w HC. induction Hes as [|e es He Hes IH]; intros w HC; simpl.
  { split; [by destruct w|apply shrinks_refl]. }
  case_bool_decide; [by apply IH|].
  destruct (ParseMeta (ReadFile e (disk w))) as [f|] eqn:Hf; [|by apply IH].
  destruct (t <? expires_at f); [by apply IH|].
  pose proof (entry_record g w e f HC He Hf) as Hh.
  destruct (try_remove can (ObjectPath (id f)) (disk w)) as [[F1 b1] e1] eqn:E1.
  destruct (try_remove can e F1) as [[F b2] e2] eqn:E2.
  assert (shrinks (disk w) F) as Hs.
  { eapply shrinks_trans; [eapply (shrinks_try _ _ _ _ _ _ E1)|eapply (shrinks_try _ _ _ _ _ _ E2)].
    - intros i Hi E. by apply (Temp_Object i (id f)).
    - intros i Hi ->. apply entry_shape in He as [name E]. destruct (paths_shape i Hi) as (Et&_).
      rewrite Et in E. by apply app_inv_head in E. }
  pose proof (Core_shrink g w F HC Hs) as HC1. destruct (IH (set_disk F w) HC1) as [H1 H2].
  split; [exact H1|]. by eapply shrinks_trans.
Qed.

(** ** A new upload *)

Definition fresh_upload (d : Z) (m : DropFile) (e : Z) : upload :=
  mkUpload d (TempObjectPath (id m)) (ObjectPath (id m)) m e 0 0 false false false false [] false ∅ true.

Lemma temp_unused g w i : Core g w → hex i → received w !! i = None →
  paths (disk w) !! TempObjectPath i = None.
Proof.
  intros HC Hi Hr. destruct (paths (disk w) !! TempObjectPath i) as [ino|] eqn:E; [exfalso|done].
  destruct (i_paths _ _ HC _ _ E) as [_ [(r&u&b&Hu&Hg&Hb&Hp)|[(j&Hj&Ej) _]]].
  2: { destruct (Meta_other j i Hj Hi). congruence. }
  destruct (i_obj _ _ HC r u ino Hu Hg) as (b'&_&[T1 F1 H1 _ _ _ _ _ _ _ _ _ _ _]).
  rewrite T1, F1 in Hp. destruct Hp as [[Hp _]|[Hp _]].
  - apply Temp_inj in Hp; [|done..]. congruence.
  - by apply Temp_Object in Hp.
Qed.

Lemma fresh_upload_ok d m e F ino : hex (id m) → 0 ≤ d → paths F !! TempObjectPath (id m) = Some ino →
  inodes F !! ino = Some [] → obj_ok [] F [] ino (fresh_upload d m e).
Proof.
  intros Hh Hd Hp Hi. split; try done.
  intros c _ _ Hc. simpl in Hc. rewrite Hi in Hc. injection Hc as <-. split; simpl; try done.
  intros k Hk. simpl in Hk. lia.
Qed.

Section Begin.
Context (g : gmap bytes nat) (w : world) (r : bytes) (d e : Z) (m : DropFile).
Context (HC : Core g w) (Hr : objs w !! r = None) (Hlog : replies r (log w) = []).
Context (Hfd : fds w !! d = None) (Hd : 0 ≤ d) (Hm : hex (id m)) (Hrec : received w !! id m = None).

Let ino := fresh (dom (inodes (disk w))).
Let F := mkFiles (<[TempObjectPath (id m) := ino]> (paths (disk w))) (<[ino := []]> (inodes (disk w))).
Let u := fresh_upload d m e.
Let w' := set_received (<[id m := []]> (received w)) (set_uploads ({[r]} ∪ uploads_ w)
  (set_obj r u (set_fds (<[d := ino]> (fds w)) (set_disk F w)))).
Let g' := <[r := ino]> g.

Lemma begin_fresh i : is_Some (inodes (disk w) !! i) → i ≠ ino.
Proof. intros Hs ->. by apply (is_fresh (dom (inodes (disk w)))), elem_of_dom. Qed.

Lemma begin_other r' x i : objs w !! r' = Some x → g !! r' = Some i →
  r' ≠ r ∧ i ≠ ino ∧ ∃ b, received w !! id (meta x) = Some b ∧ id (meta x) ≠ id m ∧
    obj_ok b (disk w) (replies r' (log w)) i x.
Proof.
  intros Hx Hg. destruct (i_obj _ _ HC r' x i Hx Hg) as (b&Hb&Ho).
  split_and!; [congruence|by apply begin_fresh, Ho|]. exists b. split_and!; try done. congruence.
Qed.

Lemma begin_old r' : is_Some (objs w !! r') → ∃ i, g !! r' = Some i.
Proof. intros Hs. by apply (i_dom _ _ HC) in Hs. Qed.

Lemma begin_ino r' i : g !! r' = Some i → i ≠ ino ∧ ∃ x, objs w !! r' = Some x.
Proof.
  intros Hg. assert (is_Some (objs w !! r')) as [x Hx] by (apply (i_dom _ _ HC); eauto).
  destruct (begin_other r' x i Hx Hg) as (_&?&_). eauto.
Qed.

Lemma begin_id r' x : objs w !! r' = Some x → id (meta x) ≠ id m.
Proof.
  intros Hx. destruct (begin_old r') as [i Hi]; [by eauto|].
  by destruct (begin_other r' x i Hx Hi) as (_&_&b&_&?&_).
Qed.

Lemma begin_objs r' x : objs w' !! r' = Some x ↔ r' = r ∧ x = u ∨ objs w !! r' = Some x.
Proof.
  simpl. rewrite lookup_insert_Some. split; [naive_solver|].
  intros [[-> ->]|Hx]; [by left|right]. split; [congruence|done].
Qed.

Lemma begin_g r' i : g' !! r' = Some i ↔ r' = r ∧ i = ino ∨ g !! r' = Some i.
Proof.
  unfold g'. rewrite lookup_insert_Some. split; [naive_solver|].
  intros [[-> ->]|Hx]; [by left|right]. split; [|done]. intros <-.
  assert (is_Some (objs w !! r)) as Hs by (apply (i_dom _ _ HC); eauto). rewrite Hr in Hs. by apply is_Some_None in Hs.
Qed.

Lemma begin_keep b r' x i : r' ≠ r → i ≠ ino → id (meta x) ≠ id m →
  obj_ok b (disk w) (replies r' (log w)) i x → obj_ok b F (replies r' (log w)) i x.
Proof.
  intros H1 H2 H3 [O1 O2 O3 O4 O5 O6 O7 O8 O9 O10 O11 O12 O13 O14].
  split; simpl; rewrite ?lookup_insert_ne by done; try done.
  rewrite O1 in *. rewrite lookup_insert_ne; [done|]. by intros E%Temp_inj.
Qed.

Lemma begin_owner p i : owner g w p i → owner g' w' p i.
Proof.
  intros (r'&x&b&Hx&Hg&Hb&Hp). destruct (begin_other r' x i Hx Hg) as (H1&H2&_&_&H3&_).
  exists r', x, b. split_and!; [apply begin_objs; by right|apply begin_g; by right|..].
  - simpl. by rewrite lookup_insert_ne by congruence.
  - destruct Hp as [?|(->&?&?&?&?)]; [by left|right]. split; [done|].
    split_and!; try done. simpl. by rewrite lookup_insert_ne.
Qed.

Lemma begin_fds d' i : <[d := ino]> (fds w) !! d' = Some i ↔
  ∃ r' x, objs w' !! r' = Some x ∧ fd x = d' ∧ 0 ≤ d' ∧ g' !! r' = Some i.
Proof.
  rewrite lookup_insert_Some. split.
  - intros [[<- <-]|[Hne (r'&x&Hx&?&?&?)%(i_fds _ _ HC)]].
    + exists r, u. split_and!; [apply begin_objs; by left|done|done|apply begin_g; by left].
    + exists r', x. split_and!; [apply begin_objs; by right|done|done|apply begin_g; by right].
  - intros (r'&x&[[-> ->]|Hx]%begin_objs&<-&Hpos&[[E ->]|Hg]%begin_g).
    + by left.
    + apply begin_ino in Hg as [_ [? ?]]. congruence.
    + congruence.
    + right. assert (fds w !! fd x = Some i) as Hi by (apply (i_fds _ _ HC); eauto 10).
      split; [congruence|done].
Qed.

Lemma begin_paths p i : paths F !! p = Some i → is_Some (inodes F !! i) ∧
  (owner g' w' p i ∨ (∃ j, hex j ∧ p = MetaPath j) ∧ ∀ r', g' !! r' ≠ Some i).
Proof.
  simpl. intros [[<- <-]|[_ Hp]]%lookup_insert_Some.
  - split; [rewrite lookup_insert_eq; by eauto|left]. exists r, u, [].
    split_and!; [apply begin_objs; by left|apply begin_g; by left|apply lookup_insert_eq|by left].
  - destruct (i_paths _ _ HC p i Hp) as [Hs Ho]. pose proof (begin_fresh i Hs) as Hne.
    split; [by rewrite lookup_insert_ne|]. destruct Ho as [Ho|[Hj Hg]]; [by left; apply begin_owner|right].
    split; [done|]. by intros r' [[-> ?]|?]%begin_g; [|by apply (Hg r')].
Qed.

Lemma Core_begin : Core g' w'.
Proof.
  pose proof HC as [I1 I2 I3 I4 I5 I6 I7 I8 I9 I10 I11 I12]. split.
  - done.
  - intros r'. unfold g', w'. simpl. by rewrite !lookup_insert_is_Some', I2.
  - intros r1 r2 i [[-> ->]|H1]%begin_g [[-> H2]|H2]%begin_g; try done; [..|by eapply I3].
    + by apply begin_ino in H2 as [].
    + subst. by apply begin_ino in H1 as [].
  - intros r1 r2 x y [[-> ->]|H1]%begin_objs [[-> ->]|H2]%begin_objs E; [done|..|by eapply I4].
    + by destruct (begin_id r2 y H2).
    + by destruct (begin_id r1 x H1).
  - intros r' x i [[-> ->]|Hx]%begin_objs [[E ->]|Hg]%begin_g.
    + exists []. split; [apply lookup_insert_eq|]. simpl. rewrite Hlog.
      apply fresh_upload_ok; try done; apply lookup_insert_eq.
    + apply begin_ino in Hg as [_ [? ?]]. congruence.
    + congruence.
    + destruct (begin_other r' x i Hx Hg) as (H1&H2&b&Hb&H3&Ho). exists b.
      split; [simpl; by rewrite lookup_insert_ne|]. simpl. by apply begin_keep.
  - intros r' n. simpl. rewrite I6. destruct (decide (r' = r)) as [->|Hne].
    + by rewrite Hr, lookup_insert_eq.
    + unfold g'. by rewrite !lookup_insert_ne.
  - intros r'. change (uploads_ w') with ({[r]} ∪ uploads_ w). rewrite elem_of_union, elem_of_singleton, I7.
    setoid_rewrite begin_objs. naive_solver.
  - exact begin_fds.
  - exact begin_paths.
  - intros r' x n [[-> ->]|Hx]%begin_objs; [|by apply (I10 r' x n)].
    intros Hs. simpl in Hs. rewrite lookup_empty in Hs. by apply is_Some_None in Hs.
  - intros i. simpl. rewrite lookup_insert_is_Some'. intros [<-|(r'&x&Hx&Hid)%I11].
    + exists r, u. by rewrite lookup_insert_eq.
    + exists r', x. split; [|done]. apply begin_objs. by right.
  - intros i c Hi Hc. apply (I12 i c).
    + intros r' Hg. apply (Hi r'), begin_g. by right.
    + simpl in Hc. rewrite lookup_insert_ne in Hc; [done|]. intros <-. apply (Hi r), begin_g. by left.
Qed.
End Begin.

(** ** What a method leaves alone *)

Definition frame (r : bytes) (u : upload) (w : world) (u' : upload) (w' : world) : Prop :=
  (∀ r', r' ≠ r → replies r' (log w') = replies r' (log w)) ∧ received w' = received w ∧
  id (meta u') = id (meta u) ∧ aborted u' = aborted u.

Ltac log_frame :=
  intros r' Hr'; simpl; rewrite ?replies_emit_other; try done; simpl; by rewrite decide_False by congruence.

Lemma frame_Finish r u w u' w' st b : FinishDeferredResponse r u (SendText r st b u w) = (u', w') →
  frame r u w u' w'.
Proof.
  unfold FinishDeferredResponse, Cleanup, SendText, frame.
  destruct (cleanup_ u), (deferred_ u) eqn:Hd; simpl; rewrite ?Hd; intros [= <- <-]; split_and!; try done;
    log_frame.
Qed.

Lemma frame_TryFinish a r u w u' w' : TryFinish root_ a r u w = (u', w') → frame r u w u' w'.
Proof.
  unfold TryFinish. destruct (finished u); [by intros [= <- <-]|].
  destruct (aborted u).
  { unfold Cleanup. case_bool_decide; [destruct (cleanup_ _)|]; by intros [= <- <-]. }
  destruct (_ || _ || bool_decide _) eqn:Hready; [by intros [= <- <-]|].
  apply orb_false_iff in Hready as [[_ Hd%negb_false_iff]%orb_false_iff _].
  unfold Close. destruct (0 <=? _).
  all: destruct (_ || _); [by apply frame_Finish|].
  all: destruct (if rename_ok a then _ else _) as [F|]; [|by apply frame_Finish].
  all: destruct (WriteMeta _ _ _ _) as [F' ok]; destruct ok; simpl; [|by apply frame_Finish].
  all: intros E.
  all: match type of E with FinishDeferredResponse _ ?x (emit (Reply _ ?st ?b) ?y) = _ =>
    apply (frame_Finish r x y u' w' st b) end.
  all: unfold SendText; simpl; by rewrite Hd.
Qed.

Lemma frame_SubmitPendingWrite a r n op u w u' w' ok :
  SubmitPendingWrite batch a r n op u w = (u', w', ok) → frame r u w u' w'.
Proof.
  unfold SubmitPendingWrite, Submit, FlushSubmissions. destruct (_ <? _); [by intros [= <- <- _]|].
  destruct (negb _); [by intros [= <- <- _]|]. intros [= <- <- _].
  destruct (_ <? _); [done|]. by destruct (_ =? _).
Qed.

Lemma frame_trans r u0 w0 u1 w1 u2 w2 : frame r u0 w0 u1 w1 → frame r u1 w1 u2 w2 → frame r u0 w0 u2 w2.
Proof.
  intros (A1&A2&A3&A4) (B1&B2&B3&B4). split_and!; try congruence. intros r' Hr'. by rewrite B1, A1.
Qed.

Lemma frame_SubmitChunk a r chunk u w u' w' :
  SubmitChunk root_ batch a r chunk u w = (u', w') → frame r u w u' w'.
Proof.
  unfold SubmitChunk. destruct (_ || _); [by intros [= <- <-]|].
  destruct (SubmitPendingWrite _ _ _ _ _ _ _) as [[u1 w1] ok] eqn:E1.
  apply frame_SubmitPendingWrite in E1. destruct ok; simpl.
  - by intros [= <- <-].
  - intros E2%frame_TryFinish. eapply frame_trans; [exact E1|exact E2].
Qed.

Lemma frame_OnWrite a r n result u w u' w' d :
  OnWrite root_ batch a r n result u w = (u', w', d) → frame r u w u' w'.
Proof.
  unfold OnWrite. destruct (pending_ u !! n) as [op|]; [|by intros [= <- <- _]].
  destruct (aborted u). { intros [= E%frame_TryFinish _]. exact E. }
  destruct (result <=? 0). { intros [= E%frame_TryFinish _]. exact E. }
  destruct (_ <? _).
  - destruct (SubmitPendingWrite _ _ _ _ _ _ _) as [[u1 w1] ok] eqn:E1.
    apply frame_SubmitPendingWrite in E1. destruct ok; simpl.
    + by intros [= <- <- _].
    + intros [= E2%frame_TryFinish _]. eapply frame_trans; [exact E1|exact E2].
  - intros [= E%frame_TryFinish _]. exact E.
Qed.

(** ** Steps *)

(** A request that has no upload has been refused, at most once. *)
Definition Inv' (g : gmap bytes nat) (w : world) : Prop :=
  Inv g w ∧ ∀ r, objs w !! r = None → (length (replies r (log w)) ≤ 1)%nat.

(** When a write of an upload counts as failed: once it did, or the kernel ended one
    without writing ([res] is what it reported), or one could not be prepared; the
    text says which was last. *)
Definition faults (a : answers) (res : option Z) (u u' : upload) : Prop :=
  (failed u = true → failed u' = true) ∧ (∀ k, res = Some k → k ≤ 0 → failed u' = true) ∧
  (failed u' = true → failed u = true ∨
     error u' = txt "async write failed" ∧ (∃ k, res = Some k ∧ k ≤ 0) ∨
     error u' = txt "submit write failed" ∧ prep_ok a = false).

Lemma TryFinish_keeps a r u w u' w' : TryFinish root_ a r u w = (u', w') →
  failed u' = failed u ∧ error u' = error u.
Proof.
  assert (∀ x y, FinishDeferredResponse r x y = (u', w') → failed u' = failed x ∧ error u' = error x) as HF.
  { intros x y. unfold FinishDeferredResponse, Cleanup.
    destruct (cleanup_ x), (deferred_ x) eqn:Hd; simpl; rewrite ?Hd; by intros [= <- <-]. }
  unfold TryFinish. destruct (finished u); [by intros [= <- <-]|].
  destruct (aborted u).
  { unfold Cleanup. case_bool_decide; [destruct (cleanup_ _)|]; by intros [= <- <-]. }
  destruct (_ || _ || bool_decide _); [by intros [= <- <-]|].
  unfold Close. destruct (0 <=? _).
  all: destruct (_ || _); [by intros ?%HF|].
  all: destruct (if rename_ok a then _ else _) as [F|]; [|by intros ?%HF].
  all: destruct (WriteMeta _ _ _ _) as [F' ok]; destruct ok; simpl; by intros ?%HF.
Qed.

Lemma SubmitPendingWrite_faults a r n op u w u' w' ok : 0 ≤ fd u →
  SubmitPendingWrite batch a r n op u w = (u', w', ok) → faults a None u u'.
Proof.
  intros Hfd. unfold SubmitPendingWrite. rewrite (proj2 (Z.ltb_ge (fd u) 0)) by done.
  destruct (prep_ok a) eqn:Hp; simpl; intros [= <- _ _]; split_and!; auto; done.
Qed.

Lemma faults_TryFinish a res r u x w u' w' : faults a res u x →
  TryFinish root_ a r x w = (u', w') → faults a res u u'.
Proof. intros (H1&H2&H3) [Hf He]%TryFinish_keeps. unfold faults. by rewrite Hf, He. Qed.

Lemma faults_SubmitChunk a r chunk u w u' w' : 0 ≤ fd u →
  SubmitChunk root_ batch a r chunk u w = (u', w') → faults a None u u'.
Proof.
  intros Hfd. unfold SubmitChunk. destruct (_ || _); [by intros [= <- <-]; split_and!; auto|].
  destruct (SubmitPendingWrite _ _ _ _ _ _ _) as [[u1 w1] ok] eqn:E1.
  apply SubmitPendingWrite_faults in E1; [|done]. destruct ok; simpl.
  - by intros [= <- <-].
  - intros E2. by eapply faults_TryFinish; [|exact E2].
Qed.

Lemma faults_OnWrite a r n result op u w u' w' d : 0 ≤ fd u → aborted u = false →
  pending_ u !! n = Some op →
  OnWrite root_ batch a r n result u w = (u', w', d) → faults a (Some result) u u'.
Proof.
  intros Hfd Ha Hn. unfold OnWrite. rewrite Hn, Ha.
  destruct (Z.leb_spec result 0) as [Hneg|Hpos].
  { intros [= E _]. eapply faults_TryFinish; [|exact E]. split_and!; auto. intros _. right. left. eauto. }
  assert (∀ x, faults a None u x → faults a (Some result) u x) as Hup.
  { intros x (H1&_&H3). split_and!; [done|intros k [= <-]; lia|].
    intros [?|[[_ (?&?&_)]|?]]%H3; auto. done. }
  destruct (_ <? _).
  - destruct (SubmitPendingWrite _ _ _ _ _ _ _) as [[u1 w1] ok] eqn:E1.
    apply SubmitPendingWrite_faults in E1; [|done]. destruct ok; simpl.
    + intros [= <- <- _]. by apply Hup.
    + intros [= E2 _]. eapply faults_TryFinish; [|exact E2]. by apply Hup.
  - intros [= E _]. eapply faults_TryFinish; [|exact E]. apply Hup. by split_and!; auto.
Qed.

(** What a call does to an upload that is going on. *)
Definition acted (a : answers) (r : bytes) (res : option Z) (w w' : world) : Prop :=
  ∀ u, objs w !! r = Some u → live u = true → ∃ u' body,
    objs w' !! r = Some u' ∧ received w' !! id (meta u') = Some body ∧ aborted u' = aborted u ∧
    faults a res u u' ∧ settled a r body u u' w'.

Lemma set_obj_id r u w : objs w !! r = Some u → set_obj r u w = w.
Proof. intros Hu. destruct w. unfold set_obj. simpl in *. by rewrite insert_id. Qed.

Lemma method_step g w r u u' w' :
  Inv' g w → objs w !! r = Some u →
  Core g (set_obj r u' w') → idle_ok u' → objs w' = objs w →
  (∀ r', r' ≠ r → replies r' (log w') = replies r' (log w)) → Inv' g (set_obj r u' w').
Proof.
  intros [[_ Hidle] Hnone] Hu HC' Hi Hobj Hfr. split; [split; [done|]|]; simpl.
  - intros r' x [[<- <-]|[_ Hx]]%lookup_insert_Some; [done|]. rewrite Hobj in Hx. by apply (Hidle r').
  - intros r' [Hx Hne]%lookup_insert_None. simpl. rewrite Hobj in Hx. rewrite Hfr by done. by apply Hnone.
Qed.

(** The upload of a request that is in the registry. *)
Lemma registered g w r u : Inv' g w → r ∈ uploads_ w → objs w !! r = Some u →
  ∃ ino body, g !! r = Some ino ∧ received w !! id (meta u) = Some body ∧ finished u = false ∧
    idle_ok u ∧ Core g (set_obj r u w).
Proof.
  intros [[HC Hidle] _] Hr Hu. assert (is_Some (g !! r)) as [ino Hg] by (apply (i_dom _ _ HC); eauto).
  destruct (i_obj _ _ HC r u ino Hu Hg) as (body&Hb&_).
  apply (i_reg _ _ HC) in Hr as (x&Hx&Hf). rewrite Hu in Hx. injection Hx as <-.
  exists ino, body. rewrite set_obj_id by done. split_and!; eauto.
Qed.

(** A call for a request that has no upload in the registry does nothing. *)
Lemma idle_call g a r res w : Inv' g w →
  (r ∉ uploads_ w ∨ objs w !! r = None) → acted a r res w w.
Proof.
  intros [[HC _] _] Hr u Hu Hl. exfalso. apply andb_true_iff in Hl as [_ Hl%negb_true_iff].
  destruct Hr as [Hr|Hr]; [|congruence]. apply Hr, (i_reg _ _ HC). eauto.
Qed.

Lemma live_fd g w r u : Inv' g w → objs w !! r = Some u → live u = true → 0 ≤ fd u.
Proof.
  intros [[HC _] _] Hu Hl. assert (is_Some (g !! r)) as [ino Hg] by (apply (i_dom _ _ HC); eauto).
  destruct (i_obj _ _ HC r u ino Hu Hg) as (body&_&Ho). by apply Ho.
Qed.

Lemma body_step g a r chunk w : Inv' g w →
  (∀ u body, objs w !! r = Some u → received w !! id (meta u) = Some body →
       request_complete u = false ∧ zlen (body ++ chunk) < 2 ^ 32) →
  let w' := on_body root_ batch a r chunk (note_chunk r chunk w) in
  Inv' g w' ∧ acted a r None w w'.
Proof.
  intros HI Hpre. simpl. unfold on_body, with_state, note_chunk.
  destruct (decide (r ∈ uploads_ w)) as [Hr|Hr].
  2: { rewrite decide_False by done. split; [done|]. eapply idle_call; eauto. }
  destruct (objs w !! r) as [u|] eqn:Hu.
  2: { rewrite decide_True, Hu by done. split; [done|]. eapply idle_call; eauto. }
  simpl. rewrite decide_True, Hu by done.
  destruct (registered g w r u HI Hr Hu) as (ino&body&Hg&Hb&Hf&Hi&HC).
  destruct (Hpre u body eq_refl Hb) as [Hrc Hsmall].
  destruct (SubmitChunk _ _ _ _ _ _ _) as [u' w'] eqn:E.
  destruct (SubmitChunk_inv g r u w ino body chunk) with (a := a) (u' := u') (w' := w')
    as (H1&H2&H3&H4); try done.
  pose proof (frame_SubmitChunk _ _ _ _ _ _ _ E) as (F1&F2&F3&F4).
  split; [by apply (method_step g w r u)|].
  intros x Hx Hl. rewrite Hu in Hx. injection Hx as <-. exists u', (body ++ chunk). simpl.
  rewrite lookup_insert_eq, F3, F2. simpl. rewrite lookup_alter_eq, Hb. split_and!; try done.
  eapply faults_SubmitChunk; [by eapply live_fd|exact E].
Qed.

Lemma complete_step g a r w : Inv' g w →
  let w' := on_complete root_ a r w in Inv' g w' ∧ acted a r None w w'.
Proof.
  intros HI. simpl. unfold on_complete, with_state.
  destruct (decide (r ∈ uploads_ w)) as [Hr|Hr]; [|split; [done|]; eapply idle_call; eauto].
  destruct (objs w !! r) as [u|] eqn:Hu; [|split; [done|]; eapply idle_call; eauto].
  destruct (registered g w r u HI Hr Hu) as (ino&body&Hg&Hb&Hf&Hi&HC).
  destruct (MarkRequestComplete _ _ _ _ _) as [u' w'] eqn:E.
  destruct (MarkRequestComplete_inv g a r u w ino body u' w') as (H1&H2&H3&H4); try done.
  pose proof (frame_TryFinish _ _ _ _ _ _ E) as (F1&F2&F3&F4).
  split; [by apply (method_step g w r u)|].
  intros x Hx Hl. rewrite Hu in Hx. injection Hx as <-. exists u', body. simpl.
  rewrite lookup_insert_eq, F3, F2. split_and!; try done.
  eapply faults_TryFinish; [|exact E]. by split_and!; auto.
Qed.

Lemma abort_step g r w : Inv' g w → Inv' g (on_abort r w).
Proof.
  intros HI. unfold on_abort, with_state.
  destruct (decide (r ∈ uploads_ w)) as [Hr|Hr]; [|done].
  destruct (objs w !! r) as [u|] eqn:Hu; [|done].
  destruct (registered g w r u HI Hr Hu) as (ino&body&Hg&Hb&Hf&Hi&HC).
  destruct (Abort r u w) as [u' w'] eqn:E.
  destruct (Abort_inv g r u w ino body u' w') as (H1&H2&H3&H4); try done.
  by apply (method_step g w r u).
Qed.

Lemma io_step g a r n result oi off data w w' : Inv' g w →
  kernel w !! (r, n) = Some (oi, off, data) → result ≤ zlen data →
  io_done root_ batch a r n result w = Some w' → Inv' g w' ∧ acted a r (Some result) w w'.
Proof.
  intros HI Hk Hres. pose proof HI as [[HC Hidle] _].
  pose proof (i_kernel _ _ HC r n) as Hkr. rewrite Hk in Hkr. symmetry in Hkr.
  apply bind_Some in Hkr as (u&Hu&Hkr). apply bind_Some in Hkr as (op&Hop&Hkr).
  apply bind_Some in Hkr as (ino&Hg&[= <- <- <-]).
  destruct (i_obj _ _ HC r u ino Hu Hg) as (body&Hb&_).
  unfold io_done. rewrite Hk, Hu. simpl.
  fold (written_world r n ino (offset op + written op) result (zdrop (written op) (buffer op)) w).
  destruct (OnWrite _ _ _ _ _ _ _ _) as [[u' w1] d] eqn:E. intros [= <-].
  destruct (OnWrite_inv g r u w ino body) with (n := n) (op := op) (result := result) (a := a) (u' := u')
    (w' := w1) (d := d) as (H1&H2&H3&H4); try done; [by rewrite set_obj_id|by eapply Hidle|].
  pose proof (frame_OnWrite _ _ _ _ _ _ _ _ _ E) as (F1&F2&F3&F4).
  split; [by apply (method_step g w r u)|].
  intros x Hx Hl. rewrite Hu in Hx. injection Hx as <-. exists u', body. simpl.
  rewrite lookup_insert_eq, F3, F2. split_and!; try done.
  eapply faults_OnWrite; [by eapply live_fd|by apply andb_true_iff in Hl as [?%negb_true_iff _]|exact Hop|exact E].
Qed.

Lemma refused g w r st b : Inv' g w → objs w !! r = None → replies r (log w) = [] →
  Inv' g (emit (Reply r st b) w).
Proof.
  intros [[HC Hidle] Hnone] Hr Hlog.
  assert (∀ r' x, objs w !! r' = Some x → replies r' (log w ++ [Reply r st b]) = replies r' (log w)) as Hsame.
  { intros r' x Hx. apply replies_emit_other. simpl. rewrite decide_False; congruence. }
  split; [split|].
  - destruct HC as [I1 I2 I3 I4 I5 I6 I7 I8 I9 I10 I11 I12]. split; simpl; try done.
    + intros r' x i Hx Hg. rewrite (Hsame r' x Hx). by apply I5.
    + intros p i Hp. destruct (I9 p i Hp) as [Hs [Ho|?]]; (split; [done|]); [left|by right].
      eapply owner_mono; [|exact Ho]. simpl. intros r' x Hx Hg. exists x. rewrite (Hsame r' x Hx).
      split_and!; try done. intros _ ?. split; [done|]. destruct (I5 r' x i Hx Hg) as (b0&->&_). eauto.
  - done.
  - intros r' Hx. simpl. destruct (decide (r' = r)) as [->|Hne].
    + unfold replies in *. rewrite omap_app, Hlog. simpl. by rewrite decide_True.
    + rewrite replies_emit_other by (simpl; by rewrite decide_False). by apply Hnone.
Qed.

Lemma shrink_step g w F : Inv' g w → Core g (set_disk F w) → Inv' g (set_disk F w).
Proof. by intros [[_ Hidle] Hnone] HC. Qed.

Lemma headers_step g r h w : Inv' g w → Forall (meta_entry root_) (entries h) →
  objs w !! r = None → replies r (log w) = [] → fds w !! open_answer h = None →
  16 ^ 7 ≤ now_ms h → received w !! GenerateId (now_ms h) (seq_no h) (random h) = None →
  let w' := note_begin r (on_headers root_ auth_token max_upload_bytes ttl_seconds r h w).1 in
  ∃ g', Inv' g' w'.
Proof.
  intros HI Hes Hr Hlog Hfd Hms Hrec. simpl. unfold on_headers.
  destruct (CleanupExpired_inv g (can_remove h) (now_cleanup h) (entries h) w) as [HC _]; [apply HI|done|].
  set (w0 := set_disk _ w) in *. pose proof (shrink_step g w _ HI HC) as HI0. fold w0 in HI0.
  assert (∀ st b, ∃ g', Inv' g' (note_begin r (emit (Reply r st b) w0))) as Href.
  { intros st b. exists g. unfold note_begin. simpl. rewrite Hr.
    exact (refused g w0 r st b HI0 Hr Hlog). }
  destruct (negb _); [apply Href|]. destruct (_ <? _); [apply Href|].
  destruct (Z.ltb_spec (open_answer h) 0); [apply Href|].
  set (i := GenerateId _ _ _) in *. set (m := mkDropFile i _ _ _ _).
  destruct (GenerateId_safe (now_ms h) (seq_no h) (random h) Hms) as [Hhex _].
  unfold open_trunc. rewrite (temp_unused g w0 i HC Hhex Hrec). simpl. unfold note_begin. simpl.
  rewrite lookup_insert_eq. simpl.
  pose proof (Core_begin g w0 r (open_answer h) (content_length h) m HC Hr Hlog Hfd ltac:(lia) Hhex Hrec) as HC'.
  eexists. split; [split|]; [exact HC'|..]; simpl.
  - intros r' x [[<- <-]|[_ Hx]]%lookup_insert_Some; [by intros _ [?|?]|]. by apply (proj2 (proj1 HI) r').
  - intros r' [Hx _]%lookup_insert_None. by apply (proj2 HI r').
Qed.

Lemma drop_step_inv g w w' : Inv' g w → step root_ batch auth_token max_upload_bytes ttl_seconds w w' →
  ∃ g', Inv' g' w'.
Proof.
  intros HI. destruct 1 as [r h w Hes H1 H2 H3 H4 H5|a r chunk w H|a r w H|r w|a r n res oi off data w w' H1 H2 H3 H4
    |w|can t es w Hes|can i w].
  - by apply (headers_step g).
  - exists g. by apply body_step.
  - exists g. by apply complete_step.
  - exists g. by apply abort_step.
  - exists g. by eapply io_step.
  - exists g. unfold FlushSubmissions. by destruct (i_sq _ _ (proj1 (proj1 HI))) as [_ ->].
  - exists g. apply shrink_step; [done|]. apply CleanupExpired_inv; [apply HI|done].
  - exists g. apply shrink_step; [done|]. apply Core_shrink; [apply HI|]. apply Remove_shrinks.
Qed.

Lemma empty_inv : Inv' ∅ empty_world.
Proof.
  split; [split|]; [split; simpl; try done|..].
  - intros r. by rewrite !lookup_empty.
  - intros r. split; [set_solver|]. by intros (?&?&_).
  - intros d ino. rewrite lookup_empty. split; [done|]. by intros (?&?&?&_).
  - by intros i [? ?].
  - by intros r u Hu.
  - simpl. lia.
Qed.

Lemma drop_reachable_inv w : rtc (step root_ batch auth_token max_upload_bytes ttl_seconds) empty_world w →
  ∃ g, Inv' g w.
Proof.
  revert w. apply rtc_ind_r; [exists ∅; apply empty_inv|]. intros x y _ Hs [g HI].
  by apply (drop_step_inv g x y).
Qed.

(** Which upload the paths belong to. *)
Lemma owned_object g w i ino : Core g w → is_absolute i = false ∧ ("."%char : byte) ∉ i →
  owner g w (ObjectPath i) ino ∨ (∃ j, hex j ∧ ObjectPath i = MetaPath j) ∧ (∀ r, g !! r ≠ Some ino) →
  ∃ r u body, objs w !! r = Some u ∧ g !! r = Some ino ∧ received w !! id (meta u) = Some body ∧
    id (meta u) = i ∧ published body (disk w) (replies r (log w)) ino u.
Proof.
  intros HC [Ha Hd] Ho. destruct (paths_shape' i Ha) as (_&Eo&_). rewrite Eo in Ho.
  destruct Ho as [(r&u&body&Hu&Hg&Hb&Hp)|[(j&Hj&E) _]].
  2: { destruct (paths_shape j Hj) as (_&_&Em). rewrite Em in E. by apply app_inv_head in E. }
  destruct (i_obj _ _ HC r u ino Hu Hg) as (b&_&[T1 F1 H1 _ _ _ _ _ _ _ _ _ _ _]).
  destruct (paths_shape _ H1) as (Et&Eo'&_). rewrite T1, F1, Et, Eo' in Hp.
  destruct Hp as [[E _]|[E Hpub]]; apply app_inv_head, app_inv_head in E.
  - exfalso. apply Hd. rewrite E. set_solver.
  - exists r, u, body. by subst.
Qed.

Lemma owned_temp g w i ino : Core g w → is_absolute i = false ∧ ("."%char : byte) ∉ i →
  owner g w (TempObjectPath i) ino ∨
    (∃ j, hex j ∧ TempObjectPath i = MetaPath j) ∧ (∀ r, g !! r ≠ Some ino) →
  ∃ r u, objs w !! r = Some u ∧ id (meta u) = i ∧ live u = true.
Proof.
  intros HC [Ha Hd] Ho. destruct (paths_shape' i Ha) as (Et&_&_). rewrite Et in Ho.
  destruct Ho as [(r&u&body&Hu&Hg&Hb&Hp)|[(j&Hj&E) _]].
  2: { destruct (paths_shape j Hj) as (_&_&Em). rewrite Em in E. by apply app_inv_head in E. }
  destruct (i_obj _ _ HC r u ino Hu Hg) as (b&_&[T1 F1 H1 _ _ _ _ _ _ _ _ _ _ _]).
  destruct (paths_shape _ H1) as (Et'&Eo'&_). rewrite T1, F1, Et', Eo' in Hp.
  destruct Hp as [[E Hl]|[E Hpub]]; apply app_inv_head, app_inv_head in E.
  - exists r, u. apply app_inv_tail in E. by subst.
  - exfalso. apply (hex_no_dot _ H1). rewrite <-E. set_solver.
Qed.

End Proofs.

(** ** What is shown of a process *)

Section Results.
Context (root_ : fspath) (batch : Z) (auth_token : bytes) (max_upload_bytes ttl_seconds : Z).

Abbreviation runs := (rtc (step root_ batch auth_token max_upload_bytes ttl_seconds) empty_world).

(** A call for the upload of request [r] in which the operating system answers [a]:
    a piece of the body, the end of the request, or the completion of a write, whose
    result is [res]. *)
Inductive call (a : answers) (r : bytes) (w : world) : option Z → world → Prop :=
| call_body chunk :
    (∀ u body, objs w !! r = Some u → received w !! id (meta u) = Some body →
       request_complete u = false ∧ zlen (body ++ chunk) < 2 ^ 32) →
    call a r w None (on_body root_ batch a r chunk (note_chunk r chunk w))
| call_complete :
    (∀ u, objs w !! r = Some u → request_complete u = false) → call a r w None (on_complete root_ a r w)
| call_write n result oi off data w' :
    kernel w !! (r, n) = Some (oi, off, data) → result ≤ zlen data → (oi = None → result ≤ 0) →
    io_done root_ batch a r n result w = Some w' → call a r w (Some result) w'.

(** C14: With requests handed to the kernel at once (a [submit_batch_size] of 1, the
    default; DROPAPP_RING_SUBMIT_BATCH can set another, and then this fails, see
    [stale_descriptor_write]): whatever the order of the parser's calls, completions
    (partial, failed or none), deletions and removals of expired files, and whatever
    the operating system answers, a file that can be asked for by its identifier
    holds exactly the bytes that the request received, that request was complete and
    was answered once, with status 201, and the length it declared, if any, is the
    length received.  Request and file identifiers are not used twice, the clock is
    past 1978, and a body is shorter than 2^32 bytes. *)
Theorem uploads_exact w i content :
  batch ≤ 1 → runs w → SafeId i = true →
  read_path (ObjectPath root_ i) (disk w) = Some content →
  received w !! i = Some content ∧
  ∃ r u, objs w !! r = Some u ∧ id (meta u) = i ∧ request_complete u = true ∧
    replies r (log w) = [(201, MetaJsonForApi (meta u))] ∧ size (meta u) = zlen content ∧
    (expected_bytes u = 0 ∨ expected_bytes u = zlen content).
Proof.
  intros Hone [g [[HC _] _]]%(drop_reachable_inv root_ batch auth_token max_upload_bytes ttl_seconds Hone) Hi%SafeId_path Hread.
  apply bind_Some in Hread as (ino&Hp&Hc).
  destruct (i_paths _ _ _ HC _ _ Hp) as [_ Ho].
  destruct (owned_object root_ batch Hone g w i ino HC Hi Ho) as (r&u&body&Hu&Hg&Hb&<-&(Hf&Ha&Hino&Hrep)).
  rewrite Hc in Hino. injection Hino as <-. split; [done|].
  destruct (i_obj _ _ _ HC r u ino Hu Hg) as (b&Hb'&Hobj). rewrite Hb in Hb'. injection Hb' as <-.
  destruct (o_done _ _ _ _ _ _ Hobj Hf Ha) as (Hrc&st&b&Hr&Hout). rewrite Hrep in Hr. injection Hr as <- <-.
  inversion Hout; subst. exists r, u. by split_and!.
Qed.

(** C32: With a [submit_batch_size] of 1 (the default), identifiers that are not used
    twice and bodies shorter than 2^32 bytes: a request is answered at most once, never after it was aborted,
    and not while its upload goes on.  A call that ends the upload answers it: with
    the error of the write that failed; else with "short upload" if another length
    was announced; else with "rename failed" or "metadata write failed" if the
    operating system does not do these in this call; and else, and only then, with
    201.  At 201 the file holds exactly the bytes received and the record what fitted
    on the disk of it (a full disk goes unnoticed); otherwise there is no file, and
    the temporary file is gone in any case (removing it succeeds).  A write counts as failed only if the
    kernel ended one with no bytes or one could not be prepared.  An upload that does
    not end although its request is complete has a write in the kernel. *)
Theorem uploads_answered w r : batch ≤ 1 → runs w →
  (length (replies r (log w)) ≤ 1)%nat ∧
  ∀ u, objs w !! r = Some u →
    (aborted u = true → replies r (log w) = []) ∧
    (aborted u = false → finished u = false → replies r (log w) = [] ∧
     ∀ a res w', call a r w res w' → ∃ u' body,
       objs w' !! r = Some u' ∧ received w' !! id (meta u') = Some body ∧ faults a res u u' ∧
       if finished u'
       then request_complete u' = true ∧ replies r (log w') = [answer_of a body u'] ∧
         stored_as root_ a body u' (disk w')
       else replies r (log w') = [] ∧
         (request_complete u' = true → ∃ n, is_Some (kernel w' !! (r, n)))).
Proof.
  intros Hone [g HI]%(drop_reachable_inv root_ batch auth_token max_upload_bytes ttl_seconds Hone). pose proof HI as [[HC _] Hnone].
  destruct (objs w !! r) as [u|] eqn:Hu; [|by split; [apply Hnone|]].
  assert (is_Some (g !! r)) as [ino Hg] by (apply (i_dom _ _ _ HC); eauto).
  destruct (i_obj _ _ _ HC r u ino Hu Hg) as (body&Hb&Ho).
  split; [|intros x [= <-]; split; [intros Ha; apply Ho; by right|]].
  - destruct (decide (finished u = false ∨ aborted u = true)) as [Hs|Hs].
    + rewrite (o_silent _ _ _ _ _ _ Ho Hs). simpl. lia.
    + destruct (finished u) eqn:Hf, (aborted u) eqn:Ha; try (by exfalso; apply Hs; auto).
      destruct (o_done _ _ _ _ _ _ Ho Hf Ha) as (_&st&b&->&_). simpl. lia.
  - intros Ha Hf. split; [apply Ho; by left|]. intros a res w' Hcall.
    assert (Inv' root_ g w' ∧ acted root_ a r res w w') as [[[HC' Hidle'] _] Hact].
    { destruct Hcall; [by apply body_step|by apply (complete_step root_ batch Hone)|by eapply io_step]. }
    destruct (Hact u Hu) as (u'&body'&Hu'&Hb'&Hab'&Hft&Hst); [by unfold live; rewrite Ha, Hf|].
    exists u', body'. split_and!; try done.
    assert (is_Some (g !! r)) as [ino' Hg'] by (apply (i_dom _ _ _ HC'); eauto).
    destruct (i_obj _ _ _ HC' r u' ino' Hu' Hg') as (?&_&Ho').
    destruct (finished u') eqn:Hf'; [by apply Hst; [unfold live; rewrite Ha, Hf|]|].
    split; [apply Ho'; by left|]. intros Hrc.
    pose proof (Hidle' r u' Hu' Hf' (or_introl Hrc)) as (n&op&Hop)%map_choose. exists n.
    rewrite (i_kernel _ _ _ HC'), Hu'. simpl. rewrite Hop. simpl. rewrite Hg'. by eexists.
Qed.

(** Nothing is left behind, with a [submit_batch_size] of 1: every open descriptor
    and every temporary file is that of an upload that is neither finished nor
    aborted, and an upload whose request is over and which is not finished has a
    write in the kernel, whose completion will call it. *)
Theorem uploads_resources w : batch ≤ 1 → runs w →
  (∀ d, is_Some (fds w !! d) → ∃ r u, objs w !! r = Some u ∧ fd u = d ∧ live u = true) ∧
  (∀ i, SafeId i = true → is_Some (paths (disk w) !! TempObjectPath root_ i) →
     ∃ r u, objs w !! r = Some u ∧ id (meta u) = i ∧ live u = true) ∧
  (∀ r u, objs w !! r = Some u → finished u = false → request_complete u = true ∨ aborted u = true →
     ∃ n, is_Some (kernel w !! (r, n))).
Proof.
  intros Hone [g [[HC Hidle] _]]%(drop_reachable_inv root_ batch auth_token max_upload_bytes ttl_seconds Hone). split_and!.
  - intros d [ino (r&u&Hu&Hd&Hpos&Hg)%(i_fds _ _ _ HC)]. exists r, u. split_and!; try done.
    destruct (i_obj _ _ _ HC r u ino Hu Hg) as (b&_&Ho). destruct (live u) eqn:Hl; [done|].
    apply Ho in Hl. lia.
  - intros i Hi%SafeId_path [ino Hp]. destruct (i_paths _ _ _ HC _ _ Hp) as [_ Ho].
    by eapply (owned_temp root_ batch Hone).
  - intros r u Hu Hf Hend. pose proof (Hidle r u Hu Hf Hend) as Hp.
    apply map_choose in Hp as (n&op&Hop). exists n. rewrite (i_kernel _ _ _ HC), Hu. simpl. rewrite Hop. simpl.
    assert (is_Some (g !! r)) as [ino ->] by (apply (i_dom _ _ _ HC); eauto). by eexists.
Qed.
End Results.

(** ** A run, and one with requests handed over in pairs *)

Definition sample_headers (ms fd : Z) : headers_in :=
  mkHeaders [] 0 (λ _, txt "notes") (λ _, true) [] 1700 (2 ^ 40 + ms) 1 255 1700 fd.

Definition sample_root : fspath := txt "store".
Definition sample_id (ms : Z) : bytes := GenerateId (2 ^ 40 + ms) 1 255.
Definition all_well : answers := mkAnswers true true (Some 1000%nat).

Definition sample_begin (r : bytes) (ms fd : Z) (w : world) : world :=
  note_begin r (on_headers sample_root [] 1000 60 r (sample_headers ms fd) w).1.

Section Sample.
Context (batch : Z).

Definition sample_body (r chunk : bytes) (w : world) : world :=
  on_body sample_root batch all_well r chunk (note_chunk r chunk w).

Definition sample_io (r : bytes) (n : nat) (result : Z) (w : world) : world :=
  default w (io_done sample_root batch all_well r n result w).

Definition sample_step : world → world → Prop := step sample_root batch [] 1000 60.

(** The conditions of the steps, as tests. *)
Definition can_begin (r : bytes) (ms fd : Z) (w : world) : bool :=
  bool_decide (objs w !! r = None) && bool_decide (length (replies r (log w)) = 0%nat) &&
  bool_decide (fds w !! fd = None) && (0 <=? ms) && bool_decide (received w !! sample_id ms = None).

Definition can_receive (r chunk : bytes) (w : world) : bool :=
  match objs w !! r with
  | Some u => negb (request_complete u) &&
      (zlen (default [] (received w !! id (meta u)) ++ chunk) <? 2 ^ 32)
  | None => true
  end.

Definition can_end (r : bytes) (n : nat) (result : Z) (w : world) : bool :=
  match kernel w !! (r, n) with
  | Some (Some _, _, data) => (result <=? zlen data) && bool_decide (is_Some (objs w !! r))
  | _ => false
  end.

Lemma sample_begins r ms fd w : can_begin r ms fd w = true → sample_step w (sample_begin r ms fd w).
Proof.
  intros [[[[H1 H2]%andb_true_iff H3]%andb_true_iff H4]%andb_true_iff H5]%andb_true_iff.
  apply bool_decide_eq_true in H1, H2, H3, H5. apply Z.leb_le in H4.
  apply (s_headers _ _ _ _ _ r (sample_headers ms fd)); try done; [by apply nil_length_inv|simpl; lia].
Qed.

Lemma sample_receives r chunk w : can_receive r chunk w = true → sample_step w (sample_body r chunk w).
Proof.
  intros Hc. apply s_body. intros u body Hu Hb. unfold can_receive in Hc. rewrite Hu, Hb in Hc.
  apply andb_true_iff in Hc as [?%negb_true_iff ?%Z.ltb_lt]. done.
Qed.

Lemma sample_ends r n result w : can_end r n result w = true → sample_step w (sample_io r n result w).
Proof.
  unfold can_end. destruct (kernel w !! (r, n)) as [[[[ino|] off] data]|] eqn:Hk; try done.
  intros [Hres%Z.leb_le [u Hu]%bool_decide_eq_true]%andb_true_iff.
  destruct (io_done sample_root batch all_well r n result w) as [w'|] eqn:E.
  - unfold sample_io. rewrite E. eapply s_io; try done.
  - exfalso. revert E. unfold io_done. rewrite Hk, Hu. simpl. by destruct (OnWrite _ _ _ _ _ _ _ _) as [[] ?].
Qed.
End Sample.

(** An upload whose one write takes two requests. *)
Definition sample_sent : world :=
  on_complete sample_root all_well (txt "a")
    (sample_body 1 (txt "a") (txt "hello") (sample_begin (txt "a") 0 3 empty_world)).
Definition sample_partial : world := sample_io 1 (txt "a") 0 3 sample_sent.
Definition sample_world : world := sample_io 1 (txt "a") 0 2 sample_partial.

Lemma sample_partial_run : rtc (sample_step 1) empty_world sample_partial.
Proof.
  eapply rtc_l; [by apply (sample_begins 1 (txt "a") 0 3)|].
  eapply rtc_l; [apply (sample_receives 1 (txt "a") (txt "hello")); by vm_compute|].
  eapply rtc_l; [apply (s_complete _ _ _ _ _ all_well (txt "a"))|].
  { intros u Hu. vm_compute in Hu. by injection Hu as <-. }
  apply rtc_once, (sample_ends 1 (txt "a") 0 3). by vm_compute.
Qed.

Lemma sample_last_step : sample_step 1 sample_partial sample_world.
Proof. apply sample_ends. by vm_compute. Qed.

Lemma sample_run : rtc (sample_step 1) empty_world sample_world.
Proof. eapply rtc_r; [apply sample_partial_run|apply sample_last_step]. Qed.

Lemma uploads_exact_witness :
  read_path (ObjectPath sample_root (sample_id 0)) (disk sample_world) = Some (txt "hello") ∧
  received sample_world !! sample_id 0 = Some (txt "hello").
Proof.
  assert (read_path (ObjectPath sample_root (sample_id 0)) (disk sample_world) = Some (txt "hello")) as H
    by (by vm_compute).
  split; [exact H|].
  exact (proj1 (uploads_exact sample_root 1 [] 1000 60 sample_world (sample_id 0) (txt "hello")
    ltac:(lia) sample_run ltac:(by vm_compute) H)).
Defined.

Lemma sample_last_call : call sample_root 1 all_well (txt "a") sample_partial (Some 2) sample_world.
Proof.
  eapply (call_write _ _ _ _ _ 0 2); [by vm_compute|done|done|]. unfold sample_world, sample_io.
  destruct (io_done _ _ _ _ _ _ _) eqn:E; [done|]. by vm_compute in E.
Qed.

(** The last call of the run answers the request and has stored file and record. *)
Lemma uploads_answered_witness : ∃ u' body,
  objs sample_world !! txt "a" = Some u' ∧ received sample_world !! id (meta u') = Some body ∧
  replies (txt "a") (log sample_world) = [(201, MetaJsonForApi (meta u'))] ∧
  read_path (ObjectPath sample_root (id (meta u'))) (disk sample_world) = Some body ∧
  read_path (MetaPath sample_root (id (meta u'))) (disk sample_world) = Some (SerializeMeta (meta u')).
Proof.
  destruct (objs sample_partial !! txt "a") as [u|] eqn:Hu; [|by vm_compute in Hu].
  destruct (proj2 (uploads_answered sample_root 1 [] 1000 60 sample_partial (txt "a") ltac:(lia) sample_partial_run)
    u Hu) as [_ Hgo].
  destruct Hgo as [_ Hgo]; [by vm_compute in Hu; injection Hu as <-..|].
  destruct (Hgo _ _ _ sample_last_call) as (u'&body&Hu'&Hb&_&Hend). exists u', body.
  assert (finished u' = true ∧ answer_of all_well body u' = (201, MetaJsonForApi (meta u')) ∧
    take 1000 (SerializeMeta (meta u')) = SerializeMeta (meta u')) as (Hf&Ha&Hn).
  { vm_compute in Hu'. injection Hu' as <-. vm_compute in Hb. injection Hb as <-. by vm_compute. }
  rewrite Hf in Hend. destruct Hend as (_&Hr&Hs&_). rewrite Ha in *.
  destruct (Hs eq_refl) as (_&Ho&n&[= <-]&Hm). rewrite Hn in Hm. by split_and!.
Defined.

Lemma uploads_resources_witness :
  ∃ r u, objs sample_partial !! r = Some u ∧ fd u = 3 ∧ live u = true.
Proof.
  apply (proj1 (uploads_resources sample_root 1 [] 1000 60 sample_partial ltac:(lia) sample_partial_run) 3).
  vm_compute. by eexists.
Defined.

(** With a [submit_batch_size] of 2 a write of an aborted upload is handed to the
    kernel after its descriptor has been closed and given to another upload: the
    other upload is answered with status 201, and its file holds other bytes than it
    received. *)
Definition mixed_world : world :=
  sample_io 2 (txt "a") 0 5 (sample_io 2 (txt "b") 1 5 (on_complete sample_root all_well (txt "b")
    (sample_body 2 (txt "b") (txt "after") (sample_begin (txt "b") 1 3
      (on_abort (txt "a") (sample_body 2 (txt "a") (txt "first") (sample_begin (txt "a") 0 3 empty_world))))))).

Example stale_descriptor_write :
  rtc (sample_step 2) empty_world mixed_world ∧
  received mixed_world !! sample_id 1 = Some (txt "after") ∧
  read_path (ObjectPath sample_root (sample_id 1)) (disk mixed_world) = Some (txt "first") ∧
  (replies (txt "b") (log mixed_world)).*1 = [201].
Proof.
  split; [|by vm_compute].
  eapply rtc_l; [by apply (sample_begins 2 (txt "a") 0 3)|].
  eapply rtc_l; [apply (sample_receives 2 (txt "a") (txt "first")); by vm_compute|].
  eapply rtc_l; [apply (s_abort _ _ _ _ _ (txt "a"))|].
  eapply rtc_l; [apply (sample_begins 2 (txt "b") 1 3); by vm_compute|].
  eapply rtc_l; [apply (sample_receives 2 (txt "b") (txt "after")); by vm_compute|].
  eapply rtc_l; [apply (s_complete _ _ _ _ _ all_well (txt "b"))|].
  { intros u Hu. vm_compute in Hu. by injection Hu as <-. }
  eapply rtc_l; [apply (sample_ends 2 (txt "b") 1 5); by vm_compute|].
  apply rtc_once, (sample_ends 2 (txt "a") 0 5). by vm_compute.
Qed.
