(* ===== verification/ActivityText.v ===== *)
(** * Texts of the activity server

    [app/activity-server/src/ActivityUtils.cpp] and the functions at the head of
    [ActivitySession.cpp]: JSON, queries and cookies, commands for the shell and
    configuration files for curl, playlists of the TVING proxy, and the checks of
    paths.  [std::filesystem::path] is that of Paths.v. *)

From S2P Require Import Prelude Text Paths HttpRequest DropMeta Hls.

#[local] Open Scope Z_scope.
#[local] Set Warnings "-clear-no-such-hyp".

(** ** Numbers *)

(** [std::stoull], and [std::stoul]: a sign is allowed, and a minus wraps around; [None]: it throws. *)
Definition stoull (s : bytes) : option Z :=
  let '(sign, s) :=
    match skip_spaces s with
    | c :: s => if decide (c = "-"%char) then (-1, s) else
                if decide (c = "+"%char) then (1, s) else (1, c :: s)
    | [] => (1, [])
    end in
  match (digits_prefix s).1 with
  | [] => None
  | ds => if digits_value ds <? 2 ^ 64 then Some (u64 (sign * digits_value ds)) else None
  end.

(** Source: app/activity-server/src/ActivityUtils.cpp:28-39, EnvPort.
    [raw] is the value of the variable. *)
Definition EnvPort (raw : option bytes) (fallback : Z) : Z :=
  match raw ≫= stoull with
  | Some value => if value <=? 65535 then value else fallback
  | None => fallback
  end.

(** ** JSON *)

(** Source: app/activity-server/src/ActivityUtils.cpp:41-57, JsonEscape. *)
Definition JsonEscape (text : bytes) : bytes :=
  text ≫= λ ch,
    if decide (ch = dq) then [backslash; dq]
    else if decide (ch = backslash) then [backslash; backslash]
    else if decide (ch = "010"%char) then [backslash; "n"%char]
    else if decide (ch = "013"%char) then [backslash; "r"%char]
    else if decide (ch = "009"%char) then [backslash; "t"%char]
    else [if byte_val ch <? 32 then " "%char else ch].

(** Source: app/activity-server/src/ActivityUtils.cpp:107-125, JsonString.
    The loop over the characters of the value. *)
Fixpoint json_value (json out : bytes) : option bytes :=
  match json with
  | [] => None
  | ch :: json =>
    if decide (ch = dq) then Some out else
    match json with
    | escaped :: json' =>
      if decide (ch = backslash) then
        json_value json' (out ++
          [if decide (escaped = "n"%char) then "010"%char
           else if decide (escaped = "r"%char) then "013"%char
           else if decide (escaped = "t"%char) then "009"%char
           else escaped])
      else json_value json (out ++ [ch])
    | [] => json_value json (out ++ [ch])
    end
  end.

(** Source: app/activity-server/src/ActivityUtils.cpp:96-126, JsonString. *)
Definition JsonString (json key : bytes) : option bytes :=
  '(_, json) ← split_sub ([dq] ++ key ++ [dq]) json;
  '(_, json) ← split_at ":"%char json;
  '(_, json) ← split_at dq json;
  json_value json [].

(** ** Queries, cookies *)

Fixpoint drop_back_spaces (s : bytes) : bytes :=
  match s with
  | [] => []
  | b :: s => match drop_back_spaces s with
              | [] => if isspace b then [] else [b]
              | s => b :: s
              end
  end.

(** Source: app/activity-server/src/ActivityUtils.cpp:68-76, Trim. *)
Definition Trim (text : bytes) : bytes := drop_back_spaces (skip_spaces text).

(** Source: app/activity-server/src/ActivityUtils.cpp:78-94, QueryParam.
    Each round drops a part, so the length bounds the rounds. *)
Fixpoint query_loop (fuel : nat) (query name : bytes) : bytes :=
  match fuel with
  | O => []
  | S fuel =>
    if bool_decide (query = []) then [] else
    let '(part, more) := match split_at "&"%char query with
                         | Some (part, more) => (part, Some more) | None => (query, None) end in
    let '(key, value) := default (part, []) (split_at "="%char part) in
    if bool_decide (key = name) then UrlDecode value else
    match more with None => [] | Some query => query_loop fuel query name end
  end.

Definition QueryParam (query name : bytes) : bytes := query_loop (S (length query)) query name.

(** Source: app/activity-server/src/ActivitySession.cpp:118-130, CookieValue. *)
Fixpoint cookie_loop (fuel : nat) (cookie key : bytes) : bytes :=
  match fuel with
  | O => []
  | S fuel =>
    if bool_decide (cookie = []) then [] else
    let '(part, more) := match split_at ";"%char cookie with
                         | Some (part, more) => (part, Some more) | None => (cookie, None) end in
    match split_at "="%char (Trim part) with
    | Some (k, value) =>
      if bool_decide (k = key) then UrlDecode value else
      match more with None => [] | Some cookie => cookie_loop fuel cookie key end
    | None => match more with None => [] | Some cookie => cookie_loop fuel cookie key end
    end
  end.

Definition CookieValue (cookie key : bytes) : bytes := cookie_loop (S (length cookie)) cookie key.

(** Source: app/activity-server/src/ActivitySession.cpp:88-108, CleanCookieText.
    What a line adds to [parts]. *)
Definition cookie_line (line : bytes) : list bytes :=
  let line := Trim line in
  if bool_decide (line = []) then [] else
  if starts_with (txt "#") line && negb (starts_with (txt "#HttpOnly_") line) then [] else
  let line := if starts_with (txt "cookie:") (Lower line)
              then match split_at ":"%char line with Some (_, value) => Trim value | None => line end
              else line in
  if bool_decide ("009"%char ∈ line) then
    match reverse (getline_by "009"%char [] line) with
    | value :: name :: columns =>
      if (7 <=? zlen (value :: name :: columns)) then [name ++ txt "=" ++ value] else []
    | _ => []
    end
  else [line].

Fixpoint join (sep : bytes) (parts : list bytes) : bytes :=
  match parts with
  | [] => []
  | [part] => part
  | part :: parts => part ++ sep ++ join sep parts
  end.

(** Source: app/activity-server/src/ActivitySession.cpp:84-116, CleanCookieText. *)
Definition CleanCookieText (raw_cookie : bytes) : bytes :=
  join (txt "; ") (getlines [] raw_cookie ≫= cookie_line).

(** ** Commands *)

Abbreviation apostrophe := ("'"%char : byte).

(** Source: app/activity-server/src/ActivityUtils.cpp:201-205, ShellQuote. *)
Definition quote_char (ch : byte) : bytes :=
  if decide (ch = apostrophe) then [apostrophe; backslash; apostrophe; apostrophe] else [ch].

(** Source: app/activity-server/src/ActivityUtils.cpp:198-209, ShellQuote. *)
Definition ShellQuote (value : bytes) : bytes := [apostrophe] ++ (value ≫= quote_char) ++ [apostrophe].

(** Source: app/activity-server/src/ActivityUtils.cpp:245-250, CurlGet.
    The command. *)
Definition curl_command (url extra_args : bytes) : bytes :=
  txt "curl -LfsS --max-time 30 -A " ++ ShellQuote (txt "Mozilla/5.0 Cocoatube/1.0") ++ txt " " ++
  extra_args ++ txt " " ++ ShellQuote url ++ txt " 2>/dev/null".

(** Source: app/activity-server/src/ActivityHub.cpp:238-242, ActivityHub::DownloadWorker.
    The command. *)
Definition ytdlp_command (output_template url : bytes) : bytes :=
  txt "yt-dlp -f " ++
  ShellQuote (txt "bestvideo[vcodec^=avc1][ext=mp4][height<=1080]+bestaudio[ext=m4a]/best[ext=mp4][height<=1080]/best[height<=1080]") ++
  txt " --merge-output-format mp4 --no-playlist -o " ++ ShellQuote output_template ++
  txt " " ++ ShellQuote url.

(** Source: app/activity-server/src/ActivitySession.cpp:75-82, ReplaceAll.
    A replacement moves the position on, so the length bounds the rounds. *)
Fixpoint replace_loop (fuel : nat) (text from to : bytes) : bytes :=
  match fuel with
  | O => text
  | S fuel =>
    match split_sub from text with
    | None => text
    | Some (before, after) => before ++ to ++ replace_loop fuel after from to
    end
  end.

Definition ReplaceAll (text from to : bytes) : bytes := replace_loop (S (length text)) text from to.

Definition config_value (text : bytes) : bytes := ReplaceAll text [dq] [backslash; dq].

(** Source: app/activity-server/src/ActivitySession.cpp:230-236, CurlGetWithConfigStatus.
    The text of the configuration file. *)
Definition curl_config (url : bytes) (headers : list bytes) : bytes :=
  concat ((λ l, l ++ [LF]) <$>
    [txt "silent"; txt "show-error"; txt "location"; txt "max-time = 20";
     txt "url = " ++ [dq] ++ config_value url ++ [dq];
     txt "write-out = " ++ [dq] ++ [backslash] ++ txt "n__CURL_HTTP_STATUS__:%{http_code}" ++ [dq]]) ++
  (headers ≫= λ header, txt "header = " ++ [dq] ++ config_value header ++ [dq; LF]).

(** Source: app/activity-server/src/ActivitySession.cpp:186-191, CurlGetWithConfig.
    The text of the configuration file. *)
Definition curl_config_plain (url : bytes) (headers : list bytes) : bytes :=
  concat ((λ l, l ++ [LF]) <$>
    [txt "silent"; txt "show-error"; txt "location"; txt "fail-with-body"; txt "max-time = 20";
     txt "url = " ++ [dq] ++ config_value url ++ [dq]]) ++
  (headers ≫= λ header, txt "header = " ++ [dq] ++ config_value header ++ [dq; LF]).

(** Source: app/activity-server/src/ActivitySession.cpp:977-985, ActivitySession::ExchangeDiscordToken.
    The command. *)
Definition discord_command (client_id client_secret code : bytes) : bytes :=
  txt "curl -fsS --max-time 20 -X POST " ++ ShellQuote (txt "https://discord.com/api/oauth2/token") ++
  txt " -H " ++ ShellQuote (txt "Content-Type: application/x-www-form-urlencoded") ++
  txt " --data-urlencode " ++ ShellQuote (txt "client_id=" ++ client_id) ++
  txt " --data-urlencode " ++ ShellQuote (txt "client_secret=" ++ client_secret) ++
  txt " --data-urlencode " ++ ShellQuote (txt "grant_type=authorization_code") ++
  txt " --data-urlencode " ++ ShellQuote (txt "code=" ++ code) ++
  txt " 2>/dev/null".

(** Source: app/activity-server/src/ActivityHub.cpp:258-265, ActivityHub::DownloadWorker.
    The commands; [codec] is what they differ in. *)
Definition ffmpeg_command (codec media_file segment_pattern playlist : bytes) : bytes :=
  txt "ffmpeg -y -i " ++ ShellQuote media_file ++ txt " " ++ codec ++
  txt " -f hls -hls_time 6 -hls_playlist_type vod -hls_segment_filename " ++
  ShellQuote segment_pattern ++ txt " " ++ ShellQuote playlist.

(** Source: app/activity-server/src/ActivityHub.cpp:258-261, ActivityHub::DownloadWorker. *)
Definition ffmpeg_copy : bytes → bytes → bytes → bytes := ffmpeg_command (txt "-c copy").

(** Source: app/activity-server/src/ActivityHub.cpp:262-265, ActivityHub::DownloadWorker. *)
Definition ffmpeg_transcode : bytes → bytes → bytes → bytes :=
  ffmpeg_command (txt "-c:v libx264 -preset veryfast -c:a aac").

(** ** Playlists of TVING *)

(** Source: app/activity-server/src/ActivitySession.cpp:153-156, ExtractM3u8Urls. *)
Definition ends_url (ch : byte) : bool :=
  bool_decide (ch ∈ [dq; apostrophe; "<"%char; ">"%char; backslash; "013"%char; "010"%char; " "%char]).

(** Source: app/activity-server/src/ActivitySession.cpp:150-159, ExtractM3u8Urls.
    The URL at the head of a text, and what follows. *)
Fixpoint take_url (text : bytes) : bytes * bytes :=
  match text with
  | [] => ([], [])
  | ch :: rest => if ends_url ch then ([], text) else
                  let '(url, rest) := take_url rest in (ch :: url, rest)
  end.

(** Source: app/activity-server/src/ActivitySession.cpp:160-162, ExtractM3u8Urls. *)
Fixpoint strip_brackets (url : bytes) : bytes :=
  match url with
  | [] => []
  | ch :: url => match strip_brackets url with
                 | [] => if bool_decide (ch ∈ [","%char; "]"%char; "}"%char]) then [] else [ch]
                 | url => ch :: url
                 end
  end.

Definition contains (p s : bytes) : bool := bool_decide (is_Some (split_sub p s)).

(** Source: app/activity-server/src/ActivitySession.cpp:138-168, ExtractM3u8Urls.
    The loop: [text] is the text from [pos] on.  [seen] holds what was pushed to
    [urls], so [urls] stands for both.  A round drops characters, so the length bounds
    the rounds. *)
Fixpoint m3u8_loop (fuel : nat) (text : bytes) (urls : list bytes) : list bytes :=
  match fuel with
  | O => urls
  | S fuel =>
    match split_sub (txt "http") text with
    | None => urls
    | Some (_, after) =>
      let here := txt "http" ++ after in
      if negb (starts_with (txt "https://") here) && negb (starts_with (txt "http://") here)
      then m3u8_loop fuel after urls
      else
        let '(url, rest) := take_url here in
        let url := strip_brackets url in
        m3u8_loop fuel rest
          (if contains (txt ".m3u8") (Lower url) && bool_decide (url ∉ urls) then urls ++ [url] else urls)
    end
  end.

(** Source: app/activity-server/src/ActivitySession.cpp:132-169, ExtractM3u8Urls. *)
Definition ExtractM3u8Urls (text : bytes) : list bytes :=
  let text := ReplaceAll text [backslash; "/"%char] (txt "/") in
  let text := ReplaceAll text ([backslash] ++ txt "u0026") (txt "&") in
  let text := ReplaceAll text ([backslash] ++ txt "u003d") (txt "=") in
  let text := ReplaceAll text ([backslash] ++ txt "u003D") (txt "=") in
  m3u8_loop (S (length text)) text [].

(** Source: app/activity-server/src/ActivitySession.cpp:171-180, JsonArray. *)
Definition JsonArray (values : list bytes) : bytes :=
  txt "[" ++ join (txt ",") ((λ v, [dq] ++ JsonEscape v ++ [dq]) <$> values) ++ txt "]".

(** Source: app/activity-server/src/ActivitySession.cpp:293-309, BuildTvingStreamInfoUrl.
    [now] is the system clock in milliseconds. *)
Definition BuildTvingStreamInfoUrl (media_code : bytes) (now : Z) : bytes :=
  txt "https://api.tving.com/v2/media/stream/info" ++ txt "?screenCode=CSSD0100" ++
  txt "&networkCode=CSND0900" ++ txt "&osCode=CSOD0900" ++ txt "&teleCode=CSCD0900" ++
  txt "&apiKey=1e7952d0917d6aab1f0293a063697610" ++ txt "&mediaCode=" ++ UrlEncode media_code ++
  txt "&info=Y" ++ txt "&callingFrom=HTML5" ++ txt "&adReq=adproxy" ++
  txt "&uuid=2410204104-300a362f" ++ txt "&deviceInfo=PC" ++ txt "&noCache=" ++ to_string_i now.

(** Source: app/activity-server/src/ActivitySession.cpp:311-332, BuildTvingHeaders. *)
Definition BuildTvingHeaders (cookie token auth_token access_token : bytes) : list bytes :=
  [txt "Accept: application/json, text/plain, */*";
   txt "Accept-Language: ko,en;q=0.9";
   txt "Origin: https://www.tving.com";
   txt "Referer: https://www.tving.com/";
   txt "User-Agent: Mozilla/5.0 (Windows NT 10.0; Win64; x64) AppleWebKit/537.36 (KHTML, like Gecko) Chrome/147.0.0.0 Safari/537.36";
   txt "Authorization: Bearer " ++ token;
   txt "Cookie: " ++ cookie] ++
  (if bool_decide (auth_token = []) then [] else [txt "Auth-Token: " ++ auth_token]) ++
  (if bool_decide (access_token = []) then [] else [txt "Access-Token: " ++ access_token]).

(** Source: app/activity-server/src/ActivitySession.cpp:337-338, ChooseTvingVideoUrl. *)
Definition is_audio (url : bytes) : bool :=
  contains (txt "audio") (Lower url) || contains (txt "kbo2026audio") (Lower url).

(** Source: app/activity-server/src/ActivitySession.cpp:334-343, ChooseTvingVideoUrl. *)
Definition ChooseTvingVideoUrl (urls : list bytes) : bytes :=
  match filter (λ url, is_audio url = false) urls with
  | url :: _ => url
  | [] => default [] (head urls)
  end.

(** Source: app/activity-server/src/ActivitySession.cpp:345-354, ChooseTvingAudioUrl. *)
Definition ChooseTvingAudioUrl (urls : list bytes) : bytes :=
  default [] (head (filter (λ url, is_audio url = true) urls)).

(** Source: app/activity-server/src/ActivitySession.cpp:356-359, TvingProxyUrl. *)
Definition TvingProxyUrl (remote_url tving_id : bytes) : bytes :=
  txt "/proxy/hls?url=" ++ UrlEncode remote_url ++ txt "&tving_id=" ++ UrlEncode tving_id.

(** Source: app/activity-server/src/ActivitySession.cpp:361-382, BuildTvingMasterPlaylist. *)
Definition BuildTvingMasterPlaylist (video_url audio_url tving_id : bytes) : bytes :=
  let with_audio := bool_decide (audio_url ≠ []) in
  txt "#EXTM3U" ++ [LF] ++ txt "#EXT-X-VERSION:7" ++ [LF] ++ txt "#EXT-X-INDEPENDENT-SEGMENTS" ++ [LF] ++
  (if with_audio then
     txt "#EXT-X-MEDIA:TYPE=AUDIO,GROUP-ID=" ++ [dq] ++ txt "tving-audio" ++ [dq] ++
     txt ",NAME=" ++ [dq] ++ txt "TVING" ++ [dq] ++ txt ",DEFAULT=YES,AUTOSELECT=YES,URI=" ++ [dq] ++
     TvingProxyUrl audio_url tving_id ++ [dq; LF]
   else []) ++
  txt "#EXT-X-STREAM-INF:BANDWIDTH=6000000,AVERAGE-BANDWIDTH=4500000," ++
  txt "CODECS=" ++ [dq] ++ (if with_audio then txt "avc1.640028,mp4a.40.2" else txt "avc1.640028") ++ [dq] ++
  (if with_audio then txt ",AUDIO=" ++ [dq] ++ txt "tving-audio" ++ [dq] else []) ++
  [LF] ++ TvingProxyUrl video_url tving_id ++ [LF].

(** Source: app/activity-server/src/ActivitySession.cpp:384-421, RewriteHlsManifestWithTving.
    The lines are rewritten as in [RewriteHlsManifest], to the URLs of [TvingProxyUrl]. *)
Definition RewriteHlsManifestWithTving (text base_url tving_id : bytes) : option bytes :=
  rewrite_manifest (λ url, TvingProxyUrl url tving_id) text base_url.

(** ** Paths *)

(** Source: app/activity-server/src/ActivitySession.cpp:37-44, IsBackendPrefix. *)
Definition IsBackendPrefix (path : bytes) : bool :=
  bool_decide (path = txt "/api") || starts_with (txt "/api/") path ||
  bool_decide (path = txt "/ws") ||
  bool_decide (path = txt "/hls") || starts_with (txt "/hls/") path ||
  bool_decide (path = txt "/files") || starts_with (txt "/files/") path ||
  bool_decide (path = txt "/local") || starts_with (txt "/local/") path ||
  bool_decide (path = txt "/proxy") || starts_with (txt "/proxy/") path.

(** Source: app/activity-server/src/ActivitySession.cpp:46-62, StaticContentType. *)
Definition StaticContentType (path : fspath) : bytes :=
  let ext := extension path in
  let ext_is e := bool_decide (ext = txt e) in
  if ext_is ".html" then txt "text/html; charset=utf-8" else
  if ext_is ".css" then txt "text/css; charset=utf-8" else
  if ext_is ".js" || ext_is ".mjs" then txt "application/javascript; charset=utf-8" else
  if ext_is ".json" then txt "application/json" else
  if ext_is ".svg" then txt "image/svg+xml" else
  if ext_is ".ico" then txt "image/x-icon" else
  if ext_is ".png" then txt "image/png" else
  if ext_is ".jpg" || ext_is ".jpeg" then txt "image/jpeg" else
  if ext_is ".webp" then txt "image/webp" else
  if ext_is ".woff" then txt "font/woff" else
  if ext_is ".woff2" then txt "font/woff2" else
  if ext_is ".wasm" then txt "application/wasm" else
  if ext_is ".txt" then txt "text/plain; charset=utf-8" else
  txt "application/octet-stream".

(** Source: app/activity-server/src/ActivitySession.cpp:64-73, IsWithinRoot.
    The loop over the elements of the two paths. *)
Fixpoint within (root target : list bytes) : bool :=
  match root, target with
  | [], _ => true
  | _ :: _, [] => false
  | r :: root, t :: target => bool_decide (r = t) && within root target
  end.

Definition IsWithinRoot (root target : fspath) : bool := within (elements_of root) (elements_of target).

(** ** The shell reads back the words *)

(** The shell on a text of this fragment of its grammar: words with single quotes and
    backslashes, blanks between them and operators; anything else it would expand or
    interpret, and a quote left open, is [None]. *)
Inductive token := Word (w : bytes) | Op (c : byte).

Definition is_operator (c : byte) : bool := bool_decide (c ∈ txt ";&|<>()").
Definition is_expanded (c : byte) : bool :=
  bool_decide (c ∈ [dq; "$"%char; "`"%char; "*"%char; "?"%char; "["%char; "#"%char; "~"%char; "!"%char; LF]).

Definition word_token (word : option bytes) : list token := match word with Some w => [Word w] | None => [] end.

Fixpoint sh_tokens (quoted : bool) (word : option bytes) (s : bytes) : option (list token) :=
  match s with
  | [] => if quoted then None else Some (word_token word)
  | c :: s =>
    if quoted then
      if decide (c = apostrophe) then sh_tokens false word s
      else sh_tokens true (Some (default [] word ++ [c])) s
    else if decide (c = apostrophe) then sh_tokens true (Some (default [] word)) s
    else if decide (c = backslash) then
      match s with
      | escaped :: s => sh_tokens false (Some (default [] word ++ [escaped])) s
      | [] => None
      end
    else if bool_decide (c = " "%char) || bool_decide (c = "009"%char) then
      ts ← sh_tokens false None s; Some (word_token word ++ ts)
    else if is_operator c then
      ts ← sh_tokens false None s; Some (word_token word ++ [Op c] ++ ts)
    else if is_expanded c then None
    else sh_tokens false (Some (default [] word ++ [c])) s
  end.

(** The command as [system] and [popen] get it: a C string. *)
Definition c_str (s : bytes) : bytes :=
  match split_at "000"%char s with Some (s, _) => s | None => s end.

Definition command_tokens (command : bytes) : option (list token) := sh_tokens false None (c_str command).

Lemma sh_quote_char c word rest :
  sh_tokens true (Some word) (quote_char c ++ rest) = sh_tokens true (Some (word ++ [c])) rest.
Proof.
  unfold quote_char. case_decide as Hc; [subst c; done|].
  cbn -[decide]. by rewrite decide_False.
Qed.

Lemma sh_quoted v word rest :
  sh_tokens true (Some word) ((v ≫= quote_char) ++ rest) = sh_tokens true (Some (word ++ v)) rest.
Proof.
  revert word; induction v as [|c v IH]; intros word; [by rewrite app_nil_r|].
  cbn [mbind list_bind]. by rewrite <- app_assoc, sh_quote_char, IH, <- app_assoc.
Qed.

Lemma sh_ShellQuote v word rest :
  sh_tokens false word (ShellQuote v ++ rest) = sh_tokens false (Some (default [] word ++ v)) rest.
Proof. unfold ShellQuote. rewrite <- !app_assoc. cbn. by rewrite sh_quoted. Qed.

Lemma c_str_free s : ("000"%char ∉ s) → c_str s = s.
Proof. intros H%split_at_None. unfold c_str. by rewrite H. Qed.

Definition plain_char (c : byte) : bool :=
  negb (bool_decide (c = apostrophe) || bool_decide (c = backslash) || bool_decide (c = " "%char) ||
        bool_decide (c = "009"%char) || is_operator c || is_expanded c).

Lemma sh_plain w word rest : forallb plain_char w = true →
  sh_tokens false word (w ++ rest) =
  sh_tokens false (match w with [] => word | _ => Some (default [] word ++ w) end) rest.
Proof.
  revert word; induction w as [|c w IH]; intros word Hw; [done|].
  apply andb_prop in Hw as [Hc Hw]. unfold plain_char in Hc. rewrite negb_true_iff, !orb_false_iff in Hc.
  destruct Hc as [[[[[H1 H2] H3] H4] H5] H6]. cbn.
  rewrite !decide_False by (by eapply bool_decide_eq_false_1).
  rewrite H3, H4, H5, H6; cbn. rewrite (IH _ Hw). destruct w; cbn; by rewrite <-?app_assoc.
Qed.

Lemma sh_space word rest :
  sh_tokens false word (" "%char :: rest) = ts ← sh_tokens false None rest; Some (word_token word ++ ts).
Proof. done. Qed.

(** Words that need no quotes, quoted ones, and no word at all. *)
Inductive arg := Bare (w : bytes) | Quoted (w : bytes) | Nothing.
Definition arg_text (a : arg) : bytes := match a with Bare w => w | Quoted w => ShellQuote w | Nothing => [] end.
Definition arg_tokens (a : arg) : list token := match a with Bare w | Quoted w => [Word w] | Nothing => [] end.
Definition arg_ok (a : arg) : bool :=
  match a with Bare w => bool_decide (w ≠ []) && forallb plain_char w | _ => true end.

Lemma sh_arg a rest : arg_ok a = true →
  sh_tokens false None (arg_text a ++ " "%char :: rest) =
  ts ← sh_tokens false None rest; Some (arg_tokens a ++ ts).
Proof.
  destruct a as [w|w|]; cbn [arg_ok arg_text arg_tokens].
  - intros [Hw%bool_decide_eq_true_1 Hp]%andb_prop. rewrite sh_plain by done. by destruct w.
  - intros _. by rewrite sh_ShellQuote.
  - done.
Qed.

(** A command line of arguments reads back as these arguments. *)
Definition args_text (args : list arg) : bytes := args ≫= λ a, arg_text a ++ txt " ".

Lemma sh_args args rest : forallb arg_ok args = true →
  sh_tokens false None (args_text args ++ rest) =
  ts ← sh_tokens false None rest; Some ((args ≫= arg_tokens) ++ ts).
Proof.
  intros Hok. induction args as [|a args IH]; [by destruct (sh_tokens _ _ _)|].
  apply andb_prop in Hok as [Ha Hok]. unfold args_text in *. cbn [mbind list_bind]. rewrite <- !app_assoc.
  change (txt " " ++ ?x) with (" "%char :: x). rewrite sh_arg, IH by done.
  destruct (sh_tokens _ _ rest); cbn; [by rewrite <- app_assoc|done].
Qed.

Abbreviation NUL := ("000"%char : byte).

Definition opened (u : bytes) : bytes := apostrophe :: (u ≫= quote_char).

Lemma ShellQuote_opened u v : ∃ w, ShellQuote (u ++ NUL :: v) = opened u ++ NUL :: w.
Proof. eexists. unfold ShellQuote, opened. rewrite bind_app, <- app_assoc. reflexivity. Qed.

Lemma quote_char_free u : (NUL ∉ u) → NUL ∉ u ≫= quote_char.
Proof.
  intros Hu (c & Hc & Hin)%list_elem_of_bind. unfold quote_char in Hc. case_decide; set_solver.
Qed.

Lemma ShellQuote_free v : (NUL ∉ v) → NUL ∉ ShellQuote v.
Proof. intros Hv%quote_char_free. unfold ShellQuote. set_solver. Qed.

Definition args_ok (args : list arg) : Prop := Forall (λ a, arg_ok a = true ∧ NUL ∉ arg_text a) args.

Lemma args_text_free args : args_ok args → NUL ∉ args_text args.
Proof.
  intros Hok. unfold args_text. rewrite list_elem_of_bind. intros (a & Ha & Hin).
  eapply Forall_forall in Hok as [_ Hn]; [|done].
  by apply elem_of_app in Ha as [Ha|Ha]; [|apply list_elem_of_singleton in Ha].
Qed.

Lemma args_ok_forallb args : args_ok args → forallb arg_ok args = true.
Proof. intros H. apply forallb_forall. intros a Ha%list_elem_of_In. by eapply Forall_forall in H as [? _]. Qed.

(** A command whose last argument [v] is any text: the shell sees the arguments as they
    are, or, when [v] holds a null character, a text it refuses. *)
Lemma command_words args v rest ts : args_ok args → (NUL ∉ rest) →
  sh_tokens false (Some v) rest = Some (Word v :: ts) →
  command_tokens (args_text args ++ ShellQuote v ++ rest) =
  if bool_decide (NUL ∈ v) then None
  else Some ((args ≫= arg_tokens) ++ Word v :: ts).
Proof.
  intros Hargs Hrest Hts. unfold command_tokens. pose proof (args_ok_forallb _ Hargs) as Hb.
  case_bool_decide as Hv.
  - apply list_elem_of_split_l in Hv as (u & w & -> & Hu).
    destruct (ShellQuote_opened u w) as [w' ->]. unfold c_str.
    rewrite <- app_assoc, <- app_comm_cons, app_assoc, split_at_app.
    + rewrite sh_args by done. cbn. rewrite <- (app_nil_r (u ≫= _)). by rewrite sh_quoted.
    + rewrite elem_of_app. intros [?|?]; [by eapply args_text_free|].
      pose proof (quote_char_free u Hu). unfold opened in *. set_solver.
  - rewrite c_str_free by (rewrite !elem_of_app; pose proof (args_text_free args Hargs);
      pose proof (ShellQuote_free v Hv); tauto).
    rewrite sh_args, sh_ShellQuote by done. cbn. by rewrite Hts.
Qed.

Lemma text_free s t : forallb (λ c, negb (bool_decide (c = NUL))) s = true → (NUL ∉ t) → NUL ∉ s ++ t.
Proof.
  intros Hs Ht [Hin|?]%elem_of_app; [|done].
  apply forallb_forall with (x := NUL) in Hs; [|by apply list_elem_of_In].
  by rewrite bool_decide_eq_true_2 in Hs.
Qed.

Lemma nul_code url : bool_decide (NUL ∈ txt "code=" ++ url) = bool_decide (NUL ∈ url).
Proof. apply bool_decide_ext. rewrite elem_of_app. split; [|by right]. intros [H|?]; [set_solver|done]. Qed.

(** The words before the quoted [v], and what follows it. *)
Ltac no_nul :=
  cbn [arg_text];
  try apply ShellQuote_free;
  first [assumption|apply not_elem_of_nil
        |apply text_free; [vm_compute; reflexivity|assumption]
        |rewrite <- (app_nil_r (txt _)); apply text_free; [vm_compute; reflexivity|apply not_elem_of_nil]].

Ltac args_are_ok :=
  repeat (apply Forall_cons; split; [split; [vm_compute; reflexivity|no_nul]|]); apply Forall_nil.

Ltac read_command args v rest :=
  match goal with |- command_tokens ?command = _ =>
    let H := fresh in
    assert (H : command = args_text args ++ ShellQuote v ++ rest) 
      by (unfold ytdlp_command, curl_command, discord_command, args_text; cbn [mbind list_bind arg_text];
          rewrite <- ?app_assoc, ?app_nil_r; repeat generalize (ShellQuote _); reflexivity);
    rewrite H; clear H
  end;
  erewrite command_words; [|args_are_ok|no_nul|reflexivity];
  first [reflexivity|rewrite nul_code; reflexivity].

Abbreviation words := (fmap Word).

(** C19: however a client chooses the URL it asks the server to fetch, the shell that
    runs the command gets exactly the intended words: the program, the fixed options, the
    URL as one argument and nothing executed besides.  A URL with a null character cuts
    the command short inside the quotes, and the shell refuses it. *)
Theorem shell_commands template url client_id client_secret :
  (NUL ∉ template) → (NUL ∉ client_id) → (NUL ∉ client_secret) →
  let reads command ts := command_tokens command = if bool_decide (NUL ∈ url) then None else Some ts in
  let quiet := [Word (txt "2"); Op ">"%char; Word (txt "/dev/null")] in
  reads (ytdlp_command template url)
    (words [txt "yt-dlp"; txt "-f";
      txt "bestvideo[vcodec^=avc1][ext=mp4][height<=1080]+bestaudio[ext=m4a]/best[ext=mp4][height<=1080]/best[height<=1080]";
      txt "--merge-output-format"; txt "mp4"; txt "--no-playlist"; txt "-o"; template; url]) ∧
  reads (curl_command url [])
    (words [txt "curl"; txt "-LfsS"; txt "--max-time"; txt "30"; txt "-A";
      txt "Mozilla/5.0 Cocoatube/1.0"; url] ++ quiet) ∧
  reads (curl_command url (txt "--max-time 10"))
    (words [txt "curl"; txt "-LfsS"; txt "--max-time"; txt "30"; txt "-A";
      txt "Mozilla/5.0 Cocoatube/1.0"; txt "--max-time"; txt "10"; url] ++ quiet) ∧
  command_tokens (discord_command client_id client_secret url) =
    if bool_decide (NUL ∈ url) then None else
    Some (words [txt "curl"; txt "-fsS"; txt "--max-time"; txt "20"; txt "-X"; txt "POST";
      txt "https://discord.com/api/oauth2/token"; txt "-H"; txt "Content-Type: application/x-www-form-urlencoded";
      txt "--data-urlencode"; txt "client_id=" ++ client_id;
      txt "--data-urlencode"; txt "client_secret=" ++ client_secret;
      txt "--data-urlencode"; txt "grant_type=authorization_code";
      txt "--data-urlencode"; txt "code=" ++ url] ++ quiet).
Proof.
  intros Ht Hi Hs reads quiet. unfold reads, quiet. split_and!.
  - read_command [Bare (txt "yt-dlp"); Bare (txt "-f");
      Quoted (txt "bestvideo[vcodec^=avc1][ext=mp4][height<=1080]+bestaudio[ext=m4a]/best[ext=mp4][height<=1080]/best[height<=1080]");
      Bare (txt "--merge-output-format"); Bare (txt "mp4"); Bare (txt "--no-playlist"); Bare (txt "-o");
      Quoted template] url (@nil byte).
  - read_command [Bare (txt "curl"); Bare (txt "-LfsS"); Bare (txt "--max-time"); Bare (txt "30"); Bare (txt "-A");
      Quoted (txt "Mozilla/5.0 Cocoatube/1.0"); Nothing] url (txt " 2>/dev/null").
  - read_command [Bare (txt "curl"); Bare (txt "-LfsS"); Bare (txt "--max-time"); Bare (txt "30"); Bare (txt "-A");
      Quoted (txt "Mozilla/5.0 Cocoatube/1.0"); Bare (txt "--max-time"); Bare (txt "10")] url (txt " 2>/dev/null").
  - read_command [Bare (txt "curl"); Bare (txt "-fsS"); Bare (txt "--max-time"); Bare (txt "20"); Bare (txt "-X");
      Bare (txt "POST"); Quoted (txt "https://discord.com/api/oauth2/token"); Bare (txt "-H");
      Quoted (txt "Content-Type: application/x-www-form-urlencoded");
      Bare (txt "--data-urlencode"); Quoted (txt "client_id=" ++ client_id);
      Bare (txt "--data-urlencode"); Quoted (txt "client_secret=" ++ client_secret);
      Bare (txt "--data-urlencode"); Quoted (txt "grant_type=authorization_code");
      Bare (txt "--data-urlencode")] (txt "code=" ++ url) (txt " 2>/dev/null").
Qed.

(** A command the hypotheses of [shell_commands] hold for: the quotes and the semicolon
    of the URL stay inside its argument. *)
Lemma shell_commands_witness :
  command_tokens (curl_command (txt "http://h/'; reboot #'") []) =
  Some (words [txt "curl"; txt "-LfsS"; txt "--max-time"; txt "30"; txt "-A";
    txt "Mozilla/5.0 Cocoatube/1.0"; txt "http://h/'; reboot #'"] ++
    [Word (txt "2"); Op ">"%char; Word (txt "/dev/null")]).
Proof.
  destruct (shell_commands [] (txt "http://h/'; reboot #'") [] [] (not_elem_of_nil _)
    (not_elem_of_nil _) (not_elem_of_nil _)) as (_ & H & _).
  rewrite H, bool_decide_eq_false_2; [reflexivity|]. not_in.
Defined.

(** The quoted word is still an option to the program when it starts with a dash, as the
    route for downloads does not ask for an [http] URL. *)
Example ytdlp_option template : (NUL ∉ template) →
  last <$> command_tokens (ytdlp_command template (txt "--exec=reboot")) =
  Some (Some (Word (txt "--exec=reboot"))).
Proof.
  intros Ht. destruct (shell_commands template (txt "--exec=reboot") [] [] Ht
    (not_elem_of_nil _) (not_elem_of_nil _)) as (H & _).
  rewrite H, bool_decide_eq_false_2; [reflexivity|]. not_in.
Qed.

(** A line feed in the URL makes a line of the configuration file: here one that names
    a file to write. *)
Example curl_config_line :
  IsHttpUrl (txt "http://h" ++ [LF] ++ txt "output = /tmp/f" ++ [LF] ++ txt "#") = true ∧
  (txt "output = /tmp/f") ∈
    getlines [] (curl_config (txt "http://h" ++ [LF] ++ txt "output = /tmp/f" ++ [LF] ++ txt "#")
                             [txt "Range: bytes=0-"]).
Proof. split; [reflexivity|]. vm_compute. repeat constructor. Qed.

(** ** Playlists *)

Lemma UrlDecode_encode text : UrlDecode (UrlEncode text) = text.
Proof. by rewrite UrlEncode_percent_encode, UrlDecode_PercentDecode, PercentDecode_encode. Qed.

Lemma TvingProxyUrl_clean url i : (quote ∉ TvingProxyUrl url i) ∧ (LF ∉ TvingProxyUrl url i).
Proof.
  destruct (UrlEncode_clean url), (UrlEncode_clean i). unfold TvingProxyUrl.
  split; rewrite !elem_of_app; intros [H'|[H'|[H'|H']]]; try done; revert H'; not_in.
Qed.

Lemma query_skip fuel part more name : ("&"%char ∉ part) → part ≠ [] →
  (default (part, []) (split_at "="%char part)).1 ≠ name →
  query_loop (S fuel) (part ++ "&"%char :: more) name = query_loop fuel more name.
Proof.
  intros Ha Hne Hk. cbn [query_loop]. rewrite bool_decide_eq_false_2 by (by destruct part).
  rewrite split_at_app by done. destruct (default _ _) as [k v]. cbn in Hk.
  by rewrite bool_decide_eq_false_2.
Qed.

Lemma query_found fuel part rest value name : ("&"%char ∉ part) → (rest = [] ∨ ∃ more, rest = "&"%char :: more) →
  split_at "="%char part = Some (name, value) →
  query_loop (S fuel) (part ++ rest) name = UrlDecode value.
Proof.
  intros Ha Hrest Hs. cbn [query_loop]. apply split_at_Some in Hs as Hp.
  rewrite bool_decide_eq_false_2 by (destruct Hp as [-> _]; by destruct name).
  destruct Hrest as [->|[more ->]].
  - rewrite app_nil_r, (proj2 (split_at_None _ _)) by done. rewrite Hs. cbn. by rewrite bool_decide_eq_true_2.
  - rewrite split_at_app by done. rewrite Hs. cbn. by rewrite bool_decide_eq_true_2.
Qed.

Lemma UrlEncode_no_amp s : "&"%char ∉ UrlEncode s.
Proof. rewrite UrlEncode_percent_encode. apply percent_encode_no_amp. Qed.

Lemma parameter_free s v : ("&"%char ∉ s) → "&"%char ∉ s ++ UrlEncode v.
Proof. intros Hs [?|?]%elem_of_app; [done|]. by eapply UrlEncode_no_amp. Qed.

(** A playlist fetched with the cookies of TVING is rewritten line by line, nothing
    but its URIs changing, and each address it then holds leads back to the proxy route,
    where the parameters [url] and [tving_id] decode to the remote URL, whatever bytes it
    has, and to the playlist's identifier, so the segments are fetched with the same
    cookies. *)
Theorem tving_playlists text base_url tving_id :
  (∃ out, RewriteHlsManifestWithTving text base_url tving_id = Some out ∧
     Forall2 (line_proxied (λ url, TvingProxyUrl url tving_id) base_url) (getlines [] text) (getlines [] out)) ∧
  ∀ url, ∃ query,
    split_at "?"%char (TvingProxyUrl url tving_id) = Some (txt "/proxy/hls", query) ∧
    QueryParam query (txt "url") = url ∧ QueryParam query (txt "tving_id") = tving_id.
Proof.
  split; [apply rewrite_manifest_proxies; intros; apply TvingProxyUrl_clean|]. intros url.
  exists ((txt "url=" ++ UrlEncode url) ++ "&"%char :: txt "tving_id=" ++ UrlEncode tving_id).
  assert (Hs : ∀ (k : bytes) v, ("="%char ∉ k) → split_at "="%char ((k ++ txt "=") ++ UrlEncode v) = Some (k, UrlEncode v)).
  { intros k v Hk. rewrite <- app_assoc. by apply split_at_app. }
  pose proof (parameter_free (txt "url=") url ltac:(not_in)) as Hu.
  pose proof (parameter_free (txt "tving_id=") tving_id ltac:(not_in)) as Hi.
  split_and!.
  - unfold TvingProxyUrl.
    change (txt "/proxy/hls?url=") with (txt "/proxy/hls" ++ "?"%char :: txt "url=").
    rewrite <- app_assoc, <- app_comm_cons, split_at_app by not_in. by rewrite <- app_assoc.
  - unfold QueryParam. rewrite (query_found _ _ _ (UrlEncode url)); [apply UrlDecode_encode|done|by right; eexists|].
    apply (Hs (txt "url")). not_in.
  - unfold QueryParam. rewrite length_app. cbn [length]. rewrite Nat.add_succ_r, query_skip; [|done|done|].
    + rewrite <- (app_nil_r (_ ++ UrlEncode tving_id)).
      rewrite (query_found _ _ _ (UrlEncode tving_id)); [apply UrlDecode_encode|done|by left|].
      apply (Hs (txt "tving_id")). not_in.
    + rewrite (Hs (txt "url")) by not_in. done.
Qed.

(** *** The addresses found in an answer *)

Record stream_url (u : bytes) : Prop := {
  stream_http : IsHttpUrl u = true;
  stream_m3u8 : contains (txt ".m3u8") (Lower u) = true;
  stream_clean : Forall (λ c, ends_url c = false) u;
}.

Lemma take_url_clean text : Forall (λ c, ends_url c = false) (take_url text).1.
Proof.
  induction text as [|c text IH]; cbn; [done|]. destruct (ends_url c) eqn:E; [done|].
  destruct (take_url text). by constructor.
Qed.

Lemma take_url_app p text : Forall (λ c, ends_url c = false) p → (take_url (p ++ text)).1 = p ++ (take_url text).1.
Proof.
  induction 1 as [|c p Hc _ IH]; [done|]. cbn. rewrite Hc. destruct (take_url (p ++ text)); cbn in *. by rewrite IH.
Qed.

Lemma strip_brackets_clean P u : Forall P u → Forall P (strip_brackets u).
Proof.
  induction 1 as [|c u Hc _ IH]; [done|]. cbn. destruct (strip_brackets u); [case_bool_decide|]; auto.
Qed.

(** What ends in a character that is kept is kept. *)
Lemma strip_brackets_app p c u : negb (bool_decide (c ∈ [","%char; "]"%char; "}"%char])) = true →
  strip_brackets (p ++ c :: u) = p ++ c :: strip_brackets u.
Proof.
  intros Hc%negb_true_iff. induction p as [|d p IH].
  - cbn. destruct (strip_brackets u); [|done]. by rewrite Hc.
  - cbn. rewrite IH. by destruct p.
Qed.

Lemma url_kept s text : Forall (λ c, ends_url c = false) (s ++ txt "://") →
  starts_with ((s ++ txt "://") ++ []) ((s ++ txt "://") ++ text) = true →
  starts_with (s ++ txt "://") (strip_brackets (take_url ((s ++ txt "://") ++ text)).1) = true.
Proof.
  intros Hs _. rewrite take_url_app by done. generalize (take_url text).1. intros u.
  change (txt "://") with (txt ":/" ++ ["/"%char]). rewrite !app_assoc, <- (app_assoc _ ["/"%char] u).
  cbn [app]. rewrite strip_brackets_app by reflexivity. apply starts_with_true.
  exists (strip_brackets u). by rewrite <- !app_assoc.
Qed.

Lemma http_kept text : IsHttpUrl text = true → IsHttpUrl (strip_brackets (take_url text).1) = true.
Proof.
  unfold IsHttpUrl. rewrite !orb_true_iff. intros [[r ->]%starts_with_true|[r ->]%starts_with_true].
  - left. apply (url_kept (txt "http")); [repeat constructor|]. apply starts_with_true. by eexists.
  - right. apply (url_kept (txt "https")); [repeat constructor|]. apply starts_with_true. by eexists.
Qed.

Lemma m3u8_loop_urls fuel text urls : Forall stream_url urls → NoDup urls →
  Forall stream_url (m3u8_loop fuel text urls) ∧ NoDup (m3u8_loop fuel text urls).
Proof.
  revert text urls; induction fuel as [|fuel IH]; intros text urls Hu Hd; [done|cbn [m3u8_loop]].
  destruct (split_sub _ text) as [[before after]|]; [|done].
  destruct (negb _ && negb _) eqn:Eh; [by apply IH|].
  pose proof (take_url_clean (txt "http" ++ after)) as Hclean.
  pose proof (http_kept (txt "http" ++ after)) as Hkept.
  destruct (take_url _) as [url rest]. cbn [fst] in Hclean, Hkept.
  destruct (contains _ _ && _) eqn:Ec; [|by apply IH].
  apply andb_prop in Ec as [Hm Hn%bool_decide_eq_true_1].
  apply IH; [|apply NoDup_app; split_and!; [done|set_solver|apply NoDup_singleton]].
  apply Forall_app. split; [done|]. constructor; [|done]. split; [|done|by apply strip_brackets_clean].
  apply Hkept. unfold IsHttpUrl. rewrite andb_false_iff, !negb_false_iff in Eh.
  destruct Eh as [->| ->]; [apply orb_true_r|done].
Qed.

Lemma replace_loop_enough fuel fuel' text from to : from ≠ [] → (length text < fuel)%nat → (length text < fuel')%nat →
  replace_loop fuel text from to = replace_loop fuel' text from to.
Proof.
  intros Hf. revert fuel' text; induction fuel as [|fuel IH]; intros [|fuel'] text H H'; try lia.
  cbn. destruct (split_sub from text) as [[before after]|] eqn:E; [|done].
  apply split_sub_Some in E. subst text. rewrite !length_app in *. destruct from; [done|]. cbn in *.
  rewrite (IH fuel'); [done|lia|lia].
Qed.

Lemma take_url_shorter text : (length (take_url text).2 ≤ length text)%nat.
Proof.
  induction text as [|c text IH]; cbn; [lia|]. destruct (ends_url c); [done|].
  destruct (take_url text); cbn in *. lia.
Qed.

(** The rounds the loop is given are enough. *)
Lemma m3u8_loop_enough fuel fuel' text urls : (length text < fuel)%nat → (length text < fuel')%nat →
  m3u8_loop fuel text urls = m3u8_loop fuel' text urls.
Proof.
  revert fuel' text urls; induction fuel as [|fuel IH]; intros [|fuel'] text urls H H'; try lia.
  cbn [m3u8_loop]. destruct (split_sub _ text) as [[before after]|] eqn:E; [|done].
  apply split_sub_Some in E. subst text. rewrite !length_app in *.
  change (length (txt "http")) with 4%nat in *.
  destruct (negb _ && negb _) eqn:Eh; [apply IH; lia|].
  assert (length (take_url (txt "http" ++ after)).2 < length (txt "http" ++ after))%nat as Hs.
  { change (txt "http" ++ after) with (["h"%char] ++ (txt "ttp" ++ after)).
    pose proof (take_url_shorter (txt "ttp" ++ after)). cbn [app take_url].
    change (ends_url "h"%char) with false. cbn match.
    change ("t"%char :: "t"%char :: "p"%char :: after) with (txt "ttp" ++ after).
    destruct (take_url (txt "ttp" ++ after)). cbn [snd length] in *. lia. }
  destruct (take_url _) as [url rest]. cbn [snd] in Hs. rewrite length_app in Hs.
  change (length (txt "http")) with 4%nat in Hs. apply IH; lia.
Qed.

(** The addresses the server takes from an upstream answer: each once, an [http] address of
    a playlist, with no quote, blank, backslash or line end, so it fits in a line of the
    configuration file and in a quoted attribute as it is. *)
Lemma ExtractM3u8Urls_streams text :
  Forall stream_url (ExtractM3u8Urls text) ∧ NoDup (ExtractM3u8Urls text).
Proof. apply m3u8_loop_urls; [done|apply NoDup_nil_2]. Qed.

(** ** Below a directory *)

Lemma within_prefix root target : within root target = true ↔ root `prefix_of` target.
Proof.
  revert target; induction root as [|r root IH]; intros [|t target]; cbn.
  - split; [intros _; apply prefix_nil|done].
  - split; [intros _; apply prefix_nil|done].
  - split; [done|intros H; by apply prefix_nil_not in H].
  - rewrite andb_true_iff, bool_decide_eq_true, IH. split.
    + intros [-> H]. by apply prefix_cons.
    + intros H. split; [by eapply prefix_cons_inv_1|by eapply prefix_cons_inv_2].
Qed.

(** The elements of the target continue those of the root. *)
Lemma IsWithinRoot_prefix root target :
  IsWithinRoot root target = true ↔ elements_of root `prefix_of` elements_of target.
Proof. apply within_prefix. Qed.

(** ** JSON *)

(** What a client writes in a field comes back as it was, control characters apart. *)
Lemma JsonString_field key value rest : (dq ∉ key) →
  JsonString (txt "{" ++ [dq] ++ key ++ [dq] ++ txt ":" ++ [dq] ++ JsonEscape value ++ [dq] ++ rest) key =
  Some (readable <$> value).
Proof.
  intros Hk. unfold JsonString.
  assert (Hsub : split_sub ([dq] ++ key ++ [dq]) (txt "{" ++ ([dq] ++ key ++ [dq]) ++ txt ":" ++ [dq] ++ JsonEscape value ++ [dq] ++ rest) =
    Some (txt "{", txt ":" ++ [dq] ++ JsonEscape value ++ [dq] ++ rest)).
  { cbn -[JsonEscape]. rewrite <- app_assoc.
    by rewrite (proj2 (strip_prefix_Some (key ++ [dq]) _ _) (app_assoc _ _ _)). }
  rewrite <- !app_assoc in Hsub. rewrite Hsub. cbn -[JsonEscape].
  apply (read_string_JsonEscape value rest []).
Qed.
