(* ===== verification/ActivityHub.v ===== *)
(** * The hub of the activity server

    [app/activity-server/src/ActivityHub.cpp]: the clients that joined an instance, what
    each instance plays and has queued, and the downloads.  The functions of this file are
    the parts that run under [mu_], one definition each; ActivityServer.v puts them in the
    order in which the threads run them.

    A session is a number; [clients_] is read in the order of the map, which the standard
    library leaves open.  The code leaves every [double] it keeps at zero, so
    [duration] and [current_time] are whole numbers, the second in nanoseconds like the
    clocks; [fixed3] is how a number of nanoseconds, as a [double] of seconds, is written
    with three decimals. *)

From S2P Require Import Prelude Text Paths DropMeta ActivityText.

#[local] Open Scope Z_scope.

(** ** Data *)

(** Source: app/activity-server/src/ActivityState.h:9-18, QueueEntry. *)
Record QueueEntry := mkEntry {
  entry_id : bytes;
  entry_url : bytes;
  entry_path : bytes;
  source : bytes;
  title : bytes;
  thumbnail : bytes;
  ext : bytes;
  duration : Z;
}.

Definition new_entry : QueueEntry := mkEntry [] [] [] (txt "youtube") [] [] (txt "m3u8") 0.

(** Source: app/activity-server/src/ActivityState.h:20-27, InstanceState. *)
Record InstanceState := mkState {
  current_video_url : bytes;
  metadata : QueueEntry;
  queue : list QueueEntry;
  is_playing : bool;
  current_time : Z;
  start_at : Z;
}.

Definition new_state : InstanceState := mkState [] new_entry [] false 0 0.

(** Source: app/activity-server/src/ActivityState.h:29-37, DownloadTask. *)
Record DownloadTask := mkTask {
  task_id : bytes;
  task_url : bytes;
  status : bytes;
  error : bytes;
  entry : QueueEntry;
  progress : Z;
  force_play : bool;
}.

Definition new_task : DownloadTask := mkTask [] [] (txt "pending") [] new_entry 0 false.

(** Source: app/activity-server/src/ActivityHub.h:35-39, ActivityHub::Client.
    The session is the key in [clients_]. *)
Record Client := mkClient { client_instance : bytes; client_id : bytes }.

(** Source: app/activity-server/src/ActivityHub.h:48-50, ActivityHub. *)
Record Hub := mkHub {
  clients_ : gmap Z Client;
  states_ : gmap bytes InstanceState;
  tasks_ : gmap bytes DownloadTask;
}.

#[export] Instance QueueEntry_eq_dec : EqDecision QueueEntry.
Proof. solve_decision. Defined.
#[export] Instance InstanceState_eq_dec : EqDecision InstanceState.
Proof. solve_decision. Defined.

Definition set_clients m h := mkHub m (states_ h) (tasks_ h).
Definition set_states m h := mkHub (clients_ h) m (tasks_ h).
Definition set_tasks m h := mkHub (clients_ h) (states_ h) m.

Section Hub.
Context (fixed3 : Z → bytes).

(** ** States *)

(** The key of an instance in [states_]. *)
Definition instance_key (instance_id : bytes) : bytes :=
  if bool_decide (instance_id = []) then txt "default" else instance_id.

(** Source: app/activity-server/src/ActivityHub.cpp:16-18, ActivityHub::StateLocked.
    The state of an instance; [operator[]] makes one that was not there. *)
Definition StateLocked (instance_id : bytes) (h : Hub) : InstanceState * Hub :=
  match states_ h !! instance_key instance_id with
  | Some state => (state, h)
  | None => (new_state, set_states (<[instance_key instance_id := new_state]> (states_ h)) h)
  end.

(** A change of an instance's state, in place. *)
Definition update_state (instance_id : bytes) (f : InstanceState → InstanceState) (h : Hub) : Hub :=
  let '(state, h) := StateLocked instance_id h in
  set_states (<[instance_key instance_id := f state]> (states_ h)) h.

(** [tasks_[task_id]], changed in place. *)
Definition update_task (i : bytes) (f : DownloadTask → DownloadTask) (h : Hub) : Hub :=
  set_tasks (<[i := f (default new_task (tasks_ h !! i))]> (tasks_ h)) h.

(** A member of a JSON object with a text. *)
Definition text_field (key value : bytes) : bytes := field key ++ [dq] ++ JsonEscape value ++ [dq].

(** ** Clients *)

(** Source: app/activity-server/src/ActivityHub.cpp:20-34, ActivityHub::SessionsLocked.
    [live s]: the weak pointer of [s] still leads to a session. *)
Definition SessionsLocked (live : Z → bool) (instance_id : bytes) (h : Hub) : list Z * Hub :=
  let m := filter (λ sc, live sc.1 = true) (clients_ h) in
  ((map_to_list (filter (λ sc, client_instance sc.2 = instance_id) m)).*1, set_clients m h).

Definition instance_clients (instance_id : bytes) (h : Hub) : list Client :=
  (map_to_list (filter (λ sc, client_instance sc.2 = instance_id) (clients_ h))).*2.

(** Source: app/activity-server/src/ActivityHub.cpp:36-47, ActivityHub::ClientsJsonLocked. *)
Definition ClientsJsonLocked (instance_id : bytes) (h : Hub) : bytes :=
  txt "[" ++ join (txt ",")
    ((λ client, txt "{" ++ text_field (txt "client_id") (client_id client) ++ txt "}")
     <$> instance_clients instance_id h) ++ txt "]".

(** Source: app/activity-server/src/ActivityHub.cpp:62-66, ActivityHub::Register. *)
Definition Register (session : Z) (instance_id client : bytes) (h : Hub) : Hub :=
  set_clients (<[session := mkClient instance_id client]> (clients_ h)) h.

(** Source: app/activity-server/src/ActivityHub.cpp:68-76, ActivityHub::Remove.
    The instance whose clients are told, if any. *)
Definition Remove (session : Z) (h : Hub) : bytes * Hub :=
  match clients_ h !! session with
  | Some c => (client_instance c, set_clients (delete session (clients_ h)) h)
  | None => ([], h)
  end.

(** ** Texts *)

(** Source: app/activity-server/src/ActivityHub.cpp:49-60, ActivityHub::EntryJson. *)
Definition EntryJson (e : QueueEntry) : bytes :=
  txt "{" ++ join (txt ",")
    [text_field (txt "id") (entry_id e); text_field (txt "url") (entry_url e);
     text_field (txt "path") (entry_path e); text_field (txt "source") (source e);
     text_field (txt "title") (title e); field (txt "duration") ++ to_string_i (duration e);
     text_field (txt "thumbnail") (thumbnail e); text_field (txt "ext") (ext e)] ++ txt "}".

Definition queue_json (q : list QueueEntry) : bytes := txt "[" ++ join (txt ",") (EntryJson <$> q) ++ txt "]".

Definition bool_json (b : bool) : bytes := if b then txt "true" else txt "false".

(** Source: app/activity-server/src/ActivityHub.cpp:97-101, ActivityHub::StatePayloadJson. *)
Definition media_time (state : InstanceState) (now : Z) : Z :=
  if is_playing state && bool_decide (start_at state ≠ 0)
  then current_time state + (now - start_at state) else current_time state.

(** Source: app/activity-server/src/ActivityHub.cpp:93-129, ActivityHub::StatePayloadJson.
    [now] and [server_now]: the steady and the system clock. *)
Definition StatePayloadJson (now server_now : Z) (instance_id : bytes) (h : Hub) : bytes * Hub :=
  let '(state, h) := StateLocked instance_id h in
  (txt "{" ++ join (txt ",")
    [field (txt "playback") ++ txt "{" ++ join (txt ",")
       [field (txt "is_playing") ++ bool_json (is_playing state);
        field (txt "time") ++ fixed3 (media_time state now);
        field (txt "paused_time") ++ fixed3 (current_time state);
        field (txt "server_now") ++ fixed3 server_now] ++ txt "}";
     field (txt "media") ++ (if bool_decide (current_video_url state = []) then txt "null"
                             else EntryJson (metadata state));
     field (txt "queue") ++ queue_json (queue state);
     field (txt "clients") ++ ClientsJsonLocked instance_id h;
     field (txt "client_count") ++ to_string (zlen (instance_clients instance_id h))] ++ txt "}", h).

(** Source: app/activity-server/src/ActivityHub.cpp:133-139, ActivityHub::BroadcastState.
    Also the text of [ActivitySession::HandleWsText] for a client that joins. *)
Definition state_update (origin : option bytes) (payload : bytes) : bytes :=
  txt "{" ++ join (txt ",")
    [text_field (txt "type") (txt "STATE_UPDATE"); field (txt "seq") ++ txt "1";
     field (txt "origin") ++ match origin with
                             | Some c => txt "{" ++ text_field (txt "client_id") c ++ txt "}"
                             | None => txt "null"
                             end;
     field (txt "payload") ++ payload] ++ txt "}".

(** Source: app/activity-server/src/ActivityHub.cpp:146-153, ActivityHub::BroadcastPresence. *)
Definition presence_update (instance_id : bytes) (h : Hub) : bytes :=
  txt "{" ++ join (txt ",")
    [text_field (txt "type") (txt "PRESENCE_UPDATE");
     field (txt "payload") ++ txt "{" ++ join (txt ",")
       [field (txt "clients") ++ ClientsJsonLocked instance_id h;
        field (txt "client_count") ++ to_string (zlen (instance_clients instance_id h))] ++ txt "}"] ++ txt "}".

(** Source: app/activity-server/src/ActivityHub.cpp:157-167, ActivityHub::QueueJson. *)
Definition QueueJson (instance_id : bytes) (h : Hub) : bytes * Hub :=
  let '(state, h) := StateLocked instance_id h in
  (txt "{" ++ field (txt "queue") ++ queue_json (queue state) ++ txt "}", h).

(** Source: app/activity-server/src/ActivityHub.cpp:186-203, ActivityHub::TaskJson.
    Empty: there is no such task. *)
Definition TaskJson (i : bytes) (h : Hub) : bytes :=
  match tasks_ h !! i with
  | None => []
  | Some task =>
    txt "{" ++ join (txt ",")
      ([text_field (txt "task_id") (task_id task); text_field (txt "status") (status task);
        text_field (txt "url") (task_url task); field (txt "progress") ++ to_string_i (progress task)] ++
       (if bool_decide (error task = []) then [] else [text_field (txt "error") (error task)]) ++
       (if bool_decide (entry_id (entry task) = []) then [] else [field (txt "entry") ++ EntryJson (entry task)]))
    ++ txt "}"
  end.

(** ** Playback *)

(** Source: app/activity-server/src/ActivityHub.cpp:297-301, ActivityHub::DownloadWorker.
    The same lines are in [ActivitySession::AdvanceQueue] and [CookiePlayTving]. *)
Definition play (e : QueueEntry) (now : Z) (state : InstanceState) : InstanceState :=
  mkState (entry_url e) e (queue state) true 0 now.

Definition set_queue (q : list QueueEntry) (state : InstanceState) : InstanceState :=
  mkState (current_video_url state) (metadata state) q (is_playing state) (current_time state) (start_at state).

(** Source: app/activity-server/src/ActivitySession.cpp:787-802, ActivitySession::AdvanceQueue. *)
Definition advanced (now : Z) (state : InstanceState) : InstanceState :=
  match queue state with
  | next :: rest => play next now (set_queue rest state)
  | [] => mkState [] new_entry (queue state) false 0 0
  end.

(** Source: app/activity-server/src/ActivitySession.cpp:785-803, ActivitySession::AdvanceQueue. *)
Definition AdvanceQueue (instance_id : bytes) (now : Z) : Hub → Hub := update_state instance_id (advanced now).

(** Source: app/activity-server/src/ActivitySession.cpp:813-816, ActivitySession::RemoveQueue. *)
Definition unqueued (i : bytes) (state : InstanceState) : InstanceState :=
  set_queue (filter (λ item, entry_id item ≠ i) (queue state)) state.

(** Source: app/activity-server/src/ActivitySession.cpp:811-817, ActivitySession::RemoveQueue. *)
Definition RemoveQueue (instance_id i : bytes) : Hub → Hub := update_state instance_id (unqueued i).

(** Source: app/activity-server/src/ActivitySession.cpp:1166-1172, ActivitySession::CookiePlayTving. *)
Definition PlayNow (instance_id : bytes) (e : QueueEntry) (now : Z) : Hub → Hub :=
  update_state instance_id (play e now).

(** ** Downloads *)

(** Source: app/activity-server/src/ActivityHub.cpp:173-178, ActivityHub::CreateDownload.
    [i] is the new identifier. *)
Definition CreateDownload (i url : bytes) (force : bool) (h : Hub) : Hub :=
  set_tasks (<[i := mkTask i url (txt "pending") [] new_entry 0 force]> (tasks_ h)) h.

(** Source: app/activity-server/src/ActivityHub.cpp:215-218, ActivityHub::DownloadWorker.
    Also lines 246-249 and 269-272. *)
Definition task_failed (i message : bytes) : Hub → Hub :=
  update_task i (λ t, mkTask (task_id t) (task_url t) (txt "failed") message (entry t) (progress t) (force_play t)).

(** Source: app/activity-server/src/ActivityHub.cpp:227-231, ActivityHub::DownloadWorker. *)
Definition task_started (i : bytes) (h : Hub) : bytes * Hub :=
  let h := update_task i (λ t, mkTask (task_id t) (task_url t) (txt "downloading") (error t) (entry t) 5 (force_play t)) h in
  (task_url (default new_task (tasks_ h !! i)), h).

(** Source: app/activity-server/src/ActivityHub.cpp:279-283, ActivityHub::DownloadWorker. *)
Definition download_entry (downloads : fspath) (i url : bytes) : QueueEntry :=
  mkEntry i (txt "/hls/" ++ i ++ txt "/index.m3u8")
    (path_append (path_append (path_append downloads (txt "hls")) i) (txt "index.m3u8"))
    (txt "youtube") url [] (txt "m3u8") 0.

(** Source: app/activity-server/src/ActivityHub.cpp:296-305, ActivityHub::DownloadWorker.
    Whether the entry is played at once, and the state. *)
Definition finished (e : QueueEntry) (force_play : bool) (now : Z) (state : InstanceState) : bool * InstanceState :=
  if force_play || (bool_decide (current_video_url state = []) && negb (is_playing state))
  then (true, play e now state)
  else (false, set_queue (queue state ++ [e]) state).

(** Source: app/activity-server/src/ActivityHub.cpp:288-305, ActivityHub::DownloadWorker. *)
Definition task_completed (i instance_id : bytes) (e : QueueEntry) (now : Z) (h : Hub) : bool * Hub :=
  let h := update_task i (λ t, mkTask (task_id t) (task_url t) (txt "completed") (error t) e 100 (force_play t)) h in
  let force_play := force_play (default new_task (tasks_ h !! i)) in
  let '(state, h) := StateLocked instance_id h in
  ((finished e force_play now state).1,
   update_state instance_id (λ state, (finished e force_play now state).2) h).

End Hub.
