(* ===== verification/ActivityServer.v ===== *)
(** * The activity server

    [app/activity-server/src/ActivitySession.cpp]: requests read from a connection, the
    routes, replies with files and ranges, messages over WebSocket, and the threads: the
    ring's, which runs the handlers of all sessions one after the other, and a thread
    for each download ([ActivityHub::DownloadWorker]).

    What one step learns from outside, the clocks, files, commands and allocations, is an
    [oracle]; every theorem holds for all of them.  A step is what runs between
    two places where another thread can come in: at most one region under [mu_]. *)

From S2P Require Import Prelude Text Paths CpuAffinity DropMeta Hls WebSocket ActivityText ActivityHub.

#[local] Open Scope Z_scope.
#[local] Set Warnings "-clear-no-such-hyp".

(** ** Requests *)

(** Source: app/activity-server/src/ActivityHttp.h:9-16, HttpRequest. *)
Record HttpRequest := mkRequest {
  method : bytes;
  target : bytes;
  path : bytes;
  query : bytes;
  headers : gmap bytes bytes;
  body : bytes;
}.

(** Source: app/activity-server/src/ActivityHttp.cpp:5-8, Header. *)
Definition Header (req : HttpRequest) (name : bytes) : bytes := default [] (headers req !! name).

Fixpoint take_word (s : bytes) : bytes * bytes :=
  match s with
  | [] => ([], [])
  | c :: rest => if isspace c then ([], s) else let '(w, rest) := take_word rest in (c :: w, rest)
  end.

(** [in >> word]: blanks and line ends are skipped. *)
Definition read_word (s : bytes) : bytes * bytes := take_word (skip_spaces s).

(** Source: app/activity-server/src/ActivitySession.cpp:514-520, ActivitySession::TryParseHttp.
    A line of the header. *)
Definition header_line (hs : gmap bytes bytes) (line : bytes) : gmap bytes bytes :=
  match split_at ":"%char (strip_cr line) with
  | Some (name, value) => <[Lower name := Trim value]> hs
  | None => hs
  end.

(** Source: app/activity-server/src/ActivitySession.cpp:507-524, ActivitySession::TryParseHttp.
    The request in a header, without its body. *)
Definition parse_head (head : bytes) : HttpRequest :=
  let '(method, rest) := read_word head in
  let '(target, rest) := read_word rest in
  let '(_, rest) := read_word rest in
  let lines := match split_at LF rest with Some (_, rest) => getlines [] rest | None => [] end in
  let '(path, query) := default (target, []) (split_at "?"%char target) in
  mkRequest method target path query (foldl header_line ∅ lines) [].

Inductive parsed :=
| Wait
| Refuse (status : Z) (message : bytes)
| Request (req : HttpRequest) (rest : bytes).

Definition head_end : bytes := [CR; LF; CR; LF].

(** Source: app/activity-server/src/ActivitySession.cpp:497-544, ActivitySession::TryParseHttp.
    [total] is a [std::size_t]. *)
Definition TryParseHttp (http_buffer_ : bytes) : parsed :=
  match split_sub head_end http_buffer_ with
  | None =>
    if zlen http_buffer_ >? 64 * 1024 then Refuse 431 (txt "Request Header Fields Too Large") else Wait
  | Some (head, after) =>
    let req := parse_head head in
    let body_len := match headers req !! txt "content-length" with
                    | Some value => stoull value
                    | None => Some 0
                    end in
    match body_len with
    | None => Refuse 400 (txt "Bad Request")
    | Some body_len =>
      let total := u64 (zlen head + 4 + body_len) in
      if zlen http_buffer_ <? total then Wait else
      Request (mkRequest (method req) (target req) (path req) (query req) (headers req)
                         (ztake (Z.min body_len (zlen after)) after))
              (zdrop total http_buffer_)
    end
  end.

(** ** Replies *)

(** Source: app/activity-server/src/ActivitySession.cpp:1366-1372, ActivitySession::SendHttp. *)
Definition reason_of (status : Z) : bytes :=
  if status =? 400 then txt "Bad Request" else
  if status =? 404 then txt "Not Found" else
  if status =? 431 then txt "Request Header Fields Too Large" else
  if status =? 501 then txt "Not Implemented" else
  if status =? 502 then txt "Bad Gateway" else
  if 500 <=? status then txt "Internal Server Error" else txt "OK".

Definition lines_of (ls : list bytes) : bytes := ls ≫= λ l, l ++ [CR; LF].

(** Source: app/activity-server/src/ActivitySession.cpp:1373-1380, ActivitySession::SendHttp.
    What is sent. *)
Definition http_reply (status : Z) (content_type body : bytes) : bytes :=
  lines_of
    [txt "HTTP/1.1 " ++ to_string_i status ++ txt " " ++ reason_of status;
     txt "Server: iouring_activity_server";
     txt "Content-Type: " ++ content_type;
     txt "Content-Length: " ++ to_string (zlen body);
     txt "Access-Control-Allow-Origin: *";
     txt "Connection: close"; []] ++ body.

(** Source: app/activity-server/src/ActivitySession.cpp:658-663, ActivitySession::UpgradeWebSocket. *)
Definition upgrade_reply (accept : bytes) : bytes :=
  lines_of [txt "HTTP/1.1 101 Switching Protocols"; txt "Upgrade: websocket"; txt "Connection: Upgrade";
            txt "Sec-WebSocket-Accept: " ++ accept; []].

(** ** Ranges *)

Inductive range := Whole | Part (first last : Z) | Unsatisfiable.

(** Source: app/activity-server/src/ActivitySession.cpp:1219-1238, ActivitySession::SendFileResponse.
    [spec] is what follows [bytes=], the file is not empty. *)
Definition range_of (spec : bytes) (file_size : Z) : range :=
  match split_at "-"%char spec with
  | None => Unsatisfiable
  | Some ([], suffix) =>
    if bool_decide (suffix = []) then Unsatisfiable else
    match stoull suffix with
    | None => Unsatisfiable
    | Some suffix => let suffix := Z.min suffix file_size in
                     if 0 <? suffix then Part (file_size - suffix) (file_size - 1) else Unsatisfiable
    end
  | Some (first, last) =>
    match stoull first with
    | None => Unsatisfiable
    | Some start =>
      let end_ := if bool_decide (last = []) then Some (file_size - 1)
                  else (λ v, Z.min v (file_size - 1)) <$> stoull last in
      match end_ with
      | None => Unsatisfiable
      | Some end_ => if (start <=? end_) && (start <? file_size) then Part start end_ else Unsatisfiable
      end
    end
  end.

(** Source: app/activity-server/src/ActivitySession.cpp:1214-1238, ActivitySession::SendFileResponse. *)
Definition requested_range (req : HttpRequest) (file_size : Z) : range :=
  match strip_prefix (txt "bytes=") (Header req (txt "range")) with
  | Some spec => if 0 <? file_size then range_of spec file_size else Whole
  | None => Whole
  end.

(** Source: app/activity-server/src/ActivitySession.cpp:1240-1247, ActivitySession::SendFileResponse. *)
Definition unsatisfiable_reply (file_size : Z) : bytes :=
  lines_of
    [txt "HTTP/1.1 416 Range Not Satisfiable"; txt "Server: iouring_activity_server";
     txt "Content-Range: bytes */" ++ to_string file_size; txt "Content-Length: 0";
     txt "Access-Control-Allow-Origin: *"; txt "Accept-Ranges: bytes"; txt "Connection: close"; []].

(** Source: app/activity-server/src/ActivitySession.cpp:1255-1266, ActivitySession::SendFileResponse. *)
Definition file_headers (partial : option (Z * Z)) (content_type : bytes) (content_length file_size : Z) : bytes :=
  lines_of
    ([match partial with
      | Some _ => txt "HTTP/1.1 206 Partial Content"
      | None => txt "HTTP/1.1 200 OK"
      end;
      txt "Server: iouring_activity_server";
      txt "Content-Type: " ++ content_type;
      txt "Content-Length: " ++ to_string content_length;
      txt "Access-Control-Allow-Origin: *";
      txt "Accept-Ranges: bytes"] ++
     match partial with
     | Some (first, last) => [txt "Content-Range: bytes " ++ to_string first ++ txt "-" ++ to_string last ++
                              txt "/" ++ to_string file_size]
     | None => []
     end ++
     [txt "Connection: close"; []]).

(** ** The world *)

(** What does not change while the server runs: the directories and credentials of its
    environment, the accept value of a WebSocket key (SHA-1 and Base64, from OpenSSL), and
    how numbers of seconds are written. *)
Class Settings := {
  downloads : fspath;
  static_dir : fspath;
  discord_client_id : bytes;
  discord_client_secret : bytes;
  temp_directory : fspath;
  WebSocketAccept : bytes → bytes;
  fixed3 : Z → bytes;
}.

(** What a step learns from outside. *)
Record oracle := mkOracle {
  now : Z;                              (* the steady clock *)
  server_now : Z;                       (* the system clock *)
  random_suffix : bytes;                (* the digits of [RandomId] *)
  live : Z → bool;                      (* the session of a weak pointer exists *)
  closing : bool;                       (* [Disconnecting()] *)
  alloc : Z → bool;                     (* the pool has a buffer of this size *)
  sent : bool;                          (* [Send] takes the buffer *)
  directories : option bytes;           (* [create_directories]; the message when it throws *)
  runs : bytes → Z;                     (* [std::system] *)
  media_exists : bool;                  (* the file of yt-dlp *)
  playlist_copied : bool;               (* the playlist, after the first ffmpeg *)
  playlist_transcoded : bool;           (* the playlist, after the second *)
  captures : bytes → Z * bytes;         (* [RunCommandCapture]: exit code, output *)
  config_written : bool;                (* the configuration file was created and written *)
  canonical : fspath → fspath;          (* [std::filesystem::weakly_canonical] *)
  is_directory : fspath → bool;
  is_regular_file : fspath → bool;
  file_size : fspath → option Z;
  contents : fspath → bytes;
  opens : fspath → bool;                (* [open] and [lseek] *)
  reads_ok : bool;                      (* [read] does not fail *)
}.

(** Source: app/activity-server/src/ActivityUtils.cpp:152-163, RandomId. *)
Definition RandomId (prefix : bytes) (o : oracle) : bytes := prefix ++ random_suffix o.

(** What the server does to the outside. *)
Inductive output :=
| Posted (s : Z) (text : bytes)        (* [SendTextAsync] *)
| Raw (s : Z) (data : bytes)           (* a buffer sent *)
| Flush (s : Z)                        (* [DisconnectAfterFlush] *)
| MaybeFlush (s : Z)                   (* [MaybeDisconnectAfterFlush] *)
| Cut (s : Z)                          (* [Disconnect] *)
| Ran (command : bytes)
| Wrote (config : bytes).

(** Source: app/activity-server/src/ActivitySession.h:70-77, ActivitySession::FileStreamState.
    While it is active: the open file, the position in it and [remaining_bytes]. *)
Record FileStreamState := mkStream { stream_path : fspath; position : Z; remaining_bytes : Z }.

Definition chunk_size : Z := 256 * 1024.
Definition max_chunks_per_write : nat := 4.

(** Source: app/activity-server/src/ActivitySession.h:63-78, ActivitySession. *)
Record Session := mkSession {
  http_buffer_ : bytes;
  ws_buffer_ : bytes;
  instance_id_ : bytes;
  client_id_ : bytes;
  websocket_ : bool;
  file_stream_ : option FileStreamState;
}.

Definition new_session : Session := mkSession [] [] (txt "default") [] false None.

Definition set_http b c := mkSession b (ws_buffer_ c) (instance_id_ c) (client_id_ c) (websocket_ c) (file_stream_ c).
Definition set_ws b c := mkSession (http_buffer_ c) b (instance_id_ c) (client_id_ c) (websocket_ c) (file_stream_ c).
Definition set_ids i k c := mkSession (http_buffer_ c) (ws_buffer_ c) i k (websocket_ c) (file_stream_ c).
Definition set_websocket c := mkSession (http_buffer_ c) (ws_buffer_ c) (instance_id_ c) (client_id_ c) true (file_stream_ c).
Definition set_stream f c := mkSession (http_buffer_ c) (ws_buffer_ c) (instance_id_ c) (client_id_ c) (websocket_ c) f.

(** Source: app/activity-server/src/ActivitySession.cpp:280-288, TvingPlaylist. *)
Record TvingPlaylist := mkPlaylist {
  playlist_id : bytes;
  media_code : bytes;
  manifest : bytes;
  video_url : bytes;
  audio_url : bytes;
  playlist_headers : list bytes;
  playlist_created : Z;
}.

(** The sessions, the hub, [g_tving_playlists], and [last_sync_time_] (as the text that
    [std::stod] is given) and [last_sync_playing_]. *)
Record World := mkWorld {
  sessions : gmap Z Session;
  hub : Hub;
  g_tving_playlists : gmap bytes TvingPlaylist;
  last_sync : option bytes * bool;
}.

Definition set_sessions m w := mkWorld m (hub w) (g_tving_playlists w) (last_sync w).
Definition set_hub h w := mkWorld (sessions w) h (g_tving_playlists w) (last_sync w).
Definition set_playlists m w := mkWorld (sessions w) (hub w) m (last_sync w).
Definition set_sync x w := mkWorld (sessions w) (hub w) (g_tving_playlists w) x.

Definition session (s : Z) (w : World) : Session := default new_session (sessions w !! s).
Definition update_session (s : Z) (f : Session → Session) (w : World) : World :=
  set_sessions (<[s := f (session s w)]> (sessions w)) w.

(** ** Sending *)

(** Source: app/activity-server/src/ActivitySession.cpp:1385-1395, ActivitySession::SendRaw. *)
Definition SendRaw (o : oracle) (s : Z) (data : bytes) : list output :=
  if alloc o (zlen data) then [Raw s data] else [Cut s].

(** Source: app/activity-server/src/ActivitySession.cpp:1365-1383, ActivitySession::SendHttp. *)
Definition SendHttp (o : oracle) (s status : Z) (content_type body : bytes) : list output :=
  SendRaw o s (http_reply status content_type body) ++ [Flush s].

(** Source: app/activity-server/src/ActivitySession.cpp:1397-1402, ActivitySession::SendWsTextOnRing. *)
Definition SendWsTextOnRing (o : oracle) (s : Z) (w : World) (text : bytes) : list output :=
  if negb (websocket_ (session s w)) || closing o then [] else SendRaw o s (SendWsFrame 1 text).

(** Source: app/activity-server/src/ActivitySession.cpp:1303-1350, ActivitySession::PumpFileStream.
    The chunks of one call; [None]: [ResetFileStream].  The reads of a chunk end when it is
    full or the file ends. *)
Fixpoint pump (n : nat) (o : oracle) (s : Z) (f : FileStreamState) : list output * option FileStreamState :=
  match n with
  | O => ([], Some f)
  | S n =>
    if remaining_bytes f <=? 0 then ([], Some f) else
    let next_size := Z.min (remaining_bytes f) chunk_size in
    if negb (alloc o next_size) then ([Cut s], None) else
    if negb (reads_ok o) then ([Cut s], None) else
    let data := ztake next_size (zdrop (position f) (contents o (stream_path f))) in
    let total_read := zlen data in
    if total_read =? 0 then ([MaybeFlush s], None) else
    let f := mkStream (stream_path f) (position f + total_read) (remaining_bytes f - total_read) in
    if negb (sent o) then ([], None) else
    let '(out, f) := pump n o s f in (Raw s data :: out, f)
  end.

(** Source: app/activity-server/src/ActivitySession.cpp:1294-1357, ActivitySession::PumpFileStream. *)
Definition PumpFileStream (o : oracle) (s : Z) (f : option FileStreamState) : list output * option FileStreamState :=
  match f with
  | None => ([], None)
  | Some f =>
    if remaining_bytes f =? 0 then ([MaybeFlush s], None) else
    match pump max_chunks_per_write o s f with
    | (out, Some f) => if remaining_bytes f =? 0 then (out ++ [MaybeFlush s], None) else (out, Some f)
    | (out, None) => (out, None)
    end
  end.

(** Source: app/activity-server/src/ActivitySession.cpp:1205-1292, ActivitySession::SendFileResponse.
    [old] is [file_stream_] before. *)
Definition SendFileResponse (o : oracle) (s : Z) (req : HttpRequest) (p : fspath) (content_type : bytes)
    (old : option FileStreamState) : list output * option FileStreamState :=
  match file_size o p with
  | None => (SendHttp o s 404 (txt "text/plain") (txt "Not Found"), old)
  | Some size =>
    match requested_range req size with
    | Unsatisfiable => (SendRaw o s (unsatisfiable_reply size) ++ [Flush s], old)
    | r =>
      let '(partial, start, content_length) :=
        match r with
        | Part first last => (Some (first, last), first, last - first + 1)
        | _ => (None, 0, size)
        end in
      let header := file_headers partial content_type content_length size in
      if bool_decide (method req = txt "HEAD") || (content_length =? 0)
      then (SendRaw o s header ++ [Flush s], old)
      else if negb (opens o p) then (SendHttp o s 404 (txt "text/plain") (txt "Not Found"), old)
      else
        let '(out, f) := PumpFileStream o s (Some (mkStream p start content_length)) in
        (SendRaw o s header ++ out ++ [Flush s], f)
    end
  end.

(** ** Handlers without the hub *)

Section Handlers.
Context `{Settings}.

Definition json : bytes := txt "application/json".
Definition detail (message : bytes) : bytes := txt "{" ++ field (txt "detail") ++ [dq] ++ message ++ [dq] ++ txt "}".
Definition playlist_type : bytes := txt "application/vnd.apple.mpegurl; charset=utf-8".
Definition is_manifest (content_type body : bytes) : bool :=
  bool_decide (content_type = txt "application/vnd.apple.mpegurl") || starts_with (txt "#EXTM3U") body.

(** Source: app/activity-server/src/ActivitySession.cpp:821-834, ActivitySession::ServeHls. *)
Definition ServeHls (o : oracle) (s : Z) (req : HttpRequest) (old : option FileStreamState) :
    list output * option FileStreamState :=
  let root := canonical o (path_append downloads (txt "hls")) in
  let rel := UrlDecode (zdrop (zlen (txt "/hls/")) (path req)) in
  let target := canonical o (path_append root rel) in
  if negb (starts_with root target) || negb (is_regular_file o target)
  then (SendHttp o s 404 (txt "text/plain") (txt "Not Found"), old)
  else
    let type := if bool_decide (extension target = txt ".ts") then txt "video/mp2t"
                else if bool_decide (extension target = txt ".m3u8") then txt "application/vnd.apple.mpegurl"
                else txt "application/octet-stream" in
    SendFileResponse o s req target type old.

(** Source: app/activity-server/src/ActivitySession.cpp:836-865, ActivitySession::ServeStaticFrontend.
    [None]: it returns [false]. *)
Definition ServeStaticFrontend (o : oracle) (s : Z) (req : HttpRequest) : option (list output) :=
  let root := canonical o static_dir in
  if negb (is_directory o root) then None else
  let rel := UrlDecode (if bool_decide (path req = []) then txt "/" else path req) in
  let rel := match rel with c :: r => if decide (c = slash) then r else rel | [] => rel end in
  let target := canonical o (if bool_decide (rel = []) then path_append root (txt "index.html")
                             else path_append root rel) in
  if negb (IsWithinRoot root target) then Some (SendHttp o s 404 (txt "text/plain") (txt "Not Found")) else
  let target := if is_regular_file o target then target else path_append root (txt "index.html") in
  if negb (is_regular_file o target) then None else
  let body := if bool_decide (method req = txt "HEAD") then [] else contents o target in
  Some (SendHttp o s 200 (StaticContentType target) body).

(** Source: app/activity-server/src/ActivitySession.cpp:867-889, ActivitySession::ProxyThumbnail. *)
Definition ProxyThumbnail (o : oracle) (s : Z) (req : HttpRequest) : list output :=
  let target := QueryParam (query req) (txt "target") in
  if bool_decide (target = []) then SendHttp o s 400 json (detail (txt "target is required")) else
  if negb (IsHttpUrl target) then SendHttp o s 400 json (detail (txt "Only http(s) targets supported")) else
  if bool_decide (method req = txt "HEAD") then SendHttp o s 200 (ContentTypeForUrl target) [] else
  let command := curl_command target (txt "--max-time 10") in
  let '(exit_code, out) := captures o command in
  Ran command ::
  (if exit_code =? 0 then SendHttp o s 200 (ContentTypeForUrl target) out
   else SendHttp o s 502 json (detail (txt "Thumbnail upstream request failed"))).

(** Source: app/activity-server/src/ActivitySession.cpp:423-434, GetTvingPlaylist. *)
Definition GetTvingPlaylist (o : oracle) (i : bytes) (w : World) : option TvingPlaylist * World :=
  match g_tving_playlists w !! i with
  | None => (None, w)
  | Some p =>
    if now o - playlist_created p >? 6 * 3600 * 1000000000
    then (None, set_playlists (delete i (g_tving_playlists w)) w)
    else (Some p, w)
  end.

(** Source: app/activity-server/src/ActivitySession.cpp:184-218, CurlGetWithConfig.
    With the configuration file [config]; the outputs say that it was written and which
    command ran.  The same lines are in [CurlGetWithConfigStatus]. *)
Definition curl_with (o : oracle) (config : bytes) : Z * bytes * list output :=
  let config_path := path_append temp_directory (RandomId (txt "tving-curl-") o ++ txt ".conf") in
  if negb (config_written o) then (-1, [], []) else
  let command := txt "curl --config " ++ ShellQuote config_path ++ txt " 2>/dev/null" in
  (captures o command, [Wrote config; Ran command]).

Definition status_marker : bytes := [LF] ++ txt "__CURL_HTTP_STATUS__:".

(** Source: app/activity-server/src/ActivitySession.cpp:263-277, CurlGetWithConfigStatus.
    The status and the body in the output of curl: what follows the last marker. *)
Definition split_status (output : bytes) : Z * bytes :=
  match split_sub (reverse status_marker) (reverse output) with
  | Some (status, body) => (default 0 (stoi (reverse status)), reverse body)
  | None => (0, output)
  end.

(** Source: app/activity-server/src/ActivitySession.cpp:226-278, CurlGetWithConfigStatus.
    Exit code, status, body. *)
Definition CurlGetWithConfigStatus (o : oracle) (url : bytes) (hs : list bytes) : Z * Z * bytes * list output :=
  let '(exit_code, out, outs) := curl_with o (curl_config url hs) in
  let '(status, body) := if config_written o then split_status out else (0, []) in
  (exit_code, status, body, outs).

(** Source: app/activity-server/src/ActivitySession.cpp:910-960, ActivitySession::ProxyHls.
    The reply for a playlist or a segment; [rewrite] puts the proxy's addresses in. *)
Definition proxied_reply (o : oracle) (s : Z) (content_type body : bytes) (rewritten : option bytes) : list output :=
  if is_manifest content_type body
  then SendHttp o s 200 playlist_type (default [] rewritten)
  else SendHttp o s 200 content_type body.

(** Source: app/activity-server/src/ActivitySession.cpp:891-960, ActivitySession::ProxyHls. *)
Definition ProxyHls (o : oracle) (s : Z) (req : HttpRequest) (w : World) : list output * World :=
  let url := QueryParam (query req) (txt "url") in
  let tving_id := QueryParam (query req) (txt "tving_id") in
  if bool_decide (url = []) then (SendHttp o s 400 json (detail (txt "url is required")), w) else
  if negb (IsHttpUrl url) then (SendHttp o s 400 json (detail (txt "Only http/https URLs are supported")), w) else
  if bool_decide (method req = txt "HEAD") then (SendHttp o s 200 (ContentTypeForUrl url) [], w) else
  let '(found, w) := if bool_decide (tving_id = []) then (Some [], w)
                     else let '(p, w) := GetTvingPlaylist o tving_id w in (playlist_headers <$> p, w) in
  match found with
  | None => (SendHttp o s 404 json (detail (txt "TVING playlist not found or expired")), w)
  | Some tving_headers =>
    let range := Header req (txt "range") in
    let tving_headers := tving_headers ++ (if bool_decide (range = []) then [] else [txt "Range: " ++ range]) in
    let content_type := ContentTypeForUrl url in
    if bool_decide (tving_headers ≠ []) then
      let '(exit_code, status, body, outs) := CurlGetWithConfigStatus o url tving_headers in
      if negb (exit_code =? 0) || (status =? 0)
      then (outs ++ SendHttp o s 502 json (detail (txt "Upstream request failed")), w)
      else if 400 <=? status then
        (outs ++ SendHttp o s status json
           (txt "{" ++ join (txt ",")
              [field (txt "detail") ++ [dq] ++ txt "TVING upstream rejected request" ++ [dq];
               field (txt "upstream_status") ++ to_string_i status;
               text_field (txt "upstream_body") (ztake 1200 body)] ++ txt "}"), w)
      else (outs ++ proxied_reply o s content_type body (RewriteHlsManifestWithTving body url tving_id), w)
    else
      let command := curl_command url [] in
      let '(exit_code, body) := captures o command in
      (Ran command ::
       (if exit_code =? 0 then proxied_reply o s content_type body (RewriteHlsManifest body url)
        else SendHttp o s 502 json (detail (txt "Upstream request failed"))), w)
  end.

(** Source: app/activity-server/src/ActivitySession.cpp:962-993, ActivitySession::ExchangeDiscordToken. *)
Definition ExchangeDiscordToken (o : oracle) (s : Z) (body : bytes) : list output :=
  let code := default [] (JsonString body (txt "code")) in
  if bool_decide (code = []) then SendHttp o s 400 json (detail (txt "code is required")) else
  if bool_decide (discord_client_id = []) || bool_decide (discord_client_secret = [])
  then SendHttp o s 500 json (detail (txt "Server misconfigured (missing Discord credentials)")) else
  let command := discord_command discord_client_id discord_client_secret code in
  let '(exit_code, out) := captures o command in
  Ran command ::
  (if exit_code =? 0 then SendHttp o s 200 json out
   else SendHttp o s 400 json (detail (txt "Failed to exchange token"))).

(** Source: app/activity-server/src/ActivitySession.cpp:1189-1203, ActivitySession::ServeTvingPlaylist. *)
Definition ServeTvingPlaylist (o : oracle) (s : Z) (req : HttpRequest) (w : World) : list output * World :=
  let i := zdrop (zlen (txt "/api/tving/playlist/")) (path req) in
  let i := if ends_with (txt ".m3u8") i then ztake (zlen i - zlen (txt ".m3u8")) i else i in
  let '(p, w) := GetTvingPlaylist o i w in
  match p with
  | None => (SendHttp o s 404 json (detail (txt "TVING playlist not found or expired")), w)
  | Some p => (SendHttp o s 200 playlist_type (if bool_decide (method req = txt "HEAD") then [] else manifest p), w)
  end.

(** Source: app/activity-server/src/ActivitySession.cpp:1086-1114, ActivitySession::CookiePlayTving.
    The cookies of a request, cleaned, with the tokens in them; also in [ProbeTving]. *)
Inductive cookies := Refused (message : bytes) | Cookies (cookie token auth_token access_token : bytes).

Definition read_cookies (body : bytes) : cookies :=
  let cookie := default [] (JsonString body (txt "cookie_text")) in
  let cookie := if bool_decide (cookie = []) then default [] (JsonString body (txt "cookie")) else cookie in
  if bool_decide (cookie = []) then Refused (txt "cookie_text is required") else
  let cookie := CleanCookieText cookie in
  if zlen cookie >? 1024 * 1024 then Refused (txt "cookie_text is too large") else
  let token := CookieValue cookie (txt "_tving_token") in
  if bool_decide (token = []) then Refused (txt "cookie_text must contain _tving_token") else
  Cookies cookie token (CookieValue cookie (txt "authToken")) (CookieValue cookie (txt "accessToken")).

Definition stream_info (o : oracle) (media_code cookie token auth_token access_token : bytes) : Z * bytes * list output :=
  curl_with o (curl_config_plain (BuildTvingStreamInfoUrl media_code (server_now o / 1000000))
                                 (BuildTvingHeaders cookie token auth_token access_token)).

Definition media_code_of (body : bytes) : bytes := default (txt "C51850") (JsonString body (txt "media_code")).

Definition cookie_keys (auth_token access_token : bytes) : bytes :=
  field (txt "cookie_keys") ++ txt "{" ++ join (txt ",")
    [field (txt "_tving_token") ++ txt "true"; field (txt "authToken") ++ bool_json (bool_decide (auth_token ≠ []));
     field (txt "accessToken") ++ bool_json (bool_decide (access_token ≠ []))] ++ txt "}".

(** Source: app/activity-server/src/ActivitySession.cpp:995-1083, ActivitySession::ProbeTving. *)
Definition ProbeTving (o : oracle) (s : Z) (body : bytes) : list output :=
  let media_code := media_code_of body in
  match read_cookies body with
  | Refused message => SendHttp o s 400 json (detail message)
  | Cookies cookie token auth_token access_token =>
    let '(exit_code, out, outs) := stream_info o media_code cookie token auth_token access_token in
    outs ++
    (if negb (exit_code =? 0) then
       SendHttp o s 502 json
         (txt "{" ++ join (txt ",") [field (txt "detail") ++ [dq] ++ txt "TVING stream info request failed" ++ [dq];
                                     cookie_keys auth_token access_token] ++ txt "}")
     else
       let urls := ExtractM3u8Urls out in
       SendHttp o s 200 json
         (txt "{" ++ join (txt ",")
            [field (txt "status") ++ [dq] ++ txt "ok" ++ [dq];
             text_field (txt "media_code") media_code;
             text_field (txt "result_code") (default [] (JsonString out (txt "code")));
             text_field (txt "result_message") (default [] (JsonString out (txt "message")));
             field (txt "response_bytes") ++ to_string (zlen out);
             field (txt "m3u8_count") ++ to_string (zlen urls);
             field (txt "m3u8_urls") ++ JsonArray urls;
             cookie_keys auth_token access_token] ++ txt "}"))
  end.

(** ** Actions *)

(** What a thread has still to do. *)
Inductive action :=
| Recv (s : Z) (data : bytes)                 (* [OnRecv] *)
| ProcessHttpBuffer (s : Z)
| Loop (s : Z)                                (* the end of its loop *)
| Leave (s : Z)                               (* [OnDisconnected] *)
| Drained (s : Z)                             (* [OnSocketDrained] *)
| Deliver (s : Z) (text : bytes)              (* a text posted to the ring *)
| Reply (s status : Z) (content_type body : bytes)
| UpgradeWebSocket (s : Z) (req : HttpRequest)
| Hls (s : Z) (req : HttpRequest)
| Static (s : Z) (req : HttpRequest)
| Thumbnail (s : Z) (req : HttpRequest)
| Proxy (s : Z) (req : HttpRequest)
| DiscordToken (s : Z) (body : bytes)
| Probe (s : Z) (body : bytes)
| CookiePlayTving (s : Z) (body : bytes)
| StorePlaylist (p : TvingPlaylist)
| Playlist (s : Z) (req : HttpRequest)
| WsText (s : Z) (text : bytes)
| WsPong (s : Z) (payload : bytes)
| WsEnd (s : Z) (flush : bool)
| SendState (s : Z) (instance_id : bytes)
| QueueOf (s : Z) (instance_id : bytes)
| TaskOf (s : Z) (i : bytes)
| Download (s : Z) (url instance_id : bytes) (force : bool) (message : bytes)
| Advance (instance_id : bytes)
| Unqueue (instance_id i : bytes)
| Play (instance_id : bytes) (e : QueueEntry)
| BroadcastText (instance_id text : bytes)
| BroadcastState (instance_id : bytes) (origin : option bytes)
| BroadcastPresence (instance_id : bytes)
| WorkerStart (i instance_id : bytes)         (* [DownloadWorker] *)
| WorkerRun (i instance_id url : bytes).      (* after its first broadcast *)

Definition instance_of (body : bytes) : bytes := default (txt "default") (JsonString body (txt "instance_id")).

(** Source: app/activity-server/src/ActivitySession.cpp:558-570, ActivitySession::HandleHttp.
    Also lines 571-583. *)
Definition download_route (s : Z) (body : bytes) (force : bool) (message : bytes) : list action :=
  let url := default [] (JsonString body (txt "url")) in
  if bool_decide (url = []) then [Reply s 400 json (detail (txt "url is required"))]
  else [Download s url (instance_key (instance_of body)) force message].

(** Source: app/activity-server/src/ActivitySession.cpp:807-819, ActivitySession::RemoveQueue. *)
Definition remove_route (body : bytes) : list action :=
  let i := default [] (JsonString body (txt "id")) in
  if bool_decide (i = []) then [] else [Unqueue (instance_of body) i; BroadcastState (instance_of body) None].

(** Source: app/activity-server/src/ActivitySession.cpp:546-649, ActivitySession::HandleHttp. *)
Definition HandleHttp (s : Z) (req : HttpRequest) : list action :=
  let verb m := bool_decide (method req = txt m) in
  let reads := verb "GET"%string || verb "HEAD"%string in
  let route p := bool_decide (path req = txt p) in
  let below p := starts_with (txt p) (path req) in
  if verb "GET"%string && route "/ws"%string then [UpgradeWebSocket s req] else
  if verb "GET"%string && route "/api/queue"%string then
    [QueueOf s (instance_key (QueryParam (query req) (txt "instance_id")))] else
  if verb "POST"%string && route "/api/download"%string then
    download_route s (body req) false (txt "Download started in background") else
  if verb "POST"%string && route "/api/play"%string then
    download_route s (body req) true (txt "Playback download started in background") else
  if verb "POST"%string && route "/api/discord/token"%string then [DiscordToken s (body req)] else
  if verb "POST"%string && route "/api/tving/probe"%string then [Probe s (body req)] else
  if verb "POST"%string && route "/api/tving/cookie-play"%string then [CookiePlayTving s (body req)] else
  if reads && below "/api/tving/playlist/"%string then [Playlist s req] else
  if verb "GET"%string && below "/api/download/status/"%string then
    [TaskOf s (zdrop (zlen (txt "/api/download/status/")) (path req))] else
  if verb "POST"%string && route "/api/next"%string then
    let i := instance_key (instance_of (body req)) in
    [Advance i; BroadcastState i None; Reply s 200 json (txt "{" ++ field (txt "ok") ++ txt "true}")] else
  if verb "POST"%string && route "/api/queue/remove"%string then
    remove_route (body req) ++ [Reply s 200 json (txt "{" ++ field (txt "ok") ++ txt "true}")] else
  if reads && below "/hls/"%string then [Hls s req] else
  if reads && route "/api/thumb"%string then [Thumbnail s req] else
  if reads && route "/proxy/hls"%string then [Proxy s req] else
  if below "/proxy/netflix/"%string || below "/proxy/webrtc/"%string || below "/api/tving/"%string then
    [Reply s 501 json (detail (txt "This FastAPI route is not ported to the C++ activity server yet"))] else
  if verb "GET"%string && route "/healthz"%string then
    [Reply s 200 json (txt "{" ++ join (txt ",") [text_field (txt "status") (txt "ok");
                                                  text_field (txt "runtime") (txt "cpp")] ++ txt "}")] else
  if reads && negb (IsBackendPrefix (path req)) then [Static s req] else
  [Reply s 404 json (detail (txt "Not found"))].

(** Source: app/activity-server/src/ActivitySession.cpp:744-755, ActivitySession::HandleWsText. *)
Definition chat_text (client payload_text sender : bytes) (server_now : Z) : bytes :=
  txt "{" ++ join (txt ",")
    [text_field (txt "type") (txt "CHAT_MESSAGE");
     field (txt "origin") ++ txt "{" ++ text_field (txt "client_id") client ++ txt "}";
     field (txt "payload") ++ txt "{" ++ join (txt ",")
       [text_field (txt "text") (ztake 500 payload_text); text_field (txt "sender") (ztake 32 sender);
        field (txt "server_ts") ++ fixed3 server_now] ++ txt "}"] ++ txt "}".

(** Source: app/activity-server/src/ActivityUtils.cpp:128-149, JsonNumber.
    The text that [std::stod] is given. *)
Fixpoint number_text (s : bytes) : bytes :=
  match s with
  | c :: s => if is_digit c || bool_decide (c ∈ ["."%char; "-"%char]) then c :: number_text s else []
  | [] => []
  end.

Definition JsonNumber (json key : bytes) : option bytes :=
  '(_, json) ← split_sub ([dq] ++ key ++ [dq]) json;
  '(_, json) ← split_at ":"%char json;
  match number_text (skip_spaces json) with [] => None | t => Some t end.

(** A message about a download. *)
Definition download_message (type i : bytes) (more : list bytes) : bytes :=
  txt "{" ++ join (txt ",") ([text_field (txt "type") type; text_field (txt "task_id") i] ++ more) ++ txt "}".

Definition failed_message (i error : bytes) : bytes :=
  download_message (txt "DOWNLOAD_FAILED") i [text_field (txt "error") error].

(** ** What an action does *)

Record effect := mkEffect {
  after : World;
  next : list action;                   (* what the thread does next *)
  spawned : option (list action);       (* a thread it starts *)
  outs : list output;
}.

Definition done (w : World) (outs : list output) : effect := mkEffect w [] None outs.
Definition then_ (w : World) (next : list action) : effect := mkEffect w next None [].

(** Source: app/activity-server/src/ActivitySession.cpp:724-770, ActivitySession::HandleWsText.
    With [ApplySync], lines 772-782. *)
Definition HandleWsText (o : oracle) (s : Z) (text : bytes) (w : World) : effect :=
  let c := session s w in
  let type := default [] (JsonString text (txt "type")) in
  let client := default (client_id_ c) (JsonString text (txt "client_id")) in
  if bool_decide (type = txt "HELLO") then
    let i := instance_key (default [] (JsonString text (txt "instance_id"))) in
    let k := if bool_decide (client = []) then RandomId (txt "client_") o else client in
    let w := update_session s (set_ids i k) w in
    then_ (set_hub (Register s i k (hub w)) w) [SendState s i; BroadcastPresence i]
  else if bool_decide (type = txt "CHAT_MESSAGE") then
    let payload_text := default [] (JsonString text (txt "text")) in
    let sender := default (if bool_decide (client_id_ c = []) then txt "Guest" else client_id_ c)
                          (JsonString text (txt "sender")) in
    if bool_decide (payload_text = []) then done w [] else
    then_ w [BroadcastText (instance_id_ c) (chat_text (client_id_ c) payload_text sender (server_now o))]
  else if bool_decide (type = txt "PING") then
    done w [Posted s (txt "{" ++ text_field (txt "type") (txt "PONG") ++ txt "}")]
  else if bool_decide (type = txt "REQUEST_SYNC") then
    let reason := default [] (JsonString text (txt "reason")) in
    then_ (set_sync (JsonNumber text (txt "time"), bool_decide (reason ≠ txt "pause_button")) w)
      [BroadcastState (instance_id_ c) (Some client)]
  else done w [].

(** Source: app/activity-server/src/ActivitySession.cpp:1085-1187, ActivitySession::CookiePlayTving. *)
Definition do_cookie_play (o : oracle) (s : Z) (body : bytes) (w : World) : effect :=
  let media_code := media_code_of body in
  let i := instance_key (instance_of body) in
  match read_cookies body with
  | Refused message => done w (SendHttp o s 400 json (detail message))
  | Cookies cookie token auth_token access_token =>
    let '(exit_code, out, outs) := stream_info o media_code cookie token auth_token access_token in
    let result_code := default [] (JsonString out (txt "code")) in
    let result_message := default [] (JsonString out (txt "message")) in
    let urls := ExtractM3u8Urls out in
    let count := [field (txt "m3u8_count") ++ to_string (zlen urls); field (txt "m3u8_urls") ++ JsonArray urls] in
    let video := ChooseTvingVideoUrl urls in
    let audio := ChooseTvingAudioUrl urls in
    if negb (exit_code =? 0) then
      done w (outs ++ SendHttp o s 502 json (detail (txt "TVING stream info request failed")))
    else if bool_decide (result_code ≠ []) && bool_decide (result_code ≠ txt "000") &&
            bool_decide (result_code ≠ txt "200") then
      done w (outs ++ SendHttp o s 403 json
        (txt "{" ++ join (txt ",") [field (txt "detail") ++ [dq] ++ txt "TVING stream info rejected playback" ++ [dq];
          text_field (txt "result_code") result_code; text_field (txt "result_message") result_message] ++ txt "}"))
    else if bool_decide (video = []) then
      done w (outs ++ SendHttp o s 502 json
        (txt "{" ++ join (txt ",") ([field (txt "detail") ++ [dq] ++
          txt "TVING response did not contain a usable video m3u8" ++ [dq]] ++ count) ++ txt "}"))
    else
      let pid := RandomId (txt "tving_") o in
      let p := mkPlaylist pid media_code (BuildTvingMasterPlaylist video audio pid) video audio
                 (BuildTvingHeaders cookie token auth_token access_token) (now o) in
      let e := mkEntry (txt "tving_" ++ pid) (txt "/api/tving/playlist/" ++ pid ++ txt ".m3u8") []
                 (txt "tving") (txt "TVING " ++ media_code) [] (txt "m3u8") 0 in
      mkEffect w
        [StorePlaylist p; Play i e; BroadcastState i None;
         Reply s 200 json
           (txt "{" ++ join (txt ",")
             [text_field (txt "status") (txt "success"); field (txt "entry") ++ EntryJson e;
              field (txt "autostart") ++ txt "true";
              field (txt "playlist") ++ txt "{" ++ join (txt ",")
                ([text_field (txt "id") pid; text_field (txt "url") (entry_url e);
                  field (txt "has_audio") ++ bool_json (bool_decide (audio ≠ []));
                  text_field (txt "video_url") video; text_field (txt "audio_url") audio] ++ count) ++ txt "}"]
            ++ txt "}")]
        None outs
  end.

Definition local_dir : fspath := path_append (path_append downloads (txt "local")) (txt "youtube").
Definition hls_dir (i : bytes) : fspath := path_append (path_append downloads (txt "hls")) i.

(** Source: app/activity-server/src/ActivityHub.cpp:236-312, ActivityHub::DownloadWorker.
    From the first command on. *)
Definition worker_run (o : oracle) (i instance_id url : bytes) (w : World) : effect :=
  let media_file := path_append local_dir (i ++ txt ".mp4") in
  let ytdlp := ytdlp_command (path_append local_dir (i ++ txt ".%(ext)s")) url in
  let playlist := path_append (hls_dir i) (txt "index.m3u8") in
  let segments := path_append (hls_dir i) (txt "seg_%05d.ts") in
  let copy := ffmpeg_copy media_file segments playlist in
  let transcode := ffmpeg_transcode media_file segments playlist in
  let fail commands message :=
    mkEffect (set_hub (task_failed i (txt message) (hub w)) w)
      [BroadcastText instance_id (failed_message i (txt message))] None (Ran <$> commands) in
  let finish commands :=
    let e := download_entry downloads i url in
    let '(autostart, h) := task_completed i instance_id e (now o) (hub w) in
    mkEffect (set_hub h w)
      [BroadcastState instance_id None;
       BroadcastText instance_id (download_message (txt "DOWNLOAD_COMPLETE") i
         [field (txt "entry") ++ EntryJson e; field (txt "autostart") ++ bool_json autostart])]
      None (Ran <$> commands) in
  if negb (runs o ytdlp =? 0) || negb (media_exists o) then fail [ytdlp] "yt-dlp failed"%string else
  if (runs o copy =? 0) && playlist_copied o then finish [ytdlp; copy] else
  if (runs o transcode =? 0) && playlist_transcoded o then finish [ytdlp; copy; transcode] else
  fail [ytdlp; copy; transcode] "ffmpeg hls failed"%string.

(** Source: app/activity-server/src/ActivityHub.cpp:205-234, ActivityHub::DownloadWorker.
    Up to the first broadcast. *)
Definition worker_start (o : oracle) (i instance_id : bytes) (w : World) : effect :=
  match directories o with
  | Some what =>
    then_ (set_hub (task_failed i (txt "download directory error: " ++ what) (hub w)) w)
      [BroadcastText instance_id (failed_message i (txt "download directory error"))]
  | None =>
    let '(url, h) := task_started i (hub w) in
    then_ (set_hub h w)
      [BroadcastText instance_id (download_message (txt "DOWNLOAD_PROGRESS") i
         [text_field (txt "status") (txt "downloading"); text_field (txt "url") url]);
       WorkerRun i instance_id url]
  end.

(** Source: app/activity-server/src/ActivitySession.cpp:668-722, ActivitySession::ProcessWsBuffer.
    The calls for a frame. *)
Definition ws_act (s : Z) (a : ws_action) : action :=
  match a with
  | Text payload => WsText s payload
  | Pong payload => WsPong s payload
  | FlushClose => WsEnd s true
  | Close => WsEnd s false
  end.

(** Source: app/activity-server/src/ActivitySession.cpp:453-462, ActivitySession::OnRecv. *)
Definition OnRecv (s : Z) (data : bytes) (w : World) : effect :=
  let c := session s w in
  if websocket_ c then
    let buffer := ws_buffer_ c ++ data in
    let '(buffer, actions) := default (buffer, []) (ProcessWsBuffer (S (length buffer)) buffer) in
    then_ (update_session s (set_ws buffer) w) (ws_act s <$> actions)
  else then_ (update_session s (set_http (http_buffer_ c ++ data)) w) [ProcessHttpBuffer s].

(** Source: app/activity-server/src/ActivitySession.cpp:484-495, ActivitySession::ProcessHttpBuffer.
    One round. *)
Definition http_round (o : oracle) (s : Z) (w : World) : effect :=
  match TryParseHttp (http_buffer_ (session s w)) with
  | Wait => done w []
  | Refuse status message => done w (SendHttp o s status (txt "text/plain") message)
  | Request req rest => then_ (update_session s (set_http rest) w) (HandleHttp s req ++ [Loop s])
  end.

Definition with_stream (s : Z) (w : World) (r : list output * option FileStreamState) : effect :=
  done (update_session s (set_stream r.2) w) r.1.

(** Source: app/activity-server/src/ActivitySession.cpp:651-666, ActivitySession::UpgradeWebSocket. *)
Definition upgrade (o : oracle) (s : Z) (req : HttpRequest) (w : World) : effect :=
  match headers req !! txt "sec-websocket-key" with
  | None => done w (SendHttp o s 400 (txt "text/plain") (txt "Missing Sec-WebSocket-Key"))
  | Some key => done (update_session s set_websocket w) (SendRaw o s (upgrade_reply (WebSocketAccept key)))
  end.

(** Source: app/activity-server/src/ActivityHub.cpp:82-91, ActivityHub::BroadcastText. *)
Definition broadcast_text (o : oracle) (instance_id text : bytes) (w : World) : effect :=
  let '(ss, h) := SessionsLocked (live o) instance_id (hub w) in
  done (set_hub h w) ((λ s, Posted s text) <$> ss).

(** Source: app/activity-server/src/ActivityHub.cpp:131-141, ActivityHub::BroadcastState. *)
Definition broadcast_state (o : oracle) (instance_id : bytes) (origin : option bytes) (w : World) : effect :=
  let '(payload, h) := StatePayloadJson fixed3 (now o) (server_now o) instance_id (hub w) in
  then_ (set_hub h w) [BroadcastText instance_id (state_update origin payload)].

(** Source: app/activity-server/src/ActivityHub.cpp:143-155, ActivityHub::BroadcastPresence. *)
Definition broadcast_presence (instance_id : bytes) (w : World) : effect :=
  then_ w [BroadcastText instance_id (presence_update instance_id (hub w))].

(** Source: app/activity-server/src/ActivityHub.cpp:169-184, ActivityHub::CreateDownload.
    With the reply of the route. *)
Definition create_download (o : oracle) (s : Z) (url instance_id : bytes) (force : bool) (message : bytes)
    (w : World) : effect :=
  let i := RandomId (txt "dl_") o in
  mkEffect (set_hub (CreateDownload i url force (hub w)) w)
    [Reply s 200 json (txt "{" ++ join (txt ",")
       [text_field (txt "status") (txt "pending"); text_field (txt "task_id") i;
        text_field (txt "message") message] ++ txt "}")]
    (Some [WorkerStart i instance_id]) [].

(** Source: app/activity-server/src/ActivitySession.cpp:464-472, ActivitySession::OnDisconnected.
    With [ActivityHub::Remove]. *)
Definition leave (s : Z) (w : World) : effect :=
  let w := update_session s (set_stream None) w in
  let '(instance_id, h) := Remove s (hub w) in
  then_ (set_hub h w) (if bool_decide (instance_id = []) then [] else [BroadcastPresence instance_id]).

Definition act (o : oracle) (a : action) (w : World) : effect :=
  match a with
  | Recv s data => OnRecv s data w
  | ProcessHttpBuffer s => http_round o s w
  | Loop s => then_ w (if websocket_ (session s w) || closing o then [] else [ProcessHttpBuffer s])
  | Leave s => leave s w
  | Drained s => with_stream s w (PumpFileStream o s (file_stream_ (session s w)))
  | Deliver s text => done w (SendWsTextOnRing o s w text)
  | Reply s status type body => done w (SendHttp o s status type body)
  | UpgradeWebSocket s req => upgrade o s req w
  | Hls s req => with_stream s w (ServeHls o s req (file_stream_ (session s w)))
  | Static s req =>
    done w (default (SendHttp o s 404 json (detail (txt "Not found"))) (ServeStaticFrontend o s req))
  | Thumbnail s req => done w (ProxyThumbnail o s req)
  | Proxy s req => let '(outs, w) := ProxyHls o s req w in done w outs
  | DiscordToken s body => done w (ExchangeDiscordToken o s body)
  | Probe s body => done w (ProbeTving o s body)
  | CookiePlayTving s body => do_cookie_play o s body w
  | StorePlaylist p => then_ (set_playlists (<[playlist_id p := p]> (g_tving_playlists w)) w) []
  | Playlist s req => let '(outs, w) := ServeTvingPlaylist o s req w in done w outs
  | WsText s text => HandleWsText o s text w
  | WsPong s payload => done w (SendRaw o s (SendWsFrame 10 payload))
  | WsEnd s flush => done w [if flush then Flush s else Cut s]
  | SendState s i =>
    let '(payload, h) := StatePayloadJson fixed3 (now o) (server_now o) i (hub w) in
    done (set_hub h w) [Posted s (state_update None payload)]
  | QueueOf s i => let '(text, h) := QueueJson i (hub w) in done (set_hub h w) (SendHttp o s 200 json text)
  | TaskOf s i =>
    let text := TaskJson i (hub w) in
    done w (if bool_decide (text = []) then SendHttp o s 404 json (detail (txt "Task not found"))
            else SendHttp o s 200 json text)
  | Download s url i force message => create_download o s url i force message w
  | Advance i => then_ (set_hub (AdvanceQueue i (now o) (hub w)) w) []
  | Unqueue i k => then_ (set_hub (RemoveQueue i k (hub w)) w) []
  | Play i e => then_ (set_hub (PlayNow i e (now o) (hub w)) w) []
  | BroadcastText i text => broadcast_text o i text w
  | BroadcastState i origin => broadcast_state o i origin w
  | BroadcastPresence i => broadcast_presence i w
  | WorkerStart i k => worker_start o i k w
  | WorkerRun i k url => worker_run o i k url w
  end.

(** ** The threads *)

(** The ring's thread and those of the downloads, and what was sent so far. *)
Record System := mkSystem {
  world : World;
  ring : list action;
  workers : list (list action);
  log : list output;
}.

Definition start : System := mkSystem (mkWorld ∅ (mkHub ∅ ∅ ∅) ∅ (None, true)) [] [] [].

(** What the ring's thread takes up when it is free. *)
Definition ring_event (a : action) : Prop :=
  match a with Recv _ _ | Leave _ | Drained _ | Deliver _ _ => True | _ => False end.

Definition spawn (workers : list (list action)) (thread : option (list action)) : list (list action) :=
  match thread with Some thread => workers ++ [thread] | None => workers end.

(** What a step did: the thread ([None] is the ring's), what it learned, its action and
    the world before. *)
Record label := mkLabel { thread : option nat; learned : oracle; did : action; before : World }.

(** A step: the ring's thread takes up an event, or a thread does its next action.  The
    identifiers that [RandomId] gives to downloads are taken to be new. *)
Inductive step : System → option label → System → Prop :=
| step_event s a : ring_event a → ring s = [] →
    step s None (mkSystem (world s) [a] (workers s) (log s))
| step_ring s o a rest : ring s = a :: rest → tasks_ (hub (world s)) !! RandomId (txt "dl_") o = None →
    let e := act o a (world s) in
    step s (Some (mkLabel None o a (world s)))
      (mkSystem (after e) (next e ++ rest) (spawn (workers s) (spawned e)) (log s ++ outs e))
| step_worker s o k a rest : workers s !! k = Some (a :: rest) →
    let e := act o a (world s) in
    step s (Some (mkLabel (Some k) o a (world s)))
      (mkSystem (after e) (ring s) (spawn (<[k := next e ++ rest]> (workers s)) (spawned e)) (log s ++ outs e)).

(** The steps of a run, the last one last. *)
Inductive run : System → list label → System → Prop :=
| run_start s : run s [] s
| run_step s ls s1 l s2 : run s ls s1 → step s1 l s2 → run s (ls ++ option_list l) s2.

End Handlers.
