(* ===== verification/ActivityProofs.v ===== *)
(** * The activity server is correct

    Ranges of files and how they are streamed; what the instances play, as a
    refinement of a player with one entry playing and others waiting; the life of a
    download; who a broadcast reaches; and runs in which the server goes wrong. *)

From S2P Require Import Prelude Text Paths CpuAffinity DropMeta Hls WebSocket ActivityText ActivityHub ActivityServer.

#[local] Open Scope Z_scope.
#[local] Set Warnings "-clear-no-such-hyp".

(** ** Ranges *)

Lemma stoull_range s v : stoull s = Some v → 0 ≤ v < 2 ^ 64.
Proof.
  unfold stoull. destruct (match skip_spaces s with [] => _ | _ => _ end) as [sign ds].
  destruct (digits_prefix ds).1; [done|]. destruct (_ <? _); [|done]. intros [= <-].
  unfold u64. apply Z.mod_pos_bound. lia.
Qed.

Lemma range_of_bounds spec size first last : 0 < size →
  range_of spec size = Part first last → 0 ≤ first ≤ last ∧ last < size.
Proof.
  intros Hs. unfold range_of. destruct (split_at _ spec) as [[[|c f] l]|]; [| |done].
  - case_bool_decide; [done|]. destruct (stoull l) as [v|] eqn:E; [|done]. apply stoull_range in E.
    destruct (Z.ltb_spec 0 (Z.min v size)); [|done]. intros [= <- <-]. lia.
  - destruct (stoull (c :: f)) as [v|] eqn:E; [|done]. apply stoull_range in E.
    destruct (if bool_decide _ then _ else _) as [e|] eqn:El; [|done].
    assert (e < size).
    { case_bool_decide; [injection El as <-; lia|].
      destruct (stoull l) as [u|]; [|done]. injection El as <-. lia. }
    destruct (Z.leb_spec v e); [|done]. destruct (Z.ltb_spec v size); [|done]. intros [= <- <-]. lia.
Qed.

Lemma requested_range_bounds req size first last :
  requested_range req size = Part first last → 0 ≤ first ≤ last ∧ last < size.
Proof.
  unfold requested_range. destruct (strip_prefix _ _); [|done].
  destruct (Z.ltb_spec 0 size); [|done]. by apply range_of_bounds.
Qed.

(** ** Streaming *)

(** The bytes sent to a session. *)
Definition data_of (s : Z) (out : list output) : bytes :=
  out ≫= λ x, match x with Raw s' data => if decide (s' = s) then data else [] | _ => [] end.

Lemma data_of_app s out out' : data_of s (out ++ out') = data_of s out ++ data_of s out'.
Proof. apply bind_app. Qed.

(** A step in which nothing fails. *)
Record good (o : oracle) : Prop := {
  good_alloc : ∀ n, alloc o n = true;
  good_sent : sent o = true;
  good_reads : reads_ok o = true;
}.

(** The stream's part of the file is there. *)
Definition stream_ok (file : bytes) (f : FileStreamState) : Prop :=
  0 ≤ position f ∧ 0 ≤ remaining_bytes f ∧ position f + remaining_bytes f ≤ zlen file.

Definition stream_data (file : bytes) (f : FileStreamState) : bytes :=
  ztake (remaining_bytes f) (zdrop (position f) file).

Lemma slice_split (file : bytes) p n m : 0 ≤ p → 0 ≤ n ≤ m →
  ztake m (zdrop p file) = ztake n (zdrop p file) ++ ztake (m - n) (zdrop (p + n) file).
Proof.
  intros Hp Hn. rewrite <- (ztake_zdrop n (ztake m (zdrop p file))) at 1.
  by rewrite ztake_ztake, zdrop_ztake, zdrop_zdrop by lia.
Qed.

Lemma pump_good n o s file f : good o → contents o (stream_path f) = file → stream_ok file f →
  ∃ out f', pump n o s f = (out, Some f') ∧ stream_path f' = stream_path f ∧ stream_ok file f' ∧
    data_of s out ++ stream_data file f' = stream_data file f ∧
    remaining_bytes f' ≤ Z.max 0 (remaining_bytes f - Z.of_nat n * chunk_size).
Proof.
  intros [Ha Hs Hr] Hc. revert f Hc. induction n as [|n IH]; intros f Hc Hok.
  { exists [], f. split_and!; try done. lia. }
  cbn [pump]. destruct (Z.leb_spec (remaining_bytes f) 0).
  { exists [], f. split_and!; try done. unfold chunk_size. lia. }
  rewrite Ha, Hr, Hs, Hc. destruct Hok as (Hp & Hrem & Hlen).
  set (k := Z.min _ _). assert (0 < k ≤ remaining_bytes f) by (subst k; unfold chunk_size; lia).
  assert (Hk : zlen (ztake k (zdrop (position f) file)) = k).
  { apply zlen_ztake. rewrite zlen_zdrop; lia. }
  cbn [negb]. rewrite Hk. destruct (Z.eqb_spec k 0); [lia|].
  edestruct (IH (mkStream (stream_path f) (position f + k) (remaining_bytes f - k)))
    as (out & f' & -> & Hpath & Hok' & Hdata & Hle); [done|unfold stream_ok; cbn; lia|].
  eexists _, f'. split; [reflexivity|]. split_and!; [done|done| |].
  - cbn. rewrite decide_True by done. fold (data_of s out). rewrite <- app_assoc, Hdata.
    unfold stream_data. cbn. symmetry. apply slice_split; lia.
  - cbn [remaining_bytes] in Hle. subst k. unfold chunk_size in *. lia.
Qed.

(** The calls that follow as the socket drains. *)
Fixpoint drain (os : list oracle) (s : Z) (f : option FileStreamState) : list output * option FileStreamState :=
  match os with
  | [] => ([], f)
  | o :: os => let '(out, f) := PumpFileStream o s f in
               let '(more, f) := drain os s f in (out ++ more, f)
  end.

Definition served (p : fspath) (file : bytes) (o : oracle) : Prop := good o ∧ contents o p = file.

Lemma drain_none os s : drain os s None = ([], None).
Proof. induction os as [|o os IH]; [done|]. cbn. by rewrite IH. Qed.

Lemma drain_good os s file f : Forall (served (stream_path f) file) os → stream_ok file f →
  remaining_bytes f ≤ zlen os * (4 * chunk_size) → (remaining_bytes f = 0 → os ≠ []) →
  ∃ out, drain os s (Some f) = (out, None) ∧ data_of s out = stream_data file f.
Proof.
  revert f. induction os as [|o os IH]; intros f Hos Hok Hle Hne.
  { change (zlen []) with 0 in Hle. destruct Hok as (_ & ? & _). by destruct (Hne ltac:(lia)). }
  apply Forall_cons in Hos as [[Hg Hc] Hos]. cbn [drain PumpFileStream].
  destruct (Z.eqb_spec (remaining_bytes f) 0) as [E|E].
  { rewrite drain_none. eexists. split; [reflexivity|]. unfold stream_data. by rewrite E. }
  destruct (pump_good max_chunks_per_write o s file f Hg Hc Hok) as (out & f' & -> & Hp & Hok' & Hd & Hr).
  destruct (Z.eqb_spec (remaining_bytes f') 0) as [E'|E'].
  - rewrite drain_none. eexists. split; [reflexivity|]. rewrite !data_of_app. cbn.
    rewrite <- Hd, !app_nil_r. unfold stream_data. by rewrite E', ztake_0, app_nil_r.
  - rewrite zlen_cons in Hle. unfold max_chunks_per_write in Hr. pose proof (zlen_nonneg os).
    edestruct (IH f') as (more & Hm & Hdm); [by rewrite Hp|done|unfold chunk_size in *; lia|lia|].
    rewrite Hm. eexists. split; [reflexivity|]. by rewrite data_of_app, Hdm.
Qed.

Section Files.
Context (o : oracle) (s : Z) (req : HttpRequest) (p : fspath) (type file : bytes) (os : list oracle).
Hypothesis Ho : served p file o.
Hypothesis Hsize : file_size o p = Some (zlen file).
Hypothesis Hopen : opens o p = true.
Hypothesis Hget : method req ≠ txt "HEAD".
Hypothesis Hos : Forall (served p file) os.
Hypothesis Hrounds : zlen file ≤ (1 + zlen os) * (4 * chunk_size).

Lemma SendRaw_good data : SendRaw o s data = [Raw s data].
Proof. unfold SendRaw. destruct Ho as [[-> _ _] _]. done. Qed.

Lemma data_of_raw data more : data_of s (Raw s data :: more) = data ++ data_of s more.
Proof. cbn. by rewrite decide_True. Qed.

(** A reply with a part of the file, and the rounds after it. *)
Lemma part_served header start length : 0 ≤ start → 0 < length → start + length ≤ zlen file →
  let '(out, f) := PumpFileStream o s (Some (mkStream p start length)) in
  let '(more, f') := drain os s f in
  data_of s (SendRaw o s header ++ out ++ [Flush s]) ++ data_of s more =
    header ++ ztake length (zdrop start file) ∧ f' = None.
Proof.
  intros H0 Hl Hle. destruct (drain_good (o :: os) s file (mkStream p start length)) as (out & Hd & Hdata).
  - by constructor.
  - unfold stream_ok; cbn; lia.
  - rewrite zlen_cons. cbn. lia.
  - done.
  - cbn [drain] in Hd. destruct (PumpFileStream o s _) as [out1 f]. destruct (drain os s f) as [more f'].
    injection Hd as <- ->. split; [|done]. rewrite SendRaw_good. cbn [app].
    rewrite data_of_raw, !data_of_app in *. cbn. rewrite app_nil_r, <- app_assoc. f_equal. exact Hdata.
Qed.

End Files.

(** The replies by what the model reads from the header. *)
Lemma requested_served o s req p type file os :
  served p file o → file_size o p = Some (zlen file) → opens o p = true → method req ≠ txt "HEAD" →
  Forall (served p file) os → zlen file ≤ (1 + zlen os) * (4 * chunk_size) →
  let '(out, f) := SendFileResponse o s req p type None in
  let '(more, f') := drain os s f in
  let sent := data_of s out ++ data_of s more in
  f' = None ∧
  match requested_range req (zlen file) with
  | Unsatisfiable => sent = unsatisfiable_reply (zlen file)
  | Whole => sent = file_headers None type (zlen file) (zlen file) ++ file
  | Part first last => 0 ≤ first ≤ last ∧ last < zlen file ∧
      sent = file_headers (Some (first, last)) type (last - first + 1) (zlen file) ++
             ztake (last - first + 1) (zdrop first file)
  end.
Proof.
  intros Ho Hsize Hopen Hget Hos Hrounds. unfold SendFileResponse. rewrite Hsize.
  destruct (requested_range req (zlen file)) as [|first last|] eqn:Er.
  - rewrite bool_decide_eq_false_2 by done. cbn [orb]. rewrite Hopen. cbn [negb].
    destruct (Z.eqb_spec (zlen file) 0) as [E|E].
    + rewrite drain_none, (SendRaw_good o s p file Ho). split; [done|]. cbn [app].
      rewrite data_of_raw. apply zlen_zero in E. subst file. by rewrite !app_nil_r.
    + pose proof (zlen_nonneg file).
      pose proof (part_served o s p file os Ho Hos Hrounds (file_headers None type (zlen file) (zlen file)) 0 (zlen file)) as H'.
      destruct (PumpFileStream _ _ _) as [out f]. destruct (drain os s f).
      destruct H' as [Hd Hf]; [lia|lia|lia|]. split; [done|].
      by rewrite Hd, zdrop_0, ztake_all.
  - apply requested_range_bounds in Er. rewrite bool_decide_eq_false_2 by done. cbn [orb]. rewrite Hopen. cbn [negb].
    destruct (Z.eqb_spec (last - first + 1) 0); [lia|].
    pose proof (part_served o s p file os Ho Hos Hrounds
      (file_headers (Some (first, last)) type (last - first + 1) (zlen file)) first (last - first + 1)) as H'.
    destruct (PumpFileStream _ _ _) as [out f]. destruct (drain os s f).
    destruct H' as [Hd Hf]; [lia|lia|lia|]. split_and!; first [done|lia|exact Hd].
  - rewrite drain_none, (SendRaw_good o s p file Ho). split; [done|]. cbn [app].
    rewrite data_of_raw. cbn. by rewrite !app_nil_r.
Qed.

(** *** What a Range header asks for *)

(** The ranges of RFC 9110, and how a client writes them. *)
Inductive byte_range :=
| Between (first last : Z)
| FromOn (first : Z)
| Suffix (n : Z).

Definition range_text (r : byte_range) : bytes :=
  txt "bytes=" ++
  match r with
  | Between first last => to_string first ++ txt "-" ++ to_string last
  | FromOn first => to_string first ++ txt "-"
  | Suffix n => txt "-" ++ to_string n
  end.

(** The numbers of the range are natural numbers of 64 bits. *)
Definition range_fits (r : byte_range) : Prop :=
  match r with
  | Between first last => 0 ≤ first < 2 ^ 64 ∧ 0 ≤ last < 2 ^ 64
  | FromOn n | Suffix n => 0 ≤ n < 2 ^ 64
  end.

(** Whether the range asks for the byte at position [i] of a file of [size] bytes. *)
Definition in_range (r : byte_range) (size i : Z) : bool :=
  match r with
  | Between first last => (first <=? i) && (i <=? last)
  | FromOn first => first <=? i
  | Suffix n => size <=? i + n
  end.

(** The bytes whose positions satisfy [P], in order. *)
Fixpoint select (P : Z → bool) (i : Z) (file : bytes) : bytes :=
  match file with
  | [] => []
  | b :: file => if P i then b :: select P (i + 1) file else select P (i + 1) file
  end.

(** The replies, line by line. *)
Definition whole_reply (type file : bytes) : bytes :=
  lines_of [txt "HTTP/1.1 200 OK"; txt "Server: iouring_activity_server"; txt "Content-Type: " ++ type;
            txt "Content-Length: " ++ to_string (zlen file); txt "Access-Control-Allow-Origin: *";
            txt "Accept-Ranges: bytes"; txt "Connection: close"; []] ++ file.

Definition part_reply (type : bytes) (first last size : Z) (part : bytes) : bytes :=
  lines_of [txt "HTTP/1.1 206 Partial Content"; txt "Server: iouring_activity_server"; txt "Content-Type: " ++ type;
            txt "Content-Length: " ++ to_string (zlen part); txt "Access-Control-Allow-Origin: *";
            txt "Accept-Ranges: bytes";
            txt "Content-Range: bytes " ++ to_string first ++ txt "-" ++ to_string last ++ txt "/" ++ to_string size;
            txt "Connection: close"; []] ++ part.

Definition refusal (size : Z) : bytes :=
  lines_of [txt "HTTP/1.1 416 Range Not Satisfiable"; txt "Server: iouring_activity_server";
            txt "Content-Range: bytes */" ++ to_string size; txt "Content-Length: 0";
            txt "Access-Control-Allow-Origin: *"; txt "Accept-Ranges: bytes"; txt "Connection: close"; []].

(** A range that asks for nothing is refused; otherwise the bytes it asks for are those
    from [first] to [last], and they are sent. *)
Definition range_reply (r : byte_range) (type file reply : bytes) : Prop :=
  match select (in_range r (zlen file)) 0 file with
  | [] => reply = refusal (zlen file)
  | part => ∃ first last, 0 ≤ first ≤ last ∧ last < zlen file ∧
      (∀ i, 0 ≤ i < zlen file → in_range r (zlen file) i = true ↔ first ≤ i ≤ last) ∧
      reply = part_reply type first last (zlen file) part
  end.

Lemma select_app P i l k : select P i (l ++ k) = select P i l ++ select P (i + zlen l) k.
Proof.
  revert i. induction l as [|b l IH]; intros i; cbn [app select]; [by rewrite Z.add_0_r|].
  rewrite zlen_cons, IH, (Z.add_assoc i 1) by done. by destruct (P i).
Qed.

Lemma select_all P i l : (∀ j, i ≤ j < i + zlen l → P j = true) → select P i l = l.
Proof.
  revert i. induction l as [|b l IH]; intros i HP; [done|]. rewrite zlen_cons in HP. pose proof (zlen_nonneg l).
  cbn. rewrite HP, IH by (intros; apply HP; lia) || (try lia; done). done.
Qed.

Lemma select_none P i l : (∀ j, i ≤ j < i + zlen l → P j = false) → select P i l = [].
Proof.
  revert i. induction l as [|b l IH]; intros i HP; [done|]. rewrite zlen_cons in HP. pose proof (zlen_nonneg l).
  cbn. rewrite HP by lia. apply IH. intros; apply HP; lia.
Qed.

Lemma select_slice P file first last : 0 ≤ first ≤ last → last < zlen file →
  (∀ i, 0 ≤ i < zlen file → P i = true ↔ first ≤ i ≤ last) →
  select P 0 file = ztake (last - first + 1) (zdrop first file).
Proof.
  intros H1 H2 HP. set (n := last - first + 1).
  rewrite <- (ztake_zdrop first file) at 1. rewrite <- (ztake_zdrop n (zdrop first file)) at 1.
  assert (E1 : zlen (ztake first file) = first) by (rewrite zlen_ztake; lia).
  assert (E2 : zlen (ztake n (zdrop first file)) = n) by (rewrite zlen_ztake; [done|rewrite zlen_zdrop; lia]).
  assert (Hno : ∀ j, 0 ≤ j < zlen file → ¬ (first ≤ j ≤ last) → P j = false).
  { intros j Hj Hn. destruct (P j) eqn:E; [|done]. by apply HP in E. }
  rewrite !select_app, E1, E2, (select_none P 0), select_all, select_none.
  - cbn. by rewrite app_nil_r.
  - intros j Hj. rewrite zdrop_zdrop, zlen_zdrop in Hj by lia. apply Hno; lia.
  - intros j Hj. rewrite E2 in Hj. apply HP; lia.
  - intros j Hj. rewrite E1 in Hj. apply Hno; lia.
Qed.

Lemma stoull_to_string n : 0 ≤ n < 2 ^ 64 → stoull (to_string n) = Some n.
Proof.
  intros Hn. destruct (to_string_value n ltac:(lia)) as (Hv & Hd & Hne). unfold stoull.
  destruct (to_string n) as [|b ds] eqn:E; [done|].
  assert (Hb : is_digit b = true) by (by apply Forall_cons in Hd as [? _]).
  assert (Hs : skip_spaces (b :: ds) = b :: ds).
  { cbn. destruct (isspace b) eqn:Es; [|done]. exfalso. revert Hb Es. clear. by destruct b as [[] [] [] [] [] [] [] []]. }
  rewrite Hs. rewrite !decide_False by (intros ->; done).
  rewrite <- (app_nil_r (b :: ds)), digits_prefix_app by done. cbn [fst]. rewrite Hv.
  rewrite (proj2 (Z.ltb_lt _ _)) by lia. f_equal. unfold u64. rewrite Z.mul_1_l. apply Z.mod_small. lia.
Qed.

(** What the model reads from a printed range is the interval of positions it asks for. *)
Lemma range_of_text r size : 0 < size → range_fits r →
  match range_of (drop 6 (range_text r)) size with
  | Part first last => 0 ≤ first ≤ last ∧ last < size ∧
      ∀ i, 0 ≤ i < size → in_range r size i = true ↔ first ≤ i ≤ last
  | Unsatisfiable => ∀ i, 0 ≤ i < size → in_range r size i = false
  | Whole => False
  end.
Proof.
  intros Hs Hf. unfold range_of, range_text. change (drop 6 (txt "bytes=" ++ ?t)) with t.
  assert (Hd : ∀ n t, 0 ≤ n → split_at "-"%char (to_string n ++ txt "-" ++ t) = Some (to_string n, t)).
  { intros n t Hn. apply split_at_app. intros Hin. by apply digits_char in Hin as [? _]. }
  assert (Hne : ∀ n, 0 ≤ n → ∃ b t, to_string n = b :: t).
  { intros n Hn. destruct (to_string_value n Hn) as (_ & _ & ?). destruct (to_string n) as [|b t]; [done|by exists b, t]. }
  destruct r as [a b|a|n]; cbn [in_range range_fits] in *.
  - destruct Hf as [Ha Hb]. rewrite Hd by lia.
    destruct (Hne a) as (c & t & E); [lia|]. rewrite E. rewrite <- E, !stoull_to_string by done.
    destruct (Hne b) as (c' & t' & E'); [lia|]. rewrite bool_decide_eq_false_2 by (by rewrite E'). cbn [fmap option_fmap option_map].
    destruct (Z.leb_spec a (Z.min b (size - 1))); [destruct (Z.ltb_spec a size)|]; cbn [andb].
    + split_and!; [lia..|]. intros i Hi. rewrite andb_true_iff, !Z.leb_le. lia.
    + intros i Hi. lia.
    + intros i Hi. apply andb_false_iff. rewrite !Z.leb_gt. lia.
  - change (to_string a ++ txt "-") with (to_string a ++ txt "-" ++ []). rewrite Hd by lia.
    destruct (Hne a) as (c & t & E); [lia|]. rewrite E. rewrite <- E, stoull_to_string by done.
    rewrite bool_decide_eq_true_2 by done.
    destruct (Z.leb_spec a (size - 1)); [destruct (Z.ltb_spec a size)|]; cbn [andb].
    + split_and!; [lia..|]. intros i Hi. rewrite Z.leb_le. lia.
    + intros i Hi. lia.
    + intros i Hi. apply Z.leb_gt. lia.
  - change (split_at "-"%char (txt "-" ++ to_string n)) with (Some ([] : bytes, to_string n)).
    destruct (Hne n) as (c & t & E); [lia|]. rewrite bool_decide_eq_false_2 by (by rewrite E).
    rewrite stoull_to_string by done. cbv beta zeta.
    destruct (Z.ltb_spec 0 (Z.min n size)).
    + split_and!; [lia..|]. intros i Hi. rewrite Z.leb_le. lia.
    + intros i Hi. apply Z.leb_gt. lia.
Qed.

Lemma range_served r type file reply : 0 < zlen file → range_fits r →
  match range_of (drop 6 (range_text r)) (zlen file) with
  | Unsatisfiable => reply = unsatisfiable_reply (zlen file)
  | Whole => True
  | Part first last => 
      reply = file_headers (Some (first, last)) type (last - first + 1) (zlen file) ++
             ztake (last - first + 1) (zdrop first file)
  end → range_reply r type file reply.
Proof.
  intros Hs Hf. pose proof (range_of_text r _ Hs Hf) as Hr. unfold range_reply.
  destruct (range_of _ _) as [|first last|]; [done| |].
  - destruct Hr as (H1 & H2 & HP). intros ->. rewrite (select_slice _ file first last H1 H2 HP).
    assert (E : zlen (ztake (last - first + 1) (zdrop first file)) = last - first + 1)
      by (rewrite zlen_ztake; [done|rewrite zlen_zdrop; lia]).
    destruct (ztake _ _) as [|b t] eqn:Et; [change (zlen []) with 0 in E; lia|]. rewrite <- Et in *.
    exists first, last. split_and!; [lia..|done|]. unfold part_reply. by rewrite E.
  - intros ->. rewrite (select_none _ 0 file); [done|]. intros j Hj. apply Hr. lia.
Qed.

Lemma strip_bytes r : strip_prefix (txt "bytes=") (range_text r) = Some (drop 6 (range_text r)).
Proof. done. Qed.


(** ** What the steps change *)

(** The state of an instance; one that no thread looked up yet is the initial one. *)
Definition state_of (h : Hub) (key : bytes) : InstanceState := default new_state (states_ h !! key).

Lemma StateLocked_spec i h :
  (StateLocked i h).1 = state_of h (instance_key i) ∧
  (∀ key, state_of (StateLocked i h).2 key = state_of h key) ∧
  tasks_ (StateLocked i h).2 = tasks_ h ∧ clients_ (StateLocked i h).2 = clients_ h.
Proof.
  unfold StateLocked, state_of. destruct (states_ h !! instance_key i) eqn:E; cbn; [done|].
  split_and!; try done. intros key. destruct (decide (key = instance_key i)) as [->|].
  - by rewrite lookup_insert_eq, E.
  - by rewrite lookup_insert_ne.
Qed.

Lemma update_state_spec i f h :
  (∀ key, state_of (update_state i f h) key =
     if decide (key = instance_key i) then f (state_of h key) else state_of h key) ∧
  tasks_ (update_state i f h) = tasks_ h ∧ clients_ (update_state i f h) = clients_ h.
Proof.
  unfold update_state. pose proof (StateLocked_spec i h) as (Hs & Hk & Ht & Hc).
  destruct (StateLocked i h) as [st h']. cbn in *. subst st. split_and!; try done.
  intros key. case_decide as E; [subst key|].
  - unfold state_of at 1. cbn. by rewrite lookup_insert_eq.
  - rewrite <- (Hk key). unfold state_of at 1. cbn. rewrite lookup_insert_ne by congruence. done.
Qed.

Lemma state_of_tasks m h key : state_of (set_tasks m h) key = state_of h key.
Proof. done. Qed.

Section Changes.
Context `{Settings}.

(** The commands of a download succeed. *)
Definition run_ok (o : oracle) (i url : bytes) : bool :=
  let media_file := path_append local_dir (i ++ txt ".mp4") in
  let playlist := path_append (hls_dir i) (txt "index.m3u8") in
  let segments := path_append (hls_dir i) (txt "seg_%05d.ts") in
  (runs o (ytdlp_command (path_append local_dir (i ++ txt ".%(ext)s")) url) =? 0) && media_exists o &&
  ((runs o (ffmpeg_copy media_file segments playlist) =? 0) && playlist_copied o ||
   (runs o (ffmpeg_transcode media_file segments playlist) =? 0) && playlist_transcoded o).

Definition forced (i : bytes) (h : Hub) : bool := force_play (default new_task (tasks_ h !! i)).

(** What a step does to the state of the instance [key]. *)
Definition state_change (o : oracle) (a : action) (w : World) (key : bytes) (st : InstanceState) : InstanceState :=
  match a with
  | Advance i => if decide (key = instance_key i) then advanced (now o) st else st
  | Unqueue i k => if decide (key = instance_key i) then unqueued k st else st
  | Play i e => if decide (key = instance_key i) then play e (now o) st else st
  | WorkerRun i k url =>
    if decide (key = instance_key k) then
      if run_ok o i url then (finished (download_entry downloads i url) (forced i (hub w)) (now o) st).2 else st
    else st
  | _ => st
  end.

(** What it does to the tasks. *)
Definition task_change (o : oracle) (a : action) (m : gmap bytes DownloadTask) : gmap bytes DownloadTask :=
  let update i f := <[i := f (default new_task (m !! i))]> m in
  match a with
  | Download _ url _ force _ =>
    <[RandomId (txt "dl_") o := mkTask (RandomId (txt "dl_") o) url (txt "pending") [] new_entry 0 force]> m
  | WorkerStart i _ =>
    update i (λ t, match directories o with
                   | Some what => mkTask (task_id t) (task_url t) (txt "failed")
                                    (txt "download directory error: " ++ what) (entry t) (progress t) (force_play t)
                   | None => mkTask (task_id t) (task_url t) (txt "downloading") (error t) (entry t) 5 (force_play t)
                   end)
  | WorkerRun i _ url =>
    update i (λ t, if run_ok o i url
                   then mkTask (task_id t) (task_url t) (txt "completed") (error t) (download_entry downloads i url) 100 (force_play t)
                   else mkTask (task_id t) (task_url t) (txt "failed")
                          (if (runs o (ytdlp_command (path_append local_dir (i ++ txt ".%(ext)s")) url) =? 0) && media_exists o
                           then txt "ffmpeg hls failed" else txt "yt-dlp failed")
                          (entry t) (progress t) (force_play t))
  | _ => m
  end.

(** A part of the hub stays as it is. *)
Definition hub_parts (h h' : Hub) : Prop := (∀ key, state_of h' key = state_of h key) ∧ tasks_ h' = tasks_ h.

Lemma payload_parts i o h : hub_parts h (StatePayloadJson fixed3 (now o) (server_now o) i h).2.
Proof.
  unfold StatePayloadJson. pose proof (StateLocked_spec i h) as (_ & Hk & Ht & _).
  by destruct (StateLocked i h).
Qed.

Lemma queue_parts i h : hub_parts h (QueueJson i h).2.
Proof.
  unfold QueueJson. pose proof (StateLocked_spec i h) as (_ & Hk & Ht & _).
  by destruct (StateLocked i h).
Qed.

Lemma GetTvingPlaylist_hub o i w : hub (GetTvingPlaylist o i w).2 = hub w.
Proof. unfold GetTvingPlaylist. by repeat case_match. Qed.

Lemma ProxyHls_hub o s req w : hub (ProxyHls o s req w).2 = hub w.
Proof.
  unfold ProxyHls. pose proof (GetTvingPlaylist_hub o (QueryParam (query req) (txt "tving_id")) w) as Hg.
  destruct (GetTvingPlaylist _ _ _) as [p w']. cbn in Hg. by repeat (case_match; simplify_eq/=).
Qed.

Lemma ServeTvingPlaylist_hub o s req w : hub (ServeTvingPlaylist o s req w).2 = hub w.
Proof.
  unfold ServeTvingPlaylist. match goal with |- context [GetTvingPlaylist o ?i w] =>
    pose proof (GetTvingPlaylist_hub o i w) as Hg; destruct (GetTvingPlaylist o i w) as [[]] end; done.
Qed.

Lemma do_cookie_play_after o s body w : after (do_cookie_play o s body w) = w.
Proof. unfold do_cookie_play. by repeat case_match. Qed.

Lemma HandleWsText_parts o s text w : hub_parts (hub w) (hub (after (HandleWsText o s text w))).
Proof. unfold HandleWsText. by repeat case_match. Qed.

Lemma worker_run_parts o i k url w :
  let h := hub (after (worker_run o i k url w)) in
  (∀ key, state_of h key = state_change o (WorkerRun i k url) w key (state_of (hub w) key)) ∧
  tasks_ h = task_change o (WorkerRun i k url) (tasks_ (hub w)).
Proof.
  unfold worker_run, state_change, task_change, run_ok, task_completed.
  match goal with |- context [StateLocked k ?h1] => pose proof (StateLocked_spec k h1) as (Hs & Hk & Ht & _);
    destruct (StateLocked k h1) as [st h'] end.
  cbn [fst snd] in *. subst st. unfold update_task in *. cbn [tasks_ set_tasks] in *.
  match goal with |- context [update_state k ?f h'] => pose proof (update_state_spec k f h') as (Hu & Hut & _) end.
  rewrite lookup_insert_eq in *. cbn [default force_play from_option id] in *.
  destruct (runs o (ytdlp_command _ _) =? 0), (media_exists o); cbn [negb orb andb];
    try (split; [intros key; by case_decide|done]).
  destruct (runs o (ffmpeg_copy _ _ _) =? 0), (playlist_copied o); cbn [negb orb andb];
    repeat case_match; cbn [after set_hub hub];
    first [split; [intros key; rewrite Hu, Hk; done|by rewrite Hut]|split; [intros key; by case_decide|done]].
Qed.

(** What an action does to the instances and the tasks. *)
Lemma act_parts o a w :
  let h := hub (after (act o a w)) in
  (∀ key, state_of h key = state_change o a w key (state_of (hub w) key)) ∧
  tasks_ h = task_change o a (tasks_ (hub w)).
Proof.
  destruct a; try (by apply worker_run_parts); cbn [act state_change task_change]; try done.
  - unfold OnRecv. repeat case_match; done.
  - unfold http_round. repeat case_match; done.
  - unfold leave, Remove. repeat case_match; simplify_eq/=; done.
  - unfold upgrade. repeat case_match; done.
  - pose proof (ProxyHls_hub o s req w) as Hh. destruct (ProxyHls _ _ _ _). cbn in *. by rewrite Hh.
  - by rewrite do_cookie_play_after.
  - pose proof (ServeTvingPlaylist_hub o s req w) as Hh. destruct (ServeTvingPlaylist _ _ _ _). cbn in *. by rewrite Hh.
  - apply HandleWsText_parts.
  - pose proof (payload_parts instance_id o (hub w)) as Hh. destruct (StatePayloadJson _ _ _ _ _). exact Hh.
  - pose proof (queue_parts instance_id (hub w)) as Hh. destruct (QueueJson _ _). exact Hh.
  - destruct (update_state_spec instance_id (advanced (now o)) (hub w)) as (? & ? & _). by split.
  - destruct (update_state_spec instance_id (unqueued i) (hub w)) as (? & ? & _). by split.
  - destruct (update_state_spec instance_id (play e (now o)) (hub w)) as (? & ? & _). by split.
  - unfold broadcast_state. pose proof (payload_parts instance_id o (hub w)) as Hh.
    destruct (StatePayloadJson _ _ _ _ _). exact Hh.
  - unfold worker_start. by destruct (directories o).
Qed.

(** ** Playback *)

(** The player an instance promises: one entry plays, others wait. *)
Record player := mkPlayer { playing : option QueueEntry; waiting : list QueueEntry }.

Inductive play_event :=
| Finished (e : QueueEntry) (force : bool)    (* a download is done *)
| NextEntry                                   (* the entry that plays is over *)
| Take (i : bytes)                            (* a waiting entry is taken out *)
| Show (e : QueueEntry).                      (* an entry that plays at once *)

Definition apply_event (p : player) (ev : play_event) : player :=
  match ev with
  | Finished e force =>
    if force || bool_decide (playing p = None) then mkPlayer (Some e) (waiting p)
    else mkPlayer (playing p) (waiting p ++ [e])
  | NextEntry => mkPlayer (head (waiting p)) (tail (waiting p))
  | Take i => mkPlayer (playing p) (filter (λ e, entry_id e ≠ i) (waiting p))
  | Show e => mkPlayer (Some e) (waiting p)
  end.

Definition player_of (st : InstanceState) : player :=
  mkPlayer (if bool_decide (current_video_url st = []) then None else Some (metadata st)) (queue st).

(** The event a step is to an instance. *)
Definition event_of (key : bytes) (l : label) : list play_event :=
  let on i ev := if decide (key = instance_key i) then [ev] else [] in
  match did l with
  | Advance i => on i NextEntry
  | Unqueue i k => on i (Take k)
  | Play i e => on i (Show e)
  | WorkerRun i k url =>
    if run_ok (learned l) i url
    then on k (Finished (download_entry downloads i url) (forced i (hub (before l)))) else []
  | _ => []
  end.

(** The fields of an instance fit together: it plays exactly when it has an address, the
    address is that of the entry shown, and while nothing plays nothing waits. *)
Record consistent (st : InstanceState) : Prop := {
  idle : current_video_url st = [] → is_playing st = false ∧ queue st = [];
  busy : current_video_url st ≠ [] → is_playing st = true ∧ entry_url (metadata st) = current_video_url st;
  playable : Forall (λ e, entry_url e ≠ []) (queue st);
}.

Definition action_ok (a : action) : Prop := match a with Play _ e => entry_url e ≠ [] | _ => True end.

Lemma consistent_new : consistent new_state.
Proof. by split. Qed.

Lemma play_consistent e t st : entry_url e ≠ [] → consistent st → consistent (play e t st).
Proof. intros He [Hi Hb Hp]. by split. Qed.

Lemma set_queue_consistent q st : consistent st → Forall (λ e, entry_url e ≠ []) q →
  (current_video_url st = [] → q = []) → consistent (set_queue q st).
Proof. intros [Hi Hb Hp] Hq Hn. split; cbn; [|done|done]. intros Hu. split; [by apply Hi|auto]. Qed.

Lemma player_of_play e t st : entry_url e ≠ [] → player_of (play e t st) = mkPlayer (Some e) (queue st).
Proof. intros He. unfold player_of. cbn. by rewrite bool_decide_eq_false_2. Qed.

Lemma advanced_spec t st : consistent st →
  consistent (advanced t st) ∧ player_of (advanced t st) = apply_event (player_of st) NextEntry.
Proof.
  intros [Hi Hb Hp]. unfold advanced. destruct (queue st) as [|e rest] eqn:Eq.
  - split; [by split|]. unfold player_of; cbn; by rewrite Eq.
  - apply Forall_cons in Hp as [He Hr]. split; [by split|].
    rewrite player_of_play by done. unfold player_of; cbn; by rewrite Eq.
Qed.

Lemma unqueued_spec i st : consistent st →
  consistent (unqueued i st) ∧ player_of (unqueued i st) = apply_event (player_of st) (Take i).
Proof.
  intros Hst. split; [|done]. apply set_queue_consistent; [done| |].
  - apply Forall_forall. intros e [_ He]%list_elem_of_filter. revert e He. apply Forall_forall, Hst.
  - intros [_ ->]%(idle _ Hst). done.
Qed.

Lemma finished_spec e force t st : entry_url e ≠ [] → consistent st →
  consistent (finished e force t st).2 ∧
  player_of (finished e force t st).2 = apply_event (player_of st) (Finished e force).
Proof.
  intros He Hst. unfold finished. cbn.
  assert (bool_decide (current_video_url st = []) && negb (is_playing st) = bool_decide (current_video_url st = [])) as ->.
  { case_bool_decide as Eu; [|done]. by rewrite (proj1 (idle _ Hst Eu)). }
  assert (bool_decide ((if bool_decide (current_video_url st = []) then None else Some (metadata st)) = None) =
          bool_decide (current_video_url st = [])) as ->.
  { destruct (bool_decide (current_video_url st = [])); [by apply bool_decide_eq_true_2|by apply bool_decide_eq_false_2]. }
  destruct (force || _) eqn:Ef; cbn.
  - split; [by apply play_consistent|by apply player_of_play].
  - split; [|done]. apply orb_false_iff in Ef as [_ Hne%bool_decide_eq_false_1].
    apply set_queue_consistent; [done| |done]. apply Forall_app. split; [apply Hst|by repeat constructor].
Qed.

Lemma download_url i url : entry_url (download_entry downloads i url) ≠ [].
Proof. done. Qed.

(** A step is what its event is to the player. *)
Lemma change_refines o a w th key st : action_ok a → consistent st →
  consistent (state_change o a w key st) ∧
  player_of (state_change o a w key st) = foldl apply_event (player_of st) (event_of key (mkLabel th o a w)).
Proof.
  intros Ha Hst. destruct a; cbn [state_change event_of did learned before]; try done;
    try (destruct (decide (key = _)); cbn [foldl]; [|done]).
  - by apply advanced_spec.
  - by apply unqueued_spec.
  - split; [by apply play_consistent|by apply player_of_play].
  - destruct (run_ok _ _ _); destruct (decide (key = _)); cbn [foldl]; try done. by apply finished_spec.
Qed.

(** The actions that follow are fit to run. *)
Lemma HandleHttp_ok s req : Forall action_ok (HandleHttp s req).
Proof.
  unfold HandleHttp, download_route, remove_route.
  repeat match goal with |- context [if ?b then _ else _] => destruct b end; by repeat constructor.
Qed.

Lemma next_ok o a w : Forall action_ok (next (act o a w)) ∧ Forall (Forall action_ok) (option_list (spawned (act o a w))).
Proof.
  destruct a; cbn [act]; try (split; by repeat constructor).
  - unfold OnRecv. destruct (websocket_ _); [|by repeat constructor].
    destruct (default _ _) as [b acts]. split; [|done]. cbn. apply Forall_fmap, Forall_true. by intros [].
  - unfold http_round. destruct (TryParseHttp _); [done|done|]. split; [|done]. cbn.
    apply Forall_app. split; [apply HandleHttp_ok|by repeat constructor].
  - cbn. destruct (_ || _); by repeat constructor.
  - unfold leave. destruct (Remove _ _). cbn. case_bool_decide; by repeat constructor.
  - unfold upgrade. by case_match.
  - by destruct (ProxyHls _ _ _ _).
  - unfold do_cookie_play. repeat case_match; by repeat constructor.
  - by destruct (ServeTvingPlaylist _ _ _ _).
  - unfold HandleWsText. repeat case_match; by repeat constructor.
  - by destruct (StatePayloadJson _ _ _ _ _).
  - by destruct (QueueJson _ _).
  - unfold broadcast_state. destruct (StatePayloadJson _ _ _ _ _). by repeat constructor.
  - unfold worker_start. destruct (directories o); by repeat constructor.
  - unfold worker_run. destruct (task_completed _ _ _ _ _). repeat case_match; by repeat constructor.
Qed.

Definition threads_ok (s : System) : Prop := Forall action_ok (ring s) ∧ Forall (Forall action_ok) (workers s).

Lemma spawn_ok ws t : Forall (Forall action_ok) ws → Forall (Forall action_ok) (option_list t) →
  Forall (Forall action_ok) (spawn ws t).
Proof. destruct t; cbn; [|done]. intros ? ?. by apply Forall_app. Qed.

Lemma step_ok s l s' : step s l s' → threads_ok s → threads_ok s'.
Proof.
  intros [] [Hr Hw].
  - split; [|done]. repeat constructor. by destruct a.
  - destruct (next_ok o a (world s0)) as [Hn Hs]. split; cbn; [|by apply spawn_ok].
    apply Forall_app. split; [done|]. rewrite H0 in Hr. by apply Forall_cons in Hr as [_ ?].
  - destruct (next_ok o a (world s0)) as [Hn Hs]. split; cbn; [done|]. apply spawn_ok; [|done].
    apply Forall_insert; [done|]. apply Forall_app. split; [done|].
    eapply Forall_lookup_1 in Hw; [|done]. by apply Forall_cons in Hw as [_ ?].
Qed.

Lemma run_ok_threads s ls s' : run s ls s' → threads_ok s → threads_ok s'.
Proof. induction 1; [done|]. intros. eapply step_ok; [done|auto]. Qed.

Definition instance (s : System) (key : bytes) : InstanceState := state_of (hub (world s)) key.

Lemma step_play s l s' key : step s l s' → threads_ok s → consistent (instance s key) →
  consistent (instance s' key) ∧
  player_of (instance s' key) = foldl apply_event (player_of (instance s key)) (option_list l ≫= event_of key).
Proof.
  intros [] [Hr Hw] Hc; cbn [option_list option_rect mbind list_bind]; [done| |]; rewrite app_nil_r;
    unfold instance in *; cbn [world]; subst e; rewrite (proj1 (act_parts o a (world s0)) key).
  - apply change_refines; [|done]. rewrite H0 in Hr. by apply Forall_cons in Hr as [? _].
  - apply change_refines; [|done]. eapply Forall_lookup_1 in Hw; [|done]. by apply Forall_cons in Hw as [? _].
Qed.
End Changes.

(** C15: whatever requests arrive, however the threads of the downloads run between them and
    whatever they learn, each instance plays what a player would that is told, in the order
    in which the hub was locked, of the finished downloads, the advances, the removals and
    the entries shown at once: a finished entry starts when nothing plays or when it was
    asked to, else it waits behind the others, and an advance plays the first that waits.
    The fields of the instance always fit together: it is playing exactly when it has an
    address, that of the entry it shows, and nothing waits while nothing plays. *)
Theorem playback_refines `{Settings} ls s key : run start ls s →
  consistent (instance s key) ∧
  player_of (instance s key) = foldl apply_event (mkPlayer None []) (ls ≫= event_of key).
Proof.
  intros Hrun. assert (threads_ok start) as Hok by done.
  remember start as s0 eqn:Es. induction Hrun as [|s0 ls s1 l s2 Hrun IH Hstep].
  - subst. by split; [apply consistent_new|].
  - destruct (IH Es Hok) as [Hc Hp]. rewrite bind_app, foldl_app, <- Hp.
    apply (step_play s1); [done| |done]. by eapply run_ok_threads.
Qed.

(** ** Downloads *)

Section Downloads.
Context `{Settings}.

Definition is_broadcast (a : action) : Prop :=
  match a with BroadcastText _ _ | BroadcastState _ _ => True | _ => False end.

(** The actions of a download's thread; the others are the ring's. *)
Definition is_worker (a : action) : Prop :=
  match a with WorkerStart _ _ | WorkerRun _ _ _ => True | _ => False end.

(** The steps an action takes at most, with those that follow from it. *)
Definition weight (a : action) : nat :=
  match a with WorkerStart _ _ => 6 | WorkerRun _ _ _ => 4 | BroadcastState _ _ => 2 | _ => 1 end.
Definition thread_weight (th : list action) : nat := sum_list_with weight th.

(** Where a download is, with what its thread has still to do. *)
Inductive life (i : bytes) (t : DownloadTask) : list action → Prop :=
| life_pending k : status t = txt "pending" → life i t [WorkerStart i k]
| life_downloading bs k : status t = txt "downloading" → Forall is_broadcast bs →
    life i t (bs ++ [WorkerRun i k (task_url t)])
| life_failed bs : status t = txt "failed" → error t ≠ [] → Forall is_broadcast bs → life i t bs
| life_completed bs : status t = txt "completed" → progress t = 100 →
    entry t = download_entry downloads i (task_url t) → Forall is_broadcast bs → life i t bs.

(** The steps of a worker. *)
Definition steps_of (k : nat) (ls : list label) : nat := length (filter (λ l, thread l = Some k) ls).

(** The request a task comes from. *)
Definition asked (ls : list label) (i : bytes) (t : DownloadTask) : Prop :=
  task_id t = i ∧ ∃ l s k message, l ∈ ls ∧ did l = Download s (task_url t) k (force_play t) message ∧
    i = RandomId (txt "dl_") (learned l).

(** *** Single steps *)

Lemma broadcast_step o a w : is_broadcast a →
  Forall is_broadcast (next (act o a w)) ∧ spawned (act o a w) = None ∧
  tasks_ (hub (after (act o a w))) = tasks_ (hub w) ∧ (thread_weight (next (act o a w)) < weight a)%nat.
Proof.
  intros Ha. rewrite (proj2 (act_parts o a w)). destruct a; try done; cbn [act].
  - split_and!; [by repeat constructor|done|done|cbn; lia].
  - unfold broadcast_state. destruct (StatePayloadJson _ _ _ _ _).
    split_and!; [by repeat constructor|done|done|cbn; lia].
Qed.

Lemma start_step o i k w t : tasks_ (hub w) !! i = Some t → status t = txt "pending" →
  let e := act o (WorkerStart i k) w in
  ∃ t', tasks_ (hub (after e)) = <[i := t']> (tasks_ (hub w)) ∧ life i t' (next e) ∧ spawned e = None ∧
    task_id t' = task_id t ∧ task_url t' = task_url t ∧ force_play t' = force_play t ∧
    (thread_weight (next e) < 6)%nat.
Proof.
  intros Ht Hs e. unfold e. rewrite (proj2 (act_parts o (WorkerStart i k) w)).
  cbn [task_change act]. rewrite Ht. cbn. unfold worker_start. destruct (directories o) as [what|].
  - eexists. split; [done|]. split_and!; try done; [|cbn; lia].
    apply life_failed; [done|done|by repeat constructor].
  - unfold task_started, update_task. cbn [tasks_ set_tasks]. rewrite lookup_insert_eq, Ht. cbn.
    eexists. split; [done|]. split_and!; try done; [|lia].
    match goal with |- life i ?t' [?b; ?r] => apply (life_downloading i t' [b] k) end; [done|by repeat constructor].
Qed.

Lemma run_worker_step o i k w t : tasks_ (hub w) !! i = Some t →
  let e := act o (WorkerRun i k (task_url t)) w in
  ∃ t', tasks_ (hub (after e)) = <[i := t']> (tasks_ (hub w)) ∧ life i t' (next e) ∧ spawned e = None ∧
    task_id t' = task_id t ∧ task_url t' = task_url t ∧ force_play t' = force_play t ∧
    (thread_weight (next e) < 4)%nat.
Proof.
  intros Ht e. unfold e. rewrite (proj2 (act_parts o (WorkerRun i k (task_url t)) w)).
  cbn [task_change act]. rewrite Ht. cbn [default from_option id].
  eexists. split; [reflexivity|].
  assert (Hb : ∀ inst text, Forall is_broadcast [BroadcastText inst text]) by (by repeat constructor).
  assert (Hb' : ∀ inst k text, Forall is_broadcast [BroadcastState inst k; BroadcastText inst text])
    by (by repeat constructor).
  unfold worker_run, run_ok. destruct (task_completed _ _ _ _ _) as [autostart h'].
  destruct (runs o (ytdlp_command _ _) =? 0), (media_exists o),
    (runs o (ffmpeg_copy _ _ _) =? 0), (playlist_copied o),
    (runs o (ffmpeg_transcode _ _ _) =? 0), (playlist_transcoded o); cbn [negb orb andb];
    (split_and!; [|done|done|done|done|cbn; lia]);
    first [apply life_failed; [done|done|apply Hb]|apply life_completed; [done|done|done|apply Hb']].
Qed.

(** What the ring's thread does. *)
Lemma HandleHttp_ring s req : Forall (λ a, ¬ is_worker a) (HandleHttp s req).
Proof.
  unfold HandleHttp, download_route, remove_route.
  repeat match goal with |- context [if ?b then _ else _] => destruct b end; repeat constructor; tauto.
Qed.

Lemma ring_step_next o a w : ¬ is_worker a →
  Forall (λ a, ¬ is_worker a) (next (act o a w)) ∧
  ((spawned (act o a w) = None ∧ tasks_ (hub (after (act o a w))) = tasks_ (hub w)) ∨
   ∃ s url k force message, a = Download s url k force message ∧
     let i := RandomId (txt "dl_") o in
     spawned (act o a w) = Some [WorkerStart i k] ∧
     tasks_ (hub (after (act o a w))) = <[i := mkTask i url (txt "pending") [] new_entry 0 force]> (tasks_ (hub w))).
Proof.
  intros Ha. rewrite (proj2 (act_parts o a w)).
  destruct a; cbn [is_worker] in Ha; try (by destruct Ha); cbn [act task_change]; try (split; [repeat constructor; tauto|by left]).
  - unfold OnRecv. destruct (websocket_ _); [|split; [repeat constructor; tauto|by left]].
    destruct (default _ _) as [b acts]. split; [|by left]. cbn. apply Forall_fmap, Forall_true. by intros [].
  - unfold http_round. destruct (TryParseHttp _); [by split; [constructor|left]..|]. split; [|by left]. cbn.
    apply Forall_app. split; [apply HandleHttp_ring|repeat constructor; tauto].
  - split; [|by left]. cbn. destruct (_ || _); repeat constructor; tauto.
  - unfold leave. destruct (Remove _ _). split; [|by left]. cbn. case_bool_decide; repeat constructor; tauto.
  - unfold upgrade. by case_match; split; [constructor|left|constructor|left].
  - destruct (ProxyHls _ _ _ _). by split; [constructor|left].
  - unfold do_cookie_play. repeat case_match; (split; [repeat constructor; tauto|by left]).
  - destruct (ServeTvingPlaylist _ _ _ _). by split; [constructor|left].
  - unfold HandleWsText. repeat case_match; (split; [repeat constructor; tauto|by left]).
  - destruct (StatePayloadJson _ _ _ _ _). by split; [constructor|left].
  - destruct (QueueJson _ _). by split; [constructor|left].
  - split; [repeat constructor; tauto|]. right. by eexists _, _, _, _, _.
  - unfold broadcast_state. destruct (StatePayloadJson _ _ _ _ _). split; [repeat constructor; tauto|by left].
Qed.

(** *** The invariant *)

(** The thread [th] of worker [k] and its task [i]. *)
Definition attended (ls : list label) (m : gmap bytes DownloadTask) (k : nat) (i : bytes) (th : list action) : Prop :=
  ∃ t, m !! i = Some t ∧ life i t th ∧ asked ls i t ∧ (steps_of k ls + thread_weight th ≤ 6)%nat.

(** Each task has one worker of its own. *)
Definition tended (ls : list label) (s : System) : Prop :=
  Forall (λ a, ¬ is_worker a) (ring s) ∧
  (∀ k l, l ∈ ls → thread l = Some k → (k < length (workers s))%nat) ∧
  ∃ owners : list bytes, NoDup owners ∧
    (∀ i, is_Some (tasks_ (hub (world s)) !! i) → i ∈ owners) ∧ length owners = length (workers s) ∧
    ∀ k i th, owners !! k = Some i → workers s !! k = Some th → attended ls (tasks_ (hub (world s))) k i th.

Lemma asked_mono ls l i t : asked ls i t → asked (ls ++ l) i t.
Proof.
  intros (Hi & l' & s & k & m & Hl & H'). split; [done|]. exists l', s, k, m.
  split; [|done]. apply elem_of_app. by left.
Qed.

Lemma steps_of_app k ls l : steps_of k (ls ++ l) = (steps_of k ls + steps_of k l)%nat.
Proof. unfold steps_of. by rewrite filter_app, length_app. Qed.

Lemma steps_of_other k th o a w : th ≠ Some k → steps_of k [mkLabel th o a w] = 0%nat.
Proof. intros Hn. unfold steps_of. by rewrite filter_cons_False. Qed.

Lemma steps_of_own k o a w : steps_of k [mkLabel (Some k) o a w] = 1%nat.
Proof. unfold steps_of. by rewrite filter_cons_True. Qed.

Lemma steps_of_new k ls : (∀ l, l ∈ ls → thread l ≠ Some k) → steps_of k ls = 0%nat.
Proof.
  intros Hn. unfold steps_of. induction ls as [|l ls IH]; [done|].
  rewrite filter_cons_False by (apply Hn; by left). apply IH. intros l' Hl'. apply Hn. by right.
Qed.

(** A worker whose task is not touched. *)
Lemma attended_other ls m m' k i th l : attended ls m k i th → m' !! i = m !! i → steps_of k l = 0%nat →
  attended (ls ++ l) m' k i th.
Proof.
  intros (t & Ht & Hl & Ha & Hw) Hm Hs. exists t. rewrite Hm, steps_of_app, Hs.
  split_and!; [done|done|by apply asked_mono|lia].
Qed.

(** A task that its own worker moved on. *)
Lemma attended_own ls m k i t t' th l : m !! i = Some t → asked ls i t → life i t' th →
  task_id t' = task_id t → task_url t' = task_url t → force_play t' = force_play t →
  (steps_of k (ls ++ l) + thread_weight th ≤ 6)%nat →
  attended (ls ++ l) (<[i := t']> m) k i th.
Proof.
  intros Hm Ha Hl Hi Hu Hf Hw. exists t'. rewrite lookup_insert_eq. split_and!; [done|done| |done].
  apply asked_mono. destruct Ha as (? & l' & s & kk & msg & ? & ? & ?).
  split; [congruence|]. exists l', s, kk, msg. by rewrite Hu, Hf.
Qed.

(** The step of a worker with its own task. *)
Lemma attended_step ls m k i o a rest w : tasks_ (hub w) = m → attended ls m k i (a :: rest) →
  let e := act o a w in
  spawned e = None ∧ attended (ls ++ [mkLabel (Some k) o a w]) (tasks_ (hub (after e))) k i (next e ++ rest) ∧
  (∀ j, j ≠ i → tasks_ (hub (after e)) !! j = m !! j).
Proof.
  intros <- (t & Ht & Hl & Ha & Hw) e.
  assert (Hc : ∀ bs, Forall is_broadcast (a :: bs) → rest = bs ∨ (∃ k', rest = bs ++ [WorkerRun i k' (task_url t)]) →
    life i t (next e ++ rest) → spawned e = None ∧
    attended (ls ++ [mkLabel (Some k) o a w]) (tasks_ (hub (after e))) k i (next e ++ rest) ∧
    ∀ j, j ≠ i → tasks_ (hub (after e)) !! j = tasks_ (hub w) !! j).
  { intros bs [Hb _]%Forall_cons _ Hlife. destruct (broadcast_step o a w Hb) as (_ & Hs & Hm & Hlt).
    split_and!; [done| |by unfold e; rewrite Hm]. unfold e. rewrite Hm. exists t.
    rewrite steps_of_app, steps_of_own. unfold thread_weight in *. rewrite sum_list_with_app. cbn in Hw.
    split_and!; [done|done|by apply asked_mono|lia]. }
  assert (Hn : ∀ bs, Forall is_broadcast (a :: bs) → Forall is_broadcast (next e ++ bs)).
  { intros bs [Hb Hbs]%Forall_cons. apply Forall_app. split; [|done]. by apply broadcast_step. }
  inversion Hl as [k0 Hs Hth|bs k0 Hs Hbs Hth|bs Hs He Hbs Hth|bs Hs Hp He Hbs Hth]; [subst a rest| |subst bs..].
  - destruct (start_step o i k0 w t Ht Hs) as (t' & Hm & Hl' & Hsp & H1 & H2 & H3 & Hlt). fold e in Hm, Hl', Hsp, Hlt.
    split_and!; [done| |intros j Hj; by rewrite Hm, lookup_insert_ne]. rewrite app_nil_r, Hm.
    eapply attended_own; try done. rewrite steps_of_app, steps_of_own. cbn in Hw. lia.
  - destruct bs as [|b bs]; cbn [app] in Hth; injection Hth as <- <-.
    + destruct (run_worker_step o i k0 w t Ht) as (t' & Hm & Hl' & Hsp & H1 & H2 & H3 & Hlt). fold e in Hm, Hl', Hsp, Hlt.
      split_and!; [done| |intros j Hj; by rewrite Hm, lookup_insert_ne]. rewrite app_nil_r, Hm.
      eapply attended_own; try done. rewrite steps_of_app, steps_of_own. cbn in Hw. lia.
    + apply (Hc bs); [done|right; by eexists|]. rewrite app_assoc. apply life_downloading; [done|by apply Hn].
  - apply (Hc rest); [done|by left|]. apply life_failed; [done|done|by apply Hn].
  - apply (Hc rest); [done|by left|]. apply life_completed; [done|done|done|by apply Hn].
Qed.

Lemma NoDup_other (l : list bytes) j k i i' : NoDup l → l !! k = Some i → l !! j = Some i' → j ≠ k → i' ≠ i.
Proof. intros Hd Hk Hj Hne ->. by eapply Hne, NoDup_lookup. Qed.

(** The ring's thread does not start a download. *)
Lemma tended_ring ls s o a rest : ring s = a :: rest → ¬ is_worker a → tended ls s →
  let e := act o a (world s) in
  spawned e = None → tasks_ (hub (after e)) = tasks_ (hub (world s)) →
  Forall (λ a, ¬ is_worker a) (next e) →
  tended (ls ++ [mkLabel None o a (world s)])
    (mkSystem (after e) (next e ++ rest) (spawn (workers s) (spawned e)) (log s ++ outs e)).
Proof.
  intros Hr Ha (Hring & Hth & owners & Hd & Ho & Hlen & Hat) e Hs Hm Hn. rewrite Hs. cbn [spawn].
  rewrite Hr in Hring. apply Forall_cons in Hring as [_ Hring].
  split; [by apply Forall_app|]. split.
  { intros k l [Hl|Hl]%elem_of_app; [by apply Hth|]. apply list_elem_of_singleton in Hl as ->. done. }
  exists owners. cbn [hub world workers]. rewrite Hm. split_and!; try done.
  intros k i th Hk Hw. apply attended_other with (m := tasks_ (hub (world s))); [by apply Hat|done|by apply steps_of_other].
Qed.

(** It starts one. *)
Lemma tended_download ls s o sess url inst force message rest : ring s = Download sess url inst force message :: rest →
  tasks_ (hub (world s)) !! RandomId (txt "dl_") o = None → tended ls s →
  let a := Download sess url inst force message in let e := act o a (world s) in
  tended (ls ++ [mkLabel None o a (world s)])
    (mkSystem (after e) (next e ++ rest) (spawn (workers s) (spawned e)) (log s ++ outs e)).
Proof.
  intros Hr Hfresh (Hring & Hth & owners & Hd & Ho & Hlen & Hat) a e.
  destruct (ring_step_next o a (world s)) as [Hn [[H' _]|(? & ? & ? & ? & ? & [= <- <- <- <- <-] & Hs & Hm)]]; [intros []|done|].
  fold e in Hs, Hm, Hn. set (i := RandomId (txt "dl_") o) in *. rewrite Hs. cbn [spawn].
  rewrite Hr in Hring. apply Forall_cons in Hring as [_ Hring].
  assert (Hi : i ∉ owners).
  { intros [k Hk]%list_elem_of_lookup. destruct (lookup_lt_is_Some_2 (workers s) k) as [th Hw].
    { rewrite <- Hlen. by eapply lookup_lt_Some. }
    destruct (Hat k i th Hk Hw) as (t & Ht & _). by rewrite Hfresh in Ht. }
  split; [by apply Forall_app|]. split.
  { intros k l [Hl|Hl]%elem_of_app Ht.
    - cbn. rewrite length_app. pose proof (Hth k l Hl Ht). lia.
    - apply list_elem_of_singleton in Hl as ->. done. }
  exists (owners ++ [i]). cbn [hub world workers]. rewrite Hm. split_and!.
  - apply NoDup_app. split_and!; [done|set_solver|apply NoDup_singleton].
  - intros j Hj. apply elem_of_app. destruct (decide (j = i)) as [->|]; [right; by left|left].
    apply Ho. by rewrite lookup_insert_ne in Hj.
  - rewrite !length_app. cbn. lia.
  - intros k j th [Hk|[Hk Hj]]%lookup_app_Some [Hw|[Hw Hth']]%lookup_app_Some.
    + apply attended_other with (m := tasks_ (hub (world s))); [by apply Hat| |by apply steps_of_other].
      apply lookup_insert_ne. intros <-. apply Hi. by eapply list_elem_of_lookup_2.
    + apply lookup_lt_Some in Hk. lia.
    + apply lookup_lt_Some in Hw. lia.
    + apply list_lookup_singleton_Some in Hj as [Hk0 <-]. apply list_lookup_singleton_Some in Hth' as [_ <-].
      eexists. rewrite lookup_insert_eq. split_and!; [done|by apply life_pending| |].
      * split; [done|]. eexists _, _, _, _. split; [apply elem_of_app; right; by left|done].
      * rewrite steps_of_app, (steps_of_other k) by done.
        rewrite (steps_of_new k ls) by (intros l Hl E; pose proof (Hth k l Hl E); lia). cbn. lia.
Qed.

(** A worker's step. *)
Lemma tended_worker ls s o k a rest : workers s !! k = Some (a :: rest) → tended ls s →
  let e := act o a (world s) in
  tended (ls ++ [mkLabel (Some k) o a (world s)])
    (mkSystem (after e) (ring s) (spawn (<[k := next e ++ rest]> (workers s)) (spawned e)) (log s ++ outs e)).
Proof.
  intros Hk (Hring & Hth & owners & Hd & Ho & Hlen & Hat) e.
  assert (k < length (workers s))%nat as Hlt by (by eapply lookup_lt_Some).
  destruct (lookup_lt_is_Some_2 owners k) as [i Hi]; [by rewrite Hlen|].
  destruct (attended_step ls (tasks_ (hub (world s))) k i o a rest (world s) eq_refl (Hat k i _ Hi Hk))
    as (Hs & Hown & Hothers). fold e in Hs, Hown, Hothers. rewrite Hs. cbn [spawn].
  split; [done|]. split.
  { intros k' l [Hl|Hl]%elem_of_app Ht; cbn; rewrite length_insert; [by eapply Hth|].
    apply list_elem_of_singleton in Hl as ->. by injection Ht as <-. }
  exists owners. cbn [hub world workers]. split_and!; [done| |by rewrite length_insert|].
  - intros j Hj. destruct (decide (j = i)) as [->|]; [by eapply list_elem_of_lookup_2|].
    apply Ho. by rewrite <- Hothers.
  - intros k' j th Hj Hw. destruct (decide (k' = k)) as [->|Hne].
    + rewrite list_lookup_insert_eq in Hw by done. injection Hw as <-. rewrite Hi in Hj. by injection Hj as <-.
    + rewrite list_lookup_insert_ne in Hw by done.
      apply attended_other with (m := tasks_ (hub (world s))); [by apply Hat| |apply steps_of_other; congruence].
      apply Hothers. by eapply NoDup_other.
Qed.

Lemma tended_run ls s : run start ls s → tended ls s.
Proof.
  remember start as s0 eqn:Es. induction 1 as [|s0 ls s1 l s2 Hrun IH Hstep]; subst.
  { split; [done|]. split; [intros k l Hl; by apply not_elem_of_nil in Hl|].
    exists []. split_and!; [constructor| |done|intros k i th Hk; by rewrite lookup_nil in Hk].
    intros i [? Hi]. done. }
  specialize (IH eq_refl). destruct Hstep as [s a Ha Hr|s o a rest Hr Hfresh e|s o k a rest Hk e]; cbn [option_list option_rect].
  - rewrite app_nil_r. destruct IH as (_ & IH). split; [|done]. repeat constructor. by destruct a; intros [].
  - assert (¬ is_worker a) as Ha by (destruct IH as [Hring _]; rewrite Hr in Hring; by apply Forall_cons in Hring as [? _]).
    destruct (ring_step_next o a (world s) Ha) as [Hn [[Hs Hm]|(? & ? & ? & ? & ? & -> & _)]].
    + by apply tended_ring.
    + by apply tended_download.
  - by apply tended_worker.
Qed.

End Downloads.

(** C16: every download the server accepted is the one a client asked for, and it settles.
    Whatever else runs and whatever the commands do, each task has one thread of its own
    and is either waiting for it, downloading, failed with an error, or completed with the
    entry made from its URL; the thread can always take its next step, takes at most six
    in all, and when it has none left the task has failed or completed. *)
Theorem downloads_settle `{Settings} ls s i t : run start ls s → tasks_ (hub (world s)) !! i = Some t →
  asked ls i t ∧
  ∃ k th, workers s !! k = Some th ∧ life i t th ∧ (steps_of k ls + thread_weight th ≤ 6)%nat ∧
    (th ≠ [] → ∀ o, ∃ l s', thread l = Some k ∧ learned l = o ∧ step s (Some l) s') ∧
    (th = [] → status t = txt "failed" ∨ status t = txt "completed").
Proof.
  intros (_ & _ & owners & _ & Ho & Hlen & Hat)%tended_run Ht.
  assert (i ∈ owners) as [k Hk]%list_elem_of_lookup by (apply Ho; by eexists).
  destruct (lookup_lt_is_Some_2 (workers s) k) as [th Hw]; [rewrite <- Hlen; by eapply lookup_lt_Some|].
  destruct (Hat k i th Hk Hw) as (t' & Ht' & Hl & Ha & Hle). rewrite Ht in Ht'. injection Ht' as <-.
  split; [done|]. exists k, th. split_and!; [done|done|done| |].
  - intros Hne o. destruct th as [|a rest]; [done|]. eexists _, _. split; [|split; [|by eapply step_worker]]; done.
  - intros ->. inversion Hl as [|bs ? ? ? Hnil| |]; [|by left|by right]. by destruct bs.
Qed.

(** ** Broadcasts *)

(** A text broadcast to an instance is posted once to each session that is registered
    there and still exists, and to no other; the sessions that are gone are forgotten,
    whatever instance they were in, and no other is. *)
Theorem broadcast_exact `{Settings} o instance_id text w :
  let e := act o (BroadcastText instance_id text) w in
  NoDup (outs e) ∧
  (∀ x, x ∈ outs e ↔ ∃ s c, x = Posted s text ∧ clients_ (hub w) !! s = Some c ∧
     live o s = true ∧ client_instance c = instance_id) ∧
  (∀ s, clients_ (hub (after e)) !! s = if live o s then clients_ (hub w) !! s else None).
Proof.
  cbn. split_and!.
  - apply NoDup_fmap; [by intros ? ? [= ->]|]. apply NoDup_fst_map_to_list.
  - intros x. rewrite list_elem_of_fmap. split.
    + intros (s & -> & [[s' c] [-> Hin]]%list_elem_of_fmap). apply elem_of_map_to_list in Hin.
      rewrite !map_lookup_filter_Some in Hin. destruct Hin as [[? ?] ?]. by exists s', c.
    + intros (s & c & -> & Hc & Hl & Hi). exists s. split; [done|]. apply list_elem_of_fmap.
      exists (s, c). split; [done|]. apply elem_of_map_to_list. by rewrite !map_lookup_filter_Some.
  - intros s. rewrite map_lookup_filter. destruct (clients_ (hub w) !! s) as [c|] eqn:E; cbn; [|by destruct (live o s)].
    case_guard as Hl; cbn in Hl; destruct (live o s); done.
Qed.

(** ** Runs that can be evaluated *)

Inductive turn := Take_up (a : action) | Ring_turn | Worker_turn (k : nat).

Section Exec.
Context `{Settings}.

Definition exec_turn (o : oracle) (t : turn) (s : System) : option (list label * System) :=
  match t with
  | Take_up a => if bool_decide (ring s = []) then Some ([], mkSystem (world s) [a] (workers s) (log s)) else None
  | Ring_turn =>
    match ring s with
    | a :: rest =>
      if bool_decide (tasks_ (hub (world s)) !! RandomId (txt "dl_") o = None) then
        let e := act o a (world s) in
        Some ([mkLabel None o a (world s)],
              mkSystem (after e) (next e ++ rest) (spawn (workers s) (spawned e)) (log s ++ outs e))
      else None
    | [] => None
    end
  | Worker_turn k =>
    match workers s !! k with
    | Some (a :: rest) =>
      let e := act o a (world s) in
      Some ([mkLabel (Some k) o a (world s)],
            mkSystem (after e) (ring s) (spawn (<[k := next e ++ rest]> (workers s)) (spawned e)) (log s ++ outs e))
    | _ => None
    end
  end.

Fixpoint exec (turns : list (oracle * turn)) (s : System) : option (list label * System) :=
  match turns with
  | [] => Some ([], s)
  | (o, t) :: turns =>
    '(ls, s) ← exec_turn o t s;
    '(more, s) ← exec turns s;
    Some (ls ++ more, s)
  end.

Definition turn_ok (t : oracle * turn) : Prop := match t.2 with Take_up a => ring_event a | _ => True end.

Lemma exec_turn_run s0 ls0 o t s ls s' : run s0 ls0 s → turn_ok (o, t) →
  exec_turn o t s = Some (ls, s') → run s0 (ls0 ++ ls) s'.
Proof.
  intros Hrun Hok. destruct t as [a| |k]; cbn.
  - case_bool_decide as Hr; [|done]. intros [= <- <-]. by apply (run_step _ _ s None), step_event.
  - destruct (ring s) as [|a rest] eqn:Hr; [done|]. case_bool_decide as Hf; [|done]. intros [= <- <-].
    eapply (run_step _ _ s (Some _)); [done|]. by apply step_ring.
  - destruct (workers s !! k) as [[|a rest]|] eqn:Hk; [done| |done]. intros [= <- <-].
    eapply (run_step _ _ s (Some _)); [done|]. by apply step_worker.
Qed.

(** What is evaluated is a run. *)
Lemma exec_run s0 ls0 turns s ls s' : run s0 ls0 s → Forall turn_ok turns →
  exec turns s = Some (ls, s') → run s0 (ls0 ++ ls) s'.
Proof.
  revert ls0 s ls. induction turns as [|[o t] turns IH]; intros ls0 s ls Hrun Hok; cbn.
  { intros [= <- <-]. by rewrite app_nil_r. }
  apply Forall_cons in Hok as [Ht Hok]. destruct (exec_turn o t s) as [[ls1 s1]|] eqn:E1; [|done]. cbn.
  destruct (exec turns s1) as [[ls2 s2]|] eqn:E2; [|done]. intros [= <- <-].
  rewrite app_assoc. eapply IH; [by eapply exec_turn_run|done|done].
Qed.

End Exec.

(** A server on a disk without links: a path is made canonical by its names alone. *)
#[local] Instance sample_settings : Settings := {|
  downloads := txt "/d"; static_dir := txt "/s"; discord_client_id := []; discord_client_secret := [];
  temp_directory := txt "/tmp"; WebSocketAccept := λ key, key; fixed3 := to_string_i |}.

Definition lexical (p : fspath) : fspath :=
  match resolve [] p with [] => [slash] | ns => ns ≫= λ n, slash :: n end.

(** All works; the digits of identifiers, the clock and the files are given. *)
Definition sample_oracle (suffix : bytes) (t : Z) (files : gmap fspath bytes) : oracle := {|
  now := t; server_now := t; random_suffix := suffix; live := λ _, true; closing := false; alloc := λ _, true;
  sent := true; directories := None; runs := λ _, 0; media_exists := true; playlist_copied := true;
  playlist_transcoded := true; captures := λ _, (0, []); config_written := true; canonical := lexical;
  is_directory := λ _, true; is_regular_file := λ p, bool_decide (is_Some (files !! p));
  file_size := λ p, zlen <$> files !! p; contents := λ p, default [] (files !! p); opens := λ _, true;
  reads_ok := true |}.

Definition http (request : list bytes) (body : bytes) : bytes := lines_of (request ++ [[]]) ++ body.

(** Session 1 joins the instance [default] over WebSocket. *)
Definition hello : bytes :=
  txt "{" ++ join (txt ",") [text_field (txt "type") (txt "HELLO"); text_field (txt "client_id") (txt "ann")] ++ txt "}".

(** The steps learn new digits each. *)
Definition turns_of (files : gmap fspath bytes) (ts : list turn) : list (oracle * turn) :=
  imap (λ k t, (sample_oracle (to_string (Z.of_nat k)) 9 files, t)) ts.

Definition join_turns : list turn :=
  [Take_up (Recv 1 (http [txt "GET /ws HTTP/1.1"; txt "Sec-WebSocket-Key: k"] []));
   Ring_turn; Ring_turn; Ring_turn; Ring_turn;
   Take_up (Recv 1 (client_frame 1 (txt "mask") hello));
   Ring_turn; Ring_turn; Ring_turn; Ring_turn; Ring_turn].

(** Session 2 asks for a video, whose download runs up to the broadcast of the state. *)
Definition play_turns : list turn :=
  [Take_up (Recv 2 (http [txt "POST /api/play HTTP/1.1"; txt "Content-Length: 20"]
     (txt "{" ++ text_field (txt "url") (txt "http://v/1") ++ txt "}")));
   Ring_turn; Ring_turn; Ring_turn; Ring_turn; Ring_turn; Ring_turn; Worker_turn 0; Worker_turn 0; Worker_turn 0].

Definition sample_system (ts : list turn) : option (list label * System) :=
  exec (turns_of ∅ ts) start.

(** The end of a run that can be evaluated. *)
Definition outcome (files : gmap fspath bytes) (ts : list turn) : list label * System :=
  default ([], start) (exec (turns_of files ts) start).

Lemma turns_of_ok files ts : Forall (λ t, match t with Take_up a => ring_event a | _ => True end) ts →
  Forall turn_ok (turns_of files ts).
Proof.
  intros Hts. apply Forall_lookup_2. intros k [o t] Hk. unfold turns_of in Hk. rewrite list_lookup_imap in Hk.
  destruct (ts !! k) as [t'|] eqn:E; [|done]. injection Hk as <- <-. by eapply Forall_lookup_1 in Hts.
Qed.

Lemma outcome_run files ts : Forall (λ t, match t with Take_up a => ring_event a | _ => True end) ts →
  run start (outcome files ts).1 (outcome files ts).2.
Proof.
  intros Hts. unfold outcome. destruct (exec _ _) as [[ls s]|] eqn:E; [|apply run_start].
  apply (exec_run start [] (turns_of files ts) start ls s); [apply run_start|by apply turns_of_ok|done].
Qed.

Lemma playback_refines_witness :
  let r := outcome ∅ (join_turns ++ play_turns) in
  run start r.1 r.2 ∧ consistent (instance r.2 (txt "default")) ∧
  player_of (instance r.2 (txt "default")) =
    mkPlayer (Some (download_entry downloads (txt "dl_14") (txt "http://v/1"))) [].
Proof.
  assert (Hrun : run start (outcome ∅ (join_turns ++ play_turns)).1 (outcome ∅ (join_turns ++ play_turns)).2)
    by (apply outcome_run; by repeat constructor).
  destruct (playback_refines _ _ (txt "default") Hrun) as [Hc Hp].
  split; [exact Hrun|]. split; [exact Hc|]. rewrite Hp. vm_compute. reflexivity.
Defined.

Lemma downloads_settle_witness :
  let r := outcome ∅ (join_turns ++ play_turns ++ [Worker_turn 0; Worker_turn 0; Worker_turn 0]) in
  run start r.1 r.2 ∧ ∃ t, tasks_ (hub (world r.2)) !! txt "dl_14" = Some t ∧ asked r.1 (txt "dl_14") t ∧
    status t = txt "completed".
Proof.
  set (r := outcome ∅ (join_turns ++ play_turns ++ [Worker_turn 0; Worker_turn 0; Worker_turn 0])).
  assert (Hrun : run start r.1 r.2) by (apply outcome_run; by repeat constructor).
  split; [exact Hrun|].
  assert (Ht : tasks_ (hub (world r.2)) !! txt "dl_14" =
    Some (mkTask (txt "dl_14") (txt "http://v/1") (txt "completed") []
            (download_entry downloads (txt "dl_14") (txt "http://v/1")) 100 true)) by (vm_compute; reflexivity).
  eexists. split; [exact Ht|]. split; [|reflexivity].
  exact (proj1 (downloads_settle _ _ _ _ Hrun Ht)).
Defined.


(** ** Runs that go wrong *)

(** A state computed before an advance is sent after it: the last state a client hears of
    shows a video that no longer plays. *)
Example stale_state :
  let r := outcome ∅ (join_turns ++ play_turns ++ [Worker_turn 0;
    Take_up (Recv 3 (http [txt "POST /api/next HTTP/1.1"] []));
    Ring_turn; Ring_turn; Ring_turn; Ring_turn; Ring_turn; Ring_turn; Ring_turn; Ring_turn; Worker_turn 0]) in
  current_video_url (instance r.2 (txt "default")) = [] ∧
  ∃ text, last (log r.2) = Some (Posted 1 text) ∧ contains (field (txt "is_playing") ++ txt "true") text = true.
Proof. split; [vm_compute; reflexivity|]. eexists. split; [vm_compute; reflexivity|vm_compute; reflexivity]. Qed.

(** A frame that comes with the request to upgrade is kept where nothing reads it. *)
Example early_frame_lost :
  let frame := client_frame 1 (txt "mask") hello in
  let r := outcome ∅ [Take_up (Recv 1 (http [txt "GET /ws HTTP/1.1"; txt "Sec-WebSocket-Key: k"] [] ++ frame));
                      Ring_turn; Ring_turn; Ring_turn; Ring_turn] in
  ring r.2 = [] ∧ websocket_ (session 1 (world r.2)) = true ∧ ws_buffer_ (session 1 (world r.2)) = [] ∧
  http_buffer_ (session 1 (world r.2)) = frame.
Proof. vm_compute. done. Qed.

(** The root of the segments is compared as a text, so a directory beside it whose name
    starts with the same letters is served too. *)
Example sibling_served :
  let r := outcome {[txt "/d/hls-private/key" := txt "secret"]}
    [Take_up (Recv 1 (http [txt "GET /hls/../hls-private/key HTTP/1.1"] [])); Ring_turn; Ring_turn; Ring_turn] in
  IsWithinRoot (txt "/d/hls") (txt "/d/hls-private/key") = false ∧
  data_of 1 (log r.2) = file_headers None (txt "application/octet-stream") 6 6 ++ txt "secret".
Proof. vm_compute. done. Qed.

(** An instance without a name is the default one, but its clients do not hear that an
    entry was taken out of its queue. *)
Example removal_unheard :
  remove_route (txt "{" ++ join (txt ",") [text_field (txt "id") (txt "x"); text_field (txt "instance_id") []] ++ txt "}") =
    [Unqueue [] (txt "x"); BroadcastState [] None] ∧
  instance_key [] = txt "default" ∧
  ∀ o text, outs (act o (BroadcastText [] text) (world (outcome ∅ join_turns).2)) = [].
Proof.
  split; [vm_compute; reflexivity|]. split; [reflexivity|]. intros o text.
  assert (Hc : clients_ (hub (world (outcome ∅ join_turns).2)) = {[1 := mkClient (txt "default") (txt "ann")]})
    by (vm_compute; reflexivity).
  cbn [act broadcast_text SessionsLocked done outs]. rewrite Hc.
  rewrite (map_empty_filter_2 (λ sc : Z * Client, client_instance sc.2 = [])); [done|].
  intros s c Hs Hn. apply map_lookup_filter_Some in Hs as [[_ <-]%lookup_singleton_Some _]. done.
Qed.

(** A file asked for while another is being sent takes its place: what was left of the
    first is not sent. *)
Example stream_replaced o s req p type size old :
  file_size o p = Some size → 0 < size → headers req = ∅ → method req = txt "GET" → opens o p = true →
  SendFileResponse o s req p type (Some old) = SendFileResponse o s req p type None.
Proof.
  intros Hs H0 Hh Hm Ho. unfold SendFileResponse, requested_range, Header. rewrite Hs, Hh, Hm, Ho.
  rewrite lookup_empty. cbn -[PumpFileStream file_headers].
  destruct (Z.eqb_spec size 0); [lia|]. done.
Qed.

(** A negative length wraps around in [total]: the request is handled and stays in the
    buffer. *)
Definition replayed : bytes := http [txt "GET /healthz HTTP/1.1"; txt "Content-Length: -46"] [].

Example negative_length_kept :
  match TryParseHttp replayed with Request req rest => path req = txt "/healthz" ∧ rest = replayed | _ => False end.
Proof. vm_compute. done. Qed.

Definition replaying (lg : list output) : System :=
  mkSystem (mkWorld {[1 := set_http replayed new_session]} (mkHub ∅ ∅ ∅) ∅ (None, true)) [ProcessHttpBuffer 1] [] lg.

Definition replay_turns : list (oracle * turn) :=
  let o := sample_oracle [] 0 ∅ in [(o, Ring_turn); (o, Ring_turn); (o, Ring_turn)].

Lemma replay lg : ∃ out, length out = 2%nat ∧
  match exec replay_turns (replaying lg) with Some (_, s) => s = replaying (((lg ++ []) ++ out) ++ []) | None => False end.
Proof. eexists [_; _]. split; [reflexivity|]. vm_compute. reflexivity. Qed.

(** So one request is answered without end, as long as the connection is not yet
    closed, and the ring's thread does nothing else. *)
Example negative_length_spins n : ∃ ls lg, run start ls (replaying lg) ∧ length lg = (2 * n)%nat.
Proof.
  induction n as [|n (ls & lg & Hrun & Hlen)].
  - exists (outcome ∅ [Take_up (Recv 1 replayed); Ring_turn]).1, []. split; [|done].
    assert (Hs : (outcome ∅ [Take_up (Recv 1 replayed); Ring_turn]).2 = replaying []) by (vm_compute; reflexivity).
    rewrite <- Hs. apply outcome_run. by repeat constructor.
  - destruct (replay lg) as (out & Ho & He). destruct (exec replay_turns (replaying lg)) as [[ls' s]|] eqn:E; [|done].
    rewrite !app_nil_r in He. subst s. exists (ls ++ ls'), (lg ++ out). split; [|rewrite length_app; lia].
    eapply exec_run; [done| |done]. by repeat constructor.
Qed.

(** A request to pause or to seek is repeated to the clients, but changes nothing of what
    the instance plays. *)
Example sync_ignored `{Settings} o s text w : JsonString text (txt "type") = Some (txt "REQUEST_SYNC") →
  hub (after (act o (WsText s text) w)) = hub w.
Proof. intros Ht. cbn [act]. unfold HandleWsText. rewrite Ht. done. Qed.
