(* ===== verification/ProxyBridge.v ===== *)
(** * The proxy bridge

    [src/modules/proxy/ProxyBridge.cpp] and the plain peers of
    [ProxySessions.cpp]: two sessions joined by a bridge that forwards what one
    receives to the other, keeps data until the upstream connection is there, and
    lets the backpressure of one session stop the other's receiving.

    Of a peer, the model has what the bridge sees: whether the weak pointer to it
    can be locked, whether the session is open, its receive pause with the data
    held back, and the payloads its send queue took.  How a [Send] goes, and the
    backpressure signals it or a completion raises, are answers of the
    environment.  The callbacks nest: a signal can resume the other peer, which
    forwards what it held back, which sends again.  The calls in progress are a
    stack of frames, each the rest of one call. *)

From S2P Require Import Prelude.

#[local] Open Scope Z_scope.
#[local] Set Warnings "-clear-no-such-hyp".

(** Source: src/modules/proxy/ProxySessions.h:14-17, PeerRole. *)
Inductive PeerRole := kDownstream | kUpstream.
#[export] Instance PeerRole_eq_dec : EqDecision PeerRole.
Proof. solve_decision. Defined.

Definition other (r : PeerRole) : PeerRole :=
  match r with kDownstream => kUpstream | kUpstream => kDownstream end.

Record peer := mkPeer {
  attached : bool;                 (* the bridge's weak pointer can be locked *)
  is_open : bool;                  (* [!Disconnecting()] *)
  after_flush : bool;
  recv_paused_ : bool;
  paused_recv_queue_ : list bytes;
  sent : list bytes;               (* payloads taken by the send queue *)
}.

(** Source: src/modules/proxy/ProxySessions.h:49-54, ProxyBridge.
    With the two peers, the data given to [Forward] from each side while the
    bridge was open, and the number of questions asked. *)
Record pair := mkPair {
  downstream_ : peer;
  upstream_ : peer;
  pending_to_upstream_ : list bytes;
  pending_to_upstream_bytes_ : Z;
  closed_ : bool;
  from_downstream : bytes;
  from_upstream : bytes;
  asked : nat;
}.

(** [OnBackpressure(true)], with whether the session disconnects itself then and
    whether that ends it at once, and [OnBackpressure(false)]. *)
Inductive signal := High (disconnects released : bool) | Low.

(** How [SendProxyPayload] of an open session goes. *)
Inductive send_outcome :=
| NoBuffer
| Overflow (released : bool)
| Accepted (signals : list signal).

Inductive frame :=
| FSignals (r : PeerRole) (signals : list signal)
| FOwnResume (r : PeerRole)
| FDrain (r : PeerRole)
| FFlush (chunks : list bytes)
| FGone (r : PeerRole)
| FClose.

Section Bridge.
(** The configuration: [pending_connect_buffer_limit] and
    [pause_recv_on_high_watermark]; the outcomes of sends. *)
Context (limit : Z) (pause_cfg : bool) (outcome : nat → send_outcome).

Definition get (r : PeerRole) (w : pair) : peer :=
  match r with kDownstream => downstream_ w | kUpstream => upstream_ w end.
Definition set (r : PeerRole) (p : peer) (w : pair) : pair :=
  match r with
  | kDownstream => mkPair p (upstream_ w) (pending_to_upstream_ w) (pending_to_upstream_bytes_ w)
      (closed_ w) (from_downstream w) (from_upstream w) (asked w)
  | kUpstream => mkPair (downstream_ w) p (pending_to_upstream_ w) (pending_to_upstream_bytes_ w)
      (closed_ w) (from_downstream w) (from_upstream w) (asked w)
  end.
Definition set_open (b : bool) (p : peer) : peer :=
  mkPeer (attached p) b (after_flush p) (recv_paused_ p) (paused_recv_queue_ p) (sent p).
Definition set_paused (b : bool) (p : peer) : peer :=
  mkPeer (attached p) (is_open p) (after_flush p) b (paused_recv_queue_ p) (sent p).
Definition set_attached (b : bool) (p : peer) : peer :=
  mkPeer b (is_open p) (after_flush p) (recv_paused_ p) (paused_recv_queue_ p) (sent p).
Definition set_queue (q : list bytes) (p : peer) : peer :=
  mkPeer (attached p) (is_open p) (after_flush p) (recv_paused_ p) q (sent p).
Definition set_flush (p : peer) : peer :=
  mkPeer (attached p) (is_open p) true (recv_paused_ p) (paused_recv_queue_ p) (sent p).
Definition add_sent (c : bytes) (p : peer) : peer :=
  mkPeer (attached p) (is_open p) (after_flush p) (recv_paused_ p) (paused_recv_queue_ p)
    (sent p ++ [c]).
Definition set_pending (q : list bytes) (n : Z) (w : pair) : pair :=
  mkPair (downstream_ w) (upstream_ w) q n (closed_ w) (from_downstream w) (from_upstream w)
    (asked w).
Definition set_closed (w : pair) : pair :=
  mkPair (downstream_ w) (upstream_ w) [] 0 true (from_downstream w) (from_upstream w) (asked w).
Definition note_forward (r : PeerRole) (data : bytes) (w : pair) : pair :=
  mkPair (downstream_ w) (upstream_ w) (pending_to_upstream_ w) (pending_to_upstream_bytes_ w)
    (closed_ w)
    (match r with kDownstream => from_downstream w ++ data | kUpstream => from_downstream w end)
    (match r with kUpstream => from_upstream w ++ data | kDownstream => from_upstream w end)
    (asked w).
Definition bump (w : pair) : pair :=
  mkPair (downstream_ w) (upstream_ w) (pending_to_upstream_ w) (pending_to_upstream_bytes_ w)
    (closed_ w) (from_downstream w) (from_upstream w) (S (asked w)).

(** The weak pointer to [r] locks and the session is not disconnecting. *)
Definition usable (r : PeerRole) (w : pair) : bool := attached (get r w) && is_open (get r w).

(** Source: src/modules/proxy/ProxySessions.cpp:48-50, PlainProxyPeerSession::DisconnectPeer. *)
Definition DisconnectPeer (r : PeerRole) (w : pair) : pair := set r (set_open false (get r w)) w.

(** Source: src/modules/proxy/ProxySessions.cpp:52-54, PlainProxyPeerSession::DisconnectPeerAfterFlush.
    The session closes itself once its queue is empty. *)
Definition DisconnectPeerAfterFlush (r : PeerRole) (w : pair) : pair :=
  if is_open (get r w) then set r (set_flush (get r w)) w else w.

(** Source: src/modules/proxy/ProxySessions.cpp:56-58, PlainProxyPeerSession::PausePeerRecv. *)
Definition PausePeerRecv (r : PeerRole) (w : pair) : pair :=
  if is_open (get r w) then set r (set_paused true (get r w)) w else w.

(** Source: src/modules/proxy/ProxySessions.cpp:60-62, PlainProxyPeerSession::ResumePeerRecv.
    The data held back is delivered by the frame. *)
Definition ResumePeerRecv (r : PeerRole) (w : pair) : pair * list frame :=
  if is_open (get r w) then (set r (set_paused false (get r w)) w, [FDrain r]) else (w, []).

(** Source: src/modules/proxy/ProxySessions.cpp:32-46, PlainProxyPeerSession::SendProxyPayload. *)
Definition SendProxyPayload (r : PeerRole) (data : bytes) (w : pair) : pair * list frame * bool :=
  let o := outcome (asked w) in
  let w := bump w in
  match o with
  | NoBuffer => (w, [], false)
  | Overflow released =>
    if negb (is_open (get r w)) then (w, [], false) else
    (DisconnectPeer r w, if released then [FGone r] else [], false)
  | Accepted signals =>
    if negb (is_open (get r w)) then (w, [], false) else
    (set r (add_sent data (get r w)) w, [FSignals r signals], true)
  end.

(** Source: src/modules/proxy/ProxyBridge.cpp:112-128, ProxyBridge::ClosePair. *)
Definition ClosePair (w : pair) : pair :=
  if closed_ w then w else
  let w := set_closed w in
  let w := if usable kDownstream w then DisconnectPeer kDownstream w else w in
  if usable kUpstream w then DisconnectPeer kUpstream w else w.

(** Source: src/modules/proxy/ProxyBridge.cpp:130-145, ProxyBridge::QueuePendingToUpstream. *)
Definition QueuePendingToUpstream (data : bytes) (w : pair) : pair :=
  let next_size := pending_to_upstream_bytes_ w + zlen data in
  if negb (limit =? 0) && (limit <? next_size) then ClosePair w else
  set_pending (pending_to_upstream_ w ++ [data]) next_size w.

(** Source: src/modules/proxy/ProxyBridge.cpp:44-69, ProxyBridge::Forward. *)
Definition Forward (from : PeerRole) (data : bytes) (w : pair) : pair * list frame :=
  if closed_ w || bool_decide (data = []) then (w, []) else
  let w := note_forward from data w in
  match from with
  | kDownstream =>
    if negb (attached (upstream_ w)) then (QueuePendingToUpstream data w, []) else
    let '(w, fs, ok) := SendProxyPayload kUpstream data w in
    (w, if negb ok then fs ++ [FClose] else fs)
  | kUpstream =>
    if negb (attached (downstream_ w)) then (ClosePair w, []) else
    let '(w, fs, ok) := SendProxyPayload kDownstream data w in
    (w, if negb ok then fs ++ [FClose] else fs)
  end.

(** Source: src/modules/proxy/ProxyBridge.cpp:71-87, ProxyBridge::OnPeerBackpressure. *)
Definition OnPeerBackpressure (r : PeerRole) (active : bool) (w : pair) : pair * list frame :=
  if closed_ w then (w, []) else
  if negb (usable (other r) w) then (w, []) else
  if active then (PausePeerRecv (other r) w, []) else ResumePeerRecv (other r) w.

(** Source: src/modules/proxy/ProxyBridge.cpp:89-110, ProxyBridge::OnPeerDisconnected. *)
Definition OnPeerDisconnected (r : PeerRole) (w : pair) : pair :=
  if closed_ w then w else
  let w := set_closed w in
  match r with
  | kUpstream => if usable kDownstream w then DisconnectPeerAfterFlush kDownstream w else w
  | kDownstream => if usable kUpstream w then DisconnectPeer kUpstream w else w
  end.

(** Source: src/modules/proxy/ProxyBridge.cpp:19-27, ProxyBridge::AttachDownstream. *)
Definition AttachDownstream (w : pair) : pair :=
  if closed_ w then
    if is_open (downstream_ w) then DisconnectPeer kDownstream w else w
  else set kDownstream (set_attached true (downstream_ w)) w.

(** Source: src/modules/proxy/ProxyBridge.cpp:147-161, ProxyBridge::FlushPendingToUpstream. *)
Definition FlushPendingToUpstream (w : pair) : pair * list frame :=
  if negb (attached (upstream_ w)) then (w, []) else
  (set_pending [] 0 w, [FFlush (pending_to_upstream_ w)]).

(** Source: src/modules/proxy/ProxyBridge.cpp:29-38, ProxyBridge::AttachUpstream. *)
Definition AttachUpstream (w : pair) : pair * list frame :=
  if closed_ w then
    (if is_open (upstream_ w) then DisconnectPeer kUpstream w else w, [])
  else FlushPendingToUpstream (set kUpstream (set_attached true (upstream_ w)) w).

(** One step of the calls in progress.  The signals are those of
    [Session::UpdateBackpressure], which after the callback pauses or resumes the
    session's own receiving. *)
Definition run_frame (f : frame) (w : pair) : pair * list frame :=
  match f with
  | FSignals r [] => (w, [])
  | FSignals r (High disconnects released :: rest) =>
    let '(w, fs) := OnPeerBackpressure r true w in
    let w := if pause_cfg then set r (set_paused true (get r w)) w else w in
    let '(w, gone) := if disconnects && is_open (get r w)
      then (DisconnectPeer r w, if released : bool then [FGone r] else []) else (w, []) in
    (w, fs ++ gone ++ [FSignals r rest])
  | FSignals r (Low :: rest) =>
    let '(w, fs) := OnPeerBackpressure r false w in
    (w, fs ++ [FOwnResume r; FSignals r rest])
  | FOwnResume r =>
    if pause_cfg then (set r (set_paused false (get r w)) w, [FDrain r]) else (w, [])
  | FDrain r =>
    if is_open (get r w) && negb (recv_paused_ (get r w)) then
      match paused_recv_queue_ (get r w) with
      | c :: q =>
        let '(w, fs) := Forward r c (set r (set_queue q (get r w)) w) in (w, fs ++ [FDrain r])
      | [] => (w, [])
      end
    else (w, [])
  | FFlush [] => (w, [])
  | FFlush (c :: cs) =>
    let '(w, fs, ok) := SendProxyPayload kUpstream c w in
    (w, fs ++ if ok : bool then [FFlush cs] else [FClose])
  | FGone r => (OnPeerDisconnected r w, [])
  | FClose => (ClosePair w, [])
  end.

Fixpoint run (fuel : nat) (w : pair) (k : list frame) : option pair :=
  match k with
  | [] => Some w
  | f :: k =>
    match fuel with
    | O => None
    | S fuel => let '(w, fs) := run_frame f w in run fuel w (fs ++ k)
    end
  end.

(** What can happen to a pair between two calls: the upstream connection is there;
    a session receives data, finishes a send, starts to close, has closed, or its
    last reference goes. *)
Inductive input :=
| IAttachUpstream
| IRecv (r : PeerRole) (data : bytes)
| ISent (r : PeerRole) (signals : list signal)
| IDisconnect (r : PeerRole)
| IGone (r : PeerRole)
| IExpire (r : PeerRole).

(** When it can: the upstream peer is attached once; a session that receives is
    attached and open; a send that finishes was made; a session ends after it
    started to close, and goes once the bridge knows. *)
Definition input_ok (i : input) (w : pair) : Prop :=
  match i with
  | IAttachUpstream => attached (upstream_ w) = false ∧ closed_ w = false
  | IRecv r _ => attached (get r w) = true ∧ is_open (get r w) = true
  | ISent r _ => sent (get r w) ≠ []
  | IDisconnect _ => True
  | IGone r => is_open (get r w) = false
  | IExpire r => is_open (get r w) = false ∧ closed_ w = true
  end.

(** The session's part of receiving: data is held back while paused. *)
Definition on_input (i : input) (w : pair) : pair * list frame :=
  match i with
  | IAttachUpstream => AttachUpstream w
  | IRecv r data =>
    if recv_paused_ (get r w) then
      (set r (set_queue (paused_recv_queue_ (get r w) ++ [data]) (get r w)) w, [])
    else Forward r data w
  | ISent r signals => (w, [FSignals r signals])
  | IDisconnect r => (DisconnectPeer r w, [])
  | IGone r => (OnPeerDisconnected r w, [])
  | IExpire r => (set r (set_attached false (get r w)) w, [])
  end.

Inductive bridge_step : pair * list frame → pair * list frame → Prop :=
| b_input i w w' k : input_ok i w → on_input i w = (w', k) → bridge_step (w, []) (w', k)
| b_frame f k w w' fs : run_frame f w = (w', fs) → bridge_step (w, f :: k) (w', fs ++ k).

(** A new pair: the downstream session is attached, the upstream one is not yet
    there. *)
Definition Bridge_new : pair :=
  mkPair (mkPeer true true false false [] []) (mkPeer false true false false [] []) [] 0 false
    [] [] 0.

(** ** Termination of the nested calls *)

Definition signals_of (f : frame) : nat := match f with FSignals _ s => length s | _ => 0 end.
Definition chunks_of (f : frame) : nat := match f with FFlush cs => length cs | _ => 0 end.
Definition weight (f : frame) : nat := match f with FOwnResume _ => 2 | _ => 1 end.
Definition total (g : frame → nat) (k : list frame) : nat := sum_list_with g k.
Definition held (w : pair) : nat :=
  length (paused_recv_queue_ (downstream_ w)) + length (paused_recv_queue_ (upstream_ w)).

Lemma held_set r p w :
  (held (set r p w) + length (paused_recv_queue_ (get r w)) =
   held w + length (paused_recv_queue_ p))%nat.
Proof. destruct r; unfold held; simpl; lia. Qed.

Lemma held_set_same r p w :
  paused_recv_queue_ p = paused_recv_queue_ (get r w) → held (set r p w) = held w.
Proof. intros E. pose proof (held_set r p w) as Hs. rewrite E in Hs. lia. Qed.

Ltac held_tac := repeat (rewrite held_set_same by done); try done.

Lemma held_ClosePair w : held (ClosePair w) = held w.
Proof.
  unfold ClosePair, DisconnectPeer. destruct (closed_ w); [done|].
  repeat case_match; held_tac.
Qed.

Lemma frames_total_app g k k' : total g (k ++ k') = (total g k + total g k')%nat.
Proof. apply sum_list_with_app. Qed.

Lemma SendProxyPayload_held r data w w' fs ok :
  SendProxyPayload r data w = (w', fs, ok) → held w' = held w ∧ total chunks_of fs = 0%nat.
Proof.
  unfold SendProxyPayload, DisconnectPeer. intros E.
  repeat case_match; simplify_eq; simpl; (split; [|done]); held_tac.
Qed.

Lemma Forward_held r data w w' fs :
  Forward r data w = (w', fs) → held w' = held w ∧ total chunks_of fs = 0%nat.
Proof.
  unfold Forward. destruct (closed_ w || _); [by intros [= <- <-]|].
  assert (held (note_forward r data w) = held w) as Hn by done. rewrite <-Hn.
  generalize (note_forward r data w) as w1. clear Hn w. intros w.
  destruct r; destruct (negb _); try (intros [= <- <-]).
  - unfold QueuePendingToUpstream. case_match; [by rewrite held_ClosePair|done].
  - destruct (SendProxyPayload _ _ _) as [[w1 fs1] ok] eqn:E.
    apply SendProxyPayload_held in E as [E1 E2].
    intros [= <- <-]. destruct ok; simpl; rewrite ?frames_total_app, ?E2; done.
  - by rewrite held_ClosePair.
  - destruct (SendProxyPayload _ _ _) as [[w1 fs1] ok] eqn:E.
    apply SendProxyPayload_held in E as [E1 E2].
    intros [= <- <-]. destruct ok; simpl; rewrite ?frames_total_app, ?E2; done.
Qed.

Lemma OnPeerBackpressure_held r b w w' fs :
  OnPeerBackpressure r b w = (w', fs) →
  held w' = held w ∧ (fs = [] ∨ fs = [FDrain (other r)]).
Proof.
  unfold OnPeerBackpressure, PausePeerRecv, ResumePeerRecv. intros E.
  repeat case_match; simplify_eq; (split; [held_tac|auto]).
Qed.

Lemma OnPeerDisconnected_held r w : held (OnPeerDisconnected r w) = held w.
Proof.
  unfold OnPeerDisconnected, DisconnectPeer, DisconnectPeerAfterFlush.
  repeat case_match; held_tac.
Qed.

(** Every step uses up data that was held back, a signal, or a frame. *)
Lemma run_frame_measure f w w' fs :
  run_frame f w = (w', fs) →
  (held w' + total chunks_of fs < held w + chunks_of f)%nat ∨
  (held w' + total chunks_of fs ≤ held w + chunks_of f)%nat ∧
  ((total signals_of fs < signals_of f)%nat ∨
   (total signals_of fs ≤ signals_of f)%nat ∧ (total weight fs < weight f)%nat).
Proof.
  destruct f as [r [|[d rel|] s]|r|r|[|c cs]|r|]; simpl.
  - intros [= <- <-]. right. simpl. lia.
  - destruct (OnPeerBackpressure r true w) as [w1 fs1] eqn:E.
    apply OnPeerBackpressure_held in E as [Hh Hfs].
    set (w2 := if pause_cfg then _ else w1).
    assert (held w2 = held w) as H2 by (subst w2; destruct pause_cfg; held_tac).
    destruct (d && _).
    + intros [= <- <-]. unfold DisconnectPeer. rewrite held_set_same, H2 by done.
      right. rewrite !frames_total_app. destruct Hfs as [-> | ->], rel; simpl; lia.
    + intros [= <- <-]. right. rewrite !frames_total_app, H2. destruct Hfs as [-> | ->]; simpl; lia.
  - destruct (OnPeerBackpressure r false w) as [w1 fs1] eqn:E.
    apply OnPeerBackpressure_held in E as [Hh Hfs]. intros [= <- <-].
    right. rewrite !frames_total_app, Hh. destruct Hfs as [-> | ->]; simpl; lia.
  - destruct pause_cfg; intros [= <- <-]; right; simpl; rewrite ?held_set_same by done; lia.
  - destruct (_ && _); [|intros [= <- <-]; right; simpl; lia].
    destruct (paused_recv_queue_ (get r w)) as [|c q] eqn:Eq; [intros [= <- <-]; right; simpl; lia|].
    destruct (Forward _ _ _) as [w1 fs1] eqn:E. apply Forward_held in E as [Hh Hfs].
    pose proof (held_set r (set_queue q (get r w)) w) as Hs. rewrite Eq in Hs. simpl in Hs.
    intros [= <- <-]. left. rewrite frames_total_app, Hfs. simpl. lia.
  - intros [= <- <-]. right. simpl. lia.
  - destruct (SendProxyPayload _ _ _) as [[w1 fs1] ok] eqn:E.
    apply SendProxyPayload_held in E as [Hh Hfs]. intros [= <- <-].
    left. rewrite frames_total_app, Hfs. destruct ok; simpl; lia.
  - intros [= <- <-]. right. rewrite OnPeerDisconnected_held. simpl. lia.
  - intros [= <- <-]. right. rewrite held_ClosePair. simpl. lia.
Qed.

(** The nested callbacks of a pair always return: whatever signals the sends
    raise, forwarding, resuming and flushing come to an end, because each round
    uses up data that was held back. *)
Theorem bridge_calls_return w k : ∃ fuel w', run fuel w k = Some w'.
Proof.
  remember (held w + total chunks_of k)%nat as a eqn:Ha.
  remember (total signals_of k) as b eqn:Hb. remember (total weight k) as c eqn:Hc.
  revert b c w k Ha Hb Hc. induction a as [a IHa] using lt_wf_ind.
  induction b as [b IHb] using lt_wf_ind. induction c as [c IHc] using lt_wf_ind.
  intros w k Ha Hb Hc. destruct k as [|f k]; [by exists 0%nat, w|].
  destruct (run_frame f w) as [w1 fs] eqn:E.
  assert (∃ fuel w', run fuel w1 (fs ++ k) = Some w') as (n&w'&Hr).
  { apply run_frame_measure in E. simpl in Ha, Hb, Hc.
    destruct (decide (held w1 + total chunks_of fs < held w + chunks_of f)%nat).
    { eapply IHa; [|done..]. rewrite frames_total_app. lia. }
    destruct E as [?|[HA E]]; [lia|].
    assert (a = held w1 + total chunks_of (fs ++ k))%nat by (rewrite frames_total_app; lia).
    destruct (decide (total signals_of fs < signals_of f)%nat).
    { eapply IHb; [|done..]. rewrite frames_total_app. lia. }
    destruct E as [?|[HB HC]]; [lia|].
    eapply IHc; [|done| |done]; rewrite frames_total_app; lia. }
  exists (S n), w'. simpl. by rewrite E.
Qed.

(** ** Order of the data *)

Definition flush_chunks (k : list frame) : list bytes :=
  concat ((λ f, match f with FFlush cs => cs | _ => [] end) <$> k).

(** A failed send is followed by closing, perhaps after the session's end. *)
Definition closing_next (k : list frame) : Prop :=
  ∃ k', (FClose ∉ k') ∧ (k = FClose :: k' ∨ ∃ r, k = FGone r :: FClose :: k').

Record inv (w : pair) (k : list frame) : Prop := {
  iv_exact : closed_ w = false → FClose ∉ k →
    concat (sent (upstream_ w)) ++ concat (flush_chunks k) ++ concat (pending_to_upstream_ w) =
      from_downstream w ∧ concat (sent (downstream_ w)) = from_upstream w;
  iv_prefix : concat (sent (upstream_ w)) `prefix_of` from_downstream w ∧
    concat (sent (downstream_ w)) `prefix_of` from_upstream w;
  iv_close : closed_ w = false → FClose ∈ k → closing_next k;
  iv_gone : ∀ r, FGone r ∈ k → is_open (get r w) = false;
  iv_flush : flush_chunks k ≠ [] → attached (upstream_ w) = true ∧
    paused_recv_queue_ (downstream_ w) = [] ∧
    (closed_ w = true → is_open (upstream_ w) = false);
  iv_att : attached (upstream_ w) = true → pending_to_upstream_ w = [];
  iv_bytes : pending_to_upstream_bytes_ w = zlen (concat (pending_to_upstream_ w)) ∧
    (limit ≠ 0 → 0 ≤ limit → pending_to_upstream_bytes_ w ≤ limit);
  iv_un : closed_ w = false → attached (upstream_ w) = false →
    k = [] ∧ sent (upstream_ w) = [] ∧ sent (downstream_ w) = [] ∧
    paused_recv_queue_ (downstream_ w) = [] ∧ recv_paused_ (downstream_ w) = false;
}.

(** Nothing the order depends on changes; sessions may close. *)
Record same (w w' : pair) : Prop := {
  sm_sent : ∀ r, sent (get r w') = sent (get r w);
  sm_att : ∀ r, attached (get r w') = attached (get r w);
  sm_open : ∀ r, is_open (get r w) = false → is_open (get r w') = false;
  sm_queue : ∀ r, paused_recv_queue_ (get r w) = [] → paused_recv_queue_ (get r w') = [];
  sm_pending : pending_to_upstream_ w' = pending_to_upstream_ w;
  sm_bytes : pending_to_upstream_bytes_ w' = pending_to_upstream_bytes_ w;
  sm_closed : closed_ w' = closed_ w;
  sm_from : from_downstream w' = from_downstream w ∧ from_upstream w' = from_upstream w;
}.

Lemma same_refl w : same w w.
Proof. by split. Qed.

Lemma same_trans w1 w2 w3 : same w1 w2 → same w2 w3 → same w1 w3.
Proof.
  intros [A1 A2 A3 A4 A5 A6 A7 [A8 A9]] [B1 B2 B3 B4 B5 B6 B7 [B8 B9]].
  split; intros; try congruence; auto. split; congruence.
Qed.

(** Changes to one peer that keep its data. *)
Lemma same_set r p w :
  sent p = sent (get r w) → attached p = attached (get r w) →
  (is_open (get r w) = false → is_open p = false) →
  (paused_recv_queue_ (get r w) = [] → paused_recv_queue_ p = []) → same w (set r p w).
Proof. intros. destruct r; split; try done; intros []; simpl in *; auto. Qed.

Lemma flush_chunks_app k k' : flush_chunks (k ++ k') = flush_chunks k ++ flush_chunks k'.
Proof. unfold flush_chunks. by rewrite fmap_app, concat_app. Qed.

(** Frames that neither close, end a session nor flush. *)
Definition plain_frame (f : frame) : bool :=
  match f with FSignals _ _ | FOwnResume _ | FDrain _ | FFlush [] => true | _ => false end.

Lemma plain_frames fs : forallb plain_frame fs = true →
  (FClose ∉ fs) ∧ (∀ r, FGone r ∉ fs) ∧ flush_chunks fs = [].
Proof.
  induction fs as [|f fs IH]; simpl; [intros _; split_and!; [set_solver|set_solver|done]|].
  intros [Hf (H1&H2&H3)%IH]%andb_true_iff.
  change (f :: fs) with ([f] ++ fs). rewrite flush_chunks_app, H3.
  destruct f as [| | |[]| |]; try done; (split_and!; [|intros ?|done]); simpl;
    rewrite not_elem_of_cons; split; done || auto.
Qed.

(** A step that changes nothing of the order, its frames in place of [f]. *)
Lemma quiet_inv f fs k w w' :
  plain_frame f = true → same w w' →
  FClose ∉ fs → flush_chunks fs = [] → (∀ r, FGone r ∈ fs → is_open (get r w') = false) →
  inv w (f :: k) → inv w' (fs ++ k).
Proof.
  intros Hf [S1 S2 S3 S4 S5 S6 S7 [S8 S9]] Hfc Hff Hfg [I1 I2 I3 I4 I5 I6 I7 I8].
  pose proof (S1 kUpstream) as SU. pose proof (S1 kDownstream) as SD.
  pose proof (S2 kUpstream) as AU. pose proof (S3 kUpstream) as OU. pose proof (S4 kDownstream) as QD.
  simpl in SU, SD, AU, OU, QD.
  assert ((FClose ∉ [f]) ∧ flush_chunks [f] = []) as [Hf1 Hf2].
  { destruct (plain_frames [f]) as (?&_&?); [simpl; by rewrite Hf|done]. }
  assert (flush_chunks (fs ++ k) = flush_chunks (f :: k)) as Hfl.
  { change (f :: k) with ([f] ++ k). by rewrite !flush_chunks_app, Hff, Hf2. }
  assert (FClose ∈ fs ++ k → FClose ∈ f :: k) as Hcl.
  { rewrite elem_of_app, elem_of_cons. intros [?|?]; [done|auto]. }
  assert (closed_ w = false → FClose ∉ f :: k) as Hno.
  { intros Hc Hin. destruct (I3 Hc Hin) as (k'&_&[[= -> _]|[r [= -> _]]]); done. }
  split; rewrite ?SU, ?SD, ?AU, ?S5, ?S6, ?S7, ?S8, ?S9, ?Hfl; try done.
  - intros Hc _. apply I1; auto.
  - intros Hc Hin. by destruct (Hno Hc (Hcl Hin)).
  - intros r [Hin|Hin]%elem_of_app; [auto|]. apply S3, I4. by apply list_elem_of_further.
  - intros Hne. destruct (I5 Hne) as (?&?&?). split_and!; auto.
  - intros Hc Ha. by destruct (I8 Hc Ha).
Qed.

Lemma flush_chunks_cons f k : flush_chunks k ≠ [] → flush_chunks (f :: k) ≠ [].
Proof.
  change (f :: k) with ([f] ++ k). rewrite flush_chunks_app. intros Hne [_ E]%app_eq_nil. done.
Qed.

(** The bridge closes, or was closed. *)
Lemma close_inv w w' k :
  same w w' ∨ (same (set_closed w) w' ∧ closed_ w = false) → closed_ w' = true →
  concat (sent (upstream_ w)) `prefix_of` from_downstream w →
  concat (sent (downstream_ w)) `prefix_of` from_upstream w →
  (∀ r, FGone r ∈ k → is_open (get r w) = false) →
  (attached (upstream_ w) = true → pending_to_upstream_ w = []) →
  pending_to_upstream_bytes_ w = zlen (concat (pending_to_upstream_ w)) →
  (limit ≠ 0 → 0 ≤ limit → pending_to_upstream_bytes_ w ≤ limit) →
  (flush_chunks k ≠ [] → attached (upstream_ w) = true ∧
    paused_recv_queue_ (downstream_ w) = [] ∧ is_open (upstream_ w') = false) →
  inv w' k.
Proof.
  intros Hs Hc P1 P2 Hg Ha Hb Hlim Hf.
  assert (∀ r, sent (get r w') = sent (get r w)) as S1
    by (destruct Hs as [Hs|[Hs _]]; intros []; rewrite (sm_sent _ _ Hs); done).
  assert (∀ r, attached (get r w') = attached (get r w)) as S2
    by (destruct Hs as [Hs|[Hs _]]; intros []; rewrite (sm_att _ _ Hs); done).
  assert (∀ r, is_open (get r w) = false → is_open (get r w') = false) as S3
    by (destruct Hs as [Hs|[Hs _]]; intros []; intros; apply (sm_open _ _ Hs); done).
  assert (∀ r, paused_recv_queue_ (get r w) = [] → paused_recv_queue_ (get r w') = []) as S4
    by (destruct Hs as [Hs|[Hs _]]; intros []; intros; apply (sm_queue _ _ Hs); done).
  assert (from_downstream w' = from_downstream w ∧ from_upstream w' = from_upstream w) as [S5 S6]
    by (destruct Hs as [Hs|[Hs _]]; destruct (sm_from _ _ Hs); done).
  pose proof (S1 kUpstream) as SU. pose proof (S1 kDownstream) as SD.
  pose proof (S2 kUpstream) as AU. pose proof (S4 kDownstream) as QD. simpl in SU, SD, AU, QD.
  split; rewrite ?SU, ?SD, ?AU, ?S5, ?S6, ?Hc; try done; auto.
  - intros Hne. destruct (Hf Hne) as (?&?&?). split_and!; auto.
  - destruct Hs as [Hs|[Hs _]]; rewrite (sm_pending _ _ Hs); [auto|done].
  - destruct Hs as [Hs|[Hs _]]; rewrite (sm_pending _ _ Hs), (sm_bytes _ _ Hs); [auto|].
    simpl. split; [done|lia].
Qed.

Lemma ClosePair_same w :
  (same w (ClosePair w) ∨ (same (set_closed w) (ClosePair w) ∧ closed_ w = false)) ∧
  closed_ (ClosePair w) = true ∧
  (closed_ w = false → attached (upstream_ w) = true → is_open (upstream_ (ClosePair w)) = false).
Proof.
  unfold ClosePair. destruct (closed_ w) eqn:E; [split_and!; auto using same_refl; done|].
  set (w1 := if usable kDownstream (set_closed w) then _ else _).
  assert (same (set_closed w) w1) as H1.
  { subst w1. case_match; [by apply same_set|apply same_refl]. }
  set (w2 := if usable kUpstream w1 then _ else _).
  assert (same w1 w2) as H2.
  { subst w2. case_match; [by apply same_set|apply same_refl]. }
  split_and!.
  - right. split; [by eapply same_trans|done].
  - by rewrite (sm_closed _ _ H2), (sm_closed _ _ H1).
  - intros _ Ha. subst w2. unfold usable. pose proof (sm_att _ _ H1 kUpstream) as Hw.
    simpl in *. rewrite Hw, Ha. cbn [andb]. by destruct (is_open (upstream_ w1)) eqn:Eo.
Qed.

Lemma ClosePair_inv w k :
  inv w k → inv (ClosePair w) k.
Proof.
  intros [I1 I2 I3 I4 I5 I6 [I7 I7'] I8]. destruct (ClosePair_same w) as (Hs&Hc&Hu).
  apply (close_inv w); try done; try apply I2.
  intros Hne. destruct (I5 Hne) as (Ha&Hp&Ho). split_and!; try done.
  destruct (closed_ w) eqn:E; [|by apply Hu].
  unfold ClosePair. rewrite E. auto.
Qed.

Lemma send_cases r data w w' fs ok :
  SendProxyPayload r data w = (w', fs, ok) →
  (ok = true ∧ is_open (get r w) = true ∧ w' = set r (add_sent data (get r w)) (bump w) ∧
     ∃ sg, fs = [FSignals r sg]) ∨
  (ok = false ∧ same w w' ∧ (fs = [] ∨ fs = [FGone r] ∧ is_open (get r w') = false)).
Proof.
  assert (same w (bump w)) as Hb by (split; try done; by intros []).
  assert (get r (bump w) = get r w) as Hg by (by destruct r).
  unfold SendProxyPayload. rewrite !Hg. destruct (outcome (asked w)) as [|rel|sg].
  - intros [= <- <- <-]. right. auto.
  - destruct (is_open (get r w)) eqn:Eo; cbn [negb]; intros [= <- <- <-]; right;
      [|by auto]. split_and!; [done| |].
    + eapply same_trans; [exact Hb|]. by apply same_set; rewrite ?Hg.
    + destruct rel; [right|by left]. split; [done|]. by destruct r.
  - destruct (is_open (get r w)) eqn:Eo; cbn [negb]; intros [= <- <- <-]; [left|right; by auto].
    split_and!; eauto.
Qed.

Lemma concat_snoc {A} (l : list (list A)) x : concat (l ++ [x]) = concat l ++ x.
Proof. rewrite concat_app. simpl. by rewrite app_nil_r. Qed.

(** A failed send: closing comes next. *)
Lemma fail_inv pre w w1 w' r fs k :
  inv w (pre ++ k) → (closed_ w = true ∨ FClose ∉ k) → (closed_ w = false → attached (upstream_ w) = true) →
  (∀ r, get r w1 = get r w) → pending_to_upstream_ w1 = pending_to_upstream_ w →
  pending_to_upstream_bytes_ w1 = pending_to_upstream_bytes_ w → closed_ w1 = closed_ w →
  from_downstream w `prefix_of` from_downstream w1 → from_upstream w `prefix_of` from_upstream w1 →
  same w1 w' → (fs = [] ∨ fs = [FGone r] ∧ is_open (get r w') = false) →
  inv w' ((fs ++ [FClose]) ++ k).
Proof.
  intros [I1 [I2 I2'] I3 I4 I5 I6 [I7 I7'] I8] Hk Hatt G P B C F F' [S1 S2 S3 S4 S5 S6 S7 [S8 S9]] Hfs.
  pose proof (S1 kUpstream) as SU. pose proof (S1 kDownstream) as SD.
  pose proof (S2 kUpstream) as AU. pose proof (S3 kUpstream) as OU. pose proof (S4 kDownstream) as QD.
  rewrite (G kUpstream) in SU, AU, OU. rewrite (G kDownstream) in SD, QD. simpl in *.
  assert (flush_chunks ((fs ++ [FClose]) ++ k) = flush_chunks k) as Hfl.
  { rewrite !flush_chunks_app. by destruct Hfs as [->|[-> _]]. }
  split; rewrite ?SU, ?SD, ?AU, ?Hfl, ?S5, ?S6, ?S7, ?S8, ?S9, ?P, ?B, ?C; try done.
  - intros _ Hin. exfalso. apply Hin. set_solver.
  - split; by etrans.
  - intros Hc _. destruct Hk as [Hk|Hk]; [congruence|]. exists k. split; [done|].
    destruct Hfs as [->|[-> _]]; [by left|right; eauto].
  - intros q. rewrite !elem_of_app. intros [[Hq|Hq]|Hq].
    + destruct Hfs as [->|[-> Ho]]; [by apply not_elem_of_nil in Hq|].
      apply list_elem_of_singleton in Hq. by injection Hq as ->.
    + by apply list_elem_of_singleton in Hq.
    + apply S3. rewrite G. apply I4. set_solver.
  - intros Hne. destruct I5 as (?&?&?); [|by split_and!; auto].
    rewrite flush_chunks_app. by intros [_ ?]%app_eq_nil.
  - intros Hc Ha. rewrite Hatt in Ha; congruence.
Qed.

Ltac no_close := rewrite ?not_elem_of_cons, ?not_elem_of_app in *; naive_solver.

(** Data passed on to the peer [other r] by [Forward]. *)
Lemma sent_inv r data sg w k :
  inv w k → closed_ w = false → FClose ∉ k → attached (upstream_ w) = true →
  (r = kDownstream → flush_chunks k = []) →
  inv (set (other r) (add_sent data (get (other r) (note_forward r data w)))
         (bump (note_forward r data w))) (FSignals (other r) sg :: k).
Proof.
  intros [I1 [I2 I2'] I3 I4 I5 I6 [I7 I7'] I8] Hc Hk Ha Hf. destruct (I1 Hc Hk) as [E1 E2].
  destruct r; simpl; split; simpl; try done.
  - intros _ _. specialize (Hf eq_refl). change (flush_chunks _) with (flush_chunks k).
    rewrite Hf, concat_snoc. split; [|done].
    rewrite <-E1, Hf, (I6 Ha). simpl. by rewrite !app_nil_r.
  - rewrite concat_snoc, <-E1, (Hf eq_refl), (I6 Ha). simpl. rewrite app_nil_r. split; [done|].
    by rewrite <-E2.
  - intros _ [?|?]%elem_of_cons; done.
  - intros q [?|Hq]%elem_of_cons; [done|]. apply I4 in Hq. by destruct q.
  - intros Hc' Ha'. congruence.
  - intros _ _. change (flush_chunks _) with (flush_chunks k).
    rewrite concat_snoc. split; [done|by rewrite <-E2].
  - rewrite concat_snoc, <-E2. split; done.
  - intros _ [?|?]%elem_of_cons; done.
  - intros q [?|Hq]%elem_of_cons; [done|]. apply I4 in Hq. by destruct q.
  - intros Hc' Ha'. congruence.
Qed.

Lemma Forward_inv r data w k w' fs :
  inv w k → (closed_ w = true ∨ FClose ∉ k) →
  (r = kDownstream → flush_chunks k = []) →
  (r = kUpstream → closed_ w = false → attached (upstream_ w) = true) →
  Forward r data w = (w', fs) → inv w' (fs ++ k).
Proof.
  intros Hi Hk Hf Hu. unfold Forward. destruct (closed_ w) eqn:Hc; [by intros [= <- <-]|].
  destruct Hk as [?|Hk]; [done|].
  case_bool_decide as Hd; [by intros [= <- <-]|]. cbn [orb].
  assert (attached (upstream_ w) = true → attached (get (other r) w) = true →
    ∀ w' fs ok, SendProxyPayload (other r) data (note_forward r data w) = (w', fs, ok) →
    inv w' ((if negb ok then fs ++ [FClose] else fs) ++ k)) as Hsend.
  { intros Ha _ w1 fs1 ok E. apply send_cases in E as [(->&Ho&->&sg&->)|(->&Hs&Hfs)]; cbn [negb].
    - by apply (sent_inv r data sg w k).
    - eapply (fail_inv [] w (note_forward r data w)); try done; [by right| |];
        destruct r; simpl; done || by apply prefix_app_r. }
  destruct r; cbn [note_forward upstream_ downstream_].
  - destruct (attached (upstream_ w)) eqn:Ha; cbn [negb].
    + destruct (SendProxyPayload _ _ _) as [[w1 fs1] ok] eqn:E. intros [= <- <-].
      by apply (Hsend eq_refl Ha _ _ _ eq_refl).
    + intros [= <- <-]. destruct Hi as [I1 [I2 I2'] I3 I4 I5 I6 [I7 I7'] I8].
      destruct (I8 Hc Ha) as (->&HU&HD&HP&HR). destruct (I1 Hc Hk) as [E1 E2].
      unfold QueuePendingToUpstream. case_match eqn:El.
      * destruct (ClosePair_same (note_forward kDownstream data w)) as (Hs&Hcl&_).
        apply (close_inv (note_forward kDownstream data w)); try done.
        simpl. rewrite HU. apply prefix_nil.
      * simpl in *. split; simpl; try done.
        -- intros _ _. rewrite concat_snoc, <-E1. rewrite HU. simpl. split; [done|].
           by rewrite <-E2.
        -- rewrite HU, HD. split; [apply prefix_nil|]. rewrite <-E2, HD. done.
        -- congruence.
        -- rewrite concat_snoc, zlen_app, <-I7. split; [done|]. intros Hl0 Hl1.
           apply andb_false_iff in El as [El|El]; propify; lia.
  - destruct (attached (downstream_ w)) eqn:Ha; cbn [negb].
    + destruct (SendProxyPayload _ _ _) as [[w1 fs1] ok] eqn:E. intros [= <- <-].
      by apply (Hsend (Hu eq_refl eq_refl) Ha _ _ _ eq_refl).
    + intros [= <- <-]. destruct Hi as [I1 [I2 I2'] I3 I4 I5 I6 [I7 I7'] I8].
      destruct (ClosePair_same (note_forward kUpstream data w)) as (Hs&Hcl&Hau).
      apply (close_inv (note_forward kUpstream data w)); try done.
      * simpl. etrans; [exact I2'|by apply prefix_app_r].
      * intros Hne. destruct (I5 Hne) as (?&?&?). split_and!; try done. by apply Hau.
Qed.

Lemma OnPeerBackpressure_same r b w w' fs :
  OnPeerBackpressure r b w = (w', fs) → same w w' ∧ forallb plain_frame fs = true.
Proof.
  unfold OnPeerBackpressure, PausePeerRecv, ResumePeerRecv. intros E.
  repeat case_match; simplify_eq; (split; [|done]); by apply same_set || apply same_refl.
Qed.

Lemma FSignals_inv r s w k w' fs :
  inv w (FSignals r s :: k) → run_frame (FSignals r s) w = (w', fs) → inv w' (fs ++ k).
Proof.
  intros Hi. destruct s as [|[d rel|] s]; simpl.
  - intros [= <- <-]. by apply (quiet_inv (FSignals r []) [] k w); auto using same_refl; set_solver.
  - destruct (OnPeerBackpressure r true w) as [w1 fs1] eqn:E.
    apply OnPeerBackpressure_same in E as [H1 (Hf1&Hf2&Hf3)%plain_frames].
    set (w2 := if pause_cfg then _ else w1).
    assert (same w1 w2) as H2 by (subst w2; destruct pause_cfg; by apply same_set || apply same_refl).
    pose proof (same_trans _ _ _ H1 H2) as H12.
    destruct (d && is_open (get r w2)); intros [= <- <-]; rewrite <-app_assoc.
    + rewrite app_assoc. apply (quiet_inv (FSignals r (High d rel :: s)) _ k w); try done.
      * eapply same_trans; [done|]. by apply same_set.
      * destruct rel; set_solver.
      * rewrite flush_chunks_app, Hf3. by destruct rel.
      * intros q. rewrite !elem_of_app. intros [Hq|[Hq|Hq]]; [by apply Hf2 in Hq| |set_solver].
        destruct rel; [|by apply not_elem_of_nil in Hq]. apply list_elem_of_singleton in Hq.
        injection Hq as ->. by destruct r.
    + rewrite app_assoc. apply (quiet_inv (FSignals r (High d rel :: s)) _ k w); try done;
        [set_solver|by rewrite flush_chunks_app, Hf3|].
      intros q. rewrite elem_of_app. intros [Hq|Hq]; [by apply Hf2 in Hq|set_solver].
  - destruct (OnPeerBackpressure r false w) as [w1 fs1] eqn:E.
    apply OnPeerBackpressure_same in E as [H1 (Hf1&Hf2&Hf3)%plain_frames]. intros [= <- <-].
    apply (quiet_inv (FSignals r (Low :: s)) _ k w); try done;
      [set_solver|by rewrite flush_chunks_app, Hf3|].
    intros q. rewrite elem_of_app. intros [Hq|Hq]; [by apply Hf2 in Hq|set_solver].
Qed.

Lemma FDrain_inv r w k w' fs :
  inv w (FDrain r :: k) → run_frame (FDrain r) w = (w', fs) → inv w' (fs ++ k).
Proof.
  intros Hi. simpl.
  assert (inv w k) as Hpop.
  { by apply (quiet_inv (FDrain r) [] k w); auto using same_refl; set_solver. }
  destruct (_ && _); [|by intros [= <- <-]].
  destruct (paused_recv_queue_ (get r w)) as [|c q] eqn:Eq; [by intros [= <- <-]|].
  set (w1 := set r (set_queue q (get r w)) w).
  assert (same w w1) as Hs by (apply same_set; simpl; try done; intros E; congruence).
  destruct (Forward r c w1) as [w2 fs2] eqn:E. intros [= <- <-]. rewrite <-app_assoc.
  assert (closed_ w = true ∨ FClose ∉ FDrain r :: k) as Hk.
  { destruct (closed_ w) eqn:Hc; [by left|right]. intros Hin.
    destruct (iv_close _ _ Hi Hc Hin) as (k'&_&[?|[? ?]]); done. }
  assert (closed_ w = false → attached (upstream_ w) = true) as Ha.
  { intros Hc. destruct (attached (upstream_ w)) eqn:Ea; [done|].
    by destruct (iv_un _ _ Hi Hc Ea). }
  eapply Forward_inv; [| | | |exact E].
  - apply (quiet_inv (FDrain r) [FDrain r] k w); auto; set_solver.
  - by rewrite (sm_closed _ _ Hs).
  - intros ->. change (flush_chunks k = []). destruct (flush_chunks k) eqn:Ef; [done|].
    destruct (iv_flush _ _ Hpop) as (_&Hp&_); [by rewrite Ef|]. simpl in Eq. congruence.
  - intros _ Hc. rewrite (sm_closed _ _ Hs) in Hc. pose proof (sm_att _ _ Hs kUpstream) as H1.
    simpl in H1. rewrite H1. auto.
Qed.

Lemma FFlush_inv cs w k w' fs :
  inv w (FFlush cs :: k) → run_frame (FFlush cs) w = (w', fs) → inv w' (fs ++ k).
Proof.
  intros Hi. destruct cs as [|c cs]; simpl.
  { intros [= <- <-]. by apply (quiet_inv (FFlush []) [] k w); auto using same_refl; set_solver. }
  destruct (SendProxyPayload kUpstream c w) as [[w1 fs1] ok] eqn:E. intros [= <- <-].
  pose proof Hi as [I1 [I2 I2'] I3 I4 I5 I6 [I7 I7'] I8].
  destruct I5 as (Ha&Hp&Ho); [done|].
  assert (closed_ w = true ∨ FClose ∉ k) as Hk.
  { destruct (closed_ w) eqn:Hc; [by left|right]. intros Hin.
    destruct (I3 eq_refl) as (k'&_&[?|[? ?]]); [by apply list_elem_of_further|done..]. }
  apply send_cases in E as [(->&Hop&->&sg&->)|(->&Hs&Hfs)].
  - simpl in Hop. assert (closed_ w = false) as Hc
      by (destruct (closed_ w); [rewrite Ho in Hop by done|]; done).
    destruct Hk as [?|Hk]; [congruence|].
    destruct (I1 Hc) as [E1 E2]; [by apply not_elem_of_cons|].
    assert (concat (flush_chunks (FFlush (c :: cs) :: k)) =
      c ++ concat (flush_chunks (FFlush cs :: k))) as Hfl by done.
    rewrite Hfl in E1. split; simpl; try done.
    + intros _ _. rewrite concat_snoc, <-app_assoc. by rewrite <-E1, <-!app_assoc.
    + rewrite concat_snoc, <-E1. split; [|by rewrite <-E2].
      rewrite !app_assoc. do 2 apply prefix_app_r. done.
    + intros _ Hin. set_solver.
    + intros q Hq. assert (is_open (get q w) = false) as Hq2 by (apply I4; set_solver).
      destruct q; simpl in *; congruence.
    + intros _ Ha'. congruence.
  - change (FFlush (c :: cs) :: k) with ([FFlush (c :: cs)] ++ k) in Hi.
    by apply (fail_inv _ w w w1 kUpstream fs1 k Hi).
Qed.

Lemma OnPeerDisconnected_inv r w k :
  is_open (get r w) = false → inv w k → inv (OnPeerDisconnected r w) k.
Proof.
  intros Ho [I1 [I2 I2'] I3 I4 I5 I6 [I7 I7'] I8].
  assert ((same w (OnPeerDisconnected r w) ∨
    (same (set_closed w) (OnPeerDisconnected r w) ∧ closed_ w = false)) ∧
    closed_ (OnPeerDisconnected r w) = true ∧
    (attached (upstream_ w) = true → (closed_ w = true → is_open (upstream_ w) = false) →
     is_open (upstream_ (OnPeerDisconnected r w)) = false)) as (Hs&Hc&Hu).
  { unfold OnPeerDisconnected. destruct (closed_ w) eqn:Hc; [split_and!; auto using same_refl|].
    destruct r; unfold usable, DisconnectPeerAfterFlush; simpl in Ho.
    - split_and!.
      + right. split; [|done]. case_match; [by apply same_set|apply same_refl].
      + by case_match.
      + intros Ha _. simpl. rewrite Ha. cbn [andb]. by destruct (is_open (upstream_ w)) eqn:E.
    - split_and!.
      + right. split; [|done]. repeat case_match; by apply same_set || apply same_refl.
      + by repeat case_match.
      + intros _ _. simpl. by repeat case_match. }
  apply (close_inv w); try done.
  intros Hne. destruct (I5 Hne) as (?&?&?). auto.
Qed.

Lemma FGone_pop r w k : inv w (FGone r :: k) → is_open (get r w) = false ∧ inv w k.
Proof.
  intros [I1 I2 I3 I4 I5 I6 I7 I8]. split; [apply I4; set_solver|]. split; try done.
  - intros Hc Hk. apply I1; [done|]. set_solver.
  - intros Hc Hin. destruct (I3 Hc) as (k'&Hk'&[?|[q [= -> ->]]]); [set_solver|done|].
    exists k'. auto.
  - intros q Hq. apply I4. by apply list_elem_of_further.
  - intros Hc Ha. by destruct (I8 Hc Ha).
Qed.

Lemma run_frame_inv f w k w' fs :
  inv w (f :: k) → run_frame f w = (w', fs) → inv w' (fs ++ k).
Proof.
  intros Hi E. destruct f as [r s|r|r|cs|r|].
  - by eapply FSignals_inv.
  - simpl in E. destruct pause_cfg; injection E as <- <-.
    + apply (quiet_inv (FOwnResume r) _ k w); auto; [by apply same_set|set_solver|set_solver].
    + by apply (quiet_inv (FOwnResume r) [] k w); auto using same_refl; set_solver.
  - by eapply FDrain_inv.
  - by eapply FFlush_inv.
  - injection E as <- <-. destruct (FGone_pop _ _ _ Hi). by apply OnPeerDisconnected_inv.
  - injection E as <- <-. destruct Hi as [I1 [I2 I2'] I3 I4 I5 I6 [I7 I7'] I8].
    destruct (ClosePair_same w) as (Hs&Hc&Hu). apply (close_inv w); try done.
    + intros q Hq. apply I4. by apply list_elem_of_further.
    + intros Hne. destruct (I5 (flush_chunks_cons _ _ Hne)) as (?&?&Ho). split_and!; try done.
      destruct (closed_ w) eqn:E; [|auto]. unfold ClosePair. rewrite E. auto.
Qed.

Lemma AttachUpstream_inv w w' k :
  inv w [] → attached (upstream_ w) = false → closed_ w = false →
  AttachUpstream w = (w', k) → inv w' k.
Proof.
  intros [I1 [I2 I2'] I3 I4 I5 I6 [I7 I7'] I8] Ha Hc. unfold AttachUpstream. rewrite Hc.
  unfold FlushPendingToUpstream. cbn [set upstream_ set_attached attached negb].
  intros [= <- <-]. destruct (I8 Hc Ha) as (_&HU&HD&HP&HR).
  destruct (I1 Hc) as [E1 E2]; [set_solver|].
  assert (flush_chunks [FFlush (pending_to_upstream_ w)] = pending_to_upstream_ w) as Hf
    by (unfold flush_chunks; simpl; by rewrite app_nil_r).
  split; simpl; rewrite ?Hf; try done.
  - intros _ _. by rewrite app_nil_r.
  - intros _ ?. set_solver.
  - intros [] ?; set_solver.
  - intros _. split_and!; [done|done|congruence].
Qed.

(** Between calls. *)
Lemma inv_nil w :
  (closed_ w = false →
   concat (sent (upstream_ w)) ++ concat (pending_to_upstream_ w) = from_downstream w ∧
   concat (sent (downstream_ w)) = from_upstream w) →
  (concat (sent (upstream_ w)) `prefix_of` from_downstream w ∧
   concat (sent (downstream_ w)) `prefix_of` from_upstream w) →
  (attached (upstream_ w) = true → pending_to_upstream_ w = []) →
  (pending_to_upstream_bytes_ w = zlen (concat (pending_to_upstream_ w)) ∧
   (limit ≠ 0 → 0 ≤ limit → pending_to_upstream_bytes_ w ≤ limit)) →
  (closed_ w = false → attached (upstream_ w) = false →
   sent (upstream_ w) = [] ∧ sent (downstream_ w) = [] ∧
   paused_recv_queue_ (downstream_ w) = [] ∧ recv_paused_ (downstream_ w) = false) → inv w [].
Proof.
  intros H1 H2 H3 H4 H5. split; try done; auto; intros; by match goal with
    | Hin : _ ∈ [] |- _ => apply not_elem_of_nil in Hin end.
Qed.

Lemma inv_nil_exact w : inv w [] → closed_ w = false →
  concat (sent (upstream_ w)) ++ concat (pending_to_upstream_ w) = from_downstream w ∧
  concat (sent (downstream_ w)) = from_upstream w.
Proof. intros Hi Hc. by apply (iv_exact _ _ Hi Hc), not_elem_of_nil. Qed.

Lemma on_input_inv i w w' k :
  inv w [] → input_ok i w → on_input i w = (w', k) → inv w' k.
Proof.
  intros Hi Hok. destruct i as [|r data|r s|r|r|r]; simpl in *.
  - destruct Hok. by apply AttachUpstream_inv.
  - destruct Hok as [Ha Ho]. destruct (recv_paused_ (get r w)) eqn:Ep.
    + intros [= <- <-]. pose proof (inv_nil_exact w Hi). destruct Hi as [I1 I2 I3 I4 I5 I6 I7 I8].
      destruct r; apply inv_nil; simpl in *; try done;
        intros Hc Hu; destruct (I8 Hc Hu) as (?&?&?&?&?); congruence.
    + intros E. rewrite <-(app_nil_r k). eapply Forward_inv; [exact Hi|right; set_solver|done| |done].
      by intros ->.
  - intros [= <- <-]. destruct Hi as [I1 I2 I3 I4 I5 I6 I7 I8]. split; try done.
    + intros Hc _. apply I1; [done|set_solver].
    + intros _ ?. set_solver.
    + intros [] ?; set_solver.
    + intros Hc Ha. destruct (I8 Hc Ha) as (_&?&?&_&_). by destruct r; simpl in Hok.
  - intros [= <- <-]. pose proof (inv_nil_exact w Hi). destruct Hi as [I1 I2 I3 I4 I5 I6 I7 I8].
    destruct r; apply inv_nil; simpl in *; try done; intros Hc Ha; by destruct (I8 Hc Ha).
  - intros [= <- <-]. by apply OnPeerDisconnected_inv.
  - intros [= <- <-]. destruct Hok as [Ho Hc]. destruct Hi as [I1 I2 I3 I4 I5 I6 I7 I8].
    destruct r; apply inv_nil; simpl in *; try done; congruence.
Qed.

Lemma Bridge_new_inv : inv Bridge_new [].
Proof. apply inv_nil; simpl; done. Qed.

(** C9: a bridge forwards in order and loses nothing while it is open.  After any
    inputs and between any two calls, the payloads the upstream session took,
    followed by the data still waiting for the connection, are exactly what the
    downstream session gave to the bridge, in order, and likewise in the other
    direction; data waits only as long as there is no upstream session, within the
    limit.  Once closed, what was sent is still a prefix of what was received. *)
Theorem bridge_fifo w :
  0 ≤ limit → steps bridge_step (Bridge_new, []) (w, []) →
  (closed_ w = false →
     concat (sent (upstream_ w)) ++ concat (pending_to_upstream_ w) = from_downstream w ∧
     concat (sent (downstream_ w)) = from_upstream w) ∧
  concat (sent (upstream_ w)) `prefix_of` from_downstream w ∧
  concat (sent (downstream_ w)) `prefix_of` from_upstream w ∧
  (attached (upstream_ w) = true → pending_to_upstream_ w = []) ∧
  (limit ≠ 0 → zlen (concat (pending_to_upstream_ w)) ≤ limit).
Proof.
  intros Hl Hs.
  assert (inv w []) as [I1 [I2 I2'] I3 I4 I5 I6 [I7 I7'] I8].
  { apply (steps_invariant bridge_step (λ s, inv s.1 s.2) (Bridge_new, []) (w, []));
      [|exact Bridge_new_inv|exact Hs].
    intros a b Ha Hab. destruct Hab; simpl in *; [by eapply on_input_inv|by eapply run_frame_inv]. }
  cbn [fst snd] in *. split_and!; try done.
  - intros Hc. by apply (I1 Hc), not_elem_of_nil.
  - intros Hl0. rewrite <-I7. auto.
Qed.

(** Running inputs one after the other. *)
#[export] Instance input_ok_dec i w : Decision (input_ok i w).
Proof. destruct i; simpl; apply _. Defined.

Fixpoint run_inputs (fuel : nat) (ins : list input) (w : pair) : option pair :=
  match ins with
  | [] => Some w
  | i :: ins =>
    if decide (input_ok i w) then
      let '(w, k) := on_input i w in w ← run fuel w k; run_inputs fuel ins w
    else None
  end.

Lemma run_steps fuel w k w' : run fuel w k = Some w' → steps bridge_step (w, k) (w', []).
Proof.
  revert w k. induction fuel as [|fuel IH]; intros w [|f k]; simpl; try done;
    try (intros [= ->]; apply steps_refl).
  destruct (run_frame f w) as [w1 fs] eqn:E. intros Hr%IH.
  eapply steps_cons; [|exact Hr]. by apply b_frame.
Qed.

Lemma run_inputs_steps fuel ins w w' :
  run_inputs fuel ins w = Some w' → steps bridge_step (w, []) (w', []).
Proof.
  revert w. induction ins as [|i ins IH]; intros w; simpl.
  { intros [= ->]. apply steps_refl. }
  case_decide as Hok; [|done]. destruct (on_input i w) as [w1 k] eqn:E.
  destruct (run fuel w1 k) as [w2|] eqn:Er; [|done]. simpl. intros Hr%IH.
  eapply steps_cons; [by eapply b_input|]. eapply steps_trans; [|exact Hr]. by eapply run_steps.
Qed.
End Bridge.

(** Data before and after the connection is there; the third send stops the
    downstream session, whose next data is forwarded once a send finishes. *)
Definition sample_outcome (n : nat) : send_outcome :=
  if (n =? 2)%nat then Accepted [High false false] else Accepted [].
Definition sample_inputs : list input :=
  [IRecv kDownstream (txt "ab"); IRecv kDownstream (txt "c"); IAttachUpstream;
   IRecv kDownstream (txt "d"); IRecv kDownstream (txt "ef"); IRecv kUpstream (txt "xyz");
   ISent kUpstream [Low]].

Lemma bridge_fifo_witness :
  ∃ w, run_inputs 10 true sample_outcome 20 sample_inputs Bridge_new = Some w ∧
  from_downstream w = txt "abcdef" ∧
  (closed_ w = false →
     concat (sent (upstream_ w)) ++ concat (pending_to_upstream_ w) = from_downstream w ∧
     concat (sent (downstream_ w)) = from_upstream w) ∧
  concat (sent (upstream_ w)) `prefix_of` from_downstream w ∧
  concat (sent (downstream_ w)) `prefix_of` from_upstream w ∧
  (attached (upstream_ w) = true → pending_to_upstream_ w = []) ∧
  (10 ≠ 0 → zlen (concat (pending_to_upstream_ w)) ≤ 10).
Proof.
  destruct (run_inputs 10 true sample_outcome 20 sample_inputs Bridge_new) as [w|] eqn:E;
    [|by vm_compute in E].
  exists w. split; [done|]. split; [by vm_compute in E; simplify_eq|].
  apply (bridge_fifo 10 true sample_outcome); [lia|]. exact (run_inputs_steps _ _ _ _ _ _ _ E).
Defined.

(** [UpdateBackpressure] resumes receiving after its callback, also when that
    callback made the session send, and so go above its high watermark again: it
    then receives although it should be paused. *)
Example resume_after_nested_high :
  let outcome n := if (n <? 2)%nat then Accepted [High false false] else Accepted [] in
  let inputs := [IAttachUpstream; IRecv kUpstream (txt "x"); IRecv kUpstream (txt "y");
                 IRecv kDownstream (txt "z")] in
  (λ w, (recv_paused_ (downstream_ w), sent (downstream_ w), sent (upstream_ w))) <$>
    run_inputs 0 true outcome 20 inputs Bridge_new = Some (true, [txt "x"], []) ∧
  (λ w, (recv_paused_ (downstream_ w), sent (downstream_ w), sent (upstream_ w))) <$>
    run_inputs 0 true outcome 20 (inputs ++ [ISent kDownstream [Low]]) Bridge_new =
    Some (false, [txt "x"; txt "y"], [txt "z"]).
Proof. vm_compute. done. Qed.
