(* ===== verification/ProxyConnector.v ===== *)
(** * Upstream connections of the proxy

    [src/modules/proxy/ProxyConnector.cpp]: one attempt to connect to an upstream
    server, with its time-out and its cancellation, and the accounting of attempts
    in [TcpProxyServer::StartConnector].

    A connector is modelled with the requests it has in the ring, by identifier:
    each completes once, in any order and with any result, and its event object is
    deleted then.  Naming a deleted event in a cancel request has no result
    ([None]).  Whether allocating, preparing a request or opening the socket
    succeeds are answers of the environment. *)

From S2P Require Import Prelude Types.

#[local] Open Scope Z_scope.
#[local] Set Warnings "-clear-no-such-hyp".

Inductive op_kind := ConnectOp | TimeoutOp | CancelOp (target : nat).
#[export] Instance op_kind_eq_dec : EqDecision op_kind.
Proof. solve_decision. Defined.

(** What happens to the connector's socket, and its callbacks. *)
Inductive c_effect :=
| CloseSocket (fd : Z)
| StartUpstream (fd : Z)                      (* owned by the upstream session *)
| ConnectResult (success timeout : bool)
| Finished.
#[export] Instance c_effect_eq_dec : EqDecision c_effect.
Proof. solve_decision. Defined.

(** Source: src/modules/proxy/ProxyConnector.h:43-60, ProxyConnector.
    Beside the members: whether the bridge is closed, the requests in the ring,
    the next identifier, the effects and the number of questions asked. *)
Record connector := mkConnector {
  socket_ : Z;
  active_connect_ev_ : option nat;
  active_timeout_ev_ : option nat;
  self_ref_ : bool;
  pending_ops_ : Z;
  connect_pending_ : bool;
  timeout_armed_ : bool;
  finished_ : bool;
  finished_notified_ : bool;
  connect_result_notified_ : bool;
  bridge_closed : bool;
  ops : gmap nat op_kind;
  next_op : nat;
  effects : list c_effect;
  asked : nat;
}.

Record connector_env := mkConnectorEnv {
  alloc_ok : nat → bool;
  prep_ok : nat → bool;
  connect_timeout : Z;
}.

Section Connector.
Context (e : connector_env).
Implicit Types (c : connector).

Definition set_socket (fd : Z) c := mkConnector fd (active_connect_ev_ c) (active_timeout_ev_ c)
  (self_ref_ c) (pending_ops_ c) (connect_pending_ c) (timeout_armed_ c) (finished_ c)
  (finished_notified_ c) (connect_result_notified_ c) (bridge_closed c) (ops c) (next_op c)
  (effects c) (asked c).
Definition set_connect (ev : option nat) (pending : bool) c := mkConnector (socket_ c) ev
  (active_timeout_ev_ c) (self_ref_ c) (pending_ops_ c) pending (timeout_armed_ c) (finished_ c)
  (finished_notified_ c) (connect_result_notified_ c) (bridge_closed c) (ops c) (next_op c)
  (effects c) (asked c).
Definition set_timeout (ev : option nat) (armed : bool) c := mkConnector (socket_ c)
  (active_connect_ev_ c) ev (self_ref_ c) (pending_ops_ c) (connect_pending_ c) armed (finished_ c)
  (finished_notified_ c) (connect_result_notified_ c) (bridge_closed c) (ops c) (next_op c)
  (effects c) (asked c).
Definition set_self (b : bool) c := mkConnector (socket_ c) (active_connect_ev_ c)
  (active_timeout_ev_ c) b (pending_ops_ c) (connect_pending_ c) (timeout_armed_ c) (finished_ c)
  (finished_notified_ c) (connect_result_notified_ c) (bridge_closed c) (ops c) (next_op c)
  (effects c) (asked c).
Definition add_pending (n : Z) c := mkConnector (socket_ c) (active_connect_ev_ c)
  (active_timeout_ev_ c) (self_ref_ c) (pending_ops_ c + n) (connect_pending_ c) (timeout_armed_ c)
  (finished_ c) (finished_notified_ c) (connect_result_notified_ c) (bridge_closed c) (ops c)
  (next_op c) (effects c) (asked c).
Definition set_finished c := mkConnector (socket_ c) (active_connect_ev_ c)
  (active_timeout_ev_ c) (self_ref_ c) (pending_ops_ c) (connect_pending_ c) (timeout_armed_ c)
  true (finished_notified_ c) (connect_result_notified_ c) (bridge_closed c) (ops c)
  (next_op c) (effects c) (asked c).
Definition set_notified (fin res : bool) c := mkConnector (socket_ c) (active_connect_ev_ c)
  (active_timeout_ev_ c) (self_ref_ c) (pending_ops_ c) (connect_pending_ c) (timeout_armed_ c)
  (finished_ c) fin res (bridge_closed c) (ops c) (next_op c) (effects c) (asked c).
Definition ClosePair c := mkConnector (socket_ c) (active_connect_ev_ c)
  (active_timeout_ev_ c) (self_ref_ c) (pending_ops_ c) (connect_pending_ c) (timeout_armed_ c)
  (finished_ c) (finished_notified_ c) (connect_result_notified_ c) true (ops c) (next_op c)
  (effects c) (asked c).
Definition set_ops (m : gmap nat op_kind) c := mkConnector (socket_ c) (active_connect_ev_ c)
  (active_timeout_ev_ c) (self_ref_ c) (pending_ops_ c) (connect_pending_ c) (timeout_armed_ c)
  (finished_ c) (finished_notified_ c) (connect_result_notified_ c) (bridge_closed c) m (next_op c)
  (effects c) (asked c).
Definition effect (x : c_effect) c := mkConnector (socket_ c) (active_connect_ev_ c)
  (active_timeout_ev_ c) (self_ref_ c) (pending_ops_ c) (connect_pending_ c) (timeout_armed_ c)
  (finished_ c) (finished_notified_ c) (connect_result_notified_ c) (bridge_closed c) (ops c)
  (next_op c) (effects c ++ [x]) (asked c).

(** Allocating an event and preparing its request: the identifier when both
    succeed; an event whose request could not be prepared is deleted. *)
Definition new_op (k : op_kind) c : option nat * connector :=
  let ok := alloc_ok e (asked c) && prep_ok e (asked c) in
  (if ok then Some (next_op c) else None,
   mkConnector (socket_ c) (active_connect_ev_ c) (active_timeout_ev_ c) (self_ref_ c)
     (pending_ops_ c) (connect_pending_ c) (timeout_armed_ c) (finished_ c) (finished_notified_ c)
     (connect_result_notified_ c) (bridge_closed c)
     (if ok then <[next_op c := k]> (ops c) else ops c) (S (next_op c)) (effects c) (S (asked c))).

(** [socket_.Reset()]. *)
Definition ResetSocket c : connector :=
  if 0 <=? socket_ c then set_socket (-1) (effect (CloseSocket (socket_ c)) c) else c.

(** Source: src/modules/proxy/ProxyConnector.cpp:242-250, ProxyConnector::NotifyConnectResult. *)
Definition NotifyConnectResult (success timeout : bool) c : connector :=
  if connect_result_notified_ c then c else
  effect (ConnectResult success timeout) (set_notified (finished_notified_ c) true c).

(** Source: src/modules/proxy/ProxyConnector.cpp:252-260, ProxyConnector::NotifyFinished. *)
Definition NotifyFinished c : connector :=
  if finished_notified_ c then c else
  effect Finished (set_notified true (connect_result_notified_ c) c).

(** Source: src/modules/proxy/ProxyConnector.cpp:262-266, ProxyConnector::MaybeRelease. *)
Definition MaybeRelease c : connector := if pending_ops_ c =? 0 then set_self false c else c.

(** The cancel request for [target], which must not have been deleted. *)
Definition cancel_op (target : nat) c : option connector :=
  match ops c !! target with
  | None => None
  | Some _ =>
    let '(r, c) := new_op (CancelOp target) c in
    Some (if r is Some _ then add_pending 1 c else c)
  end.

Definition cancel_connect c : option connector :=
  match active_connect_ev_ c with
  | Some ev => if connect_pending_ c then cancel_op ev c else Some c
  | None => Some c
  end.

Definition cancel_timeout c : option connector :=
  match active_timeout_ev_ c with
  | Some ev =>
    if timeout_armed_ c then c ← cancel_op ev c; Some (set_timeout (active_timeout_ev_ c) false c)
    else Some c
  | None => Some c
  end.

(** Source: src/modules/proxy/ProxyConnector.cpp:34-85, ProxyConnector::Start.
    [fd] is the result of [CreateConnectSocket]. *)
Definition Start (fd : Z) c : connector * expected unit IoError :=
  let c := set_self true c in
  if fd <? 0 then (set_self false c, Unexpected kConnectionRefused) else
  let c := set_socket fd (ResetSocket c) in
  let '(r, c) := new_op ConnectOp c in
  match r with
  | None => (set_self false (ResetSocket c), Unexpected kConnectionRefused)
  | Some ev =>
    let c := set_connect (Some ev) true (add_pending 1 c) in
    if 0 <? connect_timeout e then
      let '(r, c) := new_op TimeoutOp c in
      match r with
      | Some ev => (set_timeout (Some ev) true (add_pending 1 c), Value tt)
      | None => (c, Value tt)
      end
    else (c, Value tt)
  end.

(** Source: src/modules/proxy/ProxyConnector.cpp:87-127, ProxyConnector::Cancel. *)
Definition Cancel c : option connector :=
  if finished_ c then Some c else
  let c := ResetSocket (ClosePair (set_finished c)) in
  c ← cancel_connect c;
  c ← cancel_timeout c;
  Some (MaybeRelease (NotifyFinished c)).

(** Source: src/modules/proxy/ProxyConnector.cpp:129-179, ProxyConnector::OnConnect. *)
Definition OnConnect (ev : nat) (result : Z) c : option connector :=
  let c := add_pending (-1) c in
  let active := if decide (active_connect_ev_ c = Some ev) then None else active_connect_ev_ c in
  let c := set_connect active false c in
  if finished_ c then Some (MaybeRelease c) else
  c ← cancel_timeout c;
  if (result <? 0) || bridge_closed c then
    let c := ResetSocket (set_finished (NotifyConnectResult false false c)) in
    Some (MaybeRelease (NotifyFinished (ClosePair c)))
  else
    let c := set_socket (-1) (effect (StartUpstream (socket_ c)) c) in
    let c := set_finished (NotifyConnectResult true false c) in
    Some (MaybeRelease (NotifyFinished c)).

Definition ECANCELED : Z := 125.

(** Source: src/modules/proxy/ProxyConnector.cpp:181-221, ProxyConnector::OnTimeout. *)
Definition OnTimeout (ev : nat) (result : Z) c : option connector :=
  let c := add_pending (-1) c in
  let active := if decide (active_timeout_ev_ c = Some ev) then None else active_timeout_ev_ c in
  let c := set_timeout active false c in
  if finished_ c then Some (MaybeRelease c) else
  if result =? - ECANCELED then Some (MaybeRelease c) else
  let c := NotifyConnectResult false true (set_finished c) in
  let c := ResetSocket (ClosePair c) in
  c ← cancel_connect c;
  Some (MaybeRelease (NotifyFinished c)).

(** Source: src/modules/proxy/ProxyConnector.cpp:223-227, ProxyConnector::OnCancel. *)
Definition OnCancel c : connector := MaybeRelease (add_pending (-1) c).

(** A request completes: its handler runs, then its event is deleted. *)
Definition complete (ev : nat) (result : Z) c : option connector :=
  match ops c !! ev with
  | None => None
  | Some k =>
    c ← match k with
        | ConnectOp => OnConnect ev result c
        | TimeoutOp => OnTimeout ev result c
        | CancelOp _ => Some (OnCancel c)
        end;
    Some (set_ops (delete ev (ops c)) c)
  end.

(** A connector before [Start]. *)
Definition Connector_new : connector :=
  mkConnector (-1) None None false 0 false false false false false false ∅ 0 [] 0.

(** ** Invariant *)

(** The requests that have not completed, while the handler of [ev] runs. *)
Definition outstanding (ev : option nat) c : gmap nat op_kind :=
  match ev with Some ev => delete ev (ops c) | None => ops c end.

(** The counters and pointers match the requests. *)
Record core (ev : option nat) c : Prop := {
  co_pending : pending_ops_ c = Z.of_nat (size (outstanding ev c));
  co_connect : ∀ x, outstanding ev c !! x = Some ConnectOp ↔ active_connect_ev_ c = Some x;
  co_cpend : connect_pending_ c = bool_decide (is_Some (active_connect_ev_ c));
  co_timeout : ∀ x, outstanding ev c !! x = Some TimeoutOp ↔ active_timeout_ev_ c = Some x;
  co_armed : timeout_armed_ c = true → is_Some (active_timeout_ev_ c);
  co_fresh : ∀ x, is_Some (ops c !! x) → (x < next_op c)%nat;
}.

Definition socket_effect (x : c_effect) : bool :=
  match x with CloseSocket _ | StartUpstream _ => true | _ => false end.
Definition result_effect (x : c_effect) : bool :=
  match x with ConnectResult _ _ => true | _ => false end.
Definition finished_effect (x : c_effect) : bool :=
  match x with Finished => true | _ => false end.
Definition count (p : c_effect → bool) c : nat := length (filter p (effects c)).

(** The socket is open until the connector is finished and then was closed or
    given to a session, once; the callbacks follow. *)
Record outer (fd : Z) c : Prop := {
  ou_socket : socket_ c = if finished_ c then -1 else fd;
  ou_effects : filter socket_effect (effects c) = [] ∧ finished_ c = false ∨
    finished_ c = true ∧ (filter socket_effect (effects c) = [CloseSocket fd] ∨
                          filter socket_effect (effects c) = [StartUpstream fd]);
  ou_notified : finished_notified_ c = finished_ c;
  ou_finished : count finished_effect c = if finished_ c then 1%nat else 0%nat;
  ou_result : count result_effect c = if connect_result_notified_ c then 1%nat else 0%nat;
  ou_fresh : finished_ c = false → connect_result_notified_ c = false;
}.

Record conn_inv (fd : Z) c : Prop := {
  cn_core : core None c;
  cn_outer : outer fd c;
  cn_fin : finished_ c = false → is_Some (active_connect_ev_ c);
  cn_self : self_ref_ c = bool_decide (ops c ≠ ∅);
}.

(** What a cancel request leaves alone. *)
Definition framed c c' : Prop :=
  socket_ c' = socket_ c ∧ self_ref_ c' = self_ref_ c ∧ finished_ c' = finished_ c ∧
  finished_notified_ c' = finished_notified_ c ∧
  connect_result_notified_ c' = connect_result_notified_ c ∧
  bridge_closed c' = bridge_closed c ∧ effects c' = effects c ∧
  active_connect_ev_ c' = active_connect_ev_ c ∧ connect_pending_ c' = connect_pending_ c ∧
  active_timeout_ev_ c' = active_timeout_ev_ c.

Lemma outstanding_lookup ev c x k : outstanding ev c !! x = Some k → ops c !! x = Some k.
Proof. destruct ev; [|done]. simpl. by intros [_ ?]%lookup_delete_Some. Qed.

(** A new request is outstanding. *)
Lemma new_op_core ev k c r c' :
  core ev c → (∀ x, ev = Some x → (x < next_op c)%nat) → new_op k c = (r, c') →
  framed c c' ∧ timeout_armed_ c' = timeout_armed_ c ∧ pending_ops_ c' = pending_ops_ c ∧
  next_op c' = S (next_op c) ∧
  outstanding ev c' =
    (if r is Some y then <[y := k]> (outstanding ev c) else outstanding ev c) ∧
  (∀ y, r = Some y → y = next_op c ∧ outstanding ev c !! y = None) ∧
  (∀ x, is_Some (ops c' !! x) → (x < next_op c')%nat).
Proof.
  intros Hc Hev E. unfold new_op in E. injection E as <- <-. simpl.
  assert (ops c !! next_op c = None) as Hn.
  { apply eq_None_not_Some. intros ?%(co_fresh _ _ Hc). lia. }
  split; [by split_and!|]. split; [done|]. split; [done|]. split; [done|].
  destruct (_ && _).
  - split_and!.
    + destruct ev as [x|]; [|done]. simpl. apply delete_insert_ne. specialize (Hev x eq_refl). lia.
    + intros y [= <-]. split; [done|]. destruct ev; [|done]. simpl. rewrite lookup_delete_None. auto.
    + intros x [y [[-> _]|[_ Hx]]%lookup_insert_Some]; [lia|].
      pose proof (co_fresh _ _ Hc x ltac:(eauto)). lia.
  - split_and!; [by destruct ev|done|]. intros x Hx%(co_fresh _ _ Hc). lia.
Qed.

Lemma cancel_op_core ev t c :
  core ev c → (∀ x, ev = Some x → (x < next_op c)%nat) → is_Some (outstanding ev c !! t) →
  ∃ c', cancel_op t c = Some c' ∧ core ev c' ∧ framed c c' ∧ next_op c' = S (next_op c) ∧
    timeout_armed_ c' = timeout_armed_ c.
Proof.
  intros Hc Hev [k0 Ht]. unfold cancel_op. rewrite (outstanding_lookup _ _ _ _ Ht).
  destruct (new_op (CancelOp t) c) as [r c1] eqn:E.
  destruct (new_op_core ev _ _ _ _ Hc Hev E) as (Hf&Ha&Hp&Hn&Ho&Hr&Hfr).
  pose proof Hf as (F1&F2&F3&F4&F5&F6&F7&F8&F9&F10). destruct Hc as [C1 C2 C3 C4 C5 C6].
  destruct r as [y|]; (eexists; split; [done|]); (split; [|by split_and!]).
  - destruct (Hr y eq_refl) as [-> Hy].
    assert (∀ x k, k ≠ CancelOp t → <[next_op c:=CancelOp t]> (outstanding ev c) !! x = Some k ↔
      outstanding ev c !! x = Some k) as Hl.
    { intros x k Hk. rewrite lookup_insert_Some. split; [naive_solver|]. intros Hx. right.
      split; [congruence|done]. }
    assert (outstanding ev (add_pending 1 c1) = <[next_op c:=CancelOp t]> (outstanding ev c)) as Ho'
      by (rewrite <-Ho; by destruct ev).
    split; rewrite ?Ho'; simpl; rewrite ?F8, ?F9, ?F10, ?Ha; try done.
    + rewrite Hp, map_size_insert_None by done. lia.
    + intros x. rewrite Hl by done. done.
    + intros x. rewrite Hl by done. done.
  - split; rewrite ?Ho; rewrite ?F8, ?F9, ?F10, ?Ha, ?Hp; done.
Qed.

(** Fields the requests' invariant is about. *)
Definition core_fields c :=
  (pending_ops_ c, active_connect_ev_ c, connect_pending_ c, active_timeout_ev_ c,
   timeout_armed_ c, ops c, next_op c).

Lemma core_congr ev c c' : core_fields c' = core_fields c → core ev c → core ev c'.
Proof.
  unfold core_fields. intros [= E1 E2 E3 E4 E5 E6 E7] [C1 C2 C3 C4 C5 C6].
  assert (outstanding ev c' = outstanding ev c) as Eo by (destruct ev; simpl; by rewrite E6).
  split; rewrite ?Eo, ?E1, ?E2, ?E3, ?E4, ?E5, ?E6, ?E7; done.
Qed.

Lemma cancel_connect_core ev c :
  core ev c → (∀ x, ev = Some x → (x < next_op c)%nat) →
  ∃ c', cancel_connect c = Some c' ∧ core ev c' ∧ framed c c' ∧ (next_op c ≤ next_op c')%nat ∧
    timeout_armed_ c' = timeout_armed_ c.
Proof.
  intros Hc Hev. unfold cancel_connect. destruct (active_connect_ev_ c) as [x|] eqn:E.
  2:{ eexists. split_and!; done || lia. }
  destruct (connect_pending_ c); [|eexists; split_and!; done || lia].
  destruct (cancel_op_core ev x c Hc Hev) as (c'&->&?&?&?&?).
  { exists ConnectOp. by apply (co_connect _ _ Hc). }
  eexists. split_and!; try done; lia.
Qed.

Lemma cancel_timeout_core ev c :
  core ev c → (∀ x, ev = Some x → (x < next_op c)%nat) →
  ∃ c', cancel_timeout c = Some c' ∧ core ev c' ∧ framed c c' ∧ (next_op c ≤ next_op c')%nat.
Proof.
  intros Hc Hev. unfold cancel_timeout. destruct (active_timeout_ev_ c) as [x|] eqn:E.
  2:{ eexists. split_and!; done || lia. }
  destruct (timeout_armed_ c) eqn:Ea; [|eexists; split_and!; done || lia].
  destruct (cancel_op_core ev x c Hc Hev) as (c'&->&Hc'&Hf&Hn&Ha).
  { exists TimeoutOp. by apply (co_timeout _ _ Hc). }
  simpl. eexists. split; [done|]. split_and!; [|by destruct Hf as (?&?&?&?&?&?&?&?&?&?);
    split_and!|simpl; lia].
  destruct Hc' as [C1 C2 C3 C4 C5 C6]. by split; try (destruct ev; done).
Qed.

(** The beginning of a handler. *)
Lemma begin_pending c ev k :
  core None c → ops c !! ev = Some k →
  pending_ops_ c - 1 = Z.of_nat (size (delete ev (ops c))).
Proof.
  intros Hc Hk. rewrite (co_pending _ _ Hc), map_size_delete_Some by eauto. simpl.
  assert (size (ops c) ≠ 0%nat) by (apply map_size_ne_0_lookup; eauto). lia.
Qed.

Lemma begin_connect c ev :
  core None c → ops c !! ev = Some ConnectOp →
  core (Some ev) (set_connect None false (add_pending (-1) c)) ∧ active_connect_ev_ c = Some ev.
Proof.
  intros Hc Hk. assert (active_connect_ev_ c = Some ev) as Ha by (by apply (co_connect _ _ Hc)).
  split; [|done]. pose proof (begin_pending _ _ _ Hc Hk). destruct Hc as [C1 C2 C3 C4 C5 C6].
  split; simpl in *; try done; intros x; rewrite lookup_delete_Some.
  - split; [|done]. intros [Hne Hx%C2]. congruence.
  - rewrite <-C4. split; [by intros [_ ?]|]. intros Hx. split; [congruence|done].
Qed.

Lemma begin_timeout c ev :
  core None c → ops c !! ev = Some TimeoutOp →
  core (Some ev) (set_timeout None false (add_pending (-1) c)) ∧ active_timeout_ev_ c = Some ev.
Proof.
  intros Hc Hk. assert (active_timeout_ev_ c = Some ev) as Ha by (by apply (co_timeout _ _ Hc)).
  split; [|done]. pose proof (begin_pending _ _ _ Hc Hk). destruct Hc as [C1 C2 C3 C4 C5 C6].
  split; simpl in *; try done; intros x; rewrite lookup_delete_Some.
  - rewrite <-C2. split; [by intros [_ ?]|]. intros Hx. split; [congruence|done].
  - split; [|done]. intros [Hne Hx%C4]. congruence.
Qed.

Lemma begin_cancel c ev t :
  core None c → ops c !! ev = Some (CancelOp t) → core (Some ev) (add_pending (-1) c).
Proof.
  intros Hc Hk. pose proof (begin_pending _ _ _ Hc Hk). destruct Hc as [C1 C2 C3 C4 C5 C6].
  split; simpl in *; try done; intros x; rewrite lookup_delete_Some.
  - rewrite <-C2. split; [by intros [_ ?]|]. intros Hx. split; [congruence|done].
  - rewrite <-C4. split; [by intros [_ ?]|]. intros Hx. split; [congruence|done].
Qed.

(** The end of a handler: [MaybeRelease], then the event goes. *)
Lemma end_inv fd ev c :
  core (Some ev) c → outer fd c → (finished_ c = false → is_Some (active_connect_ev_ c)) →
  self_ref_ c = true →
  conn_inv fd (set_ops (delete ev (ops (MaybeRelease c))) (MaybeRelease c)).
Proof.
  intros Hc Ho Hf Hs. pose proof Hc as [C1 C2 C3 C4 C5 C6]. simpl in *.
  assert (outstanding None (set_ops (delete ev (ops (MaybeRelease c))) (MaybeRelease c)) =
    delete ev (ops c)) as Hout by (unfold MaybeRelease; by destruct (_ =? _)).
  split.
  - split; rewrite ?Hout; unfold MaybeRelease; destruct (pending_ops_ c =? 0); simpl; try done;
      intros x [y [_ ?]%lookup_delete_Some]; eauto.
  - destruct Ho as [O1 O2 O3 O4 O5 O6]. unfold MaybeRelease. by destruct (_ =? _); split.
  - unfold MaybeRelease. by destruct (_ =? _).
  - unfold MaybeRelease. destruct (Z.eqb_spec (pending_ops_ c) 0) as [Ez|Ez]; simpl; symmetry.
    + apply bool_decide_eq_false. intros Hne. apply Hne, map_size_empty_inv. lia.
    + rewrite Hs. apply bool_decide_eq_true. intros He. rewrite He, map_size_empty in C1. lia.
Qed.

(** Finishing: the effects [l] close or hand over the socket and run the callbacks. *)
Lemma outer_finish fd c c' l :
  outer fd c → finished_ c = false → effects c' = effects c ++ l →
  (filter socket_effect l = [CloseSocket fd] ∨ filter socket_effect l = [StartUpstream fd]) →
  length (filter finished_effect l) = 1%nat →
  length (filter result_effect l) = (if connect_result_notified_ c' then 1%nat else 0%nat) →
  finished_ c' = true → socket_ c' = -1 → finished_notified_ c' = true → outer fd c'.
Proof.
  intros [O1 O2 O3 O4 O5 O6] Hf He Hs Hn Hr Hf' Hk Hn'.
  rewrite Hf in O4. rewrite (O6 Hf) in O5. unfold count in *.
  assert (filter socket_effect (effects c) = []) as Hsk by (destruct O2 as [[? _]|[? _]]; congruence).
  split; rewrite ?Hf', ?Hk, ?Hn', ?He; unfold count; rewrite ?He, ?filter_app, ?length_app; try done.
  - right. rewrite Hsk. by destruct Hs as [-> | ->]; auto.
  - by rewrite O4, Hn.
  - by rewrite O5, Hr.
Qed.

Section Steps.
Context (fd : Z) (fd_ok : 0 ≤ fd).

Lemma self_ref_busy c ev : conn_inv fd c → is_Some (ops c !! ev) → self_ref_ c = true.
Proof.
  intros Hi [k Hk]. rewrite (cn_self _ _ Hi). apply bool_decide_eq_true. intros E.
  by rewrite E, lookup_empty in Hk.
Qed.

Lemma complete_connect c ev result :
  conn_inv fd c → ops c !! ev = Some ConnectOp →
  ∃ c', complete ev result c = Some c' ∧ conn_inv fd c' ∧ finished_ c' = true.
Proof.
  intros Hi Hk. pose proof (self_ref_busy c ev Hi ltac:(eauto)) as Hself.
  destruct Hi as [Hc Ho Hfin _]. destruct (begin_connect c ev Hc Hk) as [Hc1 Ha].
  pose proof (co_fresh _ _ Hc ev ltac:(eauto)) as Hlt.
  unfold complete. rewrite Hk. unfold OnConnect. cbn [add_pending active_connect_ev_].
  rewrite decide_True by done. set (c1 := set_connect None false (add_pending (-1) c)) in *.
  assert (outer fd c1) as Ho1 by (by destruct Ho as [O1 O2 O3 O4 O5 O6]; split).
  change (set_connect None false _) with c1. destruct (finished_ c1) eqn:Ef.
  { eexists. split; [done|]. split; [|unfold MaybeRelease; by case_match].
    apply end_inv; try done. congruence. }
  destruct (cancel_timeout_core (Some ev) c1 Hc1) as (c2&->&Hc2&Hf2&Hn2); [by intros x [= <-]|].
  destruct Hf2 as (F1&F2&F3&F4&F5&F6&F7&F8&F9&F10). cbn [mbind option_bind].
  pose proof (ou_socket _ _ Ho1) as Hsock. rewrite Ef in Hsock.
  pose proof (ou_notified _ _ Ho1) as Hnot. rewrite Ef in Hnot.
  pose proof (ou_fresh _ _ Ho1 Ef) as Hres.
  rewrite Hsock in F1. rewrite Hnot in F4. rewrite Hres in F5.
  destruct ((result <? 0) || bridge_closed c2).
  - unfold NotifyConnectResult. rewrite F5. unfold ResetSocket. cbn [socket_ set_finished effect set_notified].
    rewrite F1, (proj2 (Z.leb_le 0 fd)) by done. unfold NotifyFinished. simpl. rewrite F4.
    eexists. split; [done|]. split; [|unfold MaybeRelease; by case_match].
    apply end_inv; simpl; [by apply (core_congr _ c2)| |done|by rewrite F2].
    eapply (outer_finish fd c1 _ [ConnectResult false false; CloseSocket fd; Finished]); try done;
      [simpl; by rewrite F7, <-!app_assoc|by left].
  - unfold NotifyConnectResult. simpl. rewrite F5. unfold NotifyFinished. simpl. rewrite F4.
    eexists. split; [done|]. split; [|unfold MaybeRelease; by case_match].
    apply end_inv; simpl; [by apply (core_congr _ c2)| |done|by rewrite F2].
    eapply (outer_finish fd c1 _ [StartUpstream fd; ConnectResult true false; Finished]); try done;
      [simpl; by rewrite F7, F1, <-!app_assoc|by right].
Qed.

Lemma complete_timeout c ev result :
  conn_inv fd c → ops c !! ev = Some TimeoutOp →
  ∃ c', complete ev result c = Some c' ∧ conn_inv fd c' ∧
    (finished_ c = true → finished_ c' = true).
Proof.
  intros Hi Hk. pose proof (self_ref_busy c ev Hi ltac:(eauto)) as Hself.
  destruct Hi as [Hc Ho Hfin _]. destruct (begin_timeout c ev Hc Hk) as [Hc1 Ha].
  pose proof (co_fresh _ _ Hc ev ltac:(eauto)) as Hlt.
  unfold complete. rewrite Hk. unfold OnTimeout. cbn [add_pending active_timeout_ev_].
  rewrite decide_True by done. set (c1 := set_timeout None false (add_pending (-1) c)) in *.
  assert (outer fd c1) as Ho1 by (by destruct Ho as [O1 O2 O3 O4 O5 O6]; split).
  change (set_timeout None false _) with c1. destruct (finished_ c1) eqn:Ef.
  { eexists. split; [done|]. split; [|unfold MaybeRelease; by case_match].
    by apply end_inv. }
  destruct (result =? - ECANCELED).
  { eexists. split; [done|]. split; [by apply end_inv|]. intros Hf. unfold c1 in Ef. simpl in Ef. congruence. }
  pose proof (ou_socket _ _ Ho1) as Hsock. rewrite Ef in Hsock.
  pose proof (ou_notified _ _ Ho1) as Hnot. rewrite Ef in Hnot.
  pose proof (ou_fresh _ _ Ho1 Ef) as Hres.
  unfold NotifyConnectResult. cbn [set_finished connect_result_notified_]. rewrite Hres.
  unfold ResetSocket. cbn [ClosePair effect set_notified set_finished socket_].
  rewrite Hsock, (proj2 (Z.leb_le 0 fd)) by done.
  set (c2 := set_socket (-1) _). assert (core (Some ev) c2) as Hc2 by (by apply (core_congr _ c1)).
  destruct (cancel_connect_core (Some ev) c2 Hc2) as (c3&->&Hc3&Hf3&Hn3&_); [by intros x [= <-]|].
  destruct Hf3 as (F1&F2&F3&F4&F5&F6&F7&F8&F9&F10). cbn [mbind option_bind].
  unfold NotifyFinished. simpl in F4, Hnot. rewrite F4, Hnot.
  eexists. split; [done|]. split; [|unfold MaybeRelease; by case_match].
  apply end_inv; simpl; [by apply (core_congr _ c3)| | |by rewrite F2].
  - eapply (outer_finish fd c1 _ [ConnectResult false true; CloseSocket fd; Finished]);
      simpl; try done; rewrite ?F7, ?F5, ?F3, ?F1; simpl; rewrite <-?app_assoc; by auto.
  - rewrite F3. done.
Qed.

Lemma complete_cancel c ev t result :
  conn_inv fd c → ops c !! ev = Some (CancelOp t) →
  ∃ c', complete ev result c = Some c' ∧ conn_inv fd c' ∧ finished_ c' = finished_ c.
Proof.
  intros Hi Hk. pose proof (self_ref_busy c ev Hi ltac:(eauto)) as Hself.
  destruct Hi as [Hc Ho Hfin _]. pose proof (begin_cancel c ev t Hc Hk) as Hc1.
  unfold complete. rewrite Hk. unfold OnCancel. eexists. split; [done|].
  split; [|unfold MaybeRelease; by case_match]. apply end_inv; try done.
  by destruct Ho as [O1 O2 O3 O4 O5 O6]; split.
Qed.

Lemma Cancel_inv c :
  conn_inv fd c → ∃ c', Cancel c = Some c' ∧ conn_inv fd c' ∧ finished_ c' = true.
Proof.
  intros Hi. unfold Cancel. destruct (finished_ c) eqn:Ef; [by exists c|].
  pose proof Hi as [Hc Ho Hfin Hself].
  pose proof (ou_socket _ _ Ho) as Hsock. rewrite Ef in Hsock.
  pose proof (ou_notified _ _ Ho) as Hnot. rewrite Ef in Hnot.
  destruct (Hfin Ef) as [a Ha]. assert (self_ref_ c = true) as Hs.
  { apply (self_ref_busy c a Hi). exists ConnectOp. by apply (co_connect _ _ Hc). }
  unfold ResetSocket. cbn [ClosePair set_finished socket_].
  rewrite Hsock, (proj2 (Z.leb_le 0 fd)) by done.
  set (c1 := set_socket (-1) _). assert (core None c1) as Hc1 by (by apply (core_congr _ c)).
  destruct (cancel_connect_core None c1 Hc1) as (c2&->&Hc2&Hf2&_&_); [done|]. cbn [mbind option_bind].
  destruct (cancel_timeout_core None c2 Hc2) as (c3&->&Hc3&Hf3&_); [done|]. cbn [mbind option_bind].
  destruct Hf2 as (F1&F2&F3&F4&F5&F6&F7&F8&F9&F10).
  destruct Hf3 as (G1&G2&G3&G4&G5&G6&G7&G8&G9&G10).
  assert (finished_notified_ c3 = false) as Hn3 by (by rewrite G4, F4).
  unfold NotifyFinished. rewrite Hn3. eexists. split; [done|].
  set (c4 := effect Finished _).
  assert (core None c4) as Hc4 by (by apply (core_congr _ c3)).
  assert (is_Some (ops c4 !! a)) as Hlive.
  { exists ConnectOp. apply (co_connect _ _ Hc4). simpl. by rewrite G8, F8. }
  assert (MaybeRelease c4 = c4) as ->.
  { unfold MaybeRelease. assert (size (ops c4) ≠ 0%nat) by (apply map_size_ne_0_lookup; eauto).
    pose proof (co_pending _ _ Hc4) as Hp. change (outstanding None c4) with (ops c4) in Hp.
    by rewrite (proj2 (Z.eqb_neq _ _)) by lia. }
  split; [|simpl; by rewrite G3, F3]. split; [done| | |].
  - eapply (outer_finish fd c _ [CloseSocket fd; Finished]);
      simpl; try done; rewrite ?G7, ?F7, ?G5, ?F5, ?G3, ?F3, ?G1, ?F1; simpl;
      rewrite <-?app_assoc, ?(ou_fresh _ _ Ho Ef); by auto.
  - simpl. by rewrite G3, F3.
  - simpl. rewrite G2, F2. simpl. rewrite Hs. symmetry. apply bool_decide_eq_true.
    intros E. destruct Hlive as [y Hy]. simpl in Hy. by rewrite E, lookup_empty in Hy.
Qed.
End Steps.

(** [Start]: the connect request is made, or the socket is closed again. *)
Lemma Start_cases fd c :
  c = Connector_new ∨ c = ClosePair Connector_new →
  let '(c', r) := Start fd c in
  match r with
  | Value _ => 0 ≤ fd ∧ conn_inv fd c' ∧ finished_ c' = false
  | Unexpected x => x = kConnectionRefused ∧ ops c' = ∅ ∧ self_ref_ c' = false ∧ socket_ c' = -1 ∧
      effects c' = if 0 <=? fd then [CloseSocket fd] else []
  end.
Proof.
  intros Hnew. unfold Start.
  assert (socket_ c = -1 ∧ ops c = ∅ ∧ effects c = [] ∧ pending_ops_ c = 0 ∧ finished_ c = false ∧
    finished_notified_ c = false ∧ connect_result_notified_ c = false ∧ asked c = 0%nat ∧
    next_op c = 0%nat ∧ active_timeout_ev_ c = None ∧ timeout_armed_ c = false)
    as (S1&S2&S3&S4&S5&S6&S7&S8&S9&S10&S11) by (destruct Hnew as [-> | ->]; by split_and!).
  destruct (Z.ltb_spec fd 0) as [Hfd|Hfd].
  { rewrite (proj2 (Z.leb_gt 0 fd)) by done. simpl. by split_and!. }
  assert (ResetSocket (set_self true c) = set_self true c) as -> by (unfold ResetSocket; simpl; by rewrite S1).
  unfold new_op. simpl. rewrite S8, S9. rewrite (proj2 (Z.leb_le 0 fd)) by done.
  destruct (alloc_ok e 0 && prep_ok e 0).
  2:{ simpl. unfold ResetSocket. simpl. rewrite (proj2 (Z.leb_le 0 fd)) by done. simpl.
      by rewrite S2, S3. }
  assert (∀ m x, core_fields m = (1, Some 0%nat, true, None, false, {[0%nat := ConnectOp]}, x) →
    (0 < x)%nat → core None m) as Hcore1.
  { unfold core_fields. intros m x [= E1 E2 E3 E4 E5 E6 E7] Hx.
    split; unfold outstanding; rewrite ?E1, ?E2, ?E3, ?E4, ?E5, ?E6, ?E7; try done.
    - intros y. rewrite lookup_singleton_Some. naive_solver.
    - intros y. rewrite lookup_singleton_Some. naive_solver.
    - intros y [k [<- _]%lookup_singleton_Some]. done. }
  assert (∀ m, socket_ m = fd → finished_ m = false → finished_notified_ m = false →
    connect_result_notified_ m = false → effects m = [] → outer fd m) as Hout.
  { intros m E1 E2 E3 E4 E5. split; unfold count; rewrite ?E2, ?E3, ?E4, ?E5; auto. }
  assert (∀ m, core_fields m = (1, Some 0%nat, true, None, false, {[0%nat := ConnectOp]}, next_op m) →
    (0 < next_op m)%nat → outer fd m → self_ref_ m = true → conn_inv fd m) as Hfin1.
  { intros m Hm Hx Ho Hs. pose proof (Hcore1 m _ Hm Hx) as Hc.
    unfold core_fields in Hm. injection Hm as E1 E2 E3 E4 E5 E6.
    split; [done|done|by rewrite E2|]. rewrite Hs, E6. symmetry. by apply bool_decide_eq_true. }
  destruct (0 <? connect_timeout e).
  - destruct (alloc_ok e 1 && prep_ok e 1); simpl.
    + split; [done|]. split; [|done]. split.
      * split; simpl; rewrite ?S2, ?S4, ?S10; try done.
        -- intros y. rewrite lookup_insert_Some, insert_empty, lookup_singleton_Some. naive_solver.
        -- intros y. rewrite lookup_insert_Some, insert_empty, lookup_singleton_Some. naive_solver.
        -- intros y [k Hk]. apply lookup_insert_Some in Hk as [[<- _]|[_ Hk]]; [lia|].
           apply lookup_insert_Some in Hk as [[<- _]|[_ Hk]]; [lia|]. by rewrite lookup_empty in Hk.
      * by apply Hout.
      * done.
      * simpl. symmetry. apply bool_decide_eq_true. apply insert_non_empty.
    + split; [done|]. split; [|done].
      apply Hfin1; [|simpl; lia|by apply Hout|done]. unfold core_fields. simpl. by rewrite S2, S4, S10, S11.
  - split; [done|]. split; [|done].
    apply Hfin1; [|simpl; lia|by apply Hout|done]. unfold core_fields. simpl. by rewrite S2, S4, S10, S11.
Qed.

(** ** Accounting *)

(** Source: src/modules/proxy/ProxyCommon.h:36-46, TcpProxyWorker.
    The connectors a worker knows and their number; beside them, every connector
    that was started, with its descriptor. *)
Record proxy_worker := mkProxyWorker {
  live_connectors : Z;
  connectors : gset nat;
  conns : gmap nat (Z * connector);
}.

(** Source: src/modules/proxy/TcpProxyServer.cpp:514-519, TcpProxyServer::StartConnector.
    The callback [SetFinishedCallback] installs. *)
Definition on_finished (id : nat) (w : proxy_worker) : proxy_worker :=
  mkProxyWorker (live_connectors w - 1) (connectors w ∖ {[id]}) (conns w).

(** Source: src/modules/proxy/TcpProxyServer.cpp:506-538, TcpProxyServer::StartConnector.
    [bridge] tells whether the bridge is closed already, [fd] the new socket. *)
Definition StartConnector (id : nat) (bridge : bool) (fd : Z) (w : proxy_worker)
    : proxy_worker * bool :=
  let c := if bridge then ClosePair Connector_new else Connector_new in
  let w := mkProxyWorker (live_connectors w) ({[id]} ∪ connectors w) (conns w) in
  let w := mkProxyWorker (live_connectors w + 1) (connectors w) (conns w) in
  match Start fd c with
  | (c, Unexpected _) =>
    let w := mkProxyWorker (live_connectors w) (connectors w ∖ {[id]}) (conns w) in
    (mkProxyWorker (live_connectors w - 1) (connectors w) (conns w), false)
  | (c, Value _) => (mkProxyWorker (live_connectors w) (connectors w) (<[id := (fd, c)]> (conns w)), true)
  end.

(** The connector [id] goes from [c] to [c'], calling back for what is new. *)
Definition update (id : nat) (fd : Z) (c c' : connector) (w : proxy_worker) : proxy_worker :=
  foldl (λ w x, if finished_effect x then on_finished id w else w)
    (mkProxyWorker (live_connectors w) (connectors w) (<[id := (fd, c')]> (conns w)))
    (drop (length (effects c)) (effects c')).

Inductive proxy_step : proxy_worker → proxy_worker → Prop :=
| p_start id bridge fd w w' ok :
    conns w !! id = None → id ∉ connectors w → StartConnector id bridge fd w = (w', ok) →
    proxy_step w w'
| p_complete id fd c c' ev result w :
    conns w !! id = Some (fd, c) → complete ev result c = Some c' →
    proxy_step w (update id fd c c' w)
| p_cancel id fd c c' w :
    conns w !! id = Some (fd, c) → Cancel c = Some c' → proxy_step w (update id fd c c' w)
| p_bridge id fd c w :
    conns w !! id = Some (fd, c) → proxy_step w (update id fd c (ClosePair c) w).

Record worker_ok (w : proxy_worker) : Prop := {
  wo_conns : ∀ id fd c, conns w !! id = Some (fd, c) → 0 ≤ fd ∧ conn_inv fd c;
  wo_set : ∀ id, id ∈ connectors w ↔ ∃ fd c, conns w !! id = Some (fd, c) ∧ finished_ c = false;
  wo_live : live_connectors w = Z.of_nat (size (connectors w));
}.

(** Effects only grow, by the callback [Finished] when the connector finishes. *)
Definition grows c c' : Prop :=
  ∃ l, effects c' = effects c ++ l ∧
    length (filter finished_effect l) = if finished_ c' && negb (finished_ c) then 1%nat else 0%nat.

Lemma grows_from fd c c' l :
  outer fd c → outer fd c' → (finished_ c = true → finished_ c' = true) →
  effects c' = effects c ++ l → grows c c'.
Proof.
  intros Ho Ho' Hf He. exists l. split; [done|].
  pose proof (ou_finished _ _ Ho) as H1. pose proof (ou_finished _ _ Ho') as H2.
  unfold count in *. rewrite He, filter_app, length_app in H2.
  destruct (finished_ c), (finished_ c'); simpl; try lia; by specialize (Hf eq_refl).
Qed.

Lemma update_ok id fd c c' w :
  worker_ok w → conns w !! id = Some (fd, c) → conn_inv fd c' → grows c c' →
  (finished_ c = true → finished_ c' = true) → worker_ok (update id fd c c' w).
Proof.
  intros [W1 W2 W3] Hc Hi (l&He&Hl) Hf. unfold update.
  rewrite He, drop_app_length. destruct (W1 _ _ _ Hc) as [Hfd _].
  set (w0 := mkProxyWorker _ _ (<[id := (fd, c')]> (conns w))).
  assert (∀ l w, foldl (λ w x, if finished_effect x then on_finished id w else w) w l =
    Nat.iter (length (filter finished_effect l)) (on_finished id) w) as Hfold.
  { clear. induction l as [|x l IH]; intros w; [done|]. simpl. rewrite IH.
    rewrite filter_cons. destruct (finished_effect x); simpl; [|done].
    generalize (length (filter finished_effect l)) as n. clear. induction n as [|n IH]; [done|].
    simpl. by rewrite IH. }
  rewrite Hfold, Hl. clear Hfold.
  assert (∀ i fd0 c0, <[id:=(fd, c')]> (conns w) !! i = Some (fd0, c0) → 0 ≤ fd0 ∧ conn_inv fd0 c0) as H1.
  { intros i fd0 c0 [[_ [= <- <-]]|[_ ?]]%lookup_insert_Some; eauto. }
  assert (∀ i, i ≠ id → (∃ fd0 c0, <[id:=(fd, c')]> (conns w) !! i = Some (fd0, c0) ∧ finished_ c0 = false)
    ↔ i ∈ connectors w) as H2.
  { intros i Hi'. rewrite W2. by setoid_rewrite lookup_insert_ne; [|done]. }
  assert ((∃ fd0 c0, <[id:=(fd, c')]> (conns w) !! id = Some (fd0, c0) ∧ finished_ c0 = false) ↔
    finished_ c' = false) as H3.
  { rewrite lookup_insert_eq. naive_solver. }
  assert (id ∈ connectors w ↔ finished_ c = false) as H4.
  { rewrite W2, Hc. naive_solver. }
  destruct (finished_ c') eqn:E', (finished_ c) eqn:E; simpl; try by specialize (Hf eq_refl).
  - split; [done| |done]. intros i. destruct (decide (i = id)) as [->|Hne]; simpl.
    + rewrite H3, H4. done.
    + by rewrite H2.
  - split; simpl; [done| |].
    + intros i. rewrite elem_of_difference, elem_of_singleton.
      destruct (decide (i = id)) as [->|Hne]; [rewrite H3; naive_solver|]. rewrite H2 by done. naive_solver.
    + rewrite W3, size_difference by (apply singleton_subseteq_l; by apply H4). rewrite size_singleton.
      assert (size (connectors w) ≠ 0%nat).
      { apply size_non_empty_iff. intros Hn. apply (not_elem_of_empty (C:=gset nat) id).
        rewrite <-Hn. by apply H4. } lia.
  - split; [done| |done]. intros i. destruct (decide (i = id)) as [->|Hne]; simpl.
    + rewrite H3, H4. done.
    + by rewrite H2.
Qed.

(** Effects are only added. *)
Lemma effect_prefix x c : effects c `prefix_of` effects (effect x c).
Proof. by apply prefix_app_r. Qed.

Lemma NotifyConnectResult_prefix s t c :
  effects c `prefix_of` effects (NotifyConnectResult s t c).
Proof. unfold NotifyConnectResult. case_match; [done|]. simpl. by apply prefix_app_r. Qed.

Lemma NotifyFinished_prefix c : effects c `prefix_of` effects (NotifyFinished c).
Proof. unfold NotifyFinished. case_match; [done|]. simpl. by apply prefix_app_r. Qed.

Lemma ResetSocket_prefix c : effects c `prefix_of` effects (ResetSocket c).
Proof. unfold ResetSocket. case_match; [|done]. simpl. by apply prefix_app_r. Qed.

Lemma MaybeRelease_effects c : effects (MaybeRelease c) = effects c.
Proof. unfold MaybeRelease. by case_match. Qed.

Lemma cancel_op_effects t c c' : cancel_op t c = Some c' → effects c' = effects c.
Proof.
  unfold cancel_op. destruct (ops c !! t); [|done]. cbn [new_op]. intros [= <-].
  by destruct (alloc_ok e (asked c) && prep_ok e (asked c)).
Qed.

Lemma cancel_connect_effects c c' : cancel_connect c = Some c' → effects c' = effects c.
Proof. unfold cancel_connect. repeat case_match; intros; simplify_eq; eauto using cancel_op_effects. Qed.

Lemma cancel_timeout_effects c c' : cancel_timeout c = Some c' → effects c' = effects c.
Proof.
  unfold cancel_timeout. repeat case_match; intros E; simplify_eq; try done.
  destruct (cancel_op _ c) as [c1|] eqn:E1; simplify_eq/=. by eapply cancel_op_effects.
Qed.

Lemma OnConnect_prefix ev r c c' : OnConnect ev r c = Some c' → effects c `prefix_of` effects c'.
Proof.
  unfold OnConnect. case_match; [intros [= <-]; by rewrite MaybeRelease_effects|].
  destruct (cancel_timeout _) as [c1|] eqn:E; [|done]. apply cancel_timeout_effects in E. simpl in *.
  rewrite <-E. case_match; intros [= <-]; rewrite MaybeRelease_effects.
  - etrans; [apply (NotifyConnectResult_prefix false false)|].
    etrans; [|apply NotifyFinished_prefix]. apply (ResetSocket_prefix (set_finished _)).
  - etrans; [|apply NotifyFinished_prefix].
    etrans; [|apply (NotifyConnectResult_prefix true false)]. apply effect_prefix.
Qed.

Lemma OnTimeout_prefix ev r c c' : OnTimeout ev r c = Some c' → effects c `prefix_of` effects c'.
Proof.
  unfold OnTimeout. destruct (finished_ _); [intros [= <-]; by rewrite MaybeRelease_effects|].
  destruct (r =? _); [intros [= <-]; by rewrite MaybeRelease_effects|].
  destruct (cancel_connect _) as [c1|] eqn:E; [|done]. apply cancel_connect_effects in E.
  intros [= <-]. rewrite MaybeRelease_effects. etrans; [|apply NotifyFinished_prefix]. rewrite E.
  etrans; [|apply ResetSocket_prefix].
  exact (NotifyConnectResult_prefix false true (set_finished (set_timeout _ false (add_pending (-1) c)))).
Qed.

Lemma complete_prefix ev r c c' : complete ev r c = Some c' → effects c `prefix_of` effects c'.
Proof.
  unfold complete. destruct (ops c !! ev) as [[| |t]|]; [| | |done].
  - destruct (OnConnect ev r c) as [c1|] eqn:E; intros; simplify_eq/=. by eapply OnConnect_prefix.
  - destruct (OnTimeout ev r c) as [c1|] eqn:E; intros; simplify_eq/=. by eapply OnTimeout_prefix.
  - intros [= <-]. simpl. unfold OnCancel. by rewrite MaybeRelease_effects.
Qed.

Lemma Cancel_prefix c c' : Cancel c = Some c' → effects c `prefix_of` effects c'.
Proof.
  unfold Cancel. case_match; [by intros [= <-]|].
  destruct (cancel_connect _) as [c1|] eqn:E; [|done]. apply cancel_connect_effects in E. simpl.
  destruct (cancel_timeout _) as [c2|] eqn:E2; [|done]. apply cancel_timeout_effects in E2.
  intros [= <-]. rewrite MaybeRelease_effects. etrans; [|apply NotifyFinished_prefix].
  rewrite E2, E. exact (ResetSocket_prefix (ClosePair (set_finished c))).
Qed.

(** A handler is defined for every request and keeps the invariant. *)
Lemma complete_inv fd c ev result :
  0 ≤ fd → conn_inv fd c → is_Some (ops c !! ev) →
  ∃ c', complete ev result c = Some c' ∧ conn_inv fd c' ∧ (finished_ c = true → finished_ c' = true).
Proof.
  intros Hfd Hi [[| |t] Hk].
  - destruct (complete_connect fd Hfd c ev result Hi Hk) as (c'&?&?&?). eauto.
  - by apply complete_timeout.
  - destruct (complete_cancel fd c ev t result Hi Hk) as (c'&?&?&E). exists c'. by rewrite E.
Qed.

Lemma proxy_step_ok w w' : worker_ok w → proxy_step w w' → worker_ok w'.
Proof.
  intros Hw Hs. destruct Hs as [id bridge fd w w' ok Hid Hno HS|id fd c c' ev r w Hc E|id fd c c' w Hc E|
    id fd c w Hc].
  - destruct Hw as [W1 W2 W3]. unfold StartConnector in HS.
    pose proof (Start_cases fd (if bridge then ClosePair Connector_new else Connector_new)
      ltac:(destruct bridge; auto)) as Hst.
    destruct (Start fd _) as [c [[]|x]]; simplify_eq; simpl in *.
    + destruct Hst as (Hfd&Hi&Hf). split; simpl.
      * intros i fd0 c0 [[_ [= <- <-]]|[_ ?]]%lookup_insert_Some; eauto.
      * intros i. rewrite elem_of_union, elem_of_singleton, W2.
        destruct (decide (i = id)) as [->|Hne].
        -- rewrite lookup_insert_eq. naive_solver.
        -- rewrite lookup_insert_ne by done. naive_solver.
      * rewrite size_union by set_solver. rewrite size_singleton, W3. lia.
    + assert (({[id]} ∪ connectors w) ∖ {[id]} = connectors w) as E by set_solver.
      rewrite E. split; simpl; try done. lia.
  - destruct (wo_conns _ Hw _ _ _ Hc) as [Hfd Hi].
    assert (is_Some (ops c !! ev)) as Hop by (unfold complete in E; destruct (ops c !! ev); eauto; done).
    destruct (complete_inv fd c ev r Hfd Hi Hop) as (c2&E2&Hi2&Hf). simplify_eq.
    apply update_ok; try done. destruct (complete_prefix _ _ _ _ E) as [l Hl].
    by apply (grows_from fd c c' l (cn_outer _ _ Hi) (cn_outer _ _ Hi2)).
  - destruct (wo_conns _ Hw _ _ _ Hc) as [Hfd Hi].
    destruct (Cancel_inv fd Hfd c Hi) as (c2&E2&Hi2&Hf). simplify_eq.
    apply update_ok; try done. destruct (Cancel_prefix _ _ E) as [l Hl].
    by apply (grows_from fd c c' l (cn_outer _ _ Hi) (cn_outer _ _ Hi2)).
  - destruct (wo_conns _ Hw _ _ _ Hc) as [Hfd Hi].
    assert (conn_inv fd (ClosePair c)) as Hi2.
    { destruct Hi as [Hcore [O1 O2 O3 O4 O5 O6] Hfin Hself].
      split; [by apply (core_congr _ c)|by split|done|done]. }
    apply update_ok; try done. apply (grows_from fd c _ [] (cn_outer _ _ Hi) (cn_outer _ _ Hi2)); [done|].
    by rewrite app_nil_r.
Qed.

Definition worker_new : proxy_worker := mkProxyWorker 0 ∅ ∅.

(** C11: upstream connection attempts are accounted for.  However connects, time-outs,
    cancellations and their completions interleave, and however requests and
    allocations fail: [pending_ops_] is the number of requests in the ring; no
    cancel request names a deleted event, so each handler and [Cancel] is defined;
    the attempt's socket was closed or given to the upstream session, once, exactly
    when it is finished, and the callback has then run once; an attempt without
    requests is finished and holds no reference to itself; and [live_connectors]
    is the number of registered connectors, the unfinished ones. *)
Theorem connectors_sound w :
  steps proxy_step worker_new w →
  (∀ id fd c, conns w !! id = Some (fd, c) →
     pending_ops_ c = Z.of_nat (size (ops c)) ∧
     (∀ ev result, is_Some (ops c !! ev) → is_Some (complete ev result c)) ∧ is_Some (Cancel c) ∧
     (if finished_ c then filter socket_effect (effects c) = [CloseSocket fd] ∨
                          filter socket_effect (effects c) = [StartUpstream fd]
      else filter socket_effect (effects c) = []) ∧
     count finished_effect c = (if finished_ c then 1%nat else 0%nat) ∧
     (ops c = ∅ → finished_ c = true ∧ self_ref_ c = false)) ∧
  (∀ id, id ∈ connectors w ↔ ∃ fd c, conns w !! id = Some (fd, c) ∧ finished_ c = false) ∧
  live_connectors w = Z.of_nat (size (connectors w)).
Proof.
  intros Hs. assert (worker_ok w) as [W1 W2 W3].
  { apply (steps_invariant _ worker_ok worker_new w proxy_step_ok); [|done].
    split; [|intros id; split; [set_solver|]|done].
    - intros id fd c. simpl. by rewrite lookup_empty.
    - intros (fd&c&E&_). simpl in E. by rewrite lookup_empty in E. }
  split; [|done]. intros id fd c Hc. destruct (W1 _ _ _ Hc) as [Hfd Hi].
  pose proof Hi as [Hcore Ho Hfin Hself]. split_and!.
  - apply (co_pending _ _ Hcore).
  - intros ev r Hop. destruct (complete_inv fd c ev r Hfd Hi Hop) as (c'&E&_). eauto.
  - destruct (Cancel_inv fd Hfd c Hi) as (c'&E&_). eauto.
  - destruct (ou_effects _ _ Ho) as [[? ->]|[-> ?]]; done.
  - apply (ou_finished _ _ Ho).
  - intros Hops. split; [|by rewrite Hself, Hops].
    destruct (finished_ c) eqn:E; [done|]. destruct (Hfin eq_refl) as [x Hx].
    apply (co_connect _ _ Hcore) in Hx. simpl in Hx. by rewrite Hops, lookup_empty in Hx.
Qed.
End Connector.

(** An attempt with a time-out, and its connect request succeeding. *)
Definition sample_env : connector_env := mkConnectorEnv (λ _, true) (λ _, true) 1000.
Definition started : connector := (Start sample_env 5 Connector_new).1.
Definition connected : connector := default started (complete sample_env 0 0 started).
Definition worker_started : proxy_worker := (StartConnector sample_env 0 false 5 worker_new).1.
Definition worker_connected : proxy_worker := update 0 5 started connected worker_started.

Lemma connectors_sound_witness :
  effects connected = [StartUpstream 5; ConnectResult true false; Finished] ∧
  size (ops connected) = 2%nat ∧
  (∀ id fd c, conns worker_connected !! id = Some (fd, c) →
     pending_ops_ c = Z.of_nat (size (ops c)) ∧
     (∀ ev result, is_Some (ops c !! ev) → is_Some (complete sample_env ev result c)) ∧
     is_Some (Cancel sample_env c) ∧
     (if finished_ c then filter socket_effect (effects c) = [CloseSocket fd] ∨
                          filter socket_effect (effects c) = [StartUpstream fd]
      else filter socket_effect (effects c) = []) ∧
     count finished_effect c = (if finished_ c then 1%nat else 0%nat) ∧
     (ops c = ∅ → finished_ c = true ∧ self_ref_ c = false)) ∧
  (∀ id, id ∈ connectors worker_connected ↔
     ∃ fd c, conns worker_connected !! id = Some (fd, c) ∧ finished_ c = false) ∧
  live_connectors worker_connected = Z.of_nat (size (connectors worker_connected)).
Proof.
  split; [reflexivity|]. split; [reflexivity|]. apply (connectors_sound sample_env).
  eapply steps_cons; [|eapply steps_cons; [|apply steps_refl]].
  - apply (p_start sample_env 0 false 5 _ worker_started true); [done|set_solver|reflexivity].
  - apply (p_complete sample_env 0 5 started connected 0 0); reflexivity.
Defined.
