(* ===== verification/ProxyServer.v ===== *)
(** * The proxy server

    [src/modules/proxy/TcpProxyServer.cpp]: choosing the upstream server by the
    name a client asks for, starting and stopping the server, reloading its TLS
    context, and the text of its metrics.

    Resolving a name, building a TLS context and starting a worker are answers of
    the environment (getaddrinfo, OpenSSL, Worker.v). *)

From S2P Require Import Prelude Text HttpRequest.

#[local] Open Scope Z_scope.
#[local] Set Warnings "-clear-no-such-hyp".

(** ** Host names *)

Fixpoint drop_leading (c : byte) (s : bytes) : bytes :=
  match s with b :: r => if decide (b = c) then drop_leading c r else s | [] => [] end.

Definition dot : byte := byte_of 46.
Definition star : byte := byte_of 42.

(** Source: src/modules/proxy/TcpProxyServer.cpp:177-187, NormalizeHostname.
    [std::tolower] in the "C" locale; trailing dots are dropped. *)
Definition NormalizeHostname (hostname : bytes) : bytes :=
  reverse (drop_leading dot (reverse (ToLower <$> hostname))).

(** Source: src/modules/proxy/TcpProxyServer.cpp:189-204, HostnameMatches. *)
Definition HostnameMatches (pattern hostname : bytes) : bool :=
  let normalized_pattern := NormalizeHostname pattern in
  let normalized_hostname := NormalizeHostname hostname in
  if bool_decide (normalized_pattern = []) || bool_decide (normalized_hostname = []) then false else
  if starts_with [star; dot] normalized_pattern then
    let suffix := zdrop 1 normalized_pattern in
    (zlen suffix <? zlen normalized_hostname) && ends_with suffix normalized_hostname
  else bool_decide (normalized_pattern = normalized_hostname).

Section Routes.
(** A resolved address, and the result of [ResolveEndpoint]. *)
Context {E : Type} (resolve : bytes → Z → option E).

(** Source: include/iouring_runtime/proxy/TcpProxyConfig.h:53-57, TcpProxyConfig::UpstreamRoute. *)
Record upstream_route := mkRoute {
  hostname : bytes;
  upstream_host : bytes;
  upstream_port : Z;
}.

(** Source: src/modules/proxy/TcpProxyServer.cpp:462-492, TcpProxyServer::ResolveUpstreamRoutes. *)
Fixpoint resolve_routes (routes : list upstream_route) (acc : list (bytes * E))
    : list (bytes * E) :=
  match routes with
  | [] => acc
  | route :: rest =>
    let normalized_hostname := NormalizeHostname (hostname route) in
    if bool_decide (normalized_hostname = []) then [] else
    if upstream_port route =? 0 then [] else
    match resolve (upstream_host route) (upstream_port route) with
    | None => []
    | Some endpoint => resolve_routes rest (acc ++ [(normalized_hostname, endpoint)])
    end
  end.
Definition ResolveUpstreamRoutes (routes : list upstream_route) : list (bytes * E) :=
  resolve_routes routes [].

(** Source: src/modules/proxy/TcpProxyServer.cpp:494-504, TcpProxyServer::SelectUpstreamEndpoint.
    [None] when [upstream_endpoint_] is null. *)
Fixpoint SelectUpstreamEndpoint (upstream_routes_ : list (bytes * E))
    (upstream_endpoint_ : option E) (name : bytes) : option E :=
  match upstream_routes_ with
  | [] => upstream_endpoint_
  | (pattern, endpoint) :: rest =>
    if HostnameMatches pattern name then Some endpoint
    else SelectUpstreamEndpoint rest upstream_endpoint_ name
  end.

(** ** Start, stop and reload *)

Record proxy_config := mkProxyConfig {
  cfg_host : bytes;
  cfg_port : Z;
  upstream_routes : list upstream_route;
  tls_enabled : bool;
  worker_count : Z;
}.

(** Source: include/iouring_runtime/proxy/TcpProxyServer.h:77-82, TcpProxyServer.
    The TLS context and the workers are numbers. *)
Record proxy_server := mkProxyServer {
  running_ : bool;
  upstream_endpoint_ : option E;
  upstream_routes_ : list (bytes * E);
  downstream_tls_context_ : option nat;
  workers_ : list Z;
}.

Record server_env := mkServerEnv {
  build_tls : option nat;
  worker_starts : Z → bool;
}.

Definition set_running (b : bool) (s : proxy_server) : proxy_server :=
  mkProxyServer b (upstream_endpoint_ s) (upstream_routes_ s) (downstream_tls_context_ s)
    (workers_ s).

(** Source: src/modules/proxy/TcpProxyServer.cpp:350-386, TcpProxyServer::Stop.
    What is left once the connections are drained. *)
Definition Stop (s : proxy_server) : proxy_server :=
  if negb (running_ s) && bool_decide (workers_ s = []) then s else
  mkProxyServer false None [] None [].

(** Source: src/modules/proxy/TcpProxyServer.cpp:215-348, TcpProxyServer::Start. *)
Definition Start (cfg : proxy_config) (env : server_env) (s : proxy_server) : proxy_server :=
  if running_ s then s else
  let s := set_running true s in
  match resolve (cfg_host cfg) (cfg_port cfg) with
  | None =>
    mkProxyServer false None (upstream_routes_ s) (downstream_tls_context_ s) (workers_ s)
  | Some endpoint =>
    let routes := ResolveUpstreamRoutes (upstream_routes cfg) in
    if negb (bool_decide (length routes = length (upstream_routes cfg))) then
      mkProxyServer false None routes (downstream_tls_context_ s) (workers_ s)
    else
    let tls := if tls_enabled cfg then build_tls env else None in
    if tls_enabled cfg && bool_decide (tls = None) then
      mkProxyServer false None routes (downstream_tls_context_ s) (workers_ s)
    else
    let started := filter (λ i, worker_starts env i = true)
                     (Z.of_nat <$> seq 0 (Z.to_nat (worker_count cfg))) in
    let s := mkProxyServer true (Some endpoint) routes tls (workers_ s ++ started) in
    if bool_decide (started = []) || bool_decide (workers_ s = [])
    then Stop (set_running false s) else s
  end.

(** Source: src/modules/proxy/TcpProxyServer.cpp:388-407, TcpProxyServer::ReloadDownstreamTlsContext. *)
Definition ReloadDownstreamTlsContext (cfg : proxy_config) (env : server_env) (s : proxy_server)
    : proxy_server * bool :=
  if negb (tls_enabled cfg) then (s, false) else
  match build_tls env with
  | None => (s, false)
  | Some tls =>
    (mkProxyServer (running_ s) (upstream_endpoint_ s) (upstream_routes_ s) (Some tls) (workers_ s),
     true)
  end.

Definition Server_new : proxy_server := mkProxyServer false None [] None [].
End Routes.

(** ** Metrics text *)

Definition quote : byte := byte_of 34.
Definition backslash : byte := byte_of 92.

(** Source: src/modules/proxy/TcpProxyServer.cpp:48-71, JsonEscape.
    One character. *)
Definition escape_char (ch : byte) : bytes :=
  if decide (ch = quote) then [backslash; quote] else
  if decide (ch = backslash) then [backslash; backslash] else
  if decide (ch = byte_of 10) then [backslash; byte_of 110] else
  if decide (ch = byte_of 13) then [backslash; byte_of 114] else
  if decide (ch = byte_of 9) then [backslash; byte_of 116] else
  if byte_val ch <? 32 then [byte_of 32] else [ch].

(** Source: src/modules/proxy/TcpProxyServer.cpp:45-73, JsonEscape. *)
Definition JsonEscape (text : bytes) : bytes := concat (escape_char <$> text).

(** ** Properties of host names *)

Lemma drop_leading_idem c s : drop_leading c (drop_leading c s) = drop_leading c s.
Proof.
  induction s as [|b s IH]; [done|]. simpl. case_decide as E; [done|]. simpl. by rewrite decide_False.
Qed.

Lemma ToLower_idem b : ToLower (ToLower b) = ToLower b.
Proof. destruct b as [[] [] [] [] [] [] [] []]; reflexivity. Qed.

Lemma ToLower_dot b : ToLower b = dot ↔ b = dot.
Proof. destruct b as [[] [] [] [] [] [] [] []]; split; intros E; (reflexivity || discriminate E). Qed.

Lemma drop_leading_lower s : drop_leading dot (ToLower <$> s) = ToLower <$> drop_leading dot s.
Proof.
  induction s as [|b s IH]; [done|]. simpl. destruct (decide (b = dot)) as [E|E].
  - by rewrite decide_True by (by apply ToLower_dot).
  - by rewrite decide_False by (by rewrite ToLower_dot).
Qed.

Lemma NormalizeHostname_lower h :
  NormalizeHostname h = ToLower <$> reverse (drop_leading dot (reverse h)).
Proof. unfold NormalizeHostname. by rewrite <-fmap_reverse, drop_leading_lower, fmap_reverse. Qed.

(** Names that differ in case or in trailing dots are the same. *)
Lemma NormalizeHostname_idem h : NormalizeHostname (NormalizeHostname h) = NormalizeHostname h.
Proof.
  rewrite !NormalizeHostname_lower. set (x := drop_leading dot (reverse h)).
  assert (reverse (ToLower <$> reverse x) = ToLower <$> x) as ->
    by (by rewrite fmap_reverse, reverse_involutive).
  rewrite drop_leading_lower. unfold x at 1. rewrite drop_leading_idem. fold x.
  rewrite <-fmap_reverse, <-list_fmap_compose.
  apply list_fmap_ext. intros i b _. apply ToLower_idem.
Qed.

Lemma NormalizeHostname_dots h n : NormalizeHostname (h ++ replicate n dot) = NormalizeHostname h.
Proof.
  unfold NormalizeHostname. rewrite fmap_app, reverse_app, fmap_replicate. f_equal.
  change (ToLower dot) with dot. rewrite reverse_replicate. by induction n.
Qed.

Lemma ends_with_true p s : ends_with p s = true ↔ ∃ l, s = l ++ p.
Proof.
  unfold ends_with. rewrite starts_with_true. change (∃ l, s = l ++ p) with (p `suffix_of` s).
  by rewrite suffix_prefix_reverse.
Qed.

(** which names a route matches, up to case and trailing dots: a pattern "*.d"
    matches the names that end in ".d" and have something before it, at any depth
    and never "d" itself; any other pattern matches itself; an empty name or
    pattern matches nothing. *)
Theorem HostnameMatches_spec pattern hostname :
  let p := NormalizeHostname pattern in
  let h := NormalizeHostname hostname in
  HostnameMatches pattern hostname = true ↔
  h ≠ [] ∧
  match p with
  | [] => False
  | a :: b :: d => if decide (a = star ∧ b = dot) then ∃ l, l ≠ [] ∧ h = l ++ dot :: d else p = h
  | _ => p = h
  end.
Proof.
  intros p h. unfold HostnameMatches. fold p h.
  destruct (decide (h = [])) as [->|Hh].
  { rewrite (bool_decide_true ([] = [])), orb_true_r by done. naive_solver. }
  rewrite (bool_decide_false (h = [])), orb_false_r by done.
  destruct (decide (p = [])) as [->|Hp]; [naive_solver|]. rewrite bool_decide_false by done.
  destruct (starts_with [star; dot] p) eqn:Es.
  - apply starts_with_true in Es as [d ->]. cbn [app].
    rewrite decide_True by done. change (zdrop 1 (star :: dot :: d)) with (dot :: d).
    rewrite andb_true_iff, Z.ltb_lt, ends_with_true. split.
    + intros [Hl [l El]]. split; [done|]. exists l. split; [|done]. intros ->. rewrite El in Hl.
      simpl in Hl. lia.
    + intros [_ [l [Hl ->]]]. split; [|eauto]. rewrite zlen_app. destruct l as [|a l]; [done|].
      rewrite (zlen_cons a l). pose proof (zlen_nonneg l). lia.
  - rewrite bool_decide_eq_true. destruct p as [|a [|b d]]; [done|naive_solver|].
    rewrite decide_False; [naive_solver|]. intros [-> ->].
    apply not_true_iff_false in Es. apply Es, starts_with_true. by exists d.
Qed.

(** The name asked for selects the first route that matches, and otherwise the
    default; case and trailing dots do not matter. *)
Lemma HostnameMatches_normal pattern name :
  HostnameMatches pattern (NormalizeHostname name) = HostnameMatches pattern name.
Proof. unfold HostnameMatches. by rewrite NormalizeHostname_idem. Qed.

Section Selecting.
Context {E : Type} (resolve : bytes → Z → option E).

Lemma Select_first (routes : list (bytes * E)) def name :
  SelectUpstreamEndpoint routes def name =
  match list_find (λ r, HostnameMatches r.1 name = true) routes with
  | Some (_, (_, endpoint)) => Some endpoint
  | None => def
  end.
Proof.
  induction routes as [|[p x] routes IH]; [done|]. simpl. case_decide as E1.
  - by rewrite E1.
  - apply not_true_is_false in E1. rewrite E1, IH. by destruct (list_find _ routes) as [[n [q y]]|].
Qed.

(** A route that resolves: a name, a port and an address. *)
Definition route_ok (r : upstream_route) : Prop :=
  NormalizeHostname (hostname r) ≠ [] ∧ upstream_port r ≠ 0 ∧
  is_Some (resolve (upstream_host r) (upstream_port r)).

Lemma resolve_routes_spec routes acc :
  (Forall route_ok routes ∧ ∃ es, length es = length routes ∧
     resolve_routes resolve routes acc = acc ++ es ∧
     es.*1 = NormalizeHostname ∘ hostname <$> routes ∧
     Forall2 (λ r x, resolve (upstream_host r) (upstream_port r) = Some x.2) routes es) ∨
  (¬ Forall route_ok routes ∧ resolve_routes resolve routes acc = []).
Proof.
  revert acc. induction routes as [|r routes IH]; intros acc; simpl.
  { left. split; [done|]. exists []. by rewrite app_nil_r. }
  destruct (decide (NormalizeHostname (hostname r) = [])) as [Eh|Eh].
  { rewrite bool_decide_true by done. right. split; [|done]. by intros [[? _] _]%Forall_cons. }
  rewrite bool_decide_false by done. destruct (Z.eqb_spec (upstream_port r) 0) as [Ep|Ep].
  { right. split; [|done]. by intros [(_&?&_) _]%Forall_cons. }
  destruct (resolve (upstream_host r) (upstream_port r)) as [x|] eqn:Er.
  2:{ right. split; [|done]. intros [(_&_&[? ?]) _]%Forall_cons. congruence. }
  destruct (IH (acc ++ [(NormalizeHostname (hostname r), x)])) as [(Hf&es&Hl&He&Hn&H2)|[Hf He]].
  - left. split; [constructor; [|done]; by split_and!; eauto|].
    exists ((NormalizeHostname (hostname r), x) :: es). rewrite He, <-app_assoc. simpl.
    split_and!; [by rewrite Hl|done|exact (f_equal (cons _) Hn)|by constructor].
  - right. split; [|done]. by intros [_ ?]%Forall_cons.
Qed.

Lemma ResolveUpstreamRoutes_all routes :
  length (ResolveUpstreamRoutes resolve routes) = length routes ↔ Forall route_ok routes.
Proof.
  unfold ResolveUpstreamRoutes. destruct (resolve_routes_spec routes []) as [(Hf&es&Hl&->&_)|[Hf ->]].
  - by split.
  - split; [|done]. simpl. intros E0. by destruct routes.
Qed.

(** What a running server has: an endpoint to fall back to and every route. *)
Record server_inv (cfg : proxy_config) (s : proxy_server) : Prop := {
  si_workers : running_ s = bool_decide (workers_ s ≠ []);
  si_endpoint : running_ s = true → is_Some (upstream_endpoint_ s) ∧
    upstream_endpoint_ s = resolve (cfg_host cfg) (cfg_port cfg);
  si_routes : running_ s = true →
    (upstream_routes_ s).*1 = NormalizeHostname ∘ hostname <$> upstream_routes cfg ∧
    Forall2 (λ r x, resolve (upstream_host r) (upstream_port r) = Some x.2)
      (upstream_routes cfg) (upstream_routes_ s);
  si_tls : running_ s = true → tls_enabled cfg = true → is_Some (downstream_tls_context_ s);
}.

Lemma server_new_inv cfg : server_inv cfg Server_new.
Proof. by split. Qed.

Lemma server_Stop_inv cfg s : server_inv cfg s → server_inv cfg (Stop s).
Proof. intros Hi. unfold Stop. case_match; [done|]. by split. Qed.

Lemma server_Start_inv cfg env s : server_inv cfg s → server_inv cfg (Start resolve cfg env s).
Proof.
  intros Hi. unfold Start. destruct (running_ s) eqn:Er; [done|].
  assert (workers_ s = []) as Hw.
  { pose proof (si_workers _ _ Hi) as H0. rewrite Er in H0. destruct (workers_ s); [done|].
    by rewrite bool_decide_true in H0. }
  destruct (resolve (cfg_host cfg) (cfg_port cfg)) as [x|] eqn:Ex.
  2:{ split; simpl; try done. by rewrite Hw. }
  case_bool_decide as Hl; cbn [negb]; [|split; simpl; try done; by rewrite Hw].
  case_match eqn:Et; [split; simpl; try done; by rewrite Hw|].
  cbn [workers_ set_running]. rewrite Hw. simpl.
  set (started := filter _ _). destruct (decide (started = [])) as [E0|E0].
  - rewrite bool_decide_true by done. cbn [orb]. unfold Stop. simpl. rewrite E0. simpl.
    split; simpl; done.
  - rewrite (bool_decide_false (started = [])) by done. cbn [orb].
    split; simpl.
    + symmetry. by apply bool_decide_eq_true.
    + intros _. rewrite Ex. eauto.
    + intros _. apply ResolveUpstreamRoutes_all in Hl. unfold ResolveUpstreamRoutes.
      by destruct (resolve_routes_spec (upstream_routes cfg) []) as [(_&es&_&->&?&?)|[? _]].
    + intros _ Htls. rewrite Htls in *. cbn [andb] in Et. apply bool_decide_eq_false in Et.
      destruct (build_tls env); eauto. done.
Qed.

Lemma Reload_inv cfg env s : server_inv cfg s → server_inv cfg (ReloadDownstreamTlsContext cfg env s).1.
Proof.
  intros Hi. unfold ReloadDownstreamTlsContext. destruct (tls_enabled cfg) eqn:Et; [|done]. cbn [negb].
  destruct (build_tls env) as [t|]; [|done]. destruct Hi as [H1 H2 H3 H4]. split; simpl; eauto.
Qed.

Inductive server_op := DoStart (env : server_env) | DoStop | DoReload (env : server_env).

Definition run_op (cfg : proxy_config) (o : server_op) (s : proxy_server) : proxy_server :=
  match o with
  | DoStart env => Start resolve cfg env s
  | DoStop => Stop s
  | DoReload env => (ReloadDownstreamTlsContext cfg env s).1
  end.

(** A server that runs can route every connection: after any sequence of
    [Start], [Stop] and TLS reloads, whatever fails in them, a running server has
    workers, a TLS context if TLS is configured, and for any name the client asks
    for [SelectUpstreamEndpoint] gives an address: that of the first configured
    route whose pattern matches the name, and the default upstream's otherwise.
    A server that does not run has no workers. *)
Theorem running_server_routes cfg (ops : list server_op) :
  let s := foldr (run_op cfg) Server_new ops in
  (running_ s = true ↔ workers_ s ≠ []) ∧
  (running_ s = true → tls_enabled cfg = true → is_Some (downstream_tls_context_ s)) ∧
  (running_ s = true → ∀ name,
     let selected := SelectUpstreamEndpoint (upstream_routes_ s) (upstream_endpoint_ s) name in
     is_Some selected ∧
     selected = match list_find (λ r, HostnameMatches (hostname r) name = true)
                      (upstream_routes cfg) with
                | Some (_, r) => resolve (upstream_host r) (upstream_port r)
                | None => resolve (cfg_host cfg) (cfg_port cfg)
                end).
Proof.
  intros s. assert (server_inv cfg s) as [H1 H2 H3 H4].
  { subst s. induction ops as [|o ops IH]; [apply server_new_inv|]. simpl.
    destruct o; [by apply server_Start_inv|by apply server_Stop_inv|by apply Reload_inv]. }
  split_and!; [rewrite H1; apply bool_decide_eq_true|done|].
  intros Hr name. destruct (H2 Hr) as [[d Hd] Hdef]. destruct (H3 Hr) as [Hn H3'].
  rewrite <-Hdef. generalize (upstream_endpoint_ s) Hd. intros def ->. clear H1 H2 H4 Hdef Hd H3 Hr.
  revert Hn. induction H3' as [|r [p x] rs xs Hx _ IH]; [by simpl; eauto|].
  simpl. intros [= Hp Hn]. subst p.
  assert (HostnameMatches (NormalizeHostname (hostname r)) name = HostnameMatches (hostname r) name) as ->
    by (unfold HostnameMatches; by rewrite NormalizeHostname_idem).
  case_decide as Em.
  - rewrite Em. split; [eauto|]. by rewrite Hx.
  - apply not_true_is_false in Em. rewrite Em. destruct (IH Hn) as [IH1 IH2]. split; [done|].
    rewrite IH2. by destruct (list_find _ rs) as [[]|].
Qed.
End Selecting.

(** ** Properties of the metrics text *)

(** A reference reader of JSON strings: the text up to the closing quote, and what
    follows it; control characters are not allowed. *)
Fixpoint json_string (fuel : nat) (s : bytes) : option (bytes * bytes) :=
  match fuel, s with
  | S fuel, b :: r =>
    if decide (b = quote) then Some ([], r) else
    if decide (b = backslash) then
      match r with
      | x :: r =>
        c ← (if decide (x = quote) then Some quote else
             if decide (x = backslash) then Some backslash else
             if decide (x = byte_of 110) then Some (byte_of 10) else
             if decide (x = byte_of 114) then Some (byte_of 13) else
             if decide (x = byte_of 116) then Some (byte_of 9) else None);
        '(t, r) ← json_string fuel r; Some (c :: t, r)
      | [] => None
      end
    else if byte_val b <? 32 then None else
    '(t, r) ← json_string fuel r; Some (b :: t, r)
  | _, _ => None
  end.

(** The control characters without an escape become spaces. *)
Definition printable (b : byte) : byte :=
  if (byte_val b <? 32) && negb (bool_decide (b ∈ [byte_of 9; byte_of 10; byte_of 13]))
  then byte_of 32 else b.

Lemma json_escape_char fuel b r :
  json_string (S fuel) (escape_char b ++ r) =
  '(t, r) ← json_string fuel r; Some (printable b :: t, r).
Proof. destruct b as [[] [] [] [] [] [] [] []]; reflexivity. Qed.

(** every text is a valid JSON string after [JsonEscape]: read back between
    quotes by a JSON reader it is the text itself, with the control characters
    other than tab and line ends replaced by spaces; no text can end the string
    early. *)
Theorem JsonEscape_roundtrip text rest :
  json_string (S (length text)) (JsonEscape text ++ quote :: rest) =
  Some (printable <$> text, rest).
Proof.
  unfold JsonEscape. induction text as [|b text IH]; [reflexivity|].
  cbn [fmap list_fmap concat]. rewrite <-app_assoc.
  change (length (b :: text)) with (S (length text)). rewrite json_escape_char. by rewrite IH.
Qed.
