(* ===== verification/ProxyTls.v ===== *)
(** * TLS sessions of the proxy

    [TlsProxyPeerSession] of [src/modules/proxy/ProxySessions.cpp]: a proxy peer
    that decrypts what it receives and encrypts what it sends, over memory BIOs.

    OpenSSL is not part of the sources: it is the class [OpenSSL], with the results
    its functions have and the laws the session relies on.  How a [Send] on the
    socket goes and whether backpressure is active after it, what the bridge and
    the ready callback answer, are answers of the environment. *)

From S2P Require Import Prelude.

#[local] Open Scope Z_scope.
#[local] Set Warnings "-clear-no-such-hyp".

Inductive write_result := Written (n : Z) | WriteWant | WriteFailed.
Inductive read_result := ReadData (d : bytes) | ReadWant | ReadZero | ReadFailed.
Inductive handshake_result := HandshakeDone | HandshakeWant | HandshakeFailed.

(** A connection with its two memory BIOs.  [taken] is the plaintext it has
    accepted, [fed] the ciphertext put into the read BIO, [out] the ciphertext it
    has ever produced, [to_send] the part of it still in the write BIO, [wanted] how
    many writes it has answered with the wish to be called again, and [unread] bounds
    the records that can still be read. *)
Class OpenSSL (S : Type) := {
  SSL_write_ex : S → bytes → S * write_result;
  SSL_read_ex : S → Z → S * read_result;
  SSL_do_handshake : S → S * handshake_result;
  BIO_write : S → bytes → S * Z;
  BIO_read : S → Z → S * bytes;   (* from the write BIO; empty: retry *)
  taken : S → bytes;
  fed : S → bytes;
  out : S → bytes;
  to_send : S → bytes;
  wanted : S → nat;
  unread : S → nat;
  write_law s d s' r : SSL_write_ex s d = (s', r) → d ≠ [] →
    fed s' = fed s ∧ (∃ x, out s' = out s ++ x ∧ to_send s' = to_send s ++ x) ∧
    match r with
    | Written n => 0 < n ≤ zlen d ∧ taken s' = taken s ++ ztake n d ∧ wanted s' = wanted s
    | WriteWant => taken s' = taken s ∧ wanted s' = Datatypes.S (wanted s)
    | WriteFailed => taken s' = taken s ∧ wanted s' = wanted s
    end;
  read_law s n s' r : SSL_read_ex s n = (s', r) → 0 < n →
    fed s' = fed s ∧ taken s' = taken s ∧ wanted s' = wanted s ∧
    (∃ x, out s' = out s ++ x ∧ to_send s' = to_send s ++ x) ∧
    match r with
    | ReadData d => 0 < zlen d ≤ n ∧ (unread s' < unread s)%nat
    | _ => True
    end;
  handshake_law s s' r : SSL_do_handshake s = (s', r) →
    fed s' = fed s ∧ taken s' = taken s ∧ wanted s' = wanted s ∧
    ∃ x, out s' = out s ++ x ∧ to_send s' = to_send s ++ x;
  bio_write_law s d s' n : BIO_write s d = (s', n) → d ≠ [] →
    0 < n ≤ zlen d ∧ fed s' = fed s ++ ztake n d ∧ taken s' = taken s ∧ out s' = out s ∧
    to_send s' = to_send s ∧ wanted s' = wanted s;
  bio_read_law s n s' d : BIO_read s n = (s', d) → 0 < n →
    to_send s = d ++ to_send s' ∧ zlen d ≤ n ∧ (d = [] → to_send s = []) ∧
    fed s' = fed s ∧ taken s' = taken s ∧ out s' = out s ∧ wanted s' = wanted s;
}.

Section Tls.
Context {S : Type} `{OpenSSL S}.

(** Source: src/modules/proxy/ProxySessions.cpp:437-448, TlsProxyPeerSession.
    With the state of the base session it uses, the ciphertext buffers its send
    queue took, the plaintext given to the bridge, and the questions asked. *)
Record tls_peer := mkTls {
  ssl_ : option S;
  handshake_complete_ : bool;
  ready_notified_ : bool;
  pending_plaintext_bytes_ : Z;
  pending_plaintext_ : list bytes;
  disconnecting : bool;
  backpressure : bool;
  queued : list bytes;
  forwarded : list bytes;
  asked : nat;
}.

Record tls_env := mkTlsEnv {
  pending_plaintext_limit_ : Z;
  send : nat → option bool;       (* [None]: failed; else backpressure after it *)
  bridge_closed : nat → bool;
  on_ready_ : option (nat → bool);
}.

Context (e : tls_env).
Implicit Types (p : tls_peer).

Definition set_ssl (s : S) p := mkTls (Some s) (handshake_complete_ p) (ready_notified_ p)
  (pending_plaintext_bytes_ p) (pending_plaintext_ p) (disconnecting p) (backpressure p)
  (queued p) (forwarded p) (asked p).
Definition set_handshake p := mkTls (ssl_ p) true (ready_notified_ p)
  (pending_plaintext_bytes_ p) (pending_plaintext_ p) (disconnecting p) (backpressure p)
  (queued p) (forwarded p) (asked p).
Definition set_ready p := mkTls (ssl_ p) (handshake_complete_ p) true
  (pending_plaintext_bytes_ p) (pending_plaintext_ p) (disconnecting p) (backpressure p)
  (queued p) (forwarded p) (asked p).
Definition set_pending (n : Z) (q : list bytes) p := mkTls (ssl_ p) (handshake_complete_ p)
  (ready_notified_ p) n q (disconnecting p) (backpressure p) (queued p) (forwarded p) (asked p).
Definition Disconnect p := mkTls (ssl_ p) (handshake_complete_ p) (ready_notified_ p)
  (pending_plaintext_bytes_ p) (pending_plaintext_ p) true (backpressure p) (queued p)
  (forwarded p) (asked p).
Definition add_queued (d : bytes) (bp : bool) p := mkTls (ssl_ p) (handshake_complete_ p)
  (ready_notified_ p) (pending_plaintext_bytes_ p) (pending_plaintext_ p) (disconnecting p) bp
  (queued p ++ [d]) (forwarded p) (asked p).
Definition add_forwarded (d : bytes) p := mkTls (ssl_ p) (handshake_complete_ p)
  (ready_notified_ p) (pending_plaintext_bytes_ p) (pending_plaintext_ p) (disconnecting p)
  (backpressure p) (queued p) (forwarded p ++ [d]) (asked p).
Definition bump p := mkTls (ssl_ p) (handshake_complete_ p) (ready_notified_ p)
  (pending_plaintext_bytes_ p) (pending_plaintext_ p) (disconnecting p) (backpressure p)
  (queued p) (forwarded p) (Datatypes.S (asked p)).

(** Source: src/modules/proxy/ProxySessions.cpp:421-435, TlsProxyPeerSession::QueueCiphertext. *)
Definition QueueCiphertext (d : bytes) p : tls_peer * bool :=
  match send e (asked p) with
  | Some bp => (add_queued d bp (bump p), true)
  | None => (bump p, false)
  end.

(** The size of [ciphertext_buffer_] and of [plain_buffer_]. *)
Definition kCiphertext : Z := 64 * 1024.
Definition kPlain : Z := 16 * 1024.

(** Source: src/modules/proxy/ProxySessions.cpp:388-419, TlsProxyPeerSession::FlushCiphertextOutput.
    [None] is exhausted fuel, here and below. *)
Fixpoint flush_loop (fuel : nat) (buffered : bytes) (s : S) p : option (tls_peer * bool) :=
  match fuel with
  | O => None
  | Datatypes.S fuel =>
    let '(s, d) := BIO_read s (kCiphertext - zlen buffered) in
    let p := set_ssl s p in
    if bool_decide (d ≠ []) then
      let buffered := buffered ++ d in
      if zlen buffered =? kCiphertext then
        let '(p, ok) := QueueCiphertext buffered p in
        if ok then flush_loop fuel [] s p else Some (p, false)
      else flush_loop fuel buffered s p
    else
      if bool_decide (buffered ≠ []) then
        Some (QueueCiphertext buffered p)
      else Some (p, true)
  end.

Definition FlushCiphertextOutput (fuel : nat) p : option (tls_peer * bool) :=
  match ssl_ p with None => Some (p, false) | Some s => flush_loop fuel [] s p end.

(** Source: src/modules/proxy/ProxySessions.cpp:244-273, TlsProxyPeerSession::EncryptAndQueuePlaintext.
    [data] is what is not yet consumed. *)
Fixpoint encrypt_loop (fuel : nat) (data : bytes) p : option (tls_peer * bool) :=
  match fuel, ssl_ p with
  | O, _ => None
  | _, None => Some (p, false)
  | Datatypes.S fuel, Some s =>
    if bool_decide (data = []) then FlushCiphertextOutput fuel p else
    let '(s, r) := SSL_write_ex s data in
    let p := set_ssl s p in
    match r with
    | Written n =>
      '(p, ok) ← FlushCiphertextOutput fuel p;
      if ok : bool then encrypt_loop fuel (zdrop n data) p else Some (p, false)
    | WriteWant => FlushCiphertextOutput fuel p
    | WriteFailed => Some (p, false)
    end
  end.
Definition EncryptAndQueuePlaintext (fuel : nat) (data : bytes) p : option (tls_peer * bool) :=
  if bool_decide (data = []) then Some (p, true) else encrypt_loop fuel data p.

(** Source: src/modules/proxy/ProxySessions.cpp:211-225, TlsProxyPeerSession::QueuePendingPlaintext. *)
Definition QueuePendingPlaintext (data : bytes) p : tls_peer * bool :=
  let next_size := pending_plaintext_bytes_ p + zlen data in
  if negb (pending_plaintext_limit_ e =? 0) && (pending_plaintext_limit_ e <? next_size)
  then (p, false)
  else (set_pending next_size (pending_plaintext_ p ++ [data]) p, true).

(** Source: src/modules/proxy/ProxySessions.cpp:227-242, TlsProxyPeerSession::FlushPendingPlaintext. *)
Fixpoint pending_loop (fuel : nat) (inner : nat) p : option (tls_peer * bool) :=
  match fuel with
  | O => None
  | Datatypes.S fuel =>
    match pending_plaintext_ p with
    | chunk :: rest =>
      if backpressure p then Some (p, true) else
      let p := set_pending (pending_plaintext_bytes_ p - zlen chunk) rest p in
      '(p, ok) ← EncryptAndQueuePlaintext inner chunk p;
      if ok : bool then pending_loop fuel inner p else Some (p, false)
    | [] => Some (p, true)
    end
  end.
Definition FlushPendingPlaintext (fuel : nat) p : option (tls_peer * bool) :=
  if negb (handshake_complete_ p) || bool_decide (pending_plaintext_ p = []) then Some (p, true)
  else pending_loop fuel fuel p.

(** Source: src/modules/proxy/ProxySessions.cpp:106-118, TlsProxyPeerSession::SendProxyPayload. *)
Definition SendProxyPayload (fuel : nat) (data : bytes) p : option (tls_peer * bool) :=
  if bool_decide (ssl_ p = None) || disconnecting p then Some (p, false) else
  if negb (handshake_complete_ p) then Some (QueuePendingPlaintext data p) else
  if backpressure p then Some (QueuePendingPlaintext data p) else
  EncryptAndQueuePlaintext fuel data p.

(** Source: src/modules/proxy/ProxySessions.cpp:341-354, TlsProxyPeerSession::NotifyReady. *)
Definition NotifyReady p : tls_peer * bool :=
  if ready_notified_ p then (p, true) else
  let p := set_ready p in
  match on_ready_ e with None => (p, true) | Some f => (bump p, f (asked p)) end.

(** Source: src/modules/proxy/ProxySessions.cpp:318-339, TlsProxyPeerSession::DriveHandshake. *)
Definition DriveHandshake (fuel : nat) p : option (tls_peer * bool) :=
  match ssl_ p with
  | None => Some (p, false)
  | Some s =>
    let '(s, r) := SSL_do_handshake s in
    let p := set_ssl s p in
    match r with
    | HandshakeDone =>
      let '(p, ok) := NotifyReady (set_handshake p) in
      if ok then FlushCiphertextOutput fuel p else Some (p, false)
    | HandshakeWant => FlushCiphertextOutput fuel p
    | HandshakeFailed => Some (p, false)
    end
  end.

(** Source: src/modules/proxy/ProxySessions.cpp:356-386, TlsProxyPeerSession::DrainPlaintext. *)
Fixpoint DrainPlaintext (fuel : nat) p : option (tls_peer * bool) :=
  match fuel, ssl_ p with
  | O, _ => None
  | _, None => Some (p, false)
  | Datatypes.S fuel, Some s =>
    let '(s, r) := SSL_read_ex s kPlain in
    let p := set_ssl s p in
    match r with
    | ReadData d =>
      let p := bump (add_forwarded d p) in
      if bridge_closed e (asked p) then Some (p, false) else DrainPlaintext fuel p
    | ReadWant => Some (p, true)
    | ReadZero | ReadFailed => Some (p, false)
    end
  end.

(** Source: src/modules/proxy/ProxySessions.cpp:297-316, TlsProxyPeerSession::DriveTlsMachine. *)
Definition DriveTlsMachine (fuel : nat) p : option (tls_peer * bool) :=
  if bool_decide (ssl_ p = None) then Some (p, false) else
  '(p, ok) ←
    (if negb (handshake_complete_ p) then
       '(p, ok) ← DriveHandshake fuel p;
       if negb ok then Some (p, false) else
       if handshake_complete_ p then FlushPendingPlaintext fuel p else Some (p, true)
     else Some (p, true));
  if negb ok then Some (p, false) else
  '(p, ok) ← (if handshake_complete_ p then DrainPlaintext fuel p else Some (p, true));
  if negb ok then Some (p, false) else FlushCiphertextOutput fuel p.

(** Source: src/modules/proxy/ProxySessions.cpp:275-295, TlsProxyPeerSession::WriteCiphertextToBio.
    A memory BIO takes something of what it is given. *)
Fixpoint WriteCiphertextToBio (fuel : nat) (data : bytes) (s : S) : option S :=
  if bool_decide (data = []) then Some s else
  match fuel with
  | O => None
  | Datatypes.S fuel =>
    let '(s, written) := BIO_write s data in WriteCiphertextToBio fuel (zdrop written data) s
  end.

Definition disconnect_unless (r : option (tls_peer * bool)) : option tls_peer :=
  '(p, ok) ← r; Some (if ok : bool then p else Disconnect p).

(** Source: src/modules/proxy/ProxySessions.cpp:141-149, TlsProxyPeerSession::OnConnected. *)
Definition OnConnected (fuel : nat) p : option tls_peer :=
  match ssl_ p with
  | None => Some (Disconnect p)
  | Some _ => disconnect_unless (DriveTlsMachine fuel p)
  end.

(** Source: src/modules/proxy/ProxySessions.cpp:151-159, TlsProxyPeerSession::OnRecv. *)
Definition OnRecv (fuel : nat) (data : bytes) p : option tls_peer :=
  match ssl_ p with
  | None => Some (Disconnect p)
  | Some s =>
    s ← WriteCiphertextToBio (length data) data s;
    disconnect_unless (DriveTlsMachine fuel (set_ssl s p))
  end.

(** Source: src/modules/proxy/ProxySessions.cpp:165-169, TlsProxyPeerSession::OnSocketDrained. *)
Definition OnSocketDrained (fuel : nat) p : option tls_peer :=
  disconnect_unless (FlushPendingPlaintext fuel p).

(** Source: src/modules/proxy/ProxySessions.cpp:88-104, TlsProxyPeerSession::TlsProxyPeerSession.
    [InitializeSsl] fails or gives a connection. *)
Definition Tls_new (s : option S) : tls_peer := mkTls s false false 0 [] false false [] [] 0.

(** ** The two streams *)

(** What a call leaves alone when it only produces output. *)
Definition keeps p p' : Prop :=
  handshake_complete_ p' = handshake_complete_ p ∧ ready_notified_ p' = ready_notified_ p ∧
  pending_plaintext_bytes_ p' = pending_plaintext_bytes_ p ∧
  pending_plaintext_ p' = pending_plaintext_ p ∧ disconnecting p' = disconnecting p ∧
  forwarded p' = forwarded p.

Lemma tls_keeps_trans p1 p2 p3 : keeps p1 p2 → keeps p2 p3 → keeps p1 p3.
Proof.
  intros (A1&A2&A3&A4&A5&A6) (B1&B2&B3&B4&B5&B6). unfold keeps.
  rewrite B1, B2, B3, B4, B5, B6. by split_and!.
Qed.

Definition size_ok (c : bytes) : Prop := 0 < zlen c ≤ kCiphertext.

(** Everything produced is in the send queue or still in the BIO. *)
Definition wire p (s : S) : Prop :=
  ssl_ p = Some s ∧ concat (queued p) ++ to_send s = out s ∧ Forall size_ok (queued p).

(** Everything produced is in the send queue. *)
Definition flushed p (s : S) : Prop :=
  ssl_ p = Some s ∧ to_send s = [] ∧ concat (queued p) = out s ∧ Forall size_ok (queued p).

Lemma flushed_wire p s : flushed p s → wire p s.
Proof. intros (?&Hs&?&?). split_and!; try done. by rewrite Hs, app_nil_r. Qed.

Lemma QueueCiphertext_true d p p' :
  QueueCiphertext d p = (p', true) →
  ssl_ p' = ssl_ p ∧ queued p' = queued p ++ [d] ∧ keeps p p'.
Proof. unfold QueueCiphertext. intros E. case_match; simplify_eq; by split_and!. Qed.

Lemma flush_loop_true fuel b s p p' :
  flush_loop fuel b s p = Some (p', true) → zlen b < kCiphertext →
  concat (queued p) ++ b ++ to_send s = out s → Forall size_ok (queued p) →
  ∃ s', flushed p' s' ∧ taken s' = taken s ∧ fed s' = fed s ∧ wanted s' = wanted s ∧ keeps p p'.
Proof.
  revert b s p. induction fuel as [|fuel IH]; intros b s p; simpl; [done|].
  destruct (BIO_read s (kCiphertext - zlen b)) as [s1 d] eqn:E. intros Hr Hb Hw Hq.
  destruct (bio_read_law _ _ _ _ E ltac:(lia)) as (L1&L2&L3&L4&L5&L6&L7). rewrite L1 in Hw.
  case_bool_decide as Hd.
  - destruct (Z.eqb_spec (zlen (b ++ d)) kCiphertext) as [Ef|Ef].
    + destruct (QueueCiphertext (b ++ d) (set_ssl s1 p)) as [p1 []] eqn:Eq; [|done].
      apply QueueCiphertext_true in Eq as (Q1&Q2&Q3).
      destruct (IH [] s1 p1 Hr) as (s'&F1&F2&F3&Fw&F4).
      * by vm_compute.
      * rewrite Q2. simpl. rewrite concat_app. simpl. rewrite app_nil_r, <-!app_assoc.
        by rewrite L6, <-Hw.
      * rewrite Q2. apply Forall_app. split; [done|]. constructor; [|done].
        unfold size_ok. rewrite Ef. unfold kCiphertext. lia.
      * exists s'. split_and!; [done|congruence|congruence|congruence|]. by eapply tls_keeps_trans.
    + destruct (IH (b ++ d) s1 (set_ssl s1 p) Hr) as (s'&F1&F2&F3&Fw&F4).
      * rewrite zlen_app in *. lia.
      * simpl. by rewrite L6, <-Hw, <-!app_assoc.
      * done.
      * exists s'. split_and!; [done|congruence|congruence|congruence|done].
  - subst d. specialize (L3 eq_refl). rewrite L3 in L1. simpl in L1.
    case_bool_decide as Hbn.
    + injection Hr as Hr. apply QueueCiphertext_true in Hr as (Q1&Q2&Q3).
      exists s1. split; [|by split_and!]. split; [by rewrite Q1|]. split; [done|].
      split; [by rewrite Q2, concat_app, L6, <-Hw, <-L1; simpl; rewrite !app_nil_r|]. rewrite Q2. apply Forall_app. split; [done|]. constructor; [|done]. unfold size_ok.
      destruct b as [|x b]; [done|]. rewrite zlen_cons in *. pose proof (zlen_nonneg b). lia.
    + subst b. injection Hr as <-. exists s1. split; [|by split_and!]. split; [done|]. split; [done|].
      split; [|done]. simpl. rewrite <-L1 in Hw. simpl in Hw. by rewrite app_nil_r, <-L6 in Hw.
Qed.

Lemma Flush_true fuel p p' s :
  FlushCiphertextOutput fuel p = Some (p', true) → wire p s →
  ∃ s', flushed p' s' ∧ taken s' = taken s ∧ fed s' = fed s ∧ wanted s' = wanted s ∧ keeps p p'.
Proof.
  unfold FlushCiphertextOutput. intros Hr (Hs&Hw&Hq). rewrite Hs in Hr.
  by apply (flush_loop_true fuel [] s p p').
Qed.

Lemma wire_produced p s s' x :
  wire p s → out s' = out s ++ x → to_send s' = to_send s ++ x → wire (set_ssl s' p) s'.
Proof. intros (Hs&Hw&Hq) Ho Ht. split_and!; try done. simpl. by rewrite Ho, Ht, app_assoc, Hw. Qed.

Lemma keeps_ssl s p : keeps p (set_ssl s p).
Proof. by split_and!. Qed.

(** A payload, or as much of it as was taken before OpenSSL asked to be called again:
    the call drops the rest. *)
Lemma encrypt_loop_true fuel data p p' s :
  encrypt_loop fuel data p = Some (p', true) → wire p s →
  ∃ s' d, flushed p' s' ∧ taken s' = taken s ++ d ∧ d `prefix_of` data ∧
    (wanted s ≤ wanted s')%nat ∧ (wanted s' = wanted s → d = data) ∧ fed s' = fed s ∧ keeps p p'.
Proof.
  revert data p s. induction fuel as [|fuel IH]; intros data p s; simpl; [done|].
  intros Hr Hw. pose proof Hw as (Hs&_). rewrite Hs in Hr. case_bool_decide as Hd.
  { subst. destruct (Flush_true _ _ _ _ Hr Hw) as (s'&?&?&?&Ew&?). exists s', [].
    rewrite app_nil_r, Ew. by split_and!. }
  destruct (SSL_write_ex s data) as [s1 [n| |]] eqn:E; [| |done];
    destruct (write_law _ _ _ _ E Hd) as (L1&(x&L2&L3)&L4).
  - destruct L4 as (L4&L5&L6).
    destruct (FlushCiphertextOutput fuel (set_ssl s1 p)) as [[p1 []]|] eqn:Ef; [|done|done].
    cbn [mbind option_bind] in Hr.
    destruct (Flush_true _ _ _ _ Ef (wire_produced p s s1 x Hw L2 L3)) as (s2&F1&F2&F3&F4&F5).
    destruct (IH _ _ _ Hr (flushed_wire _ _ F1)) as (s'&d&G1&G2&G3&G4&G5&G6&G7).
    exists s', (ztake n data ++ d). split_and!; [done| | |lia| |congruence|].
    + by rewrite G2, F2, L5, <-app_assoc.
    + rewrite <-(ztake_zdrop n data) at 2. by apply prefix_app.
    + intros Ew. rewrite G5 by lia. by rewrite ztake_zdrop.
    + eapply tls_keeps_trans; [apply keeps_ssl|]. by eapply tls_keeps_trans.
  - destruct L4 as (L4&L5).
    destruct (Flush_true _ _ _ _ Hr (wire_produced p s s1 x Hw L2 L3)) as (s2&F1&F2&F3&F4&F5).
    exists s2, []. split_and!; [done|by rewrite app_nil_r, F2|apply prefix_nil|lia|lia|congruence|].
    eapply tls_keeps_trans; [apply keeps_ssl|done].
Qed.

Lemma Encrypt_true fuel data p p' s :
  EncryptAndQueuePlaintext fuel data p = Some (p', true) → flushed p s →
  ∃ s' d, flushed p' s' ∧ taken s' = taken s ++ d ∧ d `prefix_of` data ∧
    (wanted s ≤ wanted s')%nat ∧ (wanted s' = wanted s → d = data) ∧ fed s' = fed s ∧ keeps p p'.
Proof.
  unfold EncryptAndQueuePlaintext. intros Hr Hf. case_bool_decide as Hd.
  - subst. injection Hr as <-. exists s, []. rewrite app_nil_r. by split_and!.
  - eapply encrypt_loop_true; [done|]. by apply flushed_wire.
Qed.

(** The invariant between calls: ciphertext is flushed, and the plaintext handed
    in is what was encrypted, in order, followed by what is pending, less what was
    dropped when OpenSSL asked to be called again. *)
Record tls_inv (handed : bytes) p : Prop := {
  tv_bytes : pending_plaintext_bytes_ p = zlen (concat (pending_plaintext_ p));
  tv_limit : pending_plaintext_limit_ e ≠ 0 → pending_plaintext_bytes_ p ≤ pending_plaintext_limit_ e ∨
    pending_plaintext_ p = [];
  tv_state : ∃ s, flushed p s ∧ taken s ++ concat (pending_plaintext_ p) `sublist_of` handed ∧
    (wanted s = 0%nat → taken s ++ concat (pending_plaintext_ p) = handed);
}.

Lemma keeps_inv handed p p' s s' :
  tls_inv handed p → flushed p s → keeps p p' → flushed p' s' → taken s' = taken s →
  wanted s' = wanted s → tls_inv handed p'.
Proof.
  intros [T1 T2 (s0&Hf&Hh)] Hs (K1&K2&K3&K4&K5&K6) Hs' Ht Hw.
  assert (s0 = s) as -> by (destruct Hf as [A _], Hs as [B _]; congruence).
  split; rewrite ?K3, ?K4; try done. exists s'. rewrite Ht, Hw. done.
Qed.

Lemma pending_loop_true fuel inner handed p p' :
  pending_loop fuel inner p = Some (p', true) → tls_inv handed p →
  tls_inv handed p' ∧ disconnecting p' = disconnecting p ∧
  handshake_complete_ p' = handshake_complete_ p.
Proof.
  revert p. induction fuel as [|fuel IH]; intros p; simpl; [done|].
  intros Hr Hi. destruct (pending_plaintext_ p) as [|c rest] eqn:Ep; [by injection Hr as <-|].
  destruct (backpressure p); [by injection Hr as <-|].
  destruct (EncryptAndQueuePlaintext _ _ _) as [[p1 []]|] eqn:E; [|done|done].
  cbn [mbind option_bind] in Hr. destruct Hi as [T1 T2 (s&Hf&Hh)].
  rewrite Ep in T1, T2, Hh. simpl in T1, Hh. rewrite zlen_app in T1.
  destruct (Encrypt_true _ _ _ _ s E) as (s'&d&F1&F2&Fp&Fw&Fe&F3&(K1&K2&K3&K4&K5&K6)).
  { by destruct Hf as (?&?&?&?); split_and!. }
  simpl in *. destruct (IH p1 Hr) as (?&D1&D2).
  - split; rewrite ?K3, ?K4.
    + lia.
    + intros Hl. destruct (T2 Hl) as [?|?]; [|done]. left. pose proof (zlen_nonneg c). lia.
    + exists s'. split; [done|]. rewrite F2, <-app_assoc. destruct Hh as [Hh Hw]. split.
      * etrans; [|exact Hh]. apply sublist_app; [done|]. apply sublist_app; [|done]. destruct Fp as [k ->]. by apply sublist_inserts_r.
      * intros E0. rewrite Fe by lia. apply Hw. lia.
  - split_and!; congruence.
Qed.

Lemma FlushPending_true fuel handed p p' :
  FlushPendingPlaintext fuel p = Some (p', true) → tls_inv handed p →
  tls_inv handed p' ∧ disconnecting p' = disconnecting p ∧
  handshake_complete_ p' = handshake_complete_ p.
Proof.
  unfold FlushPendingPlaintext. case_match; [by intros [= <-]|]. apply pending_loop_true.
Qed.

Lemma QueuePending_true handed data p p' :
  QueuePendingPlaintext data p = (p', true) → tls_inv handed p →
  tls_inv (handed ++ data) p' ∧ disconnecting p' = disconnecting p.
Proof.
  unfold QueuePendingPlaintext. case_match eqn:El; [done|]. intros [= <-] [T1 T2 (s&Hf&Hh)].
  split; [|done]. split; simpl.
  - rewrite concat_app. simpl. by rewrite app_nil_r, zlen_app, T1.
  - intros Hl. left. apply andb_false_iff in El as [El|El]; propify; lia.
  - exists s. split; [by destruct Hf as (?&?&?&?); split_and!|].
    rewrite concat_app. simpl. rewrite app_nil_r, app_assoc. destruct Hh as [Hh Hw].
    split; [by apply sublist_app|]. intros E0. by rewrite Hw.
Qed.

(** A payload that does not overtake pending ones. *)
Definition in_order p : Prop :=
  pending_plaintext_ p = [] ∨ handshake_complete_ p = false ∨ backpressure p = true.

Lemma SendProxyPayload_true fuel handed data p p' :
  SendProxyPayload fuel data p = Some (p', true) → in_order p → tls_inv handed p →
  tls_inv (handed ++ data) p' ∧ disconnecting p' = false.
Proof.
  unfold SendProxyPayload. intros Hr Ho Hi.
  case_match eqn:E1; [done|]. apply orb_false_iff in E1 as [_ Ed].
  destruct (handshake_complete_ p) eqn:Eh; cbn [negb] in Hr.
  2:{ injection Hr as Hr. destruct (QueuePending_true _ _ _ _ Hr Hi). split; [done|congruence]. }
  destruct (backpressure p) eqn:Eb.
  { injection Hr as Hr. destruct (QueuePending_true _ _ _ _ Hr Hi). split; [done|congruence]. }
  assert (pending_plaintext_ p = []) as Hp by (destruct Ho as [?|[?|?]]; congruence).
  destruct Hi as [T1 T2 (s&Hf&Hh)].
  destruct (Encrypt_true _ _ _ _ _ Hr Hf) as (s'&d&F1&F2&Fp&Fw&Fe&F3&(K1&K2&K3&K4&K5&K6)).
  split; [|congruence]. split; rewrite ?K3, ?K4; try done. exists s'. split; [done|].
  rewrite Hp in *. simpl in *. rewrite !app_nil_r, F2 in *. destruct Hh as [Hh Hw]. split.
  - apply sublist_app; [done|]. destruct Fp as [k ->]. by apply sublist_inserts_r.
  - intros E0. rewrite Fe, Hw by lia. done.
Qed.

Lemma DriveHandshake_true fuel handed p p' :
  DriveHandshake fuel p = Some (p', true) → tls_inv handed p →
  tls_inv handed p' ∧ disconnecting p' = disconnecting p.
Proof.
  unfold DriveHandshake. intros Hr [T1 T2 (s&Hf&Hh)]. pose proof Hf as (Hs&_). rewrite Hs in Hr.
  destruct (SSL_do_handshake s) as [s1 r] eqn:E.
  destruct (handshake_law _ _ _ E) as (L1&L2&Lw&x&L3&L4).
  pose proof (wire_produced p s s1 x (flushed_wire _ _ Hf) L3 L4) as Hw.
  assert (∀ q, FlushCiphertextOutput fuel q = Some (p', true) → ssl_ q = Some s1 →
    queued q = queued p → pending_plaintext_bytes_ q = pending_plaintext_bytes_ p →
    pending_plaintext_ q = pending_plaintext_ p → disconnecting q = disconnecting p →
    tls_inv handed p' ∧ disconnecting p' = disconnecting p) as Hend.
  { intros q Hq Q1 Q2 Q3 Q4 Q5. destruct (Flush_true _ _ _ s1 Hq) as (s'&F1&F2&F3&Fw&(K1&K2&K3&K4&K5&K6)).
    { destruct Hw as (?&?&?). split_and!; [done|by rewrite Q2|by rewrite Q2]. }
    split; [|congruence]. split; rewrite ?K3, ?K4, ?Q3, ?Q4; try done. exists s'. by rewrite F2, L2, Fw, Lw. }
  destruct r; [|by apply Hend in Hr|done].
  destruct (NotifyReady _) as [p1 []] eqn:En; [|done].
  apply Hend in Hr; try done; unfold NotifyReady in En; repeat case_match; simplify_eq; done.
Qed.

Lemma DrainPlaintext_true fuel p p' s :
  DrainPlaintext fuel p = Some (p', true) → wire p s →
  ∃ s', wire p' s' ∧ taken s' = taken s ∧ wanted s' = wanted s ∧ pending_plaintext_bytes_ p' = pending_plaintext_bytes_ p ∧
    pending_plaintext_ p' = pending_plaintext_ p ∧ disconnecting p' = disconnecting p.
Proof.
  revert p s. induction fuel as [|fuel IH]; intros p s; simpl; [done|].
  intros Hr Hw. pose proof Hw as (Hs&_). rewrite Hs in Hr.
  destruct (SSL_read_ex s kPlain) as [s1 r] eqn:E.
  destruct (read_law _ _ _ _ E ltac:(done)) as (L1&L2&Lw&(x&L3&L4)&_).
  pose proof (wire_produced p s s1 x Hw L3 L4) as Hw1. destruct r as [d| | |]; try done.
  - case_match; [done|]. destruct (IH _ s1 Hr) as (s'&?&?&?&?&?&?).
    { by destruct Hw1 as (?&?&?); split_and!. }
    exists s'. split_and!; simpl in *; congruence.
  - injection Hr as <-. exists s1. by split_and!.
Qed.

Lemma DriveTlsMachine_true fuel handed p p' :
  DriveTlsMachine fuel p = Some (p', true) → tls_inv handed p →
  tls_inv handed p' ∧ disconnecting p' = disconnecting p.
Proof.
  unfold DriveTlsMachine. intros Hr Hi. case_match; [done|].
  match type of Hr with (?m ≫= _) = _ => destruct m as [[p1 ok1]|] eqn:E1; [|done] end.
  cbn [mbind option_bind] in Hr. destruct ok1; cbn [negb] in Hr; [|done].
  assert (tls_inv handed p1 ∧ disconnecting p1 = disconnecting p) as [Hi1 D1].
  { destruct (handshake_complete_ p); cbn [negb] in E1; [by injection E1 as <-|].
    destruct (DriveHandshake fuel p) as [[p0 []]|] eqn:E0; [|done|done].
    apply (DriveHandshake_true _ handed) in E0 as [Hi0 D0]; [|done]. simpl in E1.
    destruct (handshake_complete_ p0); [|by injection E1 as <-].
    apply (FlushPending_true _ handed) in E1 as (?&?&?); [|done]. split; congruence. }
  match type of Hr with (?m ≫= _) = _ => destruct m as [[p2 ok2]|] eqn:E2; [|done] end.
  cbn [mbind option_bind] in Hr. destruct ok2; cbn [negb] in Hr; [|done].
  destruct Hi1 as [T1 T2 (s&Hf&Hh)].
  assert (∃ s2, wire p2 s2 ∧ taken s2 = taken s ∧ wanted s2 = wanted s ∧
    pending_plaintext_bytes_ p2 = pending_plaintext_bytes_ p1 ∧
    pending_plaintext_ p2 = pending_plaintext_ p1 ∧ disconnecting p2 = disconnecting p1)
    as (s2&Hw2&G1&Gw&G2&G3&G4).
  { destruct (handshake_complete_ p1).
    - eapply DrainPlaintext_true; [done|]. by apply flushed_wire.
    - injection E2 as <-. exists s. split_and!; try done. by apply flushed_wire. }
  destruct (Flush_true _ _ _ _ Hr Hw2) as (s'&F1&F2&F3&Fw&(K1&K2&K3&K4&K5&K6)).
  split; [|congruence]. split; rewrite ?K3, ?K4, ?G2, ?G3; try done.
  exists s'. by rewrite F2, G1, Fw, Gw.
Qed.

Lemma WriteCiphertext_spec fuel data s s' :
  WriteCiphertextToBio fuel data s = Some s' →
  fed s' = fed s ++ data ∧ taken s' = taken s ∧ out s' = out s ∧ to_send s' = to_send s ∧ wanted s' = wanted s.
Proof.
  revert data s. induction fuel as [|fuel IH]; intros data s; simpl; case_bool_decide as Hd; try done;
    try (intros [= <-]; subst; by rewrite app_nil_r).
  destruct (BIO_write s data) as [s1 n] eqn:E. intros Hr.
  destruct (bio_write_law _ _ _ _ E Hd) as (L0&L1&L2&L3&L4&L5).
  destruct (IH _ _ Hr) as (I1&I2&I3&I4&I5). split_and!; try congruence.
  rewrite I1, L1, <-app_assoc. by rewrite ztake_zdrop.
Qed.

(** Calls on the session, and sends that finish, with the plaintext handed in so
    far.  An open session gets callbacks.  The bridge closes a session whose [SendProxyPayload] fails. *)
Inductive tls_step : tls_peer * bytes → tls_peer * bytes → Prop :=
| t_connected fuel p p' handed :
    disconnecting p = false → OnConnected fuel p = Some p' → tls_step (p, handed) (p', handed)
| t_recv fuel data p p' handed :
    disconnecting p = false → OnRecv fuel data p = Some p' → tls_step (p, handed) (p', handed)
| t_drained fuel p p' handed :
    disconnecting p = false → OnSocketDrained fuel p = Some p' → tls_step (p, handed) (p', handed)
| t_send fuel data p p' ok handed :
    in_order p → SendProxyPayload fuel data p = Some (p', ok) →
    tls_step (p, handed) (if ok then (p', handed ++ data) else (Disconnect p', handed))
| t_backpressure b p handed :
    tls_step (p, handed) (mkTls (ssl_ p) (handshake_complete_ p) (ready_notified_ p)
      (pending_plaintext_bytes_ p) (pending_plaintext_ p) (disconnecting p) b (queued p)
      (forwarded p) (asked p), handed).

Lemma tls_step_inv a b :
  tls_step a b → (disconnecting a.1 = false → tls_inv a.2 a.1) →
  disconnecting b.1 = false → tls_inv b.2 b.1.
Proof.
  intros Hs Ha. destruct Hs as [fuel p p' h Hd E|fuel data p p' h Hd E|fuel p p' h Hd E|
    fuel data p p' ok h Ho E|b p h]; cbn [fst snd] in *.
  - specialize (Ha Hd). unfold OnConnected, disconnect_unless in E. destruct (ssl_ p); [|by simplify_eq].
    destruct (DriveTlsMachine fuel p) as [[p1 []]|] eqn:Ed; simplify_eq/=; [|done].
    intros _. by apply (DriveTlsMachine_true _ h) in Ed as [? _].
  - specialize (Ha Hd). unfold OnRecv, disconnect_unless in E. destruct (ssl_ p) as [s|] eqn:Es; [|by simplify_eq].
    destruct (WriteCiphertextToBio _ data s) as [s1|] eqn:Ew; simplify_eq/=.
    apply WriteCiphertext_spec in Ew as (_&W1&W2&W3&W4).
    destruct (DriveTlsMachine fuel (set_ssl s1 p)) as [[p1 []]|] eqn:Ed; simplify_eq/=; [|done].
    intros _. apply (DriveTlsMachine_true _ h) in Ed as [? _]; [done|].
    destruct Ha as [T1 T2 (s0&(Hs&F1&F2&F3)&Hh)]. split; [done|done|].
    assert (s0 = s) as -> by congruence. exists s1. split; [|by rewrite W1, W4].
    split_and!; simpl; congruence.
  - specialize (Ha Hd). unfold OnSocketDrained, disconnect_unless in E.
    destruct (FlushPendingPlaintext fuel p) as [[p1 []]|] eqn:Ed; simplify_eq/=; [|done].
    intros _. by apply (FlushPending_true _ h) in Ed as [? _].
  - destruct ok; cbn [fst snd]; [|done]. intros _.
    assert (disconnecting p = false) as Hd.
    { unfold SendProxyPayload in E. destruct (disconnecting p); [|done]. by rewrite orb_true_r in E. }
    by apply (SendProxyPayload_true _ h) in E as [? _]; [|done|apply Ha].
  - intros Hd. destruct (Ha Hd) as [T1 T2 (s&Hf&Hh)]. split; try done. exists s. split; [|done].
    by destruct Hf as (?&?&?&?); split_and!.
Qed.

(** C30: A TLS session keeps both of its streams in order, whatever OpenSSL answers
    within its documented laws, from a connection that has taken and produced
    nothing.  As long as it is open: the ciphertext OpenSSL has
    produced is exactly what the session's send queue took, in order and in pieces
    of at most 64 KiB; what was encrypted, followed by the pending chunks, is in
    order what was handed in, with nothing added, and is all of it if
    [SSL_write_ex] has never answered that it wants to be called again (the code
    then drops the rest of the payload, see [want_drops_payload]); and the pending
    chunks stay within their limit.  Condition: no payload is handed in while older
    ones are pending although the handshake is done and backpressure has ended
    (see [payload_overtakes]). *)
Theorem tls_streams s0 p handed :
  0 ≤ pending_plaintext_limit_ e → to_send s0 = [] → out s0 = [] → taken s0 = [] →
  steps tls_step (Tls_new (Some s0), []) (p, handed) → disconnecting p = false →
  ∃ s, ssl_ p = Some s ∧ concat (queued p) = out s ∧ Forall size_ok (queued p) ∧
    taken s ++ concat (pending_plaintext_ p) `sublist_of` handed ∧
    (wanted s = 0%nat → taken s ++ concat (pending_plaintext_ p) = handed) ∧
    (pending_plaintext_limit_ e ≠ 0 →
     zlen (concat (pending_plaintext_ p)) ≤ pending_plaintext_limit_ e).
Proof.
  intros Hl H1 H2 H3 Hs Hd.
  assert (tls_inv handed p) as [T1 T2 (s&(F1&F2&F3&F4)&Hh&Hw)].
  { apply (steps_invariant tls_step (λ a, disconnecting a.1 = false → tls_inv a.2 a.1)
      (Tls_new (Some s0), []) (p, handed)); try done.
    - intros a b Ha Hab. by apply (tls_step_inv a b).
    - intros _. split; [done|by right|]. exists s0. split; [split_and!; simpl; try done; by rewrite H2|].
      simpl. by rewrite H3. }
  exists s. split_and!; try done. intros Hl0. rewrite <-T1. destruct (T2 Hl0) as [?|E]; [done|].
  rewrite E in T1. rewrite T1. done.
Qed.

(** ** Termination *)

(** With enough fuel there is a result, always the same. *)
Definition converges {A} (g : nat → option A) : Prop :=
  ∃ n r, ∀ f, (n ≤ f)%nat → g f = Some r.

Lemma converges_ret {A} (r : A) : converges (λ _, Some r).
Proof. by exists 0%nat, r. Qed.

Lemma converges_bind {A B} (g : nat → option A) (h : A → nat → option B) :
  converges g → (∀ r, converges (h r)) → converges (λ f, g f ≫= λ r, h r f).
Proof.
  intros (n&r&Hg) Hh. destruct (Hh r) as (m&r'&Hm). exists (Nat.max n m), r'.
  intros f Hf. rewrite Hg by lia. simpl. apply Hm. lia.
Qed.

Lemma converges_S {A} (g g' : nat → option A) :
  (∀ f, g (Datatypes.S f) = g' f) → converges g' → converges g.
Proof.
  intros E (n&r&Hg). exists (Datatypes.S n), r. intros [|f] Hf; [lia|]. rewrite E. apply Hg. lia.
Qed.

Lemma flush_loop_converges b s p : zlen b < kCiphertext → converges (λ f, flush_loop f b s p).
Proof.
  remember (length (to_send s)) as n eqn:Hn. revert b s p Hn.
  induction n as [n IH] using lt_wf_ind. intros b s p Hn Hb.
  eapply converges_S; [intros f; simpl; reflexivity|]. cbv beta.
  destruct (BIO_read s (kCiphertext - zlen b)) as [s1 d] eqn:E.
  destruct (bio_read_law _ _ _ _ E ltac:(lia)) as (L1&L2&_).
  case_bool_decide as Hd.
  - assert (length (to_send s1) < n)%nat as Hlt.
    { rewrite Hn, L1, length_app. destruct d; [done|simpl; lia]. }
    destruct (Z.eqb_spec (zlen (b ++ d)) kCiphertext) as [Ef|Ef].
    + destruct (QueueCiphertext _ _) as [p1 []]; [|apply converges_ret]. by eapply IH.
    + eapply IH; [done|done|]. rewrite zlen_app in *. lia.
  - case_bool_decide; apply converges_ret.
Qed.

Lemma Flush_converges p : converges (λ f, FlushCiphertextOutput f p).
Proof.
  unfold FlushCiphertextOutput. destruct (ssl_ p); [|apply converges_ret].
  by apply flush_loop_converges.
Qed.

Lemma encrypt_loop_converges data p : converges (λ f, encrypt_loop f data p).
Proof.
  remember (length data) as n eqn:Hn. revert data p Hn.
  induction n as [n IH] using lt_wf_ind. intros data p Hn.
  eapply converges_S; [intros f; simpl; reflexivity|]. cbv beta. destruct (ssl_ p) as [s|]; [|apply converges_ret].
  case_bool_decide as Hd; [apply Flush_converges|].
  destruct (SSL_write_ex s data) as [s1 [k| |]] eqn:E; [|apply Flush_converges|apply converges_ret].
  destruct (write_law _ _ _ _ E Hd) as (_&_&L&_). apply converges_bind; [apply Flush_converges|].
  intros [p1 []]; [|apply converges_ret]. eapply IH; [|done].
  rewrite Hn. unfold zdrop. rewrite length_drop. unfold zlen in L. lia.
Qed.

Lemma Encrypt_converges data p : converges (λ f, EncryptAndQueuePlaintext f data p).
Proof.
  unfold EncryptAndQueuePlaintext. case_bool_decide; [apply converges_ret|apply encrypt_loop_converges].
Qed.

Lemma Encrypt_pending fuel data p p' ok :
  EncryptAndQueuePlaintext fuel data p = Some (p', ok) →
  pending_plaintext_ p' = pending_plaintext_ p.
Proof.
  assert (∀ fuel b s p p' ok, flush_loop fuel b s p = Some (p', ok) →
    pending_plaintext_ p' = pending_plaintext_ p) as Hfl.
  { clear. induction fuel as [|fuel IH]; intros b s p p' ok; simpl; [done|].
    unfold QueueCiphertext. destruct (BIO_read _ _). repeat case_match; intros E; simplify_eq/=; try done;
      by apply IH in E. }
  assert (∀ fuel p p' ok, FlushCiphertextOutput fuel p = Some (p', ok) →
    pending_plaintext_ p' = pending_plaintext_ p) as Hf.
  { clear -Hfl. unfold FlushCiphertextOutput. intros fuel p p' ok. case_match; [apply Hfl|by intros [= <- <-]]. }
  unfold EncryptAndQueuePlaintext. case_bool_decide as Hd; [by intros [= <- <-]|]. clear Hd.
  revert data p. induction fuel as [|fuel IH]; intros data p; simpl; [done|].
  destruct (ssl_ p) as [s|]; [|by intros [= <- <-]]. case_bool_decide; [apply Hf|].
  destruct (SSL_write_ex s data) as [s1 [k| |]]; [|apply (Hf _ (set_ssl s1 p))|by intros [= <- <-]].
  destruct (FlushCiphertextOutput fuel (set_ssl s1 p)) as [[p1 []]|] eqn:E; simpl; [| |done].
  2:{ intros [= <- <-]. by apply Hf in E. }
  intros Hr. apply Hf in E. apply IH in Hr. by rewrite Hr.
Qed.

Lemma FlushPending_converges p : converges (λ f, FlushPendingPlaintext f p).
Proof.
  unfold FlushPendingPlaintext. case_match; [apply converges_ret|]. clear.
  enough (∃ n r, ∀ f i, (n ≤ f)%nat → (n ≤ i)%nat → pending_loop f i p = Some r) as (n&r&Hr).
  { exists n, r. auto. }
  remember (length (pending_plaintext_ p)) as m eqn:Hm. revert p Hm.
  induction m as [|m IH]; intros p Hm.
  - exists 1%nat, (p, true). intros [|f] i Hf _; [lia|]. simpl. by destruct (pending_plaintext_ p).
  - destruct (pending_plaintext_ p) as [|c rest] eqn:Ep; [done|]. injection Hm as Hm.
    destruct (backpressure p) eqn:Eb.
    { exists 1%nat, (p, true). intros [|f] i Hf _; [lia|]. simpl. by rewrite Ep, Eb. }
    set (q := set_pending (pending_plaintext_bytes_ p - zlen c) rest p).
    destruct (Encrypt_converges c q) as (n&[p1 ok]&Hn). specialize (Hn n ltac:(lia)) as Hn0.
    apply Encrypt_pending in Hn0. simpl in Hn0. destruct ok.
    + destruct (IH p1) as (n'&r&Hr); [by rewrite Hn0|].
      exists (Datatypes.S (Nat.max n n')), r. intros [|f] i Hf Hi; [lia|]. simpl. rewrite Ep, Eb.
      fold q. rewrite Hn by lia. simpl. apply Hr; lia.
    + exists (Datatypes.S n), (p1, false). intros [|f] i Hf Hi; [lia|]. simpl. rewrite Ep, Eb.
      fold q. by rewrite Hn by lia.
Qed.

Lemma DriveHandshake_converges p : converges (λ f, DriveHandshake f p).
Proof.
  unfold DriveHandshake. destruct (ssl_ p) as [s|]; [|apply converges_ret].
  destruct (SSL_do_handshake s) as [s1 []]; [|apply Flush_converges|apply converges_ret].
  destruct (NotifyReady _) as [p1 []]; [apply Flush_converges|apply converges_ret].
Qed.

Lemma DrainPlaintext_converges p : converges (λ f, DrainPlaintext f p).
Proof.
  remember (from_option unread 0%nat (ssl_ p)) as n eqn:Hn. revert p Hn.
  induction n as [n IH] using lt_wf_ind. intros p Hn.
  eapply converges_S; [intros f; simpl; reflexivity|]. cbv beta. destruct (ssl_ p) as [s|]; [|apply converges_ret].
  destruct (SSL_read_ex s kPlain) as [s1 r] eqn:E. destruct (read_law _ _ _ _ E ltac:(done)) as (_&_&_&_&L).
  destruct r as [d| | |]; try apply converges_ret. case_match; [apply converges_ret|].
  eapply IH; [|done]. simpl in *. lia.
Qed.

Lemma DriveTlsMachine_converges p : converges (λ f, DriveTlsMachine f p).
Proof.
  unfold DriveTlsMachine. case_match; [apply converges_ret|].
  apply (converges_bind (λ f, if negb (handshake_complete_ p) then _ else _)).
  - destruct (negb _); [|apply converges_ret].
    apply (converges_bind (λ f, DriveHandshake f p)); [apply DriveHandshake_converges|].
    intros [p1 []]; cbn [negb]; [|apply converges_ret].
    destruct (handshake_complete_ p1); [apply FlushPending_converges|apply converges_ret].
  - intros [p1 []]; cbn [negb]; [|apply converges_ret].
    apply (converges_bind (λ f, if handshake_complete_ p1 then _ else _)).
    + destruct (handshake_complete_ p1); [apply DrainPlaintext_converges|apply converges_ret].
    + intros [p2 []]; cbn [negb]; [apply Flush_converges|apply converges_ret].
Qed.

Lemma WriteCiphertext_total fuel data s :
  (length data ≤ fuel)%nat → is_Some (WriteCiphertextToBio fuel data s).
Proof.
  revert data s. induction fuel as [|fuel IH]; intros data s Hl; simpl; case_bool_decide as Hd; eauto.
  { destruct data; [done|simpl in Hl; lia]. }
  destruct (BIO_write s data) as [s1 n] eqn:E. destruct (bio_write_law _ _ _ _ E Hd) as (L&_).
  apply IH. unfold zdrop. rewrite length_drop. unfold zlen in L. lia.
Qed.

(** Every entry point of a TLS session returns: its loops over the BIOs, the
    payload, the pending chunks and the decrypted records end, in whatever pieces
    OpenSSL takes and gives the data, and with enough fuel the result does not
    depend on it. *)
Theorem tls_calls_return p data :
  converges (λ f, OnConnected f p) ∧ converges (λ f, OnRecv f data p) ∧
  converges (λ f, OnSocketDrained f p) ∧ converges (λ f, SendProxyPayload f data p).
Proof.
  assert (∀ g : nat → option (tls_peer * bool), converges g → converges (λ f, disconnect_unless (g f))) as Hd.
  { intros g Hg. unfold disconnect_unless. apply converges_bind; [done|]. intros [q ok]. apply converges_ret. }
  split_and!.
  - unfold OnConnected. destruct (ssl_ p); [|apply converges_ret].
    apply Hd, DriveTlsMachine_converges.
  - unfold OnRecv. destruct (ssl_ p) as [s|]; [|apply converges_ret].
    destruct (WriteCiphertext_total (length data) data s ltac:(done)) as [s1 ->]. simpl.
    apply Hd, DriveTlsMachine_converges.
  - apply Hd, FlushPending_converges.
  - unfold SendProxyPayload. repeat (case_match; [apply converges_ret|]). apply Encrypt_converges.
Qed.
End Tls.

(** ** An instance *)

(** A connection without encryption that takes three bytes at a time, and asks to be
    called again for what starts with an exclamation mark. *)
Record toy := mkToy {
  t_taken : bytes; t_fed : bytes; t_out : bytes; t_to_send : bytes; t_unread : bytes; t_wanted : nat;
}.

Definition toy_write (s : toy) (d : bytes) : toy * write_result :=
  if bool_decide (head d = Some "!"%char) then
    (mkToy (t_taken s) (t_fed s) (t_out s) (t_to_send s) (t_unread s) (S (t_wanted s)), WriteWant)
  else
  let x := ztake 3 d in
  (mkToy (t_taken s ++ x) (t_fed s) (t_out s ++ x) (t_to_send s ++ x) (t_unread s) (t_wanted s),
   Written (Z.min 3 (zlen d))).
Definition toy_read (s : toy) (n : Z) : toy * read_result :=
  if bool_decide (t_unread s = []) then (s, ReadWant) else
  (mkToy (t_taken s) (t_fed s) (t_out s) (t_to_send s) (zdrop n (t_unread s)) (t_wanted s),
   ReadData (ztake n (t_unread s))).
Definition toy_handshake (s : toy) : toy * handshake_result :=
  (mkToy (t_taken s) (t_fed s) (t_out s ++ txt "H") (t_to_send s ++ txt "H") (t_unread s) (t_wanted s),
   HandshakeDone).
Definition toy_bio_write (s : toy) (d : bytes) : toy * Z :=
  (mkToy (t_taken s) (t_fed s ++ d) (t_out s) (t_to_send s) (t_unread s ++ d) (t_wanted s), zlen d).
Definition toy_bio_read (s : toy) (n : Z) : toy * bytes :=
  (mkToy (t_taken s) (t_fed s) (t_out s) (zdrop n (t_to_send s)) (t_unread s) (t_wanted s),
   ztake n (t_to_send s)).

Lemma ztake_nonempty {A} n (l : list A) : 0 < n → l ≠ [] → 0 < zlen (ztake n l) ≤ n.
Proof.
  intros Hn Hl. unfold zlen, ztake. rewrite length_take. destruct l; [done|]. simpl. lia.
Qed.

#[export, refine] Instance toy_openssl : OpenSSL toy := {
  SSL_write_ex := toy_write; SSL_read_ex := toy_read; SSL_do_handshake := toy_handshake;
  BIO_write := toy_bio_write; BIO_read := toy_bio_read; taken := t_taken; fed := t_fed;
  out := t_out; to_send := t_to_send; wanted := t_wanted; unread s := length (t_unread s);
}.
Proof.
  - intros s d s' r E Hd. unfold toy_write in E. case_bool_decide; injection E as <- <-; simpl.
    { split_and!; try done. exists []. by rewrite !app_nil_r. }
    split; [done|]. split; [eauto|].
    pose proof (ztake_nonempty 3 d ltac:(lia) Hd). assert (0 < zlen d).
    { destruct d; [done|]. rewrite zlen_cons. pose proof (zlen_nonneg d). lia. }
    split_and!; [lia|lia| |done]. destruct (Z.min_spec 3 (zlen d)) as [[? ->]|[? ->]]; [done|].
    by rewrite !ztake_all by lia.
  - intros s n s' r. unfold toy_read. case_bool_decide as Hu; intros [= <- <-] Hn; simpl.
    + split_and!; try done. exists []. by rewrite !app_nil_r.
    + split_and!; try done; [exists []; by rewrite !app_nil_r|by apply ztake_nonempty..|].
      unfold zdrop. rewrite length_drop. destruct (t_unread s); [done|]. simpl. lia.
  - intros s s' r [= <- <-]. simpl. by eauto 10.
  - intros s d s' n [= <- <-] Hd. simpl. rewrite ztake_all by done. split_and!; try done.
    destruct d; [done|]. rewrite zlen_cons. pose proof (zlen_nonneg d). lia.
  - intros s n s' d [= <- <-] Hn. simpl. rewrite ztake_zdrop. split_and!; try done.
    + destruct (decide (t_to_send s = [])) as [->|Hne];
        [unfold ztake, zlen; rewrite take_nil; simpl; lia|].
      by apply ztake_nonempty.
    + intros E. destruct (decide (t_to_send s = [])) as [|Hne]; [done|].
      pose proof (ztake_nonempty n _ Hn Hne) as Hz. rewrite E in Hz. by destruct Hz.
Defined.

Definition toy_new : toy := mkToy [] [] [] [] [] 0.
Definition toy_env : tls_env := mkTlsEnv 100 (λ n, Some (n =? 0)%nat) (λ _, false) None.
Definition toy_connected : tls_peer :=
  default (Tls_new (Some toy_new)) (OnConnected toy_env 50 (Tls_new (Some toy_new))).
Definition toy_sent : tls_peer :=
  from_option fst toy_connected (SendProxyPayload toy_env 50 (txt "hello") toy_connected).
Definition end_backpressure (p : tls_peer (S:=toy)) : tls_peer :=
  mkTls (ssl_ p) (handshake_complete_ p) (ready_notified_ p) (pending_plaintext_bytes_ p)
    (pending_plaintext_ p) (disconnecting p) false (queued p) (forwarded p) (asked p).
Definition toy_drained : tls_peer :=
  default toy_sent (OnSocketDrained toy_env 50 (end_backpressure toy_sent)).

Definition toy_more : tls_peer :=
  from_option fst toy_drained (SendProxyPayload toy_env 50 (txt "!bye") toy_drained).

Lemma toy_run :
  steps (tls_step toy_env) (Tls_new (Some toy_new), []) (toy_drained, txt "hello").
Proof.
  eapply steps_cons; [apply (t_connected toy_env 50 _ toy_connected); by vm_compute|].
  eapply steps_cons.
  { apply (t_send toy_env 50 (txt "hello") toy_connected toy_sent true); [|by vm_compute].
    right. right. reflexivity. }
  eapply steps_cons; [exact (t_backpressure toy_env false toy_sent ([] ++ txt "hello"))|].
  eapply steps_cons; [|apply steps_refl].
  apply (t_drained toy_env 50 (end_backpressure toy_sent) toy_drained); vm_compute; reflexivity.
Qed.

(** A payload that is sent after a wait, and one that is dropped. *)
Lemma tls_streams_witness :
  (∃ s, ssl_ toy_drained = Some s ∧ concat (queued toy_drained) = out s ∧
    taken s ++ concat (pending_plaintext_ toy_drained) = txt "hello") ∧
  (∃ s, ssl_ toy_more = Some s ∧ wanted s = 1%nat ∧
    taken s ++ concat (pending_plaintext_ toy_more) `sublist_of` txt "hello!bye").
Proof.
  split.
  - destruct (tls_streams toy_env toy_new toy_drained (txt "hello")) as (s&Hs&Hq&_&_&Hw&_);
      [by vm_compute|reflexivity..|exact toy_run|by vm_compute|].
    exists s. split_and!; [done|done|]. apply Hw. vm_compute in Hs. by injection Hs as <-.
  - destruct (tls_streams toy_env toy_new toy_more (txt "hello!bye")) as (s&Hs&_&_&Hh&_);
      [by vm_compute|reflexivity..| |by vm_compute|].
    + eapply steps_trans; [exact toy_run|]. eapply steps_cons; [|apply steps_refl].
      apply (t_send toy_env 50 (txt "!bye") toy_drained toy_more true (txt "hello")); [|by vm_compute].
      left. by vm_compute.
    + exists s. split_and!; [done| |done]. vm_compute in Hs. by injection Hs as <-.
Defined.

(** [SendProxyPayload] does not look at the pending chunks: once backpressure has
    ended, and before [OnSocketDrained] has flushed them, a payload overtakes them
    and the client reads the two in the wrong order. *)
Example payload_overtakes :
  let p := end_backpressure toy_sent in
  pending_plaintext_ p = [txt "hello"] ∧
  (λ '(p, ok), (ok, from_option taken [] (ssl_ p))) <$>
    SendProxyPayload toy_env 50 (txt "bye") p = Some (true, txt "bye") ∧
  ('(p, _) ← SendProxyPayload toy_env 50 (txt "bye") p;
   p ← OnSocketDrained toy_env 50 p; Some (from_option taken [] (ssl_ p))) = Some (txt "byehello").
Proof. vm_compute. done. Qed.

(** When OpenSSL wants more I/O before it takes a payload, the rest of the payload
    is dropped and the call still reports success. *)
Lemma want_drops_payload {S} `{OpenSSL S} e fuel data p p1 s s1 :
  ssl_ p = Some s → data ≠ [] → SSL_write_ex s data = (s1, WriteWant) →
  FlushCiphertextOutput e fuel (set_ssl s1 p) = Some (p1, true) →
  EncryptAndQueuePlaintext e (Datatypes.S fuel) data p = Some (p1, true) ∧
  pending_plaintext_ (set_ssl s1 p) = pending_plaintext_ p ∧ taken s1 = taken s.
Proof.
  intros Hs Hd Hw Hf. destruct (write_law _ _ _ _ Hw Hd) as (_&_&Ht&_).
  unfold EncryptAndQueuePlaintext. rewrite bool_decide_false by done. simpl. rewrite Hs.
  rewrite bool_decide_false by done. rewrite Hw. done.
Qed.
