(* ===== verification/Acme.v ===== *)
(** * The ACME challenge responder

    [src/modules/proxy/AcmeChallengeSession.cpp]: a session that reads one HTTP
    request, answers it with a challenge file below its web root and closes.

    The receive buffer is any [ReassemblyBuffer] (RecvBuffer.v).  The file system
    and whether a response buffer can be allocated are arguments; the paths opened
    are recorded. *)

From S2P Require Import Prelude Types Text RecvBuffer.

#[local] Open Scope Z_scope.
#[local] Set Warnings "-clear-no-such-hyp".

Definition slash : byte := byte_of 47.
Definition space : byte := byte_of 32.
Definition CRLF : bytes := [byte_of 13; byte_of 10].
Definition header_end : bytes := CRLF ++ CRLF.

(** [std::filesystem::path::operator/] on POSIX. *)
Definition join (a b : bytes) : bytes :=
  if starts_with [slash] b then b else
  if bool_decide (a = []) then b else
  if ends_with [slash] a then a ++ b else a ++ slash :: b.

(** Source: src/modules/proxy/AcmeChallengeSession.cpp:74-89, AcmeChallengeSession::IsValidToken. *)
Definition token_char (ch : byte) : bool :=
  let v := byte_val ch in
  ((97 <=? v) && (v <=? 122)) || ((65 <=? v) && (v <=? 90)) || ((48 <=? v) && (v <=? 57)) ||
  (v =? 45) || (v =? 95) || (v =? 46).
Definition IsValidToken (token : bytes) : bool :=
  negb (bool_decide (token = [])) && forallb token_char token.

(** Source: src/modules/proxy/AcmeChallengeSession.cpp:91-103, AcmeChallengeSession::BuildHttpResponse. *)
Definition BuildHttpResponse (status content_type body : bytes) : bytes :=
  txt "HTTP/1.1 " ++ status ++ CRLF ++
  txt "Content-Type: " ++ content_type ++ CRLF ++
  txt "Content-Length: " ++ to_string (zlen body) ++ CRLF ++
  txt "Connection: close" ++ CRLF ++
  txt "Cache-Control: no-cache" ++ CRLF ++ CRLF ++ body.

Section Acme.
Context (fs : bytes → option bytes) (challenge_webroot_ : bytes).

(** Source: src/modules/proxy/AcmeChallengeSession.cpp:51-72, AcmeChallengeSession::ReadChallengeBody.
    The body and the paths opened. *)
Definition ReadChallengeBody (token : bytes) : option bytes * list bytes :=
  let nested := join (join (join challenge_webroot_ (txt ".well-known")) (txt "acme-challenge")) token in
  match fs nested with
  | Some body => (Some body, [nested])
  | None => let flat := join challenge_webroot_ token in (fs flat, [nested; flat])
  end.

(** Source: src/modules/proxy/AcmeChallengeSession.cpp:105-147, AcmeChallengeSession::HandleRequest.
    The status and body of the response, and the paths opened. *)
Definition HandleRequest (headers : bytes) : (bytes * bytes) * list bytes :=
  let request_line :=
    match split_sub CRLF headers with Some (line, _) => line | None => headers end in
  match split_at space request_line with
  | None => ((txt "400 Bad Request", txt "Bad Request"), [])
  | Some (method, rest) =>
    match split_at space rest with
    | None => ((txt "400 Bad Request", txt "Bad Request"), [])
    | Some (target, _) =>
      if negb (bool_decide (method = txt "GET"))
      then ((txt "405 Method Not Allowed", txt "Method Not Allowed"), []) else
      match strip_prefix (txt "/.well-known/acme-challenge/") target with
      | None => ((txt "404 Not Found", txt "Not Found"), [])
      | Some token =>
        if negb (IsValidToken token) then ((txt "400 Bad Request", txt "Bad Request"), []) else
        match ReadChallengeBody token with
        | (None, opened) => ((txt "404 Not Found", txt "Not Found"), opened)
        | (Some body, opened) => ((txt "200 OK", body), opened)
        end
      end
    end
  end.

Context {B : Type} `{ReassemblyBuffer B} (alloc : nat → bool).

Inductive acme_effect := Respond (response : bytes) | Drop.

(** Source: src/modules/proxy/AcmeChallengeSession.cpp:162-164, AcmeChallengeSession.
    With the responses sent; [Drop] is a disconnect for want of a buffer. *)
Record acme_session := mkAcme {
  recv_buffer_ : B;
  request_complete_ : bool;
  effects : list acme_effect;
}.

(** Source: src/modules/proxy/AcmeChallengeSession.cpp:149-160, AcmeChallengeSession::SendSimpleResponse. *)
Definition SendSimpleResponse (status body : bytes) (s : acme_session) : acme_session :=
  mkAcme (recv_buffer_ s) (request_complete_ s)
    (effects s ++ [if alloc (length (effects s))
                   then Respond (BuildHttpResponse status (txt "text/plain") body) else Drop]).

(** Source: src/modules/proxy/AcmeChallengeSession.cpp:26-48, AcmeChallengeSession::OnRecv. *)
Definition OnRecv (data : bytes) (s : acme_session) : option acme_session :=
  if request_complete_ s then Some s else
  '(b, append) ← rb_append (recv_buffer_ s) data;
  let s := mkAcme b (request_complete_ s) (effects s) in
  match append with
  | Unexpected _ =>
    Some (SendSimpleResponse (txt "413 Payload Too Large") (txt "Request Too Large") s)
  | Value _ =>
    text ← rb_read (recv_buffer_ s);
    match split_sub header_end text with
    | None => Some s
    | Some (headers, _) =>
      let s := mkAcme (recv_buffer_ s) true (effects s) in
      let '((status, body), _) := HandleRequest headers in
      Some (SendSimpleResponse status body s)
    end
  end.

Fixpoint feed (ds : list bytes) (s : acme_session) : option acme_session :=
  match ds with [] => Some s | d :: ds => s ← OnRecv d s; feed ds s end.

(** What a request should be answered with. *)
Definition answer (headers : bytes) : acme_effect :=
  let '((status, body), _) := HandleRequest headers in
  if alloc 0 then Respond (BuildHttpResponse status (txt "text/plain") body) else Drop.

Lemma feed_complete ds s : request_complete_ s = true → feed ds s = Some s.
Proof.
  intros Hc. induction ds as [|d ds IH]; [done|]. simpl. unfold OnRecv at 1. by rewrite Hc.
Qed.

Lemma feed_pending ds s :
  request_complete_ s = false → effects s = [] → rb_wf (recv_buffer_ s) →
  split_sub header_end (rb_contents (recv_buffer_ s)) = None →
  zlen (rb_contents (recv_buffer_ s)) + zlen (concat ds) ≤ rb_capacity (recv_buffer_ s) →
  ∃ s', feed ds s = Some s' ∧
    effects s' = match split_sub header_end (rb_contents (recv_buffer_ s) ++ concat ds) with
                 | Some (headers, _) => [answer headers]
                 | None => []
                 end.
Proof.
  revert s. induction ds as [|d ds IH]; intros s Hc He Hw Hno Hl; simpl.
  { exists s. by rewrite app_nil_r, Hno. }
  simpl in Hl. rewrite zlen_app in Hl. pose proof (zlen_nonneg (concat ds)).
  unfold OnRecv. rewrite Hc.
  destruct (rb_append_fits (recv_buffer_ s) d Hw ltac:(lia)) as (b&->&Hw'&Hcap&Hcont).
  cbn [mbind option_bind recv_buffer_ request_complete_]. rewrite (rb_read_spec b Hw'), Hcont.
  cbn [mbind option_bind].
  destruct (split_sub header_end (rb_contents (recv_buffer_ s) ++ d)) as [[headers r]|] eqn:E.
  - unfold answer. destruct (HandleRequest headers) as [[status body] opened] eqn:Er.
    cbn [mbind option_bind]. rewrite feed_complete by done. eexists. split; [done|]. simpl. rewrite He.
    pose proof (split_sub_Some _ _ _ _ E) as Es.
    rewrite app_assoc, Es, <-!app_assoc.
    assert (split_sub header_end (headers ++ header_end ++ r ++ concat ds) =
      Some (headers, r ++ concat ds)) as Hx by (by eapply split_sub_ext).
    by rewrite Hx, Er.
  - destruct (IH (mkAcme b false (effects s)) eq_refl He Hw') as (s'&Hf&Hs'); cbn [recv_buffer_].
    + rewrite Hcont. exact E.
    + rewrite Hcont, Hcap, zlen_app. lia.
    + cbn [recv_buffer_] in Hs'. exists s'. split; [done|]. by rewrite Hs', Hcont, <-app_assoc.
Qed.

(** However a request is cut into pieces, the responder answers once, as if it
    had come in one: nothing before the end of the headers, and then the response
    to the request line, whatever follows. *)
Theorem acme_one_answer (b : B) ds :
  rb_wf b → rb_contents b = [] → zlen (concat ds) ≤ rb_capacity b →
  ∃ s, feed ds (mkAcme b false []) = Some s ∧
    effects s = match split_sub header_end (concat ds) with
                | Some (headers, _) => [answer headers]
                | None => []
                end.
Proof.
  intros Hw Hc Hl. destruct (feed_pending ds (mkAcme b false [])) as (s&Hf&Hs); simpl; try done.
  - by rewrite Hc.
  - rewrite Hc. simpl. rewrite zlen_nil. lia.
  - exists s. split; [done|]. simpl in Hs. by rewrite Hs, Hc.
Qed.

(** A request that does not fit is answered by 413 each time data arrives. *)
Lemma too_large_repeats s d :
  request_complete_ s = false → rb_wf (recv_buffer_ s) → zlen d < 2 ^ 32 →
  rb_capacity (recv_buffer_ s) < zlen (rb_contents (recv_buffer_ s)) + zlen d →
  ∃ s', OnRecv d s = Some s' ∧ request_complete_ s' = false ∧
    length (effects s') = Datatypes.S (length (effects s)).
Proof.
  intros Hc Hw Hd Hl. unfold OnRecv. rewrite Hc.
  destruct (rb_append_full (recv_buffer_ s) d Hw Hd Hl) as (b&->&_). simpl.
  eexists. split; [done|]. simpl. split; [done|]. rewrite length_app. simpl. lia.
Qed.
End Acme.

(** The responder stays below its web root: the files it opens for a request
    are a name without a slash in the challenge directory or in the root itself,
    and it opens none unless the request is a GET below the challenge prefix. *)
Theorem acme_confined fs webroot headers :
  Forall (λ p, ∃ token, token ≠ [] ∧ (slash ∉ token) ∧
      (p = join (join (join webroot (txt ".well-known")) (txt "acme-challenge")) token ∨
       p = join webroot token))
    (HandleRequest fs webroot headers).2.
Proof.
  assert (∀ token, IsValidToken token = true → token ≠ [] ∧ (slash ∉ token)) as Hv.
  { unfold IsValidToken. intros token [Hn Hf]%andb_true_iff. split; [by propify|].
    intros Hin%list_elem_of_In. rewrite forallb_forall in Hf. by apply Hf in Hin. }
  unfold HandleRequest. repeat (case_match; simpl; try done);
    destruct (IsValidToken _) eqn:Ev; try done; apply Hv in Ev as [? ?];
    unfold ReadChallengeBody in *; simplify_eq/=; repeat case_match; simplify_eq/=;
    repeat constructor; eauto 10.
Qed.

Definition sample_fs (p : bytes) : option bytes :=
  if bool_decide (p = txt "/w/.well-known/acme-challenge/tok") then Some (txt "key") else None.
Definition sample_chunks : list bytes :=
  [txt "GET /.well-known/acme"; txt "-challenge/tok HTTP/1.1" ++ CRLF ++ [byte_of 13];
   [byte_of 10] ++ txt "rest"].

Lemma acme_one_answer_witness :
  ∃ s, feed sample_fs (txt "/w") (λ _, true) sample_chunks
         (mkAcme (RecvBuffer_new 100) false []) = Some s ∧
    effects s = [Respond (BuildHttpResponse (txt "200 OK") (txt "text/plain") (txt "key"))].
Proof.
  destruct (acme_one_answer sample_fs (txt "/w") (λ _, true) (RecvBuffer_new 100) sample_chunks)
    as (s&Hf&Hs); [apply recv_new_wf; lia|reflexivity|by vm_compute|].
  exists s. split; [exact Hf|]. rewrite Hs. vm_compute. reflexivity.
Defined.

(** The names "." and ".." are valid tokens: the path then is a directory. *)
Example dot_tokens_valid :
  IsValidToken (txt "..") = true ∧
  (HandleRequest sample_fs (txt "/w") (txt "GET /.well-known/acme-challenge/.. HTTP/1.1")).2 =
    [txt "/w/.well-known/acme-challenge/.."; txt "/w/.."].
Proof. vm_compute. done. Qed.
