(* ===== verification/Dungeon.v ===== *)
(** * The dungeon generator

    [app/examples/game/dungeon_full_server/src/game/dungeon_generator.cpp]: a cave grown by
    a cellular automaton, its regions, the passages between its rooms, the spawn position,
    props, lights and portals.

    The grid is a map from coordinates to tiles, [0] floor and [1] wall.  The positions the
    code keeps in [float] are small whole numbers, which a [float] holds exactly, so they are
    integers here.  The random engine and its distributions are parameters; so is
    [std::sort], which leaves the order of equal elements open. *)

From S2P Require Import Prelude Text.

#[local] Open Scope Z_scope.

Abbreviation Coord := (Z * Z)%type.

(** Source: app/examples/game/dungeon_full_server/src/game/dungeon_generator.h:12-19, DungeonGenerator. *)
Definition GRID_WIDTH : Z := 120.
Definition GRID_HEIGHT : Z := 70.
Definition RANDOM_FILL_PERCENT : Z := 52.
Definition SMOOTH_ITERATIONS : nat := 5.
Definition WALL_THRESHOLD_SIZE : Z := 15.
Definition ROOM_THRESHOLD_SIZE : Z := 20.
Definition PASSAGE_RADIUS : Z := 1.

(** Source: app/examples/game/dungeon_full_server/src/game/dungeon_generator.h:48-55, DungeonGenerator::Room. *)
Record Room := mkRoom {
  tiles : list Coord;
  edgeTiles : list Coord;
  connectedRoomIndices : list nat;
  roomSize : Z;
  isAccessibleFromMainRoom : bool;
  isMainRoom : bool;
}.

(** Source: app/examples/game/dungeon_full_server/src/game/dungeon_generator.h:57-61, DungeonGenerator::PropData.
    [rotY] is a number of quarter turns, or an angle drawn from all of them. *)
Inductive rotation := Quarters (n : Z) | Angle (draw : Z).
Record PropData := mkProp { prop_x : Z; prop_z : Z; prop_type : Z; rotY : rotation }.

(** Source: app/examples/game/dungeon_full_server/src/game/dungeon_generator.h:63-69, DungeonGenerator::LightData.
    The light of a room has drawn colours and a range from the size of the room; the other
    lights are all alike. *)
Inductive glow := RoomGlow (red green blue : Z) (roomSize : Z) | PassageGlow.
Record LightData := mkLight { light_x : Z; light_z : Z; light_glow : glow; softShadow : bool }.

(** Source: app/examples/game/dungeon_full_server/src/game/dungeon_generator.h:25-29, DungeonGenerator::PortalData. *)
Record PortalData := mkPortal { portal_x : Z; portal_z : Z; target_zone : Z; target_name : bytes }.

Abbreviation grid := (gmap Coord Z).

(** [grid_] starts filled with zeros. *)
Definition tile (g : grid) (c : Coord) : Z := default 0 (g !! c).

(** Source: app/examples/game/dungeon_full_server/src/game/dungeon_generator.cpp:125-127, DungeonGenerator::IsInMapRange. *)
Definition IsInMapRange (c : Coord) : bool :=
  (0 <=? c.1) && (c.1 <? GRID_WIDTH) && (0 <=? c.2) && (c.2 <? GRID_HEIGHT).

(** Source: app/examples/game/dungeon_full_server/src/game/dungeon_generator.h:32-35, DungeonGenerator::GetTile. *)
Definition GetTile (g : grid) (c : Coord) : Z := if IsInMapRange c then tile g c else 1.

(** Two nested loops over ranges, the first bounds included, the last not. *)
Definition loop2 (x0 x1 y0 y1 : Z) : list Coord :=
  seqZ x0 (x1 - x0) ≫= λ x, (λ y, (x, y)) <$> seqZ y0 (y1 - y0).

Definition all_cells : list Coord := loop2 0 GRID_WIDTH 0 GRID_HEIGHT.

(** The cells at most [r] columns and rows away, in the order of the loops. *)
Definition around (r : Z) (c : Coord) : list Coord :=
  loop2 (c.1 - r) (c.1 + r + 1) (c.2 - r) (c.2 + r + 1).

(** ** Random numbers *)

(** The generator behind its distributions.  Each gives a number for any bounds; where the
    code builds one whose lower bound is above the upper one, which the standard does not
    define (the blue of the lights, from depth 13), the model gives some number too, and
    nothing is shown of the colours of lights. *)
Class Rng := {
  rng : Type;
  uniform_int : Z → Z → rng → Z * rng;    (* [std::uniform_int_distribution] *)
  uniform_angle : rng → Z * rng;          (* an angle *)
  chance : rng → bool * rng;              (* a number below the chance of a corner prop *)
  uniform_colour : Z → Z → rng → Z * rng; (* a channel of a light at a depth *)
}.

(** A draw lies between the bounds. *)
Class RngOk `{Rng} : Prop :=
  uniform_int_range lo hi r : lo ≤ hi → lo ≤ (uniform_int lo hi r).1 ≤ hi.

(** ** Cellular automaton *)

Section Generator.
Context `{Rng}.

Definition border (c : Coord) : bool :=
  (c.1 =? 0) || (c.1 =? GRID_WIDTH - 1) || (c.2 =? 0) || (c.2 =? GRID_HEIGHT - 1).

(** Source: app/examples/game/dungeon_full_server/src/game/dungeon_generator.cpp:80-92, DungeonGenerator::RandomFillMap. *)
Definition RandomFillMap (depth : Z) (g : grid) (r : rng) : grid * rng :=
  let fillPct := RANDOM_FILL_PERCENT + Z.min (depth * 2) 10 in
  foldl (λ '(g, r) c,
    if border c then (<[c := 1]> g, r)
    else let '(d, r) := uniform_int 0 99 r in (<[c := if d <? fillPct then 1 else 0]> g, r))
    (g, r) all_cells.

(** Source: app/examples/game/dungeon_full_server/src/game/dungeon_generator.cpp:110-123, DungeonGenerator::GetSurroundingWallCount. *)
Definition GetSurroundingWallCount (g : grid) (c : Coord) : Z :=
  foldl (λ count n,
    if IsInMapRange n then if bool_decide (n ≠ c) then count + tile g n else count
    else count + 1) 0 (around 1 c).

(** Source: app/examples/game/dungeon_full_server/src/game/dungeon_generator.cpp:94-108, DungeonGenerator::SmoothMap. *)
Definition SmoothMap (g : grid) : grid :=
  foldl (λ newMap c,
    let neighbours := GetSurroundingWallCount g c in
    <[c := if neighbours >? 4 then 1 else if neighbours <? 4 then 0 else tile g c]> newMap) ∅ all_cells.

(** ** Regions *)

(** Source: app/examples/game/dungeon_full_server/src/game/dungeon_generator.cpp:353-362, DungeonGenerator::GetRegionTiles.
    The cells beside [t] that are put in the queue. *)
Definition flood (g : grid) (tileType : Z) (t : Coord) (st : list Coord * gset Coord) : list Coord * gset Coord :=
  foldl (λ '(q, mapFlags) n,
    if IsInMapRange n && (bool_decide (n.2 = t.2) || bool_decide (n.1 = t.1)) &&
       bool_decide (n ∉ mapFlags) && (tile g n =? tileType)
    then (q ++ [n], {[n]} ∪ mapFlags) else (q, mapFlags)) st (around 1 t).

(** Source: app/examples/game/dungeon_full_server/src/game/dungeon_generator.cpp:348-363, DungeonGenerator::GetRegionTiles.
    A cell is put in the queue once, so the number of cells bounds the rounds. *)
Fixpoint region_loop (fuel : nat) (g : grid) (tileType : Z) (q : list Coord) (mapFlags : gset Coord) : list Coord :=
  match fuel with
  | O => []
  | S fuel =>
    match q with
    | [] => []
    | t :: q => let '(q, mapFlags) := flood g tileType t (q, mapFlags) in
                t :: region_loop fuel g tileType q mapFlags
    end
  end.

(** Source: app/examples/game/dungeon_full_server/src/game/dungeon_generator.cpp:339-365, DungeonGenerator::GetRegionTiles. *)
Definition GetRegionTiles (g : grid) (c : Coord) : list Coord :=
  region_loop (S (length all_cells)) g (tile g c) [c] {[c]}.

(** Source: app/examples/game/dungeon_full_server/src/game/dungeon_generator.cpp:328-333, DungeonGenerator::GetRegions. *)
Definition add_region (g : grid) (tileType : Z) (st : list (list Coord) * gset Coord) (c : Coord) :
    list (list Coord) * gset Coord :=
  let '(regions, mapFlags) := st in
  if bool_decide (c ∉ mapFlags) && (tile g c =? tileType) then
    let region := GetRegionTiles g c in (regions ++ [region], list_to_set region ∪ mapFlags)
  else (regions, mapFlags).

(** Source: app/examples/game/dungeon_full_server/src/game/dungeon_generator.cpp:322-337, DungeonGenerator::GetRegions. *)
Definition GetRegions (g : grid) (tileType : Z) : list (list Coord) :=
  (foldl (add_region g tileType) ([], ∅) all_cells).1.

Definition fill (v : Z) (region : list Coord) (g : grid) : grid := foldl (λ g c, <[c := v]> g) g region.

(** Source: app/examples/game/dungeon_full_server/src/game/dungeon_generator.cpp:132-138, DungeonGenerator::ProcessMap. *)
Definition drop_small_walls (g : grid) : grid :=
  foldl (λ g region, if zlen region <? WALL_THRESHOLD_SIZE then fill 0 region g else g) g (GetRegions g 1).

(** Source: app/examples/game/dungeon_full_server/src/game/dungeon_generator.cpp:148-163, DungeonGenerator::ProcessMap. *)
Definition new_room (g : grid) (region : list Coord) : Room :=
  mkRoom region
    (region ≫= λ t, around 1 t ≫= λ n,
       if (bool_decide (n.1 = t.1) || bool_decide (n.2 = t.2)) && IsInMapRange n && (tile g n =? 1) then [t] else [])
    [] (zlen region) false false.

(** Source: app/examples/game/dungeon_full_server/src/game/dungeon_generator.cpp:143-166, DungeonGenerator::ProcessMap. *)
Definition add_room (st : grid * list Room) (region : list Coord) : grid * list Room :=
  let '(g, rooms) := st in
  if zlen region <? ROOM_THRESHOLD_SIZE then (fill 1 region g, rooms)
  else (g, rooms ++ [new_room g region]).

(** Source: app/examples/game/dungeon_full_server/src/game/dungeon_generator.cpp:140-166, DungeonGenerator::ProcessMap. *)
Definition find_rooms (g : grid) : grid * list Room := foldl add_room (g, []) (GetRegions g 0).

(** ** Passages *)

(** Source: app/examples/game/dungeon_full_server/src/game/dungeon_generator.cpp:275-286, DungeonGenerator::DrawCircle. *)
Definition DrawCircle (r : Z) (g : grid) (c : Coord) : grid :=
  foldl (λ g d,
    if d.1 * d.1 + d.2 * d.2 <=? r * r then
      let draw := (c.1 + d.1, c.2 + d.2) in
      if IsInMapRange draw then <[draw := 0]> g else g
    else g) g (loop2 (- r) (r + 1) (- r) (r + 1)).

(** Source: app/examples/game/dungeon_full_server/src/game/dungeon_generator.cpp:309-318, DungeonGenerator::GetLine.
    [x], [y] and [gradientAccumulation] before a round. *)
Fixpoint line_loop (n : nat) (inverted : bool) (step gradientStep longest shortest : Z)
    (c : Coord) (gradientAccumulation : Z) : list Coord :=
  match n with
  | O => []
  | S n =>
    let c' := if inverted then (c.1, c.2 + step) else (c.1 + step, c.2) in
    let acc := gradientAccumulation + shortest in
    let '(c', acc) :=
      if longest <=? acc then
        (if inverted then (c'.1 + gradientStep, c'.2) else (c'.1, c'.2 + gradientStep), acc - longest)
      else (c', acc) in
    c :: line_loop n inverted step gradientStep longest shortest c' acc
  end.

(** Source: app/examples/game/dungeon_full_server/src/game/dungeon_generator.cpp:288-320, DungeonGenerator::GetLine. *)
Definition GetLine (from to : Coord) : list Coord :=
  let dx := to.1 - from.1 in
  let dy := to.2 - from.2 in
  let '(inverted, step, gradientStep, longest, shortest) :=
    if Z.abs dx <? Z.abs dy then (true, Z.sgn dy, Z.sgn dx, Z.abs dy, Z.abs dx)
    else (false, Z.sgn dx, Z.sgn dy, Z.abs dx, Z.abs dy) in
  line_loop (Z.to_nat longest) inverted step gradientStep longest shortest from (longest / 2).

Definition set_accessible (r : Room) : Room :=
  mkRoom (tiles r) (edgeTiles r) (connectedRoomIndices r) (roomSize r) true (isMainRoom r).
Definition set_main (r : Room) : Room :=
  mkRoom (tiles r) (edgeTiles r) (connectedRoomIndices r) (roomSize r) true true.
Definition add_connection (i : nat) (r : Room) : Room :=
  mkRoom (tiles r) (edgeTiles r) (connectedRoomIndices r ++ [i]) (roomSize r)
         (isAccessibleFromMainRoom r) (isMainRoom r).

Definition no_room : Room := mkRoom [] [] [] 0 false false.
Definition room_at (rooms : list Room) (i : nat) : Room := default no_room (rooms !! i).

(** Source: app/examples/game/dungeon_full_server/src/game/dungeon_generator.cpp:257-263, DungeonGenerator::CreatePassage.
    A call that goes deeper has marked a room, so the number of rooms bounds the depth. *)
Fixpoint setAccessible (fuel : nat) (idx : nat) (rooms : list Room) : list Room :=
  match fuel with
  | O => rooms
  | S fuel =>
    if isAccessibleFromMainRoom (room_at rooms idx) then rooms
    else foldl (λ rooms ci, setAccessible fuel ci rooms) (alter set_accessible idx rooms)
           (connectedRoomIndices (room_at rooms idx))
  end.

(** Source: app/examples/game/dungeon_full_server/src/game/dungeon_generator.cpp:253-273, DungeonGenerator::CreatePassage. *)
Definition CreatePassage (a b : nat) (tileA tileB : Coord) (g : grid) (rooms : list Room) : grid * list Room :=
  let rooms := alter (add_connection b) a rooms in
  let rooms := alter (add_connection a) b rooms in
  let mark i := setAccessible (S (length rooms)) i rooms in
  let rooms := if isAccessibleFromMainRoom (room_at rooms a) then mark b
               else if isAccessibleFromMainRoom (room_at rooms b) then mark a else rooms in
  (foldl (DrawCircle PASSAGE_RADIUS) g (GetLine tileA tileB), rooms).

(** The best connection so far; [found] is [possibleConnectionFound]. *)
Record best := mkBest { bestDistance : Z; bestTileA : Coord; bestTileB : Coord; bestRoomA : nat; bestRoomB : nat; found : bool }.

Definition no_best : best := mkBest 0 (0, 0) (0, 0) 0 0 false.
Definition forget (b : best) : best :=
  mkBest (bestDistance b) (bestTileA b) (bestTileB b) (bestRoomA b) (bestRoomB b) false.

(** Source: app/examples/game/dungeon_full_server/src/game/dungeon_generator.cpp:222-235, DungeonGenerator::ConnectClosestRooms. *)
Definition consider (idxA idxB : nat) (b : best) (tileA tileB : Coord) : best :=
  let dx := tileA.1 - tileB.1 in
  let dy := tileA.2 - tileB.2 in
  let dist := dx * dx + dy * dy in
  if (dist <? bestDistance b) || negb (found b) then mkBest dist tileA tileB idxA idxB true else b.

(** Source: app/examples/game/dungeon_full_server/src/game/dungeon_generator.cpp:210-238, DungeonGenerator::ConnectClosestRooms.
    A room of [roomListB]. *)
Definition search (rooms : list Room) (idxA : nat) (b : best) (idxB : nat) : best :=
  if bool_decide (idxA = idxB) then b else
  if bool_decide (idxB ∈ connectedRoomIndices (room_at rooms idxA)) then b else
  foldl (λ b tileA, foldl (λ b tileB, consider idxA idxB b tileA tileB) b (edgeTiles (room_at rooms idxB)))
    b (edgeTiles (room_at rooms idxA)).

(** Source: app/examples/game/dungeon_full_server/src/game/dungeon_generator.cpp:201-242, DungeonGenerator::ConnectClosestRooms.
    A room of [roomListA]. *)
Definition connect_one (force : bool) (roomListB : list nat) (st : grid * list Room * best) (idxA : nat) :
    grid * list Room * best :=
  let '(g, rooms, b) := st in
  let b := if force then b else forget b in
  if negb force && bool_decide (connectedRoomIndices (room_at rooms idxA) ≠ []) then (g, rooms, b) else
  let b := foldl (search rooms idxA) b roomListB in
  if found b && negb force
  then (CreatePassage (bestRoomA b) (bestRoomB b) (bestTileA b) (bestTileB b) g rooms, b)
  else (g, rooms, b).

(** Source: app/examples/game/dungeon_full_server/src/game/dungeon_generator.cpp:179-251, DungeonGenerator::ConnectClosestRooms.
    The calls with [true]: each connects a room that was not accessible. *)
Fixpoint connect_forced (fuel : nat) (g : grid) (rooms : list Room) : option (grid * list Room) :=
  match fuel with
  | O => None
  | S fuel =>
    let accessible i := isAccessibleFromMainRoom (room_at rooms i) in
    let roomListB := filter (λ i, accessible i = true) (seq 0 (length rooms)) in
    let roomListA := filter (λ i, accessible i = false) (seq 0 (length rooms)) in
    let '(g, rooms, b) := foldl (connect_one true roomListB) (g, rooms, no_best) roomListA in
    if found b then
      let '(g, rooms) := CreatePassage (bestRoomA b) (bestRoomB b) (bestTileA b) (bestTileB b) g rooms in
      connect_forced fuel g rooms
    else Some (g, rooms)
  end.

(** Source: app/examples/game/dungeon_full_server/src/game/dungeon_generator.cpp:179-251, DungeonGenerator::ConnectClosestRooms.
    The call with [false]; [None]: the calls with [true] do not end. *)
Definition ConnectClosestRooms (g : grid) (rooms : list Room) : option (grid * list Room) :=
  let all := seq 0 (length rooms) in
  let '(g, rooms, _) := foldl (connect_one false all) (g, rooms, no_best) all in
  connect_forced (S (length rooms)) g rooms.

(** Source: app/examples/game/dungeon_full_server/src/game/dungeon_generator.cpp:131-177, DungeonGenerator::ProcessMap.
    [sort] is [std::sort] by falling size. *)
Definition ProcessMap (sort : list Room → list Room) (g : grid) : option (grid * list Room) :=
  let '(g, rooms) := find_rooms (drop_small_walls g) in
  if bool_decide (rooms = []) then Some (g, []) else
  ConnectClosestRooms g (alter set_main 0%nat (sort rooms)).

(** ** Spawn position, props and portals *)

(** Source: app/examples/game/dungeon_full_server/src/game/dungeon_generator.cpp:509-512, DungeonGenerator::GridToWorld.
    [CELL_SIZE] is one. *)
Definition GridToWorld (c : Coord) : Coord := (c.1 - GRID_WIDTH / 2, c.2 - GRID_HEIGHT / 2).

(** The floor cells at most [r] columns and rows away. *)
Definition floor_around (r : Z) (g : grid) (c : Coord) : Z :=
  zlen (filter (λ n, IsInMapRange n = true ∧ tile g n = 0) (around r c)).

(** Source: app/examples/game/dungeon_full_server/src/game/dungeon_generator.cpp:491-503, DungeonGenerator::FindSpawnPosition.
    The best tile and its score. *)
Definition better_spawn (g : grid) (b : Z * Coord) (t : Coord) : Z * Coord :=
  let score := floor_around 2 g t in if score >? b.1 then (score, t) else b.

(** Source: app/examples/game/dungeon_full_server/src/game/dungeon_generator.cpp:480-507, DungeonGenerator::FindSpawnPosition.
    The position in the world; its height is always the same. *)
Definition FindSpawnPosition (g : grid) (rooms : list Room) : Coord :=
  match rooms with
  | [] => (0, 0)
  | mainRoom :: _ =>
    GridToWorld (foldl (better_spawn g) (-1, default (0, 0) (head (tiles mainRoom))) (tiles mainRoom)).2
  end.

(** Source: app/examples/game/dungeon_full_server/src/game/dungeon_generator.cpp:380-385, DungeonGenerator::PlaceProps.
    A tile is drawn again while it is taken, twenty times at most. *)
Fixpoint draw_tile (attempts : nat) (room : Room) (used : gset Coord) (r : rng) : Coord * rng :=
  let '(i, r) := uniform_int 0 (zlen (tiles room) - 1) r in
  let t := default (0, 0) (tiles room !! Z.to_nat i) in
  match attempts with
  | S (S attempts as more) => if bool_decide (t ∈ used) then draw_tile more room used r else (t, r)
  | _ => (t, r)
  end.

(** Source: app/examples/game/dungeon_full_server/src/game/dungeon_generator.cpp:379-391, DungeonGenerator::PlaceProps. *)
Fixpoint room_props (n : nat) (room : Room) (used : gset Coord) (r : rng) : list PropData * rng :=
  match n with
  | O => ([], r)
  | S n =>
    let '(t, r) := draw_tile 20 room used r in
    let '(type, r) := uniform_int 0 4 r in
    let '(rot, r) := uniform_int 0 3 r in
    let w := GridToWorld t in
    let '(props, r) := room_props n room ({[t]} ∪ used) r in
    (mkProp w.1 w.2 type (Quarters rot) :: props, r)
  end.

(** Source: app/examples/game/dungeon_full_server/src/game/dungeon_generator.cpp:394-412, DungeonGenerator::PlaceProps.
    A corner of the floor. *)
Definition corner_prop (g : grid) (st : list PropData * rng) (c : Coord) : list PropData * rng :=
  let '(props, r) := st in
  if negb (tile g c =? 0) then (props, r) else
  let floorNeighbours := floor_around 1 g c - 1 in
  if floorNeighbours <=? 3 then
    let '(ok, r) := chance r in
    if ok then
      let '(type, r) := uniform_int 0 4 r in
      let '(a, r) := uniform_angle r in
      let w := GridToWorld c in (props ++ [mkProp w.1 w.2 type (Angle a)], r)
    else (props, r)
  else (props, r).

(** Source: app/examples/game/dungeon_full_server/src/game/dungeon_generator.cpp:369-413, DungeonGenerator::PlaceProps. *)
Definition PlaceProps (g : grid) (rooms : list Room) (r : rng) : list PropData * rng :=
  let '(props, r) :=
    foldl (λ '(props, r) room,
      let propCount := Z.max 2 (Z.min (roomSize room / 12) 15) in
      let '(more, r) := room_props (Z.to_nat propCount) room ∅ r in (props ++ more, r)) ([], r) rooms in
  foldl (corner_prop g) (props, r) all_cells.

(** Source: app/examples/game/dungeon_full_server/src/game/dungeon_generator.cpp:426-434, DungeonGenerator::PlaceLights.
    The lights of a room from number [li] on. *)
Fixpoint room_lights (n : nat) (li stride depth : Z) (room : Room) (r : rng) : list LightData * rng :=
  match n with
  | O => ([], r)
  | S n =>
    let idx := Z.min (li * stride + stride / 2) (zlen (tiles room) - 1) in
    let w := GridToWorld (default (0, 0) (tiles room !! Z.to_nat idx)) in
    let '(red, r) := uniform_colour 0 depth r in
    let '(green, r) := uniform_colour 1 depth r in
    let '(blue, r) := uniform_colour 2 depth r in
    let '(lights, r) := room_lights n (li + 1) stride depth room r in
    (mkLight w.1 w.2 (RoomGlow red green blue (roomSize room)) (li =? 0) :: lights, r)
  end.

(** Source: app/examples/game/dungeon_full_server/src/game/dungeon_generator.cpp:438-441, DungeonGenerator::PlaceLights. *)
Definition roomTileSet (rooms : list Room) : gset Z :=
  list_to_set ((λ t : Coord, t.1 * 10000 + t.2) <$> (rooms ≫= tiles)).

(** Source: app/examples/game/dungeon_full_server/src/game/dungeon_generator.cpp:443-451, DungeonGenerator::PlaceLights.
    Every third column and row. *)
Definition passage_lights (g : grid) (rooms : list Room) : list LightData :=
  let seen := roomTileSet rooms in
  filter (λ c : Coord, c.1 mod 3 = 0 ∧ c.2 mod 3 = 0) all_cells ≫= λ c,
    if negb (tile g c =? 0) then [] else
    if bool_decide (c.1 * 10000 + c.2 ∈ seen) then [] else
    let w := GridToWorld c in [mkLight w.1 w.2 PassageGlow false].

(** Source: app/examples/game/dungeon_full_server/src/game/dungeon_generator.cpp:415-452, DungeonGenerator::PlaceLights. *)
Definition PlaceLights (depth : Z) (g : grid) (rooms : list Room) (r : rng) : list LightData * rng :=
  let '(lights, r) :=
    foldl (λ '(lights, r) room,
      let lightCount := Z.max 1 (Z.min (roomSize room / 40) 5) in
      let stride := Z.max 1 (zlen (tiles room) / lightCount) in
      let '(more, r) := room_lights (Z.to_nat lightCount) 0 stride depth room r in (lights ++ more, r)) ([], r) rooms in
  (lights ++ passage_lights g rooms, r).

(** The squared distance of two positions. *)
Definition dist2 (a b : Coord) : Z := (a.1 - b.1) * (a.1 - b.1) + (a.2 - b.2) * (a.2 - b.2).

(** Source: app/examples/game/dungeon_full_server/src/game/dungeon_generator.cpp:517-533, DungeonGenerator::PlacePortals.
    The candidates, with their distance from the spawn position. *)
Definition candidates (g : grid) (spawn : Coord) : list (Z * Coord) :=
  loop2 2 (GRID_WIDTH - 2) 2 (GRID_HEIGHT - 2) ≫= λ c,
    if negb (tile g c =? 0) then [] else
    if floor_around 2 g c <? 15 then [] else
    let w := GridToWorld c in [(dist2 w spawn, w)].

(** Source: app/examples/game/dungeon_full_server/src/game/dungeon_generator.cpp:540-541, DungeonGenerator::PlacePortals.
    [19300 * 0.08f], which rounds to this number. *)
Definition kMinSeparation : Z := 1544.

(** Source: app/examples/game/dungeon_full_server/src/game/dungeon_generator.cpp:543-560, DungeonGenerator::PlacePortals.
    The loop over the candidates; it stops at the first one that is too near. *)
Fixpoint place (numPortals : Z) (cs : list (Z * Coord)) (portals : list PortalData) : list PortalData :=
  match cs with
  | [] => portals
  | (dist, w) :: cs =>
    if numPortals <=? zlen portals then portals else
    if dist <? 36 then portals else
    if existsb (λ p, dist2 (portal_x p, portal_z p) w <? kMinSeparation) portals
    then place numPortals cs portals
    else place numPortals cs
           (portals ++ [mkPortal w.1 w.2 0 (txt "Portal " ++ [byte_of (65 + zlen portals)])])
  end.

(** Source: app/examples/game/dungeon_full_server/src/game/dungeon_generator.cpp:514-561, DungeonGenerator::PlacePortals.
    [sort] is [std::sort] by falling distance. *)
Definition PlacePortals (sort : list (Z * Coord) → list (Z * Coord)) (numPortals : Z) (g : grid) (spawn : Coord) :
    list PortalData :=
  place numPortals (sort (candidates g spawn)) [].

(** Source: app/examples/game/dungeon_full_server/src/game/dungeon_generator.cpp:454-478, DungeonGenerator::GetRandomFloorPosition. *)
Definition GetRandomFloorPosition (g : grid) (rooms : list Room) (r : rng) : option (Coord * rng) :=
  let openTiles := filter (λ t, 5 ≤ floor_around 1 g t - (if tile g t =? 0 then 1 else 0)) (rooms ≫= tiles) in
  let openTiles := if bool_decide (openTiles = []) then rooms ≫= tiles else openTiles in
  if bool_decide (openTiles = []) then None else
  let '(i, r) := uniform_int 0 (zlen openTiles - 1) r in
  Some (GridToWorld (default (0, 0) (openTiles !! Z.to_nat i)), r).

(** Source: app/examples/game/dungeon_full_server/src/game/dungeon_generator.cpp:37-41, DungeonGenerator::FillMapData.
    The bytes of the grid that are sent to the clients. *)
Definition grid_bytes (g : grid) : list Z := (λ c, tile g c) <$> all_cells.

Record Dungeon := mkDungeon {
  map_ : grid; survivingRooms_ : list Room; props_ : list PropData; lights_ : list LightData; spawn_ : Coord; portals_ : list PortalData
}.

(** Source: app/examples/game/dungeon_full_server/src/game/dungeon_generator.cpp:9-30, DungeonGenerator::Generate.
    [r] is the engine with its seed. *)
Definition Generate (sort_rooms : list Room → list Room) (sort_candidates : list (Z * Coord) → list (Z * Coord))
    (numPortals depth : Z) (r : rng) : option Dungeon :=
  let '(g, r) := RandomFillMap depth ∅ r in
  let g := Nat.iter SMOOTH_ITERATIONS SmoothMap g in
  '(g, rooms) ← ProcessMap sort_rooms g;
  let '(props, r) := PlaceProps g rooms r in
  let '(lights, r) := PlaceLights depth g rooms r in
  let spawn := FindSpawnPosition g rooms in
  Some (mkDungeon g rooms props lights spawn (PlacePortals sort_candidates numPortals g spawn)).

End Generator.
