(* ===== verification/DungeonRegions.v ===== *)
(** * Regions of a dungeon

    Cells and ways over cells of one kind; the flood fill finds the connected regions; the
    rooms that are left are separate pieces of floor; what a disc and a line of discs open. *)

From stdpp Require Import relations sorting.
From S2P Require Import Prelude Text Dungeon.

#[local] Open Scope Z_scope.
#[local] Set Warnings "-clear-no-such-hyp".

(** ** Cells *)

Definition in_map (c : Coord) : Prop := 0 ≤ c.1 < GRID_WIDTH ∧ 0 ≤ c.2 < GRID_HEIGHT.

#[export] Instance in_map_dec c : Decision (in_map c).
Proof. unfold in_map. apply _. Defined.

Lemma IsInMapRange_true c : IsInMapRange c = true ↔ in_map c.
Proof. unfold IsInMapRange, in_map. rewrite !andb_true_iff, !Z.leb_le, !Z.ltb_lt. lia. Qed.

Lemma elem_of_loop2 x0 x1 y0 y1 c : c ∈ loop2 x0 x1 y0 y1 ↔ x0 ≤ c.1 < x1 ∧ y0 ≤ c.2 < y1.
Proof.
  unfold loop2. rewrite list_elem_of_bind. split.
  - intros (x & (y & -> & Hy)%list_elem_of_fmap & Hx). apply elem_of_seqZ in Hx, Hy. cbn. lia.
  - intros [Hx Hy]. exists c.1. rewrite elem_of_seqZ. split; [|lia]. apply list_elem_of_fmap.
    exists c.2. rewrite elem_of_seqZ. split; [by destruct c|lia].
Qed.

Lemma NoDup_loop2 x0 x1 y0 y1 : NoDup (loop2 x0 x1 y0 y1).
Proof.
  unfold loop2. apply NoDup_bind.
  - intros x x' c _ _ (y & -> & _)%list_elem_of_fmap (y' & E & _)%list_elem_of_fmap. by injection E.
  - intros x _. apply NoDup_fmap; [by intros y y' [=]|apply NoDup_seqZ].
  - apply NoDup_seqZ.
Qed.

Lemma elem_of_all_cells c : c ∈ all_cells ↔ in_map c.
Proof. unfold all_cells. rewrite elem_of_loop2. unfold in_map. lia. Qed.

Lemma elem_of_around r c d : d ∈ around r c ↔ Z.abs (d.1 - c.1) ≤ r ∧ Z.abs (d.2 - c.2) ≤ r.
Proof. unfold around. rewrite elem_of_loop2. lia. Qed.

(** Cells that share a side. *)
Definition adj (c d : Coord) : Prop := Z.abs (c.1 - d.1) + Z.abs (c.2 - d.2) = 1.

Definition cell (g : grid) (v : Z) (c : Coord) : Prop := in_map c ∧ tile g c = v.

(** A way over cells of one kind. *)
Definition walk (g : grid) (v : Z) : relation Coord := λ c d, adj c d ∧ cell g v c ∧ cell g v d.
Definition conn (g : grid) (v : Z) : relation Coord := rtc (walk g v).

Lemma adj_sym c d : adj c d → adj d c.
Proof. unfold adj. lia. Qed.

Lemma conn_sym g v c d : conn g v c d → conn g v d c.
Proof.
  induction 1 as [|c d e (Ha & Hc & Hd) _ IH]; [apply rtc_refl|].
  eapply rtc_r; [done|]. split_and!; [by apply adj_sym|done|done].
Qed.

Lemma conn_cell g v c d : conn g v c d → cell g v c → cell g v d.
Proof. induction 1 as [|c d e (_ & _ & Hd) _ IH]; [done|]. intros _. by apply IH. Qed.

Lemma conn_mono g g' v c d : (∀ c, cell g v c → cell g' v c) → conn g v c d → conn g' v c d.
Proof.
  intros Hm. induction 1 as [|c d e (Ha & Hc & Hd) _ IH]; [apply rtc_refl|].
  eapply rtc_l; [|done]. split_and!; [done|by apply Hm|by apply Hm].
Qed.

Lemma coord_eq (c d : Coord) : c.1 = d.1 → c.2 = d.2 → c = d.
Proof. destruct c, d. cbn. by intros -> ->. Qed.

Lemma tile_insert g c d v : tile (<[c := v]> g) d = if decide (d = c) then v else tile g d.
Proof.
  unfold tile. case_decide; [subst; by rewrite lookup_insert_eq|by rewrite lookup_insert_ne by congruence].
Qed.

(** ** The lattice is connected *)

Definition near (c d : Coord) : Prop := adj c d ∧ in_map c ∧ in_map d.

Lemma near_row x y n : in_map (x, y) → in_map (x + Z.of_nat n, y) → rtc near (x, y) (x + Z.of_nat n, y).
Proof.
  induction n as [|n IH]; intros H1 H2; [rewrite Z.add_0_r; apply rtc_refl|].
  unfold in_map in *. cbn in *. apply rtc_r with (x + Z.of_nat n, y); [apply IH; [done|cbn; lia]|].
  unfold near, adj, in_map. cbn. lia.
Qed.

Lemma near_column x y n : in_map (x, y) → in_map (x, y + Z.of_nat n) → rtc near (x, y) (x, y + Z.of_nat n).
Proof.
  induction n as [|n IH]; intros H1 H2; [rewrite Z.add_0_r; apply rtc_refl|].
  unfold in_map in *. cbn in *. apply rtc_r with (x, y + Z.of_nat n); [apply IH; [done|cbn; lia]|].
  unfold near, adj, in_map. cbn. lia.
Qed.

Lemma near_sym c d : rtc near c d → rtc near d c.
Proof.
  induction 1 as [|c d e (Ha & Hc & Hd) _ IH]; [apply rtc_refl|].
  eapply rtc_r; [done|]. split_and!; [by apply adj_sym|done|done].
Qed.

Lemma near_all c d : in_map c → in_map d → rtc near c d.
Proof.
  assert (∀ x y x', in_map (x, y) → in_map (x', y) → rtc near (x, y) (x', y)) as Hrow.
  { intros x y x' H1 H2. destruct (Z.le_ge_cases x x').
    - replace x' with (x + Z.of_nat (Z.to_nat (x' - x))) in * by lia. by apply near_row.
    - replace x with (x' + Z.of_nat (Z.to_nat (x - x'))) in * by lia. by apply near_sym, near_row. }
  assert (∀ x y y', in_map (x, y) → in_map (x, y') → rtc near (x, y) (x, y')) as Hcol.
  { intros x y y' H1 H2. destruct (Z.le_ge_cases y y').
    - replace y' with (y + Z.of_nat (Z.to_nat (y' - y))) in * by lia. by apply near_column.
    - replace y with (y' + Z.of_nat (Z.to_nat (y - y'))) in * by lia. by apply near_sym, near_column. }
  destruct c as [x y], d as [x' y']. intros H1 H2.
  assert (in_map (x', y)) by (unfold in_map in *; cbn in *; lia).
  eapply rtc_trans; [by apply Hrow|by apply Hcol].
Qed.

(** A set of cells that is not everything has a side. *)
Lemma crossing (P : Coord → Prop) `{∀ c, Decision (P c)} c d : in_map c → in_map d → P c → ¬ P d →
  ∃ t n, P t ∧ ¬ P n ∧ near t n.
Proof.
  intros Hc Hd HPc HPd. pose proof (near_all c d Hc Hd) as Hr.
  induction Hr as [|c e d Hs _ IH]; [done|].
  destruct (decide (P e)) as [He|He]; [apply IH; [apply Hs|done|done|done]|].
  by exists c, e.
Qed.

(** ** Flood fill *)

(** What one round adds to the queue. *)
Record flooded (g : grid) (v : Z) (t : Coord) (q : list Coord) (m : gset Coord)
    (q' : list Coord) (m' : gset Coord) (new : list Coord) : Prop := {
  fl_queue : q' = q ++ new;
  fl_flags : m' = list_to_set new ∪ m;
  fl_nodup : NoDup new;
  fl_fresh : ∀ n, n ∈ new → n ∉ m;
  fl_beside : ∀ n, n ∈ new → (n = t ∨ adj t n) ∧ cell g v n;
}.

Definition floodable (g : grid) (v : Z) (t n : Coord) : Prop :=
  IsInMapRange n && (bool_decide (n.2 = t.2) || bool_decide (n.1 = t.1)) = true ∧ tile g n = v.

Lemma flood_list g v t ns q m : (∀ n, n ∈ ns → n ∈ around 1 t) →
  let '(q', m') := foldl (λ '(q, mapFlags) n,
    if IsInMapRange n && (bool_decide (n.2 = t.2) || bool_decide (n.1 = t.1)) &&
       bool_decide (n ∉ mapFlags) && (tile g n =? v)
    then (q ++ [n], {[n]} ∪ mapFlags) else (q, mapFlags)) (q, m) ns in
  ∃ new, flooded g v t q m q' m' new ∧ ∀ n, n ∈ ns → floodable g v t n → n ∈ m'.
Proof.
  revert q m. induction ns as [|n ns IH]; intros q m Hns; cbn [foldl].
  { exists []. split; [split; try set_solver; [by rewrite app_nil_r|constructor]|set_solver]. }
  destruct (_ && _ && _ && _) eqn:E.
  - specialize (IH (q ++ [n]) ({[n]} ∪ m) ltac:(set_solver)).
    destruct (foldl _ _ ns) as [q' m']. destruct IH as (new & [Hq Hm Hd Hf Hb] & Hall).
    rewrite !andb_true_iff, bool_decide_eq_true, Z.eqb_eq in E. destruct E as [[[Hr Hs] Hn] Ht].
    exists (n :: new). split; [split|].
    + by rewrite Hq, <- app_assoc.
    + rewrite Hm. set_solver.
    + constructor; [|done]. intros Hin. apply Hf in Hin. set_solver.
    + intros k [->|Hk]%elem_of_cons; [done|]. apply Hf in Hk. set_solver.
    + intros k [->|Hk]%elem_of_cons; [|by apply Hb].
      apply IsInMapRange_true in Hr. split; [|by split].
      assert (n ∈ around 1 t) as Ha%elem_of_around by (apply Hns; by left).
      apply orb_true_iff in Hs. rewrite !bool_decide_eq_true in Hs.
      destruct (decide (n = t)) as [|Hne]; [by left|right]. unfold adj.
      assert (n.1 ≠ t.1 ∨ n.2 ≠ t.2) by (destruct (decide (n.1 = t.1)), (decide (n.2 = t.2));
        auto; destruct Hne; by apply coord_eq). lia.
    + intros k [->|Hk]%elem_of_cons Hfl; [|by apply Hall]. rewrite Hm. set_solver.
  - specialize (IH q m ltac:(set_solver)). destruct (foldl _ _ ns) as [q' m'].
    destruct IH as (new & Hfl & Hall). exists new. split; [done|].
    intros k [->|Hk]%elem_of_cons [Hr Ht]; [|by apply Hall]. rewrite Hr in E. cbn in E.
    apply andb_false_iff in E as [E|E]; [|by rewrite Z.eqb_neq in E].
    apply bool_decide_eq_false in E. apply dec_stable in E. rewrite (fl_flags _ _ _ _ _ _ _ _ Hfl). set_solver.
Qed.

Lemma flood_spec g v t q m : let '(q', m') := flood g v t (q, m) in
  ∃ new, flooded g v t q m q' m' new ∧ ∀ n, adj t n → cell g v n → n ∈ m'.
Proof.
  unfold flood. pose proof (flood_list g v t (around 1 t) q m (λ n Hn, Hn)) as Hl.
  destruct (foldl _ _ _) as [q' m']. destruct Hl as (new & Hfl & Hall). exists new. split; [done|].
  intros n Ha [Hr Ht]. apply Hall; [apply elem_of_around; unfold adj in Ha; lia|].
  split; [|done]. apply IsInMapRange_true in Hr. rewrite Hr. cbn. unfold adj in Ha.
  apply orb_true_iff. rewrite !bool_decide_eq_true. lia.
Qed.

(** The loop: [P] are the cells taken from the queue before. *)
Record flooding (g : grid) (v : Z) (c : Coord) (P q : list Coord) (m : gset Coord) : Prop := {
  fi_flags : m = list_to_set (P ++ q);
  fi_nodup : NoDup (P ++ q);
  fi_conn : ∀ t, t ∈ P ++ q → cell g v t ∧ conn g v c t;
  fi_closed : ∀ t n, t ∈ P → adj t n → cell g v n → n ∈ m;
}.

Lemma cells_bound (l : list Coord) : NoDup l → (∀ c, c ∈ l → in_map c) → (length l ≤ length all_cells)%nat.
Proof.
  intros Hd Hl. apply submseteq_length, NoDup_submseteq; [done|].
  intros c Hc. by apply elem_of_all_cells, Hl.
Qed.

Lemma flooding_step g v c P t q m : flooding g v c P (t :: q) m →
  let '(q', m') := flood g v t (q, m) in flooding g v c (P ++ [t]) q' m'.
Proof.
  intros [Hf Hd Hc Hcl]. pose proof (flood_spec g v t q m) as Hs. destruct (flood g v t (q, m)) as [q' m'].
  destruct Hs as (new & [-> -> Hn Hfr Hb] & Hall).
  assert (Hperm : (P ++ [t]) ++ q ++ new = (P ++ t :: q) ++ new) by (by rewrite <- !app_assoc).
  split; rewrite ?Hperm.
  - rewrite Hf. rewrite !list_to_set_app_L. set_solver.
  - apply NoDup_app. split_and!; [done| |done]. intros x Hx Hx'. apply Hfr in Hx'. rewrite Hf in Hx'. set_solver.
  - intros x [Hx|Hx]%elem_of_app; [by apply Hc|]. destruct (Hb x Hx) as [Ht Hx']. split; [done|].
    destruct (Hc t) as [Htc Htn]; [apply elem_of_app; right; by left|].
    destruct Ht as [->|Ha]; [done|]. eapply rtc_r; [exact Htn|]. by split_and!.
  - intros x n Hx Ha Hcell. apply elem_of_app in Hx as [Hx|Hx].
    + apply elem_of_union. right. by eapply Hcl.
    + apply list_elem_of_singleton in Hx as ->. by apply Hall.
Qed.

Lemma region_loop_spec fuel g v c P q m : flooding g v c P q m →
  (length all_cells < fuel + length P)%nat → cell g v c →
  let R := P ++ region_loop fuel g v q m in
  NoDup R ∧ (∀ t, t ∈ R → cell g v t ∧ conn g v c t) ∧ (∀ t, t ∈ P ++ q → t ∈ R) ∧
  (∀ t n, t ∈ R → adj t n → cell g v n → n ∈ R).
Proof.
  revert P q m. induction fuel as [|fuel IH]; intros P q m Hfl Hfuel Hcell.
  { exfalso. destruct Hfl as [_ Hd Hc _]. apply NoDup_app in Hd as (Hd & _ & _).
    pose proof (cells_bound P Hd ltac:(intros x Hx; apply Hc, elem_of_app; by left)). lia. }
  cbn [region_loop]. destruct q as [|t q].
  - destruct Hfl as [Hf Hd Hc Hcl]. rewrite app_nil_r in *. split_and!; [done|done|done|].
    intros t n Ht Ha Hn. specialize (Hcl t n Ht Ha Hn). rewrite Hf in Hcl. by apply elem_of_list_to_set in Hcl.
  - pose proof (flooding_step g v c P t q m Hfl) as Hs.
    pose proof (flood_spec g v t q m) as Hq. destruct (flood g v t (q, m)) as [q' m'].
    destruct Hq as (new & [-> _ _ _ _] & _).
    destruct (IH (P ++ [t]) (q ++ new) m' Hs) as (H1 & H2 & H3 & H4); [rewrite length_app; cbn; lia|done|].
    rewrite <- !app_assoc in *. cbn in *. split_and!; [done|done| |done].
    intros x [Hx|[->|Hx]%elem_of_cons]%elem_of_app; apply H3, elem_of_app; [by left|right; by left|].
    right; right. apply elem_of_app. by left.
Qed.

(** The flood fill finds the connected region of a cell: each cell of it once, exactly
    those that a way over cells of the same kind leads to; the queue empties before the
    rounds run out. *)
Lemma GetRegionTiles_spec g c : in_map c →
  NoDup (GetRegionTiles g c) ∧ ∀ t, t ∈ GetRegionTiles g c ↔ conn g (tile g c) c t.
Proof.
  intros Hc. assert (cell g (tile g c) c) as Hcell by done.
  destruct (region_loop_spec (S (length all_cells)) g (tile g c) c [] [c] {[c]}) as (H1 & H2 & H3 & H4).
  - split; cbn; [by rewrite union_empty_r_L|apply NoDup_singleton| |set_solver].
    intros t ->%list_elem_of_singleton. split; [done|apply rtc_refl].
  - cbn. lia.
  - done.
  - cbn [app] in *. split; [done|]. intros t. split; [intros Ht; by apply H2|].
    intros Hr. unfold GetRegionTiles. revert t Hr. apply rtc_ind_r; [apply H3; by left|].
    intros x y _ (Ha & _ & Hy) Hx. by eapply H4.
Qed.

(** ** Regions *)

Lemma elem_of_concat (c : Coord) Rs : c ∈ concat Rs ↔ ∃ R, R ∈ Rs ∧ c ∈ R.
Proof.
  rewrite list_elem_of_In, in_concat. split; intros (R & HR & Hc); exists R; by rewrite ?list_elem_of_In, <- ?list_elem_of_In in *.
Qed.

Definition region_of (g : grid) (v : Z) (R : list Coord) : Prop :=
  ∃ c, cell g v c ∧ NoDup R ∧ ∀ t, t ∈ R ↔ conn g v c t.

Lemma region_of_cell g v R t : region_of g v R → t ∈ R → cell g v t.
Proof. intros (c & Hc & _ & Ht) H'. apply Ht in H'. by eapply conn_cell. Qed.

Lemma region_of_conn g v R t t' : region_of g v R → t ∈ R → t' ∈ R ↔ conn g v t t'.
Proof.
  intros (c & Hc & _ & Ht) H'%Ht. rewrite Ht. split; intros Hn.
  - eapply rtc_trans; [by apply conn_sym|done].
  - by eapply rtc_trans.
Qed.

Lemma region_of_nonempty g v R : region_of g v R → ∃ c, c ∈ R.
Proof. intros (c & _ & _ & Ht). exists c. apply Ht, rtc_refl. Qed.

Record collected (g : grid) (v : Z) (seen : list Coord) (Rs : list (list Coord)) (m : gset Coord) : Prop := {
  co_flags : m = list_to_set (concat Rs);
  co_regions : Forall (region_of g v) Rs;
  co_all : ∀ c, c ∈ seen → cell g v c → c ∈ m;
  co_nodup : NoDup (concat Rs);
}.

Lemma collect g v cs : (∀ c, c ∈ cs → in_map c) →
  let '(Rs, m) := foldl (add_region g v) ([], ∅) cs in collected g v cs Rs m.
Proof.
  induction cs as [|c cs IH] using rev_ind; intros Hcs.
  { split; cbn; [done|done| |constructor]. intros c Hc. by apply not_elem_of_nil in Hc. }
  rewrite foldl_snoc. specialize (IH ltac:(intros; apply Hcs, elem_of_app; by left)).
  destruct (foldl _ _ cs) as [Rs m]. destruct IH as [Hf Hr Ha Hd]. cbn [add_region].
  assert (Hc : in_map c) by (apply Hcs, elem_of_app; right; by left).
  destruct (_ && _) eqn:E.
  - apply andb_prop in E as [Hn%bool_decide_eq_true_1 Ht%Z.eqb_eq].
    destruct (GetRegionTiles_spec g c Hc) as [Hnd Hreg]. rewrite Ht in Hreg.
    assert (Hro : region_of g v (GetRegionTiles g c)) by (exists c; done).
    split.
    + rewrite concat_app, list_to_set_app_L, Hf. cbn [concat]. rewrite app_nil_r. apply (comm_L (∪)).
    + apply Forall_app. by split; [|constructor].
    + intros x [Hx|Hx]%elem_of_app Hcell; apply elem_of_union; [right; by apply Ha|left].
      apply list_elem_of_singleton in Hx as ->. apply elem_of_list_to_set, Hreg, rtc_refl.
    + rewrite concat_app. cbn [concat]. rewrite app_nil_r. apply NoDup_app. split_and!; [done| |done].
      intros x Hx Hx'. apply Hn. rewrite Hf, elem_of_list_to_set.
      apply elem_of_concat in Hx as (R & HR & HxR). apply elem_of_concat. exists R. split; [done|].
      eapply Forall_forall in Hr; [|done]. apply (region_of_conn _ _ _ _ c Hr HxR).
      apply conn_sym. by apply Hreg.
  - split; [done|done| |done]. intros x [Hx|Hx]%elem_of_app Hcell; [by apply Ha|].
    apply list_elem_of_singleton in Hx as ->. apply andb_false_iff in E as [E|E].
    + apply bool_decide_eq_false in E. by apply dec_stable in E.
    + apply Z.eqb_neq in E. by destruct Hcell.
Qed.

Lemma GetRegions_spec g v :
  Forall (region_of g v) (GetRegions g v) ∧ NoDup (concat (GetRegions g v)) ∧
  ∀ c, cell g v c → c ∈ concat (GetRegions g v).
Proof.
  assert (Hc : ∀ c, c ∈ all_cells → in_map c) by (intros c; apply elem_of_all_cells).
  pose proof (collect g v all_cells Hc) as H'. unfold GetRegions.
  destruct (foldl _ _ _) as [Rs m]. destruct H' as [Hf Hr Ha Hd]. split_and!; [done|done|].
  intros c Hcell. cbn. specialize (Ha c ltac:(apply elem_of_all_cells, Hcell) Hcell).
  rewrite Hf in Ha. by apply elem_of_list_to_set in Ha.
Qed.

(** The regions of a kind of tile are its connected components: every cell of the kind is
    in one region, once, and two cells are in one region exactly when a way over cells of the
    kind leads from one to the other. *)
Theorem regions_are_components g v :
  NoDup (concat (GetRegions g v)) ∧
  (∀ c, c ∈ concat (GetRegions g v) ↔ cell g v c) ∧
  ∀ c d, (cell g v c ∧ conn g v c d) ↔ ∃ R, R ∈ GetRegions g v ∧ c ∈ R ∧ d ∈ R.
Proof.
  generalize (GetRegions_spec g v). generalize (GetRegions g v). intros Rs (HR & Hd & Hall).
  rewrite Forall_forall in HR. split_and!; [done| |].
  - intros c. split; [|apply Hall]. intros (R & HRin & Hc)%elem_of_concat. eapply region_of_cell; [by apply HR|done].
  - intros c d. split.
    + intros [Hc Hn]. apply Hall, elem_of_concat in Hc as (R & HRin & Hc). exists R. split_and!; [done|done|].
      by apply (region_of_conn g v R c d (HR R HRin) Hc).
    + intros (R & HRin & Hc & Hdd). specialize (HR R HRin). split; [by eapply region_of_cell|].
      by apply (region_of_conn g v R c d HR Hc).
Qed.

(** ** Rooms *)

Definition binary (g : grid) : Prop := ∀ c, in_map c → tile g c = 0 ∨ tile g c = 1.

Lemma tile_fill v R g c : tile (fill v R g) c = if decide (c ∈ R) then v else tile g c.
Proof.
  unfold fill. revert g. induction R as [|t R IH]; intros g; cbn; [done|].
  rewrite IH, tile_insert. destruct (decide (c = t)) as [->|Hne].
  - rewrite (decide_True _ _ (list_elem_of_here _ _)). by case_decide.
  - destruct (decide (c ∈ R)), (decide (c ∈ t :: R)); try done; set_solver.
Qed.

Lemma binary_fill v R g : v = 0 ∨ v = 1 → binary g → binary (fill v R g).
Proof. intros Hv Hb c Hc. rewrite tile_fill. case_decide; [done|by apply Hb]. Qed.

Lemma binary_walls g : binary g → binary (drop_small_walls g).
Proof.
  intros Hb. unfold drop_small_walls. generalize (GetRegions g 1). intros Rs.
  revert g Hb. induction Rs as [|R Rs IH]; intros g Hb; [done|]. cbn. apply IH.
  destruct (_ <? _); [apply binary_fill; auto|done].
Qed.

(** A room of the map [g]: a connected piece of floor, and the cells at its side. *)
Record room_ok (g : grid) (r : Room) : Prop := {
  rk_some : tiles r ≠ [];
  rk_floor : ∀ t, t ∈ tiles r → cell g 0 t;
  rk_conn : ∀ t t', t ∈ tiles r → t' ∈ tiles r → conn g 0 t t';
  rk_edge : ∀ t, t ∈ edgeTiles r → t ∈ tiles r;
  rk_size : roomSize r = zlen (tiles r);
}.

(** What holds of the rooms of a map before they are connected. *)
Record separate (g : grid) (rooms : list Room) : Prop := {
  se_rooms : Forall (room_ok g) rooms;
  se_floor : ∀ c, cell g 0 c → ∃ r, r ∈ rooms ∧ c ∈ tiles r;
  se_side : (2 ≤ length rooms)%nat → Forall (λ r, edgeTiles r ≠ []) rooms;
  se_new : Forall (λ r, connectedRoomIndices r = [] ∧ isAccessibleFromMainRoom r = false) rooms;
}.

Lemma new_room_edge g R t : t ∈ edgeTiles (new_room g R) ↔
  t ∈ R ∧ ∃ n, n ∈ around 1 t ∧ (n.1 = t.1 ∨ n.2 = t.2) ∧ in_map n ∧ tile g n = 1.
Proof.
  cbn. rewrite list_elem_of_bind. split.
  - intros (t' & (n & Hn & Ha)%list_elem_of_bind & Ht'). destruct (_ && _) eqn:E; [|by apply not_elem_of_nil in Hn].
    apply list_elem_of_singleton in Hn as ->. rewrite !andb_true_iff, orb_true_iff, !bool_decide_eq_true in E.
    destruct E as [[Hs Hr%IsInMapRange_true] Hv%Z.eqb_eq]. split; [done|]. exists n. done.
  - intros (Ht & n & Ha & Hs & Hr%IsInMapRange_true & Hv%Z.eqb_eq). exists t. split; [|done].
    apply list_elem_of_bind. exists n. split; [|done]. rewrite Hr, Hv.
    replace (bool_decide (n.1 = t.1) || bool_decide (n.2 = t.2)) with true; [by left|].
    symmetry. apply orb_true_iff. by rewrite !bool_decide_eq_true.
Qed.

(** A room made from a region of [g0]. *)
Record room_from (g0 : grid) (R : list Coord) (r : Room) : Prop := {
  rf_tiles : tiles r = R;
  rf_size : roomSize r = zlen R;
  rf_new : connectedRoomIndices r = [] ∧ isAccessibleFromMainRoom r = false;
  rf_edge : ∀ t, t ∈ edgeTiles r → t ∈ R;
  rf_side : (∃ c, in_map c ∧ c ∉ R) → edgeTiles r ≠ [];
}.

Definition small (R : list Coord) : Prop := zlen R < ROOM_THRESHOLD_SIZE.
#[export] Instance small_dec R : Decision (small R) := Z_lt_dec _ _.

(** The map with the small regions filled. *)
Definition filled (g0 : grid) (Rs : list (list Coord)) (g : grid) : Prop :=
  ∀ c, tile g c = if decide (c ∈ concat (filter small Rs)) then 1 else tile g0 c.

Lemma room_from_new g0 g R : binary g0 → region_of g0 0 R → (∀ c, tile g0 c = 1 → tile g c = 1) →
  room_from g0 R (new_room g R).
Proof.
  intros Hb HR Hg. split; try done.
  - intros t [Ht _]%new_room_edge. done.
  - intros (c & Hc & Hn). destruct (region_of_nonempty g0 0 R HR) as [t0 Ht0].
    destruct (crossing (λ c, c ∈ R) t0 c) as (t & n & Ht & Hnn & (Ha & Htm & Hnm)); try done.
    { by eapply region_of_cell. }
    assert (tile g n = 1) as Hv.
    { apply Hg. destruct (Hb n Hnm) as [H0|]; [|done]. destruct Hnn.
      apply (region_of_conn g0 0 R t n HR Ht), rtc_once. split_and!; [done|by eapply region_of_cell|done]. }
    assert (Hin : t ∈ edgeTiles (new_room g R)).
    { apply new_room_edge. split; [done|]. exists n. rewrite elem_of_around. unfold adj in Ha.
      split_and!; [lia|lia|lia|done|done]. }
    intros E. rewrite E in Hin. by apply not_elem_of_nil in Hin.
Qed.

Lemma find_rooms_loop g0 Rs : binary g0 → Forall (region_of g0 0) Rs →
  let '(g, rooms) := foldl add_room (g0, []) Rs in
  filled g0 Rs g ∧ Forall2 (room_from g0) (filter (λ R, ¬ small R) Rs) rooms.
Proof.
  intros Hb. induction Rs as [|R Rs IH] using rev_ind; intros HRs.
  { split; [by intros c|constructor]. }
  apply Forall_app in HRs as [HRs [HR _]%Forall_cons]. rewrite foldl_snoc. specialize (IH HRs).
  destruct (foldl _ _ Rs) as [g rooms]. destruct IH as [Hf Hr]. cbn [add_room].
  destruct (Z.ltb_spec (zlen R) ROOM_THRESHOLD_SIZE) as [Hs|Hs].
  - split.
    + intros c. rewrite tile_fill, Hf, filter_app, concat_app, (filter_cons_True _ R []) by done. cbn [concat filter list_filter].
      rewrite app_nil_r. destruct (decide (c ∈ R)), (decide (c ∈ concat (filter small Rs))),
        (decide (c ∈ concat (filter small Rs) ++ R)); try done; exfalso; rewrite elem_of_app in *; tauto.
    + rewrite filter_app, (filter_cons_False _ R []) by (intros H'; by apply H'). by rewrite app_nil_r.
  - assert (¬ small R) as Hn by (unfold small; lia). split.
    + intros c. by rewrite Hf, filter_app, (filter_cons_False _ R []), app_nil_r by done.
    + rewrite filter_app, (filter_cons_True _ R []) by done. apply Forall2_app; [done|]. constructor; [|constructor].
      apply room_from_new; [done|done|]. intros c Hc. rewrite Hf. by case_decide.
Qed.

Lemma conn_region g0 g R t t' : region_of g0 0 R → (∀ c, c ∈ R → cell g 0 c) → t ∈ R → t' ∈ R → conn g 0 t t'.
Proof.
  intros HR Hg Ht Ht'. apply (region_of_conn g0 0 R t t' HR Ht) in Ht'. revert Ht.
  induction Ht' as [|c d e (Ha & Hc & Hd) _ IH]; intros Ht; [apply rtc_refl|].
  assert (d ∈ R) by (apply (region_of_conn g0 0 R c d HR Ht), rtc_once; by split_and!).
  eapply rtc_l; [|by apply IH]. split_and!; [done|by apply Hg|by apply Hg].
Qed.

Lemma NoDup_concat_filter (P : list Coord → Prop) `{∀ R, Decision (P R)} Rs :
  NoDup (concat Rs) → NoDup (concat (filter P Rs)).
Proof.
  induction Rs as [|R Rs IH]; [done|]. cbn [concat]. rewrite NoDup_app. intros (Hd & Hx & Hds).
  destruct (decide (P R)); [rewrite filter_cons_True by done|rewrite filter_cons_False by done; by apply IH].
  cbn [concat]. apply NoDup_app. split_and!; [done| |by apply IH].
  intros c Hc (R' & [_ HR']%list_elem_of_filter & Hc')%elem_of_concat. apply (Hx c Hc), elem_of_concat. by exists R'.
Qed.

Lemma concat_filter_disjoint (P : list Coord → Prop) `{∀ R, Decision (P R)} Rs c :
  NoDup (concat Rs) → c ∈ concat (filter P Rs) → c ∈ concat (filter (λ R, ¬ P R) Rs) → False.
Proof.
  induction Rs as [|R Rs IH]; cbn [concat]; [intros _ Hc; by apply not_elem_of_nil in Hc|].
  rewrite NoDup_app. intros (_ & Hx & Hds).
  assert (Hsub : ∀ (Q : list Coord → Prop) `{∀ R, Decision (Q R)} c, c ∈ concat (filter Q Rs) → c ∈ concat Rs).
  { intros Q ? d (R' & [_ HR']%list_elem_of_filter & Hc')%elem_of_concat. apply elem_of_concat. by exists R'. }
  destruct (decide (P R)) as [HP|HP].
  - rewrite filter_cons_True, filter_cons_False by (done || (intros ?; done)). cbn [concat].
    intros [Hc|Hc]%elem_of_app Hc'; [by eapply Hx, Hsub|by apply IH].
  - rewrite filter_cons_False, filter_cons_True by done. cbn [concat].
    intros Hc [Hc'|Hc']%elem_of_app; [by eapply Hx, Hsub|by apply IH].
Qed.

(** Two regions of a list that share no cell. *)
Lemma concat_distinct (Rs : list (list Coord)) i j R R' c : NoDup (concat Rs) → i ≠ j →
  Rs !! i = Some R → Rs !! j = Some R' → c ∈ R → c ∈ R' → False.
Proof.
  revert i j. induction Rs as [|R0 Rs IH]; intros i j; cbn [concat]; [done|].
  rewrite NoDup_app. intros (_ & Hx & Hds) Hij Hi Hj Hc Hc'.
  assert (Hin : ∀ k Q, Rs !! k = Some Q → ∀ c, c ∈ Q → c ∈ concat Rs).
  { intros k Q Hk d Hd. apply elem_of_concat. exists Q. split; [by eapply list_elem_of_lookup_2|done]. }
  destruct i as [|i], j as [|j]; cbn in *; simplify_eq.
  - by eapply Hx, Hin.
  - by eapply Hx, Hin.
  - eapply (IH i j); [done|congruence|done..].
Qed.

Lemma find_rooms_separate g0 : binary g0 → let '(g, rooms) := find_rooms g0 in binary g ∧ separate g rooms.
Proof.
  intros Hb. unfold find_rooms. generalize (GetRegions_spec g0 0). generalize (GetRegions g0 0).
  intros Rs (HR & Hd & Hall). pose proof (find_rooms_loop g0 Rs Hb HR) as Hl.
  destruct (foldl add_room _ _) as [g rooms]. destruct Hl as [Hf Hr].
  set (Bs := filter (λ R, ¬ small R) Rs) in *.
  assert (HB : Forall (region_of g0 0) Bs).
  { apply Forall_forall. intros R [_ HRin]%list_elem_of_filter. by eapply Forall_forall in HR. }
  assert (Hcell : ∀ c, c ∈ concat Bs → cell g 0 c).
  { intros c Hc. assert (cell g0 0 c) as [Hm Ht].
    { apply elem_of_concat in Hc as (R & HRin & Hc). eapply Forall_forall in HB; [|done]. by eapply region_of_cell. }
    split; [done|]. rewrite Hf, decide_False; [done|]. intros Hs. by eapply (concat_filter_disjoint small). }
  assert (Hin : ∀ k R, Bs !! k = Some R → ∀ c, c ∈ R → c ∈ concat Bs).
  { intros k R Hk d Hdd. apply elem_of_concat. exists R. split; [by eapply list_elem_of_lookup_2|done]. }
  split.
  { intros c Hc. rewrite Hf. case_decide; [by right|by apply Hb]. }
  split.
  - apply Forall_lookup. intros k r Hk. eapply Forall2_lookup_r in Hr as (R & HBk & [Ht Hsz _ He _]); [|done].
    assert (region_of g0 0 R) as HRk by (eapply Forall_lookup in HB; done).
    split; rewrite ?Ht; [|by intros t Ht'; eapply Hcell, Hin| |done|done].
    + intros ->. destruct (region_of_nonempty g0 0 [] HRk) as [c Hc]. by apply not_elem_of_nil in Hc.
    + intros t t'. apply (conn_region g0); [done|]. intros c Hc. by eapply Hcell, Hin.
  - intros c [Hm Ht]. rewrite Hf in Ht. destruct (decide (c ∈ concat _)) as [|Hn]; [done|].
    assert (c ∈ concat Rs) as Hc by (by apply Hall).
    apply elem_of_concat in Hc as (R & HRin & Hc).
    assert (R ∈ Bs) as [k Hk]%list_elem_of_lookup.
    { apply list_elem_of_filter. split; [|done]. intros Hs. apply Hn, elem_of_concat.
      exists R. split; [by apply list_elem_of_filter|done]. }
    eapply Forall2_lookup_l in Hr as (r & Hrk & [Htl _ _ _ _]); [|done].
    exists r. split; [by eapply list_elem_of_lookup_2|by rewrite Htl].
  - intros Hlen. apply Forall_lookup. intros k r Hk.
    pose proof (Forall2_length _ _ _ Hr) as HL.
    eapply Forall2_lookup_r in Hr as (R & HBk & [_ _ _ _ Hside]); [|done]. apply Hside.
    set (j := if decide (k = 0%nat) then 1%nat else 0%nat).
    assert (j ≠ k) by (subst j; case_decide; lia).
    destruct (lookup_lt_is_Some_2 Bs j) as [R' HBj]; [subst j; case_decide; lia|].
    assert (region_of g0 0 R') as [c Hc]%region_of_nonempty by (eapply Forall_lookup in HB; done).
    exists c. split; [eapply Hcell, Hin; done|]. intros Hc'.
    eapply (concat_distinct Bs j k R' R c); [by apply NoDup_concat_filter|done..].
  - apply Forall_lookup. intros k r Hk. eapply Forall2_lookup_r in Hr as (R & HBk & [_ _ Hnew _ _]); done.
Qed.

(** ** Passages *)

Definition floor_mono (g g' : grid) : Prop := ∀ c, cell g 0 c → cell g' 0 c.

(** The cells of a disc. *)
Definition disc (r : Z) (c d : Coord) : Prop := (d.1 - c.1) * (d.1 - c.1) + (d.2 - c.2) * (d.2 - c.2) ≤ r * r.
#[export] Instance disc_dec r c d : Decision (disc r c d) := Z_le_dec _ _.

Lemma draw_list r ds g c d :
  tile (foldl (λ g d,
    if d.1 * d.1 + d.2 * d.2 <=? r * r then
      let draw := (c.1 + d.1, c.2 + d.2) in
      if IsInMapRange draw then <[draw := 0]> g else g
    else g) g ds) d =
  if decide (in_map d ∧ disc r c d ∧ (d.1 - c.1, d.2 - c.2) ∈ ds) then 0 else tile g d.
Proof.
  revert g. induction ds as [|e ds IH]; intros g; cbn [foldl].
  { rewrite decide_False; [done|]. intros (_ & _ & He). by apply not_elem_of_nil in He. }
  rewrite IH. clear IH.
  assert (Hiff : (d.1 - c.1, d.2 - c.2) = e ↔ d = (c.1 + e.1, c.2 + e.2)).
  { split; [intros <-; apply coord_eq; cbn; lia|intros ->; apply coord_eq; cbn; lia]. }
  destruct (decide (in_map d ∧ disc r c d ∧ (d.1 - c.1, d.2 - c.2) ∈ ds)) as [(H1 & H2 & H3)|Hn].
  { rewrite decide_True; [done|]. split_and!; [done|done|by right]. }
  destruct (decide (in_map d ∧ disc r c d ∧ (d.1 - c.1, d.2 - c.2) ∈ e :: ds)) as [(H1 & H2 & H3)|Hn'].
  - apply elem_of_cons in H3 as [H3|H3]; [|by destruct Hn]. apply Hiff in H3 as Hd.
    destruct (Z.leb_spec (e.1 * e.1 + e.2 * e.2) (r * r)) as [Hle|Hle].
    + cbn zeta. rewrite <- Hd, (proj2 (IsInMapRange_true d) H1), tile_insert. by rewrite decide_True.
    + unfold disc in H2. rewrite <- H3 in Hle. cbn in Hle. lia.
  - destruct (Z.leb_spec (e.1 * e.1 + e.2 * e.2) (r * r)) as [Hle|Hle]; [|done].
    cbn zeta. destruct (IsInMapRange _) eqn:Er; [|done]. rewrite tile_insert. case_decide as Hd; [|done].
    destruct Hn'. apply IsInMapRange_true in Er. subst d. split_and!; [done| |].
    + unfold disc. cbn. replace (c.1 + e.1 - c.1) with e.1 by lia. replace (c.2 + e.2 - c.2) with e.2 by lia. done.
    + apply elem_of_cons. left. by apply Hiff.
Qed.

Lemma square_bound a b r : 0 ≤ r → a * a + b * b ≤ r * r → - r ≤ a ≤ r.
Proof. intros Hr Hs. assert (0 ≤ b * b) by nia. split; apply Z.nlt_ge; intros Hn; nia. Qed.

Lemma DrawCircle_tile r g c d : 0 ≤ r →
  tile (DrawCircle r g c) d = if decide (in_map d ∧ disc r c d) then 0 else tile g d.
Proof.
  intros Hr. unfold DrawCircle. rewrite draw_list.
  destruct (decide (in_map d ∧ disc r c d)) as [[H1 H2]|Hn].
  - rewrite decide_True; [done|]. split_and!; [done|done|]. apply elem_of_loop2. cbn. unfold disc in H2.
    pose proof (square_bound _ _ r Hr H2). rewrite Z.add_comm in H2. pose proof (square_bound _ _ r Hr H2). lia.
  - rewrite decide_False; [done|]. tauto.
Qed.

Lemma DrawCircle_cell r g c d : 0 ≤ r → cell (DrawCircle r g c) 0 d ↔ cell g 0 d ∨ (in_map d ∧ disc r c d).
Proof.
  intros Hr. unfold cell. rewrite DrawCircle_tile by done. case_decide; [|tauto]. split; [|tauto]. intros _. tauto.
Qed.

Lemma draw_line_cell r g ps d : 0 ≤ r →
  cell (foldl (DrawCircle r) g ps) 0 d ↔ cell g 0 d ∨ (in_map d ∧ ∃ p, p ∈ ps ∧ disc r p d).
Proof.
  intros Hr. revert g. induction ps as [|p ps IH]; intros g; cbn [foldl].
  { split; [by left|]. intros [?|(_ & p & Hp & _)]; [done|]. by apply not_elem_of_nil in Hp. }
  rewrite IH, DrawCircle_cell by done. split.
  - intros [[?|[Hm Hd]]|(Hm & q & Hq & Hd)]; [by left|right; split; [done|]; exists p; by split; [left|]|].
    right. split; [done|]. exists q. by split; [right|].
  - intros [?|(Hm & q & [->|Hq]%elem_of_cons & Hd)]; [by left; left|by left; right|].
    right. split; [done|]. by exists q.
Qed.
