(* ===== verification/DungeonProofs.v ===== *)
(** * Every floor of a dungeon can be reached

    The passages carved between the rooms are ways over floor, the search marks the rooms that
    passages lead to from the first, and the passes end with all rooms marked; so the floor of
    a generated map is one connected region, with the spawn position, the props, the lights
    and the portals on it. *)

From stdpp Require Import relations sorting.
From S2P Require Import Prelude Text Dungeon DungeonRegions.

#[local] Open Scope Z_scope.
#[local] Set Warnings "-clear-no-such-hyp".

(** ** Lines *)

Definition swap (c : Coord) : Coord := (c.2, c.1).

Lemma line_swap n st gs L S c acc :
  line_loop n true st gs L S c acc = swap <$> line_loop n false st gs L S (swap c) acc.
Proof.
  revert c acc. induction n as [|n IH]; intros c acc; [done|]. cbn [line_loop fmap list_fmap].
  destruct c as [x y]. unfold swap at 1 3. cbn. destruct (L <=? acc + S); rewrite IH; done.
Qed.

(** The points of a line in closed form. *)
Definition point (c : Coord) (st gs L S acc i : Z) : Coord := (c.1 + i * st, c.2 + (acc + i * S) / L * gs).

Lemma line_points n st gs L S c acc : 0 < L → 0 ≤ S ≤ L → 0 ≤ acc < L →
  line_loop n false st gs L S c acc = point c st gs L S acc <$> seqZ 0 (Z.of_nat n).
Proof.
  intros HL HS. revert c acc. induction n as [|n IH]; intros c acc Hacc; [done|].
  rewrite seqZ_cons by lia. cbn [line_loop fmap list_fmap].
  replace (Z.pred (Z.of_nat (Datatypes.S n))) with (Z.of_nat n) by lia.
  assert (Hshift : ∀ f : Z → Coord, f <$> seqZ (Z.succ 0) (Z.of_nat n) = (λ i, f (i + 1)) <$> seqZ 0 (Z.of_nat n)).
  { intros f. rewrite <- (fmap_add_seqZ 1 0), <- list_fmap_compose. apply list_fmap_ext. intros _ i _. cbn. f_equal. lia. }
  rewrite Hshift. clear Hshift.
  assert (E0 : point c st gs L S acc 0 = c).
  { unfold point. rewrite !Z.mul_0_l, !Z.add_0_r, Z.div_small, Z.mul_0_l, Z.add_0_r by lia. by destruct c. }
  rewrite E0. destruct (Z.leb_spec L (acc + S)); rewrite IH by lia; f_equal; apply list_fmap_ext;
    intros _ i _; unfold point; cbn; f_equal; try lia.
  - replace (acc + (i + 1) * S) with (acc + S - L + i * S + 1 * L) by lia. rewrite Z.div_add by lia. lia.
  - replace (acc + (i + 1) * S) with (acc + S + i * S) by lia. done.
Qed.

Definition king (c d : Coord) : Prop := Z.abs (c.1 - d.1) ≤ 1 ∧ Z.abs (c.2 - d.2) ≤ 1.

(** A way from [a] to [b] by steps to one of the eight neighbours, in the box of the two. *)
Record traces (a b : Coord) (ps : list Coord) (f : Z → Coord) (L : Z) : Prop := {
  tr_nonneg : 0 ≤ L;
  tr_points : ps = f <$> seqZ 0 L;
  tr_start : f 0 = a;
  tr_end : f L = b;
  tr_king : ∀ i, 0 ≤ i < L → king (f i) (f (i + 1));
  tr_box : ∀ i, 0 ≤ i ≤ L → in_map a → in_map b → in_map (f i);
}.

Lemma div_step acc i S L : 0 < L → 0 ≤ S ≤ L → (acc + i * S) / L ≤ (acc + (i + 1) * S) / L ≤ (acc + i * S) / L + 1.
Proof.
  intros HL HS. split; [apply Z.div_le_mono; lia|].
  rewrite <- Z.div_add with (b := 1) by lia. apply Z.div_le_mono; lia.
Qed.

Lemma line_end L S : 0 < L → (L / 2 + L * S) / L = S.
Proof.
  intros HL. rewrite (Z.mul_comm L S), Z.div_add by lia. rewrite Z.div_small; [lia|].
  split; [apply Z.div_pos; lia|apply Z.div_lt; lia].
Qed.

Lemma line_minor L S i : 0 < L → 0 ≤ S → 0 ≤ i ≤ L → 0 ≤ (L / 2 + i * S) / L ≤ S.
Proof.
  intros HL HS Hi. assert (0 ≤ L / 2) by (apply Z.div_pos; lia). split; [apply Z.div_pos; nia|].
  rewrite <- (line_end L S HL) at 2. apply Z.div_le_mono; nia.
Qed.

(** The line whose longer side is the first coordinate. *)
Lemma line_traces a b : a ≠ b → Z.abs (b.2 - a.2) ≤ Z.abs (b.1 - a.1) →
  let L := Z.abs (b.1 - a.1) in
  traces a b (line_loop (Z.to_nat L) false (Z.sgn (b.1 - a.1)) (Z.sgn (b.2 - a.2)) L (Z.abs (b.2 - a.2)) a (L / 2))
    (point a (Z.sgn (b.1 - a.1)) (Z.sgn (b.2 - a.2)) L (Z.abs (b.2 - a.2)) (L / 2)) L.
Proof.
  intros Hne Hle L. assert (HL : 0 < L).
  { unfold L. destruct (decide (b.1 = a.1)) as [E1|]; [|lia]. destruct (decide (b.2 = a.2)); [|lia].
    destruct Hne. symmetry. by apply coord_eq. }
  assert (0 ≤ L / 2 < L) as Hacc by (split; [apply Z.div_pos; lia|apply Z.div_lt; lia]).
  split; unfold point.
  - lia.
  - rewrite line_points by (unfold L in *; lia). by rewrite Z2Nat.id by lia.
  - rewrite !Z.mul_0_l, !Z.add_0_r, Z.div_small by lia. rewrite Z.mul_0_l. destruct a. cbn. f_equal; lia.
  - rewrite line_end by lia. apply coord_eq; cbn; unfold L; lia.
  - intros i Hi. pose proof (div_step (L / 2) i (Z.abs (b.2 - a.2)) L HL ltac:(unfold L; lia)) as Hs.
    unfold king. cbn. set (k := _ / L) in *. set (k' := _ / L) in *.
    destruct (Z.sgn_spec (b.1 - a.1)) as [[_ ->]|[[_ ->]|[_ ->]]], (Z.sgn_spec (b.2 - a.2)) as [[_ ->]|[[_ ->]|[_ ->]]]; lia.
  - intros i Hi Ha Hb. pose proof (line_minor L (Z.abs (b.2 - a.2)) i HL ltac:(lia) Hi) as Hm.
    unfold in_map in *. cbn. set (k := _ / L) in *. unfold L in *.
    destruct (Z.sgn_spec (b.1 - a.1)) as [[? ->]|[[? ->]|[? ->]]], (Z.sgn_spec (b.2 - a.2)) as [[? ->]|[[? ->]|[? ->]]]; lia.
Qed.

Lemma GetLine_traces a b : ∃ f L, traces a b (GetLine a b) f L.
Proof.
  unfold GetLine. destruct (decide (a = b)) as [<-|Hne].
  { exists (λ _, a), 0. rewrite !Z.sub_diag. cbn. split; try done; try lia. }
  destruct (Z.ltb_spec (Z.abs (b.1 - a.1)) (Z.abs (b.2 - a.2))) as [Hlt|Hge].
  - pose proof (line_traces (swap a) (swap b)) as H'. cbn in H'.
    destruct H' as [H1 H2 H3 H4 H5 H6]; [|lia|].
    { intros E. apply Hne. unfold swap in E. injection E. intros. by apply coord_eq. }
    eexists (λ i, swap (point (swap a) _ _ _ _ _ i)), _. split.
    + exact H1.
    + rewrite line_swap, H2. by rewrite <- list_fmap_compose.
    + rewrite H3. by destruct a.
    + rewrite H4. by destruct b.
    + intros i Hi. destruct (H5 i Hi). by split.
    + intros i Hi Ha Hb. pose proof (line_minor (Z.abs (b.2 - a.2)) (Z.abs (b.1 - a.1)) i ltac:(lia) ltac:(lia) Hi) as Hm.
      unfold in_map, point, swap in *. cbn in *. set (k := _ / _) in *.
      destruct (Z.sgn_spec (b.1 - a.1)) as [[? ->]|[[? ->]|[? ->]]], (Z.sgn_spec (b.2 - a.2)) as [[? ->]|[[? ->]|[? ->]]]; lia.
  - eexists _, _. by apply line_traces.
Qed.

(** A passage: the discs along a line of steps to neighbours leave no gap. *)

Lemma conn_touch g c d : cell g 0 c → cell g 0 d → Z.abs (c.1 - d.1) + Z.abs (c.2 - d.2) ≤ 1 → conn g 0 c d.
Proof.
  intros Hc Hd Hn. destruct (decide (c = d)) as [->|Hne]; [apply rtc_refl|].
  apply rtc_once. split_and!; [|done|done]. unfold adj.
  assert (c.1 ≠ d.1 ∨ c.2 ≠ d.2); [|lia].
  destruct (decide (c.1 = d.1)), (decide (c.2 = d.2)); auto. destruct Hne. by apply coord_eq.
Qed.

Lemma disc_one c d : disc 1 c d ↔ Z.abs (c.1 - d.1) + Z.abs (c.2 - d.2) ≤ 1.
Proof.
  unfold disc. set (a := d.1 - c.1). set (b := d.2 - c.2).
  replace (c.1 - d.1) with (- a) by lia. replace (c.2 - d.2) with (- b) by lia. rewrite !Z.abs_opp.
  rewrite <- (Z.abs_square a), <- (Z.abs_square b). pose proof (Z.abs_nonneg a). pose proof (Z.abs_nonneg b).
  generalize dependent (Z.abs a). generalize dependent (Z.abs b). clear a b. intros y Hy x Hx. split; intros Hs.
  - assert (x ≤ 1) by nia. assert (y ≤ 1) by nia. assert (x = 0 ∨ x = 1) as [->| ->] by lia; nia.
  - assert (x = 0 ∨ x = 1) as [->| ->] by lia; nia.
Qed.

Definition passage (g : grid) (a b : Coord) : grid := foldl (DrawCircle PASSAGE_RADIUS) g (GetLine a b).

Lemma passage_cell g a b d : cell (passage g a b) 0 d ↔ cell g 0 d ∨ (in_map d ∧ ∃ p, p ∈ GetLine a b ∧ disc 1 p d).
Proof. by apply draw_line_cell. Qed.

Lemma passage_mono g a b : floor_mono g (passage g a b).
Proof. intros c Hc. apply passage_cell. by left. Qed.

(** The ends of a step are connected through the corner between them. *)
Lemma passage_step g a b c d : in_map d → c ∈ GetLine a b → cell (passage g a b) 0 c →
  cell (passage g a b) 0 d → king c d → conn (passage g a b) 0 c d.
Proof.
  intros Hd Hin Hc Hcd [H1 H2].
  assert (cell (passage g a b) 0 (d.1, c.2)) as Hm.
  { apply passage_cell. right. split.
    - destruct Hc as [Hc _]. unfold in_map in *. cbn. lia.
    - exists c. split; [done|]. apply disc_one. cbn. lia. }
  eapply rtc_trans; apply conn_touch; try done; cbn; lia.
Qed.

Lemma passage_way g a b f L : traces a b (GetLine a b) f L → cell g 0 a → cell g 0 b →
  ∀ i, 0 ≤ i ≤ L → cell (passage g a b) 0 (f i) ∧ conn (passage g a b) 0 a (f i).
Proof.
  intros [HL Hps H0 HE Hk Hb] Ha Hbc.
  assert (Hpt : ∀ i, 0 ≤ i < L → f i ∈ GetLine a b).
  { intros i Hi. rewrite Hps. apply list_elem_of_fmap. exists i. split; [done|]. apply elem_of_seqZ. lia. }
  assert (Hmap : ∀ i, 0 ≤ i ≤ L → in_map (f i)) by (intros i Hi; apply Hb; [done|apply Ha|apply Hbc]).
  assert (Hcell : ∀ i, 0 ≤ i ≤ L → cell (passage g a b) 0 (f i)).
  { intros i Hi. destruct (decide (i = L)) as [->|]; [rewrite HE; by apply passage_mono|].
    apply passage_cell. right. split; [by apply Hmap|]. exists (f i). split; [apply Hpt; lia|].
    apply disc_one. lia. }
  intros i [Hi HiL]. split; [by apply Hcell|]. revert i Hi HiL.
  apply (natlike_ind (λ i, i ≤ L → conn (passage g a b) 0 a (f i))).
  { intros _. rewrite H0. apply rtc_refl. }
  intros i Hi IH HiL. eapply rtc_trans; [apply IH; lia|]. apply passage_step.
  - apply Hmap; lia.
  - apply Hpt; lia.
  - apply Hcell; lia.
  - apply Hcell; lia.
  - rewrite <- Z.add_1_r. apply Hk; lia.
Qed.

(** The passage connects its ends, and what it opens is connected to them. *)
Lemma passage_connects g a b : cell g 0 a → cell g 0 b →
  conn (passage g a b) 0 a b ∧ ∀ d, cell (passage g a b) 0 d → cell g 0 d ∨ conn (passage g a b) 0 a d.
Proof.
  intros Ha Hb. destruct (GetLine_traces a b) as (f & L & Ht).
  pose proof (passage_way g a b f L Ht Ha Hb) as Hw. split.
  - rewrite <- (tr_end _ _ _ _ _ Ht) at 2. apply Hw. split; [apply (tr_nonneg _ _ _ _ _ Ht)|lia].
  - intros d Hd. destruct (proj1 (passage_cell g a b d) Hd) as [|(Hm & p & Hp & Hdisc)]; [by left|right].
    rewrite (tr_points _ _ _ _ _ Ht) in Hp. apply list_elem_of_fmap in Hp as (i & -> & Hi).
    apply elem_of_seqZ in Hi. destruct (Hw i ltac:(lia)) as [Hc Hr].
    eapply rtc_trans; [exact Hr|]. apply conn_touch; [done|done|by apply disc_one].
Qed.

Lemma passage_binary g a b : binary g → binary (passage g a b).
Proof.
  unfold passage. generalize (GetLine a b). intros ps. revert g. induction ps as [|p ps IH]; intros g Hg; [done|].
  cbn [foldl]. apply IH. intros c Hc. rewrite DrawCircle_tile by done. case_decide; [by left|by apply Hg].
Qed.

(** ** The search that marks accessible rooms *)

Definition accessible (rooms : list Room) (i : nat) : bool := isAccessibleFromMainRoom (room_at rooms i).
Definition lk (rooms : list Room) : relation nat := λ i j, j ∈ connectedRoomIndices (room_at rooms i).
Definition in_range (rooms : list Room) : Prop := ∀ i j, lk rooms i j → (j < length rooms)%nat.

(** The rooms that are not marked. *)
Definition count (rooms : list Room) : nat := length (filter (λ r, isAccessibleFromMainRoom r = false) rooms).

Definition unmark (r : Room) : Room :=
  mkRoom (tiles r) (edgeTiles r) (connectedRoomIndices r) (roomSize r) false (isMainRoom r).

(** [rooms'] marks what is reachable from [src]: nothing else changes, and what it marks is
    closed under the connections. *)
Record marking (rooms rooms' : list Room) (src : list nat) : Prop := {
  mk_same : unmark <$> rooms' = unmark <$> rooms;
  mk_mono : ∀ i, accessible rooms i = true → accessible rooms' i = true;
  mk_src : ∀ i, i ∈ src → accessible rooms' i = true;
  mk_sound : ∀ i, accessible rooms' i = true → accessible rooms i = true ∨ ∃ s, s ∈ src ∧ rtc (lk rooms) s i;
  mk_closed : ∀ i j, accessible rooms' i = true → accessible rooms i = false → lk rooms i j → accessible rooms' j = true;
}.

Lemma room_at_unmark rooms rooms' i : unmark <$> rooms' = unmark <$> rooms →
  unmark (room_at rooms' i) = unmark (room_at rooms i).
Proof.
  intros E. apply (f_equal (λ l, default (unmark no_room) (l !! i))) in E. revert E.
  rewrite !list_lookup_fmap. unfold room_at. by destruct (rooms' !! i), (rooms !! i).
Qed.

Lemma lk_unmark rooms rooms' i j : unmark <$> rooms' = unmark <$> rooms → lk rooms' i j ↔ lk rooms i j.
Proof.
  intros E. apply (room_at_unmark _ _ i), (f_equal connectedRoomIndices) in E. unfold lk. cbn in E. by rewrite E.
Qed.

Lemma length_unmark rooms rooms' : unmark <$> rooms' = unmark <$> rooms → length rooms' = length rooms.
Proof. intros E. apply (f_equal length) in E. by rewrite !length_fmap in E. Qed.

Lemma accessible_lookup rooms i r : rooms !! i = Some r → accessible rooms i = isAccessibleFromMainRoom r.
Proof. unfold accessible, room_at. by intros ->. Qed.

Lemma count_cons r rooms : count (r :: rooms) = if isAccessibleFromMainRoom r then count rooms else S (count rooms).
Proof. unfold count. rewrite filter_cons. case_decide as E; destruct (isAccessibleFromMainRoom r); done. Qed.

Lemma count_mono rooms rooms' : length rooms' = length rooms →
  (∀ i, accessible rooms i = true → accessible rooms' i = true) → (count rooms' ≤ count rooms)%nat.
Proof.
  revert rooms'. induction rooms as [|r rooms IH]; intros [|r' rooms'] HL Hm; try done.
  specialize (IH rooms' ltac:(cbn in HL; lia) (λ i, Hm (S i))). specialize (Hm O). unfold accessible in Hm. cbn in Hm.
  rewrite !count_cons. destruct (isAccessibleFromMainRoom r), (isAccessibleFromMainRoom r'); try lia.

Qed.

Lemma count_less rooms rooms' k : length rooms' = length rooms →
  (∀ i, accessible rooms i = true → accessible rooms' i = true) →
  accessible rooms k = false → accessible rooms' k = true → (count rooms' < count rooms)%nat.
Proof.
  revert rooms' k. induction rooms as [|r rooms IH]; intros [|r' rooms'] k HL Hm Hk Hk'; try done.
  pose proof (count_mono rooms rooms' ltac:(cbn in HL; lia) (λ i, Hm (S i))) as Hle.
  rewrite !count_cons. destruct k as [|k]; [unfold accessible in Hk, Hk'; cbn in Hk, Hk'; rewrite Hk, Hk'; lia|].
  specialize (IH rooms' k ltac:(cbn in HL; lia) (λ i, Hm (S i)) Hk Hk'). specialize (Hm O). unfold accessible in Hm. cbn in Hm.
  destruct (isAccessibleFromMainRoom r), (isAccessibleFromMainRoom r'); try lia.
Qed.

Lemma marking_nil rooms : marking rooms rooms [].
Proof.
  split; [done|done| |by left|by intros i j ->].
  intros i Hi. by apply not_elem_of_nil in Hi.
Qed.

Lemma marking_app rooms rooms1 rooms2 s1 s2 : marking rooms rooms1 s1 → marking rooms1 rooms2 s2 →
  marking rooms rooms2 (s1 ++ s2).
Proof.
  intros [E1 M1 S1 O1 C1] [E2 M2 S2 O2 C2]. split.
  - by rewrite E2.
  - auto.
  - intros i [Hi|Hi]%elem_of_app; auto.
  - intros i Hi. destruct (O2 i Hi) as [Hi1|(s & Hs & Hr)].
    + destruct (O1 i Hi1) as [|(s & Hs & Hr)]; [by left|right]. exists s. split; [apply elem_of_app; by left|done].
    + right. exists s. split; [apply elem_of_app; by right|]. eapply rtc_subrel; [|exact Hr].
      intros x y. by apply lk_unmark.
  - intros i j Hi Hn Hl. destruct (accessible rooms1 i) eqn:Ei.
    + apply M2. by eapply C1.
    + eapply C2; [exact Hi|done|]. by apply (lk_unmark rooms rooms1).
Qed.

Lemma marking_fold f cis rooms (HQ : ∀ ci rooms1, ci ∈ cis → unmark <$> rooms1 = unmark <$> rooms →
    (count rooms1 ≤ count rooms)%nat → marking rooms1 (f rooms1 ci) [ci]) :
  marking rooms (foldl f rooms cis) cis.
Proof.
  induction cis as [|ci cis IH] using rev_ind; [apply marking_nil|]. rewrite foldl_snoc.
  assert (Hm : marking rooms (foldl f rooms cis) cis).
  { apply IH. intros c rooms1 Hc. apply HQ, elem_of_app. by left. }
  eapply marking_app; [exact Hm|]. destruct Hm as [E M _ _ _].
  apply HQ; [apply elem_of_app; right; by left|done|]. apply count_mono; [by apply length_unmark|done].
Qed.

Lemma unmark_alter (rooms : list Room) i : unmark <$> alter set_accessible i rooms = unmark <$> rooms.
Proof.
  apply list_eq. intros k. rewrite !list_lookup_fmap. destruct (decide (k = i)) as [->|].
  - rewrite list_lookup_alter_eq. by destruct (rooms !! i).
  - by rewrite list_lookup_alter_ne by congruence.
Qed.

Lemma accessible_alter rooms i k : (i < length rooms)%nat →
  accessible (alter set_accessible i rooms) k = if decide (k = i) then true else accessible rooms k.
Proof.
  intros [r Hr]%lookup_lt_is_Some_2. unfold accessible, room_at. case_decide as E; [subst|].
  - by rewrite list_lookup_alter_eq, Hr.
  - by rewrite list_lookup_alter_ne by congruence.
Qed.

Lemma marking_self rooms i cis : (i < length rooms)%nat → accessible rooms i = false →
  (∀ j, lk rooms i j ↔ j ∈ cis) → ∀ rooms', marking (alter set_accessible i rooms) rooms' cis → marking rooms rooms' [i].
Proof.
  intros Hi Hn Hl rooms' [E M S O C].
  assert (Hlk : ∀ a b, lk (alter set_accessible i rooms) a b ↔ lk rooms a b).
  { intros a b. apply lk_unmark, unmark_alter. }
  split.
  - by rewrite E, unmark_alter.
  - intros k Hk. apply M. rewrite accessible_alter by done. by case_decide.
  - intros k ->%list_elem_of_singleton. apply M. rewrite accessible_alter by done. by rewrite decide_True.
  - intros k Hk. destruct (O k Hk) as [Hk'|(s & Hs%Hl & Hr)].
    + rewrite accessible_alter in Hk' by done. case_decide as Ek; [|by left]. right. exists i.
      split; [by left|]. subst. apply rtc_refl.
    + right. exists i. split; [by left|]. eapply rtc_l; [exact Hs|]. eapply rtc_subrel; [|exact Hr].
      intros x y. by rewrite Hlk.
  - intros a b Ha Hna Hab. destruct (decide (a = i)) as [->|Hne].
    + apply S. by apply Hl.
    + eapply C; [exact Ha| |by apply Hlk]. rewrite accessible_alter by done. by rewrite decide_False.
Qed.

Lemma setAccessible_spec fuel idx rooms : in_range rooms → (idx < length rooms)%nat → (count rooms < fuel)%nat →
  marking rooms (setAccessible fuel idx rooms) [idx].
Proof.
  revert idx rooms. induction fuel as [|fuel IH]; intros idx rooms Hr Hi Hf; [lia|]. cbn [setAccessible].
  destruct (isAccessibleFromMainRoom _) eqn:E.
  { split; [done|done|by intros i ->%list_elem_of_singleton|by left|by intros i j ->]. }
  apply (marking_self rooms idx (connectedRoomIndices (room_at rooms idx))); [done|done|done|]. apply marking_fold. intros ci rooms1 Hci E1 Hc.
  rewrite unmark_alter in E1. pose proof (length_unmark _ _ E1) as HL.
  apply IH.
  - intros i j Hij. apply (lk_unmark rooms rooms1 i j E1), Hr in Hij. lia.
  - apply Hr in Hci. lia.
  - assert (count (alter set_accessible idx rooms) < count rooms)%nat; [|lia].
    apply (count_less _ _ idx); [by rewrite length_alter| |done|].
    + intros k Hk. rewrite accessible_alter by done. by case_decide.
    + rewrite accessible_alter by done. by rewrite decide_True.
Qed.

(** ** Connecting the rooms *)

Lemma room_ok_mono g g' r : floor_mono g g' → room_ok g r → room_ok g' r.
Proof. intros Hm [H1 H2 H3 H4 H5]. split; eauto using conn_mono. Qed.

Lemma room_ok_connection g i r : room_ok g r → room_ok g (add_connection i r).
Proof. intros []. by split. Qed.

Lemma room_ok_unmark g r : room_ok g (unmark r) ↔ room_ok g r.
Proof. split; intros []; by split. Qed.

(** The rooms while they are connected: connections are mutual and are ways over floor, and
    all floor leads to a room. *)
Record linked (g : grid) (rooms : list Room) : Prop := {
  li_some : (0 < length rooms)%nat;
  li_rooms : Forall (room_ok g) rooms;
  li_side : (2 ≤ length rooms)%nat → Forall (λ r, edgeTiles r ≠ []) rooms;
  li_range : in_range rooms;
  li_sym : ∀ i j, lk rooms i j → lk rooms j i;
  li_conn : ∀ i j t t', lk rooms i j → t ∈ tiles (room_at rooms i) → t' ∈ tiles (room_at rooms j) → conn g 0 t t';
  li_floor : ∀ c, cell g 0 c → ∃ i t, t ∈ tiles (room_at rooms i) ∧ conn g 0 t c;
}.

(** The marked rooms are those that connections lead to from the first. *)
Record marked (rooms : list Room) : Prop := {
  ma_main : accessible rooms 0 = true;
  ma_sound : ∀ i, accessible rooms i = true → rtc (lk rooms) 0%nat i;
  ma_closed : ∀ i j, accessible rooms i = true → lk rooms i j → accessible rooms j = true;
}.

(** The rooms after a connection is added on both sides. *)
Definition join (a b : nat) (rooms : list Room) : list Room := alter (add_connection a) b (alter (add_connection b) a rooms).

Lemma room_at_alter (f : Room → Room) i k rooms : (i < length rooms)%nat →
  room_at (alter f i rooms) k = if decide (k = i) then f (room_at rooms k) else room_at rooms k.
Proof.
  intros [r Hr]%lookup_lt_is_Some_2. unfold room_at. case_decide; [subst|].
  - by rewrite list_lookup_alter_eq, Hr.
  - by rewrite list_lookup_alter_ne by congruence.
Qed.

Lemma length_join a b rooms : length (join a b rooms) = length rooms.
Proof. unfold join. by rewrite !length_alter. Qed.

Lemma join_lk a b rooms i j : (a < length rooms)%nat → (b < length rooms)%nat →
  lk (join a b rooms) i j ↔ lk rooms i j ∨ (i = a ∧ j = b) ∨ (i = b ∧ j = a).
Proof.
  intros Ha Hb. unfold lk, join. rewrite room_at_alter by (by rewrite length_alter). rewrite room_at_alter by done.
  repeat case_decide; subst; cbn; rewrite ?elem_of_app, ?list_elem_of_singleton; intuition congruence.
Qed.

Lemma join_room a b rooms k : (a < length rooms)%nat → (b < length rooms)%nat →
  tiles (room_at (join a b rooms) k) = tiles (room_at rooms k) ∧
  accessible (join a b rooms) k = accessible rooms k.
Proof.
  intros Ha Hb. unfold accessible, join. rewrite room_at_alter by (by rewrite length_alter). rewrite room_at_alter by done.
  repeat case_decide; done.
Qed.

Lemma Forall_alter_room (P : Room → Prop) f i rooms : (∀ r, P r → P (f r)) → Forall P rooms → Forall P (alter f i rooms).
Proof. intros Hf HP. apply Forall_alter; [done|]. intros r _ Hr. by apply Hf. Qed.

Lemma Forall_unmark (P : Room → Prop) rooms rooms' : (∀ r, P (unmark r) ↔ P r) →
  unmark <$> rooms' = unmark <$> rooms → Forall P rooms → Forall P rooms'.
Proof.
  intros HP E HR. assert (Forall P (unmark <$> rooms)) as H' by (apply Forall_fmap; eapply Forall_impl; [exact HR|]; intros r; apply HP).
  rewrite <- E, Forall_fmap in H'. unfold compose in H'. eapply Forall_impl; [exact H'|]. intros r. apply HP.
Qed.

Lemma room_at_ok g rooms i t : Forall (room_ok g) rooms → t ∈ tiles (room_at rooms i) → room_ok g (room_at rooms i).
Proof.
  intros HR Ht. unfold room_at in *. destruct (rooms !! i) as [r|] eqn:E; [by eapply Forall_lookup in HR|].
  by apply not_elem_of_nil in Ht.
Qed.

Lemma room_at_floor g rooms i t : Forall (room_ok g) rooms → t ∈ tiles (room_at rooms i) → cell g 0 t.
Proof. intros HR Ht. exact (rk_floor _ _ (room_at_ok g rooms i t HR Ht) t Ht). Qed.

Lemma room_at_conn g rooms i t t' : Forall (room_ok g) rooms → t ∈ tiles (room_at rooms i) → t' ∈ tiles (room_at rooms i) → conn g 0 t t'.
Proof. intros HR Ht. exact (rk_conn _ _ (room_at_ok g rooms i t HR Ht) t t' Ht). Qed.

Lemma linked_unmark g rooms rooms' : unmark <$> rooms' = unmark <$> rooms → linked g rooms → linked g rooms'.
Proof.
  intros E [H1 H2 H3 H4 H5 H6 H7]. pose proof (length_unmark _ _ E) as HL.
  assert (HT : ∀ i, tiles (room_at rooms' i) = tiles (room_at rooms i)).
  { intros i. by apply (room_at_unmark _ _ i), (f_equal tiles) in E. }
  assert (HK : ∀ i j, lk rooms' i j ↔ lk rooms i j) by (intros; by apply lk_unmark).
  split; rewrite ?HL.
  - done.
  - eapply Forall_unmark; [apply room_ok_unmark|exact E|done].
  - intros H'. eapply Forall_unmark; [|exact E|by apply H3]. done.
  - intros i j ?%HK%H4. lia.
  - intros i j ?%HK%H5. by apply HK.
  - intros i j t t' Hk%HK. rewrite !HT. by apply H6.
  - intros c Hc. destruct (H7 c Hc) as (i & t & Ht & Hn). exists i, t. by rewrite HT.
Qed.

Lemma linked_join g rooms a b tA tB : linked g rooms → (a < length rooms)%nat → (b < length rooms)%nat →
  tA ∈ tiles (room_at rooms a) → tB ∈ tiles (room_at rooms b) → linked (passage g tA tB) (join a b rooms).
Proof.
  intros [H1 H2 H3 H4 H5 H6 H7] Ha Hb HtA HtB.
  pose proof (passage_mono g tA tB) as Hm.
  destruct (passage_connects g tA tB) as [HAB Hnew].
  { by eapply room_at_floor. }
  { by eapply room_at_floor. }
  assert (HT : ∀ i, tiles (room_at (join a b rooms) i) = tiles (room_at rooms i)) by (intros; by apply join_room).
  assert (Hin : ∀ i t t', t ∈ tiles (room_at rooms i) → t' ∈ tiles (room_at rooms i) → conn (passage g tA tB) 0 t t').
  { intros i t t' Ht Ht'. eapply conn_mono; [exact Hm|]. by eapply room_at_conn. }
  assert (Hway : ∀ t t', t ∈ tiles (room_at rooms a) → t' ∈ tiles (room_at rooms b) → conn (passage g tA tB) 0 t t').
  { intros t t' Ht Ht'. eapply rtc_trans; [by eapply (Hin a t tA)|]. eapply rtc_trans; [exact HAB|]. by eapply Hin. }
  split; rewrite ?length_join.
  - done.
  - unfold join. do 2 (apply Forall_alter_room; [by intros r; apply room_ok_connection|]).
    eapply Forall_impl; [exact H2|]. intros r. by apply room_ok_mono.
  - intros H'. unfold join. by do 2 (apply Forall_alter_room; [done|]); apply H3.
  - intros i j. rewrite length_join, join_lk by done. intros [Hl|[[-> ->]|[-> ->]]]; [by eapply H4|done|done].
  - intros i j. rewrite !join_lk by done. intros [Hl|[[-> ->]|[-> ->]]]; [left; by apply H5|by right; right|by right; left].
  - intros i j t t'. rewrite join_lk, !HT by done. intros [Hl|[[-> ->]|[-> ->]]] Ht Ht'.
    + eapply conn_mono; [exact Hm|]. by eapply H6.
    + by apply Hway.
    + by apply conn_sym, Hway.
  - intros c Hc. destruct (Hnew c Hc) as [Ho|Hr].
    + destruct (H7 c Ho) as (i & t & Ht & Hn). exists i, t. rewrite HT. split; [done|]. by eapply conn_mono.
    + exists a, tA. by rewrite HT.
Qed.

(** Marking the room [s] that was joined to the marked room [o]. *)
Lemma marked_join rooms rooms1 rooms2 o s : marked rooms → accessible rooms o = true →
  (∀ i, accessible rooms1 i = accessible rooms i) →
  (∀ i j, lk rooms1 i j ↔ lk rooms i j ∨ (i = o ∧ j = s) ∨ (i = s ∧ j = o)) →
  marking rooms1 rooms2 [s] → marked rooms2.
Proof.
  intros [H1 H2 H3] Ho HA HK [E M S O C].
  assert (HK2 : ∀ i j, lk rooms2 i j ↔ lk rooms1 i j) by (intros; by apply lk_unmark).
  assert (Hacc : ∀ i, accessible rooms i = true → accessible rooms2 i = true) by (intros i Hi; apply M; by rewrite HA).
  assert (Hsub : ∀ i, rtc (lk rooms) 0%nat i → rtc (lk rooms2) 0%nat i).
  { intros i Hi. eapply rtc_subrel; [|exact Hi]. intros x y Hxy. apply HK2, HK. by left. }
  split; [by apply Hacc| |].
  - intros i [Hi|(k & ->%list_elem_of_singleton & Hr)]%O; [rewrite HA in Hi; by apply Hsub, H2|].
    eapply rtc_trans; [by apply Hsub, H2|]. eapply rtc_l; [apply HK2, HK; right; by left|].
    eapply rtc_subrel; [|exact Hr]. intros x y. by rewrite HK2.
  - intros i j Hi Hl%HK2. destruct (accessible rooms1 i) eqn:Ei; [|by eapply C].
    apply HK in Hl as [Hl|[[-> ->]|[-> ->]]]; [|by apply S; left|by apply Hacc].
    rewrite HA in Ei. apply Hacc. by eapply H3.
Qed.

Lemma marked_neither rooms rooms1 a b : marked rooms → accessible rooms a = false → accessible rooms b = false →
  (∀ i, accessible rooms1 i = accessible rooms i) →
  (∀ i j, lk rooms1 i j ↔ lk rooms i j ∨ (i = a ∧ j = b) ∨ (i = b ∧ j = a)) → marked rooms1.
Proof.
  intros [H1 H2 H3] Ha Hb HA HK. split; [by rewrite HA| |].
  - intros i Hi. rewrite HA in Hi. eapply rtc_subrel; [|by apply H2]. intros x y Hxy. apply HK. by left.
  - intros i j. rewrite !HA, HK. intros Hi [Hl|[[-> ->]|[-> ->]]]; [by eapply H3|congruence|congruence].
Qed.

(** What a passage does. *)
Record grown (g : grid) (rooms : list Room) (g' : grid) (rooms' : list Room) : Prop := {
  gr_linked : linked g' rooms';
  gr_marked : marked rooms';
  gr_length : length rooms' = length rooms;
  gr_mono : ∀ i, accessible rooms i = true → accessible rooms' i = true;
  gr_binary : binary g → binary g';
}.

Lemma CreatePassage_grown g rooms a b tA tB : linked g rooms → marked rooms →
  (a < length rooms)%nat → (b < length rooms)%nat →
  tA ∈ tiles (room_at rooms a) → tB ∈ tiles (room_at rooms b) →
  let '(g', rooms') := CreatePassage a b tA tB g rooms in
  grown g rooms g' rooms' ∧ (accessible rooms b = true → accessible rooms' a = true).
Proof.
  intros HL HM Ha Hb HtA HtB. pose proof (linked_join g rooms a b tA tB HL Ha Hb HtA HtB) as HJ.
  unfold CreatePassage. fold (join a b rooms). fold (passage g tA tB). fold (accessible (join a b rooms) a).
  fold (accessible (join a b rooms) b). rewrite !(proj2 (join_room a b rooms _ Ha Hb)).
  assert (HA : ∀ i, accessible (join a b rooms) i = accessible rooms i) by (intros; by apply join_room).
  pose proof (λ i j, join_lk a b rooms i j Ha Hb) as HK.
  assert (Hgr : ∀ s o rooms', (s = a ∧ o = b) ∨ (s = b ∧ o = a) → accessible rooms o = true →
    marking (join a b rooms) rooms' [s] → grown g rooms (passage g tA tB) rooms' ∧ accessible rooms' s = true).
  { intros s o rooms' Hso Ho Hmk. split; [split|by eapply mk_src; [|left]].
    - by eapply linked_unmark; [eapply mk_same|].
    - eapply (marked_join rooms _ _ o s); [done|done|done| |exact Hmk]. intros i j. rewrite HK.
      destruct Hso as [[-> ->]|[-> ->]]; tauto.
    - erewrite length_unmark by (by eapply mk_same). by rewrite length_join.
    - intros i Hi. eapply mk_mono; [exact Hmk|]. by rewrite HA.
    - apply passage_binary. }
  assert (HMk : ∀ s, (s < length rooms)%nat → marking (join a b rooms) (setAccessible (S (length (join a b rooms))) s (join a b rooms)) [s]).
  { intros s Hs. apply setAccessible_spec; [apply HJ|by rewrite length_join|]. unfold count.
    apply Nat.lt_succ_r, length_filter. }
  destruct (accessible rooms a) eqn:Ea; [|destruct (accessible rooms b) eqn:Eb].
  - destruct (Hgr b a _ ltac:(by right) Ea (HMk b Hb)) as [HG Hs]. split; [done|]. intros _. by eapply gr_mono.
  - destruct (Hgr a b _ ltac:(by left) Eb (HMk a Ha)) as [HG Hs]. by split.
  - split; [|done]. split; [done|by eapply (marked_neither rooms _ a b)|by rewrite length_join|by intros i; rewrite HA|apply passage_binary].
Qed.

(** The search for the closest pair of tiles: a pair it holds is one of the lists, and it
    holds one as soon as there is a pair to consider. *)

Definition best_ok (rooms : list Room) (P : nat → nat → Prop) (b : best) : Prop :=
  found b = true →
  bestTileA b ∈ edgeTiles (room_at rooms (bestRoomA b)) ∧
  bestTileB b ∈ edgeTiles (room_at rooms (bestRoomB b)) ∧ P (bestRoomA b) (bestRoomB b).

Lemma foldl_inv {A B} (I : A → Prop) (f : A → B → A) bs a : I a → (∀ a b, b ∈ bs → I a → I (f a b)) → I (foldl f a bs).
Proof.
  revert a. induction bs as [|b bs IH]; intros a Ha Hf; [done|]. cbn [foldl]. apply IH.
  - apply Hf; [by left|done].
  - intros a' b' Hb'. apply Hf. by right.
Qed.

Lemma consider_found iA iB b tA tB : found (consider iA iB b tA tB) = true.
Proof. unfold consider. destruct (found b) eqn:E; destruct (_ <? _); cbn; done. Qed.

Lemma search_ok rooms P iA iB b : P iA iB → best_ok rooms P b → best_ok rooms P (search rooms iA b iB).
Proof.
  intros HP Hb. unfold search. do 2 (case_bool_decide; [done|]).
  apply foldl_inv; [done|]. intros b1 tA HA Hb1. apply foldl_inv; [done|]. intros b2 tB HB Hb2.
  unfold consider. by destruct (_ || _).
Qed.

Lemma search_mono rooms iA iB b : found b = true → found (search rooms iA b iB) = true.
Proof.
  intros Hb. unfold search. do 2 (case_bool_decide; [done|]).
  apply (foldl_inv (λ b, found b = true)); [done|]. intros b1 tA HA Hb1.
  apply (foldl_inv (λ b, found b = true)); [done|]. intros. apply consider_found.
Qed.

Lemma foldl_last_true {A B} (f : A → B → A) (p : A → bool) bs b a : b ∈ bs →
  (∀ a, p (f a b) = true) → (∀ a b, p a = true → p (f a b) = true) → p (foldl f a bs) = true.
Proof.
  intros Hin Hb Hm. apply list_elem_of_split in Hin as (l1 & l2 & ->). rewrite foldl_app. cbn [foldl].
  apply foldl_inv; [apply Hb|]. intros a' b' _. apply Hm.
Qed.

Lemma search_finds rooms iA iB b : iA ≠ iB → ¬ lk rooms iA iB →
  edgeTiles (room_at rooms iA) ≠ [] → edgeTiles (room_at rooms iB) ≠ [] → found (search rooms iA b iB) = true.
Proof.
  intros Hne Hl HA HB. unfold search. rewrite !bool_decide_false by done.
  destruct (edgeTiles (room_at rooms iA)) as [|tA tAs]; [done|]. destruct (edgeTiles (room_at rooms iB)) as [|tB tBs]; [done|].
  apply (foldl_last_true _ found _ tA); [by left| |].
  - intros b1. apply (foldl_last_true _ found _ tB); [by left| |]; intros; apply consider_found.
  - intros b1 t Hb1. apply (foldl_inv (λ b, found b = true)); [done|]. intros. apply consider_found.
Qed.

Lemma room_at_edge g rooms i t : linked g rooms → t ∈ edgeTiles (room_at rooms i) → t ∈ tiles (room_at rooms i).
Proof.
  intros HL Ht. unfold room_at in *. destruct (rooms !! i) as [r|] eqn:E; [|by apply not_elem_of_nil in Ht].
  pose proof (li_rooms _ _ HL) as HR. eapply Forall_lookup in HR; [|done]. by eapply rk_edge.
Qed.

(** *** The first pass *)

Lemma connect_one_grown g0 rooms0 g rooms b idxA : grown g0 rooms0 g rooms → (idxA < length rooms0)%nat →
  let '(g', rooms', _) := connect_one false (seq 0 (length rooms0)) (g, rooms, b) idxA in grown g0 rooms0 g' rooms'.
Proof.
  intros HG HA. cbn [connect_one negb andb]. case_bool_decide; [done|].
  assert (Hok : best_ok rooms (λ a b, (a < length rooms)%nat ∧ (b < length rooms)%nat)
                 (foldl (search rooms idxA) (forget b) (seq 0 (length rooms0)))).
  { apply foldl_inv; [done|]. intros b1 j [_ Hj]%elem_of_seq Hb1. rewrite <- (gr_length _ _ _ _ HG) in *.
    apply search_ok; [cbn in Hj; lia|done]. }
  destruct (foldl _ _ _) as [d tA tB a j [|]]; [|done]. cbn [found andb bestRoomA bestRoomB bestTileA bestTileB].
  destruct (Hok eq_refl) as (HtA & HtB & Ha & Hj). cbn [bestRoomA bestRoomB bestTileA bestTileB] in *. destruct HG as [G1 G2 G3 G4 G5].
  pose proof (CreatePassage_grown g rooms a j tA tB G1 G2 Ha Hj (room_at_edge _ _ _ _ G1 HtA) (room_at_edge _ _ _ _ G1 HtB)) as Hc.
  destruct (CreatePassage _ _ _ _ _ _) as [g' rooms']. destruct Hc as [[C1 C2 C3 C4 C5] _].
  split; [done|done|by rewrite C3|auto|auto].
Qed.

Lemma first_pass g rooms all : linked g rooms → marked rooms → (∀ i, i ∈ all → (i < length rooms)%nat) →
  ∀ b, let '(g', rooms', _) := foldl (connect_one false (seq 0 (length rooms))) (g, rooms, b) all in grown g rooms g' rooms'.
Proof.
  intros HL HM. induction all as [|i all IH] using rev_ind; intros Hall b; [by split|].
  rewrite foldl_snoc. specialize (IH ltac:(intros; apply Hall, elem_of_app; by left) b).
  destruct (foldl _ _ all) as [[g' rooms'] b']. apply connect_one_grown; [done|].
  apply Hall, elem_of_app. right. by left.
Qed.

(** *** The forced passes *)

Lemma forced_search g rooms listA listB b : foldl (connect_one true listB) (g, rooms, b) listA =
  (g, rooms, foldl (λ b i, foldl (search rooms i) b listB) b listA).
Proof.
  revert b. induction listA as [|i listA IH]; intros b; [done|]. cbn [foldl connect_one negb andb].
  rewrite andb_false_r. apply IH.
Qed.

(** A pass that finds no pair has no room left to connect. *)
Lemma forced_none g rooms listA listB : linked g rooms → marked rooms →
  (∀ i, i ∈ listA ↔ (i < length rooms)%nat ∧ accessible rooms i = false) →
  (∀ i, i ∈ listB ↔ (i < length rooms)%nat ∧ accessible rooms i = true) →
  found (foldl (λ b i, foldl (search rooms i) b listB) no_best listA) = false →
  ∀ i, (i < length rooms)%nat → accessible rooms i = true.
Proof.
  intros HL HM HA HB Hf i Hi. destruct (accessible rooms i) eqn:Ei; [done|exfalso].
  assert (Hi0 : i ≠ 0%nat) by (intros ->; by rewrite (ma_main _ HM) in Ei).
  assert (He : ∀ k, (k < length rooms)%nat → edgeTiles (room_at rooms k) ≠ []).
  { intros k [r Hr]%lookup_lt_is_Some_2. unfold room_at. rewrite Hr. cbn.
    pose proof (li_side _ _ HL ltac:(lia)) as Hs. by eapply Forall_lookup in Hs. }
  rewrite (foldl_last_true _ found _ i) in Hf; [done|by apply HA| |].
  - intros b. apply (foldl_last_true _ found _ 0%nat).
    + apply HB. split; [lia|apply HM].
    + intros b'. apply search_finds; [done| |apply He; lia|apply He; lia].
      intros Hl%(li_sym _ _ HL). by rewrite (ma_closed _ HM _ _ (ma_main _ HM) Hl) in Ei.
    + intros. by apply search_mono.
  - intros b k Hb. apply (foldl_inv (λ b, found b = true)); [done|]. intros. by apply search_mono.
Qed.

Lemma forced_found rooms listA listB :
  best_ok rooms (λ a b, a ∈ listA ∧ b ∈ listB) (foldl (λ b i, foldl (search rooms i) b listB) no_best listA).
Proof.
  apply foldl_inv; [done|]. intros b i Hi Hb. apply foldl_inv; [done|]. intros b' j Hj Hb'. by apply search_ok.
Qed.

(** Every pass marks a room, so that there are at most as many as rooms. *)
Lemma connect_forced_all fuel g rooms : linked g rooms → marked rooms → (count rooms < fuel)%nat →
  ∃ g' rooms', connect_forced fuel g rooms = Some (g', rooms') ∧ grown g rooms g' rooms' ∧
    ∀ i, (i < length rooms')%nat → accessible rooms' i = true.
Proof.
  revert g rooms. induction fuel as [|fuel IH]; intros g rooms HL HM Hf; [lia|]. cbn [connect_forced].
  rewrite forced_search. set (listB := filter _ _). set (listA := filter _ _).
  assert (HA : ∀ i, i ∈ listA ↔ (i < length rooms)%nat ∧ accessible rooms i = false).
  { intros i. unfold listA. rewrite list_elem_of_filter, elem_of_seq. unfold accessible. split; intros []; split; (done || lia). }
  assert (HB : ∀ i, i ∈ listB ↔ (i < length rooms)%nat ∧ accessible rooms i = true).
  { intros i. unfold listB. rewrite list_elem_of_filter, elem_of_seq. unfold accessible. split; intros []; split; (done || lia). }
  pose proof (forced_found rooms listA listB) as Hok. pose proof (forced_none g rooms listA listB HL HM HA HB) as Hno.
  destruct (foldl _ _ _) as [d tA tB a b [|]]; cbn [found bestRoomA bestRoomB bestTileA bestTileB] in *.
  - destruct (Hok eq_refl) as (HtA & HtB & [Ha Hna]%HA & [Hb Hacc]%HB).
    cbn [bestRoomA bestRoomB bestTileA bestTileB] in *.
    pose proof (CreatePassage_grown g rooms a b tA tB HL HM Ha Hb (room_at_edge _ _ _ _ HL HtA) (room_at_edge _ _ _ _ HL HtB)) as Hc.
    destruct (CreatePassage _ _ _ _ _ _) as [g1 rooms1]. destruct Hc as [[C1 C2 C3 C4 C5] Ha'].
    destruct (IH g1 rooms1 C1 C2) as (g' & rooms' & -> & [D1 D2 D3 D4 D5] & Hall).
    { pose proof (count_less rooms rooms1 a C3 C4 Hna (Ha' Hacc)). lia. }
    exists g', rooms'. split_and!; [done| |done]. split; [done|done|by rewrite D3|auto|auto].
  - exists g, rooms. split_and!; [done|by split|by apply Hno].
Qed.

(** ** The map *)

(** A map that can be played: all of its floor is one region, and its rooms lie on it. *)
Record playable (g : grid) (rooms : list Room) : Prop := {
  pl_binary : binary g;
  pl_rooms : Forall (room_ok g) rooms;
  pl_floor : ∀ c d, cell g 0 c → cell g 0 d → conn g 0 c d;
}.

Lemma room_ok_set_main g r : room_ok g r → room_ok g (set_main r).
Proof. intros []. by split. Qed.

Lemma start_linked g rooms : separate g rooms → rooms ≠ [] →
  linked g (alter set_main 0%nat rooms) ∧ marked (alter set_main 0%nat rooms).
Proof.
  intros [H1 H2 H3 H4] Hne. assert (HL : (0 < length rooms)%nat) by (destruct rooms; [done|cbn; lia]).
  assert (Hno : ∀ i j, ¬ lk (alter set_main 0%nat rooms) i j).
  { intros i j. unfold lk. rewrite room_at_alter by done.
    assert (connectedRoomIndices (room_at rooms i) = []) as E.
    { unfold room_at. destruct (rooms !! i) eqn:E; [|done]. eapply Forall_lookup in H4; [|done]. apply H4. }
    case_decide; cbn; rewrite E; apply not_elem_of_nil. }
  split; split; rewrite ?length_alter.
  - done.
  - apply Forall_alter_room; [apply room_ok_set_main|done].
  - intros H'. by apply Forall_alter_room; [|apply H3].
  - intros i j []%Hno.
  - intros i j []%Hno.
  - intros i j t t' []%Hno.
  - intros c (r & [i Hi]%list_elem_of_lookup & Hc)%H2. exists i, c. split; [|apply rtc_refl].
    rewrite room_at_alter by done. unfold room_at. rewrite Hi. by case_decide.
  - unfold accessible. by rewrite room_at_alter, decide_True.
  - intros i. unfold accessible. rewrite room_at_alter by done. case_decide as E; [intros _; subst; apply rtc_refl|].
    unfold room_at. destruct (rooms !! i) eqn:Ei; [|done]. eapply Forall_lookup in H4 as [_ Hf]; [|done]. cbn. by rewrite Hf.
  - intros i j _ []%Hno.
Qed.

Lemma separate_permutation g rooms rooms' : rooms' ≡ₚ rooms → separate g rooms → separate g rooms'.
Proof.
  intros HP [H1 H2 H3 H4]. split; rewrite ?HP; try done.
  intros c (r & Hr & Hc)%H2. exists r. by rewrite HP.
Qed.

Lemma linked_path g rooms i j t t' : linked g rooms → rtc (lk rooms) i j →
  t ∈ tiles (room_at rooms i) → t' ∈ tiles (room_at rooms j) → conn g 0 t t'.
Proof.
  intros HL Hr. revert t. induction Hr as [i|i k j Hik Hkj IH]; intros t Ht Ht'.
  { eapply room_at_conn; [apply HL|done|done]. }
  assert (∃ u, u ∈ tiles (room_at rooms k)) as [u Hu].
  { apply (li_range _ _ HL) in Hik as [r Hrk]%lookup_lt_is_Some_2.
    pose proof (li_rooms _ _ HL) as HR. eapply Forall_lookup in HR; [|exact Hrk]. unfold room_at. rewrite Hrk. cbn.
    pose proof (rk_some _ _ HR). destruct (tiles r) as [|u ?]; [done|]. exists u. by left. }
  eapply rtc_trans; [by eapply (li_conn _ _ HL i k t u)|by apply IH].
Qed.

Lemma linked_playable g rooms : linked g rooms → marked rooms → binary g →
  (∀ i, (i < length rooms)%nat → accessible rooms i = true) → playable g rooms.
Proof.
  intros HL HM Hb Hall. split; [done|apply HL|].
  assert (∃ t0, t0 ∈ tiles (room_at rooms 0)) as [t0 Ht0].
  { destruct (lookup_lt_is_Some_2 rooms 0 (li_some _ _ HL)) as [r Hr].
    pose proof (li_rooms _ _ HL) as HR. eapply Forall_lookup in HR; [|exact Hr]. unfold room_at. rewrite Hr. cbn.
    pose proof (rk_some _ _ HR). destruct (tiles r) as [|u ?]; [done|]. exists u. by left. }
  assert (H0 : ∀ c, cell g 0 c → conn g 0 t0 c).
  { intros c (i & t & Ht & Hn)%(li_floor _ _ HL). eapply rtc_trans; [|exact Hn].
    apply (linked_path g rooms 0 i t0 t HL); [|done|done]. apply (ma_sound _ HM), Hall.
    unfold room_at in Ht. destruct (rooms !! i) eqn:E; [by eapply lookup_lt_Some|by apply not_elem_of_nil in Ht]. }
  intros c d Hc Hd. eapply rtc_trans; [apply conn_sym; by apply H0|by apply H0].
Qed.

Lemma ConnectClosestRooms_playable g rooms : linked g rooms → marked rooms → binary g →
  ∃ g' rooms', ConnectClosestRooms g rooms = Some (g', rooms') ∧ playable g' rooms' ∧ rooms' ≠ [].
Proof.
  intros HL HM Hb. unfold ConnectClosestRooms.
  pose proof (first_pass g rooms (seq 0 (length rooms)) HL HM ltac:(intros i Hi%elem_of_seq; lia) no_best) as Hf.
  destruct (foldl _ _ _) as [[g1 rooms1] b]. destruct Hf as [C1 C2 C3 C4 C5].
  destruct (connect_forced_all (S (length rooms1)) g1 rooms1 C1 C2) as (g' & rooms' & -> & [D1 D2 D3 D4 D5] & Hall).
  { unfold count. apply Nat.lt_succ_r, length_filter. }
  exists g', rooms'. split_and!; [done|apply linked_playable; auto|].
  pose proof (li_some _ _ D1). by destruct rooms'; [cbn in *; lia|].
Qed.

Lemma ProcessMap_playable sort g : (∀ l, sort l ≡ₚ l) → binary g →
  ∃ g' rooms', ProcessMap sort g = Some (g', rooms') ∧ playable g' rooms' ∧
    (rooms' = [] → ∀ c, in_map c → tile g' c = 1).
Proof.
  intros Hs Hb. unfold ProcessMap. pose proof (find_rooms_separate _ (binary_walls g Hb)) as Hf.
  destruct (find_rooms _) as [g1 rooms1]. destruct Hf as [Hb1 Hsep]. case_bool_decide as E.
  - subst. assert (Hno : ∀ c, ¬ cell g1 0 c).
    { intros c (r & Hr & _)%(se_floor _ _ Hsep). by apply not_elem_of_nil in Hr. }
    exists g1, []. split_and!; [done| |].
    + split; [done|constructor|]. intros c d []%Hno.
    + intros _ c Hc. destruct (Hb1 c Hc) as [Hz|]; [|done]. by destruct (Hno c).
  - destruct (start_linked g1 (sort rooms1)) as [HL HM].
    { eapply separate_permutation; [apply Hs|done]. }
    { intros E'. specialize (Hs rooms1). rewrite E' in Hs. by apply E, Permutation_nil. }
    destruct (ConnectClosestRooms_playable _ _ HL HM Hb1) as (g' & rooms' & -> & Hp & Hne).
    exists g', rooms'. by split_and!.
Qed.

(** ** Generation *)

Section Generation.
Context `{RngOk}.

Lemma binary_insert g c v : v = 0 ∨ v = 1 → binary g → binary (<[c := v]> g).
Proof. intros Hv Hb d Hd. rewrite tile_insert. case_decide; [done|by apply Hb]. Qed.

Lemma binary_empty : binary ∅.
Proof. intros c _. by left. Qed.

Lemma RandomFillMap_binary depth g r : binary g → binary (RandomFillMap depth g r).1.
Proof.
  intros Hb. unfold RandomFillMap. apply (foldl_inv (λ st : grid * rng, binary st.1)); [done|].
  intros [g1 r1] c _ Hg. cbn [fst] in *. destruct (border c); [apply binary_insert; auto|].
  destruct (uniform_int 0 99 r1) as [d r2]. apply binary_insert; [destruct (_ <? _); auto|done].
Qed.

Lemma SmoothMap_binary g : binary g → binary (SmoothMap g).
Proof.
  intros Hb. unfold SmoothMap. apply foldl_inv; [apply binary_empty|]. intros g1 c Hc%elem_of_all_cells Hg.
  apply binary_insert; [|done]. destruct (_ >? _); [by right|]. destruct (_ <? _); [by left|by apply Hb].
Qed.

Lemma smoothed_binary n g : binary g → binary (Nat.iter n SmoothMap g).
Proof. intros Hb. induction n; [done|]. cbn. by apply SmoothMap_binary. Qed.

(** A position in the world that is floor. *)
Definition on_floor (g : grid) (w : Coord) : Prop := ∃ t, cell g 0 t ∧ w = GridToWorld t.

Lemma FindSpawnPosition_floor g room rooms : room_ok g room → on_floor g (FindSpawnPosition g (room :: rooms)).
Proof.
  intros [Hs Hf _ _ _]. unfold FindSpawnPosition. eexists. split; [|reflexivity]. apply Hf.
  apply (foldl_inv (λ b : Z * Coord, b.2 ∈ tiles room)).
  - cbn. destruct (tiles room) as [|t ts]; [done|]. by left.
  - intros b t Ht Hb. unfold better_spawn. by destruct (_ >? _).
Qed.

Lemma draw_tile_in n room used r : tiles room ≠ [] → (draw_tile n room used r).1 ∈ tiles room.
Proof.
  intros Hne. assert (Hd : ∀ r, default (0, 0) (tiles room !! Z.to_nat (uniform_int 0 (zlen (tiles room) - 1) r).1) ∈ tiles room).
  { intros r'. assert (0 < zlen (tiles room)) by (unfold zlen; destruct (tiles room); [done|cbn; lia]).
    pose proof (uniform_int_range 0 (zlen (tiles room) - 1) r' ltac:(lia)) as Hr. unfold zlen in Hr.
    destruct (lookup_lt_is_Some_2 (tiles room) (Z.to_nat (uniform_int 0 (zlen (tiles room) - 1) r').1)) as [t Ht].
    { unfold zlen. lia. }
    rewrite Ht. by eapply list_elem_of_lookup_2. }
  revert r. induction n as [|[|n] IH]; intros r; cbn [draw_tile]; specialize (Hd r); destruct (uniform_int _ _ r) as [i r']; cbn [fst] in *; [done|done|].
  case_bool_decide; [apply IH|done].
Qed.

Lemma room_props_floor n g room used r : room_ok g room →
  Forall (λ p, on_floor g (prop_x p, prop_z p)) (room_props n room used r).1.
Proof.
  intros Hr. revert used r. induction n as [|n IH]; intros used r; [constructor|]. cbn [room_props].
  pose proof (draw_tile_in 20 room used r (rk_some _ _ Hr)) as Ht. destruct (draw_tile 20 room used r) as [t r1].
  destruct (uniform_int 0 4 r1) as [ty r2]. destruct (uniform_int 0 3 r2) as [rot r3].
  specialize (IH ({[t]} ∪ used) r3). destruct (room_props n room _ r3) as [props r4]. cbn [fst] in *.
  constructor; [|done]. exists t. split; [by eapply rk_floor|]. by destruct (GridToWorld t).
Qed.

Lemma PlaceProps_floor g rooms r : Forall (room_ok g) rooms →
  Forall (λ p, on_floor g (prop_x p, prop_z p)) (PlaceProps g rooms r).1.
Proof.
  intros HR. unfold PlaceProps. set (I := λ st : list PropData * rng, Forall (λ p, on_floor g (prop_x p, prop_z p)) st.1).
  match goal with |- context [foldl ?f ([], r) rooms] => assert (HI : I (foldl f ([], r) rooms)) end.
  { apply (foldl_inv I); [constructor|]. intros [props r1] room Hin Hp. rewrite Forall_forall in HR.
    pose proof (room_props_floor (Z.to_nat (Z.max 2 (Z.min (roomSize room / 12) 15))) g room ∅ r1 (HR room Hin)) as Hm.
    destruct (room_props _ room ∅ r1) as [more r2]. apply Forall_app. by split. }
  destruct (foldl _ ([], r) rooms) as [props r1]. apply (foldl_inv I); [done|].
  intros [props' r2] c Hc%elem_of_all_cells Hp. unfold corner_prop. destruct (Z.eqb_spec (tile g c) 0) as [Ez|]; [|done].
  cbn [negb]. destruct (_ <=? 3); [|done]. destruct (chance r2) as [[|] r3]; [|done].
  destruct (uniform_int 0 4 r3) as [ty r4]. destruct (uniform_angle r4) as [an r5].
  apply Forall_app. split; [done|]. constructor; [|constructor]. exists c. split; [by split|]. by destruct (GridToWorld c).
Qed.

Lemma room_lights_floor n li stride depth g room r : room_ok g room → 0 ≤ li → 1 ≤ stride →
  Forall (λ l, on_floor g (light_x l, light_z l)) (room_lights n li stride depth room r).1.
Proof.
  intros Hr Hli Hst. revert li r Hli. induction n as [|n IH]; intros li r Hli; [constructor|]. cbn [room_lights].
  destruct (uniform_colour 0 depth r) as [c0 r0]. destruct (uniform_colour 1 depth r0) as [c1 r1].
  destruct (uniform_colour 2 depth r1) as [c2 r2]. specialize (IH (li + 1) r2 ltac:(lia)).
  destruct (room_lights n _ _ _ _ r2) as [lights r3]. constructor; [|done]. cbn [light_x light_z].
  assert (0 < zlen (tiles room)) by (unfold zlen; pose proof (rk_some _ _ Hr); destruct (tiles room); [done|cbn; lia]).
  assert (0 ≤ stride / 2) by (apply Z.div_pos; lia). assert (0 ≤ li * stride) by nia.
  set (idx := Z.min _ _). destruct (lookup_lt_is_Some_2 (tiles room) (Z.to_nat idx)) as [t Ht].
  { unfold idx, zlen in *. lia. }
  rewrite Ht. exists t. split; [eapply rk_floor; [done|by eapply list_elem_of_lookup_2]|]. by destruct (GridToWorld _).
Qed.

Lemma passage_lights_floor g rooms : Forall (λ l, on_floor g (light_x l, light_z l)) (passage_lights g rooms).
Proof.
  unfold passage_lights. generalize (roomTileSet rooms) as seen. intros seen. apply Forall_forall.
  intros l (c & Hl & Hc)%list_elem_of_bind. apply list_elem_of_filter in Hc as [_ Hc%elem_of_all_cells].
  destruct (Z.eqb_spec (tile g c) 0) as [Ez|]; [|by apply not_elem_of_nil in Hl]. cbn [negb] in Hl.
  case_bool_decide; [by apply not_elem_of_nil in Hl|]. apply list_elem_of_singleton in Hl as ->.
  exists c. split; [by split|]. by destruct (GridToWorld c).
Qed.

Lemma PlaceLights_floor depth g rooms r : Forall (room_ok g) rooms →
  Forall (λ l, on_floor g (light_x l, light_z l)) (PlaceLights depth g rooms r).1.
Proof.
  intros HR. unfold PlaceLights. pose proof (passage_lights_floor g rooms) as Hp. revert Hp.
  generalize (passage_lights g rooms) as more. intros more Hp.
  set (I := λ st : list LightData * rng, Forall (λ l, on_floor g (light_x l, light_z l)) st.1).
  match goal with |- context [foldl ?f ([], r) rooms] => assert (HI : I (foldl f ([], r) rooms)) end.
  { apply (foldl_inv I); [constructor|]. intros [lights r1] room Hin Hl. rewrite Forall_forall in HR.
    match goal with |- context [room_lights ?n 0 ?s depth room r1] =>
      pose proof (room_lights_floor n 0 s depth g room r1 (HR room Hin) ltac:(lia) ltac:(lia)) as Hm;
      destruct (room_lights n 0 s depth room r1) as [more' r2] end.
    apply Forall_app. by split. }
  destruct (foldl _ ([], r) rooms) as [lights r1]. apply Forall_app. by split.
Qed.

(** *** Portals *)

Definition apart (p q : PortalData) : Prop := kMinSeparation ≤ dist2 (portal_x p, portal_z p) (portal_x q, portal_z q).

Record portals_ok (n : Z) (g : grid) (spawn : Coord) (ps : list PortalData) : Prop := {
  po_floor : Forall (λ p, on_floor g (portal_x p, portal_z p)) ps;
  po_spawn : Forall (λ p, 36 ≤ dist2 (portal_x p, portal_z p) spawn) ps;
  po_apart : ForallOrdPairs apart ps;
  po_count : zlen ps ≤ Z.max 0 n;
}.

Lemma candidates_spec g spawn d w : (d, w) ∈ candidates g spawn → on_floor g w ∧ d = dist2 w spawn.
Proof.
  unfold candidates. intros (c & Hc & Hl%elem_of_loop2)%list_elem_of_bind.
  destruct (Z.eqb_spec (tile g c) 0) as [Ez|]; [|by apply not_elem_of_nil in Hc]. cbn [negb] in Hc.
  destruct (_ <? 15); [by apply not_elem_of_nil in Hc|]. apply list_elem_of_singleton in Hc. injection Hc as -> ->.
  split; [|done]. exists c. split; [|done]. split; [|done]. unfold in_map, GRID_WIDTH, GRID_HEIGHT in *. lia.
Qed.

Lemma ForallOrdPairs_snoc {A} (R : A → A → Prop) l x : ForallOrdPairs R l → Forall (λ y, R y x) l → ForallOrdPairs R (l ++ [x]).
Proof.
  induction 1 as [|y l Hy Hl IH]; intros Hx; [repeat constructor|].
  apply Forall_cons in Hx as [Hyx Hx]. cbn. constructor; [|by apply IH].
  apply Forall_app. by split; [|constructor].
Qed.

Lemma place_ok n g spawn cs ps : (∀ d w, (d, w) ∈ cs → on_floor g w ∧ d = dist2 w spawn) →
  portals_ok n g spawn ps → portals_ok n g spawn (place n cs ps).
Proof.
  revert ps. induction cs as [|[d w] cs IH]; intros ps Hcs Hok; [done|]. cbn [place].
  destruct (Z.leb_spec n (zlen ps)) as [|Hn]; [done|]. destruct (Z.ltb_spec d 36) as [|Hd]; [done|].
  destruct (Hcs d w ltac:(by left)) as [Hf ->].
  assert (Hcs' : ∀ d w, (d, w) ∈ cs → on_floor g w ∧ d = dist2 w spawn) by (intros d' w' Hin; apply Hcs; by right).
  destruct (existsb _ _) eqn:E; apply IH; try done. destruct Hok as [O1 O2 O3 O4]. destruct w as [wx wz]. split.
  - apply Forall_app. split; [done|]. by constructor.
  - apply Forall_app. split; [done|]. by constructor.
  - apply ForallOrdPairs_snoc; [done|]. apply Forall_forall. intros p Hp. unfold apart. cbn.
    apply Z.nlt_ge. intros Hlt. apply not_true_iff_false in E. apply E, existsb_exists. exists p.
    split; [by apply list_elem_of_In|]. by apply Z.ltb_lt.
  - unfold zlen in *. rewrite length_app. cbn. lia.
Qed.

Lemma PlacePortals_ok sort n g spawn : (∀ l, sort l ≡ₚ l) → portals_ok n g spawn (PlacePortals sort n g spawn).
Proof.
  intros Hs. unfold PlacePortals. apply place_ok.
  - intros d w. rewrite Hs. apply candidates_spec.
  - split; [constructor|constructor|constructor|]. unfold zlen. cbn. lia.
Qed.

Lemma GetRandomFloorPosition_floor g rooms r w r' : Forall (room_ok g) rooms →
  GetRandomFloorPosition g rooms r = Some (w, r') → on_floor g w.
Proof.
  intros HR. assert (Hall : ∀ t, t ∈ rooms ≫= tiles → cell g 0 t).
  { intros t (room & Ht & Hin)%list_elem_of_bind. rewrite Forall_forall in HR. by eapply rk_floor; [apply HR|]. }
  unfold GetRandomFloorPosition. set (open := filter _ _).
  assert (Hopen : ∀ t, t ∈ (if bool_decide (open = []) then rooms ≫= tiles else open) → cell g 0 t).
  { intros t. case_bool_decide; [apply Hall|]. intros [_ Ht]%list_elem_of_filter. by apply Hall. }
  destruct (if bool_decide (open = []) then _ else open) as [|t0 ts] eqn:E; [by rewrite bool_decide_true by done|].
  rewrite bool_decide_false by done. pose proof (uniform_int_range 0 (zlen (t0 :: ts) - 1) r) as Hr.
  destruct (uniform_int _ _ r) as [i r1]. intros [= <- _]. cbn [fst] in Hr. unfold zlen in Hr. cbn [length] in Hr.
  destruct (lookup_lt_is_Some_2 (t0 :: ts) (Z.to_nat i)) as [t Ht]; [cbn [length]; lia|].
  rewrite Ht. exists t. split; [|done]. apply Hopen. by eapply list_elem_of_lookup_2.
Qed.

(** Generation ends with a map that can be played. *)
Lemma Generate_playable sort_rooms sort_candidates numPortals depth r :
  (∀ l, sort_rooms l ≡ₚ l) → (∀ l, sort_candidates l ≡ₚ l) →
  ∃ d, Generate sort_rooms sort_candidates numPortals depth r = Some d ∧
    playable (map_ d) (survivingRooms_ d) ∧
    (survivingRooms_ d = [] → ∀ c, in_map c → tile (map_ d) c = 1) ∧
    (survivingRooms_ d ≠ [] → on_floor (map_ d) (spawn_ d)) ∧
    Forall (λ p, on_floor (map_ d) (prop_x p, prop_z p)) (props_ d) ∧
    Forall (λ l, on_floor (map_ d) (light_x l, light_z l)) (lights_ d) ∧
    portals_ok numPortals (map_ d) (spawn_ d) (portals_ d).
Proof.
  intros Hs Hc. unfold Generate. pose proof (RandomFillMap_binary depth ∅ r binary_empty) as Hb.
  destruct (RandomFillMap depth ∅ r) as [g0 r0]. cbn [fst] in Hb.
  destruct (ProcessMap_playable sort_rooms _ Hs (smoothed_binary SMOOTH_ITERATIONS g0 Hb)) as (g & rooms & -> & P & Hnil).
  cbn [mbind option_bind]. pose proof (pl_rooms _ _ P) as P2. pose proof (PlaceProps_floor g rooms r0 P2) as Hp.
  destruct (PlaceProps g rooms r0) as [props r1]. pose proof (PlaceLights_floor depth g rooms r1 P2) as Hli.
  destruct (PlaceLights depth g rooms r1) as [lights r2]. eexists. split; [reflexivity|].
  cbn [map_ survivingRooms_ spawn_ props_ lights_ portals_]. split_and!; [done|done| |done|done|by apply PlacePortals_ok].
  intros Hne. destruct rooms as [|room rooms]; [done|]. apply FindSpawnPosition_floor. by apply Forall_cons in P2 as [].
Qed.

(** C26: generation ends for every seed, depth and number of portals, whatever order the sort
    gives to equal elements.  The floor of the map is one region: a way over floor leads from
    each floor cell to each other.  The spawn position and the positions for monsters are on
    the floor (a map without rooms is solid), and so are all props and lights; the portals, at most as
    many as asked for, are on the floor, away from the spawn position and from each other. *)
Theorem dungeon_connected sort_rooms sort_candidates numPortals depth r :
  (∀ l, sort_rooms l ≡ₚ l) → (∀ l, sort_candidates l ≡ₚ l) →
  ∃ d, Generate sort_rooms sort_candidates numPortals depth r = Some d ∧
    binary (map_ d) ∧
    (∀ c e, cell (map_ d) 0 c → cell (map_ d) 0 e → conn (map_ d) 0 c e) ∧
    (survivingRooms_ d = [] → ∀ c, in_map c → tile (map_ d) c = 1) ∧
    (survivingRooms_ d ≠ [] → on_floor (map_ d) (spawn_ d)) ∧
    Forall (λ p, on_floor (map_ d) (prop_x p, prop_z p)) (props_ d) ∧
    Forall (λ l, on_floor (map_ d) (light_x l, light_z l)) (lights_ d) ∧
    portals_ok numPortals (map_ d) (spawn_ d) (portals_ d) ∧
    ∀ r1 w r2, GetRandomFloorPosition (map_ d) (survivingRooms_ d) r1 = Some (w, r2) → on_floor (map_ d) w.
Proof.
  intros Hs Hc. destruct (Generate_playable sort_rooms sort_candidates numPortals depth r Hs Hc)
    as (d & Hd & [P1 P2 P3] & Hrest). exists d. destruct Hrest as (Hnil & Hsp & Hp & Hl & Hpo). repeat (split; [assumption|]).
  intros r1 w r2. by apply GetRandomFloorPosition_floor.
Qed.
End Generation.

(** A random engine that counts. *)
Definition counter : Rng := {|
  rng := Z;
  uniform_int lo hi r := (lo + r mod (hi - lo + 1), r + 1);
  uniform_angle r := (r mod 360, r + 1);
  chance r := (Z.even r, r + 1);
  uniform_colour _ _ r := (r mod 256, r + 1);
|}.

Lemma counter_ok : @RngOk counter.
Proof. intros lo hi r Hle. cbn. pose proof (Z.mod_pos_bound r (hi - lo + 1) ltac:(lia)). lia. Qed.

Lemma dungeon_connected_witness : ∃ d, @Generate counter (λ l, l) (λ l, l) 3 1 7 = Some d ∧
  ∀ c e, cell (map_ d) 0 c → cell (map_ d) 0 e → conn (map_ d) 0 c e.
Proof.
  destruct (@dungeon_connected counter counter_ok (λ l, l) (λ l, l) 3 1 7 (λ l, reflexivity l) (λ l, reflexivity l)) as (d & Hd & _ & Hc & _).
  exists d. exact (conj Hd Hc).
Defined.

(** A passage between two cells beside the border opens cells of the border. *)
Example border_opened : let g := <[(0, 5) := 1]> (<[(1, 5) := 0]> (<[(1, 8) := 0]> ∅)) in
  border (0, 5) = true ∧ tile g (0, 5) = 1 ∧
  tile (foldl (DrawCircle PASSAGE_RADIUS) g (GetLine (1, 5) (1, 8))) (0, 5) = 0.
Proof. vm_compute. done. Qed.
