(* ===== verification/AStar.v ===== *)
(** * Path search of the bots

    [BotManager::AStarSearch] of
    [app/examples/game/dungeon_full_server/src/game/bot_manager.cpp]: A* over the floor of a
    dungeon, with nodes left in the queue when a shorter way to their cell was found.

    The costs are whole numbers below the number of cells, which a [float] holds exactly, so
    they are integers here; a cost that was never set is [None] where the code has the
    greatest [float].  The comparison with a margin of [0.001f] is a strict comparison of
    whole numbers.  [std::priority_queue] leaves open which of the least elements is the
    first, so it is a parameter with that law. *)

From stdpp Require Import relations.
From S2P Require Import Prelude Dungeon DungeonRegions DungeonProofs.

#[local] Open Scope Z_scope.
#[local] Set Warnings "-clear-no-such-hyp".

(** Source: app/examples/game/dungeon_full_server/src/game/bot_manager.cpp:57-61, Node. *)
Record Node := mkNode { node_at : Coord; node_f : Z }.

(** What is taken from a priority queue is a least element, and nothing else is lost. *)
Class PriorityQueue := pop : list Node → option (Node * list Node).

Class PriorityQueueOk `{PriorityQueue} : Prop := {
  pop_none : ∀ q, pop q = None → q = [];
  pop_some : ∀ q n rest, pop q = Some (n, rest) → q ≡ₚ n :: rest ∧ ∀ m, m ∈ rest → node_f n ≤ node_f m;
}.

Section Search.
Context `{PriorityQueue} (dungeon : grid).

(** Source: app/examples/game/dungeon_full_server/src/game/bot_manager.cpp:52-52, idx. *)
Definition idx (c : Coord) : Z := c.2 * GRID_WIDTH + c.1.

(** The estimate of the way that is left. *)
Definition heuristic (goal c : Coord) : Z := Z.abs (c.1 - goal.1) + Z.abs (c.2 - goal.2).

(** The vectors [g] and [parent] and the queue [open]. *)
Record search_state := mkSearch { cost : gmap Z Z; parent : gmap Z Z; open : list Node }.

(** Source: app/examples/game/dungeon_full_server/src/game/bot_manager.cpp:67-68, AStarSearch. *)
Definition directions : list Coord := [(0, 1); (0, -1); (1, 0); (-1, 0)].

(** Source: app/examples/game/dungeon_full_server/src/game/bot_manager.cpp:78-88, AStarSearch.
    A neighbour of the cell [c]. *)
Definition relax (goal c : Coord) (s : search_state) (d : Coord) : search_state :=
  let n := (c.1 + d.1, c.2 + d.2) in
  if (n.1 <? 0) || (GRID_WIDTH <=? n.1) || (n.2 <? 0) || (GRID_HEIGHT <=? n.2) then s else
  if negb (GetTile dungeon n =? 0) then s else
  let ng := default 0 (cost s !! idx c) + 1 in
  if match cost s !! idx n with Some old => ng <? old | None => true end then
    mkSearch (<[idx n := ng]> (cost s)) (<[idx n := idx c]> (parent s))
      (mkNode n (ng + heuristic goal n) :: open s)
  else s.

(** Source: app/examples/game/dungeon_full_server/src/game/bot_manager.cpp:70-90, AStarSearch.
    A cell is expanded once and puts four nodes in the queue at most. *)
Fixpoint search_loop (fuel : nat) (goal : Coord) (s : search_state) : option search_state :=
  match fuel with
  | O => None
  | S fuel =>
    match pop (open s) with
    | None => Some s
    | Some (n, rest) =>
      let c := node_at n in
      let s := mkSearch (cost s) (parent s) rest in
      if bool_decide (c = goal) then Some s else
      if match cost s !! idx c with Some k => k <? node_f n - heuristic goal c | None => false end
      then search_loop fuel goal s
      else search_loop fuel goal (foldl (relax goal c) s directions)
    end
  end.

(** Source: app/examples/game/dungeon_full_server/src/game/bot_manager.cpp:94-100, AStarSearch.
    The loop from the goal back to the start, with the path in its final order; [None] when it
    does not end. *)
Fixpoint walk_back (fuel : nat) (parent : gmap Z Z) (start cur : Z) (path : list Coord) : option (list Coord) :=
  match fuel with
  | O => None
  | S fuel =>
    if cur =? start then Some path else
    if cur =? -1 then Some [] else
    walk_back fuel parent start (default (-1) (parent !! cur)) ((cur mod GRID_WIDTH, cur / GRID_WIDTH) :: path)
  end.

(** Source: app/examples/game/dungeon_full_server/src/game/bot_manager.cpp:40-101, BotManager::AStarSearch.
    Every step back lowers the cost. *)
Definition AStarSearch (start goal : Coord) : option (list Coord) :=
  if (start.1 <? 0) || (GRID_WIDTH <=? start.1) || (start.2 <? 0) || (GRID_HEIGHT <=? start.2) then Some [] else
  if (goal.1 <? 0) || (GRID_WIDTH <=? goal.1) || (goal.2 <? 0) || (GRID_HEIGHT <=? goal.2) then Some [] else
  if negb (GetTile dungeon goal =? 0) then Some [] else
  if bool_decide (start = goal) then Some [] else
  s ← search_loop (5 * length all_cells + 2) goal
        (mkSearch {[idx start := 0]} ∅ [mkNode start (heuristic goal start)]);
  match cost s !! idx goal with
  | None => Some []
  | Some k => walk_back (S (Z.to_nat k)) (parent s) (idx start) (idx goal) []
  end.

(** A step over floor: the cell that is left may be any. *)
Definition step : relation Coord := λ c d, adj c d ∧ in_map d ∧ GetTile dungeon d = 0.

(** A path leads from a cell over its cells to its last. *)
Fixpoint walks (c : Coord) (path : list Coord) (d : Coord) : Prop :=
  match path with
  | [] => c = d
  | n :: path => step c n ∧ walks n path d
  end.

Lemma walks_snoc c path d e : walks c path d → step d e → walks c (path ++ [e]) e.
Proof. revert c. induction path as [|n path IH]; intros c; cbn; [by intros ->|]. intros [Hn Hw] He. auto. Qed.

Lemma walks_nsteps c path d : walks c path d → nsteps step (length path) c d.
Proof.
  revert c. induction path as [|n path IH]; intros c; cbn; [intros ->; constructor|].
  intros [Hn Hw]. econstructor; [done|by apply IH].
Qed.

(** ** Cells by number *)

Lemma idx_range c : in_map c → 0 ≤ idx c.
Proof. unfold in_map, idx, GRID_WIDTH, GRID_HEIGHT. lia. Qed.

Lemma idx_cell c : in_map c → (idx c mod GRID_WIDTH, idx c / GRID_WIDTH) = c.
Proof.
  intros [H1 H2]. unfold idx. apply coord_eq; cbn.
  - rewrite Z.add_comm, Z.mod_add by (unfold GRID_WIDTH; lia). by apply Z.mod_small.
  - rewrite Z.add_comm, Z.div_add by (unfold GRID_WIDTH; lia). rewrite Z.div_small by done. lia.
Qed.

Lemma idx_inj c d : in_map c → in_map d → idx c = idx d → c = d.
Proof. intros Hc Hd E. by rewrite <- (idx_cell c Hc), <- (idx_cell d Hd), E. Qed.

Lemma outside c : (c.1 <? 0) || (GRID_WIDTH <=? c.1) || (c.2 <? 0) || (GRID_HEIGHT <=? c.2) = bool_decide (¬ in_map c).
Proof.
  apply eq_bool_prop_intro. rewrite bool_decide_spec, Is_true_true, !orb_true_iff, !Z.ltb_lt, !Z.leb_le.
  unfold in_map. lia.
Qed.

Lemma lookup_cell (m : gmap Z Z) c d k : in_map c → in_map d →
  <[idx c := k]> m !! idx d = if decide (d = c) then Some k else m !! idx d.
Proof.
  intros Hc Hd. case_decide as E; [subst; by rewrite lookup_insert_eq|].
  rewrite lookup_insert_ne; [done|]. intros E'. apply E. symmetry. by apply idx_inj.
Qed.

(** ** The invariant of the search *)

Context (start goal : Coord).

Abbreviation h := (heuristic goal).

Lemma h_step c d : adj c d → h c ≤ 1 + h d.
Proof. unfold adj, heuristic. lia. Qed.

Lemma h_steps j c d : nsteps step j c d → h c ≤ Z.of_nat j + h d.
Proof.
  induction 1 as [|j c e d [Ha _] _ IH]; [lia|]. apply h_step in Ha. lia.
Qed.

(** [C] are the cells that were expanded; [P] are the steps of them that are still to be
    tried. *)
Record inv (C : gset Coord) (P : Coord → Coord → Prop) (s : search_state) : Prop := {
  i_start : in_map start ∧ cost s !! idx start = Some 0;
  i_open : ∀ n, n ∈ open s → in_map (node_at n) ∧ ∃ k, cost s !! idx (node_at n) = Some k ∧ k + h (node_at n) ≤ node_f n;
  i_nodup : NoDup (open s);
  i_sound : ∀ c k, in_map c → cost s !! idx c = Some k → ∃ j, k = Z.of_nat j ∧ nsteps step j start c;
  i_parent : ∀ c k, in_map c → c ≠ start → cost s !! idx c = Some k →
    ∃ p kp, in_map p ∧ parent s !! idx c = Some (idx p) ∧ step p c ∧ cost s !! idx p = Some kp ∧ kp < k;
  i_live : ∀ c k, in_map c → cost s !! idx c = Some k → c ∈ C ∨ mkNode c (k + h c) ∈ open s;
  i_closed : ∀ c, c ∈ C → in_map c ∧ ∃ k, cost s !! idx c = Some k ∧
    (∀ d, step c d → P c d ∨ ∃ kd, cost s !! idx d = Some kd ∧ kd ≤ k + 1) ∧
    (∀ j, nsteps step j start c → k ≤ Z.of_nat j) ∧ mkNode c (k + h c) ∉ open s;
  i_goal : goal ∉ C;
}.

Definition all_tried : Coord → Coord → Prop := λ _ _, False.

(** A shorter way to a cell goes through a node of the queue. *)
Lemma frontier C s m x : inv C all_tried s → nsteps step m start x →
  (∃ k, cost s !! idx x = Some k ∧ k ≤ Z.of_nat m) ∨
  ∃ v k i j, mkNode v (k + h v) ∈ open s ∧ k ≤ Z.of_nat i ∧ nsteps step j v x ∧ (i + j)%nat = m.
Proof.
  intros HI. revert x. induction m as [|m IH]; intros x Hx.
  { inversion Hx; subst. left. exists 0. split; [apply HI|lia]. }
  apply nsteps_inv_r in Hx as (y & Hy & Hyx). destruct (IH y Hy) as [(k & Hk & Hle)|(v & k & i & j & Hv & Hle & Hj & <-)].
  - assert (Hym : in_map y).
    { destruct m as [|m]; [inversion Hy; subst; apply HI|]. apply nsteps_inv_r in Hy as (z & _ & Hz). apply Hz. }
    destruct (i_live _ _ _ HI y k Hym Hk) as [HC|Ho].
    + destruct (i_closed _ _ _ HI y HC) as (_ & k' & Hk' & Hs & _). simplify_eq.
      destruct (Hs x Hyx) as [[]|(kd & Hkd & Hd)]. left. exists kd. split; [done|lia].
    + right. exists y, k, m, 1%nat. split_and!; [done|done|by apply nsteps_once|lia].
  - right. exists v, k, i, (S j). split_and!; [done|done|by eapply nsteps_r|lia].
Qed.

(** What is taken from the queue with the cost of its cell has found the shortest way. *)
Lemma least_optimal C s n k j : inv C all_tried s → n ∈ open s → (∀ m, m ∈ open s → node_f n ≤ node_f m) →
  cost s !! idx (node_at n) = Some k → k + h (node_at n) ≤ node_f n →
  nsteps step j start (node_at n) → k ≤ Z.of_nat j.
Proof.
  intros HI Hn Hmin Hk Hf Hj. apply Z.nlt_ge. intros Hlt.
  destruct (frontier C s j (node_at n) HI Hj) as [(k' & Hk' & Hle)|(v & k' & i & i' & Hv & Hle & Hi & <-)].
  - simplify_eq. lia.
  - apply Hmin in Hv. cbn in Hv. apply h_steps in Hi. lia.
Qed.

Definition unit_step (d : Coord) : Prop := Z.abs d.1 + Z.abs d.2 = 1.

(** A push: the new cost is lower than the old one, so the node is new. *)
Lemma open_push_inv C P s c n k : inv C P s → c ∈ C → cost s !! idx c = Some k → step c n → n ∉ C →
  (∀ old, cost s !! idx n = Some old → k + 1 < old) →
  inv C P (mkSearch (<[idx n := k + 1]> (cost s)) (<[idx n := idx c]> (parent s)) (mkNode n (k + 1 + h n) :: open s)).
Proof.
  intros [I1 I2 I3 I4 I5 I6 I7 I8] HC Hk Hs HnC Hold. pose proof Hs as (Ha & Hnm & _).
  assert (Hcm : in_map c) by (by apply I7). destruct (I4 c k Hcm Hk) as (j & -> & Hj).
  assert (Hns : n ≠ start). { intros ->. destruct I1 as [_ I1]. specialize (Hold _ I1). lia. }
  assert (Hnc : n ≠ c) by (intros ->; done).
  split; cbn [cost parent open].
  - split; [apply I1|]. rewrite lookup_cell by (done || apply I1). rewrite decide_False by congruence. apply I1.
  - intros m [->|Hm]%elem_of_cons; cbn.
    + split; [done|]. eexists. rewrite lookup_insert_eq. split; [done|lia].
    + destruct (I2 m Hm) as (Hmm & km & Hkm & Hle). split; [done|]. rewrite lookup_cell by done.
      case_decide as E; [|by exists km]. rewrite E in *. specialize (Hold _ Hkm). eexists. split; [done|lia].
  - constructor; [|done]. intros Hin. destruct (I2 _ Hin) as (_ & km & Hkm & Hle). cbn in *. specialize (Hold _ Hkm). lia.
  - intros d kd Hd. rewrite lookup_cell by done. case_decide as E; [|by apply I4]. intros [= <-]. subst d.
    exists (S j). split; [lia|]. by eapply nsteps_r.
  - intros d kd Hd Hds. rewrite !lookup_cell by done. case_decide as E.
    + intros [= <-]. subst d. exists c, (Z.of_nat j). split_and!; [done|done|done| |lia].
      rewrite lookup_cell by done. by rewrite decide_False by congruence.
    + intros Hkd. destruct (I5 d kd Hd Hds Hkd) as (p & kp & Hp & Hpp & Hps & Hkp & Hlt). exists p.
      destruct (decide (p = n)) as [->|Hpn].
      * exists (Z.of_nat j + 1). split_and!; [done|done|done|by rewrite lookup_insert_eq|]. specialize (Hold _ Hkp). lia.
      * exists kp. split_and!; [done|done|done| |done]. rewrite lookup_cell by done. by rewrite decide_False.
  - intros d kd Hd. rewrite lookup_cell by done. case_decide as E.
    + intros [= <-]. subst d. right. by left.
    + intros Hkd. destruct (I6 d kd Hd Hkd); [by left|right; by right].
  - intros d Hd. destruct (I7 d Hd) as (Hdm & kd & Hkd & Hst & Hopt & Hno). split; [done|]. exists kd.
    assert (d ≠ n) by congruence. split_and!.
    + rewrite lookup_cell by done. by rewrite decide_False.
    + intros e He. destruct (Hst e He) as [|(ke & Hke & Hle)]; [by left|right].
      destruct He as (_ & Hem & _). destruct (decide (e = n)) as [->|Hne].
      * rewrite lookup_insert_eq. eexists. split; [done|]. specialize (Hold _ Hke). lia.
      * exists ke. rewrite lookup_cell by done. by rewrite decide_False.
    + done.
    + rewrite elem_of_cons. intros [[=]|]; [congruence|done].
  - done.
Qed.

Lemma relax_inv C P s c d k : inv C P s → c ∈ C → cost s !! idx c = Some k → unit_step d →
  inv C (λ x e, P x e ∧ ¬ (x = c ∧ e = (c.1 + d.1, c.2 + d.2))) (relax goal c s d) ∧
  cost (relax goal c s d) !! idx c = Some k ∧ (length (open (relax goal c s d)) ≤ S (length (open s)))%nat.
Proof.
  intros HI HC Hk Hd. unfold relax. set (n := (c.1 + d.1, c.2 + d.2)).
  assert (Hweak : (step c n → ∃ kn, cost s !! idx n = Some kn ∧ kn ≤ k + 1) →
    inv C (λ x e, P x e ∧ ¬ (x = c ∧ e = n)) s).
  { intros Hn. destruct HI as [I1 I2 I3 I4 I5 I6 I7 I8]. split; try done. intros x Hx.
    destruct (I7 x Hx) as (Hxm & kx & Hkx & Hst & Hopt & Hno). split; [done|]. exists kx. split_and!; [done| |done|done].
    intros e He. destruct (decide (x = c ∧ e = n)) as [[-> ->]|Hne].
    - right. simplify_eq. by apply Hn.
    - destruct (Hst e He); [by left|by right]. }
  assert (Ha : adj c n) by (unfold adj, unit_step in *; cbn; lia).
  fold n. rewrite outside. case_bool_decide as Hm.
  { split_and!; [|done|lia]. apply Hweak. by intros (_ & ? & _). }
  destruct (Z.eqb_spec (GetTile dungeon n) 0) as [Ht|Ht]; cbn [negb].
  2: { split_and!; [|done|lia]. apply Hweak. by intros (_ & _ & ?). }
  assert (Hs : step c n) by (by split_and!). rewrite Hk. change (default 0 (Some k)) with k.
  assert (Hpush : (∀ old, cost s !! idx n = Some old → k + 1 < old) → n ∉ C).
  { intros Hold HnC. destruct (i_closed _ _ _ HI n HnC) as (_ & kn & Hkn & _ & Hopt & _).
    destruct (i_closed _ _ _ HI c HC) as (Hcm & _). destruct (i_sound _ _ _ HI c k Hcm Hk) as (j & -> & Hj).
    specialize (Hold _ Hkn). specialize (Hopt (S j) ltac:(by eapply nsteps_r)). lia. }
  destruct (match cost s !! idx n with Some old => _ | None => _ end) eqn:Eq.
  - assert (Hold : ∀ old, cost s !! idx n = Some old → k + 1 < old).
    { intros old Ho. rewrite Ho in Eq. by apply Z.ltb_lt. }
    specialize (Hpush Hold). assert (n ≠ c) by congruence.
    split_and!; [|cbn [cost]; rewrite lookup_cell by (done || by apply (i_closed _ _ _ HI c HC)); by rewrite decide_False by congruence|done].
    pose proof (open_push_inv C P s c n k HI HC Hk Hs Hpush Hold) as [I1 I2 I3 I4 I5 I6 I7 I8]. split; try done. intros x Hx.
    destruct (I7 x Hx) as (Hxm & kx & Hkx & Hst & Hopt & Hno). split; [done|]. exists kx. split_and!; [done| |done|done].
    intros e He. destruct (decide (x = c ∧ e = n)) as [[-> ->]|Hne].
    + right. cbn [cost] in *. rewrite lookup_insert_eq. eexists. split; [done|].
      rewrite lookup_cell in Hkx by done. rewrite decide_False, Hk in Hkx by congruence. injection Hkx as <-. lia.
    + destruct (Hst e He); [by left|by right].
  - split_and!; [|done|lia]. apply Hweak. intros _. destruct (cost s !! idx n) as [old|]; [|done].
    exists old. split; [done|]. by apply Z.ltb_ge.
Qed.

Lemma inv_weaken C P Q s : (∀ x d, step x d → P x d → Q x d) → inv C P s → inv C Q s.
Proof.
  intros HPQ [I1 I2 I3 I4 I5 I6 I7 I8]. split; try done. intros x Hx.
  destruct (I7 x Hx) as (Hxm & kx & Hkx & Hst & Hopt & Hno). split; [done|]. exists kx. split_and!; [done| |done|done].
  intros e He. destruct (Hst e He); [left; by apply HPQ|by right].
Qed.

(** A cell that has been expanded in all directions. *)
Lemma expand_inv C s c k : inv C (λ x _, x = c) s → c ∈ C → cost s !! idx c = Some k →
  inv C all_tried (foldl (relax goal c) s directions) ∧
  (length (open (foldl (relax goal c) s directions)) ≤ 4 + length (open s))%nat.
Proof.
  intros HI HC Hk. unfold directions. cbn [foldl].
  destruct (relax_inv _ _ _ c (0, 1) k HI HC Hk ltac:(done)) as (H1 & E1 & L1).
  destruct (relax_inv _ _ _ c (0, -1) k H1 HC E1 ltac:(done)) as (H2 & E2 & L2).
  destruct (relax_inv _ _ _ c (1, 0) k H2 HC E2 ltac:(done)) as (H3 & E3 & L3).
  destruct (relax_inv _ _ _ c (-1, 0) k H3 HC E3 ltac:(done)) as (H4 & E4 & L4).
  split; [|lia]. eapply inv_weaken; [|exact H4]. intros x d (Ha & _) ((((-> & N1) & N2) & N3) & N4).
  unfold adj in Ha. cbn in *. unfold all_tried.
  assert (d.1 = c.1 ∧ d.2 = c.2 + 1 ∨ d.1 = c.1 ∧ d.2 = c.2 - 1 ∨ d.1 = c.1 + 1 ∧ d.2 = c.2 ∨ d.1 = c.1 - 1 ∧ d.2 = c.2) as Hd by lia.
  destruct Hd as [[? ?]|[[? ?]|[[? ?]|[? ?]]]]; [apply N1|apply N2|apply N3|apply N4]; (split; [done|]); apply coord_eq; cbn; lia.
Qed.

(** What the search has found when it ends. *)
Record searched (s : search_state) : Prop := {
  se_start : in_map start ∧ cost s !! idx start = Some 0;
  se_sound : ∀ c k, in_map c → cost s !! idx c = Some k → 0 ≤ k;
  se_parent : ∀ c k, in_map c → c ≠ start → cost s !! idx c = Some k →
    ∃ p kp, in_map p ∧ parent s !! idx c = Some (idx p) ∧ step p c ∧ cost s !! idx p = Some kp ∧ kp < k;
  se_goal : ∀ m, nsteps step m start goal → ∃ k, cost s !! idx goal = Some k ∧ k ≤ Z.of_nat m;
}.

Lemma inv_searched C P s : inv C P s →
  (∀ m, nsteps step m start goal → ∃ k, cost s !! idx goal = Some k ∧ k ≤ Z.of_nat m) →
  ∀ q, searched (mkSearch (cost s) (parent s) q).
Proof.
  intros [I1 I2 I3 I4 I5 I6 I7 I8] Hg q. split; cbn [cost parent]; try done.
  intros c k Hc Hk. destruct (I4 c k Hc Hk) as (j & -> & _). lia.
Qed.

Lemma popped_inv C P s n rest : inv C P s → open s ≡ₚ n :: rest →
  (∀ k, cost s !! idx (node_at n) = Some k → node_at n ∈ C ∨ k + h (node_at n) ≠ node_f n) →
  inv C P (mkSearch (cost s) (parent s) rest).
Proof.
  intros [I1 I2 I3 I4 I5 I6 I7 I8] Hp Hn. split; cbn [cost parent open]; try done.
  - intros m Hm. apply I2. rewrite Hp. by right.
  - rewrite Hp in I3. by apply NoDup_cons in I3 as [_ I3].
  - intros c k Hc Hk. destruct (I6 c k Hc Hk) as [|Ho]; [by left|]. rewrite Hp in Ho.
    apply elem_of_cons in Ho as [E|]; [|by right]. subst n. cbn in *. destruct (Hn k Hk); [by left|done].
  - intros c Hc. destruct (I7 c Hc) as (Hcm & k & Hk & Hst & Hopt & Hno). split; [done|]. exists k.
    split_and!; [done|done|done|]. intros Hin. apply Hno. rewrite Hp. by right.
Qed.

(** The cell that is taken from the queue joins the expanded ones. *)
Lemma taken_inv C s n rest k : inv C all_tried s → open s ≡ₚ n :: rest →
  (∀ m, m ∈ rest → node_f n ≤ node_f m) → node_at n ≠ goal →
  cost s !! idx (node_at n) = Some k → node_f n ≤ k + h (node_at n) →
  (node_at n ∉ C) ∧ inv ({[node_at n]} ∪ C) (λ x _, x = node_at n) (mkSearch (cost s) (parent s) rest).
Proof.
  intros HI Hp Hmin Hg Hk Hf. assert (Hin : n ∈ open s) by (rewrite Hp; by left).
  destruct (i_open _ _ _ HI n Hin) as (Hm & k' & Hk' & Hle). assert (k' = k) by congruence. subst k'.
  assert (Hn : n = mkNode (node_at n) (k + h (node_at n))) by (destruct n; cbn in *; f_equal; lia).
  assert (Hnew : node_at n ∉ C).
  { intros HC. destruct (i_closed _ _ _ HI _ HC) as (_ & k' & Hk'' & _ & _ & Hno). simplify_eq. by rewrite <- Hn in Hno. }
  split; [done|].
  assert (Hopt : ∀ j, nsteps step j start (node_at n) → k ≤ Z.of_nat j).
  { intros j. apply (least_optimal C s n k j HI Hin); [|done|done].
    intros m. rewrite Hp. intros [->|Hm']%elem_of_cons; [lia|by apply Hmin]. }
  pose proof (i_nodup _ _ _ HI) as Hnd. rewrite Hp in Hnd. apply NoDup_cons in Hnd as [Hnotin Hnd].
  destruct HI as [I1 I2 I3 I4 I5 I6 I7 I8]. split; cbn [cost parent open]; try done.
  - intros m Hm'. apply I2. rewrite Hp. by right.
  - intros c kc Hc Hkc. destruct (I6 c kc Hc Hkc) as [|Ho]; [left; set_solver|]. rewrite Hp in Ho.
    apply elem_of_cons in Ho as [E|]; [|by right]. left. rewrite <- E. cbn. set_solver.
  - intros c [->%elem_of_singleton|Hc]%elem_of_union.
    + split; [done|]. exists k. split_and!; [done|by left|done|by rewrite <- Hn].
    + destruct (I7 c Hc) as (Hcm & kc & Hkc & Hst & Hoc & Hno). split; [done|]. exists kc. split_and!; [done| |done|].
      * intros d Hd. destruct (Hst d Hd) as [[]|]; by right.
      * intros Hi. apply Hno. rewrite Hp. by right.
  - set_solver.
Qed.

Context `{!PriorityQueueOk}.

Lemma size_bound (C : gset Coord) : (∀ c, c ∈ C → in_map c) → (size C ≤ length all_cells)%nat.
Proof.
  intros HC. assert (C ⊆ list_to_set all_cells).
  { intros c Hc. apply elem_of_list_to_set, elem_of_all_cells, HC, Hc. }
  rewrite <- (size_list_to_set (C := gset Coord) all_cells) by apply NoDup_loop2. by apply subseteq_size.
Qed.

Lemma search_loop_spec fuel C s : inv C all_tried s →
  (5 * (length all_cells - size C) + length (open s) < fuel)%nat →
  ∃ s', search_loop fuel goal s = Some s' ∧ searched s'.
Proof.
  revert C s. induction fuel as [|fuel IH]; intros C s HI Hfuel; [lia|]. cbn [search_loop].
  destruct (pop (open s)) as [[n rest]|] eqn:Epop.
  2: { apply pop_none in Epop. exists s. split; [done|]. destruct s as [co pa op]. apply (inv_searched C all_tried _ HI).
       intros m Hm. destruct (frontier C _ m goal HI Hm) as [|(v & k & i & j & Hv & _)]; [done|].
       cbn in *. subst. by apply not_elem_of_nil in Hv. }
  apply pop_some in Epop as [Hp Hmin]. assert (Hin : n ∈ open s) by (rewrite Hp; by left).
  assert (HL : length (open s) = S (length rest)) by (by rewrite Hp).
  destruct (i_open _ _ _ HI n Hin) as (Hm & k & Hk & Hle). cbn [cost].
  case_bool_decide as Hg.
  { eexists. split; [done|]. apply (inv_searched C all_tried _ HI). intros m Hs. rewrite <- Hg in Hs |- *.
    exists k. split; [done|]. apply (least_optimal C s n k m HI Hin); [|done|done|done].
    intros m'. rewrite Hp. intros [->|Hm']%elem_of_cons; [lia|by apply Hmin]. }
  rewrite Hk. destruct (Z.ltb_spec k (node_f n - h (node_at n))) as [Hst|Hfresh].
  - apply (IH C); [|cbn [open]; lia]. apply (popped_inv _ _ _ n); [done|done|]. intros k' Hk'. right. simplify_eq. lia.
  - destruct (taken_inv C s n rest k HI Hp Hmin Hg Hk ltac:(lia)) as [Hnew HT].
    destruct (expand_inv _ _ (node_at n) k HT (elem_of_union_l _ _ _ (proj2 (elem_of_singleton _ _) eq_refl)) Hk) as [HE HLe].
    apply (IH _ _ HE). cbn [open] in HLe.
    assert (size ({[node_at n]} ∪ C) = S (size C)) as Hsz.
    { rewrite size_union, size_singleton; [done|]. clear -Hnew. set_solver. }
    assert (size ({[node_at n]} ∪ C) ≤ length all_cells)%nat as Hb.
    { apply size_bound. intros c Hc. by apply (i_closed _ _ _ HT). }
    generalize dependent (length all_cells). intros. lia.
Qed.

Lemma walk_back_spec s fuel c k path : searched s → in_map c → cost s !! idx c = Some k → k < Z.of_nat fuel →
  ∃ l, walk_back fuel (parent s) (idx start) (idx c) path = Some (l ++ path) ∧ walks start l c ∧ Z.of_nat (length l) ≤ k.
Proof.
  intros HS. revert c k path. induction fuel as [|fuel IH]; intros c k path Hc Hk Hlt.
  { pose proof (se_sound _ HS c k Hc Hk). lia. }
  cbn [walk_back]. destruct (decide (c = start)) as [->|Hne].
  { rewrite Z.eqb_refl. exists []. split_and!; [done|done|]. by apply (se_sound _ HS start). }
  destruct (Z.eqb_spec (idx c) (idx start)) as [E|_]; [by apply idx_inj in E; [|done|apply HS]|].
  destruct (Z.eqb_spec (idx c) (-1)) as [E|_]; [pose proof (idx_range c Hc); lia|].
  destruct (se_parent _ HS c k Hc Hne Hk) as (p & kp & Hp & -> & Hs & Hkp & Hkk). cbn [default from_option id].
  rewrite idx_cell by done. destruct (IH p kp (c :: path) Hp Hkp ltac:(lia)) as (l & -> & Hw & Hl).
  exists (l ++ [c]). split_and!; [by rewrite <- app_assoc|by eapply walks_snoc|rewrite length_app; cbn; lia].
Qed.

Lemma start_inv : in_map start → inv ∅ all_tried (mkSearch {[idx start := 0]} ∅ [mkNode start (h start)]).
Proof.
  intros Hs. assert (Hl : ∀ c k, in_map c → ({[idx start := 0]} : gmap Z Z) !! idx c = Some k → c = start ∧ k = 0).
  { intros c k Hc [E Hk]%lookup_singleton_Some. split; [symmetry; by apply idx_inj|done]. }
  split; cbn [cost parent open].
  - split; [done|]. apply lookup_singleton_eq.
  - intros n ->%list_elem_of_singleton. split; [done|]. exists 0. cbn. split; [apply lookup_singleton_eq|lia].
  - apply NoDup_singleton.
  - intros c k Hc [-> ->]%Hl; [|done]. exists O. split; [done|constructor].
  - intros c k Hc Hne [-> ->]%Hl; done.
  - intros c k Hc [-> ->]%Hl; [|done]. right. by left.
  - set_solver.
  - set_solver.
Qed.

(** The path search gives a shortest path when there is one. *)
Lemma AStarSearch_spec : in_map start → in_map goal → start ≠ goal →
  ∃ path, AStarSearch start goal = Some path ∧
    ((∀ m, ¬ nsteps step m start goal) ∧ path = [] ∨
     walks start path goal ∧ path ≠ [] ∧ ∀ m, nsteps step m start goal → (length path ≤ m)%nat).
Proof.
  intros Hs Hg Hne. unfold AStarSearch. rewrite !outside, !bool_decide_false by tauto.
  destruct (Z.eqb_spec (GetTile dungeon goal) 0) as [Ht|Ht]; cbn [negb].
  2: { exists []. split; [done|]. left. split; [|done]. intros [|m] Hm; [by inversion Hm|].
       apply nsteps_inv_r in Hm as (y & _ & _ & _ & ?). done. }
  destruct (search_loop_spec (5 * length all_cells + 2) ∅ _ (start_inv Hs)) as (s & -> & HS).
  { rewrite size_empty. cbn [open length]. lia. }
  cbn [mbind option_bind]. destruct (cost s !! idx goal) as [k|] eqn:Ek.
  - pose proof (se_sound _ HS goal k Hg Ek).
    destruct (walk_back_spec s (S (Z.to_nat k)) goal k [] HS Hg Ek ltac:(lia)) as (l & -> & Hw & Hl).
    rewrite app_nil_r. exists l. split; [done|]. right. split_and!; [done|by intros ->|].
    intros m Hm. destruct (se_goal _ HS m Hm) as (k' & Hk' & Hle). simplify_eq. lia.
  - exists []. split; [done|]. left. split; [|done]. intros m Hm. destruct (se_goal _ HS m Hm) as (k & Hk & _). congruence.
Qed.
End Search.

(** ** Bots in a dungeon *)

Lemma conn_nsteps g c d : conn g 0 c d → ∃ m, nsteps (step g) m c d.
Proof.
  intros Hc. apply rtc_nsteps. eapply rtc_subrel; [|exact Hc]. intros x y (Ha & _ & Hy & Ht). split_and!; [done|done|].
  unfold GetTile. apply IsInMapRange_true in Hy. by rewrite Hy.
Qed.

(** C23: in every dungeon that is generated, a search between two cells of the map returns: it
    gives no path exactly when no way over floor leads to the goal, else a shortest path, and
    between two floor cells there always is one; whichever of its least elements the priority
    queue gives first. *)
Theorem bots_find_their_way `{RngOk, PriorityQueueOk} sort_rooms sort_candidates numPortals depth r :
  (∀ l, sort_rooms l ≡ₚ l) → (∀ l, sort_candidates l ≡ₚ l) →
  ∃ d, Generate sort_rooms sort_candidates numPortals depth r = Some d ∧
    ∀ start goal, in_map start → in_map goal → start ≠ goal →
      ∃ path, AStarSearch (map_ d) start goal = Some path ∧
        (path = [] ↔ ∀ m, ¬ nsteps (step (map_ d)) m start goal) ∧
        (path ≠ [] → walks (map_ d) start path goal ∧
                     ∀ m, nsteps (step (map_ d)) m start goal → (length path ≤ m)%nat) ∧
        (cell (map_ d) 0 start → cell (map_ d) 0 goal → path ≠ []).
Proof.
  intros Hs Hc. destruct (Generate_playable sort_rooms sort_candidates numPortals depth r Hs Hc) as (d & Hd & Hp & _).
  exists d. split; [exact Hd|]. clear Hd. intros start goal Hsm Hgm Hne.
  destruct (AStarSearch_spec (map_ d) start goal Hsm Hgm Hne) as (path & -> & [[Hno ->]|(Hw & Hpn & Hmin)]).
  - exists []. split_and!; [done|done|done|]. intros Hcs Hcg _.
    destruct (conn_nsteps _ _ _ (pl_floor _ _ Hp start goal Hcs Hcg)) as [m Hm]. by destruct (Hno m).
  - exists path. split_and!; [done| |done|done]. split; [done|]. intros Hno. by destruct (Hno _ (walks_nsteps _ _ _ _ Hw)).
Qed.

(** A queue that looks for its least element. *)
Fixpoint take_least (q : list Node) : option (Node * list Node) :=
  match q with
  | [] => None
  | n :: q =>
    match take_least q with
    | None => Some (n, [])
    | Some (m, rest) => if node_f n <=? node_f m then Some (n, q) else Some (m, n :: rest)
    end
  end.

Definition least_first : PriorityQueue := take_least.

Lemma least_first_ok : @PriorityQueueOk least_first.
Proof.
  split; unfold pop, least_first.
  - intros [|n q]; [done|]. cbn. destruct (take_least q) as [[m rest]|]; [|done]. by destruct (_ <=? _).
  - induction q as [|n q IH]; [done|]. intros m rest. cbn [take_least]. destruct (take_least q) as [[m' rest']|] eqn:E.
    + destruct (IH _ _ eq_refl) as [Hp Hmin]. destruct (Z.leb_spec (node_f n) (node_f m')) as [Hle|Hle]; intros [= <- <-].
      * split; [done|]. intros k. rewrite Hp. intros [->|Hk]%elem_of_cons; [done|]. specialize (Hmin k Hk). lia.
      * split; [rewrite Hp; apply Permutation_swap|]. intros k [->|Hk]%elem_of_cons; [lia|by apply Hmin].
    + intros [= <- <-]. destruct q as [|k q]; [|cbn in E; by repeat case_match]. split; [done|].
      intros k Hk. by apply not_elem_of_nil in Hk.
Qed.

Lemma bots_find_their_way_witness : ∃ d, @Generate counter (λ l, l) (λ l, l) 3 1 7 = Some d ∧
  ∀ start goal, in_map start → in_map goal → start ≠ goal → cell (map_ d) 0 start → cell (map_ d) 0 goal →
    ∃ path, @AStarSearch least_first (map_ d) start goal = Some path ∧ path ≠ [].
Proof.
  destruct (@bots_find_their_way counter counter_ok least_first least_first_ok (λ l, l) (λ l, l) 3 1 7 (λ l, reflexivity l) (λ l, reflexivity l))
    as (d & Hd & Hall). exists d. split; [exact Hd|]. intros start goal Hs Hg Hne Hcs Hcg.
  destruct (Hall start goal Hs Hg Hne) as (path & Hp & _ & _ & Hf). exists path. exact (conj Hp (Hf Hcs Hcg)).
Defined.

(** Around a wall. *)
Example around_a_wall : let g := <[(1, 0) := 1]> (<[(1, 1) := 1]> ∅) in
  @AStarSearch least_first g (0, 0) (2, 0) = Some [(0, 1); (0, 2); (1, 2); (2, 2); (2, 1); (2, 0)].
Proof. vm_compute. done. Qed.
