(* ===== verification/Float32.v ===== *)
(** * Single precision

    The [float] of the game code: the standard library's specification of binary floating
    point at 24 bits, so that every operation rounds as the code's does. *)

From Stdlib Require Import SpecFloat.
From S2P Require Import Prelude.

#[local] Open Scope Z_scope.

Abbreviation f32 := spec_float.

Module F32.

Definition prec : Z := 24.
Definition emax : Z := 128.

Definition add : f32 → f32 → f32 := SFadd prec emax.
Definition sub : f32 → f32 → f32 := SFsub prec emax.
Definition mul : f32 → f32 → f32 := SFmul prec emax.
Definition div : f32 → f32 → f32 := SFdiv prec emax.
Definition sqrt : f32 → f32 := SFsqrt prec emax.
Definition ltb : f32 → f32 → bool := SFltb.
Definition leb : f32 → f32 → bool := SFleb.
Definition eqb : f32 → f32 → bool := SFeqb.

(** An integer, rounded; a quotient of integers: the literals of the code. *)
Definition of_Z (n : Z) : f32 := binary_normalize prec emax n 0 false.
Definition lit (n d : Z) : f32 := div (of_Z n) (of_Z d).
Definition zero : f32 := of_Z 0.

(** [std::max] keeps its first argument unless the second is greater. *)
Definition max (a b : f32) : f32 := if ltb a b then b else a.

Definition int_min : Z := - 2 ^ 31.
Definition int_max : Z := 2 ^ 31 - 1.

(** A value that [int] can hold, else nothing. *)
Definition as_int (n : Z) : option Z := if (int_min <=? n) && (n <=? int_max) then Some n else None.

Definition signed (s : bool) (n : Z) : Z := if s then - n else n.

(** [static_cast<int>]: towards zero. *)
Definition trunc (f : f32) : option Z :=
  match f with
  | S754_zero _ => Some 0
  | S754_finite s m e => as_int (signed s (Z.shiftl (Z.pos m) e))
  | _ => None
  end.

(** [static_cast<int>(std::round(f))]: to the nearest, halves away from zero. *)
Definition round (f : f32) : option Z :=
  match f with
  | S754_zero _ => Some 0
  | S754_finite s m e =>
    as_int (signed s (if 0 <=? e then Z.shiftl (Z.pos m) e
                      else Z.shiftr (Z.pos m + Z.shiftl 1 (- e - 1)) (- e)))
  | _ => None
  end.

End F32.

Declare Scope f32_scope.
Delimit Scope f32_scope with f32.
Notation "a + b" := (F32.add a b) : f32_scope.
Notation "a - b" := (F32.sub a b) : f32_scope.
Notation "a * b" := (F32.mul a b) : f32_scope.
Notation "a / b" := (F32.div a b) : f32_scope.
Notation "a <? b" := (F32.ltb a b) : f32_scope.
Notation "a <=? b" := (F32.leb a b) : f32_scope.

(** [15.0f] and [0.05f] have these bits. *)
Example f32_literals : F32.of_Z 15 = S754_finite false 15728640 (-20) ∧
  F32.lit 5 100 = S754_finite false 13421773 (-28).
Proof. done. Qed.

Example f32_rounding : F32.round (F32.lit (-5) 2) = Some (-3) ∧ F32.trunc (F32.lit (-5) 2) = Some (-2) ∧
  F32.round (F32.lit 5 2) = Some 3 ∧ F32.trunc (F32.lit 1 3) = Some 0 ∧ F32.round (F32.of_Z (2 ^ 40)) = None.
Proof. done. Qed.
