(* ===== verification/Outbox.v ===== *)
(** * Outgoing messages of a worker

    [app/examples/game/dungeon_full_server/src/net/outbound_mailbox.cpp]: rooms run on any
    worker and leave the messages for a session in the outbox of the session's worker, which
    takes them out in turns, one message of each session at a time.  Each method holds the
    mutex for a message, so that messages may be left while others are taken. *)

From S2P Require Import Prelude.

#[local] Open Scope Z_scope.
#[local] Set Warnings "-clear-no-such-hyp".

Section Outbox.
Context {A : Type}.

(** Source: app/examples/game/dungeon_full_server/src/net/outbound_mailbox.h:16-22, OutboundMessage.
    The body is what to do: [None] without a task and a buffer. *)
Record OutboundMessage := mkOut { out_session : Z; out_room : Z; out_seq : Z; out_body : option A }.

(** Source: app/examples/game/dungeon_full_server/src/net/outbound_mailbox.h:34-42, WorkerOutbox. *)
Record WorkerOutbox := mkOutbox {
  ready_sessions_ : list Z;
  ready_set_ : gset Z;
  queues_ : gmap Z (list OutboundMessage);
}.

Definition WorkerOutbox_new : WorkerOutbox := mkOutbox [] ∅ ∅.

Definition queue_of (o : WorkerOutbox) (sid : Z) : list OutboundMessage := default [] (queues_ o !! sid).

(** Source: app/examples/game/dungeon_full_server/src/net/outbound_mailbox.cpp:7-20, WorkerOutbox::Enqueue. *)
Definition Enqueue (o : WorkerOutbox) (msg : OutboundMessage) : WorkerOutbox :=
  if bool_decide (out_body msg = None) || (out_session msg =? 0) then o else
  let sid := out_session msg in
  let queues := <[sid := queue_of o sid ++ [msg]]> (queues_ o) in
  if bool_decide (sid ∈ ready_set_ o) then mkOutbox (ready_sessions_ o) (ready_set_ o) queues
  else mkOutbox (ready_sessions_ o ++ [sid]) ({[sid]} ∪ ready_set_ o) queues.

(** Source: app/examples/game/dungeon_full_server/src/net/outbound_mailbox.cpp:24-51, WorkerOutbox::DrainBudgeted.
    A round: the outbox after it, whether it goes on, and the message that was taken. *)
Definition take_one (o : WorkerOutbox) : WorkerOutbox * bool * option OutboundMessage :=
  match ready_sessions_ o with
  | [] => (o, false, None)
  | sid :: ready =>
    let set := ready_set_ o ∖ {[sid]} in
    match queues_ o !! sid with
    | Some (msg :: rest) =>
      (if bool_decide (rest = []) then mkOutbox ready set (delete sid (queues_ o))
       else mkOutbox (ready ++ [sid]) ({[sid]} ∪ set) (<[sid := rest]> (queues_ o)), true, Some msg)
    | _ => (mkOutbox ready set (queues_ o), true, None)
    end
  end.

(** Source: app/examples/game/dungeon_full_server/src/net/outbound_mailbox.cpp:22-64, WorkerOutbox::DrainBudgeted.
    The messages for the sink, when nothing is left meanwhile. *)
Fixpoint DrainBudgeted (budget : nat) (o : WorkerOutbox) : WorkerOutbox * list OutboundMessage :=
  match budget with
  | O => (o, [])
  | S budget =>
    match take_one o with
    | (o, false, _) => (o, [])
    | (o, true, msg) => let '(o, msgs) := DrainBudgeted budget o in (o, option_list msg ++ msgs)
    end
  end.

(** Source: app/examples/game/dungeon_full_server/src/net/outbound_mailbox.cpp:66-73, WorkerOutbox::Pending. *)
Definition Pending (o : WorkerOutbox) : Z := zlen (concat (map_to_list (queues_ o)).*2).

(** ** Interleavings *)

Inductive event := Left (msg : OutboundMessage) | Round.

(** The outbox and the messages that were taken from it. *)
Definition act (st : WorkerOutbox * list OutboundMessage) (e : event) : WorkerOutbox * list OutboundMessage :=
  let '(o, taken) := st in
  match e with
  | Left msg => (Enqueue o msg, taken)
  | Round => let '(o, _, msg) := take_one o in (o, taken ++ option_list msg)
  end.

Definition acts : WorkerOutbox * list OutboundMessage → list event → WorkerOutbox * list OutboundMessage := foldl act.

(** What was left for a session. *)
Definition accepted (msg : OutboundMessage) : Prop := out_body msg ≠ None ∧ out_session msg ≠ 0.
#[local] Instance accepted_dec msg : Decision (accepted msg).
Proof. unfold accepted. destruct (out_body msg); apply _. Defined.

Definition left_events (es : list event) : list OutboundMessage :=
  omap (λ e, match e with Left msg => Some msg | Round => None end) es.
Definition for_session (sid : Z) (msgs : list OutboundMessage) : list OutboundMessage :=
  filter (λ m, out_session m = sid) msgs.
Definition rounds (es : list event) : nat := length (omap (λ e, match e with Round => Some tt | _ => None end) es).

(** ** The invariant *)

(** The sessions that wait are those with messages, each once. *)
Record outbox_ok (o : WorkerOutbox) : Prop := {
  ok_set : ready_set_ o = list_to_set (ready_sessions_ o);
  ok_nodup : NoDup (ready_sessions_ o);
  ok_ready : ∀ sid, sid ∈ ready_sessions_ o ↔ is_Some (queues_ o !! sid);
  ok_some : ∀ sid q, queues_ o !! sid = Some q → q ≠ [];
  ok_own : ∀ sid, Forall (λ m, out_session m = sid ∧ accepted m) (queue_of o sid);
}.

Lemma queue_of_insert o sid sid' q r s : queue_of (mkOutbox r s (<[sid := q]> (queues_ o))) sid' =
  if decide (sid' = sid) then q else queue_of o sid'.
Proof.
  unfold queue_of. cbn. case_decide; [subst; by rewrite lookup_insert_eq|by rewrite lookup_insert_ne by congruence].
Qed.

Lemma queue_of_delete o sid sid' r s : queue_of (mkOutbox r s (delete sid (queues_ o))) sid' =
  if decide (sid' = sid) then [] else queue_of o sid'.
Proof.
  unfold queue_of. cbn. case_decide; [subst; by rewrite lookup_delete_eq|by rewrite lookup_delete_ne by congruence].
Qed.

Lemma Enqueue_queue o msg sid : queue_of (Enqueue o msg) sid =
  queue_of o sid ++ for_session sid (filter accepted [msg]).
Proof.
  unfold Enqueue, for_session. destruct (decide (accepted msg)) as [[Hb Hs]|Hn].
  - rewrite bool_decide_false, (proj2 (Z.eqb_neq _ _) Hs) by done. cbn [orb].
    rewrite (filter_cons_True accepted) by done. change (filter accepted []) with (@nil OutboundMessage).
    assert (Hq : queue_of (mkOutbox (ready_sessions_ o) (ready_set_ o) (<[out_session msg := queue_of o (out_session msg) ++ [msg]]> (queues_ o))) sid
       = queue_of o sid ++ filter (λ m, out_session m = sid) [msg]).
    { rewrite queue_of_insert. case_decide as E.
      - subst sid. by rewrite filter_cons_True.
      - rewrite filter_cons_False by congruence. by rewrite app_nil_r. }
    case_bool_decide; exact Hq.
  - rewrite (filter_cons_False accepted) by done. change (filter accepted []) with (@nil OutboundMessage).
    cbn. rewrite app_nil_r. assert (bool_decide (out_body msg = None) || (out_session msg =? 0) = true) as ->; [|done].
    apply orb_true_iff. rewrite bool_decide_eq_true, Z.eqb_eq.
    destruct (decide (out_body msg = None)) as [|Hb]; [by left|]. right.
    destruct (decide (out_session msg = 0)); [done|]. by destruct Hn.
Qed.

Lemma Enqueue_ok o msg : outbox_ok o → outbox_ok (Enqueue o msg).
Proof.
  intros HO. pose proof HO as [H1 H2 H3 H4 H5].
  assert (Hown : ∀ sid, Forall (λ m, out_session m = sid ∧ accepted m) (queue_of (Enqueue o msg) sid)).
  { intros sid. rewrite Enqueue_queue. apply Forall_app. split; [done|]. apply Forall_forall.
    intros m [Hm [Ha _]%list_elem_of_filter]%list_elem_of_filter. done. }
  unfold Enqueue in *. destruct (_ || _) eqn:E; [done|]. set (sid := out_session msg) in *.
  assert (Hin : ∀ k, is_Some (<[sid := queue_of o sid ++ [msg]]> (queues_ o) !! k) ↔ k = sid ∨ is_Some (queues_ o !! k)).
  { intros k. destruct (decide (k = sid)) as [->|]; [rewrite lookup_insert_eq; split; [by left|by eauto]|].
    rewrite lookup_insert_ne by congruence. tauto. }
  assert (Hne : ∀ k q, <[sid := queue_of o sid ++ [msg]]> (queues_ o) !! k = Some q → q ≠ []).
  { intros k q [[_ <-]|[_ Hk]]%lookup_insert_Some; [|by eapply H4]. by destruct (queue_of o sid). }
  case_bool_decide as Hr; split; cbn [ready_sessions_ ready_set_ queues_]; try done.
  - intros k. rewrite Hin, H3. rewrite H1, elem_of_list_to_set, H3 in Hr. split; [by right|]. by intros [->|].
  - rewrite H1, list_to_set_app_L. cbn. rewrite union_empty_r_L. apply (comm_L (∪)).
  - apply NoDup_app. split_and!; [done| |apply NoDup_singleton]. intros k Hk ->%list_elem_of_singleton.
    apply Hr. by rewrite H1, elem_of_list_to_set.
  - intros k. rewrite elem_of_app, list_elem_of_singleton, Hin, H3. tauto.
Qed.

(** What a round takes: the first message of the first session that waits. *)
Lemma take_one_ok o : outbox_ok o →
  let '(o', more, taken) := take_one o in
  outbox_ok o' ∧
  match ready_sessions_ o with
  | [] => taken = None ∧ more = false ∧ o' = o
  | sid :: ready => ∃ msg rest, more = true ∧ taken = Some msg ∧ queue_of o sid = msg :: rest ∧
      queue_of o' sid = rest ∧ (∀ k, k ≠ sid → queue_of o' k = queue_of o k) ∧
      ∃ tail, ready_sessions_ o' = ready ++ tail
  end.
Proof.
  intros HO. pose proof HO as [H1 H2 H3 H4 H5]. unfold take_one. destruct (ready_sessions_ o) as [|sid ready] eqn:Er; [done|].
  destruct (proj1 (H3 sid) ltac:(by left)) as [q Hq]. pose proof (H4 _ _ Hq). destruct q as [|msg rest]; [done|]. rewrite Hq.
  assert (Hqo : queue_of o sid = msg :: rest) by (unfold queue_of; by rewrite Hq).
  apply NoDup_cons in H2 as [Hsn H2].
  assert (Hset : ready_set_ o ∖ {[sid]} = list_to_set ready) by (rewrite H1; cbn; set_solver).
  assert (Hrd : ∀ k, k ≠ sid → k ∈ ready ↔ is_Some (queues_ o !! k)).
  { intros k Hk. rewrite <- H3. rewrite elem_of_cons. tauto. }
  case_bool_decide as Hrest.
  - subst rest. split.
    + split; cbn [ready_sessions_ ready_set_ queues_]; [done|done| | |].
      * intros k. destruct (decide (k = sid)) as [->|Hk]; [rewrite lookup_delete_eq; split; [done|by intros [? ?]]|].
        rewrite lookup_delete_ne by congruence. by apply Hrd.
      * intros k q [_ Hk]%lookup_delete_Some. by eapply H4.
      * intros k. rewrite queue_of_delete. case_decide; [constructor|done].
    + exists msg, []. split_and!; [done|done|done| | |].
      * rewrite queue_of_delete. by rewrite decide_True.
      * intros k Hk. rewrite queue_of_delete. by rewrite decide_False.
      * exists []. by rewrite app_nil_r.
  - split.
    + split; cbn [ready_sessions_ ready_set_ queues_].
      * rewrite Hset, list_to_set_app_L. cbn. rewrite union_empty_r_L. apply (comm_L (∪)).
      * apply NoDup_app. split_and!; [done| |apply NoDup_singleton]. by intros k Hk ->%list_elem_of_singleton.
      * intros k. rewrite elem_of_app, list_elem_of_singleton. destruct (decide (k = sid)) as [->|Hk].
        -- rewrite lookup_insert_eq. split; [by eauto|by right].
        -- rewrite lookup_insert_ne by congruence. rewrite <- Hrd by done. tauto.
      * intros k q [[_ <-]|[_ Hk]]%lookup_insert_Some; [done|by eapply H4].
      * intros k. rewrite queue_of_insert. case_decide; [|done]. subst k. specialize (H5 sid). rewrite Hqo in H5.
        by apply Forall_cons in H5 as [].
    + exists msg, rest. split_and!; [done|done|done| | |by exists [sid]].
      * rewrite queue_of_insert. by rewrite decide_True.
      * intros k Hk. rewrite queue_of_insert. by rewrite decide_False.
Qed.

(** ** Order *)

Lemma for_session_app sid l k : for_session sid (l ++ k) = for_session sid l ++ for_session sid k.
Proof. apply filter_app. Qed.

Lemma for_session_one sid m : for_session sid [m] = if decide (out_session m = sid) then [m] else [].
Proof. unfold for_session. rewrite filter_cons. by case_decide. Qed.

Lemma act_spec o taken e : outbox_ok o →
  let '(o', taken') := act (o, taken) e in
  outbox_ok o' ∧ ∀ sid, for_session sid taken' ++ queue_of o' sid =
    for_session sid taken ++ queue_of o sid ++ for_session sid (filter accepted (left_events [e])).
Proof.
  intros HO. destruct e as [msg|]; cbn [act].
  - split; [by apply Enqueue_ok|]. intros sid. by rewrite Enqueue_queue.
  - pose proof (take_one_ok o HO) as Ht. destruct (take_one o) as [[o' more] tk]. destruct Ht as [HO' Ht]. split; [done|].
    intros sid. cbn [left_events omap list_omap]. change (filter accepted []) with (@nil OutboundMessage).
    change (for_session sid []) with (@nil OutboundMessage). rewrite app_nil_r.
    destruct (ready_sessions_ o) as [|s ready].
    + destruct Ht as (-> & _ & ->). cbn. by rewrite app_nil_r.
    + destruct Ht as (msg & rest & _ & -> & Hq & Hq' & Hother & _). change (option_list (Some msg)) with [msg].
      pose proof (ok_own _ HO s) as Hown. rewrite Hq in Hown. apply Forall_cons in Hown as [[Hs _] _].
      rewrite for_session_app, for_session_one, <- app_assoc. case_decide as E.
      * replace sid with s by congruence. by rewrite Hq, Hq'.
      * rewrite Hother by congruence. done.
Qed.

Lemma left_events_app es es' : left_events (es ++ es') = left_events es ++ left_events es'.
Proof. apply omap_app. Qed.

Lemma acts_spec es o taken : outbox_ok o →
  let '(o', taken') := acts (o, taken) es in
  outbox_ok o' ∧ ∀ sid, for_session sid taken' ++ queue_of o' sid =
    for_session sid taken ++ queue_of o sid ++ for_session sid (filter accepted (left_events es)).
Proof.
  intros HO. unfold acts. induction es as [|e es IH] using rev_ind.
  { split; [done|]. intros sid. by rewrite app_nil_r. }
  rewrite foldl_snoc. destruct (foldl act (o, taken) es) as [o1 taken1]. destruct IH as [HO1 Hs1].
  pose proof (act_spec o1 taken1 e HO1) as Ha. destruct (act (o1, taken1) e) as [o2 taken2]. destruct Ha as [HO2 Hs2].
  split; [done|]. intros sid. rewrite Hs2, app_assoc, Hs1, left_events_app, filter_app, for_session_app. by rewrite <- !app_assoc.
Qed.

Lemma outbox_new_ok : outbox_ok WorkerOutbox_new.
Proof.
  split; cbn; [done|constructor| |done|intros; constructor]. intros sid. rewrite lookup_empty.
  split; [intros H; by apply not_elem_of_nil in H|by intros [? ?]].
Qed.

(** The taken messages only grow. *)
Lemma acts_grow es o taken : ∃ more, (acts (o, taken) es).2 = taken ++ more.
Proof.
  unfold acts. induction es as [|e es IH] using rev_ind; [exists []; by rewrite app_nil_r|]. rewrite foldl_snoc.
  destruct IH as [more IH]. destruct (foldl act (o, taken) es) as [o1 taken1]. cbn in IH. subst.
  destruct e as [msg|]; cbn [act]; [by exists more|]. destruct (take_one o1) as [[o2 b] tk].
  exists (more ++ option_list tk). by rewrite <- app_assoc.
Qed.

(** A session that waits behind [ahead] others is served after that many rounds. *)
Lemma served es o taken ahead sid behind msg rest : outbox_ok o → ready_sessions_ o = ahead ++ sid :: behind →
  queue_of o sid = msg :: rest → (length ahead < rounds es)%nat →
  ∃ more, (acts (o, taken) es).2 = taken ++ more ∧ msg ∈ more.
Proof.
  revert o taken ahead behind rest. induction es as [|e es IH]; intros o taken ahead behind rest HO Hr Hq Hn; [cbn in Hn; lia|].
  unfold acts in *. cbn [foldl]. destruct e as [m|]; cbn [act].
  - assert (Hr' : ∃ behind', ready_sessions_ (Enqueue o m) = ahead ++ sid :: behind').
    { unfold Enqueue. destruct (_ || _); [by exists behind|]. case_bool_decide; cbn; [by exists behind|].
      exists (behind ++ [out_session m]). by rewrite Hr, <- app_assoc. }
    destruct Hr' as [behind' Hr']. eapply (IH (Enqueue o m) taken ahead behind'); [by apply Enqueue_ok|done| |done].
    rewrite Enqueue_queue, Hq. done.
  - pose proof (take_one_ok o HO) as Ht. destruct (take_one o) as [[o' b] tk]. destruct Ht as [HO' Ht].
    destruct ahead as [|k ahead]; cbn in Hr; rewrite Hr in Ht; destruct Ht as (m & q & _ & -> & Hq1 & Hq2 & Hother & tail & Hr').
    + rewrite Hq in Hq1. injection Hq1 as <- <-. destruct (acts_grow es o' (taken ++ option_list (Some msg))) as [more Hm].
      unfold acts in Hm. rewrite Hm. exists (msg :: more). rewrite <- app_assoc. split; [done|by left].
    + assert (sid ≠ k). { pose proof (ok_nodup _ HO) as Hd. rewrite Hr in Hd. apply NoDup_cons in Hd as [Hd _]. set_solver. }
      destruct (IH o' (taken ++ option_list (Some m)) ahead (behind ++ tail) rest) as (more & Hm & Hin); [done| | |change (rounds (Round :: es)) with (S (rounds es)) in Hn; cbn in Hn; lia|].
      * by rewrite Hr', <- app_assoc.
      * by rewrite Hother.
      * exists ([m] ++ more). rewrite app_assoc. split; [done|]. by apply elem_of_app; right.
Qed.

(** C24: whatever messages are left and taken in whatever order, what was taken for a session
    followed by what still waits for it is exactly what was left for it, in order: nothing is
    lost, doubled or overtaken.  And no session starves: one that waits behind others has its
    next message taken after as many rounds, however many messages are left meanwhile. *)
Theorem outbox_fifo_fair es :
  let '(o, taken) := acts (WorkerOutbox_new, []) es in
  (∀ sid, for_session sid taken ++ queue_of o sid = for_session sid (filter accepted (left_events es))) ∧
  (∀ sid msg rest, queue_of o sid = msg :: rest →
    ∃ ahead behind, ready_sessions_ o = ahead ++ sid :: behind ∧
      ∀ later, (length ahead < rounds later)%nat → ∃ more, (acts (o, taken) later).2 = taken ++ more ∧ msg ∈ more).
Proof.
  pose proof (acts_spec es WorkerOutbox_new [] outbox_new_ok) as Hs. destruct (acts _ es) as [o taken].
  destruct Hs as [HO Hs]. split; [intros sid; apply Hs|]. intros sid msg rest Hq.
  assert (sid ∈ ready_sessions_ o) as (ahead & behind & Hr)%list_elem_of_split.
  { apply (ok_ready _ HO). unfold queue_of in Hq. by destruct (queues_ o !! sid); [eauto|]. }
  exists ahead, behind. split; [done|]. intros later Hl. by eapply served.
Qed.

End Outbox.

Arguments OutboundMessage : clear implicits.
Arguments WorkerOutbox : clear implicits.

(** Two messages for one session and one for another: a round for each. *)
Definition three_left : list (@event Z) :=
  [Left (mkOut 7 1 1 (Some 70)); Left (mkOut 7 1 2 (Some 71)); Left (mkOut 8 1 3 (Some 80))].

Lemma outbox_fifo_fair_witness : ∃ ahead behind, ready_sessions_ (acts (WorkerOutbox_new, []) three_left).1 = ahead ++ 8 :: behind ∧
  ∀ later, (length ahead < rounds later)%nat →
    ∃ more, (acts (acts (WorkerOutbox_new, []) three_left) later).2 = more ∧ mkOut 8 1 3 (Some 80) ∈ more.
Proof.
  pose proof (outbox_fifo_fair three_left) as HT. destruct (acts _ three_left) as [o taken] eqn:E.
  assert (Ho : queue_of o 8 = [mkOut 8 1 3 (Some 80)]) by (vm_compute in E; injection E as <- <-; reflexivity).
  destruct (proj2 HT 8 _ _ Ho) as (ahead & behind & Hr & Hl). exists ahead, behind. split; [exact Hr|]. intros later Hlen.
  destruct (Hl later Hlen) as (more & -> & Hin). exists (taken ++ more). split; [reflexivity|]. apply elem_of_app. right. exact Hin.
Defined.
