(* ===== verification/DungeonRoom.v ===== *)
(** * Rooms of the dungeon server

    [app/examples/game/dungeon_full_server/src/game/room.cpp] with the systems that work on a
    room: [system/combat_system.cpp], [system/party_system.cpp], [system/chat_system.cpp],
    [game/projectile_manager.cpp] and the handlers of [handler/game_handler.cpp] and
    [handler/social_handler.cpp].

    A room is run by its job queue, one job at a time, so each function takes the room and
    gives it back.  What it sends is kept in [sent_], each message with the worker whose outbox
    takes it.  The messages are the protobuf messages with their fields; decoding and encoding
    are generated code and not part of the model, so a packet is given decoded.

    Counters and identifiers are integers without a bound: none can come near its width. *)

From S2P Require Import Prelude Text Dungeon Float32 Outbox.

#[local] Open Scope Z_scope.
#[local] Set Warnings "-clear-no-such-hyp".

Record Vec3 := mkVec { vx : f32; vy : f32; vz : f32 }.
Definition vec0 : Vec3 := mkVec F32.zero F32.zero F32.zero.

(** ** Players, items and projectiles *)

(** Source: app/examples/game/dungeon_full_server/src/game/room.h:22-55, PlayerState.
    [worker_ring] is whether the pointer is set. *)
Record PlayerState := mkPS {
  player_id : Z;
  name : bytes;
  hp : Z;
  max_hp : Z;
  level : Z;
  pos : Vec3;
  rotation_y : f32;
  vel : Vec3;
  move_state : Z;
  worker_ring : bool;
  session_id : Z;
  worker_id : Z;
  scene_ready : bool;
  gold : Z;
  party_id : Z;
  skill_cooldowns : gmap Z Z;
  is_dead : bool;
  death_time : Z;
  kills : Z;
  deaths : Z;
}.
Definition set_hp (v : Z) (p : PlayerState) : PlayerState :=
  mkPS (player_id p) (name p) v (max_hp p) (level p) (pos p) (rotation_y p) (vel p) (move_state p) (worker_ring p) (session_id p) (worker_id p) (scene_ready p) (gold p) (party_id p) (skill_cooldowns p) (is_dead p) (death_time p) (kills p) (deaths p).
Definition set_pos (v : Vec3) (p : PlayerState) : PlayerState :=
  mkPS (player_id p) (name p) (hp p) (max_hp p) (level p) v (rotation_y p) (vel p) (move_state p) (worker_ring p) (session_id p) (worker_id p) (scene_ready p) (gold p) (party_id p) (skill_cooldowns p) (is_dead p) (death_time p) (kills p) (deaths p).
Definition set_rotation_y (v : f32) (p : PlayerState) : PlayerState :=
  mkPS (player_id p) (name p) (hp p) (max_hp p) (level p) (pos p) v (vel p) (move_state p) (worker_ring p) (session_id p) (worker_id p) (scene_ready p) (gold p) (party_id p) (skill_cooldowns p) (is_dead p) (death_time p) (kills p) (deaths p).
Definition set_vel (v : Vec3) (p : PlayerState) : PlayerState :=
  mkPS (player_id p) (name p) (hp p) (max_hp p) (level p) (pos p) (rotation_y p) v (move_state p) (worker_ring p) (session_id p) (worker_id p) (scene_ready p) (gold p) (party_id p) (skill_cooldowns p) (is_dead p) (death_time p) (kills p) (deaths p).
Definition set_move_state (v : Z) (p : PlayerState) : PlayerState :=
  mkPS (player_id p) (name p) (hp p) (max_hp p) (level p) (pos p) (rotation_y p) (vel p) v (worker_ring p) (session_id p) (worker_id p) (scene_ready p) (gold p) (party_id p) (skill_cooldowns p) (is_dead p) (death_time p) (kills p) (deaths p).
Definition set_scene_ready (v : bool) (p : PlayerState) : PlayerState :=
  mkPS (player_id p) (name p) (hp p) (max_hp p) (level p) (pos p) (rotation_y p) (vel p) (move_state p) (worker_ring p) (session_id p) (worker_id p) v (gold p) (party_id p) (skill_cooldowns p) (is_dead p) (death_time p) (kills p) (deaths p).
Definition set_gold (v : Z) (p : PlayerState) : PlayerState :=
  mkPS (player_id p) (name p) (hp p) (max_hp p) (level p) (pos p) (rotation_y p) (vel p) (move_state p) (worker_ring p) (session_id p) (worker_id p) (scene_ready p) v (party_id p) (skill_cooldowns p) (is_dead p) (death_time p) (kills p) (deaths p).
Definition set_party_id (v : Z) (p : PlayerState) : PlayerState :=
  mkPS (player_id p) (name p) (hp p) (max_hp p) (level p) (pos p) (rotation_y p) (vel p) (move_state p) (worker_ring p) (session_id p) (worker_id p) (scene_ready p) (gold p) v (skill_cooldowns p) (is_dead p) (death_time p) (kills p) (deaths p).
Definition set_skill_cooldowns (v : gmap Z Z) (p : PlayerState) : PlayerState :=
  mkPS (player_id p) (name p) (hp p) (max_hp p) (level p) (pos p) (rotation_y p) (vel p) (move_state p) (worker_ring p) (session_id p) (worker_id p) (scene_ready p) (gold p) (party_id p) v (is_dead p) (death_time p) (kills p) (deaths p).
Definition set_is_dead (v : bool) (p : PlayerState) : PlayerState :=
  mkPS (player_id p) (name p) (hp p) (max_hp p) (level p) (pos p) (rotation_y p) (vel p) (move_state p) (worker_ring p) (session_id p) (worker_id p) (scene_ready p) (gold p) (party_id p) (skill_cooldowns p) v (death_time p) (kills p) (deaths p).
Definition set_death_time (v : Z) (p : PlayerState) : PlayerState :=
  mkPS (player_id p) (name p) (hp p) (max_hp p) (level p) (pos p) (rotation_y p) (vel p) (move_state p) (worker_ring p) (session_id p) (worker_id p) (scene_ready p) (gold p) (party_id p) (skill_cooldowns p) (is_dead p) v (kills p) (deaths p).
Definition set_kills (v : Z) (p : PlayerState) : PlayerState :=
  mkPS (player_id p) (name p) (hp p) (max_hp p) (level p) (pos p) (rotation_y p) (vel p) (move_state p) (worker_ring p) (session_id p) (worker_id p) (scene_ready p) (gold p) (party_id p) (skill_cooldowns p) (is_dead p) (death_time p) v (deaths p).
Definition set_deaths (v : Z) (p : PlayerState) : PlayerState :=
  mkPS (player_id p) (name p) (hp p) (max_hp p) (level p) (pos p) (rotation_y p) (vel p) (move_state p) (worker_ring p) (session_id p) (worker_id p) (scene_ready p) (gold p) (party_id p) (skill_cooldowns p) (is_dead p) (death_time p) (kills p) v.

(** Source: app/examples/game/dungeon_full_server/src/game/room.h:57-63, GroundItem. *)
Record GroundItem := mkItem { ground_id : Z; item_def_id : Z; item_pos : Vec3; label : bytes; lifetime : f32 }.

(** Source: app/examples/game/dungeon_full_server/src/game/projectile_manager.h:10-19, Projectile.
    The speed and the greatest distance are the same for all. *)
Record Projectile := mkProjectile { projectile_id : Z; owner_id : Z; at_ : Vec3; dir : Vec3; traveled : f32; projectile_skill : Z }.

(** Source: app/examples/game/dungeon_full_server/src/game/bot_manager.h:16-42, BotState.
    [last_attack] is never used. *)
Record BotState := mkBot {
  bot_id : Z;
  bot_name : bytes;
  bot_pos : Vec3;
  target_x : f32;
  target_z : f32;
  bot_vel : Vec3;
  bot_rotation_y : f32;
  bot_hp : Z;
  bot_max_hp : Z;
  bot_is_dead : bool;
  has_target : bool;
  chase_target : Z;
  bot_death_time : Z;
  speed : f32;
  path : list Coord;
  path_idx : Z;
  bot_cooldowns : gmap Z Z;
  aggro_origin_x : f32;
  aggro_origin_z : f32;
  chase_start_time : Z;
  is_retreating : bool;
}.
Definition set_bot_pos (v : Vec3) (b : BotState) : BotState :=
  mkBot (bot_id b) (bot_name b) v (target_x b) (target_z b) (bot_vel b) (bot_rotation_y b) (bot_hp b) (bot_max_hp b) (bot_is_dead b) (has_target b) (chase_target b) (bot_death_time b) (speed b) (path b) (path_idx b) (bot_cooldowns b) (aggro_origin_x b) (aggro_origin_z b) (chase_start_time b) (is_retreating b).
Definition set_target_x (v : f32) (b : BotState) : BotState :=
  mkBot (bot_id b) (bot_name b) (bot_pos b) v (target_z b) (bot_vel b) (bot_rotation_y b) (bot_hp b) (bot_max_hp b) (bot_is_dead b) (has_target b) (chase_target b) (bot_death_time b) (speed b) (path b) (path_idx b) (bot_cooldowns b) (aggro_origin_x b) (aggro_origin_z b) (chase_start_time b) (is_retreating b).
Definition set_target_z (v : f32) (b : BotState) : BotState :=
  mkBot (bot_id b) (bot_name b) (bot_pos b) (target_x b) v (bot_vel b) (bot_rotation_y b) (bot_hp b) (bot_max_hp b) (bot_is_dead b) (has_target b) (chase_target b) (bot_death_time b) (speed b) (path b) (path_idx b) (bot_cooldowns b) (aggro_origin_x b) (aggro_origin_z b) (chase_start_time b) (is_retreating b).
Definition set_bot_vel (v : Vec3) (b : BotState) : BotState :=
  mkBot (bot_id b) (bot_name b) (bot_pos b) (target_x b) (target_z b) v (bot_rotation_y b) (bot_hp b) (bot_max_hp b) (bot_is_dead b) (has_target b) (chase_target b) (bot_death_time b) (speed b) (path b) (path_idx b) (bot_cooldowns b) (aggro_origin_x b) (aggro_origin_z b) (chase_start_time b) (is_retreating b).
Definition set_bot_rotation_y (v : f32) (b : BotState) : BotState :=
  mkBot (bot_id b) (bot_name b) (bot_pos b) (target_x b) (target_z b) (bot_vel b) v (bot_hp b) (bot_max_hp b) (bot_is_dead b) (has_target b) (chase_target b) (bot_death_time b) (speed b) (path b) (path_idx b) (bot_cooldowns b) (aggro_origin_x b) (aggro_origin_z b) (chase_start_time b) (is_retreating b).
Definition set_bot_hp (v : Z) (b : BotState) : BotState :=
  mkBot (bot_id b) (bot_name b) (bot_pos b) (target_x b) (target_z b) (bot_vel b) (bot_rotation_y b) v (bot_max_hp b) (bot_is_dead b) (has_target b) (chase_target b) (bot_death_time b) (speed b) (path b) (path_idx b) (bot_cooldowns b) (aggro_origin_x b) (aggro_origin_z b) (chase_start_time b) (is_retreating b).
Definition set_bot_is_dead (v : bool) (b : BotState) : BotState :=
  mkBot (bot_id b) (bot_name b) (bot_pos b) (target_x b) (target_z b) (bot_vel b) (bot_rotation_y b) (bot_hp b) (bot_max_hp b) v (has_target b) (chase_target b) (bot_death_time b) (speed b) (path b) (path_idx b) (bot_cooldowns b) (aggro_origin_x b) (aggro_origin_z b) (chase_start_time b) (is_retreating b).
Definition set_has_target (v : bool) (b : BotState) : BotState :=
  mkBot (bot_id b) (bot_name b) (bot_pos b) (target_x b) (target_z b) (bot_vel b) (bot_rotation_y b) (bot_hp b) (bot_max_hp b) (bot_is_dead b) v (chase_target b) (bot_death_time b) (speed b) (path b) (path_idx b) (bot_cooldowns b) (aggro_origin_x b) (aggro_origin_z b) (chase_start_time b) (is_retreating b).
Definition set_chase_target (v : Z) (b : BotState) : BotState :=
  mkBot (bot_id b) (bot_name b) (bot_pos b) (target_x b) (target_z b) (bot_vel b) (bot_rotation_y b) (bot_hp b) (bot_max_hp b) (bot_is_dead b) (has_target b) v (bot_death_time b) (speed b) (path b) (path_idx b) (bot_cooldowns b) (aggro_origin_x b) (aggro_origin_z b) (chase_start_time b) (is_retreating b).
Definition set_bot_death_time (v : Z) (b : BotState) : BotState :=
  mkBot (bot_id b) (bot_name b) (bot_pos b) (target_x b) (target_z b) (bot_vel b) (bot_rotation_y b) (bot_hp b) (bot_max_hp b) (bot_is_dead b) (has_target b) (chase_target b) v (speed b) (path b) (path_idx b) (bot_cooldowns b) (aggro_origin_x b) (aggro_origin_z b) (chase_start_time b) (is_retreating b).
Definition set_path (v : list Coord) (b : BotState) : BotState :=
  mkBot (bot_id b) (bot_name b) (bot_pos b) (target_x b) (target_z b) (bot_vel b) (bot_rotation_y b) (bot_hp b) (bot_max_hp b) (bot_is_dead b) (has_target b) (chase_target b) (bot_death_time b) (speed b) v (path_idx b) (bot_cooldowns b) (aggro_origin_x b) (aggro_origin_z b) (chase_start_time b) (is_retreating b).
Definition set_path_idx (v : Z) (b : BotState) : BotState :=
  mkBot (bot_id b) (bot_name b) (bot_pos b) (target_x b) (target_z b) (bot_vel b) (bot_rotation_y b) (bot_hp b) (bot_max_hp b) (bot_is_dead b) (has_target b) (chase_target b) (bot_death_time b) (speed b) (path b) v (bot_cooldowns b) (aggro_origin_x b) (aggro_origin_z b) (chase_start_time b) (is_retreating b).
Definition set_bot_cooldowns (v : gmap Z Z) (b : BotState) : BotState :=
  mkBot (bot_id b) (bot_name b) (bot_pos b) (target_x b) (target_z b) (bot_vel b) (bot_rotation_y b) (bot_hp b) (bot_max_hp b) (bot_is_dead b) (has_target b) (chase_target b) (bot_death_time b) (speed b) (path b) (path_idx b) v (aggro_origin_x b) (aggro_origin_z b) (chase_start_time b) (is_retreating b).
Definition set_aggro_origin_x (v : f32) (b : BotState) : BotState :=
  mkBot (bot_id b) (bot_name b) (bot_pos b) (target_x b) (target_z b) (bot_vel b) (bot_rotation_y b) (bot_hp b) (bot_max_hp b) (bot_is_dead b) (has_target b) (chase_target b) (bot_death_time b) (speed b) (path b) (path_idx b) (bot_cooldowns b) v (aggro_origin_z b) (chase_start_time b) (is_retreating b).
Definition set_aggro_origin_z (v : f32) (b : BotState) : BotState :=
  mkBot (bot_id b) (bot_name b) (bot_pos b) (target_x b) (target_z b) (bot_vel b) (bot_rotation_y b) (bot_hp b) (bot_max_hp b) (bot_is_dead b) (has_target b) (chase_target b) (bot_death_time b) (speed b) (path b) (path_idx b) (bot_cooldowns b) (aggro_origin_x b) v (chase_start_time b) (is_retreating b).
Definition set_chase_start_time (v : Z) (b : BotState) : BotState :=
  mkBot (bot_id b) (bot_name b) (bot_pos b) (target_x b) (target_z b) (bot_vel b) (bot_rotation_y b) (bot_hp b) (bot_max_hp b) (bot_is_dead b) (has_target b) (chase_target b) (bot_death_time b) (speed b) (path b) (path_idx b) (bot_cooldowns b) (aggro_origin_x b) (aggro_origin_z b) v (is_retreating b).
Definition set_is_retreating (v : bool) (b : BotState) : BotState :=
  mkBot (bot_id b) (bot_name b) (bot_pos b) (target_x b) (target_z b) (bot_vel b) (bot_rotation_y b) (bot_hp b) (bot_max_hp b) (bot_is_dead b) (has_target b) (chase_target b) (bot_death_time b) (speed b) (path b) (path_idx b) (bot_cooldowns b) (aggro_origin_x b) (aggro_origin_z b) (chase_start_time b) v.

(** Source: app/examples/game/dungeon_full_server/src/system/combat_system.h:11-18, SkillData. *)
Record SkillData := mkSkill { skill_id : Z; skill_name : bytes; damage : Z; range : f32; cooldown_ms : Z; is_self_target : bool }.

(** Source: app/examples/game/dungeon_full_server/src/system/combat_system.h:22-27, CombatSystem. *)
Definition kSkills : list SkillData := [
  mkSkill 0 (txt "Basic Attack") 10 (F32.of_Z 2) 500 false;
  mkSkill 1 (txt "Power Strike") 25 (F32.lit 5 2) 2000 false;
  mkSkill 2 (txt "Fireball") 40 (F32.of_Z 8) 3000 false;
  mkSkill 3 (txt "Heal") (-30) (F32.of_Z 0) 5000 true].

(** ** Messages *)

Record PlayerInfo := mkInfo { info_id : Z; info_name : bytes; info_hp : Z; info_max_hp : Z; info_level : Z; info_pos : Vec3; info_rotation : f32 }.
Record PartyMemberInfo := mkMember { member_id : Z; member_name : bytes; member_hp : Z; member_max_hp : Z; member_level : Z; is_leader : bool }.
Record ScoreEntry := mkScore { score_id : Z; score_name : bytes; score_kills : Z; score_deaths : Z; score_level : Z }.

Inductive ChatType := CHAT_ALL | CHAT_ZONE | CHAT_PARTY | CHAT_WHISPER | CHAT_OTHER.

(** What the server sends. *)
Inductive server_msg :=
| S_SKILL_DATA (skills : list SkillData)
| S_CREATE_ROOM (zone_id : Z) (player : PlayerInfo) (map_data : Dungeon)
| S_JOIN_ROOM (zone_id : Z) (player : PlayerInfo) (map_data : Dungeon)
| S_JOIN_ROOM_error (error : bytes)
| S_PORTAL (zone_id : Z) (player : PlayerInfo) (map_data : Dungeon)
| S_PORTAL_error (error : bytes)
| S_PLAYER_LIST (players : list PlayerInfo)
| S_SPAWN (player : PlayerInfo)
| S_DESPAWN (player : Z)
| S_RESPAWN (player : PlayerInfo)
| S_MOVE (player : Z) (position : Vec3) (rotation : f32) (velocity : Vec3) (state : Z)
| S_ATTACK (attacker target skill : Z) (fire_pos : Vec3) (fire_dir : option Vec3)
| S_DAMAGE (attacker target damage remaining_hp skill : Z) (dead : bool)
| S_FIRE (player : Z) (fire_pos fire_dir : Vec3)
| S_SCOREBOARD (entries : list ScoreEntry)
| S_GROUND_ITEM_SPAWN (ground item_def : Z) (position : Vec3) (label : bytes)
| S_GROUND_ITEM_DESPAWN (ground : Z)
| S_PICKUP (ground : Z) (success : bool)
| S_ITEM_ADD (instance item_def slot quantity durability : Z)
| S_ITEM_REMOVE (instance : Z)
| S_USE_ITEM (instance : Z) (effect : bytes)
| S_CURRENCY_UPDATE (gold : Z)
| S_CHAT (type : ChatType) (sender : Z) (sender_name message target_name : bytes)
| S_CREATE_PARTY (party : Z)
| S_JOIN_PARTY (party : option Z)
| S_LEAVE_PARTY
| S_PARTY_UPDATE (party leader : Z) (members : list PartyMemberInfo).

(** What an outbox holds: a packet, or the task that puts a player's session in the room. *)
Inductive payload := Packet (m : server_msg) | EnterState (player room : Z).

(** A packet of a client in a room, decoded; a vector that was not set is [None]. *)
Inductive client_packet :=
| C_SCENE_READY
| C_MOVE (position : Vec3) (rotation : f32) (velocity : option Vec3) (state : Z)
| C_ATTACK (target skill : Z) (fire_pos fire_dir : option Vec3)
| C_FIRE (fire_pos fire_dir : Vec3)
| C_CHAT (type : ChatType) (message target_name : bytes)
| C_CREATE_PARTY
| C_JOIN_PARTY (party : Z)
| C_LEAVE_PARTY
| C_PICKUP (ground : Z)
| C_USE_ITEM (instance : Z)
| C_OTHER.   (* unknown, or not parsed *)

(** ** What the code does not fix *)

Class Env := {
  env_rng :: Rng;
  rand : rng → Z * rng;                          (* a number of [std::mt19937] *)
  uniform_real : f32 → f32 → rng → f32 * rng;    (* [std::uniform_real_distribution] *)
  enum : ∀ {A}, gmap Z A → list (Z * A);         (* the order of a hash table *)
  worker_up : Z → bool;                          (* the worker exists and has its ring *)
  unfit_int : f32 → Z;                           (* what a number no [int] holds becomes *)
  atan2f : f32 → f32 → f32;
  builds : server_msg → bool;                    (* the packet can be built *)
}.

(** A hash table gives each of its elements once. *)
Class EnvOk `{Env} : Prop := {
  env_rng_ok :: RngOk;
  enum_all : ∀ A (m : gmap Z A), enum m ≡ₚ map_to_list m;
  rand_nonneg : ∀ r, 0 ≤ (rand r).1;
}.

(** ** The room *)

Section Room.
Context `{Env}.

(** Source: app/examples/game/dungeon_full_server/src/game/room.h:65-174, Room.
    [generated_] is whether [map_data_] was set; [base_players_] are the players of the base
    class; [sent_] is a log of the messages put in the outboxes, and [unbuilt_] counts the
    packets that could not be built. *)
Record game_room := mkGame {
  id_ : Z;
  name_ : bytes;
  players_ : gmap Z PlayerState;
  base_players_ : gset Z;
  dungeon_ : Dungeon;
  generated_ : bool;
  bots_ : gmap Z BotState;
  next_bot_id_ : Z;
  projectiles_ : list Projectile;
  next_projectile_ : Z;
  ground_items_ : gmap Z GroundItem;
  nextGroundId_ : Z;
  next_room_seq_ : Z;
  connections_ : gmap Z Z;
  empty_since_ : option Z;
  depth_ : Z;
  scoreboardCounter_ : Z;
  rng_ : rng;
  sent_ : list (Z * OutboundMessage payload);
  unbuilt_ : nat;
}.

Definition set_players_ (v : gmap Z PlayerState) (r : game_room) : game_room :=
  mkGame (id_ r) (name_ r) v (base_players_ r) (dungeon_ r) (generated_ r) (bots_ r) (next_bot_id_ r) (projectiles_ r) (next_projectile_ r) (ground_items_ r) (nextGroundId_ r) (next_room_seq_ r) (connections_ r) (empty_since_ r) (depth_ r) (scoreboardCounter_ r) (rng_ r) (sent_ r) (unbuilt_ r).
Definition set_base_players_ (v : gset Z) (r : game_room) : game_room :=
  mkGame (id_ r) (name_ r) (players_ r) v (dungeon_ r) (generated_ r) (bots_ r) (next_bot_id_ r) (projectiles_ r) (next_projectile_ r) (ground_items_ r) (nextGroundId_ r) (next_room_seq_ r) (connections_ r) (empty_since_ r) (depth_ r) (scoreboardCounter_ r) (rng_ r) (sent_ r) (unbuilt_ r).
Definition set_dungeon_ (v : Dungeon) (r : game_room) : game_room :=
  mkGame (id_ r) (name_ r) (players_ r) (base_players_ r) v (generated_ r) (bots_ r) (next_bot_id_ r) (projectiles_ r) (next_projectile_ r) (ground_items_ r) (nextGroundId_ r) (next_room_seq_ r) (connections_ r) (empty_since_ r) (depth_ r) (scoreboardCounter_ r) (rng_ r) (sent_ r) (unbuilt_ r).
Definition set_generated_ (v : bool) (r : game_room) : game_room :=
  mkGame (id_ r) (name_ r) (players_ r) (base_players_ r) (dungeon_ r) v (bots_ r) (next_bot_id_ r) (projectiles_ r) (next_projectile_ r) (ground_items_ r) (nextGroundId_ r) (next_room_seq_ r) (connections_ r) (empty_since_ r) (depth_ r) (scoreboardCounter_ r) (rng_ r) (sent_ r) (unbuilt_ r).
Definition set_bots_ (v : gmap Z BotState) (r : game_room) : game_room :=
  mkGame (id_ r) (name_ r) (players_ r) (base_players_ r) (dungeon_ r) (generated_ r) v (next_bot_id_ r) (projectiles_ r) (next_projectile_ r) (ground_items_ r) (nextGroundId_ r) (next_room_seq_ r) (connections_ r) (empty_since_ r) (depth_ r) (scoreboardCounter_ r) (rng_ r) (sent_ r) (unbuilt_ r).
Definition set_next_bot_id_ (v : Z) (r : game_room) : game_room :=
  mkGame (id_ r) (name_ r) (players_ r) (base_players_ r) (dungeon_ r) (generated_ r) (bots_ r) v (projectiles_ r) (next_projectile_ r) (ground_items_ r) (nextGroundId_ r) (next_room_seq_ r) (connections_ r) (empty_since_ r) (depth_ r) (scoreboardCounter_ r) (rng_ r) (sent_ r) (unbuilt_ r).
Definition set_projectiles_ (v : list Projectile) (r : game_room) : game_room :=
  mkGame (id_ r) (name_ r) (players_ r) (base_players_ r) (dungeon_ r) (generated_ r) (bots_ r) (next_bot_id_ r) v (next_projectile_ r) (ground_items_ r) (nextGroundId_ r) (next_room_seq_ r) (connections_ r) (empty_since_ r) (depth_ r) (scoreboardCounter_ r) (rng_ r) (sent_ r) (unbuilt_ r).
Definition set_next_projectile_ (v : Z) (r : game_room) : game_room :=
  mkGame (id_ r) (name_ r) (players_ r) (base_players_ r) (dungeon_ r) (generated_ r) (bots_ r) (next_bot_id_ r) (projectiles_ r) v (ground_items_ r) (nextGroundId_ r) (next_room_seq_ r) (connections_ r) (empty_since_ r) (depth_ r) (scoreboardCounter_ r) (rng_ r) (sent_ r) (unbuilt_ r).
Definition set_ground_items_ (v : gmap Z GroundItem) (r : game_room) : game_room :=
  mkGame (id_ r) (name_ r) (players_ r) (base_players_ r) (dungeon_ r) (generated_ r) (bots_ r) (next_bot_id_ r) (projectiles_ r) (next_projectile_ r) v (nextGroundId_ r) (next_room_seq_ r) (connections_ r) (empty_since_ r) (depth_ r) (scoreboardCounter_ r) (rng_ r) (sent_ r) (unbuilt_ r).
Definition set_nextGroundId_ (v : Z) (r : game_room) : game_room :=
  mkGame (id_ r) (name_ r) (players_ r) (base_players_ r) (dungeon_ r) (generated_ r) (bots_ r) (next_bot_id_ r) (projectiles_ r) (next_projectile_ r) (ground_items_ r) v (next_room_seq_ r) (connections_ r) (empty_since_ r) (depth_ r) (scoreboardCounter_ r) (rng_ r) (sent_ r) (unbuilt_ r).
Definition set_next_room_seq_ (v : Z) (r : game_room) : game_room :=
  mkGame (id_ r) (name_ r) (players_ r) (base_players_ r) (dungeon_ r) (generated_ r) (bots_ r) (next_bot_id_ r) (projectiles_ r) (next_projectile_ r) (ground_items_ r) (nextGroundId_ r) v (connections_ r) (empty_since_ r) (depth_ r) (scoreboardCounter_ r) (rng_ r) (sent_ r) (unbuilt_ r).
Definition set_connections_ (v : gmap Z Z) (r : game_room) : game_room :=
  mkGame (id_ r) (name_ r) (players_ r) (base_players_ r) (dungeon_ r) (generated_ r) (bots_ r) (next_bot_id_ r) (projectiles_ r) (next_projectile_ r) (ground_items_ r) (nextGroundId_ r) (next_room_seq_ r) v (empty_since_ r) (depth_ r) (scoreboardCounter_ r) (rng_ r) (sent_ r) (unbuilt_ r).
Definition set_empty_since_ (v : option Z) (r : game_room) : game_room :=
  mkGame (id_ r) (name_ r) (players_ r) (base_players_ r) (dungeon_ r) (generated_ r) (bots_ r) (next_bot_id_ r) (projectiles_ r) (next_projectile_ r) (ground_items_ r) (nextGroundId_ r) (next_room_seq_ r) (connections_ r) v (depth_ r) (scoreboardCounter_ r) (rng_ r) (sent_ r) (unbuilt_ r).
Definition set_depth_ (v : Z) (r : game_room) : game_room :=
  mkGame (id_ r) (name_ r) (players_ r) (base_players_ r) (dungeon_ r) (generated_ r) (bots_ r) (next_bot_id_ r) (projectiles_ r) (next_projectile_ r) (ground_items_ r) (nextGroundId_ r) (next_room_seq_ r) (connections_ r) (empty_since_ r) v (scoreboardCounter_ r) (rng_ r) (sent_ r) (unbuilt_ r).
Definition set_scoreboardCounter_ (v : Z) (r : game_room) : game_room :=
  mkGame (id_ r) (name_ r) (players_ r) (base_players_ r) (dungeon_ r) (generated_ r) (bots_ r) (next_bot_id_ r) (projectiles_ r) (next_projectile_ r) (ground_items_ r) (nextGroundId_ r) (next_room_seq_ r) (connections_ r) (empty_since_ r) (depth_ r) v (rng_ r) (sent_ r) (unbuilt_ r).
Definition set_rng_ (v : rng) (r : game_room) : game_room :=
  mkGame (id_ r) (name_ r) (players_ r) (base_players_ r) (dungeon_ r) (generated_ r) (bots_ r) (next_bot_id_ r) (projectiles_ r) (next_projectile_ r) (ground_items_ r) (nextGroundId_ r) (next_room_seq_ r) (connections_ r) (empty_since_ r) (depth_ r) (scoreboardCounter_ r) v (sent_ r) (unbuilt_ r).
Definition set_sent_ (v : list (Z * OutboundMessage payload)) (r : game_room) : game_room :=
  mkGame (id_ r) (name_ r) (players_ r) (base_players_ r) (dungeon_ r) (generated_ r) (bots_ r) (next_bot_id_ r) (projectiles_ r) (next_projectile_ r) (ground_items_ r) (nextGroundId_ r) (next_room_seq_ r) (connections_ r) (empty_since_ r) (depth_ r) (scoreboardCounter_ r) (rng_ r) v (unbuilt_ r).
Definition set_unbuilt_ (v : nat) (r : game_room) : game_room :=
  mkGame (id_ r) (name_ r) (players_ r) (base_players_ r) (dungeon_ r) (generated_ r) (bots_ r) (next_bot_id_ r) (projectiles_ r) (next_projectile_ r) (ground_items_ r) (nextGroundId_ r) (next_room_seq_ r) (connections_ r) (empty_since_ r) (depth_ r) (scoreboardCounter_ r) (rng_ r) (sent_ r) v.

Definition no_dungeon : Dungeon := mkDungeon ∅ [] [] [] (0, 0) [].

(** Source: app/examples/game/dungeon_full_server/src/game/room.cpp:21-27, Room::Room. *)
Definition Room_new (id : Z) (name : bytes) (r : rng) : game_room :=
  mkGame id name ∅ ∅ no_dungeon false ∅ 900000 [] 1 ∅ 1 1 ∅ None 0 0 r [] 0.

Definition player (r : game_room) (pid : Z) : option PlayerState := players_ r !! pid.
Definition update_player (pid : Z) (f : PlayerState → PlayerState) (r : game_room) : game_room :=
  set_players_ (alter f pid (players_ r)) r.

Definition draw {A} (f : rng → A * rng) (r : game_room) : A * game_room :=
  let '(a, g) := f (rng_ r) in (a, set_rng_ g r).

(** The cell of a position: [std::round], or the conversion alone. *)
Definition cell_round (x : f32) (size : Z) : Z :=
  let v := (x / F32.of_Z 1 + F32.of_Z size / F32.of_Z 2)%f32 in default (unfit_int v) (F32.round v).
Definition cell_trunc (x : f32) (size : Z) : Z :=
  let v := (x / F32.of_Z 1 + F32.of_Z size / F32.of_Z 2)%f32 in default (unfit_int v) (F32.trunc v).
Definition grid_round (x z : f32) : Coord := (cell_round x GRID_WIDTH, cell_round z GRID_HEIGHT).
Definition grid_trunc (x z : f32) : Coord := (cell_trunc x GRID_WIDTH, cell_trunc z GRID_HEIGHT).

(** ** Sending *)

(** A message for a session in the outbox of its worker. *)
Definition enqueue (sid wid : Z) (body : payload) (r : game_room) : game_room :=
  set_sent_ (sent_ r ++ [(wid, mkOut sid (id_ r) (next_room_seq_ r) (Some body))])
    (set_next_room_seq_ (next_room_seq_ r + 1) r).

(** [PacketBuilder::Build] gave no packet. *)
Definition not_built (r : game_room) : game_room := set_unbuilt_ (S (unbuilt_ r)) r.

(** Source: app/examples/game/dungeon_full_server/src/game/room.cpp:53-76, EnqueuePacket. *)
Definition EnqueuePacket (sid wid : Z) (m : server_msg) (r : game_room) : game_room :=
  if negb (worker_up wid) then r else
  if negb (builds m) then not_built r else enqueue sid wid (Packet m) r.

(** Source: app/examples/game/dungeon_full_server/src/game/room.cpp:127-142, Room::SendTo. *)
Definition SendTo (ps : PlayerState) (m : server_msg) (r : game_room) : game_room :=
  if negb (builds m) then not_built r else
  if negb (worker_ring ps) then r else
  if negb (worker_up (worker_id ps)) then r else
  enqueue (session_id ps) (worker_id ps) (Packet m) r.

(** To the player's current state, when it is still there. *)
Definition SendToPlayer (pid : Z) (m : server_msg) (r : game_room) : game_room :=
  match player r pid with Some ps => SendTo ps m r | None => r end.

Definition broadcast_one (m : server_msg) (r : game_room) (ps : PlayerState) : game_room :=
  if session_id ps =? 0 then r else
  if negb (scene_ready ps) then r else
  if negb (worker_up (worker_id ps)) then r else
  enqueue (session_id ps) (worker_id ps) (Packet m) r.

(** Source: app/examples/game/dungeon_full_server/src/game/room.cpp:144-162, Room::BroadcastAll. *)
Definition BroadcastAll (m : server_msg) (r : game_room) : game_room :=
  if negb (builds m) then not_built r else foldl (broadcast_one m) r (enum (players_ r)).*2.

(** Source: app/examples/game/dungeon_full_server/src/game/room.cpp:164-184, Room::BroadcastExcept. *)
Definition BroadcastExcept (exclude : Z) (m : server_msg) (r : game_room) : game_room :=
  if negb (builds m) then not_built r else
  foldl (broadcast_one m) r (filter (λ e, e.1 ≠ exclude) (enum (players_ r))).*2.

Definition info_of (ps : PlayerState) : PlayerInfo :=
  mkInfo (player_id ps) (name ps) (hp ps) (max_hp ps) (level ps) (pos ps) (rotation_y ps).

(** ** Items *)

(** Source: app/examples/game/dungeon_full_server/src/game/room.cpp:560-577, Room::SpawnGroundItem. *)
Definition SpawnGroundItem (item_def : Z) (p : Vec3) (label : bytes) (r : game_room) : game_room :=
  let gid := nextGroundId_ r in
  let r := set_nextGroundId_ (gid + 1) r in
  let r := set_ground_items_ (<[gid := mkItem gid item_def p label (F32.of_Z 15)]> (ground_items_ r)) r in
  BroadcastAll (S_GROUND_ITEM_SPAWN gid item_def p label) r.

(** Source: app/examples/game/dungeon_full_server/src/game/room.cpp:579-610, Room::TryPickup. *)
Definition TryPickup (pid ground : Z) (r : game_room) : game_room * bool :=
  match ground_items_ r !! ground with
  | None => (r, false)
  | Some gi =>
    match player r pid with
    | None => (r, false)
    | Some ps =>
      let dx := (vx (pos ps) - vx (item_pos gi))%f32 in
      let dz := (vz (pos ps) - vz (item_pos gi))%f32 in
      if (F32.of_Z 9 <? dx * dx + dz * dz)%f32 then (r, false) else
      let '(instance, r) := draw rand r in
      let '(slot, r) := draw rand r in
      let r := SendTo ps (S_ITEM_ADD instance (item_def_id gi) (slot mod 100) 1 100) r in
      let r := BroadcastAll (S_GROUND_ITEM_DESPAWN ground) r in
      (set_ground_items_ (delete ground (ground_items_ r)) r, true)
    end
  end.

(** ** Combat *)

(** Source: app/examples/game/dungeon_full_server/src/system/combat_system.cpp:11-38, GrantKillReward. *)
Definition GrantKillReward (attacker : Z) (r : game_room) : game_room :=
  let '(g, r) := draw rand r in
  let r := update_player attacker (λ p, set_gold (gold p + (10 + g mod 41)) p) r in
  match player r attacker with
  | None => r
  | Some ps =>
    let r := if session_id ps =? 0 then r else SendTo ps (S_CURRENCY_UPDATE (gold ps)) r in
    let '(c, r) := draw rand r in
    if (c mod 100 <? 30) && negb (session_id ps =? 0) then
      let '(i, r) := draw rand r in
      let '(slot, r) := draw rand r in
      let '(instance, r) := draw rand r in
      SendTo ps (S_ITEM_ADD instance (1 + i mod 15) (slot mod 100) 1 100) r
    else r
  end.

(** Source: app/examples/game/dungeon_full_server/src/system/combat_system.cpp:97-127, CombatSystem::ProcessAttack.
    The nearest player along the direction; zero when there is none. *)
Definition ray_cast (attacker : Z) (skill : SkillData) (fire d : Vec3) (r : game_room) : Z :=
  let dir_len := F32.sqrt (vx d * vx d + vz d * vz d)%f32 in
  let long := (F32.lit 1 1000 <? dir_len)%f32 in
  let ndx := if long then (vx d / dir_len)%f32 else F32.zero in
  let ndz := if long then (vz d / dir_len)%f32 else F32.of_Z 1 in
  (foldl (λ '(best_proj, target) '(pid, ps),
    if (pid =? attacker) || is_dead ps then (best_proj, target) else
    let x := (vx (pos ps) - vx fire)%f32 in
    let z := (vz (pos ps) - vz fire)%f32 in
    let proj := (x * ndx + z * ndz)%f32 in
    if (proj <? F32.zero)%f32 || (range skill <? proj)%f32 then (best_proj, target) else
    let perp_sq := (x * x + z * z - proj * proj)%f32 in
    if (F32.lit 3 2 * F32.lit 3 2 <? perp_sq)%f32 then (best_proj, target) else
    if (proj <? best_proj)%f32 then (proj, pid) else (best_proj, target))
    (range skill, 0) (enum (players_ r))).2.

(** Source: app/examples/game/dungeon_full_server/src/system/combat_system.cpp:157-159, CombatSystem::ProcessAttack.
    The damage of a skill on the target, kept between zero and the most. *)
Definition hurt (skill : SkillData) (ps : PlayerState) : PlayerState :=
  let h := hp ps - damage skill in
  let h := if max_hp ps <? h then max_hp ps else h in
  set_hp (if h <? 0 then 0 else h) ps.

(** Source: app/examples/game/dungeon_full_server/src/system/combat_system.cpp:157-185, CombatSystem::ProcessAttack.
    The damage, its message with the target as [shown], and what follows a death; the same
    lines are at 218-244. *)
Definition strike (now attacker target shown : Z) (skill : SkillData) (r : game_room) : game_room :=
  let r := update_player target (hurt skill) r in
  let h := from_option hp 0 (player r target) in
  let dead := h <=? 0 in
  let r := BroadcastAll (S_DAMAGE attacker shown (damage skill) h (skill_id skill) dead) r in
  if dead then
    let r := update_player target (λ p, set_deaths (deaths p + 1) (set_death_time now (set_is_dead true p))) r in
    let r := update_player attacker (λ p, set_kills (kills p + 1) p) r in
    let r := GrantKillReward attacker r in
    match player r attacker, player r target with
    | Some a, Some t =>
      if session_id a =? 0 then r
      else SpawnGroundItem 100 (mkVec (vx (pos t)) (F32.lit 1 2) (vz (pos t))) (name t ++ txt "'s Dog Tag") r
    | _, _ => r
    end
  else r.

Definition find_skill (skill : Z) : option SkillData :=
  if (skill <? 0) || (zlen kSkills <=? skill) then None else kSkills !! Z.to_nat skill.

(** Source: app/examples/game/dungeon_full_server/src/system/combat_system.cpp:54-188, CombatSystem::ProcessAttack. *)
Definition ProcessAttack (now attacker target skill : Z) (fire d : Vec3) (r : game_room) : game_room * bool :=
  match find_skill skill with
  | None => (r, false)
  | Some sk =>
    match player r attacker with
    | None => (r, false)
    | Some a =>
      if is_dead a then (r, false) else
      if match skill_cooldowns a !! skill with Some t => now <? t | None => false end then (r, false) else
      let r := update_player attacker (λ p, set_skill_cooldowns (<[skill := now + cooldown_ms sk * 1000000]> (skill_cooldowns p)) p) r in
      let go target :=
        let shown := from_option player_id 0 (player r target) in
        let r := BroadcastAll (S_ATTACK attacker shown skill fire (Some d)) r in
        (strike now attacker target shown sk r, true) in
      if is_self_target sk then go attacker else
      let resolved := if target =? 0 then ray_cast attacker sk fire d r else target in
      if resolved =? 0 then (r, false) else
      match player r resolved with
      | None => (r, false)
      | Some t =>
        if is_dead t then (r, false) else
        let dx := (vx (pos t) - vx (pos a))%f32 in
        let dy := (vy (pos t) - vy (pos a))%f32 in
        let dz := (vz (pos t) - vz (pos a))%f32 in
        if (range sk <? F32.sqrt (dx * dx + dy * dy + dz * dz))%f32 then (r, false) else go resolved
      end
    end
  end.

(** Source: app/examples/game/dungeon_full_server/src/system/combat_system.cpp:190-249, CombatSystem::ProcessProjectileHit. *)
Definition ProcessProjectileHit (now attacker target skill : Z) (r : game_room) : game_room * bool :=
  match find_skill skill, player r attacker, player r target with
  | Some sk, Some a, Some t =>
    if is_dead a then (r, false) else
    if is_dead t then (r, false) else
    let r := BroadcastAll (S_ATTACK attacker target skill (pos a) None) r in
    (strike now attacker target target sk r, true)
  | _, _, _ => (r, false)
  end.

(** A random floor position, or the spawn position. *)
Definition random_floor (r : game_room) : Coord * game_room :=
  match GetRandomFloorPosition (map_ (dungeon_ r)) (survivingRooms_ (dungeon_ r)) (rng_ r) with
  | Some (w, g) => (w, set_rng_ g r)
  | None => (if generated_ r then spawn_ (dungeon_ r) else (0, 0), r)
  end.

Definition at_floor (w : Coord) : Vec3 := mkVec (F32.of_Z w.1) (F32.lit 1 2) (F32.of_Z w.2).

(** Source: app/examples/game/dungeon_full_server/src/system/combat_system.cpp:254-284, CombatSystem::CheckRespawns.
    A player of the room; the delay is five seconds. *)
Definition respawn (now : Z) (r : game_room) (pid : Z) : game_room :=
  match player r pid with
  | None => r
  | Some ps =>
    if negb (is_dead ps) then r else
    if now - death_time ps <? 5000000000 then r else
    let '(w, r) := random_floor r in
    let ps := set_pos (at_floor w) (set_hp (max_hp ps) (set_is_dead false ps)) in
    let r := set_players_ (<[pid := ps]> (players_ r)) r in
    BroadcastAll (S_RESPAWN (mkInfo (player_id ps) (name ps) (hp ps) (max_hp ps) (level ps) (pos ps) F32.zero)) r
  end.

(** Source: app/examples/game/dungeon_full_server/src/system/combat_system.cpp:251-285, CombatSystem::CheckRespawns. *)
Definition CheckRespawns (now : Z) (r : game_room) : game_room :=
  foldl (respawn now) r (enum (players_ r)).*1.

(** ** Projectiles *)

(** Source: app/examples/game/dungeon_full_server/src/game/projectile_manager.cpp:10-23, ProjectileManager::SpawnProjectile. *)
Definition SpawnProjectile (owner : Z) (p d : Vec3) (skill : Z) (r : game_room) : game_room :=
  let len := F32.sqrt (vx d * vx d + vy d * vy d + vz d * vz d)%f32 in
  if (len <? F32.lit 1 1000)%f32 then r else
  let d := mkVec (vx d / len)%f32 (vy d / len)%f32 (vz d / len)%f32 in
  set_projectiles_ (projectiles_ r ++ [mkProjectile (next_projectile_ r) owner p d F32.zero skill])
    (set_next_projectile_ (next_projectile_ r + 1) r).

(** Source: app/examples/game/dungeon_full_server/src/game/projectile_manager.cpp:25-46, ProjectileManager::CheckWallCollision. *)
Definition CheckWallCollision (g : grid) (old_x old_z new_x new_z : f32) : bool :=
  let dx := (new_x - old_x)%f32 in
  let dz := (new_z - old_z)%f32 in
  let dist := F32.sqrt (dx * dx + dz * dz)%f32 in
  let q := (dist / F32.lit 1 2)%f32 in
  let steps := default (unfit_int q) (F32.trunc q) + 1 in
  existsb (λ i,
    let t := (F32.of_Z i / F32.of_Z steps)%f32 in
    negb (GetTile g (grid_round (old_x + dx * t)%f32 (old_z + dz * t)%f32) =? 0)) (seqZ 1 steps).

(** Source: app/examples/game/dungeon_full_server/src/game/projectile_manager.cpp:71-84, ProjectileManager::Update.
    The first player within the radius is hit. *)
Fixpoint hit_first (now : Z) (p : Projectile) (ps : list (Z * PlayerState)) (r : game_room) : game_room * bool :=
  match ps with
  | [] => (r, false)
  | (pid, s) :: ps =>
    if (pid =? owner_id p) || is_dead s then hit_first now p ps r else
    let dx := (vx (pos s) - vx (at_ p))%f32 in
    let dz := (vz (pos s) - vz (at_ p))%f32 in
    if (F32.sqrt (dx * dx + dz * dz) <? F32.lit 3 2)%f32 then
      ((ProcessProjectileHit now (owner_id p) pid (projectile_skill p) r).1, true)
    else hit_first now p ps r
  end.

(** Source: app/examples/game/dungeon_full_server/src/game/projectile_manager.cpp:52-88, ProjectileManager::Update.
    A projectile: [None] when it is gone. *)
Definition move_projectile (now : Z) (dt : f32) (p : Projectile) (r : game_room) : game_room * option Projectile :=
  let move := (F32.of_Z 80 * dt)%f32 in
  let q := mkVec (vx (at_ p) + vx (dir p) * move)%f32 (vy (at_ p) + vy (dir p) * move)%f32 (vz (at_ p) + vz (dir p) * move)%f32 in
  let p' := mkProjectile (projectile_id p) (owner_id p) q (dir p) (traveled p + move)%f32 (projectile_skill p) in
  if (F32.of_Z 50 <? traveled p')%f32 then (r, None) else
  if CheckWallCollision (map_ (dungeon_ r)) (vx (at_ p)) (vz (at_ p)) (vx q) (vz q) then (r, None) else
  let '(r, hit) := hit_first now p' (enum (players_ r)) r in
  (r, if hit then None else Some p').

(** Source: app/examples/game/dungeon_full_server/src/game/projectile_manager.cpp:48-90, ProjectileManager::Update.
    From the last projectile to the first. *)
Definition projectiles_Update (now : Z) (dt : f32) (r : game_room) : game_room :=
  let '(r, ps) := foldr (λ p '(r, kept), let '(r, q) := move_projectile now dt p r in (r, option_list q ++ kept))
                    (r, []) (projectiles_ r) in
  set_projectiles_ ps r.

(** ** Chat and parties *)

(** Source: app/examples/game/dungeon_full_server/src/system/party_system.h:10-14, PartySystem::Party. *)
Record Party := mkParty { id : Z; leader_id : Z; members : list Z }.

(** Source: app/examples/game/dungeon_full_server/src/system/party_system.h:24-25, PartySystem.
    One for all rooms: [g_party_system]. *)
Record PartySystem := mkParties { parties_ : gmap Z Party; next_id_ : Z }.

Definition PartySystem_new : PartySystem := mkParties ∅ 1.

(** Source: app/examples/game/dungeon_full_server/src/system/chat_system.cpp:6-45, ChatSystem::ProcessChat. *)
Definition ProcessChat (sender : PlayerState) (type : ChatType) (message target_name : bytes) (r : game_room) : game_room :=
  let reply := S_CHAT type (player_id sender) (name sender) message target_name in
  match type with
  | CHAT_ALL | CHAT_ZONE => BroadcastAll reply r
  | CHAT_PARTY =>
    if party_id sender =? 0 then r else
    foldl (λ r ps, if party_id ps =? party_id sender then SendTo ps reply r else r) r (enum (players_ r)).*2
  | CHAT_WHISPER =>
    match list_find (λ ps, name ps = target_name) (enum (players_ r)).*2 with
    | Some (_, ps) => SendTo sender reply (SendTo ps reply r)
    | None => r
    end
  | CHAT_OTHER => r
  end.

(** Source: app/examples/game/dungeon_full_server/src/system/party_system.cpp:96-123, PartySystem::BroadcastPartyUpdate. *)
Definition BroadcastPartyUpdate (s : PartySystem) (party : Z) (r : game_room) : game_room :=
  match parties_ s !! party with
  | None => r
  | Some p =>
    let present := omap (λ mid, (λ ps, (mid, ps)) <$> player r mid) (members p) in
    let infos := (λ '(mid, ps), mkMember (player_id ps) (name ps) (hp ps) (max_hp ps) (level ps)
                                  (mid =? leader_id p)) <$> present in
    foldl (λ r ps, SendTo ps (S_PARTY_UPDATE party (leader_id p) infos) r) r present.*2
  end.

(** Source: app/examples/game/dungeon_full_server/src/system/party_system.cpp:6-24, PartySystem::CreateParty. *)
Definition CreateParty (leader : Z) (s : PartySystem) (r : game_room) : PartySystem * game_room :=
  match player r leader with
  | None => (s, r)
  | Some ps =>
    if negb (party_id ps =? 0) then (s, r) else
    let pid := next_id_ s in
    let s := mkParties (<[pid := mkParty pid leader [leader]]> (parties_ s)) (pid + 1) in
    let r := update_player leader (set_party_id pid) r in
    let r := SendTo ps (S_CREATE_PARTY pid) r in
    (s, BroadcastPartyUpdate s pid r)
  end.

(** Source: app/examples/game/dungeon_full_server/src/system/party_system.cpp:26-51, PartySystem::JoinParty. *)
Definition JoinParty (pid party : Z) (s : PartySystem) (r : game_room) : PartySystem * game_room :=
  match player r pid with
  | None => (s, r)
  | Some ps =>
    if negb (party_id ps =? 0) then (s, r) else
    match parties_ s !! party with
    | None => (s, SendTo ps (S_JOIN_PARTY None) r)
    | Some p =>
      let s := mkParties (<[party := mkParty (id p) (leader_id p) (members p ++ [pid])]> (parties_ s)) (next_id_ s) in
      let r := update_player pid (set_party_id party) r in
      let r := SendTo ps (S_JOIN_PARTY (Some party)) r in
      (s, BroadcastPartyUpdate s party r)
    end
  end.

(** Source: app/examples/game/dungeon_full_server/src/system/party_system.cpp:53-85, PartySystem::LeaveParty. *)
Definition LeaveParty (pid : Z) (s : PartySystem) (r : game_room) : PartySystem * game_room :=
  match player r pid with
  | None => (s, r)
  | Some ps =>
    if party_id ps =? 0 then (s, r) else
    let party := party_id ps in
    let r := update_player pid (set_party_id 0) r in
    let r := SendTo ps S_LEAVE_PARTY r in
    match parties_ s !! party with
    | None => (s, r)
    | Some p =>
      match filter (λ m, m ≠ pid) (members p) with
      | [] => (mkParties (delete party (parties_ s)) (next_id_ s), r)
      | (first :: _) as rest =>
        let leader := if leader_id p =? pid then first else leader_id p in
        let s := mkParties (<[party := mkParty (id p) leader rest]> (parties_ s)) (next_id_ s) in
        (s, BroadcastPartyUpdate s party r)
      end
    end
  end.

(** ** Handlers of packets *)

(** Source: app/examples/game/dungeon_full_server/src/handler/game_handler.cpp:14-47, HandleMove. *)
Definition HandleMove (pid : Z) (p : Vec3) (rotation : f32) (velocity : option Vec3) (state : Z) (r : game_room) : game_room :=
  if negb (GetTile (map_ (dungeon_ r)) (grid_round (vx p) (vz p)) =? 0) then r else
  let move ps :=
    set_move_state state (set_vel (default (vel ps) velocity) (set_rotation_y rotation (set_pos p ps))) in
  let r := update_player pid move r in
  match player r pid with
  | None => r
  | Some ps => BroadcastExcept (player_id ps) (S_MOVE (player_id ps) (pos ps) (rotation_y ps) (vel ps) (move_state ps)) r
  end.

(** Source: app/examples/game/dungeon_full_server/src/handler/game_handler.cpp:49-64, HandleAttack. *)
Definition HandleAttack (now : Z) (ps : PlayerState) (target skill : Z) (fire_pos fire_dir : option Vec3) (r : game_room) : game_room :=
  (ProcessAttack now (player_id ps) target skill (default vec0 fire_pos) (default vec0 fire_dir) r).1.

(** Source: app/examples/game/dungeon_full_server/src/handler/game_handler.cpp:66-91, HandleFire. *)
Definition HandleFire (now pid : Z) (ps : PlayerState) (fire_pos fire_dir : Vec3) (r : game_room) : game_room :=
  if match skill_cooldowns ps !! 0 with Some t => now <? t | None => false end then r else
  let r := update_player pid (λ p, set_skill_cooldowns (<[0 := now + 500000000]> (skill_cooldowns p)) p) r in
  let r := BroadcastExcept (player_id ps) (S_FIRE (player_id ps) fire_pos fire_dir) r in
  SpawnProjectile (player_id ps) fire_pos fire_dir 0 r.

(** Source: app/examples/game/dungeon_full_server/src/handler/game_handler.cpp:93-106, HandlePickup. *)
Definition HandlePickup (ps : PlayerState) (ground : Z) (r : game_room) : game_room :=
  let '(r, ok) := TryPickup (player_id ps) ground r in SendTo ps (S_PICKUP ground ok) r.

(** Source: app/examples/game/dungeon_full_server/src/handler/game_handler.cpp:108-135, HandleUseItem. *)
Definition HandleUseItem (pid : Z) (instance : Z) (r : game_room) : game_room :=
  let r := update_player pid (λ p, set_gold (gold p + 50) p) r in
  match player r pid with
  | None => r
  | Some ps =>
    let r := SendTo ps (S_USE_ITEM instance (txt "Dog Tag redeemed: +50 Gold")) r in
    let r := SendTo ps (S_CURRENCY_UPDATE (gold ps)) r in
    SendTo ps (S_ITEM_REMOVE instance) r
  end.

(** ** Entering and leaving *)

(** Source: app/examples/game/dungeon_full_server/src/game/player_context.h:13-26, PlayerContext.
    A copy of it, as the rooms get it; [room] is the room's identifier. *)
Record PlayerContext := mkContext {
  ctx_session : Z; ctx_player : Z; ctx_char_name : bytes; ctx_level : Z; ctx_room : option Z; ctx_worker : Z
}.

(** Source: app/examples/game/dungeon_full_server/src/game/room.cpp:376-408, Room::AddPlayer. *)
Definition AddPlayer (ctx : PlayerContext) (spawn_x spawn_y spawn_z : f32) (r : game_room) : game_room :=
  let '(dx, r) := draw (uniform_real (F32.of_Z (-2)) (F32.of_Z 2)) r in
  let '(dz, r) := draw (uniform_real (F32.of_Z (-2)) (F32.of_Z 2)) r in
  let jx := (spawn_x + dx)%f32 in
  let jz := (spawn_z + dz)%f32 in
  let wall := negb (GetTile (map_ (dungeon_ r)) (grid_trunc jx jz) =? 0) in
  let p := if wall then mkVec spawn_x spawn_y spawn_z else mkVec jx spawn_y jz in
  let ps := mkPS (ctx_player ctx) (ctx_char_name ctx) 100 100 (ctx_level ctx) p F32.zero vec0 0
              true (ctx_session ctx) (ctx_worker ctx) false 0 0 ∅ false 0 0 0 in
  set_empty_since_ None
    (set_base_players_ ({[ctx_player ctx]} ∪ base_players_ r)
      (set_players_ (<[ctx_player ctx := ps]> (players_ r)) r)).

(** Source: app/examples/game/dungeon_full_server/src/game/room.cpp:417-471, Room::HandleSceneReady. *)
Definition HandleSceneReady (pid : Z) (r : game_room) : game_room :=
  match player r pid with
  | None => r
  | Some ps =>
    if scene_ready ps then r else
    let r := update_player pid (set_scene_ready true) r in
    let others := info_of <$> (filter (λ e, e.1 ≠ pid) (enum (players_ r))).*2 in
    let r := SendTo ps (S_PLAYER_LIST others) r in
    BroadcastExcept pid (S_SPAWN (info_of ps)) r
  end.

(** Source: app/examples/game/dungeon_full_server/src/game/room.cpp:473-486, Room::RemovePlayer. *)
Definition RemovePlayer (now pid : Z) (r : game_room) : game_room :=
  match player r pid with
  | None => r
  | Some _ =>
    let r := set_base_players_ (base_players_ r ∖ {[pid]}) (set_players_ (delete pid (players_ r)) r) in
    let r := BroadcastAll (S_DESPAWN pid) r in
    if bool_decide (players_ r = ∅) then set_empty_since_ (Some now) r else r
  end.

(** Source: app/examples/game/dungeon_full_server/src/game/room.cpp:488-514, Room::OnPacket.
    Also the handlers of [handler/social_handler.cpp]; [DispatchPacket] of the base class comes
    first. *)
Definition OnPacket (now pid : Z) (p : client_packet) (s : PartySystem) (r : game_room) : PartySystem * game_room :=
  if bool_decide (pid ∉ base_players_ r) then (s, r) else
  match player r pid with
  | None => (s, r)
  | Some ps =>
    match p with
    | C_SCENE_READY => (s, HandleSceneReady pid r)
    | C_MOVE position rotation velocity state => (s, HandleMove pid position rotation velocity state r)
    | C_ATTACK target skill fire_pos fire_dir => (s, HandleAttack now ps target skill fire_pos fire_dir r)
    | C_FIRE fire_pos fire_dir => (s, HandleFire now pid ps fire_pos fire_dir r)
    | C_CHAT type message target_name => (s, ProcessChat ps type message target_name r)
    | C_CREATE_PARTY => CreateParty (player_id ps) s r
    | C_JOIN_PARTY party => JoinParty (player_id ps) party s r
    | C_LEAVE_PARTY => LeaveParty (player_id ps) s r
    | C_PICKUP ground => (s, HandlePickup ps ground r)
    | C_USE_ITEM instance => (s, HandleUseItem pid instance r)
    | C_OTHER => (s, r)
    end
  end.

End Room.
