(* ===== verification/DungeonBots.v ===== *)
(** * Bots and the tick of a room

    [app/examples/game/dungeon_full_server/src/game/bot_manager.cpp], [Room::OnTick], and how
    players come into a room: [TryCreateEnter], [TryJoin], [EnterFromPortal].  The path search
    is in its own file. *)

From S2P Require Import Prelude Text Dungeon Float32 Outbox AStar DungeonRoom.

#[local] Open Scope Z_scope.
#[local] Set Warnings "-clear-no-such-hyp".

Section Bots.
Context `{Env, PriorityQueue}.

(** Source: app/examples/game/dungeon_full_server/src/game/bot_manager.cpp:13-22, bot_manager.cpp. *)
Definition kBotSpeed : f32 := F32.of_Z 3.
Definition kChaseRange : f32 := F32.of_Z 8.
Definition kAttackRange : f32 := F32.of_Z 2.
Definition kRespawnSeconds : Z := 5.
Definition kAggroResetDist : f32 := F32.of_Z 15.
Definition kAggroResetSeconds : Z := 10.
Definition kRetreatHpRatio : f32 := F32.lit 4 10.
Definition kHealHpRatio : f32 := F32.lit 3 10.
Definition kFireballRange : f32 := F32.of_Z 8.

(** Times are in nanoseconds. *)
Definition ms (n : Z) : Z := n * 1000000.
Definition seconds (t : Z) : Z := Z.quot t 1000000000.

(** Whether a skill may be used. *)
Definition off_cooldown (now skill : Z) (b : BotState) : bool :=
  match bot_cooldowns b !! skill with None => true | Some t => t <=? now end.
Definition cool (now skill : Z) (n : Z) (b : BotState) : BotState :=
  set_bot_cooldowns (<[skill := now + ms n]> (bot_cooldowns b)) b.

(** Source: app/examples/game/dungeon_full_server/src/game/bot_manager.cpp:33-38, BotManager::WorldToGrid. *)
Definition WorldToGrid (x z : f32) : Coord := grid_round x z.

Definition world_x (c : Coord) : f32 := F32.of_Z (GridToWorld c).1.
Definition world_z (c : Coord) : f32 := F32.of_Z (GridToWorld c).2.

(** Source: app/examples/game/dungeon_full_server/src/game/bot_manager.cpp:123-163, BotManager::SpawnBots.
    A bot: it is put among the players and the bots, and its information is the result. *)
Definition spawn_bot (base : Coord) (st : game_room * list PlayerInfo) : game_room * list PlayerInfo :=
  let '(r, batch) := st in
  let i := next_bot_id_ r in
  let r := set_next_bot_id_ (i + 1) r in
  let '(dx, r) := draw (uniform_real (F32.of_Z (-3)) (F32.of_Z 3)) r in
  let '(dz, r) := draw (uniform_real (F32.of_Z (-3)) (F32.of_Z 3)) r in
  let p := mkVec (F32.of_Z base.1 + dx)%f32 (F32.lit 1 2) (F32.of_Z base.2 + dz)%f32 in
  let n := txt "Bot_" ++ to_string i in
  let bot := mkBot i n p (vx p) (vz p) vec0 F32.zero 100 100 false false 0 0 kBotSpeed [] 0 ∅ F32.zero F32.zero 0 false in
  let ps := mkPS i n 100 100 1 p F32.zero vec0 0 false 0 0 false 0 0 ∅ false 0 0 0 in
  let r := set_players_ (<[i := ps]> (players_ r)) r in
  (set_bots_ (<[i := bot]> (bots_ r)) r, batch ++ [info_of ps]).

(** Source: app/examples/game/dungeon_full_server/src/game/bot_manager.cpp:103-173, BotManager::SpawnBots. *)
Definition SpawnBots (n : nat) (r : game_room) : game_room :=
  let base := if generated_ r then spawn_ (dungeon_ r) else (0, 0) in
  let sessions := filter (λ ps, session_id ps ≠ 0) (enum (players_ r)).*2 in
  let '(r, batch) := Nat.iter n (spawn_bot base) (r, []) in
  if bool_decide (batch ≠ [] ∧ sessions ≠ []) then BroadcastAll (S_PLAYER_LIST batch) r else r.

(** Source: app/examples/game/dungeon_full_server/src/game/bot_manager.cpp:175-199, BotManager::PickNewWaypoint. *)
Fixpoint PickNewWaypoint (attempts : nat) (b : BotState) (r : game_room) : BotState * game_room :=
  match attempts with
  | O => (b, r)
  | S attempts =>
    let '(gx, r) := draw (uniform_int 0 (GRID_WIDTH - 1)) r in
    let '(gy, r) := draw (uniform_int 0 (GRID_HEIGHT - 1)) r in
    if negb (GetTile (map_ (dungeon_ r)) (gx, gy) =? 0) then PickNewWaypoint attempts b r else
    let wx := world_x (gx, gy) in
    let wz := world_z (gx, gy) in
    let dx := (wx - vx (bot_pos b))%f32 in
    let dz := (wz - vz (bot_pos b))%f32 in
    if (F32.of_Z 15 * F32.of_Z 15 <? dx * dx + dz * dz)%f32 then PickNewWaypoint attempts b r else
    (set_chase_target 0 (set_has_target true (set_target_z wz (set_target_x wx b))), r)
  end.

Definition stand (b : BotState) : BotState :=
  set_bot_vel (mkVec F32.zero (vy (bot_vel b)) F32.zero) b.

Definition degrees (x z : f32) : f32 := (atan2f x z * (F32.of_Z 180 / F32.lit 314159265 100000000))%f32.

(** Source: app/examples/game/dungeon_full_server/src/game/bot_manager.cpp:221-246, BotManager::UpdateMovement.
    A step along the path. *)
Definition follow_path (dt : f32) (b : BotState) : BotState :=
  let node := default (0, 0) (path b !! Z.to_nat (path_idx b)) in
  let dx := (world_x node - vx (bot_pos b))%f32 in
  let dz := (world_z node - vz (bot_pos b))%f32 in
  let dist := F32.sqrt (dx * dx + dz * dz)%f32 in
  if (dist <? F32.lit 3 10)%f32 then
    let b := set_path_idx (path_idx b + 1) b in
    if zlen (path b) <=? path_idx b then stand (set_has_target false b) else b
  else
    let nx := (dx / dist)%f32 in
    let nz := (dz / dist)%f32 in
    let v := mkVec (nx * speed b)%f32 (vy (bot_vel b)) (nz * speed b)%f32 in
    let p := mkVec (vx (bot_pos b) + vx v * dt)%f32 (vy (bot_pos b)) (vz (bot_pos b) + vz v * dt)%f32 in
    set_bot_rotation_y (degrees nx nz) (set_bot_pos p (set_bot_vel v b)).

(** Source: app/examples/game/dungeon_full_server/src/game/bot_manager.cpp:201-247, BotManager::UpdateMovement. *)
Definition UpdateMovement (g : grid) (dt : f32) (b : BotState) : BotState :=
  if negb (has_target b) && (chase_target b =? 0) then b else
  if bool_decide (path b = []) || (zlen (path b) <=? path_idx b) then
    let s := WorldToGrid (vx (bot_pos b)) (vz (bot_pos b)) in
    let t := WorldToGrid (target_x b) (target_z b) in
    let b := set_path_idx 0 (set_path (default [] (AStarSearch g s t)) b) in
    if bool_decide (path b = []) then stand (set_has_target false b) else follow_path dt b
  else follow_path dt b.

(** Source: app/examples/game/dungeon_full_server/src/game/bot_manager.cpp:273-287, BotManager::UpdateCombat.
    The nearest other player within the range, with its distance and position. *)
Definition nearest (b : BotState) (r : game_room) : Z * f32 * f32 * f32 :=
  foldl (λ '(id, best, tx, tz) '(pid, ps),
    if (pid =? bot_id b) || is_dead ps then (id, best, tx, tz) else
    let dx := (vx (pos ps) - vx (bot_pos b))%f32 in
    let dz := (vz (pos ps) - vz (bot_pos b))%f32 in
    let dist := F32.sqrt (dx * dx + dz * dz)%f32 in
    if (dist <? best)%f32 then (pid, dist, vx (pos ps), vz (pos ps)) else (id, best, tx, tz))
    (0, kChaseRange, F32.zero, F32.zero) (enum (players_ r)).

(** A fireball. *)
Definition fireball (now : Z) (dir_x dir_z : f32) (b : BotState) (r : game_room) : BotState * game_room :=
  if off_cooldown now 2 b then
    let d := mkVec dir_x F32.zero dir_z in
    let r := SpawnProjectile (bot_id b) (bot_pos b) d 2 r in
    let b := cool now 2 3000 b in
    (b, BroadcastAll (S_FIRE (bot_id b) (bot_pos b) d) r)
  else (b, r).

(** To go after a player. *)
Definition chase (now target : Z) (tx tz : f32) (b : BotState) : BotState :=
  let b := if chase_target b =? 0
           then set_chase_start_time now (set_aggro_origin_z (vz (bot_pos b)) (set_aggro_origin_x (vx (bot_pos b)) b))
           else b in
  set_has_target true (set_target_z tz (set_target_x tx (set_chase_target target b))).

Definition below_ratio (b : BotState) (ratio : f32) : bool :=
  let v := (F32.of_Z (bot_max_hp b) * ratio)%f32 in bot_hp b <? default (unfit_int v) (F32.trunc v).

(** Source: app/examples/game/dungeon_full_server/src/game/bot_manager.cpp:252-264, BotManager::UpdateCombat. *)
Definition try_heal (now : Z) (b : BotState) (r : game_room) : BotState * game_room :=
  if below_ratio b kHealHpRatio && off_cooldown now 3 b then
    let r := (ProcessAttack now (bot_id b) (bot_id b) 3 (bot_pos b) vec0 r).1 in
    let b := cool now 3 5000 b in
    (match player r (bot_id b) with Some ps => set_bot_hp (hp ps) b | None => b end, r)
  else (b, r).

(** Source: app/examples/game/dungeon_full_server/src/game/bot_manager.cpp:338-361, BotManager::UpdateCombat. *)
Definition melee (now target : Z) (dir_x dir_z : f32) (b : BotState) (r : game_room) : BotState * game_room :=
  let b := set_has_target false (stand b) in
  let use_skill := if off_cooldown now 1 b then 1 else 0 in
  if off_cooldown now use_skill b then
    let r := (ProcessAttack now (bot_id b) target use_skill (bot_pos b) (mkVec dir_x F32.zero dir_z) r).1 in
    (cool now use_skill (if use_skill =? 1 then 2000 else 500) b, r)
  else (b, r).

(** Source: app/examples/game/dungeon_full_server/src/game/bot_manager.cpp:249-402, BotManager::UpdateCombat. *)
Definition UpdateCombat (now : Z) (b : BotState) (r : game_room) : BotState * game_room :=
  let '(b, r) := try_heal now b r in
  let '(nearest_id, dist, tx, tz) := nearest b r in
  if nearest_id =? 0 then (set_is_retreating false (set_chase_target 0 b), r) else
  let ox := (vx (bot_pos b) - aggro_origin_x b)%f32 in
  let oz := (vz (bot_pos b) - aggro_origin_z b)%f32 in
  if negb (chase_target b =? 0) &&
     ((kAggroResetDist <? F32.sqrt (ox * ox + oz * oz))%f32 || (kAggroResetSeconds <? seconds (now - chase_start_time b)))
  then (set_is_retreating false (set_has_target false (set_chase_target 0 b)), r) else
  let dir_x := (tx - vx (bot_pos b))%f32 in
  let dir_z := (tz - vz (bot_pos b))%f32 in
  let len := F32.sqrt (dir_x * dir_x + dir_z * dir_z)%f32 in
  let long := (F32.zero <? len)%f32 in
  let dir_x := if long then (dir_x / len)%f32 else dir_x in
  let dir_z := if long then (dir_z / len)%f32 else dir_z in
  let b := set_bot_rotation_y (degrees dir_x dir_z) b in
  if below_ratio b kRetreatHpRatio && (dist <? F32.of_Z 3)%f32 then
    let b := set_target_z (vz (bot_pos b) - dir_z * F32.of_Z 8)%f32
               (set_target_x (vx (bot_pos b) - dir_x * F32.of_Z 8)%f32 (set_is_retreating true b)) in
    fireball now dir_x dir_z (set_chase_target 0 (set_has_target true b)) r
  else
    let b := set_is_retreating false b in
    if (dist <=? kAttackRange)%f32 then melee now nearest_id dir_x dir_z b r
    else if (dist <=? kFireballRange)%f32 then
      let '(b, r) := fireball now dir_x dir_z b r in (chase now nearest_id tx tz b, r)
    else (chase now nearest_id tx tz b, r).

(** Source: app/examples/game/dungeon_full_server/src/game/bot_manager.cpp:404-434, BotManager::BroadcastBotMove. *)
Definition BroadcastBotMove (b : BotState) (r : game_room) : game_room :=
  match player r (bot_id b) with
  | None => r
  | Some _ =>
    let v := mkVec (vx (bot_vel b)) F32.zero (vz (bot_vel b)) in
    let r := update_player (bot_id b) (λ p, set_rotation_y (bot_rotation_y b) (set_vel v (set_pos (bot_pos b) p))) r in
    let moving := negb (F32.eqb (vx v) F32.zero) || negb (F32.eqb (vz v) F32.zero) in
    let state := if is_retreating b || negb (chase_target b =? 0) then 2 else if moving then 1 else 0 in
    BroadcastAll (S_MOVE (bot_id b) (bot_pos b) (bot_rotation_y b) v state) r
  end.

(** Source: app/examples/game/dungeon_full_server/src/game/bot_manager.cpp:439-486, BotManager::CheckRespawns.
    A bot. *)
Definition respawn_bot (now : Z) (r : game_room) (i : Z) : game_room :=
  match bots_ r !! i with
  | None => r
  | Some b =>
    if negb (bot_is_dead b) then r else
    if seconds (now - bot_death_time b) <? kRespawnSeconds then r else
    let '(w, r) := random_floor r in
    let b := set_bot_pos (at_floor w) (set_bot_hp (bot_max_hp b) (set_bot_is_dead false b)) in
    let b := stand (set_chase_target 0 (set_has_target false b)) in
    let r := set_bots_ (<[i := b]> (bots_ r)) r in
    let r := update_player i (λ p, set_pos (bot_pos b) (set_is_dead false (set_hp (bot_hp b) p))) r in
    BroadcastAll (S_RESPAWN (mkInfo i (bot_name b) (bot_hp b) (bot_max_hp b) 1 (bot_pos b) F32.zero)) r
  end.

(** Source: app/examples/game/dungeon_full_server/src/game/bot_manager.cpp:436-487, BotManager::CheckRespawns. *)
Definition bots_CheckRespawns (now : Z) (r : game_room) : game_room :=
  foldl (respawn_bot now) r (enum (bots_ r)).*1.

(** Source: app/examples/game/dungeon_full_server/src/game/bot_manager.cpp:491-507, BotManager::Update.
    A bot that died since the last tick. *)
Definition sync_death (players : gmap Z PlayerState) (i : Z) (b : BotState) : BotState :=
  match players !! i with
  | Some ps =>
    if is_dead ps && negb (bot_is_dead b) then
      let b := set_bot_hp 0 (set_bot_death_time (death_time ps) (set_bot_is_dead true b)) in
      set_path_idx 0 (set_path [] (set_chase_target 0 (set_has_target false (stand b))))
    else b
  | None => b
  end.

(** Source: app/examples/game/dungeon_full_server/src/game/bot_manager.cpp:509-522, BotManager::Update. *)
Definition update_bot (now : Z) (dt : f32) (r : game_room) (i : Z) : game_room :=
  match bots_ r !! i with
  | None => r
  | Some b =>
    if bot_is_dead b then r else
    let '(b, r) := UpdateCombat now b r in
    let '(b, r) := if negb (has_target b) && (chase_target b =? 0) then PickNewWaypoint 50 b r else (b, r) in
    let b := UpdateMovement (map_ (dungeon_ r)) dt b in
    BroadcastBotMove b (set_bots_ (<[i := b]> (bots_ r)) r)
  end.

(** Source: app/examples/game/dungeon_full_server/src/game/bot_manager.cpp:489-525, BotManager::Update. *)
Definition bots_Update (now : Z) (dt : f32) (r : game_room) : game_room :=
  let r := set_bots_ (map_imap (λ i b, Some (sync_death (players_ r) i b)) (bots_ r)) r in
  let r := foldl (update_bot now dt) r (enum (bots_ r)).*1 in
  bots_CheckRespawns now r.

(** ** The tick *)

(** Source: app/examples/game/dungeon_full_server/src/game/room.cpp:522-533, Room::OnTick.
    An item on the ground. *)
Definition age_item (r : game_room) (gid : Z) : game_room :=
  match ground_items_ r !! gid with
  | None => r
  | Some gi =>
    let life := (lifetime gi - F32.lit 5 100)%f32 in
    if (life <=? F32.zero)%f32 then
      let r := BroadcastAll (S_GROUND_ITEM_DESPAWN gid) r in
      set_ground_items_ (delete gid (ground_items_ r)) r
    else set_ground_items_ (<[gid := mkItem (ground_id gi) (item_def_id gi) (item_pos gi) (label gi) life]> (ground_items_ r)) r
  end.

(** Source: app/examples/game/dungeon_full_server/src/game/room.cpp:536-548, Room::OnTick. *)
Definition scoreboard (r : game_room) : game_room :=
  let n := scoreboardCounter_ r + 1 in
  if 100 <=? n then
    BroadcastAll (S_SCOREBOARD ((λ '(pid, ps), mkScore pid (name ps) (kills ps) (deaths ps) (level ps)) <$> enum (players_ r)))
      (set_scoreboardCounter_ 0 r)
  else set_scoreboardCounter_ n r.

(** Source: app/examples/game/dungeon_full_server/src/game/room.cpp:516-549, Room::OnTick. *)
Definition OnTick (now : Z) (r : game_room) : game_room :=
  let dt := F32.lit 5 100 in
  let r := CheckRespawns now r in
  let r := projectiles_Update now dt r in
  let r := bots_Update now dt r in
  let r := foldl age_item r (enum (ground_items_ r)).*1 in
  scoreboard r.

(** ** Coming in *)

Context (sort_rooms : list Room → list Room) (sort_candidates : list (Z * Coord) → list (Z * Coord))
  (seeded : bytes → rng).

(** Source: app/examples/game/dungeon_full_server/src/game/room.cpp:35-51, GenerateMapForRoom.
    The engine is seeded with the hash of the text; a map that is never generated leaves the
    room as it is. *)
Definition GenerateMapForRoom (r : game_room) : game_room :=
  let seed := to_string (id_ r) ++ txt "_" ++ name_ r in
  match Generate sort_rooms sort_candidates 3 (depth_ r) (seeded seed) with
  | Some d => set_generated_ true (set_dungeon_ d r)
  | None => r
  end.

(** Source: app/examples/game/dungeon_full_server/src/game/room.cpp:78-111, EnqueueSessionEnterState. *)
Definition EnqueueSessionEnterState (ctx : PlayerContext) (r : game_room) : game_room :=
  if negb (worker_up (ctx_worker ctx)) then r else
  enqueue (ctx_session ctx) (ctx_worker ctx) (EnterState (ctx_player ctx) (id_ r)) r.

(** Source: app/examples/game/dungeon_full_server/src/game/room.cpp:113-123, PickSpawn. *)
Definition PickSpawn (r : game_room) : Coord * game_room := random_floor r.

Definition entered (ctx : PlayerContext) (x z : f32) : PlayerInfo :=
  mkInfo (ctx_player ctx) (ctx_char_name ctx) 100 100 (ctx_level ctx) (mkVec x (F32.lit 1 2) z) F32.zero.

(** Source: app/examples/game/dungeon_full_server/src/game/room.cpp:186-221, Room::TryCreateEnter.
    [alive] is whether the session is still there. *)
Definition TryCreateEnter (alive : bool) (ctx : PlayerContext) (r : game_room) : game_room :=
  if negb alive then r else
  let r := GenerateMapForRoom r in
  let '(w, r) := PickSpawn r in
  let x := F32.of_Z w.1 in
  let z := F32.of_Z w.2 in
  let r := SpawnBots 15 r in
  let r := AddPlayer ctx x (F32.lit 1 2) z r in
  let r := EnqueueSessionEnterState ctx r in
  let r := EnqueuePacket (ctx_session ctx) (ctx_worker ctx) (S_SKILL_DATA kSkills) r in
  EnqueuePacket (ctx_session ctx) (ctx_worker ctx) (S_CREATE_ROOM (id_ r) (entered ctx x z) (dungeon_ r)) r.

(** Source: app/examples/game/dungeon_full_server/src/game/room.cpp:223-264, Room::TryJoin. *)
Definition TryJoin (alive : bool) (ctx : PlayerContext) (r : game_room) : game_room :=
  if negb alive then r else
  if 500 <=? Z.of_nat (size (players_ r)) then
    EnqueuePacket (ctx_session ctx) (ctx_worker ctx) (S_JOIN_ROOM_error (txt "Room is full")) r
  else
  let '(w, r) := PickSpawn r in
  let x := F32.of_Z w.1 in
  let z := F32.of_Z w.2 in
  let r := AddPlayer ctx x (F32.lit 1 2) z r in
  let r := EnqueueSessionEnterState ctx r in
  let r := EnqueuePacket (ctx_session ctx) (ctx_worker ctx) (S_SKILL_DATA kSkills) r in
  EnqueuePacket (ctx_session ctx) (ctx_worker ctx) (S_JOIN_ROOM (id_ r) (entered ctx x z) (dungeon_ r)) r.

(** Source: app/examples/game/dungeon_full_server/src/game/room.cpp:339-349, Room::EnterFromPortal.
    The first portal that leads back. *)
Definition portal_back (old_room : Z) (r : game_room) : option PortalData :=
  snd <$> (list_find (λ '(i, _), connections_ r !! i = Some old_room)
             (zip (seqZ 0 (zlen (portals_ (dungeon_ r)))) (portals_ (dungeon_ r))) ≫= λ '(_, p), Some p).

(** Source: app/examples/game/dungeon_full_server/src/game/room.cpp:329-374, Room::EnterFromPortal. *)
Definition EnterFromPortal (alive : bool) (ctx : PlayerContext) (old_room : Z) (r : game_room) : game_room :=
  if negb alive then r else
  let '(x, z, r) :=
    match portal_back old_room r with
    | Some p =>
      let '(dx, r) := draw (uniform_real (F32.of_Z (-2)) (F32.of_Z 2)) r in
      let '(dz, r) := draw (uniform_real (F32.of_Z (-2)) (F32.of_Z 2)) r in
      ((F32.of_Z (portal_x p) + dx)%f32, (F32.of_Z (portal_z p) + dz)%f32, r)
    | None => let '(w, r) := PickSpawn r in (F32.of_Z w.1, F32.of_Z w.2, r)
    end in
  let r := EnqueueSessionEnterState ctx r in
  let r := EnqueuePacket (ctx_session ctx) (ctx_worker ctx) (S_PORTAL (id_ r) (entered ctx x z) (dungeon_ r)) r in
  AddPlayer ctx x (F32.lit 1 2) z r.

(** Source: app/examples/game/dungeon_full_server/src/game/room.cpp:303-318, Room::TryPortal.
    The job of a new room: its map, its bots and the connection back. *)
Definition OpenZone (new_depth : Z) (bot_count : nat) (old_room : Z) (r : game_room) : game_room :=
  let r := SpawnBots bot_count (GenerateMapForRoom (set_depth_ new_depth r)) in
  match list_find (λ i, connections_ r !! i = None) (seqZ 0 (zlen (portals_ (dungeon_ r)))) with
  | Some (_, i) => set_connections_ (<[i := old_room]> (connections_ r)) r
  | None => r
  end.

(** ** Jobs *)

(** The jobs of a room: someone creates it or comes in, a zone is opened behind a portal, a
    player's packet, someone leaves, the clock, a portal of the room gets or loses its zone. *)
Inductive room_job :=
| JCreate (alive : bool) (ctx : PlayerContext)
| JJoin (alive : bool) (ctx : PlayerContext)
| JOpen (new_depth : Z) (bot_count : nat) (old_room : Z)
| JEnter (alive : bool) (ctx : PlayerContext) (old_room : Z)
| JPacket (now pid : Z) (p : client_packet)
| JRemove (now pid : Z)
| JTick (now : Z)
| JConnections (v : gmap Z Z).

Definition do_job (st : PartySystem * game_room) (j : room_job) : PartySystem * game_room :=
  let '(s, r) := st in
  match j with
  | JCreate alive ctx => (s, TryCreateEnter alive ctx r)
  | JJoin alive ctx => (s, TryJoin alive ctx r)
  | JOpen d n old => (s, OpenZone d n old r)
  | JEnter alive ctx old => (s, EnterFromPortal alive ctx old r)
  | JPacket now pid p => OnPacket now pid p s r
  | JRemove now pid => (s, RemovePlayer now pid r)
  | JTick now => (s, OnTick now r)
  | JConnections v => (s, set_connections_ v r)
  end.

End Bots.
