(* ===== verification/DungeonRoomProofs.v ===== *)
(** * What holds in every room

    The health of players, the state of bots, the numbering of messages and items; what a
    client has been told about the others in its room; how long items lie on the ground. *)

From S2P Require Import Prelude Text Dungeon DungeonRegions DungeonProofs Float32 Outbox AStar DungeonRoom DungeonBots.

#[local] Open Scope Z_scope.
#[local] Set Warnings "-clear-no-such-hyp".

Section Proofs.
Context `{EnvOk, PriorityQueue}.

(** ** Changes that concern nobody's presence *)

(** What sending looks at: session, worker, and whether the client is ready. *)
Record seat := mkSeat { seat_session : Z; seat_worker : Z; seat_ring : bool; seat_ready : bool }.
Definition seat_of (ps : PlayerState) : seat := mkSeat (session_id ps) (worker_id ps) (worker_ring ps) (scene_ready ps).
Definition seats (r : game_room) : gmap Z seat := seat_of <$> players_ r.

(** Messages that do not change what a client knows of the others' presence. *)
Definition neutral (m : server_msg) : Prop :=
  match m with
  | S_CREATE_ROOM _ _ _ | S_JOIN_ROOM _ _ _ | S_PORTAL _ _ _ | S_PLAYER_LIST _ | S_SPAWN _ | S_DESPAWN _ => False
  | _ => True
  end.

Definition neutral_out (e : Z * OutboundMessage payload) : Prop :=
  match out_body e.2 with Some (Packet m) => neutral m | _ => True end.

(** Messages are numbered one after the other. *)
Definition numbered (r : game_room) : Prop :=
  out_seq <$> (sent_ r).*2 = seqZ 1 (next_room_seq_ r - 1) ∧ 1 ≤ next_room_seq_ r ∧
  Forall (λ e, out_room e.2 = id_ r) (sent_ r).

(** ** Health *)

(** A player has its own number and between none and all of its health; it is dead exactly
    when it has none. *)
Definition fit (pid : Z) (ps : PlayerState) : Prop :=
  player_id ps = pid ∧ max_hp ps = 100 ∧ 0 ≤ hp ps ≤ max_hp ps ∧ (is_dead ps = true ↔ hp ps = 0).

(** The manager takes a live bot to have all of its health. *)
Definition bot_fit (i : Z) (b : BotState) : Prop :=
  bot_id b = i ∧ bot_max_hp b = 100 ∧ (bot_is_dead b = false → bot_hp b = 100).

Definition item_fit (next g : Z) (it : GroundItem) : Prop := ground_id it = g ∧ 1 ≤ g < next.

Definition fits (r : game_room) : Prop := map_Forall fit (players_ r).

(** The bots, the items and the messages of a room are in order. *)
Record tidy (r : game_room) : Prop := {
  s_bots : map_Forall bot_fit (bots_ r);
  s_items : map_Forall (item_fit (nextGroundId_ r)) (ground_items_ r);
  s_next : 1 ≤ nextGroundId_ r;
  s_numbered : numbered r;
}.

(** A change that concerns nobody's presence. *)
Record hush (r r' : game_room) : Prop := {
  q_seats : seats r' = seats r;
  q_base : base_players_ r' = base_players_ r;
  q_id : id_ r' = id_ r;
  q_sent : ∃ more, sent_ r' = sent_ r ++ more ∧ Forall neutral_out more;
  q_tidy : tidy r → tidy r';
  q_next_bot : next_bot_id_ r' = next_bot_id_ r;
  q_built : unbuilt_ r' = 0%nat → unbuilt_ r = 0%nat;
}.

(** One that also keeps the health of players right. *)
Definition quiet (r r' : game_room) : Prop := hush r r' ∧ (tidy r → fits r → fits r').

Lemma hush_refl r : hush r r.
Proof. split; try done. exists []. by rewrite app_nil_r. Qed.

Lemma hush_trans r r1 r2 : hush r r1 → hush r1 r2 → hush r r2.
Proof.
  intros [A1 A2 A3 (m1 & A4 & A4') A5 A6 A7] [B1 B2 B3 (m2 & B4 & B4') B5 B6 B7]. split; try congruence; [|auto|auto].
  exists (m1 ++ m2). rewrite B4, A4, <- app_assoc. split; [done|]. by apply Forall_app.
Qed.

Lemma quiet_refl r : quiet r r.
Proof. split; [apply hush_refl|done]. Qed.

Lemma quiet_trans r r1 r2 : quiet r r1 → quiet r1 r2 → quiet r r2.
Proof. intros [A1 A2] [B1 B2]. split; [by eapply hush_trans|]. intros HT HF. apply B2; [by apply A1|by apply A2]. Qed.

Lemma numbered_enqueue r sid wid body : numbered r → numbered (enqueue sid wid body r).
Proof.
  intros (Hs & Hn & Hr). unfold numbered, enqueue. cbn. split_and!; [|lia|by apply Forall_app; split; [|constructor]].
  rewrite !fmap_app, Hs. cbn. replace (next_room_seq_ r + 1 - 1) with (next_room_seq_ r - 1 + 1) by lia.
  rewrite seqZ_app by lia. f_equal. rewrite (seqZ_cons _ 1) by lia. cbn. f_equal. lia.
Qed.

Lemma tidy_enqueue r sid wid body : tidy r → tidy (enqueue sid wid body r).
Proof. intros [S1 S2 S3 S4]. split; try done. by apply numbered_enqueue. Qed.

Lemma quiet_enqueue r sid wid m : neutral m → quiet r (enqueue sid wid (Packet m) r).
Proof.
  intros Hm. split; [|done]. split; try done; [|apply tidy_enqueue]. exists [(wid, mkOut sid (id_ r) (next_room_seq_ r) (Some (Packet m)))].
  split; [done|]. by constructor.
Qed.

Lemma foldl_quiet {A} (f : game_room → A → game_room) l r : (∀ r a, a ∈ l → quiet r (f r a)) → quiet r (foldl f r l).
Proof.
  revert r. induction l as [|a l IH]; intros r Hf; [apply quiet_refl|]. cbn. eapply quiet_trans; [apply Hf; by left|].
  apply IH. intros r' a' Ha. apply Hf. by right.
Qed.

Lemma quiet_not_built r : quiet r (not_built r).
Proof. split; [|done]. split; try done; [exists []; by rewrite app_nil_r|]. by intros []. Qed.

Lemma quiet_broadcast_one m r ps : neutral m → quiet r (broadcast_one m r ps).
Proof. intros Hm. unfold broadcast_one. repeat (case_match; [apply quiet_refl|]). by apply quiet_enqueue. Qed.

Lemma quiet_SendTo ps m r : neutral m → quiet r (SendTo ps m r).
Proof.
  intros Hm. unfold SendTo. case_match; [apply quiet_not_built|]. repeat (case_match; [apply quiet_refl|]). by apply quiet_enqueue.
Qed.

Lemma quiet_EnqueuePacket sid wid m r : neutral m → quiet r (EnqueuePacket sid wid m r).
Proof.
  intros Hm. unfold EnqueuePacket. case_match; [apply quiet_refl|]. case_match; [apply quiet_not_built|]. by apply quiet_enqueue.
Qed.

Lemma quiet_BroadcastAll m r : neutral m → quiet r (BroadcastAll m r).
Proof. intros Hm. unfold BroadcastAll. case_match; [apply quiet_not_built|]. apply foldl_quiet. intros. by apply quiet_broadcast_one. Qed.

Lemma quiet_BroadcastExcept x m r : neutral m → quiet r (BroadcastExcept x m r).
Proof. intros Hm. unfold BroadcastExcept. case_match; [apply quiet_not_built|]. apply foldl_quiet. intros. by apply quiet_broadcast_one. Qed.

Lemma hush_players r ps : seat_of <$> ps = seats r → hush r (set_players_ ps r).
Proof. intros Hs. split; try done; [exists []; by rewrite app_nil_r|]. by intros []. Qed.

Lemma seats_alter (m : gmap Z PlayerState) pid f : (∀ ps, seat_of (f ps) = seat_of ps) → seat_of <$> alter f pid m = seat_of <$> m.
Proof.
  intros Hf. apply map_eq. intros k. rewrite !lookup_fmap.
  destruct (decide (k = pid)) as [->|]; [rewrite lookup_alter_eq|by rewrite lookup_alter_ne by congruence].
  destruct (m !! pid); cbn; [by rewrite Hf|done].
Qed.

Lemma fit_alter (m : gmap Z PlayerState) pid f : (∀ ps, m !! pid = Some ps → fit pid ps → fit pid (f ps)) →
  map_Forall fit m → map_Forall fit (alter f pid m).
Proof.
  intros Hf Hm k ps Hk. apply lookup_alter_Some in Hk as [(-> & ps' & Hp & ->)|(_ & Hp)]; [|by apply Hm].
  apply Hf; [done|by apply Hm].
Qed.

Lemma quiet_update r pid f : (∀ ps, seat_of (f ps) = seat_of ps) → (∀ ps, player r pid = Some ps → fit pid ps → fit pid (f ps)) →
  quiet r (update_player pid f r).
Proof. intros Hs Hf. split; [by apply hush_players, seats_alter|]. intros _. by apply fit_alter. Qed.

(** Fields of the room that presence does not depend on. *)
Lemma quiet_field r r' : players_ r' = players_ r → base_players_ r' = base_players_ r → id_ r' = id_ r → sent_ r' = sent_ r →
  (tidy r → tidy r') → next_bot_id_ r' = next_bot_id_ r → (unbuilt_ r' = 0%nat → unbuilt_ r = 0%nat) → quiet r r'.
Proof.
  intros Hp Hb Hi Hs Ht Hn Hu. split; [|unfold fits; by rewrite Hp]. split; try done; [unfold seats; by rewrite Hp|].
  exists []. by rewrite app_nil_r.
Qed.

Lemma quiet_draw {A} (f : rng → A * rng) r : quiet r (draw f r).2.
Proof.
  unfold draw. destruct (f (rng_ r)) as [a g]. apply quiet_field; try done. by intros [].
Qed.

Lemma draw_players {A} (f : rng → A * rng) r : players_ (draw f r).2 = players_ r.
Proof. unfold draw. by destruct (f (rng_ r)). Qed.

(** Goes on after a change that was shown to be quiet. *)
Ltac after H := eapply quiet_trans; [exact H|].
Ltac drawn r' :=
  match goal with |- context [draw ?f ?r] =>
    let H := fresh in pose proof (quiet_draw f r) as H; destruct (draw f r) as [? r']; cbn [snd] in H; after H; clear H
  end.

Create HintDb quiet.
Hint Resolve quiet_refl quiet_SendTo quiet_EnqueuePacket quiet_BroadcastAll quiet_BroadcastExcept : quiet.

(** *** Items *)

Lemma quiet_SpawnGroundItem d p l r : quiet r (SpawnGroundItem d p l r).
Proof.
  unfold SpawnGroundItem. set (r1 := set_ground_items_ _ _). eapply quiet_trans; [|by apply quiet_BroadcastAll].
  apply quiet_field; try done. intros [S1 S2 S3 S4]. split; try done; cbn.
  - intros g it [[<- <-]|[_ Hg]]%lookup_insert_Some; [split; cbn; [done|lia]|].
    destruct (S2 g it Hg) as [? ?]. split; [done|lia].
  - lia.
Qed.

Lemma quiet_delete_item g r : quiet r (set_ground_items_ (delete g (ground_items_ r)) r).
Proof.
  apply quiet_field; try done. intros [S1 S2 S3 S4]. split; try done. cbn. intros k it [_ Hk]%lookup_delete_Some. by apply S2.
Qed.

Lemma quiet_TryPickup pid g r : quiet r (TryPickup pid g r).1.
Proof.
  unfold TryPickup. destruct (ground_items_ r !! g) as [gi|]; [|apply quiet_refl].
  destruct (player r pid) as [ps|]; [|apply quiet_refl]. case_match; [apply quiet_refl|]. drawn r1. drawn r2. cbn [fst].
  eapply quiet_trans; [|apply quiet_delete_item]. eapply quiet_trans; [|by apply quiet_BroadcastAll]. by apply quiet_SendTo.
Qed.

(** *** Combat *)

Lemma quiet_set_gold pid f r : quiet r (update_player pid (λ p, set_gold (f p) p) r).
Proof. apply quiet_update; [done|]. intros ps _ Hf. exact Hf. Qed.

Lemma quiet_GrantKillReward a r : quiet r (GrantKillReward a r).
Proof.
  unfold GrantKillReward. drawn r1. set (r2 := update_player _ _ _).
  assert (Hq2 : quiet r1 r2) by apply quiet_set_gold. after Hq2. clear Hq2.
  destruct (player r2 a) as [ps|]; [|apply quiet_refl].
  assert (Hs : quiet r2 (if session_id ps =? 0 then r2 else SendTo ps (S_CURRENCY_UPDATE (gold ps)) r2))
    by (case_match; [apply quiet_refl|by apply quiet_SendTo]).
  after Hs. clear Hs. set (r3 := if session_id ps =? 0 then _ else _). drawn r4. case_match; [|apply quiet_refl].
  drawn r5. drawn r6. drawn r7. by apply quiet_SendTo.
Qed.

Lemma hurt_range sk pid ps : fit pid ps → 0 ≤ hp (hurt sk ps) ≤ 100.
Proof.
  intros (_ & Hm & Hh & _). unfold hurt. cbn.
  destruct (Z.ltb_spec (max_hp ps) (hp ps - damage sk)); [destruct (Z.ltb_spec (max_hp ps) 0)|destruct (Z.ltb_spec (hp ps - damage sk) 0)]; lia.
Qed.

Lemma player_update pid f r k : player (update_player pid f r) k = if decide (k = pid) then f <$> player r k else player r k.
Proof.
  unfold player, update_player. cbn. case_decide; [subst; by rewrite lookup_alter_eq|by rewrite lookup_alter_ne by congruence].
Qed.

(** [players_] and what does not touch it. *)
Lemma players_enqueue sid wid b r : players_ (enqueue sid wid b r) = players_ r.
Proof. done. Qed.

Lemma players_foldl m l r : players_ (foldl (broadcast_one m) r l) = players_ r.
Proof.
  revert r. induction l as [|ps l IH]; intros r; [done|]. cbn [foldl]. rewrite IH. unfold broadcast_one. by repeat case_match.
Qed.

Lemma players_BroadcastAll m r : players_ (BroadcastAll m r) = players_ r.
Proof. unfold BroadcastAll. case_match; [done|]. apply players_foldl. Qed.

Lemma players_SendTo ps m r : players_ (SendTo ps m r) = players_ r.
Proof. unfold SendTo. by repeat case_match. Qed.

(** What follows a death is quiet. *)
Lemma quiet_killed a t r : quiet r
  (let r := update_player a (λ p, set_kills (kills p + 1) p) r in
   let r := GrantKillReward a r in
   match player r a, player r t with
   | Some pa, Some pt => if session_id pa =? 0 then r
     else SpawnGroundItem 100 (mkVec (vx (pos pt)) (F32.lit 1 2) (vz (pos pt))) (name pt ++ txt "'s Dog Tag") r
   | _, _ => r
   end).
Proof.
  cbn zeta. eapply quiet_trans; [apply (quiet_update r a (λ p, set_kills (kills p + 1) p)); [done|by intros ps _ Hf]|].
  eapply quiet_trans; [apply quiet_GrantKillReward|]. repeat case_match; auto using quiet_refl, quiet_SpawnGroundItem.
Qed.

(** A strike on a live player: health is not right in between, but it is at the end. *)
Lemma quiet_strike now a t shown sk r : (∀ ps, player r t = Some ps → is_dead ps = false) →
  quiet r (strike now a t shown sk r).
Proof.
  intros Hlive. unfold strike. set (r1 := update_player t (hurt sk) r).
  set (h := from_option hp 0 (player r1 t)). set (r2 := BroadcastAll _ r1).
  assert (Hp2 : players_ r2 = alter (hurt sk) t (players_ r)) by (unfold r2; by rewrite players_BroadcastAll).
  assert (H02 : hush r r2).
  { eapply hush_trans; [by apply hush_players, (seats_alter _ t (hurt sk))|]. by apply quiet_BroadcastAll. }
  assert (Hh : ∀ ps, player r t = Some ps → h = hp (hurt sk ps)).
  { intros ps Hps. unfold h, r1. by rewrite player_update, decide_True, Hps. }
  destruct (Z.leb_spec h 0) as [Hdead|Halive].
  - set (mark := λ p, set_deaths (deaths p + 1) (set_death_time now (set_is_dead true p))).
    eapply quiet_trans; [|apply quiet_killed]. split.
    { eapply hush_trans; [exact H02|]. by apply hush_players, (seats_alter _ t mark). }
    intros _ HF. unfold fits, update_player. cbn [players_ set_players_]. rewrite Hp2, alter_alter_eq. apply fit_alter; [|done].
    intros ps Hps Hfit. pose proof (hurt_range sk t ps Hfit) as Hr. rewrite <- (Hh ps Hps) in Hr.
    assert (Hz : hp (hurt sk ps) = 0) by (rewrite <- (Hh ps Hps); lia). destruct Hfit as (F1 & F2 & F3 & F4).
    unfold compose, fit, mark. cbn [player_id max_hp hp is_dead set_deaths set_death_time set_is_dead]. rewrite Hz.
    split_and!; [done|done|lia|unfold hurt; cbn; lia|done].
  - split; [done|]. intros _ HF. unfold fits. rewrite Hp2. apply fit_alter; [|done].
    intros ps Hps Hfit. pose proof (hurt_range sk t ps Hfit) as Hr. specialize (Hlive ps Hps). rewrite (Hh ps Hps) in Halive.
    destruct Hfit as (F1 & F2 & F3 & F4). unfold fit. split_and!; [done|done|lia|change (max_hp (hurt sk ps)) with (max_hp ps); lia|].
    change (is_dead (hurt sk ps)) with (is_dead ps). rewrite Hlive. split; [done|lia].
Qed.


Lemma quiet_cooldown pid f r : quiet r (update_player pid (λ p, set_skill_cooldowns (f p) p) r).
Proof. apply quiet_update; [done|]. by intros ps _ Hf. Qed.

Lemma quiet_ProcessAttack now a t skill fire d r : quiet r (ProcessAttack now a t skill fire d r).1.
Proof.
  unfold ProcessAttack. destruct (find_skill skill) as [sk|]; [|apply quiet_refl].
  destruct (player r a) as [pa|] eqn:Ea; [|apply quiet_refl]. destruct (is_dead pa) eqn:Ed; [apply quiet_refl|].
  case_match; [apply quiet_refl|]. set (r1 := update_player a _ r).
  assert (Hq1 : quiet r r1) by apply quiet_cooldown. after Hq1.
  assert (Hgo : ∀ t, (∀ ps, player r1 t = Some ps → is_dead ps = false) →
     quiet r1 (strike now a t (from_option player_id 0 (player r1 t)) sk
       (BroadcastAll (S_ATTACK a (from_option player_id 0 (player r1 t)) skill fire (Some d)) r1))).
  { intros t' Ht'. eapply quiet_trans; [|apply quiet_strike]; [by apply quiet_BroadcastAll|].
    intros ps. unfold player. rewrite players_BroadcastAll. apply Ht'. }
  destruct (is_self_target sk).
  { apply Hgo. intros ps. unfold r1. rewrite player_update, decide_True, Ea by done. by intros [= <-]. }
  set (t' := if t =? 0 then _ else _). destruct (t' =? 0); [apply quiet_refl|].
  destruct (player r1 t') as [pt|] eqn:Et; [|apply quiet_refl].
  destruct (is_dead pt) eqn:Edt; [apply quiet_refl|]. destruct (_ <? _)%f32; [apply quiet_refl|]. rewrite <- Et. apply Hgo. intros ps. congruence.
Qed.

Lemma quiet_ProcessProjectileHit now a t skill r : quiet r (ProcessProjectileHit now a t skill r).1.
Proof.
  unfold ProcessProjectileHit. destruct (find_skill skill) as [sk|]; [|apply quiet_refl].
  destruct (player r a) as [pa|]; [|apply quiet_refl]. destruct (player r t) as [pt|] eqn:Et; [|apply quiet_refl].
  destruct (is_dead pa); [apply quiet_refl|]. destruct (is_dead pt) eqn:Ed; [apply quiet_refl|].
  eapply quiet_trans; [|apply quiet_strike]; [by apply quiet_BroadcastAll|]. intros ps. unfold player.
  rewrite players_BroadcastAll. fold (player r t). congruence.
Qed.

Lemma quiet_random_floor r : quiet r (random_floor r).2 ∧ players_ (random_floor r).2 = players_ r ∧ bots_ (random_floor r).2 = bots_ r.
Proof.
  unfold random_floor. destruct (GetRandomFloorPosition _ _ _) as [[w g]|]; [|split_and!; [apply quiet_refl|done|done]].
  split_and!; [|done|done]. apply quiet_field; try done. by intros [].
Qed.

Lemma quiet_respawn now r pid : quiet r (respawn now r pid).
Proof.
  unfold respawn. destruct (player r pid) as [ps|] eqn:Ep; [|apply quiet_refl]. do 2 (case_match; [apply quiet_refl|]).
  destruct (quiet_random_floor r) as (Hq & Hp & _). destruct (random_floor r) as [w r1]. cbn [snd] in *. after Hq.
  eapply quiet_trans; [|by apply quiet_BroadcastAll]. set (ps' := set_pos _ _). split.
  - apply hush_players. unfold seats. rewrite fmap_insert, Hp. apply insert_id. rewrite lookup_fmap.
    change (players_ r !! pid) with (player r pid). rewrite Ep. done.
  - intros _ HF. unfold fits. cbn. apply map_Forall_insert_2; [|done]. unfold fits in HF. rewrite Hp in HF.
    destruct (HF pid ps Ep) as (F1 & F2 & F3 & F4). split_and!; cbn; [done|done|lia|lia|]. split; [done|lia].
Qed.

Lemma quiet_CheckRespawns now r : quiet r (CheckRespawns now r).
Proof. apply foldl_quiet. intros. apply quiet_respawn. Qed.

(** *** Projectiles *)

Lemma quiet_set_projectiles v n r : quiet r (set_projectiles_ v (set_next_projectile_ n r)).
Proof. apply quiet_field; try done. by intros []. Qed.

Lemma quiet_SpawnProjectile o p d s r : quiet r (SpawnProjectile o p d s r).
Proof. unfold SpawnProjectile. case_match; [apply quiet_refl|]. apply quiet_set_projectiles. Qed.

Lemma quiet_hit_first now p ps r : quiet r (hit_first now p ps r).1.
Proof.
  induction ps as [|[pid s] ps IH]; cbn [hit_first]; [apply quiet_refl|]. case_match; [done|]. case_match; [|done].
  apply quiet_ProcessProjectileHit.
Qed.

Lemma quiet_move_projectile now dt p r : quiet r (move_projectile now dt p r).1.
Proof.
  unfold move_projectile. case_match; [apply quiet_refl|]. case_match; [apply quiet_refl|].
  match goal with |- context [hit_first ?n ?q ?l r] => pose proof (quiet_hit_first n q l r) as Hq; destruct (hit_first n q l r) end. exact Hq.
Qed.

Lemma quiet_projectiles_Update now dt r : quiet r (projectiles_Update now dt r).
Proof.
  unfold projectiles_Update.
  assert (Hf : ∀ l, quiet r (foldr (λ p '(r, kept), let '(r, q) := move_projectile now dt p r in (r, option_list q ++ kept)) (r, []) l).1).
  { induction l as [|p l IH]; [apply quiet_refl|]. cbn [foldr]. destruct (foldr _ _ l) as [r1 kept]. cbn [fst] in IH. after IH.
    pose proof (quiet_move_projectile now dt p r1) as Hm. destruct (move_projectile now dt p r1). exact Hm. }
  specialize (Hf (projectiles_ r)). destruct (foldr _ _ _) as [r1 ps]. cbn [fst] in Hf. after Hf.
  apply quiet_field; try done. by intros [].
Qed.

(** *** Chat, parties and handlers *)

Lemma quiet_ProcessChat s t m n r : quiet r (ProcessChat s t m n r).
Proof.
  unfold ProcessChat. destruct t; auto using quiet_refl, quiet_BroadcastAll with quiet; try by apply quiet_BroadcastAll.
  - case_match; [apply quiet_refl|]. apply foldl_quiet. intros r' ps _. case_match; [by apply quiet_SendTo|apply quiet_refl].
  - case_match; [|apply quiet_refl]. case_match. eapply quiet_trans; [|by apply quiet_SendTo]. by apply quiet_SendTo.
Qed.

Lemma quiet_party pid v r : quiet r (update_player pid (set_party_id v) r).
Proof. apply quiet_update; [done|]. by intros ps _ Hf. Qed.

Lemma quiet_BroadcastPartyUpdate s p r : quiet r (BroadcastPartyUpdate s p r).
Proof. unfold BroadcastPartyUpdate. case_match; [|apply quiet_refl]. apply foldl_quiet. intros. by apply quiet_SendTo. Qed.

Lemma quiet_CreateParty l s r : quiet r (CreateParty l s r).2.
Proof.
  unfold CreateParty. destruct (player r l) as [ps|]; [|apply quiet_refl]. case_match; [apply quiet_refl|]. cbn [snd].
  eapply quiet_trans; [|apply quiet_BroadcastPartyUpdate]. eapply quiet_trans; [|by apply quiet_SendTo]. apply quiet_party.
Qed.

Lemma quiet_JoinParty pid p s r : quiet r (JoinParty pid p s r).2.
Proof.
  unfold JoinParty. destruct (player r pid) as [ps|]; [|apply quiet_refl]. case_match; [apply quiet_refl|].
  destruct (parties_ s !! p); cbn [snd]; [|by apply quiet_SendTo].
  eapply quiet_trans; [|apply quiet_BroadcastPartyUpdate]. eapply quiet_trans; [|by apply quiet_SendTo]. apply quiet_party.
Qed.

Lemma quiet_LeaveParty pid s r : quiet r (LeaveParty pid s r).2.
Proof.
  unfold LeaveParty. destruct (player r pid) as [ps|]; [|apply quiet_refl]. case_match; [apply quiet_refl|].
  assert (Hq : quiet r (SendTo ps S_LEAVE_PARTY (update_player pid (set_party_id 0) r)))
    by (eapply quiet_trans; [apply quiet_party|by apply quiet_SendTo]).
  destruct (parties_ s !! _); [|exact Hq]. case_match; cbn [snd]; [exact Hq|]. after Hq. apply quiet_BroadcastPartyUpdate.
Qed.

Lemma quiet_HandleMove pid p rot v st r : quiet r (HandleMove pid p rot v st r).
Proof.
  unfold HandleMove. case_match; [apply quiet_refl|]. set (r1 := update_player pid _ r).
  assert (Hq1 : quiet r r1) by (apply quiet_update; [done|by intros ps _ Hf]). after Hq1.
  destruct (player r1 pid); [|apply quiet_refl]. by apply quiet_BroadcastExcept.
Qed.

Lemma quiet_HandleFire now pid ps fp fd r : quiet r (HandleFire now pid ps fp fd r).
Proof.
  unfold HandleFire. match goal with |- context [if ?b then r else _] => destruct b end; [apply quiet_refl|].
  eapply quiet_trans; [|apply quiet_SpawnProjectile]. eapply quiet_trans; [|by apply quiet_BroadcastExcept]. apply quiet_cooldown.
Qed.

Lemma quiet_HandlePickup ps g r : quiet r (HandlePickup ps g r).
Proof.
  unfold HandlePickup. pose proof (quiet_TryPickup (player_id ps) g r) as Hq. destruct (TryPickup _ _ _) as [r1 ok]. after Hq.
  by apply quiet_SendTo.
Qed.

Lemma quiet_HandleUseItem pid i r : quiet r (HandleUseItem pid i r).
Proof.
  unfold HandleUseItem. set (r1 := update_player pid _ r). assert (Hq1 : quiet r r1) by apply quiet_set_gold. after Hq1.
  destruct (player r1 pid) as [ps|]; [|apply quiet_refl].
  do 2 (eapply quiet_trans; [|by apply quiet_SendTo]). by apply quiet_SendTo.
Qed.

Lemma quiet_HandleAttack now ps t s fp fd r : quiet r (HandleAttack now ps t s fp fd r).
Proof. apply quiet_ProcessAttack. Qed.

(** All packets but the one that makes a client ready. *)
Lemma quiet_OnPacket now pid p s r : p ≠ C_SCENE_READY → quiet r (OnPacket now pid p s r).2.
Proof.
  intros Hp. unfold OnPacket. case_bool_decide; [apply quiet_refl|]. destruct (player r pid) as [ps|]; [|apply quiet_refl].
  destruct p; try done; cbn [snd]; auto using quiet_refl, quiet_HandleMove, quiet_HandleAttack, quiet_HandleFire, quiet_ProcessChat,
    quiet_CreateParty, quiet_JoinParty, quiet_LeaveParty, quiet_HandlePickup, quiet_HandleUseItem.
Qed.

(** *** Bots *)

Lemma quiet_set_bots v r : (tidy r → map_Forall bot_fit v) → quiet r (set_bots_ v r).
Proof. intros Hv. apply quiet_field; try done. intros HT. pose proof (Hv HT). by destruct HT. Qed.

Definition live_bot (i : Z) (b : BotState) : Prop := bot_fit i b ∧ bot_is_dead b = false.

Lemma quiet_PickNewWaypoint n b r : quiet r (PickNewWaypoint n b r).2 ∧
  ∀ i, live_bot i b → live_bot i (PickNewWaypoint n b r).1.
Proof.
  revert r. induction n as [|n IH]; intros r; cbn [PickNewWaypoint]; [split; [apply quiet_refl|done]|].
  pose proof (quiet_draw (uniform_int 0 (GRID_WIDTH - 1)) r) as Hq1. destruct (draw _ r) as [gx r1]. cbn [snd] in Hq1.
  pose proof (quiet_draw (uniform_int 0 (GRID_HEIGHT - 1)) r1) as Hq2. destruct (draw _ r1) as [gy r2]. cbn [snd] in Hq2.
  assert (Hq : quiet r r2) by (by eapply quiet_trans). destruct (IH r2) as [IHq IHb].
  destruct (negb _); [split; [by eapply quiet_trans|done]|]. destruct (_ <? _)%f32; [split; [by eapply quiet_trans|done]|].
  split; [done|]. intros i Hb. exact Hb.
Qed.

Lemma full_health b ratio : bot_hp b = 100 → bot_max_hp b = 100 → ratio = kHealHpRatio ∨ ratio = kRetreatHpRatio →
  below_ratio b ratio = false.
Proof. intros Hh Hm [->| ->]; unfold below_ratio; rewrite Hh, Hm; reflexivity. Qed.

(** The manager never sees a live bot hurt. *)
Lemma no_heal now i b r : live_bot i b → try_heal now b r = (b, r).
Proof. intros [(_ & Hm & Hh) Hd]. unfold try_heal. by rewrite (full_health b) by auto. Qed.

Lemma quiet_try_heal now b r : quiet r (try_heal now b r).2.
Proof. unfold try_heal. case_match; [|apply quiet_refl]. apply quiet_ProcessAttack. Qed.

Lemma quiet_fireball now x z b r : quiet r (fireball now x z b r).2 ∧ ∀ i, live_bot i b → live_bot i (fireball now x z b r).1.
Proof.
  unfold fireball. destruct (off_cooldown now 2 b); [|split; [apply quiet_refl|done]]. split; [|by intros i Hb].
  cbn [snd]. eapply quiet_trans; [|by apply quiet_BroadcastAll]. apply quiet_SpawnProjectile.
Qed.

Lemma quiet_melee now t x z b r : quiet r (melee now t x z b r).2 ∧ ∀ i, live_bot i b → live_bot i (melee now t x z b r).1.
Proof.
  unfold melee. set (b1 := set_has_target false (stand b)). set (sk := if off_cooldown now 1 b1 then 1 else 0).
  destruct (off_cooldown now sk b1); (split; [|by intros i Hb]); [apply quiet_ProcessAttack|apply quiet_refl].
Qed.

Lemma chase_live now t x z i b : live_bot i b → live_bot i (chase now t x z b).
Proof. unfold chase. by case_match. Qed.

Lemma quiet_UpdateCombat now b r : quiet r (UpdateCombat now b r).2 ∧ ∀ i, live_bot i b → live_bot i (UpdateCombat now b r).1.
Proof.
  unfold UpdateCombat. pose proof (quiet_try_heal now b r) as Hq.
  assert (Hb : ∀ i, live_bot i b → live_bot i (try_heal now b r).1) by (intros i Hb; by rewrite (no_heal now i b r Hb)).
  destruct (try_heal now b r) as [b1 r1]. cbn [fst snd] in *. destruct (nearest b1 r1) as [[[id dist] tx] tz].
  destruct (id =? 0); [by split|]. destruct (_ && _); [by split|].
  match goal with |- context [degrees ?a ?b] => set (dx := a); set (dz := b) end.
  set (b2 := set_bot_rotation_y _ b1).
  destruct (below_ratio b2 _ && _).
  { match goal with |- context [fireball now dx dz ?b3 r1] => destruct (quiet_fireball now dx dz b3 r1) as [Hf Hl]; set (b4 := b3) in * end.
    split; [by eapply quiet_trans|]. intros i Hi. apply Hl. exact (Hb i Hi). }
  destruct (_ <=? kAttackRange)%f32.
  { destruct (quiet_melee now id dx dz (set_is_retreating false b2) r1) as [Hf Hl].
    split; [by eapply quiet_trans|]. intros i Hi. apply Hl. exact (Hb i Hi). }
  destruct (_ <=? kFireballRange)%f32.
  - destruct (quiet_fireball now dx dz (set_is_retreating false b2) r1) as [Hf Hl]. destruct (fireball _ _ _ _ _) as [b3 r3].
    split; [by eapply quiet_trans|]. intros i Hi. apply chase_live, Hl. exact (Hb i Hi).
  - split; [done|]. intros i Hi. apply chase_live. exact (Hb i Hi).
Qed.

Lemma UpdateMovement_live g dt i b : live_bot i b → live_bot i (UpdateMovement g dt b).
Proof.
  intros Hb. unfold UpdateMovement. case_match; [done|].
  assert (Hf : ∀ b, live_bot i b → live_bot i (follow_path dt b)).
  { intros b' Hb'. unfold follow_path. case_match; [|exact Hb']. case_match; exact Hb'. }
  case_match; [|by apply Hf]. case_match; [exact Hb|]. apply Hf. exact Hb.
Qed.

Lemma quiet_BroadcastBotMove b r : quiet r (BroadcastBotMove b r).
Proof.
  unfold BroadcastBotMove. destruct (player r (bot_id b)); [|apply quiet_refl]. eapply quiet_trans; [|by apply quiet_BroadcastAll].
  apply quiet_update; [done|]. by intros ps _ Hf.
Qed.

Lemma quiet_update_bot now dt r i : quiet r (update_bot now dt r i).
Proof.
  unfold update_bot. destruct (bots_ r !! i) as [b|] eqn:Eb; [|apply quiet_refl]. destruct (bot_is_dead b) eqn:Ed; [apply quiet_refl|].
  destruct (quiet_UpdateCombat now b r) as [Hq1 Hl1]. destruct (UpdateCombat now b r) as [b1 r1]. cbn [fst snd] in *.
  assert (Hw : ∃ b2 r2, (if negb (has_target b1) && (chase_target b1 =? 0) then PickNewWaypoint 50 b1 r1 else (b1, r1)) = (b2, r2) ∧
    quiet r1 r2 ∧ (∀ i, live_bot i b1 → live_bot i b2)).
  { destruct (_ && _); [|exists b1, r1; split_and!; [done|apply quiet_refl|done]].
    destruct (quiet_PickNewWaypoint 50 b1 r1) as [Hq Hl]. destruct (PickNewWaypoint 50 b1 r1) as [b2 r2]. by exists b2, r2. }
  destruct Hw as (b2 & r2 & -> & Hq2 & Hl2). eapply quiet_trans; [|apply quiet_BroadcastBotMove].
  set (b3 := UpdateMovement _ _ _). assert (Hq : quiet r r2) by (by eapply quiet_trans).
  assert (Hl3 : live_bot i b → live_bot i b3) by (intros Hb; by apply UpdateMovement_live, Hl2, Hl1).
  assert (Hset : tidy r → quiet r2 (set_bots_ (<[i := b3]> (bots_ r2)) r2)).
  { intros HT. apply quiet_set_bots. intros HT2. apply map_Forall_insert_2; [|apply HT2]. apply Hl3. split; [|done]. by apply HT. }
  destruct Hq as [Hh Hf]. split.
  - destruct Hh as [A1 A2 A3 A4 A5]. split; try done. intros HT. apply Hset; auto.
  - intros HT HF. apply Hset; [done|by apply Hh|by apply Hf].
Qed.

Lemma quiet_respawn_bot now r i : quiet r (respawn_bot now r i).
Proof.
  unfold respawn_bot. destruct (bots_ r !! i) as [b|] eqn:Eb; [|apply quiet_refl]. do 2 (case_match; [apply quiet_refl|]).
  destruct (quiet_random_floor r) as ([Hh Hf] & Hp & Hb). destruct (random_floor r) as [w r1]. cbn [snd] in *.
  set (b1 := stand _). eapply quiet_trans; [|by apply quiet_BroadcastAll].
  set (r2 := set_bots_ _ r1).
  assert (Hfit : tidy r → bot_fit i b1).
  { intros HT. destruct (s_bots _ HT i b Eb) as (F1 & F2 & F3). split_and!; [done|done|]. intros _. exact F2. }
  split.
  - eapply hush_trans; [|apply hush_players, seats_alter; done]. destruct Hh as [A1 A2 A3 A4 A5]. split; try done.
    intros HT. pose proof (Hfit HT). destruct (A5 HT) as [T1 T2 T3 T4]. split; try done. cbn. by apply map_Forall_insert_2.
  - intros HT HF. destruct (Hfit HT) as (F1 & F2 & F3). apply fit_alter; [|by apply Hf].
    intros ps _ (G1 & G2 & G3 & G4). assert (Hb1 : bot_hp b1 = 100) by (by apply F3).
    unfold fit. cbn [player_id max_hp hp is_dead set_pos set_is_dead set_hp]. rewrite Hb1. split_and!; [done|done|lia|lia|done].
Qed.

Lemma sync_death_fit ps i b : bot_fit i b → bot_fit i (sync_death ps i b).
Proof. intros Hb. unfold sync_death. repeat case_match; try done. destruct Hb as (? & ? & ?). by split_and!. Qed.

Lemma quiet_bots_Update now dt r : quiet r (bots_Update now dt r).
Proof.
  unfold bots_Update. eapply quiet_trans; [|apply foldl_quiet; intros; apply quiet_respawn_bot].
  eapply quiet_trans; [|apply foldl_quiet; intros; apply quiet_update_bot]. apply quiet_set_bots.
  intros HT i b Hi. rewrite map_lookup_imap in Hi. destruct (bots_ r !! i) as [b'|] eqn:Eb; [|done]. cbn in Hi. simplify_eq.
  by apply sync_death_fit, HT.
Qed.

(** *** The tick *)

Lemma quiet_age_item r g : quiet r (age_item r g).
Proof.
  unfold age_item. destruct (ground_items_ r !! g) as [it|] eqn:Eg; [|apply quiet_refl]. case_match.
  - eapply quiet_trans; [|apply quiet_delete_item]. by apply quiet_BroadcastAll.
  - apply quiet_field; try done. intros [S1 S2 S3 S4]. split; try done. cbn. apply map_Forall_insert_2; [|done]. exact (S2 g it Eg).
Qed.

Lemma quiet_scoreboard r : quiet r (scoreboard r).
Proof.
  assert (Hs : ∀ n, quiet r (set_scoreboardCounter_ n r)) by (intros n; apply quiet_field; try done; by intros []).
  unfold scoreboard. case_match; [|apply Hs]. eapply quiet_trans; [|by apply quiet_BroadcastAll]. apply Hs.
Qed.

Lemma quiet_OnTick now r : quiet r (OnTick now r).
Proof.
  unfold OnTick. eapply quiet_trans; [|apply quiet_scoreboard]. eapply quiet_trans; [|apply foldl_quiet; intros; apply quiet_age_item].
  eapply quiet_trans; [|apply quiet_bots_Update]. eapply quiet_trans; [|apply quiet_projectiles_Update]. apply quiet_CheckRespawns.
Qed.

(** ** What a client knows *)

(** What a client makes of a message: the others it shows. *)
Definition learn (known : gset Z) (m : server_msg) : gset Z :=
  match m with
  | S_CREATE_ROOM _ _ _ | S_JOIN_ROOM _ _ _ | S_PORTAL _ _ _ => ∅
  | S_PLAYER_LIST infos => list_to_set (info_id <$> infos) ∪ known
  | S_SPAWN info => {[info_id info]} ∪ known
  | S_DESPAWN pid => known ∖ {[pid]}
  | _ => known
  end.

Definition packet_for (sid : Z) (e : Z * OutboundMessage payload) : option server_msg :=
  if out_session e.2 =? sid then match out_body e.2 with Some (Packet m) => Some m | _ => None end else None.

(** The others that the client of a session shows. *)
Definition shown_to (sid : Z) (r : game_room) : gset Z := foldl learn ∅ (omap (packet_for sid) (sent_ r)).

Lemma shown_more sid r r' more : sent_ r' = sent_ r ++ more →
  shown_to sid r' = foldl learn (shown_to sid r) (omap (packet_for sid) more).
Proof. intros E. unfold shown_to. by rewrite E, omap_app, foldl_app. Qed.

Lemma learn_neutral k m : neutral m → learn k m = k.
Proof. by destruct m. Qed.

Lemma learn_idem k m : learn (learn k m) m = learn k m.
Proof. destruct m; cbn; set_solver. Qed.

Lemma shown_hush sid r r' : hush r r' → shown_to sid r' = shown_to sid r.
Proof.
  intros [_ _ _ (more & E & Hm) _ _ _]. rewrite (shown_more sid r r' more E). clear E. generalize (shown_to sid r).
  induction Hm as [|e more He _ IH]; intros k; [done|]. cbn [omap list_omap]. unfold packet_for at 1.
  destruct (_ =? _); [|apply IH]. destruct (out_body e.2) as [[m|]|] eqn:Eb; [|apply IH|apply IH]. cbn [foldl].
  rewrite learn_neutral; [apply IH|]. unfold neutral_out in He. by rewrite Eb in He.
Qed.

Lemma shown_enqueue sid s w m r : shown_to sid (enqueue s w (Packet m) r) =
  if s =? sid then learn (shown_to sid r) m else shown_to sid r.
Proof. erewrite shown_more by done. cbn. unfold packet_for. cbn. by destruct (s =? sid). Qed.

Lemma shown_task sid s w p q r : shown_to sid (enqueue s w (EnterState p q) r) = shown_to sid r.
Proof. erewrite shown_more by done. cbn. unfold packet_for. cbn. by destruct (s =? sid). Qed.

(** Whom a broadcast reaches. *)
Definition reached (sid : Z) (ps : PlayerState) : Prop :=
  session_id ps = sid ∧ sid ≠ 0 ∧ scene_ready ps = true ∧ worker_up (worker_id ps) = true.
#[local] Instance reached_dec sid ps : Decision (reached sid ps).
Proof. unfold reached. apply _. Defined.

Lemma shown_foldl sid m l r : shown_to sid (foldl (broadcast_one m) r l) =
  if decide (Exists (reached sid) l) then learn (shown_to sid r) m else shown_to sid r.
Proof.
  revert r. induction l as [|ps l IH]; intros r; cbn [foldl].
  { rewrite decide_False; [done|]. by intros ?%Exists_nil. }
  assert (H1' : shown_to sid (broadcast_one m r ps) = if decide (reached sid ps) then learn (shown_to sid r) m else shown_to sid r).
  { unfold broadcast_one. destruct (Z.eqb_spec (session_id ps) 0) as [Ez|Ez].
    { rewrite decide_False; [done|]. intros (E1 & E2 & _). congruence. }
    destruct (scene_ready ps) eqn:Er; cbn [negb].
    2: { rewrite decide_False; [done|]. intros (_ & _ & E3 & _). congruence. }
    destruct (worker_up (worker_id ps)) eqn:Ew; cbn [negb].
    2: { rewrite decide_False; [done|]. intros (_ & _ & _ & E4). congruence. }
    rewrite shown_enqueue. destruct (Z.eqb_spec (session_id ps) sid) as [Es|Es].
    - rewrite decide_True; [done|]. split_and!; congruence.
    - rewrite decide_False; [done|]. by intros (E1 & _). }
  rewrite IH, H1'. clear IH H1'.
  destruct (decide (Exists (reached sid) l)) as [Hl|Hl], (decide (reached sid ps)) as [Hp|Hp],
    (decide (Exists (reached sid) (ps :: l))) as [He|He]; try done; rewrite ?learn_idem; try done; exfalso;
    rewrite Exists_cons in He; tauto.
Qed.

(** ** Presence *)

(** The player of a session. *)
Context (owner : Z → Z).

(** A room in which sessions belong to one player each, bots to none, and clients that are not
    ready have been told of nobody. *)
Record seated (r : game_room) : Prop := {
  se_next : 900000 ≤ next_bot_id_ r;
  se_human : ∀ pid st, seats r !! pid = Some st → pid < 900000 ↔ seat_session st ≠ 0;
  se_up : ∀ pid st, seats r !! pid = Some st → seat_session st ≠ 0 → seat_ring st = true ∧ worker_up (seat_worker st) = true;
  se_owner : ∀ pid st, seats r !! pid = Some st → seat_session st ≠ 0 → owner (seat_session st) = pid;
  se_bot_seat : ∀ pid st, seats r !! pid = Some st → seat_session st = 0 → seat_ready st = false;
  se_base : ∀ pid, pid ∈ base_players_ r ↔ pid < 900000 ∧ is_Some (seats r !! pid);
}.

Lemma se_unique r pid pid' st st' : seated r → seats r !! pid = Some st → seats r !! pid' = Some st' → seat_session st ≠ 0 →
  seat_session st = seat_session st' → pid = pid'.
Proof.
  intros HS Hp Hp' Hs E. rewrite <- (se_owner _ HS pid st Hp Hs), E. apply (se_owner _ HS); congruence.
Qed.

(** What the client of each session shows: nobody before it is ready; then everyone else who
    is ready, all bots, and nobody who is not there. *)
Definition told_right (r : game_room) : Prop := ∀ pid st, seats r !! pid = Some st → seat_session st ≠ 0 →
  if seat_ready st then
    (∀ q st', seats r !! q = Some st' → q ≠ pid → seat_ready st' = true ∨ seat_session st' = 0 → q ∈ shown_to (seat_session st) r) ∧
    (∀ q, q ∈ shown_to (seat_session st) r → q ≠ pid ∧ is_Some (seats r !! q))
  else shown_to (seat_session st) r = ∅.

Lemma seated_hush r r' : hush r r' → seated r → seated r'.
Proof.
  intros [Hs Hb _ _ _ Hn _] [S1 S2 S3 S4 S5 S6]. split; rewrite ?Hs, ?Hb, ?Hn; done.
Qed.

Lemma told_hush r r' : hush r r' → told_right r → told_right r'.
Proof.
  intros HQ HT pid st. rewrite (q_seats _ _ HQ). intros Hp Hs. specialize (HT pid st Hp Hs).
  by rewrite (shown_hush _ _ _ HQ).
Qed.

Lemma seat_player r pid st : seats r !! pid = Some st ↔ ∃ ps, player r pid = Some ps ∧ seat_of ps = st.
Proof. unfold seats, player. rewrite lookup_fmap, fmap_Some. split; intros (ps & ? & ?); exists ps; done. Qed.

Lemma elem_of_enum (m : gmap Z PlayerState) ps : ps ∈ (enum m).*2 ↔ ∃ pid, m !! pid = Some ps.
Proof.
  rewrite enum_all, list_elem_of_fmap. split.
  - intros ([pid ps'] & -> & Hp%elem_of_map_to_list). by exists pid.
  - intros [pid Hp]. exists (pid, ps). by rewrite elem_of_map_to_list.
Qed.

(** The effect of a broadcast on the client of the player [pid]. *)
Lemma shown_BroadcastAll m r pid st : seated r → builds m = true → seats r !! pid = Some st → seat_session st ≠ 0 →
  shown_to (seat_session st) (BroadcastAll m r) =
  if seat_ready st then learn (shown_to (seat_session st) r) m else shown_to (seat_session st) r.
Proof.
  intros HS Hb Hp Hs. unfold BroadcastAll. rewrite Hb. cbn [negb]. rewrite shown_foldl.
  apply seat_player in Hp as (ps & Hp & <-). cbn. destruct (scene_ready ps) eqn:Er.
  - rewrite decide_True; [done|]. apply Exists_exists. exists ps. split; [apply elem_of_enum; by exists pid|].
    split_and!; [done|done|done|]. by apply (se_up _ HS pid (seat_of ps)); [apply seat_player; eauto|].
  - rewrite decide_False; [done|]. intros (ps' & (pid' & Hp')%elem_of_enum & (E1 & E2 & E3 & E4))%Exists_exists.
    assert (pid' = pid) as ->.
    { eapply (se_unique r pid' pid (seat_of ps') (seat_of ps)); [done|apply seat_player; eauto|apply seat_player; eauto|cbn; congruence|done]. }
    unfold player in Hp. congruence.
Qed.

Lemma shown_BroadcastExcept x m r pid st : seated r → builds m = true → seats r !! pid = Some st → seat_session st ≠ 0 →
  shown_to (seat_session st) (BroadcastExcept x m r) =
  if seat_ready st && negb (pid =? x) then learn (shown_to (seat_session st) r) m else shown_to (seat_session st) r.
Proof.
  intros HS Hb Hp Hs. unfold BroadcastExcept. rewrite Hb. cbn [negb]. rewrite shown_foldl.
  assert (Hin : ∀ ps, ps ∈ (filter (λ e : Z * PlayerState, e.1 ≠ x) (enum (players_ r))).*2 ↔ ∃ k, k ≠ x ∧ player r k = Some ps).
  { intros ps. rewrite list_elem_of_fmap. split.
    - intros ([k ps'] & -> & [Hk Hin]%list_elem_of_filter). rewrite enum_all, elem_of_map_to_list in Hin. by exists k.
    - intros (k & Hk & Hp'). exists (k, ps). split; [done|]. apply list_elem_of_filter. split; [done|]. by rewrite enum_all, elem_of_map_to_list. }
  apply seat_player in Hp as (ps & Hp & <-). cbn. destruct (scene_ready ps && negb (pid =? x)) eqn:Er.
  - apply andb_prop in Er as [Er Ex%negb_true_iff%Z.eqb_neq]. rewrite decide_True; [done|]. apply Exists_exists. exists ps.
    split; [apply Hin; by exists pid|]. split_and!; [done|done|done|]. by apply (se_up _ HS pid (seat_of ps)); [apply seat_player; eauto|].
  - rewrite decide_False; [done|]. intros (ps' & (pid' & Hx & Hp')%Hin & (E1 & E2 & E3 & E4))%Exists_exists.
    assert (pid' = pid) as ->.
    { eapply (se_unique r pid' pid (seat_of ps') (seat_of ps)); [done|apply seat_player; eauto|apply seat_player; eauto|cbn; congruence|done]. }
    simplify_eq. rewrite E3 in Er. cbn in Er. by apply negb_false_iff, Z.eqb_eq in Er.
Qed.

Lemma seats_update r pid f : seats (update_player pid f r) = match player r pid with
  | Some ps => <[pid := seat_of (f ps)]> (seats r) | None => seats r end.
Proof.
  unfold seats, update_player, player. cbn. destruct (players_ r !! pid) as [ps|] eqn:Ep.
  - rewrite <- fmap_insert. f_equal. apply map_eq. intros k. destruct (decide (k = pid)) as [->|].
    + by rewrite lookup_alter_eq, lookup_insert_eq, Ep.
    + by rewrite lookup_alter_ne, lookup_insert_ne by congruence.
  - f_equal. apply alter_id. by intros ? ?%(eq_trans (eq_sym Ep)).
Qed.

(** All that holds of a room between two jobs. *)
Record room_right (r : game_room) : Prop := {
  rr_fits : fits r;
  rr_tidy : tidy r;
  rr_seated : seated r;
  rr_told : unbuilt_ r = 0%nat → told_right r;
}.

Lemma right_quiet r r' : quiet r r' → room_right r → room_right r'.
Proof.
  intros [Hh Hf] [R1 R2 R3 R4]. split; [by apply Hf|by apply Hh|by eapply seated_hush|].
  intros Hu. eapply told_hush; [exact Hh|]. by apply R4, Hh.
Qed.

(** A change of seats without a message. *)
Lemma shown_same sid r r' : sent_ r' = sent_ r → shown_to sid r' = shown_to sid r.
Proof. intros E. unfold shown_to. by rewrite E. Qed.

Lemma seated_insert r pid st r' : seated r → seats r' = <[pid := st]> (seats r) → pid < 900000 →
  base_players_ r' = {[pid]} ∪ base_players_ r → next_bot_id_ r' = next_bot_id_ r →
  seat_session st ≠ 0 → seat_ring st = true → worker_up (seat_worker st) = true → owner (seat_session st) = pid → seated r'.
Proof.
  intros [S1 S2 S3 S4 S5 S6] Hs Hp Hb Hn Hss Hr Hw Ho. split; rewrite ?Hs, ?Hn, ?Hb; try done.
  - intros k s [[<- <-]|[Hk Hks]]%lookup_insert_Some; [done|by apply S2].
  - intros k s [[<- <-]|[Hk Hks]]%lookup_insert_Some; [done|by eapply S3].
  - intros k s [[<- <-]|[Hk Hks]]%lookup_insert_Some; [done|by apply S4].
  - intros k s [[<- <-]|[Hk Hks]]%lookup_insert_Some; [done|by eapply S5].
  - intros k. rewrite elem_of_union, elem_of_singleton, S6. destruct (decide (k = pid)) as [->|].
    + rewrite lookup_insert_eq. split; [by eauto|by left].
    + rewrite lookup_insert_ne by congruence. tauto.
Qed.

(** Someone who comes in has been told of nobody. *)
Lemma told_entered r r' pid st : seated r → told_right r → seats r' = <[pid := st]> (seats r) →
  seat_session st ≠ 0 → seat_ready st = false → owner (seat_session st) = pid →
  shown_to (seat_session st) r' = ∅ → (∀ sid, sid ≠ seat_session st → shown_to sid r' = shown_to sid r) → told_right r'.
Proof.
  intros HS HT Hs Hss Hrd Ho Hnew Hold k s. rewrite Hs. intros [[<- <-]|[Hk Hks]]%lookup_insert_Some Hns; [by rewrite Hrd|].
  assert (Hne : seat_session s ≠ seat_session st).
  { intros E. pose proof (se_owner _ HS k s Hks Hns) as Hok. rewrite E in Hok. congruence. }
  rewrite Hold by done. specialize (HT k s Hks Hns). destruct (seat_ready s); [|done]. destruct HT as [T1 T2]. split.
  - intros q s' [[<- <-]|[Hq Hqs]]%lookup_insert_Some Hqk Hd; [|by eapply T1]. destruct Hd; congruence.
  - intros q Hq. destruct (T2 q Hq) as [Hqk Hqs]. split; [done|]. rewrite lookup_insert_is_Some. destruct (decide (pid = q)); auto.
Qed.

(** Sending moves nobody. *)
Record sends (r r' : game_room) : Prop := {
  sd_players : players_ r' = players_ r;
  sd_base : base_players_ r' = base_players_ r;
  sd_next_bot : next_bot_id_ r' = next_bot_id_ r;
  sd_tidy : tidy r → tidy r';
  sd_built : unbuilt_ r' = 0%nat → unbuilt_ r = 0%nat;
}.

Lemma sends_refl r : sends r r.
Proof. by split. Qed.

Lemma sends_trans r r1 r2 : sends r r1 → sends r1 r2 → sends r r2.
Proof. intros [] []. split; try congruence; auto. Qed.

Lemma sends_not_built r : sends r (not_built r).
Proof. split; try done. by intros []. Qed.

Lemma sends_enqueue r sid wid b : sends r (enqueue sid wid b r).
Proof. split; try done. apply tidy_enqueue. Qed.

Lemma sends_foldl m l r : sends r (foldl (broadcast_one m) r l).
Proof.
  revert r. induction l as [|ps l IH]; intros r; [apply sends_refl|]. cbn. eapply sends_trans; [|apply IH].
  unfold broadcast_one. repeat (case_match; [apply sends_refl|]). apply sends_enqueue.
Qed.

Lemma sends_BroadcastAll m r : sends r (BroadcastAll m r).
Proof. unfold BroadcastAll. case_match; [apply sends_not_built|apply sends_foldl]. Qed.

Lemma sends_BroadcastExcept x m r : sends r (BroadcastExcept x m r).
Proof. unfold BroadcastExcept. case_match; [apply sends_not_built|apply sends_foldl]. Qed.

Lemma sends_SendTo ps m r : sends r (SendTo ps m r).
Proof.
  unfold SendTo. case_match; [apply sends_not_built|]. repeat (case_match; [apply sends_refl|]). apply sends_enqueue.
Qed.

Lemma sends_EnqueuePacket sid wid m r : sends r (EnqueuePacket sid wid m r).
Proof.
  unfold EnqueuePacket. case_match; [apply sends_refl|]. case_match; [apply sends_not_built|]. apply sends_enqueue.
Qed.

(** A room that has built everything has built this. *)
Lemma built_BroadcastAll m r : unbuilt_ (BroadcastAll m r) = 0%nat → builds m = true.
Proof. unfold BroadcastAll. by destruct (builds m). Qed.

Lemma built_BroadcastExcept x m r : unbuilt_ (BroadcastExcept x m r) = 0%nat → builds m = true.
Proof. unfold BroadcastExcept. by destruct (builds m). Qed.

Lemma built_SendTo ps m r : unbuilt_ (SendTo ps m r) = 0%nat → builds m = true.
Proof. unfold SendTo. by destruct (builds m). Qed.

Lemma built_EnqueuePacket sid wid m r : worker_up wid = true → unbuilt_ (EnqueuePacket sid wid m r) = 0%nat → builds m = true.
Proof. intros Hw. unfold EnqueuePacket. rewrite Hw. by destruct (builds m). Qed.

Lemma sends_seats r r' : sends r r' → seats r' = seats r.
Proof. intros HS. unfold seats. by rewrite (sd_players _ _ HS). Qed.

(** What is left to show after sending is what clients were told. *)
Lemma right_sends r r' : sends r r' → fits r → tidy r → seated r → (unbuilt_ r' = 0%nat → told_right r') → room_right r'.
Proof.
  intros HS Hf Ht [S1 S2 S3 S4 S5 S6] HT. pose proof (sends_seats _ _ HS) as Es. pose proof HS as [Ep Eb En Hti _].
  split; [unfold fits; by rewrite Ep|auto| |done]. split; rewrite ?Es, ?Eb, ?En; done.
Qed.

(** *** Ready *)

Lemma right_ready pid r : pid ∈ base_players_ r → room_right r → room_right (HandleSceneReady pid r).
Proof.
  intros Hbase HR. pose proof HR as [R1 R2 R3 R4]. unfold HandleSceneReady. destruct (player r pid) as [ps|] eqn:Ep; [|done].
  destruct (scene_ready ps) eqn:Er; [done|].
  assert (Hseat : seats r !! pid = Some (seat_of ps)) by (apply seat_player; eauto).
  assert (Hsid : session_id ps ≠ 0). { apply (se_base _ R3) in Hbase as [Hlt _]. by apply (se_human _ R3 pid (seat_of ps)). }
  destruct (se_up _ R3 pid _ Hseat Hsid) as [Hring Hup]. cbn in Hring, Hup.
  set (r1 := update_player pid (set_scene_ready true) r).
  set (others := info_of <$> _). set (r2 := SendTo ps (S_PLAYER_LIST others) r1).
  set (st := mkSeat (session_id ps) (worker_id ps) (worker_ring ps) true).
  assert (Hs1 : seats r1 = <[pid := st]> (seats r)) by (unfold r1; by rewrite seats_update, Ep).
  assert (HSd2 : sends r1 r2) by apply sends_SendTo.
  assert (HSd := sends_BroadcastExcept pid (S_SPAWN (info_of ps)) r2).
  assert (Hs2 : seats r2 = <[pid := st]> (seats r)) by (rewrite (sends_seats _ _ HSd2); exact Hs1).
  assert (HS1 : seated r1).
  { apply (seated_insert r pid st); [done|done| | |done|done|done|done|by apply (se_owner _ R3 pid _ Hseat)].
    - by apply (se_base _ R3) in Hbase as [? _].
    - cbn. set_solver. }
  assert (HS2 : seated r2).
  { destruct HS1 as [S1 S2 S3 S4 S5 S6]. split; rewrite ?(sends_seats _ _ HSd2), ?(sd_base _ _ HSd2), ?(sd_next_bot _ _ HSd2); done. }
  assert (Hfit : fits r1) by (apply fit_alter; [|done]; by intros ? _ Hf).
  apply (right_sends r1); [by eapply sends_trans|done|by destruct R2|done|].
  intros Hu. pose proof (sd_built _ _ HSd Hu) as Hu2. specialize (R4 (sd_built _ _ HSd2 Hu2)).
  assert (E2 : r2 = enqueue (session_id ps) (worker_id ps) (Packet (S_PLAYER_LIST others)) r1).
  { unfold r2, SendTo. rewrite (built_SendTo _ _ _ Hu2). by rewrite Hring, Hup. }
  assert (Hall : ∀ q, q ∈ info_id <$> others ↔ q ≠ pid ∧ is_Some (seats r !! q)).
  { intros q. unfold others. rewrite <- list_fmap_compose, <- list_fmap_compose, list_elem_of_fmap. split.
    - intros ([k p] & -> & [Hk Hin]%list_elem_of_filter). rewrite enum_all, elem_of_map_to_list in Hin. cbn.
      pose proof Hin as Hin'. unfold r1, update_player in Hin. cbn in Hin. rewrite lookup_alter_ne in Hin by (cbn in Hk; congruence).
      destruct (R1 k p Hin) as (-> & _). split; [done|]. unfold seats. rewrite lookup_fmap, Hin. by eexists.
    - intros [Hq [s Hs]]. apply seat_player in Hs as (p & Hp & _). exists (q, p). destruct (R1 q p Hp) as (Hid & _).
      split; [done|]. apply list_elem_of_filter. split; [done|]. rewrite enum_all, elem_of_map_to_list.
      unfold r1, update_player. cbn. by rewrite lookup_alter_ne by congruence. }
  assert (Hsh : shown_to (session_id ps) r2 = list_to_set (info_id <$> others)).
  { rewrite E2, shown_enqueue, Z.eqb_refl. rewrite (shown_same _ r r1) by done. pose proof (R4 pid _ Hseat Hsid) as HT. cbn in HT.
    rewrite Er in HT. rewrite HT. cbn. apply union_empty_r_L. }
  assert (HB : ∀ k s, seats r2 !! k = Some s → seat_session s ≠ 0 →
    shown_to (seat_session s) (BroadcastExcept pid (S_SPAWN (info_of ps)) r2) =
    if seat_ready s && negb (k =? pid) then {[pid]} ∪ shown_to (seat_session s) r2 else shown_to (seat_session s) r2).
  { intros k s Hk Hsn. rewrite (shown_BroadcastExcept pid _ r2 k s HS2 (built_BroadcastExcept _ _ _ Hu) Hk Hsn).
    destruct (R1 pid ps Ep) as (Hid & _). cbn. by rewrite Hid. }
  intros k s. rewrite (sends_seats _ _ HSd). intros Hk Hns. rewrite (HB k s Hk Hns).
  rewrite Hs2 in Hk |- *. apply lookup_insert_Some in Hk as [[<- <-]|[Hkp Hk]].
  - cbn [seat_ready seat_session st]. rewrite Z.eqb_refl. cbn. rewrite Hsh. split.
    + intros q s' Hq Hqp _. apply elem_of_list_to_set, Hall. split; [done|].
      rewrite lookup_insert_ne in Hq by congruence. by exists s'.
    + intros q Hq%elem_of_list_to_set%Hall. destruct Hq as [Hqp Hq]. split; [done|]. by rewrite lookup_insert_ne by congruence.
  - assert (Hne : seat_session s ≠ session_id ps).
    { intros E. apply Hkp. symmetry. by apply (se_unique r k pid s (seat_of ps)). }
    assert (shown_to (seat_session s) r2 = shown_to (seat_session s) r) as ->.
    { rewrite E2, shown_enqueue. destruct (Z.eqb_spec (session_id ps) (seat_session s)); [congruence|]. by apply shown_same. }
    rewrite (proj2 (Z.eqb_neq k pid)) by congruence. pose proof (R4 k s Hk Hns) as HT.
    destruct (seat_ready s); cbn; [|exact HT]. destruct HT as [T1 T2]. split.
    + intros q s' [[<- <-]|[Hq Hqs]]%lookup_insert_Some Hqk Hd; [set_solver|]. apply elem_of_union_r. by eapply T1.
    + intros q [->%elem_of_singleton|Hq]%elem_of_union; [split; [congruence|rewrite lookup_insert_eq; by eexists]|].
      destruct (T2 q Hq) as [Hqk Hqs]. split; [done|]. rewrite lookup_insert_is_Some. destruct (decide (pid = q)); auto.
Qed.

(** *** Leaving *)

Lemma right_RemovePlayer now pid r : room_right r → room_right (RemovePlayer now pid r).
Proof.
  intros HR. pose proof HR as [R1 R2 R3 R4]. unfold RemovePlayer. destruct (player r pid) as [ps|]; [|done].
  set (r1 := set_base_players_ _ _). set (r2 := BroadcastAll (S_DESPAWN pid) r1).
  cut (room_right r2).
  { intros HR2. case_bool_decide; [|done]. eapply right_quiet; [|exact HR2]. apply quiet_field; try done. by intros []. }
  assert (Hs1 : seats r1 = delete pid (seats r)) by apply fmap_delete.
  assert (HS1 : seated r1).
  { destruct R3 as [S1 S2 S3 S4 S5 S6]. split; rewrite ?Hs1; [done| | | | |].
    - intros k s [_ Hk]%lookup_delete_Some. by apply S2.
    - intros k s [_ Hk]%lookup_delete_Some. by eapply S3.
    - intros k s [_ Hk]%lookup_delete_Some. by apply S4.
    - intros k s [_ Hk]%lookup_delete_Some. by eapply S5.
    - intros k. change (base_players_ r1) with (base_players_ r ∖ {[pid]}). rewrite elem_of_difference, elem_of_singleton, S6.
      rewrite lookup_delete_is_Some. split; [intros ([? ?] & ?); done|intros (? & ? & ?); done]. }
  apply (right_sends r1); [apply sends_BroadcastAll|by apply map_Forall_delete|by destruct R2|done|].
  intros Hu. specialize (R4 (sd_built _ _ (sends_BroadcastAll _ r1) Hu)).
  intros k s. unfold r2. rewrite (sends_seats _ _ (sends_BroadcastAll _ r1)). intros Hk Hns.
  rewrite (shown_BroadcastAll _ r1 k s HS1 (built_BroadcastAll _ _ Hu) Hk Hns). rewrite Hs1 in Hk |- *.
  apply lookup_delete_Some in Hk as [Hkp Hk]. rewrite (shown_same _ r r1) by done. pose proof (R4 k s Hk Hns) as HT.
  destruct (seat_ready s); [|exact HT]. destruct HT as [T1 T2]. cbn [learn]. split.
  - intros q s' [Hqp Hq]%lookup_delete_Some Hqk Hd. apply elem_of_difference. split; [by eapply T1|set_solver].
  - intros q [Hq Hqp]%elem_of_difference. destruct (T2 q Hq) as [Hqk Hqs]. split; [done|].
    rewrite lookup_delete_is_Some. set_solver.
Qed.

(** *** Bots come *)

Definition bot_seat : seat := mkSeat 0 0 false false.

Lemma spawn_bot_spec base r batch : 900000 ≤ next_bot_id_ r →
  let '(r', batch') := spawn_bot base (r, batch) in
  info_id <$> batch' = (info_id <$> batch) ++ [next_bot_id_ r] ∧ seats r' = <[next_bot_id_ r := bot_seat]> (seats r) ∧
  base_players_ r' = base_players_ r ∧ sent_ r' = sent_ r ∧ next_bot_id_ r' = next_bot_id_ r + 1 ∧
  (fits r → fits r') ∧ (tidy r → tidy r') ∧ unbuilt_ r' = unbuilt_ r.
Proof.
  intros Hn. unfold spawn_bot, draw. destruct (uniform_real _ _ _) as [dx g] eqn:E1. cbn [rng_ set_rng_].
  destruct (uniform_real _ _ g) as [dz g'] eqn:E2. cbn. split_and!; try done.
  - by rewrite fmap_app.
  - unfold seats. cbn. by rewrite fmap_insert.
  - intros HF. apply map_Forall_insert_2; [|done]. split_and!; cbn; done.
  - intros [T1 T2 T3 T4]. split; try done. apply map_Forall_insert_2; [|done]. by split_and!.
Qed.

Lemma spawn_bots_spec base n r : 900000 ≤ next_bot_id_ r →
  let '(r', batch) := Nat.iter n (spawn_bot base) (r, []) in
  (∀ k, k ∈ info_id <$> batch → 900000 ≤ k) ∧ (∀ k, seats r' !! k = if decide (k ∈ info_id <$> batch) then Some bot_seat else seats r !! k) ∧
  base_players_ r' = base_players_ r ∧ sent_ r' = sent_ r ∧ next_bot_id_ r ≤ next_bot_id_ r' ∧
  (fits r → fits r') ∧ (tidy r → tidy r') ∧ unbuilt_ r' = unbuilt_ r.
Proof.
  intros Hn. induction n as [|n IH].
  { cbn. split_and!; try done. intros k Hk. by apply not_elem_of_nil in Hk. }
  cbn [Nat.iter nat_rect]. change (nat_rect _ _ _ n) with (Nat.iter n (spawn_bot base) (r, [])).
  destruct (Nat.iter n _ _) as [r1 batch]. destruct IH as (I1 & I2 & I3 & I4 & I5 & I6 & I7 & I8).
  pose proof (spawn_bot_spec base r1 batch ltac:(lia)) as Hb. destruct (spawn_bot base (r1, batch)) as [r2 batch2].
  destruct Hb as (B1 & B2 & B3 & B4 & B5 & B6 & B7 & B8). rewrite B1. split_and!; try congruence; try lia; try tauto.
  - intros k [Hk| ->%list_elem_of_singleton]%elem_of_app; [by apply I1|lia].
  - intros k. rewrite B2. destruct (decide (k = next_bot_id_ r1)) as [->|Hk].
    + rewrite lookup_insert_eq, decide_True by set_solver. done.
    + rewrite lookup_insert_ne, I2 by congruence. case_decide; case_decide; set_solver.
Qed.

Lemma right_SpawnBots n r : room_right r → room_right (SpawnBots n r).
Proof.
  intros HR. pose proof HR as [R1 R2 R3 R4]. unfold SpawnBots. set (base := if generated_ r then _ else _).
  pose proof (spawn_bots_spec base n r (se_next _ R3)) as Hb. destruct (Nat.iter n _ _) as [r1 batch].
  destruct Hb as (B1 & B2 & B3 & B4 & B5 & B6 & B7 & B8).
  assert (Hold : ∀ k s, seats r1 !! k = Some s → seat_session s ≠ 0 → (k ∉ info_id <$> batch) ∧ seats r !! k = Some s).
  { intros k s. rewrite B2. case_decide; [by intros [= <-]|done]. }
  assert (HS1 : seated r1).
  { destruct R3 as [S1 S2 S3 S4 S5 S6]. split.
    - lia.
    - intros k s. rewrite B2. case_decide as Hk; [|apply S2]. intros [= <-]. cbn. apply B1 in Hk. split; [lia|done].
    - intros k s Hk Hns. destruct (Hold k s Hk Hns). by eapply S3.
    - intros k s Hk Hns. destruct (Hold k s Hk Hns). by apply S4.
    - intros k s. rewrite B2. case_decide; [by intros [= <-]|apply S5].
    - intros k. rewrite B3, S6, B2. case_decide as Hk; [|done]. apply B1 in Hk. split; lia. }
  assert (Hsame : ∀ sid, shown_to sid r1 = shown_to sid r) by (intros; by apply shown_same).
  destruct (decide (batch = [])) as [->|Hne].
  { rewrite bool_decide_false by tauto. split; [by apply B6|by apply B7|done|]. rewrite B8. intros Hu k s. rewrite B2. intros Hk Hns.
    rewrite Hsame. pose proof (R4 Hu k s Hk Hns) as HT. destruct (seat_ready s); [|done]. destruct HT as [T1 T2]. split.
    - intros q s'. rewrite B2. apply T1.
    - intros q Hq. rewrite B2. by apply T2. }
  case_bool_decide as Hc.
  - apply (right_sends r1); [apply sends_BroadcastAll|by apply B6|by apply B7|done|]. intros Hu.
    pose proof (sd_built _ _ (sends_BroadcastAll _ r1) Hu) as Hu1. rewrite B8 in Hu1. specialize (R4 Hu1). intros k s.
    rewrite (sends_seats _ _ (sends_BroadcastAll _ r1)). intros Hk Hns.
    rewrite (shown_BroadcastAll _ r1 k s HS1 (built_BroadcastAll _ _ Hu) Hk Hns), Hsame. destruct (Hold k s Hk Hns) as [Hkb Hk'].
    pose proof (R4 k s Hk' Hns) as HT. destruct (seat_ready s); [|exact HT]. destruct HT as [T1 T2]. cbn [learn]. split.
    + intros q s'. rewrite B2. case_decide as Hq; [set_solver|]. intros Hqs Hqk Hd. apply elem_of_union_r. by eapply T1.
    + intros q [Hq%elem_of_list_to_set|Hq]%elem_of_union.
      * split; [by intros ->|]. rewrite B2, decide_True by done. by eexists.
      * destruct (T2 q Hq) as [Hqk Hqs]. split; [done|]. rewrite B2. case_decide; [by eexists|done].
  - split; [by apply B6|by apply B7|done|]. intros _ k s Hk Hns. exfalso. apply Hc. split; [done|].
    destruct (Hold k s Hk Hns) as [_ (ps & Hp & <-)%seat_player]. intros E. apply (not_elem_of_nil ps). rewrite <- E.
    apply list_elem_of_filter. split; [done|]. apply elem_of_enum. by exists k.
Qed.

(** *** Coming in *)

Definition ctx_seat (ctx : PlayerContext) : seat := mkSeat (ctx_session ctx) (ctx_worker ctx) true false.

(** A session that is there, of a player whose number is no bot's. *)
Definition ctx_ok (ctx : PlayerContext) : Prop :=
  ctx_session ctx ≠ 0 ∧ worker_up (ctx_worker ctx) = true ∧ ctx_player ctx < 900000 ∧ owner (ctx_session ctx) = ctx_player ctx.

Lemma AddPlayer_spec ctx x y z r : let r' := AddPlayer ctx x y z r in
  seats r' = <[ctx_player ctx := ctx_seat ctx]> (seats r) ∧ base_players_ r' = {[ctx_player ctx]} ∪ base_players_ r ∧
  next_bot_id_ r' = next_bot_id_ r ∧ sent_ r' = sent_ r ∧ (fits r → fits r') ∧ (tidy r → tidy r') ∧ unbuilt_ r' = unbuilt_ r.
Proof.
  cbv zeta. unfold AddPlayer, draw. destruct (uniform_real _ _ (rng_ r)) as [dx g] eqn:E1. cbn [rng_ set_rng_].
  destruct (uniform_real _ _ g) as [dz g'] eqn:E2. cbn [dungeon_ players_ base_players_ set_rng_].
  match goal with |- context [if ?b then mkVec x y z else ?w] => generalize (if b then mkVec x y z else w) end.
  intros v. split_and!; try done.
  - unfold seats. cbn. by rewrite fmap_insert.
  - intros HF. apply map_Forall_insert_2; [|done]. split_and!; cbn; done.
  - by intros [T1 T2 T3 T4].
Qed.

(** Whoever comes in last hears that it is in: it shows nobody. *)
Lemma right_entered ctx r r' : ctx_ok ctx → room_right r → seats r' = <[ctx_player ctx := ctx_seat ctx]> (seats r) →
  base_players_ r' = {[ctx_player ctx]} ∪ base_players_ r → next_bot_id_ r' = next_bot_id_ r → (fits r → fits r') → (tidy r → tidy r') →
  (unbuilt_ r' = 0%nat → unbuilt_ r = 0%nat ∧ shown_to (ctx_session ctx) r' = ∅ ∧
     ∀ sid, sid ≠ ctx_session ctx → shown_to sid r' = shown_to sid r) → room_right r'.
Proof.
  intros (C1 & C2 & C3 & C4) [R1 R2 R3 R4] Es Eb En HF HT Hsh. split; [auto|auto| |].
  - by eapply (seated_insert r (ctx_player ctx) (ctx_seat ctx)).
  - intros Hu. destruct (Hsh Hu) as (Hu0 & Hnew & Hother).
    by eapply (told_entered r r' (ctx_player ctx) (ctx_seat ctx)); [|by apply R4|..].
Qed.

(** The state of the session and the packets of an entry. *)
Lemma shown_entry sid ctx m r : ctx_ok ctx → unbuilt_ (EnqueuePacket (ctx_session ctx) (ctx_worker ctx) m r) = 0%nat →
  shown_to sid (EnqueuePacket (ctx_session ctx) (ctx_worker ctx) m r) =
  (if ctx_session ctx =? sid then learn (shown_to sid r) m else shown_to sid r).
Proof.
  intros (_ & Hup & _) Hu. apply built_EnqueuePacket in Hu; [|done]. unfold EnqueuePacket. rewrite Hup, Hu. apply shown_enqueue.
Qed.

Lemma shown_state sid ctx r : shown_to sid (EnqueueSessionEnterState ctx r) = shown_to sid r.
Proof. unfold EnqueueSessionEnterState. case_match; [done|apply shown_task]. Qed.

Lemma sends_state ctx r : sends r (EnqueueSessionEnterState ctx r).
Proof. unfold EnqueueSessionEnterState. case_match; [apply sends_refl|apply sends_enqueue]. Qed.

Lemma quiet_depth d r : quiet r (set_depth_ d r).
Proof. apply quiet_field; try done. by intros []. Qed.

Lemma quiet_connections v r : quiet r (set_connections_ v r).
Proof. apply quiet_field; try done. by intros []. Qed.

Context (sort_rooms : list Room → list Room) (sort_candidates : list (Z * Coord) → list (Z * Coord)) (seeded : bytes → rng).
#[local] Abbreviation GenerateMapForRoom := (GenerateMapForRoom sort_rooms sort_candidates seeded).
#[local] Abbreviation TryCreateEnter := (TryCreateEnter sort_rooms sort_candidates seeded).
#[local] Abbreviation do_job := (do_job sort_rooms sort_candidates seeded).
#[local] Abbreviation OpenZone := (OpenZone sort_rooms sort_candidates seeded).

Lemma quiet_GenerateMapForRoom r : quiet r (GenerateMapForRoom r).
Proof.
  unfold GenerateMapForRoom. generalize (Generate sort_rooms sort_candidates 3 (depth_ r) (seeded (to_string (id_ r) ++ txt "_" ++ name_ r))).
  intros [d|]; [|apply quiet_refl]. apply quiet_field; try done. by intros [].
Qed.

(** The packets of [TryCreateEnter] and [TryJoin], after the player was added. *)
Lemma right_welcome ctx x z m r : ctx_ok ctx → (∀ k, learn k m = ∅) → room_right r →
  room_right (EnqueuePacket (ctx_session ctx) (ctx_worker ctx) m (EnqueuePacket (ctx_session ctx) (ctx_worker ctx) (S_SKILL_DATA kSkills)
    (EnqueueSessionEnterState ctx (AddPlayer ctx x (F32.lit 1 2) z r)))).
Proof.
  intros HC Hm HR. destruct (AddPlayer_spec ctx x (F32.lit 1 2) z r) as (A1 & A2 & A3 & A4 & A5 & A6 & A7).
  set (r1 := AddPlayer _ _ _ _ _) in *. set (r' := EnqueuePacket _ _ m _).
  assert (HSd : sends r1 r').
  { eapply sends_trans; [apply sends_state|]. eapply sends_trans; apply sends_EnqueuePacket. }
  apply (right_entered ctx r); [done|done|by rewrite (sends_seats _ _ HSd)|by rewrite (sd_base _ _ HSd)|by rewrite (sd_next_bot _ _ HSd)| | |].
  - intros HF. unfold fits. rewrite (sd_players _ _ HSd). by apply A5.
  - intros HT. by apply (sd_tidy _ _ HSd), A6.
  - intros Hu. pose proof (sd_built _ _ (sends_EnqueuePacket _ _ _ _) Hu) as Hu2. split_and!.
    + pose proof (sd_built _ _ HSd Hu) as Hu1. by rewrite A7 in Hu1.
    + unfold r'. by rewrite shown_entry, Z.eqb_refl.
    + intros sid Hsid. unfold r'. rewrite !shown_entry, shown_state by done. rewrite (proj2 (Z.eqb_neq _ _)) by congruence.
      by apply shown_same.
Qed.

Lemma right_TryCreateEnter alive ctx r : ctx_ok ctx → room_right r → room_right (TryCreateEnter alive ctx r).
Proof.
  intros HC HR. unfold TryCreateEnter. destruct alive; [|done]. cbn [negb].
  pose proof (quiet_GenerateMapForRoom r) as HQ. generalize dependent (GenerateMapForRoom r). intros r1 HQ.
  assert (HR1 : room_right r1) by by eapply right_quiet. unfold PickSpawn.
  pose proof (quiet_random_floor r1) as [HQ2 _]. destruct (random_floor r1) as [w r2]. cbn in HQ2.
  apply right_welcome; [done|done|]. apply right_SpawnBots. by eapply right_quiet.
Qed.

Lemma right_TryJoin alive ctx r : ctx_ok ctx → room_right r → room_right (TryJoin alive ctx r).
Proof.
  intros HC HR. unfold TryJoin. destruct alive; [|done]. cbn [negb]. case_match; [eapply right_quiet; [|done]; by apply quiet_EnqueuePacket|].
  unfold PickSpawn. pose proof (quiet_random_floor r) as [HQ2 _]. destruct (random_floor r) as [w r2]. cbn in HQ2.
  apply right_welcome; [done|done|]. by eapply right_quiet.
Qed.

Lemma right_EnterFromPortal alive ctx old r : ctx_ok ctx → room_right r → room_right (EnterFromPortal alive ctx old r).
Proof.
  intros HC HR. unfold EnterFromPortal. destruct alive; [|done]. cbn [negb].
  assert (∃ x z r1, match portal_back old r with
    | Some p =>
      let '(dx, r) := draw (uniform_real (F32.of_Z (-2)) (F32.of_Z 2)) r in
      let '(dz, r) := draw (uniform_real (F32.of_Z (-2)) (F32.of_Z 2)) r in
      ((F32.of_Z (portal_x p) + dx)%f32, (F32.of_Z (portal_z p) + dz)%f32, r)
    | None => let '(w, r) := PickSpawn r in (F32.of_Z w.1, F32.of_Z w.2, r)
    end = (x, z, r1) ∧ quiet r r1) as (x & z & r1 & -> & HQ).
  { destruct (portal_back old r) as [p|].
    - pose proof (quiet_draw (uniform_real (F32.of_Z (-2)) (F32.of_Z 2)) r) as Q1.
      destruct (draw _ r) as [dx r1]. pose proof (quiet_draw (uniform_real (F32.of_Z (-2)) (F32.of_Z 2)) r1) as Q2.
      destruct (draw _ r1) as [dz r2]. do 3 eexists. split; [done|]. by eapply quiet_trans.
    - unfold PickSpawn. pose proof (quiet_random_floor r) as [Q _]. destruct (random_floor r) as [w r2]. do 3 eexists. by split. }
  assert (HR1 : room_right r1) by by eapply right_quiet. clear HQ HR r. cbv zeta.
  set (r2 := EnqueueSessionEnterState ctx r1). set (r3 := EnqueuePacket _ _ _ r2).
  assert (HSd : sends r1 r3) by (eapply sends_trans; [apply sends_state|apply sends_EnqueuePacket]).
  destruct (AddPlayer_spec ctx x (F32.lit 1 2) z r3) as (A1 & A2 & A3 & A4 & A5 & A6 & A7). rewrite (sends_seats _ _ HSd) in A1.
  rewrite (sd_base _ _ HSd) in A2. rewrite (sd_next_bot _ _ HSd) in A3.
  apply (right_entered ctx r1); [done|done|done|done|done| | |].
  - intros HF. apply A5. unfold fits. by rewrite (sd_players _ _ HSd).
  - intros HT. by apply A6, (sd_tidy _ _ HSd).
  - rewrite A7. intros Hu. split_and!; [by apply (sd_built _ _ HSd)|..].
    + rewrite (shown_same _ r3) by done. unfold r3. by rewrite shown_entry, Z.eqb_refl.
    + intros sid Hsid. rewrite (shown_same _ r3) by done. unfold r3. rewrite shown_entry by done. unfold r2. rewrite shown_state.
      by rewrite (proj2 (Z.eqb_neq _ _)) by congruence.
Qed.

Lemma right_OpenZone d n old r : room_right r → room_right (OpenZone d n old r).
Proof.
  intros HR. unfold OpenZone. set (r1 := GenerateMapForRoom _).
  assert (HR1 : room_right (SpawnBots n r1)).
  { apply right_SpawnBots. eapply right_quiet; [|exact HR]. eapply quiet_trans; [apply quiet_depth|apply quiet_GenerateMapForRoom]. }
  generalize dependent (SpawnBots n r1). intros r2 HR2. destruct (list_find _ _) as [[? i]|]; [|done].
  eapply right_quiet; [apply quiet_connections|done].
Qed.

(** *** Every job *)

Lemma right_OnPacket now pid p s r : room_right r → room_right (OnPacket now pid p s r).2.
Proof.
  intros HR. assert (p = C_SCENE_READY ∨ p ≠ C_SCENE_READY) as [->|Hp] by (destruct p; auto).
  - unfold OnPacket. case_bool_decide as Hb; [done|]. destruct (player r pid); [|done]. cbn [snd].
    apply right_ready; [|done]. by destruct (decide (pid ∈ base_players_ r)).
  - eapply right_quiet; [by apply quiet_OnPacket|done].
Qed.

Definition job_ok (j : room_job) : Prop :=
  match j with JCreate _ ctx | JJoin _ ctx | JEnter _ ctx _ => ctx_ok ctx | _ => True end.

Lemma right_job s r j : job_ok j → room_right r → room_right (do_job (s, r) j).2.
Proof.
  intros Hj HR. destruct j; cbn [do_job snd].
  - by apply right_TryCreateEnter.
  - by apply right_TryJoin.
  - by apply right_OpenZone.
  - by apply right_EnterFromPortal.
  - by apply right_OnPacket.
  - by apply right_RemovePlayer.
  - eapply right_quiet; [apply quiet_OnTick|done].
  - eapply right_quiet; [apply quiet_connections|done].
Qed.

Lemma right_new i n g : room_right (Room_new i n g).
Proof.
  split; [by intros ? ? ?| | |by intros _ ? ? ?].
  - split; [by intros ? ? ?|by intros ? ? ?|done|]. unfold numbered. cbn. split_and!; [done|lia|constructor].
  - split; [done|by intros ? ? ?|by intros ? ? ?|by intros ? ? ?|by intros ? ? ?|]. intros pid. unfold seats. cbn. rewrite fmap_empty, lookup_empty. split; [set_solver|].
    by intros [_ [? ?]].
Qed.

Lemma right_jobs s i n g js : Forall job_ok js → room_right (foldl do_job (s, Room_new i n g) js).2.
Proof.
  intros Hjs. induction js as [|j js IH] using rev_ind; [apply right_new|].
  apply Forall_app in Hjs as [Hjs Hj]. rewrite foldl_snoc. specialize (IH Hjs).
  destruct (foldl do_job _ js) as [s' r']. apply right_job; [|done]. by apply Forall_cons in Hj as [].
Qed.

(** Who is there, as the broadcasts see it. *)
Definition present (r : game_room) (pid : Z) : Prop := is_Some (player r pid).
Definition appears (r : game_room) (pid : Z) : Prop :=
  ∃ ps, player r pid = Some ps ∧ (scene_ready ps = true ∨ session_id ps = 0).

(** The client of each player shows the right others: nobody before it said that its scene is
    ready; from then on every other player that is ready and every bot, never itself and never
    anyone who is not in the room any more. *)
Definition view_right (r : game_room) : Prop := ∀ pid ps, player r pid = Some ps → session_id ps ≠ 0 →
  (scene_ready ps = false → shown_to (session_id ps) r = ∅) ∧
  (scene_ready ps = true → ∀ q,
    (q ≠ pid → appears r q → q ∈ shown_to (session_id ps) r) ∧
    (q ∈ shown_to (session_id ps) r → q ≠ pid ∧ present r q)).

Lemma right_view r : room_right r → unbuilt_ r = 0%nat → view_right r.
Proof.
  intros [_ _ _ R4] Hu pid ps Hp Hs. specialize (R4 Hu).
  pose proof (R4 pid (seat_of ps) ltac:(apply seat_player; eauto) Hs) as HT. cbn in HT. split; intros Hr; rewrite Hr in HT; [done|].
  destruct HT as [T1 T2]. intros q. split.
  - intros Hq (ps' & Hp' & Hd). eapply (T1 q (seat_of ps')); [apply seat_player; eauto|done|done].
  - intros Hq. destruct (T2 q Hq) as [Hne (st & (ps' & Hp' & _)%seat_player)]. split; [done|by exists ps'].
Qed.

(** C22: Whatever jobs a room has done since it was made, in whatever order and also if
    packets could not be built: each player has its own number and between 0 and 100 points
    of health, and is dead exactly when it has none; the players of the base class are
    exactly the players with a session; the manager takes every live bot to have all of its
    health; items are numbered below the next number; and the messages of the room are numbered
    one after the other from 1, without a gap.  The jobs that bring a player in are for a
    session (its number is not 0) that belongs to that player alone and is on a worker that
    runs, and the player's number is below those of the bots, which start at 900000. *)
Theorem room_in_order s i n g js : Forall job_ok js →
  let r := (foldl do_job (s, Room_new i n g) js).2 in
  map_Forall (λ pid ps, player_id ps = pid ∧ 0 ≤ hp ps ≤ 100 ∧ (is_dead ps = true ↔ hp ps = 0)) (players_ r) ∧
  (∀ pid, pid ∈ base_players_ r ↔ ∃ ps, player r pid = Some ps ∧ session_id ps ≠ 0) ∧
  map_Forall (λ i b, bot_id b = i ∧ (bot_is_dead b = false → bot_hp b = bot_max_hp b)) (bots_ r) ∧
  map_Forall (λ g it, ground_id it = g ∧ 1 ≤ g < nextGroundId_ r) (ground_items_ r) ∧
  out_seq <$> (sent_ r).*2 = seqZ 1 (next_room_seq_ r - 1) ∧
  Forall (λ e, out_room e.2 = id_ r) (sent_ r).
Proof.
  intros Hjs r. destruct (right_jobs s i n g js Hjs) as [R1 [T1 T2 T3 (T4 & T5 & T6)] R3 _]. fold r in R1, T1, T2, T3, T4, T5, T6, R3.
  split_and!; [| | |done|done|done].
  - intros pid ps Hp. destruct (R1 pid ps Hp) as (F1 & F2 & F3 & F4). split_and!; [done|lia|lia|done].
  - intros pid. rewrite (se_base _ R3). split.
    + intros [Hlt [st (ps & Hp & <-)%seat_player]]. exists ps. split; [done|].
      apply (se_human _ R3 pid (seat_of ps)); [apply seat_player; eauto|done].
    + intros (ps & Hp & Hs). assert (Hst : seats r !! pid = Some (seat_of ps)) by (apply seat_player; eauto).
      split; [by apply (se_human _ R3 pid (seat_of ps))|by eexists].
  - intros k b Hb. destruct (T1 k b Hb) as (F1 & F2 & F3). split; [done|]. intros Hd. rewrite F2. by apply F3.
Qed.
End Proofs.

(** ** A room *)

(** A clockwork environment. *)
Definition clockwork : Env := {|
  env_rng := counter;
  rand r := (r mod 1000, r + 1);
  uniform_real _ _ r := (F32.zero, r + 1);
  enum _ m := map_to_list m;
  worker_up w := true;
  unfit_int _ := 0;
  atan2f _ _ := F32.zero;
  builds _ := true;
|}.

Lemma clockwork_ok : @EnvOk clockwork.
Proof. split; [exact counter_ok|done|]. intros r. cbn in *. by pose proof (Z.mod_pos_bound r 1000 ltac:(lia)) as []. Qed.

Definition guest (n : Z) : PlayerContext := mkContext (10 + n) n (txt "Guest") 1 None 0.

(** Two players come in and are ready. *)
Definition two_guests : list room_job := [JJoin true (guest 1); JJoin true (guest 2); JPacket 0 1 C_SCENE_READY; JPacket 0 2 C_SCENE_READY].

Definition two_in_room : @game_room clockwork :=
  (foldl (@do_job clockwork least_first (λ l, l) (λ l, l) (λ _, 0)) (PartySystem_new, @Room_new clockwork 1 (txt "Hall") 0) two_guests).2.

Lemma two_guests_ok : Forall (@job_ok clockwork (λ sid, sid - 10)) two_guests.
Proof. repeat constructor; cbn; try done. Qed.

Lemma room_in_order_witness : out_seq <$> (@sent_ clockwork two_in_room).*2 = seqZ 1 (@next_room_seq_ clockwork two_in_room - 1) ∧
  @next_room_seq_ clockwork two_in_room = 10.
Proof.
  split; [|vm_compute; reflexivity].
  apply (@room_in_order clockwork clockwork_ok least_first (λ sid, sid - 10) (λ l, l) (λ l, l) (λ _, 0)
    PartySystem_new 1 (txt "Hall") 0 two_guests two_guests_ok).
Defined.
