(* ===== verification/DungeonServer.v ===== *)
(** * The dungeon server

    [app/examples/game/dungeon_full_server]: what a session may do before it is in a room
    ([handler/auth_handler.cpp], [handler/char_handler.cpp], [handler/room_handler.cpp],
    [net/game_session.cpp]), the accounts ([db/memory_db_service.cpp]), the players
    ([game/player_context.cpp]), the rooms ([game/room_manager.cpp]) and how their jobs and the
    outboxes of the workers bring sessions into rooms and through portals.

    The callbacks of the accounts run at once, on the session's own ring.  Each room does its
    jobs in order; the order among rooms, workers and sessions is that of the given steps.
    Packets are given decoded.  A pointer to a room is the number of the room, and a pointer to
    a session's context is the session's entry in the table of players.  The rooms are never
    removed in these steps: see [CleanupEmptyRooms]. *)

From S2P Require Import Prelude Text Rooms Dungeon Float32 Outbox AStar DungeonRoom DungeonBots.

#[local] Open Scope Z_scope.
#[local] Set Warnings "-clear-no-such-hyp".

(** ** Accounts *)

(** Source: app/examples/game/dungeon_full_server/src/db/db_service.h:10-14, CharInfo. *)
Record CharInfo := mkChar { char_id : Z; char_name : bytes; char_level : Z }.

(** Source: app/examples/game/dungeon_full_server/src/db/memory_db_service.h:24-27, MemoryDbService::Account. *)
Record Account := mkAccount { account_id : Z; password : bytes }.

(** Source: app/examples/game/dungeon_full_server/src/db/memory_db_service.h:29-33, MemoryDbService. *)
Record MemoryDbService := mkDb {
  accounts_ : gmap bytes Account;
  characters_ : gmap Z (list CharInfo);
  next_player_id_ : Z;
  next_char_id_ : Z;
}.

Definition MemoryDbService_new : MemoryDbService := mkDb ∅ ∅ 1 1.

(** Source: app/examples/game/dungeon_full_server/src/db/memory_db_service.cpp:3-24, MemoryDbService::Login.
    The player, when the callback hears of success. *)
Definition db_Login (username pw : bytes) (db : MemoryDbService) : MemoryDbService * option Z :=
  match accounts_ db !! username with
  | None =>
    let id := next_player_id_ db in
    let ch := mkChar (next_char_id_ db) username 1 in
    (mkDb (<[username := mkAccount id pw]> (accounts_ db))
          (<[id := default [] (characters_ db !! id) ++ [ch]]> (characters_ db)) (id + 1) (next_char_id_ db + 1), Some id)
  | Some a => (db, if bool_decide (password a = pw) then Some (account_id a) else None)
  end.

(** Source: app/examples/game/dungeon_full_server/src/db/memory_db_service.cpp:26-36, MemoryDbService::Register.
    The error of the callback, if any. *)
Definition db_Register (username pw : bytes) (db : MemoryDbService) : MemoryDbService * option bytes :=
  match accounts_ db !! username with
  | Some _ => (db, Some (txt "Username already exists"))
  | None =>
    (mkDb (<[username := mkAccount (next_player_id_ db) pw]> (accounts_ db)) (characters_ db) (next_player_id_ db + 1) (next_char_id_ db), None)
  end.

(** Source: app/examples/game/dungeon_full_server/src/db/memory_db_service.cpp:38-47, MemoryDbService::GetCharList. *)
Definition GetCharList (pid : Z) (db : MemoryDbService) : list CharInfo := default [] (characters_ db !! pid).

(** Source: app/examples/game/dungeon_full_server/src/db/memory_db_service.cpp:49-65, MemoryDbService::CreateChar. *)
Definition CreateChar (pid : Z) (n : bytes) (db : MemoryDbService) : MemoryDbService * (bytes + CharInfo) :=
  if bool_decide (n ∈ char_name <$> concat (map_to_list (characters_ db)).*2) then (db, inl (txt "Character name already exists")) else
  let ch := mkChar (next_char_id_ db) n 1 in
  (mkDb (accounts_ db) (<[pid := GetCharList pid db ++ [ch]]> (characters_ db)) (next_player_id_ db) (next_char_id_ db + 1), inr ch).

(** Source: app/examples/game/dungeon_full_server/src/db/memory_db_service.cpp:72-75, MemoryDbService::LoadCurrency.
    [LoadInventory] gives no items. *)
Definition LoadCurrency (cid : Z) : Z := 1000.

(** ** Sessions *)

(** Source: app/examples/game/dungeon_full_server/src/net/game_session.h:13-19, SessionState. *)
Inductive SessionState := Connected | Authenticated | CharSelect | InLobby | InRoom.
#[export] Instance SessionState_eq : EqDecision SessionState.
Proof. solve_decision. Defined.

(** What a client sends. *)
Inductive packet :=
| C_LOGIN (username pw : bytes)
| C_REGISTER (username pw : bytes)
| C_CHAR_LIST
| C_CREATE_CHAR (n : bytes)
| C_SELECT_CHAR (cid : Z)
| C_ROOM_LIST
| C_CREATE_ROOM (n : bytes)
| C_JOIN_ROOM (zone : Z)
| C_PORTAL (portal : Z)
| C_GAME (p : client_packet).

Record RoomInfo := mkRoomInfo { info_zone : Z; info_room_name : bytes; info_count : Z; info_max : Z }.

(** What a session answers before it is in a room. *)
Inductive lobby_msg :=
| S_LOGIN (success : bool) (player : Z)
| S_REGISTER (error : option bytes)
| S_CHAR_LIST (chars : list CharInfo)
| S_CREATE_CHAR (result : bytes + CharInfo)
| S_SELECT_CHAR (chosen : option (Z * CharInfo))
| S_INVENTORY_INIT
| S_CURRENCY_INIT (gold : Z)
| S_ROOM_LIST (rooms : list RoomInfo).

(** Source: app/examples/game/dungeon_full_server/src/net/game_session.h:66-72, GameSession.
    [has_ctx] is whether [player_ctx_] is set; [out_] is what was sent to the client. *)
Record GameSession := mkSession { worker_ : Z; has_ctx : bool; state_ : SessionState; out_ : list (lobby_msg + server_msg) }.

Definition set_state (s : SessionState) (gs : GameSession) : GameSession := mkSession (worker_ gs) (has_ctx gs) s (out_ gs).

(** The jobs that sessions, portals and the clock give to a room. *)
Inductive job :=
| Create (ctx : PlayerContext)
| Join (ctx : PlayerContext)
| Portal (ctx : PlayerContext) (portal : Z)
| OpenEnter (new_depth : Z) (bot_count : nat) (ctx : PlayerContext) (old_room : Z)
| Enter (ctx : PlayerContext) (old_room : Z)
| RoomPacket (pid : Z) (p : client_packet)
| Remove (pid : Z)
| Tick.

Section Server.
Context `{Env, PriorityQueue} (sort_rooms : list Room → list Room) (sort_candidates : list (Z * Coord) → list (Z * Coord))
  (seeded : bytes → rng) (entropy : Z → rng).

(** The server: accounts, sessions, the two tables of the player manager, rooms with the next
    number and with their jobs, parties, outboxes, the next session; [logins_] is a log of who
    has logged in. *)
Record server := mkServer {
  db_ : MemoryDbService;
  sessions_ : gmap Z GameSession;
  by_session_ : gmap Z PlayerContext;
  by_player_ : gmap Z Z;
  rooms_ : gmap Z game_room;
  next_room_id_ : Z;
  jobs_ : gmap Z (list job);
  g_party_system : PartySystem;
  outboxes_ : gmap Z (WorkerOutbox payload);
  next_sid_ : Z;
  logins_ : list (Z * Z);
}.

Definition set_db_ (v : MemoryDbService) (w : server) : server :=
  mkServer v (sessions_ w) (by_session_ w) (by_player_ w) (rooms_ w) (next_room_id_ w) (jobs_ w) (g_party_system w) (outboxes_ w) (next_sid_ w) (logins_ w).
Definition set_sessions_ (v : gmap Z GameSession) (w : server) : server :=
  mkServer (db_ w) v (by_session_ w) (by_player_ w) (rooms_ w) (next_room_id_ w) (jobs_ w) (g_party_system w) (outboxes_ w) (next_sid_ w) (logins_ w).
Definition set_by_session_ (v : gmap Z PlayerContext) (w : server) : server :=
  mkServer (db_ w) (sessions_ w) v (by_player_ w) (rooms_ w) (next_room_id_ w) (jobs_ w) (g_party_system w) (outboxes_ w) (next_sid_ w) (logins_ w).
Definition set_by_player_ (v : gmap Z Z) (w : server) : server :=
  mkServer (db_ w) (sessions_ w) (by_session_ w) v (rooms_ w) (next_room_id_ w) (jobs_ w) (g_party_system w) (outboxes_ w) (next_sid_ w) (logins_ w).
Definition set_rooms_ (v : gmap Z game_room) (w : server) : server :=
  mkServer (db_ w) (sessions_ w) (by_session_ w) (by_player_ w) v (next_room_id_ w) (jobs_ w) (g_party_system w) (outboxes_ w) (next_sid_ w) (logins_ w).
Definition set_next_room_id_ (v : Z) (w : server) : server :=
  mkServer (db_ w) (sessions_ w) (by_session_ w) (by_player_ w) (rooms_ w) v (jobs_ w) (g_party_system w) (outboxes_ w) (next_sid_ w) (logins_ w).
Definition set_jobs_ (v : gmap Z (list job)) (w : server) : server :=
  mkServer (db_ w) (sessions_ w) (by_session_ w) (by_player_ w) (rooms_ w) (next_room_id_ w) v (g_party_system w) (outboxes_ w) (next_sid_ w) (logins_ w).
Definition set_g_party_system (v : PartySystem) (w : server) : server :=
  mkServer (db_ w) (sessions_ w) (by_session_ w) (by_player_ w) (rooms_ w) (next_room_id_ w) (jobs_ w) v (outboxes_ w) (next_sid_ w) (logins_ w).
Definition set_outboxes_ (v : gmap Z (WorkerOutbox payload)) (w : server) : server :=
  mkServer (db_ w) (sessions_ w) (by_session_ w) (by_player_ w) (rooms_ w) (next_room_id_ w) (jobs_ w) (g_party_system w) v (next_sid_ w) (logins_ w).
Definition set_next_sid_ (v : Z) (w : server) : server :=
  mkServer (db_ w) (sessions_ w) (by_session_ w) (by_player_ w) (rooms_ w) (next_room_id_ w) (jobs_ w) (g_party_system w) (outboxes_ w) v (logins_ w).
Definition set_logins_ (v : list (Z * Z)) (w : server) : server :=
  mkServer (db_ w) (sessions_ w) (by_session_ w) (by_player_ w) (rooms_ w) (next_room_id_ w) (jobs_ w) (g_party_system w) (outboxes_ w) (next_sid_ w) v.

Definition server_new : server := mkServer MemoryDbService_new ∅ ∅ ∅ ∅ 1 ∅ PartySystem_new ∅ 1 [].

Definition update_session (sid : Z) (f : GameSession → GameSession) (w : server) : server :=
  set_sessions_ (alter f sid (sessions_ w)) w.

(** [SendPacket] of a session. *)
Definition reply (sid : Z) (m : lobby_msg + server_msg) (w : server) : server :=
  update_session sid (λ gs, mkSession (worker_ gs) (has_ctx gs) (state_ gs) (out_ gs ++ [m])) w.

(** The context of a session, when it is set. *)
Definition GetPlayerCtx (sid : Z) (w : server) : option PlayerContext :=
  match sessions_ w !! sid with
  | Some gs => if has_ctx gs then by_session_ w !! sid else None
  | None => None
  end.

Definition in_state (sid : Z) (states : list SessionState) (w : server) : bool :=
  match sessions_ w !! sid with Some gs => bool_decide (state_ gs ∈ states) | None => false end.

(** A job for a room. *)
Definition Push (rid : Z) (j : job) (w : server) : server :=
  set_jobs_ (<[rid := default [] (jobs_ w !! rid) ++ [j]]> (jobs_ w)) w.

(** Source: app/examples/game/dungeon_full_server/src/game/player_context.cpp:3-21, PlayerManager::Register. *)
Definition Register (sid pid wid : Z) (w : server) : server :=
  set_by_player_ (<[pid := sid]> (by_player_ w)) (set_by_session_ (<[sid := mkContext sid pid [] 1 None wid]> (by_session_ w)) w).

(** Source: app/examples/game/dungeon_full_server/src/game/player_context.cpp:23-33, PlayerManager::Unregister.
    No name is ever in the table of names. *)
Definition Unregister (sid : Z) (w : server) : server :=
  match by_session_ w !! sid with
  | None => w
  | Some ctx => set_by_session_ (delete sid (by_session_ w)) (set_by_player_ (delete (ctx_player ctx) (by_player_ w)) w)
  end.

(** Source: app/examples/game/dungeon_full_server/src/game/room_manager.cpp:9-15, RoomManager::CreateRoom.
    The new room's number; [None] when no number is left. *)
Definition CreateRoom (n : bytes) (w : server) : option (Z * server) :=
  let used := (λ _, 0%nat) <$> rooms_ w in
  match RoomManager.NextRoomIdLocked (RoomManager.id_fuel used) used (next_room_id_ w) with
  | Some (rid, next) => Some (rid, set_next_room_id_ next (set_rooms_ (<[rid := Room_new rid n (entropy rid)]> (rooms_ w)) w))
  | None => None
  end.

(** Source: app/examples/game/dungeon_full_server/src/game/room_manager.cpp:17-20, RoomManager::FindRoom. *)
Definition FindRoom (rid : Z) (w : server) : bool := bool_decide (is_Some (rooms_ w !! rid)).

(** Source: app/examples/game/dungeon_full_server/src/game/room_manager.cpp:74-86, RoomManager::GetRoomList.
    Also the filling of the reply of [HandleRoomList]. *)
Definition GetRoomList (w : server) : list RoomInfo :=
  omap (λ '(rid, r), if (1 <? id_ r) && starts_with (txt "Zone_") (name_ r) then None
                     else Some (mkRoomInfo (id_ r) (name_ r) (Z.of_nat (size (players_ r))) 500)) (enum (rooms_ w)).

(** Source: app/examples/game/dungeon_full_server/src/game/room_manager.cpp:39-55, RoomManager::CleanupEmptyRooms. *)
Definition stale (now : Z) (r : game_room) : bool :=
  (1 <? id_ r) && bool_decide (players_ r = ∅) &&
  match empty_since_ r with Some t => 30000000000 <=? now - t | None => false end.

(** Source: app/examples/game/dungeon_full_server/src/game/room_manager.cpp:27-72, RoomManager::CleanupEmptyRooms.
    Another thread does this every ten seconds, beside the jobs of the rooms; pointers of
    sessions and of jobs to a removed room are not looked for. *)
Definition CleanupEmptyRooms (now : Z) (w : server) : server :=
  let gone := filter (λ e, stale now e.2 = true) (rooms_ w) in
  let forget r := set_connections_ (filter (λ e, is_Some (gone !! e.2) → False) (connections_ r)) r in
  set_rooms_ (forget <$> (rooms_ w ∖ gone)) w.

(** ** What sessions do *)

(** Source: app/examples/game/dungeon_full_server/src/handler/auth_handler.cpp:11-47, HandleLogin. *)
Definition HandleLogin (sid : Z) (username pw : bytes) (w : server) : server :=
  match sessions_ w !! sid with
  | None => w
  | Some gs =>
    if negb (bool_decide (state_ gs = Connected)) then w else
    let '(db, result) := db_Login username pw (db_ w) in
    let w := set_db_ db w in
    match result with
    | Some pid =>
      let w := Register sid pid (worker_ gs) w in
      let w := update_session sid (λ gs, mkSession (worker_ gs) true Authenticated (out_ gs)) w in
      reply sid (inl (S_LOGIN true pid)) (set_logins_ (logins_ w ++ [(sid, pid)]) w)
    | None => reply sid (inl (S_LOGIN false 0)) w
    end
  end.

(** Source: app/examples/game/dungeon_full_server/src/handler/auth_handler.cpp:49-73, HandleRegister. *)
Definition HandleRegister (sid : Z) (username pw : bytes) (w : server) : server :=
  if negb (in_state sid [Connected] w) then w else
  let '(db, error) := db_Register username pw (db_ w) in reply sid (inl (S_REGISTER error)) (set_db_ db w).

Definition after_login : list SessionState := [Authenticated; CharSelect; InLobby].

(** Source: app/examples/game/dungeon_full_server/src/handler/char_handler.cpp:14-45, HandleCharList. *)
Definition HandleCharList (sid : Z) (w : server) : server :=
  if negb (in_state sid after_login w) then w else
  match GetPlayerCtx sid w with
  | None => w
  | Some ctx =>
    update_session sid (set_state CharSelect)
      (reply sid (inl (S_CHAR_LIST (GetCharList (ctx_player ctx) (db_ w)))) w)
  end.

(** Source: app/examples/game/dungeon_full_server/src/handler/char_handler.cpp:47-82, HandleCreateChar. *)
Definition HandleCreateChar (sid : Z) (n : bytes) (w : server) : server :=
  if negb (in_state sid after_login w) then w else
  match GetPlayerCtx sid w with
  | None => w
  | Some ctx => let '(db, result) := CreateChar (ctx_player ctx) n (db_ w) in reply sid (inl (S_CREATE_CHAR result)) (set_db_ db w)
  end.

(** Source: app/examples/game/dungeon_full_server/src/handler/char_handler.cpp:84-189, HandleSelectChar. *)
Definition HandleSelectChar (sid cid : Z) (w : server) : server :=
  if negb (in_state sid after_login w) then w else
  match GetPlayerCtx sid w with
  | None => w
  | Some ctx =>
    match list_find (λ c, char_id c = cid) (GetCharList (ctx_player ctx) (db_ w)) with
    | None => reply sid (inl (S_SELECT_CHAR None)) w
    | Some (_, c) =>
      let ctx' := mkContext (ctx_session ctx) (ctx_player ctx) (char_name c) (char_level c) (ctx_room ctx) (ctx_worker ctx) in
      let w := set_by_session_ (<[sid := ctx']> (by_session_ w)) w in
      let w := reply sid (inl (S_SELECT_CHAR (Some (ctx_player ctx, c)))) w in
      let w := reply sid (inl S_INVENTORY_INIT) w in
      update_session sid (set_state InLobby) (reply sid (inl (S_CURRENCY_INIT (LoadCurrency cid))) w)
    end
  end.

(** Source: app/examples/game/dungeon_full_server/src/handler/room_handler.cpp:19-34, HandleRoomList. *)
Definition HandleRoomList (sid : Z) (w : server) : server :=
  if negb (in_state sid [InLobby] w) then w else reply sid (inl (S_ROOM_LIST (GetRoomList w))) w.

(** Source: app/examples/game/dungeon_full_server/src/handler/room_handler.cpp:36-58, HandleCreateRoom. *)
Definition HandleCreateRoom (sid : Z) (n : bytes) (w : server) : server :=
  if negb (in_state sid [InLobby] w) then w else
  match GetPlayerCtx sid w with
  | None => w
  | Some ctx => match CreateRoom n w with Some (rid, w) => Push rid (Create ctx) w | None => w end
  end.

(** Source: app/examples/game/dungeon_full_server/src/handler/room_handler.cpp:60-84, HandleJoinRoom. *)
Definition HandleJoinRoom (sid zone : Z) (w : server) : server :=
  if negb (in_state sid [InLobby] w) then w else
  match GetPlayerCtx sid w with
  | None => w
  | Some ctx =>
    if FindRoom zone w then Push zone (Join ctx) w else reply sid (inr (S_JOIN_ROOM_error (txt "Room not found"))) w
  end.

(** Source: app/examples/game/dungeon_full_server/src/handler/room_handler.cpp:86-103, HandlePortal. *)
Definition HandlePortal (sid portal : Z) (w : server) : server :=
  if negb (in_state sid [InRoom] w) then w else
  match GetPlayerCtx sid w with
  | Some ctx => match ctx_room ctx with Some rid => Push rid (Portal ctx portal) w | None => w end
  | None => w
  end.

(** Source: app/examples/game/dungeon_full_server/src/net/game_session.cpp:63-79, GameSession::HandlePreRoomPacket. *)
Definition HandlePreRoomPacket (sid : Z) (p : packet) (w : server) : server :=
  match p with
  | C_LOGIN u pw => HandleLogin sid u pw w
  | C_REGISTER u pw => HandleRegister sid u pw w
  | C_CHAR_LIST => HandleCharList sid w
  | C_CREATE_CHAR n => HandleCreateChar sid n w
  | C_SELECT_CHAR cid => HandleSelectChar sid cid w
  | C_ROOM_LIST => HandleRoomList sid w
  | C_CREATE_ROOM n => HandleCreateRoom sid n w
  | C_JOIN_ROOM zone => HandleJoinRoom sid zone w
  | C_PORTAL _ | C_GAME _ => w
  end.

(** Source: app/examples/game/dungeon_full_server/src/net/game_session.cpp:81-91, GameSession::HandleInRoomPacket.
    A room knows no packet of the lobby. *)
Definition HandleInRoomPacket (sid : Z) (p : packet) (w : server) : server :=
  match GetPlayerCtx sid w with
  | Some ctx =>
    match ctx_room ctx with
    | Some rid => Push rid (RoomPacket (ctx_player ctx) (match p with C_GAME p => p | _ => C_OTHER end)) w
    | None => w
    end
  | None => w
  end.

(** Source: app/examples/game/dungeon_full_server/src/net/game_session.cpp:47-61, GameSession::OnPacket. *)
Definition session_OnPacket (sid : Z) (p : packet) (w : server) : server :=
  match p with
  | C_PORTAL portal => HandlePortal sid portal w
  | _ => if in_state sid [InRoom] w then HandleInRoomPacket sid p w else HandlePreRoomPacket sid p w
  end.

(** Source: app/examples/game/dungeon_full_server/src/main.cpp:72-88, main.
    The factory of sessions. *)
Definition connect (wid : Z) (w : server) : server :=
  let sid := next_sid_ w in
  set_next_sid_ (sid + 1) (set_sessions_ (<[sid := mkSession wid false Connected []]> (sessions_ w)) w).

(** Source: app/examples/game/dungeon_full_server/src/net/game_session.cpp:29-45, GameSession::OnDisconnected. *)
Definition OnDisconnected (sid : Z) (w : server) : server :=
  let w := match GetPlayerCtx sid w with
           | Some ctx =>
             let w := match ctx_room ctx with Some rid => Push rid (Remove (ctx_player ctx)) w | None => w end in
             Unregister sid w
           | None => w
           end in
  set_sessions_ (delete sid (sessions_ w)) w.

(** ** What rooms do *)

(** Source: app/examples/game/dungeon_full_server/src/net/io_worker.cpp:69-75, IoWorker::EnqueueOutbound.
    What a room has sent since [r]. *)
Definition post (r r' : game_room) (w : server) : server :=
  set_outboxes_ (foldl (λ os '(wid, m), <[wid := Enqueue (default WorkerOutbox_new (os !! wid)) m]> os) (outboxes_ w)
                   (drop (length (sent_ r)) (sent_ r'))) w.

(** A room changed by what it did. *)
Definition changed (rid : Z) (r r' : game_room) (w : server) : server :=
  post r r' (set_rooms_ (<[rid := r']> (rooms_ w)) w).

(** Source: app/examples/game/dungeon_full_server/src/game/room.cpp:273-284, Room::TryPortal.
    The room behind a portal, and the connections without one to a room that is gone. *)
Definition behind (portal : Z) (r : game_room) (w : server) : option Z * gmap Z Z :=
  match connections_ r !! portal with
  | Some t => if FindRoom t w then (Some t, connections_ r) else (None, delete portal (connections_ r))
  | None => (None, connections_ r)
  end.

(** Source: app/examples/game/dungeon_full_server/src/game/room.cpp:266-327, Room::TryPortal.
    [alive]: whether the session still exists. *)
Definition TryPortal (now : Z) (alive : bool) (ctx : PlayerContext) (portal rid : Z) (r : game_room) (w : server) : server :=
  if negb alive then w else
  if zlen (portals_ (dungeon_ r)) <=? portal then w else
  match behind portal r w with
  | (Some t, _) => changed rid r (RemovePlayer now (ctx_player ctx) r) (Push t (Enter ctx rid) w)
  | (None, conns) =>
    let new_depth := depth_ r + 1 in
    match CreateRoom (txt "Zone_" ++ to_string (next_room_id_ w)) w with
    | None => w
    | Some (t, w) =>
      let r' := set_connections_ (<[portal := t]> conns) r in
      let w := Push t (OpenEnter new_depth (Z.to_nat (Z.min (10 + new_depth * 3) 30)) ctx rid) w in
      changed rid r (RemovePlayer now (ctx_player ctx) r') w
    end
  end.

#[local] Abbreviation do_job := (do_job sort_rooms sort_candidates seeded).

(** The jobs of a room that do not concern other rooms. *)
Definition local_jobs (now : Z) (alive : bool) (j : job) : list room_job :=
  match j with
  | Create ctx => [JCreate alive ctx]
  | Join ctx => [JJoin alive ctx]
  | Portal _ _ => []
  | OpenEnter d n ctx old => [JOpen d n old; JEnter alive ctx old]
  | Enter ctx old => [JEnter alive ctx old]
  | RoomPacket pid p => [JPacket now pid p]
  | Remove pid => [JRemove now pid]
  | Tick => [JTick now]
  end.

(** The next job of a room. *)
Definition run_job (rid now : Z) (alive : bool) (w : server) : server :=
  match rooms_ w !! rid, jobs_ w !! rid with
  | Some r, Some (j :: js) =>
    let w := set_jobs_ (<[rid := js]> (jobs_ w)) w in
    match j with
    | Portal ctx portal => TryPortal now alive ctx portal rid r w
    | _ =>
      let '(s, r') := foldl do_job (g_party_system w, r) (local_jobs now alive j) in
      changed rid r r' (set_g_party_system s w)
    end
  | _, _ => w
  end.

(** Source: app/examples/game/dungeon_full_server/src/game/room.cpp:89-110, EnqueueSessionEnterState.
    The task, when the worker comes to it. *)
Definition enter_state (sid pid rid : Z) (w : server) : server :=
  match GetPlayerCtx sid w with
  | Some ctx =>
    if negb (ctx_player ctx =? pid) then w else
    let ctx' := mkContext (ctx_session ctx) (ctx_player ctx) (ctx_char_name ctx) (ctx_level ctx) (Some rid) (ctx_worker ctx) in
    update_session sid (set_state InRoom) (set_by_session_ (<[sid := ctx']> (by_session_ w)) w)
  | None => w
  end.

(** Source: app/examples/game/dungeon_full_server/src/net/io_worker.cpp:83-102, IoWorker::DrainOutbox.
    A message. *)
Definition deliver (wid : Z) (w : server) : server :=
  match outboxes_ w !! wid with
  | None => w
  | Some o =>
    let '(o, _, msg) := take_one o in
    let w := set_outboxes_ (<[wid := o]> (outboxes_ w)) w in
    match msg with
    | Some m =>
      match out_body m with
      | Some (EnterState pid rid) => enter_state (out_session m) pid rid w
      | Some (Packet p) =>
        match sessions_ w !! out_session m with
        | Some gs => if worker_ gs =? wid then reply (out_session m) (inr p) w else w
        | None => w
        end
      | None => w
      end
    | None => w
    end
  end.

(** ** Runs *)

Inductive event :=
| Accept (wid : Z)
| Receive (sid : Z) (p : packet)
| Gone (sid : Z)
| Clock (rid : Z)
| Job (rid now : Z) (alive : bool)
| Drain (wid : Z).

Definition step (w : server) (e : event) : server :=
  match e with
  | Accept wid => connect wid w
  | Receive sid p => session_OnPacket sid p w
  | Gone sid => OnDisconnected sid w
  | Clock rid => if FindRoom rid w then Push rid Tick w else w
  | Job rid now alive => run_job rid now alive w
  | Drain wid => deliver wid w
  end.

Definition run : list event → server := foldl step server_new.

End Server.
