(* ===== verification/DungeonServerProofs.v ===== *)
(** * What holds in the dungeon server

    In whatever order sessions, rooms and workers take their steps: nobody plays as a player
    without the password of its account, and every room is as the rooms' own theorems say. *)

From S2P Require Import Prelude Text Rooms Dungeon DungeonProofs Float32 Outbox AStar DungeonRoom DungeonBots DungeonRoomProofs DungeonServer.

#[local] Open Scope Z_scope.
#[local] Set Warnings "-clear-no-such-hyp".

(** The fields of a server after a change. *)
Ltac fields := unfold update_session, Push; cbn [db_ sessions_ by_session_ by_player_ rooms_ next_room_id_ jobs_ g_party_system outboxes_ next_sid_ logins_
  set_db_ set_sessions_ set_by_session_ set_by_player_ set_rooms_ set_next_room_id_ set_jobs_ set_g_party_system set_outboxes_ set_next_sid_ set_logins_].

Section Proofs.
Context `{EnvOk, PriorityQueue} (sort_rooms : list Room → list Room) (sort_candidates : list (Z * Coord) → list (Z * Coord))
  (seeded : bytes → rng) (entropy : Z → rng).
#[local] Abbreviation step := (step sort_rooms sort_candidates seeded entropy).
#[local] Abbreviation run := (run sort_rooms sort_candidates seeded entropy).
#[local] Abbreviation run_job := (run_job sort_rooms sort_candidates seeded entropy).
#[local] Abbreviation CreateRoom := (CreateRoom entropy).
#[local] Abbreviation TryPortal := (TryPortal entropy).

(** ** Who has logged in *)

(** A session has a context when it has logged in, once; it is not [Connected] any more then. *)
Record logged (w : server) : Prop := {
  lg_ctx : ∀ sid gs, sessions_ w !! sid = Some gs → (has_ctx gs = true ↔ sid ∈ (logins_ w).*1) ∧ (has_ctx gs = true → state_ gs ≠ Connected);
  lg_nodup : NoDup (logins_ w).*1;
  lg_below : ∀ sid, sid ∈ (logins_ w).*1 → sid < next_sid_ w;
  lg_sid : ∀ sid, is_Some (sessions_ w !! sid) → 1 ≤ sid < next_sid_ w;
  lg_next : 1 ≤ next_sid_ w;
  lg_ids : ∀ u a, accounts_ (db_ w) !! u = Some a → account_id a < next_player_id_ (db_ w);
  lg_own : ∀ u a v b, accounts_ (db_ w) !! u = Some a → accounts_ (db_ w) !! v = Some b → account_id a = account_id b → u = v;
}.

Section Owner.

(** The player of each session. *)
Context (owner : Z → Z).

Definition job_right (j : job) : Prop :=
  match j with
  | Create ctx | Join ctx | Portal ctx _ | OpenEnter _ _ ctx _ | Enter ctx _ => ctx_ok owner ctx
  | RoomPacket pid _ | Remove pid => pid < 900000 ∧ ∃ sid, owner sid = pid
  | Tick => True
  end.

(** Rooms, jobs and contexts that agree with it. *)
Record server_right (w : server) : Prop := {
  sr_rooms : map_Forall (λ _, room_right owner) (rooms_ w);
  sr_jobs : map_Forall (λ _, Forall job_right) (jobs_ w);
  sr_ctx : ∀ sid ctx, by_session_ w !! sid = Some ctx → ctx_session ctx = sid ∧ ctx_ok owner ctx;
  sr_up : ∀ sid gs, sessions_ w !! sid = Some gs → worker_up (worker_ gs) = true;
}.

(** A step in which nobody connects, logs in or registers. *)
Record calm (w w' : server) : Prop := {
  c_logins : logins_ w' = logins_ w;
  c_accounts : accounts_ (db_ w') = accounts_ (db_ w);
  c_next : next_player_id_ (db_ w') = next_player_id_ (db_ w);
  c_logged : logged w → logged w';
  c_right : server_right w → server_right w';
}.

Lemma calm_refl w : calm w w.
Proof. by split. Qed.

Lemma calm_trans w w1 w2 : calm w w1 → calm w1 w2 → calm w w2.
Proof. intros [] []. split; [congruence|congruence|congruence|auto|auto]. Qed.

Lemma calm_update sid f w : (∀ gs, worker_ (f gs) = worker_ gs ∧ has_ctx (f gs) = has_ctx gs ∧ (state_ (f gs) = state_ gs ∨ state_ (f gs) ≠ Connected)) →
  calm w (update_session sid f w).
Proof.
  intros Hf. split; [done|done|done| |].
  - intros [L1 L2 L3 L4 L5 L6 L7]. split; fields; try done.
    + intros k gs [(-> & gs' & Hk & ->)|(_ & Hk)]%lookup_alter_Some; [|by apply L1].
      destruct (Hf gs') as (_ & Hc & Hs). destruct (L1 _ _ Hk) as [A B]. rewrite Hc. split; [done|]. intros E. specialize (B E).
      destruct Hs; congruence.
    + intros k. rewrite lookup_alter_is_Some. apply L4.
  - intros [S1 S2 S3 S4]. split; fields; try done.
    intros k gs [(-> & gs' & Hk & ->)|(_ & Hk)]%lookup_alter_Some; [|by eapply S4]. destruct (Hf gs') as (-> & _). by eapply S4.
Qed.

Lemma calm_reply sid m w : calm w (reply sid m w).
Proof. apply calm_update. intros gs. by auto. Qed.

Lemma calm_state sid s w : s ≠ Connected → calm w (update_session sid (set_state s) w).
Proof. intros Hs. apply calm_update. intros gs. by auto. Qed.

Lemma calm_Push rid j w : (server_right w → job_right j) → calm w (Push rid j w).
Proof.
  intros Hj. split; [done|done|done|by intros []|]. intros HS. pose proof HS as [S1 S2 S3 S4]. split; fields; try done.
  apply map_Forall_insert_2; [|done]. apply Forall_app. split; [|by constructor; [apply Hj|]].
  destruct (jobs_ w !! rid) as [js|] eqn:E; [by eapply S2|constructor].
Qed.

Lemma ctx_right sid ctx w : server_right w → GetPlayerCtx sid w = Some ctx → ctx_session ctx = sid ∧ ctx_ok owner ctx.
Proof. intros HS. unfold GetPlayerCtx. repeat case_match; try done. apply (sr_ctx _ HS). Qed.

Lemma ctx_player_right sid ctx w : server_right w → GetPlayerCtx sid w = Some ctx → ctx_player ctx < 900000 ∧ ∃ sid, owner sid = ctx_player ctx.
Proof. intros HS Hc. destruct (ctx_right _ _ _ HS Hc) as (_ & _ & _ & Hlt & Ho). by eauto. Qed.

(** A context of the same player. *)
Lemma calm_ctx sid n l rm ctx w : GetPlayerCtx sid w = Some ctx →
  calm w (set_by_session_ (<[sid := mkContext (ctx_session ctx) (ctx_player ctx) n l rm (ctx_worker ctx)]> (by_session_ w)) w).
Proof.
  intros Hc. split; [done|done|done|by intros []|]. intros HS. pose proof HS as [S1 S2 S3 S4]. split; fields; try done.
  intros k c [[<- <-]|[_ Hk]]%lookup_insert_Some; [|by apply S3]. destruct (ctx_right _ _ _ HS Hc) as [E Hok]. split; [exact E|exact Hok].
Qed.

Lemma calm_CreateRoom n w rid w' : CreateRoom n w = Some (rid, w') → calm w w'.
Proof.
  unfold CreateRoom. generalize ((λ _ : game_room, 0%nat) <$> rooms_ w). intros used. destruct (RoomManager.NextRoomIdLocked _ _ _) as [[i next]|]; [|done].
  intros [= <- <-]. split; [done|done|done|by intros []|]. intros [S1 S2 S3 S4]. split; fields; try done.
  apply map_Forall_insert_2; [by apply right_new|done].
Qed.

(** ** What sessions do *)

Lemma calm_if (b : bool) w w1 w2 : calm w w1 → calm w w2 → calm w (if b then w1 else w2).
Proof. by destruct b. Qed.

Lemma calm_HandleCharList sid w : calm w (HandleCharList sid w).
Proof.
  unfold HandleCharList. case_match; [apply calm_refl|]. destruct (GetPlayerCtx sid w); [|apply calm_refl].
  eapply calm_trans; [apply calm_reply|by apply calm_state].
Qed.

Lemma calm_HandleCreateChar sid n w : calm w (HandleCreateChar sid n w).
Proof.
  unfold HandleCreateChar. case_match; [apply calm_refl|]. destruct (GetPlayerCtx sid w) as [ctx|]; [|apply calm_refl].
  assert (Hdb : accounts_ (CreateChar (ctx_player ctx) n (db_ w)).1 = accounts_ (db_ w) ∧
    next_player_id_ (CreateChar (ctx_player ctx) n (db_ w)).1 = next_player_id_ (db_ w)) by (unfold CreateChar; by case_bool_decide).
  destruct (CreateChar _ _ _) as [db result]. cbn in Hdb. destruct Hdb as [H1' H2']. eapply calm_trans; [|apply calm_reply].
  split; [done|done|done| |by intros []]. intros [L1 L2 L3 L4 L5 L6 L7]. split; cbn [db_ set_db_]; rewrite ?H1', ?H2'; done.
Qed.

Lemma calm_HandleSelectChar sid cid w : calm w (HandleSelectChar sid cid w).
Proof.
  unfold HandleSelectChar. case_match; [apply calm_refl|]. destruct (GetPlayerCtx sid w) as [ctx|] eqn:Hc; [|apply calm_refl].
  destruct (list_find _ _) as [[? c]|]; [|apply calm_reply]. eapply calm_trans; [by apply calm_ctx|]. do 3 (eapply calm_trans; [apply calm_reply|]).
  by apply calm_state.
Qed.

Lemma calm_HandleCreateRoom sid n w : calm w (HandleCreateRoom entropy sid n w).
Proof.
  unfold HandleCreateRoom. case_match; [apply calm_refl|]. destruct (GetPlayerCtx sid w) as [ctx|] eqn:Hc; [|apply calm_refl].
  destruct (CreateRoom n w) as [[rid w1]|] eqn:E; [|apply calm_refl]. pose proof (calm_CreateRoom _ _ _ _ E) as HC. split.
  1-4: destruct HC as [C1 C2 C3 C4 C5]; try done. 1: by intros []%C4.
  intros HS. eapply (c_right _ _ (calm_Push rid (Create ctx) w1 _)). Unshelve. 2: intros _; by eapply ctx_right. by apply HC.
Qed.

Lemma calm_HandleJoinRoom sid z w : calm w (HandleJoinRoom sid z w).
Proof.
  unfold HandleJoinRoom. case_match; [apply calm_refl|]. destruct (GetPlayerCtx sid w) as [ctx|] eqn:Hc; [|apply calm_refl].
  apply calm_if; [|apply calm_reply]. apply calm_Push. intros HS. by eapply ctx_right.
Qed.

Lemma calm_HandlePortal sid p w : calm w (HandlePortal sid p w).
Proof.
  unfold HandlePortal. case_match; [apply calm_refl|]. destruct (GetPlayerCtx sid w) as [ctx|] eqn:Hc; [|apply calm_refl].
  destruct (ctx_room ctx); [|apply calm_refl]. apply calm_Push. intros HS. by eapply ctx_right.
Qed.

Lemma calm_HandleInRoomPacket sid p w : calm w (HandleInRoomPacket sid p w).
Proof.
  unfold HandleInRoomPacket. destruct (GetPlayerCtx sid w) as [ctx|] eqn:Hc; [|apply calm_refl].
  destruct (ctx_room ctx); [|apply calm_refl]. apply calm_Push. intros HS. by eapply ctx_player_right.
Qed.

Lemma calm_OnDisconnected sid w : calm w (OnDisconnected sid w).
Proof.
  unfold OnDisconnected. set (w1 := match GetPlayerCtx sid w with Some _ => _ | None => w end). assert (Hc1 : calm w w1).
  { unfold w1. destruct (GetPlayerCtx sid w) as [ctx|] eqn:Hc; [|apply calm_refl].
    set (w2 := match ctx_room ctx with Some _ => _ | None => w end). assert (HC : calm w w2).
    { unfold w2. destruct (ctx_room ctx); [apply calm_Push; intros HS; by eapply ctx_player_right|apply calm_refl]. }
    eapply calm_trans; [exact HC|]. unfold Unregister. destruct (by_session_ w2 !! sid) as [c|]; [|apply calm_refl].
    split; [done|done|done|by intros []|]. intros [S1 S2 S3 S4]. split; fields; try done. intros k c' [_ Hk]%lookup_delete_Some. by apply S3. }
  eapply calm_trans; [exact Hc1|]. split; [done|done|done| |].
  - intros [L1 L2 L3 L4 L5 L6 L7]. split; fields; try done.
    + intros k gs [_ Hk]%lookup_delete_Some. by apply L1.
    + intros k. rewrite lookup_delete_is_Some. intros [_ ?]. by apply L4.
  - intros [S1 S2 S3 S4]. split; fields; try done. intros k gs [_ Hk]%lookup_delete_Some. by eapply S4.
Qed.

(** ** What rooms do *)

(** The part of [calm] that does not speak of rooms. *)
Definition frame (w w' : server) : Prop :=
  logins_ w' = logins_ w ∧ db_ w' = db_ w ∧ sessions_ w' = sessions_ w ∧ next_sid_ w' = next_sid_ w.

Lemma server_frame_trans w w1 w2 : frame w w1 → frame w1 w2 → frame w w2.
Proof. intros (A1 & A2 & A3 & A4) (B1 & B2 & B3 & B4). split_and!; congruence. Qed.

Lemma calm_frame w w' : frame w w' → (server_right w → server_right w') → calm w w'.
Proof.
  intros (F1 & F2 & F3 & F4) HR. split; [done|by rewrite F2|by rewrite F2| |done].
  intros [L1 L2 L3 L4 L5 L6 L7]. split; rewrite ?F1, ?F2, ?F3, ?F4; done.
Qed.

Lemma frame_CreateRoom n w rid w' : CreateRoom n w = Some (rid, w') → frame w w'.
Proof. unfold CreateRoom. destruct (RoomManager.NextRoomIdLocked _ _ _) as [[i next]|]; [|done]. by intros [= <- <-]. Qed.

Lemma right_changed rid r r' w : room_right owner r' → server_right w → server_right (changed rid r r' w).
Proof. intros HR [S1 S2 S3 S4]. split; try done. by apply map_Forall_insert_2. Qed.

Lemma right_Push rid j w : job_right j → server_right w → server_right (Push rid j w).
Proof. intros Hj. by apply (c_right _ _ (calm_Push rid j w (λ _, Hj))). Qed.

Lemma frame_TryPortal now alive ctx p rid r w : frame w (TryPortal now alive ctx p rid r w).
Proof.
  unfold TryPortal. case_match; [done|]. case_match; [done|]. destruct (behind p r w) as [[t|] conns]; [done|].
  destruct (CreateRoom _ w) as [[t w1]|] eqn:E; [|done]. eapply server_frame_trans; [by eapply frame_CreateRoom|done].
Qed.

Lemma right_TryPortal now alive ctx p rid r w : room_right owner r → ctx_ok owner ctx → server_right w →
  server_right (TryPortal now alive ctx p rid r w).
Proof.
  intros HR Hc HS. unfold TryPortal. case_match; [done|]. case_match; [done|]. destruct (behind p r w) as [[t|] conns].
  - apply right_changed; [by apply right_RemovePlayer|]. by apply right_Push.
  - destruct (CreateRoom _ w) as [[t w1]|] eqn:E; [|done]. apply right_changed.
    + apply right_RemovePlayer. eapply right_quiet; [apply quiet_connections|exact HR].
    + apply right_Push; [done|]. by eapply calm_CreateRoom.
Qed.

Lemma local_jobs_ok now alive j : job_right j → Forall (job_ok owner) (local_jobs now alive j).
Proof. intros Hj. destruct j; cbn [local_jobs]; repeat (apply Forall_cons; split; [done|]); apply Forall_nil_2. Qed.

Lemma right_local s r js : Forall (job_ok owner) js → room_right owner r →
  room_right owner (foldl (do_job sort_rooms sort_candidates seeded) (s, r) js).2.
Proof.
  revert s r. induction js as [|j js IH]; intros s r Hjs HR; [done|]. apply Forall_cons in Hjs as [Hj Hjs]. cbn [foldl].
  pose proof (right_job owner sort_rooms sort_candidates seeded s r j Hj HR) as HR'.
  destruct (do_job _ _ _ (s, r) j) as [s' r']. by apply IH.
Qed.

Lemma calm_run_job rid now alive w : calm w (run_job rid now alive w).
Proof.
  unfold run_job. destruct (rooms_ w !! rid) as [r|] eqn:Er; [|apply calm_refl].
  destruct (jobs_ w !! rid) as [[|j js]|] eqn:Ej; [apply calm_refl| |apply calm_refl].
  set (w1 := set_jobs_ _ w). set (res := foldl _ _ (local_jobs now alive j)). apply calm_frame.
  - destruct j as [ | |ctx p| | | | |]; try (by destruct res). eapply server_frame_trans; [|apply frame_TryPortal]. done.
  - intros HS. pose proof HS as [S1 S2 S3 S4]. pose proof (S1 _ _ Er) as HR. pose proof (S2 _ _ Ej) as [Hj Hjs]%Forall_cons.
    assert (HS1 : server_right w1) by (split; try done; by apply map_Forall_insert_2).
    assert (Hres : room_right owner res.2) by (apply right_local; [by apply local_jobs_ok|done]).
    destruct res as [s r'] eqn:Eres. assert (HS2 : server_right (set_g_party_system s w1)) by (by destruct HS1).
    destruct j as [ | |ctx p| | | | |]; try (by apply right_changed). by apply right_TryPortal.
Qed.

(** ** What workers do *)

Lemma calm_enter_state sid pid rid w : calm w (enter_state sid pid rid w).
Proof.
  unfold enter_state. destruct (GetPlayerCtx sid w) as [ctx|] eqn:Hc; [|apply calm_refl]. case_match; [apply calm_refl|].
  eapply calm_trans; [by apply calm_ctx|by apply calm_state].
Qed.

Lemma calm_deliver wid w : calm w (deliver wid w).
Proof.
  unfold deliver. destruct (outboxes_ w !! wid) as [o|]; [|apply calm_refl]. destruct (take_one o) as [[o' b] msg].
  eapply calm_trans; [apply (calm_frame w (set_outboxes_ (<[wid := o']> (outboxes_ w)) w)); [done|by intros []]|].
  destruct msg as [m|]; [|apply calm_refl]. destruct (out_body m) as [[p|pid rid]|]; [|apply calm_enter_state|apply calm_refl].
  destruct (sessions_ _ !! _); [|apply calm_refl]. apply calm_if; [apply calm_reply|apply calm_refl].
Qed.

(** ** Logging in *)

(** The player of a login and its account. *)
Lemma Login_spec u pw db : (∀ v a, accounts_ db !! v = Some a → account_id a < next_player_id_ db) →
  (∀ u a v b, accounts_ db !! u = Some a → accounts_ db !! v = Some b → account_id a = account_id b → u = v) →
  let '(db', result) := db_Login u pw db in
  accounts_ db ⊆ accounts_ db' ∧ next_player_id_ db ≤ next_player_id_ db' ∧
  (∀ v a, accounts_ db' !! v = Some a → account_id a < next_player_id_ db') ∧
  (∀ u a v b, accounts_ db' !! u = Some a → accounts_ db' !! v = Some b → account_id a = account_id b → u = v) ∧
  (∀ pid, result = Some pid → accounts_ db' !! u = Some (mkAccount pid pw)).
Proof.
  intros Hid Hown. unfold db_Login. destruct (accounts_ db !! u) as [a|] eqn:E; cbn.
  - split_and!; [done|lia|done|done|]. intros pid. case_bool_decide as Hp; [|done]. intros [= <-]. rewrite E. by destruct a; cbn in Hp; subst.
  - split_and!; [by apply insert_subseteq|lia| | |].
    + intros v a [[<- <-]|[_ Hv]]%lookup_insert_Some; [cbn; lia|]. pose proof (Hid v a Hv). lia.
    + intros x a v b [[<- <-]|[_ Hx]]%lookup_insert_Some [[<- <-]|[_ Hv]]%lookup_insert_Some; cbn; [done| | |by eapply Hown].
      * intros Eq. pose proof (Hid v b Hv). lia.
      * intros Eq. pose proof (Hid x a Hx). lia.
    + intros pid [= <-]. by rewrite lookup_insert_eq.
Qed.

Lemma db_Register_spec u pw db : (∀ v a, accounts_ db !! v = Some a → account_id a < next_player_id_ db) →
  (∀ u a v b, accounts_ db !! u = Some a → accounts_ db !! v = Some b → account_id a = account_id b → u = v) →
  let '(db', _) := db_Register u pw db in
  accounts_ db ⊆ accounts_ db' ∧ next_player_id_ db ≤ next_player_id_ db' ∧
  (∀ v a, accounts_ db' !! v = Some a → account_id a < next_player_id_ db') ∧
  (∀ u a v b, accounts_ db' !! u = Some a → accounts_ db' !! v = Some b → account_id a = account_id b → u = v).
Proof.
  intros Hid Hown. pose proof (Login_spec u pw db Hid Hown) as HL. unfold db_Register, db_Login in *.
  destruct (accounts_ db !! u); [done|]. destruct HL as (L1 & L2 & L3 & L4 & _). done.
Qed.

(** What a step adds to who has logged in, and what it keeps. *)
Record stepped (e : event) (w w' : server) : Prop := {
  st_logged : logged w → logged w';
  st_accounts : logged w → accounts_ (db_ w) ⊆ accounts_ (db_ w');
  st_next : next_player_id_ (db_ w) ≤ next_player_id_ (db_ w');
  st_logins : logged w → ∃ new, logins_ w' = logins_ w ++ new ∧
    ∀ sid pid, (sid, pid) ∈ new → ∃ u pw, e = Receive sid (C_LOGIN u pw) ∧ accounts_ (db_ w') !! u = Some (mkAccount pid pw);
  st_right : logged w → (∀ sid pid, (sid, pid) ∈ logins_ w' → owner sid = pid) → next_player_id_ (db_ w') ≤ 900000 →
    server_right w → server_right w';
}.

Lemma stepped_calm e w w' : calm w w' → stepped e w w'.
Proof.
  intros [C1 C2 C3 C4 C5]. split; [done|by rewrite C2|lia| |by auto]. intros _. exists []. rewrite app_nil_r. split; [done|].
  intros sid pid Hin. by apply not_elem_of_nil in Hin.
Qed.

Lemma stepped_connect wid w : worker_up wid = true → stepped (Accept wid) w (connect wid w).
Proof.
  intros Hup. split; [|done|done| |].
  - intros [L1 L2 L3 L4 L5 L6 L7]. unfold connect. split; fields; try done; [| | |lia].
    + intros sid gs [[<- <-]|[_ Hk]]%lookup_insert_Some; [|by apply L1]. cbn. split; [|done]. split; [done|].
      intros Hin%L3. lia.
    + intros sid Hin%L3. lia.
    + intros sid [gs [[<- _]|[_ Hk]]%lookup_insert_Some]; [lia|]. assert (Hs : is_Some (sessions_ w !! sid)) by by exists gs. apply L4 in Hs. lia.
  - intros _. exists []. rewrite app_nil_r. split; [done|]. intros sid pid Hin. by apply not_elem_of_nil in Hin.
  - intros _ _ _ [S1 S2 S3 S4]. unfold connect. split; fields; try done. intros sid gs [[<- <-]|[_ Hk]]%lookup_insert_Some; [done|by eapply S4].
Qed.

Lemma stepped_register sid u pw w : stepped (Receive sid (C_REGISTER u pw)) w (HandleRegister sid u pw w).
Proof.
  unfold HandleRegister. case_match; [apply stepped_calm, calm_refl|].
  pose proof (db_Register_spec u pw (db_ w)) as HD. assert (Hn : next_player_id_ (db_ w) ≤ next_player_id_ (db_Register u pw (db_ w)).1).
  { unfold db_Register. destruct (accounts_ (db_ w) !! u); cbn [fst next_player_id_]; lia. }
  destruct (db_Register u pw (db_ w)) as [db err]. cbn in Hn. set (w1 := set_db_ db w).
  pose proof (calm_reply sid (inl (S_REGISTER err)) w1) as [C1 C2 C3 C4 C5]. split; [| |by rewrite C3| |].
  - intros HL. apply C4. pose proof HL as [L1 L2 L3 L4 L5 L6 L7]. destruct (HD L6 L7) as (D1 & D2 & D3 & D4). by split.
  - intros HL. destruct (HD (lg_ids _ HL) (lg_own _ HL)) as (D1 & _). by rewrite C2.
  - intros _. exists []. rewrite app_nil_r, C1. split; [done|]. intros k pid Hin. by apply not_elem_of_nil in Hin.
  - intros _ _ _ HS. apply C5. by destruct HS.
Qed.

Lemma stepped_login sid u pw w : stepped (Receive sid (C_LOGIN u pw)) w (HandleLogin sid u pw w).
Proof.
  unfold HandleLogin. destruct (sessions_ w !! sid) as [gs|] eqn:Eg; [|apply stepped_calm, calm_refl].
  case_bool_decide as Hst; cbn [negb]; [|apply stepped_calm, calm_refl].
  pose proof (Login_spec u pw (db_ w)) as HD. assert (Hn : next_player_id_ (db_ w) ≤ next_player_id_ (db_Login u pw (db_ w)).1).
  { unfold db_Login. destruct (accounts_ (db_ w) !! u); cbn [fst next_player_id_]; lia. }
  destruct (db_Login u pw (db_ w)) as [db result]. cbn in Hn. set (w1 := set_db_ db w). destruct result as [pid|].
  - set (w2 := Register sid pid (worker_ gs) w1). set (w3 := update_session sid _ w2). set (w4 := set_logins_ _ w3).
    pose proof (calm_reply sid (inl (S_LOGIN true pid)) w4) as [C1 C2 C3 C4 C5].
    assert (Hl : logins_ w4 = logins_ w ++ [(sid, pid)]) by done.
    assert (Hnew : logged w → sid ∉ (logins_ w).*1).
    { intros HL Hin. destruct (lg_ctx _ HL _ _ Eg) as [A B]. by apply B; [apply A|]. }
    split; [| |by rewrite C3| |].
    + intros HL. apply C4. pose proof HL as [L1 L2 L3 L4 L5 L6 L7]. destruct (HD L6 L7) as (D1 & D2 & D3 & D4 & D5).
      split; rewrite ?Hl, ?fmap_app; unfold w4, w3, w2, w1, Register; fields; [| | | |done|done|done].
      * intros k g [(-> & g' & Hk & ->)|(Hne & Hk)]%lookup_alter_Some; cbn.
        -- split; [|done]. split; [|done]. intros _. apply elem_of_app. right. by left.
        -- destruct (L1 _ _ Hk) as [A B]. split; [|done]. rewrite A, elem_of_app, list_elem_of_singleton. split; [by left|].
           by intros [?| ->].
      * apply NoDup_app. split_and!; [done| |apply NoDup_singleton]. intros k Hk ->%list_elem_of_singleton. by apply Hnew.
      * intros k [Hk| ->%list_elem_of_singleton]%elem_of_app; [by apply L3|]. by apply L4; eexists.
      * intros k. rewrite lookup_alter_is_Some. apply L4.
    + intros HL. destruct (HD (lg_ids _ HL) (lg_own _ HL)) as (D1 & _). by rewrite C2.
    + intros HL. exists [(sid, pid)]. rewrite C1. split; [done|]. intros k q [= -> ->]%list_elem_of_singleton. exists u, pw. split; [done|].
      destruct (HD (lg_ids _ HL) (lg_own _ HL)) as (_ & _ & _ & _ & D5). rewrite C2. by apply D5.
    + intros HL Ho Hid HS. apply C5. rewrite C3 in Hid. change (next_player_id_ (db_ w4)) with (next_player_id_ db) in Hid.
      destruct (HD (lg_ids _ HL) (lg_own _ HL)) as (_ & _ & D3 & _ & D5).
      pose proof (D3 _ _ (D5 pid eq_refl)) as Hlt. cbn in Hlt. pose proof (lg_sid _ HL sid ltac:(by eexists)) as Hsid.
      assert (Hown : owner sid = pid). { apply Ho. rewrite C1, Hl. apply elem_of_app. right. by left. }
      pose proof HS as [S1 S2 S3 S4]. unfold w4, w3, w2, w1, Register. split; fields; try done.
      * intros k c [[<- <-]|[_ Hk]]%lookup_insert_Some; [|by apply S3]. cbn. split; [done|]. split_and!; cbn; [lia|by eapply S4|lia|done].
      * intros k g [(-> & g' & Hk & ->)|(_ & Hk)]%lookup_alter_Some; [apply (S4 _ _ Hk)|by eapply S4].
  - pose proof (calm_reply sid (inl (S_LOGIN false 0)) w1) as [C1 C2 C3 C4 C5]. split; [| |by rewrite C3| |].
    + intros HL. apply C4. pose proof HL as [L1 L2 L3 L4 L5 L6 L7]. destruct (HD L6 L7) as (D1 & D2 & D3 & D4 & _). by split.
    + intros HL. destruct (HD (lg_ids _ HL) (lg_own _ HL)) as (D1 & _). by rewrite C2.
    + intros _. exists []. rewrite app_nil_r, C1. split; [done|]. intros k q Hin. by apply not_elem_of_nil in Hin.
    + intros _ _ _ HS. apply C5. by destruct HS.
Qed.

Lemma stepped_step e w : (∀ wid, e = Accept wid → worker_up wid = true) → stepped e w (step w e).
Proof.
  intros Hup. destruct e as [wid|sid p|sid|rid|rid now alive|wid]; cbn [DungeonServer.step].
  - apply stepped_connect. by apply Hup.
  - unfold session_OnPacket. assert (Hin : stepped (Receive sid p) w (HandleInRoomPacket sid p w)) by apply stepped_calm, calm_HandleInRoomPacket.
    assert (Hpre : stepped (Receive sid p) w (HandlePreRoomPacket entropy sid p w)).
    { destruct p; cbn [HandlePreRoomPacket]; first [apply stepped_login|apply stepped_register|apply stepped_calm].
      - apply calm_HandleCharList.
      - apply calm_HandleCreateChar.
      - apply calm_HandleSelectChar.
      - unfold HandleRoomList. case_match; [apply calm_refl|apply calm_reply].
      - apply calm_HandleCreateRoom.
      - apply calm_HandleJoinRoom.
      - apply calm_refl.
      - apply calm_refl. }
    destruct p; try (by destruct (in_state sid [InRoom] w)). apply stepped_calm, calm_HandlePortal.
  - apply stepped_calm, calm_OnDisconnected.
  - apply stepped_calm, calm_if; [by apply calm_Push|apply calm_refl].
  - apply stepped_calm, calm_run_job.
  - apply stepped_calm, calm_deliver.
Qed.
End Owner.

(** ** Runs *)

Lemma logged_new : logged server_new.
Proof.
  split; cbn; try done.
  - apply NoDup_nil_2.
  - intros sid Hin. by apply not_elem_of_nil in Hin.
  - intros sid [gs Hs]. done.
Qed.

Lemma right_server_new owner : server_right owner server_new.
Proof. by split. Qed.

(** Sessions are made on workers that run. *)
Definition workers_run (es : list event) : Prop := ∀ wid, Accept wid ∈ es → worker_up wid = true.

Lemma run_snoc es e : run (es ++ [e]) = step (run es) e.
Proof. apply foldl_snoc. Qed.

Lemma workers_snoc es e : workers_run (es ++ [e]) → workers_run es ∧ ∀ wid, e = Accept wid → worker_up wid = true.
Proof.
  intros HW. split; [intros wid Hin|intros wid ->]; apply HW, elem_of_app; [by left|right; by left].
Qed.

(** Each login came with the password of the account. *)
Lemma run_logged es : workers_run es → logged (run es) ∧
  ∀ sid pid, (sid, pid) ∈ logins_ (run es) → ∃ u pw, Receive sid (C_LOGIN u pw) ∈ es ∧ accounts_ (db_ (run es)) !! u = Some (mkAccount pid pw).
Proof.
  induction es as [|e es IH] using rev_ind; intros HW.
  { split; [apply logged_new|]. intros sid pid Hin. by apply not_elem_of_nil in Hin. }
  apply workers_snoc in HW as [HW Hup]. destruct (IH HW) as [HL Ha]. rewrite run_snoc.
  destruct (stepped_step (λ _, 0) e (run es) Hup) as [T1 T2 T3 T4 _]. split; [by apply T1|].
  destruct (T4 HL) as (new & -> & Hnew). intros sid pid [Hin|Hin]%elem_of_app.
  - destruct (Ha sid pid Hin) as (u & pw & Hu & Hacc). exists u, pw. split; [by apply elem_of_app; left|].
    by apply (lookup_weaken _ _ _ _ Hacc), T2.
  - destruct (Hnew sid pid Hin) as (u & pw & -> & Hacc). exists u, pw. split; [apply elem_of_app; right; by left|done].
Qed.

Lemma run_right owner es : workers_run es → (∀ sid pid, (sid, pid) ∈ logins_ (run es) → owner sid = pid) →
  next_player_id_ (db_ (run es)) ≤ 900000 → server_right owner (run es).
Proof.
  induction es as [|e es IH] using rev_ind; intros HW Ho Hid; [apply right_server_new|].
  apply workers_snoc in HW as [HW Hup]. destruct (run_logged es HW) as [HL _]. rewrite run_snoc in *.
  destruct (stepped_step owner e (run es) Hup) as [T1 T2 T3 T4 T5]. apply T5; [done|done|done|]. apply IH; [done| |lia].
  intros sid pid Hin. apply Ho. destruct (T4 HL) as (new & -> & _). by apply elem_of_app; left.
Qed.

(** The player that a session has logged in as; no player's number otherwise. *)
Definition login_of (w : server) (sid : Z) : Z := default 900000 ((list_to_map (logins_ w) : gmap Z Z) !! sid).

Lemma login_of_in w sid pid : NoDup (logins_ w).*1 → (sid, pid) ∈ logins_ w → login_of w sid = pid.
Proof. intros HN Hin. unfold login_of. by rewrite (elem_of_list_to_map_1 _ _ _ HN Hin). Qed.

Lemma login_of_player w sid pid : login_of w sid = pid → pid < 900000 → (sid, pid) ∈ logins_ w.
Proof.
  unfold login_of. destruct (list_to_map _ !! sid) as [p|] eqn:E; cbn; [|lia]. intros <- _. by apply elem_of_list_to_map_2.
Qed.

Lemma run_right_logins es : workers_run es → next_player_id_ (db_ (run es)) ≤ 900000 → server_right (login_of (run es)) (run es).
Proof.
  intros HW Hid. apply run_right; [done| |done]. intros sid pid. apply login_of_in. by apply run_logged.
Qed.

(** C21: In whatever order sessions connect, send packets and go, rooms do their jobs and
    workers send: a room all of whose packets could be built has told the client of each
    of its players the right others.  The packets that the room has put in the outboxes for
    a player's session, read in their order (in which each session's outbox hands them on,
    see [outbox_fifo_fair]), show nobody before the player said that its scene is ready,
    and from then on every other player that is ready and every bot, never the player
    itself and never anyone who is not there any more.  Conditions: sessions are made on
    workers that run, there are fewer than 900000 accounts (from there on numbers are
    those of bots), and empty rooms are not cleaned up during the run.  A room that could
    not build a packet (a list of players with long names can exceed 65535 bytes, the pool
    can be exhausted) is not covered. *)
Theorem clients_see_their_rooms es : workers_run es → next_player_id_ (db_ (run es)) ≤ 900000 →
  ∀ rid r, rooms_ (run es) !! rid = Some r → unbuilt_ r = 0%nat →
  ∀ pid ps, player r pid = Some ps → session_id ps ≠ 0 →
    (scene_ready ps = false → shown_to (session_id ps) r = ∅) ∧
    (scene_ready ps = true → ∀ q,
      (q ≠ pid → appears r q → q ∈ shown_to (session_id ps) r) ∧
      (q ∈ shown_to (session_id ps) r → q ≠ pid ∧ present r q)).
Proof.
  intros HW Hid rid r Hr. pose proof (sr_rooms _ _ (run_right_logins es HW Hid) rid r Hr) as HR.
  exact (right_view (login_of (run es)) r HR).
Qed.

(** C20: Nobody plays as someone else.  In every run, also when packets cannot be built: a
    player that is in a room with a session is one whose account that session has given the
    name and the password of, and no other account is that player's; and a packet that waits
    for a room acts for a player whose name and password some session has given.
    Conditions: sessions are made on workers that run, and there are fewer than 900000
    accounts (from there on numbers are those of bots); the accounts are those of the
    database in memory. *)
Theorem only_owners_play es : workers_run es → next_player_id_ (db_ (run es)) ≤ 900000 →
  let accounts := accounts_ (db_ (run es)) in
  (∀ rid r pid ps, rooms_ (run es) !! rid = Some r → player r pid = Some ps → session_id ps ≠ 0 →
    ∃ u pw, Receive (session_id ps) (C_LOGIN u pw) ∈ es ∧ accounts !! u = Some (mkAccount pid pw) ∧
      ∀ v a, accounts !! v = Some a → account_id a = pid → v = u) ∧
  (∀ rid js pid p, jobs_ (run es) !! rid = Some js → RoomPacket pid p ∈ js →
    ∃ sid u pw, Receive sid (C_LOGIN u pw) ∈ es ∧ accounts !! u = Some (mkAccount pid pw)).
Proof.
  intros HW Hid accounts. destruct (run_logged es HW) as [HL Ha]. pose proof (run_right_logins es HW Hid) as [S1 S2 _ _]. split.
  - intros rid r pid ps Hr Hp Hs. destruct (S1 rid r Hr) as [_ _ R3 _].
    assert (Hst : seats r !! pid = Some (seat_of ps)) by (apply seat_player; eauto).
    pose proof (proj2 (se_human _ _ R3 pid _ Hst) Hs) as Hlt. pose proof (se_owner _ _ R3 pid _ Hst Hs) as Ho. cbn in Ho.
    destruct (Ha _ _ (login_of_player _ _ _ Ho Hlt)) as (u & pw & Hu & Hacc). exists u, pw. split_and!; [done|done|].
    intros v a Hv <-. by eapply (lg_own _ HL).
  - intros rid js pid p Hj Hin. pose proof (S2 rid js Hj) as Hjs. rewrite Forall_forall in Hjs. destruct (Hjs _ Hin) as [Hlt [sid Ho]].
    destruct (Ha _ _ (login_of_player _ _ _ Ho Hlt)) as (u & pw & Hu & Hacc). by exists sid, u, pw.
Qed.

(** The cleanup takes no room with anyone in it, bots included, and no room keeps a portal to a
    room that it has taken. *)
Lemma cleanup_spec now w rid r : rooms_ w !! rid = Some r →
  (players_ r ≠ ∅ → ∃ r', rooms_ (CleanupEmptyRooms now w) !! rid = Some r' ∧ players_ r' = players_ r) ∧
  (∀ r' p t, rooms_ (CleanupEmptyRooms now w) !! rid = Some r' → connections_ r' !! p = Some t → connections_ r !! p = Some t ∧
     (is_Some (rooms_ w !! t) → is_Some (rooms_ (CleanupEmptyRooms now w) !! t))).
Proof.
  intros Hr. unfold CleanupEmptyRooms. cbn [rooms_ set_rooms_]. set (gone := filter _ (rooms_ w)).
  assert (Hgone : ∀ k s, rooms_ w !! k = Some s → gone !! k = None → ∃ s', (set_connections_ (filter (λ e, is_Some (gone !! e.2) → False) (connections_ s)) s) = s' ∧
    ((λ r0, set_connections_ (filter (λ e, is_Some (gone !! e.2) → False) (connections_ r0)) r0) <$> rooms_ w ∖ gone) !! k = Some s').
  { intros k s Hk Hg. eexists. split; [done|]. rewrite lookup_fmap. by rewrite (proj2 (lookup_difference_Some (rooms_ w) gone k s) (conj Hk Hg)). }
  split.
  - intros Hne. destruct (Hgone rid r Hr) as (r' & <- & Hr').
    { apply map_lookup_filter_None. right. intros x Hx. rewrite Hr in Hx. injection Hx as <-. cbn. unfold stale.
      rewrite bool_decide_false by done. by rewrite andb_false_r. }
    eexists. split; [exact Hr'|done].
  - intros r' p t. rewrite lookup_fmap, fmap_Some. intros (s & [Hs Hn]%lookup_difference_Some & ->).
    rewrite Hr in Hs. injection Hs as <-. cbn. intros [Hp Hf]%map_lookup_filter_Some. split; [done|]. cbn in Hf. intros [s Hs].
    destruct (Hgone t s Hs) as (s' & _ & Hs'); [|by exists s']. destruct (gone !! t) eqn:E; [|done]. exfalso. by apply Hf; eexists.
Qed.
End Proofs.

(** ** A server *)

(** A player's session comes up to a room. *)
Definition arrives (sid : Z) (u : bytes) (cid : Z) : list event :=
  [Accept 0; Receive sid (C_LOGIN u (txt "secret")); Receive sid (C_SELECT_CHAR cid)].

(** One creates a room and is gone before the room comes to it; two others join and are ready. *)
Definition evening : list event :=
  arrives 1 (txt "ann") 1 ++ [Receive 1 (C_CREATE_ROOM (txt "Hall")); Gone 1; Job 1 0 false] ++
  arrives 2 (txt "bob") 2 ++ [Receive 2 (C_JOIN_ROOM 1)] ++ arrives 3 (txt "cid") 3 ++ [Receive 3 (C_JOIN_ROOM 1)] ++
  [Job 1 0 true; Job 1 0 true; Drain 0; Drain 0; Drain 0; Drain 0; Drain 0; Drain 0] ++
  [Receive 2 (C_GAME C_SCENE_READY); Receive 3 (C_GAME C_SCENE_READY); Job 1 0 true; Job 1 0 true; Receive 3 (C_GAME C_LEAVE_PARTY)].

Abbreviation hall := (@run clockwork least_first (λ l, l) (λ l, l) (λ _, 0) (λ _, 0) evening).

Lemma clients_see_their_rooms_witness : ∃ r ps, rooms_ hall !! 1 = Some r ∧ player r 2 = Some ps ∧ scene_ready ps = true ∧
  3 ∈ shown_to (session_id ps) r.
Proof.
  pose proof (@clients_see_their_rooms clockwork clockwork_ok least_first (λ l, l) (λ l, l) (λ _, 0) (λ _, 0) evening
    (λ wid _, eq_refl) ltac:(vm_compute; discriminate) 1) as HT.
  assert (H1 : match rooms_ hall !! 1 with
    | Some r => match player r 2, player r 3 with
                | Some ps, Some qs => scene_ready ps && (session_id ps =? 2) && scene_ready qs | _, _ => false end
    | None => false end = true) by (vm_compute; reflexivity).
  assert (Hu : match rooms_ hall !! 1 with Some r => unbuilt_ r = 0%nat | None => True end) by (vm_compute; reflexivity).
  destruct (rooms_ hall !! 1) as [r|]; [|discriminate H1]. specialize (HT r eq_refl Hu). destruct (player r 2) as [ps|] eqn:E2; [|discriminate H1].
  destruct (player r 3) as [qs|] eqn:E3; [|discriminate H1]. apply andb_prop in H1 as [[Hr Hs%Z.eqb_eq]%andb_prop Hq].
  exists r, ps. split; [reflexivity|]. split; [exact E2|]. split; [exact Hr|].
  apply (HT 2 ps E2); [rewrite Hs; discriminate|exact Hr|discriminate|]. exists qs. split; [exact E3|left; exact Hq].
Defined.

Lemma only_owners_play_witness : ∃ js, jobs_ hall !! 1 = Some js ∧ js = [RoomPacket 3 C_LEAVE_PARTY] ∧
  ∃ sid u pw, Receive sid (C_LOGIN u pw) ∈ evening ∧ accounts_ (db_ hall) !! u = Some (mkAccount 3 pw).
Proof.
  pose proof (@only_owners_play clockwork clockwork_ok least_first (λ l, l) (λ l, l) (λ _, 0) (λ _, 0) evening
    (λ wid _, eq_refl) ltac:(vm_compute; discriminate)) as HT.
  assert (Hj : jobs_ hall !! 1 = Some [RoomPacket 3 C_LEAVE_PARTY]) by (vm_compute; reflexivity).
  eexists. split; [exact Hj|]. split; [reflexivity|]. apply (proj2 HT 1 _ 3 C_LEAVE_PARTY Hj). left.
Defined.
