(* ===== verification/ProxyConfig.v ===== *)
(** * The configuration of the reverse proxy

    [app/examples/proxy/tcp_reverse_proxy/src/TcpReverseProxyConfig.cpp]: settings from
    variables of the environment, routes from one and from a file, and the limits of the send
    queues.  [getenv] and the contents of files are arguments. *)

From S2P Require Import Prelude Text ProxyServer.

#[local] Open Scope Z_scope.
#[local] Set Warnings "-clear-no-such-hyp".

(** Source: app/examples/proxy/tcp_reverse_proxy/src/TcpReverseProxyConfig.cpp:30-43, Trim. *)
Definition Trim (text : bytes) : bytes := reverse (skip_spaces (reverse (skip_spaces text))).

(** Source: app/examples/proxy/tcp_reverse_proxy/src/TcpReverseProxyConfig.cpp:49-66, ParseUnsigned.
    [limit] is the greatest value of the type. *)
Definition ParseUnsigned (limit : Z) (raw : bytes) : option Z :=
  let text := Trim raw in
  if bool_decide (text = []) then None else
  match from_chars 0 (2 ^ 64 - 1) text with
  | Parsed v [] => if limit <? v then None else Some v
  | _ => None
  end.

(** Source: app/examples/proxy/tcp_reverse_proxy/src/TcpReverseProxyConfig.cpp:68-83, ParseSigned. *)
Definition ParseSigned (raw : bytes) : option Z :=
  let text := Trim raw in
  if bool_decide (text = []) then None else
  match from_chars (- 2 ^ 63) (2 ^ 63 - 1) text with Parsed v [] => Some v | _ => None end.

(** ** Routes *)

(** Source: app/examples/proxy/tcp_reverse_proxy/src/TcpReverseProxyConfig.cpp:145-162, ParseUpstreamTarget.
    Host and port as texts. *)
Definition split_target (text : bytes) : option (bytes * bytes) :=
  match text with
  | b :: rest =>
    if decide (b = "["%char) then
      '(host, after) ← split_at "]"%char rest;
      match after with
      | c :: port => if decide (c = ":"%char) then Some (host, port) else None
      | [] => None
      end
    else rsplit_at ":"%char text
  | [] => None
  end.

(** Source: app/examples/proxy/tcp_reverse_proxy/src/TcpReverseProxyConfig.cpp:138-175, ParseUpstreamTarget. *)
Definition ParseUpstreamTarget (target : bytes) : option (bytes * Z) :=
  '(host, port_text) ← split_target (Trim target);
  let host := Trim host in
  if bool_decide (host = []) then None else
  port ← ParseUnsigned (2 ^ 16 - 1) port_text;
  if port =? 0 then None else Some (host, port).

(** Source: app/examples/proxy/tcp_reverse_proxy/src/TcpReverseProxyConfig.cpp:177-194, ParseRouteAssignment. *)
Definition ParseRouteAssignment (token : bytes) : option upstream_route :=
  '(name, target) ← split_at "="%char token;
  let name := Trim name in
  upstream ← ParseUpstreamTarget target;
  if bool_decide (name = []) then None else Some (mkRoute name upstream.1 upstream.2).

(** Source: app/examples/proxy/tcp_reverse_proxy/src/TcpReverseProxyConfig.cpp:196-212, AppendRouteToken. *)
Definition AppendRouteToken (routes : list upstream_route) (token : bytes) : list upstream_route :=
  let trimmed := Trim token in
  if bool_decide (trimmed = []) then routes else
  match ParseRouteAssignment trimmed with Some route => routes ++ [route] | None => routes end.

(** The tokens of a text, at the commas. *)
Definition append_tokens (routes : list upstream_route) (text : bytes) : list upstream_route :=
  foldl AppendRouteToken routes (getline_by ","%char [] text).

(** Source: app/examples/proxy/tcp_reverse_proxy/src/TcpReverseProxyConfig.cpp:214-228, ReadUpstreamRoutesEnv. *)
Definition ReadUpstreamRoutesEnv (value : option bytes) : list upstream_route :=
  match value with Some raw => append_tokens [] raw | None => [] end.

(** Source: app/examples/proxy/tcp_reverse_proxy/src/TcpReverseProxyConfig.cpp:251-254, ReadUpstreamRoutesFileEnv. *)
Definition without_comment (line : bytes) : bytes :=
  match split_at "#"%char line with Some (text, _) => text | None => line end.

(** Source: app/examples/proxy/tcp_reverse_proxy/src/TcpReverseProxyConfig.cpp:230-265, ReadUpstreamRoutesFileEnv.
    [open] gives the contents of a file that can be opened. *)
Definition ReadUpstreamRoutesFileEnv (open : bytes → option bytes) (value : option bytes) : list upstream_route :=
  match value with
  | Some path =>
    if bool_decide (path = []) then [] else
    match open path with
    | Some text => foldl (λ routes line, append_tokens routes (without_comment line)) [] (getlines [] text)
    | None => []
    end
  | None => []
  end.

(** ** Settings *)

Inductive WorkerAffinityMode := kOff | kPhysicalCores | kLogicalCpus.

(** Source: include/iouring_runtime/core/ServerOptions.h:9-16, ServerRingOptions. *)
Record ServerRingOptions := mkRingOptions {
  queue_depth : Z; buf_count : Z; buf_size : Z; submit_batch_size : Z; cqe_batch_budget : Z; io_timeout : Z
}.

(** Source: include/iouring_runtime/core/ServerOptions.h:27-37, SendQueueBackpressureOptions.
    The settings that the configuration reads. *)
Record Backpressure := mkBackpressure {
  send_queue_max_pending : Z;
  send_queue_high_watermark : Z;
  send_queue_low_watermark : Z;
  send_queue_high_bytes : Z;
  send_queue_low_bytes : Z;
  paused_recv_byte_limit : Z;
  disconnect_on_high_watermark : bool;
}.

(** Source: include/iouring_runtime/proxy/TcpProxyConfig.h:59-79, TcpProxyConfig. *)
Record TcpProxyConfig := mkTcpProxyConfig {
  listen_host : bytes;
  listen_port : Z;
  default_host : bytes;
  default_port : Z;
  config_routes : list upstream_route;
  certificate_chain_file : bytes;
  private_key_file : bytes;
  pending_plaintext_limit : Z;
  metrics_file : bytes;
  metrics_interval : Z;
  config_workers : Z;
  worker_affinity : WorkerAffinityMode;
  max_sessions_per_worker : Z;
  pending_connect_buffer_limit : Z;
  config_ring : ServerRingOptions;
  inactivity : Z;
  connect_timeout : Z;
  config_backpressure : Backpressure;
}.

(** Source: include/iouring_runtime/proxy/AcmeHttpChallengeServer.h:15-43, AcmeHttpChallengeConfig.
    The settings that are not left at their defaults. *)
Record AcmeHttpChallengeConfig := mkAcmeConfig {
  acme_host : bytes;
  acme_port : Z;
  acme_webroot : bytes;
  acme_max_sessions : Z;
  acme_max_pending : Z;
  acme_inactivity : Z;
  acme_io_timeout : Z;
}.

(** Source: app/examples/proxy/tcp_reverse_proxy/src/TcpReverseProxyConfig.cpp:274-294, ApplyBackpressureWatermarkDefaults. *)
Definition ApplyBackpressureWatermarkDefaults (high_set low_set : bool) (b : Backpressure) : Backpressure :=
  if send_queue_max_pending b =? 0 then b else
  let high := if negb high_set || (send_queue_max_pending b <=? send_queue_high_watermark b)
              then Z.max 1 (send_queue_max_pending b / 2) else send_queue_high_watermark b in
  let low := if negb low_set || (high <? send_queue_low_watermark b) then high / 4 else send_queue_low_watermark b in
  mkBackpressure (send_queue_max_pending b) high low (send_queue_high_bytes b) (send_queue_low_bytes b)
    (paused_recv_byte_limit b) (disconnect_on_high_watermark b).

Definition u16_max : Z := 2 ^ 16 - 1.
Definition u32_max : Z := 2 ^ 32 - 1.
Definition u64_max : Z := 2 ^ 64 - 1.

Section Load.
Context (getenv : bytes → option bytes) (open : bytes → option bytes).

(** Source: app/examples/proxy/tcp_reverse_proxy/src/TcpReverseProxyConfig.cpp:45-47, HasEnv. *)
Definition HasEnv (n : bytes) : bool := bool_decide (getenv n ≠ None).

(** Source: app/examples/proxy/tcp_reverse_proxy/src/TcpReverseProxyConfig.cpp:85-96, ReadUnsignedEnv. *)
Definition ReadUnsignedEnv (limit : Z) (n : bytes) (fallback : Z) : Z :=
  match getenv n with Some raw => default fallback (ParseUnsigned limit raw) | None => fallback end.

(** Source: app/examples/proxy/tcp_reverse_proxy/src/TcpReverseProxyConfig.cpp:98-109, ReadMillisecondsEnv. *)
Definition ReadMillisecondsEnv (n : bytes) (fallback : Z) : Z :=
  match getenv n with Some raw => default fallback (ParseSigned raw) | None => fallback end.

(** Source: app/examples/proxy/tcp_reverse_proxy/src/TcpReverseProxyConfig.cpp:111-116, ReadStringEnv. *)
Definition ReadStringEnv (n : bytes) (fallback : bytes) : bytes := default fallback (getenv n).

(** Source: app/examples/proxy/tcp_reverse_proxy/src/TcpReverseProxyConfig.cpp:118-136, ReadWorkerAffinityEnv. *)
Definition ReadWorkerAffinityEnv (n : bytes) (fallback : WorkerAffinityMode) : WorkerAffinityMode :=
  match getenv n with
  | Some value =>
    if bool_decide (value = txt "off") then kOff else
    if bool_decide (value = txt "physical") then kPhysicalCores else
    if bool_decide (value = txt "logical") then kLogicalCpus else fallback
  | None => fallback
  end.

(** Source: app/examples/proxy/tcp_reverse_proxy/src/TcpReverseProxyConfig.cpp:385-421, LoadConfigFromEnv.
    The limits of the send queues. *)
Definition LoadBackpressure : Backpressure :=
  let high_set := HasEnv (txt "TCP_PROXY_SEND_QUEUE_HIGH_WATERMARK") in
  let low_set := HasEnv (txt "TCP_PROXY_SEND_QUEUE_LOW_WATERMARK") in
  let max_pending := ReadUnsignedEnv u32_max (txt "TCP_PROXY_SEND_QUEUE_MAX_PENDING") 16384 in
  let high := ReadUnsignedEnv u32_max (txt "TCP_PROXY_SEND_QUEUE_HIGH_WATERMARK") 8192 in
  let low := ReadUnsignedEnv u32_max (txt "TCP_PROXY_SEND_QUEUE_LOW_WATERMARK") 2048 in
  let high_bytes := ReadUnsignedEnv u64_max (txt "TCP_PROXY_SEND_QUEUE_HIGH_BYTES") 0 in
  let low_bytes := ReadUnsignedEnv u64_max (txt "TCP_PROXY_SEND_QUEUE_LOW_BYTES") 0 in
  let low_bytes := if negb (high_bytes =? 0) && (high_bytes <? low_bytes) then high_bytes else low_bytes in
  let limit := ReadUnsignedEnv u64_max (txt "TCP_PROXY_PAUSED_RECV_BYTE_LIMIT") (1024 * 1024) in
  let disconnect := negb (ReadUnsignedEnv u32_max (txt "TCP_PROXY_DISCONNECT_ON_HIGH_WATERMARK") 0 =? 0) in
  ApplyBackpressureWatermarkDefaults high_set low_set (mkBackpressure max_pending high low high_bytes low_bytes limit disconnect).

(** Source: app/examples/proxy/tcp_reverse_proxy/src/TcpReverseProxyConfig.cpp:302-433, LoadConfigFromEnv. *)
Definition LoadConfigFromEnv : TcpProxyConfig * AcmeHttpChallengeConfig :=
  let routes := ReadUpstreamRoutesEnv (getenv (txt "TCP_PROXY_UPSTREAM_ROUTES")) ++
                ReadUpstreamRoutesFileEnv open (getenv (txt "TCP_PROXY_UPSTREAM_ROUTES_FILE")) in
  let u32 n fallback := ReadUnsignedEnv u32_max (txt n) fallback in
  let ring := mkRingOptions (u32 "TCP_PROXY_RING_QUEUE_DEPTH" 2048) (u32 "TCP_PROXY_RING_BUF_COUNT" 4096)
                (u32 "TCP_PROXY_RING_BUF_SIZE" 4096) (u32 "TCP_PROXY_RING_SUBMIT_BATCH" 1)
                (u32 "TCP_PROXY_RING_CQE_BATCH_BUDGET" 0) (ReadMillisecondsEnv (txt "TCP_PROXY_RING_IO_TIMEOUT_MS") 1) in
  let config := mkTcpProxyConfig
    (ReadStringEnv (txt "TCP_PROXY_LISTEN_HOST") (txt "0.0.0.0"))
    (ReadUnsignedEnv u16_max (txt "TCP_PROXY_LISTEN_PORT") 18080)
    (ReadStringEnv (txt "TCP_PROXY_UPSTREAM_HOST") (txt "127.0.0.1"))
    (ReadUnsignedEnv u16_max (txt "TCP_PROXY_UPSTREAM_PORT") 8080)
    routes
    (ReadStringEnv (txt "TCP_PROXY_TLS_CERT_FILE") [])
    (ReadStringEnv (txt "TCP_PROXY_TLS_KEY_FILE") [])
    (u32 "TCP_PROXY_TLS_PENDING_PLAINTEXT_LIMIT" (16 * 1024 * 1024))
    (ReadStringEnv (txt "TCP_PROXY_METRICS_FILE") (txt "/run/iouring-runtime/tcp_reverse_proxy.metrics.json"))
    (ReadMillisecondsEnv (txt "TCP_PROXY_METRICS_INTERVAL_MS") 1000)
    (ReadUnsignedEnv u16_max (txt "TCP_PROXY_WORKERS") 1)
    (ReadWorkerAffinityEnv (txt "TCP_PROXY_WORKER_AFFINITY") kOff)
    (u32 "TCP_PROXY_MAX_SESSIONS_PER_WORKER" 0)
    (u32 "TCP_PROXY_PENDING_CONNECT_BUFFER_LIMIT" (256 * 1024))
    ring
    (ReadMillisecondsEnv (txt "TCP_PROXY_INACTIVITY_TIMEOUT_MS") 30000)
    (ReadMillisecondsEnv (txt "TCP_PROXY_CONNECT_TIMEOUT_MS") 3000)
    LoadBackpressure in
  let acme := mkAcmeConfig
    (ReadStringEnv (txt "TCP_PROXY_CERTBOT_CHALLENGE_HOST") (txt "0.0.0.0"))
    (ReadUnsignedEnv u16_max (txt "TCP_PROXY_CERTBOT_CHALLENGE_PORT") 0)
    (ReadStringEnv (txt "TCP_PROXY_CERTBOT_CHALLENGE_WEBROOT") [])
    (max_sessions_per_worker config) (send_queue_max_pending LoadBackpressure) (inactivity config) (io_timeout ring) in
  (config, acme).

End Load.

(** ** Texts of routes *)

Lemma skip_spaces_length s : (length (skip_spaces s) ≤ length s)%nat.
Proof. induction s as [|b s IH]; cbn; [done|]. destruct (isspace b); cbn; lia. Qed.

Lemma skip_spaces_id s : match s with b :: _ => isspace b = false | [] => True end → skip_spaces s = s.
Proof. destruct s as [|b s]; cbn; [done|]. by intros ->. Qed.

(** A text that neither starts nor ends with a space. *)
Lemma Trim_id s : match s with b :: _ => isspace b = false | [] => True end →
  match reverse s with b :: _ => isspace b = false | [] => True end → Trim s = s.
Proof. intros H1 H2. unfold Trim. by rewrite (skip_spaces_id s), skip_spaces_id, reverse_involutive. Qed.

Lemma Trim_id_inv s : Trim s = s → match s with b :: _ => isspace b = false | [] => True end ∧
  match reverse s with b :: _ => isspace b = false | [] => True end.
Proof.
  intros E. assert (Hs : skip_spaces s = s).
  { destruct s as [|b s]; [done|]. cbn. destruct (isspace b) eqn:Eb; [|done]. exfalso. apply (f_equal length) in E.
    unfold Trim in E. cbn [skip_spaces] in E. rewrite Eb, length_reverse in E. cbn [length] in E.
    pose proof (skip_spaces_length (reverse (skip_spaces s))) as Hl. pose proof (skip_spaces_length s). rewrite length_reverse in Hl. lia. }
  split.
  - destruct s as [|b s]; [done|]. cbn in Hs. destruct (isspace b); [|done]. apply (f_equal length) in Hs.
    pose proof (skip_spaces_length s). cbn in Hs. lia.
  - unfold Trim in E. rewrite Hs in E. apply (f_equal reverse) in E. rewrite reverse_involutive in E.
    destruct (reverse s) as [|b r]; [done|]. cbn in E. destruct (isspace b); [|done]. apply (f_equal length) in E.
    pose proof (skip_spaces_length r). cbn in E. lia.
Qed.

Lemma digit_no_space b : is_digit b = true → isspace b = false.
Proof.
  unfold is_digit, isspace. intros [H1%Z.leb_le H2%Z.leb_le]%andb_prop. rewrite bool_decide_false.
  - cbn. apply andb_false_iff. right. apply Z.leb_gt. lia.
  - intros ->. vm_compute in H1. done.
Qed.

Lemma digit_no_sign b c : is_digit b = true → is_digit c = false → b ≠ c.
Proof. congruence. Qed.

(** The text of a port is read back. *)
Lemma Trim_port n : 0 ≤ n → Trim (to_string n) = to_string n.
Proof.
  intros Hn. destruct (to_string_value n Hn) as (_ & Hd & Hne). apply Trim_id.
  - destruct Hd as [|b ds Hb _]; [done|]. by apply digit_no_space.
  - apply Forall_reverse in Hd. destruct Hd as [|b ds Hb _]; [done|]. by apply digit_no_space.
Qed.

Lemma ParseUnsigned_to_string limit n : 0 ≤ n ≤ limit → limit < 2 ^ 64 → ParseUnsigned limit (to_string n) = Some n.
Proof.
  intros Hn Hl. unfold ParseUnsigned. rewrite Trim_port by lia. destruct (to_string_value n ltac:(lia)) as (_ & _ & Hne).
  rewrite bool_decide_false by done. rewrite <- (app_nil_r (to_string n)), from_chars_to_string by (try done; lia).
  rewrite (proj2 (Z.leb_le _ _)) by lia. by rewrite (proj2 (Z.ltb_ge _ _)) by lia.
Qed.

(** How a route is written: an address with colons stands in brackets. *)
Definition print_target (host : bytes) (port : Z) : bytes :=
  if bool_decide (":"%char ∈ host) then txt "[" ++ host ++ txt "]:" ++ to_string port else host ++ txt ":" ++ to_string port.
Definition print_route (r : upstream_route) : bytes := hostname r ++ txt "=" ++ print_target (upstream_host r) (upstream_port r).

(** Routes that can be written. *)
Definition plain (s : bytes) : Prop := Forall (λ b, b ≠ ","%char ∧ b ≠ "#"%char ∧ b ≠ "010"%char) s.
Record route_text (r : upstream_route) : Prop := {
  rt_name : hostname r ≠ [] ∧ Trim (hostname r) = hostname r ∧ ("="%char ∉ hostname r) ∧ plain (hostname r);
  rt_host : upstream_host r ≠ [] ∧ Trim (upstream_host r) = upstream_host r ∧ plain (upstream_host r) ∧
    ("]"%char ∉ upstream_host r) ∧ head (upstream_host r) ≠ Some "["%char;
  rt_port : 0 < upstream_port r < 2 ^ 16;
}.

Lemma last_digits s n : 0 ≤ n → ∃ b r, is_digit b = true ∧ reverse (s ++ to_string n) = b :: r.
Proof.
  intros Hn. destruct (to_string_value n Hn) as (_ & Hd & Hne). rewrite reverse_app. apply Forall_reverse in Hd.
  destruct (reverse (to_string n)) as [|b ds] eqn:E.
  - exfalso. apply Hne. by rewrite <- (reverse_involutive (to_string n)), E.
  - apply Forall_cons in Hd as [Hb _]. by exists b, (ds ++ reverse s).
Qed.

Lemma digits_free c n : 0 ≤ n → is_digit c = false → c ∉ to_string n.
Proof.
  intros Hn Hc Hin. destruct (to_string_value n Hn) as (_ & Hd & _). rewrite Forall_forall in Hd. specialize (Hd c Hin). congruence.
Qed.

(** A text that starts with one that starts with no space and ends with digits. *)
Lemma Trim_to_digits b s n : isspace b = false → 0 ≤ n → Trim (b :: s ++ to_string n) = b :: s ++ to_string n.
Proof.
  intros Hb Hn. apply Trim_id; [done|]. destruct (last_digits (b :: s) n Hn) as (d & r & Hd & E). cbn [app] in E. rewrite E.
  by apply digit_no_space.
Qed.

Lemma first_no_space s b t : Trim s = s → s = b :: t → isspace b = false.
Proof. intros E ->. by apply Trim_id_inv in E as [E _]. Qed.

Lemma target_read_back r : route_text r →
  ParseUpstreamTarget (print_target (upstream_host r) (upstream_port r)) = Some (upstream_host r, upstream_port r).
Proof.
  intros [_ (Hne & Ht & _ & Hb & Hh) Hp]. unfold ParseUpstreamTarget.
  assert (Hs : split_target (Trim (print_target (upstream_host r) (upstream_port r))) = Some (upstream_host r, to_string (upstream_port r))).
  { unfold print_target. case_bool_decide as Hc.
    - change (txt "[" ++ ?x) with ("["%char :: x). change (txt "]:" ++ ?x) with ("]"%char :: ":"%char :: x).
      replace (upstream_host r ++ "]"%char :: ":"%char :: to_string (upstream_port r))
        with ((upstream_host r ++ txt "]:") ++ to_string (upstream_port r)) by (by rewrite <- app_assoc).
      rewrite Trim_to_digits by (done || lia). cbn [split_target]. rewrite decide_True by done. rewrite <- app_assoc.
      change (txt "]:" ++ ?x) with ("]"%char :: ":"%char :: x). by rewrite split_at_app.
    - destruct (upstream_host r) as [|b h] eqn:E; [done|]. replace ((b :: h) ++ txt ":" ++ to_string (upstream_port r))
        with (b :: (h ++ txt ":") ++ to_string (upstream_port r)) by (cbn; by rewrite <- app_assoc).
      rewrite Trim_to_digits by (try lia; by eapply first_no_space). cbn [split_target]. rewrite decide_False by (cbn in Hh; congruence).
      unfold rsplit_at. replace (b :: (h ++ txt ":") ++ to_string (upstream_port r)) with ((b :: h) ++ ":"%char :: to_string (upstream_port r))
        by (cbn; by rewrite <- app_assoc).
      rewrite reverse_app, reverse_cons, <- app_assoc. cbn [app]. rewrite split_at_app; [|rewrite elem_of_reverse; apply digits_free; [lia|done]].
      cbn [mbind option_bind]. by rewrite !reverse_involutive. }
  rewrite Hs. cbn [mbind option_bind]. rewrite Ht, bool_decide_false by done. rewrite ParseUnsigned_to_string by lia.
  cbn [mbind option_bind]. by rewrite (proj2 (Z.eqb_neq _ _)) by lia.
Qed.

Lemma print_route_trim r : route_text r → Trim (print_route r) = print_route r ∧ print_route r ≠ [].
Proof.
  intros [(Hne & Ht & _) _ Hp]. destruct (hostname r) as [|b h] eqn:E; [done|].
  assert (Hd : ∃ s, print_route r = b :: s ++ to_string (upstream_port r)).
  { unfold print_route, print_target. rewrite E. case_bool_decide.
    - exists (h ++ txt "=" ++ txt "[" ++ upstream_host r ++ txt "]:"). do 3 (cbn; rewrite <- ?app_assoc). done.
    - exists (h ++ txt "=" ++ upstream_host r ++ txt ":"). do 3 (cbn; rewrite <- ?app_assoc). done. }
  destruct Hd as [s ->]. split; [|done]. apply Trim_to_digits; [by eapply first_no_space|lia].
Qed.

Lemma route_read_back r routes : route_text r → AppendRouteToken routes (print_route r) = routes ++ [r].
Proof.
  intros Hr. destruct (print_route_trim r Hr) as [Et Hne]. unfold AppendRouteToken. rewrite Et, bool_decide_false by done.
  pose proof (target_read_back r Hr) as Htg. destruct Hr as [(Hn & Ht & Heq & _) _ _]. unfold ParseRouteAssignment, print_route.
  change (txt "=" ++ ?x) with ("="%char :: x). rewrite split_at_app by done. cbn [mbind option_bind]. rewrite Htg. cbn [mbind option_bind].
  rewrite Ht, bool_decide_false by done. by destruct r.
Qed.

(** Routes on a line. *)
Fixpoint joined (rs : list upstream_route) : bytes :=
  match rs with
  | [] => []
  | [r] => print_route r
  | r :: rs => print_route r ++ txt "," ++ joined rs
  end.

Lemma plain_route r : route_text r → plain (print_route r).
Proof.
  intros [(_ & _ & _ & P1) (_ & _ & P2 & _) Hp]. unfold print_route.
  assert (Hd : plain (to_string (upstream_port r))).
  { apply Forall_forall. intros b Hb. split_and!; intros ->; (eapply (digits_free _ (upstream_port r)); [lia| |exact Hb]; done). }
  unfold plain, print_target in *. case_bool_decide; repeat (apply Forall_app; split); try done; repeat constructor; done.
Qed.

Lemma plain_free s c : plain s → c = ","%char ∨ c = "#"%char ∨ c = "010"%char → c ∉ s.
Proof. unfold plain. rewrite Forall_forall. intros Hs Hc Hin. specialize (Hs c Hin). naive_solver. Qed.

Lemma joined_tokens rs : Forall route_text rs → getline_by ","%char [] (joined rs) = print_route <$> rs.
Proof.
  induction 1 as [|r rs Hr Hrs IH]; [done|]. pose proof (plain_free _ ","%char (plain_route r Hr) (or_introl eq_refl)) as Hc.
  destruct rs as [|r' rs].
  - cbn [joined]. rewrite getline_by_last; [done|done|]. by apply print_route_trim.
  - change (joined (r :: r' :: rs)) with (print_route r ++ ","%char :: joined (r' :: rs)). rewrite getline_by_app by done. by rewrite IH.
Qed.

Lemma tokens_read_back rs routes : Forall route_text rs → append_tokens routes (joined rs) = routes ++ rs.
Proof.
  intros Hrs. unfold append_tokens. rewrite joined_tokens by done. revert routes.
  induction Hrs as [|r rs Hr _ IH]; intros routes; cbn; [by rewrite app_nil_r|]. rewrite route_read_back, IH by done. by rewrite <- app_assoc.
Qed.

(** A file: on each line some routes and a comment. *)
Definition line_text (l : list upstream_route * bytes) : bytes := joined l.1 ++ txt "#" ++ l.2.
Definition file_text (ls : list (list upstream_route * bytes)) : bytes := concat (map (λ l, l ++ ["010"%char]) (map line_text ls)).

Lemma joined_free rs c : Forall route_text rs → c = "#"%char ∨ c = "010"%char → c ∉ joined rs.
Proof.
  intros Hrs Hc. induction Hrs as [|r rs Hr Hrs IH]; [apply not_elem_of_nil|].
  assert (Hr' : c ∉ print_route r) by (apply plain_free; [by apply plain_route|naive_solver]).
  destruct rs as [|r' rs]; [done|]. change (joined (r :: r' :: rs)) with (print_route r ++ txt "," ++ joined (r' :: rs)). rewrite !elem_of_app. intros [?|[Hin|?]]; [done| |done].
  change (txt ",") with [","%char] in Hin. apply list_elem_of_singleton in Hin. destruct Hc; congruence.
Qed.

(** Routes that are written to the variable, or to the file with any comments, are read back as
    they are, in order. *)
Theorem routes_read_back (open : bytes → option bytes) path rs ls :
  Forall route_text rs → Forall (λ l, Forall route_text l.1 ∧ "010"%char ∉ l.2) ls → path ≠ [] → open path = Some (file_text ls) →
  ReadUpstreamRoutesEnv (Some (joined rs)) = rs ∧ ReadUpstreamRoutesFileEnv open (Some path) = concat ls.*1.
Proof.
  intros Hrs Hls Hp Ho. split; [by apply tokens_read_back|]. unfold ReadUpstreamRoutesFileEnv. rewrite bool_decide_false, Ho by done.
  unfold file_text. rewrite getlines_lines.
  - clear Ho. change (concat ls.*1) with ([] ++ concat ls.*1). generalize (@nil upstream_route). induction Hls as [|[l c] ls [Hl Hc] _ IH]; intros acc.
    { by rewrite app_nil_r. }
    cbn [map foldl]. assert (without_comment (line_text (l, c)) = joined l) as ->.
    { unfold without_comment, line_text. change (txt "#" ++ ?x) with ("#"%char :: x). rewrite split_at_app; [done|]. apply joined_free; [done|by left]. }
    rewrite tokens_read_back by done. rewrite IH. cbn. by rewrite <- app_assoc.
  - rewrite Forall_map. eapply Forall_impl; [exact Hls|]. intros [l c] [Hl Hc]. cbn in Hl, Hc. change (line_text (l, c)) with (joined l ++ "#"%char :: c).
    rewrite elem_of_app, elem_of_cons. intros [Hin|[Hin|Hin]]; [|done|done]. by apply (joined_free l "010"%char Hl) in Hin; [|right].
Qed.

(** A number from the environment fits its type. *)
Lemma ReadUnsignedEnv_range getenv limit n f : 0 ≤ f ≤ limit → 0 ≤ ReadUnsignedEnv getenv limit n f ≤ limit.
Proof.
  intros Hf. unfold ReadUnsignedEnv. destruct (getenv n) as [raw|]; [|done]. unfold ParseUnsigned.
    case_bool_decide; [done|]. unfold from_chars. destruct (match Trim raw with b :: t => _ | [] => _ end) as [neg t].
    destruct (digits_prefix t) as [[|d ds] rest]; [done|]. generalize ((if neg : bool then -1 else 1) * digits_value (d :: ds)). intros v.
    destruct (_ && _) eqn:Ev; [|done]. destruct rest; [|done].
    apply andb_prop in Ev as [E1%Z.leb_le E2%Z.leb_le]. destruct (_ <? _) eqn:El; [done|]. apply Z.ltb_ge in El. change (default f (Some v)) with v. lia.
Qed.

(** The limits of the send queues: whatever the variables say, the low marks are not above the
    high ones, and the high mark is below the limit of the queue unless that is 1. *)
Theorem watermarks_ordered getenv : let b := LoadBackpressure getenv in
  (send_queue_max_pending b ≠ 0 → send_queue_low_watermark b ≤ send_queue_high_watermark b ∧
    (send_queue_max_pending b ≠ 1 → send_queue_high_watermark b < send_queue_max_pending b)) ∧
  (send_queue_high_bytes b ≠ 0 → send_queue_low_bytes b ≤ send_queue_high_bytes b) ∧
  0 ≤ send_queue_max_pending b < 2 ^ 32.
Proof.
  intros b. pose proof (ReadUnsignedEnv_range getenv) as Hrange.
  unfold b, LoadBackpressure. pose proof (Hrange u32_max (txt "TCP_PROXY_SEND_QUEUE_MAX_PENDING") 16384 ltac:(unfold u32_max; lia)) as H1.
  pose proof (Hrange u32_max (txt "TCP_PROXY_SEND_QUEUE_HIGH_WATERMARK") 8192 ltac:(unfold u32_max; lia)) as H2.
  pose proof (Hrange u32_max (txt "TCP_PROXY_SEND_QUEUE_LOW_WATERMARK") 2048 ltac:(unfold u32_max; lia)) as H3.
  generalize dependent (ReadUnsignedEnv getenv u32_max (txt "TCP_PROXY_SEND_QUEUE_MAX_PENDING") 16384). intros mx H1.
  generalize dependent (ReadUnsignedEnv getenv u32_max (txt "TCP_PROXY_SEND_QUEUE_HIGH_WATERMARK") 8192). intros hi H2.
  generalize dependent (ReadUnsignedEnv getenv u32_max (txt "TCP_PROXY_SEND_QUEUE_LOW_WATERMARK") 2048). intros lo H3.
  generalize (ReadUnsignedEnv getenv u64_max (txt "TCP_PROXY_SEND_QUEUE_HIGH_BYTES") 0), (ReadUnsignedEnv getenv u64_max (txt "TCP_PROXY_SEND_QUEUE_LOW_BYTES") 0).
  intros hb lb. generalize (HasEnv getenv (txt "TCP_PROXY_SEND_QUEUE_HIGH_WATERMARK")), (HasEnv getenv (txt "TCP_PROXY_SEND_QUEUE_LOW_WATERMARK")).
  intros hs ls. unfold ApplyBackpressureWatermarkDefaults, u32_max in *. cbn [send_queue_max_pending send_queue_high_watermark send_queue_low_watermark].
  assert (Hb : hb ≠ 0 → (if negb (hb =? 0) && (hb <? lb) then hb else lb) ≤ hb).
  { intros Hb. rewrite (proj2 (Z.eqb_neq _ _)) by done. cbn. destruct (Z.ltb_spec hb lb); lia. }
  assert (Hd : ∀ x, 0 ≤ x → 0 ≤ x / 4 ≤ x) by (intros x Hx; split; [apply Z.div_pos; lia|apply Z.div_le_upper_bound; lia]).
  assert (Hm : mx ≠ 0 → mx ≠ 1 → 1 ≤ mx / 2 < mx) by (intros; split; [apply Z.div_le_lower_bound; lia|apply Z.div_lt; lia]).
  destruct (Z.eqb_spec mx 0) as [->|Hmx]; cbn; [split_and!; [done|done|lia|lia]|]. split_and!; [|exact Hb|lia|lia]. intros _.
  set (high := if negb hs || (mx <=? hi) then Z.max 1 (mx / 2) else hi).
  assert (Hh : 0 ≤ high ∧ (mx ≠ 1 → high < mx)).
  { unfold high. destruct (negb hs || (mx <=? hi)) eqn:E; [split; [lia|intros; pose proof (Hm Hmx ltac:(done)); lia]|].
    apply orb_false_iff in E as [_ E%Z.leb_gt]. split; lia. }
  split; [|apply Hh]. destruct (negb ls || (high <? lo)) eqn:E; [pose proof (Hd high ltac:(lia)); lia|].
  apply orb_false_iff in E as [_ E%Z.ltb_ge]. lia.
Qed.

(** Two routes on a line, one of them to an address with colons. *)
Example two_routes : append_tokens [] (txt " a.example = 10.0.0.1:80, *.b.example=[::1]:8443,bad") =
  [mkRoute (txt "a.example") (txt "10.0.0.1") 80; mkRoute (txt "*.b.example") (txt "::1") 8443].
Proof. vm_compute. done. Qed.
