(* ===== verification/Inbox.v ===== *)
(** * The webhook inbox

    [app/examples/web/webhook_inbox/src/main.cpp]: events that arrive over HTTP are classified,
    appended to a log and kept in memory; the log is read when the program starts.

    Several functions are, word for word, those of the drop application, whose model is used.
    The clock, the random numbers and whether the log can be opened are arguments; what is
    written to an opened log is written whole. *)

From S2P Require Import Prelude Text Paths HttpRequest Hls DropMeta ActivityText.

#[local] Open Scope Z_scope.
#[local] Set Warnings "-clear-no-such-hyp".

(** Source: app/examples/web/webhook_inbox/src/main.cpp:34-51, WebhookEvent. *)
Record WebhookEvent := mkEvent {
  ev_id : bytes;
  inbox : bytes;
  service : bytes;
  event_type : bytes;
  ev_status : bytes;
  source : bytes;
  message : bytes;
  delivery_id : bytes;
  ev_method : bytes;
  ev_path : bytes;
  ev_query : bytes;
  content_type : bytes;
  ev_remote : bytes;
  ev_size : Z;
  received_at : Z;
  ev_expires : Z;
}.

#[export] Instance WebhookEvent_eq : EqDecision WebhookEvent.
Proof. solve_decision. Defined.

(** ** Texts *)

(** Source: app/examples/web/webhook_inbox/src/main.cpp:65-81, JsonEscape. *)
Definition JsonEscape : bytes → bytes := DropMeta.JsonEscape.

(** Source: app/examples/web/webhook_inbox/src/main.cpp:126-154, ExtractJsonString. *)
Definition ExtractJsonString : bytes → bytes → option bytes := DropMeta.ExtractJsonString.

(** Source: app/examples/web/webhook_inbox/src/main.cpp:156-176, ExtractJsonUint. *)
Definition ExtractJsonUint : bytes → bytes → option Z := DropMeta.ExtractJsonUint.

(** Source: app/examples/web/webhook_inbox/src/main.cpp:206-213, SafeId. *)
Definition SafeId : bytes → bool := DropMeta.SafeId.

(** Source: app/examples/web/webhook_inbox/src/main.cpp:215-224, GenerateId. *)
Definition GenerateId : Z → Z → Z → bytes := DropMeta.GenerateId.

(** Source: app/examples/web/webhook_inbox/src/main.cpp:178-186, FirstPresentJsonString. *)
Fixpoint FirstPresentJsonString (json : bytes) (keys : list string) : bytes :=
  match keys with
  | [] => []
  | key :: keys => match ExtractJsonString json (txt key) with Some value => value | None => FirstPresentJsonString json keys end
  end.

(** Source: app/examples/web/webhook_inbox/src/main.cpp:191-196, SafeName. *)
Definition safe_char (ch : byte) : option byte :=
  if isalnum ch || bool_decide (ch = "-"%char) || bool_decide (ch = "_"%char) then Some (ToLower ch)
  else if bool_decide (ch = "."%char) || bool_decide (ch = " "%char) then Some "-"%char else None.

Fixpoint drop_dashes (s : bytes) : bytes :=
  match s with b :: s' => if decide (b = "-"%char) then drop_dashes s' else s | [] => [] end.

(** Source: app/examples/web/webhook_inbox/src/main.cpp:188-204, SafeName. *)
Definition SafeName (raw fallback : bytes) : bytes :=
  let out := reverse (drop_dashes (reverse (drop_dashes (take 80 (omap safe_char raw))))) in
  if bool_decide (out = []) then fallback else out.

(** Source: app/examples/web/webhook_inbox/src/main.cpp:306-313, Truncate. *)
Definition Truncate (value : bytes) (max_size : Z) : bytes :=
  if zlen value <=? max_size then value else ztake max_size value ++ txt "...".

(** Source: app/examples/web/webhook_inbox/src/main.cpp:230-233, HeadersJson. *)
Definition header_json (h : Header) : bytes :=
  txt "{" ++ string_field (txt "name") (header_name h) ++ txt "," ++ string_field (txt "value") (header_value h) ++ txt "}".

(** Source: app/examples/web/webhook_inbox/src/main.cpp:226-237, HeadersJson. *)
Definition HeadersJson (hs : list Header) : bytes := txt "[" ++ HttpRequest.join ","%char (header_json <$> hs) ++ txt "]".

(** Source: app/examples/web/webhook_inbox/src/main.cpp:240-265, EventJson. *)
Definition EventJson (e : WebhookEvent) (headers_json : bytes) (body : option bytes) : bytes :=
  txt "{" ++ string_field (txt "id") (ev_id e) ++
  txt "," ++ string_field (txt "inbox") (inbox e) ++
  txt "," ++ string_field (txt "service") (service e) ++
  txt "," ++ string_field (txt "event_type") (event_type e) ++
  txt "," ++ string_field (txt "status") (ev_status e) ++
  txt "," ++ string_field (txt "source") (source e) ++
  txt "," ++ string_field (txt "message") (message e) ++
  txt "," ++ string_field (txt "delivery_id") (delivery_id e) ++
  txt "," ++ string_field (txt "method") (ev_method e) ++
  txt "," ++ string_field (txt "path") (ev_path e) ++
  txt "," ++ string_field (txt "query") (ev_query e) ++
  txt "," ++ string_field (txt "content_type") (content_type e) ++
  txt "," ++ string_field (txt "remote_addr") (ev_remote e) ++
  txt "," ++ field (txt "size") ++ to_string (ev_size e) ++
  txt "," ++ field (txt "received_at") ++ to_string_i (received_at e) ++
  txt "," ++ field (txt "expires_at") ++ to_string_i (ev_expires e) ++
  txt "," ++ field (txt "headers") ++ headers_json ++
  match body with Some b => txt "," ++ string_field (txt "body") b | None => [] end ++ txt "}".

(** Source: app/examples/web/webhook_inbox/src/main.cpp:267-304, ParseEvent.
    The text of [inbox] is moved into the event before [service.value_or] reads it: a missing
    service is given what a moved text holds, the empty text of the library in use. *)
Definition ParseEvent (json : bytes) : option WebhookEvent :=
  let str key := ExtractJsonString json (txt key) in
  let num key := ExtractJsonUint json (txt key) in
  i ← str "id"; b ← str "inbox"; m ← str "method"; p ← str "path"; q ← str "query";
  c ← str "content_type"; r ← str "remote_addr"; s ← num "size"; t ← num "received_at"; x ← num "expires_at";
  Some (mkEvent i b (default [] (str "service")) (default (txt "webhook") (str "event_type"))
          (default (txt "received") (str "status")) (default [] (str "source")) (default [] (str "message"))
          (default [] (str "delivery_id")) m p q c r s (i64 t) (i64 x)).

(** ** Classification *)

Definition or_else (value fallback : bytes) : bytes := if bool_decide (value = []) then fallback else value.

(** Source: app/examples/web/webhook_inbox/src/main.cpp:356-362, ClassifyEvent. *)
Definition github_message (action ref : bytes) : bytes :=
  if bool_decide (action ≠ [] ∧ ref ≠ []) then action ++ txt " on " ++ ref
  else if bool_decide (action ≠ []) then action else ref.

(** Source: app/examples/web/webhook_inbox/src/main.cpp:319-382, ClassifyEvent.
    [ms], [seq] and [random] give the identifier. *)
Definition ClassifyEvent (r : HttpRequest) (remote : bytes) (now ms seq random : Z) (svc box : bytes) (ttl : Z) : WebhookEvent :=
  let json := body r in
  let first := FirstPresentJsonString json in
  let path_tail := Param r (txt "path") in
  let svc := SafeName svc (txt "custom") in
  let '(type, st, src, msg, delivery) :=
    if bool_decide (svc = txt "github") then
      (or_else (GetHeader r (txt "X-GitHub-Event")) (txt "github"),
       or_else (first ["conclusion"; "status"; "state"]) (txt "received"),
       first ["full_name"; "name"; "repository"],
       github_message (first ["action"]) (first ["ref"; "head_branch"]),
       GetHeader r (txt "X-GitHub-Delivery"))
    else if bool_decide (svc = txt "argocd") then
      (or_else (first ["eventType"; "type"; "reason"]) (txt "argocd"),
       or_else (first ["phase"; "sync_status"; "health_status"; "status"]) (txt "received"),
       first ["appName"; "application"; "name"],
       first ["message"; "summary"; "description"], [])
    else
      (or_else (first ["event"; "type"; "action"]) svc,
       or_else (first ["status"; "state"; "phase"]) (txt "received"),
       first ["source"; "app"; "name"],
       first ["message"; "summary"; "description"], []) in
  mkEvent (GenerateId ms seq random) box svc type st (Truncate src 120) (Truncate msg 240) delivery
    (HttpMethodToString (method r)) (if bool_decide (path_tail = []) then txt "/" else txt "/" ++ path_tail)
    (query r) (ContentType r) remote (zlen json) now (now + i64 ttl).

(** ** The store *)

(** Source: app/examples/web/webhook_inbox/src/main.cpp:396-399, InboxStore::EventRecord. *)
Record EventRecord := mkEventRecord { event : WebhookEvent; json : bytes }.

(** Source: app/examples/web/webhook_inbox/src/main.cpp:537-540, InboxStore.
    [log_] is the contents of the log. *)
Record InboxStore := mkStore { by_id_ : list EventRecord; log_ : bytes }.

Definition erase_id (i : bytes) (rs : list EventRecord) : list EventRecord := filter (λ r, ev_id (event r) ≠ i) rs.

(** Source: app/examples/web/webhook_inbox/src/main.cpp:418-433, InboxStore::Init.
    A line of the log. *)
Definition init_line (rs : list EventRecord) (line : bytes) : list EventRecord :=
  match ExtractJsonString line (txt "deleted_id") with
  | Some i => erase_id i rs
  | None => match ParseEvent line with Some e => rs ++ [mkEventRecord e line] | None => rs end
  end.

(** Source: app/examples/web/webhook_inbox/src/main.cpp:406-435, InboxStore::Init.
    From the contents of the log; one that is not there is made empty. *)
Definition Init (log : bytes) : InboxStore := mkStore (foldl init_line [] (getlines [] log)) log.

(** Source: app/examples/web/webhook_inbox/src/main.cpp:437-451, InboxStore::Put. *)
Definition Put (opens : bool) (e : WebhookEvent) (headers_json body : bytes) (s : InboxStore) : InboxStore * bool :=
  let line := EventJson e headers_json (Some body) in
  if negb opens then (s, false) else
  (mkStore (by_id_ s ++ [mkEventRecord e line]) (log_ s ++ line ++ ["010"%char]), true).

(** Source: app/examples/web/webhook_inbox/src/main.cpp:453-462, InboxStore::Read. *)
Definition find_live (now : Z) (i : bytes) (s : InboxStore) : option EventRecord :=
  if negb (SafeId i) then None else
  snd <$> list_find (λ r, ev_id (event r) = i ∧ now < ev_expires (event r)) (reverse (by_id_ s)).

(** Source: app/examples/web/webhook_inbox/src/main.cpp:464-473, InboxStore::ReadEventJson. *)
Definition ReadEventJson (now : Z) (i : bytes) (s : InboxStore) : bytes := from_option json [] (find_live now i s).

(** Source: app/examples/web/webhook_inbox/src/main.cpp:484-499, InboxStore::List. *)
Definition listed (now : Z) (svc qry : bytes) (e : WebhookEvent) : bool :=
  if ev_expires e <=? now then false else
  if bool_decide (svc ≠ [] ∧ service e ≠ svc) then false else
  if bool_decide (qry = []) then true else
  let haystack := SafeName (service e ++ txt " " ++ event_type e ++ txt " " ++ ev_status e ++ txt " " ++ source e ++ txt " " ++ message e) [] in
  bool_decide (is_Some (split_sub qry haystack)).

(** Source: app/examples/web/webhook_inbox/src/main.cpp:475-506, InboxStore::List.
    The loop stops after an event when it has [limit]. *)
Definition store_List (now : Z) (svc qry : bytes) (limit : Z) (s : InboxStore) : list WebhookEvent :=
  take (Z.to_nat (Z.max 1 limit)) (filter (λ e, listed now (SafeName svc []) (SafeName qry []) e = true) (event <$> reverse (by_id_ s))).

Definition deleted_line (now : Z) (i : bytes) : bytes :=
  txt "{" ++ string_field (txt "deleted_id") i ++ txt "," ++ field (txt "deleted_at") ++ to_string_i now ++ txt "}".

(** Source: app/examples/web/webhook_inbox/src/main.cpp:508-525, InboxStore::Remove. *)
Definition store_Remove (opens : bool) (now : Z) (i : bytes) (s : InboxStore) : InboxStore * bool :=
  if negb (SafeId i) then (s, false) else
  let rest := erase_id i (by_id_ s) in
  if bool_decide (length rest = length (by_id_ s)) then (s, false) else
  (mkStore rest (if opens then log_ s ++ deleted_line now i ++ ["010"%char] else log_ s), true).

(** Source: app/examples/web/webhook_inbox/src/main.cpp:527-534, InboxStore::CleanupExpired. *)
Definition CleanupExpired (now : Z) (s : InboxStore) : InboxStore :=
  mkStore (filter (λ r, now < ev_expires (event r)) (by_id_ s)) (log_ s).

(** ** Requests *)

(** Source: app/examples/web/webhook_inbox/src/main.cpp:587-594, Authorized. *)
Definition Authorized (r : HttpRequest) (token : bytes) : bool :=
  bool_decide (token = []) || bool_decide (GetHeader r (txt "Authorization") = txt "Bearer " ++ token).

(** What is answered: a text, JSON, or nothing. *)
Inductive answer := Text (status : Z) (body : bytes) | Json (status : Z) (body : bytes) | Empty (status : Z).

(** Source: app/examples/web/webhook_inbox/src/main.cpp:654-676, CaptureWebhook. *)
Definition CaptureWebhook (opens : bool) (r : HttpRequest) (remote : bytes) (now ms seq random ttl : Z) (svc box : bytes)
    (s : InboxStore) : InboxStore * answer :=
  let s := CleanupExpired now s in
  let safe_service := SafeName svc (txt "custom") in
  let e := ClassifyEvent r remote now ms seq random safe_service (SafeName box safe_service) ttl in
  let '(s, ok) := Put opens e (HeadersJson (headers_ r)) (body r) s in
  if negb ok then (s, Text 500 (txt "store failed")) else
  (s, Json 201 (txt "{" ++ string_field (txt "id") (ev_id e) ++ txt "," ++ string_field (txt "service") (service e) ++
        txt "," ++ string_field (txt "event_type") (event_type e) ++ txt "," ++ string_field (txt "status") (ev_status e) ++
        txt "," ++ string_field (txt "source") (source e) ++ txt "," ++ field (txt "size") ++ to_string (ev_size e) ++ txt "}")).

(** Source: app/examples/web/webhook_inbox/src/main.cpp:684-694, ListEvents. *)
Definition limit_of (value : bytes) : Z :=
  if bool_decide (value = []) then 100 else
  match stoull value with Some n => Z.min (Z.max 1 n) 500 | None => 100 end.

(** Source: app/examples/web/webhook_inbox/src/main.cpp:678-705, ListEvents. *)
Definition ListEvents (r : HttpRequest) (now : Z) (token : bytes) (s : InboxStore) : InboxStore * answer :=
  if negb (Authorized r token) then (s, Text 401 (txt "Unauthorized")) else
  let s := CleanupExpired now s in
  let events := store_List now (HttpRequest.QueryParam r (txt "service")) (HttpRequest.QueryParam r (txt "q")) (limit_of (HttpRequest.QueryParam r (txt "limit"))) s in
  (s, Json 200 (txt "[" ++ HttpRequest.join ","%char ((λ e, EventJson e (txt "[]") None) <$> events) ++ txt "]")).

Fixpoint drop_line_ends (s : bytes) : bytes :=
  match s with b :: s' => if bool_decide (b = "010"%char ∨ b = "013"%char) then drop_line_ends s' else s | [] => [] end.

(** Source: app/examples/web/webhook_inbox/src/main.cpp:707-728, GetEvent. *)
Definition GetEvent (r : HttpRequest) (now : Z) (token : bytes) (s : InboxStore) : InboxStore * answer :=
  if negb (Authorized r token) then (s, Text 401 (txt "Unauthorized")) else
  let s := CleanupExpired now s in
  let event_json := ReadEventJson now (Param r (txt "id")) s in
  match ParseEvent event_json with
  | Some e =>
    if ev_expires e <=? now then (s, Text 404 (txt "Not Found")) else
    let event_json := reverse (drop_line_ends (reverse event_json)) in
    let b := default [] (ExtractJsonString event_json (txt "body")) in
    (s, Json 200 (txt "{" ++ field (txt "event") ++ event_json ++ txt "," ++ string_field (txt "body") b ++ txt "}"))
  | None => (s, Text 404 (txt "Not Found"))
  end.

(** Source: app/examples/web/webhook_inbox/src/main.cpp:730-741, DeleteEvent. *)
Definition DeleteEvent (opens : bool) (r : HttpRequest) (now : Z) (token : bytes) (s : InboxStore) : InboxStore * answer :=
  if negb (Authorized r token) then (s, Text 401 (txt "Unauthorized")) else
  let '(s, ok) := store_Remove opens now (Param r (txt "id")) (CleanupExpired now s) in
  if ok then (s, Empty 204) else (s, Text 404 (txt "Not Found")).

(** * What is written is read back *)

(** ** Looking for a key *)

(** What follows the first place where the key is, in quotes. *)
Definition after (k s : bytes) : option bytes := snd <$> split_sub (needle k) s.

(** The characters of keys. *)
Definition key_char (c : byte) : bool := isalnum c || bool_decide (c = "_"%char).
Definition is_key (k : bytes) : Prop := Forall (λ c, key_char c = true) k.

Lemma key_char_clean c : key_char c = true → c ≠ dq ∧ c ≠ backslash ∧ c ≠ " "%char ∧ c ≠ ":"%char ∧ c ≠ ","%char ∧ c ≠ "{"%char.
Proof. destruct c as [[] [] [] [] [] [] [] []]; intros Hc; try discriminate Hc; done. Qed.

Lemma key_free k c : is_key k → key_char c = false → c ∉ k.
Proof. unfold is_key. rewrite Forall_forall. intros Hk Hc Hin. specialize (Hk c Hin). congruence. Qed.

Lemma after_skip k t s : dq ∉ t → after k (t ++ s) = after k s.
Proof.
  intros Ht. unfold after. induction t as [|c t IH]; [done|]. apply not_elem_of_cons in Ht as [Hc Ht]. specialize (IH Ht).
  cbn [app split_sub]. unfold needle at 1. cbn [app strip_prefix]. rewrite decide_False by done. rewrite <- IH.
  by destruct (split_sub _ (t ++ s)) as [[q r]|].
Qed.

Lemma strip_piece k t s : dq ∉ k → dq ∉ t →
  strip_prefix (k ++ [dq]) (t ++ dq :: s) = if decide (t = k) then Some s else None.
Proof.
  revert t. induction k as [|b k IH]; intros t Hk Ht.
  - destruct t as [|c t]; [done|]. apply not_elem_of_cons in Ht as [Hc _]. cbn. by rewrite decide_False.
  - apply not_elem_of_cons in Hk as [Hb Hk]. destruct t as [|c t].
    + cbn. by rewrite decide_False by congruence.
    + apply not_elem_of_cons in Ht as [Hc Ht]. cbn [app strip_prefix]. destruct (decide (b = c)) as [->|Hne].
      * rewrite IH by done. destruct (decide (t = k)) as [->|]; [by rewrite decide_True|by rewrite decide_False by congruence].
      * by rewrite decide_False by congruence.
Qed.

(** A piece between quotes. *)
Lemma after_piece k t s : dq ∉ k → dq ∉ t → after k (dq :: t ++ dq :: s) = if decide (t = k) then Some s else after k (dq :: s).
Proof.
  intros Hk Ht. unfold after at 1. cbn [split_sub]. unfold needle at 1. cbn [app strip_prefix]. rewrite decide_True by done.
  rewrite strip_piece by done. case_decide; [done|]. rewrite <- (after_skip k t (dq :: s)) by done. unfold after.
  by destruct (split_sub _ (t ++ dq :: s)) as [[q r]|].
Qed.

Lemma escape_cases c : (escape c = [c] ∧ c ≠ dq) ∨ backslash ∈ escape c ∨ " "%char ∈ escape c.
Proof. unfold escape. repeat case_decide; [set_solver..|]. destruct (byte_val c <? 32); [set_solver|by left]. Qed.

Lemma JsonEscape_app s t : JsonEscape (s ++ t) = JsonEscape s ++ JsonEscape t.
Proof. apply bind_app. Qed.

(** No other text is written as a key is. *)
Lemma JsonEscape_key k v : is_key k → JsonEscape v = k → v = k.
Proof.
  intros Hk <-. assert (Hfree : (backslash ∉ JsonEscape v) ∧ (" "%char ∉ JsonEscape v)) by (split; by apply key_free).
  clear Hk. induction v as [|c v IH]; [done|]. change (JsonEscape (c :: v)) with (escape c ++ JsonEscape v) in *.
  rewrite !not_elem_of_app in Hfree. destruct Hfree as [[F1 F2] [F3 F4]].
  destruct (escape_cases c) as [[-> _]|[?|?]]; [|done|done]. cbn. f_equal. by apply IH.
Qed.

(** Without quotes in the text there are none in what is written. *)
Lemma JsonEscape_free v : dq ∉ v → dq ∉ JsonEscape v.
Proof.
  induction v as [|c v IH]; intros Hv; [done|]. apply not_elem_of_cons in Hv as [Hc Hv].
  change (JsonEscape (c :: v)) with (escape c ++ JsonEscape v). apply not_elem_of_app. split; [|by apply IH].
  unfold escape. rewrite decide_False by congruence. repeat case_decide; try (by intros [?|[?|?]%elem_of_cons]%elem_of_cons; set_solver).
  destruct (_ <? _); set_solver.
Qed.

(** What follows the last quote of a text. *)
Definition last_part (v : bytes) : bytes := match rsplit_at dq v with Some (_, t) => t | None => v end.

(** A string value is no key unless it ends like one. *)
Lemma after_value k v s : is_key k → last_part v ≠ k → after k (dq :: JsonEscape v ++ dq :: s) = after k (dq :: s).
Proof.
  intros Hk. assert (Hdq : dq ∉ k) by by apply key_free.
  remember (length v) as n eqn:En. revert v En. induction (lt_wf n) as [n _ IH]. intros v -> Hl.
  destruct (split_at dq v) as [[p w]|] eqn:Es.
  - apply split_at_Some in Es as [-> Hp]. rewrite JsonEscape_app.
    change (JsonEscape (dq :: w)) with (backslash :: dq :: JsonEscape w). rewrite <- app_assoc.
    replace (JsonEscape p ++ (backslash :: dq :: JsonEscape w) ++ dq :: s) with ((JsonEscape p ++ [backslash]) ++ dq :: JsonEscape w ++ dq :: s)
      by (by rewrite <- app_assoc).
    rewrite after_piece, decide_False; [| |done|].
    + apply (IH (length w)); [rewrite length_app; cbn; lia|done|]. intros E. apply Hl. rewrite <- E. unfold last_part, rsplit_at.
      rewrite reverse_app, reverse_cons, <- app_assoc. cbn [app]. destruct (split_at dq (reverse w)) as [[a b]|] eqn:E2.
      * apply split_at_Some in E2 as [E2 Ha]. rewrite E2, <- app_assoc. cbn [app]. by rewrite split_at_app.
      * apply split_at_None in E2. rewrite split_at_app by done. cbn. by rewrite reverse_involutive.
    + intros E. apply (key_free k backslash Hk eq_refl). rewrite <- E. apply elem_of_app. right. by left.
    + apply not_elem_of_app. split; [by apply JsonEscape_free|]. by intros ?%list_elem_of_singleton.
  - apply split_at_None in Es. rewrite after_piece, decide_False; [done| |done|by apply JsonEscape_free].
    intros E%JsonEscape_key; [|done]. apply Hl. unfold last_part, rsplit_at.
    rewrite (proj2 (split_at_None dq (reverse v))) by (by rewrite elem_of_reverse). done.
Qed.

(** ** Fields *)

(** A string field up to its closing quote. *)
Lemma after_string k k' v s : is_key k → is_key k' → last_part v ≠ k →
  after k (string_field k' v ++ s) = if decide (k' = k) then Some (":"%char :: dq :: JsonEscape v ++ dq :: s) else after k (dq :: s).
Proof.
  intros Hk Hk' Hv. assert (Hdq : dq ∉ k) by by apply key_free. assert (Hdq' : dq ∉ k') by by apply key_free.
  unfold string_field, field, needle. change DropMeta.JsonEscape with JsonEscape.
  replace (((([dq] ++ k' ++ [dq]) ++ [":"%char]) ++ [dq] ++ JsonEscape v ++ [dq]) ++ s)
    with (dq :: k' ++ dq :: ":"%char :: dq :: JsonEscape v ++ dq :: s) by (cbn; do 5 (rewrite <- ?app_assoc; cbn); done).
  rewrite after_piece by done. case_decide; [done|].
  change (dq :: ":"%char :: dq :: ?x) with (dq :: [":"%char] ++ dq :: x).
  rewrite after_piece, decide_False; [by apply after_value| |done|by intros ?%list_elem_of_singleton].
  intros <-. apply (key_free _ ":"%char Hk eq_refl). by left.
Qed.

(** A piece with a character that no key has. *)
Lemma after_other k t s c : is_key k → dq ∉ t → c ∈ t → key_char c = false → after k (dq :: t ++ dq :: s) = after k (dq :: s).
Proof.
  intros Hk Ht Hc Hcc. rewrite after_piece, decide_False; [done| |by apply key_free|done]. intros <-. by apply (key_free _ c Hk Hcc).
Qed.

Lemma after_end k t : dq ∉ k → dq ∉ t → after k (dq :: t) = None.
Proof.
  intros Hk Ht. unfold after. replace (dq :: t) with (quoted [] [t]) by (cbn; by rewrite app_nil_r).
  rewrite split_sub_quoted; [done|done|]. repeat constructor; [apply not_elem_of_nil|done].
Qed.

(** The fields of a record. *)
Inductive fld := FStr (k v : bytes) | FNum (k : bytes) (n : Z).
Definition fkey (f : fld) : bytes := match f with FStr k _ | FNum k _ => k end.
Definition fvalue (f : fld) : bytes := match f with FStr _ v => dq :: JsonEscape v ++ [dq] | FNum _ n => to_string_i n end.
Definition ftext (f : fld) : bytes := field (fkey f) ++ fvalue f.
Fixpoint fields (fs : list fld) (rest : bytes) : bytes :=
  match fs with [] => rest | f :: fs => ftext f ++ ","%char :: fields fs rest end.

(** A field whose value does not look like the key [k]. *)
Definition fits_key (k : bytes) (f : fld) : Prop :=
  is_key (fkey f) ∧ match f with FStr _ v => last_part v ≠ k | FNum _ n => 0 ≤ n end.

Lemma fields_quote fs r : ∃ s, fields fs (dq :: r) = dq :: s.
Proof. destruct fs; cbn; by eexists. Qed.

Lemma after_ftext k f s : is_key k → fits_key k f →
  after k (ftext f ++ ","%char :: dq :: s) = if decide (fkey f = k) then Some (":"%char :: fvalue f ++ ","%char :: dq :: s) else after k (dq :: s).
Proof.
  intros Hk [Hf Hv]. assert (Hdq : dq ∉ k) by by apply key_free. destruct f as [k' v|k' n]; unfold ftext; cbn [fkey fvalue].
  - change (field k' ++ dq :: JsonEscape v ++ [dq]) with (string_field k' v). rewrite after_string by done. case_decide.
    + f_equal. cbn. by rewrite <- app_assoc.
    + change (dq :: ","%char :: dq :: s) with (dq :: [","%char] ++ dq :: s). apply (after_other k _ s ","%char); [done| |by left|done].
      by intros ?%list_elem_of_singleton.
  - assert (Hdq' : dq ∉ k') by by apply key_free. assert (Hn : to_string_i n = to_string n) by (unfold to_string_i; cbn in Hv; by rewrite (proj2 (Z.ltb_ge _ _))).
    rewrite Hn. assert (Hd : dq ∉ to_string n).
    { intros Hin. destruct (to_string_value n Hv) as (_ & Hds & _). rewrite Forall_forall in Hds. by apply Hds in Hin. }
    unfold field, needle. replace ((((([dq] ++ k' ++ [dq]) ++ [":"%char]) ++ to_string n)) ++ ","%char :: dq :: s)
      with (dq :: k' ++ dq :: (":"%char :: to_string n ++ [","%char]) ++ dq :: s) by (cbn; do 5 (rewrite <- ?app_assoc; cbn); done).
    rewrite after_piece by done. case_decide; [f_equal; cbn; by rewrite <- app_assoc|].
    apply (after_other k _ s ":"%char); [done| |by left|done]. rewrite not_elem_of_cons, not_elem_of_app. split_and!; [done|done|].
    by intros ?%list_elem_of_singleton.
Qed.

(** A field of a record is found. *)
Lemma after_found k fs r f : is_key k → NoDup (fkey <$> fs) → Forall (fits_key k) fs → f ∈ fs → fkey f = k →
  ∃ s, after k (fields fs (dq :: r)) = Some (":"%char :: fvalue f ++ ","%char :: s).
Proof.
  intros Hk. induction fs as [|g fs IH]; intros Hnd Hfs Hin Hf; [by apply not_elem_of_nil in Hin|].
  apply NoDup_cons in Hnd as [Hg Hnd]. apply Forall_cons in Hfs as [Hgk Hfs]. destruct (fields_quote fs r) as [s Es].
  cbn [fields]. rewrite Es, after_ftext by done. apply elem_of_cons in Hin as [->|Hin].
  - rewrite decide_True by done. by eexists.
  - rewrite decide_False; [rewrite <- Es; by apply IH|]. intros E. apply Hg. apply list_elem_of_fmap. exists f. by rewrite Hf.
Qed.

(** A key that no field has is looked for in what follows. *)
Lemma after_absent k fs r : is_key k → (k ∉ fkey <$> fs) → Forall (fits_key k) fs → after k (fields fs (dq :: r)) = after k (dq :: r).
Proof.
  intros Hk. induction fs as [|g fs IH]; intros Hn Hfs; [done|]. apply Forall_cons in Hfs as [Hgk Hfs].
  cbn in Hn. apply not_elem_of_cons in Hn as [Hg Hn]. destruct (fields_quote fs r) as [s Es].
  cbn [fields]. rewrite Es, after_ftext, decide_False by done. rewrite <- Es. by apply IH.
Qed.

Lemma Extract_after k s : ExtractJsonString s k =
  (j ← after k s; '(_, j) ← split_at ":"%char j; '(_, j) ← split_at dq j; read_string j []).
Proof. unfold ExtractJsonString, DropMeta.ExtractJsonString, after. by destruct (split_sub _ _) as [[]|]. Qed.

Lemma ExtractUint_after k s : ExtractJsonUint s k = (j ← after k s; '(_, j) ← split_at ":"%char j; read_uint j).
Proof. unfold ExtractJsonUint, DropMeta.ExtractJsonUint, after, read_uint. by destruct (split_sub _ _) as [[]|]. Qed.

Lemma split_at_first c s : split_at c (c :: s) = Some ([], s).
Proof. apply (split_at_app c [] s), not_elem_of_nil. Qed.

Lemma string_found k v fs r : is_key k → NoDup (fkey <$> fs) → Forall (fits_key k) fs → FStr k v ∈ fs → readable <$> v = v →
  ExtractJsonString (txt "{" ++ fields fs (dq :: r)) k = Some v.
Proof.
  intros Hk Hnd Hfs Hin Hv. rewrite Extract_after, after_skip by by intros ?%list_elem_of_singleton.
  destruct (after_found k fs r (FStr k v)) as [s ->]; [done..|]. cbn [mbind option_bind fvalue].
  rewrite split_at_first. cbn [mbind option_bind app]. rewrite split_at_first. cbn [mbind option_bind]. rewrite <- app_assoc. cbn [app].
  unfold JsonEscape. rewrite read_string_JsonEscape. by rewrite Hv.
Qed.

Lemma number_found k n fs r : is_key k → NoDup (fkey <$> fs) → Forall (fits_key k) fs → FNum k n ∈ fs → 0 ≤ n < 2 ^ 64 →
  ExtractJsonUint (txt "{" ++ fields fs (dq :: r)) k = Some n.
Proof.
  intros Hk Hnd Hfs Hin Hn. rewrite ExtractUint_after, after_skip by by intros ?%list_elem_of_singleton.
  destruct (after_found k fs r (FNum k n)) as [s ->]; [done..|]. cbn [mbind option_bind fvalue].
  rewrite split_at_first. cbn [mbind option_bind]. unfold to_string_i.
  rewrite (proj2 (Z.ltb_ge _ _)) by lia. by apply read_uint_to_string.
Qed.

(** ** Events *)

Definition event_fields (e : WebhookEvent) : list fld :=
  [FStr (txt "id") (ev_id e); FStr (txt "inbox") (inbox e); FStr (txt "service") (service e);
   FStr (txt "event_type") (event_type e); FStr (txt "status") (ev_status e); FStr (txt "source") (source e);
   FStr (txt "message") (message e); FStr (txt "delivery_id") (delivery_id e); FStr (txt "method") (ev_method e);
   FStr (txt "path") (ev_path e); FStr (txt "query") (ev_query e); FStr (txt "content_type") (content_type e);
   FStr (txt "remote_addr") (ev_remote e); FNum (txt "size") (ev_size e); FNum (txt "received_at") (received_at e);
   FNum (txt "expires_at") (ev_expires e)].

Definition deleted_id : bytes := txt "deleted_id".
Definition keys : list bytes := (fkey <$> event_fields (mkEvent [] [] [] [] [] [] [] [] [] [] [] [] [] 0 0 0)) ++ [deleted_id].

(** What follows the fields of an event in the log. *)
Definition event_tail (hs : list Header) (b : bytes) : bytes :=
  txt "headers" ++ [dq; ":"%char] ++ HeadersJson hs ++ txt "," ++ string_field (txt "body") b ++ txt "}".

Lemma EventJson_fields e hs b : 0 ≤ ev_size e →
  EventJson e (HeadersJson hs) (Some b) = txt "{" ++ fields (event_fields e) (dq :: event_tail hs b).
Proof.
  intros Hs. assert (E : to_string (ev_size e) = to_string_i (ev_size e)) by (unfold to_string_i; by rewrite (proj2 (Z.ltb_ge _ _))).
  unfold EventJson. rewrite E. unfold event_tail. generalize (HeadersJson hs). intros hj. unfold event_fields. cbn [fields ftext fkey fvalue].
  unfold ftext, string_field, field, needle, JsonEscape. cbn [fkey fvalue].
  repeat (rewrite <- ?app_assoc; cbn [app]). done.
Qed.

(** A text that comes back: its control characters are line ends and tabs, and what follows
    its last quote is no key. *)
Definition text_ok (v : bytes) : Prop := readable <$> v = v ∧ last_part v ∉ keys.

Record event_ok (e : WebhookEvent) (hs : list Header) (b : bytes) : Prop := {
  eo_strings : Forall (λ f, match f with FStr _ v => text_ok v | FNum _ _ => True end) (event_fields e);
  eo_size : 0 ≤ ev_size e < 2 ^ 64;
  eo_received : 0 ≤ received_at e < 2 ^ 63;
  eo_expires : 0 ≤ ev_expires e < 2 ^ 63;
  eo_headers : Forall (λ h, last_part (header_name h) ≠ deleted_id ∧ last_part (header_value h) ≠ deleted_id) hs;
  eo_body : last_part b ≠ deleted_id;
}.

Lemma keys_key k : k ∈ keys → is_key k.
Proof. revert k. apply Forall_forall. unfold is_key. repeat (constructor; [repeat constructor|]). constructor. Qed.

Lemma event_keys e : fkey <$> event_fields e = take 16 keys.
Proof. done. Qed.

Lemma event_keys_nodup e : NoDup (fkey <$> event_fields e).
Proof. rewrite event_keys. by apply (bool_decide_unpack _); vm_compute. Qed.

Lemma event_fits e hs b k : event_ok e hs b → k ∈ keys → Forall (fits_key k) (event_fields e).
Proof.
  intros HE Hk. apply Forall_forall. intros f Hf. split.
  - apply keys_key, elem_of_app. left. change (fkey f ∈ fkey <$> event_fields e). by apply list_elem_of_fmap_2.
  - pose proof (eo_strings _ _ _ HE) as Hs. rewrite Forall_forall in Hs. specialize (Hs f Hf). destruct f as [k' v|k' n].
    + intros E. apply (proj2 Hs). by rewrite E.
    + unfold event_fields in Hf. destruct HE. repeat (apply elem_of_cons in Hf as [Hf|Hf]; [try discriminate Hf; injection Hf as _ ->; lia|]).
      by apply not_elem_of_nil in Hf.
Qed.

Lemma i64_id n : 0 ≤ n < 2 ^ 63 → i64 n = n.
Proof. intros Hn. unfold i64. rewrite Z.mod_small by lia. lia. Qed.

(** An event is read back from its line. *)
Lemma event_read_back e hs b : event_ok e hs b → ParseEvent (EventJson e (HeadersJson hs) (Some b)) = Some e.
Proof.
  intros HE. rewrite EventJson_fields by apply HE. pose proof HE as [Hs Hz Hr Hx _ _].
  assert (HS : ∀ k v, FStr (txt k) v ∈ event_fields e → ExtractJsonString (txt "{" ++ fields (event_fields e) (dq :: event_tail hs b)) (txt k) = Some v).
  { intros k v Hin. assert (Hk : txt k ∈ keys) by (apply elem_of_app; left; exact (list_elem_of_fmap_2 fkey _ _ Hin)).
    apply string_found; [by apply keys_key|apply event_keys_nodup|by eapply event_fits|done|].
    rewrite Forall_forall in Hs. by apply (Hs _ Hin). }
  assert (HN : ∀ k n, FNum (txt k) n ∈ event_fields e → 0 ≤ n < 2 ^ 64 →
    ExtractJsonUint (txt "{" ++ fields (event_fields e) (dq :: event_tail hs b)) (txt k) = Some n).
  { intros k n Hin Hn. assert (Hk : txt k ∈ keys) by (apply elem_of_app; left; exact (list_elem_of_fmap_2 fkey _ _ Hin)).
    apply number_found; [by apply keys_key|apply event_keys_nodup|by eapply event_fits|done|done]. }
  generalize dependent (txt "{" ++ fields (event_fields e) (dq :: event_tail hs b)). intros json HS HN. unfold ParseEvent.
  assert (Hin : ∀ i f, event_fields e !! i = Some f → f ∈ event_fields e) by (intros i f; apply list_elem_of_lookup_2).
  rewrite (HS "id" _ (Hin 0%nat _ eq_refl)), (HS "inbox" _ (Hin 1%nat _ eq_refl)), (HS "service" _ (Hin 2%nat _ eq_refl)),
    (HS "event_type" _ (Hin 3%nat _ eq_refl)), (HS "status" _ (Hin 4%nat _ eq_refl)), (HS "source" _ (Hin 5%nat _ eq_refl)),
    (HS "message" _ (Hin 6%nat _ eq_refl)), (HS "delivery_id" _ (Hin 7%nat _ eq_refl)), (HS "method" _ (Hin 8%nat _ eq_refl)),
    (HS "path" _ (Hin 9%nat _ eq_refl)), (HS "query" _ (Hin 10%nat _ eq_refl)), (HS "content_type" _ (Hin 11%nat _ eq_refl)),
    (HS "remote_addr" _ (Hin 12%nat _ eq_refl)), (HN "size" _ (Hin 13%nat _ eq_refl) ltac:(lia)),
    (HN "received_at" _ (Hin 14%nat _ eq_refl) ltac:(lia)), (HN "expires_at" _ (Hin 15%nat _ eq_refl) ltac:(lia)).
  cbn [mbind option_bind default from_option id]. rewrite !i64_id by lia. by destruct e.
Qed.

Lemma join_two c a b l : HttpRequest.join c (a :: b :: l) = a ++ c :: HttpRequest.join c (b :: l).
Proof. done. Qed.

(** No header is taken for a deletion. *)
Lemma after_headers k hs t c s : is_key k → k ≠ txt "name" → k ≠ txt "value" →
  Forall (λ h, last_part (header_name h) ≠ k ∧ last_part (header_value h) ≠ k) hs → dq ∉ t → c ∈ t → key_char c = false →
  after k (dq :: t ++ HttpRequest.join ","%char (header_json <$> hs) ++ txt "]," ++ dq :: s) = after k (dq :: s).
Proof.
  intros Hk Hn Hv Hhs. revert t c. induction Hhs as [|h hs [H1 H2] Hhs IH]; intros t c Ht Hc Hcc.
  - change (HttpRequest.join ","%char (header_json <$> [])) with (@nil byte). cbn [app]. rewrite app_assoc.
    apply (after_other k _ s c); [done| |apply elem_of_app; by left|done]. rewrite not_elem_of_app. split; [done|]. by apply (bool_decide_unpack _).
  - assert (E : ∃ r, HttpRequest.join ","%char (header_json <$> h :: hs) ++ txt "]," ++ dq :: s =
      txt "{" ++ string_field (txt "name") (header_name h) ++ txt "," ++ string_field (txt "value") (header_value h) ++ r ∧
      after k (dq :: r) = after k (dq :: s)).
    { destruct hs as [|h' hs].
      - exists (txt "}]," ++ dq :: s). split.
        + change (HttpRequest.join ","%char (header_json <$> [h])) with (header_json h). unfold header_json. by rewrite <- !app_assoc.
        + apply (after_other k _ s "}"%char); [done|by apply (bool_decide_unpack _)|by left|done].
      - exists (txt "}," ++ HttpRequest.join ","%char (header_json <$> h' :: hs) ++ txt "]," ++ dq :: s). split.
        + change (header_json <$> h :: h' :: hs) with (header_json h :: header_json h' :: (header_json <$> hs)). rewrite join_two.
          unfold header_json at 1. by rewrite <- !app_assoc.
        + apply (IH (txt "},") "}"%char); [by apply (bool_decide_unpack _)|by left|done]. }
    destruct E as (r & -> & Hr). rewrite <- Hr. rewrite app_assoc.
    assert (Es : ∃ u, string_field (txt "name") (header_name h) ++ txt "," ++ string_field (txt "value") (header_value h) ++ r = dq :: u) by by eexists.
    destruct Es as [u Eu]. rewrite Eu. rewrite (after_other k _ u c); [|done| |apply elem_of_app; by left|done].
    2: { rewrite not_elem_of_app. split; [done|]. by apply (bool_decide_unpack _). }
    rewrite <- Eu, after_string, decide_False; [|done|done|by repeat constructor|done].
    assert (Ev : ∃ u', string_field (txt "value") (header_value h) ++ r = dq :: u') by by eexists. destruct Ev as [u' Ev]. rewrite Ev.
    rewrite (after_other k (txt ",") u' ","%char); [|done|by apply (bool_decide_unpack _)|by left|done].
    rewrite <- Ev, after_string, decide_False; [done|done|done|by repeat constructor|done].
Qed.

(** The line of an event is no deletion. *)
Lemma event_no_deletion e hs b : event_ok e hs b → ExtractJsonString (EventJson e (HeadersJson hs) (Some b)) deleted_id = None.
Proof.
  intros HE. assert (Hk : deleted_id ∈ keys) by (apply elem_of_app; right; by left). pose proof (keys_key _ Hk) as Hkey.
  rewrite EventJson_fields by apply HE. rewrite Extract_after, after_skip by by intros ?%list_elem_of_singleton.
  rewrite after_absent; [|done|rewrite event_keys; by apply (bool_decide_unpack _)|by eapply event_fits].
  assert (after deleted_id (dq :: event_tail hs b) = None) as ->; [|done]. unfold event_tail, HeadersJson.
  replace (txt "headers" ++ [dq; ":"%char] ++ (txt "[" ++ HttpRequest.join ","%char (header_json <$> hs) ++ txt "]") ++ txt "," ++ string_field (txt "body") b ++ txt "}")
    with (txt "headers" ++ dq :: txt ":[" ++ HttpRequest.join ","%char (header_json <$> hs) ++ txt "]," ++ string_field (txt "body") b ++ txt "}")
    by (repeat (rewrite <- ?app_assoc; cbn [app]); done).
  rewrite after_piece, decide_False; [|done|by apply key_free|by apply (bool_decide_unpack _)].
  assert (Eb : ∃ u, string_field (txt "body") b ++ txt "}" = dq :: u) by by eexists. destruct Eb as [u Eb]. rewrite Eb.
  rewrite (after_headers _ hs _ ":"%char); [|done|done|done|apply HE|by apply (bool_decide_unpack _)|by left|done].
  rewrite <- Eb, after_string, decide_False; [|done|done|by repeat constructor|apply HE].
  apply after_end; [by apply key_free|by apply (bool_decide_unpack _)].
Qed.

(** *** Lines *)

Lemma escape_one_line v : "010"%char ∉ JsonEscape v.
Proof.
  induction v as [|c v IH]; [apply not_elem_of_nil|]. change (JsonEscape (c :: v)) with (escape c ++ JsonEscape v).
  apply not_elem_of_app. split; [|done]. unfold escape. repeat case_decide; try (by apply (bool_decide_unpack _)).
  destruct (_ <? _); [by apply (bool_decide_unpack _)|]. intros E%list_elem_of_singleton. congruence.
Qed.

Lemma field_one_line k v : is_key k → "010"%char ∉ string_field k v.
Proof.
  intros Hk. unfold string_field, field, needle. rewrite !not_elem_of_app. change DropMeta.JsonEscape with JsonEscape.
  assert ("010"%char ∉ k) by by apply key_free. pose proof (escape_one_line v). split_and!; done || by apply (bool_decide_unpack _).
Qed.

Lemma number_one_line n : "010"%char ∉ to_string_i n.
Proof.
  assert (Hd : ∀ m, 0 ≤ m → "010"%char ∉ to_string m).
  { intros m Hm Hin. destruct (to_string_value m Hm) as (_ & Hds & _). rewrite Forall_forall in Hds. by apply Hds in Hin. }
  unfold to_string_i. destruct (Z.ltb_spec n 0); [|by apply Hd]. apply not_elem_of_cons. split; [done|]. apply Hd. lia.
Qed.

Lemma ftext_one_line f : is_key (fkey f) → "010"%char ∉ ftext f.
Proof.
  destruct f as [k v|k n]; intros Hk; [by apply (field_one_line k v)|]. unfold ftext, field, needle. cbn [fkey fvalue] in *.
  rewrite !not_elem_of_app. pose proof (number_one_line n). assert ("010"%char ∉ k) by by apply key_free.
  split_and!; done || by apply (bool_decide_unpack _).
Qed.

Lemma fields_one_line fs r : Forall (λ f, is_key (fkey f)) fs → ("010"%char ∉ r) → "010"%char ∉ fields fs r.
Proof.
  intros Hfs Hr. induction Hfs as [|f fs Hf _ IH]; [done|]. cbn [fields]. rewrite not_elem_of_app, not_elem_of_cons.
  split_and!; [by apply ftext_one_line|done|done].
Qed.

Lemma header_one_line h : "010"%char ∉ header_json h.
Proof.
  unfold header_json. rewrite !not_elem_of_app. split_and!; try (by apply (bool_decide_unpack _)); apply field_one_line; by repeat constructor.
Qed.

Lemma headers_one_line hs : "010"%char ∉ HeadersJson hs.
Proof.
  unfold HeadersJson. rewrite !not_elem_of_app. split_and!; try (by apply (bool_decide_unpack _)).
  induction hs as [|h [|h' hs] IH]; [apply not_elem_of_nil|apply header_one_line|].
  change (header_json <$> h :: h' :: hs) with (header_json h :: header_json h' :: (header_json <$> hs)). rewrite join_two, not_elem_of_app, not_elem_of_cons.
  split_and!; [apply header_one_line|done|exact IH].
Qed.

Lemma event_one_line e hs b : event_ok e hs b → "010"%char ∉ EventJson e (HeadersJson hs) (Some b).
Proof.
  intros HE. rewrite EventJson_fields by apply HE. apply not_elem_of_app. split; [by apply (bool_decide_unpack _)|]. apply fields_one_line.
  - apply Forall_forall. intros f Hf. apply keys_key, elem_of_app. left. change (fkey f ∈ fkey <$> event_fields e). by apply list_elem_of_fmap_2.
  - apply not_elem_of_cons. split; [done|]. unfold event_tail. rewrite !not_elem_of_app. pose proof (headers_one_line hs).
    assert ("010"%char ∉ string_field (txt "body") b) by (apply field_one_line; by repeat constructor).
    split_and!; done || by apply (bool_decide_unpack _).
Qed.

(** *** Deletions *)

Lemma SafeId_readable i : SafeId i = true → readable <$> i = i.
Proof.
  unfold SafeId, DropMeta.SafeId. destruct (_ || _); [done|]. intros Hi%Is_true_true%forallb_True.
  induction Hi as [|c i Hc _ IH]; [done|]. csimpl. rewrite IH. f_equal. clear -Hc.
  by destruct c as [[] [] [] [] [] [] [] []]; vm_compute in Hc.
Qed.

Lemma deletion_read_back now i : SafeId i = true → ExtractJsonString (deleted_line now i) deleted_id = Some i.
Proof.
  intros Hi. pose proof (SafeId_readable i Hi) as Hr. rewrite Extract_after. unfold deleted_line.
  rewrite after_skip by by intros ?%list_elem_of_singleton.
  assert (E : string_field (txt "deleted_id") i ++ txt "," ++ field (txt "deleted_at") ++ to_string_i now ++ txt "}" =
    dq :: deleted_id ++ dq :: ":"%char :: dq :: JsonEscape i ++ dq :: txt "," ++ field (txt "deleted_at") ++ to_string_i now ++ txt "}").
  { unfold string_field, field, needle, JsonEscape. repeat (rewrite <- ?app_assoc; cbn [app]). done. }
  rewrite E, after_piece, decide_True by (done || by apply (bool_decide_unpack _)). cbn [mbind option_bind].
  rewrite split_at_first. cbn [mbind option_bind]. rewrite split_at_first. cbn [mbind option_bind]. unfold JsonEscape.
  rewrite read_string_JsonEscape. by rewrite Hr.
Qed.

Lemma deletion_one_line now i : "010"%char ∉ deleted_line now i.
Proof.
  unfold deleted_line. rewrite !not_elem_of_app. pose proof (number_one_line now).
  assert ("010"%char ∉ string_field (txt "deleted_id") i) by (apply field_one_line; by repeat constructor).
  split_and!; done || by apply (bool_decide_unpack _).
Qed.

(** ** Starting again *)

(** What is done to the store. *)
Inductive op := OPut (e : WebhookEvent) (hs : list Header) (b : bytes) | ORemove (now : Z) (i : bytes) | OClean (now : Z).

Definition do_op (s : InboxStore) (o : op) : InboxStore :=
  match o with
  | OPut e hs b => (Put true e (HeadersJson hs) b s).1
  | ORemove now i => (store_Remove true now i s).1
  | OClean now => CleanupExpired now s
  end.

Definition op_ok (o : op) : Prop := match o with OPut e hs b => event_ok e hs b | _ => True end.

Definition live (now : Z) (rs : list EventRecord) : list EventRecord := filter (λ r, now < ev_expires (event r)) rs.

(** The log, read again, has what is in memory, up to what has expired. *)
Definition logged_as (now : Z) (s : InboxStore) : Prop := ∃ lines, Forall (λ l, "010"%char ∉ l) lines ∧
  log_ s = concat (map (λ l, l ++ ["010"%char]) lines) ∧ live now (foldl init_line [] lines) = live now (by_id_ s).

Lemma logged_more now s rs line : logged_as now s → ("010"%char ∉ line) →
  (∀ old, live now old = live now (by_id_ s) → live now (init_line old line) = live now rs) →
  logged_as now (mkStore rs (log_ s ++ line ++ ["010"%char])).
Proof.
  intros (lines & Hl & Elog & Ev) Hline Hrs. exists (lines ++ [line]). split_and!.
  - apply Forall_app. split; [done|]. by constructor.
  - cbn [log_]. rewrite Elog, map_app, concat_app. cbn. by rewrite app_nil_r.
  - rewrite foldl_app. cbn [foldl by_id_]. by apply Hrs.
Qed.

Lemma live_erase now i rs : live now (erase_id i rs) = erase_id i (live now rs).
Proof. unfold live, erase_id. rewrite !list_filter_filter. apply list_filter_iff. tauto. Qed.

Lemma logged_op now s o : op_ok o → (∀ t, o = OClean t → t ≤ now) → logged_as now s → logged_as now (do_op s o).
Proof.
  intros Ho Ht HL. destruct o as [e hs b|t i|t]; cbn [do_op].
  - cbn [op_ok] in Ho. unfold Put. cbn [negb fst]. apply logged_more; [done|by apply event_one_line|]. intros old Eold. unfold init_line.
    change (txt "deleted_id") with deleted_id. rewrite event_no_deletion, event_read_back by done. unfold live in *. by rewrite !filter_app, Eold.
  - unfold store_Remove. destruct (SafeId i) eqn:Ei; [|done]. cbn [negb]. case_bool_decide; [done|]. cbn [fst].
    apply logged_more; [done|apply deletion_one_line|]. intros old Eold. unfold init_line. change (txt "deleted_id") with deleted_id.
    rewrite deletion_read_back by done. by rewrite !live_erase, Eold.
  - destruct HL as (lines & Hl & Elog & Ev). exists lines. split_and!; [done|done|]. rewrite Ev. unfold live, CleanupExpired. cbn [by_id_].
    rewrite list_filter_filter. apply list_filter_iff. intros r. specialize (Ht t eq_refl). lia.
Qed.

(** C34: When the webhook inbox starts again, with every write to the log done, it has what it had in
    memory when it stopped, up to what has expired: whatever was put, removed and cleaned
    up before. The texts of the events must be such as can be read again ([event_ok]). *)
Theorem inbox_reopens ops now : Forall op_ok ops → (∀ t, OClean t ∈ ops → t ≤ now) →
  let s := foldl do_op (mkStore [] []) ops in CleanupExpired now (Init (log_ s)) = CleanupExpired now s.
Proof.
  intros Hops Ht s. assert (HL : logged_as now s).
  { subst s. induction ops as [|o ops IH] using rev_ind; [by exists []|]. apply Forall_app in Hops as [Hops Ho]. apply Forall_inv in Ho.
    rewrite foldl_app. apply logged_op; [exact Ho| |].
    - intros t ->. apply Ht, elem_of_app. right. by left.
    - apply IH; [done|]. intros t Hin. apply Ht, elem_of_app. by left. }
  destruct HL as (lines & Hl & Elog & Ev). unfold CleanupExpired, Init. cbn [by_id_ log_]. f_equal.
  rewrite Elog, getlines_lines by done. exact Ev.
Qed.

(** A text with its apostrophes made quotes. *)
Definition quoted (s : string) : bytes := (λ c, if decide (c = apostrophe) then dq else c) <$> txt s.

(** A delivery, and what is captured of it. *)
Definition delivery (hs : list Header) (b : bytes) : HttpRequest :=
  MkRequest kPost (txt "/hooks/github/ci") [] b true [] hs [(txt "path", txt "ci")].

Definition github_hook : HttpRequest :=
  delivery [MkHeader (txt "X-GitHub-Event") (txt "push"); MkHeader (txt "Content-Type") (txt "application/json")]
    (quoted "{'ref':'main','repository':{'full_name':'a/b'},'action':'created'}").

Definition captured (r : HttpRequest) (now seq : Z) : WebhookEvent :=
  ClassifyEvent r (txt "10.0.0.1") now (1000 * now) seq 123456 (txt "github") (txt "ci") 3600.

Example github_classified : let e := captured github_hook 100 1 in
  event_type e = txt "push" ∧ source e = txt "a/b" ∧ message e = txt "created on main" ∧ ev_path e = txt "/ci" ∧ ev_expires e = 3700.
Proof. by vm_compute. Qed.

Lemma captured_ok now seq : now = 100 → seq = 1 ∨ seq = 2 →
  event_ok (captured github_hook now seq) (headers_ github_hook) (body github_hook).
Proof.
  intros -> [-> | ->]; (split; [|by vm_compute..| |by vm_compute]);
    repeat first [apply Forall_cons; split | apply Forall_nil]; try done; try split; try (by vm_compute); by apply (bool_decide_unpack _); vm_compute.
Qed.

(** Two events captured, one removed, the expired ones dropped: the program starts again with
    the other one. *)
Lemma inbox_reopens_witness : let e := captured github_hook 100 in let hs := headers_ github_hook in let b := body github_hook in
  let ops := [OPut (e 1) hs b; OPut (e 2) hs b; ORemove 150 (ev_id (e 1)); OClean 200] in
  let s := foldl do_op (mkStore [] []) ops in
  (ev_id ∘ event <$> by_id_ s) = [ev_id (e 2)] ∧ CleanupExpired 300 (Init (log_ s)) = CleanupExpired 300 s.
Proof.
  intros e hs b ops s. split; [vm_compute; reflexivity|]. apply (inbox_reopens ops 300).
  - unfold ops. apply Forall_cons; split; [apply captured_ok; auto|]. apply Forall_cons; split; [apply captured_ok; auto|].
    by repeat constructor.
  - intros t Ht. unfold ops in Ht. repeat (apply elem_of_cons in Ht as [Ht|Ht]; [first [discriminate Ht|injection Ht as ->; lia]|]).
    by apply not_elem_of_nil in Ht.
Defined.

(** What [event_ok] rules out does happen. Whoever can send an event can have another deleted
    when the log is read again: a header [deleted_id] that has its identifier is enough, and
    the event that carries it is not there either. *)
Definition forged (i : bytes) : HttpRequest := delivery [MkHeader (txt "deleted_id") i] [].

Example header_deletes_event :
  let one := (CaptureWebhook true github_hook (txt "10.0.0.1") 100 100000 1 123456 3600 (txt "github") (txt "ci") (mkStore [] [])).1 in
  let i := ev_id (captured github_hook 100 1) in
  let two := (CaptureWebhook true (forged i) (txt "10.0.0.2") 101 101000 2 123456 3600 (txt "github") (txt "ci") one).1 in
  length (by_id_ two) = 2%nat ∧ (ev_id ∘ event <$> by_id_ (Init (log_ one))) = [i] ∧ by_id_ (Init (log_ two)) = [].
Proof. by vm_compute. Qed.

(** An event removed while the log cannot be opened is answered as removed, and is back after
    the next start. *)
Example removal_forgotten :
  let one := (CaptureWebhook true github_hook (txt "10.0.0.1") 100 100000 1 123456 3600 (txt "github") (txt "ci") (mkStore [] [])).1 in
  let '(s, removed) := store_Remove false 150 (ev_id (captured github_hook 100 1)) one in
  removed = true ∧ by_id_ s = [] ∧ by_id_ (Init (log_ s)) = by_id_ one.
Proof. by vm_compute. Qed.

(** An event type that is the name of a later key hides the value of that key. *)
Example type_hides_source :
  let r := delivery [MkHeader (txt "X-GitHub-Event") (txt "source")] (quoted "{'state':'failure','name':'a/b'}") in
  let e := captured r 100 1 in
  source e = txt "a/b" ∧ source <$> ParseEvent (EventJson e (HeadersJson (headers_ r)) (Some (body r))) = Some (txt "failure").
Proof. by vm_compute. Qed.
