(* ===== verification/ProxyMetrics.v ===== *)
(** * The metrics of the proxy

    [src/modules/proxy/TcpProxyServer.cpp]: the snapshot of the server as a JSON text, how it
    is put into a file, and the thread that does so at intervals, beside the calls of [Start],
    [Stop] and [ReloadDownstreamTlsContext].

    The calls come from one thread.  A step is one file operation of one of the two threads, or
    a call up to its first one; what the file system answers and the numbers of live sessions
    are arguments of the step. *)

From S2P Require Import Prelude Text HttpRequest DropMeta Worker WebServer ProxyServer.

#[local] Open Scope Z_scope.
#[local] Set Warnings "-clear-no-such-hyp,-register-all".

(** ** JSON

    Documents, their text without spaces, and a reference reader. *)

Inductive json :=
| JStr (s : bytes)
| JNum (n : Z)
| JBool (b : bool)
| JArr (vs : list json)
| JObj (ms : list (bytes * json)).

Definition join_with (sep : bytes) (ts : list bytes) : bytes :=
  match ts with [] => [] | t :: ts => t ++ concat ((λ u, sep ++ u) <$> ts) end.

Definition print_string (s : bytes) : bytes := quote :: ProxyServer.JsonEscape s ++ [quote].

Fixpoint print (v : json) : bytes :=
  match v with
  | JStr s => print_string s
  | JNum n => to_string_i n
  | JBool b => txt (if b then "true" else "false")
  | JArr vs => txt "[" ++ join_with (txt ",") (map print vs) ++ txt "]"
  | JObj ms => txt "{" ++ join_with (txt ",") (map (λ '(k, v), print_string k ++ txt ":" ++ print v) ms) ++ txt "}"
  end.

(** What a reader gets: control characters were replaced. *)
Fixpoint cleaned (v : json) : json :=
  match v with
  | JStr s => JStr (printable <$> s)
  | JArr vs => JArr (map cleaned vs)
  | JObj ms => JObj (map (λ '(k, v), (printable <$> k, cleaned v)) ms)
  | _ => v
  end.

Fixpoint digits_of (s : bytes) : bytes * bytes :=
  match s with
  | b :: r => if is_digit b then let '(ds, r) := digits_of r in (b :: ds, r) else ([], s)
  | [] => ([], [])
  end.

Definition read_nat (s : bytes) : option (Z * bytes) :=
  match digits_of s with ([], _) => None | (ds, r) => Some (digits_value ds, r) end.

Definition read_str (s : bytes) : option (bytes * bytes) := json_string (S (length s)) s.

Definition expect (c : byte) (s : bytes) : option bytes :=
  match s with b :: r => if decide (b = c) then Some r else None | [] => None end.

Fixpoint read_value (fuel : nat) (s : bytes) : option (json * bytes) :=
  match fuel, s with
  | S fuel, b :: r =>
    if decide (b = quote) then '(t, r) ← read_str r; Some (JStr t, r) else
    if decide (b = "["%char) then
      match expect "]"%char r with
      | Some r => Some (JArr [], r)
      | None => '(vs, r) ← read_items fuel r; Some (JArr vs, r)
      end else
    if decide (b = "{"%char) then
      match expect "}"%char r with
      | Some r => Some (JObj [], r)
      | None => '(ms, r) ← read_members fuel r; Some (JObj ms, r)
      end else
    if decide (b = "-"%char) then '(n, r) ← read_nat r; Some (JNum (- n), r) else
    match strip_prefix (txt "true") s, strip_prefix (txt "false") s with
    | Some r, _ => Some (JBool true, r)
    | _, Some r => Some (JBool false, r)
    | _, _ => '(n, r) ← read_nat s; Some (JNum n, r)
    end
  | _, _ => None
  end
with read_items (fuel : nat) (s : bytes) : option (list json * bytes) :=
  match fuel with
  | O => None
  | S fuel =>
    '(v, r) ← read_value fuel s;
    match expect ","%char r with
    | Some r => '(vs, r) ← read_items fuel r; Some (v :: vs, r)
    | None => r ← expect "]"%char r; Some ([v], r)
    end
  end
with read_members (fuel : nat) (s : bytes) : option (list (bytes * json) * bytes) :=
  match fuel with
  | O => None
  | S fuel =>
    r ← expect quote s; '(k, r) ← read_str r; r ← expect ":"%char r; '(v, r) ← read_value fuel r;
    match expect ","%char r with
    | Some r => '(ms, r) ← read_members fuel r; Some ((k, v) :: ms, r)
    | None => r ← expect "}"%char r; Some ([(k, v)], r)
    end
  end.

(** Rounds the reader needs. *)
Fixpoint weight (v : json) : nat :=
  match v with
  | JArr vs => S (foldr (λ v n, S (weight v + n)) 0 vs)
  | JObj ms => S (foldr (λ '(_, v) n, S (weight v + n)) 0 ms)
  | _ => 1
  end%nat.

Section JsonInd.
Context (P : json → Prop) (Hs : ∀ s, P (JStr s)) (Hn : ∀ n, P (JNum n)) (Hb : ∀ b, P (JBool b))
  (Ha : ∀ vs, Forall P vs → P (JArr vs)) (Ho : ∀ ms, Forall (λ m, P m.2) ms → P (JObj ms)).
Fixpoint json_nested_ind (v : json) : P v :=
  match v with
  | JStr s => Hs s | JNum n => Hn n | JBool b => Hb b
  | JArr vs => Ha vs ((fix go vs : Forall P vs := match vs with [] => Forall_nil_2 _ | v :: vs => Forall_cons_2 _ _ _ (json_nested_ind v) (go vs) end) vs)
  | JObj ms => Ho ms ((fix go ms : Forall (λ m, P m.2) ms := match ms with [] => Forall_nil_2 _ | m :: ms => Forall_cons_2 _ _ _ (json_nested_ind m.2) (go ms) end) ms)
  end.
End JsonInd.

Lemma json_string_more fuel fuel' s r : json_string fuel s = Some r → (fuel ≤ fuel')%nat → json_string fuel' s = Some r.
Proof.
  revert fuel' s r. induction fuel as [|fuel IH]; intros fuel' s r E Hle; [done|]. destruct fuel' as [|fuel']; [lia|].
  destruct s as [|b s]; [done|]. cbn [json_string] in *. case_decide; [done|]. case_decide.
  - destruct s as [|x s]; [done|]. destruct (if decide (x = quote) then _ else _) as [c|]; [|done]. cbn in *.
    destruct (json_string fuel s) as [t|] eqn:Es; [|done]. by rewrite (IH fuel' s t) by (done || lia).
  - destruct (_ <? _); [done|]. destruct (json_string fuel s) as [t|] eqn:Es; [|done]. by rewrite (IH fuel' s t) by (done || lia).
Qed.

Lemma JsonEscape_longer s : (length s ≤ length (ProxyServer.JsonEscape s))%nat.
Proof.
  unfold ProxyServer.JsonEscape. induction s as [|b s IH]; [done|]. cbn [fmap list_fmap concat]. rewrite length_app. cbn [length].
  assert (1 ≤ length (escape_char b))%nat; [|lia]. unfold escape_char. repeat case_decide; simpl; try lia. destruct (_ <? _); simpl; lia.
Qed.

Lemma read_str_printed s rest : read_str (ProxyServer.JsonEscape s ++ quote :: rest) = Some (printable <$> s, rest).
Proof.
  unfold read_str. eapply json_string_more; [apply JsonEscape_roundtrip|]. rewrite length_app. pose proof (JsonEscape_longer s). lia.
Qed.

Definition stops (r : bytes) : Prop := match r with b :: _ => is_digit b = false | [] => True end.

Lemma digits_of_app ds r : Forall (λ b, is_digit b = true) ds → stops r → digits_of (ds ++ r) = (ds, r).
Proof. induction 1 as [|b ds Hb _ IH]; intros Hr; simpl; [destruct r; [done|]; simpl in *; by rewrite Hr|]. by rewrite Hb, IH. Qed.

Lemma read_nat_printed n r : 0 ≤ n → stops r → read_nat (to_string n ++ r) = Some (n, r).
Proof.
  intros Hn Hr. destruct (to_string_value n Hn) as (Hv & Hd & Hne). unfold read_nat. rewrite digits_of_app by done.
  rewrite Hv. by destruct (to_string n).
Qed.

Lemma join_with_two sep t u ts : join_with sep (t :: u :: ts) = t ++ sep ++ join_with sep (u :: ts).
Proof. unfold join_with. cbn [fmap list_fmap concat]. by rewrite <- app_assoc. Qed.

Lemma digit_head n r : 0 ≤ n → ∃ b t, to_string n ++ r = b :: t ∧ is_digit b = true.
Proof.
  intros Hn. destruct (to_string_value n Hn) as (_ & Hd & Hne). destruct (to_string n) as [|b ds]; [done|].
  apply Forall_cons in Hd as [Hb _]. by exists b, (ds ++ r).
Qed.

Lemma print_head v : ∃ b t, print v = b :: t ∧ b ≠ "]"%char.
Proof.
  destruct v as [s|n|[]|vs|ms]; try by eexists _, _. cbn [print]. unfold to_string_i. destruct (Z.ltb_spec n 0); [by eexists _, _|].
  destruct (digit_head n [] ltac:(lia)) as (b & t & E & Hb). rewrite app_nil_r in E. exists b, t. split; [done|]. by intros ->.
Qed.

Lemma read_number n fuel rest : stops rest → read_value (S fuel) (to_string_i n ++ rest) = Some (JNum n, rest).
Proof.
  intros Hr. unfold to_string_i. destruct (Z.ltb_spec n 0).
  - cbn [app read_value]. repeat (rewrite decide_False by done). rewrite decide_True by done. rewrite read_nat_printed by (done || lia).
    cbn. do 2 f_equal. f_equal. lia.
  - pose proof (read_nat_printed n rest ltac:(lia) Hr) as E. destruct (digit_head n rest ltac:(lia)) as (b & t & Et & Hb). rewrite Et in *.
    cbn [read_value]. assert (Hne : b ≠ quote ∧ b ≠ "["%char ∧ b ≠ "{"%char ∧ b ≠ "-"%char ∧ b ≠ "t"%char ∧ b ≠ "f"%char)
      by (split_and!; by intros ->). destruct Hne as (? & ? & ? & ? & ? & ?).
    do 4 (rewrite decide_False by done). cbn [strip_prefix txt list_ascii_of_string]. do 2 (rewrite decide_False by done). by rewrite E.
Qed.

Lemma expect_other c b t : b ≠ c → expect c (b :: t) = None.
Proof. intros. simpl. by rewrite decide_False. Qed.

Lemma expect_same c t : expect c (c :: t) = Some t.
Proof. simpl. by rewrite decide_True. Qed.

Definition reads (v : json) : Prop := ∀ fuel rest, (weight v ≤ fuel)%nat → stops rest → read_value fuel (print v ++ rest) = Some (cleaned v, rest).

Lemma read_items_printed vs fuel rest : vs ≠ [] → Forall reads vs → (foldr (λ v n, S (weight v + n)) 0 vs ≤ fuel)%nat →
  read_items fuel (join_with (txt ",") (map print vs) ++ "]"%char :: rest) = Some (map cleaned vs, rest).
Proof.
  intros Hne HF. revert fuel. induction HF as [|v vs Hv _ IH]; intros fuel Hf; [done|]. destruct fuel as [|fuel]; [simpl in Hf; lia|].
  cbn [foldr] in Hf. cbn [read_items]. destruct vs as [|v' vs].
  - cbn [map join_with fmap list_fmap concat]. rewrite app_nil_r, Hv by (done || lia). cbn [mbind option_bind].
    rewrite expect_other, expect_same by done. done.
  - change (map print (v :: v' :: vs)) with (print v :: print v' :: map print vs). rewrite join_with_two, <- !app_assoc, Hv by (done || lia).
    cbn [mbind option_bind txt list_ascii_of_string app]. rewrite expect_same.
    change (print v' :: map print vs) with (map print (v' :: vs)). rewrite IH by (done || lia). done.
Qed.

Definition print_member : bytes * json → bytes := λ '(k, v), print_string k ++ txt ":" ++ print v.

Lemma read_members_printed ms fuel rest : ms ≠ [] → Forall (λ m, reads m.2) ms → (foldr (λ '(_, v) n, S (weight v + n)) 0 ms ≤ fuel)%nat →
  read_members fuel (join_with (txt ",") (map print_member ms) ++ "}"%char :: rest) =
  Some (map (λ '(k, v), (printable <$> k, cleaned v)) ms, rest).
Proof.
  intros Hne HF. revert fuel. induction HF as [|[k v] ms Hv _ IH]; intros fuel Hf; [done|]. destruct fuel as [|fuel]; [simpl in Hf; lia|].
  cbn [foldr snd] in *.
  assert (Hk : ∀ r, stops r → print_member (k, v) ++ r = quote :: ProxyServer.JsonEscape k ++ quote :: ":"%char :: print v ++ r).
  { intros r _. unfold print_member, print_string. cbn [app]. rewrite <- !app_assoc. done. }
  destruct ms as [|m ms].
  - cbn [map join_with fmap list_fmap concat]. rewrite app_nil_r, Hk by done. cbn [read_members]. rewrite expect_same. cbn [mbind option_bind].
    rewrite read_str_printed. cbn [mbind option_bind]. rewrite expect_same. cbn [mbind option_bind]. rewrite Hv by (done || lia).
    cbn [mbind option_bind]. rewrite expect_other, expect_same by done. done.
  - change (map print_member ((k, v) :: m :: ms)) with (print_member (k, v) :: print_member m :: map print_member ms).
    rewrite join_with_two, <- !app_assoc, Hk by done. cbn [read_members]. rewrite expect_same. cbn [mbind option_bind].
    rewrite read_str_printed. cbn [mbind option_bind]. rewrite expect_same. cbn [mbind option_bind]. rewrite Hv by (done || lia).
    cbn [mbind option_bind txt list_ascii_of_string app]. rewrite expect_same.
    change (print_member m :: map print_member ms) with (map print_member (m :: ms)). rewrite IH by (done || lia). done.
Qed.

(** Every document is read back from its text, whatever the texts in it. *)
Lemma read_printed v : reads v.
Proof.
  induction v as [s|n|b|vs IH|ms IH] using json_nested_ind; intros fuel rest Hf Hr; (destruct fuel as [|fuel]; [simpl in Hf; lia|]).
  - cbn [print]. unfold print_string. cbn [app read_value]. rewrite decide_True by done. rewrite <- app_assoc. cbn [app]. by rewrite read_str_printed.
  - by apply read_number.
  - by destruct b.
  - cbn [print txt list_ascii_of_string app read_value]. rewrite decide_False, decide_True, <- app_assoc by done. cbn [app].
    change [","%char] with (txt ","). destruct vs as [|v vs]; [done|]. destruct (print_head v) as (b & t & Eb & Hb).
    assert (expect "]"%char (join_with (txt ",") (map print (v :: vs)) ++ "]"%char :: rest) = None) as ->.
    { cbn [map join_with]. rewrite Eb. by apply expect_other. }
    cbn [weight] in Hf. rewrite read_items_printed by (done || lia). done.
  - cbn [print txt list_ascii_of_string app read_value]. do 2 (rewrite decide_False by done). rewrite decide_True, <- app_assoc by done. cbn [app].
    change [","%char] with (txt ","). destruct ms as [|[k v] ms]; [done|]. change (map _ ((k, v) :: ms)) with (map print_member ((k, v) :: ms)) at 1 2.
    assert (expect "}"%char (join_with (txt ",") (map print_member ((k, v) :: ms)) ++ "}"%char :: rest) = None) as E by by apply expect_other.
    rewrite E. cbn [weight] in Hf. rewrite read_members_printed by (done || lia). done.
Qed.

(** ** The snapshot *)

(** Source: include/iouring_runtime/proxy/TcpProxyConfig.h:59-79, TcpProxyConfig.
    Beside the parts ProxyServer.v uses. *)
Record service_config := mkServiceConfig {
  proxy : proxy_config;
  listen_host : bytes;
  listen_port : Z;
  file_path : bytes;
  drain_timeout : Z;
  force_close_timeout : Z;
}.

(** What is read of a worker: [pinned_cpu], [LiveSessions()] and [live_connectors]. *)
Record worker_stats := mkStats { stat_cpu : Z; stat_sessions : Z; stat_connectors : Z }.

(** What a snapshot finds outside the server: the process, the clock and the workers. *)
Record sight := mkSight { pid : Z; clock : Z; stats : Z → worker_stats }.

Definition str_field (key : string) (value : bytes) : bytes := field (txt key) ++ print_string value.
Definition num_field (key : string) (n : Z) : bytes := field (txt key) ++ to_string_i n.
Definition host_port (host : bytes) (port : Z) : bytes := host ++ txt ":" ++ to_string port.

Section Service.
Context {E : Type} (resolve : bytes → Z → option E) (config_ : service_config).

Definition sum_u64 (ns : list Z) : Z := foldl (λ total n, u64 (total + n)) 0 ns.

(** Source: src/modules/proxy/TcpProxyServer.cpp:568-578, TcpProxyServer::SnapshotMetricsJson. *)
Definition route_json (route : upstream_route) : bytes :=
  txt "{" ++ str_field "hostname" (hostname route) ++ txt "," ++
  str_field "upstream" (host_port (upstream_host route) (upstream_port route)) ++ txt "}".

(** Source: src/modules/proxy/TcpProxyServer.cpp:584-600, TcpProxyServer::SnapshotMetricsJson. *)
Definition worker_json (v : sight) (w : Z) : bytes :=
  txt "{" ++ num_field "index" w ++ txt "," ++ num_field "pinned_cpu" (stat_cpu (stats v w)) ++ txt "," ++
  num_field "live_sessions" (stat_sessions (stats v w)) ++ txt "," ++
  num_field "live_connectors" (stat_connectors (stats v w)) ++ txt "}".

(** Source: include/iouring_runtime/proxy/TcpProxyServer.h:77-87, TcpProxyServer.
    The server of ProxyServer.v, [started_at_] (none before the first start) and the times
    of the last reloads. *)
Record facts := mkFacts { core : proxy_server (E := E); started_at : option Z; reload_success : Z; reload_failure : Z }.

Definition bool_text (b : bool) : bytes := txt (if b then "true" else "false").

(** Source: src/modules/proxy/TcpProxyServer.cpp:540-616, TcpProxyServer::SnapshotMetricsJson.
    Times are in seconds. *)
Definition SnapshotMetricsJson (v : sight) (f : facts) : bytes :=
  let cfg := proxy config_ in
  let ws := workers_ (core f) in
  txt "{" ++
  str_field "service" (txt "tcp_reverse_proxy") ++ txt "," ++
  num_field "pid" (pid v) ++ txt "," ++
  num_field "uptime_seconds" (from_option (λ t, clock v - t) 0 (started_at f)) ++ txt "," ++
  field (txt "listen") ++ txt "{" ++ str_field "host" (listen_host config_) ++ txt "," ++
  num_field "port" (listen_port config_) ++ txt "}" ++ txt "," ++
  num_field "configured_worker_count" (worker_count cfg) ++ txt "," ++
  num_field "running_worker_count" (zlen ws) ++ txt "," ++
  str_field "default_upstream" (host_port (cfg_host cfg) (cfg_port cfg)) ++ txt "," ++
  field (txt "configured_routes") ++ txt "[" ++ join_with (txt ",") (map route_json (upstream_routes cfg)) ++ txt "]" ++ txt "," ++
  field (txt "workers") ++ txt "[" ++ join_with (txt ",") (map (worker_json v) ws) ++ txt "]" ++ txt "," ++
  num_field "total_live_sessions" (sum_u64 (stat_sessions ∘ stats v <$> ws)) ++ txt "," ++
  num_field "total_live_connectors" (sum_u64 (stat_connectors ∘ stats v <$> ws)) ++ txt "," ++
  field (txt "tls") ++ txt "{" ++ field (txt "enabled") ++ bool_text (tls_enabled cfg) ++ txt "," ++
  field (txt "context_loaded") ++ bool_text (bool_decide (downstream_tls_context_ (core f) ≠ None)) ++ txt "," ++
  num_field "last_reload_success_unix" (reload_success f) ++ txt "," ++
  num_field "last_reload_failure_unix" (reload_failure f) ++ txt "}" ++ txt "}".

(** The document the text stands for. *)
Definition snapshot (v : sight) (f : facts) : json :=
  let cfg := proxy config_ in
  let ws := workers_ (core f) in
  JObj [(txt "service", JStr (txt "tcp_reverse_proxy")); (txt "pid", JNum (pid v));
    (txt "uptime_seconds", JNum (from_option (λ t, clock v - t) 0 (started_at f)));
    (txt "listen", JObj [(txt "host", JStr (listen_host config_)); (txt "port", JNum (listen_port config_))]);
    (txt "configured_worker_count", JNum (worker_count cfg)); (txt "running_worker_count", JNum (zlen ws));
    (txt "default_upstream", JStr (host_port (cfg_host cfg) (cfg_port cfg)));
    (txt "configured_routes", JArr (map (λ r, JObj [(txt "hostname", JStr (hostname r));
       (txt "upstream", JStr (host_port (upstream_host r) (upstream_port r)))]) (upstream_routes cfg)));
    (txt "workers", JArr (map (λ w, JObj [(txt "index", JNum w); (txt "pinned_cpu", JNum (stat_cpu (stats v w)));
       (txt "live_sessions", JNum (stat_sessions (stats v w))); (txt "live_connectors", JNum (stat_connectors (stats v w)))]) ws));
    (txt "total_live_sessions", JNum (sum_u64 (stat_sessions ∘ stats v <$> ws)));
    (txt "total_live_connectors", JNum (sum_u64 (stat_connectors ∘ stats v <$> ws)));
    (txt "tls", JObj [(txt "enabled", JBool (tls_enabled cfg));
       (txt "context_loaded", JBool (bool_decide (downstream_tls_context_ (core f) ≠ None)));
       (txt "last_reload_success_unix", JNum (reload_success f)); (txt "last_reload_failure_unix", JNum (reload_failure f))])].

Lemma print_arr {A} (f : A → json) l : print (JArr (map f l)) = txt "[" ++ join_with (txt ",") (map (λ x, print (f x)) l) ++ txt "]".
Proof. cbn [print]. by rewrite map_map. Qed.

Lemma print_obj ms : print (JObj ms) = txt "{" ++ join_with (txt ",") (map print_member ms) ++ txt "}".
Proof. done. Qed.

Lemma print_member_eq k v : print_member (k, v) = print_string k ++ txt ":" ++ print v.
Proof. done. Qed.

Lemma snapshot_text v f : SnapshotMetricsJson v f = print (snapshot v f).
Proof.
  assert (Hr : map route_json (upstream_routes (proxy config_)) =
    map (λ r, print (JObj [(txt "hostname", JStr (hostname r)); (txt "upstream", JStr (host_port (upstream_host r) (upstream_port r)))]))
      (upstream_routes (proxy config_))).
  { apply map_ext. intros r. unfold route_json, str_field, field. cbn [print map join_with fmap list_fmap concat].
    repeat (rewrite <- ?app_assoc; cbn [app]). done. }
  assert (Hw : map (worker_json v) (workers_ (core f)) = map (λ w, print (JObj [(txt "index", JNum w); (txt "pinned_cpu", JNum (stat_cpu (stats v w)));
       (txt "live_sessions", JNum (stat_sessions (stats v w))); (txt "live_connectors", JNum (stat_connectors (stats v w)))])) (workers_ (core f))).
  { apply map_ext. intros r. unfold worker_json, num_field, field. cbn [print map join_with fmap list_fmap concat].
    repeat (rewrite <- ?app_assoc; cbn [app]). done. }
  unfold SnapshotMetricsJson, snapshot. cbv zeta. rewrite Hr, Hw. clear Hr Hw. rewrite print_obj.
  cbn [map]. rewrite !print_member_eq, !print_arr, !print_obj. cbn [map]. rewrite !print_member_eq.
  unfold str_field, num_field, field, bool_text. cbn [join_with fmap list_fmap concat]. cbn [print].
  repeat (rewrite <- ?app_assoc; cbn [app]).
  reflexivity.
Qed.

(** A JSON reader gets the whole document from the text. *)
Lemma snapshot_read v f : read_value (weight (snapshot v f)) (SnapshotMetricsJson v f) = Some (cleaned (snapshot v f), []).
Proof. rewrite snapshot_text, <- (app_nil_r (print _)). by apply read_printed. Qed.

(** ** Writing the file *)

(** The metrics file and the temporary one beside it. *)
Record disk := mkDisk { metrics_file : option bytes; temp_file : option bytes }.

(** Where [WriteFileAtomically] is. *)
Inductive write_pc := WDirs | WOpen | WPut | WFlush | WRename | WRemove.
Record writing := mkWriting { pc : write_pc; content : bytes }.

(** What the file system answers to an operation: whether it succeeds, how much of the text
    has reached the file, and whether the buffer is written whole when the stream is closed. *)
Record answer := mkAnswer { ok : bool; amount : nat; flushed : bool }.

(** Source: src/modules/proxy/TcpProxyServer.cpp:80-91, WriteFileAtomically.
    [parent_path] is empty exactly if the path has no slash. *)
Definition begin_write (text : bytes) : option writing :=
  if bool_decide (file_path config_ = []) then None else
  Some (mkWriting (if bool_decide ("/"%char ∈ file_path config_) then WDirs else WOpen) text).

(** Source: src/modules/proxy/TcpProxyServer.cpp:75-118, WriteFileAtomically.
    One file operation.  The destructor of the stream writes what is left in its buffer, and
    reports nothing. *)
Definition write_step (a : answer) (w : writing) (d : disk) : disk * option writing :=
  let text := content w in
  match pc w with
  | WDirs => (d, if ok a then Some (mkWriting WOpen text) else None)
  | WOpen => if ok a then (mkDisk (metrics_file d) (Some []), Some (mkWriting WPut text)) else (d, None)
  | WPut => (mkDisk (metrics_file d) (Some (take (amount a) text)), Some (mkWriting (if ok a then WFlush else WRemove) text))
  | WFlush => (mkDisk (metrics_file d) (Some (if flushed a then text else take (amount a) text)), Some (mkWriting WRename text))
  | WRename => if ok a then (mkDisk (temp_file d) None, None) else (d, Some (mkWriting WRemove text))
  | WRemove => (mkDisk (metrics_file d) (if ok a then None else temp_file d), None)
  end.

(** ** The threads *)

(** Where the calling thread is: outside, in the first write of [StartMetricsWriter], in
    [join], or in the last write of [StopMetricsWriter]. *)
Inductive caller := Idle | Starting (w : writing) | Joining | Stopping (w : writing).

(** Where the metrics thread is: at the test of the loop, asleep and then at the test after
    it, writing, or at its end. *)
Inductive writer := TLoop | TSleep | TWrite (w : writing) | TDone.

(** Source: include/iouring_runtime/proxy/TcpProxyServer.h:84-85, TcpProxyServer. *)
Record service := mkService {
  known : facts;
  calling : caller;
  metrics_writer_running_ : bool;
  metrics_thread_ : option writer;
  files : disk;
}.

Definition set_known (f : facts) (s : service) : service := mkService f (calling s) (metrics_writer_running_ s) (metrics_thread_ s) (files s).
Definition set_calling (c : caller) (s : service) : service := mkService (known s) c (metrics_writer_running_ s) (metrics_thread_ s) (files s).
Definition set_flag (b : bool) (s : service) : service := mkService (known s) (calling s) b (metrics_thread_ s) (files s).
Definition set_thread (t : option writer) (s : service) : service := mkService (known s) (calling s) (metrics_writer_running_ s) t (files s).
Definition set_files (d : disk) (s : service) : service := mkService (known s) (calling s) (metrics_writer_running_ s) (metrics_thread_ s) d.
Definition set_core (c : proxy_server) (f : facts) : facts := mkFacts c (started_at f) (reload_success f) (reload_failure f).

(** Source: src/modules/proxy/TcpProxyServer.cpp:634-643, TcpProxyServer::StartMetricsWriter.
    The thread is made. *)
Definition spawn (s : service) : service := set_calling Idle (set_thread (Some TLoop) s).

(** Source: src/modules/proxy/TcpProxyServer.cpp:622-629, TcpProxyServer::StartMetricsWriter.
    Up to the first file operation; the snapshot is taken before it. *)
Definition StartMetricsWriter (v : sight) (s : service) : service :=
  if bool_decide (file_path config_ = []) then s else
  if metrics_writer_running_ s then s else
  let s := set_flag true s in
  match begin_write (SnapshotMetricsJson v (known s)) with Some w => set_calling (Starting w) s | None => spawn s end.

(** Source: src/modules/proxy/TcpProxyServer.cpp:359-383, TcpProxyServer::Stop.
    After [StopMetricsWriter]. *)
Definition finish_stop (s : service) : service := set_calling Idle (set_known (set_core Server_new (known s)) s).

(** Source: src/modules/proxy/TcpProxyServer.cpp:646-648, TcpProxyServer::StopMetricsWriter.
    Up to [join]. *)
Definition StopMetricsWriter (s : service) : service :=
  if metrics_writer_running_ s then set_calling Joining (set_flag false s) else finish_stop s.

(** What happens: calls of the one thread, and the next operation of that thread and of the
    metrics thread. *)
Inductive event :=
| EStart (env : server_env) (v : sight)
| EStop
| EReload (env : server_env) (now : Z)
| ECaller (a : answer) (v : sight)
| EWriter (a : answer) (v : sight).

(** Source: src/modules/proxy/TcpProxyServer.cpp:215-348, TcpProxyServer::Start. *)
Definition call_Start (env : server_env) (v : sight) (s : service) : service :=
  let f := known s in
  if running_ (core f) then s else
  let c := Start resolve (proxy config_) env (core f) in
  let s := set_known (mkFacts c (Some (clock v)) (reload_success f) (reload_failure f)) s in
  if running_ c then StartMetricsWriter v s else s.

(** Source: src/modules/proxy/TcpProxyServer.cpp:350-354, TcpProxyServer::Stop. *)
Definition call_Stop (s : service) : service :=
  let c := core (known s) in
  if negb (running_ c) && bool_decide (workers_ c = []) then s else
  StopMetricsWriter (set_known (set_core (set_running false c) (known s)) s).

(** Source: src/modules/proxy/TcpProxyServer.cpp:388-407, TcpProxyServer::ReloadDownstreamTlsContext. *)
Definition call_Reload (env : server_env) (now : Z) (s : service) : service :=
  let f := known s in
  let '(c, reloaded) := ReloadDownstreamTlsContext (proxy config_) env (core f) in
  if reloaded then set_known (mkFacts c (started_at f) now (reload_failure f)) s
  else if tls_enabled (proxy config_) then set_known (mkFacts c (started_at f) (reload_success f) now) s else s.

(** Source: src/modules/proxy/TcpProxyServer.cpp:645-655, TcpProxyServer::StopMetricsWriter.
    [join] returns when the thread has ended. *)
Definition caller_step (a : answer) (v : sight) (s : service) : service :=
  match calling s with
  | Idle => s
  | Starting w =>
    let '(d, rest) := write_step a w (files s) in
    let s := set_files d s in
    match rest with Some w => set_calling (Starting w) s | None => spawn s end
  | Joining =>
    match metrics_thread_ s with
    | Some TDone | None =>
      let s := set_thread None s in
      match begin_write (SnapshotMetricsJson v (known s)) with Some w => set_calling (Stopping w) s | None => finish_stop s end
    | _ => s
    end
  | Stopping w =>
    let '(d, rest) := write_step a w (files s) in
    let s := set_files d s in
    match rest with Some w => set_calling (Stopping w) s | None => finish_stop s end
  end.

(** Source: src/modules/proxy/TcpProxyServer.cpp:634-642, TcpProxyServer::StartMetricsWriter.
    The metrics thread. *)
Definition writer_step (a : answer) (v : sight) (s : service) : service :=
  match metrics_thread_ s with
  | Some TLoop => set_thread (Some (if metrics_writer_running_ s then TSleep else TDone)) s
  | Some TSleep =>
    if negb (metrics_writer_running_ s) then set_thread (Some TDone) s else
    match begin_write (SnapshotMetricsJson v (known s)) with Some w => set_thread (Some (TWrite w)) s | None => set_thread (Some TLoop) s end
  | Some (TWrite w) =>
    let '(d, rest) := write_step a w (files s) in
    let s := set_files d s in
    match rest with Some w => set_thread (Some (TWrite w)) s | None => set_thread (Some TLoop) s end
  | _ => s
  end.

Definition step (s : service) (e : event) : service :=
  match e with
  | ECaller a v => caller_step a v s
  | EWriter a v => writer_step a v s
  | _ =>
    match calling s with
    | Idle => match e with EStart env v => call_Start env v s | EStop => call_Stop s | EReload env now => call_Reload env now s | _ => s end
    | _ => s
    end
  end.

Definition new_service (d : disk) : service := mkService (mkFacts Server_new None 0 0) Idle false None d.
Definition run (d : disk) (es : list event) : service := foldl step (new_service d) es.

(** ** The file is always whole *)

Definition answer_of (e : event) : option answer := match e with ECaller a _ | EWriter a _ => Some a | _ => None end.

(** No stream loses what is in its buffer when it is closed. *)
Definition flushes (e : event) : Prop := match answer_of e with Some a => flushed a = true | None => True end.

(** What the clocks and the process show at an event that may take a snapshot. *)
Definition sight_of (e : event) : option sight :=
  match e with EStart _ v | ECaller _ v | EWriter _ v => Some v | _ => None end.

(** Texts of which each part is one too. *)
Definition closed (T : bytes → Prop) : Prop := ∀ t n, T t → T (take n t).

Section Invariant.
Context (d0 : disk).

(** A write of a text that was taken, whose temporary file has such a text before it is renamed. *)
Definition write_ok (T : bytes → Prop) (d : disk) (w : writing) : Prop :=
  T (content w) ∧ (pc w = WRename → ∃ t, temp_file d = Some t ∧ T t).

Definition thread_ok (T : bytes → Prop) (d : disk) (t : writer) : Prop := match t with TWrite w => write_ok T d w | _ => True end.

(** Which of the two threads does what, and the file; [T] are the texts taken so far. *)
Record metrics_inv (T : bytes → Prop) (s : service) : Prop := {
  mi_file t : metrics_file (files s) = Some t → metrics_file d0 = Some t ∨ T t;
  mi_threads : match calling s, metrics_thread_ s with
    | Idle, None => metrics_writer_running_ s = false ∧ (running_ (core (known s)) = true → file_path config_ = [])
    | Idle, Some t => metrics_writer_running_ s = true ∧ running_ (core (known s)) = true ∧ file_path config_ ≠ [] ∧ t ≠ TDone ∧ thread_ok T (files s) t
    | Starting w, None => metrics_writer_running_ s = true ∧ running_ (core (known s)) = true ∧ file_path config_ ≠ [] ∧ write_ok T (files s) w
    | Joining, Some t => metrics_writer_running_ s = false ∧ running_ (core (known s)) = false ∧ file_path config_ ≠ [] ∧ thread_ok T (files s) t
    | Stopping w, None => metrics_writer_running_ s = false ∧ running_ (core (known s)) = false ∧ file_path config_ ≠ [] ∧ write_ok T (files s) w
    | _, _ => False
    end;
}.

Lemma begin_write_ok T d text : file_path config_ ≠ [] → T text → ∃ w, begin_write text = Some w ∧ write_ok T d w.
Proof. intros Hp Ht. unfold begin_write. rewrite bool_decide_false by done. eexists. split; [done|]. split; [done|]. simpl. by case_bool_decide. Qed.

Lemma write_step_ok T a w d : flushed a = true ∨ closed T → write_ok T d w →
  (∀ t, metrics_file d = Some t → metrics_file d0 = Some t ∨ T t) →
  let '(d', rest) := write_step a w d in
  (∀ t, metrics_file d' = Some t → metrics_file d0 = Some t ∨ T t) ∧ from_option (write_ok T d') True rest.
Proof.
  intros Hf [Ht Hr] Hd. unfold write_step.
  assert (T (if flushed a then content w else take (amount a) (content w))) as Hput
    by (destruct (flushed a); [done|destruct Hf; auto; done]).
  destruct (pc w) eqn:Ep; destruct (ok a); cbn [from_option metrics_file]; split; try done; try (by split; eauto).
  intros t Et. right. destruct (Hr eq_refl) as (x & Hx & HT). rewrite Hx in Et. by injection Et as <-.
Qed.

Lemma write_ok_more (T T' : bytes → Prop) d w : (∀ t, T t → T' t) → write_ok T d w → write_ok T' d w.
Proof. intros H [? Hr]. split; [auto|]. intros Epc. destruct (Hr Epc) as (t & ? & ?). eauto. Qed.

Lemma metrics_inv_more (T T' : bytes → Prop) s : (∀ t, T t → T' t) → metrics_inv T s → metrics_inv T' s.
Proof.
  intros H [H1 H2]. split; [naive_solver|]. destruct (calling s), (metrics_thread_ s) as [[]|]; simpl in *; intuition eauto using write_ok_more.
Qed.

Lemma caller_step_inv T a v s : flushed a = true ∨ closed T → T (SnapshotMetricsJson v (known s)) → metrics_inv T s → metrics_inv T (caller_step a v s).
Proof.
  intros Hf Hv [H1 H2]. unfold caller_step. destruct (calling s) as [|w| |w] eqn:Ec.
  - split; [done|]. by rewrite Ec.
  - destruct (metrics_thread_ s) eqn:Et; [done|]. destruct H2 as (Hfl & Hrun & Hp & Hw).
    pose proof (write_step_ok T a w (files s) Hf Hw H1) as Hst. destruct (write_step a w (files s)) as [d [w'|]]; destruct Hst as [Hd Hw'].
    + split; [done|]. cbn. by rewrite Et.
    + split; [done|]. by cbn.
  - destruct (metrics_thread_ s) as [t|] eqn:Et; [|done]. destruct H2 as (Hfl & Hrun & Hp & Hw).
    destruct t as [| |w|]; try (split; [done|]; by rewrite Ec, Et).
    destruct (begin_write_ok T (files s) (SnapshotMetricsJson v (known s)) Hp Hv) as (w & Eb & Hw').
    cbn [known set_thread]. rewrite Eb. split; [done|]. by cbn.
  - destruct (metrics_thread_ s) eqn:Et; [done|]. destruct H2 as (Hfl & Hrun & Hp & Hw).
    pose proof (write_step_ok T a w (files s) Hf Hw H1) as Hst. destruct (write_step a w (files s)) as [d [w'|]]; destruct Hst as [Hd Hw'].
    + split; [done|]. cbn. by rewrite Et.
    + split; [done|]. cbn. by rewrite Et.
Qed.

Lemma writer_step_inv T a v s : flushed a = true ∨ closed T → T (SnapshotMetricsJson v (known s)) → metrics_inv T s → metrics_inv T (writer_step a v s).
Proof.
  intros Hf Hv [H1 H2]. unfold writer_step. destruct (metrics_thread_ s) as [t|] eqn:Et; [|split; [done|]; by rewrite Et].
  assert (Hp : file_path config_ ≠ []) by (destruct (calling s); naive_solver).
  destruct t as [| |w|].
  - split; [done|]. cbn. destruct (calling s), (metrics_writer_running_ s) eqn:Ef; naive_solver.
  - destruct (metrics_writer_running_ s) eqn:Ef; cbn [negb].
    + destruct (begin_write_ok T (files s) (SnapshotMetricsJson v (known s)) Hp Hv) as (w & -> & Hw').
      split; [done|]. cbn. destruct (calling s); naive_solver.
    + split; [done|]. cbn. destruct (calling s); naive_solver.
  - assert (Hw : write_ok T (files s) w) by (destruct (calling s); naive_solver).
    pose proof (write_step_ok T a w (files s) Hf Hw H1) as Hst. destruct (write_step a w (files s)) as [d [w'|]]; destruct Hst as [Hd Hw'];
      (split; [done|]; cbn; destruct (calling s); naive_solver).
  - split; [done|]. by rewrite Et.
Qed.

Lemma StartMetricsWriter_inv T v s : calling s = Idle → metrics_thread_ s = None → metrics_writer_running_ s = false → running_ (core (known s)) = true →
  (∀ t, metrics_file (files s) = Some t → metrics_file d0 = Some t ∨ T t) → T (SnapshotMetricsJson v (known s)) → metrics_inv T (StartMetricsWriter v s).
Proof.
  intros Ec Et Ef Hr Hd Hv. unfold StartMetricsWriter. case_bool_decide as Hp; [split; [done|]; by rewrite Ec, Et|]. rewrite Ef.
  destruct (begin_write_ok T (files s) (SnapshotMetricsJson v (known s)) Hp Hv) as (w & Eb & Hw'). cbn [known set_flag].
  rewrite Eb. split; [done|]. cbn. by rewrite Et.
Qed.

Lemma known_StartMetricsWriter v s : known (StartMetricsWriter v s) = known s.
Proof. unfold StartMetricsWriter, spawn. case_bool_decide; [done|]. destruct (metrics_writer_running_ s); [done|]. by destruct (begin_write _). Qed.

Lemma metrics_step_inv (T T' : bytes → Prop) s e : flushes e ∨ closed T' → metrics_inv T s → (∀ t, T t → T' t) →
  (∀ v, sight_of e = Some v → T' (SnapshotMetricsJson v (known (match e with EStart _ _ => step s e | _ => s end)))) →
  metrics_inv T' (step s e).
Proof.
  intros Hf Hi HT Hv. apply (metrics_inv_more T T' s HT) in Hi. destruct e as [env v| |env now|a v|a v]; cbn [step] in *.
  - destruct (calling s) eqn:Ec; try done. unfold call_Start in *. destruct (running_ (core (known s))) eqn:Er; [done|].
    destruct Hi as [H1 H2]. rewrite Ec in H2. destruct (metrics_thread_ s) eqn:Et; [destruct H2 as (_ & H2 & _); congruence|]. destruct H2 as [Hfl _].
    destruct (running_ (Start _ _ _ _)) eqn:Er'; [|split; [done|]; cbn; rewrite Ec, Et; split; [done|]; by rewrite Er'].
    specialize (Hv v eq_refl). rewrite known_StartMetricsWriter in Hv. by apply StartMetricsWriter_inv.
  - destruct (calling s) eqn:Ec; try done. unfold call_Stop. destruct (_ && _) eqn:Eg; [done|]. destruct Hi as [H1 H2]. rewrite Ec in H2.
    unfold StopMetricsWriter. cbn [metrics_writer_running_ set_known]. destruct (metrics_thread_ s) as [t|] eqn:Et.
    + destruct H2 as (-> & _ & Hp & _ & Ht). split; [done|]. cbn. by rewrite Et.
    + destruct H2 as [Hfl _]. rewrite Hfl. split; [done|]. cbn. by rewrite Et.
  - destruct (calling s) eqn:Ec; try done. unfold call_Reload, ReloadDownstreamTlsContext. destruct Hi as [H1 H2]. rewrite Ec in H2.
    destruct (tls_enabled (proxy config_)); cbn [negb]; [|split; [done|]; by rewrite Ec].
    destruct (build_tls env); (split; [done|]; cbn; by rewrite Ec).
  - apply caller_step_inv; [done|by apply Hv|done].
  - apply writer_step_inv; [done|by apply Hv|done].
Qed.
End Invariant.

(** What the server knew when event [e] took a snapshot: [Start] takes it at its end. *)
Definition knew (d : disk) (es : list event) (e : event) : facts :=
  known (run d (match e with EStart _ _ => es ++ [e] | _ => es end)).

(** The texts taken during a run: of an event of it, with what that event saw. *)
Definition taken (d : disk) (es : list event) (t : bytes) : Prop :=
  ∃ es' e v, es' ++ [e] `prefix_of` es ∧ sight_of e = Some v ∧ t = SnapshotMetricsJson v (knew d es' e).

(** The texts a file may have: those, or parts of them if a stream may lose its buffer. *)
Definition texts (whole : bool) (d : disk) (es : list event) (t : bytes) : Prop :=
  ∃ full n, taken d es full ∧ t = take n full ∧ (whole = true → t = full).

Lemma run_inv whole d es : (whole = true → Forall flushes es) → metrics_inv d (texts whole d es) (run d es).
Proof.
  induction es as [|e es IH] using rev_ind; intros Hf.
  { split; [by left|]. by cbn. }
  unfold run. rewrite foldl_app. cbn [foldl]. fold (run d es).
  apply (metrics_step_inv d (texts whole d es)).
  - destruct whole; [left|right].
    + specialize (Hf eq_refl). apply Forall_app in Hf as [_ He]. by apply Forall_inv in He.
    + intros t n (full & k & Hk & -> & _). exists full, (n `min` k)%nat. split; [done|]. by rewrite take_take.
  - apply IH. intros Ew. specialize (Hf Ew). by apply Forall_app in Hf as [? _].
  - intros t (full & n & (es' & e' & v & Hp & Hrest) & ?). exists full, n. split; [|done].
    exists es', e', v. split; [by apply prefix_app_r|done].
  - intros v Hv. eexists _, _. split; [|split; [symmetry; apply firstn_all|done]].
    exists es, e, v. split; [done|]. split; [done|]. unfold knew, run. destruct e; rewrite ?foldl_app; done.
Qed.

(** No step changes what the metrics thread reads without a lock. *)
Lemma thread_undisturbed T d s e t : metrics_inv d T s → metrics_thread_ s = Some t →
  let c := core (known s) in let c' := core (known (step s e)) in
  workers_ c' = workers_ c ∧ upstream_routes_ c' = upstream_routes_ c ∧ upstream_endpoint_ c' = upstream_endpoint_ c.
Proof.
  intros [_ H] Et. rewrite Et in H. destruct e as [env v| |env now|a v|a v]; cbn [step].
  - destruct (calling s); try done. unfold call_Start. by destruct H as (_ & -> & _).
  - destruct (calling s); try done. unfold call_Stop. destruct (_ && _); [done|]. unfold StopMetricsWriter.
    cbn [metrics_writer_running_ set_known]. by destruct H as (-> & _).
  - destruct (calling s); try done. unfold call_Reload, ReloadDownstreamTlsContext.
    destruct (tls_enabled (proxy config_)); cbn [negb]; [|done]. by destruct (build_tls env).
  - unfold caller_step. destruct (calling s); try done. rewrite Et. destruct t; try done. destruct H as (_ & _ & Hp & _).
    destruct (begin_write_ok (λ _, True) (files s) (SnapshotMetricsJson v (known s)) Hp I) as (w & Eb & _).
    cbn [known set_thread]. by rewrite Eb.
  - unfold writer_step. rewrite Et. destruct t as [| |w|]; [done| | |done].
    + destruct (negb _); [done|]. by destruct (begin_write _).
    + by destruct (write_step a w (files s)) as [d' [w'|]].
Qed.

(** C40: whoever reads the metrics file of the proxy reads a whole document. After any calls of
    [Start], [Stop] and [ReloadDownstreamTlsContext], at any moment of them and of the metrics
    thread, and whatever fails, the file is the one that was there at first or a JSON document
    that says what was so of the server at a moment of the run (given that closing a
    stream writes what is left in its buffer, which the code does not check). The two threads
    never write at the same time; while the metrics thread is there no step changes the workers
    and routes it reads; and between the calls it is there exactly if the server runs
    and a file is configured. *)
Theorem metrics_whole d es : Forall flushes es → let s := run d es in
  (∀ t, metrics_file (files s) = Some t → metrics_file d = Some t ∨
     ∃ es' v, let f := known (run d es') in es' `prefix_of` es ∧ t = SnapshotMetricsJson v f ∧
       read_value (weight (snapshot v f)) t = Some (cleaned (snapshot v f), [])) ∧
  (∀ w, calling s = Starting w ∨ calling s = Stopping w → metrics_thread_ s = None) ∧
  (∀ e, metrics_thread_ s ≠ None → let c := core (known s) in let c' := core (known (step s e)) in
     workers_ c' = workers_ c ∧ upstream_routes_ c' = upstream_routes_ c ∧ upstream_endpoint_ c' = upstream_endpoint_ c) ∧
  (calling s = Idle → (is_Some (metrics_thread_ s) ↔ running_ (core (known s)) = true ∧ file_path config_ ≠ [])).
Proof.
  intros Hf s. pose proof (run_inv true d es (λ _, Hf)) as HI. fold s in HI. pose proof HI as [H1 H2]. split_and!.
  - intros t [?|(full & n & (es' & e & v & Hp & Hv & Ht) & _ & Hw)]%H1; [by left|]. right. rewrite (Hw eq_refl), Ht. unfold knew.
    eexists _, v. split_and!; [|done|apply snapshot_read]. destruct e; [done|..]; (etrans; [|exact Hp]); by apply prefix_app_r.
  - intros w [E1|E1]; rewrite E1 in H2; by destruct (metrics_thread_ s).
  - intros e Ht. destruct (metrics_thread_ s) as [t|] eqn:Et; [|done]. by apply (thread_undisturbed (texts true d es) d s e t).
  - intros Hc. rewrite Hc in H2. destruct (metrics_thread_ s) as [t|].
    + destruct H2 as (_ & Hr & Hp & _). split; [by intros _|by eexists].
    + destruct H2 as [_ H2]. split; [by intros []|]. intros [Hr Hp]. by destruct (Hp (H2 Hr)).
Qed.

(** ** [Stop] returns *)

(** Operations a write has left at most. *)
Definition write_left (w : writing) : nat :=
  match pc w with WDirs => 6 | WOpen => 5 | WPut => 4 | WFlush => 3 | WRename => 2 | WRemove => 1 end.

Lemma write_step_left a w d : from_option (λ w', (write_left w' < write_left w)%nat) True (write_step a w d).2.
Proof. unfold write_step, write_left. destruct (pc w), (ok a); cbn; lia. Qed.

Lemma write_left_bounds w : (1 ≤ write_left w ≤ 6)%nat.
Proof. unfold write_left. destruct (pc w); lia. Qed.

Definition thread_left (t : writer) : nat := match t with TWrite w => S (write_left w) | TLoop | TSleep => 1 | TDone => 0 end.

(** With the flag cleared the thread ends after its write. *)
Lemma writer_ends os s t : calling s = Joining → metrics_writer_running_ s = false → metrics_thread_ s = Some t → (thread_left t ≤ length os)%nat →
  let s' := foldl step s ((λ '(a, v), EWriter a v) <$> os) in
  calling s' = Joining ∧ metrics_writer_running_ s' = false ∧ metrics_thread_ s' = Some TDone ∧ known s' = known s.
Proof.
  revert s t. induction os as [|[a v] os IH]; intros s t Hc Hf Ht Hl; cbn [fmap list_fmap foldl].
  { destruct t; cbn in Hl; try lia. done. }
  assert (HS : ∃ t', let s' := writer_step a v s in calling s' = Joining ∧ metrics_writer_running_ s' = false ∧ metrics_thread_ s' = Some t' ∧
    known s' = known s ∧ (thread_left t' ≤ length os)%nat).
  { unfold writer_step. rewrite Ht. destruct t as [| |w|].
    - exists TDone. rewrite Hf. cbn. split_and!; done || lia.
    - exists TDone. rewrite Hf. cbn. split_and!; done || lia.
    - pose proof (write_step_left a w (files s)) as Hw. destruct (write_step a w (files s)) as [d [w'|]]; cbn in *.
      + exists (TWrite w'). cbn. split_and!; done || lia.
      + exists TLoop. cbn. pose proof (write_left_bounds w). split_and!; done || lia.
    - exists TDone. cbn. split_and!; done || lia. }
  destruct HS as (t' & Hc' & Hf' & Ht' & Hk' & Hl'). cbn [step]. destruct (IH _ _ Hc' Hf' Ht' Hl') as (? & ? & ? & Hk). split_and!; try done.
  by rewrite Hk.
Qed.

(** The last snapshot is written and the rest of [Stop] runs. *)
Lemma caller_ends os s w : calling s = Stopping w → metrics_thread_ s = None → (write_left w ≤ length os)%nat →
  let s' := foldl step s ((λ '(a, v), ECaller a v) <$> os) in
  calling s' = Idle ∧ metrics_thread_ s' = None ∧ core (known s') = Server_new.
Proof.
  assert (Hidle : ∀ os s, calling s = Idle → foldl step s ((λ '(a, v), ECaller a v) <$> os) = s).
  { intros os'. induction os' as [|[a v] os' IH]; intros s' Hs; [done|]. cbn [fmap list_fmap foldl step]. unfold caller_step. rewrite Hs. by apply IH. }
  revert s w. induction os as [|[a v] os IH]; intros s w Hc Ht Hl; [pose proof (write_left_bounds w); simpl in Hl; lia|].
  assert (HS : let s' := caller_step a v s in metrics_thread_ s' = None ∧
    ((calling s' = Idle ∧ core (known s') = Server_new) ∨ ∃ w', calling s' = Stopping w' ∧ (write_left w' ≤ length os)%nat)).
  { unfold caller_step. rewrite Hc. pose proof (write_step_left a w (files s)) as Hw. destruct (write_step a w (files s)) as [d [w'|]]; cbn in *.
    - split; [done|]. right. exists w'. split; [done|lia].
    - split; [done|]. by left. }
  cbn [fmap list_fmap foldl step]. destruct HS as (Ht' & [[Hi Hn]|(w' & Hc' & Hl')]); [by rewrite Hidle|]. by apply (IH _ w').
Qed.

(** When [Stop] waits for the metrics thread, seven operations of that thread and then seven
    of its own bring it to its end, whatever they answer: the thread has ended, and the server
    has no workers, routes or context. *)
Theorem stop_returns d es os os' : calling (run d es) = Joining → (7 ≤ length os)%nat → (7 ≤ length os')%nat →
  let s := foldl step (run d es) (((λ '(a, v), EWriter a v) <$> os) ++ ((λ '(a, v), ECaller a v) <$> os')) in
  calling s = Idle ∧ metrics_thread_ s = None ∧ core (known s) = Server_new.
Proof.
  intros Hc Hos Hos'. destruct (run_inv false d es (λ E, ltac:(done))) as [_ H2]. rewrite Hc in H2. destruct (metrics_thread_ (run d es)) as [t|] eqn:Et; [|done].
  destruct H2 as (Hfl & _ & Hp & _). rewrite foldl_app.
  assert (Hl : (thread_left t ≤ length os)%nat) by (destruct t as [| |w|]; simpl; pose proof write_left_bounds; try specialize (H w); lia).
  destruct (writer_ends os _ t Hc Hfl Et Hl) as (Hc' & Hf' & Ht' & _). revert Hc' Hf' Ht'. cbv zeta. generalize (foldl step (run d es) ((λ '(a, v), EWriter a v) <$> os)).
  intros s Hc' Hf' Ht'. destruct os' as [|[a v] os']; [simpl in Hos'; lia|]. cbn [fmap list_fmap foldl step].
  destruct (begin_write_ok (λ _, True) (files s) (SnapshotMetricsJson v (known s)) Hp I) as (w & Eb & _).
  assert (HS : calling (caller_step a v s) = Stopping w ∧ metrics_thread_ (caller_step a v s) = None).
  { unfold caller_step. rewrite Hc', Ht'. cbn [known set_thread]. by rewrite Eb. }
  destruct HS as [Hc1 Ht1]. apply (caller_ends os' _ w); [done|done|]. pose proof (write_left_bounds w). simpl in Hos'. lia.
Qed.

(** ** Draining *)

(** Source: src/modules/proxy/TcpProxyServerWorker.cpp:59-79, TcpProxyServer::WaitForZeroConnections.
    [live k] are the sessions and the connectors of the workers at the [k]-th round. *)
Fixpoint WaitForZeroConnections (fuel : nat) (k : nat) (live : nat → list (Z * Z)) (now : nat → Z) (deadline : Z) : option bool :=
  match fuel with
  | O => None
  | S fuel =>
    if forallb (λ '(sessions, connectors), (sessions =? 0) && (connectors =? 0)) (live k) then Some true else
    if deadline <=? now (S k) then Some false else WaitForZeroConnections fuel (S k) live now deadline
  end.

(** What [Stop] asks of the workers. *)
Inductive request := StopAccepting_all | CancelConnectors | DrainSessions (force_close : bool) | StopWorkers.

(** What [Stop] finds in its two waits. *)
Record drain_view := mkDrainView { live1 : nat → list (Z * Z); now1 : nat → Z; live2 : nat → list (Z * Z); now2 : nat → Z }.

(** Source: src/modules/proxy/TcpProxyServer.cpp:363-377, TcpProxyServer::Stop. *)
Definition drain (fuel : nat) (v : drain_view) : option (list request) :=
  zero ← WaitForZeroConnections fuel 0 (live1 v) (now1 v) (now1 v 0%nat + drain_timeout config_);
  forced ← (if negb zero then
              _ ← WaitForZeroConnections fuel 0 (live2 v) (now2 v) (now2 v 0%nat + force_close_timeout config_);
              Some [CancelConnectors; DrainSessions true]
            else Some []);
  Some ([StopAccepting_all; CancelConnectors; DrainSessions false] ++ forced ++ [StopWorkers]).

Lemma wait_connections_loop fuel k live now deadline : WaitForZeroConnections fuel k live now deadline =
  wait_loop fuel k (λ j, if forallb (λ '(sessions, connectors), (sessions =? 0) && (connectors =? 0)) (live j) then 0 else 1) now deadline.
Proof. revert k. induction fuel as [|fuel IH]; intros k; simpl; [done|]. destruct (forallb _ (live k)); simpl; [done|]. by rewrite IH. Qed.

(** Rounds that are enough for both waits. *)
Definition rounds : nat := (Z.to_nat (Z.max (drain_timeout config_) (force_close_timeout config_) / 10) + 2)%nat.

Lemma wait_connections_returns live now timeout : timeout ≤ Z.max (drain_timeout config_) (force_close_timeout config_) → (∀ j, now j + 10 ≤ now (S j)) →
  ∃ r, WaitForZeroConnections rounds 0 live now (now 0%nat + timeout) = Some r ∧
    (r = true ↔ ∃ j, Forall (λ c, c = (0, 0)) (live j) ∧ ∀ i, (i < j)%nat → now (S i) < now 0%nat + timeout).
Proof.
  intros Ht Hn. rewrite wait_connections_loop. set (m := Z.max _ _) in Ht.
  assert (Hr : m < 10 * Z.of_nat rounds) by (unfold rounds; fold m; pose proof (Z.div_mod m 10 ltac:(lia)); pose proof (Z.mod_pos_bound m 10 ltac:(lia)); lia).
  match goal with |- context [wait_loop _ _ ?l _ _] => destruct (wait_loop_spec rounds 0 l now (now 0%nat + timeout) Hn) as (r & E1 & E2) end.
  { specialize (Hn 0%nat). lia. } { unfold rounds. lia. }
  exists r. split; [done|]. rewrite E2.
  assert (Hz : ∀ j, (if forallb (λ '(sessions, connectors), (sessions =? 0) && (connectors =? 0)) (live j) then 0 else 1) = 0 ↔ Forall (λ c, c = (0, 0)) (live j)).
  { intros j. induction (live j) as [|[a b] l IH]; simpl; [done|]. rewrite Forall_cons, <- IH.
    destruct (Z.eqb_spec a 0), (Z.eqb_spec b 0), (forallb _ l); simpl; split; intros; subst; try done; naive_solver. }
  split; intros (j & Hj); exists j.
  - destruct Hj as (_ & H1%Hz & H2). split; [done|]. intros i Hi. apply H2. lia.
  - destruct Hj as (H1%Hz & H2). split_and!; [lia|done|]. intros i Hi. apply H2. lia.
Qed.

(** Draining returns, for clocks that go on by ten milliseconds a round: the connections are
    closed by force exactly if in no round before the deadline all had ended. *)
Theorem drain_returns v : (∀ j, now1 v j + 10 ≤ now1 v (S j)) → (∀ j, now2 v j + 10 ≤ now2 v (S j)) →
  ∃ asked, drain rounds v = Some asked ∧ last asked = Some StopWorkers ∧
    (DrainSessions true ∉ asked ↔ ∃ j, Forall (λ c, c = (0, 0)) (live1 v j) ∧ ∀ i, (i < j)%nat → now1 v (S i) < now1 v 0%nat + drain_timeout config_).
Proof.
  intros Hn1 Hn2. unfold drain. destruct (wait_connections_returns (live1 v) (now1 v) (drain_timeout config_) ltac:(lia) Hn1) as (r & -> & Hr).
  destruct (wait_connections_returns (live2 v) (now2 v) (force_close_timeout config_) ltac:(lia) Hn2) as (r' & -> & _).
  cbn [mbind option_bind]. destruct r; cbn; eexists; (split; [done|]); (split; [done|]); rewrite <- Hr.
  - split; [done|]. intros _. set_solver.
  - split; [|done]. intros H. exfalso. apply H. set_solver.
Qed.
End Service.

(** ** Runs *)

Definition one_worker : service_config :=
  mkServiceConfig (mkProxyConfig (txt "up") 9000 [mkRoute (txt "a.example") (txt "b") 80] false 1) (txt "0.0.0.0") 8080 (txt "run/m.json") 30 30.
Definition resolves (host : bytes) (port : Z) : option (bytes * Z) := Some (host, port).
Definition seen (now sessions : Z) : sight := mkSight 42 now (λ _, mkStats (-1) sessions 1).
Definition fine : answer := mkAnswer true 5 true.
Definition no_files : disk := mkDisk None None.
Definition starts : event := EStart (mkServerEnv None (λ _, true)) (seen 10 0).

(** A start, a snapshot of the thread, and a stop during the next one. *)
Definition a_run : list event :=
  starts :: replicate 5 (ECaller fine (seen 10 0)) ++ replicate 3 (EWriter fine (seen 20 3)) ++ [EStop] ++ replicate 2 (EWriter fine (seen 20 3)).

Lemma metrics_whole_witness : let s := run resolves one_worker no_files a_run in
  calling s = Joining ∧ metrics_file (files s) ≠ None ∧ temp_file (files s) ≠ None ∧
  (∀ t, metrics_file (files s) = Some t → metrics_file no_files = Some t ∨
     ∃ es' v, let f := known (run resolves one_worker no_files es') in es' `prefix_of` a_run ∧ t = SnapshotMetricsJson one_worker v f ∧
       read_value (weight (snapshot one_worker v f)) t = Some (cleaned (snapshot one_worker v f), [])).
Proof.
  intros s. split_and!; [by vm_compute..|]. apply (metrics_whole resolves one_worker no_files a_run).
  by repeat (apply Forall_cons; split; [done|]).
Defined.

(** A stop after that run, and what a reader of the file gets then. *)
Example metrics_after_stop : let s := foldl (step resolves one_worker) (run resolves one_worker no_files a_run)
    (replicate 7 (EWriter fine (seen 20 3)) ++ replicate 7 (ECaller fine (seen 30 2))) in
  calling s = Idle ∧ metrics_thread_ s = None ∧ temp_file (files s) = None ∧
  metrics_file (files s) = Some (SnapshotMetricsJson one_worker (seen 30 2) (mkFacts (mkProxyServer false (Some (txt "up", 9000)) [(txt "a.example", (txt "b", 80))] None [0]) (Some 10) 0 0)).
Proof. by vm_compute. Qed.

(** The stream is tested before its buffer is written: on a full disk a truncated snapshot is
    published over the last good one. *)
Example truncated_snapshot : let full := mkAnswer true 5 false in
  let s := run resolves one_worker no_files (starts :: replicate 5 (ECaller full (seen 10 0))) in
  calling s = Idle ∧ length <$> metrics_file (files s) = Some 5%nat.
Proof. by vm_compute. Qed.
