(* ===== verification/AcmeServer.v ===== *)
(** * The ACME challenge server

    [src/modules/proxy/AcmeHttpChallengeServer.cpp]: the workers of Worker.v whose sessions are
    those of Acme.v.  Beside the members, [gone] holds the workers that were destroyed. *)

From Stdlib Require Import Sorting.Sorted.
From S2P Require Import Prelude Worker WebServer.

#[local] Open Scope Z_scope.
#[local] Set Warnings "-clear-no-such-hyp".

(** Source: include/iouring_runtime/proxy/AcmeHttpChallengeServer.h:16-43, AcmeHttpChallengeConfig. *)
Record AcmeHttpChallengeConfig := mkAcmeConfig {
  listen_host : bytes; listen_port : Z; webroot : bytes; worker_count : Z; max_sessions_per_worker : Z;
  send_queue_max_pending : Z; inactivity_timeout : Z; acme_ring : RingOptions; drain_timeout : Z; force_close_timeout : Z }.

(** Source: include/iouring_runtime/proxy/AcmeHttpChallengeServer.h:40-42, AcmeHttpChallengeConfig::Enabled. *)
Definition Enabled (c : AcmeHttpChallengeConfig) : bool := negb (listen_port c =? 0) && negb (bool_decide (webroot c = [])).

(** What the factory gives to a session. *)
Record acme_session := mkAcmeSession { session_webroot : bytes; max_pending : Z; session_inactivity : Z }.

(** A worker with its configuration. *)
Record acme_worker := mkAcmeWorker { acme_cfg : io_config; acme_io : worker }.

(** Source: include/iouring_runtime/proxy/AcmeHttpChallengeServer.h:53-56, AcmeHttpChallengeServer. *)
Record acme_server := mkAcmeServer { running_ : bool; workers_ : list acme_worker; gone : list worker }.

Section AcmeServer.
Context (config_ : AcmeHttpChallengeConfig).

(** Source: src/modules/proxy/AcmeHttpChallengeServer.cpp:35-45, AcmeHttpChallengeServer::Start.
    The factory. *)
Definition make_acme_session : acme_session := mkAcmeSession (webroot config_) (send_queue_max_pending config_) (inactivity_timeout config_).

(** Source: src/modules/proxy/AcmeHttpChallengeServer.cpp:47-60, AcmeHttpChallengeServer::Start. *)
Definition acme_io_config (i : Z) : io_config :=
  mkIoConfig i (listen_host config_, listen_port config_) (acme_ring config_) (u16 (i + 1)) (max_sessions_per_worker config_)
    (drain_timeout config_) (force_close_timeout config_).

(** Source: src/modules/proxy/AcmeHttpChallengeServer.cpp:62-71, AcmeHttpChallengeServer::Start.
    A worker that does not start is destroyed, which stops it. *)
Definition acme_start_one (env : worker_env) (i : Z) (s : acme_server) : acme_server :=
  let '(w, ok) := Worker_Start env Worker_new in
  if negb ok then mkAcmeServer (running_ s) (workers_ s) (gone s ++ [Worker_Stop w])
  else mkAcmeServer (running_ s) (workers_ s ++ [mkAcmeWorker (acme_io_config i) w]) (gone s).

(** Source: src/modules/proxy/AcmeHttpChallengeServer.cpp:28-84, AcmeHttpChallengeServer::Start. *)
Definition acme_Start (envs : nat → worker_env) (s : acme_server) : acme_server :=
  if running_ s || negb (Enabled config_) then s else
  let s := mkAcmeServer true (workers_ s) (gone s) in
  let s := foldl (λ s i, acme_start_one (envs i) (Z.of_nat i) s) s (seq 0 (Z.to_nat (worker_count config_))) in
  if bool_decide (workers_ s = []) then mkAcmeServer false [] (gone s) else s.

(** Source: src/modules/proxy/AcmeHttpChallengeServer.cpp:86-96, AcmeHttpChallengeServer::Stop. *)
Definition acme_Stop (s : acme_server) : acme_server :=
  if negb (running_ s) && bool_decide (workers_ s = []) then s else
  mkAcmeServer false [] (gone s ++ ((λ w, Worker_Stop (acme_io w)) <$> workers_ s)).

(** ** Life cycle *)

(** A new worker starts, or is without ring, thread and socket once it is destroyed. *)
Lemma fresh_worker env : let '(w, ok) := Worker_Start env Worker_new in
  if ok : bool then Worker.running_ w = true ∧ worker_inv false w else stopped (Worker_Stop w).
Proof.
  pose proof (Worker_Start_inv false env Worker_new Worker_new_inv) as Hinv.
  pose proof (Worker_Start_cases env Worker_new eq_refl eq_refl eq_refl eq_refl ltac:(simpl; set_solver)) as Hc.
  destruct (Worker_Start env Worker_new) as [w []]; cbn [fst] in Hinv; destruct Hc as (Hr & _); [done|].
  apply idle_stopped; [by apply Worker_Stop_inv|]. unfold Worker_Stop. by rewrite (wi_ring _ _ Hinv), Hr.
Qed.

Lemma Worker_Stop_stopped w : worker_inv false w → stopped (Worker_Stop w).
Proof.
  intros Hi. apply idle_stopped; [by apply Worker_Stop_inv|]. unfold Worker_Stop. pose proof (wi_ring _ _ Hi) as Hr.
  destruct (ring_ w) eqn:E; cbn [negb]; [|by rewrite <- Hr]. by rewrite <- Hr.
Qed.

(** The number of a worker is that of its configuration. *)
Definition works (n : Z) (w : acme_worker) : Prop :=
  0 ≤ id (acme_cfg w) < n ∧ acme_cfg w = acme_io_config (id (acme_cfg w)) ∧ Worker.running_ (acme_io w) = true ∧ worker_inv false (acme_io w).

Definition workers_ok (n : Z) (ws : list acme_worker) : Prop := Forall (works n) ws ∧ StronglySorted Z.lt ((λ w, id (acme_cfg w)) <$> ws).

Lemma sorted_snoc l x : StronglySorted Z.lt l → Forall (λ y, y < x) l → StronglySorted Z.lt (l ++ [x]).
Proof.
  induction 1 as [|y l _ IH Hy]; intros Hx; cbn; [by repeat constructor|]. apply Forall_cons in Hx as [Hyx Hx]. constructor; [by apply IH|].
  apply Forall_app. split; [done|]. by constructor.
Qed.

Lemma acme_start_one_ok env n s : workers_ok (Z.of_nat n) (workers_ s) → Forall stopped (gone s) →
  let s' := acme_start_one env (Z.of_nat n) s in
  workers_ok (Z.of_nat (S n)) (workers_ s') ∧ Forall stopped (gone s') ∧ running_ s' = running_ s.
Proof.
  intros [Hw Hs] Hg s'. subst s'. unfold acme_start_one. pose proof (fresh_worker env) as Hf. destruct (Worker_Start env Worker_new) as [w []]; cbn [negb workers_ gone running_].
  - split_and!; [|done|done]. split.
    + apply Forall_app. split; [eapply Forall_impl; [exact Hw|]; intros x (? & ? & ?); split; [lia|done]|].
      apply Forall_singleton. split_and!; [cbn; lia|cbn; lia|done|apply Hf|apply Hf].
    + rewrite fmap_app. apply sorted_snoc; [done|]. apply Forall_fmap. eapply Forall_impl; [exact Hw|]. intros x (? & _). cbn. lia.
  - split_and!; [|by apply Forall_app; split; [|apply Forall_singleton]|done]. split; [|done].
    eapply Forall_impl; [exact Hw|]. intros x (? & ? & ?). split; [lia|done].
Qed.

Lemma acme_start_loop envs n s : workers_ s = [] → Forall stopped (gone s) →
  let s' := foldl (λ s i, acme_start_one (envs i) (Z.of_nat i) s) s (seq 0 n) in
  workers_ok (Z.of_nat n) (workers_ s') ∧ Forall stopped (gone s') ∧ running_ s' = running_ s.
Proof.
  intros Hw Hg. induction n as [|n IH].
  { cbn. rewrite Hw. split_and!; [|done|done]. split; constructor. }
  rewrite seq_S, foldl_app. cbn [foldl plus]. destruct IH as (H1 & H2 & H3). destruct (acme_start_one_ok (envs n) n _ H1 H2) as (? & ? & H4).
  split_and!; [done|done|]. by rewrite H4.
Qed.

Record acme_inv (s : acme_server) : Prop := {
  ai_running : running_ s = bool_decide (workers_ s ≠ []);
  ai_enabled : running_ s = true → Enabled config_ = true;
  ai_workers : workers_ok (worker_count config_) (workers_ s);
  ai_gone : Forall stopped (gone s);
}.

Lemma acme_Start_inv envs s : 0 ≤ worker_count config_ → acme_inv s → acme_inv (acme_Start envs s).
Proof.
  intros Hn Hi. pose proof Hi as [H1 H2 H3 H4]. unfold acme_Start. destruct (running_ s) eqn:Er; [done|]. destruct (Enabled config_) eqn:Ee; [|done].
  cbn [orb negb]. symmetry in H1. apply bool_decide_eq_false in H1. assert (Hw : workers_ s = []) by (by destruct (workers_ s); [|destruct H1]).
  destruct (acme_start_loop envs (Z.to_nat (worker_count config_)) (mkAcmeServer true (workers_ s) (gone s)) Hw H4) as (L1 & L2 & L3).
  rewrite Z2Nat.id in L1 by done. set (s' := foldl _ _ _) in *. case_bool_decide as E1.
  - split; cbn; [done|done|split; constructor|done].
  - split; [|done|done|done]. rewrite L3. symmetry. by apply bool_decide_eq_true.
Qed.

Lemma acme_Stop_inv s : acme_inv s → acme_inv (acme_Stop s).
Proof.
  intros Hi. pose proof Hi as [H1 H2 [H3 _] H4]. unfold acme_Stop. destruct (_ && _); [done|]. split; cbn; [done|done|split; constructor|].
  apply Forall_app. split; [done|]. apply Forall_fmap. eapply Forall_impl; [exact H3|]. intros w (_ & _ & _ & Hw). by apply Worker_Stop_stopped.
Qed.

Inductive acme_op := AStart (envs : nat → worker_env) | AStop.
Definition acme_run (s : acme_server) (o : acme_op) : acme_server := match o with AStart envs => acme_Start envs s | AStop => acme_Stop s end.

(** After any calls of [Start] and [Stop], whatever fails: the challenge server runs exactly if
    it has workers, and only if it has a port and a web root; its workers run, with ascending
    numbers and what is configured; the workers it had before have no ring, thread or socket. *)
Theorem acme_server_lifecycle ops : 0 ≤ worker_count config_ → let s := foldl acme_run (mkAcmeServer false [] []) ops in
  (running_ s = true ↔ workers_ s ≠ []) ∧ (running_ s = true → Enabled config_ = true) ∧
  workers_ok (worker_count config_) (workers_ s) ∧ Forall stopped (gone s).
Proof.
  intros Hn s. assert (HI : acme_inv s).
  { subst s. induction ops as [|o ops IH] using rev_ind; [by split; [| |split; constructor|]|]. rewrite foldl_app. cbn [foldl].
    destruct o; [by apply acme_Start_inv|by apply acme_Stop_inv]. }
  destruct HI as [H1 H2 H3 H4]. split_and!; try done. rewrite H1. apply bool_decide_eq_true.
Qed.
End AcmeServer.

(** Two workers are asked for and one cannot listen. *)
Example one_of_two : let c := mkAcmeConfig (txt "0.0.0.0") 80 (txt "/w") 2 0 16384 30000 (mkRingOptions 512 1024 4096 1 0 1) 1000 200 in
  let s := acme_Start c (λ i, mkWorkerEnv true (λ _, (i =? 1)%nat)) (mkAcmeServer false [] []) in
  ((λ w, id (acme_cfg w)) <$> workers_ s) = [1] ∧ length (gone s) = 1%nat ∧ workers_ (acme_Stop s) = [].
Proof. by vm_compute. Qed.
