(* ===== verification/StatusJson.v ===== *)
(** * The JSON checker of the status server

    [JsonSyntaxValidator] of [app/examples/web/status_server/src/main.cpp], against a grammar
    of JSON texts.  The position in the text is what is left of it; [None] is [false]. *)

From S2P Require Import Prelude Text HttpRequest DropMeta.

#[local] Open Scope Z_scope.
#[local] Set Warnings "-clear-no-such-hyp".

(** ** The checker *)

(** Source: app/examples/web/status_server/src/main.cpp:407-412, JsonSyntaxValidator::SkipWhitespace. *)
Definition SkipWhitespace : bytes → bytes := skip_spaces.

Definition isxdigit (b : byte) : bool :=
  let v := byte_val b in is_digit b || ((97 <=? v) && (v <=? 102)) || ((65 <=? v) && (v <=? 70)).

(** The characters that may follow a backslash. *)
Definition escapes : bytes := dq :: backslash :: txt "/bfnrt".

(** Source: app/examples/web/status_server/src/main.cpp:514-523, JsonSyntaxValidator::ConsumeString.
    Four hexadecimal digits. *)
Definition consume_hex (s : bytes) : option bytes :=
  match s with
  | a :: b :: c :: d :: r => if isxdigit a && isxdigit b && isxdigit c && isxdigit d then Some r else None
  | _ => None
  end.

(** Source: app/examples/web/status_server/src/main.cpp:499-529, JsonSyntaxValidator::ConsumeString.
    The loop; each round takes a character. *)
Fixpoint consume_chars (fuel : nat) (s : bytes) : option bytes :=
  match fuel, s with
  | S fuel, ch :: r =>
    if decide (ch = dq) then Some r else
    if byte_val ch <? 32 then None else
    if negb (bool_decide (ch = backslash)) then consume_chars fuel r else
    match r with
    | [] => None
    | escaped :: r =>
      if decide (escaped = "u"%char) then r ← consume_hex r; consume_chars fuel r
      else if bool_decide (escaped ∈ escapes) then consume_chars fuel r else None
    end
  | _, _ => None
  end.

(** Source: app/examples/web/status_server/src/main.cpp:494-530, JsonSyntaxValidator::ConsumeString. *)
Definition ConsumeString (s : bytes) : option bytes :=
  match s with
  | b :: r => if decide (b = dq) then consume_chars (S (length r)) r else None
  | [] => None
  end.

(** Source: app/examples/web/status_server/src/main.cpp:540-549, JsonSyntaxValidator::ConsumeNumber. *)
Definition consume_int (s : bytes) : option bytes :=
  match s with
  | b :: r => if decide (b = "0"%char) then Some r else if is_digit b then Some (digits_prefix s).2 else None
  | [] => None
  end.

(** Source: app/examples/web/status_server/src/main.cpp:552-559, JsonSyntaxValidator::ConsumeNumber.
    One digit or more. *)
Definition consume_digits (s : bytes) : option bytes :=
  match digits_prefix s with ([], _) => None | (_, r) => Some r end.

(** Source: app/examples/web/status_server/src/main.cpp:550-560, JsonSyntaxValidator::ConsumeNumber. *)
Definition consume_fraction (s : bytes) : option bytes :=
  match s with b :: r => if decide (b = "."%char) then consume_digits r else Some s | [] => Some s end.

(** Source: app/examples/web/status_server/src/main.cpp:561-574, JsonSyntaxValidator::ConsumeNumber. *)
Definition consume_exponent (s : bytes) : option bytes :=
  match s with
  | b :: r =>
    if bool_decide (b = "e"%char ∨ b = "E"%char) then
      consume_digits (match r with c :: r' => if bool_decide (c = "+"%char ∨ c = "-"%char) then r' else r | [] => r end)
    else Some s
  | [] => Some s
  end.

(** Source: app/examples/web/status_server/src/main.cpp:532-576, JsonSyntaxValidator::ConsumeNumber.
    A character has been taken when it reaches its end. *)
Definition ConsumeNumber (s : bytes) : option bytes :=
  let s := match s with b :: r => if decide (b = "-"%char) then r else s | [] => s end in
  s ← consume_int s; s ← consume_fraction s; consume_exponent s.

(** Source: app/examples/web/status_server/src/main.cpp:578-584, JsonSyntaxValidator::ConsumeLiteral. *)
Definition ConsumeLiteral (literal : string) (s : bytes) : option bytes := strip_prefix (txt literal) s.

(** Source: app/examples/web/status_server/src/main.cpp:414-492, JsonSyntaxValidator::ConsumeValue.
    With [ConsumeArray] and [ConsumeObject], whose loops are [consume_elements] and
    [consume_members]. *)
Fixpoint ConsumeValue (fuel : nat) (s : bytes) : option bytes :=
  match fuel with
  | O => None
  | S fuel =>
    match SkipWhitespace s with
    | [] => None
    | b :: r =>
      if decide (b = "{"%char) then
        match SkipWhitespace r with
        | c :: r' => if decide (c = "}"%char) then Some r' else consume_members fuel (c :: r')
        | [] => consume_members fuel []
        end
      else if decide (b = "["%char) then
        match SkipWhitespace r with
        | c :: r' => if decide (c = "]"%char) then Some r' else consume_elements fuel (c :: r')
        | [] => consume_elements fuel []
        end
      else if decide (b = dq) then ConsumeString (b :: r)
      else if decide (b = "t"%char) then ConsumeLiteral "true" (b :: r)
      else if decide (b = "f"%char) then ConsumeLiteral "false" (b :: r)
      else if decide (b = "n"%char) then ConsumeLiteral "null" (b :: r)
      else ConsumeNumber (b :: r)
    end
  end
with consume_members (fuel : nat) (s : bytes) : option bytes :=
  match fuel with
  | O => None
  | S fuel =>
    r ← ConsumeString (SkipWhitespace s);
    match SkipWhitespace r with
    | c :: r =>
      if decide (c = ":"%char) then
        r ← ConsumeValue fuel r;
        match SkipWhitespace r with
        | c :: r => if decide (c = ","%char) then consume_members fuel r else if decide (c = "}"%char) then Some r else None
        | [] => None
        end
      else None
    | [] => None
    end
  end
with consume_elements (fuel : nat) (s : bytes) : option bytes :=
  match fuel with
  | O => None
  | S fuel =>
    r ← ConsumeValue fuel s;
    match SkipWhitespace r with
    | c :: r => if decide (c = ","%char) then consume_elements fuel r else if decide (c = "]"%char) then Some r else None
    | [] => None
    end
  end.

(** Rounds that are enough: two for each character. *)
Definition enough (s : bytes) : nat := S (2 * length s).

(** Source: app/examples/web/status_server/src/main.cpp:397-404, JsonSyntaxValidator::Valid. *)
Definition Valid (json : bytes) : bool :=
  match ConsumeValue (enough json) (SkipWhitespace json) with
  | Some r => bool_decide (SkipWhitespace r = [])
  | None => false
  end.

(** ** The grammar

    That of RFC 8259, with the white space of [std::isspace]. *)

Definition ws (w : bytes) : Prop := Forall (λ b, isspace b = true) w.

Inductive chars : bytes → Prop :=
| chars_nil : chars []
| chars_plain b s : b ≠ dq → b ≠ backslash → 32 ≤ byte_val b → chars s → chars (b :: s)
| chars_escape b s : b ∈ escapes → chars s → chars (backslash :: b :: s)
| chars_hex a b c d s : isxdigit a = true → isxdigit b = true → isxdigit c = true → isxdigit d = true → chars s →
    chars (backslash :: "u"%char :: a :: b :: c :: d :: s).

Definition jstring (s : bytes) : Prop := ∃ t, s = dq :: t ++ [dq] ∧ chars t.

Definition digits (s : bytes) : Prop := s ≠ [] ∧ Forall (λ b, is_digit b = true) s.

Definition integer (s : bytes) : Prop := s = txt "0" ∨ (digits s ∧ head s ≠ Some "0"%char).
Definition fraction (s : bytes) : Prop := s = [] ∨ ∃ ds, s = "."%char :: ds ∧ digits ds.
Definition exponent (s : bytes) : Prop := s = [] ∨ ∃ e sign ds, s = e :: sign ++ ds ∧ e ∈ txt "eE" ∧ sign ∈ [txt ""; txt "+"; txt "-"] ∧ digits ds.
Definition number (s : bytes) : Prop := ∃ m i f e, s = m ++ i ++ f ++ e ∧ m ∈ [txt ""; txt "-"] ∧ integer i ∧ fraction f ∧ exponent e.

Inductive value : bytes → Prop :=
| value_literal l : l ∈ [txt "true"; txt "false"; txt "null"] → value l
| value_number n : number n → value n
| value_string s : jstring s → value s
| value_empty_array w : ws w → value (txt "[" ++ w ++ txt "]")
| value_array es : elements es → value (txt "[" ++ es ++ txt "]")
| value_empty_object w : ws w → value (txt "{" ++ w ++ txt "}")
| value_object ms : members ms → value (txt "{" ++ ms ++ txt "}")
with elements : bytes → Prop :=
| element w v w' : ws w → value v → ws w' → elements (w ++ v ++ w')
| elements_cons w v w' es : ws w → value v → ws w' → elements es → elements (w ++ v ++ w' ++ txt "," ++ es)
with members : bytes → Prop :=
| member w k w1 w2 v w' : ws w → jstring k → ws w1 → ws w2 → value v → ws w' → members (w ++ k ++ w1 ++ txt ":" ++ w2 ++ v ++ w')
| members_cons w k w1 w2 v w' ms : ws w → jstring k → ws w1 → ws w2 → value v → ws w' → members ms →
    members (w ++ k ++ w1 ++ txt ":" ++ w2 ++ v ++ w' ++ txt "," ++ ms).

Definition json_text (s : bytes) : Prop := ∃ w v w', s = w ++ v ++ w' ∧ ws w ∧ value v ∧ ws w'.

Scheme value_mind := Induction for value Sort Prop
with elements_mind := Induction for elements Sort Prop
with members_mind := Induction for members Sort Prop.
Combined Scheme grammar_ind from value_mind, elements_mind, members_mind.

(** ** White space *)

Lemma ws_nil : ws [].
Proof. constructor. Qed.
#[local] Hint Resolve ws_nil : core.

Lemma skip_ws s : ∃ w, s = w ++ skip_spaces s ∧ ws w.
Proof.
  induction s as [|b s (w & E & Hw)]; [by exists []|]. simpl. destruct (isspace b) eqn:Eb; [|by exists []].
  exists (b :: w). split; [cbn; by rewrite <- E|]. by constructor.
Qed.

Lemma skip_app w r : ws w → skip_spaces (w ++ r) = skip_spaces r.
Proof. induction 1 as [|b w Hb _ IH]; [done|]. simpl. by rewrite Hb. Qed.

Lemma skip_idem s : skip_spaces (skip_spaces s) = skip_spaces s.
Proof. induction s as [|b s IH]; [done|]. simpl. destruct (isspace b) eqn:E; [done|]. simpl. by rewrite E. Qed.

(** A text that does not start with white space. *)
Definition solid (s : bytes) : Prop := match s with b :: _ => isspace b = false | [] => True end.

Lemma skip_solid s : solid s → skip_spaces s = s.
Proof. destruct s as [|b s]; [done|]. simpl. by intros ->. Qed.

Lemma ws_app w w' : ws w → ws w' → ws (w ++ w').
Proof. unfold ws. rewrite Forall_app. done. Qed.

(** ** Strings *)

Lemma consume_hex_sound s r : consume_hex s = Some r →
  ∃ a b c d, s = a :: b :: c :: d :: r ∧ isxdigit a = true ∧ isxdigit b = true ∧ isxdigit c = true ∧ isxdigit d = true.
Proof.
  destruct s as [|a [|b [|c [|d s]]]]; try done. cbn [consume_hex]. destruct (_ && _) eqn:E; [|done]. intros [= ->].
  apply andb_prop in E as [E ?]. apply andb_prop in E as [E ?]. apply andb_prop in E as [? ?]. by exists a, b, c, d.
Qed.

Lemma consume_chars_sound fuel s r : consume_chars fuel s = Some r → ∃ t, s = t ++ dq :: r ∧ chars t.
Proof.
  revert s. induction fuel as [|fuel IH]; intros s Hs; [done|]. destruct s as [|ch s]; [done|]. cbn [consume_chars] in Hs.
  case_decide as E1; [injection Hs as ->; subst; exists []; split; [done|constructor]|]. destruct (Z.ltb_spec (byte_val ch) 32); [done|].
  case_bool_decide as E2; cbn [negb] in Hs.
  - destruct s as [|escaped s]; [done|]. case_decide as E3.
    + destruct (consume_hex s) as [s'|] eqn:Eh; [|done]. cbn in Hs. apply IH in Hs as (t & -> & Ht).
      apply consume_hex_sound in Eh as (a & b & c & d & -> & ? & ? & ? & ?). subst. exists (backslash :: "u"%char :: a :: b :: c :: d :: t).
      split; [done|]. by constructor.
    + case_bool_decide as E4; [|done]. apply IH in Hs as (t & -> & Ht). subst. exists (backslash :: escaped :: t). split; [done|]. by constructor.
  - apply IH in Hs as (t & -> & Ht). exists (ch :: t). split; [done|]. by constructor.
Qed.

Lemma consume_chars_complete t r fuel : chars t → (length t < fuel)%nat → consume_chars fuel (t ++ dq :: r) = Some r.
Proof.
  intros Ht. revert fuel. induction Ht as [|b s Hq Hb Hv _ IH|b s Hb _ IH|a b c d s Ha Hb Hc Hd _ IH]; intros fuel Hf;
    (destruct fuel as [|fuel]; [simpl in Hf; lia|]); cbn [app consume_chars length] in *.
  - by rewrite decide_True.
  - rewrite decide_False, (proj2 (Z.ltb_ge _ _)), bool_decide_false by done. cbn [negb]. apply IH. lia.
  - rewrite decide_False by done. assert (Hu' : "u"%char ∉ escapes) by by apply (bool_decide_unpack _). assert (Hu : b ≠ "u"%char) by by intros ->.
    change (byte_val backslash <? 32) with false. rewrite bool_decide_true by done. cbn [negb].
    rewrite decide_False, bool_decide_true by done. apply IH. lia.
  - rewrite decide_False by done. change (byte_val backslash <? 32) with false. rewrite bool_decide_true by done. cbn [negb].
    rewrite decide_True by done. cbn [consume_hex]. rewrite Ha, Hb, Hc, Hd. cbn [andb mbind option_bind]. apply IH. lia.
Qed.

Lemma ConsumeString_sound s r : ConsumeString s = Some r → ∃ k, s = k ++ r ∧ jstring k.
Proof.
  unfold ConsumeString. destruct s as [|b s]; [done|]. case_decide as E; [|done]. intros (t & -> & Ht)%consume_chars_sound. subst.
  exists (dq :: t ++ [dq]). split; [cbn [app]; by rewrite <- app_assoc|]. by exists t.
Qed.

Lemma ConsumeString_complete k r : jstring k → ConsumeString (k ++ r) = Some r.
Proof.
  intros (t & -> & Ht). cbn [app]. rewrite <- app_assoc. unfold ConsumeString. rewrite decide_True by done. cbn [app].
  apply consume_chars_complete; [done|]. rewrite length_app. lia.
Qed.

(** ** Numbers *)

Lemma digits_prefix_sound s ds r : digits_prefix s = (ds, r) → s = ds ++ r ∧ Forall (λ b, is_digit b = true) ds.
Proof.
  revert ds r. induction s as [|b s IH]; intros ds r; simpl; [by intros [= <- <-]|]. destruct (is_digit b) eqn:Eb; [|by intros [= <- <-]].
  destruct (digits_prefix s) as [ds' r'] eqn:E. intros [= <- <-]. destruct (IH ds' r' eq_refl) as [-> ?]. split; [done|]. by constructor.
Qed.

(** What may follow a number so that it ends there. *)
Definition follows (r : bytes) : Prop :=
  match r with b :: _ => is_digit b = false ∧ b ≠ "."%char ∧ b ≠ "e"%char ∧ b ≠ "E"%char | [] => True end.

Lemma consume_digits_sound s r : consume_digits s = Some r → ∃ ds, s = ds ++ r ∧ digits ds.
Proof.
  unfold consume_digits. destruct (digits_prefix s) as [ds r'] eqn:E. apply digits_prefix_sound in E as [-> Hd]. destruct ds as [|b ds]; [done|].
  intros [= <-]. by exists (b :: ds).
Qed.

Lemma consume_digits_complete ds r : digits ds → match r with b :: _ => is_digit b = false | [] => True end → consume_digits (ds ++ r) = Some r.
Proof. intros [Hne Hd] Hr. unfold consume_digits. rewrite digits_prefix_app by done. by destruct ds. Qed.

Lemma ConsumeNumber_sound s r : ConsumeNumber s = Some r → ∃ n, s = n ++ r ∧ number n.
Proof.
  unfold ConsumeNumber.
  assert (Hm : ∃ m s', s = m ++ s' ∧ m ∈ [txt ""; txt "-"] ∧ match s with b :: r => if decide (b = "-"%char) then r else s | [] => s end = s').
  { destruct s as [|b s]; [by exists [], []; split_and!; [|left|]|]. case_decide as E; [|by exists [], (b :: s); split_and!; [|left|]].
    subst. exists (txt "-"), s. split_and!; [done|right; left|done]. }
  destruct Hm as (m & s' & -> & Hm & ->). destruct (consume_int s') as [s1|] eqn:E1; [|done]. cbn [mbind option_bind].
  assert (Hi : ∃ i, s' = i ++ s1 ∧ integer i).
  { destruct s' as [|b t]; [done|]. cbn [consume_int] in E1. case_decide as Eb; [injection E1 as ->; subst; exists (txt "0"); split; [done|by left]|].
    destruct (is_digit b) eqn:Hb; [|done]. destruct (digits_prefix (b :: t)) as [ds r1] eqn:Ed. pose proof (digits_prefix_sound _ _ _ Ed) as [Es Hd].
    injection E1 as <-. exists ds. split; [done|]. right. simpl in Ed. rewrite Hb in Ed. destruct (digits_prefix t) as [ds' r']. injection Ed as <- <-.
    split; [done|]. by intros [= ->]. }
  destruct Hi as (i & -> & Hi). destruct (consume_fraction s1) as [s2|] eqn:E2; [|done]. cbn [mbind option_bind]. intros E3.
  assert (Hf : ∃ f, s1 = f ++ s2 ∧ fraction f).
  { destruct s1 as [|b t]; [injection E2 as <-; exists []; split; [done|by left]|]. cbn [consume_fraction] in E2. case_decide as Eb.
    - apply consume_digits_sound in E2 as (ds & -> & Hd). subst. exists ("."%char :: ds). split; [done|]. right. by exists ds.
    - injection E2 as <-. exists []. split; [done|by left]. }
  destruct Hf as (f & -> & Hf).
  assert (He : ∃ e, s2 = e ++ r ∧ exponent e).
  { destruct s2 as [|b t]; [injection E3 as <-; exists []; split; [done|by left]|]. cbn [consume_exponent] in E3. case_bool_decide as Eb.
    - assert (Hs : ∃ sign t', t = sign ++ t' ∧ sign ∈ [txt ""; txt "+"; txt "-"] ∧
        match t with c :: r' => if bool_decide (c = "+"%char ∨ c = "-"%char) then r' else t | [] => t end = t').
      { destruct t as [|c t]; [by exists [], []; split_and!; [|left|]|]. case_bool_decide as Ec; [|by exists [], (c :: t); split_and!; [|left|]].
        destruct Ec as [-> | ->]; [exists (txt "+"), t|exists (txt "-"), t]; (split_and!; [done| |done]); right; [by left|right; by left]. }
      destruct Hs as (sign & t' & -> & Hs & Et). rewrite Et in E3. apply consume_digits_sound in E3 as (ds & -> & Hd).
      exists (b :: sign ++ ds). split; [cbn; by rewrite <- app_assoc|]. right. exists b, sign, ds. split_and!; [done| |done|done].
      destruct Eb as [-> | ->]; [by left|right; by left].
    - injection E3 as <-. exists []. split; [done|by left]. }
  destruct He as (e & -> & He). exists (m ++ i ++ f ++ e). split; [by rewrite <- !app_assoc|]. by exists m, i, f, e.
Qed.

Definition nodigit (r : bytes) : Prop := match r with b :: _ => is_digit b = false | [] => True end.

Lemma exponent_complete e r : exponent e → follows r → consume_exponent (e ++ r) = Some r ∧ nodigit (e ++ r) ∧ head (e ++ r) ≠ Some "."%char.
Proof.
  intros [->|(b & sign & ds & -> & Hb & Hs & Hd)] Hr.
  - cbn [app]. destruct r as [|c r]; [done|]. destruct Hr as (? & ? & ? & ?). cbn [consume_exponent]. rewrite bool_decide_false by naive_solver.
    split_and!; [done|done|]. by intros [= ->].
  - assert (Hdr : consume_digits (ds ++ r) = Some r) by (apply consume_digits_complete; [done|]; destruct r; [done|apply Hr]).
    assert (Hbe : b = "e"%char ∨ b = "E"%char) by (cbn in Hb; set_solver).
    cbn [app consume_exponent]. rewrite bool_decide_true by done. rewrite <- app_assoc. split_and!.
    + assert (Hs' : sign = [] ∨ sign = txt "+" ∨ sign = txt "-") by set_solver. destruct Hs' as [->|[->| ->]]; [|exact Hdr|exact Hdr].
      cbn [app]. destruct Hd as [Hne Hd]. destruct ds as [|c ds]; [done|]. cbn [app]. apply Forall_cons in Hd as [Hc _].
      rewrite bool_decide_false; [exact Hdr|]. intros [-> | ->]; discriminate Hc.
    + by destruct Hbe as [-> | ->].
    + by destruct Hbe as [-> | ->].
Qed.

Lemma fraction_complete f y : fraction f → nodigit y → head y ≠ Some "."%char → consume_fraction (f ++ y) = Some y ∧ nodigit (f ++ y).
Proof.
  intros [->|(ds & -> & Hd)] Hn Hy; cbn [app].
  - destruct y as [|b y]; [done|]. cbn [consume_fraction]. rewrite decide_False; [done|]. by intros ->.
  - cbn [consume_fraction]. rewrite decide_True by done. split; [by apply consume_digits_complete|done].
Qed.

Lemma integer_complete i x : integer i → nodigit x → consume_int (i ++ x) = Some x ∧ ∃ b t, i ++ x = b :: t ∧ is_digit b = true.
Proof.
  intros [->|[[Hne Hd] Hh]] Hx; [split; [done|by eexists _, _]|]. destruct i as [|b i]; [done|].
  pose proof Hd as [Hb _]%Forall_cons. split; [|by exists b, (i ++ x)].
  cbn [app consume_int]. rewrite decide_False, Hb by (intros ->; by destruct Hh). change (b :: i ++ x) with ((b :: i) ++ x). by rewrite digits_prefix_app.
Qed.

Lemma ConsumeNumber_complete n r : number n → follows r → ConsumeNumber (n ++ r) = Some r ∧ ∃ b t, n ++ r = b :: t ∧ (is_digit b = true ∨ b = "-"%char).
Proof.
  intros (m & i & f & e & -> & Hm & Hi & Hf & He) Hr. rewrite <- !app_assoc.
  destruct (exponent_complete e r He Hr) as (E1 & N1 & H1). destruct (fraction_complete f (e ++ r) Hf N1 H1) as (E2 & N2).
  destruct (integer_complete i (f ++ e ++ r) Hi N2) as (E3 & b & t & Eb & Hb). unfold ConsumeNumber.
  assert (Hm' : m = [] ∨ m = txt "-") by set_solver. destruct Hm' as [->| ->].
  - cbn [app]. rewrite Eb. rewrite decide_False by (by intros ->). rewrite <- Eb, E3. cbn [mbind option_bind]. rewrite E2. cbn [mbind option_bind].
    split; [done|]. exists b, t. auto.
  - cbn [app txt list_ascii_of_string]. rewrite decide_True, E3 by done. cbn [mbind option_bind]. rewrite E2. cbn [mbind option_bind].
    split; [done|]. eexists _, _. auto.
Qed.

(** ** Soundness *)

Lemma members_ws w ms : ws w → members ms → members (w ++ ms).
Proof.
  intros Hw [w0 k w1 w2 v w' H0 Hk H1 H2 Hv H'|w0 k w1 w2 v w' ms' H0 Hk H1 H2 Hv H' Hm]; rewrite app_assoc;
    [apply member|apply members_cons]; auto using ws_app.
Qed.

Lemma elements_ws w es : ws w → elements es → elements (w ++ es).
Proof. intros Hw [w0 v w' H0 Hv H'|w0 v w' es' H0 Hv H' He]; rewrite app_assoc; [apply element|apply elements_cons]; auto using ws_app. Qed.

Definition sound (fuel : nat) : Prop :=
  (∀ s r, ConsumeValue fuel s = Some r → ∃ w v, s = w ++ v ++ r ∧ ws w ∧ value v) ∧
  (∀ s r, consume_members fuel s = Some r → ∃ ms, s = ms ++ txt "}" ++ r ∧ members ms) ∧
  (∀ s r, consume_elements fuel s = Some r → ∃ es, s = es ++ txt "]" ++ r ∧ elements es).

Lemma value_sound fuel s r : sound fuel → ConsumeValue (S fuel) s = Some r → ∃ w v, s = w ++ v ++ r ∧ ws w ∧ value v.
Proof.
  intros (_ & IHm & IHe) Hs. cbn [ConsumeValue] in Hs. unfold SkipWhitespace in Hs. destruct (skip_ws s) as (w & Es & Hw).
  destruct (skip_spaces s) as [|b t]; [done|]. exists w.
  assert (HV : ∃ v, b :: t = v ++ r ∧ value v); [|destruct HV as (v & Ev & Hv); exists v; by rewrite <- Ev].
  destruct (skip_ws t) as (w1 & Et & Hw1). repeat case_decide; try subst b.
  - destruct (skip_spaces t) as [|c t'] eqn:Ek.
    + apply IHm in Hs as (ms & E & _). by destruct ms.
    + case_decide as Ec.
      * injection Hs as ->. subst c. exists (txt "{" ++ w1 ++ txt "}"). split; [by rewrite Et, <- !app_assoc|by apply value_empty_object].
      * apply IHm in Hs as (ms & E & Hms). exists (txt "{" ++ (w1 ++ ms) ++ txt "}"). split; [rewrite Et, E, <- !app_assoc; done|].
        by apply value_object, members_ws.
  - destruct (skip_spaces t) as [|c t'] eqn:Ek.
    + apply IHe in Hs as (es & E & _). by destruct es.
    + case_decide as Ec.
      * injection Hs as ->. subst c. exists (txt "[" ++ w1 ++ txt "]"). split; [by rewrite Et, <- !app_assoc|by apply value_empty_array].
      * apply IHe in Hs as (es & E & Hes). exists (txt "[" ++ (w1 ++ es) ++ txt "]"). split; [rewrite Et, E, <- !app_assoc; done|].
        by apply value_array, elements_ws.
  - apply ConsumeString_sound in Hs as (k & -> & Hk). exists k. split; [done|by apply value_string].
  - apply strip_prefix_Some in Hs as ->. exists (txt "true"). split; [done|]. apply value_literal. by left.
  - apply strip_prefix_Some in Hs as ->. exists (txt "false"). split; [done|]. apply value_literal. right. by left.
  - apply strip_prefix_Some in Hs as ->. exists (txt "null"). split; [done|]. apply value_literal. right. right. by left.
  - apply ConsumeNumber_sound in Hs as (n & -> & Hn). exists n. split; [done|by apply value_number].
Qed.

Lemma members_sound fuel s r : sound fuel → consume_members (S fuel) s = Some r → ∃ ms, s = ms ++ txt "}" ++ r ∧ members ms.
Proof.
  intros (IHv & IHm & _) Hs. cbn [consume_members] in Hs. unfold SkipWhitespace in Hs. destruct (skip_ws s) as (w & Es & Hw).
  destruct (ConsumeString (skip_spaces s)) as [r1|] eqn:E1; [|done]. cbn [mbind option_bind] in Hs.
  apply ConsumeString_sound in E1 as (k & E1 & Hk). destruct (skip_ws r1) as (w1 & Er1 & Hw1). destruct (skip_spaces r1) as [|c r2]; [done|].
  case_decide as Ec; [|done]. subst c. destruct (ConsumeValue fuel r2) as [r3|] eqn:E3; [|done]. cbn [mbind option_bind] in Hs.
  apply IHv in E3 as (w2 & v & E3 & Hw2 & Hv). destruct (skip_ws r3) as (w' & Er3 & Hw'). destruct (skip_spaces r3) as [|c r4]; [done|].
  case_decide as Ec; [|case_decide as Ec2; [|done]].
  - apply IHm in Hs as (ms & E4 & Hms). subst c. exists (w ++ k ++ w1 ++ txt ":" ++ w2 ++ v ++ w' ++ txt "," ++ ms).
    split; [|by apply members_cons]. rewrite Es, E1, Er1, E3, Er3, E4. by repeat (rewrite <- ?app_assoc; cbn [app txt list_ascii_of_string]).
  - injection Hs as ->. subst c. exists (w ++ k ++ w1 ++ txt ":" ++ w2 ++ v ++ w'). split; [|by constructor].
    rewrite Es, E1, Er1, E3, Er3. by repeat (rewrite <- ?app_assoc; cbn [app txt list_ascii_of_string]).
Qed.

Lemma elements_sound fuel s r : sound fuel → consume_elements (S fuel) s = Some r → ∃ es, s = es ++ txt "]" ++ r ∧ elements es.
Proof.
  intros (IHv & _ & IHe) Hs. cbn [consume_elements] in Hs. unfold SkipWhitespace in Hs. destruct (ConsumeValue fuel s) as [r1|] eqn:E1; [|done].
  cbn [mbind option_bind] in Hs. apply IHv in E1 as (w & v & -> & Hw & Hv). destruct (skip_ws r1) as (w' & Er1 & Hw').
  destruct (skip_spaces r1) as [|c r2]; [done|]. case_decide as Ec; [|case_decide as Ec2; [|done]].
  - apply IHe in Hs as (es & E4 & Hes). subst c. exists (w ++ v ++ w' ++ txt "," ++ es). split; [|by apply elements_cons].
    rewrite Er1, E4, <- !app_assoc. done.
  - injection Hs as ->. subst c. exists (w ++ v ++ w'). split; [|by constructor]. rewrite Er1, <- !app_assoc. done.
Qed.

Lemma consume_sound fuel : sound fuel.
Proof.
  induction fuel as [|fuel IH]; [by split_and!|]. split_and!; [apply (λ s r, value_sound fuel s r IH)|apply (λ s r, members_sound fuel s r IH)|apply (λ s r, elements_sound fuel s r IH)].
Qed.

(** ** Completeness *)

Lemma space_follows b : isspace b = true → is_digit b = false ∧ b ≠ "."%char ∧ b ≠ "e"%char ∧ b ≠ "E"%char.
Proof. destruct b as [[] [] [] [] [] [] [] []]; try discriminate; intros _; by split_and!. Qed.

Lemma follows_ws w r : ws w → follows r → follows (w ++ r).
Proof. intros [|b w' Hb _] Hr; [done|]. by apply space_follows. Qed.

Lemma digit_solid b : is_digit b = true ∨ b = "-"%char → isspace b = false ∧ b ≠ "]"%char ∧ b ≠ "}"%char ∧ b ≠ "{"%char ∧ b ≠ "["%char ∧ b ≠ dq ∧
  b ≠ "t"%char ∧ b ≠ "f"%char ∧ b ≠ "n"%char.
Proof. intros [Hb| ->]; [|done]. revert Hb. destruct b as [[] [] [] [] [] [] [] []]; try discriminate; intros _; by split_and!. Qed.

(** The first character of a value. *)
Lemma value_head v r : value v → ∃ b t, v ++ r = b :: t ∧ isspace b = false ∧ b ≠ "]"%char.
Proof.
  destruct 1 as [l Hl|n Hn|s (t & -> & _)| | | | ]; try by eexists _, _.
  - assert (Hl' : l = txt "true" ∨ l = txt "false" ∨ l = txt "null") by set_solver. destruct Hl' as [->|[->| ->]]; by eexists _, _.
  - destruct (ConsumeNumber_complete n [] Hn I) as (_ & b & t & Eb & Hb). rewrite app_nil_r in Eb. exists b, (t ++ r). rewrite Eb.
    destruct (digit_solid b Hb) as (? & ? & _). by split_and!.
Qed.

Lemma ConsumeValue_skip fuel s : ConsumeValue fuel (skip_spaces s) = ConsumeValue fuel s.
Proof. destruct fuel; [done|]. cbn [ConsumeValue]. unfold SkipWhitespace. by rewrite skip_idem. Qed.

Lemma consume_elements_skip fuel s : consume_elements fuel (skip_spaces s) = consume_elements fuel s.
Proof. destruct fuel; [done|]. cbn [consume_elements]. by rewrite ConsumeValue_skip. Qed.

Lemma consume_members_skip fuel s : consume_members fuel (skip_spaces s) = consume_members fuel s.
Proof. destruct fuel; [done|]. cbn [consume_members]. unfold SkipWhitespace. by rewrite skip_idem. Qed.

Lemma jstring_solid k r : jstring k → skip_spaces (k ++ r) = k ++ r ∧ ∃ t, k ++ r = dq :: t.
Proof. intros (t & -> & _). split; [done|]. by eexists. Qed.

Definition complete_value (v : bytes) : Prop := ∀ fuel w r, ws w → follows r → (S (2 * length v) ≤ fuel)%nat → ConsumeValue fuel (w ++ v ++ r) = Some r.
Definition complete_elements (es : bytes) : Prop := ∀ fuel r, (2 * length es + 2 ≤ fuel)%nat → consume_elements fuel (es ++ txt "]" ++ r) = Some r.
Definition complete_members (ms : bytes) : Prop := ∀ fuel r, (2 * length ms + 2 ≤ fuel)%nat → consume_members fuel (ms ++ txt "}" ++ r) = Some r.

Lemma complete_start v : (∀ fuel r, follows r → (S (2 * length v) ≤ fuel)%nat → ConsumeValue fuel (v ++ r) = Some r) → complete_value v.
Proof. intros H fuel w r Hw Hr Hf. rewrite <- ConsumeValue_skip, skip_app, ConsumeValue_skip by done. by apply H. Qed.

Lemma complete_bracket es : elements es → complete_elements es → complete_value (txt "[" ++ es ++ txt "]").
Proof.
  intros He IH. apply complete_start. intros fuel r _ Hf. destruct fuel as [|fuel]; [lia|]. rewrite !length_app in Hf. cbn [length txt list_ascii_of_string] in Hf.
  rewrite <- !app_assoc. cbn [app txt list_ascii_of_string ConsumeValue]. unfold SkipWhitespace. cbn [skip_spaces isspace].
  change (isspace "[") with false. cbn iota.
  rewrite decide_False, decide_True by done.
  assert (Hh : ∃ c t, skip_spaces (es ++ "]"%char :: r) = c :: t ∧ c ≠ "]"%char).
  { destruct He as [w v w' Hw Hv Hw'|w v w' es' Hw Hv Hw' He']; rewrite <- !app_assoc, skip_app by done;
      match goal with |- context [skip_spaces (v ++ ?x)] => destruct (value_head v x Hv) as (b & t & Eb & Hb & Hne) end;
      rewrite Eb, skip_solid by done; by eexists _, _. }
  destruct Hh as (c & t & Ec & Hc). rewrite Ec, decide_False, <- Ec, consume_elements_skip by done. apply IH. lia.
Qed.

(** An object ends where its brace is, whatever follows. *)
Lemma complete_object ms fuel r : members ms → complete_members ms → (2 * length ms + 3 ≤ fuel)%nat →
  ConsumeValue fuel (txt "{" ++ ms ++ txt "}" ++ r) = Some r.
Proof.
  intros Hm IH Hf. destruct fuel as [|fuel]; [lia|].
  cbn [app txt list_ascii_of_string ConsumeValue]. unfold SkipWhitespace. cbn [skip_spaces].
  change (isspace "{") with false. cbn iota. rewrite decide_True by done.
  assert (Hh : ∃ t, skip_spaces (ms ++ "}"%char :: r) = dq :: t).
  { destruct Hm as [w k w1 w2 v w' Hw Hk|w k w1 w2 v w' ms' Hw Hk]; rewrite <- !app_assoc, skip_app by done;
      match goal with |- context [skip_spaces (k ++ ?x)] => destruct (jstring_solid k x Hk) as (-> & t & Et) end; by exists t. }
  destruct Hh as (t & Et). rewrite Et, decide_False, <- Et, consume_members_skip by done. apply IH. lia.
Qed.

Lemma complete_brace ms : members ms → complete_members ms → complete_value (txt "{" ++ ms ++ txt "}").
Proof.
  intros Hm IH. apply complete_start. intros fuel r _ Hf. rewrite !length_app in Hf. cbn [length txt list_ascii_of_string] in Hf.
  rewrite <- !app_assoc. apply complete_object; [done|done|lia].
Qed.

Lemma complete_empty o c w : (o = "["%char ∧ c = "]"%char) ∨ (o = "{"%char ∧ c = "}"%char) → ws w → complete_value ([o] ++ w ++ [c]).
Proof.
  intros Ho Hw. apply complete_start. intros fuel r _ Hf. destruct fuel as [|fuel]; [lia|]. rewrite <- !app_assoc. cbn [app ConsumeValue]. unfold SkipWhitespace.
  assert (Hs : skip_spaces (w ++ c :: r) = c :: r) by (rewrite skip_app by done; apply skip_solid; by destruct Ho as [[-> ->]|[-> ->]]).
  cbn [skip_spaces]. replace (isspace o) with false by (by destruct Ho as [[-> _]|[-> _]]). cbn iota. rewrite Hs.
  destruct Ho as [[-> ->]|[-> ->]].
  - rewrite decide_False, decide_True by done. by rewrite decide_True.
  - rewrite decide_True by done. by rewrite decide_True.
Qed.

Lemma complete_literal l : l ∈ [txt "true"; txt "false"; txt "null"] → complete_value l.
Proof.
  intros Hl. apply complete_start. intros fuel r _ Hf. destruct fuel as [|fuel]; [lia|].
  assert (Hl' : l = txt "true" ∨ l = txt "false" ∨ l = txt "null") by set_solver. destruct Hl' as [->|[->| ->]]; done.
Qed.

Lemma complete_number n : number n → complete_value n.
Proof.
  intros Hn. apply complete_start. intros fuel r Hr Hf. destruct fuel as [|fuel]; [lia|].
  destruct (ConsumeNumber_complete n r Hn Hr) as (En & b & t & Eb & Hb). destruct (digit_solid b Hb) as (Hsp & ? & ? & ? & ? & ? & ? & ? & ?).
  cbn [ConsumeValue]. unfold SkipWhitespace. rewrite Eb, skip_solid by done. do 6 (rewrite decide_False by done). by rewrite <- Eb.
Qed.

Lemma complete_string k : jstring k → complete_value k.
Proof.
  intros Hk. apply complete_start. intros fuel r _ Hf. destruct fuel as [|fuel]; [lia|]. pose proof (ConsumeString_complete k r Hk) as Ek.
  destruct (jstring_solid k r Hk) as (Es & t & Et). cbn [ConsumeValue]. unfold SkipWhitespace. rewrite Es, Et.
  do 2 (rewrite decide_False by done). rewrite decide_True by done. by rewrite <- Et.
Qed.

Lemma consume_complete : (∀ v, value v → complete_value v) ∧ (∀ es, elements es → complete_elements es) ∧ (∀ ms, members ms → complete_members ms).
Proof.
  apply (grammar_ind (λ v _, complete_value v) (λ es _, complete_elements es) (λ ms _, complete_members ms)).
  - intros l Hl. by apply complete_literal.
  - intros n Hn. by apply complete_number.
  - intros k Hk. by apply complete_string.
  - intros w Hw. apply complete_empty; auto.
  - intros es He IH. by apply complete_bracket.
  - intros w Hw. apply complete_empty; auto.
  - intros ms Hm IH. by apply complete_brace.
  - intros w v w' Hw Hv IH Hw' fuel r Hf. destruct fuel as [|fuel]; [lia|]. rewrite !length_app in Hf. cbn [consume_elements]. rewrite <- !app_assoc.
    rewrite IH by (done || lia || by apply follows_ws). cbn [mbind option_bind]. unfold SkipWhitespace. by rewrite skip_app.
  - intros w v w' es Hw Hv IH Hw' He IHe fuel r Hf. destruct fuel as [|fuel]; [lia|]. rewrite !length_app in Hf. cbn [length txt list_ascii_of_string] in Hf.
    cbn [consume_elements]. rewrite <- !app_assoc. rewrite IH by (done || lia || by apply follows_ws). cbn [mbind option_bind]. unfold SkipWhitespace.
    rewrite skip_app by done. cbn [app txt list_ascii_of_string skip_spaces]. change (isspace ",") with false. cbn iota. rewrite decide_True by done.
    apply IHe. lia.
  - intros w k w1 w2 v w' Hw Hk Hw1 Hw2 Hv IH Hw' fuel r Hf. destruct fuel as [|fuel]; [lia|]. rewrite !length_app in Hf. cbn [length txt list_ascii_of_string] in Hf.
    cbn [consume_members]. unfold SkipWhitespace. rewrite <- !app_assoc. rewrite skip_app by done.
    match goal with |- context [skip_spaces (k ++ ?x)] => rewrite (proj1 (jstring_solid k x Hk)) end. rewrite ConsumeString_complete by done. cbn [mbind option_bind].
    rewrite skip_app by done. cbn [app txt list_ascii_of_string skip_spaces]. change (isspace ":") with false. cbn iota. rewrite decide_True by done.
    rewrite IH by (done || lia || by apply follows_ws). cbn [mbind option_bind]. by rewrite skip_app.
  - intros w k w1 w2 v w' ms Hw Hk Hw1 Hw2 Hv IH Hw' Hms IHm fuel r Hf. destruct fuel as [|fuel]; [lia|]. rewrite !length_app in Hf. cbn [length txt list_ascii_of_string] in Hf.
    cbn [consume_members]. unfold SkipWhitespace. rewrite <- !app_assoc. rewrite skip_app by done.
    match goal with |- context [skip_spaces (k ++ ?x)] => rewrite (proj1 (jstring_solid k x Hk)) end. rewrite ConsumeString_complete by done. cbn [mbind option_bind].
    rewrite skip_app by done. cbn [app txt list_ascii_of_string skip_spaces]. change (isspace ":") with false. cbn iota. rewrite decide_True by done.
    rewrite IH by (done || lia || by apply follows_ws). cbn [mbind option_bind]. rewrite skip_app by done. cbn [skip_spaces]. change (isspace ",") with false. cbn iota.
    rewrite decide_True by done. apply IHm. lia.
Qed.

Lemma Valid_sound json : Valid json = true → json_text json.
Proof.
  unfold Valid, SkipWhitespace. destruct (ConsumeValue _ _) as [r|] eqn:E; [|done]. intros Hr%bool_decide_eq_true. rewrite ConsumeValue_skip in E.
  apply consume_sound in E as (w & v & -> & Hw & Hv). exists w, v, r. split_and!; [done|done|done|].
  destruct (skip_ws r) as (w' & Er & Hw'). rewrite Hr, app_nil_r in Er. by subst.
Qed.

Lemma Valid_complete json : json_text json → Valid json = true.
Proof.
  intros (w & v & w' & -> & Hw & Hv & Hw'). unfold Valid, SkipWhitespace. rewrite ConsumeValue_skip. destruct consume_complete as (HV & _).
  rewrite (HV v Hv _ w w' Hw).
  - apply bool_decide_eq_true. rewrite <- (app_nil_r w'). by rewrite skip_app.
  - rewrite <- (app_nil_r w'). by apply follows_ws.
  - unfold enough. rewrite !length_app. lia.
Qed.

(** An object that starts another value is all of it. *)
Lemma object_whole v r : value (v ++ r) → value v → head v = Some "{"%char → r = [].
Proof.
  intros Ht Hv Hh. destruct consume_complete as (HV & _ & HM).
  pose proof (HV (v ++ r) Ht (enough (v ++ r)) [] [] ws_nil I (le_n _)) as E. cbn [app] in E. rewrite app_nil_r in E.
  destruct Hv as [l Hl|n Hn|s (t & -> & _)|w Hw|es He|w Hw|ms Hm]; try discriminate Hh.
  - assert (Hl' : l = txt "true" ∨ l = txt "false" ∨ l = txt "null") by set_solver. by destruct Hl' as [->|[->| ->]].
  - destruct (ConsumeNumber_complete n [] Hn I) as (_ & b & t & Eb & Hb). rewrite app_nil_r in Eb. rewrite Eb in Hh. injection Hh as ->.
    by destruct Hb.
  - rewrite <- !app_assoc in E. cbn [app txt list_ascii_of_string enough ConsumeValue] in E. unfold SkipWhitespace in E. cbn [skip_spaces] in E.
    change (isspace "{") with false in E. cbn iota in E. rewrite decide_True in E by done. rewrite skip_app in E by done. cbn [skip_spaces] in E.
    change (isspace "}") with false in E. cbn iota in E. rewrite decide_True in E by done. by injection E.
  - rewrite <- !app_assoc in E. rewrite complete_object in E; [by injection E|done|by apply HM|]. unfold enough. rewrite !length_app. cbn. lia.
Qed.

(** C25: the checker accepts exactly the JSON texts: a text is valid if and only if it is a value
    of the grammar with white space around it. In particular the rounds it is given are
    enough for every text. *)
Theorem validator_exact json : Valid json = true ↔ json_text json.
Proof. split; [apply Valid_sound|apply Valid_complete]. Qed.

(** The white space is that of [std::isspace], which has two characters more than the
    standard of JSON allows. *)
Example form_feed_valid : Valid (["012"%char] ++ txt "[1, -0.5e+3 ,{}]" ++ ["011"%char]) = true.
Proof. by vm_compute. Qed.

Example not_json : map Valid [txt ""; txt "01"; txt "[1,]"; txt "nul"; txt "1 2"; txt "-"; txt "[}"] = replicate 7 false.
Proof. by vm_compute. Qed.
