(* ===== verification/StatusServer.v ===== *)
(** * The status server

    [app/examples/web/status_server/src/main.cpp]: reading the proxy's metrics file and the
    processes of the system, and the JSON text of [/metrics].

    What files hold is an argument: the metrics file, those of [/proc] as texts, and
    [/proc/meminfo], whose numbers are given. *)

From S2P Require Import Prelude Text Paths HttpRequest DropMeta ProxyServer ProxyConfig ProxyMetrics StatusJson.

#[local] Open Scope Z_scope.
#[local] Set Warnings "-clear-no-such-hyp".

(** Source: app/examples/web/status_server/src/main.cpp:24-29, MemoryInfo. *)
Record MemoryInfo := mkMemory { total_kb : Z; available_kb : Z; swap_total_kb : Z; swap_free_kb : Z }.

(** Source: app/examples/web/status_server/src/main.cpp:31-37, ProcessInfo. *)
Record ProcessInfo := mkProcess { proc_pid : Z; proc_name : bytes; proc_state : bytes; vm_rss_kb : Z; vm_size_kb : Z }.

(** Source: app/examples/web/status_server/src/main.cpp:39-44, ProxyRuntimeWorker. *)
Record ProxyRuntimeWorker := mkRuntimeWorker { rw_index : Z; rw_pinned_cpu : Z; rw_sessions : Z; rw_connectors : Z }.

(** Source: app/examples/web/status_server/src/main.cpp:46-49, ProxyRuntimeRoute. *)
Record ProxyRuntimeRoute := mkRuntimeRoute { rr_hostname : bytes; rr_upstream : bytes }.

(** Source: app/examples/web/status_server/src/main.cpp:51-68, ProxyRuntimeSnapshot. *)
Record ProxyRuntimeSnapshot := mkRuntime {
  valid : bool; raw_json : bytes; error : bytes; default_upstream : bytes; rs_listen_host : bytes; rs_listen_port : Z;
  rs_pid : Z; uptime_seconds : Z; configured_worker_count : Z; running_worker_count : Z; total_live_sessions : Z; total_live_connectors : Z;
  rs_tls_enabled : bool; tls_context_loaded : bool; rs_workers : list ProxyRuntimeWorker; rs_routes : list ProxyRuntimeRoute }.

(** Source: app/examples/web/status_server/src/main.cpp:126-156, JsonEscape. *)
Definition JsonEscape : bytes → bytes := ProxyServer.JsonEscape.

(** Source: app/examples/web/status_server/src/main.cpp:158-188, HtmlEscape.
    One character. *)
Definition html_char (ch : byte) : bytes :=
  if decide (ch = "&"%char) then txt "&amp;" else
  if decide (ch = "<"%char) then txt "&lt;" else
  if decide (ch = ">"%char) then txt "&gt;" else
  if decide (ch = dq) then txt "&quot;" else
  if decide (ch = "'"%char) then txt "&#39;" else
  if byte_val ch <? 32 then txt " " else [ch].

(** Source: app/examples/web/status_server/src/main.cpp:158-188, HtmlEscape. *)
Definition HtmlEscape (text : bytes) : bytes := concat (html_char <$> text).

(** Source: app/examples/web/status_server/src/main.cpp:190-198, Trim. *)
Definition Trim : bytes → bytes := ProxyConfig.Trim.

(** What follows the colon after the first occurrence of a quoted key. *)
Definition after_colon (json : bytes) (key : string) : option bytes :=
  '(_, json) ← split_sub (needle (txt key)) json;
  '(_, json) ← split_at ":"%char json; Some json.

(** Source: app/examples/web/status_server/src/main.cpp:204-229, ExtractJsonUint. *)
Definition ExtractJsonUint (json : bytes) (key : string) : option Z := json ← after_colon json key; read_uint json.

(** An [int] that wraps around. *)
Definition i32 (z : Z) : Z := (z + 2 ^ 31) mod 2 ^ 32 - 2 ^ 31.

(** Source: app/examples/web/status_server/src/main.cpp:231-260, ExtractJsonInt.
    A number that does not fit an [int] is undefined behaviour there; here it wraps
    around.  Nothing is proved of such numbers. *)
Definition ExtractJsonInt (json : bytes) (key : string) : option Z :=
  json ← after_colon json key;
  let '(sign, json) := match skip_spaces json with
    | b :: r => if decide (b = "-"%char) then (-1, r) else (1, b :: r)
    | [] => (1, [])
    end in
  match digits_prefix json with
  | ([], _) => None
  | (ds, _) => Some (i32 (foldl (λ value b, i32 (value * 10 + (byte_val b - 48))) 0 ds * sign))
  end.

(** Source: app/examples/web/status_server/src/main.cpp:262-279, ExtractJsonBool. *)
Definition ExtractJsonBool (json : bytes) (key : string) : option bool :=
  json ← after_colon json key;
  let value := Trim json in
  if starts_with (txt "true") value then Some true else if starts_with (txt "false") value then Some false else None.

(** Source: app/examples/web/status_server/src/main.cpp:297-311, ExtractJsonString.
    Up to the closing quote; what follows a backslash is taken as it is. *)
Fixpoint read_raw (s : bytes) : option bytes :=
  match s with
  | [] => None
  | ch :: r =>
    if decide (ch = dq) then Some [] else
    if decide (ch = backslash) then
      match r with [] => None | c :: r => (cons c) <$> read_raw r end
    else (cons ch) <$> read_raw r
  end.

(** Source: app/examples/web/status_server/src/main.cpp:281-312, ExtractJsonString. *)
Definition ExtractJsonString (json : bytes) (key : string) : option bytes :=
  json ← after_colon json key;
  match skip_spaces json with b :: r => if decide (b = dq) then read_raw r else None | [] => None end.

(** Source: app/examples/web/status_server/src/main.cpp:330-353, ExtractJsonArray.
    From the opening bracket; [quoting] is [in_string] with, if so, [escape].  [acc] is the
    text taken. *)
Fixpoint array_text (depth : Z) (quoting : option bool) (acc s : bytes) : option bytes :=
  match s with
  | [] => None
  | ch :: r =>
    match quoting with
    | Some escape =>
      array_text depth (if escape then Some false else if decide (ch = backslash) then Some true else if decide (ch = dq) then None else Some false) (acc ++ [ch]) r
    | None =>
      if decide (ch = dq) then array_text depth (Some false) (acc ++ [ch]) r
      else if decide (ch = "["%char) then array_text (depth + 1) None (acc ++ [ch]) r
      else if decide (ch = "]"%char) then (if depth - 1 =? 0 then Some (drop 1 acc) else array_text (depth - 1) None (acc ++ [ch]) r)
      else array_text depth None (acc ++ [ch]) r
    end
  end.

(** Source: app/examples/web/status_server/src/main.cpp:314-355, ExtractJsonArray. *)
Definition ExtractJsonArray (json : bytes) (key : string) : option bytes :=
  json ← after_colon json key;
  '(_, json) ← split_at "["%char json; array_text 0 None [] ("["%char :: json).

(** Source: app/examples/web/status_server/src/main.cpp:357-391, SplitJsonObjects.
    [object] is the text since [object_start]. *)
Fixpoint split_objects (depth : Z) (quoting : option bool) (object : option bytes) (s : bytes) : list bytes :=
  match s with
  | [] => []
  | ch :: r =>
    let object := (λ o, o ++ [ch]) <$> object in
    match quoting with
    | Some escape =>
      split_objects depth (if escape then Some false else if decide (ch = backslash) then Some true else if decide (ch = dq) then None else Some false) object r
    | None =>
      if decide (ch = dq) then split_objects depth (Some false) object r
      else if decide (ch = "{"%char) then split_objects (depth + 1) None (if depth =? 0 then Some [ch] else object) r
      else if decide (ch = "}"%char) then
        match object with
        | Some o => if depth - 1 =? 0 then o :: split_objects (depth - 1) None None r else split_objects (depth - 1) None object r
        | None => split_objects (depth - 1) None object r
        end
      else split_objects depth None object r
    end
  end.

(** Source: app/examples/web/status_server/src/main.cpp:357-391, SplitJsonObjects. *)
Definition SplitJsonObjects (array : bytes) : list bytes := split_objects 0 None None array.

(** Source: app/examples/web/status_server/src/main.cpp:717-734, ReadProxyRuntimeSnapshot.
    A snapshot that is refused. *)
Definition refused (raw : bytes) (message : string) (path : bytes) : ProxyRuntimeSnapshot :=
  mkRuntime false raw (txt message ++ path) [] [] 0 0 0 0 0 0 0 false false [] [].

(** Source: app/examples/web/status_server/src/main.cpp:775-790, ReadProxyRuntimeSnapshot. *)
Definition runtime_worker (json : bytes) : ProxyRuntimeWorker :=
  mkRuntimeWorker (default 0 (ExtractJsonUint json "index")) (default (-1) (ExtractJsonInt json "pinned_cpu"))
    (default 0 (ExtractJsonUint json "live_sessions")) (default 0 (ExtractJsonUint json "live_connectors")).

(** Source: app/examples/web/status_server/src/main.cpp:794-803, ReadProxyRuntimeSnapshot. *)
Definition runtime_route (json : bytes) : ProxyRuntimeRoute :=
  mkRuntimeRoute (default [] (ExtractJsonString json "hostname")) (default [] (ExtractJsonString json "upstream")).

(** Source: app/examples/web/status_server/src/main.cpp:711-806, ReadProxyRuntimeSnapshot.
    [raw] is what the file holds, nothing if it cannot be read. *)
Definition ReadProxyRuntimeSnapshot (path raw : bytes) : ProxyRuntimeSnapshot :=
  let trimmed := Trim raw in
  if bool_decide (trimmed = []) then refused raw "metrics file not readable: " path else
  if negb (starts_with (txt "{") trimmed) || negb (ends_with (txt "}") trimmed) then refused raw "metrics file is not a JSON object: " path else
  if negb (Valid trimmed) then refused raw "metrics file contains invalid JSON: " path else
  if negb (bool_decide (ExtractJsonString trimmed "service" = Some (txt "tcp_reverse_proxy")))
  then refused raw "metrics file is not a tcp_reverse_proxy snapshot: " path else
  let num key := default 0 (ExtractJsonUint trimmed key) in
  let str key := default [] (ExtractJsonString trimmed key) in
  let tls key := match split_sub (needle (txt "tls")) trimmed with
    | Some (_, rest) => default false (ExtractJsonBool (needle (txt "tls") ++ rest) key)
    | None => false
    end in
  mkRuntime true raw [] (str "default_upstream") (str "host") (num "port") (num "pid") (num "uptime_seconds")
    (num "configured_worker_count") (num "running_worker_count") (num "total_live_sessions") (num "total_live_connectors")
    (tls "enabled") (tls "context_loaded")
    (from_option (map runtime_worker ∘ SplitJsonObjects) [] (ExtractJsonArray trimmed "workers"))
    (from_option (map runtime_route ∘ SplitJsonObjects) [] (ExtractJsonArray trimmed "configured_routes")).

(** ** Processes *)

(** Source: app/examples/web/status_server/src/main.cpp:590-600, ParseKbValue. *)
Fixpoint parse_kb (value : Z) (line : bytes) : Z :=
  match line with
  | [] => value
  | ch :: line => if is_digit ch then parse_kb (u64 (value * 10 + (byte_val ch - 48))) line else if value =? 0 then parse_kb value line else value
  end.
Definition ParseKbValue (line : bytes) : Z := parse_kb 0 line.

(** Source: app/examples/web/status_server/src/main.cpp:652-670, ReadProcessInfo.
    A line of the status file. *)
Definition status_line (info : ProcessInfo) (line : bytes) : ProcessInfo :=
  let '(mkProcess p n st rss size) := info in
  match strip_prefix (txt "Name:") line with Some rest => mkProcess p (skip_spaces rest) st rss size | None =>
  match strip_prefix (txt "State:") line with Some rest => mkProcess p n (skip_spaces rest) rss size | None =>
  if starts_with (txt "VmRSS:") line then mkProcess p n st (ParseKbValue line) size else
  if starts_with (txt "VmSize:") line then mkProcess p n st rss (ParseKbValue line) else info
  end end.

(** Source: app/examples/web/status_server/src/main.cpp:642-672, ReadProcessInfo. *)
Definition ReadProcessInfo (status : option bytes) (p : Z) : option ProcessInfo :=
  text ← status; Some (foldl status_line (mkProcess p [] [] 0 0) (getlines [] text)).

(** An entry of [/proc]: its name, whether it is a directory, and below it the target of
    [exe], [cmdline] and [status]. *)
Record proc_entry := mkEntry { entry_name : bytes; is_directory : bool; exe : option fspath; cmdline : bytes; status : option bytes }.

(** Source: app/examples/web/status_server/src/main.cpp:674-709, FindProcess.
    Through the entries in the order of the directory. *)
Fixpoint find_process (wanted : bytes) (fallback : option ProcessInfo) (entries : list proc_entry) : option ProcessInfo :=
  match entries with
  | [] => fallback
  | e :: entries =>
    let name := entry_name e in
    if negb (is_directory e) || bool_decide (name = []) || negb (forallb is_digit name) then find_process wanted fallback entries else
    let info := ReadProcessInfo (status e) (digits_value name) in
    if bool_decide (filename_of <$> exe e = Some wanted) then info else
    let first_arg := match split_at "000"%char (cmdline e) with Some (arg, _) => arg | None => cmdline e end in
    if bool_decide (first_arg ≠ [] ∧ filename_of first_arg = wanted) then info else
    let fallback := if bool_decide (fallback = None ∧ is_Some (split_sub wanted (cmdline e))) then info else fallback in
    find_process wanted fallback entries
  end.
Definition FindProcess (wanted : bytes) (entries : list proc_entry) : option ProcessInfo := find_process wanted None entries.

(** ** The metrics text *)

(** Source: app/examples/web/status_server/src/main.cpp:634-640, ReadHostname. *)
Definition ReadHostname (raw : bytes) : bytes :=
  let host := reverse (skip_spaces (reverse raw)) in if bool_decide (host = []) then txt "unknown" else host.

(** Source: app/examples/web/status_server/src/main.cpp:832-842, BuildMetricsJson. *)
Definition process_json (proxy : option ProcessInfo) : bytes :=
  match proxy with
  | Some p => txt "{" ++ num_field "pid" (proc_pid p) ++ txt "," ++ str_field "name" (proc_name p) ++ txt "," ++
      str_field "state" (proc_state p) ++ txt "," ++ num_field "rss_kb" (vm_rss_kb p) ++ txt "," ++ num_field "vmsize_kb" (vm_size_kb p) ++ txt "}"
  | None => txt "null"
  end.

(** Source: app/examples/web/status_server/src/main.cpp:816-859, BuildMetricsJson. *)
Definition BuildMetricsJson (mem : MemoryInfo) (proxy : option ProcessInfo) (runtime : ProxyRuntimeSnapshot) (host load : bytes) : bytes :=
  txt "{" ++ str_field "service" (txt "status_server") ++ txt "," ++
  str_field "hostname" host ++ txt "," ++ str_field "loadavg" load ++ txt "," ++
  field (txt "memory") ++ txt "{" ++ num_field "total_kb" (total_kb mem) ++ txt "," ++ num_field "available_kb" (available_kb mem) ++ txt "," ++
  num_field "swap_total_kb" (swap_total_kb mem) ++ txt "," ++ num_field "swap_free_kb" (swap_free_kb mem) ++ txt "}" ++ txt "," ++
  field (txt "proxy") ++ process_json proxy ++ txt "," ++
  field (txt "proxy_runtime") ++ (if valid runtime then raw_json runtime else txt "null") ++ txt "," ++
  field (txt "proxy_runtime_error") ++ (if valid runtime then txt "null" else print_string (error runtime)) ++ txt "}".

(** ** Printed documents are JSON texts *)

Lemma to_digits_head fuel n : 0 < n < 2 ^ Z.of_nat fuel → head (to_digits fuel n []) ≠ Some "0"%char.
Proof.
  revert n. induction fuel as [|fuel IH]; intros n Hn; [simpl in Hn; lia|]. cbn [to_digits]. destruct (Z.ltb_spec n 10) as [Hl|Hl].
  - rewrite Z.mod_small by lia. cbn. intros [= E]. apply (f_equal byte_val) in E. rewrite byte_val_digit in E by lia. change (byte_val "0") with 48 in E. lia.
  - assert (Hd : 0 < n / 10 < 2 ^ Z.of_nat fuel).
    { split; [apply Z.div_str_pos; lia|]. apply Z.div_lt_upper_bound; [lia|]. rewrite Nat2Z.inj_succ, Z.pow_succ_r in Hn by lia. lia. }
    assert (Hf : 0 < Z.of_nat fuel) by (destruct fuel; [simpl in Hd; lia|lia]).
    destruct (to_digits_value fuel (n / 10) ltac:(lia) Hf) as (_ & _ & Hne). specialize (IH (n / 10) Hd). rewrite to_digits_app.
    by destruct (to_digits fuel (n / 10) []).
Qed.

Lemma to_string_integer n : 0 ≤ n → integer (to_string n).
Proof.
  intros Hn. destruct (Z.eq_dec n 0) as [->|]; [by left|]. right. destruct (to_string_value n Hn) as (_ & Hd & Hne). split; [done|].
  apply to_digits_head. split; [lia|]. rewrite Nat2Z.inj_succ, Z2Nat.id by apply Z.log2_nonneg. apply Z.log2_spec. lia.
Qed.

Lemma number_printed n : value (to_string_i n).
Proof.
  apply value_number. unfold to_string_i. destruct (Z.ltb_spec n 0).
  - exists (txt "-"), (to_string (- n)), [], []. split_and!; [by rewrite app_nil_r|right; by left|apply to_string_integer; lia|by left|by left].
  - exists [], (to_string n), [], []. split_and!; [by rewrite app_nil_r|by left|by apply to_string_integer|by left|by left].
Qed.

Lemma chars_app s t : chars s → chars t → chars (s ++ t).
Proof. induction 1; intros Ht; [done|apply chars_plain; auto|apply chars_escape; auto|apply chars_hex; auto]. Qed.

Lemma escape_char_chars c : chars (escape_char c).
Proof.
  unfold escape_char. repeat case_decide; subst; try (apply chars_escape; [by apply (bool_decide_unpack _)|constructor]).
  destruct (Z.ltb_spec (byte_val c) 32); apply chars_plain; done || constructor.
Qed.

Lemma string_printed s : jstring (print_string s).
Proof.
  exists (JsonEscape s). split; [done|]. unfold JsonEscape, ProxyServer.JsonEscape. induction s as [|c s IH]; [constructor|].
  cbn [fmap list_fmap concat]. apply chars_app; [apply escape_char_chars|done].
Qed.

Lemma value_text v : value v → json_text v.
Proof. intros Hv. exists [], v, []. rewrite app_nil_r. split_and!; [done|constructor|done|constructor]. Qed.

(** Members and elements from their texts. *)
Definition pair_text (m : bytes * bytes) : bytes := m.1 ++ txt ":" ++ m.2.

Lemma members_join ms : ms ≠ [] → Forall (λ m, jstring m.1 ∧ json_text m.2) ms → members (join_with (txt ",") (map pair_text ms)).
Proof.
  intros Hne HF. induction HF as [|[k t] ms [Hk Ht] _ IH]; [done|]. cbn [fst snd] in *. destruct Ht as (w & v & w' & -> & Hw & Hv & Hw').
  destruct ms as [|m ms].
  - cbn [map join_with fmap list_fmap concat]. rewrite app_nil_r. apply (member [] k [] w v w'); done || constructor.
  - cbn [map]. rewrite join_with_two. change (pair_text m :: map pair_text ms) with (map pair_text (m :: ms)). unfold pair_text at 1. cbn [fst snd].
    rewrite <- !app_assoc. apply (members_cons [] k [] w v w'); first [done|constructor|by apply IH].
Qed.

Lemma elements_join ts : ts ≠ [] → Forall json_text ts → elements (join_with (txt ",") ts).
Proof.
  intros Hne HF. induction HF as [|t ts Ht _ IH]; [done|]. destruct Ht as (w & v & w' & -> & Hw & Hv & Hw').
  destruct ts as [|t ts]; [cbn; rewrite app_nil_r; by apply element|]. rewrite join_with_two, <- !app_assoc. apply elements_cons; first [done|by apply IH].
Qed.

Lemma object_text ms : Forall (λ m, jstring m.1 ∧ json_text m.2) ms → value (txt "{" ++ join_with (txt ",") (map pair_text ms) ++ txt "}").
Proof. intros HF. destruct ms as [|m ms]; [by apply (value_empty_object []); constructor|]. by apply value_object, members_join. Qed.

Lemma print_value v : value (print v).
Proof.
  induction v as [s|n|b|vs IH|ms IH] using json_nested_ind.
  - apply value_string, string_printed.
  - apply number_printed.
  - apply value_literal. destruct b; [by left|right; by left].
  - cbn [print]. destruct vs as [|v vs]; [by apply (value_empty_array []); constructor|]. apply value_array, elements_join; [done|].
    apply Forall_forall. intros t Ht. apply list_elem_of_fmap in Ht as (u & -> & Hu). rewrite Forall_forall in IH. by apply value_text, IH.
  - rewrite print_obj. assert (E : map print_member ms = map pair_text (map (λ '(k, v), (print_string k, print v)) ms)).
    { rewrite map_map. apply map_ext. by intros [k v]. }
    rewrite E. apply object_text. apply Forall_forall. intros t Ht. apply list_elem_of_fmap in Ht as ([k v] & -> & Hu). cbn [fst snd].
    rewrite Forall_forall in IH. split; [apply string_printed|]. by apply value_text, (IH (k, v)).
Qed.

(** ** The text of the status server *)

Lemma Trim_parts s : ∃ w w', s = w ++ Trim s ++ w' ∧ ws w ∧ ws w'.
Proof.
  unfold Trim, ProxyConfig.Trim. destruct (skip_ws s) as (w & Es & Hw). destruct (skip_ws (reverse (skip_spaces s))) as (w' & Er & Hw').
  exists w, (reverse w'). split_and!; [|done|by apply Forall_reverse]. rewrite <- reverse_app, <- Er, reverse_involutive. done.
Qed.

(** A snapshot that is taken is a JSON text, and nothing else is. *)
Lemma taken_text path raw : valid (ReadProxyRuntimeSnapshot path raw) = true → raw_json (ReadProxyRuntimeSnapshot path raw) = raw ∧ json_text raw.
Proof.
  unfold ReadProxyRuntimeSnapshot. case_bool_decide; [done|]. destruct (_ || _); [done|]. destruct (Valid (Trim raw)) eqn:EV; [|done]. cbn [negb].
  destruct (negb _); [done|]. intros _. split; [done|]. apply Valid_sound in EV as (w & v & w' & E & Hw & Hv & Hw').
  destruct (Trim_parts raw) as (w0 & w1 & E1 & Hw0 & Hw1). exists (w0 ++ w), v, (w' ++ w1). rewrite E1, E, <- !app_assoc.
  split_and!; [done|by apply ws_app|done|by apply ws_app].
Qed.

Lemma process_json_text p : json_text (process_json p).
Proof.
  apply value_text. destruct p as [p|]; [|apply value_literal; right; right; by left].
  replace (process_json (Some p)) with (print (JObj [(txt "pid", JNum (proc_pid p)); (txt "name", JStr (proc_name p)); (txt "state", JStr (proc_state p));
    (txt "rss_kb", JNum (vm_rss_kb p)); (txt "vmsize_kb", JNum (vm_size_kb p))])); [apply print_value|].
  unfold process_json, num_field, str_field, field. cbn [print map join_with fmap list_fmap concat]. by repeat (rewrite <- ?app_assoc; cbn [app]).
Qed.

(** Whatever the metrics file of the proxy holds, and whatever the names and states of
    processes are, the text the status server answers with on /metrics is a JSON text;
    what it copies from the file is a JSON text as well. *)
Theorem status_json_valid mem proxy path raw host load :
  let r := ReadProxyRuntimeSnapshot path raw in
  json_text (BuildMetricsJson mem proxy r host load) ∧ (valid r = true → raw_json r = raw ∧ json_text raw).
Proof.
  intros r. split; [|apply taken_text]. apply value_text.
  assert (Hr : json_text (if valid r then raw_json r else txt "null")).
  { destruct (valid r) eqn:Ev; [|apply value_text, value_literal; right; right; by left]. destruct (taken_text path raw Ev) as [Er Ht]. fold r in Er. by rewrite Er. }
  assert (He : json_text (if valid r then txt "null" else print_string (error r))).
  { destruct (valid r); apply value_text; [apply value_literal; right; right; by left|apply value_string, string_printed]. }
  set (memory := print (JObj [(txt "total_kb", JNum (total_kb mem)); (txt "available_kb", JNum (available_kb mem));
    (txt "swap_total_kb", JNum (swap_total_kb mem)); (txt "swap_free_kb", JNum (swap_free_kb mem))])).
  set (ms := [(print_string (txt "service"), print_string (txt "status_server")); (print_string (txt "hostname"), print_string host);
    (print_string (txt "loadavg"), print_string load); (print_string (txt "memory"), memory); (print_string (txt "proxy"), process_json proxy);
    (print_string (txt "proxy_runtime"), if valid r then raw_json r else txt "null");
    (print_string (txt "proxy_runtime_error"), if valid r then txt "null" else print_string (error r))]).
  assert (E : BuildMetricsJson mem proxy r host load = txt "{" ++ join_with (txt ",") (map pair_text ms) ++ txt "}").
  { unfold BuildMetricsJson, ms, memory, num_field, str_field, field, pair_text. cbn [print map fst snd join_with fmap list_fmap concat].
    by repeat (rewrite <- ?app_assoc; cbn [app]). }
  rewrite E. apply object_text. unfold ms.
  repeat (apply Forall_cons; split; [cbn [fst snd]; split; [apply string_printed|]|]); [..|constructor].
  all: first [done|apply value_text, value_string, string_printed|apply value_text, print_value|apply process_json_text|idtac].
Qed.

(** ** Reading what the proxy has written *)

(** What follows the first occurrence of a quoted key. *)
Definition past_key (k : string) (s : bytes) : option bytes := snd <$> split_sub (needle (txt k)) s.

Lemma after_colon_key s k : after_colon s k = (r ← past_key k s; '(_, r) ← split_at ":"%char r; Some r).
Proof. unfold after_colon, past_key. by destruct (split_sub _ _) as [[]|]. Qed.

Lemma past_key_step k c s : strip_prefix (needle (txt k)) (c :: s) = None → past_key k (c :: s) = past_key k s.
Proof. unfold past_key. intros E. cbn [split_sub]. rewrite E. by destruct (split_sub _ s) as [[]|]. Qed.

Lemma past_key_here k s : past_key k (needle (txt k) ++ s) = Some s.
Proof.
  unfold past_key. assert (E : strip_prefix (needle (txt k)) (needle (txt k) ++ s) = Some s) by by apply strip_prefix_Some.
  destruct (needle (txt k) ++ s) eqn:En; cbn [split_sub]; by rewrite E.
Qed.

Lemma past_key_skip k t s : dq ∉ t → past_key k (t ++ s) = past_key k s.
Proof.
  induction t as [|c t IH]; intros Ht; [done|]. apply not_elem_of_cons in Ht as [Hc Ht]. cbn [app]. rewrite past_key_step; [by apply IH|].
  unfold needle. cbn [app strip_prefix]. by rewrite decide_False.
Qed.

(** The key is the first at which the search does not fail; up to there the text is known. *)
Ltac to_key := repeat (rewrite past_key_step by reflexivity).

Lemma number_no_quote n : dq ∉ to_string_i n.
Proof. unfold to_string_i. destruct (Z.ltb_spec n 0); [apply not_elem_of_cons; split; [done|]|]; apply to_string_no_dq; lia. Qed.

Section Reading.
Context {E : Type} (config_ : service_config) (v : sight) (f : facts (E := E)).

(** The start of a snapshot and the rest of it. *)
Lemma snapshot_start : ∃ rest, SnapshotMetricsJson config_ v f =
  txt "{" ++ needle (txt "service") ++ ":"%char :: needle (txt "tcp_reverse_proxy") ++ ","%char :: needle (txt "pid") ++ ":"%char :: to_string_i (pid v) ++
  ","%char :: needle (txt "uptime_seconds") ++ ":"%char :: to_string_i (from_option (λ t, clock v - t) 0 (started_at f)) ++ ","%char :: rest.
Proof.
  unfold SnapshotMetricsJson, str_field, num_field, field. cbv zeta. eexists. repeat (rewrite <- ?app_assoc; cbn [app txt list_ascii_of_string needle]).
  unfold print_string. cbn [app]. reflexivity.
Qed.

Lemma snapshot_ends : head (SnapshotMetricsJson config_ v f) = Some "{"%char ∧ ends_with (txt "}") (SnapshotMetricsJson config_ v f) = true.
Proof.
  split; [done|]. rewrite snapshot_text. unfold snapshot. rewrite print_obj. apply ends_with_true. eexists (_ ++ _). by rewrite <- app_assoc.
Qed.

Lemma brace_trimmed s : head s = Some "{"%char → ends_with (txt "}") s = true → Trim s = s.
Proof.
  intros Hh [l ->]%ends_with_true. apply Trim_id.
  - destruct l as [|b l]; [done|]. by injection Hh as ->.
  - by rewrite reverse_app.
Qed.

(** What the status server reads, for a file that holds a snapshot or a part of it. *)
Lemma snapshot_taken path :
  let r := ReadProxyRuntimeSnapshot path (SnapshotMetricsJson config_ v f) in
  valid r = true ∧ (0 ≤ pid v < 2 ^ 64 → rs_pid r = pid v) ∧
  (0 ≤ from_option (λ t, clock v - t) 0 (started_at f) < 2 ^ 64 → uptime_seconds r = from_option (λ t, clock v - t) 0 (started_at f)).
Proof.
  destruct snapshot_ends as [Hh He]. unfold ReadProxyRuntimeSnapshot. cbv zeta. rewrite (brace_trimmed _ Hh He).
  assert (Hne : SnapshotMetricsJson config_ v f ≠ []) by done. rewrite (bool_decide_false _ Hne).
  assert (Hs : starts_with (txt "{") (SnapshotMetricsJson config_ v f) = true) by (apply starts_with_true; by eexists).
  rewrite Hs, He. cbn [negb orb]. assert (HV : Valid (SnapshotMetricsJson config_ v f) = true).
  { apply Valid_complete, value_text. rewrite snapshot_text. apply print_value. }
  rewrite HV. cbn [negb]. destruct snapshot_start as (rest & Es).
  assert (Hservice : ExtractJsonString (SnapshotMetricsJson config_ v f) "service" = Some (txt "tcp_reverse_proxy")).
  { unfold ExtractJsonString. rewrite after_colon_key, Es. cbn [txt list_ascii_of_string needle app]. to_key.
    match goal with |- context [past_key _ ?x] => change x with (needle (txt "service") ++ drop 9 x) end. rewrite past_key_here. vm_compute. done. }
  rewrite Hservice, bool_decide_true by done. cbn [negb valid rs_pid uptime_seconds]. split; [done|]. unfold ExtractJsonUint. rewrite !after_colon_key, Es.
  assert (Hpid : ∀ s, past_key "pid" (txt "{" ++ needle (txt "service") ++ ":"%char :: needle (txt "tcp_reverse_proxy") ++ ","%char :: needle (txt "pid") ++ s) = Some s).
  { intros s. cbn [txt list_ascii_of_string needle app]. to_key. apply (past_key_here "pid"). }
  assert (Hup : ∀ s, past_key "uptime_seconds" (txt "{" ++ needle (txt "service") ++ ":"%char :: needle (txt "tcp_reverse_proxy") ++ ","%char ::
      needle (txt "pid") ++ ":"%char :: to_string_i (pid v) ++ ","%char :: needle (txt "uptime_seconds") ++ s) = Some s).
  { intros s. cbn [txt list_ascii_of_string needle app]. to_key. rewrite past_key_skip by apply number_no_quote. to_key. apply (past_key_here "uptime_seconds"). }
  rewrite Hpid, Hup. cbn [mbind option_bind split_at]. rewrite !decide_True by done. cbn [mbind option_bind].
  unfold to_string_i. split; intros Hr; rewrite (proj2 (Z.ltb_ge _ _)) by lia; by rewrite read_uint_to_string.
Qed.

(** A part of a snapshot is refused. *)
Lemma truncated_refused path p : p `prefix_of` SnapshotMetricsJson config_ v f → p ≠ SnapshotMetricsJson config_ v f →
  valid (ReadProxyRuntimeSnapshot path p) = false.
Proof.
  intros [x Ex] Hne. apply not_true_is_false. intros Hv. apply Hne. clear Hne.
  assert (Ht : starts_with (txt "{") (Trim p) = true ∧ Valid (Trim p) = true).
  { revert Hv. unfold ReadProxyRuntimeSnapshot. case_bool_decide; [done|]. destruct (starts_with _ (Trim p)), (ends_with _ (Trim p)); try done.
    cbn [negb orb]. by destruct (Valid (Trim p)). }
  destruct Ht as [[y Hy]%starts_with_true HV]. apply Valid_sound in HV as (w & u & w' & Eu & Hw & Hu & Hw').
  destruct (Trim_parts p) as (w0 & w1 & Ep & Hw0 & _).
  assert (w0 = []) as ->.
  { destruct Hw0 as [|b w0 Hb _]; [done|]. destruct snapshot_ends as [Hh _]. rewrite Ex, Ep in Hh. injection Hh as ->. done. }
  assert (Hhead : ∀ z, head (Trim p ++ z) = Some "{"%char) by (intros z; by rewrite Hy).
  assert (w = []) as -> by (destruct Hw as [|b w Hb _]; [done|]; specialize (Hhead []); rewrite Eu in Hhead; injection Hhead as ->; done).
  assert (Eall : SnapshotMetricsJson config_ v f = u ++ (w' ++ w1 ++ x)).
  { rewrite Ex, Ep at 1. rewrite Eu. cbn [app]. by rewrite <- !app_assoc. }
  assert (Hx : w' ++ w1 ++ x = []).
  { apply (object_whole u); [rewrite <- Eall, snapshot_text; apply print_value|done|]. destruct (value_head u [] Hu) as (b & t & Eb & _).
    rewrite app_nil_r in Eb. specialize (Hhead []). rewrite Eu, Eb in Hhead. rewrite Eb. exact Hhead. }
  apply app_eq_nil in Hx as [_ Hx]. apply app_eq_nil in Hx as [_ ->]. by rewrite app_nil_r in Ex.
Qed.
End Reading.

#[local] Instance flushes_decision e : Decision (flushes e).
Proof. unfold flushes. destruct (answer_of e); apply _. Defined.

(** C33: The status server and the proxy agree on the metrics file.  In every run of
    the proxy (calls of [Start], [Stop] and [ReloadDownstreamTlsContext] interleaved
    with the operations of the metrics thread, whatever fails) that began without such a
    file: a file that is there holds the snapshot that one event of the run took, of what
    the server knew at that moment and what that event saw, or the beginning of it, which
    is all there is if closing a stream lost part of its buffer.  The status server takes
    it for valid exactly if it is the whole snapshot, and then reads the number of the
    process and the seconds the server has been up as they were at that event, given that
    these are between 0 and 2^64. *)
Theorem status_reads_proxy {E} (resolve : bytes → Z → option E) config_ path d es :
  metrics_file d = None → let s := run resolve config_ d es in
  ∀ t, metrics_file (files s) = Some t → ∃ es' e v,
    let f := knew resolve config_ d es' e in let up := from_option (λ t, clock v - t) 0 (started_at f) in
    let r := ReadProxyRuntimeSnapshot path t in
    es' ++ [e] `prefix_of` es ∧ sight_of e = Some v ∧ t `prefix_of` SnapshotMetricsJson config_ v f ∧
    (Forall flushes es → t = SnapshotMetricsJson config_ v f) ∧
    (valid r = true ↔ t = SnapshotMetricsJson config_ v f) ∧
    (valid r = true → 0 ≤ pid v < 2 ^ 64 → rs_pid r = pid v) ∧
    (valid r = true → 0 ≤ up < 2 ^ 64 → uptime_seconds r = up).
Proof.
  intros Hd s t Ht. set (whole := bool_decide (Forall flushes es)).
  assert (texts resolve config_ whole d es t) as (full & n & (es' & e & v & Hp & Hv & ->) & Hn & Hw).
  { destruct (run_inv resolve config_ whole d es) as [H1 _]; [by intros ?%bool_decide_eq_true|].
    destruct (H1 t Ht) as [?|?]; [congruence|done]. }
  exists es', e, v. set (f := knew resolve config_ d es' e) in *. cbv zeta.
  assert (valid (ReadProxyRuntimeSnapshot path t) = true ↔ t = SnapshotMetricsJson config_ v f) as Hvalid.
  { split; [|intros ->; apply snapshot_taken]. intros Hval. destruct (decide (t = SnapshotMetricsJson config_ v f)) as [|Hne]; [done|].
    rewrite (truncated_refused config_ v f path t) in Hval; [done| |done]. rewrite Hn. apply prefix_take. }
  split_and!; try done.
  - rewrite Hn. apply prefix_take.
  - intros Hf. apply Hw. by apply bool_decide_eq_true.
  - intros ->%Hvalid. apply snapshot_taken.
  - intros ->%Hvalid. apply snapshot_taken.
Qed.

(** In the sample run the file is the snapshot of one of its events, is valid, and shows
    the process of that event. *)
Lemma status_reads_proxy_witness : let s := run resolves one_worker no_files a_run in
  ∃ t es' e v, metrics_file (files s) = Some t ∧ es' ++ [e] `prefix_of` a_run ∧ sight_of e = Some v ∧
    let r := ReadProxyRuntimeSnapshot (txt "m") t in
    valid r = true ∧ t = SnapshotMetricsJson one_worker v (knew resolves one_worker no_files es' e) ∧
    (0 ≤ pid v < 2 ^ 64 → rs_pid r = pid v).
Proof.
  intros s. assert (Ht : ∃ t, metrics_file (files s) = Some t) by (by eexists; vm_compute). destruct Ht as [t Ht].
  destruct (status_reads_proxy resolves one_worker (txt "m") no_files a_run) with (t := t)
    as (es' & e & v & Hp & Hv & _ & Hw & Hval & Hpid & _); [done|exact Ht|].
  assert (Hfull := Hw ltac:(by repeat (apply Forall_cons; split; [done|]))).
  assert (Htrue := proj2 Hval Hfull). exists t, es', e, v. cbv zeta. split_and!; try done. by apply Hpid.
Defined.

(** Everything that is read from a snapshot of a proxy with a worker and a route. *)
Example all_read : let f := mkFacts (mkProxyServer true (Some (txt "up", 9000)) [(txt "a.example", (txt "b", 80))] None [0]) (Some 10) 0 0 in
  let t := SnapshotMetricsJson one_worker (seen 30 2) f in
  ReadProxyRuntimeSnapshot (txt "m") t = mkRuntime true t [] (txt "up:9000") (txt "0.0.0.0") 8080 42 20 1 1 2 1 false false
    [mkRuntimeWorker 0 (-1) 2 1] [mkRuntimeRoute (txt "a.example") (txt "b:80")].
Proof. by vm_compute. Qed.

(** The search is for the first occurrence of a quoted key, also among the values: a proxy whose
    host is named like a key is shown with a wrong value of it. *)
Example name_hides_count : let f := mkFacts (mkProxyServer true (Some (txt "up", 9000)) [] None [0]) (Some 10) 0 0 in
  let cfg := mkServiceConfig (mkProxyConfig (txt "up") 9000 [] false 1) (txt "configured_worker_count") 8080 (txt "m") 30 30 in
  let r := ReadProxyRuntimeSnapshot (txt "m") (SnapshotMetricsJson cfg (seen 30 2) f) in
  valid r = true ∧ configured_worker_count r = 8080.
Proof. by vm_compute. Qed.
